(* ===== verification/_CoqProject ===== *)
-Q . S2P
Prelude.v
GoStrings.v
Regex.v
GoPath.v
Policy.v
Merge.v
Argv.v
Engine.v
OperatorAction.v
Session.v
ActionGrant.v
Ticket.v
Broker.v
Hook.v
Simple.v
GitRepo.v
PlaneContract.v
RepoRoot.v
GitRules.v
Wrappers.v
NetRules.v
Json.v
GenMerge.v
Manifest.v
GenConfig.v
Lifecycle.v
Operands.v
FindActions.v
Containment.v
WriteTargets.v
JsonText.v
OverlayFile.v
Recipe.v
Durable.v
Allowance.v
PathRules.v
CommandRules.v
ToolchainRules.v
CredentialRules.v
DeleteRules.v
Syntax.v
StdoutFate.v
Exemptions.v
BashRules.v
ShellState.v
ShellVars.v
ShellCd.v
StdinFlow.v
Extract.v
Walker.v
WalkInvariant.v
Normalize.v
Fuel.v
Reach.v
TokenFacts.v
TrifectaSignals.v
JsonCodec.v
ApprovalKey.v
RuneText.v
Adapter.v
AdapterFacts.v
Guidance.v
Fetch.v
OperatorAuth.v
Daemon.v
SelfUpdate.v
ApprovalDaemon.v
ActionAudit.v
Wire.v
