(* ===== verification/Prelude.v ===== *)
(** * agent-guardrails: a verification development

    [guardrail] is the policy engine that stands between a coding agent and the
    machine it works on.  A plane (Claude Code, Codex, OpenCode, Antigravity)
    hands every tool call to [guardrail hook], which answers allow, ask or deny.
    This library models the parts of the program that decide, and proves what
    makes their decisions trustworthy: nothing is allowed without a ground,
    everything that loosens a policy was authorized by the operator, what was
    granted once is spent once, and a command cannot dress up as another.

    ** The program and its parts

    A payload is parsed into a [ToolCall] ([internal/adapter],
    [internal/planecontract], [internal/engine/toolcall.go]).  The hook
    ([cmd/guardrail/hook.go]) voids the session's stale tickets, merges the
    embedded Base policy with the repository's Overlay under the authorizations
    of the Operator config ([internal/policy]), answers canonical operator
    commands itself, and evaluates everything else ([internal/engine]) inside a
    session transaction ([internal/session]).  What is still an ask may be
    relaxed by night mode, a command grant or an exact-action approval; each
    relaxation is paid for before it takes effect and undone when it could not
    be recorded.  The verdict is printed the way the plane reads it.

    ** Files

    - [Prelude]: results of fallible functions, boolean reflection, induction for
      loops that take one or two words, the development's tactics and hints.
    - [GoStrings], [Regex], [GoPath]: the parts of Go's [strings], [strconv],
      [regexp] and [path/filepath] the sources use.  [Regex] is a matcher by
      derivatives proved against the language of the expression; [GoPath] has
      [filepath.Clean] and [Rel], [internal/pathutil/resolve.go],
      [internal/engine/posix_path.go] and [withinSafe].
    - [Policy]: decisions, verdicts, host names, command grants and the Operator
      config ([internal/policy/policy.go], [grants.go], [operator.go]).
    - [Merge]: [policy.Merge] ([merge.go], [config.go]).
    - [Argv]: the argument-vector helpers of [internal/engine/rules_bash.go].
    - [Engine]: [Evaluate] and the calls it judges ([evaluate.go],
      [toolcall.go]).
    - [OperatorAction]: the canonical operator commands ([operator_action.go]).
    - [Session]: the session state and its transaction, night mode, command
      grants, OpenCode approvals and trifecta tracking ([internal/session],
      [internal/night], [night.go], [grant.go], [opencode_approval.go],
      [trifecta_signals.go], [cmd/guardrail/grant_transaction.go]).  The class
      [Relaxation] states what each way of relaxing an ask promises the hook.
    - [ActionGrant]: the store of exact-action approvals
      ([internal/actiongrant/store.go]).
    - [Ticket], [Broker]: tickets of prompt mode and requests of passkey mode
      ([internal/approval/ticket.go], [broker.go]).
    - [Hook]: one hook call, composed of the above ([cmd/guardrail/hook.go],
      [approval_mode.go]).
    - [Simple]: one command of a shell line as the tokenizer leaves it, and the
      commands derived from it ([tokenize.go]).
    - [GitRepo], [GitRules]: the repository a git command works on, and the git
      rules ([rules_git.go]).
    - [Wrappers]: the commands that run other commands, shells' [-c] and
      container runners ([tokenize.go], [rules_bash.go]).
    - [NetRules]: the destinations of network tools and the egress rule
      ([rules_net.go], the parameter binding of [rules_powershell.go]).
    - [Operands], [FindActions]: which words of a command are paths
      ([operands.go]) and what a find expression does ([find_actions.go]); the
      analysis of a shell line that the rules share ([analyzeBash]).
    - [Containment]: relations between paths, authorized roots, worktrees
      ([rules_bash.go], [rules_path.go], [host_path.go], [worktree.go]).
    - [WriteTargets], [PathRules]: what a command writes and the path rules
      ([rules_path.go], [rules_powershell_write.go]); [checkPathsAnalysis] is the
      path part of [Engine.Evaluate], and the theorems of [PathRules] are about
      [Evaluate] with it.
    - [CommandRules], [ToolchainRules], [CredentialRules], [DeleteRules]: the rules
      on one command: power, disks, downloads, installs, the supervisor's own
      commands and updates ([rules_power.go], [rules_cmd.go], [rules_net.go],
      [rules_install_spellings.go], [rules_update.go], [rules_rg.go]); [gh] and [go]
      ([rules_gh.go], [rules_gh_porcelain.go], [rules_go.go]); publishing,
      deploying and printing credentials ([rules_credentialed.go],
      [rules_credential_print.go]); deletes, writes, redirects and find
      ([rules_bash.go], [rules_cmd.go], [rules_powershell.go]).
    - [Syntax]: the shape of the parser's tree as far as the engine looks into it,
      and static and literal words ([tokenize.go]).
    - [StdoutFate]: where the output of every statement ends up
      ([stdout_fate.go]), with the rules of how output flows as its specification.
    - [Exemptions]: the finds that delete only behind literal writes
      ([literalWriteFindExemptions]).
    - [BashRules]: [checkBashAnalysis], every rule on every command of a line and on
      every command its finds run; with [PathRules] it makes the engine complete,
      and its theorems are about [Evaluate] with both.
    - [ShellState], [ShellVars], [ShellCd]: what the tokenizer knows of the running
      shell ([cwdState], [cwdOutcome]) and how merges, assignments, declarations,
      builtins and [cd] change it ([tokenize.go]).  A state [describes] a set of
      shells; the theorems say that no shell is lost.
    - [StdinFlow]: which statements read the input of which stage of a pipe
      ([pipelinePositions] of [tokenize.go]).
    - [Extract], [Walker], [Normalize]: the simple commands of a syntax tree, the
      walk that carries the state through it ([cwdWalker]), and the nesting of
      sources: functions, [eval], loops over known items, shells, remote commands
      ([normalizeWithState], [stripAndUnwrap] of [tokenize.go]).  The walk is a
      state monad over what it writes; [Normalize] ties the knot.
    - [WalkInvariant]: the class of invariants a walk keeps, proved once over the
      mutual recursion of the tree.  [Fuel] does the same for the order between two
      walks; [Reach] and [TokenFacts] are its clients: the commands a walk is sure to
      reach, and the well-formedness of states.
    - [Json]: JSON values with the dynamic types Go's decoder and the generators
      give them, their encoding and its injectivity.
    - [GenMerge], [Manifest], [Lifecycle]: merging a fragment into a plane's
      settings, the manifest of what it changed, and enabling, disabling and
      checking a plane over files whose writes may fail
      ([internal/genconfig/merge.go], [manifest.go], [manifest_drift.go],
      [readjson.go], [legacy_floor.go]).
    - [GenConfig]: the fragments themselves and the quoting of hook commands
      ([hookcommand.go], [claude.go], [antigravity.go], [opencode.go]).

    - [PlaneContract]: the tools of each plane, the registry of typed MCP tools and
      the tools of degraded mode ([internal/planecontract]).
    - [JsonText], [JsonCodec]: a reader of JSON text with the decoding of
      [encoding/json] into strings, structs, slices, maps and raw members, and the
      round trip with the encoding of [Json].  [RuneText]: text spelled by runes of one
      kind, which what is shown and what is fetched have in common.
    - [RepoRoot], [OverlayFile]: which repository a call is in and which Overlay it
      reads ([reporoot.go], [reporoot_unix.go], [config.go] of [internal/policy]), and
      loading that Overlay.
    - [Recipe]: the checks of an edited file and of a completed session
      ([internal/recipe]).
    - [Fetch]: the constrained fetch ([internal/fetch/proxy.go]).
    - [TrifectaSignals]: what P7 takes for private data and for a network attempt
      ([internal/engine/trifecta_signals.go]), with the memory of [Session].
    - [Adapter], [AdapterFacts]: the parsers of the four payloads
      ([internal/adapter]: [claude.go], [codex.go], [codex_web.go],
      [web_research.go], [apply_patch.go], [mcp.go], [opencode.go],
      [antigravity.go]) and what they guarantee.
    - [Guidance]: the text shown to the model ([guidance.go], [sanitize.go],
      [guidance_metadata.go], [internal/safetext]).
    - [ApprovalKey]: what identifies an OpenCode call that was approved
      ([internal/engine/opencode_approval.go]), over the reader of [JsonText].
    - [Durable]: programs over durable state, any call of which may be refused, report
      an error late or be the last one of the process, and triples over their endings.
    - [Allowance]: changing the Overlay and the operator's configuration together, with
      the journal that makes it one change, and batches of such changes
      ([cmd/guardrail/allowance_transaction.go], [egress.go], [web_research.go],
      [grant_transaction.go]).
    - [ActionAudit]: the requested and completed records around an approved action
      ([cmd/guardrail/action_audit.go]).
    - [OperatorAuth]: the operator's authenticators, registrations and assertions, and
      what a challenge binds ([internal/operatorauth]).
    - [ApprovalDaemon]: the approval daemon and its pages as tasks that interleave over
      the broker's store and the authenticators ([internal/approval/daemon.go],
      [browser.go], [apply_local.go]).
    - [Daemon]: the resident process, its client and the verdict of a call it answers
      ([internal/daemon], [cmd/guardrail/daemon.go]).
    - [Wire]: what a verdict is printed as, and [cmdHook], the command from its
      arguments and its payload to its output, with what each plane reads back.

    Definitions keep the names of the source; a Go struct is a record whose
    fields carry a short prefix, a Go map a [gmap] or, where its order or its
    duplicates matter, an association list, a [(T, error)] a [result] or an
    option, and a loop over words a structural recursion over their list.

    ** What the theorems show

    - Decisions: a deny of the engine survives every relaxation and failure of
      one hook call, and an allow has one of the listed grounds ([Hook]);
      [Evaluate] takes the strictest of its hits, allows only when nothing
      objects, denies when an input is missing and asks when a rule panics
      ([Engine]).
    - Loosening: a merged policy keeps the Base's protection, and every waiver,
      egress entry, web host, secret allowance and audit path in it was
      authorized for this repository; added safe roots are inside it ([Merge]).
    - Spending: a command grant is consumed exactly as often as it has uses, an
      exact-action approval once, a ticket no more often than it was issued, a
      broker request at most once, over any interleaving of operations
      ([Session], [ActionGrant], [Ticket], [Broker]).
    - Recognition: only whole canonical commands are operator commands
      ([OperatorAction]); forced pushes, dangerous configuration keys and risky
      refspecs are recognised in every spelling and position ([GitRules]); a
      wrapped command is judged as the command it runs ([Wrappers]); every
      operand, proxy and jump host of a network tool is checked ([NetRules]).
      A word of a command is never lost between its options ([Operands]), and the
      check of a find expression accepts exactly find's grammar ([FindActions]).
    - Paths: a secret directory is not reached by any path a call touches, git's
      hooks and the supervisor's files are not written, allowed writes of file
      tools stay in the repository and its paths resolve inside it ([PathRules],
      over the relations of [Containment]).
    - Commands: no rule's verdict on any command of a line is lost; a recursive
      delete that passes is confined and spares the working tree, in three shells
      whose spellings agree; a find that deletes is not raced by an earlier write
      ([BashRules]).  Lemmas named [_missed], [_unread] and [_taken] evaluate
      spellings the sources do not recognise.
    - From text to rules: every literal command that a line without functions,
      [eval] and [for] can reach is judged with its own words, and a recursive delete
      among them is confined ([Reach]); words read through variables are what the
      shell makes of them ([ShellVars]), [cd] is followed ([ShellCd]), states stay
      well-formed ([TokenFacts]), a download piped into an interpreter is denied in
      whatever groups they stand, and the order Go gives pipes changes no verdict
      ([StdinFlow]).
    - Configuration: enabling and disabling a plane restores the operator's
      document, a merge keeps what the operator wrote and only tightens
      permissions, merging twice changes nothing, and a hook command runs the
      binary it names ([Lifecycle], [GenMerge], [GenConfig]).
    - Discovery: the walk to the enclosing repository finds the nearest one
      below the temp root and cannot be captured from above it ([GitRepo]); the Overlay
      comes from a repository of this user, and its Odoo settings cannot make a recipe
      read outside it or take an option ([RepoRoot], [OverlayFile]).
    - Sessions: a read of a secret and a network tool never pass unasked in one session
      ([TrifectaSignals]); a session completes only after checks that passed on the
      fingerprint its files have ([Recipe]); no request of a fetch leaves for a host
      outside the policy ([Fetch]).
    - The operator's files: whatever calls fail and wherever processes die, recovery
      ends with the Overlay and the configuration of a sequential run of the
      operations ([Allowance]); the log accounts for every approved action that was
      applied and for no other ([ActionAudit]).
    - Approval: an accepted assertion answers a challenge over this very request, for
      the authenticators enrolled then, once ([OperatorAuth]); what the approval daemon
      executes was signed before, however connections and pages interleave
      ([ApprovalDaemon]); an approved retry is
      recognised by exactly session, directory, tool and arguments ([ApprovalKey]); a
      daemon keeps the denials of the policy the hook reads ([Daemon]).

    - The wire: a payload no parser accepts and a call whose denial nothing may
      relax are answered so that the plane does not run the call, and no text in a
      verdict can make an answer read as a looser one ([Wire]); the paths, the
      capability and the address of a call are those its payload names, whatever
      the order of its members ([AdapterFacts]); text shown to the model is one
      line of bounded length ([Guidance]).

    ** Parameters, bounds and fuel

    What the host does is a parameter: the answers of the file system, the
    environment, the clock, locks and writes that may fail, fresh identities and
    digests.  So are [url.Parse], [net.ParseIP], the Unicode tables, the doublestar
    glob matcher, the TOML decoder and encoder, the WebAuthn library, the digests and the
    shell parser, which are not in this repository, git and the programs recipes run, and the
    analyses of a shell command and its paths inside [Evaluate] and [Hook], whose
    theorems hold for every such analysis, a panicking one included; [PathRules]
    puts the path rules in their place.  Where a theorem
    relies on documented behaviour of a parameter it is a named hypothesis
    ([evalsymlinks_abs], for instance) and the theorem's witness instantiates
    it.  Times are integers in nanoseconds and [int] conversions keep their
    64-bit range ([Atoi]).

    Loops that are not structural carry fuel computed from their input:
    [resolve_fuel] (the length of the path and three: each turn shortens the
    path, but for one that replaces it by [.]), [walk_fuel] (the number of
    elements of the directory and one; [RepoRoot] climbs with it too), and one turn per word for the peeling of
    wrappers; [resolve_loop_total], [discover_nearest], [relation_loop_fuel] and
    [strip_sound] show that they suffice.  The readers of text ([runes],
    [split_quoted], [glob_items]) take a turn per byte at most, and each consumes
    one.  [stripAndUnwrap] takes a turn per runner, whose command is shorter than its
    own words.  The fuel of [normalizeWithState] counts sources nested in each other;
    the code has no bound there, and [eval_never_ends] is a line on which it does not
    return, so the model's [OutOfFuel] is an answer of its own, apart from errors and
    panics.  [normalize_fuel_irrelevant] shows that no other answer depends on the
    fuel.  The reader of JSON takes [encoding/json]'s limit of 10,000 nested values for
    its fuel, which is the code's own bound; its lists take a turn per byte, and each
    turn consumes one ([sep_list_enough]).  The budget of [Fetch] is the number of requests
    answered before the client's deadline, the only bound there is
    ([redirects_until_deadline]).

    ** Not modelled

    The model is of a POSIX host: branches for Windows are not taken.  The shell
    parser, its brace splitting and its patterns are parameters of the tokenizer.  A Go
    map that commands share ([gitEnvironment]) is copied where it is derived; only the
    git rules read it, and no command they judge writes into it.  The glob translation
    and scripts of the configuration generators, the rotation of the audit log, the
    daemons' listeners and endpoints, the page's HTML and script, the observation of
    transcripts and the setup and reporting commands are input and output around the
    components above.  Of [OperatorAuth], the conversion of records for the WebAuthn
    library is its parameter.  Of the hook, the warnings
    of a run that succeeds, the checks of a session start and the diagnostic record of
    Codex are left out. *)

From Stdlib Require Import ZArith Lia Bool.
From Stdlib Require Export Ascii String.
From stdpp Require Export base tactics list strings gmap fin_maps.

Declare Scope go_scope.
Delimit Scope go_scope with go.
Open Scope string_scope.
Open Scope list_scope.

#[global] Arguments String.append !_ _ : simpl nomatch.

(** ** Results of fallible Go functions *)

(** A Go function that returns [(T, error)]: a value, or an error and no
    usable value. *)
Inductive result (E A : Type) : Type :=
| Ok (a : A)
| Err (e : E).
Arguments Ok {E A} _.
Arguments Err {E A} _.

Definition result_bind {E A B} (c : result E A) (k : A -> result E B) : result E B :=
  match c with Ok a => k a | Err e => Err e end.

Notation "'let!' x := c 'in' k" := (result_bind c (fun x => k))
  (at level 200, x pattern, right associativity) : go_scope.

Definition is_ok {E A} (r : result E A) : bool :=
  match r with Ok _ => true | Err _ => false end.

(** ** Booleans, strings and options as the code compares them *)

Notation "s =s? t" := (String.eqb s t) (at level 70, no associativity) : go_scope.
Notation "s <>s? t" := (negb (String.eqb s t)) (at level 70, no associativity) : go_scope.
Open Scope go_scope.

Definition in_list (s : string) (l : list string) : bool :=
  existsb (String.eqb s) l.

(** ** Proof automation *)

Create HintDb guard discriminated.

Lemma string_eqb_true s t : (s =s? t) = true <-> s = t.
Proof. apply String.eqb_eq. Qed.

Lemma string_eqb_false s t : (s =s? t) = false <-> s <> t.
Proof. apply String.eqb_neq. Qed.

Lemma in_list_true s l : in_list s l = true <-> s ∈ l.
Proof.
  unfold in_list. rewrite existsb_exists. setoid_rewrite String.eqb_eq.
  split.
  - intros (x & Hx & ->). by apply list_elem_of_In.
  - intros H. exists s. split; [by apply list_elem_of_In | done].
Qed.

Lemma in_list_false s l : in_list s l = false <-> s ∉ l.
Proof.
  rewrite <- in_list_true. by destruct (in_list s l).
Qed.

(** Induction for a loop that takes one or two words at a time. *)
Lemma list_ind_two {A} (P : list A -> Prop) :
  P [] ->
  (forall a rest, P rest -> (forall v rest', rest = v :: rest' -> P rest') -> P (a :: rest)) ->
  forall l, P l.
Proof.
  intros Hn Hc. assert (H : forall n l, (length l <= n)%nat -> P l).
  { induction n as [|n IH]; intros [|a rest] Hl; simpl in Hl; try done; [lia|].
    apply Hc; [apply IH; lia|]. intros v rest' ->. simpl in Hl. apply IH. lia. }
  intros l. by apply (H (length l)).
Qed.

Lemma flat_map_nil {A B} (f : A -> list B) l : (forall a, In a l -> f a = []) -> flat_map f l = [].
Proof. induction l as [|a l IH]; intros H; [done|]. simpl. rewrite (H a), IH; [done| |by left]. intros b Hb. apply H. by right. Qed.

Lemma filter_filter_and {A} (p q : A -> bool) (l : list A) :
  List.filter p (List.filter q l) = List.filter (fun a => p a && q a) l.
Proof.
  induction l as [|a l IH]; [done|]. simpl. destruct (q a); simpl; rewrite IH; by destruct (p a).
Qed.

(** [breflect] turns the boolean tests of the code into propositions. *)
Ltac breflect :=
  repeat match goal with
  | H : andb _ _ = true |- _ => apply andb_true_iff in H as [? ?]
  | H : orb _ _ = false |- _ => apply orb_false_iff in H as [? ?]
  | H : negb _ = true |- _ => apply negb_true_iff in H
  | H : negb _ = false |- _ => apply negb_false_iff in H
  | H : String.eqb _ _ = true |- _ => apply String.eqb_eq in H
  | H : String.eqb _ _ = false |- _ => apply String.eqb_neq in H
  | H : in_list _ _ = true |- _ => apply in_list_true in H
  | H : in_list _ _ = false |- _ => apply in_list_false in H
  | H : Z.ltb _ _ = true |- _ => apply Z.ltb_lt in H
  | H : Z.ltb _ _ = false |- _ => apply Z.ltb_ge in H
  | H : Z.leb _ _ = true |- _ => apply Z.leb_le in H
  | H : Z.leb _ _ = false |- _ => apply Z.leb_gt in H
  | H : Z.eqb _ _ = true |- _ => apply Z.eqb_eq in H
  | H : Z.eqb _ _ = false |- _ => apply Z.eqb_neq in H
  | H : Nat.ltb _ _ = true |- _ => apply Nat.ltb_lt in H
  | H : Nat.ltb _ _ = false |- _ => apply Nat.ltb_ge in H
  | H : Nat.leb _ _ = true |- _ => apply Nat.leb_le in H
  | H : Nat.leb _ _ = false |- _ => apply Nat.leb_gt in H
  | H : Nat.eqb _ _ = true |- _ => apply Nat.eqb_eq in H
  | H : Nat.eqb _ _ = false |- _ => apply Nat.eqb_neq in H
  end.

(** [branches H] walks every branch of the definition unfolded in [H], or of
    the goal, closing the branches that contradict what is known. *)
Ltac branches_in H :=
  repeat (case_match; simplify_eq/=; try done); breflect.

Ltac branches :=
  repeat (case_match; simplify_eq/=; try done); breflect.
