(* ===== verification/GoStrings.v ===== *)
(** * The parts of Go's [strings], [slices] and [time] packages the sources use

    A Go string is a sequence of bytes; [String.string] is a sequence of
    8-bit [ascii] values, so the two agree byte for byte.  Every separator
    the sources split or cut on is one byte, so [Split] and [Cut] take that
    byte.  [ToLower] and [EqualFold] fold ASCII letters and the non-ASCII code
    points that Go maps to an ASCII letter (U+0130 and U+212A under [ToLower];
    U+212A and U+017F under [EqualFold]), so [EqualFold] is exact whenever one
    side is ASCII and [ToLower] whenever its result is; other non-ASCII letters
    are left as they are. *)

From Stdlib Require Import ZArith Lia Bool.
From S2P Require Import Prelude.

Open Scope string_scope.
Open Scope list_scope.

(** ** Bytes *)

Definition byte_of (n : nat) : ascii := ascii_of_nat n.
Definition byte_in (lo hi c : ascii) : bool :=
  andb (nat_of_ascii lo <=? nat_of_ascii c)%nat (nat_of_ascii c <=? nat_of_ascii hi)%nat.

Definition is_lower (c : ascii) : bool := byte_in "a" "z" c.
Definition is_upper (c : ascii) : bool := byte_in "A" "Z" c.
Definition is_digit (c : ascii) : bool := byte_in "0" "9" c.
Definition is_letter (c : ascii) : bool := is_lower c || is_upper c.

Definition lower_byte (c : ascii) : ascii :=
  if is_upper c then ascii_of_nat (nat_of_ascii c + 32) else c.

(** ** Prefixes and suffixes *)

Fixpoint CutPrefix (s pre : string) {struct pre} : option string :=
  match pre, s with
  | EmptyString, _ => Some s
  | String a p, String b t => if Ascii.eqb a b then CutPrefix t p else None
  | String _ _, EmptyString => None
  end.

Definition HasPrefix (s pre : string) : bool :=
  match CutPrefix s pre with Some _ => true | None => false end.

Definition TrimPrefix (s pre : string) : string :=
  match CutPrefix s pre with Some t => t | None => s end.

Fixpoint sdrop (n : nat) (s : string) : string :=
  match n, s with
  | O, _ => s
  | S n', String _ t => sdrop n' t
  | S _, EmptyString => EmptyString
  end.

Fixpoint stake (n : nat) (s : string) : string :=
  match n, s with
  | O, _ => EmptyString
  | S n', String c t => String c (stake n' t)
  | S _, EmptyString => EmptyString
  end.

Definition HasSuffix (s suf : string) : bool :=
  (String.length suf <=? String.length s)%nat &&
  (sdrop (String.length s - String.length suf) s =s? suf).

(** ** Searching and splitting on one byte *)

Fixpoint ContainsByte (s : string) (c : ascii) : bool :=
  match s with
  | EmptyString => false
  | String b t => Ascii.eqb b c || ContainsByte t c
  end.

(** [strings.Cut(s, c)]: what is before the first [c], what is after it, and
    whether [c] was found. *)
Fixpoint Cut (s : string) (c : ascii) : string * string * bool :=
  match s with
  | EmptyString => (EmptyString, EmptyString, false)
  | String b t =>
      if Ascii.eqb b c then (EmptyString, t, true)
      else let '(before, after, found) := Cut t c in (String b before, after, found)
  end.

(** [strings.Contains] *)
Fixpoint Contains (s sub : string) : bool :=
  HasPrefix s sub || match s with EmptyString => false | String _ t => Contains t sub end.

(** [strings.Split(s, c)]: never empty. *)
Fixpoint Split (s : string) (c : ascii) : list string :=
  match s with
  | EmptyString => [EmptyString]
  | String b t =>
      if Ascii.eqb b c then EmptyString :: Split t c
      else match Split t c with
           | [] => [String b EmptyString]
           | w :: ws => String b w :: ws
           end
  end.

Fixpoint Join (l : list string) (sep : string) : string :=
  match l with
  | [] => EmptyString
  | [w] => w
  | w :: ws => w +:+ sep +:+ Join ws sep
  end.

(** The text after the last [c], or [None] when there is none
    ([strings.LastIndex] followed by a slice). *)
Fixpoint AfterLast (s : string) (c : ascii) : option string :=
  match s with
  | EmptyString => None
  | String b t =>
      match AfterLast t c with
      | Some r => Some r
      | None => if Ascii.eqb b c then Some t else None
      end
  end.

Fixpoint all_bytes (p : ascii -> bool) (s : string) : bool :=
  match s with
  | EmptyString => true
  | String c t => p c && all_bytes p t
  end.

(** ** Case folding *)

Fixpoint ToLower (s : string) : string :=
  match s with
  | EmptyString => EmptyString
  | String c t =>
      match t with
      | EmptyString => String (lower_byte c) EmptyString
      | String d t' =>
          if (nat_of_ascii c =? 196)%nat && (nat_of_ascii d =? 176)%nat
          then String "i" (ToLower t')
          else
            match t' with
            | String e u =>
                if (nat_of_ascii c =? 226)%nat && (nat_of_ascii d =? 132)%nat &&
                   (nat_of_ascii e =? 170)%nat
                then String "k" (ToLower u)
                else String (lower_byte c) (ToLower t)
            | EmptyString => String (lower_byte c) (ToLower t)
            end
      end
  end.

(** [strings.ToUpper]: the dotless i and the long s become letters of ASCII; other
    runes beyond ASCII keep their bytes. *)
Definition raise_byte (c : ascii) : ascii :=
  if is_lower c then ascii_of_nat (nat_of_ascii c - 32) else c.

Fixpoint ToUpper (s : string) : string :=
  match s with
  | EmptyString => EmptyString
  | String c t =>
      match t with
      | EmptyString => String (raise_byte c) EmptyString
      | String d t' =>
          if (nat_of_ascii c =? 196)%nat && (nat_of_ascii d =? 177)%nat then String "I" (ToUpper t')
          else if (nat_of_ascii c =? 197)%nat && (nat_of_ascii d =? 191)%nat then String "S" (ToUpper t')
          else String (raise_byte c) (ToUpper t)
      end
  end.

Fixpoint fold_case (s : string) : string :=
  match s with
  | EmptyString => EmptyString
  | String c t =>
      match t with
      | EmptyString => String (lower_byte c) EmptyString
      | String d t' =>
          if (nat_of_ascii c =? 197)%nat && (nat_of_ascii d =? 191)%nat
          then String "s" (fold_case t')
          else
            match t' with
            | String e u =>
                if (nat_of_ascii c =? 226)%nat && (nat_of_ascii d =? 132)%nat &&
                   (nat_of_ascii e =? 170)%nat
                then String "k" (fold_case u)
                else String (lower_byte c) (fold_case t)
            | EmptyString => String (lower_byte c) (fold_case t)
            end
      end
  end.

Definition EqualFold (s t : string) : bool := fold_case s =s? fold_case t.

(** ** Trailing-byte trimming and decimal numbers *)

Fixpoint TrimRightByte (p : ascii -> bool) (s : string) : string :=
  match s with
  | EmptyString => EmptyString
  | String c t =>
      match TrimRightByte p t with
      | EmptyString => if p c then EmptyString else String c EmptyString
      | r => String c r
      end
  end.

Fixpoint digits_value (acc : Z) (s : string) : option Z :=
  match s with
  | EmptyString => Some acc
  | String c t =>
      if is_digit c
      then digits_value (acc * 10 + (Z.of_nat (nat_of_ascii c) - 48))%Z t
      else None
  end.

Definition max_int : Z := 9223372036854775807%Z.
Definition min_int : Z := (-9223372036854775808)%Z.

(** [strconv.Atoi] on a 64-bit host: an optional sign, at least one digit,
    nothing else, and a value that fits an [int64]. *)
Definition Atoi (s : string) : option Z :=
  let unsigned r := match r with EmptyString => None | _ => digits_value 0 r end in
  match s with
  | String "-" r =>
      match unsigned r with
      | Some n => if (min_int <=? - n)%Z then Some (- n)%Z else None
      | None => None
      end
  | String "+" r =>
      match unsigned r with
      | Some n => if (n <=? max_int)%Z then Some n else None
      | None => None
      end
  | _ =>
      match unsigned s with
      | Some n => if (n <=? max_int)%Z then Some n else None
      | None => None
      end
  end.

(** ** Time

    A [time.Time] is an instant: nanoseconds since Go's zero time, so that
    [IsZero] is [t = 0].  Durations are nanoseconds.  All durations the
    sources add are bounded constants, far inside [int64]. *)

Definition Time := Z.
Definition Duration := Z.
Definition Second : Duration := 1000000000%Z.
Definition Minute : Duration := (60 * Second)%Z.
Definition Hour : Duration := (60 * Minute)%Z.

Definition IsZero (t : Time) : bool := (t =? 0)%Z.
Definition Before (t u : Time) : bool := (t <? u)%Z.
Definition After (t u : Time) : bool := (u <? t)%Z.

(** ** Lemmas on prefixes *)

Lemma CutPrefix_Some s pre t : CutPrefix s pre = Some t <-> s = pre +:+ t.
Proof.
  revert s. induction pre as [|a p IH]; intros s; simpl.
  - split; intros; by simplify_eq.
  - destruct s as [|b s]; [split; intros; done|].
    destruct (Ascii.eqb a b) eqn:E.
    + apply Ascii.eqb_eq in E as ->. rewrite IH. split; intros H; [by subst|by injection H].
    + apply Ascii.eqb_neq in E. split; intros H; [done|by injection H as ->].
Qed.

Lemma HasPrefix_true s pre : HasPrefix s pre = true <-> exists t, s = pre +:+ t.
Proof.
  unfold HasPrefix. destruct (CutPrefix s pre) as [t|] eqn:E.
  - apply CutPrefix_Some in E. split; eauto.
  - split; [done|]. intros [t Ht]. apply CutPrefix_Some in Ht. congruence.
Qed.

Lemma HasPrefix_app pre t : HasPrefix (pre +:+ t) pre = true.
Proof. apply HasPrefix_true. eauto. Qed.

Lemma TrimPrefix_app pre t : TrimPrefix (pre +:+ t) pre = t.
Proof.
  unfold TrimPrefix.
  assert (CutPrefix (pre +:+ t) pre = Some t) as -> by by apply CutPrefix_Some.
  done.
Qed.

Lemma TrimPrefix_id s pre : HasPrefix s pre = false -> TrimPrefix s pre = s.
Proof. unfold HasPrefix, TrimPrefix. by destruct (CutPrefix s pre). Qed.

Lemma append_nil_r s : s +:+ EmptyString = s.
Proof. induction s as [|c s IH]; simpl; [done|by rewrite IH]. Qed.

Lemma append_assoc s t u : (s +:+ t) +:+ u = s +:+ (t +:+ u).
Proof. induction s as [|c s IH]; simpl; [done|by rewrite IH]. Qed.

Lemma length_append s t : String.length (s +:+ t) = (String.length s + String.length t)%nat.
Proof. induction s as [|c s IH]; simpl; [done|by rewrite IH]. Qed.

(** ** Lemmas on [Cut], [Split] and [Join] *)

Lemma Cut_found s c before after :
  Cut s c = (before, after, true) ->
  s = before +:+ String c after /\ ContainsByte before c = false.
Proof.
  revert before after. induction s as [|b s IH]; intros before after; simpl; [done|].
  destruct (Ascii.eqb b c) eqn:E.
  - intros H; simplify_eq. apply Ascii.eqb_eq in E as ->. done.
  - destruct (Cut s c) as [[bf af] fd] eqn:EC. intros H; simplify_eq.
    destruct (IH _ _ eq_refl) as [-> Hb]. simpl. by rewrite E.
Qed.

Lemma Cut_missing s c before after :
  Cut s c = (before, after, false) ->
  before = s /\ after = EmptyString /\ ContainsByte s c = false.
Proof.
  revert before after. induction s as [|b s IH]; intros before after; simpl;
    [by intros; simplify_eq|].
  destruct (Ascii.eqb b c) eqn:E; [done|].
  destruct (Cut s c) as [[bf af] fd] eqn:EC. intros H; simplify_eq.
  destruct (IH _ _ eq_refl) as (-> & -> & Hb). done.
Qed.

Lemma Cut_app_sep w c t : ContainsByte w c = false -> Cut (w +:+ String c t) c = (w, t, true).
Proof.
  induction w as [|d w IH]; intros Hw; simpl; [by rewrite Ascii.eqb_refl|].
  simpl in Hw. apply orb_false_iff in Hw as [Hc Hw]. rewrite Hc. by rewrite (IH Hw).
Qed.

Lemma Cut_none w c : ContainsByte w c = false -> Cut w c = (w, "", false).
Proof.
  induction w as [|d w IH]; intros Hw; [done|].
  simpl in Hw. apply orb_false_iff in Hw as [Hc Hw]. simpl. rewrite Hc. by rewrite (IH Hw).
Qed.

Lemma Split_not_nil s c : Split s c <> [].
Proof.
  destruct s as [|b s]; simpl; [done|].
  destruct (Ascii.eqb b c); [done|]. by destruct (Split s c).
Qed.

Lemma Join_Split s c : Join (Split s c) (String c EmptyString) = s.
Proof.
  induction s as [|b s IH]; simpl; [done|].
  destruct (Ascii.eqb b c) eqn:E.
  - apply Ascii.eqb_eq in E as ->.
    destruct (Split s c) as [|w ws] eqn:ES; [by apply Split_not_nil in ES|].
    simpl in *. by rewrite IH.
  - destruct (Split s c) as [|w ws] eqn:ES; [by apply Split_not_nil in ES|].
    destruct ws; simpl in *; by rewrite <- IH.
Qed.

Lemma Split_no_sep s c w : w ∈ Split s c -> ContainsByte w c = false.
Proof.
  revert w. induction s as [|b s IH]; intros w; simpl.
  - rewrite list_elem_of_singleton. by intros ->.
  - destruct (Ascii.eqb b c) eqn:E.
    + rewrite elem_of_cons. intros [->|Hw]; [done|by apply IH].
    + destruct (Split s c) as [|x xs] eqn:ES; [by apply Split_not_nil in ES|].
      rewrite elem_of_cons. intros [->|Hw].
      * simpl. rewrite E. simpl. apply IH. left.
      * apply IH. by right.
Qed.

Lemma all_bytes_app p s t : all_bytes p (s +:+ t) = all_bytes p s && all_bytes p t.
Proof. induction s as [|c s IH]; simpl; [done|]. by rewrite IH, andb_assoc. Qed.

Lemma all_bytes_Split p s c w :
  all_bytes p s = true -> w ∈ Split s c -> all_bytes p w = true.
Proof.
  revert w. induction s as [|b s IH]; intros w; simpl.
  - intros _. rewrite list_elem_of_singleton. by intros ->.
  - intros [Hb Hs]%andb_true_iff. destruct (Ascii.eqb b c) eqn:E.
    + rewrite elem_of_cons. intros [->|Hw]; [done|by apply IH].
    + destruct (Split s c) as [|x xs] eqn:ES; [by apply Split_not_nil in ES|].
      rewrite elem_of_cons. intros [->|Hw].
      * simpl. rewrite Hb. simpl. apply IH; [done|left].
      * apply IH; [done|by right].
Qed.

Lemma all_bytes_impl (p q : ascii -> bool) s :
  (forall c, p c = true -> q c = true) -> all_bytes p s = true -> all_bytes q s = true.
Proof.
  intros Hpq. induction s as [|c s IH]; simpl; [done|].
  rewrite !andb_true_iff. intros [? ?]; auto.
Qed.

Lemma all_bytes_not_contains p s c :
  all_bytes p s = true -> p c = false -> ContainsByte s c = false.
Proof.
  intros Hs Hc. induction s as [|b s IH]; simpl in *; [done|].
  apply andb_true_iff in Hs as [Hb Hs]. rewrite (IH Hs), orb_false_r.
  apply Ascii.eqb_neq. intros ->. congruence.
Qed.

(** ** Splitting what was joined *)

Lemma Split_app_sep w c t :
  ContainsByte w c = false -> Split (w +:+ String c t) c = w :: Split t c.
Proof.
  induction w as [|d w IH]; intros Hw; simpl; [by rewrite Ascii.eqb_refl|].
  simpl in Hw. apply orb_false_iff in Hw as [Hc Hw]. rewrite Hc. by rewrite (IH Hw).
Qed.

Lemma Split_one w c : ContainsByte w c = false -> Split w c = [w].
Proof.
  induction w as [|d w IH]; intros Hw; [done|].
  simpl in Hw. apply orb_false_iff in Hw as [Hc Hw]. simpl. rewrite Hc.
  by rewrite (IH Hw).
Qed.

Lemma Split_Join_sep l c :
  l <> [] -> Forall (fun e => ContainsByte e c = false) l ->
  Split (Join l (String c "")) c = l.
Proof.
  induction l as [|w l IH]; intros Hl Hf; [done|].
  apply Forall_cons in Hf as [Hw Hf]. destruct l as [|w' l].
  - by apply Split_one.
  - change (Join (w :: w' :: l) (String c "")) with (w +:+ String c (Join (w' :: l) (String c ""))).
    rewrite Split_app_sep by done. f_equal. by apply IH.
Qed.

Lemma sdrop_app s t : sdrop (String.length s) (s +:+ t) = t.
Proof. induction s as [|c s IH]; [done|]. apply IH. Qed.

Lemma all_bytes_Join p l sep :
  all_bytes p sep = true -> Forall (fun w => all_bytes p w = true) l -> all_bytes p (Join l sep) = true.
Proof.
  intros Hs. induction l as [|w [|w' l] IH]; intros Hf; [done|by apply Forall_cons in Hf as [? _]|].
  apply Forall_cons in Hf as [Hw Hf].
  change (Join (w :: w' :: l) sep) with (w +:+ sep +:+ Join (w' :: l) sep).
  rewrite !all_bytes_app, Hw, Hs. by apply IH.
Qed.

#[export] Hint Resolve HasPrefix_app Split_not_nil : guard.
#[export] Hint Rewrite TrimPrefix_app append_nil_r append_assoc Join_Split : guard.
