(* ===== verification/Regex.v ===== *)
(** * Anchored regular expressions

    The sources recognise canonical commands, host lists and release-shaped
    ref names with [regexp.MustCompile] patterns anchored at both ends and
    without captures that matter.  This file gives such patterns a language
    ([in_re]) and an executable matcher by derivatives ([re_match]), and
    proves the two agree, so that a pattern can be transcribed constructor by
    constructor and reasoned about through its language. *)

From Stdlib Require Import Bool.
From S2P Require Import Prelude GoStrings.

Open Scope string_scope.
Open Scope list_scope.

Inductive re : Type :=
| Void
| Eps
| Chr (p : ascii -> bool)
| Cat (r1 r2 : re)
| Alt (r1 r2 : re)
| Star (r : re).

Inductive in_re : re -> string -> Prop :=
| in_eps : in_re Eps ""
| in_chr p c : p c = true -> in_re (Chr p) (String c "")
| in_cat r1 r2 s t : in_re r1 s -> in_re r2 t -> in_re (Cat r1 r2) (s +:+ t)
| in_alt_l r1 r2 s : in_re r1 s -> in_re (Alt r1 r2) s
| in_alt_r r1 r2 s : in_re r2 s -> in_re (Alt r1 r2) s
| in_star_nil r : in_re (Star r) ""
| in_star_app r s t : in_re r s -> in_re (Star r) t -> in_re (Star r) (s +:+ t).

#[export] Hint Constructors in_re : guard.

(** ** Pattern constructors *)

Definition byte (c : ascii) : re := Chr (Ascii.eqb c).
Definition Opt (r : re) : re := Alt Eps r.
Definition Plus (r : re) : re := Cat r (Star r).

Fixpoint lit (s : string) : re :=
  match s with
  | EmptyString => Eps
  | String c EmptyString => byte c
  | String c t => Cat (byte c) (lit t)
  end.

(** [r{0,n}] *)
Fixpoint upto (n : nat) (r : re) : re :=
  match n with
  | O => Eps
  | S n' => Opt (Cat r (upto n' r))
  end.

(** ** The matcher *)

Fixpoint nullable (r : re) : bool :=
  match r with
  | Void | Chr _ => false
  | Eps | Star _ => true
  | Cat r1 r2 => nullable r1 && nullable r2
  | Alt r1 r2 => nullable r1 || nullable r2
  end.

Definition mk_cat (r1 r2 : re) : re :=
  match r1, r2 with
  | Void, _ => Void
  | _, Void => Void
  | Eps, _ => r2
  | _, Eps => r1
  | _, _ => Cat r1 r2
  end.

Definition mk_alt (r1 r2 : re) : re :=
  match r1, r2 with
  | Void, _ => r2
  | _, Void => r1
  | _, _ => Alt r1 r2
  end.

Fixpoint deriv (c : ascii) (r : re) : re :=
  match r with
  | Void | Eps => Void
  | Chr p => if p c then Eps else Void
  | Cat r1 r2 =>
      if nullable r1
      then mk_alt (mk_cat (deriv c r1) r2) (deriv c r2)
      else mk_cat (deriv c r1) r2
  | Alt r1 r2 => mk_alt (deriv c r1) (deriv c r2)
  | Star r1 => mk_cat (deriv c r1) (Star r1)
  end.

Fixpoint re_match (r : re) (s : string) : bool :=
  match s with
  | EmptyString => nullable r
  | String c t => re_match (deriv c r) t
  end.

(** ** Correctness of the matcher *)

Ltac inv_re :=
  match goal with
  | H : in_re Void _ |- _ => inversion H
  | H : in_re Eps _ |- _ => inversion H; subst; clear H
  | H : in_re (Chr _) _ |- _ => inversion H; subst; clear H
  | H : in_re (Cat _ _) _ |- _ => inversion H; subst; clear H
  | H : in_re (Alt _ _) _ |- _ => inversion H; subst; clear H
  end.

Lemma append_eq_nil s t : s +:+ t = "" -> s = "" /\ t = "".
Proof. by destruct s. Qed.


Lemma nullable_spec r : nullable r = true <-> in_re r "".
Proof.
  induction r as [| |p|r1 IH1 r2 IH2|r1 IH1 r2 IH2|r IH]; simpl.
  - split; [done|]. intros; inv_re.
  - split; eauto with guard.
  - split; [done|]. intros H; inversion H.
  - rewrite andb_true_iff, IH1, IH2. split.
    + intros [H1 H2]. by apply (in_cat _ _ "" "").
    + intros H. inversion H as [| |? ? s t Hs Ht Heq| | | |]; subst.
      match goal with E : _ +:+ _ = "" |- _ => apply append_eq_nil in E as [-> ->] end.
      done.
  - rewrite orb_true_iff, IH1, IH2. split.
    + intros [?|?]; eauto with guard.
    + intros; inv_re; auto.
  - split; eauto with guard.
Qed.

Lemma mk_cat_spec r1 r2 s : in_re (mk_cat r1 r2) s <-> in_re (Cat r1 r2) s.
Proof.
  split.
  - intros H. destruct r1, r2; simpl in H; try done; try (by inversion H);
      try (by apply (in_cat _ _ "" s); eauto with guard);
      rewrite <- (append_nil_r s); eauto with guard.
  - intros H. inversion H as [| |? ? u v Hu Hv| | | |]; subst.
    destruct r1, r2; simpl; try done; try (by inversion Hu); try (by inversion Hv);
      try (inversion Hu; subst; done);
      inversion Hv; subst; by rewrite append_nil_r.
Qed.

Lemma mk_alt_spec r1 r2 s : in_re (mk_alt r1 r2) s <-> in_re (Alt r1 r2) s.
Proof.
  split.
  - intros H. destruct r1, r2; simpl in H; eauto with guard.
  - intros H. destruct r1, r2; simpl; try done; inv_re; try done; inv_re.
Qed.

Lemma in_cat_cons r1 r2 c s :
  in_re (Cat r1 r2) (String c s) ->
  (exists u v, s = u +:+ v /\ in_re r1 (String c u) /\ in_re r2 v) \/
  (in_re r1 "" /\ in_re r2 (String c s)).
Proof.
  intros H. inversion H as [| |? ? u v Hu Hv E| | | |]; subst.
  destruct u as [|b u]; simpl in *; simplify_eq.
  - right. subst. done.
  - left. exists u, v. done.
Qed.

Lemma in_star_cons r c s :
  in_re (Star r) (String c s) ->
  exists u v, s = u +:+ v /\ in_re r (String c u) /\ in_re (Star r) v.
Proof.
  intros H. remember (Star r) as q eqn:Eq. remember (String c s) as w eqn:Ew.
  revert s Ew Eq. induction H as [| | | | |q|q u v Hu _ Hv IHv];
    intros z Ew Eq; simplify_eq.
  destruct u as [|b u]; simpl in *.
  - by apply IHv.
  - simplify_eq. by exists u, v.
Qed.

Lemma deriv_spec c r s : in_re (deriv c r) s <-> in_re r (String c s).
Proof.
  revert s. induction r as [| |p|r1 IH1 r2 IH2|r1 IH1 r2 IH2|r IH]; intros s; simpl.
  - split; intros H; inversion H.
  - split; intros H; inversion H.
  - destruct (p c) eqn:E; split; intros H; inversion H; subst; eauto with guard; congruence.
  - assert (Hc : in_re (mk_cat (deriv c r1) r2) s <->
                 exists u v, s = u +:+ v /\ in_re r1 (String c u) /\ in_re r2 v).
    { rewrite mk_cat_spec. split.
      - intros H. inversion H as [| |? ? u v Hu Hv| | | |]; subst.
        exists u, v. rewrite <- IH1. done.
      - intros (u & v & -> & Hu & Hv). constructor; [by apply IH1|done]. }
    assert (Hcat : forall u v, in_re r1 (String c u) -> in_re r2 v ->
                   in_re (Cat r1 r2) (String c (u +:+ v))).
    { intros u v Hu Hv. by apply (in_cat r1 r2 (String c u) v). }
    destruct (nullable r1) eqn:En.
    + apply nullable_spec in En. rewrite mk_alt_spec. split.
      * intros H. inv_re.
        -- apply Hc in H3 as (u & v & -> & Hu & Hv). auto.
        -- apply (in_cat r1 r2 "" (String c s)); [done|by apply IH2].
      * intros H. apply in_cat_cons in H as [H|[_ H]].
        -- apply in_alt_l. by apply Hc.
        -- apply in_alt_r. by apply IH2.
    + rewrite Hc. split.
      * intros (u & v & -> & Hu & Hv). auto.
      * intros H. apply in_cat_cons in H as [H|[H _]]; [done|].
        apply nullable_spec in H. congruence.
  - rewrite mk_alt_spec. split; intros H; inv_re.
    + apply in_alt_l. by apply IH1.
    + apply in_alt_r. by apply IH2.
    + apply in_alt_l. by apply IH1.
    + apply in_alt_r. by apply IH2.
  - rewrite mk_cat_spec. split.
    + intros H. inversion H as [| |? ? u v Hu Hv| | | |]; subst.
      apply (in_star_app r (String c u) v); [by apply IH|done].
    + intros H. apply in_star_cons in H as (u & v & -> & Hu & Hv).
      constructor; [by apply IH|done].
Qed.

(** The matcher accepts exactly the pattern's language. *)
Lemma re_match_spec r s : re_match r s = true <-> in_re r s.
Proof.
  revert r. induction s as [|c s IH]; intros r; simpl.
  - apply nullable_spec.
  - rewrite IH. apply deriv_spec.
Qed.

(** ** Languages of the pattern constructors *)

Lemma in_lit s t : in_re (lit s) t <-> t = s.
Proof.
  revert t. induction s as [|c s IH]; intros t.
  - simpl. split; intros H; [by inversion H|subst; constructor].
  - assert (Hb : forall u, in_re (byte c) u <-> u = String c "").
    { intros u. split; intros H.
      - inversion H as [|p d Hd| | | | |]; subst. by apply Ascii.eqb_eq in Hd as ->.
      - subst. constructor. apply Ascii.eqb_refl. }
    destruct s as [|d s']; [simpl; apply Hb|].
    change (lit (String c (String d s'))) with (Cat (byte c) (lit (String d s'))).
    split; intros H.
    + inversion H as [| |? ? u v Hu Hv| | | |]; subst.
      apply Hb in Hu as ->. apply IH in Hv as ->. done.
    + subst. apply (in_cat _ _ (String c "") (String d s')); [by apply Hb|by apply IH].
Qed.

(** Every byte of a matched text satisfies a class that covers every class of
    the pattern. *)
Fixpoint re_within (p : ascii -> bool) (r : re) : Prop :=
  match r with
  | Void | Eps => True
  | Chr q => forall c, q c = true -> p c = true
  | Cat r1 r2 | Alt r1 r2 => re_within p r1 /\ re_within p r2
  | Star r1 => re_within p r1
  end.

Lemma in_re_within p r s : re_within p r -> in_re r s -> all_bytes p s = true.
Proof.
  intros Hw H. revert Hw. induction H; simpl; intros Hw; try done.
  - by rewrite (Hw c).
  - rewrite all_bytes_app. destruct Hw. by rewrite IHin_re1, IHin_re2.
  - destruct Hw; auto.
  - destruct Hw; auto.
  - rewrite all_bytes_app. by rewrite IHin_re1, IHin_re2.
Qed.
