(* ===== verification/GoPath.v ===== *)
(** * Paths: Go's [path]/[path/filepath] on a POSIX host, and the helpers of
    [internal/engine/posix_path.go], [internal/pathutil/resolve.go] and the
    containment test [withinSafe] of [internal/engine/rules_bash.go]

    The development models the engine on Linux and macOS: the separator is
    ['/'], there are no volume names, [filepath.Clean] is [path.Clean], and the
    branches guarded by [runtime.GOOS == "windows"] are not taken. *)

From Stdlib Require Import Bool Lia.
From S2P Require Import Prelude GoStrings.

Open Scope string_scope.
Open Scope list_scope.

Definition slash : ascii := "/".
Definition sep : string := "/".

(** ** [path.Clean] and its relatives *)

Definition IsAbs (p : string) : bool :=
  match p with String c _ => Ascii.eqb c slash | EmptyString => false end.

(** One step of [Clean]'s scan: the elements kept so far, innermost first. *)
Definition clean_step (rooted : bool) (stack : list string) (comp : string) : list string :=
  if (comp =s? "") || (comp =s? ".") then stack
  else if comp =s? ".." then
    match stack with
    | [] => if rooted then [] else [".."]
    | top :: rest => if top =s? ".." then ".." :: stack else rest
    end
  else comp :: stack.

Definition clean_stack (p : string) : list string :=
  foldl (clean_step (IsAbs p)) [] (Split p slash).

Definition Clean (p : string) : string :=
  let body := Join (rev (clean_stack p)) sep in
  if IsAbs p then sep +:+ body
  else if body =s? "" then "." else body.

(** [filepath.Join]: empty elements are ignored, the rest joined and cleaned. *)
Definition JoinPath (elems : list string) : string :=
  match List.filter (fun e => e <>s? "") elems with
  | [] => ""
  | es => Clean (Join es sep)
  end.

(** The elements of a cleaned path. *)
Definition elements (p : string) : list string :=
  List.filter (fun e => e <>s? "") (Split p slash).

Fixpoint strip_common (base targ : list string) : list string * list string :=
  match base, targ with
  | b :: bs, t :: ts => if b =s? t then strip_common bs ts else (base, targ)
  | _, _ => (base, targ)
  end.

(** [filepath.Rel(base, targ)]; [None] is its error. *)
Definition Rel (base targ : string) : option string :=
  let b := Clean base in
  let t := Clean targ in
  if t =s? b then Some "."
  else
    let b' := if b =s? "." then "" else b in
    if negb (eqb (IsAbs b') (IsAbs t)) then None
    else
      let '(rb, rt) := strip_common (elements b') (elements t) in
      match rb, rt with
      | [], _ => Some (Join rt sep)
      | e :: _, _ :: _ =>
          if e =s? ".." then None
          else Some (Join (List.map (fun _ => "..") rb ++ rt) sep)
      | _ :: _, [] => Some (Join (List.map (fun _ => "..") rb) sep)
      end.

(** ** posix_path.go *)

Definition posixIsAbs (p : string) : bool := IsAbs p.
Definition posixClean (p : string) : string := Clean p.
Definition posixJoin (elem : list string) : string := JoinPath elem.

Definition posixSplitList (s : string) : list string :=
  if s =s? "" then [] else Split s ":".

Definition posixStandardDevice (p : string) : bool :=
  in_list (posixClean p) ["/dev/null"; "/dev/stdout"; "/dev/stderr"; "/dev/tty"].

Fixpoint ReplaceByte (s : string) (from to : ascii) : string :=
  match s with
  | EmptyString => EmptyString
  | String c t => String (if Ascii.eqb c from then to else c) (ReplaceByte t from to)
  end.

Definition upper_byte (c : ascii) : ascii :=
  if is_lower c then ascii_of_nat (nat_of_ascii c - 32) else c.

Definition posixDriveToWin32 (p : string) : option string :=
  match p with
  | String c0 (String drive rest) =>
      if negb (Ascii.eqb c0 slash) then None
      else if negb (is_letter drive) then None
      else
        let d := String (upper_byte drive) ":\" in
        match rest with
        | EmptyString => Some d
        | String c2 _ =>
            if negb (Ascii.eqb c2 slash) then None
            else
              let tail := TrimPrefix rest sep in
              if tail =s? "" then Some d
              else Some (d +:+ ReplaceByte tail slash "\")
        end
  | _ => None
  end.

(** ** pathutil: peeling and resolving through the nearest existing ancestor *)

(** What the host answers about a path: [os.Lstat] finds it, reports that it
    does not exist, or fails otherwise; [filepath.EvalSymlinks] resolves it or
    fails.  Both are the host's, so they are parameters. *)
Inductive lstat_result := LExists | LNotExist | LError.

Record FS := {
  fs_lstat : string -> lstat_result;
  fs_evalsymlinks : string -> option string;
}.

(** Drop trailing separators, then split off the last component; on the
    reversed text, so that both loops of the source run forwards. *)
Fixpoint srev_append (s acc : string) : string :=
  match s with
  | EmptyString => acc
  | String c t => srev_append t (String c acc)
  end.
Definition srev (s : string) : string := srev_append s "".

Fixpoint skip_seps (r : string) : string :=
  match r with
  | String c t => if Ascii.eqb c slash then skip_seps t else r
  | EmptyString => EmptyString
  end.

(** The bytes of [r] before its first separator, and the rest from it on. *)
Fixpoint span_component (r : string) : string * string :=
  match r with
  | EmptyString => (EmptyString, EmptyString)
  | String c t =>
      if Ascii.eqb c slash then (EmptyString, r)
      else let '(comp, rest) := span_component t in (String c comp, rest)
  end.

Definition peelTrailingComponent (path : string) : option (string * string) :=
  let r := skip_seps (srev path) in
  if r =s? "" then None
  else
    let '(comp, rest) := span_component r in
    let parent := srev rest in
    Some (if parent =s? "" then "." else parent, srev comp).

Definition append_missing (resolved comp : string) : string :=
  let r := if (resolved <>s? "") && negb (HasSuffix resolved sep)
           then resolved +:+ sep else resolved in
  r +:+ comp.

(** The loop of [ResolveThroughExistingAncestor]: [missing] is the list the
    source appends to, most recent first, so that folding it from the left
    re-appends the components outermost first. *)
Fixpoint resolve_loop (fs : FS) (fuel : nat) (current : string) (missing : list string)
  : option (option string) :=
  match fuel with
  | O => None
  | S fuel' =>
      match fs_lstat fs current with
      | LExists =>
          match fs_evalsymlinks fs current with
          | None => Some None
          | Some resolved => Some (Some (Clean (foldl append_missing resolved missing)))
          end
      | LError => Some None
      | LNotExist =>
          match peelTrailingComponent current with
          | None => Some None
          | Some (parent, component) => resolve_loop fs fuel' parent (component :: missing)
          end
      end
  end.

(** Each step of the loop but one shortens [current]; the exception replaces
    a one-component relative path by ["."], so two more steps are enough. *)
Definition resolve_fuel (path : string) : nat := String.length path + 3.

(** [None]: the error result. *)
Definition ResolveThroughExistingAncestor (fs : FS) (path : string) : option string :=
  let current := if path =s? "" then "." else path in
  match resolve_loop fs (resolve_fuel current) current [] with
  | Some r => r
  | None => None
  end.

(** [filepath.EvalSymlinks] with the fallback both [canonicalExistingPath] and
    [resolvePathForCompare] take. *)
Definition resolvePathForCompare (fs : FS) (path : string) : string :=
  match fs_evalsymlinks fs path with Some r => r | None => path end.

(** ** Containment *)

Definition within_root (target r : string) : bool :=
  if r =s? "" then false
  else
    let rr := Clean r in
    (target =s? rr) || HasPrefix target (rr +:+ sep).

Definition withinSafe (target repoRoot : string) (safeRoots : list string) : bool :=
  if (target =s? "~") || HasPrefix target "~/" then false
  else
    let t := Clean target in
    if t =s? "/" then false
    else existsb (within_root t) (repoRoot :: safeRoots).

Definition pathWithinOrEqual (target root : string) : bool :=
  let t := Clean target in
  let r := Clean root in
  (t =s? r) || withinSafe t r [].

Definition pathEscapesRoot (rel : string) : bool :=
  (rel =s? "..") || HasPrefix rel "../".

(** ** Lemmas: the shape of a cleaned path *)

(** An element [Clean] keeps: a non-empty name without separators, not ["."]. *)
Definition element_ok (e : string) : Prop :=
  e <> "" /\ e <> "." /\ ContainsByte e slash = false.

(** The stack of a scan, innermost first: names above the leading [".."]s,
    which only an unrooted path has. *)
Definition stack_ok (rooted : bool) (stack : list string) : Prop :=
  exists names ups,
    stack = names ++ replicate ups ".." /\
    Forall (fun e => element_ok e /\ e <> "..") names /\
    (rooted = true -> ups = 0%nat).

Lemma dotdot_ok : element_ok "..".
Proof. done. Qed.

Lemma stack_ok_nil rooted : stack_ok rooted [].
Proof. exists [], 0%nat. done. Qed.

Lemma stack_ok_step rooted stack comp :
  stack_ok rooted stack -> ContainsByte comp slash = false ->
  stack_ok rooted (clean_step rooted stack comp).
Proof.
  intros (names & ups & -> & Hn & Hu) Hc. unfold clean_step.
  destruct ((comp =s? "") || (comp =s? ".")) eqn:E0; [by exists names, ups|].
  apply orb_false_iff in E0 as [E1 E2]. breflect.
  destruct (comp =s? "..") eqn:E3; breflect.
  - destruct names as [|n names]; simpl.
    + destruct ups as [|ups]; simpl.
      * destruct rooted; [by exists [], 0%nat|by exists [], 1%nat].
      * exists [], (S (S ups)). split; [done|]. split; [done|].
        intros Hr. by specialize (Hu Hr).
    + apply Forall_cons in Hn as [[_ Hn] Hns].
      destruct (n =s? "..") eqn:E4; breflect; [done|]. by exists names, ups.
  - exists (comp :: names), ups. split; [done|]. split; [|done].
    constructor; [|done]. by repeat split.
Qed.

Lemma stack_ok_foldl rooted comps stack :
  stack_ok rooted stack ->
  Forall (fun c => ContainsByte c slash = false) comps ->
  stack_ok rooted (foldl (clean_step rooted) stack comps).
Proof.
  revert stack. induction comps as [|c cs IH]; intros stack Hs Hc; simpl; [done|].
  apply Forall_cons in Hc as [Hc Hcs]. apply IH; [|done]. by apply stack_ok_step.
Qed.

Lemma clean_stack_ok p : stack_ok (IsAbs p) (clean_stack p).
Proof.
  apply stack_ok_foldl; [apply stack_ok_nil|].
  apply Forall_forall. intros w Hw. by eapply Split_no_sep.
Qed.

(** Scanning an already clean list of elements keeps it. *)
Lemma clean_scan_names rooted stack names :
  Forall (fun e => element_ok e /\ e <> "..") names ->
  foldl (clean_step rooted) stack names = rev names ++ stack.
Proof.
  revert stack. induction names as [|n names IH]; intros stack Hn; simpl; [done|].
  apply Forall_cons in Hn as [[(H1 & H2 & _) H3] Hns]. rewrite IH by done.
  rewrite <- app_assoc. f_equal. simpl. unfold clean_step.
  destruct (n =s? "") eqn:E1; breflect; [done|].
  destruct (n =s? ".") eqn:E2; breflect; [done|].
  destruct (n =s? "..") eqn:E3; breflect; [done|]. done.
Qed.

Lemma clean_scan_ups k ups :
  foldl (clean_step false) (replicate k "..") (replicate ups "..") = replicate (k + ups) "..".
Proof.
  revert k. induction ups as [|ups IH]; intros k; simpl.
  - by rewrite Nat.add_0_r.
  - replace (clean_step false (replicate k "..") "..") with (replicate (S k) "..").
    + rewrite IH. f_equal. lia.
    + by destruct k.
Qed.

Lemma clean_scan_stack rooted stack :
  stack_ok rooted stack -> foldl (clean_step rooted) [] (rev stack) = stack.
Proof.
  intros (names & ups & -> & Hn & Hu).
  rewrite rev_app_distr, foldl_app.
  replace (rev (replicate ups "..")) with (replicate ups "..").
  2:{ rewrite rev_alt. symmetry. apply reverse_replicate. }
  assert (Hns : Forall (fun e => element_ok e /\ e <> "..") (rev names)).
  { apply Forall_forall. intros e He. rewrite Forall_forall in Hn. apply Hn.
    apply list_elem_of_In, in_rev. by apply list_elem_of_In. }
  destruct rooted.
  - rewrite (Hu eq_refl). simpl. rewrite clean_scan_names by done. by rewrite rev_involutive, app_nil_r.
  - change [] with (replicate 0 "..") at 1. rewrite clean_scan_ups.
    rewrite clean_scan_names by done. by rewrite rev_involutive.
Qed.

(** ** Splitting what was joined *)

Lemma Split_app_noslash w t :
  ContainsByte w slash = false ->
  Split (w +:+ String slash t) slash = w :: Split t slash.
Proof. apply Split_app_sep. Qed.

Lemma Split_noslash w : ContainsByte w slash = false -> Split w slash = [w].
Proof. apply Split_one. Qed.

Lemma Split_Join l :
  l <> [] -> Forall (fun e => ContainsByte e slash = false) l ->
  Split (Join l sep) slash = l.
Proof. apply Split_Join_sep. Qed.

Lemma filter_elements l :
  Forall element_ok l -> List.filter (fun e => e <>s? "") l = l.
Proof.
  induction l as [|w l IH]; intros Hf; simpl; [done|].
  apply Forall_cons in Hf as [[Hw _] Hf].
  destruct (w =s? "") eqn:E; breflect; [done|]. simpl. by rewrite IH.
Qed.

Lemma elements_Join l : Forall element_ok l -> elements (Join l sep) = l.
Proof.
  intros Hf. unfold elements. destruct l as [|w l]; [done|].
  rewrite Split_Join; [by apply filter_elements|done|].
  eapply Forall_impl; [done|]. by intros x (_ & _ & ?).
Qed.

Lemma stack_ok_elements rooted stack :
  stack_ok rooted stack -> Forall element_ok (rev stack).
Proof.
  intros (names & ups & -> & Hn & _). apply Forall_forall. intros e He.
  apply list_elem_of_In, in_rev, list_elem_of_In in He.
  apply elem_of_app in He as [He|He].
  - rewrite Forall_forall in Hn. by apply Hn.
  - apply elem_of_replicate in He as [-> _]. apply dotdot_ok.
Qed.

Lemma Join_nonempty l : l <> [] -> Forall element_ok l -> Join l sep <> "".
Proof.
  destruct l as [|w l]; [done|]. intros _ Hf. apply Forall_cons in Hf as [[Hw _] _].
  destruct l; simpl; [done|]. by destruct w.
Qed.

(** The elements of a cleaned path are the scan's stack, outermost first. *)
Lemma elements_Clean p :
  elements (Clean p) = if IsAbs p then rev (clean_stack p)
                       else if Join (rev (clean_stack p)) sep =s? "" then ["."]
                       else rev (clean_stack p).
Proof.
  pose proof (stack_ok_elements _ _ (clean_stack_ok p)) as Hf.
  unfold Clean. destruct (IsAbs p).
  - unfold elements. simpl. by rewrite <- (elements_Join _ Hf) at 2.
  - destruct (Join (rev (clean_stack p)) sep =s? ""); [done|]. by apply elements_Join.
Qed.

Lemma IsAbs_Clean p : IsAbs (Clean p) = IsAbs p.
Proof.
  unfold Clean. destruct (IsAbs p) eqn:E; [done|].
  destruct (Join (rev (clean_stack p)) sep =s? "") eqn:E'; [done|].
  pose proof (stack_ok_elements _ _ (clean_stack_ok p)) as Hf.
  destruct (rev (clean_stack p)) as [|w l] eqn:Es; [done|].
  apply Forall_cons in Hf as [(H1 & _ & H3) _].
  destruct w as [|c w]; [done|]. simpl in H3. apply orb_false_iff in H3 as [Hc _].
  by destruct l.
Qed.

Lemma clean_stack_Clean p : clean_stack (Clean p) = clean_stack p.
Proof.
  pose proof (clean_stack_ok p) as Hok.
  pose proof (stack_ok_elements _ _ Hok) as Hf.
  unfold clean_stack at 1. rewrite IsAbs_Clean.
  destruct (decide (rev (clean_stack p) = [])) as [Hnil|Hnn].
  - assert (clean_stack p = []) as Hs.
    { rewrite <- (rev_involutive (clean_stack p)). by rewrite Hnil. }
    unfold Clean. rewrite Hs. by destruct (IsAbs p).
  - assert (Hspl : Split (Join (rev (clean_stack p)) sep) slash = rev (clean_stack p)).
    { apply Split_Join; [done|]. eapply Forall_impl; [done|]. by intros x (_ & _ & ?). }
    unfold Clean. destruct (IsAbs p) eqn:E.
    + simpl. rewrite Hspl. by apply clean_scan_stack.
    + destruct (Join (rev (clean_stack p)) sep =s? "") eqn:E'; breflect.
      * by apply Join_nonempty in E'.
      * rewrite Hspl. by apply clean_scan_stack.
Qed.

Lemma Clean_Clean p : Clean (Clean p) = Clean p.
Proof. unfold Clean at 1. by rewrite IsAbs_Clean, clean_stack_Clean. Qed.

Lemma Clean_rooted_no_dotdot p : IsAbs p = true -> ".." ∉ elements (Clean p).
Proof.
  intros Habs. rewrite elements_Clean, Habs.
  destruct (clean_stack_ok p) as (names & ups & -> & Hn & Hu).
  rewrite (Hu Habs). simpl. rewrite app_nil_r. intros Hin.
  apply list_elem_of_In, in_rev, list_elem_of_In in Hin.
  rewrite Forall_forall in Hn. by apply Hn in Hin as [_ ?].
Qed.

#[export] Hint Rewrite Clean_Clean IsAbs_Clean : guard.

(** ** Containment is element-wise *)

Lemma Split_Join_app l t :
  l <> [] -> Forall (fun e => ContainsByte e slash = false) l ->
  Split (Join l sep +:+ String slash t) slash = l ++ Split t slash.
Proof.
  induction l as [|w l IH]; intros Hl Hf; [done|].
  apply Forall_cons in Hf as [Hw Hf]. destruct l as [|w' l].
  - by apply Split_app_noslash.
  - change (Join (w :: w' :: l) sep) with (w +:+ String slash (Join (w' :: l) sep)).
    rewrite append_assoc. simpl String.append.
    rewrite Split_app_noslash by done. simpl app. f_equal. by apply IH.
Qed.

Lemma Join_app l1 l2 :
  l1 <> [] -> l2 <> [] -> Join (l1 ++ l2) sep = Join l1 sep +:+ String slash (Join l2 sep).
Proof.
  induction l1 as [|w l1 IH]; intros H1 H2; [done|].
  destruct l1 as [|w' l1].
  - by destruct l2.
  - change (Join ((w :: w' :: l1) ++ l2) sep) with (w +:+ String slash (Join ((w' :: l1) ++ l2) sep)).
    rewrite IH by done.
    change (Join (w :: w' :: l1) sep) with (w +:+ String slash (Join (w' :: l1) sep)).
    by rewrite append_assoc.
Qed.

Lemma Clean_abs_shape p :
  IsAbs p = true ->
  exists es, Clean p = sep +:+ Join es sep /\ elements (Clean p) = es /\ Forall element_ok es.
Proof.
  intros Habs. exists (rev (clean_stack p)).
  split; [unfold Clean; by rewrite Habs|].
  split; [rewrite elements_Clean; by rewrite Habs|].
  eapply stack_ok_elements, clean_stack_ok.
Qed.

Lemma no_slash_of_ok es : Forall element_ok es -> Forall (fun e => ContainsByte e slash = false) es.
Proof. intros H. eapply Forall_impl; [done|]. by intros x (_ & _ & ?). Qed.

Lemma within_root_spec target r :
  IsAbs target = true -> IsAbs r = true -> Clean r <> "/" ->
  within_root (Clean target) r = true <-> elements (Clean r) `prefix_of` elements (Clean target).
Proof.
  intros Ht Hr Hroot.
  destruct (Clean_abs_shape _ Ht) as (te & HCt & -> & Hte).
  destruct (Clean_abs_shape _ Hr) as (rs & HCr & -> & Hrs).
  assert (rs <> []) as Hne by (intros ->; done).
  unfold within_root. destruct (r =s? "") eqn:Er; breflect; [by subst|].
  rewrite HCt, HCr, orb_true_iff, HasPrefix_true, String.eqb_eq. split.
  - intros [H|[t H]].
    + simpl in H. injection H as H. apply (f_equal elements) in H.
      rewrite !elements_Join in H by done. by subst.
    + rewrite !append_assoc in H. simpl in H. injection H as H.
      apply (f_equal (fun s => Split s slash)) in H.
      rewrite Split_Join_app in H by (done || by apply no_slash_of_ok).
      destruct te as [|w te].
      { exfalso. apply (f_equal length) in H. rewrite length_app in H. simpl in H.
        pose proof (Split_not_nil t slash). destruct rs, (Split t slash); simpl in *; done || lia. }
      rewrite Split_Join in H by (done || by apply no_slash_of_ok).
      by exists (Split t slash).
  - intros [rest ->]. destruct rest as [|w rest].
    + left. by rewrite app_nil_r.
    + right. exists (Join (w :: rest) sep). rewrite Join_app by done.
      simpl. by rewrite append_assoc.
Qed.

Definition usable_root (r : string) : Prop := IsAbs r = true /\ Clean r <> "/".

Lemma abs_not_tilde target :
  IsAbs target = true -> (target =s? "~") || HasPrefix target "~/" = false.
Proof.
  destruct target as [|c t]; [done|]. simpl. intros Hc.
  apply Ascii.eqb_eq in Hc as ->. done.
Qed.

Lemma withinSafe_spec target repoRoot safeRoots :
  IsAbs target = true -> Forall usable_root (repoRoot :: safeRoots) ->
  withinSafe target repoRoot safeRoots = true <->
  exists r, r ∈ repoRoot :: safeRoots /\ elements (Clean r) `prefix_of` elements (Clean target).
Proof.
  intros Ht Hroots. unfold withinSafe. rewrite abs_not_tilde by done.
  assert (Hiff : existsb (within_root (Clean target)) (repoRoot :: safeRoots) = true <->
    exists r, r ∈ repoRoot :: safeRoots /\ elements (Clean r) `prefix_of` elements (Clean target)).
  { rewrite existsb_exists. rewrite Forall_forall in Hroots.
    split; intros (r & Hin & H); exists r.
    - apply list_elem_of_In in Hin. destruct (Hroots _ Hin). split; [done|].
      by apply within_root_spec in H.
    - destruct (Hroots _ Hin). split; [by apply list_elem_of_In|]. by apply within_root_spec. }
  destruct (Clean target =s? "/") eqn:E; breflect; [|done].
  split; [done|]. intros (r & Hin & [rest Hp]).
  rewrite Forall_forall in Hroots. destruct (Hroots _ Hin) as [Habs Hr].
  destruct (Clean_abs_shape _ Habs) as (rs & HCr & Ers & Hrs).
  rewrite E in Hp. rewrite Ers in Hp. change (elements "/") with (@nil string) in Hp.
  destruct rs; [by rewrite HCr in Hr|done].
Qed.

(** ** The resolving loop terminates *)

Lemma length_srev_append s acc :
  String.length (srev_append s acc) = (String.length s + String.length acc)%nat.
Proof. revert acc. induction s as [|c s IH]; intros acc; simpl; [done|]. rewrite IH. simpl. lia. Qed.

Lemma length_srev s : String.length (srev s) = String.length s.
Proof. unfold srev. rewrite length_srev_append. simpl. lia. Qed.

Lemma length_skip_seps r : (String.length (skip_seps r) <= String.length r)%nat.
Proof. induction r as [|c r IH]; simpl; [done|]. destruct (Ascii.eqb c slash); simpl; lia. Qed.

Lemma skip_seps_head r c t : skip_seps r = String c t -> Ascii.eqb c slash = false.
Proof.
  induction r as [|b r IH]; simpl; [done|].
  destruct (Ascii.eqb b slash) eqn:E; [done|]. intros; by simplify_eq.
Qed.

Lemma length_span_component r comp rest :
  span_component r = (comp, rest) ->
  (String.length comp + String.length rest = String.length r)%nat.
Proof.
  revert comp rest. induction r as [|c r IH]; intros comp rest; simpl; [by intros; simplify_eq|].
  destruct (Ascii.eqb c slash); [by intros; simplify_eq|].
  destruct (span_component r) as [cm rs] eqn:E. intros; simplify_eq. simpl.
  by rewrite (IH _ _ eq_refl).
Qed.

Lemma peel_shortens path parent comp :
  peelTrailingComponent path = Some (parent, comp) ->
  parent = "." \/ (String.length parent < String.length path)%nat.
Proof.
  unfold peelTrailingComponent.
  pose proof (length_skip_seps (srev path)) as Hl. rewrite length_srev in Hl.
  destruct (skip_seps (srev path)) as [|c r] eqn:Es; [done|]. simpl.
  rewrite (skip_seps_head _ _ _ Es).
  destruct (span_component r) as [cm rest] eqn:Esp.
  pose proof (length_span_component _ _ _ Esp).
  intros H'. injection H' as <- _.
  destruct (srev rest =s? ""); [by left|right]. rewrite length_srev. simpl in *. lia.
Qed.

Lemma resolve_loop_total fs fuel current missing :
  fs_lstat fs "." <> LNotExist ->
  (String.length current + 2 <= fuel)%nat ->
  resolve_loop fs fuel current missing <> None.
Proof.
  intros Hdot. revert current missing.
  induction fuel as [|fuel IH]; intros current missing Hf; [lia|]. simpl.
  destruct (fs_lstat fs current) eqn:El; [by destruct (fs_evalsymlinks fs current)| |done].
  destruct (peelTrailingComponent current) as [[parent comp]|] eqn:Ep; [|done].
  destruct (peel_shortens _ _ _ Ep) as [->|Hlt]; [|apply IH; lia].
  destruct fuel as [|fuel]; [lia|]. simpl.
  destruct (fs_lstat fs ".") eqn:Ed; [by destruct (fs_evalsymlinks fs ".")|done|done].
Qed.

(** ** A relative path that does not escape stays inside *)

Lemma strip_common_spec b t rb rt :
  strip_common b t = (rb, rt) -> exists c, b = c ++ rb /\ t = c ++ rt.
Proof.
  revert t rb rt. induction b as [|x b IH]; intros t rb rt H.
  - simpl in H. simplify_eq. by exists [].
  - destruct t as [|y t]; [simpl in H; simplify_eq; by exists []|].
    simpl in H. destruct (x =s? y) eqn:E; [|simplify_eq; by exists []].
    breflect. subst. destruct (IH _ _ _ H) as (c & -> & ->). by exists (y :: c).
Qed.

Lemma escapes_up l : pathEscapesRoot (Join (".." :: l) sep) = true.
Proof. destruct l; done. Qed.

Lemma Rel_inside base targ rel :
  IsAbs base = true -> Rel base targ = Some rel -> pathEscapesRoot rel = false ->
  elements (Clean base) `prefix_of` elements (Clean targ).
Proof.
  intros Habs HR Hesc. unfold Rel in HR.
  destruct (Clean targ =s? Clean base) eqn:E; breflect; [by rewrite E|].
  replace (if Clean base =s? "." then "" else Clean base) with (Clean base) in HR.
  2:{ destruct (Clean base =s? ".") eqn:E'; breflect; [|done].
      rewrite <- IsAbs_Clean, E' in Habs. done. }
  destruct (negb (eqb (IsAbs (Clean base)) (IsAbs (Clean targ)))); [done|].
  destruct (strip_common (elements (Clean base)) (elements (Clean targ))) as [rb rt] eqn:Es.
  apply strip_common_spec in Es as (c & -> & ->).
  destruct rb as [|e rb]; [rewrite app_nil_r; by apply prefix_app_r|].
  exfalso. destruct rt as [|r rt].
  - apply (inj Some) in HR as <-. cbn [List.map app] in Hesc. by rewrite escapes_up in Hesc.
  - destruct (e =s? ".."); [done|]. apply (inj Some) in HR as <-.
    cbn [List.map app] in Hesc. by rewrite escapes_up in Hesc.
Qed.
