(* ===== verification/Policy.v ===== *)
(** * The policy model ([internal/policy/policy.go], [grants.go], [operator.go])

    Decisions, capabilities, verdicts and rules; the Operator config and what
    it authorizes; command grants and their bounds. *)

From Stdlib Require Import ZArith Lia Bool.
From S2P Require Import Prelude GoStrings GoPath.

Open Scope string_scope.
Open Scope list_scope.

(** ** policy.go: decisions, capabilities, verdicts *)

(** [type Decision string]: the four named values, and any other text a
    policy file may carry (the zero value [""] included). *)
Inductive Decision :=
| Allow | Ask | Deny | Complete | OtherDecision (s : string).

#[export] Instance Decision_eq_dec : EqDecision Decision.
Proof. solve_decision. Defined.

Definition decision_of_string (s : string) : Decision :=
  if s =s? "allow" then Allow
  else if s =s? "ask" then Ask
  else if s =s? "deny" then Deny
  else if s =s? "complete" then Complete
  else OtherDecision s.

Definition Severity (d : Decision) : Z :=
  match d with
  | Allow => 0
  | Ask => 1
  | Deny => 2
  | Complete => 2
  | OtherDecision _ => -1
  end.

Definition Blocks (d : Decision) : bool := bool_decide (d = Deny).

(** [type Capability string], with the zero value and unknown texts. *)
Inductive Capability :=
| CapabilityNone
| CapabilityCommand | CapabilityReadDiscovery | CapabilityMutation
| CapabilityWebFetch | CapabilityWebSearch | CapabilityDelegation
| CapabilityExternal | CapabilitySafeControl | CapabilityDeny
| CapabilityUnknown
| CapabilityOther (s : string).

#[export] Instance Capability_eq_dec : EqDecision Capability.
Proof. solve_decision. Defined.

(** [type UnknownToolPosture string] *)
Definition UnknownAudit : string := "audit".
Definition UnknownDeny : string := "deny".

Definition ParseUnknownToolPosture (value : string) : result string string :=
  if in_list value [UnknownAudit; UnknownDeny] then Ok value
  else Err ("invalid unknown_tool_posture " +:+ value +:+ "; want audit or deny").

Record Verdict := {
  v_Decision : Decision;
  v_RuleID : string;
  v_OriginRuleID : string;
  v_Reason : string;
  v_AuditKind : string;
  v_OperatorAction : string;
  v_RequestID : string;
  v_ApprovalURL : string;
}.

#[export] Instance Verdict_eq_dec : EqDecision Verdict.
Proof. solve_decision. Defined.

(** A verdict literal with the fields the sources set; the others are Go's
    zero values. *)
Definition verdict (d : Decision) (rule reason : string) : Verdict :=
  {| v_Decision := d; v_RuleID := rule; v_OriginRuleID := ""; v_Reason := reason;
     v_AuditKind := ""; v_OperatorAction := ""; v_RequestID := ""; v_ApprovalURL := "" |}.

Definition relaxed_verdict (rule origin reason : string) : Verdict :=
  {| v_Decision := Allow; v_RuleID := rule; v_OriginRuleID := origin; v_Reason := reason;
     v_AuditKind := ""; v_OperatorAction := ""; v_RequestID := ""; v_ApprovalURL := "" |}.

Definition VerdictIsZero (v : Verdict) : bool :=
  bool_decide (v_Decision v = OtherDecision "").

Record Rule := {
  r_ID : string;
  r_Tool : string;
  r_Pattern : string;
  r_Decision : Decision;
  r_Reason : string;
}.

Record Slots := {
  s_SafeRoots : list string;
  s_SecretDirs : list string;
  s_SecretGlobs : list string;
  s_SecretAskGlobs : list string;
  s_SecretAllow : list string;
  s_EgressAllowlist : list string;
  s_WebHosts : list string;
  s_AuditLog : string;
}.

Record OdooRecipeConfig := {
  odoo_Module : string;
  odoo_TestDatabase : string;
  odoo_RelaxNG : string;
}.

(** [RecipeConfig]: its one field is a pointer, so a clone is a copy. *)
Definition RecipeConfig := option OdooRecipeConfig.
Definition clone (c : RecipeConfig) : RecipeConfig := c.

Record Policy := {
  p_WebResearchOff : bool;
  p_Slots : Slots;
  p_Recipes : RecipeConfig;
  p_Rules : list Rule;
  p_Waived : gmap string bool;
  p_UnknownToolPosture : string;
}.

(** [pol.Waived[id]] *)
Definition waived (m : gmap string bool) (id : string) : bool :=
  match m !! id with Some b => b | None => false end.

(** [ValidateWebHost(host) == nil] *)
Definition host_byte (c : ascii) : bool := is_lower c || is_digit c || Ascii.eqb c "-".

Definition first_byte (s : string) : option ascii :=
  match s with String c _ => Some c | EmptyString => None end.

Fixpoint last_byte (s : string) : option ascii :=
  match s with
  | EmptyString => None
  | String c EmptyString => Some c
  | String _ t => last_byte t
  end.

Definition valid_label (label : string) : bool :=
  (label <>s? "") && (String.length label <=? 63)%nat &&
  negb (bool_decide (first_byte label = Some "-"%char)) &&
  negb (bool_decide (last_byte label = Some "-"%char)) &&
  all_bytes host_byte label.

Definition ValidateWebHost (host : string) : bool :=
  (host <>s? "") && (host =s? ToLower host) && (String.length host <=? 253)%nat &&
  negb (HasSuffix host ".") && forallb valid_label (Split host ".").

Definition WebHostGrantCommand (hosts : list string) : string :=
  "guardrail egress grant --scope repo --host " +:+ Join hosts ",".

(** [SortedWaivers]: the active waivers in byte order. *)
Fixpoint insert_sorted (s : string) (l : list string) : list string :=
  match l with
  | [] => [s]
  | t :: l' => if String.leb s t then s :: l else t :: insert_sorted s l'
  end.
Definition sort_strings (l : list string) : list string := foldr insert_sorted [] l.

Lemma elem_of_insert_sorted x y l : x ∈ insert_sorted y l <-> x = y \/ x ∈ l.
Proof.
  induction l as [|z l IH]; simpl; [by rewrite elem_of_cons|].
  case_match; rewrite !elem_of_cons; [naive_solver|]. rewrite IH. naive_solver.
Qed.

Lemma elem_of_sort x l : x ∈ sort_strings l <-> x ∈ l.
Proof.
  induction l as [|y l IH]; [done|]. unfold sort_strings in *. simpl.
  rewrite elem_of_insert_sorted, elem_of_cons, IH. done.
Qed.

Definition SortedWaivers (p : option Policy) : list string :=
  match p with
  | None => []
  | Some p =>
      sort_strings (List.map fst (List.filter (fun kv => snd kv) (map_to_list (p_Waived p))))
  end.

(** ** operator.go and grants.go: what the operator authorized *)

Definition neverWaivable (rule : string) : bool :=
  in_list rule ["tokenize-failed"; "panic-recovered"; "P3.unresolved"].

Definition outwardReachAsks (rule : string) : bool :=
  in_list rule ["capability-external"; "capability-web-search"; "unknown-native-tool"; "P1.power"].

Definition NeverRelaxable (ruleID : string) : bool := outwardReachAsks ruleID.

Definition NeverGrantable (ruleID : string) : bool :=
  NeverRelaxable ruleID || neverWaivable ruleID.

Definition DefaultGrantExpiry : Duration := (30 * Minute)%Z.
Definition MaxGrantExpiry : Duration := (24 * Hour)%Z.

Record CommandGrant := {
  cg_RuleID : string;
  cg_Command : string;
  cg_Uses : Z;
  cg_ExpiresAt : Time;
}.

Definition RemainingUses (g : CommandGrant) : Z :=
  if (cg_Uses g <? 0)%Z then 0%Z else cg_Uses g.

Definition Live (g : CommandGrant) (now : Time) : bool :=
  if NeverGrantable (cg_RuleID g) || (RemainingUses g =? 0)%Z then false
  else IsZero (cg_ExpiresAt g) || Before now (cg_ExpiresAt g).

Definition IssuedUses (requested : Z) : Z := if (requested <? 1)%Z then 1%Z else requested.

Definition BoundedGrantExpiry (now : Time) (requested : Duration) : Time :=
  let requested := if (requested <=? 0)%Z then DefaultGrantExpiry else requested in
  let requested := if (MaxGrantExpiry <? requested)%Z then MaxGrantExpiry else requested in
  (now + requested)%Z.

Record RepoGrant := {
  rg_Waive : list string;
  rg_SecretAllow : bool;
  rg_AuditLog : bool;
  rg_EgressAllowlist : list string;
  rg_WebHosts : list string;
  rg_Commands : list CommandGrant;
}.

Definition empty_grant : RepoGrant :=
  {| rg_Waive := []; rg_SecretAllow := false; rg_AuditLog := false;
     rg_EgressAllowlist := []; rg_WebHosts := []; rg_Commands := [] |}.

(** [Repos] is a Go map; the list gives its entries in the order a [range]
    visits them, so that a statement for every list holds for every order. *)
Record OperatorConfig := {
  oc_GlobalWebHosts : list string;
  oc_WebResearchEnforcement : string;
  oc_Approval : string;
  oc_Repos : list (string * RepoGrant);
}.

Definition ApprovalPrompt : string := "prompt".
Definition ApprovalPasskey : string := "passkey".

(** The methods on a nil [*OperatorConfig] are defined, so [op] is an option. *)
Definition ApprovalMode (op : option OperatorConfig) : string :=
  match op with
  | Some o => if oc_Approval o =s? ApprovalPasskey then ApprovalPasskey else ApprovalPrompt
  | None => ApprovalPrompt
  end.

Definition operatorTopLevelKeys (key : string) : bool :=
  in_list key ["web_hosts"; "web_research"; "approval"].

Definition emptyOperatorConfig : OperatorConfig :=
  {| oc_GlobalWebHosts := []; oc_WebResearchEnforcement := ""; oc_Approval := "";
     oc_Repos := [] |}.

Fixpoint repo_lookup {V} (repos : list (string * V)) (key : string) : option V :=
  match repos with
  | [] => None
  | (k, g) :: rest => if k =s? key then Some g else repo_lookup rest key
  end.

(** What the TOML decoder hands to [LoadOperatorConfig]. *)
Record OperatorFile := {
  of_Approval : option string;
  of_Enforcement : string;
  of_GlobalHosts : list string;
  of_Tables : list (string * RepoGrant);
}.

Inductive OperatorRead :=
| OperatorNoPath | OperatorMissing | OperatorUnreadable | OperatorUndecodable
| OperatorDecoded (f : OperatorFile).

Inductive OperatorError :=
| OpPath | OpRead | OpParse | OpApproval | OpEnforcement | OpHost
| OpRelativeRepo (repo : string) | OpDuplicateRepo (previous repo : string).

(** The repository tables, normalised: absolute, hosts valid, no two with the
    same cleaned path. *)
Fixpoint normalize_repos (tables : list (string * RepoGrant))
    (raw : list (string * string)) (normalized : list (string * RepoGrant))
  : result OperatorError (list (string * RepoGrant)) :=
  match tables with
  | [] => Ok normalized
  | (repo, grant) :: rest =>
      if negb (IsAbs repo) then Err (OpRelativeRepo repo)
      else if negb (forallb ValidateWebHost (rg_WebHosts grant)) then Err OpHost
      else
        let cleaned := Clean repo in
        match repo_lookup raw cleaned with
        | Some previous => Err (OpDuplicateRepo previous repo)
        | None =>
            normalize_repos rest (raw ++ [(cleaned, repo)]) (normalized ++ [(cleaned, grant)])
        end
  end.

(** The configuration returned beside every error is the empty one. *)
Definition LoadOperatorConfig (read : OperatorRead) : OperatorConfig * option OperatorError :=
  let fail e := (emptyOperatorConfig, Some e) in
  match read with
  | OperatorNoPath => fail OpPath
  | OperatorMissing => (emptyOperatorConfig, None)
  | OperatorUnreadable => fail OpRead
  | OperatorUndecodable => fail OpParse
  | OperatorDecoded f =>
      let approval := match of_Approval f with Some a => a | None => "" end in
      let approval_ok :=
        match of_Approval f with
        | Some a => in_list a [ApprovalPrompt; ApprovalPasskey]
        | None => true
        end in
      if negb approval_ok then fail OpApproval
      else if negb (in_list (of_Enforcement f) [""; "on"; "off"]) then fail OpEnforcement
      else if negb (forallb ValidateWebHost (of_GlobalHosts f)) then fail OpHost
      else
        match normalize_repos
                (List.filter (fun kv => negb (operatorTopLevelKeys (fst kv))) (of_Tables f)) [] [] with
        | Err e => fail e
        | Ok repos =>
            ({| oc_GlobalWebHosts := of_GlobalHosts f;
                oc_WebResearchEnforcement := of_Enforcement f;
                oc_Approval := approval; oc_Repos := repos |}, None)
        end
  end.

Section Operator.
Variable fs : FS.

(** [(o *OperatorConfig).grant]: the exact key, else the first repository
    whose physical path is the same. *)
Fixpoint grant_resolved (repos : list (string * RepoGrant)) (want : string) : option RepoGrant :=
  match repos with
  | [] => None
  | (root, g) :: rest =>
      if resolvePathForCompare fs (Clean root) =s? want then Some g
      else grant_resolved rest want
  end.

Definition grant (op : option OperatorConfig) (repoRoot : string) : option RepoGrant :=
  match op with
  | None => None
  | Some o =>
      if negb (IsAbs repoRoot) then None
      else
        let cleaned := Clean repoRoot in
        match repo_lookup (oc_Repos o) cleaned with
        | Some g => Some g
        | None => grant_resolved (oc_Repos o) (resolvePathForCompare fs cleaned)
        end
  end.

Definition AllowsWaiver (op : option OperatorConfig) (repoRoot ruleID : string) : bool :=
  if neverWaivable ruleID then false
  else match grant op repoRoot with
       | Some g => in_list ruleID (rg_Waive g)
       | None => false
       end.

Definition AllowsSecretAllow (op : option OperatorConfig) (repoRoot : string) : bool :=
  match grant op repoRoot with Some g => rg_SecretAllow g | None => false end.

Definition AllowsAuditLog (op : option OperatorConfig) (repoRoot : string) : bool :=
  match grant op repoRoot with Some g => rg_AuditLog g | None => false end.

Definition AllowsEgress (op : option OperatorConfig) (repoRoot entry : string) : bool :=
  match grant op repoRoot with
  | Some g => in_list entry (rg_EgressAllowlist g)
  | None => false
  end.

Definition AllowsGlobalWebHost (op : option OperatorConfig) (host : string) : bool :=
  match op with
  | Some o => ValidateWebHost host && in_list host (oc_GlobalWebHosts o)
  | None => false
  end.

Definition AllowsWebHost (op : option OperatorConfig) (repoRoot host : string) : bool :=
  match grant op repoRoot with
  | Some g => ValidateWebHost host && in_list host (rg_WebHosts g)
  | None => false
  end.

(** [(o *OperatorConfig).GrantKey] *)
Fixpoint key_resolved (repos : list (string * RepoGrant)) (want : string) : option string :=
  match repos with
  | [] => None
  | (root, _) :: rest =>
      if resolvePathForCompare fs (Clean root) =s? want then Some (Clean root)
      else key_resolved rest want
  end.

Definition GrantKey (op : option OperatorConfig) (repoRoot : string) : string :=
  let cleaned := Clean repoRoot in
  match op with
  | None => cleaned
  | Some o =>
      match repo_lookup (oc_Repos o) cleaned with
      | Some _ => cleaned
      | None =>
          match key_resolved (oc_Repos o) (resolvePathForCompare fs cleaned) with
          | Some k => k
          | None => cleaned
          end
      end
  end.

Definition grant_matches (ruleID command : string) (now : Time) (c : CommandGrant) : bool :=
  (cg_RuleID c =s? ruleID) && (cg_Command c =s? command) && Live c now.

Definition AllowsCommand (op : option OperatorConfig)
    (repoRoot ruleID command : string) (now : Time) : bool :=
  if NeverGrantable ruleID then false
  else match grant op repoRoot with
       | None => false
       | Some g => existsb (grant_matches ruleID command now) (rg_Commands g)
       end.

End Operator.
