(* ===== verification/Merge.v ===== *)
(** * Merging the Base policy with an Overlay ([internal/policy/merge.go])

    [Merge] is modelled whole: the posture check, the copies of the Base, the
    operator's global web hosts, the tightening additions, the safe roots
    confined to the repository lexically and physically, the requests that
    only the Operator config can grant, and the waivers.  The host's answers
    about paths are the [FS] parameter. *)

From Stdlib Require Import ZArith Lia Bool.
From S2P Require Import Prelude GoStrings GoPath Policy.

Open Scope string_scope.
Open Scope list_scope.

(** [type Overlay] of config.go *)
Record Overlay := {
  ov_EngineMinVersion : string;
  ov_AuditLog : string;
  ov_UnknownToolPosture : string;
  ov_SafeRoots : list string;
  ov_SecretDirs : list string;
  ov_SecretGlobs : list string;
  ov_SecretAskGlobs : list string;
  ov_SecretAllow : list string;
  ov_EgressAllowlist : list string;
  ov_WebHosts : list string;
  ov_Recipes : RecipeConfig;
  ov_Rules : list Rule;
  ov_Waive : list string;
  ov_Path : string;
  ov_Warnings : list string;
}.

Definition emptyOverlay : Overlay :=
  {| ov_EngineMinVersion := ""; ov_AuditLog := ""; ov_UnknownToolPosture := "";
     ov_SafeRoots := []; ov_SecretDirs := []; ov_SecretGlobs := []; ov_SecretAskGlobs := [];
     ov_SecretAllow := []; ov_EgressAllowlist := []; ov_WebHosts := []; ov_Recipes := None;
     ov_Rules := []; ov_Waive := []; ov_Path := ""; ov_Warnings := [] |}.

(** ** Versions *)

(** [strings.SplitN(s, ".", 3)] *)
Definition SplitN3 (s : string) : list string :=
  let '(a, r, more) := Cut s "." in
  if more then
    let '(b, r', more') := Cut r "." in
    if more' then [a; b; r'] else [a; b]
  else [a].

Definition parse_part (part : string) : option Z :=
  Atoi (TrimRightByte (fun c => negb (is_digit c)) part).

Fixpoint parse_parts (parts : list string) : option (list Z) :=
  match parts with
  | [] => Some []
  | p :: ps =>
      match parse_part p, parse_parts ps with
      | Some n, Some ns => Some (n :: ns)
      | _, _ => None
      end
  end.

(** The three numbers, missing ones zero; [None] is [ok = false]. *)
Definition parseVer (s : string) : option (Z * Z * Z) :=
  match parse_parts (SplitN3 (TrimPrefix s "v")) with
  | Some ns => Some (nth 0 ns 0%Z, nth 1 ns 0%Z, nth 2 ns 0%Z)
  | None => None
  end.

Definition versionOlder (bin min : string) : bool :=
  match parseVer bin, parseVer min with
  | Some (b0, b1, b2), Some (m0, m1, m2) =>
      if negb (b0 =? m0)%Z then (b0 <? m0)%Z
      else if negb (b1 =? m1)%Z then (b1 <? m1)%Z
      else if negb (b2 =? m2)%Z then (b2 <? m2)%Z
      else false
  | _, _ => false
  end.

(** ** The merge *)

Inductive MergeError :=
| MergePosture (value : string)
| MergeOverlayDecision (id : string) (d : Decision).

Section Merge.
Variable fs : FS.

(** [OperatorConfigPath()], which the warnings name. *)
Variable configPath : string.

(** The posture the merged policy carries. *)
Definition merge_posture (base : Policy) (ov : option Overlay) : result MergeError string :=
  let base_posture :=
    if p_UnknownToolPosture base =s? "" then UnknownAudit else p_UnknownToolPosture base in
  match ParseUnknownToolPosture base_posture with
  | Err _ => Err (MergePosture base_posture)
  | Ok _ =>
      match ov with
      | Some o =>
          if ov_UnknownToolPosture o <>s? "" then
            match ParseUnknownToolPosture (ov_UnknownToolPosture o) with
            | Ok p => Ok p
            | Err _ => Err (MergePosture (ov_UnknownToolPosture o))
            end
          else Ok base_posture
      | None => Ok base_posture
      end
  end.

(** The copy of the Base, with the operator's machine-wide settings. *)
Definition merge_base (base : Policy) (op : option OperatorConfig) (posture : string) : Policy :=
  let s := p_Slots base in
  {| p_WebResearchOff :=
       match op with Some o => oc_WebResearchEnforcement o =s? "off" | None => false end;
     p_Slots :=
       {| s_SafeRoots := s_SafeRoots s; s_SecretDirs := s_SecretDirs s;
          s_SecretGlobs := s_SecretGlobs s; s_SecretAskGlobs := s_SecretAskGlobs s;
          s_SecretAllow := s_SecretAllow s; s_EgressAllowlist := s_EgressAllowlist s;
          s_WebHosts := s_WebHosts s ++
            match op with
            | Some o => List.filter ValidateWebHost (oc_GlobalWebHosts o)
            | None => []
            end;
          s_AuditLog := s_AuditLog s |};
     p_Recipes := clone (p_Recipes base);
     p_Rules := p_Rules base;
     p_Waived := p_Waived base;
     p_UnknownToolPosture := posture |}.

(** The Overlay's rules, up to the first that does not ask or deny. *)
Fixpoint merge_rules (rules : list Rule) : result MergeError (list Rule) :=
  match rules with
  | [] => Ok []
  | r :: rest =>
      match r_Decision r with
      | Ask | Deny =>
          match merge_rules rest with
          | Ok rs => Ok (r :: rs)
          | Err e => Err e
          end
      | d => Err (MergeOverlayDecision (r_ID r) d)
      end
  end.

(** One requested safe root: the candidate to add, or [None] when dropped. *)
Definition merge_safe_root (repoRoot sr : string) : option string :=
  let cleanRoot := Clean repoRoot in
  let resolvedRoot := ResolveThroughExistingAncestor fs cleanRoot in
  let rawCandidate := if IsAbs sr then sr else cleanRoot +:+ sep +:+ sr in
  let resolved := ResolveThroughExistingAncestor fs rawCandidate in
  let candidate := Clean (if IsAbs sr then sr else JoinPath [cleanRoot; sr]) in
  let lexicalRel := Rel cleanRoot candidate in
  if negb (IsAbs repoRoot) then None
  else match resolvedRoot, lexicalRel, resolved with
       | Some rr, Some lrel, Some r =>
           if pathEscapesRoot lrel then None
           else match Rel rr r with
                | Some rrel => if pathEscapesRoot rrel then None else Some candidate
                | None => None
                end
       | _, _, _ => None
       end.

Fixpoint merge_safe_roots (repoRoot : string) (srs : list string) : list string * list string :=
  match srs with
  | [] => ([], [])
  | sr :: rest =>
      let '(roots, warns) := merge_safe_roots repoRoot rest in
      match merge_safe_root repoRoot sr with
      | Some c => (c :: roots, warns)
      | None =>
          (roots, ("guardrail: repo requested safe_root " +:+ sr +:+
                   " outside the repository — DROPPED") :: warns)
      end
  end.

Fixpoint merge_egress (op : option OperatorConfig) (repoRoot : string) (entries : list string)
  : list string * list string :=
  match entries with
  | [] => ([], [])
  | entry :: rest =>
      let '(allowed, warns) := merge_egress op repoRoot rest in
      if (entry =s? "*") || (entry =s? "**") then
        (allowed, ("guardrail: repo requested a wildcard egress_allowlist entry " +:+ entry +:+
                   " — DROPPED") :: warns)
      else if negb (AllowsEgress fs op repoRoot entry) then
        (allowed, ("guardrail: repo requested egress_allowlist entry " +:+ entry +:+
                   ", which is NOT authorized in " +:+ configPath +:+ " — DROPPED") :: warns)
      else (entry :: allowed, warns)
  end.

Fixpoint merge_web_hosts (op : option OperatorConfig) (repoRoot : string) (hosts : list string)
  : list string * list string :=
  match hosts with
  | [] => ([], [])
  | host :: rest =>
      let '(allowed, warns) := merge_web_hosts op repoRoot rest in
      if negb (ValidateWebHost host) || negb (AllowsWebHost fs op repoRoot host) then
        (allowed, ("guardrail: repo requested web_hosts entry " +:+ host +:+
                   ", which is NOT authorized in " +:+ configPath +:+ " — DROPPED") :: warns)
      else (host :: allowed, warns)
  end.

Fixpoint merge_waivers (op : option OperatorConfig) (repoRoot : string)
    (waivers : list string) (m : gmap string bool) : gmap string bool * list string :=
  match waivers with
  | [] => (m, [])
  | w :: rest =>
      if neverWaivable w then
        let '(m', warns) := merge_waivers op repoRoot rest m in
        (m', ("guardrail: rule " +:+ w +:+
              " can never be waived (fail-closed backstop) — request DROPPED") :: warns)
      else if AllowsWaiver fs op repoRoot w then
        let '(m', warns) := merge_waivers op repoRoot rest (<[w := true]> m) in
        (m', ("guardrail: rule " +:+ w +:+ " is WAIVED for this repo by operator authorization") :: warns)
      else
        let '(m', warns) := merge_waivers op repoRoot rest m in
        (m', ("guardrail: repo requested waiver of " +:+ w +:+
              ", which is NOT authorized in " +:+ configPath +:+ " — the rule remains ENFORCED") :: warns)
  end.

Definition merge_secret_allow (op : option OperatorConfig) (repoRoot : string)
    (requested : list string) : list string * list string :=
  match requested with
  | [] => ([], [])
  | _ =>
      if AllowsSecretAllow fs op repoRoot then (requested, [])
      else ([], ["guardrail: repo requested secret_allow entries, which are NOT authorized in " +:+
                 configPath +:+ " — secret protection remains ENFORCED"])
  end.

Definition merge_audit_log (op : option OperatorConfig) (repoRoot current requested : string)
  : string * list string :=
  if requested =s? "" then (current, [])
  else if AllowsAuditLog fs op repoRoot then (requested, [])
  else (current, ["guardrail: repo requested audit_log " +:+ requested +:+
                  ", which is NOT authorized in " +:+ configPath +:+
                  " — the default audit path is retained"]).

Definition Merge (base : Policy) (ov : option Overlay) (binaryVersion : string)
    (op : option OperatorConfig) (repoRoot : string)
  : result MergeError (Policy * list string) :=
  match merge_posture base ov with
  | Err e => Err e
  | Ok posture =>
      let m := merge_base base op posture in
      match ov with
      | None => Ok (m, [])
      | Some o =>
          match merge_rules (ov_Rules o) with
          | Err e => Err e
          | Ok rules =>
              let s := p_Slots m in
              let '(roots, w1) := merge_safe_roots repoRoot (ov_SafeRoots o) in
              let '(egress, w2) := merge_egress op repoRoot (ov_EgressAllowlist o) in
              let '(hosts, w3) := merge_web_hosts op repoRoot (ov_WebHosts o) in
              let '(allow, w4) := merge_secret_allow op repoRoot (ov_SecretAllow o) in
              let '(log, w5) := merge_audit_log op repoRoot (s_AuditLog s) (ov_AuditLog o) in
              let '(waivedMap, w6) := merge_waivers op repoRoot (ov_Waive o) (p_Waived m) in
              let w7 :=
                if (ov_EngineMinVersion o <>s? "") && versionOlder binaryVersion (ov_EngineMinVersion o)
                then ["guardrail: binary " +:+ binaryVersion +:+
                      " is older than this repo's engine_min_version " +:+ ov_EngineMinVersion o]
                else [] in
              Ok ({| p_WebResearchOff := p_WebResearchOff m;
                     p_Slots :=
                       {| s_SafeRoots := s_SafeRoots s ++ roots;
                          s_SecretDirs := s_SecretDirs s ++ ov_SecretDirs o;
                          s_SecretGlobs := s_SecretGlobs s ++ ov_SecretGlobs o;
                          s_SecretAskGlobs := s_SecretAskGlobs s ++ ov_SecretAskGlobs o;
                          s_SecretAllow := s_SecretAllow s ++ allow;
                          s_EgressAllowlist := s_EgressAllowlist s ++ egress;
                          s_WebHosts := s_WebHosts s ++ hosts;
                          s_AuditLog := log |};
                     p_Recipes := match ov_Recipes o with Some _ => clone (ov_Recipes o)
                                  | None => p_Recipes m end;
                     p_Rules := p_Rules m ++ rules;
                     p_Waived := waivedMap;
                     p_UnknownToolPosture := p_UnknownToolPosture m |},
                  w1 ++ w2 ++ w3 ++ w4 ++ w5 ++ w6 ++ w7 ++ ov_Warnings o)
          end
      end
  end.

End Merge.

(** ** Lemmas on the parts of the merge *)

Section MergeLemmas.
Variable fs : FS.
Variable configPath : string.
Implicit Types (op : option OperatorConfig) (repoRoot : string).

Lemma merge_safe_root_inside repoRoot sr c :
  merge_safe_root fs repoRoot sr = Some c ->
  IsAbs repoRoot = true /\ elements (Clean repoRoot) `prefix_of` elements (Clean c) /\
  exists rr r,
    ResolveThroughExistingAncestor fs (Clean repoRoot) = Some rr /\
    ResolveThroughExistingAncestor fs (if IsAbs sr then sr else Clean repoRoot +:+ sep +:+ sr) = Some r /\
    (IsAbs rr = true -> elements (Clean rr) `prefix_of` elements (Clean r)).
Proof.
  unfold merge_safe_root. intros H.
  destruct (IsAbs repoRoot) eqn:Habs; [|done]. simpl in H.
  destruct (ResolveThroughExistingAncestor fs (Clean repoRoot)) as [rr|] eqn:Err; [|done].
  destruct (Rel (Clean repoRoot) _) as [lrel|] eqn:El; [|done].
  destruct (ResolveThroughExistingAncestor fs (if IsAbs sr then _ else _)) as [r|] eqn:Er; [|done].
  destruct (pathEscapesRoot lrel) eqn:Ee; [done|].
  destruct (Rel rr r) as [rrel|] eqn:Er2; [|done].
  destruct (pathEscapesRoot rrel) eqn:Ee2; [done|]. injection H as <-.
  split; [done|]. split.
  - apply Rel_inside in El; [|by rewrite IsAbs_Clean|done].
    by rewrite Clean_Clean in El.
  - exists rr, r. split; [done|]. split; [done|]. intros Ha. by eapply Rel_inside.
Qed.

Lemma merge_safe_roots_spec repoRoot srs c :
  c ∈ (merge_safe_roots fs repoRoot srs).1 <->
  exists sr, sr ∈ srs /\ merge_safe_root fs repoRoot sr = Some c.
Proof.
  induction srs as [|sr srs IH]; simpl.
  - split; [by intros ?%elem_of_nil|]. by intros (? & ?%elem_of_nil & _).
  - destruct (merge_safe_roots fs repoRoot srs) as [roots warns].
    destruct (merge_safe_root fs repoRoot sr) as [d|] eqn:E; simpl in *;
      rewrite ?elem_of_cons, IH; split.
    + intros [->|(x & ? & ?)]; eauto using list_elem_of_here, list_elem_of_further.
    + intros (x & [->|?]%elem_of_cons & Hx); [left; congruence|right; eauto].
    + intros (x & ? & ?); eauto using list_elem_of_further.
    + intros (x & [->|?]%elem_of_cons & Hx); [congruence|eauto].
Qed.

Lemma merge_egress_spec op repoRoot entries e :
  e ∈ (merge_egress fs configPath op repoRoot entries).1 ->
  e ∈ entries /\ e <> "*" /\ e <> "**" /\ AllowsEgress fs op repoRoot e = true.
Proof.
  induction entries as [|x entries IH]; simpl; [by intros ?%elem_of_nil|].
  destruct (merge_egress fs configPath op repoRoot entries) as [al warns].
  destruct ((x =s? "*") || (x =s? "**")) eqn:E1; simpl in *.
  { intros (? & ?)%IH. split; [by apply list_elem_of_further|done]. }
  destruct (AllowsEgress fs op repoRoot x) eqn:E2; simpl in *.
  - rewrite elem_of_cons. intros [->|(? & ?)%IH]; [|split; [by apply list_elem_of_further|done]].
    apply orb_false_iff in E1 as [? ?]. breflect. by repeat split; try apply list_elem_of_here.
  - intros (? & ?)%IH. split; [by apply list_elem_of_further|done].
Qed.

Lemma merge_web_hosts_spec op repoRoot hosts h :
  h ∈ (merge_web_hosts fs configPath op repoRoot hosts).1 ->
  h ∈ hosts /\ ValidateWebHost h = true /\ AllowsWebHost fs op repoRoot h = true.
Proof.
  induction hosts as [|x hosts IH]; simpl; [by intros ?%elem_of_nil|].
  destruct (merge_web_hosts fs configPath op repoRoot hosts) as [al warns].
  destruct (ValidateWebHost x) eqn:E1, (AllowsWebHost fs op repoRoot x) eqn:E2; simpl in *;
    try (intros (? & ?)%IH; split; [by apply list_elem_of_further|done]).
  rewrite elem_of_cons. intros [->|(? & ?)%IH]; [|split; [by apply list_elem_of_further|done]].
  by repeat split; try apply list_elem_of_here.
Qed.

Lemma merge_waivers_spec op repoRoot ws m id :
  waived (merge_waivers fs configPath op repoRoot ws m).1 id = true ->
  waived m id = true \/ (id ∈ ws /\ AllowsWaiver fs op repoRoot id = true).
Proof.
  revert m. induction ws as [|w ws IH]; intros m; simpl; [by left|].
  destruct (neverWaivable w) eqn:Ew; [|destruct (AllowsWaiver fs op repoRoot w) eqn:Ea].
  - specialize (IH m). destruct (merge_waivers fs configPath op repoRoot ws m).
    intros [?|[? ?]]%IH; [by left|right]. split; [by apply list_elem_of_further|done].
  - specialize (IH (<[w:=true]> m)). destruct (merge_waivers fs configPath op repoRoot ws (<[w:=true]> m)).
    intros [Hm|[? ?]]%IH; [|right; split; [by apply list_elem_of_further|done]].
    unfold waived in Hm. destruct (decide (w = id)) as [->|Hne].
    + right. split; [apply list_elem_of_here|done].
    + left. unfold waived. by rewrite lookup_insert_ne in Hm.
  - specialize (IH m). destruct (merge_waivers fs configPath op repoRoot ws m).
    intros [?|[? ?]]%IH; [by left|right]. split; [by apply list_elem_of_further|done].
Qed.

Lemma merge_secret_allow_spec op repoRoot req e :
  e ∈ (merge_secret_allow fs configPath op repoRoot req).1 ->
  e ∈ req /\ AllowsSecretAllow fs op repoRoot = true.
Proof.
  unfold merge_secret_allow. destruct req as [|x req]; simpl; [by intros ?%elem_of_nil|].
  destruct (AllowsSecretAllow fs op repoRoot); simpl; [done|by intros ?%elem_of_nil].
Qed.

Lemma merge_audit_log_spec op repoRoot cur req log w :
  merge_audit_log fs configPath op repoRoot cur req = (log, w) ->
  log = cur \/ (log = req /\ AllowsAuditLog fs op repoRoot = true).
Proof.
  unfold merge_audit_log. intros H.
  destruct (req =s? ""); [simplify_eq; by left|].
  destruct (AllowsAuditLog fs op repoRoot); simplify_eq; [by right|by left].
Qed.

Lemma merge_rules_spec rules rs :
  merge_rules rules = Ok rs -> rs = rules /\ Forall (fun r => r_Decision r = Ask \/ r_Decision r = Deny) rules.
Proof.
  revert rs. induction rules as [|r rules IH]; intros rs H; simpl in H.
  - simplify_eq. done.
  - destruct (r_Decision r) eqn:Ed; try done;
    (destruct (merge_rules rules) as [rs'|]; [|done]; simplify_eq;
     destruct (IH _ eq_refl) as [-> Hf]; split; [done|]; constructor; auto).
Qed.

(** What a successful merge with an Overlay is made of. *)
Lemma Merge_overlay_inv base o ver op repoRoot m w :
  Merge fs configPath base (Some o) ver op repoRoot = Ok (m, w) ->
  exists posture,
    let b := merge_base base op posture in
    merge_posture base (Some o) = Ok posture /\
    Forall (fun r => r_Decision r = Ask \/ r_Decision r = Deny) (ov_Rules o) /\
    p_WebResearchOff m = p_WebResearchOff b /\
    p_Rules m = p_Rules base ++ ov_Rules o /\
    s_SafeRoots (p_Slots m) = s_SafeRoots (p_Slots base) ++
      (merge_safe_roots fs repoRoot (ov_SafeRoots o)).1 /\
    s_SecretDirs (p_Slots m) = s_SecretDirs (p_Slots base) ++ ov_SecretDirs o /\
    s_SecretGlobs (p_Slots m) = s_SecretGlobs (p_Slots base) ++ ov_SecretGlobs o /\
    s_SecretAskGlobs (p_Slots m) = s_SecretAskGlobs (p_Slots base) ++ ov_SecretAskGlobs o /\
    s_SecretAllow (p_Slots m) = s_SecretAllow (p_Slots base) ++
      (merge_secret_allow fs configPath op repoRoot (ov_SecretAllow o)).1 /\
    s_EgressAllowlist (p_Slots m) = s_EgressAllowlist (p_Slots base) ++
      (merge_egress fs configPath op repoRoot (ov_EgressAllowlist o)).1 /\
    s_WebHosts (p_Slots m) = s_WebHosts (p_Slots b) ++
      (merge_web_hosts fs configPath op repoRoot (ov_WebHosts o)).1 /\
    s_AuditLog (p_Slots m) =
      (merge_audit_log fs configPath op repoRoot (s_AuditLog (p_Slots base)) (ov_AuditLog o)).1 /\
    p_Waived m = (merge_waivers fs configPath op repoRoot (ov_Waive o) (p_Waived base)).1.
Proof.
  unfold Merge. destruct (merge_posture base (Some o)) as [posture|] eqn:Ep; [|done].
  destruct (merge_rules (ov_Rules o)) as [rules|] eqn:Er; [|done].
  apply merge_rules_spec in Er as [-> Hr].
  simpl s_AuditLog. simpl p_Waived at 1. simpl.
  destruct (merge_safe_roots fs repoRoot (ov_SafeRoots o)) as [roots w1].
  destruct (merge_egress fs configPath op repoRoot (ov_EgressAllowlist o)) as [eg w2].
  destruct (merge_web_hosts fs configPath op repoRoot (ov_WebHosts o)) as [hs w3].
  destruct (merge_secret_allow fs configPath op repoRoot (ov_SecretAllow o)) as [al w4].
  destruct (merge_audit_log fs configPath op repoRoot (s_AuditLog (p_Slots base)) (ov_AuditLog o)) as [lg w5].
  destruct (merge_waivers fs configPath op repoRoot (ov_Waive o) (p_Waived base)) as [wm w6].
  intros H. injection H as <- _. exists posture. simpl. by repeat split.
Qed.

End MergeLemmas.

(** ** Properties *)

(** A host on which every path exists and is its own physical path, and a
    policy and an operator's file to evaluate the merge on. *)
Definition demo_fs : FS :=
  {| fs_lstat := fun _ => LExists; fs_evalsymlinks := fun p => Some p |}.

Definition demo_base : Policy :=
  {| p_WebResearchOff := false;
     p_Slots := {| s_SafeRoots := []; s_SecretDirs := ["**/.ssh/**"]; s_SecretGlobs := ["**/.env"];
                   s_SecretAskGlobs := ["**/*.pem"]; s_SecretAllow := ["**/*.pub"];
                   s_EgressAllowlist := []; s_WebHosts := []; s_AuditLog := "" |};
     p_Recipes := None; p_Rules := []; p_Waived := ∅; p_UnknownToolPosture := "audit" |}.

Definition demo_op : OperatorConfig :=
  {| oc_GlobalWebHosts := ["go.dev"]; oc_WebResearchEnforcement := "on"; oc_Approval := "";
     oc_Repos := [("/w/repo", {| rg_Waive := ["P6.install"]; rg_SecretAllow := false;
                                 rg_AuditLog := false; rg_EgressAllowlist := ["example.com"];
                                 rg_WebHosts := []; rg_Commands := [] |})] |}.

Definition demo_overlay : Overlay :=
  {| ov_EngineMinVersion := "v0.30"; ov_AuditLog := "/tmp/log"; ov_UnknownToolPosture := "deny";
     ov_SafeRoots := ["build"; "../other"]; ov_SecretDirs := ["**/keys/**"]; ov_SecretGlobs := [];
     ov_SecretAskGlobs := []; ov_SecretAllow := ["**/.env.test"];
     ov_EgressAllowlist := ["*"; "example.com"; "evil.test"]; ov_WebHosts := ["docs.test"];
     ov_Recipes := None;
     ov_Rules := [{| r_ID := "X1"; r_Tool := "Bash"; r_Pattern := "make *"; r_Decision := Ask;
                     r_Reason := "make" |}];
     ov_Waive := ["P6.install"; "P3.unresolved"; "P1.git-clean"]; ov_Path := ""; ov_Warnings := [] |}.

Definition demo_merge := Merge demo_fs "/home/op/waivers.toml" demo_base (Some demo_overlay)
  "v0.23.36-dev" (Some demo_op) "/w/repo".

Definition merged_policy (r : result MergeError (Policy * list string)) : Policy :=
  match r with Ok (m, _) => m | Err _ => demo_base end.
Definition merged_warnings (r : result MergeError (Policy * list string)) : list string :=
  match r with Ok (_, w) => w | Err _ => [] end.

(** C17: nothing an Overlay asks for loosens the Base policy unless the
    Operator config authorizes it for this repository: every active waiver,
    egress entry, web host, secret allowance and audit path of the merged
    policy is the Base's, or one the operator granted (never a fail-closed
    backstop, never a wildcard, never an invalid host). *)
Theorem Merge_loosening_authorized fs cfg base ov ver op repoRoot m w :
  Merge fs cfg base ov ver op repoRoot = Ok (m, w) ->
  (forall id, waived (p_Waived m) id = true ->
     waived (p_Waived base) id = true \/
     (neverWaivable id = false /\ AllowsWaiver fs op repoRoot id = true)) /\
  (forall e, e ∈ s_EgressAllowlist (p_Slots m) ->
     e ∈ s_EgressAllowlist (p_Slots base) \/
     (e <> "*" /\ e <> "**" /\ AllowsEgress fs op repoRoot e = true)) /\
  (forall h, h ∈ s_WebHosts (p_Slots m) ->
     h ∈ s_WebHosts (p_Slots base) \/
     (ValidateWebHost h = true /\
      (AllowsGlobalWebHost op h = true \/ AllowsWebHost fs op repoRoot h = true))) /\
  (forall e, e ∈ s_SecretAllow (p_Slots m) ->
     e ∈ s_SecretAllow (p_Slots base) \/ AllowsSecretAllow fs op repoRoot = true) /\
  (s_AuditLog (p_Slots m) = s_AuditLog (p_Slots base) \/ AllowsAuditLog fs op repoRoot = true).
Proof.
  intros HM.
  assert (Hglobal : forall posture h, h ∈ s_WebHosts (p_Slots (merge_base base op posture)) ->
    h ∈ s_WebHosts (p_Slots base) \/
    (ValidateWebHost h = true /\ AllowsGlobalWebHost op h = true)).
  { intros posture h. simpl. rewrite elem_of_app. intros [?|Hh]; [by left|right].
    destruct op as [o|]; [|by apply elem_of_nil in Hh].
    apply list_elem_of_In, filter_In in Hh as [Hin Hv]. apply list_elem_of_In in Hin.
    split; [done|]. simpl. rewrite Hv. by apply in_list_true. }
  destruct ov as [o|].
  - apply Merge_overlay_inv in HM
      as (posture & _ & _ & _ & _ & _ & _ & _ & _ & Hsa & Heg & Hwh & Hal & Hwv).
    rewrite Hsa, Heg, Hwh, Hal, Hwv. split_and!.
    + intros id [?|[_ Ha]]%merge_waivers_spec; [by left|right]. split; [|done].
      unfold AllowsWaiver in Ha. by destruct (neverWaivable id).
    + intros e [?|(_ & ? & ? & ?)%merge_egress_spec]%elem_of_app; [by left|by right].
    + intros h [[?|[? ?]]%Hglobal|(_ & ? & ?)%merge_web_hosts_spec]%elem_of_app; [by left|by right; auto|by right; auto].
    + intros e [?|[_ ?]%merge_secret_allow_spec]%elem_of_app; [by left|by right].
    + destruct (merge_audit_log fs cfg op repoRoot _ _) as [lg w5] eqn:El.
      apply merge_audit_log_spec in El as [->|[_ ?]]; [by left|by right].
  - unfold Merge in HM. destruct (merge_posture base None) as [posture|]; [|done].
    injection HM as <- _. split_and!; try (intros; by left).
    intros h [?|[? ?]]%Hglobal; [by left|right]; auto.
Qed.

Lemma Merge_loosening_authorized_witness :
  demo_merge = Ok (merged_policy demo_merge, merged_warnings demo_merge) /\
  (forall e, e ∈ s_EgressAllowlist (p_Slots (merged_policy demo_merge)) ->
     e ∈ s_EgressAllowlist (p_Slots demo_base) \/
     (e <> "*" /\ e <> "**" /\ AllowsEgress demo_fs (Some demo_op) "/w/repo" e = true)) /\
  s_EgressAllowlist (p_Slots (merged_policy demo_merge)) = ["example.com"].
Proof.
  split; [vm_compute; reflexivity|]. split; [|vm_compute; reflexivity].
  apply (Merge_loosening_authorized demo_fs "/home/op/waivers.toml" demo_base (Some demo_overlay)
    "v0.23.36-dev" (Some demo_op) "/w/repo" (merged_policy demo_merge) (merged_warnings demo_merge)).
  vm_compute; reflexivity.
Defined.

(** An Overlay only adds protection: every Base rule, secret directory,
    secret glob and ambiguous-secret glob survives the merge in place, the
    Overlay's are appended, and each rule it adds asks or denies. *)
Theorem Merge_keeps_protection fs cfg base o ver op repoRoot m w :
  Merge fs cfg base (Some o) ver op repoRoot = Ok (m, w) ->
  p_Rules m = p_Rules base ++ ov_Rules o /\
  Forall (fun r => (1 <= Severity (r_Decision r))%Z) (ov_Rules o) /\
  s_SecretDirs (p_Slots m) = s_SecretDirs (p_Slots base) ++ ov_SecretDirs o /\
  s_SecretGlobs (p_Slots m) = s_SecretGlobs (p_Slots base) ++ ov_SecretGlobs o /\
  s_SecretAskGlobs (p_Slots m) = s_SecretAskGlobs (p_Slots base) ++ ov_SecretAskGlobs o /\
  (forall id, waived (p_Waived base) id = true -> waived (p_Waived m) id = true).
Proof.
  intros (posture & _ & Hr & _ & -> & _ & -> & -> & -> & _ & _ & _ & _ & ->)%Merge_overlay_inv.
  split_and!; try done.
  - eapply Forall_impl; [exact Hr|]. intros r [->| ->]; simpl; lia.
  - generalize (p_Waived base). induction (ov_Waive o) as [|x ws IH]; intros wm id Hid; simpl; [done|].
    destruct (neverWaivable x); [|destruct (AllowsWaiver fs op repoRoot x)].
    + specialize (IH wm id Hid). by destruct (merge_waivers fs cfg op repoRoot ws wm).
    + specialize (IH (<[x:=true]> wm) id).
      destruct (merge_waivers fs cfg op repoRoot ws (<[x:=true]> wm)). apply IH.
      unfold waived in *. destruct (decide (x = id)) as [->|Hne];
        [by rewrite lookup_insert_eq|by rewrite lookup_insert_ne].
    + specialize (IH wm id Hid). by destruct (merge_waivers fs cfg op repoRoot ws wm).
Qed.

Lemma Merge_keeps_protection_witness :
  demo_merge = Ok (merged_policy demo_merge, merged_warnings demo_merge) /\
  p_Rules (merged_policy demo_merge) = p_Rules demo_base ++ ov_Rules demo_overlay /\
  waived (p_Waived (merged_policy demo_merge)) "P6.install" = true.
Proof.
  split; [vm_compute; reflexivity|]. split; [|vm_compute; reflexivity].
  apply (Merge_keeps_protection demo_fs "/home/op/waivers.toml" demo_base demo_overlay
    "v0.23.36-dev" (Some demo_op) "/w/repo" (merged_policy demo_merge) (merged_warnings demo_merge)).
  vm_compute; reflexivity.
Defined.

(** Every safe root a merge adds for an Overlay lies inside the
    repository: the repository root is absolute, its elements are a prefix of
    the added root's, and so are its physical path's of the requested root's
    physical path (resolved through its nearest existing ancestor). *)
Theorem Merge_safe_roots_inside fs cfg base o ver op repoRoot m w c :
  Merge fs cfg base (Some o) ver op repoRoot = Ok (m, w) ->
  c ∈ s_SafeRoots (p_Slots m) -> c ∉ s_SafeRoots (p_Slots base) ->
  IsAbs repoRoot = true /\
  elements (Clean repoRoot) `prefix_of` elements (Clean c) /\
  exists sr rr r,
    sr ∈ ov_SafeRoots o /\
    ResolveThroughExistingAncestor fs (Clean repoRoot) = Some rr /\
    ResolveThroughExistingAncestor fs (if IsAbs sr then sr else Clean repoRoot +:+ sep +:+ sr) = Some r /\
    (IsAbs rr = true -> elements (Clean rr) `prefix_of` elements (Clean r)).
Proof.
  intros (posture & _ & _ & _ & _ & -> & _)%Merge_overlay_inv Hin Hnb.
  apply elem_of_app in Hin as [?|Hin]; [done|].
  apply merge_safe_roots_spec in Hin as (sr & Hsr & Hc).
  apply merge_safe_root_inside in Hc as (Habs & Hp & rr & r & Hrr & Hr & Hphys).
  split; [done|]. split; [done|]. by exists sr, rr, r.
Qed.

Lemma Merge_safe_roots_inside_witness :
  demo_merge = Ok (merged_policy demo_merge, merged_warnings demo_merge) /\
  s_SafeRoots (p_Slots (merged_policy demo_merge)) = ["/w/repo/build"] /\
  elements (Clean "/w/repo") `prefix_of` elements (Clean "/w/repo/build").
Proof.
  split; [vm_compute; reflexivity|]. split; [vm_compute; reflexivity|].
  apply (Merge_safe_roots_inside demo_fs "/home/op/waivers.toml" demo_base demo_overlay
    "v0.23.36-dev" (Some demo_op) "/w/repo" (merged_policy demo_merge) (merged_warnings demo_merge)
    "/w/repo/build").
  - vm_compute; reflexivity.
  - apply in_list_true. vm_compute; reflexivity.
  - apply in_list_false. vm_compute; reflexivity.
Defined.
