(* ===== verification/Argv.v ===== *)
(** * Argument vectors ([internal/engine/rules_bash.go])

    The helpers every command rule shares: the name a command runs under
    ([head]), flags and operands, and how the git rules find the subcommand
    past git's global options. *)

From Stdlib Require Import Bool Lia.
From S2P Require Import Prelude GoStrings GoPath Policy.

Open Scope string_scope.
Open Scope list_scope.

(** [path.Base] *)
Definition Base (p : string) : string :=
  if p =s? "" then "."
  else
    let r := skip_seps (srev p) in
    if r =s? "" then "/"
    else srev (fst (span_component r)).

Definition ContainsAny (s chars : string) : bool :=
  negb (all_bytes (fun c => negb (ContainsByte chars c)) s).

Definition second_byte (s : string) : option ascii :=
  match s with String _ (String c _) => Some c | _ => None end.

Definition isASCIILetterByte (b : ascii) : bool := is_letter b.

(** The clause on [runtime.GOOS] is false on a POSIX host. *)
Definition win32ResolvedPath (p : string) : bool :=
  match p with
  | String c (String ":" _) => if isASCIILetterByte c then true else ContainsByte p "\"
  | _ => ContainsByte p "\"
  end.

Definition TrimSuffix (s suf : string) : string :=
  if HasSuffix s suf then stake (String.length s - String.length suf) s else s.

Definition head (argv : list string) : string :=
  match argv with
  | [] => ""
  | a :: _ =>
      let name := ToLower (Base (ReplaceByte a "\" slash)) in
      let name := if win32ResolvedPath a
                  then TrimRightByte (fun c => Ascii.eqb c "." || Ascii.eqb c " ") name
                  else name in
      TrimSuffix name ".exe"
  end.

(** [ask(id, reason)] *)
Definition ask (id reason : string) : option Verdict := Some (verdict Ask id reason).
Definition deny (id reason : string) : option Verdict := Some (verdict Deny id reason).

(** A cluster of short flags: ["-"] followed by something. *)
Definition is_cluster (a : string) : bool :=
  HasPrefix a "-" && (1 <? String.length a)%nat.

Definition hasAnyFlag (argv : list string) (short : string) (long : list string) : bool :=
  existsb (fun a =>
    if HasPrefix a "--" then existsb (fun l => (a =s? l) || HasPrefix a (l +:+ "=")) long
    else if is_cluster a then ContainsAny (sdrop 1 a) short
    else false) (tail argv).

Definition nonFlagArgs (argv : list string) : list string :=
  List.filter (fun a => negb (HasPrefix a "-")) (tail argv).

(** ** git's global options and subcommand *)

Definition gitValueFlags (a : string) : bool :=
  in_list a ["-C"; "-c"; "--namespace"; "--git-dir"; "--work-tree"; "--exec-path";
             "--attr-source"; "--super-prefix"; "--config-env"].

Definition gitValuelessGlobals (a : string) : bool :=
  in_list a ["-p"; "-P"; "--no-pager"; "--paginate"; "--bare"; "--literal-pathspecs";
             "--no-replace-objects"; "--help"; "--version"; "--no-optional-locks"].

(** The words from the subcommand on: what [gitSubcommandIndex] points at.
    [args] are the words after [argv[0]]; the empty list is the index [-1]. *)
Fixpoint git_from_subcommand (args : list string) : list string :=
  match args with
  | [] => []
  | a :: rest =>
      if negb (HasPrefix a "-") then args
      else if gitValueFlags a then
        match rest with
        | [] => []
        | _ :: rest' => git_from_subcommand rest'
        end
      else git_from_subcommand rest
  end.

(** [-1] is [None]. *)
Definition gitSubcommandIndex (argv : list string) : option nat :=
  match git_from_subcommand (tail argv) with
  | [] => None
  | from => Some (length argv - length from)%nat
  end.

Definition gitSubcommand (argv : list string) : string :=
  match git_from_subcommand (tail argv) with
  | [] => ""
  | s :: _ => s
  end.

(** The words after the subcommand. *)
Definition git_args (argv : list string) : list string :=
  tail (git_from_subcommand (tail argv)).

Definition gitSubcommandArg (argv : list string) : string :=
  match git_from_subcommand (tail argv) with
  | _ :: a :: _ => a
  | _ => ""
  end.

Fixpoint git_unknown_flag (args : list string) : string :=
  match args with
  | [] => ""
  | a :: rest =>
      if negb (HasPrefix a "-") then ""
      else
        let '(base, _, has_eq) := Cut a "=" in
        if gitValueFlags base then
          if has_eq then git_unknown_flag rest
          else match rest with
               | [] => ""
               | _ :: rest' => git_unknown_flag rest'
               end
        else if gitValuelessGlobals base then git_unknown_flag rest
        else if negb (HasPrefix a "--") then git_unknown_flag rest
        else a
  end.

Definition gitSubcommandUnknownFlag (argv : list string) : string :=
  git_unknown_flag (tail argv).

(** ** Lemmas *)


Lemma git_from_subcommand_suffix args : exists pre, args = pre ++ git_from_subcommand args.
Proof.
  induction args as [|a rest [pre Hp] IH2] using list_ind_two; [by exists []|]. simpl.
  destruct (HasPrefix a "-"); simpl; [|by exists []].
  destruct (gitValueFlags a); [|exists (a :: pre); simpl; by rewrite <- Hp].
  destruct rest as [|v rest]; [by exists [a]|].
  destruct (IH2 v rest eq_refl) as [pre' Hp']. exists (a :: v :: pre'). simpl. by rewrite <- Hp'.
Qed.

(** The subcommand is the word the index points at. *)
Lemma gitSubcommandIndex_lookup argv i :
  gitSubcommandIndex argv = Some i -> argv !! i = Some (gitSubcommand argv) /\ (1 <= i)%nat.
Proof.
  unfold gitSubcommandIndex, gitSubcommand.
  destruct argv as [|a argv]; [done|]. simpl.
  destruct (git_from_subcommand_suffix argv) as [pre Hp].
  destruct (git_from_subcommand argv) as [|s from] eqn:E; [done|].
  intros H. assert (i = S (length pre)) as ->.
  { injection H as <-. rewrite Hp, length_app. simpl. lia. }
  split; [|lia]. simpl. rewrite Hp. by apply list_lookup_middle.
Qed.

(** The subcommand never starts with a dash. *)
Lemma git_from_subcommand_head args s from :
  git_from_subcommand args = s :: from -> HasPrefix s "-" = false.
Proof.
  induction args as [|a rest IH IH2] using list_ind_two; [done|]. simpl.
  destruct (HasPrefix a "-") eqn:Ea; simpl; [|intros; by simplify_eq].
  destruct (gitValueFlags a); [|done]. destruct rest as [|v rest]; [done|]. by eapply IH2.
Qed.
