(* ===== verification/Engine.v ===== *)
(** * The verdict of one tool call ([internal/engine/evaluate.go],
    [toolcall.go], the web-fetch part of [rules_net.go])

    [Evaluate] maps a normalized tool call and a merged policy to a verdict:
    the capability gates first, then the strictest of the path rules, the
    command rules and the Overlay rules. A panic anywhere becomes an ask. *)

From Stdlib Require Import ZArith Lia Bool.
From S2P Require Import Prelude GoStrings GoPath Policy Merge.

Open Scope string_scope.
Open Scope list_scope.

(** ** toolcall.go *)

Record DegradedAllowReport := {
  dar_Tool : string;
  dar_CallID : string;
  dar_TS : string;
}.

Record ToolCall := {
  tc_Plane : string;
  tc_Event : string;
  tc_Tool : string;
  tc_NativeTool : string;
  tc_ContractTool : string;
  tc_Capability : Capability;
  tc_NativeWebResearch : bool;
  tc_URL : string;
  tc_InputShape : string;
  tc_Command : string;
  tc_Shell : string;
  tc_Paths : list string;
  tc_Arguments : string;
  tc_SessionID : string;
  tc_CallID : string;
  tc_HostApproved : bool;
  tc_CWD : string;
  tc_RepoRoot : string;
  tc_Raw : string;
  tc_PermittedRoots : list string;
  tc_DegradedAllows : list DegradedAllowReport;
}.

Definition ShellPowerShell : string := "powershell".

Definition PowerShellCommand (tc : ToolCall) : bool :=
  (tc_Shell tc =s? ShellPowerShell) ||
  ((tc_Plane tc =s? "claude") && (tc_NativeTool tc =s? "PowerShell")).

Definition IsBash (tc : ToolCall) : bool :=
  EqualFold (tc_Tool tc) "bash" || (tc_Command tc <>s? "").

(** ** net/url, as far as the rules read it *)

(** The fields of [*url.URL] the code reads. *)
Record URL := {
  url_Scheme : string;
  url_User : option string;
  url_Host : string;
  url_Fragment : string;
}.

(** The text before and from the last [c] of [s]. *)
Fixpoint cut_last (s : string) (c : ascii) : option (string * string) :=
  match s with
  | EmptyString => None
  | String d t =>
      match cut_last t c with
      | Some (before, from) => Some (String d before, from)
      | None => if Ascii.eqb d c then Some ("", s) else None
      end
  end.

Definition validOptionalPort (port : string) : bool :=
  match port with
  | EmptyString => true
  | String c rest => Ascii.eqb c ":" && all_bytes is_digit rest
  end.

Definition splitHostPort (hostPort : string) : string * string :=
  let '(host, port) :=
    match cut_last hostPort ":" with
    | Some (before, from) =>
        if validOptionalPort from then (before, sdrop 1 from) else (hostPort, "")
    | None => (hostPort, "")
    end in
  if HasPrefix host "[" && HasSuffix host "]"
  then (stake (String.length host - 2) (sdrop 1 host), port)
  else (host, port).

Definition Hostname (u : URL) : string := fst (splitHostPort (url_Host u)).
Definition Port (u : URL) : string := snd (splitHostPort (url_Host u)).

(** ** Functions that may panic *)

(** What a Go call does: it returns, or it panics. *)
Inductive outcome (A : Type) : Type :=
| Returns (a : A)
| Panics.
Arguments Returns {A} _.
Arguments Panics {A}.

Definition obind {A B} (c : outcome A) (k : A -> outcome B) : outcome B :=
  match c with Returns a => k a | Panics => Panics end.

(** [defer func() { if recover() != nil { out = d } }()] *)
Definition recovering {A} (d : A) (c : outcome A) : A :=
  match c with Returns a => a | Panics => d end.

(** ** evaluate.go *)

Definition panic_recovered : Verdict :=
  verdict Ask "panic-recovered" "guardrail hit an internal error; failing closed to ask".

Definition delegationInheritsEnforcement (plane : string) : bool :=
  in_list plane ["opencode"; "claude"; "antigravity"].

Definition set_audit_kind (v : Verdict) (kind : string) : Verdict :=
  {| v_Decision := v_Decision v; v_RuleID := v_RuleID v; v_OriginRuleID := v_OriginRuleID v;
     v_Reason := v_Reason v; v_AuditKind := kind; v_OperatorAction := v_OperatorAction v;
     v_RequestID := v_RequestID v; v_ApprovalURL := v_ApprovalURL v |}.

(** The branch on [tc.Capability == policy.CapabilityUnknown]. *)
Definition unknown_tool_verdict (tc : ToolCall) (pol : Policy) : Verdict :=
  set_audit_kind
    (if (tc_Plane tc =s? "codex") || (p_UnknownToolPosture pol =s? UnknownDeny)
     then verdict Deny "unknown-native-tool" "unclassified native tool; failing closed"
     else if (tc_Plane tc =s? "opencode") || (tc_Plane tc =s? "claude")
     then verdict Ask "unknown-native-tool" "unclassified native tool requires operator approval"
     else verdict Allow "" "") "unknown-native-tool".

Definition path_capability (c : Capability) : bool :=
  bool_decide (c = CapabilityReadDiscovery) || bool_decide (c = CapabilityMutation).

(** One step of the loop that keeps the strictest verdict. *)
Definition keep_worst (worst h : option Verdict) : option Verdict :=
  match h with
  | None => worst
  | Some v =>
      match worst with
      | None => h
      | Some w => if (Severity (v_Decision w) <? Severity (v_Decision v))%Z then h else worst
      end
  end.

Definition worst_of (hits : list (option Verdict)) : option Verdict :=
  foldl keep_worst None hits.

Definition checkWebFetch : Verdict :=
  verdict Deny "web-fetch-native-deny"
    "native web fetch cannot verify redirect destinations; use guardrail fetch".

Section Evaluate.

(** [url.Parse]: [None] when it reports an error. *)
Context (url_Parse : string -> option URL).
(** [doublestar.Match]'s first result. *)
Context (glob : string -> string -> bool).

Definition NormalizeWebFetchURL (raw : string) : option string :=
  match url_Parse raw with
  | None => None
  | Some parsed =>
      if (url_Scheme parsed =s? "") || (url_Host parsed =s? "") ||
         bool_decide (is_Some (url_User parsed)) || (url_Fragment parsed <>s? "") ||
         (Port parsed <>s? "")
      then None
      else if negb (EqualFold (url_Scheme parsed) "http") &&
              negb (EqualFold (url_Scheme parsed) "https")
      then None
      else
        let host := ToLower (Hostname parsed) in
        if ValidateWebHost host then Some host else None
  end.

Definition validWebFetchURL (raw : string) : bool :=
  bool_decide (is_Some (NormalizeWebFetchURL raw)).

Definition rule_applies (tc : ToolCall) (pol : Policy) (r : Rule) : bool :=
  negb (waived (p_Waived pol) (r_ID r)) &&
  ((r_Tool r =s? "") || EqualFold (r_Tool r) (tc_Tool tc)) &&
  (r_Pattern r <>s? "") &&
  existsb (fun s => (s <>s? "") && glob (r_Pattern r) s) (tc_Command tc :: tc_Paths tc).

Definition matchOverlayRules (tc : ToolCall) (pol : Policy) : option Verdict :=
  match List.find (rule_applies tc pol) (p_Rules pol) with
  | Some r => Some (verdict (r_Decision r) (r_ID r) (r_Reason r))
  | None => None
  end.

(** The command and path rules, each of which may panic. *)
Context {bashAnalysis : Type}.
Context (analyzeBash : ToolCall -> outcome bashAnalysis).
Context (checkBashAnalysis : ToolCall -> Policy -> bashAnalysis -> outcome (option Verdict)).
Context (checkPathsAnalysis :
  ToolCall -> Policy -> option bashAnalysis -> outcome (option Verdict)).

(** From [var bash *bashAnalysis] on. *)
Definition evaluate_rules (tc : ToolCall) (pol : Policy) : outcome Verdict :=
  obind (if IsBash tc
         then obind (analyzeBash tc) (fun bash =>
              obind (checkBashAnalysis tc pol bash) (fun v => Returns (Some bash, v)))
         else Returns (None, None))
    (fun '(bash, bashVerdict) =>
  obind (checkPathsAnalysis tc pol bash) (fun pathVerdict =>
  match worst_of [pathVerdict; bashVerdict; matchOverlayRules tc pol] with
  | None => Returns (verdict Allow "" "")
  | Some w => Returns w
  end)).

Definition evaluate_body (tc : ToolCall) (pol : Policy) : outcome Verdict :=
  if p_WebResearchOff pol && tc_NativeWebResearch tc then
    Returns (verdict Allow "web-research-enforcement-off"
      "native web-research enforcement is off by operator policy; outbound data and destinations are not enforced")
  else if bool_decide (tc_Capability tc = CapabilityUnknown) then
    Returns (unknown_tool_verdict tc pol)
  else if path_capability (tc_Capability tc) && (length (tc_Paths tc) =? 0)%nat then
    Returns (verdict Deny "capability-input-missing" "path capability call did not provide paths")
  else if path_capability (tc_Capability tc) && existsb (fun p => p =s? "") (tc_Paths tc) then
    Returns (verdict Deny "capability-input-missing" "path capability call provided an empty path")
  else if bool_decide (tc_Capability tc = CapabilityCommand) && (tc_Command tc =s? "") then
    Returns (verdict Deny "capability-input-missing"
      "command capability call did not provide a command")
  else if bool_decide (tc_Capability tc = CapabilityWebFetch) && negb (validWebFetchURL (tc_URL tc))
  then
    Returns (verdict Deny "capability-input-invalid"
      "web fetch capability call did not provide a valid HTTP URL")
  else
    match tc_Capability tc with
    | CapabilityNone | CapabilityCommand | CapabilityReadDiscovery | CapabilityMutation =>
        evaluate_rules tc pol
    | CapabilityWebFetch => Returns checkWebFetch
    | CapabilitySafeControl => Returns (verdict Allow "" "")
    | CapabilityDeny =>
        if tc_NativeTool tc =s? "call_mcp_tool" then
          Returns (verdict Deny "call-mcp-tool-generic"
            "a generic MCP invoker cannot be re-dispatched safely until the registry can classify the target tool's arguments, which it cannot see through the indirection")
        else Returns (verdict Deny "capability-deny" "native tool capability is unsupported")
    | CapabilityWebSearch =>
        Returns (verdict Ask "capability-web-search" "web search requires operator approval")
    | CapabilityExternal =>
        Returns (verdict Ask "capability-external"
          "this tool reaches outside the session (MCP server, scheduler, or publication) and its data flow cannot be verified")
    | CapabilityDelegation =>
        if delegationInheritsEnforcement (tc_Plane tc) then
          Returns (verdict Allow "delegation-inherited"
            "child tool calls are mediated by this plane's Guardrail adapter")
        else Returns (verdict Deny "capability-delegation-unverified"
               "delegation requires verified child guardrail inheritance")
    | CapabilityUnknown | CapabilityOther _ =>
        Returns (verdict Deny "capability-invalid" "native tool capability is invalid")
    end.

Definition Evaluate (tc : ToolCall) (pol : Policy) : Verdict :=
  recovering panic_recovered (evaluate_body tc pol).

(** ** Selection of the strictest verdict *)

Lemma keep_worst_mono worst h w :
  worst = Some w ->
  exists w', keep_worst worst h = Some w' /\
    (Severity (v_Decision w) <= Severity (v_Decision w'))%Z.
Proof.
  intros ->. destruct h as [v|]; simpl; [|eauto with lia].
  case_match; breflect; eexists; split; eauto; lia.
Qed.

(** The fold over the hits returns one of them, and no hit is stricter. *)
Lemma foldl_keep_worst hits acc :
  match foldl keep_worst acc hits with
  | None => acc = None /\ Forall (fun h => h = None) hits
  | Some w =>
      (Some w = acc \/ Some w ∈ hits) /\
      (forall a, acc = Some a -> (Severity (v_Decision a) <= Severity (v_Decision w))%Z) /\
      (forall v, Some v ∈ hits -> (Severity (v_Decision v) <= Severity (v_Decision w))%Z)
  end.
Proof.
  revert acc. induction hits as [|h hits IH]; intros acc; simpl.
  - destruct acc as [w|]; [|done].
    split; [by left|]. split; [intros a [= ->]; lia|]. intros v Hv. by apply elem_of_nil in Hv.
  - specialize (IH (keep_worst acc h)). destruct (foldl keep_worst (keep_worst acc h) hits) as [w|].
    + destruct IH as (Hin & Hacc & Hhits). split_and!.
      * destruct Hin as [Hin|Hin]; [|right; by apply elem_of_cons; right].
        destruct h as [v|]; simpl in Hin; [|by left].
        destruct acc as [a|]; [|right; rewrite Hin; by apply elem_of_cons; left].
        case_match; [right; rewrite Hin; by apply elem_of_cons; left|by left].
      * intros a ->. destruct (keep_worst_mono (Some a) h a) as (w' & Hw & Hle); [done|].
        specialize (Hacc _ Hw). lia.
      * intros v [<-|Hv]%elem_of_cons; [|by apply Hhits].
        destruct acc as [a|]; simpl in Hacc; [|by apply Hacc].
        case_match; breflect; [by apply Hacc|]. specialize (Hacc a eq_refl). lia.
    + destruct IH as [Hk Hn]. destruct h as [v|]; simpl in Hk.
      * destruct acc; [case_match; done|done].
      * split; [done|]. by constructor.
Qed.

Lemma worst_of_spec hits :
  match worst_of hits with
  | None => Forall (fun h => h = None) hits
  | Some w => Some w ∈ hits /\
      forall v, Some v ∈ hits -> (Severity (v_Decision v) <= Severity (v_Decision w))%Z
  end.
Proof.
  unfold worst_of. pose proof (foldl_keep_worst hits None) as H.
  destruct (foldl keep_worst None hits).
  - destruct H as ([|Hin] & _ & Hle); [done|]. by split.
  - by destruct H.
Qed.

(** What the rules part returns when nothing panics. *)
Lemma evaluate_rules_inv tc pol out :
  evaluate_rules tc pol = Returns out ->
  exists bash pv bv,
    checkPathsAnalysis tc pol bash = Returns pv /\
    (if IsBash tc
     then exists a, bash = Some a /\ analyzeBash tc = Returns a /\
                    checkBashAnalysis tc pol a = Returns bv
     else bash = None /\ bv = None) /\
    out = match worst_of [pv; bv; matchOverlayRules tc pol] with
          | None => verdict Allow "" ""
          | Some w => w
          end.
Proof.
  unfold evaluate_rules. destruct (IsBash tc).
  - destruct (analyzeBash tc) as [a|]; [|done]. simpl.
    destruct (checkBashAnalysis tc pol a) as [bv|] eqn:Eb; [|done]. simpl.
    destruct (checkPathsAnalysis tc pol (Some a)) as [pv|] eqn:Ep; [|done]. simpl.
    intros H. exists (Some a), pv, bv. split_and!; [done|by exists a|].
    by case_match; simplify_eq.
  - simpl. destruct (checkPathsAnalysis tc pol None) as [pv|] eqn:Ep; [|done]. simpl.
    intros H. exists None, pv, None. split_and!; [done|done..|]. by case_match; simplify_eq.
Qed.

End Evaluate.

(** ** Properties *)

(** A session's shell call, and rules that find nothing. *)
Definition demo_call (capability : Capability) (command : string) : ToolCall :=
  {| tc_Plane := "claude"; tc_Event := "pre"; tc_Tool := "Bash"; tc_NativeTool := "Bash";
     tc_ContractTool := "Bash"; tc_Capability := capability; tc_NativeWebResearch := false;
     tc_URL := ""; tc_InputShape := ""; tc_Command := command; tc_Shell := ""; tc_Paths := [];
     tc_Arguments := ""; tc_SessionID := "s1"; tc_CallID := "call-1"; tc_HostApproved := false;
     tc_CWD := "/w/repo"; tc_RepoRoot := "/w/repo"; tc_Raw := ""; tc_PermittedRoots := [];
     tc_DegradedAllows := [] |}.

Definition demo_url_Parse (raw : string) : option URL := None.
Definition demo_analyze (tc : ToolCall) : outcome unit := Returns tt.
Definition demo_bash (tc : ToolCall) (pol : Policy) (a : unit) : outcome (option Verdict) :=
  Returns (if tc_Command tc =s? "git push --force" then Some (verdict Deny "P2.git-push-force" "")
           else None).
Definition demo_paths (tc : ToolCall) (pol : Policy) (a : option unit) : outcome (option Verdict) :=
  Returns None.
Definition demo_glob (pattern s : string) : bool := (pattern =s? "make *") && HasPrefix s "make ".

Section EvaluateProperties.

Context {bashAnalysis : Type}.
Context (url_Parse : string -> option URL) (glob : string -> string -> bool).
Context (analyzeBash : ToolCall -> outcome bashAnalysis).
Context (checkBashAnalysis : ToolCall -> Policy -> bashAnalysis -> outcome (option Verdict)).
Context (checkPathsAnalysis :
  ToolCall -> Policy -> option bashAnalysis -> outcome (option Verdict)).

#[local] Notation Evaluate' :=
  (Evaluate url_Parse glob analyzeBash checkBashAnalysis checkPathsAnalysis).

(** The capabilities whose calls the path, command and Overlay rules judge. *)
Definition judged_by_rules (c : Capability) : Prop :=
  c = CapabilityNone \/ c = CapabilityCommand \/ c = CapabilityReadDiscovery \/
  c = CapabilityMutation.

(** The native inputs a capability needs are there. *)
Definition inputs_present (tc : ToolCall) : Prop :=
  (path_capability (tc_Capability tc) = true -> tc_Paths tc <> [] /\ "" ∉ tc_Paths tc) /\
  (tc_Capability tc = CapabilityCommand -> tc_Command tc <> "").

Lemma existsb_empty_path paths : existsb (fun p => p =s? "") paths = false <-> "" ∉ paths.
Proof.
  induction paths as [|p paths IH]; simpl; [split; [intros _; apply not_elem_of_nil|done]|].
  rewrite orb_false_iff, IH, not_elem_of_cons, String.eqb_neq. naive_solver.
Qed.

(** Past the capability gates, a judged call is its rules' verdict. *)
Lemma evaluate_body_rules tc pol :
  judged_by_rules (tc_Capability tc) -> inputs_present tc ->
  p_WebResearchOff pol && tc_NativeWebResearch tc = false ->
  evaluate_body url_Parse glob analyzeBash checkBashAnalysis checkPathsAnalysis tc pol =
  evaluate_rules glob analyzeBash checkBashAnalysis checkPathsAnalysis tc pol.
Proof.
  intros Hc [Hp Hcmd] Hw. unfold evaluate_body. rewrite Hw.
  assert (Hgates : path_capability (tc_Capability tc) && (length (tc_Paths tc) =? 0)%nat = false /\
    path_capability (tc_Capability tc) && existsb (fun p => p =s? "") (tc_Paths tc) = false).
  { destruct (path_capability (tc_Capability tc)); [|done].
    destruct Hp as [Hne Hin]; [done|]. simpl. split; [by destruct (tc_Paths tc)|].
    by apply existsb_empty_path. }
  destruct Hgates as [-> ->].
  assert (Hn : bool_decide (tc_Capability tc = CapabilityCommand) && (tc_Command tc =s? "") = false).
  { case_bool_decide as E; [|done]. simpl. apply String.eqb_neq. by apply Hcmd. }
  rewrite Hn. destruct Hc as [Hc|[Hc|[Hc|Hc]]]; rewrite Hc; done.
Qed.

(** Conversely, a judged call that lacks an input never reaches its rules. *)
Lemma evaluate_body_missing tc pol :
  judged_by_rules (tc_Capability tc) -> ~ inputs_present tc ->
  p_WebResearchOff pol && tc_NativeWebResearch tc = false ->
  exists reason,
    evaluate_body url_Parse glob analyzeBash checkBashAnalysis checkPathsAnalysis tc pol =
    Returns (verdict Deny "capability-input-missing" reason).
Proof.
  intros Hc Hi Hw. unfold evaluate_body. rewrite Hw. rewrite bool_decide_eq_false_2;
    [|destruct Hc as [->|[->|[->| ->]]]; done].
  destruct (path_capability (tc_Capability tc)) eqn:Ep; simpl.
  - destruct (tc_Paths tc) as [|p ps] eqn:E; [eauto|]. simpl.
    destruct ((p =s? "") || existsb (fun p0 => p0 =s? "") ps) eqn:Ex; [eauto|].
    exfalso. apply Hi. split.
    + intros _. rewrite E. split; [done|]. by apply existsb_empty_path.
    + intros Hc'. by rewrite Hc' in Ep.
  - case_bool_decide as E; simpl.
    + destruct (tc_Command tc =s? "") eqn:Ecmd; [eauto|]. exfalso. apply Hi.
      split; [by rewrite Ep|]. intros _. by apply String.eqb_neq.
    + exfalso. apply Hi. split; [by rewrite Ep|done].
Qed.

(** C18: A call is allowed only on one of five grounds: the operator turned
    native web-research enforcement off; the tool is unclassified on a plane
    and posture that only audit it; it is safe control; it is delegation on a
    plane that mediates the child's calls; or its inputs are present, every
    rule ran without a panic, and none of them asked, denied or completed. *)
Theorem Evaluate_allow_grounds tc pol :
  v_Decision (Evaluate' tc pol) = Allow ->
  (p_WebResearchOff pol = true /\ tc_NativeWebResearch tc = true) \/
  (tc_Capability tc = CapabilityUnknown /\ p_UnknownToolPosture pol <> UnknownDeny /\
   tc_Plane tc ∉ ["codex"; "opencode"; "claude"]) \/
  tc_Capability tc = CapabilitySafeControl \/
  (tc_Capability tc = CapabilityDelegation /\ delegationInheritsEnforcement (tc_Plane tc) = true) \/
  (judged_by_rules (tc_Capability tc) /\ inputs_present tc /\
   exists bash pv bv,
     checkPathsAnalysis tc pol bash = Returns pv /\
     (if IsBash tc
      then exists a, bash = Some a /\ analyzeBash tc = Returns a /\
                     checkBashAnalysis tc pol a = Returns bv
      else bash = None /\ bv = None) /\
     forall v, Some v ∈ [pv; bv; matchOverlayRules glob tc pol] ->
       (Severity (v_Decision v) <= 0)%Z).
Proof.
  intros HA. destruct (p_WebResearchOff pol && tc_NativeWebResearch tc) eqn:Hw;
    [breflect; by left|right].
  assert (Hj : judged_by_rules (tc_Capability tc) \/ ~ judged_by_rules (tc_Capability tc)).
  { unfold judged_by_rules. destruct (tc_Capability tc); auto 10; right; naive_solver. }
  destruct Hj as [Hj|Hj].
  - do 3 right. split; [done|]. unfold Evaluate in HA.
    assert (Hi : inputs_present tc).
    { apply dec_stable. intros Hn. destruct (evaluate_body_missing tc pol Hj Hn Hw) as [r Hr].
      by rewrite Hr in HA. }
    split; [done|]. rewrite evaluate_body_rules in HA by done.
    destruct (evaluate_rules _ _ _ _ tc pol) as [out|] eqn:Er; [|done]. simpl in HA.
    apply evaluate_rules_inv in Er as (bash & pv & bv & Hpv & Hbv & Hout).
    exists bash, pv, bv. split_and!; [done|done|]. intros v Hv.
    pose proof (worst_of_spec [pv; bv; matchOverlayRules glob tc pol]) as Hs.
    destruct (worst_of _) as [w|]; [|].
    + destruct Hs as [_ Hs]. subst out. specialize (Hs v Hv). by rewrite HA in Hs.
    + rewrite Forall_forall in Hs. by apply Hs in Hv.
  - unfold Evaluate, evaluate_body in HA. rewrite Hw in HA. clear Hw.
    unfold judged_by_rules in Hj.
    destruct (tc_Capability tc) eqn:Ec; simpl in HA; try done;
      try (exfalso; apply Hj; auto 10; fail).
    + by destruct (validWebFetchURL url_Parse (tc_URL tc)).
    + destruct (delegationInheritsEnforcement (tc_Plane tc)) eqn:Ed; [|done]. by do 2 right; left.
    + by right; left.
    + by destruct (tc_NativeTool tc =s? "call_mcp_tool").
    + left. split; [done|]. unfold unknown_tool_verdict in HA.
      destruct (tc_Plane tc =s? "codex") eqn:E1; [done|].
      destruct (p_UnknownToolPosture pol =s? UnknownDeny) eqn:E2; [done|].
      destruct (tc_Plane tc =s? "opencode") eqn:E3; [done|].
      destruct (tc_Plane tc =s? "claude") eqn:E4; [done|]. breflect.
      split; [done|]. rewrite !not_elem_of_cons. repeat split; auto using not_elem_of_nil.
Qed.

(** Past the capability gates, with no panic, the verdict is one of the
    rules' verdicts and no rule's verdict is stricter; it is a plain allow
    exactly when no rule has a verdict. *)
Theorem Evaluate_strictest tc pol bash pv bv :
  judged_by_rules (tc_Capability tc) -> inputs_present tc ->
  p_WebResearchOff pol && tc_NativeWebResearch tc = false ->
  IsBash tc = true -> analyzeBash tc = Returns bash ->
  checkBashAnalysis tc pol bash = Returns bv ->
  checkPathsAnalysis tc pol (Some bash) = Returns pv ->
  let hits := [pv; bv; matchOverlayRules glob tc pol] in
  (Some (Evaluate' tc pol) ∈ hits \/
   (Evaluate' tc pol = verdict Allow "" "" /\ Forall (fun h => h = None) hits)) /\
  forall v, Some v ∈ hits ->
    (Severity (v_Decision v) <= Severity (v_Decision (Evaluate' tc pol)))%Z.
Proof.
  intros Hj Hi Hw Hb Ha Hbv Hpv hits. unfold Evaluate.
  rewrite evaluate_body_rules by done. unfold evaluate_rules. rewrite Hb, Ha. simpl.
  rewrite Hbv. simpl. rewrite Hpv. simpl. fold hits.
  pose proof (worst_of_spec hits) as Hs. destruct (worst_of hits) as [w|]; simpl.
  - destruct Hs as [Hin Hle]. split; [by left|done].
  - split; [by right|]. intros v Hv. rewrite Forall_forall in Hs. by apply Hs in Hv.
Qed.

(** The engine fails closed. A judged call without its native input is
    denied; a capability the engine does not know, a denied one and web fetch
    are denied; web search and external tools ask; and a panic in the command
    or path analysis is an ask, never an allow. *)
Theorem Evaluate_fails_closed tc pol :
  p_WebResearchOff pol && tc_NativeWebResearch tc = false ->
  (judged_by_rules (tc_Capability tc) -> ~ inputs_present tc ->
     v_Decision (Evaluate' tc pol) = Deny) /\
  (judged_by_rules (tc_Capability tc) -> inputs_present tc -> IsBash tc = true ->
     (analyzeBash tc = Panics \/
      (exists a, analyzeBash tc = Returns a /\
        (checkBashAnalysis tc pol a = Panics \/
         checkPathsAnalysis tc pol (Some a) = Panics))) ->
     Evaluate' tc pol = panic_recovered) /\
  (tc_Capability tc ∈ [CapabilityWebFetch; CapabilityDeny] \/
   (exists s, tc_Capability tc = CapabilityOther s) -> v_Decision (Evaluate' tc pol) = Deny) /\
  (tc_Capability tc ∈ [CapabilityWebSearch; CapabilityExternal] ->
     v_Decision (Evaluate' tc pol) = Ask).
Proof.
  intros Hw. split_and!.
  - intros Hj Hi. destruct (evaluate_body_missing tc pol Hj Hi Hw) as [r Hr].
    unfold Evaluate. by rewrite Hr.
  - intros Hj Hi Hb Hp. unfold Evaluate. rewrite evaluate_body_rules by done.
    unfold evaluate_rules. rewrite Hb. destruct Hp as [->|(a & -> & Hp)]; [done|]. simpl.
    destruct Hp as [->|Hp]; [done|]. destruct (checkBashAnalysis tc pol a); [|done]. simpl.
    by rewrite Hp.
  - unfold Evaluate, evaluate_body. rewrite Hw.
    intros [Hc|[s Hc]]; [|by rewrite Hc].
    repeat (apply elem_of_cons in Hc as [Hc|Hc]; [rewrite Hc; simpl; by case_match|]).
    by apply elem_of_nil in Hc.
  - unfold Evaluate, evaluate_body. rewrite Hw. intros Hc.
    repeat (apply elem_of_cons in Hc as [Hc|Hc]; [by rewrite Hc|]). by apply elem_of_nil in Hc.
Qed.

(** An Overlay's rule is enforced end to end: once merged and not waived,
    a rule whose tool and pattern match a judged call keeps that call from
    being allowed, whatever the other rules say. *)
Theorem Overlay_rule_enforced fs cfg base o ver op repoRoot m w r tc :
  Merge fs cfg base (Some o) ver op repoRoot = Ok (m, w) ->
  Forall (fun b => (1 <= Severity (r_Decision b))%Z) (p_Rules base) ->
  r ∈ ov_Rules o -> rule_applies glob tc m r = true ->
  judged_by_rules (tc_Capability tc) ->
  p_WebResearchOff m && tc_NativeWebResearch tc = false ->
  v_Decision (Evaluate' tc m) <> Allow.
Proof.
  intros (posture & _ & Hr & _ & Hrules & _)%Merge_overlay_inv Hbase Hin Hap Hj Hw HA.
  assert (Hm : exists v, matchOverlayRules glob tc m = Some v /\
                         (1 <= Severity (v_Decision v))%Z).
  { unfold matchOverlayRules. rewrite Hrules.
    destruct (List.find _ (p_Rules base ++ ov_Rules o)) as [r'|] eqn:Ef.
    - apply find_some in Ef as [Hin' _]. eexists. split; [done|]. simpl.
      apply list_elem_of_In, elem_of_app in Hin' as [Hb|Ho].
      + by eapply Forall_forall in Hbase.
      + eapply Forall_forall in Hr as [->| ->]; [..|exact Ho]; simpl; lia.
    - exfalso. eapply find_none in Ef; [rewrite Hap in Ef; done|].
      apply list_elem_of_In, elem_of_app. by right. }
  destruct Hm as (v & Hv & Hsev). unfold Evaluate in HA.
  assert (Hi : inputs_present tc).
  { apply dec_stable. intros Hn. destruct (evaluate_body_missing tc m Hj Hn Hw) as [rr Hrr].
    by rewrite Hrr in HA. }
  rewrite evaluate_body_rules in HA by done.
  destruct (evaluate_rules _ _ _ _ tc m) as [out|] eqn:Er; [|done]. simpl in HA.
  apply evaluate_rules_inv in Er as (bash & pv & bv & _ & _ & ->).
  pose proof (worst_of_spec [pv; bv; matchOverlayRules glob tc m]) as Hs.
  rewrite Hv in HA, Hs. destruct (worst_of _) as [x|].
  - destruct Hs as [_ Hs]. specialize (Hs v). rewrite HA in Hs. simpl in Hs.
    assert (Some v ∈ [pv; bv; Some v]) by set_solver. specialize (Hs H). lia.
  - rewrite Forall_forall in Hs. assert (Hx : Some v = None) by (apply Hs; set_solver). done.
Qed.

End EvaluateProperties.

#[local] Notation demo_Evaluate :=
  (Evaluate demo_url_Parse demo_glob demo_analyze demo_bash demo_paths).

Lemma Evaluate_allow_grounds_witness :
  v_Decision (demo_Evaluate (demo_call CapabilityCommand "ls") demo_base) = Allow /\
  ((p_WebResearchOff demo_base = true /\ false = true) \/
   (CapabilityCommand = CapabilityUnknown /\ p_UnknownToolPosture demo_base <> UnknownDeny /\
    "claude" ∉ ["codex"; "opencode"; "claude"]) \/
   CapabilityCommand = CapabilitySafeControl \/
   (CapabilityCommand = CapabilityDelegation /\ delegationInheritsEnforcement "claude" = true) \/
   (judged_by_rules CapabilityCommand /\ inputs_present (demo_call CapabilityCommand "ls") /\
    exists bash pv bv,
      demo_paths (demo_call CapabilityCommand "ls") demo_base bash = Returns pv /\
      (exists a, bash = Some a /\ demo_analyze (demo_call CapabilityCommand "ls") = Returns a /\
         demo_bash (demo_call CapabilityCommand "ls") demo_base a = Returns bv) /\
      forall v, Some v ∈ [pv; bv; matchOverlayRules demo_glob (demo_call CapabilityCommand "ls") demo_base] ->
        (Severity (v_Decision v) <= 0)%Z)).
Proof.
  split; [vm_compute; reflexivity|].
  apply (Evaluate_allow_grounds demo_url_Parse demo_glob demo_analyze demo_bash demo_paths
           (demo_call CapabilityCommand "ls") demo_base).
  vm_compute; reflexivity.
Defined.

Lemma Evaluate_strictest_witness :
  demo_Evaluate (demo_call CapabilityCommand "git push --force") demo_base =
    verdict Deny "P2.git-push-force" "" /\
  (Severity Deny <=
   Severity (v_Decision (demo_Evaluate (demo_call CapabilityCommand "git push --force") demo_base)))%Z.
Proof.
  split; [vm_compute; reflexivity|].
  apply (Evaluate_strictest demo_url_Parse demo_glob demo_analyze demo_bash demo_paths
           (demo_call CapabilityCommand "git push --force") demo_base tt None
           (Some (verdict Deny "P2.git-push-force" "")))
    with (v := verdict Deny "P2.git-push-force" "").
  - by right; left.
  - split; [done|]. intros _. done.
  - reflexivity.
  - vm_compute; reflexivity.
  - reflexivity.
  - vm_compute; reflexivity.
  - reflexivity.
  - apply elem_of_cons; right; apply elem_of_cons; by left.
Defined.

Lemma Evaluate_fails_closed_witness :
  v_Decision (demo_Evaluate (demo_call CapabilityCommand "") demo_base) = Deny.
Proof.
  apply (proj1 (Evaluate_fails_closed demo_url_Parse demo_glob demo_analyze demo_bash demo_paths
           (demo_call CapabilityCommand "") demo_base eq_refl)).
  - by right; left.
  - intros [_ H]. by apply H.
Defined.

Definition demo_rule : Rule :=
  {| r_ID := "X1"; r_Tool := "Bash"; r_Pattern := "make *"; r_Decision := Ask; r_Reason := "make" |}.

Lemma Overlay_rule_enforced_witness :
  rule_applies demo_glob (demo_call CapabilityCommand "make all") (merged_policy demo_merge)
    demo_rule = true /\
  v_Decision (demo_Evaluate (demo_call CapabilityCommand "make all") (merged_policy demo_merge)) <> Allow.
Proof.
  split; [vm_compute; reflexivity|].
  apply (Overlay_rule_enforced demo_url_Parse demo_glob demo_analyze demo_bash demo_paths
           demo_fs "/home/op/waivers.toml" demo_base demo_overlay "v0.23.36-dev" (Some demo_op)
           "/w/repo" (merged_policy demo_merge) (merged_warnings demo_merge) demo_rule).
  - vm_compute; reflexivity.
  - constructor.
  - apply elem_of_cons; by left.
  - vm_compute; reflexivity.
  - by right; left.
  - vm_compute; reflexivity.
Defined.
