(* ===== verification/OperatorAction.v ===== *)
(** * Canonical operator commands ([internal/engine/operator_action.go])

    Which command texts the hook may hand to the approval broker, or ask the
    human about, instead of denying them as self-configuration: a whitelist of
    whole commands with no shell syntax. *)

From Stdlib Require Import ZArith Lia Bool.
From S2P Require Import Prelude GoStrings Regex GoPath Policy Merge Engine.

Open Scope string_scope.
Open Scope list_scope.

Record Action := {
  a_Name : string;
  a_Parameters : gmap string string;
  a_Command : string;
}.

(** [m[k]] on a [map[string]string] *)
Definition param (m : gmap string string) (k : string) : string :=
  match m !! k with Some v => v | None => "" end.

Definition Brokered (a : Action) : bool :=
  in_list (a_Name a) ["night-on"; "night-off"; "web-host-grant"; "web-host-revoke"].

Definition Summary (a : Action) : string :=
  let p := a_Parameters a in
  let name := a_Name a in
  if name =s? "setup" then
    let planes := if param p "planes" <>s? "" then "planes " +:+ param p "planes"
                  else "every detected plane" in
    if param p "state" =s? "disabled"
    then "remove guardrail from " +:+ planes +:+ " (guardrail setup --state disabled)"
    else "register guardrail on " +:+ planes +:+ " (guardrail setup)"
  else if (name =s? "plane-enable") || (name =s? "plane-disable") then
    let target := if param p "target" =s? "--all" then "every detected plane"
                  else "the " +:+ param p "target" +:+ " plane" in
    if name =s? "plane-disable" then "remove guardrail from " +:+ target
    else "register guardrail on " +:+ target
  else if name =s? "recover" then
    "repair " +:+ param p "repair" +:+ " (guardrail recovery: backup, then re-register)"
  else if name =s? "web-research-set" then
    if param p "enforcement" =s? "off"
    then "turn native web-research enforcement off, machine-wide"
    else "turn native web-research enforcement on (strict), machine-wide"
  else if name =s? "night-on" then
    "turn night mode on until " +:+ param p "until" +:+ " (asks become allows)"
  else if name =s? "night-off" then "turn night mode off"
  else if name =s? "web-host-grant" then
    "let guardrail fetch reach " +:+ param p "hosts" +:+ " (" +:+ param p "scope" +:+ " scope)"
  else if name =s? "web-host-revoke" then
    "withdraw guardrail fetch access to " +:+ param p "hosts" +:+ " (" +:+ param p "scope" +:+ " scope)"
  else name.

Definition lifecyclePlanes (plane : string) : bool :=
  in_list plane ["claude"; "opencode"; "antigravity"; "codex"].
Definition lifecycleRepairs (repair : string) : bool :=
  in_list repair ["claude-settings"; "opencode-config"; "antigravity-hooks"].

Definition web_host_byte (c : ascii) : bool :=
  is_lower c || is_digit c || Ascii.eqb c "." || Ascii.eqb c "," || Ascii.eqb c "=" ||
  Ascii.eqb c "-" || Ascii.eqb c " ".

Definition canonical_byte (c : ascii) : bool := web_host_byte c || Ascii.eqb c ":".

Definition canonicalCommandBytes (command : string) : bool := all_bytes canonical_byte command.

(** The [--flag value] and [--flag=value] loop of [guardrail setup]. *)
Fixpoint setup_values (tokens : list string) (values : gmap string string)
    : option (gmap string string) :=
  match tokens with
  | [] => Some values
  | token :: rest =>
      let '(name, value, inline) := Cut (TrimPrefix token "--") "=" in
      if negb (HasPrefix token "--") || ((name <>s? "state") && (name <>s? "planes")) then None
      else
        let store value rest' :=
          if bool_decide (is_Some (values !! name)) || (value =s? "") then None
          else setup_values rest' (<[name := value]> values) in
        if inline then store value rest
        else
          match rest with
          | [] => None
          | v :: rest' => if HasPrefix v "-" then None else store v rest'
          end
  end.

(** Every plane of the list is known and named once. *)
Fixpoint distinct_planes (seen planes : list string) : bool :=
  match planes with
  | [] => true
  | p :: rest => lifecyclePlanes p && negb (in_list p seen) && distinct_planes (p :: seen) rest
  end.

Definition parse_setup (command : string) (args : list string) : option Action :=
  match setup_values args ∅ with
  | None => None
  | Some values =>
      let state := if param values "state" =s? "" then "enabled" else param values "state" in
      if (state <>s? "enabled") && (state <>s? "disabled") then None
      else
        match values !! "planes" with
        | None => Some {| a_Name := "setup"; a_Parameters := {["state" := state]}; a_Command := command |}
        | Some planes =>
            if distinct_planes [] (Split planes ",")
            then Some {| a_Name := "setup";
                         a_Parameters := <["planes" := planes]> {["state" := state]};
                         a_Command := command |}
            else None
        end
  end.

Definition parseLifecycleCommand (command : string) : option Action :=
  if negb (HasPrefix command "guardrail ") || negb (canonicalCommandBytes command) then None
  else
    let tokens := Split command " " in
    if existsb (fun token => token =s? "") tokens then None
    else
      match tokens with
      | _ :: verb :: args =>
          if verb =s? "setup" then parse_setup command args
          else if verb =s? "plane" then
            match args with
            | [change; target] =>
                if ((change <>s? "enable") && (change <>s? "disable")) ||
                   (negb (lifecyclePlanes target) && (target <>s? "--all"))
                then None
                else Some {| a_Name := "plane-" +:+ change; a_Parameters := {["target" := target]};
                             a_Command := command |}
            | _ => None
            end
          else if verb =s? "recover" then
            match args with
            | [repair] =>
                if lifecycleRepairs repair
                then Some {| a_Name := "recover"; a_Parameters := {["repair" := repair]};
                             a_Command := command |}
                else None
            | _ => None
            end
          else if verb =s? "web-research" then
            match args with
            | [enforcement] =>
                if (enforcement =s? "on") || (enforcement =s? "off")
                then Some {| a_Name := "web-research-set";
                             a_Parameters := {["enforcement" := enforcement]};
                             a_Command := command |}
                else None
            | _ => None
            end
          else None
      | _ => None
      end.

(** ** The patterns *)

Definition alnum (c : ascii) : bool := is_lower c || is_digit c.

(** [[0-2][0-9]:[0-5][0-9]] *)
Definition clock_re : re :=
  Cat (Chr (byte_in "0" "2")) (Cat (Chr is_digit)
    (Cat (byte ":") (Cat (Chr (byte_in "0" "5")) (Chr is_digit)))).

Definition night_prefix : string := "guardrail night on --until ".
Definition nightUntilCommand : re := Cat (lit night_prefix) clock_re.

(** [[a-z0-9](?:[a-z0-9-]{0,61}[a-z0-9])?] *)
Definition label_re : re :=
  Cat (Chr alnum) (Opt (Cat (upto 61 (Chr host_byte)) (Chr alnum))).
Definition hostList : re := Cat label_re (Plus (Cat (byte ".") label_re)).
Definition webHostBatch : re := Cat hostList (Star (Cat (byte ",") hostList)).

(** [time.Parse("15:04", s)] on a text of the clock pattern: the hour must be
    below 24. *)
Definition clock_valid (s : string) : bool :=
  match digits_value 0 (stake 2 s) with
  | Some h => (h <? 24)%Z
  | None => false
  end.

(** ** Web-host grants *)

Fixpoint web_host_values (tokens : list string) (values : gmap string string)
    : option (gmap string string) :=
  match tokens with
  | [] => Some values
  | token :: rest =>
      if (token =s? "") || negb (HasPrefix token "--") then None
      else
        let '(name, value, hasValue) := Cut (sdrop 2 token) "=" in
        let store value rest' :=
          if ((name <>s? "scope") && (name <>s? "host")) || (value =s? "") || ContainsByte value "="
          then None
          else if bool_decide (is_Some (values !! name)) then None
          else web_host_values rest' (<[name := value]> values) in
        if hasValue then store value rest
        else
          match rest with
          | [] => None
          | v :: rest' => if HasPrefix v "-" then None else store v rest'
          end
  end.

Definition egress_prefix : string := "guardrail egress ".

Definition parseWebHostCommand (command : string) : option (string * string * string) :=
  if negb (HasPrefix command egress_prefix) then None
  else if negb (all_bytes web_host_byte command) then None
  else
    let tokens := Split (sdrop (String.length egress_prefix) command) " " in
    if (length tokens <? 3)%nat then None
    else
      match tokens with
      | verb :: args =>
          if (verb <>s? "grant") && (verb <>s? "revoke") then None
          else
            match web_host_values args ∅ with
            | None => None
            | Some values =>
                let scope := param values "scope" in
                let hosts := param values "host" in
                if negb (size values =? 2)%nat ||
                   ((scope <>s? "repo") && (scope <>s? "global")) ||
                   negb (re_match webHostBatch hosts)
                then None
                else if forallb ValidateWebHost (Split hosts ",")
                then Some (verb, scope, hosts)
                else None
            end
      | [] => None
      end.

Definition OperatorAction (tc : ToolCall) : option Action :=
  if negb (IsBash tc) then None
  else if tc_Command tc =s? "guardrail night off" then
    Some {| a_Name := "night-off"; a_Parameters := ∅; a_Command := tc_Command tc |}
  else if re_match nightUntilCommand (tc_Command tc) then
    let until := sdrop (String.length night_prefix) (tc_Command tc) in
    if clock_valid until
    then Some {| a_Name := "night-on"; a_Parameters := {["until" := until]};
                 a_Command := tc_Command tc |}
    else None
  else
    match parseWebHostCommand (tc_Command tc) with
    | Some (verb, scope, hosts) =>
        Some {| a_Name := "web-host-" +:+ verb;
                a_Parameters := <["hosts" := hosts]> {["scope" := scope]};
                a_Command := tc_Command tc |}
    | None => parseLifecycleCommand (tc_Command tc)
    end.

Definition OperatorActionSatisfied (a : Action) (pol : option Policy) (op : option OperatorConfig)
    : option string :=
  if a_Name a <>s? "web-host-grant" then None
  else
    match pol with
    | None => None
    | Some pol =>
        let scope := param (a_Parameters a) "scope" in
        let hosts := Split (param (a_Parameters a) "hosts") "," in
        let against allowed :=
          if forallb (fun host => in_list host allowed) hosts
          then Some ("egress to " +:+ Join hosts ", " +:+ " is already authorized at " +:+ scope +:+
                     " scope; no request filed")
          else None in
        if scope =s? "repo" then against (s_WebHosts (p_Slots pol))
        else if scope =s? "global" then
          match op with
          | None => None
          | Some o => against (oc_GlobalWebHosts o)
          end
        else None
    end.

(** ** The language of the patterns *)

Definition batch_byte (c : ascii) : bool := host_byte c || Ascii.eqb c "." || Ascii.eqb c ",".

Lemma is_lower_host c : is_lower c = true -> host_byte c = true.
Proof. unfold host_byte. by intros ->. Qed.

Lemma re_within_label p : (forall c, host_byte c = true -> p c = true) -> re_within p label_re.
Proof.
  intros Hp. assert (Ha : forall c, alnum c = true -> p c = true).
  { intros c Hc. apply Hp. unfold alnum, host_byte in *. by rewrite Hc. }
  unfold label_re, Opt. cbn [re_within]. split_and!; auto.
  generalize 61. intros n. induction n as [|n IH]; [done|].
  cbn [upto]. unfold Opt. cbn [re_within]. auto.
Qed.

Lemma re_within_hostList p :
  (forall c, host_byte c = true -> p c = true) -> p "."%char = true -> re_within p hostList.
Proof.
  intros Hp Hd. pose proof (re_within_label p Hp) as Hl. unfold hostList, Plus, byte.
  cbn [re_within]. assert (forall c, Ascii.eqb "." c = true -> p c = true).
  { by intros c <-%Ascii.eqb_eq. }
  split_and!; auto.
Qed.

Lemma hostList_no_comma s : in_re hostList s -> ContainsByte s "," = false.
Proof.
  intros H. eapply (all_bytes_not_contains (fun c => host_byte c || Ascii.eqb c ".")); [|done].
  eapply in_re_within; [|exact H]. apply re_within_hostList; [|done].
  intros c Hc. by rewrite Hc.
Qed.

Lemma hostList_dotted s : in_re hostList s -> ContainsByte s "." = true.
Proof.
  assert (Happ : forall u v, ContainsByte (u +:+ v) "." = ContainsByte u "." || ContainsByte v ".").
  { induction u as [|c u IH]; intros v; simpl; [done|]. by rewrite IH, orb_assoc. }
  intros H. inversion H as [| |? ? u v _ Hv| | | |]; subst.
  inversion Hv as [| |? ? x y Hx _| | | |]; subst.
  inversion Hx as [| |? ? d w Hd _| | | |]; subst.
  inversion Hd as [|q c Hc| | | | |]; subst. apply Ascii.eqb_eq in Hc as <-.
  rewrite !Happ. simpl. by rewrite orb_true_r.
Qed.

Lemma Star_batch_Split t :
  in_re (Star (Cat (byte ",") hostList)) t ->
  t = "" \/ exists r, t = String "," r /\ Forall (in_re hostList) (Split r ",").
Proof.
  intros H. remember (Star (Cat (byte ",") hostList)) as r eqn:Er. induction H; try done; simplify_eq.
  - by left.
  - right. inversion H as [| |? ? d h Hd Hh| | | |]; subst.
    inversion Hd as [|q c Hc| | | | |]; subst. apply Ascii.eqb_eq in Hc as <-.
    pose proof (hostList_no_comma _ Hh) as Hnc. simpl. eexists; split; [done|].
    destruct IHin_re2 as [->|(r & -> & Hf)]; [done|..].
    + rewrite append_nil_r, Split_one by done. by constructor.
    + rewrite Split_app_sep by done. by constructor.
Qed.

(** A batch is a comma-separated list of dotted hosts, and nothing else. *)
Lemma webHostBatch_spec s : re_match webHostBatch s = true <-> Forall (in_re hostList) (Split s ",").
Proof.
  rewrite re_match_spec. split.
  - intros H. inversion H as [| |? ? h t Hh Ht| | | |]; subst.
    pose proof (hostList_no_comma _ Hh) as Hnc.
    apply Star_batch_Split in Ht as [->|(r & -> & Hf)].
    + rewrite append_nil_r, Split_one by done. by constructor.
    + rewrite Split_app_sep by done. by constructor.
  - intros Hf. rewrite <- (Join_Split s ","). revert Hf. generalize (Split_not_nil s ",").
    generalize (Split s ","). clear s. intros l Hl Hf. destruct l as [|h l]; [done|].
    apply Forall_cons in Hf as [Hh Hf]. clear Hl.
    assert (Hstar : in_re (Star (Cat (byte ",") hostList))
                      (match l with [] => "" | _ => String "," (Join l ",") end)).
    { clear Hh h. induction l as [|h l IH]; [constructor|].
      apply Forall_cons in Hf as [Hh Hf]. specialize (IH Hf).
      assert (Hone : in_re (Cat (byte ",") hostList) (String "," h)).
      { apply (in_cat _ _ "," h); [by constructor|done]. }
      pose proof (in_star_app _ _ _ Hone IH) as Hs. by destruct l; simpl in *; rewrite ?append_nil_r in *. }
    pose proof (in_cat _ _ _ _ Hh Hstar) as Hs.
    by destruct l; simpl in *; rewrite ?append_nil_r in *.
Qed.

Lemma in_upto n s : all_bytes host_byte s = true -> (String.length s <= n)%nat ->
  in_re (upto n (Chr host_byte)) s.
Proof.
  revert s. induction n as [|n IH]; intros s Hs Hl.
  - destruct s; simpl in Hl; [constructor|lia].
  - destruct s as [|c s]; [by repeat constructor|]. apply in_alt_r.
    simpl in Hs, Hl. breflect. apply (in_cat _ _ (String c "") s); [by constructor|].
    apply IH; [done|lia].
Qed.

Lemma last_byte_split s : s <> "" -> exists m c, s = m +:+ String c "" /\ last_byte s = Some c.
Proof.
  induction s as [|c s IH]; [done|]. intros _. destruct s as [|d s]; [by exists "", c|].
  destruct IH as (m & e & Hs & Hl); [done|]. exists (String c m), e. split; [|done].
  by rewrite Hs.
Qed.

Lemma alnum_of_host c : host_byte c = true -> c <> "-"%char -> alnum c = true.
Proof.
  unfold host_byte, alnum. intros H Hc. apply orb_true_iff in H as [?|H]; [done|].
  by apply Ascii.eqb_eq in H.
Qed.

Lemma valid_label_re label : valid_label label = true -> in_re label_re label.
Proof.
  unfold valid_label. intros H. breflect.
  destruct label as [|c rest]; [done|]. simpl in *. breflect.
  repeat match goal with H : bool_decide _ = false |- _ => apply bool_decide_eq_false in H end.
  apply (in_cat _ _ (String c "") rest).
  - constructor. apply alnum_of_host; [done|]. intros ->. done.
  - destruct rest as [|d rest]; [apply in_alt_l; constructor|]. apply in_alt_r.
    destruct (last_byte_split (String d rest)) as (m & e & Hs & Hlast); [done|].
    rewrite Hlast in *. rewrite Hs in *. rewrite all_bytes_app, length_append in *. simpl in *.
    breflect. apply in_cat; [apply (in_upto 61); [done|lia]|].
    constructor. apply alnum_of_host; [done|]. by intros ->.
Qed.

(** A valid host with a dot is one the pattern accepts. *)
Lemma valid_host_re host :
  ValidateWebHost host = true -> ContainsByte host "." = true -> in_re hostList host.
Proof.
  intros Hv Hdot. unfold ValidateWebHost in Hv. breflect.
  rewrite <- (Join_Split host "."). assert (Hf : Forall (in_re label_re) (Split host ".")).
  { rewrite Forall_forall. intros l Hl. apply valid_label_re.
    eapply forallb_forall in H0; [done|by apply list_elem_of_In]. }
  destruct (Split host ".") as [|l [|l' ls]] eqn:E; [by apply Split_not_nil in E|..].
  - exfalso. assert (ContainsByte host "." = false) as Hn; [|congruence].
    rewrite <- (Join_Split host "."), E. simpl. apply (Split_no_sep host "."). rewrite E. left.
  - apply Forall_cons in Hf as [Hl Hf]. apply Forall_cons in Hf as [Hl' Hf].
    change (Join (l :: l' :: ls) ".") with (l +:+ ("." +:+ Join (l' :: ls) ".")).
    apply in_cat; [done|]. clear E H0 Hl l. revert l' Hl'.
    induction ls as [|x ls IH]; intros l' Hl'.
    + pose proof (in_cat _ _ _ _ (in_cat (byte ".") _ "." l' (in_chr _ "." eq_refl) Hl')
                    (in_star_nil (Cat (byte ".") label_re))) as Hc.
      by rewrite append_nil_r in Hc.
    + apply Forall_cons in Hf as [Hx Hf].
      change ("." +:+ Join (l' :: x :: ls) ".") with (("." +:+ l') +:+ ("." +:+ Join (x :: ls) ".")).
      apply in_cat; [apply in_cat; [by constructor|done]|].
      specialize (IH Hf x Hx). revert IH. generalize ("." +:+ Join (x :: ls) "."). intros t IH.
      inversion IH as [| |? ? u v Hu Hv| | | |]; subst. by apply in_star_app.
Qed.

(** ** The web-host command *)

(** The two flags of a command, each in either spelling, in either order. *)
Definition flag_spelling (spaced : bool) (name value : string) : list string :=
  if spaced then ["--" +:+ name; value] else ["--" +:+ name +:+ "=" +:+ value].

Definition web_host_command (verb scope hosts : string) (host_first sp1 sp2 : bool) : string :=
  egress_prefix +:+
  Join (verb :: (if host_first
                 then flag_spelling sp2 "host" hosts ++ flag_spelling sp1 "scope" scope
                 else flag_spelling sp1 "scope" scope ++ flag_spelling sp2 "host" hosts)) " ".

Definition batch_ok (hosts : string) : Prop :=
  re_match webHostBatch hosts = true /\ forallb ValidateWebHost (Split hosts ",") = true.

Lemma batch_bytes hosts : re_match webHostBatch hosts = true -> all_bytes batch_byte hosts = true.
Proof.
  rewrite re_match_spec. intros H. eapply in_re_within; [|exact H]. unfold webHostBatch, byte.
  cbn [re_within]. assert (Hh : re_within batch_byte hostList).
  { apply re_within_hostList; [|done]. unfold batch_byte. by intros c ->. }
  split_and!; auto. by intros c <-%Ascii.eqb_eq.
Qed.

Lemma batch_head hosts : re_match webHostBatch hosts = true -> hosts <> "" /\ HasPrefix hosts "-" = false.
Proof.
  intros H. destruct hosts as [|c t]; [by vm_compute in H|]. split; [done|].
  destruct (HasPrefix (String c t) "-") eqn:E; [|done].
  apply HasPrefix_true in E as [u Hu]. simpl in Hu. simplify_eq.
  exfalso. clear -H. revert H. change (re_match webHostBatch (String "-" u)) with
    (re_match (deriv "-" webHostBatch) u).
  replace (deriv "-" webHostBatch) with Void by (vm_compute; reflexivity).
  assert (Hv : forall u, re_match Void u = false) by (induction u0; done). by rewrite Hv.
Qed.

(** One flag, in either spelling, stores its value. *)
Lemma web_host_values_flag spaced name value rest values :
  name ∈ ["scope"; "host"] -> value <> "" -> ContainsByte value "=" = false ->
  HasPrefix value "-" = false -> values !! name = None ->
  web_host_values (flag_spelling spaced name value ++ rest) values =
  web_host_values rest (<[name := value]> values).
Proof.
  intros Hn Hv He Hd Hl.
  assert (Hne : ContainsByte name "=" = false).
  { repeat (apply elem_of_cons in Hn as [->|Hn]; [done|]). by apply elem_of_nil in Hn. }
  assert (Hok : ((name <>s? "scope") && (name <>s? "host")) || (value =s? "") || ContainsByte value "=" = false).
  { rewrite He. apply String.eqb_neq in Hv. rewrite Hv, !orb_false_r.
    repeat (apply elem_of_cons in Hn as [->|Hn]; [done|]). by apply elem_of_nil in Hn. }
  destruct spaced; simpl.
  - rewrite Cut_none by done. rewrite Hd, Hok. by rewrite Hl.
  - rewrite Cut_app_sep by done. rewrite Hok. by rewrite Hl.
Qed.

Lemma batch_byte_web c : batch_byte c = true -> web_host_byte c = true.
Proof.
  unfold batch_byte, web_host_byte, host_byte. intros H.
  repeat (apply orb_true_iff in H as [H|H]); rewrite H; by rewrite ?orb_true_r.
Qed.

(** What makes a text safe as one token of a canonical command. *)
Definition token_ok (s : string) : Prop :=
  all_bytes web_host_byte s = true /\ ContainsByte s " " = false.

Lemma batch_token hosts : re_match webHostBatch hosts = true -> token_ok hosts.
Proof.
  intros H%batch_bytes. split.
  - eapply all_bytes_impl; [|exact H]. apply batch_byte_web.
  - by eapply all_bytes_not_contains.
Qed.

Lemma flag_tokens spaced name value :
  name ∈ ["scope"; "host"] -> token_ok value -> Forall token_ok (flag_spelling spaced name value).
Proof.
  intros Hn [Hb Hs].
  assert (Happ : forall u v, ContainsByte (u +:+ v) " " = ContainsByte u " " || ContainsByte v " ").
  { induction u as [|c u IH]; intros v; simpl; [done|]. by rewrite IH, orb_assoc. }
  repeat (apply elem_of_cons in Hn as [->|Hn];
    [destruct spaced; repeat constructor; unfold token_ok; simpl; rewrite ?Hb, ?Hs; done|]).
  by apply elem_of_nil in Hn.
Qed.

(** A command made of [egress], a verb and tokens is read token by token. *)
Lemma parseWebHostCommand_tokens verb args values hosts scope :
  verb ∈ ["grant"; "revoke"] -> (2 <= length args)%nat -> Forall token_ok args ->
  web_host_values args ∅ = Some values ->
  param values "scope" = scope -> param values "host" = hosts -> size values = 2%nat ->
  scope ∈ ["repo"; "global"] -> batch_ok hosts ->
  parseWebHostCommand (egress_prefix +:+ Join (verb :: args) " ") = Some (verb, scope, hosts).
Proof.
  intros Hverb Hlen Hargs Hvals Hscope Hhosts Hsize Hsc [Hre Hval].
  assert (Hvt : token_ok verb /\ (verb <>s? "grant") && (verb <>s? "revoke") = false).
  { repeat (apply elem_of_cons in Hverb as [->|Hverb]; [done|]). by apply elem_of_nil in Hverb. }
  destruct Hvt as [Hvt Hvb].
  assert (Hall : Forall token_ok (verb :: args)) by by constructor.
  assert (Hbytes : all_bytes web_host_byte (egress_prefix +:+ Join (verb :: args) " ") = true).
  { rewrite all_bytes_app, andb_true_iff. split; [done|]. apply all_bytes_Join; [done|].
    eapply Forall_impl; [exact Hall|by intros ? [? _]]. }
  assert (Hsplit : Split (sdrop (String.length egress_prefix) (egress_prefix +:+ Join (verb :: args) " ")) " "
                   = verb :: args).
  { rewrite sdrop_app. apply Split_Join_sep; [done|].
    eapply Forall_impl; [exact Hall|by intros ? [_ ?]]. }
  unfold parseWebHostCommand. rewrite HasPrefix_app, Hbytes, Hsplit. cbn [negb].
  destruct (length (verb :: args) <? 3)%nat eqn:E; [breflect; simpl in E; lia|].
  rewrite Hvb, Hvals, Hscope, Hhosts, Hsize, Hre, Hval.
  repeat (apply elem_of_cons in Hsc as [->|Hsc]; [done|]). by apply elem_of_nil in Hsc.
Qed.

Lemma parseWebHostCommand_spelling verb scope hosts host_first sp1 sp2 :
  verb ∈ ["grant"; "revoke"] -> scope ∈ ["repo"; "global"] -> batch_ok hosts ->
  parseWebHostCommand (web_host_command verb scope hosts host_first sp1 sp2) =
    Some (verb, scope, hosts).
Proof.
  intros Hverb Hsc Hb. pose proof Hb as [Hre _].
  pose proof (batch_head _ Hre) as [Hne Hd]. pose proof (batch_token _ Hre) as Ht.
  assert (Heq : ContainsByte hosts "=" = false)
    by (eapply all_bytes_not_contains; [by apply batch_bytes|done]).
  assert (Hs : scope <> "" /\ ContainsByte scope "=" = false /\ HasPrefix scope "-" = false /\
               token_ok scope).
  { repeat (apply elem_of_cons in Hsc as [->|Hsc]; [done|]). by apply elem_of_nil in Hsc. }
  destruct Hs as (Hs1 & Hs2 & Hs3 & Hs4).
  assert (Hl : forall sp n v, (1 <= length (flag_spelling sp n v))%nat) by (destruct sp; simpl; lia).
  pose proof (Hl sp1 "scope" scope). pose proof (Hl sp2 "host" hosts).
  unfold web_host_command. destruct host_first.
  - apply parseWebHostCommand_tokens with (values := <["scope" := scope]> (<["host" := hosts]> ∅));
      try done.
    + rewrite length_app. lia.
    + apply Forall_app. split; apply flag_tokens; set_solver.
    + rewrite web_host_values_flag by (done || set_solver).
      rewrite <- (app_nil_r (flag_spelling sp1 "scope" scope)).
      rewrite web_host_values_flag by (done || set_solver). done.
  - apply parseWebHostCommand_tokens with (values := <["host" := hosts]> (<["scope" := scope]> ∅));
      try done.
    + rewrite length_app. lia.
    + apply Forall_app. split; apply flag_tokens; set_solver.
    + rewrite web_host_values_flag by (done || set_solver).
      rewrite <- (app_nil_r (flag_spelling sp2 "host" hosts)).
      rewrite web_host_values_flag by (done || set_solver). done.
Qed.

(** What an accepted web-host command names. *)
Lemma parseWebHostCommand_inv command verb scope hosts :
  parseWebHostCommand command = Some (verb, scope, hosts) ->
  HasPrefix command egress_prefix = true /\ all_bytes web_host_byte command = true /\
  verb ∈ ["grant"; "revoke"] /\ scope ∈ ["repo"; "global"] /\ batch_ok hosts.
Proof.
  unfold parseWebHostCommand, batch_ok. intros H.
  destruct (HasPrefix command egress_prefix); [|done].
  destruct (all_bytes web_host_byte command); [|done]. simpl in H.
  case_match; [done|]. case_match; [done|].
  destruct ((s <>s? "grant") && (s <>s? "revoke")) eqn:Ev; [done|].
  destruct (web_host_values l ∅) as [values|]; [|done].
  destruct (negb (size values =? 2)%nat ||
            ((param values "scope" <>s? "repo") && (param values "scope" <>s? "global")) ||
            negb (re_match webHostBatch (param values "host"))) eqn:Eg; [done|].
  destruct (forallb ValidateWebHost (Split (param values "host") ",")) eqn:Ef; [|done].
  simplify_eq. breflect. split_and!; try done.
  - apply andb_false_iff in Ev as [Ev|Ev]; breflect; set_solver.
  - apply andb_false_iff in H3 as [H3|H3]; breflect; rewrite H3; set_solver.
Qed.

Lemma parseLifecycleCommand_inv command a :
  parseLifecycleCommand command = Some a ->
  a_Command a = command /\ HasPrefix command "guardrail " = true /\
  canonicalCommandBytes command = true /\ Brokered a = false.
Proof.
  unfold parseLifecycleCommand. intros H.
  destruct (HasPrefix command "guardrail "); [|done].
  destruct (canonicalCommandBytes command); [|done]. simpl in H.
  case_match; [done|]. destruct (Split command " ") as [|g [|verb args]]; [done|done|].
  destruct (verb =s? "setup").
  { unfold parse_setup in H. repeat (case_match; try done); simplify_eq; by split_and!. }
  destruct (verb =s? "plane").
  { destruct args as [|change [|target [|]]]; try done.
    destruct ((change <>s? "enable") && (change <>s? "disable")) eqn:E; [done|].
    simpl in H. case_match; [done|]. simplify_eq. by split_and!. }
  destruct (verb =s? "recover"); [|destruct (verb =s? "web-research"); [|done]];
    (destruct args as [|arg [|]]; try done; case_match; [|done]; simplify_eq; by split_and!).
Qed.

Lemma nightUntilCommand_inv command :
  re_match nightUntilCommand command = true ->
  exists clock, command = night_prefix +:+ clock /\ in_re clock_re clock.
Proof.
  rewrite re_match_spec. unfold nightUntilCommand. generalize night_prefix. intros pre H.
  inversion H as [| |? ? u v Hu Hv| | | |]; subst. apply in_lit in Hu as ->. by exists v.
Qed.

Lemma clock_bytes clock : in_re clock_re clock -> all_bytes canonical_byte clock = true.
Proof.
  intros H. apply (in_re_within canonical_byte) in H; [done|].
  assert (Hd : forall c, is_digit c = true -> canonical_byte c = true).
  { intros c Hc. unfold canonical_byte, web_host_byte. by rewrite Hc, ?orb_true_r. }
  assert (Hr : forall hi c, (nat_of_ascii hi <= 57)%nat -> byte_in "0" hi c = true -> is_digit c = true).
  { unfold is_digit, byte_in. intros hi c Hhi. rewrite !andb_true_iff, !Nat.leb_le.
    change (nat_of_ascii "9") with 57%nat. lia. }
  unfold clock_re, byte. cbn [re_within]. split_and!; auto.
  - intros c Hc. apply Hd, (Hr "2"%char); [vm_compute; lia|done].
  - by intros c <-%Ascii.eqb_eq.
  - intros c Hc. apply Hd, (Hr "5"%char); [vm_compute; lia|done].
Qed.

(** ** Properties *)

(** An operator action is recognised only in a whole command that starts
    with [guardrail], keeps the exact text it was recognised from, and holds
    no byte outside the whitelist: no quote, substitution, separator, pipe,
    redirection, tab or newline can be part of one. Only the night and egress
    commands reach the broker. *)
Theorem OperatorAction_whole_command tc a :
  OperatorAction tc = Some a ->
  a_Command a = tc_Command tc /\ HasPrefix (tc_Command tc) "guardrail " = true /\
  (forall c, canonical_byte c = false -> ContainsByte (tc_Command tc) c = false) /\
  (Brokered a = true ->
     tc_Command tc = "guardrail night off" \/ HasPrefix (tc_Command tc) night_prefix = true \/
     HasPrefix (tc_Command tc) egress_prefix = true).
Proof.
  unfold OperatorAction. destruct (IsBash tc); [|done]. simpl.
  destruct (tc_Command tc =s? "guardrail night off") eqn:E0.
  { breflect. intros [= <-]. rewrite E0. split_and!; [done|done| |auto].
    intros c. by apply all_bytes_not_contains. }
  destruct (re_match nightUntilCommand (tc_Command tc)) eqn:E1.
  { apply nightUntilCommand_inv in E1 as (clock & Hc & Hre). case_match; [|done].
    intros [= <-]. rewrite Hc. split_and!; [done|by apply HasPrefix_true; eexists| |].
    - intros c. apply all_bytes_not_contains. rewrite all_bytes_app.
      by rewrite (clock_bytes clock).
    - intros _. right. left. apply HasPrefix_app. }
  destruct (parseWebHostCommand (tc_Command tc)) as [[[verb scope] hosts]|] eqn:E2.
  { apply parseWebHostCommand_inv in E2 as (Hp & Hb & _). intros [= <-]. split_and!; [done| | |auto].
    - apply HasPrefix_true in Hp as [t ->]. by apply HasPrefix_true; eexists.
    - intros c. apply all_bytes_not_contains. eapply all_bytes_impl; [|exact Hb].
      unfold canonical_byte. by intros d ->. }
  intros (Hc & Hp & Hb & Hnb)%parseLifecycleCommand_inv. split_and!; [done|done| |by rewrite Hnb].
  intros c. by apply all_bytes_not_contains.
Qed.

Lemma OperatorAction_whole_command_witness :
  exists a, OperatorAction (demo_call CapabilityCommand "guardrail night on --until 23:30") = Some a /\
    a_Command a = "guardrail night on --until 23:30" /\
    ContainsByte "guardrail night on --until 23:30" ";" = false.
Proof.
  eexists. split; [vm_compute; reflexivity|]. split; [vm_compute; reflexivity|].
  apply (OperatorAction_whole_command (demo_call CapabilityCommand "guardrail night on --until 23:30")
    {| a_Name := "night-on"; a_Parameters := {["until" := "23:30"]};
       a_Command := "guardrail night on --until 23:30" |}); vm_compute; reflexivity.
Defined.

(** The two flags of a web-host command may come in either order and
    either spelling, and every such command reads back as the verb, scope and
    hosts it was written from; conversely an accepted command names a known
    verb and scope and only valid dotted hosts. *)
Theorem parseWebHostCommand_roundtrip verb scope hosts :
  (verb ∈ ["grant"; "revoke"] /\ scope ∈ ["repo"; "global"] /\ batch_ok hosts) <->
  (forall host_first sp1 sp2,
     parseWebHostCommand (web_host_command verb scope hosts host_first sp1 sp2) =
       Some (verb, scope, hosts)).
Proof.
  split.
  - intros (? & ? & ?) ???. by apply parseWebHostCommand_spelling.
  - intros H. specialize (H true true true).
    apply parseWebHostCommand_inv in H as (_ & _ & ? & ? & ?). done.
Qed.

(** The grant command the denials name is one the broker path recognises
    exactly when every host has a dot: a valid single-label host gets a
    command that is not an operator action. *)
Theorem WebHostGrantCommand_recognised hosts :
  hosts <> [] -> Forall (fun h => ValidateWebHost h = true) hosts ->
  (parseWebHostCommand (WebHostGrantCommand hosts) = Some ("grant", "repo", Join hosts ",") <->
   Forall (fun h => ContainsByte h "." = true) hosts).
Proof.
  intros Hne Hv.
  assert (Hnc : Forall (fun h => ContainsByte h "," = false) hosts).
  { eapply Forall_impl; [exact Hv|]. intros h Hh. unfold ValidateWebHost in Hh. breflect.
    rewrite <- (Join_Split h "."). eapply (all_bytes_not_contains (fun c => host_byte c || Ascii.eqb c ".")); [|done].
    clear -H0. apply all_bytes_Join; [done|]. rewrite Forall_forall. intros l Hl.
    eapply forallb_forall in H0; [|by apply list_elem_of_In]. unfold valid_label in H0. breflect.
    eapply all_bytes_impl; [|done]. unfold batch_byte. by intros c ->. }
  rewrite <- (Split_Join_sep hosts ",") in Hv by done. split.
  - intros (_ & _ & _ & _ & [Hb _])%parseWebHostCommand_inv. apply webHostBatch_spec in Hb.
    rewrite Split_Join_sep in Hb by done. eapply Forall_impl; [exact Hb|]. apply hostList_dotted.
  - intros Hd. change (WebHostGrantCommand hosts) with
      (web_host_command "grant" "repo" (Join hosts ",") false true true).
    apply parseWebHostCommand_spelling; [set_solver|set_solver|]. split.
    + apply webHostBatch_spec. rewrite Split_Join_sep in * by done.
      rewrite Forall_forall in *. intros h Hh. apply valid_host_re; auto.
    + rewrite forallb_forall. intros h Hh. rewrite Forall_forall in Hv.
      by apply Hv, list_elem_of_In.
Qed.

Lemma WebHostGrantCommand_recognised_witness :
  (parseWebHostCommand (WebHostGrantCommand ["intranet"]) = Some ("grant", "repo", "intranet") <->
   Forall (fun h => ContainsByte h "." = true) ["intranet"]) /\
  parseWebHostCommand (WebHostGrantCommand ["intranet"]) = None /\
  parseWebHostCommand (WebHostGrantCommand ["go.dev"]) = Some ("grant", "repo", "go.dev").
Proof.
  split; [|split; vm_compute; reflexivity].
  apply (WebHostGrantCommand_recognised ["intranet"]); [done|].
  constructor; [vm_compute; reflexivity|constructor].
Defined.
