(* ===== verification/Session.v ===== *)
(** * Session state and the relaxations of an ask ([internal/session/session.go],
    [internal/engine/opencode_approval.go], [trifecta_signals.go], [night.go],
    [grant.go], [internal/night/night.go],
    [cmd/guardrail/grant_transaction.go])

    What a session remembers between calls, the transaction that persists it,
    and every way an ask may become an allow: night mode, an operator's
    command grant, an exact OpenCode retry, the OpenCode host dialog. *)

From Stdlib Require Import ZArith Lia Bool.
From S2P Require Import Prelude GoStrings GoPath Policy Merge Engine.

Open Scope string_scope.
Open Scope list_scope.

(** ** session.go *)

Record PendingApproval := {
  pa_OriginRuleID : string;
  pa_ExpiresAt : Time;
}.

#[export] Instance PendingApproval_eq_dec : EqDecision PendingApproval.
Proof. solve_decision. Defined.

Record ApprovalRequest := {
  ar_ID : string;
  ar_Plane : string;
  ar_SessionDigest : string;
  ar_RepoRoot : string;
  ar_Host : string;
  ar_Scope : string;
  ar_ReasonDigest : string;
  ar_Action : string;
  ar_Parameters : gmap string string;
  ar_IssuedAt : Time;
  ar_ExpiresAt : Time;
  ar_Status : string;
}.

#[export] Instance ApprovalRequest_eq_dec : EqDecision ApprovalRequest.
Proof. solve_decision. Defined.

Record State := {
  st_SawPrivateRead : bool;
  st_SawNetworkCall : bool;
  st_PendingApprovals : gmap string PendingApproval;
  st_NightModeAnnouncements : gmap string string;
  st_ApprovalRequests : gmap string ApprovalRequest;
  st_UpdatedAt : Time;
}.

(** Go's zero value of [State]; a nil map reads as an empty one. *)
Definition zero_state : State :=
  {| st_SawPrivateRead := false; st_SawNetworkCall := false; st_PendingApprovals := ∅;
     st_NightModeAnnouncements := ∅; st_ApprovalRequests := ∅; st_UpdatedAt := 0%Z |}.

Definition with_signals (st : State) (priv net : bool) : State :=
  {| st_SawPrivateRead := priv; st_SawNetworkCall := net;
     st_PendingApprovals := st_PendingApprovals st;
     st_NightModeAnnouncements := st_NightModeAnnouncements st;
     st_ApprovalRequests := st_ApprovalRequests st; st_UpdatedAt := st_UpdatedAt st |}.

Definition with_pending (st : State) (m : gmap string PendingApproval) : State :=
  {| st_SawPrivateRead := st_SawPrivateRead st; st_SawNetworkCall := st_SawNetworkCall st;
     st_PendingApprovals := m; st_NightModeAnnouncements := st_NightModeAnnouncements st;
     st_ApprovalRequests := st_ApprovalRequests st; st_UpdatedAt := st_UpdatedAt st |}.

Definition with_announcements (st : State) (m : gmap string string) : State :=
  {| st_SawPrivateRead := st_SawPrivateRead st; st_SawNetworkCall := st_SawNetworkCall st;
     st_PendingApprovals := st_PendingApprovals st; st_NightModeAnnouncements := m;
     st_ApprovalRequests := st_ApprovalRequests st; st_UpdatedAt := st_UpdatedAt st |}.

Definition with_requests (st : State) (m : gmap string ApprovalRequest) : State :=
  {| st_SawPrivateRead := st_SawPrivateRead st; st_SawNetworkCall := st_SawNetworkCall st;
     st_PendingApprovals := st_PendingApprovals st;
     st_NightModeAnnouncements := st_NightModeAnnouncements st;
     st_ApprovalRequests := m; st_UpdatedAt := st_UpdatedAt st |}.

Definition with_updated (st : State) (t : Time) : State :=
  {| st_SawPrivateRead := st_SawPrivateRead st; st_SawNetworkCall := st_SawNetworkCall st;
     st_PendingApprovals := st_PendingApprovals st;
     st_NightModeAnnouncements := st_NightModeAnnouncements st;
     st_ApprovalRequests := st_ApprovalRequests st; st_UpdatedAt := t |}.

(** What reading a state file gives: a decoded state, no such file, a read
    error, or a file that does not decode. *)
Inductive StateRead :=
| Found (st : State) | NotExist | ReadFailed | Undecodable.

(** The outcome of each step of a transaction that touches the host. *)
Record TransactionIO := {
  io_mkdir : bool;        (* os.MkdirAll(d) *)
  io_gate : bool;         (* acquireLocalTransactionGate *)
  io_lock : bool;         (* lock.TryLockContext *)
  io_mkdir_state : bool;  (* os.MkdirAll(filepath.Dir(path)) *)
  io_read : StateRead;    (* os.ReadFile(path) *)
  io_legacy : StateRead;  (* readLegacyState *)
  io_encode : bool;       (* json.Marshal *)
  io_write : bool;        (* atomicWrite *)
  io_unlock : bool;       (* unlockTransaction *)
  io_now : Time;
}.

Inductive TransactionError :=
| EmptySessionID | CreateStore | AcquireLock | CreateStateDir | ReadState | DecodeState
| UpdateFailed (e : string) | EncodeState | PersistState | ReleaseLock
| Joined (e : TransactionError)   (* errors.Join(e, release error) *)
| Committed.                      (* committedTransactionError *)

(** [Transaction]: the error it returns and the state it leaves on disk
    ([None]: the stored state is not touched). The callback is handed the
    stored state and may fail after changing it. *)
Definition Transaction (io : TransactionIO) (sessionID : string)
    (update : State -> State * option string) : option TransactionError * option State :=
  if sessionID =s? "" then (Some EmptySessionID, None)
  else if negb (io_mkdir io) then (Some CreateStore, None)
  else if negb (io_gate io) then (Some AcquireLock, None)
  else if negb (io_lock io) then (Some AcquireLock, None)
  else
    (* the deferred unlock *)
    let release (err : option TransactionError) (committed : option State) :=
      if io_unlock io then (err, committed)
      else match committed with
           | Some _ => (Some Committed, committed)
           | None => match err with
                     | None => (Some ReleaseLock, committed)
                     | Some e => (Some (Joined e), committed)
                     end
           end in
    if negb (io_mkdir_state io) then release (Some CreateStateDir) None
    else
      let read := match io_read io with NotExist => io_legacy io | r => r end in
      match read with
      | ReadFailed => release (Some ReadState) None
      | Undecodable => release (Some DecodeState) None
      | Found _ | NotExist =>
          let st := match read with Found st => st | _ => zero_state end in
          match update st with
          | (_, Some e) => release (Some (UpdateFailed e)) None
          | (st', None) =>
              if negb (io_encode io) then release (Some EncodeState) None
              else if negb (io_write io) then release (Some PersistState) None
              else release None (Some (with_updated st' (io_now io)))
          end
      end.

(** ** night.go *)

Definition ApplyNightMode (v : Verdict) (active : bool) : Verdict :=
  if negb active || negb (bool_decide (v_Decision v = Ask)) || NeverRelaxable (v_RuleID v) then v
  else relaxed_verdict "ask-allowed-by-night-mode" (v_RuleID v) "allowed by active night mode".

Record Marker := { nm_Until : Time; nm_SetBy : string }.
Record NightState := { ns_Marker : Marker; ns_Active : bool }.

Definition inactive_night : NightState :=
  {| ns_Marker := {| nm_Until := 0%Z; nm_SetBy := "" |}; ns_Active := false |}.

(** What the marker file holds. *)
Inductive MarkerRead :=
| MarkerAbsent                 (* os.Lstat: not exist *)
| MarkerUnreadable             (* Lstat, ValidateFile or ReadFile failed *)
| MarkerMalformed              (* toml.Decode failed, or an unknown key *)
| MarkerParsed (m : Marker).

Inductive NightError := NightUnreadable | NightMalformed | UntilRequired | SetByRequired.

(** [Load]: an error comes with the inactive state. *)
Definition Load (read : MarkerRead) (now : Time) : NightState * option NightError :=
  match read with
  | MarkerAbsent => (inactive_night, None)
  | MarkerUnreadable => (inactive_night, Some NightUnreadable)
  | MarkerMalformed => (inactive_night, Some NightMalformed)
  | MarkerParsed m =>
      if IsZero (nm_Until m) then (inactive_night, Some UntilRequired)
      else if nm_SetBy m =s? "" then (inactive_night, Some SetByRequired)
      else ({| ns_Marker := m; ns_Active := Before now (nm_Until m) |}, None)
  end.

(** ** grant.go *)

Definition GrantRuleID : string := "ask-allowed-by-operator-grant".

Definition ApplyCommandGrant (fs : FS) (v : Verdict) (tc : ToolCall) (op : option OperatorConfig)
    (now : Time) : Verdict :=
  if negb (bool_decide (v_Decision v = Ask)) || (tc_Command tc =s? "") || (tc_RepoRoot tc =s? "")
  then v
  else if negb (AllowsCommand fs op (tc_RepoRoot tc) (v_RuleID v) (tc_Command tc) now) then v
  else relaxed_verdict GrantRuleID (v_RuleID v)
         "allowed by an operator-issued grant for this exact command".

(** ** grant_transaction.go *)

(** The callback [consumeCommandGrant] runs under the operator lock: whether a
    use was spent, and the grants it leaves. *)
Fixpoint consume_uses (existing : list CommandGrant) (ruleID command : string) (now : Time)
    : bool * list CommandGrant :=
  match existing with
  | [] => (false, [])
  | g :: rest =>
      if (cg_RuleID g <>s? ruleID) || (cg_Command g <>s? command) || negb (Live g now) then
        let '(spent, rest') := consume_uses rest ruleID command now in (spent, g :: rest')
      else
        (true, {| cg_RuleID := cg_RuleID g; cg_Command := cg_Command g;
                  cg_Uses := (RemainingUses g - 1)%Z; cg_ExpiresAt := cg_ExpiresAt g |} :: rest)
  end.

Definition set_commands (g : RepoGrant) (cs : list CommandGrant) : RepoGrant :=
  {| rg_Waive := rg_Waive g; rg_SecretAllow := rg_SecretAllow g; rg_AuditLog := rg_AuditLog g;
     rg_EgressAllowlist := rg_EgressAllowlist g; rg_WebHosts := rg_WebHosts g; rg_Commands := cs |}.

(** [op.Repos[k] = g]: replaced in place, or added. *)
Fixpoint repos_insert (repos : list (string * RepoGrant)) (k : string) (g : RepoGrant)
    : list (string * RepoGrant) :=
  match repos with
  | [] => [(k, g)]
  | (k', g') :: rest => if k' =s? k then (k, g) :: rest else (k', g') :: repos_insert rest k g
  end.

Definition set_repos (op : OperatorConfig) (repos : list (string * RepoGrant)) : OperatorConfig :=
  {| oc_GlobalWebHosts := oc_GlobalWebHosts op;
     oc_WebResearchEnforcement := oc_WebResearchEnforcement op; oc_Approval := oc_Approval op;
     oc_Repos := repos |}.

(** [mutateCommandGrants] on the operator's file as read under the lock: the
    file it writes back. *)
Definition mutateCommandGrants {A} (fs : FS) (op : OperatorConfig) (repo : string)
    (mutate : list CommandGrant -> A * list CommandGrant) : A * OperatorConfig :=
  let cleaned := GrantKey fs (Some op) repo in
  let entry := match repo_lookup (oc_Repos op) cleaned with Some g => g | None => empty_grant end in
  let '(a, cs) := mutate (rg_Commands entry) in
  (a, set_repos op (repos_insert (oc_Repos op) cleaned (set_commands entry cs))).

Definition consumeCommandGrant (fs : FS) (op : OperatorConfig) (repo ruleID command : string)
    (now : Time) : bool * OperatorConfig :=
  mutateCommandGrants fs op repo (fun existing => consume_uses existing ruleID command now).

(** ** opencode_approval.go *)

Definition openCodeApprovalTTL : Duration := (10 * Minute)%Z.
Definition maxPendingOpenCodeApprovals : nat := 128.

(** The loop that drops what has expired. *)
Definition live_pending (m : gmap string PendingApproval) (now : Time) : gmap string PendingApproval :=
  filter (fun kv => Before now (pa_ExpiresAt kv.2) = true) m.

Definition ApplyOpenCodeApproval (v : Verdict) (key : string) (st : option State) (now : Time)
    : Verdict * option State :=
  match st with
  | None => (v, st)
  | Some s =>
      if key =s? "" then (v, st)
      else
        let m := live_pending (st_PendingApprovals s) now in
        let keep m' := Some (with_pending s m') in
        match v_Decision v with
        | Allow | Deny => (v, keep (delete key m))
        | Ask =>
            if v_RuleID v =s? "" then (v, keep (delete key m))
            else
              match m !! key with
              | Some pending =>
                  if pa_OriginRuleID pending =s? v_RuleID v
                  then (relaxed_verdict "ask-approved-by-retry" (pa_OriginRuleID pending)
                          "approved by exact OpenCode retry after user confirmation",
                        keep (delete key m))
                  else (v, keep (<[key := {| pa_OriginRuleID := v_RuleID v;
                                             pa_ExpiresAt := (now + openCodeApprovalTTL)%Z |}]> m))
              | None =>
                  if (maxPendingOpenCodeApprovals <=? size m)%nat then (v, keep m)
                  else (v, keep (<[key := {| pa_OriginRuleID := v_RuleID v;
                                             pa_ExpiresAt := (now + openCodeApprovalTTL)%Z |}]> m))
              end
        | Complete | OtherDecision _ => (v, keep m)
        end
  end.

Definition ApplyOpenCodeHostApproval (v : Verdict) (key : string) (st : option State) (now : Time)
    : Verdict * option State :=
  match st with
  | None => (v, st)
  | Some s =>
      if (key =s? "") || negb (bool_decide (v_Decision v = Ask)) || (v_RuleID v =s? "") then (v, st)
      else (relaxed_verdict "ask-approved-by-host" (v_RuleID v)
              "approved by the OpenCode host permission dialog",
            Some (with_pending s (delete key (st_PendingApprovals s))))
  end.

(** ** trifecta_signals.go *)

Definition TrifectaTrackingEnabled (pol : Policy) : bool :=
  negb (waived (p_Waived pol) "P7.trifecta").

(** [ApplyTrifecta]: the escalation, if any, and the session state it leaves.
    [isPrivate] and [isNet] are [IsPrivateDataAccess] and [IsNetworkAttempt] of
    the call. *)
Definition ApplyTrifecta (v : Verdict) (isPrivate isNet : bool) (st : option State) (pol : Policy)
    : option Verdict * option State :=
  if negb (TrifectaTrackingEnabled pol) then (None, st)
  else
    match st with
    | None =>
        if bool_decide (v_Decision v = Allow) && (isPrivate || isNet)
        then (Some (verdict Ask "P7.tracking-unavailable"
                "session tracking is unavailable; approval is required because P7 cannot retain this private-data or network signal"),
              None)
        else (None, None)
    | Some s =>
        let secondLeg := (isPrivate && st_SawNetworkCall s) || (isNet && st_SawPrivateRead s) in
        let s' := with_signals s (st_SawPrivateRead s || isPrivate) (st_SawNetworkCall s || isNet) in
        if bool_decide (v_Decision v = Allow) && secondLeg
        then (Some (verdict Ask "P7.trifecta"
                "this session already touched both private data and network egress — pausing on the second leg of the lethal trifecta pattern"),
              Some s')
        else (None, Some s')
    end.

(** ** Lemmas: spending a command grant *)

#[local] Arguments Nat.leb : simpl never.

(** The executions the grants still authorize for this exact command. *)
Definition live_uses (gs : list CommandGrant) (ruleID command : string) (now : Time) : Z :=
  foldr (fun g n => ((if grant_matches ruleID command now g then RemainingUses g else 0) + n)%Z)
    0%Z gs.

Lemma RemainingUses_nonneg g : (0 <= RemainingUses g)%Z.
Proof. unfold RemainingUses. case_match; breflect; lia. Qed.

Lemma live_uses_nonneg gs r c now : (0 <= live_uses gs r c now)%Z.
Proof.
  induction gs as [|g gs IH]; simpl; [lia|].
  pose proof (RemainingUses_nonneg g). case_match; lia.
Qed.

Lemma consume_uses_skip g ruleID command now :
  (cg_RuleID g <>s? ruleID) || (cg_Command g <>s? command) || negb (Live g now) =
  negb (grant_matches ruleID command now g).
Proof. unfold grant_matches. by rewrite !negb_andb. Qed.

Lemma matching_remaining g ruleID command now :
  grant_matches ruleID command now g = true -> (1 <= RemainingUses g)%Z.
Proof.
  unfold grant_matches, Live. intros H. breflect.
  destruct (NeverGrantable (cg_RuleID g)); [done|]. simpl in *.
  destruct (RemainingUses g =? 0)%Z eqn:E; [done|]. breflect.
  pose proof (RemainingUses_nonneg g). lia.
Qed.

(** A spent use leaves a grant that matches exactly while uses remain. *)
Lemma spent_grant_matches g ruleID command now :
  grant_matches ruleID command now g = true ->
  let g' := {| cg_RuleID := cg_RuleID g; cg_Command := cg_Command g;
               cg_Uses := (RemainingUses g - 1)%Z; cg_ExpiresAt := cg_ExpiresAt g |} in
  (if grant_matches ruleID command now g' then RemainingUses g' else 0%Z) = (RemainingUses g - 1)%Z.
Proof.
  intros H. pose proof (matching_remaining _ _ _ _ H) as Hr.
  unfold grant_matches, Live in *. simpl. breflect.
  destruct (NeverGrantable (cg_RuleID g)); [done|]. simpl in *.
  destruct (RemainingUses g =? 0)%Z; [done|].
  assert (Hrem : RemainingUses {| cg_RuleID := cg_RuleID g; cg_Command := cg_Command g;
      cg_Uses := (RemainingUses g - 1)%Z; cg_ExpiresAt := cg_ExpiresAt g |} = (RemainingUses g - 1)%Z).
  { unfold RemainingUses at 1. simpl. case_match; breflect; lia. }
  rewrite Hrem.
  replace (cg_RuleID g =s? ruleID) with true by (symmetry; by apply String.eqb_eq).
  replace (cg_Command g =s? command) with true by (symmetry; by apply String.eqb_eq). simpl.
  destruct (RemainingUses g - 1 =? 0)%Z eqn:E; breflect; [lia|]. simpl. by rewrite H0.
Qed.

(** Spending takes exactly one use, and succeeds exactly when one is left. *)
Lemma consume_uses_pays gs ruleID command now :
  let '(spent, gs') := consume_uses gs ruleID command now in
  (spent = true <-> (1 <= live_uses gs ruleID command now)%Z) /\
  live_uses gs' ruleID command now =
    (live_uses gs ruleID command now - (if spent then 1 else 0))%Z.
Proof.
  induction gs as [|g gs IH]; simpl; [split; [split; [done|lia]|lia]|].
  rewrite consume_uses_skip.
  destruct (grant_matches ruleID command now g) eqn:Em; simpl.
  - pose proof (matching_remaining _ _ _ _ Em). pose proof (live_uses_nonneg gs ruleID command now).
    split; [split; [lia|done]|]. pose proof (spent_grant_matches _ _ _ _ Em) as Hs. simpl in Hs.
    rewrite Hs. lia.
  - destruct (consume_uses gs ruleID command now) as [spent gs'].
    destruct IH as [IH1 IH2]. simpl. rewrite Em. split; [rewrite IH1; lia|lia].
Qed.

Lemma consume_uses_matches gs ruleID command now :
  (consume_uses gs ruleID command now).1 = existsb (grant_matches ruleID command now) gs.
Proof.
  induction gs as [|g gs IH]; simpl; [done|]. rewrite consume_uses_skip.
  destruct (grant_matches ruleID command now g); simpl; [done|].
  by destruct (consume_uses gs ruleID command now).
Qed.

Lemma ApplyCommandGrant_guard fs v tc op now :
  v_Decision v <> Allow -> v_Decision (ApplyCommandGrant fs v tc op now) = Allow ->
  NeverGrantable (v_RuleID v) = false.
Proof.
  intros Hn. unfold ApplyCommandGrant. case_match; [done|].
  unfold AllowsCommand. by destruct (NeverGrantable (v_RuleID v)).
Qed.

(** ** Lemmas: the key under which grants live *)

(** What [LoadOperatorConfig] leaves in [Repos]: clean, distinct keys. *)
Definition repos_wf (repos : list (string * RepoGrant)) : Prop :=
  Forall (fun kv => Clean kv.1 = kv.1) repos /\ NoDup repos.*1.

Lemma repo_lookup_elem (repos : list (string * RepoGrant)) k g :
  NoDup repos.*1 -> (repo_lookup repos k = Some g <-> (k, g) ∈ repos).
Proof.
  induction repos as [|[k' g'] repos IH]; intros Hnd; simpl.
  - split; [done|]. intros H. by apply elem_of_nil in H.
  - simpl in Hnd. apply NoDup_cons in Hnd as [Hnin Hnd]. rewrite elem_of_cons.
    destruct (k' =s? k) eqn:E; breflect.
    + subst k'. split; [intros [= ->]; by left|]. intros [[= ->]|Hin]; [done|].
      exfalso. apply Hnin. apply (list_elem_of_fmap_2 fst) in Hin. done.
    + rewrite IH by done. split; [by right|]. intros [[= ? ?]|?]; [congruence|done].
Qed.

Lemma repo_lookup_None (repos : list (string * RepoGrant)) k :
  repo_lookup repos k = None <-> k ∉ repos.*1.
Proof.
  induction repos as [|[k' g'] repos IH]; simpl; [split; [intros _; apply not_elem_of_nil|done]|].
  rewrite not_elem_of_cons. destruct (k' =s? k) eqn:E; breflect; [naive_solver|].
  rewrite IH. naive_solver.
Qed.

(** The physical identity of the repositories is unambiguous. *)
Definition distinct_roots (fs : FS) (repos : list (string * RepoGrant)) : Prop :=
  NoDup ((fun kv => resolvePathForCompare fs (Clean kv.1)) <$> repos).

Lemma resolved_entry fs repos want k g :
  distinct_roots fs repos -> (k, g) ∈ repos -> resolvePathForCompare fs (Clean k) = want ->
  grant_resolved fs repos want = Some g /\ key_resolved fs repos want = Some (Clean k).
Proof.
  unfold distinct_roots. induction repos as [|[k' g'] repos IH]; intros Hnd Hin Hw;
    [by apply elem_of_nil in Hin|]. simpl in *. apply NoDup_cons in Hnd as [Hnin Hnd].
  apply elem_of_cons in Hin as [[= -> ->]|Hin].
  - by rewrite (proj2 (String.eqb_eq _ _) Hw).
  - destruct (resolvePathForCompare fs (Clean k') =s? want) eqn:E; breflect; [|by apply IH].
    exfalso. apply Hnin. rewrite E, <- Hw.
    exact (list_elem_of_fmap_2 (fun kv => resolvePathForCompare fs (Clean kv.1)) _ _ Hin).
Qed.

Lemma grant_resolved_elem fs repos want g :
  grant_resolved fs repos want = Some g ->
  exists k, (k, g) ∈ repos /\ resolvePathForCompare fs (Clean k) = want.
Proof.
  induction repos as [|[k' g'] repos IH]; [done|]. simpl.
  destruct (resolvePathForCompare fs (Clean k') =s? want) eqn:E; breflect.
  - intros [= <-]. exists k'. split; [|done]. apply elem_of_cons. by left.
  - intros H. destruct (IH H) as (k & Hin & Hk). exists k. split; [|done].
    apply elem_of_cons. by right.
Qed.

(** Matching and spending read the same entry, in whatever order each ranges
    over the map. *)
Lemma grant_key_agrees fs op op' repo g :
  repos_wf (oc_Repos op) -> distinct_roots fs (oc_Repos op) -> oc_Repos op' ≡ₚ oc_Repos op ->
  grant fs (Some op) repo = Some g ->
  repo_lookup (oc_Repos op') (GrantKey fs (Some op') repo) = Some g.
Proof.
  intros [Hcl Hnd] Hroots Hperm. unfold grant, GrantKey.
  assert (Hnd' : NoDup (oc_Repos op').*1) by (by rewrite Hperm).
  assert (Hroots' : distinct_roots fs (oc_Repos op')) by (unfold distinct_roots; by rewrite Hperm).
  destruct (IsAbs repo); [|done]. simpl.
  destruct (repo_lookup (oc_Repos op) (Clean repo)) as [g'|] eqn:El.
  - intros [= ->]. apply repo_lookup_elem in El; [|done].
    assert (Hl : repo_lookup (oc_Repos op') (Clean repo) = Some g)
      by (apply repo_lookup_elem; [done|by rewrite Hperm]).
    by rewrite Hl.
  - intros (k & Hin & Hk)%grant_resolved_elem.
    assert (Hl : repo_lookup (oc_Repos op') (Clean repo) = None)
      by (apply repo_lookup_None; rewrite Hperm; by apply repo_lookup_None).
    rewrite Hl. destruct (resolved_entry fs (oc_Repos op') (resolvePathForCompare fs (Clean repo)) k g)
      as [_ ->]; [done|by rewrite Hperm|done|].
    rewrite Forall_forall in Hcl. pose proof (Hcl _ Hin) as Hc. simpl in Hc. rewrite Hc.
    apply repo_lookup_elem; [done|]. by rewrite Hperm.
Qed.

Lemma repos_insert_keys repos k g :
  k ∈ repos.*1 -> (repos_insert repos k g).*1 = repos.*1.
Proof.
  induction repos as [|[k' g'] repos IH]; simpl; [intros H; by apply elem_of_nil in H|].
  destruct (k' =s? k) eqn:E; breflect; simpl; [by subst|].
  intros [->|Hin]%elem_of_cons; [done|]. f_equal. by apply IH.
Qed.

Lemma repo_lookup_insert repos k (g : RepoGrant) : repo_lookup (repos_insert repos k g) k = Some g.
Proof.
  induction repos as [|[k' g'] repos IH]; simpl; [by rewrite String.eqb_refl|].
  destruct (k' =s? k) eqn:E; simpl; [by rewrite String.eqb_refl|]. by rewrite E.
Qed.

Lemma key_resolved_keys fs repos repos' want :
  repos.*1 = repos'.*1 -> key_resolved fs repos want = key_resolved fs repos' want.
Proof.
  revert repos'. induction repos as [|[k g] repos IH]; intros [|[k' g'] repos']; simpl; try done.
  intros [= -> H]. by rewrite (IH _ H).
Qed.

Lemma key_resolved_elem fs repos want k :
  key_resolved fs repos want = Some k -> exists k', k = Clean k' /\ k' ∈ repos.*1.
Proof.
  induction repos as [|[k' g'] repos IH]; [done|]. simpl. case_match.
  - intros [= <-]. exists k'. split; [done|]. apply elem_of_cons. by left.
  - intros H'. destruct (IH H') as (x & ? & ?). exists x. split; [done|].
    apply elem_of_cons. by right.
Qed.

(** Writing the grants back does not move them to another key. *)
Lemma GrantKey_insert fs op repo g :
  repos_wf (oc_Repos op) ->
  GrantKey fs (Some (set_repos op (repos_insert (oc_Repos op) (GrantKey fs (Some op) repo) g))) repo
  = GrantKey fs (Some op) repo.
Proof.
  intros [Hcl _]. unfold GrantKey. simpl.
  destruct (repo_lookup (oc_Repos op) (Clean repo)) as [g0|] eqn:El.
  - by rewrite repo_lookup_insert.
  - destruct (key_resolved fs (oc_Repos op) _) as [k|] eqn:Ek.
    + pose proof (key_resolved_elem _ _ _ _ Ek) as (k' & -> & Hk').
      assert (Hc : Clean k' = k').
      { apply list_elem_of_fmap in Hk' as ([x y] & -> & Hin).
        rewrite Forall_forall in Hcl. by apply Hcl in Hin. }
      rewrite Hc in *. pose proof (repos_insert_keys (oc_Repos op) k' g Hk') as Hkeys.
      assert (Hn : repo_lookup (repos_insert (oc_Repos op) k' g) (Clean repo) = None).
      { apply repo_lookup_None. rewrite Hkeys. by apply repo_lookup_None. }
      rewrite Hn. rewrite (key_resolved_keys fs _ (oc_Repos op)) by done. by rewrite Ek.
    + by rewrite repo_lookup_insert.
Qed.

Lemma repos_wf_insert fs op repo g :
  repos_wf (oc_Repos op) ->
  repos_wf (repos_insert (oc_Repos op) (GrantKey fs (Some op) repo) g).
Proof.
  intros [Hcl Hnd]. set (k := GrantKey fs (Some op) repo).
  assert (Hk : Clean k = k).
  { unfold k, GrantKey. case_match; [apply Clean_Clean|].
    case_match eqn:E; [|apply Clean_Clean].
    apply key_resolved_elem in E as (? & -> & _). apply Clean_Clean. }
  clearbody k. revert Hcl Hnd. induction (oc_Repos op) as [|[k' g'] repos IH]; intros Hcl Hnd.
  - split; simpl; [by repeat constructor|]. apply NoDup_singleton.
  - simpl. destruct (k' =s? k) eqn:E; breflect.
    + subst k'. split; [|done]. apply Forall_cons in Hcl as [_ Hcl]. by constructor.
    + apply Forall_cons in Hcl as [Hc Hcl]. simpl in Hnd. apply NoDup_cons in Hnd as [Hnin Hnd].
      destruct (IH Hcl Hnd) as [Hcl' Hnd']. split; [by constructor|]. simpl.
      apply NoDup_cons. split; [|done].
      intros Hin. apply Hnin. clear -Hin E. revert Hin.
      induction repos as [|[k2 g2] repos IH]; simpl.
      * rewrite list_elem_of_singleton. congruence.
      * destruct (k2 =s? k) eqn:E2; breflect; simpl; rewrite !elem_of_cons; [naive_solver|].
        intros [->|Hin]; [by left|right; by apply IH].
Qed.

(** [consumeCommandGrant], [k] times over, and how many times it spent. *)
Fixpoint consume_times (fs : FS) (k : nat) (op : OperatorConfig) (repo ruleID command : string)
    (now : Time) : nat * OperatorConfig :=
  match k with
  | O => (O, op)
  | S k' =>
      let '(spent, op') := consumeCommandGrant fs op repo ruleID command now in
      let '(n, op'') := consume_times fs k' op' repo ruleID command now in
      ((if spent then S n else n), op'')
  end.

(** The grants the repository's key holds. *)
Definition repo_commands (fs : FS) (op : OperatorConfig) (repo : string) : list CommandGrant :=
  match repo_lookup (oc_Repos op) (GrantKey fs (Some op) repo) with
  | Some g => rg_Commands g
  | None => []
  end.

Lemma consumeCommandGrant_commands fs op repo ruleID command now :
  repos_wf (oc_Repos op) ->
  let '(spent, op') := consumeCommandGrant fs op repo ruleID command now in
  repos_wf (oc_Repos op') /\
  (spent, repo_commands fs op' repo) =
    consume_uses (repo_commands fs op repo) ruleID command now.
Proof.
  intros Hwf. unfold consumeCommandGrant, mutateCommandGrants.
  set (entry := match repo_lookup (oc_Repos op) (GrantKey fs (Some op) repo) with
                | Some g => g | None => empty_grant end).
  assert (He : rg_Commands entry = repo_commands fs op repo).
  { unfold entry, repo_commands. by destruct (repo_lookup _ _). }
  rewrite He. destruct (consume_uses _ ruleID command now) as [spent cs] eqn:Ec.
  split; [simpl; by apply repos_wf_insert|].
  unfold repo_commands at 1. rewrite GrantKey_insert by done. simpl.
  by rewrite repo_lookup_insert.
Qed.

(** ** The relaxations: what each promises its callers *)

(** [v'] is the allow an ask was relaxed to. *)
Definition relaxes (v v' : Verdict) : Prop :=
  v_Decision v = Ask /\ v_Decision v' = Allow /\ v_OriginRuleID v' = v_RuleID v.

(** The contract of a relaxation: it hands a verdict back, or turns an ask into
    the allow that names it. *)
Class Relaxation (f : Verdict -> Verdict) : Prop :=
  relaxation v : f v = v \/ relaxes v (f v).

Lemma relaxation_not_ask f `{!Relaxation f} v : v_Decision v <> Ask -> f v = v.
Proof. intros Hn. destruct (relaxation (f := f) v) as [?|[? _]]; done. Qed.

Lemma night_relaxes v active :
  ApplyNightMode v active = v \/
  (relaxes v (ApplyNightMode v active) /\ active = true /\ NeverRelaxable (v_RuleID v) = false).
Proof.
  unfold relaxes, ApplyNightMode. destruct active; [|by left]. case_bool_decide; [|by left].
  destruct (NeverRelaxable (v_RuleID v)); [by left|by right].
Qed.

Lemma command_grant_relaxes fs v tc op now :
  ApplyCommandGrant fs v tc op now = v \/
  (relaxes v (ApplyCommandGrant fs v tc op now) /\ NeverGrantable (v_RuleID v) = false /\
   exists g c, grant fs op (tc_RepoRoot tc) = Some g /\ c ∈ rg_Commands g /\
     cg_RuleID c = v_RuleID v /\ cg_Command c = tc_Command tc /\ tc_Command tc <> "" /\
     Live c now = true).
Proof.
  unfold relaxes, ApplyCommandGrant. case_bool_decide; [|by left].
  destruct (tc_Command tc =s? "") eqn:Ec; [by left|].
  destruct (tc_RepoRoot tc =s? ""); [by left|]. simpl. unfold AllowsCommand.
  destruct (NeverGrantable (v_RuleID v)); [by left|].
  destruct (grant fs op (tc_RepoRoot tc)) as [g|] eqn:Eg; [|by left].
  destruct (existsb _ (rg_Commands g)) eqn:Ex; [|by left]. simpl. right.
  apply existsb_exists in Ex as (c & Hc & Hm). unfold grant_matches in Hm. breflect.
  split_and!; try done. exists g, c. by rewrite list_elem_of_In.
Qed.

Lemma opencode_relaxes v key st now :
  (ApplyOpenCodeApproval v key (Some st) now).1 = v \/
  (relaxes v (ApplyOpenCodeApproval v key (Some st) now).1 /\ key <> "" /\
   exists p, st_PendingApprovals st !! key = Some p /\ pa_OriginRuleID p = v_RuleID v /\
     (now < pa_ExpiresAt p)%Z).
Proof.
  unfold relaxes, ApplyOpenCodeApproval. destruct (key =s? "") eqn:Ek; [by left|]. breflect.
  destruct (v_Decision v) eqn:Ed; try by left. destruct (v_RuleID v =s? ""); [by left|].
  destruct (live_pending _ now !! key) as [p|] eqn:El; [|case_match; by left].
  apply map_lookup_filter_Some in El as [El Hexp]. simpl in Hexp. unfold Before in Hexp.
  destruct (pa_OriginRuleID p =s? v_RuleID v) eqn:Er; [|by left]. breflect. right.
  split; [done|]. split; [done|]. by exists p.
Qed.

#[export] Instance night_relaxation active : Relaxation (fun v => ApplyNightMode v active).
Proof. intros v. destruct (night_relaxes v active) as [?|[? _]]; auto. Qed.

#[export] Instance command_grant_relaxation fs tc op now :
  Relaxation (fun v => ApplyCommandGrant fs v tc op now).
Proof. intros v. destruct (command_grant_relaxes fs v tc op now) as [?|[? _]]; auto. Qed.

#[export] Instance opencode_relaxation key st now :
  Relaxation (fun v => (ApplyOpenCodeApproval v key (Some st) now).1).
Proof. intros v. destruct (opencode_relaxes v key st now) as [?|[? _]]; auto. Qed.

#[export] Instance opencode_host_relaxation key st now :
  Relaxation (fun v => (ApplyOpenCodeHostApproval v key (Some st) now).1).
Proof.
  intros v. unfold relaxes, ApplyOpenCodeHostApproval. destruct (key =s? ""); [by left|].
  case_bool_decide; [|by left]. destruct (v_RuleID v =s? ""); [by left|by right].
Qed.

(** ** Properties *)

(** Every relaxation only ever turns an ask into an allow that names the
    rule it came from, and only on its own ground: an active night mode and a
    rule that may be relaxed; a live grant of the repository for this exact
    rule and command; an unexpired pending entry of this exact call and rule;
    the host's own dialog. A deny is never touched. *)
Theorem relaxations_sound fs v tc op key st active now :
  (ApplyNightMode v active = v \/
   (relaxes v (ApplyNightMode v active) /\ active = true /\ NeverRelaxable (v_RuleID v) = false)) /\
  (ApplyCommandGrant fs v tc op now = v \/
   (relaxes v (ApplyCommandGrant fs v tc op now) /\ NeverGrantable (v_RuleID v) = false /\
    exists g c, grant fs op (tc_RepoRoot tc) = Some g /\ c ∈ rg_Commands g /\
      cg_RuleID c = v_RuleID v /\ cg_Command c = tc_Command tc /\ tc_Command tc <> "" /\
      Live c now = true)) /\
  ((ApplyOpenCodeApproval v key (Some st) now).1 = v \/
   (relaxes v (ApplyOpenCodeApproval v key (Some st) now).1 /\ key <> "" /\
    exists p, st_PendingApprovals st !! key = Some p /\ pa_OriginRuleID p = v_RuleID v /\
      (now < pa_ExpiresAt p)%Z)) /\
  ((ApplyOpenCodeHostApproval v key (Some st) now).1 = v \/
   relaxes v (ApplyOpenCodeHostApproval v key (Some st) now).1).
Proof.
  split_and!;
    [apply night_relaxes|apply command_grant_relaxes|apply opencode_relaxes|].
  apply (relaxation (f := fun v => (ApplyOpenCodeHostApproval v key (Some st) now).1)).
Qed.

(** A command grant authorizes exactly the executions it names: of any
    number of attempts to spend it in a row, as many succeed as uses remain
    alive, and not one more, however the operator's file is keyed. *)
Theorem grant_spent_exactly fs op repo ruleID command now k :
  repos_wf (oc_Repos op) ->
  Z.of_nat (consume_times fs k op repo ruleID command now).1 =
    Z.min (Z.of_nat k) (live_uses (repo_commands fs op repo) ruleID command now).
Proof.
  revert op. induction k as [|k IH]; intros op Hwf; simpl.
  - pose proof (live_uses_nonneg (repo_commands fs op repo) ruleID command now). lia.
  - pose proof (consumeCommandGrant_commands fs op repo ruleID command now Hwf) as H.
    destruct (consumeCommandGrant fs op repo ruleID command now) as [spent op'].
    destruct H as [Hwf' Hc]. specialize (IH op' Hwf').
    destruct (consume_times fs k op' repo ruleID command now) as [n op'']. simpl in *.
    pose proof (consume_uses_pays (repo_commands fs op repo) ruleID command now) as Hp.
    rewrite <- Hc in Hp. destruct Hp as [Hs Hl]. rewrite Hl in IH. destruct spent; simpl.
    + pose proof (proj1 Hs eq_refl). lia.
    + destruct (decide (1 <= live_uses (repo_commands fs op repo) ruleID command now)%Z) as [h|h];
        [by apply Hs in h|lia].
Qed.

Definition demo_commands : list CommandGrant :=
  [{| cg_RuleID := "P1.git-clean"; cg_Command := "git clean -fd"; cg_Uses := 2;
      cg_ExpiresAt := 1000%Z |}].

Definition demo_grant_op : OperatorConfig :=
  set_repos demo_op [("/w/repo", set_commands empty_grant demo_commands)].

Lemma demo_grant_op_wf : repos_wf (oc_Repos demo_grant_op) /\ distinct_roots demo_fs (oc_Repos demo_grant_op).
Proof.
  repeat split; [by repeat constructor|apply NoDup_singleton|apply NoDup_singleton].
Defined.

Lemma grant_spent_exactly_witness :
  Z.of_nat (consume_times demo_fs 5 demo_grant_op "/w/repo" "P1.git-clean" "git clean -fd" 7%Z).1 = 2%Z.
Proof.
  rewrite (grant_spent_exactly demo_fs demo_grant_op "/w/repo" "P1.git-clean" "git clean -fd" 7%Z 5);
    [vm_compute; reflexivity|apply demo_grant_op_wf].
Defined.

(** What matching authorizes, spending finds: when the config read before
    the lock authorizes the command, a consumption of the same file under the
    lock spends a use, in whatever order each ranges over the repositories and
    whichever spelling of the repository's path keys them. *)
Theorem authorized_grant_spendable fs op op' repo ruleID command now :
  repos_wf (oc_Repos op) -> distinct_roots fs (oc_Repos op) -> oc_Repos op' ≡ₚ oc_Repos op ->
  AllowsCommand fs (Some op) repo ruleID command now = true ->
  (consumeCommandGrant fs op' repo ruleID command now).1 = true.
Proof.
  intros Hwf Hroots Hperm Ha. unfold AllowsCommand in Ha.
  destruct (NeverGrantable ruleID); [done|].
  destruct (grant fs (Some op) repo) as [g|] eqn:Eg; [|done].
  pose proof (grant_key_agrees fs op op' repo g Hwf Hroots Hperm Eg) as Hl.
  unfold consumeCommandGrant, mutateCommandGrants. rewrite Hl.
  rewrite <- consume_uses_matches in Ha. by destruct (consume_uses (rg_Commands g) ruleID command now).
Qed.

Lemma authorized_grant_spendable_witness :
  AllowsCommand demo_fs (Some demo_grant_op) "/w/repo" "P1.git-clean" "git clean -fd" 7%Z = true /\
  (consumeCommandGrant demo_fs demo_grant_op "/w/repo" "P1.git-clean" "git clean -fd" 7%Z).1 = true.
Proof.
  split; [vm_compute; reflexivity|].
  apply (authorized_grant_spendable demo_fs demo_grant_op demo_grant_op);
    [apply demo_grant_op_wf|apply demo_grant_op_wf|reflexivity|vm_compute; reflexivity].
Defined.

(** A retry approval is one-shot and bounded: an ask recorded for a call
    is approved by the same call and rule within ten minutes, the approval is
    used up by it, the next identical call asks again, and the table never
    grows past 128 entries. *)
Theorem opencode_retry_one_shot v key s now s1 t s2 :
  v_Decision v = Ask -> v_RuleID v <> "" -> key <> "" ->
  st_PendingApprovals s !! key = None ->
  (size (st_PendingApprovals s) < maxPendingOpenCodeApprovals)%nat ->
  ApplyOpenCodeApproval v key (Some s) now = (v, Some s1) ->
  (now <= t < now + openCodeApprovalTTL)%Z ->
  (ApplyOpenCodeApproval v key (Some s1) t).2 = Some s2 ->
  v_Decision (ApplyOpenCodeApproval v key (Some s1) t).1 = Allow /\
  st_PendingApprovals s2 !! key = None /\
  (forall u, (ApplyOpenCodeApproval v key (Some s2) u).1 = v) /\
  (size (st_PendingApprovals s1) <= maxPendingOpenCodeApprovals)%nat.
Proof.
  intros Hd Hr Hk Hnone Hsize H1 Ht H2.
  assert (Hlive : forall m u, m !! key = None -> live_pending m u !! key = None).
  { intros m u Hm. apply map_lookup_filter_None. by left. }
  assert (Hsz : forall u, (size (live_pending (st_PendingApprovals s) u) < 128)%nat).
  { intros u. eapply Nat.le_lt_trans; [|exact Hsize]. apply map_subseteq_size, map_filter_subseteq. }
  apply String.eqb_neq in Hr, Hk.
  unfold ApplyOpenCodeApproval in H1. rewrite Hk, Hd, Hr, (Hlive _ _ Hnone) in H1.
  assert (E : (maxPendingOpenCodeApprovals <=? size (live_pending (st_PendingApprovals s) now))%nat = false)
    by (apply Nat.leb_gt, Hsz).
  rewrite E in H1. injection H1 as <-.
  unfold ApplyOpenCodeApproval in *. rewrite Hk, Hd, Hr in *. simpl in *.
  set (m1 := <[key := _]> _) in *.
  assert (Hm1 : live_pending m1 t !! key =
                Some {| pa_OriginRuleID := v_RuleID v; pa_ExpiresAt := (now + openCodeApprovalTTL)%Z |}).
  { apply map_lookup_filter_Some. split; [apply lookup_insert_eq|]. simpl. unfold Before.
    apply Z.ltb_lt. lia. }
  rewrite Hm1 in *. simpl in *. rewrite String.eqb_refl in *. injection H2 as <-. simpl.
  split; [done|]. split; [apply lookup_delete_eq|]. split.
  - intros u. assert (Hn : live_pending (delete key (live_pending m1 t)) u !! key = None)
      by (apply Hlive, lookup_delete_eq).
    rewrite Hn. by case_match.
  - unfold m1. rewrite map_size_insert_None by (by apply Hlive). specialize (Hsz now).
    unfold maxPendingOpenCodeApprovals. lia.
Qed.

Definition demo_ask : Verdict := verdict Ask "P1.git-clean" "would delete untracked files".

Lemma opencode_retry_one_shot_witness :
  exists s1 s2,
    ApplyOpenCodeApproval demo_ask "k" (Some zero_state) 10%Z = (demo_ask, Some s1) /\
    (ApplyOpenCodeApproval demo_ask "k" (Some s1) 20%Z).2 = Some s2 /\
    v_Decision (ApplyOpenCodeApproval demo_ask "k" (Some s1) 20%Z).1 = Allow /\
    (ApplyOpenCodeApproval demo_ask "k" (Some s2) 30%Z).1 = demo_ask.
Proof.
  set (s1 := (ApplyOpenCodeApproval demo_ask "k" (Some zero_state) 10%Z).2).
  set (s2 := (ApplyOpenCodeApproval demo_ask "k" s1 20%Z).2).
  exists (default zero_state s1), (default zero_state s2).
  split; [vm_compute; reflexivity|]. split; [vm_compute; reflexivity|].
  destruct (opencode_retry_one_shot demo_ask "k" zero_state 10%Z (default zero_state s1) 20%Z
             (default zero_state s2)) as (Ha & _ & Hc & _).
  - reflexivity.
  - discriminate.
  - discriminate.
  - vm_compute; reflexivity.
  - vm_compute; lia.
  - vm_compute; reflexivity.
  - vm_compute; split; [discriminate|reflexivity].
  - vm_compute; reflexivity.
  - split; [exact Ha|apply Hc].
Defined.

(** One call of a session as P7 sees it: the engine's verdict and the two
    signals; [trifecta_run] is the session's verdicts after P7. *)
Record TrackedCall := { k_verdict : Verdict; k_private : bool; k_network : bool }.

Fixpoint trifecta_run (st : State) (calls : list TrackedCall) (pol : Policy) : list Verdict :=
  match calls with
  | [] => []
  | c :: rest =>
      let '(esc, st') := ApplyTrifecta (k_verdict c) (k_private c) (k_network c) (Some st) pol in
      default (k_verdict c) esc :: trifecta_run (default st st') rest pol
  end.

(** A signal the session has seen makes the other leg ask, from then on. *)
Lemma trifecta_run_seen st calls pol j c v :
  TrifectaTrackingEnabled pol = true ->
  calls !! j = Some c -> trifecta_run st calls pol !! j = Some v ->
  (st_SawPrivateRead st = true /\ k_network c = true) \/
  (st_SawNetworkCall st = true /\ k_private c = true) ->
  v_Decision v <> Allow.
Proof.
  intros He. revert st j. induction calls as [|d calls IH]; intros st j Hc Hv Hs; [done|].
  simpl in Hv. unfold ApplyTrifecta in Hv. rewrite He in Hv. simpl in Hv.
  destruct j as [|j]; simpl in *.
  - simplify_eq.
    assert (Hleg : (k_private c && st_SawNetworkCall st) || (k_network c && st_SawPrivateRead st) = true).
    { destruct Hs as [[-> ->]|[-> ->]]; by rewrite ?andb_true_r, ?orb_true_r. }
    rewrite Hleg, andb_true_r in Hv. case_bool_decide as E; simpl in Hv; by simplify_eq.
  - assert (Hgo : trifecta_run (with_signals st (st_SawPrivateRead st || k_private d)
                    (st_SawNetworkCall st || k_network d)) calls pol !! j = Some v)
      by (destruct (bool_decide _ && _); exact Hv).
    eapply IH; [exact Hc|exact Hgo|]. simpl. destruct Hs as [[-> ?]|[-> ?]]; auto.
Qed.

Lemma trifecta_run_records st calls pol i c j d v :
  TrifectaTrackingEnabled pol = true -> (i < j)%nat ->
  calls !! i = Some c -> calls !! j = Some d -> trifecta_run st calls pol !! j = Some v ->
  (k_private c = true /\ k_network d = true) \/ (k_network c = true /\ k_private d = true) ->
  v_Decision v <> Allow.
Proof.
  intros He. revert st i j. induction calls as [|x calls IH]; intros st i j Hij Hi Hj Hv Hs; [done|].
  destruct j as [|j]; [lia|]. simpl in Hj, Hv. unfold ApplyTrifecta in Hv. rewrite He in Hv.
  simpl in Hv.
  assert (Hgo : trifecta_run (with_signals st (st_SawPrivateRead st || k_private x)
                  (st_SawNetworkCall st || k_network x)) calls pol !! j = Some v)
    by (destruct (bool_decide _ && _); exact Hv).
  destruct i as [|i]; simpl in Hi.
  - simplify_eq. eapply trifecta_run_seen; [done|exact Hj|exact Hgo|]. simpl.
    destruct Hs as [[-> ?]|[-> ?]]; [left|right]; by rewrite orb_true_r.
  - eapply IH; [|exact Hi|exact Hj|exact Hgo|done]. lia.
Qed.

(** With tracking on, a session never completes both legs of the pattern
    silently: once some call read private data, every later call that reaches
    the network is not allowed without an approval, and conversely, whatever
    happened in between. *)
Theorem trifecta_second_leg calls pol i c j d v :
  TrifectaTrackingEnabled pol = true -> (i < j)%nat ->
  calls !! i = Some c -> calls !! j = Some d ->
  trifecta_run zero_state calls pol !! j = Some v ->
  (k_private c = true /\ k_network d = true) \/ (k_network c = true /\ k_private d = true) ->
  v_Decision v <> Allow.
Proof. apply trifecta_run_records. Qed.

Definition demo_trace : list TrackedCall :=
  [{| k_verdict := verdict Allow "" ""; k_private := true; k_network := false |};
   {| k_verdict := verdict Allow "" ""; k_private := false; k_network := false |};
   {| k_verdict := verdict Allow "" ""; k_private := false; k_network := true |}].

Lemma trifecta_second_leg_witness :
  exists v, trifecta_run zero_state demo_trace demo_base !! 2%nat = Some v /\ v_Decision v <> Allow.
Proof.
  eexists. split; [vm_compute; reflexivity|].
  eapply (trifecta_second_leg demo_trace demo_base 0 _ 2 _);
    [vm_compute; reflexivity|lia|reflexivity|reflexivity|vm_compute; reflexivity|by left].
Defined.

(** A session transaction is all or nothing and reports which: the store
    changes exactly when the callback ran without an error on the stored state
    and its result was written, the callback's result is what is stored, and a
    failed unlock is told apart from a failed transaction. *)
Theorem Transaction_atomic io sessionID update err stored :
  Transaction io sessionID update = (err, stored) ->
  match stored with
  | Some st' =>
      (err = None \/ err = Some Committed) /\ (err = None <-> io_unlock io = true) /\
      exists st st1,
        (match io_read io with NotExist => io_legacy io | r => r end = Found st \/
         (match io_read io with NotExist => io_legacy io | r => r end = NotExist /\ st = zero_state)) /\
        update st = (st1, None) /\ st' = with_updated st1 (io_now io)
  | None => err <> None /\ err <> Some Committed
  end.
Proof.
  unfold Transaction. intros H.
  destruct (sessionID =s? ""); [by simplify_eq|].
  destruct (io_mkdir io); [|by simplify_eq/=]. destruct (io_gate io); [|by simplify_eq/=].
  destruct (io_lock io); [|by simplify_eq/=]. simpl in H.
  assert (Hfail : forall e, e <> Committed ->
    (if io_unlock io then (Some e, @None State) else (Some (Joined e), None)) = (err, stored) ->
    match stored with Some st' => False | None => err <> None /\ err <> Some Committed end).
  { intros e He Hx. destruct (io_unlock io); simplify_eq; split; congruence. }
  destruct (io_mkdir_state io); simpl in H; [|apply Hfail in H; [by destruct stored|done]].
  set (read := match io_read io with NotExist => io_legacy io | r => r end) in *.
  destruct read as [st| | |] eqn:Er.
  3, 4: (apply Hfail in H; [by destruct stored|done]).
  - destruct (update st) as [st1 [e|]] eqn:Eu; [apply Hfail in H; [by destruct stored|done]|].
    destruct (io_encode io); simpl in H; [|apply Hfail in H; [by destruct stored|done]].
    destruct (io_write io); simpl in H; [|apply Hfail in H; [by destruct stored|done]].
    destruct (io_unlock io); simplify_eq/=; (split; [auto|split; [done|]]); exists st, st1; auto.
  - destruct (update zero_state) as [st1 [e|]] eqn:Eu; [apply Hfail in H; [by destruct stored|done]|].
    destruct (io_encode io); simpl in H; [|apply Hfail in H; [by destruct stored|done]].
    destruct (io_write io); simpl in H; [|apply Hfail in H; [by destruct stored|done]].
    destruct (io_unlock io); simplify_eq/=; (split; [auto|split; [done|]]); exists zero_state, st1; auto.
Qed.

Definition demo_io : TransactionIO :=
  {| io_mkdir := true; io_gate := true; io_lock := true; io_mkdir_state := true;
     io_read := NotExist; io_legacy := NotExist; io_encode := true; io_write := true;
     io_unlock := false; io_now := 5%Z |}.

Lemma Transaction_atomic_witness :
  exists st', Transaction demo_io "s1" (fun st => (with_signals st true false, None)) =
    (Some Committed, Some st') /\
  (Some Committed = @None TransactionError <-> io_unlock demo_io = true).
Proof.
  eexists. split; [reflexivity|].
  apply (Transaction_atomic demo_io "s1" (fun st => (with_signals st true false, None))
    (Some Committed) (Some (with_updated (with_signals zero_state true false) 5%Z))).
  reflexivity.
Defined.
