(* ===== verification/ActionGrant.v ===== *)
(** * Exact-action grants ([internal/actiongrant/store.go],
    [internal/engine/action_grant.go], [cmd/guardrail/action_grants.go])

    A store of one-shot approvals: a request is created for one exact action,
    the operator authorizes it, and one identical retry consumes it. *)

From Stdlib Require Import ZArith Lia Bool.
From S2P Require Import Prelude GoStrings GoPath Policy Merge Engine Session.

Open Scope string_scope.
Open Scope list_scope.

Module ActionGrant.

Definition TTL : Duration := (15 * Minute)%Z.
Definition maxRecords : nat := 128.

Record Action := {
  ac_Plane : string;
  ac_Session : string;
  ac_Repo : string;
  ac_CWD : string;
  ac_Tool : string;
  ac_Rule : string;
  ac_Kind : string;
  ac_Text : string;
  ac_Paths : list string;
}.

#[export] Instance Action_eq_dec : EqDecision Action.
Proof. solve_decision. Defined.

(** ** utf8.ValidString *)

Definition byte_range (lo hi : nat) (c : ascii) : bool :=
  (lo <=? nat_of_ascii c)%nat && (nat_of_ascii c <=? hi)%nat.

(** The bytes that may follow a lead byte: the range of the second byte and
    how many plain continuation bytes come after it. *)
Definition utf8_follow (c : ascii) : option (option (nat * nat) * nat) :=
  let n := nat_of_ascii c in
  if (n <=? 127)%nat then Some (None, 0)%nat
  else if byte_range 194 223 c then Some (Some (128, 191), 0)%nat
  else if (n =? 224)%nat then Some (Some (160, 191), 1)%nat
  else if byte_range 225 236 c || byte_range 238 239 c then Some (Some (128, 191), 1)%nat
  else if (n =? 237)%nat then Some (Some (128, 159), 1)%nat
  else if (n =? 240)%nat then Some (Some (144, 191), 2)%nat
  else if byte_range 241 243 c then Some (Some (128, 191), 2)%nat
  else if (n =? 244)%nat then Some (Some (128, 143), 2)%nat
  else None.

(** [second]: the range of the next byte when inside a sequence; [more]: plain
    continuation bytes after it. *)
Fixpoint utf8_scan (second : option (nat * nat)) (more : nat) (s : string) : bool :=
  match s with
  | EmptyString => match second with None => true | Some _ => false end
  | String c t =>
      match second with
      | None =>
          match utf8_follow c with
          | None => false
          | Some (sec, m) => utf8_scan sec m t
          end
      | Some (lo, hi) =>
          byte_range lo hi c &&
          match more with
          | O => utf8_scan None O t
          | S m => utf8_scan (Some (128, 191)%nat) m t
          end
      end
  end.

Definition ValidString (s : string) : bool := utf8_scan None O s.

(** [len(s) <= n], counted in [Z] so that large bounds stay cheap. *)
Definition len_at_most (s : string) (n : Z) : bool := (Z.of_nat (String.length s) <=? n)%Z.

Definition valid (a : Action) : bool :=
  forallb ValidString [ac_Plane a; ac_Session a; ac_Repo a; ac_CWD a; ac_Tool a; ac_Rule a;
                       ac_Kind a; ac_Text a] &&
  forallb ValidString (ac_Paths a) &&
  (ac_Plane a =s? "codex") && (ac_Session a <>s? "") && IsAbs (ac_Repo a) && IsAbs (ac_CWD a) &&
  (ac_Tool a <>s? "") && (ac_Rule a <>s? "") && negb (NeverGrantable (ac_Rule a)) &&
  (ac_Text a <>s? "") && len_at_most (ac_Text a) (8 * 2 ^ 20) &&
  (((ac_Kind a =s? "command") && (ac_Tool a =s? "Bash")) ||
   ((ac_Kind a =s? "patch") && (ac_Tool a =s? "apply_patch") && (0 <? length (ac_Paths a))%nat)).

Record Request := {
  rq_ID : string;
  rq_Action : Action;
  rq_Digest : string;
  rq_Issued : Time;
  rq_Expires : Time;
  rq_Status : string;
  rq_Transport : string;
}.

Definition hex_byte (c : ascii) : bool :=
  is_digit c || byte_in "a" "f" c || byte_in "A" "F" c.

Definition validID (id : string) : bool :=
  (String.length id =? 64)%nat && all_bytes hex_byte id.

(** ** The store *)

(** The records of the directory by file stem; [None] is a file that cannot be
    read or does not decode. *)
Notation Store := (gmap string (option Request)).

Inductive StoreError :=
| NotGrantable | StoreBusy | InvalidIdentity | NoSuchRecord | Unreadable | Integrity | StoreFull
| WriteFailed | RemoveFailed | ActionExpired | UnsupportedTransport | NotPending | AuditRequired | AuditFailed
| ActionIs (status : string).

(** The steps of an operation that touch the host: taking the lock, replacing a
    record's file, and removing the file of a record. *)
Record StoreIO := { sio_lock : bool; sio_write : bool; sio_remove : string -> bool }.

Definition with_status (r : Request) (status transport : string) : Request :=
  {| rq_ID := rq_ID r; rq_Action := rq_Action r; rq_Digest := rq_Digest r;
     rq_Issued := rq_Issued r; rq_Expires := rq_Expires r; rq_Status := status;
     rq_Transport := transport |}.

Definition approval_transport (t : string) : bool := in_list t ["terminal-prompt"; "webauthn"].

Section Store.

(** [Action.Digest]: SHA-256 of the JSON encoding. *)
Context (Digest : Action -> string).

Definition integrity (id : string) (r : Request) : bool :=
  (rq_ID r =s? id) && valid (rq_Action r) && (rq_Digest r =s? Digest (rq_Action r)) &&
  After (rq_Expires r) (rq_Issued r) && (rq_Expires r - rq_Issued r <=? TTL)%Z.

Definition load (s : Store) (id : string) : result StoreError Request :=
  if negb (validID id) then Err InvalidIdentity
  else match s !! id with
       | None => Err NoSuchRecord
       | Some None => Err Unreadable
       | Some (Some r) => if integrity id r then Ok r else Err Integrity
       end.

(** [records]: every record in directory order; expired ones are removed. One
    record that does not load or cannot be removed fails the whole listing, after the
    removals made before it. *)
Fixpoint records_of (io : StoreIO) (s : Store) (names : list string) (now : Time)
    : result StoreError (list Request) * Store :=
  match names with
  | [] => (Ok [], s)
  | id :: rest =>
      match load s id with
      | Err e => (Err e, s)
      | Ok r =>
          if negb (Before now (rq_Expires r))
          then if sio_remove io id then records_of io (delete id s) rest now else (Err RemoveFailed, s)
          else
            match records_of io s rest now with
            | (Ok rs, s') => (Ok (r :: rs), s')
            | (Err e, s') => (Err e, s')
            end
      end
  end.

Definition names (s : Store) : list string := sort_strings (map_to_list s).*1.

Definition records (io : StoreIO) (s : Store) (now : Time) : result StoreError (list Request) * Store :=
  records_of io s (names s) now.

(** [write]: the record replaces its file, or nothing changes. *)
Definition write (io : StoreIO) (s : Store) (r : Request) : result StoreError Store :=
  if sio_write io then Ok (<[rq_ID r := Some r]> s) else Err WriteFailed.

(** [Create], with the fresh identity the random source gives. *)
Definition Create (io : StoreIO) (s : Store) (a : Action) (now : Time) (fresh : string)
    : result StoreError Request * Store :=
  if negb (valid a) then (Err NotGrantable, s)
  else if negb (sio_lock io) then (Err StoreBusy, s)
  else
    match records io s now with
    | (Err e, s1) => (Err e, s1)
    | (Ok rs, s1) =>
        match List.find (fun r => (rq_Digest r =s? Digest a) && (rq_Status r =s? "pending")) rs with
        | Some r => (Ok r, s1)
        | None =>
            if (maxRecords <=? length rs)%nat then (Err StoreFull, s1)
            else
              let out := {| rq_ID := fresh; rq_Action := a; rq_Digest := Digest a; rq_Issued := now;
                            rq_Expires := (now + TTL)%Z; rq_Status := "pending"; rq_Transport := "" |} in
              match write io s1 out with
              | Ok s2 => (Ok out, s2)
              | Err e => (Err e, s1)
              end
        end
    end.

Definition Read (io : StoreIO) (s : Store) (id : string) (now : Time) : result StoreError Request :=
  if negb (sio_lock io) then Err StoreBusy
  else match load s id with
       | Err e => Err e
       | Ok r => if negb (Before now (rq_Expires r)) then Err ActionExpired else Ok r
       end.

(** [AuthorizeWithAudit]; [record] is the audit callback ([None]: nil). *)
Definition AuthorizeWithAudit (io : StoreIO) (s : Store) (id digest transport : string) (now : Time)
    (record : option (Request -> bool)) : result StoreError unit * Store :=
  if negb (approval_transport transport) then (Err UnsupportedTransport, s)
  else if negb (sio_lock io) then (Err StoreBusy, s)
  else
    match load s id with
    | Err e => (Err e, s)
    | Ok r =>
        if (rq_Digest r <>s? digest) || (rq_Status r <>s? "pending") ||
           negb (Before now (rq_Expires r))
        then (Err NotPending, s)
        else
          let r := with_status r "approved" transport in
          match record with
          | None => (Err AuditRequired, s)
          | Some audit =>
              if negb (audit r) then (Err AuditFailed, s)
              else match write io s r with
                   | Ok s' => (Ok tt, s')
                   | Err e => (Err e, s)
                   end
          end
    end.

Definition Revoke (io : StoreIO) (s : Store) (id : string) : result StoreError unit * Store :=
  if negb (sio_lock io) then (Err StoreBusy, s)
  else
    match load s id with
    | Err e => (Err e, s)
    | Ok r =>
        if (rq_Status r <>s? "pending") && (rq_Status r <>s? "approved")
        then (Err (ActionIs (rq_Status r)), s)
        else match write io s (with_status r "revoked" (rq_Transport r)) with
             | Ok s' => (Ok tt, s')
             | Err e => (Err e, s)
             end
    end.

(** [Consume]: [Ok (Some r)] when [r] was spent, [Ok None] when nothing was. *)
Definition Consume (io : StoreIO) (s : Store) (a : Action) (now : Time)
    : result StoreError (option Request) * Store :=
  if negb (valid a) then (Ok None, s)
  else if negb (sio_lock io) then (Err StoreBusy, s)
  else
    match records io s now with
    | (Err e, s1) => (Err e, s1)
    | (Ok rs, s1) =>
        match List.find (fun r => (rq_Status r =s? "approved") && (rq_Digest r =s? Digest a) &&
                                  approval_transport (rq_Transport r)) rs with
        | None => (Ok None, s1)
        | Some r =>
            let r := with_status r "consumed" (rq_Transport r) in
            match write io s1 r with
            | Ok s2 => (Ok (Some r), s2)
            | Err e => (Err e, s1)
            end
        end
    end.

End Store.

(** ** action_grant.go and action_grants.go *)

(** The ["command"] field of a patch call's JSON arguments. *)
Definition ExactGrantAction (patch_command : string -> option string) (tc : ToolCall) (v : Verdict)
    : option Action :=
  if (tc_Plane tc <>s? "codex") || (tc_Event tc <>s? "pre") ||
     negb (bool_decide (v_Decision v = Ask)) || NeverGrantable (v_RuleID v) ||
     (tc_RepoRoot tc =s? "") || (tc_CWD tc =s? "") || (tc_SessionID tc =s? "")
  then None
  else
    let action tool kind text :=
      {| ac_Plane := tc_Plane tc; ac_Session := tc_SessionID tc; ac_Repo := Clean (tc_RepoRoot tc);
         ac_CWD := Clean (tc_CWD tc); ac_Tool := tool; ac_Rule := v_RuleID v; ac_Kind := kind;
         ac_Text := text; ac_Paths := tc_Paths tc |} in
    if bool_decide (tc_Capability tc = CapabilityCommand) && (tc_Tool tc =s? "Bash") &&
       (tc_Command tc <>s? "")
    then Some (action (tc_Tool tc) "command" (tc_Command tc))
    else if bool_decide (tc_Capability tc = CapabilityMutation) &&
            (tc_ContractTool tc =s? "apply_patch") && (0 <? length (tc_Paths tc))%nat
    then match patch_command (tc_Arguments tc) with
         | Some c => if c =s? "" then None else Some (action "apply_patch" "patch" c)
         | None => None
         end
    else None.

Definition with_request (v : Verdict) (id : string) : Verdict :=
  {| v_Decision := v_Decision v; v_RuleID := v_RuleID v; v_OriginRuleID := v_OriginRuleID v;
     v_Reason := v_Reason v; v_AuditKind := v_AuditKind v; v_OperatorAction := v_OperatorAction v;
     v_RequestID := id; v_ApprovalURL := v_ApprovalURL v |}.

(** [exactActionVerdict]: the verdict, whether a grant was spent, and the
    store it leaves; an error keeps the verdict. *)
Definition exactActionVerdict (Digest : Action -> string) (patch_command : string -> option string)
    (io : StoreIO) (s : Store) (tc : ToolCall) (v : Verdict) (now : Time) (fresh : string)
    : result StoreError (Verdict * bool) * Store :=
  match ExactGrantAction patch_command tc v with
  | None => (Ok (v, false), s)
  | Some a =>
      match Consume Digest io s a now with
      | (Err e, s1) => (Err e, s1)
      | (Ok (Some req), s1) =>
          (Ok (with_request
                 (relaxed_verdict GrantRuleID (v_RuleID v)
                    "allowed once by an operator-issued grant for this exact action")
                 (rq_ID req), true), s1)
      | (Ok None, s1) =>
          match Create Digest io s1 a now fresh with
          | (Err e, s2) => (Err e, s2)
          | (Ok req, s2) => (Ok (with_request v (rq_ID req), false), s2)
          end
      end
  end.

(** ** Lemmas *)

Lemma ExactGrantAction_guard patch_command tc v a :
  ExactGrantAction patch_command tc v = Some a ->
  tc_Plane tc = "codex" /\ tc_Event tc = "pre" /\ v_Decision v = Ask /\
  NeverGrantable (v_RuleID v) = false.
Proof.
  unfold ExactGrantAction. intros Ea. case_match eqn:Eg; [done|]. breflect.
  repeat match goal with H : bool_decide _ = true |- _ => apply bool_decide_eq_true in H end. done.
Qed.

Section Lemmas.
Context (Digest : Action -> string).

Lemma load_Ok s id r : load Digest s id = Ok r ->
  s !! id = Some (Some r) /\ integrity Digest id r = true /\ rq_ID r = id.
Proof.
  unfold load. destruct (validID id); [|done]. simpl.
  destruct (s !! id) as [[r'|]|] eqn:E; [|done|done].
  destruct (integrity Digest id r') eqn:Ei; [|done]. intros [= ->]. split; [done|]. split; [done|].
  unfold integrity in Ei. by breflect.
Qed.

(** Listing only ever removes records, and only expired ones. *)
Lemma records_of_removes io s ns now res s' :
  records_of Digest io s ns now = (res, s') ->
  (forall id, s' !! id = s !! id \/
     (s' !! id = None /\ exists r, load Digest s id = Ok r /\ Before now (rq_Expires r) = false)) /\
  (forall rs, res = Ok rs -> Forall (fun r => load Digest s (rq_ID r) = Ok r /\
     Before now (rq_Expires r) = true) rs).
Proof.
  revert s res s'. induction ns as [|id ns IH]; intros s res s' H; simpl in H.
  { simplify_eq. split; [by left|]. intros rs [= <-]. constructor. }
  destruct (load Digest s id) as [r|e] eqn:El; [|simplify_eq; split; [by left|done]].
  pose proof (load_Ok _ _ _ El) as (Hs & _ & Hid).
  destruct (Before now (rq_Expires r)) eqn:Eb; simpl in H.
  - destruct (records_of Digest io s ns now) as [[rs|e] s1] eqn:Er; simplify_eq;
      destruct (IH _ _ _ Er) as [Hrem Hok]; (split; [exact Hrem|]); [|done].
    intros rs' [= <-]. constructor; [done|by apply Hok].
  - destruct (sio_remove io id); [|simplify_eq; split; [by left|done]].
    destruct (IH _ _ _ H) as [Hrem Hok].
    assert (Hsub : forall i x, load Digest (delete id s) i = Ok x -> load Digest s i = Ok x).
    { intros i x. unfold load. destruct (validID i); [|done]. cbn [negb].
      destruct (decide (i = id)) as [->|Hne]; [by rewrite lookup_delete_eq|].
      by rewrite lookup_delete_ne. }
    split.
    + intros i. destruct (decide (i = id)) as [->|Hne].
      * right. split; [|eauto]. specialize (Hrem id). rewrite lookup_delete_eq in Hrem.
        by destruct Hrem as [?|[? _]].
      * specialize (Hrem i). rewrite lookup_delete_ne in Hrem by done.
        destruct Hrem as [?|(? & x & Hx & ?)]; [by left|right]. eauto.
    + intros rs Hrs. eapply Forall_impl; [by apply Hok|]. intros x [Hx ?]. split; [|done].
      by apply Hsub.
Qed.

Lemma records_kept io s now rs s' r :
  records Digest io s now = (Ok rs, s') -> r ∈ rs ->
  load Digest s (rq_ID r) = Ok r /\ Before now (rq_Expires r) = true /\
  s' !! rq_ID r = Some (Some r).
Proof.
  intros H Hr. destruct (records_of_removes _ _ _ _ _ _ H) as [Hrem Hok].
  specialize (Hok rs eq_refl). rewrite Forall_forall in Hok. destruct (Hok r Hr) as [Hl Hb].
  split; [done|]. split; [done|]. pose proof (load_Ok _ _ _ Hl) as (Hs & _ & _).
  destruct (Hrem (rq_ID r)) as [->|(_ & x & Hx & Hb')]; [done|]. congruence.
Qed.

(** What a spent approval was. *)
Lemma Consume_spent io s a now r s' :
  Consume Digest io s a now = (Ok (Some r), s') ->
  exists r0 s1, load Digest s (rq_ID r0) = Ok r0 /\ rq_Status r0 = "approved" /\
    rq_Digest r0 = Digest a /\ approval_transport (rq_Transport r0) = true /\
    Before now (rq_Expires r0) = true /\ valid a = true /\
    r = with_status r0 "consumed" (rq_Transport r0) /\
    (exists rs, records Digest io s now = (Ok rs, s1) /\ r0 ∈ rs) /\
    s' = <[rq_ID r0 := Some r]> s1.
Proof.
  unfold Consume. destruct (valid a) eqn:Ev; [|done]. destruct (sio_lock io); [|done]. simpl.
  destruct (records Digest io s now) as [[rs|e] s1] eqn:Er; [|done].
  destruct (List.find _ rs) as [r0|] eqn:Ef; [|done].
  unfold write. destruct (sio_write io); [|done]. intros [= <- <-].
  apply find_some in Ef as [Hin Hp]. apply list_elem_of_In in Hin. breflect.
  destruct (records_kept _ _ _ _ _ _ Er Hin) as (Hl & Hb & _).
  exists r0, s1. split_and!; try done. by exists rs.
Qed.

(** ** The life of a request *)

(** What an operation did to which request. *)
Inductive event :=
| Authorized (id : string) | Consumed (id : string) | Revoked (id : string) | Silent.

(** One operation of some process on the store; [used] holds every identity
    the random source has given. *)
Inductive step : Store * gset string -> event -> Store * gset string -> Prop :=
| step_create io s used a now fresh res s' :
    fresh ∉ used -> Create Digest io s a now fresh = (res, s') ->
    step (s, used) Silent (s', {[fresh]} ∪ used)
| step_authorize io s used id digest transport now record s' :
    AuthorizeWithAudit Digest io s id digest transport now record = (Ok tt, s') ->
    step (s, used) (Authorized id) (s', used)
| step_authorize_fails io s used id digest transport now record e s' :
    AuthorizeWithAudit Digest io s id digest transport now record = (Err e, s') ->
    step (s, used) Silent (s', used)
| step_revoke io s used id s' :
    Revoke Digest io s id = (Ok tt, s') -> step (s, used) (Revoked id) (s', used)
| step_revoke_fails io s used id e s' :
    Revoke Digest io s id = (Err e, s') -> step (s, used) Silent (s', used)
| step_consume io s used a now r s' :
    Consume Digest io s a now = (Ok (Some r), s') ->
    step (s, used) (Consumed (rq_ID r)) (s', used)
| step_consume_nothing io s used a now s' :
    Consume Digest io s a now = (Ok None, s') -> step (s, used) Silent (s', used)
| step_consume_fails io s used a now e s' :
    Consume Digest io s a now = (Err e, s') -> step (s, used) Silent (s', used).

(** The events of a run, the latest last. *)
Inductive run : list event -> Store * gset string -> Prop :=
| run_start : run [] (∅, ∅)
| run_step tr c e c' : run tr c -> step c e c' -> run (tr ++ [e]) c'.

Definition about (id : string) (e : event) : bool :=
  match e with
  | Authorized i | Consumed i | Revoked i => i =s? id
  | Silent => false
  end.

(** What may happen to one request, in order. *)
Definition lives (id : string) : list (list event) :=
  [[]; [Authorized id]; [Authorized id; Consumed id]; [Revoked id]; [Authorized id; Revoked id]].

Definition status_agrees (id : string) (slot : option (option Request)) (life : list event) : Prop :=
  match slot with
  | Some (Some r) =>
      rq_ID r = id ->
      (rq_Status r = "pending" -> life = []) /\ (rq_Status r = "approved" -> life = [Authorized id])
  | _ => True
  end.

Definition run_inv (tr : list event) (c : Store * gset string) : Prop :=
  forall id,
    let life := List.filter (about id) tr in
    life ∈ lives id /\ status_agrees id (c.1 !! id) life /\
    (id ∉ c.2 -> c.1 !! id = None /\ life = []).

Lemma filter_snoc id tr e :
  List.filter (about id) (tr ++ [e]) =
  List.filter (about id) tr ++ (if about id e then [e] else []).
Proof. rewrite List.filter_app. simpl. by destruct (about id e). Qed.

(** An operation that reports nothing and only removes records, or adds a
    pending one under a fresh identity, keeps the invariant. *)
Lemma run_inv_silent tr s used s' used' :
  run_inv tr (s, used) -> used ⊆ used' ->
  (forall id, s' !! id = s !! id \/ s' !! id = None \/
     (id ∉ used /\ id ∈ used' /\ exists r, s' !! id = Some (Some r) /\ rq_Status r = "pending")) ->
  run_inv (tr ++ [Silent]) (s', used').
Proof.
  intros Hinv Hsub Hs id. rewrite filter_snoc, app_nil_r.
  destruct (Hinv id) as (Hlife & Hst & Hfresh). simpl in *. split; [done|].
  destruct (Hs id) as [->|[->|(Hnu & Hu & r & -> & Hr)]].
  - split; [done|]. intros Hn. apply Hfresh. set_solver.
  - split; [done|]. intros Hn. split; [done|]. apply Hfresh. set_solver.
  - split; [|done]. simpl. intros _. split; [intros _; by apply Hfresh|]. by rewrite Hr.
Qed.

(** A transition of one request. *)
Lemma run_inv_event tr s used s' e id r life' :
  run_inv tr (s, used) -> about id e = true -> (forall i, i <> id -> about i e = false) ->
  is_Some (s !! id) ->
  List.filter (about id) tr ++ [e] = life' -> life' ∈ lives id ->
  s' !! id = Some (Some r) -> status_agrees id (Some (Some r)) life' ->
  (forall i, i <> id -> s' !! i = s !! i \/ s' !! i = None) ->
  run_inv (tr ++ [e]) (s', used).
Proof.
  intros Hinv He Hother Hin Hl Hlives Hs' Hst Hrest i. rewrite filter_snoc.
  destruct (Hinv i) as (Hlife & Hsti & Hfresh). simpl in *.
  destruct (decide (i = id)) as [->|Hne].
  - rewrite He, Hl, Hs'. split; [done|]. split; [done|]. intros Hn.
    destruct (Hfresh Hn) as [Hx _]. rewrite Hx in Hin. by destruct Hin.
  - rewrite (Hother i Hne), app_nil_r. split; [done|].
    destruct (Hrest i Hne) as [->| ->]; [done|]. split; [done|]. intros Hn.
    split; [done|]. by apply Hfresh.
Qed.

Lemma about_other (e : event) id i :
  (e = Authorized id \/ e = Consumed id \/ e = Revoked id) -> i <> id -> about i e = false.
Proof. intros [->|[->| ->]] Hne; apply String.eqb_neq; congruence. Qed.

Lemma run_inv_authorize tr io s used id digest transport now record s' :
  run_inv tr (s, used) ->
  AuthorizeWithAudit Digest io s id digest transport now record = (Ok tt, s') ->
  run_inv (tr ++ [Authorized id]) (s', used).
Proof.
  intros Hinv H. unfold AuthorizeWithAudit in H.
  destruct (approval_transport transport); [|done]. destruct (sio_lock io); [|done]. simpl in H.
  destruct (load Digest s id) as [r|] eqn:El; [|done]. apply load_Ok in El as (Hs & _ & Hid).
  case_match eqn:Eg; [done|]. breflect. destruct record as [audit|]; [|done].
  case_match; [done|]. unfold write in H. destruct (sio_write io); [|done]. injection H as <-.
  destruct (Hinv id) as (_ & Hst & _). simpl in Hst. rewrite Hs in Hst.
  destruct (Hst Hid) as [Hp _].
  eapply (run_inv_event tr s used _ _ id _ [Authorized id] Hinv).
  - apply String.eqb_refl.
  - intros i. apply about_other. auto.
  - rewrite Hs. by eexists.
  - by rewrite Hp.
  - set_solver.
  - simpl. rewrite Hid. apply lookup_insert_eq.
  - done.
  - intros i Hne. simpl. rewrite Hid, lookup_insert_ne by done. by left.
Qed.

Lemma run_inv_revoke tr io s used id s' :
  run_inv tr (s, used) -> Revoke Digest io s id = (Ok tt, s') ->
  run_inv (tr ++ [Revoked id]) (s', used).
Proof.
  intros Hinv H. unfold Revoke in H. destruct (sio_lock io); [|done]. simpl in H.
  destruct (load Digest s id) as [r|] eqn:El; [|done]. apply load_Ok in El as (Hs & _ & Hid).
  case_match eqn:Eg; [done|]. unfold write in H. destruct (sio_write io); [|done]. injection H as <-.
  destruct (Hinv id) as (_ & Hst & _). simpl in Hst. rewrite Hs in Hst.
  destruct (Hst Hid) as [Hp Ha].
  assert (Hl : List.filter (about id) tr = [] \/ List.filter (about id) tr = [Authorized id]).
  { apply andb_false_iff in Eg as [Eg|Eg]; breflect; auto. }
  eapply (run_inv_event tr s used _ _ id _ _ Hinv).
  - apply String.eqb_refl.
  - intros i. apply about_other. auto.
  - rewrite Hs. by eexists.
  - reflexivity.
  - destruct Hl as [->| ->]; simpl; set_solver.
  - simpl. rewrite Hid. apply lookup_insert_eq.
  - done.
  - intros i Hne. simpl. rewrite Hid, lookup_insert_ne by done. by left.
Qed.

Lemma run_inv_consume tr io s used a now r s' :
  run_inv tr (s, used) -> Consume Digest io s a now = (Ok (Some r), s') ->
  run_inv (tr ++ [Consumed (rq_ID r)]) (s', used).
Proof.
  intros Hinv (r0 & s1 & Hl & Hst & _ & _ & _ & _ & -> & (rs & Hrs & Hin) & ->)%Consume_spent.
  simpl. apply load_Ok in Hl as (Hs & _ & _).
  destruct (records_of_removes _ _ _ _ _ _ Hrs) as [Hrem _].
  destruct (Hinv (rq_ID r0)) as (_ & Hag & _). simpl in Hag. rewrite Hs in Hag.
  destruct (Hag eq_refl) as [_ Ha].
  eapply (run_inv_event tr s used _ _ (rq_ID r0) _ [Authorized (rq_ID r0); Consumed (rq_ID r0)] Hinv).
  - apply String.eqb_refl.
  - intros i. apply about_other. auto.
  - rewrite Hs. by eexists.
  - by rewrite Ha.
  - set_solver.
  - apply lookup_insert_eq.
  - done.
  - intros i Hne. rewrite lookup_insert_ne by done.
    destruct (Hrem i) as [?|[? _]]; auto.
Qed.

(** The store after a listing is the store, less expired records. *)
Lemma records_only_removes io s now res s' id :
  records Digest io s now = (res, s') -> s' !! id = s !! id \/ s' !! id = None.
Proof.
  intros H. destruct (records_of_removes _ _ _ _ _ _ H) as [Hrem _]. destruct (Hrem id) as [?|[? _]]; auto.
Qed.

Lemma Create_store io s a now fresh res s' id :
  Create Digest io s a now fresh = (res, s') ->
  s' !! id = s !! id \/ s' !! id = None \/
  (id = fresh /\ exists r, s' !! id = Some (Some r) /\ rq_Status r = "pending").
Proof.
  unfold Create. destruct (valid a); [|intros H; simplify_eq/=; by left].
  destruct (sio_lock io); [|intros H; simplify_eq/=; by left]. cbn [negb].
  destruct (records Digest io s now) as [[rs|e] s1] eqn:Er.
  2: { intros H; simplify_eq/=. destruct (records_only_removes _ _ _ _ _ id Er); auto. }
  pose proof (records_only_removes _ _ _ _ _ id Er) as Hrem.
  destruct (List.find _ rs); [intros H; simplify_eq/=; destruct Hrem; auto|].
  destruct (maxRecords <=? length rs)%nat; [intros H; simplify_eq/=; destruct Hrem; auto|].
  unfold write. destruct (sio_write io); [|intros H; simplify_eq/=; destruct Hrem; auto].
  intros H; simplify_eq/=. simpl. destruct (decide (id = fresh)) as [->|Hne].
  - right. right. split; [done|]. rewrite lookup_insert_eq. by eexists.
  - rewrite lookup_insert_ne by done. destruct Hrem; auto.
Qed.

Lemma Consume_store io s a now res s' id :
  Consume Digest io s a now = (res, s') -> (forall r, res <> Ok (Some r)) ->
  s' !! id = s !! id \/ s' !! id = None.
Proof.
  unfold Consume. intros H Hr. destruct (valid a); [|simplify_eq/=; by left].
  destruct (sio_lock io); [|simplify_eq/=; by left]. cbn [negb] in H.
  destruct (records Digest io s now) as [[rs|e] s1] eqn:Er;
    pose proof (records_only_removes _ _ _ _ _ id Er) as Hrem; [|by simplify_eq].
  destruct (List.find _ rs); [|by simplify_eq]. unfold write in H.
  destruct (sio_write io); simplify_eq; [by exfalso; eapply Hr|done].
Qed.

Lemma run_inv_holds tr c : run tr c -> run_inv tr c.
Proof.
  induction 1 as [|tr c e c' Hrun IH Hstep].
  { intros id. simpl. split; [set_solver|]. by rewrite lookup_empty. }
  destruct Hstep.
  - eapply run_inv_silent; [exact IH|set_solver|]. intros id.
    pose proof (Create_store _ _ _ _ _ _ _ id H0) as [?|[?|[-> ?]]]; [auto|auto|].
    right. right. split; [done|]. split; [set_solver|done].
  - by eapply run_inv_authorize.
  - eapply run_inv_silent; [exact IH|done|]. intros i. left.
    assert (s' = s) as ->; [|done]. unfold AuthorizeWithAudit in H. by repeat (case_match; simplify_eq).
  - by eapply run_inv_revoke.
  - eapply run_inv_silent; [exact IH|done|]. intros i. left.
    assert (s' = s) as ->; [|done]. unfold Revoke in H. by repeat (case_match; simplify_eq).
  - by eapply run_inv_consume.
  - eapply run_inv_silent; [exact IH|done|]. intros i.
    destruct (Consume_store _ _ _ _ _ _ i H); [done|auto|auto].
  - eapply run_inv_silent; [exact IH|done|]. intros i.
    destruct (Consume_store _ _ _ _ _ _ i H); [done|auto|auto].
Qed.

End Lemmas.

(** ** Properties *)

(** C19: over any interleaving of operations of any number of processes, each
    exact-action request is authorized at most once and consumed at most once,
    only after it was authorized and never after it was revoked. *)
Theorem request_lifecycle Digest tr c id :
  run Digest tr c -> List.filter (about id) tr ∈ lives id.
Proof. intros H. by apply (run_inv_holds Digest tr c H id). Qed.

Definition demo_id : string :=
  "00000000000000000000000000000000000000000000000000000000000000aa".

Definition demo_action : Action :=
  {| ac_Plane := "codex"; ac_Session := "s1"; ac_Repo := "/w/repo"; ac_CWD := "/w/repo";
     ac_Tool := "Bash"; ac_Rule := "P1.git-clean"; ac_Kind := "command";
     ac_Text := "git clean -fd"; ac_Paths := [] |}.

Definition demo_Digest (a : Action) : string := ac_Kind a +:+ ":" +:+ ac_Text a.
Definition demo_store_io : StoreIO := {| sio_lock := true; sio_write := true; sio_remove := fun _ => true |}.

Definition demo_s1 : Store := (Create demo_Digest demo_store_io ∅ demo_action 100%Z demo_id).2.
Definition demo_s2 : Store :=
  (AuthorizeWithAudit demo_Digest demo_store_io demo_s1 demo_id "command:git clean -fd"
     "webauthn" 200%Z (Some (fun _ => true))).2.
Definition demo_s3 : Store := (Consume demo_Digest demo_store_io demo_s2 demo_action 300%Z).2.

Definition demo_consumed : Request :=
  {| rq_ID := demo_id; rq_Action := demo_action; rq_Digest := "command:git clean -fd";
     rq_Issued := 100%Z; rq_Expires := (100 + TTL)%Z; rq_Status := "consumed";
     rq_Transport := "webauthn" |}.

Lemma demo_consumes :
  Consume demo_Digest demo_store_io demo_s2 demo_action 300%Z = (Ok (Some demo_consumed), demo_s3).
Proof. apply injective_projections; [vm_compute; reflexivity|reflexivity]. Qed.

Lemma demo_run :
  run demo_Digest [Silent; Authorized demo_id; Consumed demo_id] (demo_s3, {[demo_id]} ∪ ∅).
Proof.
  apply (run_step _ [Silent; Authorized demo_id] (demo_s2, {[demo_id]} ∪ ∅)).
  - apply (run_step _ [Silent] (demo_s1, {[demo_id]} ∪ ∅)).
    + apply (run_step _ [] (∅, ∅)); [constructor|].
      eapply (step_create _ demo_store_io ∅ ∅ demo_action 100%Z); [set_solver|].
      apply surjective_pairing.
    + eapply (step_authorize _ demo_store_io demo_s1 _ demo_id "command:git clean -fd" "webauthn"
                200%Z (Some (fun _ => true))).
      apply injective_projections; [vm_compute; reflexivity|reflexivity].
  - exact (step_consume demo_Digest demo_store_io demo_s2 _ demo_action 300%Z demo_consumed demo_s3
             demo_consumes).
Qed.

Lemma request_lifecycle_witness :
  List.filter (about demo_id) [Silent; Authorized demo_id; Consumed demo_id] ∈ lives demo_id.
Proof.
  apply (request_lifecycle demo_Digest _ (demo_s3, {[demo_id]} ∪ ∅)). apply demo_run.
Defined.

(** An exact-action allow is paid for by the operator: the hook relaxes a
    codex ask this way only when the store held an approved, unexpired record
    of the same digest, issued at most fifteen minutes before it expires, for a
    rule that is not among the ungrantable ones, and that record is consumed
    in the same step. *)
Theorem exact_action_allow_paid Digest patch_command io s tc v now fresh v' s' :
  v_Decision v <> Allow ->
  exactActionVerdict Digest patch_command io s tc v now fresh = (Ok (v', true), s') ->
  tc_Plane tc = "codex" /\ tc_Event tc = "pre" /\ NeverGrantable (v_RuleID v) = false /\
  relaxes v v' /\
  exists a r, ExactGrantAction patch_command tc v = Some a /\
    load Digest s (rq_ID r) = Ok r /\ rq_Status r = "approved" /\ rq_Digest r = Digest a /\
    approval_transport (rq_Transport r) = true /\ Before now (rq_Expires r) = true /\
    (rq_Expires r - rq_Issued r <= TTL)%Z /\
    s' !! rq_ID r = Some (Some (with_status r "consumed" (rq_Transport r))) /\
    v_RequestID v' = rq_ID r.
Proof.
  intros Hna. unfold exactActionVerdict.
  destruct (ExactGrantAction patch_command tc v) as [a|] eqn:Ea; [|intros; by simplify_eq].
  destruct (ExactGrantAction_guard _ _ _ _ Ea) as (Hp & He & Hd & Hn).
  destruct (Consume Digest io s a now) as [[[r|]|e] s1] eqn:Ec.
  - intros [= <- <-]. apply Consume_spent in Ec
      as (r0 & s2 & Hl & Hst & Hdg & Htr & Hb & _ & -> & _ & ->).
    split_and!; try done. exists a, r0. split_and!; try done.
    + apply load_Ok in Hl as (_ & Hi & _). unfold integrity in Hi. by breflect.
    + apply lookup_insert_eq.
  - intros H. by destruct (Create Digest io s1 a now fresh) as [[]].
  - done.
Qed.

Definition demo_codex_call : ToolCall :=
  {| tc_Plane := "codex"; tc_Event := "pre"; tc_Tool := "Bash"; tc_NativeTool := "shell";
     tc_ContractTool := "shell"; tc_Capability := CapabilityCommand; tc_NativeWebResearch := false;
     tc_URL := ""; tc_InputShape := ""; tc_Command := "git clean -fd"; tc_Shell := "";
     tc_Paths := []; tc_Arguments := ""; tc_SessionID := "s1"; tc_CallID := "";
     tc_HostApproved := false; tc_CWD := "/w/repo"; tc_RepoRoot := "/w/repo"; tc_Raw := "";
     tc_PermittedRoots := []; tc_DegradedAllows := [] |}.

Definition demo_paid : Verdict :=
  with_request (relaxed_verdict GrantRuleID "P1.git-clean"
    "allowed once by an operator-issued grant for this exact action") demo_id.

Lemma exact_action_allow_paid_witness :
  (exactActionVerdict demo_Digest (fun _ => None) demo_store_io demo_s2 demo_codex_call
      demo_ask 300%Z "").1 = Ok (demo_paid, true) /\
  relaxes demo_ask demo_paid.
Proof.
  split; [vm_compute; reflexivity|].
  apply (exact_action_allow_paid demo_Digest (fun _ => None) demo_store_io demo_s2 demo_codex_call
    demo_ask 300%Z "" demo_paid
    (exactActionVerdict demo_Digest (fun _ => None) demo_store_io demo_s2 demo_codex_call
      demo_ask 300%Z "").2); [discriminate|].
  apply injective_projections; [vm_compute; reflexivity|reflexivity].
Defined.

End ActionGrant.
