(* ===== verification/Ticket.v ===== *)
(** * Approval tickets ([internal/approval/ticket.go])

    In prompt mode a host-approved operator command is proved by a ticket: the
    hook issues it, the session's next call voids it, the command it binds
    claims it once. *)

From Stdlib Require Import ZArith Lia Bool.
From S2P Require Import Prelude GoStrings GoPath Policy Merge.

Open Scope string_scope.
Open Scope list_scope.

Module Tickets.

Definition TicketTTL : Duration := (10 * Minute)%Z.
Definition ticketVersion : Z := 1.

Record Ticket := {
  t_Version : Z;
  t_Command : string;
  t_CWD : string;
  t_RepoRoot : string;
  t_Plane : string;
  t_Action : string;
  t_SessionDigest : string;
  t_IssuedAt : Time;
  t_ExpiresAt : Time;
}.

(** [filepath.Abs] in the working directory [wd]. *)
Definition Abs (wd dir : string) : string :=
  if IsAbs dir then Clean dir else JoinPath [wd; dir].

(** A ticket's file: the prefix of its session's digest and the digest of the
    command and directory it binds. [None] is a file that does not read or
    decode. *)
Notation TicketStore := (gmap (string * string) (option Ticket)).

Section Tickets.

Context (fs : FS) (wd : string).
(** SHA-256 of the versioned session identity, and of the length-prefixed
    command and canonical directory, in hexadecimal. *)
Context (sessionDigest : string -> string) (binding_hash : string -> string -> string).

Definition CanonicalTicketDir (dir : string) : string :=
  let dir := Abs wd dir in
  let dir := match fs_evalsymlinks fs dir with Some r => r | None => dir end in
  Clean dir.

Definition sessionPrefix (sessionID : string) : string := stake 16 (sessionDigest sessionID).

Definition bindingDigest (command cwd : string) : string :=
  binding_hash command (CanonicalTicketDir cwd).

Definition ticket_name (sessionID command cwd : string) : string * string :=
  (sessionPrefix sessionID, bindingDigest command cwd).

Definition pruneExpiredTickets (d : TicketStore) (now : Time) : TicketStore :=
  filter (fun kv => match kv.2 with
                    | Some t => Before now (t_ExpiresAt t)
                    | None => false
                    end = true) d.

(** [IssueTicket]; [io] says whether the new file was written and renamed. *)
Definition IssueTicket (io : bool) (d : TicketStore) (t : Ticket) (sessionID : string) (now : Time)
    : bool * TicketStore :=
  if (t_Command t =s? "") || (t_CWD t =s? "") then (false, d)
  else
    let cwd := CanonicalTicketDir (t_CWD t) in
    let t := {| t_Version := ticketVersion; t_Command := t_Command t; t_CWD := cwd;
                t_RepoRoot := t_RepoRoot t; t_Plane := t_Plane t; t_Action := t_Action t;
                t_SessionDigest := sessionDigest sessionID; t_IssuedAt := now;
                t_ExpiresAt := (now + TicketTTL)%Z |} in
    let d := pruneExpiredTickets d now in
    if io then (true, <[ticket_name sessionID (t_Command t) cwd := Some t]> d) else (false, d).

(** The file names a glob on the binding gives, in name order. *)
Definition ticketCandidates (d : TicketStore) (command cwd : string) : list (string * string) :=
  let binding := bindingDigest command cwd in
  (fun prefix => (prefix, binding)) <$>
    sort_strings (List.filter (fun n => snd n =s? binding) (map_to_list d).*1).*1.

Definition valid (t : Ticket) (command cwd : string) (now : Time) : bool :=
  (t_Version t =? ticketVersion)%Z && (t_Command t =s? command) &&
  (t_CWD t =s? CanonicalTicketDir cwd) && Before now (t_ExpiresAt t) &&
  negb (After (t_IssuedAt t) (now + Minute)%Z).

Definition slot_valid (slot : option (option Ticket)) (command cwd : string) (now : Time) : bool :=
  match slot with Some (Some t) => valid t command cwd now | _ => false end.

Definition PeekTicket (d : TicketStore) (command cwd : string) (now : Time) : bool :=
  existsb (fun n => slot_valid (d !! n) command cwd now) (ticketCandidates d command cwd).

(** The loop of [ClaimTicket] over the candidates, listed before the lock was
    taken: a candidate that is gone, or that cannot be removed, is skipped, the others
    are removed, and the first that holds is the claim. *)
Fixpoint claim_loop (removes : string * string -> bool) (d : TicketStore) (candidates : list (string * string))
    (command cwd : string) (now : Time) : option ((string * string) * Ticket) * TicketStore :=
  match candidates with
  | [] => (None, d)
  | n :: rest =>
      match d !! n with
      | None => claim_loop removes d rest command cwd now
      | Some slot =>
          if negb (removes n) then claim_loop removes d rest command cwd now
          else
            match slot with
            | Some t => if valid t command cwd now then (Some (n, t), delete n d)
                        else claim_loop removes (delete n d) rest command cwd now
            | None => claim_loop removes (delete n d) rest command cwd now
            end
      end
  end.

(** [ClaimTicket]: [listed] is the directory when the candidates were listed,
    [d] the directory once the lock is held, [removes] the tickets whose file can be
    removed. *)
Definition ClaimTicket (removes : string * string -> bool) (listed d : TicketStore) (command cwd : string) (now : Time)
    : option ((string * string) * Ticket) * TicketStore :=
  claim_loop removes d (ticketCandidates listed command cwd) command cwd now.

(** [VoidSessionTickets], every removal succeeding. *)
Definition VoidSessionTickets (d : TicketStore) (sessionID keepCommand keepCWD : string)
    : TicketStore :=
  let keep := if keepCommand <>s? "" then Some (ticket_name sessionID keepCommand keepCWD) else None in
  filter (fun kv => kv.1.1 <> sessionPrefix sessionID \/ Some kv.1 = keep) d.

(** ** Lemmas *)

Lemma claim_loop_spec removes d cands command cwd now res d' :
  claim_loop removes d cands command cwd now = (res, d') ->
  (forall n, d' !! n = d !! n \/ d' !! n = None) /\
  match res with
  | Some (n, t) => d !! n = Some (Some t) /\ valid t command cwd now = true /\ d' !! n = None /\ n ∈ cands
  | None => True
  end.
Proof.
  revert d. induction cands as [|n cands IH]; intros d H; simpl in H.
  { simplify_eq. split; [by left|done]. }
  assert (Hdel : forall m, claim_loop removes m cands command cwd now = (res, d') ->
    (forall i, m !! i = d !! i \/ m !! i = None) ->
    (forall i, d' !! i = d !! i \/ d' !! i = None) /\
    match res with
    | Some (k, t) => d !! k = Some (Some t) /\ valid t command cwd now = true /\ d' !! k = None /\
                     k ∈ n :: cands
    | None => True
    end).
  { intros m Hm Hsub. destruct (IH _ Hm) as [Hrem Hres]. split.
    - intros i. destruct (Hrem i) as [->|?]; [apply Hsub|by right].
    - destruct res as [[k t]|]; [|done].
      destruct Hres as (Hk & Hv & Hd & Hin). destruct (Hsub k) as [Hx|Hx]; [|congruence].
      split_and!; try done; [congruence|]. apply elem_of_cons. by right. }
  assert (Hsubdel : forall i, delete n d !! i = d !! i \/ delete n d !! i = None).
  { intros i. destruct (decide (i = n)) as [->|Hne]; [right; apply lookup_delete_eq|left].
    by apply lookup_delete_ne. }
  destruct (d !! n) as [slot|] eqn:En; [|apply (Hdel d); [done|by left]].
  destruct (removes n); [|apply (Hdel d); [done|by left]]. cbn [negb] in H.
  destruct slot as [t|]; [|by apply (Hdel (delete n d))].
  destruct (valid t command cwd now) eqn:Ev; [|by apply (Hdel (delete n d))].
  simplify_eq. split; [exact Hsubdel|]. split_and!; try done; [apply lookup_delete_eq|]. apply elem_of_cons. by left.
Qed.

(** A candidate that holds and can be removed is enough for a claim. *)
Lemma claim_loop_finds removes d cands command cwd now n t :
  n ∈ cands -> d !! n = Some (Some t) -> removes n = true -> valid t command cwd now = true ->
  is_Some (claim_loop removes d cands command cwd now).1.
Proof.
  revert d. induction cands as [|m cands IH]; intros d Hin Hn Hr Hv; [by apply elem_of_nil in Hin|].
  simpl. destruct (decide (m = n)) as [->|Hne]; [rewrite Hn, Hr, Hv; by eexists|].
  apply elem_of_cons in Hin as [?|Hin]; [done|].
  assert (Hd : delete m d !! n = Some (Some t)) by (by rewrite lookup_delete_ne).
  destruct (d !! m) as [slot|]; [|by apply IH]. destruct (removes m); [|by apply IH]. cbn [negb].
  destruct slot as [u|]; [|by apply IH]. destruct (valid u command cwd now); [by eexists|by apply IH].
Qed.

Lemma elem_of_candidates d command cwd prefix :
  is_Some (d !! (prefix, bindingDigest command cwd)) ->
  (prefix, bindingDigest command cwd) ∈ ticketCandidates d command cwd.
Proof.
  intros [slot Hs]. unfold ticketCandidates. apply list_elem_of_fmap. exists prefix.
  split; [done|]. apply elem_of_sort, list_elem_of_fmap. exists (prefix, bindingDigest command cwd).
  split; [done|]. apply list_elem_of_In, filter_In. split; [|apply String.eqb_refl].
  apply list_elem_of_In, list_elem_of_fmap. exists ((prefix, bindingDigest command cwd), slot).
  split; [done|]. by apply elem_of_map_to_list.
Qed.

Lemma prune_sub d now n : pruneExpiredTickets d now !! n = d !! n \/ pruneExpiredTickets d now !! n = None.
Proof.
  destruct (pruneExpiredTickets d now !! n) as [x|] eqn:E; [|by right]. left.
  apply map_lookup_filter_Some in E as [-> _]. done.
Qed.

(** ** Interleavings *)

Inductive event := Issued (n : string * string) | Claimed (n : string * string) | Quiet.

(** One step of any process on the ticket directory. A claim lists its
    candidates from whatever the directory was at some earlier moment. *)
Inductive step : TicketStore -> event -> TicketStore -> Prop :=
| step_issue d t sessionID now d' :
    IssueTicket true d t sessionID now = (true, d') ->
    step d (Issued (ticket_name sessionID (t_Command t) (CanonicalTicketDir (t_CWD t)))) d'
| step_issue_fails io d t sessionID now d' :
    IssueTicket io d t sessionID now = (false, d') -> step d Quiet d'
| step_claim removes listed d command cwd now n t d' :
    ClaimTicket removes listed d command cwd now = (Some (n, t), d') -> step d (Claimed n) d'
| step_claim_fails removes listed d command cwd now d' :
    ClaimTicket removes listed d command cwd now = (None, d') -> step d Quiet d'
| step_void d sessionID keepCommand keepCWD :
    step d Quiet (VoidSessionTickets d sessionID keepCommand keepCWD)
| step_prune d now : step d Quiet (pruneExpiredTickets d now).

Inductive run : list event -> TicketStore -> Prop :=
| run_start : run [] ∅
| run_step tr d e d' : run tr d -> step d e d' -> run (tr ++ [e]) d'.

Definition is_issue (n : string * string) (e : event) : bool :=
  match e with Issued m => bool_decide (m = n) | _ => false end.
Definition is_claim (n : string * string) (e : event) : bool :=
  match e with Claimed m => bool_decide (m = n) | _ => false end.
Definition count (p : event -> bool) (tr : list event) : nat := length (List.filter p tr).

Definition present (d : TicketStore) (n : string * string) : nat :=
  match d !! n with Some _ => 1 | None => 0 end.

Lemma count_snoc p tr e : count p (tr ++ [e]) = (count p tr + (if p e then 1 else 0))%nat.
Proof. unfold count. rewrite List.filter_app, length_app. simpl. by destruct (p e). Qed.

Lemma present_sub (d d' : TicketStore) n :
  d' !! n = d !! n \/ d' !! n = None -> (present d' n <= present d n)%nat.
Proof. unfold present. intros [-> | ->]; [done|]. destruct (d !! n); lia. Qed.

Lemma claims_paid tr d n :
  run tr d -> (count (is_claim n) tr + present d n <= count (is_issue n) tr)%nat.
Proof.
  induction 1 as [|tr d e d' Hrun IH Hstep]; [unfold present; rewrite lookup_empty; simpl; lia|].
  rewrite !count_snoc. destruct Hstep; simpl.
  - unfold IssueTicket in H. case_match; [done|]. simplify_eq. simpl.
    case_bool_decide as E.
    + rewrite E. unfold present. rewrite lookup_insert_eq. lia.
    + unfold present at 1. rewrite lookup_insert_ne by done.
      pose proof (present_sub _ _ n (prune_sub d now n)). unfold present in *. lia.
  - assert (Hs : d' !! n = d !! n \/ d' !! n = None).
    { unfold IssueTicket in H. case_match; [simplify_eq; by left|].
      destruct io; simplify_eq. apply prune_sub. }
    pose proof (present_sub _ _ n Hs). lia.
  - apply claim_loop_spec in H as [Hrem (Hn & _ & Hd & _)].
    case_bool_decide as E; [subst; unfold present in *; rewrite Hn in IH; rewrite Hd; lia|].
    pose proof (present_sub _ _ n (Hrem n)). lia.
  - apply claim_loop_spec in H as [Hrem _]. pose proof (present_sub _ _ n (Hrem n)). lia.
  - assert (Hs : VoidSessionTickets d sessionID keepCommand keepCWD !! n = d !! n \/
                 VoidSessionTickets d sessionID keepCommand keepCWD !! n = None).
    { destruct (VoidSessionTickets _ _ _ _ !! n) as [x|] eqn:E; [|by right]. left.
      unfold VoidSessionTickets in E. apply map_lookup_filter_Some in E as [-> _]. done. }
    pose proof (present_sub _ _ n Hs). lia.
  - pose proof (present_sub _ _ n (prune_sub d now n)). lia.
Qed.

End Tickets.

(** ** Properties *)

Definition demo_hash (command dir : string) : string := command +:+ "|" +:+ dir.
Definition demo_digest (sessionID : string) : string := sessionID +:+ "----------------".

Definition demo_ticket : Ticket :=
  {| t_Version := 0; t_Command := "guardrail night off"; t_CWD := "/w/repo"; t_RepoRoot := "/w/repo";
     t_Plane := "claude"; t_Action := "night-off"; t_SessionDigest := ""; t_IssuedAt := 0%Z;
     t_ExpiresAt := 0%Z |}.

Definition demo_issued : TicketStore :=
  (IssueTicket demo_fs "/" demo_digest demo_hash true ∅ demo_ticket "s1" 100%Z).2.

(** C20: over any interleaving of issuing, claiming, voiding and pruning, with
    claimants working from stale listings of the directory, a ticket is
    claimed at most as often as it was issued: one approval runs one command. *)
Theorem ticket_spent_once fs wd sessionDigest binding_hash tr d n :
  run fs wd sessionDigest binding_hash tr d ->
  (count (is_claim n) tr <= count (is_issue n) tr)%nat.
Proof. intros H%(claims_paid _ _ _ _ _ _ n). lia. Qed.

Lemma ticket_spent_once_witness :
  exists n, (count (is_claim n) [Issued n; Claimed n; Quiet] <= count (is_issue n) [Issued n; Claimed n; Quiet])%nat.
Proof.
  pose (n := ticket_name demo_fs "/" demo_digest demo_hash "s1" "guardrail night off" (CanonicalTicketDir demo_fs "/" "/w/repo")).
  pose (claim d := ClaimTicket demo_fs "/" demo_hash (fun _ => true) demo_issued d "guardrail night off" "/w/repo" 200%Z).
  exists n. apply (ticket_spent_once demo_fs "/" demo_digest demo_hash _ (claim (claim demo_issued).2).2).
  apply (run_step _ _ _ _ [Issued n; Claimed n] (claim demo_issued).2).
  - apply (run_step _ _ _ _ [Issued n] demo_issued).
    + apply (run_step _ _ _ _ [] ∅); [constructor|].
      apply (step_issue _ _ _ _ ∅ demo_ticket "s1" 100%Z). apply injective_projections; reflexivity.
    + eapply (step_claim _ _ _ _ (fun _ => true) demo_issued demo_issued "guardrail night off" "/w/repo" 200%Z).
      apply injective_projections; [vm_compute; reflexivity|reflexivity].
  - eapply (step_claim_fails _ _ _ _ (fun _ => true) demo_issued _ "guardrail night off" "/w/repo" 200%Z).
    apply injective_projections; [vm_compute; reflexivity|reflexivity].
Defined.

(** A ticket the hook issued lets the very command it names run in the
    directory it names within ten minutes, the claim binds exactly that
    command and directory, and the claimed file is gone. *)
Theorem ticket_issue_claim fs wd sessionDigest binding_hash d d' t sessionID now later :
  (forall dir, CanonicalTicketDir fs wd (CanonicalTicketDir fs wd dir) = CanonicalTicketDir fs wd dir) ->
  IssueTicket fs wd sessionDigest binding_hash true d t sessionID now = (true, d') ->
  (now <= later < now + TicketTTL)%Z ->
  exists n t' d'',
    ClaimTicket fs wd binding_hash (fun _ => true) d' d' (t_Command t) (t_CWD t) later = (Some (n, t'), d'') /\
    t_Command t' = t_Command t /\ t_CWD t' = CanonicalTicketDir fs wd (t_CWD t) /\
    (later < t_ExpiresAt t')%Z /\ d'' !! n = None.
Proof.
  intros Hcan Hissue Hlater. unfold IssueTicket in Hissue. case_match eqn:Eg; [done|].
  injection Hissue as <-. breflect.
  set (cwd := CanonicalTicketDir fs wd (t_CWD t)). simpl.
  set (t1 := {| t_Version := _ |}).
  set (d' := <[_ := Some t1]> _).
  set (n := (sessionPrefix sessionDigest sessionID,
             bindingDigest fs wd binding_hash (t_Command t) (t_CWD t))).
  assert (Hb : ticket_name fs wd sessionDigest binding_hash sessionID (t_Command t) cwd = n).
  { unfold ticket_name, n, bindingDigest, cwd. by rewrite Hcan. }
  assert (Hd : d' !! n = Some (Some t1)) by (unfold d'; rewrite Hb; apply lookup_insert_eq).
  assert (Hv : valid fs wd t1 (t_Command t) (t_CWD t) later = true).
  { unfold valid, t1. simpl. rewrite !String.eqb_refl. simpl. unfold Before, After.
    replace (Z.ltb later (now + TicketTTL)) with true by (symmetry; apply Z.ltb_lt; lia). simpl.
    apply negb_true_iff, Z.ltb_ge. unfold Minute, Second. lia. }
  pose proof (elem_of_candidates fs wd binding_hash d' (t_Command t) (t_CWD t)
    (sessionPrefix sessionDigest sessionID)) as Hin. fold n in Hin.
  destruct (claim_loop_finds fs wd (fun _ => true) d' _ _ _ _ n t1 (Hin ltac:(rewrite Hd; by eexists)) Hd eq_refl Hv)
    as [[m t'] Hm].
  unfold ClaimTicket.
  destruct (claim_loop fs wd (fun _ => true) d' _ (t_Command t) (t_CWD t) later) as [res d''] eqn:Ec.
  simpl in Hm. subst res. apply claim_loop_spec in Ec as [_ (_ & Hv' & Hgone & _)].
  exists m, t', d''. unfold valid in Hv'. breflect. unfold Before in *. breflect. done.
Qed.

Lemma demo_canonical dir :
  CanonicalTicketDir demo_fs "/" (CanonicalTicketDir demo_fs "/" dir) = CanonicalTicketDir demo_fs "/" dir.
Proof.
  assert (Habs : IsAbs (Abs "/" dir) = true).
  { unfold Abs. destruct (IsAbs dir) eqn:E; [by rewrite IsAbs_Clean|].
    unfold JoinPath.
    replace (List.filter _ ["/"; dir]) with (if dir =s? "" then ["/"] else ["/"; dir])
      by (simpl; by destruct (dir =s? "")).
    destruct (dir =s? ""); by rewrite IsAbs_Clean. }
  revert Habs. unfold CanonicalTicketDir. simpl. generalize (Abs "/" dir). intros a Habs.
  unfold Abs. rewrite IsAbs_Clean, Habs. by rewrite !Clean_Clean.
Qed.

Lemma ticket_issue_claim_witness :
  exists n t' d'',
    ClaimTicket demo_fs "/" demo_hash (fun _ => true) demo_issued demo_issued "guardrail night off" "/w/repo" 200%Z
      = (Some (n, t'), d'') /\
    t_Command t' = "guardrail night off" /\
    t_CWD t' = CanonicalTicketDir demo_fs "/" "/w/repo" /\ (200 < t_ExpiresAt t')%Z /\ d'' !! n = None.
Proof.
  apply (ticket_issue_claim demo_fs "/" demo_digest demo_hash ∅ demo_issued demo_ticket "s1" 100%Z 200%Z).
  - apply demo_canonical.
  - apply injective_projections; reflexivity.
  - unfold TicketTTL, Minute, Second. lia.
Defined.

(** The session's next other call voids its approvals: afterwards no
    ticket of the session is left but the one of the command being asked
    again, and no other session's ticket is touched. *)
Theorem void_session_tickets fs wd sessionDigest binding_hash d sessionID keepCommand keepCWD n :
  let d' := VoidSessionTickets fs wd sessionDigest binding_hash d sessionID keepCommand keepCWD in
  (n.1 = sessionPrefix sessionDigest sessionID ->
   is_Some (d' !! n) ->
   keepCommand <> "" /\ n.2 = bindingDigest fs wd binding_hash keepCommand keepCWD) /\
  (n.1 <> sessionPrefix sessionDigest sessionID -> d' !! n = d !! n).
Proof.
  simpl. unfold VoidSessionTickets. split.
  - intros Hp [slot [Hl [Hne|Hk]]%map_lookup_filter_Some]; [done|]. simpl in Hk.
    destruct (keepCommand =s? "") eqn:E; simpl in Hk; [done|]. breflect.
    split; [done|]. unfold ticket_name in Hk. injection Hk as Hk. by rewrite Hk.
  - intros Hp. destruct (d !! n) as [slot|] eqn:E.
    + apply map_lookup_filter_Some. split; [done|]. by left.
    + apply map_lookup_filter_None. by left.
Qed.

End Tickets.
