(* ===== verification/Broker.v ===== *)
(** * The approval broker ([internal/approval/broker.go])

    Requests the operator decides: filed as pending, approved by a scope that
    matches, executed by a registered handler, and completed. Every operation
    is one session transaction on the broker's own session state. *)

From Stdlib Require Import ZArith Lia Bool.
From S2P Require Import Prelude GoStrings GoPath Policy Merge Engine OperatorAction Session ActionGrant.

Open Scope string_scope.
Open Scope list_scope.

Module Broker.

Definition requestTTL : Duration := (15 * Minute)%Z.
Definition maxRequests : nat := 128.

(** [type Scope string] *)
Definition AllowScope : string := "allow".
Definition OnceScope : string := "once".
Definition RepoScope : string := "repo".
Definition GlobalScope : string := "global".
Definition DenyScope : string := "deny".

Inductive BrokerError :=
| ErrNotFound | ErrConsumed | ErrExpired | ErrScope | ErrMalformed
| NoIdentity | StoreFull | IdentityCollision | TransactionFailed | TransactionCommitted | ActionNotCompleted.

Record Request := {
  b_ID : string;
  b_Plane : string;
  b_SessionID : string;
  b_RepoRoot : string;
  b_Host : string;
  b_Scope : string;
  b_Reason : string;
  b_Action : string;
  b_Parameters : gmap string string;
  b_IssuedAt : Time;
  b_ExpiresAt : Time;
  b_Status : string;
  b_Transport : string;
  b_CredentialFingerprint : string;
  b_ApprovalURL : string;
}.

(** The broker's part of the session state. *)
Notation Requests := (gmap string ApprovalRequest).

(** ** Validation *)

(** [planeSet(list, within)]: the planes of the list, as a list; [within] is
    nil for [None]. *)
Definition planeSet (l : string) (within : option (list string)) : option (list string) :=
  if l =s? "" then None
  else
    let planes := Split l "," in
    if forallb (fun p => in_list p ["claude"; "opencode"; "antigravity"; "codex"] &&
                         match within with Some w => in_list p w | None => true end) planes
    then Some planes else None.

Definition validPlaneList (action : string) (params : gmap string string) : bool :=
  match planeSet (param params "planes") None with
  | None => false
  | Some planes =>
      forallb (fun '(key, value) =>
        if key =s? "planes" then true
        else if key =s? "reconcile_ownership" then
          (action =s? "plane-enable") && bool_decide (is_Some (planeSet value (Some planes)))
        else if key =s? "prune_floor" then
          (action =s? "plane-enable") &&
          match planeSet value (Some planes) with
          | None => false
          | Some subset => forallb (fun p => (p =s? "claude") || (p =s? "opencode")) subset
          end
        else false) (map_to_list params)
  end.

Definition validWebHostParameters (r : Request) : bool :=
  let p := b_Parameters r in
  (size p =? 2)%nat && ((param p "scope" =s? "repo") || (param p "scope" =s? "global")) &&
  (param p "scope" =s? b_Scope r) && (param p "hosts" <>s? "") &&
  forallb ValidateWebHost (Split (param p "hosts") ",").

Definition validRecoverRepair (params : gmap string string) : bool :=
  (size params =? 1)%nat &&
  in_list (param params "repair") ["claude-settings"; "opencode-config"; "antigravity-hooks"].

Definition known_action (a : string) : bool :=
  in_list a [""; "night-on"; "night-off"; "web-host-grant"; "web-host-revoke"; "plane-enable";
             "plane-disable"; "recover"; "web-research-set"; "exact-action-grant"].

Section Validate.

(** [actiongrant.Store.Read] on the operator's action store. *)
Context (read_action : string -> option ActionGrant.Request).

Definition valid_exact_action (r : Request) : bool :=
  let p := b_Parameters r in
  (b_Plane r =s? "operator") && (b_Scope r =s? OnceScope) && (b_Host r =s? "") && (size p =? 2)%nat &&
  match read_action (param p "record") with
  | None => false
  | Some pending =>
      (ActionGrant.rq_Status pending =s? "pending") &&
      (ActionGrant.rq_Digest pending =s? param p "digest") &&
      (ActionGrant.ac_Repo (ActionGrant.rq_Action pending) =s? b_RepoRoot r) &&
      negb (IsZero (b_ExpiresAt r)) && negb (After (b_ExpiresAt r) (ActionGrant.rq_Expires pending))
  end.

(** [validateRequest(r) == nil] *)
Definition validateRequest (r : Request) : bool :=
  let p := b_Parameters r in
  let action := b_Action r in
  if (b_Plane r =s? "") || (b_SessionID r =s? "") || negb (IsAbs (b_RepoRoot r)) ||
     (b_Scope r =s? "") || (b_Reason r =s? "") then false
  else if (b_Host r <>s? "") && negb (ValidateWebHost (b_Host r)) then false
  else if negb (known_action action) then false
  else if (action =s? "exact-action-grant") && negb (valid_exact_action r) then false
  else if (action =s? "night-on") && (negb (size p =? 1)%nat || (param p "until" =s? "")) then false
  else if ((action =s? "web-host-grant") || (action =s? "web-host-revoke")) &&
          negb (validWebHostParameters r) then false
  else if ((action =s? "plane-enable") || (action =s? "plane-disable")) &&
          negb (validPlaneList action p) then false
  else if (action =s? "recover") && negb (validRecoverRepair p) then false
  else if (action =s? "web-research-set") &&
          ((b_Plane r <>s? "operator") || (b_Scope r <>s? GlobalScope) || (b_Host r <>s? "") ||
           negb (size p =? 1)%nat ||
           ((param p "enforcement" <>s? "on") && (param p "enforcement" <>s? "off"))) then false
  else true.

End Validate.

(** ** What is stored *)

(** [if value := r.Parameters[key]; value != "" { params[key] = value }] *)
Definition keep_param (p : gmap string string) (key : string) (out : gmap string string)
    : gmap string string :=
  if param p key =s? "" then out else <[key := param p key]> out.

Definition durable_params (r : Request) : gmap string string :=
  let p := b_Parameters r in
  let a := b_Action r in
  let out : gmap string string := ∅ in
  let out := if a =s? "exact-action-grant"
             then <["digest" := param p "digest"]> (<["record" := param p "record"]> out) else out in
  let out := if a =s? "web-research-set"
             then <["enforcement" := param p "enforcement"]> out else out in
  let out := if a =s? "night-on" then keep_param p "expires_at" out else out in
  let out := if (a =s? "web-host-grant") || (a =s? "web-host-revoke")
             then <["hosts" := param p "hosts"]> (<["scope" := b_Scope r]> out) else out in
  let out := if a =s? "recover" then <["repair" := param p "repair"]> out else out in
  let out := if (a =s? "plane-enable") || (a =s? "plane-disable")
             then keep_param p "prune_floor"
                    (keep_param p "reconcile_ownership" (<["planes" := param p "planes"]> out))
             else out in
  if a =s? "recover" then <["repair" := param p "repair"]> out else out.

Definition durable (digest : string -> string) (r : Request) : ApprovalRequest :=
  {| ar_ID := b_ID r; ar_Plane := b_Plane r; ar_SessionDigest := digest (b_SessionID r);
     ar_RepoRoot := Clean (b_RepoRoot r); ar_Host := b_Host r; ar_Scope := b_Scope r;
     ar_ReasonDigest := digest (b_Reason r); ar_Action := b_Action r;
     ar_Parameters := durable_params r; ar_IssuedAt := b_IssuedAt r; ar_ExpiresAt := b_ExpiresAt r;
     ar_Status := b_Status r |}.

Definition restore (r : ApprovalRequest) : Request :=
  {| b_ID := ar_ID r; b_Plane := ar_Plane r; b_SessionID := ""; b_RepoRoot := ar_RepoRoot r;
     b_Host := ar_Host r; b_Scope := ar_Scope r; b_Reason := "operator action request";
     b_Action := ar_Action r; b_Parameters := ar_Parameters r; b_IssuedAt := ar_IssuedAt r;
     b_ExpiresAt := ar_ExpiresAt r; b_Status := ar_Status r; b_Transport := "";
     b_CredentialFingerprint := ""; b_ApprovalURL := "" |}.

Definition set_status (r : ApprovalRequest) (status : string) : ApprovalRequest :=
  {| ar_ID := ar_ID r; ar_Plane := ar_Plane r; ar_SessionDigest := ar_SessionDigest r;
     ar_RepoRoot := ar_RepoRoot r; ar_Host := ar_Host r; ar_Scope := ar_Scope r;
     ar_ReasonDigest := ar_ReasonDigest r; ar_Action := ar_Action r;
     ar_Parameters := ar_Parameters r; ar_IssuedAt := ar_IssuedAt r; ar_ExpiresAt := ar_ExpiresAt r;
     ar_Status := status |}.

(** [prune]: marks what has expired; it removes nothing. *)
Definition prune_one (now : Time) (r : ApprovalRequest) : ApprovalRequest :=
  if (ar_Status r =s? "pending") && negb (After (ar_ExpiresAt r) now) then set_status r "expired" else r.
Definition prune (m : Requests) (now : Time) : Requests := prune_one now <$> m.

(** How the host ends a transaction whose callback did not fail: the state is stored and
    the lock released; stored, with [ErrTransactionCommitted], as the lock could not be
    released; or not stored. *)
Inductive TxEnd := Persisted | Unreleased | NotPersisted.

#[local] Instance TxEnd_eq_dec : EqDecision TxEnd.
Proof. solve_decision. Defined.

(** [session.Transaction] around a callback: an error of the callback, or one before the
    state is stored, leaves the stored requests as they were; one after it does not. *)
Definition transact {A} (io : TxEnd) (m : Requests) (cb : Requests -> result BrokerError (A * Requests))
    : result BrokerError A * Requests :=
  match cb m with
  | Err e => (Err e, m)
  | Ok (a, m') =>
      match io with
      | Persisted => (Ok a, m')
      | Unreleased => (Err TransactionCommitted, m')
      | NotPersisted => (Err TransactionFailed, m)
      end
  end.

(** ** Operations *)

Section Operations.

Context (read_action : string -> option ActionGrant.Request).
(** [canonicalNightExpiry] in the local time zone. *)
Context (canonicalNightExpiry : string -> Time -> option string).
(** SHA-256 in hexadecimal. *)
Context (digest : string -> string).

(** What [Create] makes of a valid request before the transaction. *)
Definition prepare (r : Request) (now : Time) (fresh : option string) : result BrokerError Request :=
  if negb (validateRequest read_action r) then Err ErrMalformed
  else
    match (if b_Action r =s? "night-on"
           then match canonicalNightExpiry (param (b_Parameters r) "until") now with
                | Some e => Some {["expires_at" := e]}
                | None => None
                end
           else Some (b_Parameters r)) with
    | None => Err ErrMalformed
    | Some params =>
        match (if b_ID r =s? "" then fresh else Some (b_ID r)) with
        | None => Err NoIdentity
        | Some id =>
            if negb (IsZero (b_ExpiresAt r)) && After (b_ExpiresAt r) (now + requestTTL)%Z
            then Err ErrMalformed
            else
              Ok {| b_ID := id; b_Plane := b_Plane r; b_SessionID := b_SessionID r;
                    b_RepoRoot := b_RepoRoot r; b_Host := b_Host r; b_Scope := b_Scope r;
                    b_Reason := b_Reason r; b_Action := b_Action r; b_Parameters := params;
                    b_IssuedAt := now;
                    b_ExpiresAt := if IsZero (b_ExpiresAt r) then (now + requestTTL)%Z
                                   else b_ExpiresAt r;
                    b_Status := "pending"; b_Transport := b_Transport r;
                    b_CredentialFingerprint := b_CredentialFingerprint r;
                    b_ApprovalURL := b_ApprovalURL r |}
        end
    end.

(** [Create]; [now] and [later] are the two readings of the clock, [fresh] what
    [randomID] gives. *)
Definition Create (io : TxEnd) (m : Requests) (r : Request) (now later : Time) (fresh : option string)
    : result BrokerError Request * Requests :=
  match prepare r now fresh with
  | Err e => (Err e, m)
  | Ok r =>
      transact io m (fun m =>
        let m := prune m later in
        if (maxRequests <=? size m)%nat then Err StoreFull
        else if bool_decide (is_Some (m !! b_ID r)) then Err IdentityCollision
        else Ok (r, <[b_ID r := durable digest r]> m))
  end.

(** [Broker.Request] *)
Definition Lookup (io : TxEnd) (m : Requests) (id : string) (now : Time)
    : result BrokerError Request * Requests :=
  transact io m (fun m =>
    let m := prune m now in
    match m !! id with
    | None => Err ErrNotFound
    | Some r => Ok (restore r, m)
    end).

(** [hasPending] ignores the transaction's error; [ran] says whether the
    callback was reached. *)
Definition hasPending (ran : bool) (io : TxEnd) (m : Requests) (now : Time) : bool * Requests :=
  let m' := prune m now in
  (ran && existsb (fun kv => in_list (ar_Status (snd kv)) ["pending"; "executing"]) (map_to_list m'),
   if ran && negb (bool_decide (io = NotPersisted)) then m' else m).

Definition recover_one (r : ApprovalRequest) : ApprovalRequest :=
  if ar_Status r =s? "executing" then set_status r "pending" else r.

Definition recoverInterruptedActions (io : TxEnd) (m : Requests) (now : Time)
    : result BrokerError unit * Requests :=
  transact io m (fun m => Ok (tt, recover_one <$> prune m now)).

Definition pending (m : Requests) (id scope : string) (now : Time)
    : result BrokerError ApprovalRequest :=
  match m !! id with
  | None => Err ErrNotFound
  | Some r =>
      if ar_Status r <>s? "pending" then Err ErrConsumed
      else if negb (After (ar_ExpiresAt r) now) then Err ErrExpired
      else if ar_Scope r <>s? scope then Err ErrScope
      else Ok r
  end.

(** The first transaction of [Approve]: what the handler will be given. *)
Definition begin_approve (io : TxEnd) (m : Requests) (id scope : string) (now : Time)
    : result BrokerError Request * Requests :=
  transact io m (fun m =>
    match pending m id scope now with
    | Err e => Err e
    | Ok r => Ok (restore (set_status r "executing"), <[id := set_status r "executing"]> m)
    end).

Definition transition (io : TxEnd) (m : Requests) (id status : string)
    : result BrokerError unit * Requests :=
  transact io m (fun m =>
    match m !! id with
    | None => Err ErrNotFound
    | Some r =>
        if (ar_Status r <>s? "pending") && (ar_Status r <>s? "executing") then Err ErrConsumed
        else Ok (tt, <[id := set_status r status]> m)
    end).

Definition Deny (io : TxEnd) (m : Requests) (id : string) := transition io m id "denied".
Definition Expire (io : TxEnd) (m : Requests) (id : string) := transition io m id "expired".
Definition complete (io : TxEnd) (m : Requests) (id status : string) := transition io m id status.

(** The end of [Approve], once the handler has run: [handled] is [None] when no
    handler is registered, else whether it succeeded. *)
Definition finish_approve (io : TxEnd) (m : Requests) (id : string) (r : Request)
    (handled : option bool) : result BrokerError unit * Requests :=
  if b_Action r =s? "" then complete io m id "approved"
  else
    match handled with
    | Some true => complete io m id "completed"
    | _ => (Err ActionNotCompleted, (complete io m id "denied").2)
    end.

(** [Approve] when nothing else touches the store meanwhile; [io] and [io'] end its two
    transactions. *)
Definition Approve (io io' : TxEnd) (m : Requests) (id scope : string) (now : Time)
    (handler : Request -> option bool) : result BrokerError unit * Requests :=
  match begin_approve io m id scope now with
  | (Err e, m') => (Err e, m')
  | (Ok r, m') => finish_approve io' m' id r (handler r)
  end.

(** [Pending]: the pending requests, oldest first. *)
Fixpoint insert_by_age (r : Request) (l : list Request) : list Request :=
  match l with
  | [] => [r]
  | x :: rest => if Before (b_IssuedAt x) (b_IssuedAt r) then x :: insert_by_age r rest else r :: l
  end.

Definition Pending (io : TxEnd) (m : Requests) (now : Time)
    : result BrokerError (list Request) * Requests :=
  transact io m (fun m =>
    let m := prune m now in
    Ok (foldr insert_by_age []
          (List.map (fun kv => restore (snd kv))
             (List.filter (fun kv => ar_Status (snd kv) =s? "pending") (map_to_list m))), m)).

End Operations.

(** ** Lemmas *)

Section Lemmas.

Context (read_action : string -> option ActionGrant.Request).
Context (canonicalNightExpiry : string -> Time -> option string).
Context (digest : string -> string).

Lemma transact_inv {A} io m (cb : Requests -> result BrokerError (A * Requests)) res m' :
  transact io m cb = (res, m') ->
  (m' = m /\ (forall a, res <> Ok a)) \/
  (exists a, (res = Ok a \/ res = Err TransactionCommitted) /\ cb m = Ok (a, m')).
Proof.
  unfold transact. destruct (cb m) as [[a m1]|e] eqn:E; [destruct io|]; intros; simplify_eq; eauto.
Qed.

(** What beginning an approval leaves. *)
Lemma begin_approve_inv io m id scope now r m' :
  begin_approve io m id scope now = (Ok r, m') ->
  exists x, m !! id = Some x /\ ar_Status x = "pending" /\ (now < ar_ExpiresAt x)%Z /\
    ar_Scope x = scope /\ r = restore (set_status x "executing") /\
    m' = <[id := set_status x "executing"]> m.
Proof.
  unfold begin_approve. intros [[_ H]|(a & [E|E] & H)]%transact_inv; [by exfalso; eapply H| |done].
  injection E as <-.
  unfold pending in H. destruct (m !! id) as [x|]; [|done]. exists x.
  destruct (ar_Status x =s? "pending") eqn:E1; [|done]. unfold After in H.
  destruct (now <? ar_ExpiresAt x)%Z eqn:E2; [|done].
  destruct (ar_Scope x =s? scope) eqn:E3; [|done]. simpl in H. injection H as <- <-. by breflect.
Qed.

Definition final (status : string) : bool :=
  in_list status ["approved"; "completed"; "denied"; "expired"].

Lemma prune_lookup m now id r :
  m !! id = Some r -> prune m now !! id = Some (prune_one now r).
Proof. intros H. unfold prune. by rewrite lookup_fmap, H. Qed.

Lemma final_not_live s : final s = true -> s <> "pending" /\ s <> "executing".
Proof. intros H. split; intros ->; by vm_compute in H. Qed.

Lemma prune_one_final now r : final (ar_Status r) = true -> prune_one now r = r.
Proof.
  intros [H _]%final_not_live. unfold prune_one. apply String.eqb_neq in H. by rewrite H.
Qed.

(** ** Interleavings *)

Inductive event := Began (id : string) | Recovered | Quiet.

#[local] Instance event_eq_dec : EqDecision event.
Proof. solve_decision. Defined.

(** One transaction of any process on the broker's store. *)
Inductive step : Requests -> event -> Requests -> Prop :=
| step_create io m r now later fresh res m' :
    Create read_action canonicalNightExpiry digest io m r now later fresh = (res, m') ->
    step m Quiet m'
| step_lookup io m id now res m' : Lookup io m id now = (res, m') -> step m Quiet m'
| step_has_pending ran io m now res m' : hasPending ran io m now = (res, m') -> step m Quiet m'
| step_pending io m now res m' : Pending io m now = (res, m') -> step m Quiet m'
| step_recover io m now res m' :
    recoverInterruptedActions io m now = (res, m') -> step m Recovered m'
| step_begin io m id scope now r m' :
    begin_approve io m id scope now = (Ok r, m') -> step m (Began id) m'
| step_begin_fails io m id scope now e m' :
    begin_approve io m id scope now = (Err e, m') -> step m Quiet m'
| step_transition io m id status res m' :
    final status = true -> transition io m id status = (res, m') -> step m Quiet m'.

Inductive steps : Requests -> list event -> Requests -> Prop :=
| steps_nil m : steps m [] m
| steps_cons m e m1 tr m' : step m e m1 -> steps m1 tr m' -> steps m (e :: tr) m'.

(** What a transaction may make of one record: a settled one stays as it is, and
    only recovery, which [e <> Recovered] excludes, makes one pending again. *)
Definition evolves (r r' : ApprovalRequest) : Prop :=
  (final (ar_Status r) = true -> r' = r) /\
  (ar_Status r <> "pending" -> ar_Status r' <> "pending").

Lemma evolves_refl r : evolves r r.
Proof. done. Qed.

Lemma prune_evolves (m : Requests) now id r :
  m !! id = Some r -> exists r', prune m now !! id = Some r' /\ evolves r r'.
Proof.
  intros Hr. exists (prune_one now r). split; [by apply prune_lookup|].
  split; [apply prune_one_final|]. intros Hp. unfold prune_one. apply String.eqb_neq in Hp as E.
  by rewrite E.
Qed.

Lemma set_status_evolves (m : Requests) id r i x status :
  m !! id = Some r -> m !! i = Some x -> final (ar_Status x) = false ->
  (ar_Status x <> "pending" -> status <> "pending") ->
  exists r', <[i := set_status x status]> m !! id = Some r' /\ evolves r r'.
Proof.
  intros Hr Hx Hf Hs. destruct (decide (i = id)) as [->|Hne].
  - rewrite lookup_insert_eq. eexists. split; [done|]. simplify_eq. split; [|done]. by rewrite Hf.
  - rewrite lookup_insert_ne by done. eauto using evolves_refl.
Qed.

(** A recovery after a prune leaves a settled record alone. *)
Lemma recover_keeps r r' :
  evolves r r' -> final (ar_Status r) = true -> recover_one r' = r.
Proof.
  intros [Hf _] Hfin. rewrite Hf by done. apply final_not_live in Hfin as [_ Hx].
  unfold recover_one. apply String.eqb_neq in Hx. by rewrite Hx.
Qed.

#[local] Hint Resolve evolves_refl prune_evolves set_status_evolves : core.

(** Every transaction but recovery. *)
Lemma step_evolves m e m' id r :
  step m e m' -> e <> Recovered -> m !! id = Some r -> exists r', m' !! id = Some r' /\ evolves r r'.
Proof.
  intros Hstep He Hr. destruct Hstep; try done; unfold Lookup, Pending, hasPending, begin_approve in H.
  - unfold Create in H. destruct (prepare _ _ _ _ _) as [r1|]; [|simplify_eq; eauto].
    apply transact_inv in H as [[-> _]|(a & _ & H)]; [eauto|].
    destruct (maxRequests <=? size (prune m later))%nat; [done|].
    case_bool_decide as E; [done|]. injection H as _ <-.
    destruct (prune_evolves m later id r Hr) as (r' & Hr' & Hrest). exists r'. split; [|done].
    rewrite lookup_insert_ne; [done|]. intros Heq. apply E. rewrite Heq. by eexists.
  - apply transact_inv in H as [[-> _]|(a & _ & H)]; [eauto|]. cbn zeta in H.
    destruct (prune m now !! id0); simplify_eq. eauto.
  - injection H as _ <-. destruct (ran && _); eauto.
  - apply transact_inv in H as [[-> _]|(a & _ & H)]; [eauto|]. cbn zeta in H.
    injection H as _ <-. eauto.
  - apply begin_approve_inv in H as (x & Ex & Es & _ & _ & _ & ->).
    eapply set_status_evolves; [done|done|by rewrite Es|discriminate].
  - apply transact_inv in H as [[-> _]|(a & _ & H)]; [eauto|].
    unfold pending in H. destruct (m !! id0) as [x|] eqn:Ex; [|done]. destruct (ar_Status x =s? "pending") eqn:Es; [|done].
    breflect. destruct (After _ _); [|done]. destruct (ar_Scope x =s? scope); [|done]. injection H as _ <-.
    eapply set_status_evolves; [done|done|by rewrite Es|discriminate].
  - unfold transition in H0. apply transact_inv in H0 as [[-> _]|(a & _ & H0)]; [eauto|].
    destruct (m !! id0) as [x|] eqn:Ex; [|done]. case_match eqn:Es; [done|]. injection H0 as _ <-.
    apply andb_false_iff in Es. apply final_not_live in H as [Hn _].
    eapply set_status_evolves; [done|done| |done].
    by destruct Es as [Es|Es]; breflect; rewrite Es.
Qed.

(** What one transaction may do to one record. *)
Lemma step_record m e m' id r :
  step m e m' -> m !! id = Some r ->
  exists r', m' !! id = Some r' /\
    (final (ar_Status r) = true -> r' = r) /\
    (ar_Status r <> "pending" -> e <> Recovered -> ar_Status r' <> "pending").
Proof.
  intros Hstep Hr. destruct (decide (e = Recovered)) as [->|He].
  2: { destruct (step_evolves m e m' id r) as (r' & ? & ? & ?); [done..|]. exists r'. auto. }
  inversion Hstep as [| | | |io m1 now res m2 H| | |]; subst. unfold recoverInterruptedActions in H.
  apply transact_inv in H as [[-> _]|(a & _ & H)]; [eauto|]. injection H as _ <-.
  destruct (prune_evolves m now id r Hr) as (r' & Hr' & Hev). exists (recover_one r').
  rewrite lookup_fmap, Hr'. split; [done|]. split; [by apply recover_keeps|done].
Qed.

Lemma steps_record m tr m' id r :
  steps m tr m' -> m !! id = Some r ->
  exists r', m' !! id = Some r' /\ (final (ar_Status r) = true -> r' = r).
Proof.
  intros H. revert r. induction H as [m|m e m1 tr m' Hs _ IH]; intros r Hr; [eauto|].
  destruct (step_record _ _ _ _ _ Hs Hr) as (r1 & Hr1 & Hf & _).
  destruct (IH _ Hr1) as (r' & Hr' & Hf'). exists r'. split; [done|]. intros Hfin.
  specialize (Hf Hfin). subst r1. by apply Hf'.
Qed.

Lemma step_began_inv m m' id :
  step m (Began id) m' ->
  exists x, m !! id = Some x /\ ar_Status x = "pending" /\ m' = <[id := set_status x "executing"]> m.
Proof.
  remember (Began id) as e eqn:He. intros Hs. destruct Hs; simplify_eq.
  apply begin_approve_inv in H as (x & ? & ? & _ & _ & _ & ->). eauto.
Qed.

Definition is_began (id : string) (e : event) : bool :=
  match e with Began i => i =s? id | _ => false end.

(** A record that is not pending stays so, and is not begun again, while no
    interrupted action is recovered. *)
Lemma not_pending_not_begun m tr m' id r :
  steps m tr m' -> Recovered ∉ tr -> m !! id = Some r -> ar_Status r <> "pending" ->
  List.filter (is_began id) tr = [].
Proof.
  intros H. revert r. induction H as [|m e m1 tr m' Hs _ IH]; intros r Hnr Hr Hp; [done|].
  apply not_elem_of_cons in Hnr as [Hne Hnr].
  destruct (step_record _ _ _ _ _ Hs Hr) as (r1 & Hr1 & _ & Hp1). simpl.
  destruct (is_began id e) eqn:Eb; [|by apply (IH r1); auto].
  exfalso. destruct e as [i| |]; try done. simpl in Eb. breflect. subst i.
  apply step_began_inv in Hs as (x & Hx & Hs & _). congruence.
Qed.

Lemma begun_at_most_once m tr m' id :
  steps m tr m' -> Recovered ∉ tr -> (length (List.filter (is_began id) tr) <= 1)%nat.
Proof.
  induction 1 as [|m e m1 tr m' Hs Hrest IH]; intros Hnr; [simpl; lia|].
  apply not_elem_of_cons in Hnr as [Hne Hnr]. simpl.
  destruct (is_began id e) eqn:Eb; [|by apply IH].
  destruct e as [i| |]; try done. simpl in Eb. breflect. subst i.
  apply step_began_inv in Hs as (x & _ & _ & ->).
  rewrite (not_pending_not_begun _ _ _ id (set_status x "executing") Hrest Hnr); [simpl; lia| |done].
  apply lookup_insert_eq.
Qed.

End Lemmas.

(** ** What the operator approves is what runs *)

Lemma param_Some p k : param p k <> "" -> p !! k = Some (param p k).
Proof. unfold param. by destruct (p !! k). Qed.

Lemma size_one_map (p : gmap string string) k v : size p = 1%nat -> p !! k = Some v -> p = {[k := v]}.
Proof.
  intros Hs Hk. rewrite <- (insert_delete_id p k v Hk).
  assert (Hd : delete k p = ∅); [|by rewrite Hd].
  apply map_size_empty_inv. rewrite map_size_delete_Some by (by eexists). lia.
Qed.

Lemma size_two_map (p : gmap string string) k1 v1 k2 v2 :
  size p = 2%nat -> k1 <> k2 -> p !! k1 = Some v1 -> p !! k2 = Some v2 ->
  p = <[k1 := v1]> {[k2 := v2]}.
Proof.
  intros Hs Hne H1 H2. rewrite <- (insert_delete_id p k1 v1 H1). f_equal.
  apply size_one_map; [|by rewrite lookup_delete_ne].
  rewrite map_size_delete_Some by (by eexists). lia.
Qed.

Lemma planeSet_nonempty l within planes : planeSet l within = Some planes -> l <> "".
Proof. unfold planeSet. by destruct (l =s? "") eqn:E; breflect. Qed.

(** The stored parameters of a plane lifecycle request. *)
Lemma plane_params_kept action p :
  validPlaneList action p = true ->
  keep_param p "prune_floor" (keep_param p "reconcile_ownership" {["planes" := param p "planes"]}) = p.
Proof.
  unfold validPlaneList. destruct (planeSet (param p "planes") None) as [planes|] eqn:Ep; [|done].
  apply planeSet_nonempty in Ep as Hne. rewrite forallb_forall. intros Hall.
  assert (Hkey : forall k v, p !! k = Some v ->
    (k = "planes" \/ k = "reconcile_ownership" \/ k = "prune_floor") /\ v <> "").
  { intros k v Hk. assert (Hin : In (k, v) (map_to_list p)).
    { apply list_elem_of_In. by apply elem_of_map_to_list. }
    specialize (Hall _ Hin). simpl in Hall.
    destruct (k =s? "planes") eqn:E1; breflect.
    { subst k. split; [auto|]. intros ->. unfold param in Hne. by rewrite Hk in Hne. }
    destruct (k =s? "reconcile_ownership") eqn:E2; breflect.
    { split; [auto|]. match goal with H : bool_decide _ = true |- _ =>
        apply bool_decide_eq_true in H as [s Hs] end. by apply planeSet_nonempty in Hs. }
    destruct (k =s? "prune_floor") eqn:E3; [|done]. breflect. split; [auto|].
    destruct (planeSet v (Some planes)) eqn:E4; [|done]. by apply planeSet_nonempty in E4. }
  assert (Hk : forall k (out : gmap string string),
    (p !! k = None -> keep_param p k out = out) /\
    (forall v, p !! k = Some v -> keep_param p k out = <[k := v]> out)).
  { intros k out. unfold keep_param, param. split; [by intros ->|]. intros v Hv. rewrite Hv.
    apply Hkey in Hv as [_ Hv]. apply String.eqb_neq in Hv. by rewrite Hv. }
  apply map_eq. intros i.
  assert (Hout : forall k (out : gmap string string), keep_param p k out !! i =
     if decide (i = k) then (match p !! k with Some v => Some v | None => out !! i end) else out !! i).
  { intros k out. destruct (p !! k) as [v|] eqn:E.
    - rewrite (proj2 (Hk k out) v E). case_decide as D; [subst; apply lookup_insert_eq|].
      by apply lookup_insert_ne.
    - rewrite (proj1 (Hk k out) E). by case_decide. }
  rewrite !Hout, lookup_singleton. repeat case_decide; subst; try done.
  - destruct (p !! "prune_floor"); done.
  - destruct (p !! "reconcile_ownership"); done.
  - symmetry. by apply param_Some.
  - destruct (p !! i) as [v|] eqn:E; [|done]. apply Hkey in E as [[->|[->| ->]] _]; done.
Qed.

Section Kept.
Context (read_action : string -> option ActionGrant.Request).

(** The store reads only records with an identity, and a record's digest is
    never empty. *)
Hypothesis read_action_identified : forall id p,
  read_action id = Some p -> id <> "" /\ ActionGrant.rq_Digest p <> "".

Lemma known_action_cases a :
  known_action a = true -> a ∉ [""; "night-off"; "night-on"] ->
  (a = "web-host-grant" \/ a = "web-host-revoke") \/ (a = "plane-enable" \/ a = "plane-disable") \/
  a = "recover" \/ a = "web-research-set" \/ a = "exact-action-grant".
Proof.
  unfold known_action. intros H Hn. apply in_list_true in H.
  rewrite !elem_of_cons, elem_of_nil in H. rewrite !not_elem_of_cons in Hn. tauto.
Qed.

Lemma web_host_params_kept r :
  validWebHostParameters r = true ->
  <["hosts" := param (b_Parameters r) "hosts"]> {["scope" := b_Scope r]} = b_Parameters r.
Proof.
  unfold validWebHostParameters. intros H. breflect. symmetry.
  assert (Hs : param (b_Parameters r) "scope" <> "").
  { match goal with H : _ || _ = true |- _ => apply orb_true_iff in H as [H|H] end; breflect; congruence. }
  apply size_two_map; [done|done|by apply param_Some|]. rewrite param_Some by done. congruence.
Qed.

Lemma validate_params r :
  validateRequest read_action r = true -> b_Action r ∉ [""; "night-off"; "night-on"] ->
  durable_params r = b_Parameters r.
Proof.
  unfold validateRequest, durable_params. intros H Hn.
  destruct (_ || (b_Reason r =s? "")); [done|].
  destruct ((b_Host r <>s? "") && _); [done|].
  destruct (known_action (b_Action r)) eqn:Hk; [|done]. cbn [negb] in H.
  destruct (known_action_cases _ Hk Hn) as [[Ha|Ha]|[[Ha|Ha]|[Ha|[Ha|Ha]]]];
    rewrite Ha in *; clear Hk Hn; cbn in H |- *.
  1, 2: destruct (validWebHostParameters r) eqn:E; [|done]; by apply web_host_params_kept.
  1, 2: match type of H with context [validPlaneList ?a ?p] =>
          destruct (validPlaneList a p) eqn:E; [|done] end; by eapply plane_params_kept.
  - destruct (validRecoverRepair (b_Parameters r)) eqn:E; [|done].
    unfold validRecoverRepair in E. breflect. rewrite insert_insert_eq. symmetry.
    apply size_one_map; [done|]. apply param_Some. intros E. rewrite E in *. by set_solver.
  - case_match eqn:E; [done|]. breflect. symmetry. apply size_one_map; [done|].
    apply param_Some. intros E'. by rewrite E' in *.
  - destruct (valid_exact_action read_action r) eqn:E; [|done]. unfold valid_exact_action in E.
    breflect. destruct (read_action (param (b_Parameters r) "record")) as [x|] eqn:Er; [|done].
    breflect. destruct (read_action_identified _ _ Er) as [Hid Hdg]. symmetry.
    apply size_two_map; [done|done|apply param_Some; congruence|by apply param_Some].
Qed.

End Kept.

(** ** Properties *)

Definition demo_read (id : string) : option ActionGrant.Request := None.
Definition demo_night (until : string) (now : Time) : option string := Some "2026-01-01T07:00:00Z".
Definition demo_hash (s : string) : string := "#" +:+ s.

Definition demo_request (id : string) : Request :=
  {| b_ID := id; b_Plane := "claude"; b_SessionID := "s1"; b_RepoRoot := "/w/repo"; b_Host := "";
     b_Scope := "repo"; b_Reason := "canonical operator action"; b_Action := "web-host-grant";
     b_Parameters := <["hosts" := "go.dev"]> {["scope" := "repo"]}; b_IssuedAt := 0%Z;
     b_ExpiresAt := 0%Z; b_Status := ""; b_Transport := ""; b_CredentialFingerprint := "";
     b_ApprovalURL := "" |}.

Definition demo_requests : Requests :=
  (Create demo_read demo_night demo_hash Persisted ∅ (demo_request "r1") 10%Z 10%Z None).2.
Definition demo_decided : Requests := (Deny Persisted demo_requests "r1").2.

(** A decided request stays decided: whatever transactions follow, in any
    order and from any process, a record that was approved, completed, denied
    or expired is still there, unchanged. *)
Theorem decided_is_final read_action night digest m tr m' id r :
  steps read_action night digest m tr m' -> m !! id = Some r -> final (ar_Status r) = true ->
  m' !! id = Some r.
Proof.
  intros Hs Hr Hf. destruct (steps_record _ _ _ _ _ _ _ _ Hs Hr) as (r' & Hr' & Heq).
  by rewrite Hr', Heq.
Qed.

Lemma decided_is_final_witness :
  exists r m', demo_decided !! "r1" = Some r /\ final (ar_Status r) = true /\
    steps demo_read demo_night demo_hash demo_decided [Recovered] m' /\ m' !! "r1" = Some r.
Proof.
  exists (set_status (durable demo_hash
    match prepare demo_read demo_night (demo_request "r1") 10%Z None with
    | Ok r => r | Err _ => demo_request "r1" end) "denied").
  exists (recoverInterruptedActions Persisted demo_decided 20%Z).2.
  split; [vm_compute; reflexivity|]. split; [vm_compute; reflexivity|].
  assert (Hsteps : steps demo_read demo_night demo_hash demo_decided [Recovered]
                     (recoverInterruptedActions Persisted demo_decided 20%Z).2).
  { eapply steps_cons; [|constructor]. eapply (step_recover _ _ _ Persisted demo_decided 20%Z).
    apply surjective_pairing. }
  split; [exact Hsteps|].
  apply (decided_is_final demo_read demo_night demo_hash demo_decided [Recovered]);
    [exact Hsteps|vm_compute; reflexivity|vm_compute; reflexivity].
Defined.

(** C21: an approval executes at most once: over any interleaving of
    transactions in which no interrupted action is recovered, the handler of a
    request is started at most one time, and only for a pending, unexpired
    request approved with its own scope. *)
Theorem approval_begun_once read_action night digest m tr m' id :
  steps read_action night digest m tr m' -> Recovered ∉ tr ->
  (length (List.filter (is_began id) tr) <= 1)%nat /\
  (forall io scope now r m1, begin_approve io m id scope now = (Ok r, m1) ->
     exists x, m !! id = Some x /\ ar_Status x = "pending" /\ (now < ar_ExpiresAt x)%Z /\
       ar_Scope x = scope /\ b_Parameters r = ar_Parameters x /\ b_Action r = ar_Action x).
Proof.
  intros Hs Hn. split; [by eapply begun_at_most_once|].
  intros io scope now r m1 (x & ? & ? & ? & ? & -> & _)%begin_approve_inv. by exists x.
Qed.

Lemma approval_begun_once_witness :
  (length (List.filter (is_began "r1") [Began "r1"; Quiet]) <= 1)%nat.
Proof.
  assert (Hsteps : steps demo_read demo_night demo_hash demo_requests [Began "r1"; Quiet]
    (begin_approve Persisted (begin_approve Persisted demo_requests "r1" "repo" 20%Z).2 "r1" "repo" 21%Z).2).
  { eapply steps_cons.
    - eapply (step_begin _ _ _ Persisted demo_requests "r1" "repo" 20%Z).
      apply injective_projections; [vm_compute; reflexivity|reflexivity].
    - eapply steps_cons; [|constructor].
      eapply (step_begin_fails _ _ _ Persisted _ "r1" "repo" 21%Z).
      apply injective_projections; [vm_compute; reflexivity|reflexivity]. }
  apply (approval_begun_once demo_read demo_night demo_hash demo_requests _ _ "r1" Hsteps).
  rewrite !not_elem_of_cons. repeat split; [discriminate|discriminate|apply not_elem_of_nil].
Defined.

(** What the operator approves is what runs: for every action with
    parameters, the request the handler is later given carries exactly the
    parameters that were validated when it was filed, none dropped and none
    added. *)
Theorem approved_parameters_kept read_action night digest r now fresh r' :
  (forall id p, read_action id = Some p -> id <> "" /\ ActionGrant.rq_Digest p <> "") ->
  (forall until now e, night until now = Some e -> e <> "") ->
  prepare read_action night r now fresh = Ok r' -> b_Action r ∉ [""; "night-off"] ->
  b_Parameters (restore (durable digest r')) = b_Parameters r' /\
  (b_Action r <> "night-on" -> b_Parameters r' = b_Parameters r).
Proof.
  intros Hread Hnight Hp Hn. unfold prepare in Hp.
  destruct (validateRequest read_action r) eqn:Ev; [|done]. cbn [negb] in Hp.
  destruct (b_Action r =s? "night-on") eqn:Ea; breflect.
  - destruct (night (param (b_Parameters r) "until") now) as [e|] eqn:En; [|done].
    destruct (if b_ID r =s? "" then fresh else Some (b_ID r)); [|done].
    case_match; [done|]. injection Hp as <-. split; [|done].
    apply Hnight in En. apply String.eqb_neq in En.
    unfold restore, durable, durable_params. simpl. rewrite Ea. simpl.
    unfold keep_param, param. rewrite lookup_singleton_eq. by rewrite En.
  - destruct (if b_ID r =s? "" then fresh else Some (b_ID r)); [|done].
    case_match; [done|]. injection Hp as <-. split; [|done]. simpl.
    change (durable_params _) with (durable_params r). eapply validate_params; [exact Hread|done|].
    rewrite !not_elem_of_cons in *. naive_solver.
Qed.

Lemma approved_parameters_kept_witness :
  b_Parameters (restore (durable demo_hash
    match prepare demo_read demo_night (demo_request "r1") 10%Z None with
    | Ok r => r | Err _ => demo_request "" end)) = <["hosts" := "go.dev"]> {["scope" := "repo"]}.
Proof.
  destruct (approved_parameters_kept demo_read demo_night demo_hash (demo_request "r1") 10%Z None
    match prepare demo_read demo_night (demo_request "r1") 10%Z None with
    | Ok r => r | Err _ => demo_request "" end) as [-> ->].
  - done.
  - intros u t e [= <-]. discriminate.
  - vm_compute; reflexivity.
  - apply in_list_false. vm_compute; reflexivity.
  - reflexivity.
  - discriminate.
Defined.

(** The broker's store never drains: no transaction removes a record,
    decided ones included, so once 128 requests were filed every later one is
    refused, whatever was decided in between. *)
Theorem store_never_drains read_action night digest m tr m' io r now later fresh :
  steps read_action night digest m tr m' -> (maxRequests <= size m)%nat ->
  forall r' m'', Create read_action night digest io m' r now later fresh <> (Ok r', m'').
Proof.
  intros Hs Hsize r' m'' H.
  assert (Hdom : dom m ⊆ dom m').
  { intros i [x Hx]%elem_of_dom. destruct (steps_record _ _ _ _ _ _ _ _ Hs Hx) as (x' & Hx' & _).
    apply elem_of_dom. by eexists. }
  assert (Hle : (size m <= size m')%nat) by (rewrite <- !size_dom; by apply subseteq_size).
  unfold Create in H. destruct (prepare _ _ _ _ _) as [r1|]; [|done].
  apply transact_inv in H as [[_ Hx]|(a & _ & H)]; [by eapply Hx|].
  assert (Hp : size (prune m' later) = size m') by apply map_size_fmap.
  destruct (maxRequests <=? size (prune m' later))%nat eqn:E; [done|]. breflect. lia.
Qed.

Definition full_requests : Requests :=
  list_to_map ((fun n => (String (ascii_of_nat n) EmptyString, set_status (durable demo_hash (demo_request "r1")) "denied")) <$> seq 0 128).

Lemma store_never_drains_witness :
  (maxRequests <= size full_requests)%nat /\
  forall r' m'', Create demo_read demo_night demo_hash Persisted full_requests (demo_request "r1") 5%Z 5%Z None
    <> (Ok r', m'').
Proof.
  split; [vm_compute; lia|].
  apply (store_never_drains demo_read demo_night demo_hash full_requests []); [constructor|vm_compute; lia].
Defined.

End Broker.
