(* ===== verification/Hook.v ===== *)
(** * One hook call ([cmd/guardrail/hook.go], the hook's part of
    [cmd/guardrail/approval_mode.go])

    How the components compose: the hook voids stale tickets, loads and merges
    the policy, answers operator commands, evaluates the call inside the
    session transaction, and then lets night mode, command grants and exact
    actions relax what is still an ask, reverting a relaxation it could not
    record. *)

From Stdlib Require Import ZArith Lia Bool.
From S2P Require Import Prelude GoStrings GoPath Policy Merge Engine.
From S2P Require Import OperatorAction Session ActionGrant Ticket.

Open Scope string_scope.
Open Scope list_scope.

(** ** What the host gives to one call *)

Inductive OverlayRead := NoOverlay | OverlayFails | OverlayLoaded (ov : Overlay).

Record Host := {
  h_daemon : option Verdict;                 (* daemon.Dial and client.Evaluate *)
  h_night : MarkerRead;                      (* the night marker *)
  h_base : option Policy;                    (* policy.LoadBase *)
  h_overlay : OverlayRead;                   (* FindOverlayPath, LoadOverlay *)
  h_operator : OperatorRead;                 (* the Operator config *)
  h_transaction : TransactionIO;             (* the session transaction's steps *)
  h_config_locked : bool;                    (* the operator lock, and the config re-read *)
  h_config_written : bool;                   (* writeSyncedPrivateFile *)
  h_store_io : ActionGrant.StoreIO;          (* the exact-action store's steps *)
  h_fresh : string;                          (* its random identity *)
  h_ticket_written : bool;                   (* IssueTicket's file *)
  h_submitted : option (string * string);    (* SubmitOnDemand: request, URL *)
  h_audited : bool;                          (* audit.Write *)
  h_now : Time;                              (* the readings of the clock *)
  h_now_session : Time;
  h_now_grant : Time;
  h_now_consume : Time;
  h_now_exact : Time;
}.

(** The state the call may change. *)
Record World := {
  w_session : option State;                  (* the session's stored state *)
  w_operator : OperatorConfig;               (* the Operator config's grants *)
  w_actions : gmap string (option ActionGrant.Request);
  w_tickets : gmap (string * string) (option Tickets.Ticket);
}.

Definition set_session (w : World) (s : option State) : World :=
  {| w_session := match s with Some _ => s | None => w_session w end; w_operator := w_operator w;
     w_actions := w_actions w; w_tickets := w_tickets w |}.
Definition set_operator (w : World) (op : OperatorConfig) : World :=
  {| w_session := w_session w; w_operator := op; w_actions := w_actions w; w_tickets := w_tickets w |}.
Definition set_actions (w : World) (s : gmap string (option ActionGrant.Request)) : World :=
  {| w_session := w_session w; w_operator := w_operator w; w_actions := s; w_tickets := w_tickets w |}.
Definition set_tickets (w : World) (t : gmap (string * string) (option Tickets.Ticket)) : World :=
  {| w_session := w_session w; w_operator := w_operator w; w_actions := w_actions w; w_tickets := t |}.

(** How the call ends: denied before a policy could judge it, the session-start
    posture text, or a verdict handed to the plane's adapter. *)
Inductive HookResult :=
| FailedClosed (reason : string)
| Posture
| Emitted (v : Verdict).

Definition with_reason (v : Verdict) (reason : string) : Verdict :=
  {| v_Decision := v_Decision v; v_RuleID := v_RuleID v; v_OriginRuleID := v_OriginRuleID v;
     v_Reason := reason; v_AuditKind := v_AuditKind v; v_OperatorAction := v_OperatorAction v;
     v_RequestID := v_RequestID v; v_ApprovalURL := v_ApprovalURL v |}.

Definition prependVerdictReason (v : Verdict) (prefix : string) : Verdict :=
  if v_Reason v =s? "" then with_reason v prefix
  else with_reason v (prefix +:+ "; " +:+ v_Reason v).

(** [approvalModeOf], with the production default for an absent key. *)
Definition approvalModeOf (op : OperatorConfig) (err : option OperatorError) : string :=
  match err with
  | Some _ => ApprovalPasskey
  | None => if oc_Approval op =s? "" then ApprovalPrompt else ApprovalMode (Some op)
  end.

Definition operator_verdict (d : Decision) (rule reason name : string) : Verdict :=
  {| v_Decision := d; v_RuleID := rule; v_OriginRuleID := ""; v_Reason := reason;
     v_AuditKind := ""; v_OperatorAction := name; v_RequestID := ""; v_ApprovalURL := "" |}.

(** The state the transaction hands to its callback, when it gets that far. *)
Definition callback_state (io : TransactionIO) : State :=
  match (match io_read io with NotExist => io_legacy io | r => r end) with
  | Found st => st
  | _ => zero_state
  end.

Section Hook.

Context (fs : FS) (wd version configPath : string).
Context (url_Parse : string -> option URL) (glob : string -> string -> bool).
Context {bashAnalysis : Type}.
Context (analyzeBash : ToolCall -> outcome bashAnalysis).
Context (checkBashAnalysis : ToolCall -> Policy -> bashAnalysis -> outcome (option Verdict)).
Context (checkPathsAnalysis :
  ToolCall -> Policy -> option bashAnalysis -> outcome (option Verdict)).
(** [IsPrivateDataAccess], [IsNetworkAttempt] and [OpenCodeApprovalKey]. *)
Context (isPrivate : ToolCall -> Policy -> bool) (isNetwork : ToolCall -> bool).
Context (approvalKeyOf : ToolCall -> option string).
(** [recipe.Check] and [recipe.CheckSession]. *)
Context (recipeCheck : ToolCall -> Policy -> option Verdict).
Context (recipeCheckSession : string -> Policy -> option Verdict).
(** Digests, JSON fields and time formats. *)
Context (Digest : ActionGrant.Action -> string) (patch_command : string -> option string).
Context (sessionDigest : string -> string) (binding_hash : string -> string -> string).
Context (formatNano formatBanner : Time -> string).

#[local] Notation evaluate :=
  (Evaluate url_Parse glob analyzeBash checkBashAnalysis checkPathsAnalysis).

Definition Banner (s : NightState) : string :=
  if ns_Active s then "NIGHT MODE until " +:+ formatBanner (nm_Until (ns_Marker s)) else "".

(** [promptOperatorVerdict] *)
Definition promptOperatorVerdict (plane : string) (tc : ToolCall) (a : OperatorAction.Action) (h : Host)
    (w : World) : Verdict * World :=
  let summary := Summary a in
  let ticket := {| Tickets.t_Version := 0; Tickets.t_Command := a_Command a; Tickets.t_CWD := tc_CWD tc;
                   Tickets.t_RepoRoot := tc_RepoRoot tc; Tickets.t_Plane := plane;
                   Tickets.t_Action := a_Name a; Tickets.t_SessionDigest := "";
                   Tickets.t_IssuedAt := 0%Z; Tickets.t_ExpiresAt := 0%Z |} in
  let '(minted, tickets) :=
    Tickets.IssueTicket fs wd sessionDigest binding_hash (h_ticket_written h) (w_tickets w) ticket
      (tc_SessionID tc) (h_now h) in
  let ticketFailure := operator_verdict Deny "operator-action-ticket"
    ("the approval could not be recorded, so the operator action was not asked for; failing closed. The operator can run `"
       +:+ a_Command a +:+ "` in their terminal") (a_Name a) in
  let ask := operator_verdict Ask "operator-action-ask"
    ("guardrail operator action: " +:+ summary +:+ " — `" +:+ a_Command a +:+ "`") (a_Name a) in
  if plane =s? "codex" then
    (operator_verdict Deny "operator-action-terminal"
       ("guardrail operator action (" +:+ summary +:+ ") needs the operator's approval, and Codex cannot ask for it from a hook; ask the operator to run `"
          +:+ a_Command a +:+ "` in their terminal") (a_Name a), w)
  else if plane =s? "opencode" then
    if negb (tc_HostApproved tc) then (ask, w)
    else if minted then
      (operator_verdict Allow "operator-action-host-approved"
         ("operator approved in the opencode dialog: " +:+ summary) (a_Name a), set_tickets w tickets)
    else (ticketFailure, set_tickets w tickets)
  else if minted then (ask, set_tickets w tickets)
  else (ticketFailure, set_tickets w tickets).

(** The branch on a canonical operator command. *)
Definition operator_branch (plane : string) (tc : ToolCall) (a : OperatorAction.Action) (merged : Policy)
    (op : OperatorConfig) (mode : string) (h : Host) (w : World) : Verdict * World :=
  match OperatorActionSatisfied a (Some merged) (Some op) with
  | Some reason => (operator_verdict Deny "operator-action-satisfied" reason (a_Name a), w)
  | None =>
      if mode =s? ApprovalPrompt then promptOperatorVerdict plane tc a h w
      else
        match h_submitted h with
        | None => (verdict Deny "operator-action-broker"
                     "operator-action request could not be recorded; failing closed", w)
        | Some (id, url) =>
            ({| v_Decision := Complete; v_RuleID := "operator-action"; v_OriginRuleID := "";
                v_Reason := "operator action requires broker approval"; v_AuditKind := "";
                v_OperatorAction := a_Name a; v_RequestID := id; v_ApprovalURL := url |}, w)
        end
  end.

(** The callback of the session transaction: the state it leaves, the verdict,
    and whether night mode is to be announced. *)
Definition session_callback (plane : string) (tc : ToolCall) (merged : Policy) (night : NightState)
    (needsP7 needsNight : bool) (approvalKey : option string) (h : Host) (st : State)
    : State * (Verdict * bool) :=
  let until := formatNano (nm_Until (ns_Marker night)) in
  let announced := match st_NightModeAnnouncements st !! plane with Some u => u | None => "" end in
  let announce := needsNight && (announced <>s? until) in
  let st := if announce
            then with_announcements st (<[plane := until]> (st_NightModeAnnouncements st)) else st in
  let v := evaluate tc merged in
  let '(v, st) :=
    if needsP7
    then let '(esc, st') := ApplyTrifecta v (isPrivate tc merged) (isNetwork tc) (Some st) merged in
         (default v esc, default st st')
    else (v, st) in
  let '(v, st) :=
    match approvalKey with
    | None => (v, st)
    | Some key =>
        let '(v', st') := (if tc_HostApproved tc then ApplyOpenCodeHostApproval v key (Some st) (h_now_session h)
                           else ApplyOpenCodeApproval v key (Some st) (h_now_session h)) in
        (v', default st st')
    end in
  (st, (v, announce)).

(** The verdict before the relaxations: [hasOp] is whether an operator command
    is answered as one. *)
Definition judge (plane : string) (tc : ToolCall) (action : option OperatorAction.Action)
    (merged : Policy) (op : OperatorConfig) (mode : string) (night : NightState) (h : Host) (w : World)
    : Verdict * bool * World :=
  let approvalKey := if ns_Active night then None else approvalKeyOf tc in
  let needsP7 := (tc_Event tc =s? "pre") && TrifectaTrackingEnabled merged in
  let needsNight := ns_Active night && (tc_Event tc =s? "pre") && (plane <>s? "claude") in
  let needsState := (tc_SessionID tc <>s? "") &&
                    (needsP7 || bool_decide (is_Some approvalKey) || needsNight) in
  (* the evaluation when no session state was applied *)
  let unapplied announce w :=
    let v := evaluate tc merged in
    let v := if needsP7
             then default v (ApplyTrifecta v (isPrivate tc merged) (isNetwork tc) None merged).1
             else v in
    (v, announce, w) in
  let announce := needsNight && (tc_SessionID tc =s? "") in
  if tc_Event tc =s? "session-completion" then
    (default (verdict Allow "P8.recipe-lint" "session checks passed")
       (recipeCheckSession (tc_RepoRoot tc) merged), announce, w)
  else if tc_Event tc =s? "pre" then
    match action with
    | Some a => let '(v, w) := operator_branch plane tc a merged op mode h w in (v, announce, w)
    | None =>
        if needsState then
          let cb := session_callback plane tc merged night needsP7 needsNight approvalKey h in
          let '(err, stored) :=
            Transaction (h_transaction h) (tc_SessionID tc) (fun st => ((cb st).1, None)) in
          let w := set_session w stored in
          match err with
          | None | Some Committed =>
              let '(v, announce) := (cb (callback_state (h_transaction h))).2 in (v, announce, w)
          | Some _ => unapplied needsNight w
          end
        else unapplied announce w
    end
  else unapplied announce w.

(** The command grant: the verdict, whether it was relaxed, the world. *)
Definition spend_command_grant (tc : ToolCall) (op : OperatorConfig) (h : Host) (v : Verdict) (w : World)
    : Verdict * bool * World :=
  let granted := ApplyCommandGrant fs v tc (Some op) (h_now_grant h) in
  if bool_decide (v_Decision granted = Allow) then
    if negb (h_config_locked h) then (v, false, w)
    else
      let '(spent, op') :=
        consumeCommandGrant fs (w_operator w) (tc_RepoRoot tc) (v_RuleID v) (tc_Command tc)
          (h_now_consume h) in
      if negb (h_config_written h) then (v, false, w)
      else if spent then (granted, true, set_operator w op')
      else (v, false, set_operator w op')
  else (v, false, w).

Definition relax (plane : string) (tc : ToolCall) (hasOp : bool) (op : OperatorConfig)
    (night : NightState) (h : Host) (normal : Verdict) (w : World) : Verdict * bool * World :=
  let v := if hasOp then normal else ApplyNightMode normal (ns_Active night) in
  let '(v, granted, w) :=
    if negb hasOp && bool_decide (v_Decision v = Ask) && (tc_Event tc =s? "pre")
    then spend_command_grant tc op h v w
    else (v, false, w) in
  if hasOp then (v, granted, w)
  else
    match ActionGrant.exactActionVerdict Digest patch_command (h_store_io h) (w_actions w) tc v
            (h_now_exact h) (h_fresh h) with
    | (Ok (v', spent), s') => (v', granted || spent, set_actions w s')
    | (Err _, s') => (v, granted, set_actions w s')
    end.

(** The verdict after the audit record was written, or not. *)
Definition settle (night : NightState) (announce audited granted : bool) (normal v : Verdict) : Verdict :=
  let nightAllowed := bool_decide (v_Decision normal = Ask) && bool_decide (v_Decision v = Allow) &&
                      (v_RuleID v =s? "ask-allowed-by-night-mode") in
  let banner v := if announce then prependVerdictReason v (Banner night) else v in
  if audited then banner v
  else if granted then normal
  else if nightAllowed then banner normal
  else banner v.

(** [cmdHook] from the parsed call on, for a supported plane. *)
Definition hook (plane : string) (tc : ToolCall) (h : Host) (w : World) : HookResult * World :=
  let action := OperatorAction tc in
  let keep := match action with Some a => a_Command a | None => "" end in
  let w := if (tc_Event tc =s? "pre") && (tc_SessionID tc <>s? "")
           then set_tickets w (Tickets.VoidSessionTickets fs wd sessionDigest binding_hash (w_tickets w)
                                 (tc_SessionID tc) keep (tc_CWD tc))
           else w in
  let by_daemon :=
    if (tc_Event tc <>s? "session-start") && (tc_Event tc <>s? "session-completion") &&
       negb (bool_decide (is_Some action))
    then h_daemon h else None in
  match by_daemon with
  | Some v => (Emitted v, w)
  | None =>
      let '(night, _) := Load (h_night h) (h_now h) in
      match h_base h with
      | None => (FailedClosed "cannot load base policy", w)
      | Some base =>
          match h_overlay h with
          | OverlayFails => (FailedClosed "cannot load overlay", w)
          | NoOverlay | OverlayLoaded _ =>
              let ov := match h_overlay h with OverlayLoaded ov => Some ov | _ => None end in
              let '(op, opErr) := LoadOperatorConfig (h_operator h) in
              match Merge fs configPath base ov version (Some op) (tc_RepoRoot tc) with
              | Err _ => (FailedClosed "invalid overlay", w)
              | Ok (merged, _) =>
                  if tc_Event tc =s? "session-start" then (Posture, w)
                  else
                    let mode := approvalModeOf op opErr in
                    let action :=
                      match action with
                      | Some a => if (mode =s? ApprovalPasskey) && negb (Brokered a) then None
                                  else Some a
                      | None => None
                      end in
                    let hasOp := bool_decide (is_Some action) in
                    let '(v, announce, w) := judge plane tc action merged op mode night h w in
                    let normal := if bool_decide (v_Decision v = Allow)
                                  then default v (recipeCheck tc merged) else v in
                    let '(v, granted, w) := relax plane tc hasOp op night h normal w in
                    (Emitted (settle night announce (h_audited h) granted normal v), w)
              end
          end
      end
  end.

(** The policy the call is judged by, when it is judged. *)
Definition hook_policy (tc : ToolCall) (h : Host) : option Policy :=
  match h_base h, h_overlay h with
  | Some base, NoOverlay | Some base, OverlayLoaded _ =>
      match Merge fs configPath base
              (match h_overlay h with OverlayLoaded ov => Some ov | _ => None end) version
              (Some (LoadOperatorConfig (h_operator h)).1) (tc_RepoRoot tc) with
      | Ok (merged, _) => Some merged
      | Err _ => None
      end
  | _, _ => None
  end.

(** ** Lemmas *)

(** An ordinary tool call: not a session event, and no operator command. *)
Definition ordinary_call (tc : ToolCall) : Prop :=
  tc_Event tc <> "session-start" /\ tc_Event tc <> "session-completion" /\ OperatorAction tc = None.

(** What an ordinary call goes through once the daemon does not answer. *)
Lemma hook_ordinary plane tc h w res w' :
  ordinary_call tc -> h_daemon h = None -> hook plane tc h w = (res, w') ->
  match hook_policy tc h with
  | None => exists reason, res = FailedClosed reason
  | Some merged =>
      let night := (Load (h_night h) (h_now h)).1 in
      let op := (LoadOperatorConfig (h_operator h)).1 in
      exists mode w0 v0 announce w1 v1 granted,
        w_session w0 = w_session w /\ w_operator w0 = w_operator w /\ w_actions w0 = w_actions w /\
        judge plane tc None merged op mode night h w0 = (v0, announce, w1) /\
        let normal := if bool_decide (v_Decision v0 = Allow)
                      then default v0 (recipeCheck tc merged) else v0 in
        relax plane tc false op night h normal w1 = (v1, granted, w') /\
        res = Emitted (settle night announce (h_audited h) granted normal v1)
  end.
Proof.
  intros (Hs & Hc & Hop) Hd H. unfold hook in H. rewrite Hop, Hd in H.
  cbn zeta in H.
  match type of H with context [judge _ _ _ _ _ _ _ _ ?x] => set (w0 := x) in H end.
  assert (Hw0 : w_session w0 = w_session w /\ w_operator w0 = w_operator w /\ w_actions w0 = w_actions w) 
    by (subst w0; by destruct ((tc_Event tc =s? "pre") && _)).
  assert (E : forall b : bool, (if b then @None Verdict else None) = None) by (by intros []).
  rewrite E in H. clear E. unfold hook_policy.
  destruct (Load (h_night h) (h_now h)) as [night nerr]. simpl.
  destruct (h_base h) as [base|]; [|by simplify_eq; eauto].
  destruct (h_overlay h) as [| |ov]; [|by simplify_eq; eauto|].
  all: destruct (LoadOperatorConfig (h_operator h)) as [op opErr]; simpl.
  all: destruct (Merge fs configPath base _ version (Some op) (tc_RepoRoot tc)) as [[merged ws]|];
    [|by simplify_eq; eauto].
  all: apply String.eqb_neq in Hs; rewrite Hs in H; simpl in H.
  all: exists (approvalModeOf op opErr), w0.
  all: destruct (judge plane tc None merged op _ night h w0) as [[v0 announce] w1];
    destruct (relax plane tc false op night h _ w1) as [[v1 granted] w2] eqn:Er;
    exists v0, announce, w1, v1, granted; rewrite Er; destruct Hw0 as (? & ? & ?); by simplify_eq.
Qed.

(** The relaxations look at an ask only. *)
Lemma relax_not_ask plane tc hasOp op night h normal w :
  v_Decision normal <> Ask -> exists w', relax plane tc hasOp op night h normal w = (normal, false, w').
Proof.
  intros Hn. unfold relax.
  assert (Hm : ApplyNightMode normal (ns_Active night) = normal).
  { by apply (relaxation_not_ask (fun v => ApplyNightMode v (ns_Active night))). }
  rewrite Hm. replace (if hasOp then normal else normal) with normal by (by destruct hasOp).
  rewrite (bool_decide_eq_false_2 _ Hn), andb_false_r. simpl. destruct hasOp; [eauto|].
  unfold ActionGrant.exactActionVerdict, ActionGrant.ExactGrantAction.
  rewrite (bool_decide_eq_false_2 _ Hn). rewrite !orb_true_r. simpl. eauto.
Qed.

Lemma banner_decision v prefix : v_Decision (prependVerdictReason v prefix) = v_Decision v.
Proof. unfold prependVerdictReason. by case_match. Qed.

Lemma settle_same night announce audited granted v :
  v_Decision (settle night announce audited granted v v) = v_Decision v.
Proof.
  unfold settle. destruct audited, announce, granted; rewrite ?banner_decision; try done;
    case_match; by rewrite ?banner_decision.
Qed.

(** A verdict that is not an ask leaves the session's relaxations as it is,
    unless it is an allow that P7 escalates. *)
Lemma trifecta_not_allow v p n st pol :
  v_Decision v <> Allow -> (ApplyTrifecta v p n st pol).1 = None.
Proof.
  intros Hn. unfold ApplyTrifecta. case_match; [done|].
  destruct st; rewrite (bool_decide_eq_false_2 _ Hn); done.
Qed.

Lemma opencode_not_ask v key st now (host : bool) :
  v_Decision v <> Ask ->
  (if host then ApplyOpenCodeHostApproval v key (Some st) now
   else ApplyOpenCodeApproval v key (Some st) now).1 = v.
Proof.
  intros Hd. destruct host;
    [by apply (relaxation_not_ask (fun v => (ApplyOpenCodeHostApproval v key (Some st) now).1))
    |by apply (relaxation_not_ask (fun v => (ApplyOpenCodeApproval v key (Some st) now).1))].
Qed.

(** ** What the session transaction makes of a verdict *)

(** The two signals a session keeps for P7. *)
Definition signals (st : State) : bool * bool := (st_SawPrivateRead st, st_SawNetworkCall st).

Lemma trifecta_traced v p n st pol :
  TrifectaTrackingEnabled pol = true ->
  let r := ApplyTrifecta v p n (Some st) pol in
  signals (default st r.2) = (st_SawPrivateRead st || p, st_SawNetworkCall st || n) /\
  st_PendingApprovals (default st r.2) = st_PendingApprovals st.
Proof. intros He. unfold ApplyTrifecta. rewrite He. cbn [negb]. by destruct (bool_decide _ && _). Qed.

(** The second leg is not allowed where the first was seen; nor is either where nothing
    can be remembered. *)
Lemma trifecta_second v p n (st : option State) pol :
  TrifectaTrackingEnabled pol = true ->
  match st with
  | Some st => (st_SawPrivateRead st && n) || (st_SawNetworkCall st && p) = true
  | None => p || n = true
  end ->
  v_Decision (default v (ApplyTrifecta v p n st pol).1) <> Allow.
Proof.
  intros He Hs. unfold ApplyTrifecta. rewrite He. cbn [negb]. destruct st as [st|].
  - rewrite (andb_comm p), (andb_comm n), orb_comm, Hs, andb_true_r. by case_bool_decide.
  - rewrite Hs, andb_true_r. by case_bool_decide.
Qed.

(** The user answered an ask of [rule] about this call: in the host's dialog, or by letting
    the host repeat the very call within the time an answer is waited for. *)
Definition opencode_answered (tc : ToolCall) (h : Host) (rule : string) : Prop :=
  exists key, approvalKeyOf tc = Some key /\
    (tc_HostApproved tc = true \/
     exists p, st_PendingApprovals (callback_state (h_transaction h)) !! key = Some p /\
               pa_OriginRuleID p = rule /\ Before (h_now_session h) (pa_ExpiresAt p) = true).

Lemma opencode_traced (host : bool) x key st now :
  let r := if host then ApplyOpenCodeHostApproval x key (Some st) now
           else ApplyOpenCodeApproval x key (Some st) now in
  signals (default st r.2) = signals st /\
  (r.1 = x \/ (v_Decision x = Ask /\
    (host = true \/ exists p, st_PendingApprovals st !! key = Some p /\ pa_OriginRuleID p = v_RuleID x /\
                             Before now (pa_ExpiresAt p) = true))).
Proof.
  destruct host; cbn zeta.
  - unfold ApplyOpenCodeHostApproval. case_match eqn:E; [auto|]. breflect. case_bool_decide; [|done]. auto.
  - unfold ApplyOpenCodeApproval. case_match; [auto|]. destruct (v_Decision x) eqn:Ed; try auto.
    case_match; [auto|]. destruct (live_pending _ _ !! key) as [p|] eqn:Ep; [|case_match; auto].
    case_match eqn:Er; [|auto]. split; [done|]. right. split; [done|]. right. exists p. breflect.
    unfold live_pending in Ep. apply map_lookup_filter_Some in Ep as [Hp Hb]. auto.
Qed.

(** P7's part: the verdict, and the signals it leaves. *)
Definition p7_verdict (tc : ToolCall) (merged : Policy) (st : option State) : Verdict :=
  if (tc_Event tc =s? "pre") && TrifectaTrackingEnabled merged
  then default (evaluate tc merged)
         (ApplyTrifecta (evaluate tc merged) (isPrivate tc merged) (isNetwork tc) st merged).1
  else evaluate tc merged.

Definition p7_signals (tc : ToolCall) (merged : Policy) (seen : bool * bool) : bool * bool :=
  if TrifectaTrackingEnabled merged then (seen.1 || isPrivate tc merged, seen.2 || isNetwork tc) else seen.

Lemma callback_traced plane tc merged night needsNight key h st :
  let cb := session_callback plane tc merged night (true && TrifectaTrackingEnabled merged) needsNight key h st in
  tc_Event tc = "pre" ->
  signals cb.1 = p7_signals tc merged (signals st) /\
  exists st0, signals st0 = signals st /\
    let x := p7_verdict tc merged (Some st0) in
    cb.2.1 = x \/ (v_Decision x = Ask /\ exists k, key = Some k /\
      (tc_HostApproved tc = true \/
       exists p, st_PendingApprovals st !! k = Some p /\ pa_OriginRuleID p = v_RuleID x /\
                 Before (h_now_session h) (pa_ExpiresAt p) = true)).
Proof.
  cbn zeta. intros He. unfold session_callback, p7_verdict, p7_signals. rewrite He. cbn [andb String.eqb Ascii.eqb Bool.eqb].
  match goal with |- context [ApplyTrifecta _ _ _ (Some ?s) _] => set (st0 := s) end.
  assert (H0 : signals st0 = signals st /\ st_PendingApprovals st0 = st_PendingApprovals st)
    by (subst st0; by destruct (needsNight && _)). clearbody st0. destruct H0 as [Hs Hp].
  pose proof Hs as Hs'. injection Hs' as Hs1 Hs2.
  set (E := evaluate tc merged). destruct (TrifectaTrackingEnabled merged) eqn:Et.
  - pose proof (trifecta_traced E (isPrivate tc merged) (isNetwork tc) st0 merged Et) as (Ht & Htp).
    destruct (ApplyTrifecta E (isPrivate tc merged) (isNetwork tc) (Some st0) merged) as [esc st1] eqn:Ea. cbn [fst snd] in *.
    destruct key as [k|]; cbn [fst snd].
    + destruct (opencode_traced (tc_HostApproved tc) (default E esc) k (default st0 st1) (h_now_session h)) as [Ho Hv].
      destruct (if tc_HostApproved tc then _ else _) as [v' st'] eqn:Eo. cbn [fst snd] in *.
      split; [by rewrite Ho, Ht, Hs1, Hs2|]. exists st0. split; [done|]. rewrite Ea. cbn [fst].
      destruct Hv as [->|[Hd Hv]]; [by left|right]. split; [done|]. exists k. split; [done|]. by rewrite Htp, Hp in Hv.
    + split; [by rewrite Ht, Hs1, Hs2|]. exists st0. split; [done|]. rewrite Ea. by left.
  - destruct key as [k|]; cbn [fst snd]; [|split; [done|]; exists st0; auto].
    destruct (opencode_traced (tc_HostApproved tc) E k st0 (h_now_session h)) as [Ho Hv].
    destruct (if tc_HostApproved tc then _ else _) as [v' st'] eqn:Eo. cbn [fst snd] in *.
    split; [by rewrite Ho|]. exists st0. split; [done|].
    destruct Hv as [->|[Hd Hv]]; [by left|right]. split; [done|]. exists k. split; [done|]. by rewrite Hp in Hv.
Qed.

(** Whether the steps of a transaction on the host go through. *)
Definition commits (io : TransactionIO) : bool :=
  io_mkdir io && io_gate io && io_lock io && io_mkdir_state io && io_encode io && io_write io &&
  match (match io_read io with NotExist => io_legacy io | r => r end) with Found _ | NotExist => true | _ => false end.

Lemma Transaction_commits io sid f :
  sid <> "" ->
  let r := Transaction io sid (fun st => (f st, None)) in
  if commits io
  then (r.1 = None \/ r.1 = Some Committed) /\ r.2 = Some (with_updated (f (callback_state io)) (io_now io))
  else (exists e, r.1 = Some e /\ e <> Committed) /\ r.2 = None.
Proof.
  intros Hs. apply String.eqb_neq in Hs. unfold Transaction, commits, callback_state. rewrite Hs.
  destruct (io_mkdir io); [|cbn; eauto]. destruct (io_gate io); [|cbn; eauto]. destruct (io_lock io); [|cbn; eauto].
  destruct (io_mkdir_state io), (io_encode io), (io_write io),
    (match io_read io with NotExist => io_legacy io | r => r end), (io_unlock io); cbn; eauto.
Qed.

Lemma set_no_session w : set_session w None = w.
Proof. by destruct w. Qed.

(** What an ordinary call's verdict is before the relaxations, and what the session
    remembers of it. *)
Lemma judge_traced plane tc merged op mode night h w v announce w' :
  tc_Event tc <> "session-completion" ->
  judge plane tc None merged op mode night h w = (v, announce, w') ->
  w_operator w' = w_operator w /\ w_actions w' = w_actions w /\
  exists st : option State,
    (v = p7_verdict tc merged st \/
     (v_Decision (p7_verdict tc merged st) = Ask /\ ns_Active night = false /\
      opencode_answered tc h (v_RuleID (p7_verdict tc merged st)))) /\
    match st with
    | Some st => signals st = signals (callback_state (h_transaction h)) /\ commits (h_transaction h) = true /\
        exists st', w_session w' = Some st' /\ signals st' = p7_signals tc merged (signals st)
    | None => w_session w' = w_session w /\
        (commits (h_transaction h) && (tc_Event tc =s? "pre") && (tc_SessionID tc <>s? "") &&
         TrifectaTrackingEnabled merged = false)
    end.
Proof.
  intros Hev H. unfold judge in H. apply String.eqb_neq in Hev. rewrite Hev in H.
  assert (Hun : forall b, (p7_verdict tc merged None, b, w) = (v, announce, w') ->
    commits (h_transaction h) && (tc_Event tc =s? "pre") && (tc_SessionID tc <>s? "") && TrifectaTrackingEnabled merged = false ->
    w_operator w' = w_operator w /\ w_actions w' = w_actions w /\
    exists st : option State,
      (v = p7_verdict tc merged st \/
       (v_Decision (p7_verdict tc merged st) = Ask /\ ns_Active night = false /\
        opencode_answered tc h (v_RuleID (p7_verdict tc merged st)))) /\
      match st with
      | Some st => signals st = signals (callback_state (h_transaction h)) /\ commits (h_transaction h) = true /\
          exists st', w_session w' = Some st' /\ signals st' = p7_signals tc merged (signals st)
      | None => w_session w' = w_session w /\
          (commits (h_transaction h) && (tc_Event tc =s? "pre") && (tc_SessionID tc <>s? "") &&
           TrifectaTrackingEnabled merged = false)
      end).
  { intros b [= <- _ <-] Hc. split_and!; [done..|]. exists None. split_and!; [by left|done..]. }
  destruct (tc_Event tc =s? "pre") eqn:Epre.
  2: { eapply Hun; [|by rewrite andb_false_r]. unfold p7_verdict. rewrite Epre. exact H. }
  match type of H with (if ?c then _ else _) = _ => destruct c eqn:Ens end.
  2: { eapply Hun; [unfold p7_verdict; rewrite Epre; exact H|]. destruct (tc_SessionID tc <>s? ""); [|by rewrite andb_false_r].
       cbn [andb orb] in Ens. apply orb_false_iff in Ens as [Ens _]. apply orb_false_iff in Ens as [Ens _]. cbn [andb] in Ens. by rewrite Ens, andb_false_r. }
  apply andb_true_iff in Ens as [Hsid _]. pose proof Hsid as Hsid'. breflect. cbn zeta in H.
  match type of H with context [session_callback plane tc merged night ?a ?b ?c h] =>
    set (key := c) in H; pose proof (callback_traced plane tc merged night b key h (callback_state (h_transaction h)) Epre) as Hcb;
    set (cb := session_callback plane tc merged night a b key h) in H; fold cb in Hcb end.
  pose proof (Transaction_commits (h_transaction h) (tc_SessionID tc) (fun st => (cb st).1) Hsid) as Htx. cbn zeta in Htx.
  destruct (Transaction (h_transaction h) (tc_SessionID tc) (fun st => ((cb st).1, None))) as [err stored]. cbn [fst snd] in Htx.
  destruct (commits (h_transaction h)) eqn:Ec.
  - destruct Htx as [Herr ->]. destruct Hcb as [Hsig (st0 & Hst0 & Hv)].
    destruct (cb (callback_state (h_transaction h))).2 as [v1 a1] eqn:Ecb.
    assert (H' : (v1, a1, set_session w (Some (with_updated (cb (callback_state (h_transaction h))).1 (io_now (h_transaction h))))) = (v, announce, w'))
      by (destruct Herr as [->| ->]; exact H). clear H. injection H' as <- _ <-. split_and!; [done..|].
    exists (Some st0). split_and!; [|done..|].
    + cbn [fst] in Hv. destruct Hv as [Hv|(Hd & k & Hk & Hans)]; [by left|right]. subst key. destruct (ns_Active night); [done|].
      split_and!; [done..|]. exists k. auto.
    + eexists. split; [done|]. cbn. rewrite Hst0. exact Hsig.
  - destruct Htx as [(e & -> & Hne) ->]. rewrite (set_no_session w) in H. destruct e; try done; (eapply Hun; [unfold p7_verdict; rewrite Epre; exact H|done]).
Qed.

Lemma p7_not_allow tc merged st :
  v_Decision (evaluate tc merged) <> Allow -> p7_verdict tc merged st = evaluate tc merged.
Proof. intros Hn. unfold p7_verdict. case_match; [|done]. by rewrite trifecta_not_allow. Qed.

Lemma judge_settled plane tc merged op mode night h w v announce w' :
  tc_Event tc <> "session-completion" ->
  v_Decision (evaluate tc merged) <> Allow -> v_Decision (evaluate tc merged) <> Ask ->
  judge plane tc None merged op mode night h w = (v, announce, w') -> v = evaluate tc merged.
Proof.
  intros Hev Hna Hd (_ & _ & st & Hv & _)%judge_traced; [|done]. rewrite p7_not_allow in Hv by done.
  by destruct Hv as [?|(? & _)].
Qed.

(** An operator's grant for exactly this call was found and spent on the ask [x]. *)
Definition grant_spent (tc : ToolCall) (op : OperatorConfig) (h : Host) (w : World) (x : Verdict) : Prop :=
  (v_Decision (ApplyCommandGrant fs x tc (Some op) (h_now_grant h)) = Allow /\
   (consumeCommandGrant fs (w_operator w) (tc_RepoRoot tc) (v_RuleID x) (tc_Command tc) (h_now_consume h)).1 = true) \/
  exists a r, ActionGrant.ExactGrantAction patch_command tc x = Some a /\
    (ActionGrant.Consume Digest (h_store_io h) (w_actions w) a (h_now_exact h)).1 = Ok (Some r).

(** An exact-action allow of an ask was paid for, on a rule that may be granted. *)
Lemma exact_ask tc x op h w v spent acts' :
  v_Decision x = Ask ->
  ActionGrant.exactActionVerdict Digest patch_command (h_store_io h) (w_actions w) tc x (h_now_exact h) (h_fresh h) =
    (Ok (v, spent), acts') -> v_Decision v = Allow ->
  spent = true /\ NeverGrantable (v_RuleID x) = false /\ tc_Event tc = "pre" /\ grant_spent tc op h w x.
Proof.
  intros Hx He Hv. unfold ActionGrant.exactActionVerdict in He.
  destruct (ActionGrant.ExactGrantAction patch_command tc x) as [a|] eqn:Ea;
    [|simplify_eq; congruence].
  destruct (ActionGrant.ExactGrantAction_guard _ _ _ _ Ea) as (_ & Hev & _ & Hg).
  destruct (ActionGrant.Consume _ _ _ _ _) as [[[r|]|e] s1] eqn:Ec; [|..|done].
  - simplify_eq. split_and!; [done..|]. right. exists a, r. by rewrite Ec.
  - destruct (ActionGrant.Create _ _ _ _ _ _) as [[r|e] s3]; simplify_eq. simpl in Hv. congruence.
Qed.

(** A command grant either leaves the ask, or paid for it. *)
Lemma spend_ask tc op h x w v granted w' :
  v_Decision x = Ask -> spend_command_grant tc op h x w = (v, granted, w') ->
  (v = x /\ granted = false /\ w_actions w' = w_actions w) \/
  (granted = true /\ NeverGrantable (v_RuleID x) = false /\ grant_spent tc op h w x).
Proof.
  intros Hx H. unfold spend_command_grant in H. case_bool_decide as Eg; [|left; by simplify_eq].
  assert (Hng : NeverGrantable (v_RuleID x) = false).
  { eapply ApplyCommandGrant_guard; [|exact Eg]. congruence. }
  destruct (consumeCommandGrant _ _ _ _ _ _) as [spent op'] eqn:Ec.
  repeat case_match; simplify_eq; auto. right. split_and!; [done..|]. left. by rewrite Ec.
Qed.

Lemma grant_spent_world tc op h w w1 x :
  w_operator w1 = w_operator w -> w_actions w1 = w_actions w -> grant_spent tc op h w1 x -> grant_spent tc op h w x.
Proof. unfold grant_spent. by intros -> ->. Qed.

(** The grounds on which an ask is relaxed. *)
Lemma relax_ask plane tc op night h normal w v granted w' :
  v_Decision normal = Ask -> relax plane tc false op night h normal w = (v, granted, w') ->
  v_Decision v = Allow ->
  (ns_Active night = true /\ NeverRelaxable (v_RuleID normal) = false /\ granted = false /\
   v_RuleID v = "ask-allowed-by-night-mode") \/
  (granted = true /\ NeverGrantable (v_RuleID normal) = false /\ tc_Event tc = "pre" /\
   grant_spent tc op h w normal).
Proof.
  intros Hd H Ha. unfold relax in H. cbn [negb andb] in H.
  assert (Hex : forall g w0, w_actions w0 = w_actions w ->
    match ActionGrant.exactActionVerdict Digest patch_command (h_store_io h) (w_actions w0) tc normal
            (h_now_exact h) (h_fresh h) with
    | (Ok (v', spent), s') => (v', g || spent, set_actions w0 s')
    | (Err _, s') => (normal, g, set_actions w0 s')
    end = (v, granted, w') ->
    granted = true /\ NeverGrantable (v_RuleID normal) = false /\ tc_Event tc = "pre" /\ grant_spent tc op h w normal).
  { intros g w0 Hw E. rewrite Hw in E.
    destruct (ActionGrant.exactActionVerdict _ _ _ _ _ _ _ _) as [[[v2 sp]|e] s2] eqn:E2; simplify_eq; [|congruence].
    destruct (exact_ask tc normal op h w _ _ _ Hd E2 Ha) as (-> & ? & ? & ?). rewrite orb_true_r. auto. }
  destruct (night_relaxes normal (ns_Active night)) as [Hn|((_ & Hr & _) & Hact & Hrel)].
  - right. rewrite Hn, (bool_decide_eq_true_2 _ Hd) in H. cbn [andb] in H.
    destruct (tc_Event tc =s? "pre") eqn:Ee; breflect; [|by apply Hex in H].
    destruct (spend_command_grant tc op h normal w) as [[x g] w1] eqn:Es.
    apply spend_ask in Es as [(-> & -> & Hw)|(-> & Hng & Hsp)]; [by apply Hex in H| |done].
    repeat case_match; by simplify_eq.
  - left. unfold ApplyNightMode in *. rewrite Hact, (bool_decide_eq_true_2 _ Hd), Hrel in H. simpl in H.
    unfold ActionGrant.exactActionVerdict, ActionGrant.ExactGrantAction in H.
    simpl in H. rewrite !orb_true_r in H. simpl in H. by simplify_eq.
Qed.

(** The relaxations leave the session's state alone. *)
Lemma relax_session plane tc hasOp op night h normal w :
  w_session (relax plane tc hasOp op night h normal w).2 = w_session w.
Proof.
  unfold relax. set (v := if hasOp then normal else _).
  assert (Hs : w_session (spend_command_grant tc op h v w).2 = w_session w)
    by (unfold spend_command_grant; repeat case_match; done).
  destruct (negb hasOp && _ && _); [destruct (spend_command_grant tc op h v w) as [[x g] w1]; cbn in Hs|];
    (destruct hasOp; [done|]); by destruct (ActionGrant.exactActionVerdict _ _ _ _ _ _ _ _) as [[[]|] ].
Qed.

(** Without an audit record, no relaxation stands. *)
Lemma settle_unaudited plane tc op night h normal w v granted w' announce :
  v_Decision normal <> Allow -> relax plane tc false op night h normal w = (v, granted, w') ->
  v_Decision (settle night announce false granted normal v) <> Allow.
Proof.
  intros Hn H. destruct (decide (v_Decision normal = Ask)) as [Ha|Hna].
  - unfold settle. destruct granted; [done|].
    destruct (decide (v_Decision v = Allow)) as [Hv|Hv].
    + destruct (relax_ask _ _ _ _ _ _ _ _ _ _ Ha H Hv) as [(_ & _ & _ & Hr)|(? & _)]; [|done].
      rewrite (bool_decide_eq_true_2 _ Ha), (bool_decide_eq_true_2 _ Hv), Hr. simpl.
      destruct announce; by rewrite ?banner_decision.
    + rewrite (bool_decide_eq_false_2 _ Hv), andb_false_r. simpl.
      destruct announce; by rewrite ?banner_decision.
  - destruct (relax_not_ask plane tc false op night h normal w Hna) as [w2 Hr].
    rewrite Hr in H. simplify_eq. by rewrite settle_same.
Qed.

(** Why the hook may answer an ask with an allow: the user answered it in OpenCode; or,
    recorded in the audit log, night mode is active and the rule may be relaxed, or an
    operator's grant for this very call was spent on a rule that may be granted. *)
Definition relaxation_ground (tc : ToolCall) (h : Host) (w : World) (x : Verdict) : Prop :=
  let night := (Load (h_night h) (h_now h)).1 in
  let op := (LoadOperatorConfig (h_operator h)).1 in
  (ns_Active night = false /\ opencode_answered tc h (v_RuleID x)) \/
  (h_audited h = true /\
   ((ns_Active night = true /\ NeverRelaxable (v_RuleID x) = false) \/
    (tc_Event tc = "pre" /\ NeverGrantable (v_RuleID x) = false /\ grant_spent tc op h w x))).

(** What an ordinary call without a daemon is answered: P7's verdict [x] where the answer
    is an allow stands on its own, or [x] asked and there is a ground. *)
Lemma hook_traced plane tc h w res w' :
  ordinary_call tc -> h_daemon h = None -> hook plane tc h w = (res, w') ->
  match hook_policy tc h with
  | None => exists reason, res = FailedClosed reason
  | Some merged =>
      exists v st, res = Emitted v /\
        match st with
        | Some s => signals s = signals (callback_state (h_transaction h)) /\ commits (h_transaction h) = true /\
            exists s', w_session w' = Some s' /\ signals s' = p7_signals tc merged (signals s)
        | None => w_session w' = w_session w /\
            (commits (h_transaction h) && (tc_Event tc =s? "pre") && (tc_SessionID tc <>s? "") &&
             TrifectaTrackingEnabled merged = false)
        end /\
        (v_Decision v = Allow ->
           let x := p7_verdict tc merged st in
           v_Decision x = Allow \/ (v_Decision x = Ask /\ relaxation_ground tc h w x))
  end.
Proof.
  intros Hord Hd H. pose proof Hord as (_ & Hc & _). apply hook_ordinary in H; [|done|done].
  destruct (hook_policy tc h) as [merged|]; [|done].
  destruct H as (mode & w0 & v0 & announce & w1 & v1 & granted & Hw0 & Hop & Hact & Hj & Hr & ->).
  apply judge_traced in Hj as (Ho1 & Ha1 & st & Hv & Hst); [|done].
  eexists _, st. split; [done|].
  assert (Hs : w_session w' = w_session w1) by (by rewrite <- (relax_session plane tc false (LoadOperatorConfig (h_operator h)).1 (Load (h_night h) (h_now h)).1 h (if bool_decide (v_Decision v0 = Allow) then default v0 (recipeCheck tc merged) else v0) w1), Hr).
  split; [rewrite Hs; destruct st; [done|]; by rewrite <- Hw0|].
  intros Hallow. cbn zeta. set (x := p7_verdict tc merged st) in *.
  destruct Hv as [->|(Hask & Hn & Hans)]; [|right; split; [done|by left]].
  destruct (decide (v_Decision x = Allow)) as [?|Hna]; [by left|right].
  rewrite (bool_decide_eq_false_2 _ Hna) in Hr, Hallow. cbn zeta in Hr, Hallow.
  destruct (decide (v_Decision x = Ask)) as [Hask|Hnask].
  - split; [done|right].
    destruct (h_audited h) eqn:Eau; [split; [done|]|by eapply settle_unaudited in Hr; [destruct (Hr Hallow)|]].
    assert (Hv1 : v_Decision v1 = Allow).
    { rewrite <- Hallow. unfold settle. by destruct announce; rewrite ?banner_decision. }
    eapply relax_ask in Hr as [(? & ? & _ & _)|(_ & ? & ? & Hsp)]; [by left|right|done|done].
    split_and!; [done..|]. eapply grant_spent_world; [| |exact Hsp]; congruence.
  - edestruct relax_not_ask as [w3 Hsame]; [exact Hnask|]. rewrite Hsame in Hr. simplify_eq. by rewrite settle_same in Hallow.
Qed.

(** No call makes the session forget: it leaves the stored state, or writes one that it
    read with more seen. *)
Definition sees_more (h : Host) (before after : option State) : Prop :=
  after = before \/
  (commits (h_transaction h) = true /\ exists st, after = Some st /\
     let seen := callback_state (h_transaction h) in
     (st_SawPrivateRead seen = true -> st_SawPrivateRead st = true) /\
     (st_SawNetworkCall seen = true -> st_SawNetworkCall st = true)).

Lemma judge_session plane tc action merged op mode night h w v announce w' :
  judge plane tc action merged op mode night h w = (v, announce, w') -> sees_more h (w_session w) (w_session w').
Proof.
  intros H. destruct (decide (tc_Event tc = "session-completion")) as [Hs|Hs].
  { unfold judge in H. rewrite Hs in H. simplify_eq/=. by left. }
  destruct action as [a|].
  - destruct (tc_Event tc =s? "pre") eqn:Ep.
    + unfold judge in H. apply String.eqb_neq in Hs. rewrite Hs, Ep in H.
      assert (Ho : w_session (operator_branch plane tc a merged op mode h w).2 = w_session w).
      { unfold operator_branch, promptOperatorVerdict. repeat case_match; done. }
      destruct (operator_branch plane tc a merged op mode h w) as [x w1]. simplify_eq/=. by left.
    + unfold judge in H. apply String.eqb_neq in Hs. rewrite Hs, Ep in H. simplify_eq/=. by left.
  - apply judge_traced in H as (_ & _ & st & _ & Hst); [|done]. destruct st as [st|]; [|by left; destruct Hst].
    destruct Hst as (Hcb & Hc & st' & Hw & Hsig). right. split; [done|]. exists st'. split; [done|].
    unfold p7_signals, signals in *. case_match; rewrite Hcb in Hsig; injection Hsig as -> ->; cbn; split; by intros ->.
Qed.

Lemma hook_session plane tc h w res w' :
  hook plane tc h w = (res, w') -> sees_more h (w_session w) (w_session w').
Proof.
  intros H. unfold hook in H. cbv zeta in H.
  match type of H with context [(FailedClosed _, ?x)] => set (w0 := x) in H end.
  assert (Hw0 : w_session w0 = w_session w) by (subst w0; by destruct ((tc_Event tc =s? "pre") && _)). clearbody w0.
  rewrite <- Hw0.
  match type of H with match ?d with _ => _ end = _ => destruct d; [simplify_eq; by left|] end.
  destruct (Load _ _) as [night ?]. destruct (h_base h) as [base|]; [|simplify_eq; by left].
  destruct (LoadOperatorConfig _) as [op opErr].
  destruct (h_overlay h) as [| |ov]; [|simplify_eq; by left|];
    (destruct (Merge _ _ _ _ _ _ _) as [[merged ?]|]; [|simplify_eq; by left];
     destruct (tc_Event tc =s? "session-start"); [simplify_eq; by left|];
     destruct (judge _ _ _ _ _ _ _ _ _) as [[v0 announce] w1] eqn:Hj; apply judge_session in Hj;
     match type of H with context [relax ?p ?t ?b ?o ?n ?hh ?x w1] =>
       pose proof (relax_session p t b o n hh x w1) as Hr; destruct (relax p t b o n hh x w1) as [[v1 granted] w2] end;
     cbn in Hr; simplify_eq; by rewrite Hr).
Qed.

End Hook.

(** ** Properties *)

Section HookProperties.

Context (fs : FS) (wd version configPath : string).
Context (url_Parse : string -> option URL) (glob : string -> string -> bool).
Context {bashAnalysis : Type}.
Context (analyzeBash : ToolCall -> outcome bashAnalysis).
Context (checkBashAnalysis : ToolCall -> Policy -> bashAnalysis -> outcome (option Verdict)).
Context (checkPathsAnalysis :
  ToolCall -> Policy -> option bashAnalysis -> outcome (option Verdict)).
Context (isPrivate : ToolCall -> Policy -> bool) (isNetwork : ToolCall -> bool).
Context (approvalKeyOf : ToolCall -> option string).
Context (recipeCheck : ToolCall -> Policy -> option Verdict).
Context (recipeCheckSession : string -> Policy -> option Verdict).
Context (Digest : ActionGrant.Action -> string) (patch_command : string -> option string).
Context (sessionDigest : string -> string) (binding_hash : string -> string -> string).
Context (formatNano formatBanner : Time -> string).

#[local] Notation evaluate :=
  (Evaluate url_Parse glob analyzeBash checkBashAnalysis checkPathsAnalysis).
#[local] Notation hook' :=
  (hook fs wd version configPath url_Parse glob analyzeBash checkBashAnalysis checkPathsAnalysis
     isPrivate isNetwork approvalKeyOf recipeCheck recipeCheckSession Digest patch_command
     sessionDigest binding_hash formatNano formatBanner).

Lemma hook_denied plane tc h w merged :
  ordinary_call tc -> h_daemon h = None ->
  hook_policy fs version configPath tc h = Some merged ->
  v_Decision (evaluate tc merged) = Deny ->
  exists v, (hook' plane tc h w).1 = Emitted v /\ v_Decision v = Deny.
Proof.
  intros Hord Hd Hpol Hdeny. pose proof Hord as (_ & Hc & _).
  destruct (hook' plane tc h w) as [res w'] eqn:H.
  apply hook_ordinary in H; [|done|done]. rewrite Hpol in H.
  destruct H as (mode & w0 & v0 & announce & w1 & v1 & granted & _ & _ & _ & Hj & Hr & ->).
  apply judge_settled in Hj; [|done|congruence|congruence]. subst v0.
  rewrite bool_decide_eq_false_2 in Hr |- * by congruence.
  eexists. split; [done|].
  edestruct relax_not_ask as [w3 Hsame]; [|erewrite Hsame in Hr]; [congruence|].
  simplify_eq. by rewrite settle_same.
Qed.

(** C3: a deny is final: when the engine denies an ordinary call, the hook
    emits a deny, whatever night mode, grants, approvals, session state,
    recipes and a failing audit log would have it do. *)
Theorem hook_deny_invariant plane tc h w merged res w' :
  ordinary_call tc -> h_daemon h = None ->
  hook_policy fs version configPath tc h = Some merged ->
  v_Decision (evaluate tc merged) = Deny ->
  hook' plane tc h w = (res, w') ->
  exists v, res = Emitted v /\ v_Decision v = Deny.
Proof.
  intros Hord Hd Hpol Hdeny H.
  destruct (hook_denied plane tc h w merged Hord Hd Hpol Hdeny) as (v & Hv & Hdec).
  rewrite H in Hv. by exists v.
Qed.

(** A verdict of the daemon is printed as it is: nothing relaxes it. *)
Lemma hook_takes_daemon plane tc h w v :
  ordinary_call tc -> h_daemon h = Some v -> (hook' plane tc h w).1 = Emitted v.
Proof.
  intros (Hs & Hc & Ho) Hd. apply String.eqb_neq in Hs, Hc. unfold hook. rewrite Ho, Hs, Hc, Hd. done.
Qed.

(** C4: an allow needs a ground. Where a daemon answers, what the hook emits for an ordinary
    call is that answer and nothing else ([Daemon] bounds it). Where none does: without a
    policy the hook fails closed, and an allow it emits is the engine's; or the engine asked
    and either the user answered in OpenCode (in its dialog, or by an exact retry of the
    call this rule had asked about), or night mode was active and the rule may be relaxed,
    or an operator's grant for this very call was found and spent on a rule that may be
    granted; the last two only when the audit record was written. *)
Theorem hook_allow_grounds plane tc h w res w' :
  ordinary_call tc -> hook' plane tc h w = (res, w') ->
  match h_daemon h with
  | Some answer => res = Emitted answer
  | None =>
      (hook_policy fs version configPath tc h = None -> exists reason, res = FailedClosed reason) /\
      forall v, res = Emitted v -> v_Decision v = Allow ->
        exists merged, hook_policy fs version configPath tc h = Some merged /\
          (v_Decision (evaluate tc merged) = Allow \/
           (v_Decision (evaluate tc merged) = Ask /\
            relaxation_ground fs approvalKeyOf Digest patch_command tc h w (evaluate tc merged)))
  end.
Proof.
  intros Hord H. destruct (h_daemon h) as [answer|] eqn:Hd.
  { pose proof (hook_takes_daemon plane tc h w answer Hord Hd) as Hv. by rewrite H in Hv. }
  apply hook_traced in H; [|done|done].
  destruct (hook_policy fs version configPath tc h) as [merged|];
    [|split; [done|]; destruct H as [r ->]; done].
  split; [done|]. intros v Hres Ha. exists merged. split; [done|].
  destruct H as (v' & st & -> & _ & Hv). injection Hres as ->.
  destruct (decide (v_Decision (evaluate tc merged) = Allow)) as [?|Hna]; [by left|right].
  specialize (Hv Ha). cbn zeta in Hv. rewrite p7_not_allow in Hv by done. by destruct Hv as [?|?].
Qed.

End HookProperties.

(** A host on which nothing fails, night mode is on, and the daemon is down. *)
Definition demo_host : Host :=
  {| h_daemon := None;
     h_night := MarkerParsed {| nm_Until := 10000%Z; nm_SetBy := "operator" |};
     h_base := Some demo_base; h_overlay := OverlayLoaded demo_overlay; h_operator := OperatorMissing;
     h_transaction := demo_io; h_config_locked := true; h_config_written := true;
     h_store_io := ActionGrant.demo_store_io; h_fresh := ""; h_ticket_written := true;
     h_submitted := None; h_audited := true; h_now := 100%Z; h_now_session := 100%Z;
     h_now_grant := 100%Z; h_now_consume := 100%Z; h_now_exact := 100%Z |}.

Definition demo_world : World :=
  {| w_session := None; w_operator := emptyOperatorConfig; w_actions := ∅; w_tickets := ∅ |}.

Definition demo_hook (command : string) : HookResult * World :=
  hook demo_fs "/" "v0.23.36-dev" "/home/op/waivers.toml" demo_url_Parse demo_glob demo_analyze
    demo_bash demo_paths (fun _ _ => false) (fun _ => false) (fun _ => None) (fun _ _ => None)
    (fun _ _ => None) ActionGrant.demo_Digest (fun _ => None) Tickets.demo_digest Tickets.demo_hash
    (fun _ => "until") (fun _ => "until") "claude" (demo_call CapabilityCommand command) demo_host
    demo_world.

Definition demo_policy : Policy :=
  match hook_policy demo_fs "v0.23.36-dev" "/home/op/waivers.toml"
          (demo_call CapabilityCommand "git push --force") demo_host with
  | Some p => p
  | None => demo_base
  end.

Lemma demo_ordinary command :
  OperatorAction (demo_call CapabilityCommand command) = None ->
  ordinary_call (demo_call CapabilityCommand command).
Proof. intros H. by repeat split. Qed.

Lemma hook_deny_invariant_witness :
  exists v, (demo_hook "git push --force").1 = Emitted v /\ v_Decision v = Deny.
Proof.
  apply (hook_deny_invariant demo_fs "/" "v0.23.36-dev" "/home/op/waivers.toml" demo_url_Parse demo_glob
    demo_analyze demo_bash demo_paths (fun _ _ => false) (fun _ => false) (fun _ => None)
    (fun _ _ => None) (fun _ _ => None) ActionGrant.demo_Digest (fun _ => None) Tickets.demo_digest
    Tickets.demo_hash (fun _ => "until") (fun _ => "until") "claude"
    (demo_call CapabilityCommand "git push --force") demo_host demo_world demo_policy
    (demo_hook "git push --force").1 (demo_hook "git push --force").2).
  - apply demo_ordinary. vm_compute. reflexivity.
  - reflexivity.
  - vm_compute. reflexivity.
  - vm_compute. reflexivity.
  - apply surjective_pairing.
Defined.

(** [make all] matches the Overlay's ask, which night mode relaxes. *)
Lemma hook_allow_grounds_witness :
  exists v merged, (demo_hook "make all").1 = Emitted v /\ v_Decision v = Allow /\
    (v_Decision (Evaluate demo_url_Parse demo_glob demo_analyze demo_bash demo_paths
       (demo_call CapabilityCommand "make all") merged) = Allow \/
     v_Decision (Evaluate demo_url_Parse demo_glob demo_analyze demo_bash demo_paths
       (demo_call CapabilityCommand "make all") merged) = Ask).
Proof.
  destruct (hook_allow_grounds demo_fs "/" "v0.23.36-dev" "/home/op/waivers.toml" demo_url_Parse demo_glob
    demo_analyze demo_bash demo_paths (fun _ _ => false) (fun _ => false) (fun _ => None)
    (fun _ _ => None) (fun _ _ => None) ActionGrant.demo_Digest (fun _ => None) Tickets.demo_digest
    Tickets.demo_hash (fun _ => "until") (fun _ => "until") "claude"
    (demo_call CapabilityCommand "make all") demo_host demo_world
    (demo_hook "make all").1 (demo_hook "make all").2)
    as [_ H].
  - apply demo_ordinary. vm_compute. reflexivity.
  - apply surjective_pairing.
  - destruct (H (relaxed_verdict "ask-allowed-by-night-mode" "X1" "allowed by active night mode")) as (merged & _ & Hg);
      [vm_compute; reflexivity|reflexivity|]. clear H.
    exists (relaxed_verdict "ask-allowed-by-night-mode" "X1" "allowed by active night mode"), merged.
    split; [vm_compute; reflexivity|]. split; [reflexivity|].
    destruct Hg as [?|[? _]]; [by left|by right].
Defined.
