(* ===== verification/Simple.v ===== *)
(** * Simple commands ([Simple] of [internal/engine/tokenize.go])

    What the shell analysis hands the rules for one command: its words, its
    redirections, the directory and environment it runs in, and what is known of
    each word. The analysis itself walks the syntax tree of a third-party parser
    and is not modelled; the commands the rules derive from one are. *)

From Stdlib Require Import ZArith Lia Bool.
From S2P Require Import Prelude GoStrings GoPath Policy Argv Engine.

Open Scope string_scope.
Open Scope list_scope.

Inductive stdoutFate := stdoutRoot | stdoutContained | stdoutExposed.

#[global] Instance stdoutFate_eq_dec : EqDecision stdoutFate.
Proof. solve_decision. Defined.

(** A [map[int]bool] that only ever holds [true] is a set of positions; of
    [shellState] the rules read whether the file system may have changed. *)
Record Simple := {
  s_Argv : list string;
  s_Redirects : list string;
  s_ReadRedirects : list string;
  s_Cwd : string;
  s_Unresolved : bool;
  s_findCallback : bool;
  s_literalArgs : gset nat;
  s_literalOut : gset nat;
  s_literalIn : gset nat;
  s_resolvedArgs : gset nat;
  s_resolvedOut : gset nat;
  s_resolvedIn : gset nat;
  s_gitEnvironment : gmap string string;
  s_goEnvironment : gmap string string;
  s_goBin : string;
  s_gitEnvironmentUnknown : bool;
  s_gitInitExpected : bool;
  s_fsUncertain : bool;
  s_pipelines : list (nat * nat);
  s_cwdUnknown : bool;
  s_cwdOnlyUnresolved : bool;
  s_plainCall : bool;
  s_globTailResolved : gmap nat string;
  s_stdoutFate : stdoutFate;
  s_stateFsUncertain : bool;
}.

(** [Simple{Argv: argv, Cwd: cwd}]. *)
Definition plain_simple (argv : list string) (cwd : string) : Simple :=
  {| s_Argv := argv; s_Redirects := []; s_ReadRedirects := []; s_Cwd := cwd; s_Unresolved := false;
     s_findCallback := false; s_literalArgs := ∅; s_literalOut := ∅; s_literalIn := ∅; s_resolvedArgs := ∅;
     s_resolvedOut := ∅; s_resolvedIn := ∅; s_gitEnvironment := ∅; s_goEnvironment := ∅; s_goBin := "";
     s_gitEnvironmentUnknown := false; s_gitInitExpected := false; s_fsUncertain := false; s_pipelines := [];
     s_cwdUnknown := false; s_cwdOnlyUnresolved := false; s_plainCall := false; s_globTailResolved := ∅;
     s_stdoutFate := stdoutRoot; s_stateFsUncertain := false |}.

(** ** Provenance of derived commands *)

Definition in_window (offset length index : nat) : bool := (offset <=? index)%nat && (index <? offset + length)%nat.

Definition remapProvenance (provenance : gset nat) (offset length : nat) : gset nat :=
  set_map (fun i => i - offset)%nat (filter (fun i => in_window offset length i = true) provenance).

Definition remapStringProvenance (values : gmap nat string) (offset length : nat) : gmap nat string :=
  list_to_map
    (map (fun kv => (kv.1 - offset, kv.2)%nat) (List.filter (fun kv => in_window offset length kv.1) (map_to_list values))).

(** [commandDerivedFromAt]; no source position is [-1]. *)
Definition commandDerivedFromAt (outer : Simple) (argv : list string) (sourceArg : option nat) : Simple :=
  let at_source (offset : nat) := (offset + length argv <=? length (s_Argv outer))%nat in
  let whole := match sourceArg with
               | Some 0%nat => (length argv =? length (s_Argv outer))%nat
               | _ => false
               end in
  {| s_Argv := argv; s_Redirects := []; s_ReadRedirects := []; s_Cwd := s_Cwd outer;
     s_Unresolved := s_Unresolved outer || (s_gitEnvironmentUnknown outer && (head argv =s? "git"));
     s_findCallback := s_findCallback outer;
     s_literalArgs := match sourceArg with
                      | Some o => if at_source o then remapProvenance (s_literalArgs outer) o (length argv) else ∅
                      | None => ∅ end;
     s_literalOut := s_literalOut outer; s_literalIn := s_literalIn outer;
     s_resolvedArgs := match sourceArg with
                       | Some o => if at_source o then remapProvenance (s_resolvedArgs outer) o (length argv) else ∅
                       | None => ∅ end;
     s_resolvedOut := s_resolvedOut outer; s_resolvedIn := s_resolvedIn outer;
     s_gitEnvironment := s_gitEnvironment outer; s_goEnvironment := s_goEnvironment outer; s_goBin := s_goBin outer;
     s_gitEnvironmentUnknown := s_gitEnvironmentUnknown outer; s_gitInitExpected := s_gitInitExpected outer;
     s_fsUncertain := s_fsUncertain outer ||
       ((head argv =s? "find") && (s_stateFsUncertain outer || (0 <? length (s_pipelines outer))%nat));
     s_pipelines := s_pipelines outer; s_cwdUnknown := s_cwdUnknown outer;
     s_cwdOnlyUnresolved := s_cwdOnlyUnresolved outer && whole;
     s_plainCall := s_plainCall outer && whole;
     s_globTailResolved := match sourceArg with
                           | Some o => if at_source o then remapStringProvenance (s_globTailResolved outer) o (length argv)
                                       else ∅
                           | None => ∅ end;
     s_stdoutFate := s_stdoutFate outer; s_stateFsUncertain := s_stateFsUncertain outer |}.

(** A callback of [find], which runs in a directory the analysis does not know
    when [find] changes it. *)
Definition as_callback (execDir : bool) (s : Simple) : Simple :=
  {| s_Argv := s_Argv s; s_Redirects := s_Redirects s; s_ReadRedirects := s_ReadRedirects s; s_Cwd := s_Cwd s;
     s_Unresolved := s_Unresolved s || execDir; s_findCallback := true; s_literalArgs := s_literalArgs s;
     s_literalOut := s_literalOut s; s_literalIn := s_literalIn s; s_resolvedArgs := s_resolvedArgs s;
     s_resolvedOut := s_resolvedOut s; s_resolvedIn := s_resolvedIn s; s_gitEnvironment := s_gitEnvironment s;
     s_goEnvironment := s_goEnvironment s; s_goBin := s_goBin s;
     s_gitEnvironmentUnknown := s_gitEnvironmentUnknown s; s_gitInitExpected := s_gitInitExpected s;
     s_fsUncertain := s_fsUncertain s; s_pipelines := s_pipelines s; s_cwdUnknown := s_cwdUnknown s || execDir;
     s_cwdOnlyUnresolved := s_cwdOnlyUnresolved s; s_plainCall := s_plainCall s;
     s_globTailResolved := s_globTailResolved s; s_stdoutFate := s_stdoutFate s;
     s_stateFsUncertain := s_stateFsUncertain s |}.

Section Words.
(** [literalText]: whether the shell parser reads the word as literal text. *)
Context (literalText : string -> bool).

Definition wordUnresolved (s : Simple) (index : nat) : bool :=
  match s_Argv s !! index with
  | None => false
  | Some word =>
      if bool_decide (index ∈ s_literalArgs s) || bool_decide (index ∈ s_resolvedArgs s) then false
      else negb (literalText word)
  end.

Definition outputRedirectUnresolved (s : Simple) (index : nat) : bool :=
  match s_Redirects s !! index with
  | None => false
  | Some word =>
      if bool_decide (index ∈ s_literalOut s) || bool_decide (index ∈ s_resolvedOut s) then false
      else negb (literalText word)
  end.
End Words.

Definition simpleCwd (s : Simple) (tc : ToolCall) : string :=
  if s_cwdUnknown s then "" else if s_Cwd s <>s? "" then s_Cwd s else tc_CWD tc.
