(* ===== verification/GitRepo.v ===== *)
(** * Which repository a git command works on
    ([internal/engine/rules_git.go], the path helpers of
    [internal/engine/rules_bash.go] and [internal/engine/rules_path.go])

    [git config] is only allowed to write the repository of the tool call, or a
    scratch repository under a system temp root.  This file models how the
    engine finds the repository a command targets: the environment and the
    global options git reads, the walk up to an enclosing [.git], the
    [commondir] indirection, and the temp-root boundary no walk crosses. *)

From Stdlib Require Import ZArith Lia Bool.
From S2P Require Import Prelude GoStrings GoPath Policy Argv Engine Simple.

Open Scope string_scope.
Open Scope list_scope.

(** ** [strings.TrimSpace] *)

(** The UTF-8 encodings of the code points [unicode.IsSpace] accepts. *)
Definition bytes_of (l : list nat) : string :=
  fold_right (fun n s => String (byte_of n) s) "" l.

Definition space_encodings : list string :=
  List.map bytes_of
    ([[9]; [10]; [11]; [12]; [13]; [32]; [194; 133]; [194; 160]; [225; 154; 128];
      [226; 128; 168]; [226; 128; 169]; [226; 128; 175]; [226; 129; 159]; [227; 128; 128]] ++
     List.map (fun n => [226; 128; 128 + n]) (seq 0 11))%nat.

Definition drop_space (encs : list string) (s : string) : option string :=
  fold_right (fun e acc => match CutPrefix s e with Some t => Some t | None => acc end) None encs.

Fixpoint trim_left (encs : list string) (fuel : nat) (s : string) : string :=
  match fuel with
  | O => s
  | S fuel' => match drop_space encs s with Some t => trim_left encs fuel' t | None => s end
  end.

Definition TrimSpace (s : string) : string :=
  let l := trim_left space_encodings (String.length s) s in
  srev (trim_left (List.map srev space_encodings) (String.length l) (srev l)).

(** ** The host *)

(** What [os.Stat] and [File.Stat] report. *)
Record FileInfo := { fi_dir : bool; fi_regular : bool; fi_size : Z }.

(** The host's answers about its file system and environment. *)
Record GitHost := {
  gh_fs : FS;                                   (* os.Lstat, filepath.EvalSymlinks *)
  gh_stat : string -> option FileInfo;          (* os.Stat; None is an error *)
  gh_open : string -> option (option FileInfo * option string);
      (* openMetadataFile, the opened file's Stat and its contents; None is an error *)
  gh_env : string -> option string;             (* os.LookupEnv *)
  gh_wd : option string;                        (* os.Getwd *)
}.

(** [filepath.Abs] *)
Definition Abs (h : GitHost) (p : string) : option string :=
  if IsAbs p then Some (Clean p)
  else match gh_wd h with Some wd => Some (JoinPath [wd; p]) | None => None end.

(** [filepath.Dir]: what is before the last separator, cleaned. *)
Definition Dir (p : string) : string := Clean (srev (snd (span_component (srev p)))).

(** [os.TempDir] *)
Definition TempDir (h : GitHost) : string :=
  match gh_env h "TMPDIR" with
  | Some d => if d =s? "" then "/tmp" else d
  | None => "/tmp"
  end.

(** ** Paths *)

(** [hostProbePath] is the identity on a POSIX host. *)
Definition resolvePath (p cwd : string) : string :=
  if HasPrefix p "~" then p
  else if IsAbs p || (cwd =s? "") then p
  else if HasSuffix cwd sep then cwd +:+ p
  else cwd +:+ sep +:+ p.

Definition resolveExistingPath (h : GitHost) (candidate cwd : string) : option string :=
  ResolveThroughExistingAncestor (gh_fs h) (resolvePath candidate cwd).

Definition add_temp_root (h : GitHost) (roots : list string) (candidate : string) : list string :=
  let root := Clean candidate in
  if negb (IsAbs root) || (root =s? sep) || in_list root roots then roots
  else
    match gh_stat h root with
    | Some info =>
        if negb (fi_dir info) then roots
        else
          let roots := roots ++ [root] in
          match fs_evalsymlinks (gh_fs h) root with
          | Some resolved =>
              if (resolved <>s? root) && negb (in_list resolved roots)
              then roots ++ [resolved] else roots
          | None => roots
          end
    | None => roots
    end.

Definition systemTempRoots (h : GitHost) : list string :=
  foldl (add_temp_root h) [] [TempDir h; "/tmp"; "/var/tmp"].

(** The temp root that strictly encloses [dir], if any. *)
Fixpoint temp_boundary (dir : string) (roots : list string) : option string :=
  match roots with
  | [] => None
  | r :: rest =>
      let root := Clean r in
      if (root =s? "") || (root =s? sep) then temp_boundary dir rest
      else if HasPrefix dir (root +:+ sep) then Some root
      else temp_boundary dir rest
  end.

Definition tempRootBoundary (dir : string) (roots : list string) : option string :=
  temp_boundary (Clean dir) roots.

(** ** Reading git's own files *)

Definition small (info : FileInfo) : bool := fi_regular info && negb (4096 <? fi_size info)%Z.

(** The contents [openRegularFile] gives access to. *)
Definition openRegularFile (h : GitHost) (path : string) : option (option string) :=
  match gh_open h path with
  | Some (Some info, contents) => if small info then Some contents else None
  | _ => None
  end.

Definition read_limit : nat := Z.to_nat 4097.

Definition readSmallFile (h : GitHost) (path : string) : option string :=
  match gh_stat h path with
  | Some info =>
      if negb (small info) then None
      else
        match openRegularFile h path with
        | Some (Some data) =>
            let contents := stake read_limit data in
            if (Z.of_nat (String.length contents) <=? 4096)%Z then Some contents else None
        | _ => None
        end
  | None => None
  end.

Definition readGitDirectoryFile (h : GitHost) (path : string) : option string :=
  match readSmallFile h path with
  | None => None
  | Some value =>
      let '(prefix, target, found) := Cut (TrimSpace value) ":" in
      if negb found || negb (EqualFold (TrimSpace prefix) "gitdir") || (TrimSpace target =s? "")
      then None
      else Some (resolvePath (TrimSpace target) (Dir path))
  end.

(** ** Walking up to the enclosing repository *)

Definition below (boundary : option string) (directory : string) : bool :=
  match boundary with
  | Some b => HasPrefix directory (b +:+ sep)
  | None => true
  end.

Definition git_at (directory : string) : string := JoinPath [directory; ".git"].

(** The loop of [discoverGitDirectoryWithRoots]; the outer [None] is a loop
    that has not ended within the fuel. *)
Fixpoint discover_loop (h : GitHost) (boundary : option string) (fuel : nat) (directory : string)
  : option (option string) :=
  match fuel with
  | O => None
  | S fuel' =>
      if negb (below boundary directory) then Some None
      else
        let candidate := git_at directory in
        match gh_stat h candidate with
        | Some info =>
            if fi_dir info then Some (Some candidate)
            else Some (readGitDirectoryFile h candidate)
        | None =>
            let parent := Dir directory in
            if parent =s? directory then Some None
            else discover_loop h boundary fuel' parent
        end
  end.

(** Every step but the last drops one element of the path. *)
Definition walk_fuel (directory : string) : nat := S (length (elements directory)).

Definition discoverGitDirectoryWithRoots (h : GitHost) (start : string) (roots : list string)
  : option string :=
  match Abs h start with
  | None => None
  | Some directory =>
      match discover_loop h (tempRootBoundary directory roots) (walk_fuel directory) directory with
      | Some r => r
      | None => None
      end
  end.

Definition discoverGitDirectory (h : GitHost) (start : string) : option string :=
  discoverGitDirectoryWithRoots h start (systemTempRoots h).

(** ** The environment and the global options *)

Definition gitRepositoryEnvironmentFromProcess (h : GitHost) (clean : bool) : gmap string string :=
  if clean then ∅
  else
    foldl (fun env name => match gh_env h name with Some v => <[name := v]> env | None => env end) ∅
      ["GIT_DIR"; "GIT_COMMON_DIR"; "GIT_WORK_TREE"; "GIT_CEILING_DIRECTORIES";
       "GIT_DISCOVERY_ACROSS_FILESYSTEM"].

(** Reading a Go map: a missing key is the empty string. *)
Definition env_value (env : gmap string string) (name : string) : string :=
  default "" (env !! name).

Fixpoint normalizeGitIdentityArgs (args : list string) : list string :=
  match args with
  | [] => []
  | arg :: rest =>
      if HasPrefix arg "-C" && (2 <? String.length arg)%nat
      then "-C" :: sdrop 2 arg :: normalizeGitIdentityArgs rest
      else arg :: normalizeGitIdentityArgs rest
  end.

(** The loop over the global options: the working directory and git directory
    they leave, or [None] where the source gives up. *)
Fixpoint common_options (globalArgs : list string) (current gitDir : string)
  : option (string * string) :=
  match globalArgs with
  | [] => Some (current, gitDir)
  | arg :: rest =>
      if arg =s? "-C" then
        match rest with
        | [] => None
        | v :: rest' => common_options rest' (resolvePath v current) gitDir
        end
      else if arg =s? "--git-dir" then
        match rest with
        | [] => None
        | v :: rest' => common_options rest' current v
        end
      else if HasPrefix arg "--git-dir=" then
        common_options rest current (TrimPrefix arg "--git-dir=")
      else if arg =s? "--bare" then None
      else common_options rest current gitDir
  end.

(** Where the shared part of the repository at [gitDir] is. *)
Definition common_dir (h : GitHost) (configured gitDir current : string) : option string :=
  if configured =s? "" then
    let commonDirFile := JoinPath [gitDir; "commondir"] in
    match readSmallFile h commonDirFile with
    | Some value => Some (resolvePath (TrimSpace value) gitDir)
    | None =>
        match fs_lstat (gh_fs h) commonDirFile with
        | LNotExist => Some gitDir
        | _ => None
        end
    end
  else if negb (IsAbs configured) then Some (resolvePath configured current)
  else Some configured.

Definition gitCommonDirectory (h : GitHost) (globalArgs : list string) (cwd : string)
    (variables : gmap string string) (cleanEnvironment : bool) : option string :=
  let environment := variables ∪ gitRepositoryEnvironmentFromProcess h cleanEnvironment in
  if env_value environment "GIT_CEILING_DIRECTORIES" <>s? "" then None
  else
    match common_options globalArgs cwd (env_value environment "GIT_DIR") with
    | None => None
    | Some (current, gitDir) =>
        let found :=
          if gitDir =s? "" then discoverGitDirectory h current
          else if negb (IsAbs gitDir) then Some (resolvePath gitDir current)
          else Some gitDir in
        match found with
        | None => None
        | Some gitDir =>
            match common_dir h (env_value environment "GIT_COMMON_DIR") gitDir current with
            | None => None
            | Some commonDir =>
                match gh_stat h (JoinPath [gitDir; "HEAD"]) with
                | None => None
                | Some _ =>
                    match resolveExistingPath h commonDir "" with
                    | None => None
                    | Some resolved =>
                        match gh_stat h resolved with
                        | Some info => if fi_dir info then Some resolved else None
                        | None => None
                        end
                    end
                end
            end
        end
    end.

(** ** A directory [git init] is about to make a repository *)

Fixpoint uninit_options (globalArgs : list string) (current : string) : option string :=
  match globalArgs with
  | [] => Some current
  | arg :: rest =>
      let '(base, _, has_eq) := Cut arg "=" in
      if arg =s? "-C" then
        match rest with
        | [] => None
        | v :: rest' => uninit_options rest' (resolvePath v current)
        end
      else if (base =s? "--git-dir") || (arg =s? "--bare") then None
      else if gitValueFlags base && negb has_eq then
        match rest with
        | [] => None
        | _ :: rest' => uninit_options rest' current
        end
      else uninit_options rest current
  end.

(** The loop of [gitConfigUninitializedDirectory]: whether the walk reaches the
    boundary or the root without meeting a [.git]. *)
Fixpoint uninit_loop (h : GitHost) (boundary : option string) (fuel : nat) (directory : string)
  : option bool :=
  match fuel with
  | O => None
  | S fuel' =>
      if match boundary with Some b => directory =s? b | None => false end then Some true
      else
        match fs_lstat (gh_fs h) (git_at directory) with
        | LNotExist =>
            let parent := Dir directory in
            if parent =s? directory then Some true
            else uninit_loop h boundary fuel' parent
        | _ => Some false
        end
  end.

Definition gitConfigUninitializedDirectory (h : GitHost) (globalArgs : list string) (cwd : string)
    (variables : gmap string string) (initialized : bool) : option string :=
  if negb initialized then None
  else
    let environment := variables ∪ gitRepositoryEnvironmentFromProcess h false in
    if existsb (fun name => env_value environment name <>s? "")
         ["GIT_DIR"; "GIT_COMMON_DIR"; "GIT_WORK_TREE"; "GIT_CEILING_DIRECTORIES"] then None
    else
      match uninit_options globalArgs cwd with
      | None => None
      | Some current =>
          match Abs h current with
          | None => None
          | Some directory =>
              match uninit_loop h (tempRootBoundary directory (systemTempRoots h))
                      (walk_fuel directory) directory with
              | Some true => Some directory
              | _ => None
              end
          end
      end.

Definition gitInitCurrentDirectory (s : Simple) : option string :=
  if (head (s_Argv s) <>s? "git") || s_cwdUnknown s then None
  else if gitSubcommand (s_Argv s) <>s? "init" then None
  else if forallb (fun arg => in_list arg ["-q"; "--quiet"; "--"]) (git_args (s_Argv s))
  then Some (Clean (s_Cwd s))
  else None.

(** ** The repository a [git config] targets *)

(** The physical roots, or [None] where [target] is one of them. *)
Fixpoint physical_roots (h : GitHost) (target : string) (roots : list string)
  : option (list string) :=
  match roots with
  | [] => Some []
  | root :: rest =>
      match resolveExistingPath h root "" with
      | None => physical_roots h target rest
      | Some physicalRoot =>
          if Clean target =s? Clean physicalRoot then None
          else match physical_roots h target rest with
               | Some l => Some (physicalRoot :: l)
               | None => None
               end
      end
  end.

Definition gitConfigPathUnderSystemTempRoot (h : GitHost) (path : string) : bool :=
  match resolveExistingPath h path "" with
  | None => false
  | Some target =>
      match physical_roots h target (systemTempRoots h) with
      | None => false
      | Some roots => existsb (fun root => withinSafe target root []) roots
      end
  end.

Definition sameGitConfigPath (h : GitHost) (left right : string) : bool :=
  match Abs h left, Abs h right with
  | Some leftAbs, Some rightAbs =>
      if Clean leftAbs =s? Clean rightAbs then true
      else
        match resolveExistingPath h leftAbs "", resolveExistingPath h rightAbs "" with
        | Some leftPhysical, Some rightPhysical => Clean leftPhysical =s? Clean rightPhysical
        | _, _ => false
        end
  | _, _ => false
  end.

(** The global options: the words between [git] and the subcommand. *)
Definition git_global_args (argv : list string) : list string :=
  match gitSubcommandIndex argv with
  | Some i => firstn (i - 1) (tail argv)
  | None => []
  end.

Definition gitConfigTargetsToolCallRepo (h : GitHost) (s : Simple) (tc : ToolCall) : bool :=
  match gitSubcommandIndex (s_Argv s) with
  | None => false
  | Some _ =>
      if s_cwdUnknown s || s_gitEnvironmentUnknown s || (s_Cwd s =s? "") then false
      else
        let globalArgs := normalizeGitIdentityArgs (git_global_args (s_Argv s)) in
        match gitCommonDirectory h globalArgs (s_Cwd s) (s_gitEnvironment s) false with
        | Some target =>
            if gitConfigPathUnderSystemTempRoot h target then true
            else if tc_RepoRoot tc =s? "" then false
            else
              match gitCommonDirectory h ["-C"; tc_RepoRoot tc] (s_Cwd s) ∅ true with
              | Some trusted => sameGitConfigPath h target trusted
              | None => false
              end
        | None =>
            match gitConfigUninitializedDirectory h globalArgs (s_Cwd s) (s_gitEnvironment s)
                    (s_gitInitExpected s) with
            | Some current => gitConfigPathUnderSystemTempRoot h current
            | None => false
            end
        end
  end.

(** ** Lemmas: rooted paths and their parents *)

Definition rooted (es : list string) : string := sep +:+ Join es sep.

Definition name_ok (e : string) : Prop := element_ok e /\ e <> "..".

Lemma name_ok_elements es : Forall name_ok es -> Forall element_ok es.
Proof. intros H. eapply Forall_impl; [done|]. by intros e []. Qed.

Lemma elements_rooted es : Forall name_ok es -> elements (rooted es) = es.
Proof.
  intros H. apply name_ok_elements in H. unfold rooted, elements. simpl.
  by rewrite <- (elements_Join _ H) at 2.
Qed.

Lemma Clean_abs_rooted p :
  IsAbs p = true -> exists es, Clean p = rooted es /\ Forall name_ok es.
Proof.
  intros Habs. destruct (Clean_abs_shape _ Habs) as (es & HC & He & Hok).
  exists es. split; [done|]. apply Forall_forall. intros e Hin. split.
  - rewrite Forall_forall in Hok. by apply Hok.
  - intros ->. apply (Clean_rooted_no_dotdot _ Habs). by rewrite He.
Qed.

Lemma rooted_Split es :
  es <> [] -> Forall name_ok es -> Split (rooted es) slash = "" :: es.
Proof.
  intros Hne H. unfold rooted. simpl. f_equal. apply Split_Join; [done|].
  apply no_slash_of_ok. by apply name_ok_elements.
Qed.

Lemma Clean_rooted es : Forall name_ok es -> Clean (rooted es) = rooted es.
Proof.
  intros H. destruct (decide (es = [])) as [->|Hne]; [done|].
  unfold Clean, clean_stack. rewrite rooted_Split by done. simpl.
  change (foldl (clean_step true) (clean_step true [] "") es)
    with (foldl (clean_step true) [] es).
  rewrite clean_scan_names by done. by rewrite app_nil_r, rev_involutive.
Qed.

Lemma Clean_trailing_sep p : p <> "" -> Clean (p +:+ sep) = Clean p.
Proof.
  intros Hne.
  assert (Ha : IsAbs (p +:+ sep) = IsAbs p) by (by destruct p).
  assert (Hs : Split (p +:+ sep) slash = Split p slash ++ [""]).
  { clear. induction p as [|c p IH]; [done|]. simpl. rewrite IH.
    destruct (Ascii.eqb c slash); [done|].
    pose proof (Split_not_nil p slash). by destruct (Split p slash). }
  unfold Clean, clean_stack. rewrite Ha, Hs, foldl_app. done.
Qed.

Lemma srev_append_app s acc : srev_append s acc = srev s +:+ acc.
Proof.
  unfold srev. revert acc. induction s as [|c s IH]; intros acc; [done|]. simpl.
  rewrite IH, (IH (String c "")). by rewrite append_assoc.
Qed.

Lemma srev_cons c s : srev (String c s) = srev s +:+ String c "".
Proof. exact (srev_append_app s (String c "")). Qed.

Lemma srev_app s t : srev (s +:+ t) = srev t +:+ srev s.
Proof.
  induction s as [|c s IH]; [by rewrite append_nil_r|].
  change (String c s +:+ t) with (String c (s +:+ t)).
  by rewrite !srev_cons, IH, append_assoc.
Qed.

Lemma srev_srev s : srev (srev s) = s.
Proof. induction s as [|c s IH]; [done|]. by rewrite srev_cons, srev_app, IH. Qed.

Lemma ContainsByte_app s t c : ContainsByte (s +:+ t) c = ContainsByte s c || ContainsByte t c.
Proof. induction s as [|b s IH]; [done|]. simpl. by rewrite IH, orb_assoc. Qed.

Lemma ContainsByte_srev s c : ContainsByte (srev s) c = ContainsByte s c.
Proof.
  induction s as [|b s IH]; [done|].
  rewrite srev_cons, ContainsByte_app, IH. simpl. by rewrite orb_false_r, orb_comm.
Qed.

Lemma span_component_app w r :
  ContainsByte w slash = false ->
  span_component (w +:+ String slash r) = (w, String slash r).
Proof.
  induction w as [|c w IH]; intros H; [done|]. simpl in *.
  apply orb_false_iff in H as [Hc Hw]. by rewrite Hc, IH.
Qed.

Lemma Dir_app a w :
  ContainsByte w slash = false -> Dir (a +:+ String slash w) = Clean (a +:+ sep).
Proof.
  intros H. unfold Dir.
  replace (a +:+ String slash w) with ((a +:+ sep) +:+ w) by (by rewrite append_assoc).
  rewrite srev_app, (srev_app a). change (srev sep) with sep.
  change (sep +:+ srev a) with (String slash (srev a)).
  rewrite span_component_app by (by rewrite ContainsByte_srev). simpl.
  change (String slash (srev a)) with (sep +:+ srev a).
  rewrite srev_app, srev_srev. done.
Qed.

(** The parent of a rooted path drops its last element. *)
Lemma Dir_rooted es w : Forall name_ok (es ++ [w]) -> Dir (rooted (es ++ [w])) = rooted es.
Proof.
  intros H. apply Forall_app in H as [Hes Hw].
  apply Forall_cons in Hw as [[(_ & _ & Hw) _] _].
  destruct (decide (es = [])) as [->|Hne].
  - change (rooted ([] ++ [w])) with ("" +:+ String slash w). by rewrite Dir_app.
  - unfold rooted. rewrite Join_app by done. rewrite <- append_assoc.
    change (sep +:+ Join [w] sep) with (String slash w). rewrite Dir_app by done.
    rewrite Clean_trailing_sep by done. by apply Clean_rooted.
Qed.

Lemma rooted_inj es fs : Forall name_ok es -> Forall name_ok fs -> rooted es = rooted fs -> es = fs.
Proof. intros H1 H2 E. by rewrite <- (elements_rooted es), E, elements_rooted. Qed.

(** Strictly below a rooted boundary: at least one more element. *)
Lemma below_rooted bs es :
  bs <> [] -> Forall name_ok bs -> Forall name_ok es ->
  below (Some (rooted bs)) (rooted es) = true <-> exists rest, rest <> [] /\ es = bs ++ rest.
Proof.
  intros Hne Hb He. unfold below. rewrite HasPrefix_true. unfold rooted. split.
  - intros [t H]. rewrite !append_assoc in H. simpl in H. injection H as H.
    apply (f_equal (fun s => Split s slash)) in H.
    rewrite Split_Join_app in H by (done || by apply no_slash_of_ok, name_ok_elements).
    pose proof (Split_not_nil t slash) as Ht. exists (Split t slash). split; [done|].
    destruct es as [|e es].
    + exfalso. apply (f_equal length) in H. rewrite length_app in H.
      destruct bs, (Split t slash); simpl in *; done || lia.
    + rewrite Split_Join in H; [done|done|]. by apply no_slash_of_ok, name_ok_elements.
  - intros (rest & Hr & ->). exists (Join rest sep).
    rewrite Join_app by done. by rewrite !append_assoc.
Qed.

(** ** The walk, against the list of ancestors *)

(** The path and its ancestors, nearest first; the argument is the list of its
    elements, innermost first. *)
Fixpoint ancestors (rs : list string) : list string :=
  rooted (rev rs) :: match rs with [] => [] | _ :: t => ancestors t end.

(** The repository of the first directory that has something named [.git]. *)
Fixpoint nearest_git (h : GitHost) (dirs : list string) : option string :=
  match dirs with
  | [] => None
  | d :: rest =>
      match gh_stat h (git_at d) with
      | Some info => if fi_dir info then Some (git_at d) else readGitDirectoryFile h (git_at d)
      | None => nearest_git h rest
      end
  end.

Definition boundary_ok (b : option string) : Prop :=
  match b with
  | Some b => exists bs, b = rooted bs /\ bs <> [] /\ Forall name_ok bs
  | None => True
  end.

Lemma Forall_name_rev rs : Forall name_ok rs -> Forall name_ok (rev rs).
Proof. rewrite rev_alt. apply Forall_reverse. Qed.

Lemma Clean_nonempty p : Clean p <> "".
Proof.
  unfold Clean. destruct (IsAbs p); [done|].
  by destruct (Join (rev (clean_stack p)) sep =s? "") eqn:E; breflect.
Qed.

Lemma temp_boundary_ok es roots : boundary_ok (temp_boundary (rooted es) roots).
Proof.
  induction roots as [|r roots IH]; [done|]. simpl.
  destruct ((Clean r =s? "") || (Clean r =s? sep)) eqn:E; [done|]. breflect.
  destruct (HasPrefix (rooted es) (Clean r +:+ sep)) eqn:Hp; [|done]. simpl.
  assert (Ha : IsAbs r = true).
  { apply HasPrefix_true in Hp as [t Hp]. rewrite <- IsAbs_Clean.
    pose proof (Clean_nonempty r). destruct (Clean r) as [|c p]; [done|].
    unfold rooted in Hp. simpl in Hp. by injection Hp as <- _. }
  destruct (Clean_abs_rooted _ Ha) as (bs & Hb & Hok). exists bs.
  split; [done|]. split; [|done]. intros ->. by rewrite Hb in *.
Qed.

Lemma below_parent b rs w :
  boundary_ok b -> Forall name_ok (w :: rs) ->
  below b (rooted (rev rs)) = true -> below b (rooted (rev (w :: rs))) = true.
Proof.
  intros Hb Hn. destruct b as [b|]; [|done].
  destruct Hb as (bs & -> & Hne & Hbs). pose proof (Forall_name_rev _ Hn) as Hrn.
  apply Forall_cons in Hn as [_ Hn]. apply Forall_name_rev in Hn.
  rewrite !below_rooted by done. intros (rest & Hr & H). exists (rest ++ [w]).
  split; [by destruct rest|]. simpl. by rewrite H, app_assoc.
Qed.

Lemma nothing_below b rs :
  boundary_ok b -> Forall name_ok rs -> below b (rooted (rev rs)) = false ->
  List.filter (below b) (ancestors rs) = [].
Proof.
  intros Hb. induction rs as [|w rs IH]; intros Hn Hf.
  - cbn [ancestors List.filter]. by rewrite Hf.
  - cbn [ancestors List.filter]. rewrite Hf. apply IH; [by apply Forall_cons in Hn as []|].
    destruct (below b (rooted (rev rs))) eqn:E; [|done].
    by rewrite (below_parent _ _ w) in Hf.
Qed.

Lemma Dir_rev w rs :
  Forall name_ok (w :: rs) -> Dir (rooted (rev (w :: rs))) = rooted (rev rs).
Proof. intros H. simpl. apply Dir_rooted. by apply (Forall_name_rev (w :: rs)). Qed.

Lemma Dir_differs w rs :
  Forall name_ok (w :: rs) -> (rooted (rev rs) =s? rooted (rev (w :: rs))) = false.
Proof.
  intros H. apply String.eqb_neq. intros E.
  apply rooted_inj in E; [|apply Forall_name_rev; by apply Forall_cons in H as []|
    by apply Forall_name_rev].
  apply (f_equal length) in E. rewrite !length_rev in E. simpl in E. lia.
Qed.

Lemma discover_loop_spec h b fuel rs :
  boundary_ok b -> Forall name_ok rs -> (length rs < fuel)%nat ->
  discover_loop h b fuel (rooted (rev rs)) =
  Some (nearest_git h (List.filter (below b) (ancestors rs))).
Proof.
  intros Hb. revert rs. induction fuel as [|fuel IH]; intros rs Hn Hf; [lia|].
  cbn [discover_loop]. destruct (below b (rooted (rev rs))) eqn:E; cbn [negb].
  2:{ by rewrite nothing_below. }
  destruct rs as [|w rs]; cbn [ancestors List.filter nearest_git]; rewrite E; cbn [nearest_git].
  - destruct (gh_stat h (git_at (rooted (rev [])))) as [i|]; [by destruct (fi_dir i)|done].
  - destruct (gh_stat h (git_at (rooted (rev (w :: rs))))) as [i|]; [by destruct (fi_dir i)|].
    rewrite Dir_rev, Dir_differs by done. apply IH; [by apply Forall_cons in Hn as []|].
    simpl in Hf. lia.
Qed.

Lemma uninit_loop_total h b fuel rs :
  Forall name_ok rs -> (length rs < fuel)%nat -> uninit_loop h b fuel (rooted (rev rs)) <> None.
Proof.
  revert rs. induction fuel as [|fuel IH]; intros rs Hn Hf; [lia|]. cbn [uninit_loop].
  destruct (match b with Some b => rooted (rev rs) =s? b | None => false end); [done|].
  destruct (fs_lstat (gh_fs h) (git_at (rooted (rev rs)))); [done| |done].
  destruct rs as [|w rs]; [done|]. rewrite Dir_rev, Dir_differs by done.
  apply IH; [by apply Forall_cons in Hn as []|]. simpl in Hf. lia.
Qed.

Lemma Abs_rooted h start d :
  Abs h start = Some d -> IsAbs d = true ->
  exists rs, d = rooted (rev rs) /\ Forall name_ok rs /\ length (elements d) = length rs.
Proof.
  intros H Ha.
  assert (Clean d = d) as HC.
  { unfold Abs in H. destruct (IsAbs start); simplify_eq; [apply Clean_Clean|].
    destruct (gh_wd h) as [wd|]; [|done]. apply (inj Some) in H as <-. unfold JoinPath in *.
    destruct (List.filter _ _); [done|]. apply Clean_Clean. }
  destruct (Clean_abs_rooted _ Ha) as (es & He & Hn). rewrite HC in He. exists (rev es).
  rewrite rev_involutive. repeat split; [done|by apply Forall_name_rev|].
  rewrite He, elements_rooted by done. by rewrite length_rev.
Qed.

(** Two hosts that answer alike about the [.git] of every directory in a list
    give the same nearest repository. *)
Lemma nearest_git_ext h1 h2 dirs :
  (forall d, d ∈ dirs -> gh_stat h1 (git_at d) = gh_stat h2 (git_at d) /\
                         gh_open h1 (git_at d) = gh_open h2 (git_at d)) ->
  nearest_git h1 dirs = nearest_git h2 dirs.
Proof.
  induction dirs as [|d dirs IH]; intros H; [done|]. simpl.
  destruct (H d) as [Hs Ho]; [left|].
  assert (readGitDirectoryFile h1 (git_at d) = readGitDirectoryFile h2 (git_at d)) as ->.
  { unfold readGitDirectoryFile, readSmallFile, openRegularFile. by rewrite Hs, Ho. }
  rewrite Hs. destruct (gh_stat h2 (git_at d)); [done|]. apply IH. intros; apply H. by right.
Qed.

Lemma discover_unfold h start roots d rs :
  Abs h start = Some d -> d = rooted (rev rs) -> Forall name_ok rs ->
  length (elements d) = length rs ->
  discoverGitDirectoryWithRoots h start roots =
  nearest_git h (List.filter (below (tempRootBoundary d roots)) (ancestors rs)).
Proof.
  intros H Hd Hn Hl. unfold discoverGitDirectoryWithRoots. rewrite H.
  unfold walk_fuel, tempRootBoundary. rewrite Hl. subst d.
  rewrite Clean_rooted by (by apply Forall_name_rev).
  rewrite discover_loop_spec; [done|apply temp_boundary_ok|done|lia].
Qed.

(** ** What a path resolved through its existing ancestor looks like *)

(** [filepath.EvalSymlinks] of an absolute path is absolute. *)
Definition evalsymlinks_abs (h : GitHost) : Prop :=
  forall p r, IsAbs p = true -> fs_evalsymlinks (gh_fs h) p = Some r -> IsAbs r = true.

Lemma IsAbs_app p t : IsAbs p = true -> IsAbs (p +:+ t) = true.
Proof. by destruct p. Qed.

Lemma IsAbs_append_missing r c : IsAbs r = true -> IsAbs (append_missing r c) = true.
Proof.
  intros H. unfold append_missing.
  destruct ((r <>s? "") && negb (HasSuffix r sep)); by repeat apply IsAbs_app.
Qed.

Lemma IsAbs_foldl_missing l r : IsAbs r = true -> IsAbs (foldl append_missing r l) = true.
Proof. revert r. induction l as [|c l IH]; intros r H; [done|]. by apply IH, IsAbs_append_missing. Qed.

(** The last byte of a reversed text is the first of the text. *)
Lemma IsAbs_last p : IsAbs p = true -> exists q, srev p = q +:+ sep.
Proof.
  destruct p as [|c p]; [done|]. simpl. intros H. apply Ascii.eqb_eq in H as ->.
  exists (srev p). by rewrite srev_cons.
Qed.

Lemma skip_seps_last q : skip_seps (q +:+ sep) = "" \/ exists q', skip_seps (q +:+ sep) = q' +:+ sep.
Proof.
  induction q as [|c q IH]; [by left|].
  change (String c q +:+ sep) with (String c (q +:+ sep)). cbn [skip_seps].
  destruct (Ascii.eqb c slash); [done|]. right. by exists (String c q).
Qed.

Lemma span_component_last q : exists q', snd (span_component (q +:+ sep)) = q' +:+ sep.
Proof.
  induction q as [|c q IH]; [by exists ""|].
  change (String c q +:+ sep) with (String c (q +:+ sep)). cbn [span_component].
  destruct (Ascii.eqb c slash); [by exists (String c q)|].
  by destruct (span_component (q +:+ sep)).
Qed.

Lemma peel_abs p parent comp :
  IsAbs p = true -> peelTrailingComponent p = Some (parent, comp) -> IsAbs parent = true.
Proof.
  intros H. destruct (IsAbs_last _ H) as [q Hq]. unfold peelTrailingComponent. rewrite Hq.
  destruct (skip_seps_last q) as [->|[q' ->]]; [done|].
  destruct (q' +:+ sep =s? ""); [done|].
  destruct (span_component_last q') as [q'' H''].
  destruct (span_component (q' +:+ sep)) as [c rest]. simpl in H''. subst rest.
  rewrite srev_app. intros E. injection E as <- _. by destruct (srev q'').
Qed.

Lemma resolve_loop_abs h fuel p missing r :
  evalsymlinks_abs h -> IsAbs p = true ->
  resolve_loop (gh_fs h) fuel p missing = Some (Some r) -> IsAbs r = true /\ Clean r = r.
Proof.
  intros He. revert p missing. induction fuel as [|fuel IH]; intros p missing Hp; [done|]. simpl.
  destruct (fs_lstat (gh_fs h) p); [| |done].
  - destruct (fs_evalsymlinks (gh_fs h) p) as [q|] eqn:E; [|done].
    intros H. injection H as <-. rewrite IsAbs_Clean. split; [|apply Clean_Clean].
    eapply IsAbs_foldl_missing, He; done.
  - destruct (peelTrailingComponent p) as [[parent comp]|] eqn:E; [|done].
    apply IH. by eapply peel_abs.
Qed.

Lemma resolveExistingPath_abs h p r :
  evalsymlinks_abs h -> IsAbs p = true -> resolveExistingPath h p "" = Some r ->
  IsAbs r = true /\ Clean r = r.
Proof.
  intros He Hp. unfold resolveExistingPath, resolvePath, ResolveThroughExistingAncestor.
  rewrite Hp. destruct p as [|c p]; [done|].
  assert (HasPrefix (String c p) "~" = false) as ->.
  { simpl in Hp. apply Ascii.eqb_eq in Hp as ->. done. }
  cbn [orb]. change (String c p =s? "") with false. cbv iota.
  destruct (resolve_loop _ _ _ _) as [[q|]|] eqn:E; [|done..].
  intros H. injection H as <-. by eapply resolve_loop_abs.
Qed.

(** ** Temp roots *)

Lemma systemTempRoots_abs h : evalsymlinks_abs h -> Forall (fun r => IsAbs r = true) (systemTempRoots h).
Proof.
  intros He. unfold systemTempRoots.
  assert (Hstep : forall l roots, Forall (fun r => IsAbs r = true) roots ->
            Forall (fun r => IsAbs r = true) (foldl (add_temp_root h) roots l)).
  { induction l as [|c l IH]; intros roots H; [done|]. simpl. apply IH.
    unfold add_temp_root.
    destruct (negb (IsAbs (Clean c)) || (Clean c =s? sep) || in_list (Clean c) roots) eqn:E; [done|].
    breflect. destruct (gh_stat h (Clean c)) as [i|]; [|done]. destruct (fi_dir i); [|done].
    cbn [negb].
    assert (Forall (fun r => IsAbs r = true) (roots ++ [Clean c])) as Hr1
      by (apply Forall_app; by repeat constructor).
    destruct (fs_evalsymlinks (gh_fs h) (Clean c)) as [r|] eqn:Er; [|done].
    destruct ((r <>s? Clean c) && _); [|done]. apply Forall_app. split; [done|].
    repeat constructor. by eapply He. }
  by apply Hstep.
Qed.

(** [target] lies strictly inside [root]. *)
Definition strictly_inside (root target : string) : Prop :=
  exists rest, rest <> [] /\ elements (Clean target) = elements (Clean root) ++ rest.

Lemma physical_roots_spec h target roots l :
  physical_roots h target roots = Some l ->
  forall p, p ∈ l -> (exists r, r ∈ roots /\ resolveExistingPath h r "" = Some p) /\
                     Clean target <> Clean p.
Proof.
  revert l. induction roots as [|r roots IH]; intros l; simpl.
  { intros H p Hp. simplify_eq. by apply elem_of_nil in Hp. }
  destruct (resolveExistingPath h r "") as [pr|] eqn:Er.
  - destruct (Clean target =s? Clean pr) eqn:E; [done|]. breflect.
    destruct (physical_roots h target roots) as [l'|]; [|done].
    intros H p Hp. injection H as <-. apply elem_of_cons in Hp as [->|Hp].
    + split; [|done]. exists r. split; [left|done].
    + destruct (IH _ eq_refl _ Hp) as [(r' & ? & ?) ?]. split; [|done]. exists r'. split; [by right|done].
  - intros H p Hp. destruct (IH _ H _ Hp) as [(r' & ? & ?) ?]. split; [|done].
    exists r'. split; [by right|done].
Qed.

(** Nothing relative is inside an absolute root. *)
Lemma withinSafe_abs target root :
  IsAbs root = true -> withinSafe target root [] = true -> IsAbs target = true.
Proof.
  intros Hr. rewrite <- IsAbs_Clean in Hr. rewrite <- (IsAbs_Clean target). unfold withinSafe.
  destruct ((target =s? "~") || _); [done|]. destruct (Clean target =s? "/"); [done|].
  simpl. rewrite orb_false_r. unfold within_root. destruct (root =s? ""); [done|].
  intros H. apply orb_true_iff in H as [H|H]; [breflect; by rewrite H|].
  apply HasPrefix_true in H as [t ->]. by repeat apply IsAbs_app.
Qed.

Lemma withinSafe_strict target root :
  IsAbs root = true -> Clean target <> Clean root ->
  withinSafe target root [] = true -> strictly_inside root target.
Proof.
  intros Hr Hne Hw. pose proof (withinSafe_abs _ _ Hr Hw) as Ht.
  assert (Hroot : Clean root <> "/").
  { intros Hc. unfold withinSafe in Hw. rewrite abs_not_tilde in Hw by done.
    destruct (Clean target =s? "/"); [done|]. simpl in Hw. rewrite orb_false_r in Hw.
    unfold within_root in Hw. destruct (root =s? ""); [done|].
    apply orb_true_iff in Hw as [Hw|Hw]; [by breflect|].
    rewrite Hc in Hw. destruct (Clean_abs_rooted _ Ht) as (es & Hes & Hn).
    rewrite Hes in Hw. destruct es as [|e es]; [done|].
    apply Forall_cons in Hn as [[(Hn & _ & Hs) _] _]. destruct e as [|c e]; [done|].
    simpl in Hs. apply orb_false_iff in Hs as [Hs _]. apply Ascii.eqb_neq in Hs.
    apply HasPrefix_true in Hw as [t Hw]. unfold rooted in Hw.
    destruct es; simpl in Hw; by injection Hw as -> _. }
  apply withinSafe_spec in Hw; [|done|by repeat constructor].
  destruct Hw as (r & Hin & [rest Hp]). apply list_elem_of_singleton in Hin as ->.
  exists rest. split; [|done]. intros ->. apply Hne. rewrite app_nil_r in Hp.
  destruct (Clean_abs_rooted _ Ht) as (es & He & Hn), (Clean_abs_rooted _ Hr) as (fs & Hf & Hm).
  rewrite He, Hf in *. rewrite !elements_rooted in Hp by done. by subst.
Qed.

(** A path accepted as scratch space is, with every link of its existing part
    resolved, strictly inside a resolved temp root. *)
Lemma under_temp_root_sound h path :
  evalsymlinks_abs h -> gitConfigPathUnderSystemTempRoot h path = true ->
  exists target root physical,
    resolveExistingPath h path "" = Some target /\
    root ∈ systemTempRoots h /\ resolveExistingPath h root "" = Some physical /\
    strictly_inside physical target.
Proof.
  intros He. unfold gitConfigPathUnderSystemTempRoot.
  destruct (resolveExistingPath h path "") as [target|] eqn:Et; [|done].
  destruct (physical_roots h target (systemTempRoots h)) as [l|] eqn:El; [|done].
  intros H. apply existsb_exists in H as (p & Hin & Hw). apply list_elem_of_In in Hin.
  destruct (physical_roots_spec _ _ _ _ El _ Hin) as [(r & Hr & Er) Hne].
  pose proof (systemTempRoots_abs _ He) as Habs. rewrite Forall_forall in Habs.
  exists target, r, p. repeat split; [done|done|].
  apply withinSafe_strict; [|done|done].
  by destruct (resolveExistingPath_abs _ _ _ He (Habs _ Hr) Er).
Qed.

Lemma ancestors_rooted rs d :
  Forall name_ok rs -> d ∈ ancestors rs -> exists es, d = rooted es /\ Forall name_ok es.
Proof.
  intros Hn. induction rs as [|w rs IH]; cbn [ancestors].
  - intros H. apply list_elem_of_singleton in H as ->. by exists [].
  - intros H. apply elem_of_cons in H as [->|H].
    + eexists. split; [done|]. by apply Forall_name_rev.
    + apply IH; [|done]. by apply Forall_cons in Hn as [].
Qed.

(** ** Properties of the walk *)

(** Looking for the repository of a directory always ends, and finds the
    nearest [.git] among the directory and its ancestors that lie strictly
    below the temp root enclosing it (all of them when none does): a [.git]
    directory is the answer, a [.git] file is followed, and one that cannot be
    read means no repository rather than a search further up.  The walk that
    checks for an uninitialised directory always ends too. *)
Theorem discover_nearest h start roots d b :
  Abs h start = Some d -> IsAbs d = true ->
  (exists rs, d = rooted (rev rs) /\ Forall name_ok rs /\
     discoverGitDirectoryWithRoots h start roots =
     nearest_git h (List.filter (below (tempRootBoundary d roots)) (ancestors rs))) /\
  uninit_loop h b (walk_fuel d) d <> None.
Proof.
  intros H Ha. destruct (Abs_rooted _ _ _ H Ha) as (rs & Hd & Hn & Hl). split.
  - exists rs. split; [done|]. split; [done|]. by apply discover_unfold.
  - unfold walk_fuel. rewrite Hl, Hd. apply uninit_loop_total; [done|lia].
Qed.

(** A repository planted at a temp root or above it cannot capture a
    command that runs below that root: two hosts that agree on the [.git]s
    strictly below the boundary discover the same repository, whatever either
    holds at the boundary and above. *)
Theorem planted_git_ignored h1 h2 start roots d b :
  Abs h1 start = Some d -> gh_wd h1 = gh_wd h2 -> IsAbs d = true ->
  tempRootBoundary d roots = Some b ->
  (forall es, Forall name_ok es -> below (Some b) (rooted es) = true ->
     gh_stat h1 (git_at (rooted es)) = gh_stat h2 (git_at (rooted es)) /\
     gh_open h1 (git_at (rooted es)) = gh_open h2 (git_at (rooted es))) ->
  discoverGitDirectoryWithRoots h1 start roots = discoverGitDirectoryWithRoots h2 start roots.
Proof.
  intros H1 Hwd Ha Hb Hagree.
  assert (H2 : Abs h2 start = Some d) by (unfold Abs in *; by rewrite <- Hwd).
  destruct (Abs_rooted _ _ _ H1 Ha) as (rs & Hd & Hn & Hl).
  rewrite (discover_unfold _ _ _ _ _ H1 Hd Hn Hl), (discover_unfold _ _ _ _ _ H2 Hd Hn Hl), Hb.
  apply nearest_git_ext. intros dir Hin. apply list_elem_of_In, filter_In in Hin as [Hin Hbelow].
  apply list_elem_of_In, ancestors_rooted in Hin as (es & -> & Hes); [|done]. by apply Hagree.
Qed.

(** A host with a repository at [/tmp/work/.git] and, where [planted], another
    at [/tmp/.git]. *)
Definition demo_dirs (planted : bool) : list string :=
  ["/"; "/tmp"; "/tmp/work"; "/tmp/work/.git"; "/tmp/work/.git/HEAD"; "/tmp/scratch"] ++
  (if planted then ["/tmp/.git"; "/tmp/.git/HEAD"] else []).

Definition demo_git_host (planted : bool) : GitHost :=
  {| gh_fs := {| fs_lstat := fun p => if in_list p (demo_dirs planted) then LExists else LNotExist;
                 fs_evalsymlinks := fun p => if in_list p (demo_dirs planted) then Some p else None |};
     gh_stat := fun p => if in_list p (demo_dirs planted)
                         then Some {| fi_dir := true; fi_regular := false; fi_size := 4096 |} else None;
     gh_open := fun _ => None;
     gh_env := fun _ => None;
     gh_wd := Some "/home/op" |}.

Lemma discover_nearest_witness :
  uninit_loop (demo_git_host true) (Some "/tmp") (walk_fuel "/tmp/work/sub") "/tmp/work/sub" <> None /\
  discoverGitDirectoryWithRoots (demo_git_host true) "/tmp/work/sub" ["/tmp"] = Some "/tmp/work/.git".
Proof.
  destruct (discover_nearest (demo_git_host true) "/tmp/work/sub" ["/tmp"] "/tmp/work/sub" (Some "/tmp")
    eq_refl eq_refl) as [_ H].
  split; [exact H|reflexivity].
Defined.

Lemma git_at_rooted es : Forall name_ok es -> git_at (rooted es) = rooted (es ++ [".git"]).
Proof.
  intros H. unfold git_at, JoinPath. cbn [List.filter].
  change (Clean (rooted es +:+ sep +:+ ".git") = rooted (es ++ [".git"])).
  destruct (decide (es = [])) as [->|Hne]; [done|].
  rewrite <- (Clean_rooted (es ++ [".git"])) by (apply Forall_app; by repeat constructor).
  unfold rooted. rewrite Join_app by done. by rewrite append_assoc.
Qed.

Lemma demo_host_agrees es :
  Forall name_ok es -> below (Some "/tmp") (rooted es) = true ->
  in_list (git_at (rooted es)) (demo_dirs true) = in_list (git_at (rooted es)) (demo_dirs false).
Proof.
  intros Hn Hb.
  assert (Htmp : Forall name_ok ["tmp"]) by (by repeat constructor).
  apply (below_rooted ["tmp"]) in Hb as (rest & Hr & ->); [|done..].
  rewrite git_at_rooted by done.
  assert (Hne : forall s l, s = rooted l -> Forall name_ok l -> ("tmp" :: rest) ++ [".git"] <> l ->
            (rooted ((["tmp"] ++ rest) ++ [".git"]) =s? s) = false).
  { intros s l -> Hl Hd. apply String.eqb_neq. intros E. apply Hd.
    apply rooted_inj in E; [done|apply Forall_app; split; [done|by repeat constructor]|done]. }
  assert (H1 : (rooted ((["tmp"] ++ rest) ++ [".git"]) =s? "/tmp/.git") = false).
  { apply (Hne _ ["tmp"; ".git"]); [done|by repeat constructor|].
    intros E. destruct rest as [|x [|y rest]]; by simplify_eq/=. }
  assert (H2 : (rooted ((["tmp"] ++ rest) ++ [".git"]) =s? "/tmp/.git/HEAD") = false).
  { apply (Hne _ ["tmp"; ".git"; "HEAD"]); [done|by repeat constructor|].
    intros E. destruct rest as [|x [|y [|z rest]]]; by simplify_eq/=. }
  generalize dependent (rooted ((["tmp"] ++ rest) ++ [".git"])). intros x _ Hx1 Hx2.
  unfold demo_dirs, in_list. rewrite !existsb_app. cbn [existsb]. by rewrite Hx1, Hx2.
Qed.

Lemma planted_git_ignored_witness :
  discoverGitDirectoryWithRoots (demo_git_host true) "/tmp/scratch" ["/tmp"] = None /\
  discoverGitDirectoryWithRoots (demo_git_host true) "/tmp/scratch" ["/tmp"] =
  discoverGitDirectoryWithRoots (demo_git_host false) "/tmp/scratch" ["/tmp"].
Proof.
  split; [reflexivity|].
  apply (planted_git_ignored (demo_git_host true) (demo_git_host false) "/tmp/scratch" ["/tmp"]
    "/tmp/scratch" "/tmp"); [reflexivity..|].
  intros es Hn Hb. split; [|reflexivity]. unfold demo_git_host, gh_stat.
  rewrite (demo_host_agrees es Hn Hb). reflexivity.
Defined.
