(* ===== verification/PlaneContract.v ===== *)
(** * The tools each plane exposes ([internal/planecontract])

    The contract tables, the resolution of a native tool name on each plane, the
    registry of typed MCP tools with [MatchMCPTool], and the tools an adapter may
    allow when the engine cannot be reached.  A Go map with string keys is the list
    of its bindings: [mcpRegistry]'s key is the tool's own name. *)

From Stdlib Require Import ZArith Lia Bool.
From S2P Require Import Prelude GoStrings GoPath Policy Engine GitRepo.

(** ** The tables *)

Record ToolSpec := {
  ts_NativeTool : string;
  ts_Tool : string;
  ts_Capability : Capability;
}.

Definition spec (native tool : string) (c : Capability) : ToolSpec :=
  {| ts_NativeTool := native; ts_Tool := tool; ts_Capability := c |}.

#[export] Instance ToolSpec_eq_dec : EqDecision ToolSpec.
Proof. solve_decision. Defined.

Definition claudeTools : list ToolSpec :=
  [ spec "Agent" "Agent" CapabilityDelegation;
    spec "Task" "Agent" CapabilityDelegation;
    spec "AskUserQuestion" "AskUserQuestion" CapabilitySafeControl;
    spec "Bash" "Bash" CapabilityCommand;
    spec "Edit" "Edit" CapabilityMutation;
    spec "Glob" "Glob" CapabilityReadDiscovery;
    spec "Grep" "Grep" CapabilityReadDiscovery;
    spec "LSP" "LSP" CapabilityReadDiscovery;
    spec "Monitor" "Bash" CapabilityCommand;
    spec "MultiEdit" "MultiEdit" CapabilityMutation;
    spec "NotebookEdit" "NotebookEdit" CapabilityMutation;
    spec "NotebookRead" "NotebookRead" CapabilityReadDiscovery;
    spec "PowerShell" "Bash" CapabilityCommand;
    spec "Read" "Read" CapabilityReadDiscovery;
    spec "WebFetch" "WebFetch" CapabilityWebFetch;
    spec "WebSearch" "WebSearch" CapabilityWebSearch;
    spec "Workflow" "Workflow" CapabilityDelegation;
    spec "Write" "Write" CapabilityMutation;
    spec "Artifact" "Artifact" CapabilityExternal;
    spec "ArtifactCheck" "ArtifactCheck" CapabilityExternal;
    spec "ArtifactComments" "ArtifactComments" CapabilityExternal;
    spec "ArtifactData" "ArtifactData" CapabilityExternal;
    spec "DesignSync" "DesignSync" CapabilityExternal;
    spec "BashOutput" "BashOutput" CapabilitySafeControl;
    spec "KillShell" "KillShell" CapabilitySafeControl;
    spec "Sleep" "Sleep" CapabilitySafeControl;
    spec "StructuredOutput" "StructuredOutput" CapabilitySafeControl;
    spec "CronCreate" "CronCreate" CapabilityExternal;
    spec "CronDelete" "CronDelete" CapabilitySafeControl;
    spec "CronList" "CronList" CapabilitySafeControl;
    spec "EndConversation" "EndConversation" CapabilitySafeControl;
    spec "EnterPlanMode" "EnterPlanMode" CapabilitySafeControl;
    spec "EnterWorktree" "EnterWorktree" CapabilitySafeControl;
    spec "ExitPlanMode" "ExitPlanMode" CapabilitySafeControl;
    spec "ExitWorktree" "ExitWorktree" CapabilitySafeControl;
    spec "ListAgents" "ListAgents" CapabilitySafeControl;
    spec "ListMcpResourcesTool" "ListMcpResourcesTool" CapabilityExternal;
    spec "PushNotification" "PushNotification" CapabilitySafeControl;
    spec "ReadMcpResourceTool" "ReadMcpResourceTool" CapabilityExternal;
    spec "ReadMcpResourceDirTool" "ReadMcpResourceDirTool" CapabilityExternal;
    spec "RemoteTrigger" "RemoteTrigger" CapabilityDeny;
    spec "ReportFindings" "ReportFindings" CapabilitySafeControl;
    spec "ScheduleWakeup" "ScheduleWakeup" CapabilitySafeControl;
    spec "SendFeedback" "SendFeedback" CapabilityDeny;
    spec "SendMessage" "SendMessage" CapabilityDeny;
    spec "SendUserFile" "SendUserFile" CapabilityDeny;
    spec "ShareOnboardingGuide" "ShareOnboardingGuide" CapabilityDeny;
    spec "Skill" "Skill" CapabilitySafeControl;
    spec "SubagentHandback" "SubagentHandback" CapabilitySafeControl;
    spec "TaskCreate" "TaskCreate" CapabilitySafeControl;
    spec "TaskGet" "TaskGet" CapabilitySafeControl;
    spec "TaskList" "TaskList" CapabilitySafeControl;
    spec "TaskOutput" "TaskOutput" CapabilitySafeControl;
    spec "TaskStop" "TaskStop" CapabilitySafeControl;
    spec "TaskUpdate" "TaskUpdate" CapabilitySafeControl;
    spec "TodoWrite" "TodoWrite" CapabilitySafeControl;
    spec "ToolSearch" "ToolSearch" CapabilitySafeControl;
    spec "SendUserMessage" "SendUserMessage" CapabilitySafeControl;
    spec "JavaScript" "JavaScript" CapabilityDeny;
    spec "REPL" "REPL" CapabilityDeny;
    spec "WaitForMcpServers" "WaitForMcpServers" CapabilitySafeControl ].

Definition codexTools : list ToolSpec :=
  [ spec "web.run" "web.run" CapabilityDeny;
    spec "image_gen.imagegen" "image_gen.imagegen" CapabilityExternal;
    spec "clock.curr_time" "clock.curr_time" CapabilitySafeControl;
    spec "clock.sleep" "clock.sleep" CapabilitySafeControl;
    spec "functions.wait" "functions.wait" CapabilitySafeControl;
    spec "functions.exec" "functions.exec" CapabilityDeny;
    spec "write_stdin" "write_stdin" CapabilityDeny;
    spec "Bash" "Bash" CapabilityCommand;
    spec "apply_patch" "Edit" CapabilityMutation;
    spec "view_image" "Read" CapabilityReadDiscovery;
    spec "update_plan" "update_plan" CapabilitySafeControl;
    spec "request_user_input" "request_user_input" CapabilitySafeControl;
    spec "request_user_input_async" "request_user_input_async" CapabilitySafeControl;
    spec "create_goal" "create_goal" CapabilitySafeControl;
    spec "get_goal" "get_goal" CapabilitySafeControl;
    spec "update_goal" "update_goal" CapabilitySafeControl;
    spec "spawn_agent" "spawn_agent" CapabilityDelegation;
    spec "send_input" "send_input" CapabilityDelegation;
    spec "send_message" "send_message" CapabilityDelegation;
    spec "followup_task" "followup_task" CapabilityDelegation;
    spec "collaboration.spawn_agent" "collaboration.spawn_agent" CapabilityDelegation;
    spec "collaboration.send_message" "collaboration.send_message" CapabilityDelegation;
    spec "collaboration.followup_task" "collaboration.followup_task" CapabilityDelegation;
    spec "interrupt_agent" "interrupt_agent" CapabilitySafeControl;
    spec "resume_agent" "resume_agent" CapabilityDelegation;
    spec "wait_agent" "wait_agent" CapabilitySafeControl;
    spec "close_agent" "close_agent" CapabilitySafeControl;
    spec "list_agents" "list_agents" CapabilitySafeControl;
    spec "collaboration.interrupt_agent" "collaboration.interrupt_agent" CapabilitySafeControl;
    spec "collaboration.list_agents" "collaboration.list_agents" CapabilitySafeControl;
    spec "collaboration.wait_agent" "collaboration.wait_agent" CapabilitySafeControl;
    spec "list_mcp_resources" "list_mcp_resources" CapabilityDeny;
    spec "list_mcp_resource_templates" "list_mcp_resource_templates" CapabilityDeny;
    spec "read_mcp_resource" "read_mcp_resource" CapabilityDeny ].

Definition opencodeTools : list ToolSpec :=
  [ spec "bash" "Bash" CapabilityCommand;
    spec "read" "Read" CapabilityReadDiscovery;
    spec "glob" "Glob" CapabilityReadDiscovery;
    spec "grep" "Grep" CapabilityReadDiscovery;
    spec "lsp" "LSP" CapabilityReadDiscovery;
    spec "edit" "Edit" CapabilityMutation;
    spec "write" "Write" CapabilityMutation;
    spec "apply_patch" "apply_patch" CapabilityMutation;
    spec "webfetch" "webfetch" CapabilityWebFetch;
    spec "websearch" "websearch" CapabilityWebSearch;
    spec "question" "question" CapabilitySafeControl;
    spec "skill" "skill" CapabilitySafeControl;
    spec "todowrite" "todowrite" CapabilitySafeControl;
    spec "task" "task" CapabilityDelegation ].

Definition antigravityTools : list ToolSpec :=
  [ spec "run_command" "Bash" CapabilityCommand;
    spec "view_file" "Read" CapabilityReadDiscovery;
    spec "list_dir" "List" CapabilityReadDiscovery;
    spec "find_by_name" "Glob" CapabilityReadDiscovery;
    spec "grep_search" "Grep" CapabilityReadDiscovery;
    spec "write_to_file" "Write" CapabilityMutation;
    spec "replace_file_content" "Edit" CapabilityMutation;
    spec "multi_replace_file_content" "Edit" CapabilityMutation;
    spec "read_url_content" "read_url_content" CapabilityWebFetch;
    spec "search_web" "search_web" CapabilityWebSearch;
    spec "manage_task" "manage_task" CapabilitySafeControl;
    spec "schedule" "schedule" CapabilityExternal;
    spec "list_permissions" "list_permissions" CapabilitySafeControl;
    spec "ask_permission" "ask_permission" CapabilitySafeControl;
    spec "invoke_subagent" "invoke_subagent" CapabilityDelegation;
    spec "define_subagent" "define_subagent" CapabilityDeny;
    spec "send_message" "send_message" CapabilityDelegation;
    spec "manage_subagents" "manage_subagents" CapabilityDelegation;
    spec "ask_question" "ask_question" CapabilitySafeControl;
    spec "generate_image" "generate_image" CapabilityDeny;
    spec "call_mcp_tool" "call_mcp_tool" CapabilityDeny;
    spec "send_command_input" "send_command_input" CapabilityDeny;
    spec "tool_caller" "tool_caller" CapabilityDeny;
    spec "notebook_edit" "Edit" CapabilityMutation;
    spec "sed_file" "Edit" CapabilityMutation;
    spec "delete_knowledge" "Write" CapabilityMutation;
    spec "notebook_execution" "Bash" CapabilityCommand;
    spec "list_resources" "list_resources" CapabilityExternal;
    spec "read_resource" "read_resource" CapabilityExternal;
    spec "command_status" "command_status" CapabilitySafeControl;
    spec "manage_inbox" "manage_inbox" CapabilitySafeControl;
    spec "ask_custom_permission" "ask_custom_permission" CapabilitySafeControl;
    spec "finish" "finish" CapabilitySafeControl;
    spec "wait" "wait" CapabilitySafeControl;
    spec "wait_five_seconds" "wait" CapabilitySafeControl ].

(** [RegisteredTools] *)
Definition RegisteredTools (plane : string) : list ToolSpec :=
  if plane =s? "codex" then codexTools
  else if plane =s? "claude" then claudeTools
  else if plane =s? "opencode" then opencodeTools
  else if plane =s? "antigravity" then antigravityTools
  else [].

(** The loop over a table: the first entry of that native name. *)
Definition find_spec (tools : list ToolSpec) (name : string) : option ToolSpec :=
  List.find (fun s => ts_NativeTool s =s? name) tools.

(** ** Resolving a native name: [None] is the Go result [false] *)

Definition ClaudeTool (nativeTool : string) : option ToolSpec :=
  if HasPrefix nativeTool "mcp__" then Some (spec nativeTool nativeTool CapabilityExternal)
  else find_spec claudeTools nativeTool.

(** The documented spellings of the namespaces of Codex. *)
Definition codex_spelling (name : string) : string :=
  if in_list name ["web__run"; "webrun"] then "web.run"
  else if in_list name ["image_gen__imagegen"; "image_genimagegen"] then "image_gen.imagegen"
  else if in_list name ["clock__curr_time"; "clockcurr_time"] then "clock.curr_time"
  else if in_list name ["clock__sleep"; "clocksleep"] then "clock.sleep"
  else if in_list name ["wait"; "functions__wait"] then "functions.wait"
  else if in_list name ["exec"; "functions__exec"] then "functions.exec"
  else name.

Definition CodexTool (name : string) : option ToolSpec :=
  if HasPrefix name "mcp__" then Some (spec name name CapabilityDeny)
  else find_spec codexTools (codex_spelling name).

Definition OpencodeTool (nativeTool : string) : option ToolSpec :=
  let name := ToLower nativeTool in
  if (name =s? "custom") || HasPrefix name "mcp"
  then Some (spec nativeTool nativeTool CapabilityDeny)
  else find_spec opencodeTools name.

Definition AntigravityTool (nativeTool : string) : option ToolSpec :=
  if (nativeTool =s? "custom") || HasPrefix (ToLower nativeTool) "mcp"
  then Some (spec nativeTool nativeTool CapabilityDeny)
  else find_spec antigravityTools nativeTool.

(** ** Which calls the hooks see *)

Definition ClaudePreHookMatcher : string := "*".
Definition ClaudePreMatcherMatches (nativeTool : string) : bool := true.
Definition ClaudePostHookMatcher : string := "Write|Edit|MultiEdit".
Definition ClaudePostMatcherMatches (nativeTool : string) : bool :=
  in_list nativeTool ["Write"; "Edit"; "MultiEdit"].

Definition AntigravityPreHookMatcher : string := "*".
Definition AntigravityPreMatcherMatches (nativeTool : string) : bool := true.
Definition AntigravityPostHookMatcher : string :=
  "write_to_file|replace_file_content|multi_replace_file_content|notebook_edit|sed_file|delete_knowledge".
Definition AntigravityPostMatcherMatches (nativeTool : string) : bool :=
  in_list nativeTool
    ["write_to_file"; "replace_file_content"; "multi_replace_file_content"; "notebook_edit"; "sed_file";
     "delete_knowledge"].

(** ** Typed MCP tools *)

Record MCPToolSpec := {
  mcp_Family : string;
  mcp_Tool : string;
  mcp_Capability : Capability;
  mcp_PathArgs : list string;
  mcp_PathPrefix : string;
  mcp_DefaultPath : string;
}.

Definition mcp (family tool : string) (c : Capability) (args : list string) (prefix default : string) : MCPToolSpec :=
  {| mcp_Family := family; mcp_Tool := tool; mcp_Capability := c; mcp_PathArgs := args;
     mcp_PathPrefix := prefix; mcp_DefaultPath := default |}.

#[export] Instance MCPToolSpec_eq_dec : EqDecision MCPToolSpec.
Proof. solve_decision. Defined.

Definition mcpRegistry : list MCPToolSpec :=
  [ mcp "serena" "replace_content" CapabilityMutation ["relative_path"] "" "";
    mcp "serena" "replace_in_files" CapabilityMutation ["relative_path"] "" "";
    mcp "serena" "replace_symbol_body" CapabilityMutation ["relative_path"] "" "";
    mcp "serena" "insert_after_symbol" CapabilityMutation ["relative_path"] "" "";
    mcp "serena" "insert_before_symbol" CapabilityMutation ["relative_path"] "" "";
    mcp "serena" "rename_symbol" CapabilityMutation ["relative_path"] "" "";
    mcp "serena" "safe_delete_symbol" CapabilityMutation ["relative_path"] "" "";
    mcp "serena" "find_symbol" CapabilityReadDiscovery ["relative_path"] "" ".";
    mcp "serena" "find_declaration" CapabilityReadDiscovery ["relative_path"] "" ".";
    mcp "serena" "find_implementations" CapabilityReadDiscovery ["relative_path"] "" ".";
    mcp "serena" "find_referencing_symbols" CapabilityReadDiscovery ["relative_path"] "" ".";
    mcp "serena" "get_symbols_overview" CapabilityReadDiscovery ["relative_path"] "" ".";
    mcp "serena" "get_diagnostics_for_file" CapabilityReadDiscovery ["relative_path"; "filePath"] "" ".";
    mcp "serena" "search_for_pattern" CapabilityReadDiscovery ["relative_path"; "paths_include_glob"] "" ".";
    mcp "serena" "write_memory" CapabilityMutation ["memory_name"] ".serena/memories/" "";
    mcp "serena" "edit_memory" CapabilityMutation ["memory_name"] ".serena/memories/" "";
    mcp "serena" "rename_memory" CapabilityMutation ["memory_name"; "new_name"] ".serena/memories/" "";
    mcp "serena" "delete_memory" CapabilityMutation ["memory_name"] ".serena/memories/" "";
    mcp "serena" "read_memory" CapabilityReadDiscovery ["memory_name"] ".serena/memories/" "";
    mcp "serena" "list_memories" CapabilitySafeControl [] "" "";
    mcp "serena" "get_current_config" CapabilitySafeControl [] "" "";
    mcp "serena" "initial_instructions" CapabilitySafeControl [] "" "";
    mcp "serena" "onboarding" CapabilitySafeControl [] "" "";
    mcp "serena" "activate_project" CapabilityExternal [] "" "";
    mcp "serena" "open_dashboard" CapabilitySafeControl [] "" "";
    mcp "graft" "graft_find_code" CapabilityReadDiscovery ["relative_path"; "path"; "file_path"] "" ".";
    mcp "graft" "graft_find_all" CapabilityReadDiscovery ["relative_path"; "path"; "file_path"] "" ".";
    mcp "graft" "graft_trace_calls" CapabilityReadDiscovery ["relative_path"; "path"; "file_path"] "" ".";
    mcp "graft" "graft_file_api" CapabilityReadDiscovery ["relative_path"; "path"; "file_path"] "" ".";
    mcp "graft" "graft_repo_map" CapabilityReadDiscovery ["relative_path"; "path"; "file_path"] "" ".";
    mcp "graft" "graft_check_freshness" CapabilityReadDiscovery ["relative_path"; "path"; "file_path"] "" "." ].

(** [mcpRegistry[name]] *)
Definition registered (name : string) : option MCPToolSpec :=
  List.find (fun s => mcp_Tool s =s? name) mcpRegistry.

(** What follows the first [sub] in [s]. *)
Fixpoint after_sub (s sub : string) : option string :=
  match CutPrefix s sub with
  | Some t => Some t
  | None => match s with EmptyString => None | String _ t => after_sub t sub end
  end.

(** The text after the first underscore, when something precedes it. *)
Definition after_family (name : string) : option string :=
  let '(before, after, found) := Cut name "_" in
  if found && (before <>s? "") then Some after else None.

Definition mcp_rest (name : string) : string :=
  match CutPrefix name "mcp__" with
  | Some qualified => default "" (after_sub qualified "__")
  | None => default "" (after_family name)
  end.

Definition MatchMCPTool (nativeTool : string) : option MCPToolSpec :=
  let name := ToLower (TrimSpace nativeTool) in
  if name =s? "" then None
  else match registered name with
  | Some s => Some s
  | None =>
      let rest := mcp_rest name in
      if rest =s? "" then None
      else match registered rest with
      | Some s => Some s
      | None => match after_family rest with Some tool => registered tool | None => None end
      end
  end.

(** ** Tools an adapter may decide without the engine *)

Definition degradedAllowTools (plane : string) : option (list string) :=
  if plane =s? "opencode" then Some ["question"; "todowrite"]
  else if plane =s? "claude" then Some ["AskUserQuestion"]
  else if plane =s? "antigravity" then Some ["ask_question"]
  else None.

Definition floorFallbackTools (plane : string) : option (list string) :=
  if plane =s? "opencode"
  then Some ["apply_patch"; "edit"; "glob"; "grep"; "lsp"; "read"; "write"] else None.

Definition plane_spelling (plane nativeTool : string) : string :=
  if plane =s? "opencode" then ToLower nativeTool else nativeTool.

Definition DegradedAllow (plane nativeTool : string) : bool :=
  match degradedAllowTools plane with
  | Some tools => in_list (plane_spelling plane nativeTool) tools
  | None => false
  end.

Definition FloorFallback (plane nativeTool : string) : bool :=
  match floorFallbackTools plane with
  | Some tools => in_list (plane_spelling plane nativeTool) tools
  | None => false
  end.

(** The names sorted, which they are. *)
Definition OpencodeDegradedAllowTools : list string := default [] (degradedAllowTools "opencode").
Definition OpencodeFloorFallbackTools : list string := default [] (floorFallbackTools "opencode").

(** The contract of a plane by its name. *)
Definition plane_tool (plane nativeTool : string) : option ToolSpec :=
  if plane =s? "codex" then CodexTool nativeTool
  else if plane =s? "claude" then ClaudeTool nativeTool
  else if plane =s? "opencode" then OpencodeTool nativeTool
  else if plane =s? "antigravity" then AntigravityTool nativeTool
  else None.

(** ** Facts *)

(** Decides the comparisons of constant names in the goal. *)
Ltac constant_tests :=
  repeat match goal with
  | |- context [String.eqb ?a ?b] =>
      let v := eval vm_compute in (String.eqb a b) in
      match v with true => idtac | false => idtac end; change (String.eqb a b) with v
  end.

Lemma find_spec_sound tools name s : find_spec tools name = Some s -> s ∈ tools /\ ts_NativeTool s = name.
Proof.
  intros [Hin Hn]%find_some. apply String.eqb_eq in Hn. split; [by apply list_elem_of_In|done].
Qed.

Lemma registered_sound name s : registered name = Some s -> s ∈ mcpRegistry /\ mcp_Tool s = name.
Proof.
  intros [Hin Hn]%find_some. apply String.eqb_eq in Hn. split; [by apply list_elem_of_In|done].
Qed.

(** A key names one entry. *)
Lemma registered_tool s : s ∈ mcpRegistry -> registered (mcp_Tool s) = Some s.
Proof.
  assert (H : forallb (fun s => bool_decide (registered (mcp_Tool s) = Some s)) mcpRegistry = true) by
    by vm_compute.
  intros Hs. rewrite forallb_forall in H. apply list_elem_of_In in Hs. by apply H, bool_decide_eq_true in Hs.
Qed.

Lemma after_sub_sound s sub t : after_sub s sub = Some t -> exists pre, s = pre +:+ sub +:+ t.
Proof.
  revert t. induction s as [|c s IH]; intros t; simpl; destruct (CutPrefix _ _) as [u|] eqn:E; try done.
  - intros [= ->]. apply CutPrefix_Some in E. by exists "".
  - intros [= ->]. apply CutPrefix_Some in E. by exists "".
  - intros H. destruct (IH t H) as [pre ->]. by exists (String c pre).
Qed.

Lemma after_family_sound s t : after_family s = Some t -> exists pre, s = pre +:+ String "_" t.
Proof.
  unfold after_family. destruct (Cut s "_") as [[before after] []] eqn:E; simpl; [|done].
  apply Cut_found in E as [-> _]. destruct (before <>s? ""); [|done]. intros [= ->]. by exists before.
Qed.

(** Text without upper-case letters and without bytes above ASCII. *)
Definition plain_byte (c : ascii) : bool := (nat_of_ascii c <? 128)%nat && negb (is_upper c).

Lemma lower_plain c : plain_byte c = true -> lower_byte c = c.
Proof. unfold plain_byte, lower_byte. intros [_ H%negb_true_iff]%andb_true_iff. by rewrite H. Qed.

Lemma ToLower_plain s : all_bytes plain_byte s = true -> ToLower s = s.
Proof.
  induction s as [|c s IH]; [done|]. cbn [all_bytes ToLower]. intros [Hc Hs]%andb_true_iff.
  rewrite (lower_plain c Hc).
  assert (Hn : (nat_of_ascii c < 128)%nat).
  { unfold plain_byte in Hc. apply andb_true_iff in Hc as [H _]. by apply Nat.ltb_lt in H. }
  assert ((nat_of_ascii c =? 196)%nat = false) as -> by (apply Nat.eqb_neq; lia).
  assert ((nat_of_ascii c =? 226)%nat = false) as -> by (apply Nat.eqb_neq; lia).
  cbn [andb]. destruct s as [|d s]; [done|]. rewrite (IH Hs). by destruct s.
Qed.

(** Text that no encoding of a space begins. *)
Definition starts_solid (encs : list string) (s : string) : bool :=
  match s with
  | EmptyString => true
  | String c _ => forallb (fun e => match e with String a _ => negb (Ascii.eqb a c) | _ => false end) encs
  end.

Lemma drop_space_solid encs s :
  starts_solid encs s = true -> s <> "" -> drop_space encs s = None.
Proof.
  destruct s as [|c s]; [done|]. intros H _. unfold starts_solid in H. unfold drop_space.
  induction encs as [|[|a e] encs IH]; [done|done|].
  cbn [forallb] in H. apply andb_true_iff in H as [Ha%negb_true_iff He].
  cbn [fold_right CutPrefix]. by rewrite Ha, (IH He).
Qed.

Lemma trim_left_solid encs n s : starts_solid encs s = true -> s <> "" -> trim_left encs n s = s.
Proof. intros H Hn. destruct n as [|n]; [done|]. cbn [trim_left]. by rewrite drop_space_solid. Qed.

Lemma TrimSpace_solid s :
  s <> "" -> starts_solid space_encodings s = true ->
  starts_solid (List.map srev space_encodings) (srev s) = true -> TrimSpace s = s.
Proof.
  intros Hn H1 H2. unfold TrimSpace. rewrite (trim_left_solid _ _ s) by done.
  rewrite trim_left_solid; [apply srev_srev|done|].
  intros H. apply (f_equal srev) in H. by rewrite srev_srev in H.
Qed.

Lemma starts_solid_app encs s t : s <> "" -> starts_solid encs (s +:+ t) = starts_solid encs s.
Proof. by destruct s. Qed.

(** What holds of every registered tool's name. *)
Definition solid_name (t : string) : bool :=
  (t <>s? "") && all_bytes plain_byte t && starts_solid space_encodings t &&
  starts_solid (List.map srev space_encodings) (srev t).

Lemma registered_solid s : s ∈ mcpRegistry -> solid_name (mcp_Tool s) = true.
Proof.
  assert (H : forallb (fun s => solid_name (mcp_Tool s)) mcpRegistry = true) by by vm_compute.
  rewrite forallb_forall in H. intros Hs. by apply H, list_elem_of_In.
Qed.

(** The name as [MatchMCPTool] sees it. *)
Lemma mcp_name_plain pre t :
  all_bytes plain_byte pre = true -> solid_name t = true ->
  (pre <> "" -> starts_solid space_encodings pre = true) ->
  ToLower (TrimSpace (pre +:+ t)) = pre +:+ t.
Proof.
  unfold solid_name. intros Hp Ht Hs. breflect. rewrite TrimSpace_solid.
  - apply ToLower_plain. by rewrite all_bytes_app, Hp.
  - by destruct pre, t.
  - destruct pre as [|c pre]; [done|]. by apply Hs.
  - rewrite srev_app, starts_solid_app; [done|]. intros E. apply (f_equal srev) in E. by rewrite srev_srev in E.
Qed.

(** [mcp__<server>__<tool>], whatever the server. *)
Lemma after_sub_server server t :
  ContainsByte server "_" = false -> after_sub (server +:+ "__" +:+ t) "__" = Some t.
Proof.
  induction server as [|c server IH]; intros H; [done|]. cbn [ContainsByte] in H.
  apply orb_false_iff in H as [Hc H]. change ((String c server) +:+ ?x) with (String c (server +:+ x)).
  cbn [after_sub]. assert (CutPrefix (String c (server +:+ "__" +:+ t)) "__" = None) as ->.
  { cbn [CutPrefix]. by rewrite Ascii.eqb_sym, Hc. }
  by apply IH.
Qed.

Lemma registered_qualified x : registered ("mcp__" +:+ x) = None.
Proof.
  destruct (registered ("mcp__" +:+ x)) as [s|] eqn:E; [|done]. exfalso.
  apply registered_sound in E as [Hs E].
  assert (H : forallb (fun s => negb (HasPrefix (mcp_Tool s) "mcp__")) mcpRegistry = true) by by vm_compute.
  rewrite forallb_forall in H. apply list_elem_of_In, H in Hs. by rewrite E, HasPrefix_app in Hs.
Qed.

Lemma mcp_rest_suffix name : mcp_rest name <> "" -> exists pre, name = pre +:+ mcp_rest name.
Proof.
  unfold mcp_rest. destruct (CutPrefix name "mcp__") as [q|] eqn:E.
  - apply CutPrefix_Some in E as ->. destruct (after_sub q "__") as [t|] eqn:E; [|done]. intros _.
    apply after_sub_sound in E as [pre ->]. exists ("mcp__" +:+ pre +:+ "__"). by rewrite !append_assoc.
  - destruct (after_family name) as [t|] eqn:E2; [|done]. intros _.
    apply after_family_sound in E2 as [pre ->]. exists (pre +:+ "_"). by rewrite append_assoc.
Qed.

Lemma MatchMCPTool_sound n s :
  MatchMCPTool n = Some s -> s ∈ mcpRegistry /\ exists pre, ToLower (TrimSpace n) = pre +:+ mcp_Tool s.
Proof.
  unfold MatchMCPTool. set (name := ToLower (TrimSpace n)).
  destruct (name =s? ""); [done|]. destruct (registered name) as [s'|] eqn:E1.
  { intros [= ->]. apply registered_sound in E1 as [Hs <-]. split; [done|]. by exists "". }
  destruct (mcp_rest name =s? "") eqn:Er; [done|]. breflect. apply mcp_rest_suffix in Er as [pre Hp].
  destruct (registered (mcp_rest name)) as [s'|] eqn:E2.
  { intros [= ->]. apply registered_sound in E2 as [Hs E2]. split; [done|]. exists pre. by rewrite E2. }
  destruct (after_family _) as [t|] eqn:E3; [|done]. intros E4. apply after_family_sound in E3 as [pre2 E3].
  apply registered_sound in E4 as [Hs E4]. split; [done|]. exists (pre +:+ pre2 +:+ "_").
  rewrite Hp, E3, E4. by rewrite !append_assoc.
Qed.

(** A registered MCP tool is recognised under its bare name and under
    [mcp__<server>__<tool>], and whatever a name resolves to is a registered tool
    whose own name ends the (trimmed, lower-cased) name. *)
Theorem match_mcp_spellings n :
  (forall s, MatchMCPTool n = Some s ->
     s ∈ mcpRegistry /\ exists pre, ToLower (TrimSpace n) = pre +:+ mcp_Tool s) /\
  (forall s server, s ∈ mcpRegistry ->
     all_bytes plain_byte server = true -> ContainsByte server "_" = false ->
     MatchMCPTool (mcp_Tool s) = Some s /\
     MatchMCPTool ("mcp__" +:+ server +:+ "__" +:+ mcp_Tool s) = Some s).
Proof.
  split; [apply MatchMCPTool_sound|]. intros s server Hs Hp Hu.
  assert (Hn := registered_solid s Hs). assert (Hne : mcp_Tool s <> "").
  { unfold solid_name in Hn. by breflect. }
  assert (Hname : forall pre, all_bytes plain_byte pre = true ->
    (pre <> "" -> starts_solid space_encodings pre = true) ->
    ToLower (TrimSpace (pre +:+ mcp_Tool s)) = pre +:+ mcp_Tool s) by (intros; by apply mcp_name_plain).
  unfold MatchMCPTool. split.
  - assert (H := Hname "" eq_refl ltac:(done)). cbn [String.append] in H. rewrite H.
    apply String.eqb_neq in Hne. by rewrite Hne, registered_tool.
  - assert (H : ToLower (TrimSpace ("mcp__" +:+ server +:+ "__" +:+ mcp_Tool s)) =
                "mcp__" +:+ server +:+ "__" +:+ mcp_Tool s).
    { specialize (Hname ("mcp__" +:+ server +:+ "__")). rewrite !append_assoc in Hname. apply Hname; [|done].
      rewrite !all_bytes_app, Hp. done. }
    rewrite H. change (("mcp__" +:+ server +:+ "__" +:+ mcp_Tool s) =s? "") with false.
    rewrite registered_qualified. unfold mcp_rest.
    assert (CutPrefix ("mcp__" +:+ server +:+ "__" +:+ mcp_Tool s) "mcp__" = Some (server +:+ "__" +:+ mcp_Tool s))
      as -> by by apply CutPrefix_Some.
    rewrite after_sub_server by done. cbn [default from_option id].
    apply String.eqb_neq in Hne. by rewrite Hne, registered_tool.
Qed.

(** The server in the name is not looked at: a tool of any server takes the
    capability of the tool of that name in the registry. *)
Example any_server_onboards :
  mcp_Capability <$> MatchMCPTool "mcp__payments__onboarding" = Some CapabilitySafeControl /\
  mcp_Family <$> MatchMCPTool "mcp__payments__onboarding" = Some "serena".
Proof. by vm_compute. Qed.

(** The registry's entries: a tool that changes files names the argument that
    holds the path and has no default; a reader has a path argument; and no
    other capability projects paths. *)
Definition well_typed (s : MCPToolSpec) : bool :=
  match mcp_Capability s with
  | CapabilityMutation => negb (bool_decide (mcp_PathArgs s = [])) && (mcp_DefaultPath s =s? "")
  | CapabilityReadDiscovery => negb (bool_decide (mcp_PathArgs s = []))
  | CapabilitySafeControl | CapabilityExternal => bool_decide (mcp_PathArgs s = [])
  | _ => false
  end.

Lemma registry_well_typed s : s ∈ mcpRegistry -> well_typed s = true.
Proof.
  assert (H : forallb well_typed mcpRegistry = true) by by vm_compute.
  rewrite forallb_forall in H. intros Hs. by apply H, list_elem_of_In.
Qed.

(** What an adapter may decide while the engine is unreachable is bounded by the
    contract: a tool allowed outright is session control, one left to the declarative
    floor only reads or changes files, and neither set holds a command, an egress, a
    delegation, an unknown tool or an MCP tool. *)
Theorem degraded_tools_bounded plane tool :
  (DegradedAllow plane tool = true ->
     exists s, plane_tool plane tool = Some s /\ ts_Capability s = CapabilitySafeControl) /\
  (FloorFallback plane tool = true ->
     exists s, plane_tool plane tool = Some s /\ path_capability (ts_Capability s) = true).
Proof.
  unfold DegradedAllow, FloorFallback, degradedAllowTools, floorFallbackTools, plane_spelling, plane_tool.
  destruct (plane =s? "opencode") eqn:E1.
  { apply String.eqb_eq in E1 as ->. constant_tests. unfold OpencodeTool.
    split; intros H; apply in_list_true in H; set_unfold; destruct_or?; try done;
      (eexists; split; [by rewrite H|done]). }
  destruct (plane =s? "claude") eqn:E2.
  { apply String.eqb_eq in E2 as ->. constant_tests. split; [|done].
    intros H; apply in_list_true, list_elem_of_singleton in H as ->. by eexists. }
  destruct (plane =s? "antigravity") eqn:E3; [|done].
  apply String.eqb_eq in E3 as ->. constant_tests. split; [|done].
  intros H; apply in_list_true, list_elem_of_singleton in H as ->. by eexists.
Qed.

(** The matchers the hooks are installed with and the predicates agree. *)
Lemma post_matchers_agree t :
  ClaudePostMatcherMatches t = in_list t (Split ClaudePostHookMatcher "|") /\
  AntigravityPostMatcherMatches t = in_list t (Split AntigravityPostHookMatcher "|").
Proof. done. Qed.

(** ** Concrete names *)

Lemma degraded_tools_bounded_witness :
  (exists s, plane_tool "claude" "AskUserQuestion" = Some s /\ ts_Capability s = CapabilitySafeControl) /\
  (exists s, plane_tool "opencode" "edit" = Some s /\ path_capability (ts_Capability s) = true).
Proof.
  split.
  - apply (degraded_tools_bounded "claude" "AskUserQuestion"). vm_compute. reflexivity.
  - apply (degraded_tools_bounded "opencode" "edit"). vm_compute. reflexivity.
Defined.

Definition demo_registered : MCPToolSpec := mcp "serena" "rename_symbol" CapabilityMutation ["relative_path"] "" "".

Lemma match_mcp_spellings_witness :
  MatchMCPTool "rename_symbol" = Some demo_registered /\
  MatchMCPTool ("mcp__" +:+ "serena" +:+ "__" +:+ "rename_symbol") = Some demo_registered.
Proof.
  apply (match_mcp_spellings "") with (s := demo_registered) (server := "serena").
  - apply list_elem_of_In. cbv. tauto.
  - vm_compute. reflexivity.
  - vm_compute. reflexivity.
Defined.
