(* ===== verification/RepoRoot.v ===== *)
(** * Which repository encloses a call, and which Overlay applies to it
    ([internal/policy/reporoot.go], [reporoot_unix.go], [config.go])

    The hook loads the Overlay of the repository around the call's directory, so the
    search for that repository decides whose policy is merged.  [walkRepoRoot] answers
    when it is certain and leaves everything else to git, whose answer is a parameter.
    The host is not Windows: [foldCase] and [filepath.ToSlash] are the identity. *)

From Stdlib Require Import ZArith Lia Bool.
From S2P Require Import Prelude GoStrings GoPath Policy Engine Simple GitRepo.

(** What the walk asks of the host beyond [GitHost]: what [os.Lstat] and [os.Stat]
    know of owners and devices, and git itself. *)
Record RepoHost := {
  rh_git : GitHost;
  rh_is_dir : string -> bool;                 (* os.Lstat's IsDir, where it succeeds *)
  rh_uid : string -> option Z;                (* Stat_t.Uid of os.Lstat *)
  rh_euid : Z;                                (* os.Geteuid *)
  rh_dev : string -> option Z;                (* Stat_t.Dev of os.Stat *)
  rh_toplevel : string -> list string -> option string;
      (* the output of git rev-parse --show-toplevel under the ceilings *)
}.

Section Host.

Context (h : RepoHost).
#[local] Notation g := (rh_git h).
#[local] Notation fs := (gh_fs (rh_git h)).

(** [os.Getenv] *)
Definition getenv (key : string) : string := default "" (gh_env g key).

Definition ownedByCurrentUserOS (path : string) : bool :=
  match fs_lstat fs path, rh_uid h path with
  | LExists, Some uid => (uid =? rh_euid h)%Z
  | _, _ => false
  end.

Definition deviceID (path : string) : option Z := rh_dev h path.

Definition gitRepoRoot (cwd : string) (ceilings : list string) : option string :=
  if cwd =s? "" then None
  else match rh_toplevel h cwd ceilings with
  | Some out => if TrimSpace out =s? "" then None else Some (TrimSpace out)
  | None => None
  end.

(** [(root, found, decided)]: [found] without [decided] does not occur. *)
Inductive walk_answer := Undecided | NotARepo | RepoAt (root : string).

Definition discovery_variables : list string :=
  ["GIT_DIR"; "GIT_WORK_TREE"; "GIT_COMMON_DIR"; "GIT_INDEX_FILE"; "GIT_DISCOVERY_ACROSS_FILESYSTEM"].

(** [os.Stat], and [IsDir] of its answer. *)
Definition is_dir_at (path : string) : bool :=
  match gh_stat g path with Some info => fi_dir info | None => false end.

Definition looksLikeGitDir (dir : string) : bool :=
  match gh_stat g (JoinPath [dir; "HEAD"]) with
  | Some info => negb (fi_dir info) && forallb (fun name => is_dir_at (JoinPath [dir; name])) ["objects"; "refs"]
  | None => false
  end.

Definition hasGitComponent (path : string) : bool := in_list ".git" (Split path slash).

(** The keys of the map. *)
Definition ceilingStops (real : string) (ceilings : list string) : list string :=
  flat_map (fun c =>
    if c =s? "" then []
    else
      let resolved := default (Clean c) (fs_evalsymlinks fs (Clean c)) in
      if HasPrefix real (resolved +:+ sep) then [resolved] else []) ceilings.

(** The loop; the outer [None] is a walk that has not ended within the fuel. *)
Fixpoint walk_loop (stops : list string) (startDev : option Z) (fuel : nat) (dir : string) : option walk_answer :=
  match fuel with
  | O => None
  | S fuel =>
      let gitPath := git_at dir in
      match fs_lstat fs gitPath with
      | LExists =>
          Some (if rh_is_dir h gitPath then
                  if negb (looksLikeGitDir gitPath) || negb (ownedByCurrentUserOS gitPath) ||
                     negb (ownedByCurrentUserOS dir)
                  then Undecided else RepoAt dir
                else Undecided)
      | LError => Some Undecided
      | LNotExist =>
          let parent := Dir dir in
          if parent =s? dir then Some NotARepo
          else if in_list parent stops then Some NotARepo
          else
            let crosses := match startDev, deviceID parent with
              | Some a, Some b => negb (b =? a)%Z
              | _, _ => false
              end in
            if crosses then Some NotARepo else walk_loop stops startDev fuel parent
      end
  end.

Definition walkRepoRoot (cwd : string) (ceilings : list string) : walk_answer :=
  if existsb (fun key => getenv key <>s? "") discovery_variables then Undecided
  else match Abs g cwd with
  | None => Undecided
  | Some abs =>
      match fs_evalsymlinks fs abs with
      | None => Undecided
      | Some real =>
          if hasGitComponent real then Undecided
          else default Undecided
                 (walk_loop (ceilingStops real ceilings) (deviceID real) (walk_fuel real) real)
      end
  end.

Definition findRepoRootWithCeilings (cwd : string) (ceilings : list string) : option string :=
  if cwd =s? "" then None
  else match walkRepoRoot cwd ceilings with
  | RepoAt root => Some root
  | NotARepo => None
  | Undecided => gitRepoRoot cwd ceilings
  end.

(** [config.go]'s own copy of the temp roots, one candidate at a time. *)
Definition config_temp_root (roots : list string) (root : string) : list string :=
  let root := Clean root in
  if negb (IsAbs root) || (root =s? sep) || in_list root roots then roots
  else if negb (is_dir_at root) then roots
  else
    let roots := roots ++ [root] in
    match fs_evalsymlinks fs root with
    | Some resolved => if (resolved <>s? root) && negb (in_list resolved roots) then roots ++ [resolved] else roots
    | None => roots
    end.

Definition configTempRoots : list string := foldl config_temp_root [] [TempDir g; "/tmp"; "/var/tmp"].

Definition FindRepoRoot (cwd : string) : option string := findRepoRootWithCeilings cwd configTempRoots.

(** The path, if one is found, and the warning. *)
Definition FindOverlayPath (cwd : string) : option string * string :=
  let v := getenv "GUARDRAIL_CONFIG" in
  if v <>s? "" then
    match gh_stat g v with
    | None => (None, "guardrail: GUARDRAIL_CONFIG is set to " +:+ v +:+ " but that file does not exist; using base policy only")
    | Some _ => (Some v, "")
    end
  else match FindRepoRoot cwd with
  | None => (None, "")
  | Some root =>
      let cfg := JoinPath [root; "guardrail.toml"] in
      match gh_stat g cfg with
      | None => (None, "")
      | Some _ => (Some cfg, "")
      end
  end.

(** ** The walk against the list of ancestors *)

(** The directories that are looked at: [dir], and its ancestors until one is a ceiling
    or on another device. *)
Definition climbs (stops : list string) (dev : option Z) (parent : string) : bool :=
  negb (in_list parent stops) &&
  match dev, deviceID parent with Some a, Some b => (b =? a)%Z | _, _ => true end.

Fixpoint climb (stops : list string) (dev : option Z) (parents : list string) : list string :=
  match parents with
  | [] => []
  | p :: parents => if climbs stops dev p then p :: climb stops dev parents else []
  end.

Definition searched (stops : list string) (dev : option Z) (dirs : list string) : list string :=
  match dirs with [] => [] | d :: parents => d :: climb stops dev parents end.

(** Something is there by the name [.git], or it is not known whether. *)
Definition has_entry (dir : string) : bool :=
  match fs_lstat fs (git_at dir) with LNotExist => false | _ => true end.

(** A repository of this user's at [dir]. *)
Definition trusted (dir : string) : bool :=
  match fs_lstat fs (git_at dir) with
  | LExists =>
      rh_is_dir h (git_at dir) && looksLikeGitDir (git_at dir) && ownedByCurrentUserOS (git_at dir) &&
      ownedByCurrentUserOS dir
  | _ => false
  end.

(** The answer git's rules give for a list of directories. *)
Definition nearest_entry (dirs : list string) : walk_answer :=
  match List.find has_entry dirs with
  | Some d => if trusted d then RepoAt d else Undecided
  | None => NotARepo
  end.

Lemma entry_judged dir rest :
  has_entry dir = true ->
  match fs_lstat fs (git_at dir) with
  | LExists =>
      Some (if rh_is_dir h (git_at dir) then
              if negb (looksLikeGitDir (git_at dir)) || negb (ownedByCurrentUserOS (git_at dir)) ||
                 negb (ownedByCurrentUserOS dir)
              then Undecided else RepoAt dir
            else Undecided)
  | LError => Some Undecided
  | LNotExist => rest
  end = Some (if trusted dir then RepoAt dir else Undecided).
Proof.
  unfold has_entry, trusted. destruct (fs_lstat fs (git_at dir)); [|done|done]. intros _.
  destruct (rh_is_dir h _); [|done]. cbn [andb].
  by destruct (looksLikeGitDir _), (ownedByCurrentUserOS (git_at dir)), (ownedByCurrentUserOS dir).
Qed.

Lemma walk_loop_nearest stops dev fuel rs :
  Forall name_ok rs -> (length rs < fuel)%nat ->
  walk_loop stops dev fuel (rooted (rev rs)) = Some (nearest_entry (searched stops dev (ancestors rs))).
Proof.
  revert rs. induction fuel as [|fuel IH]; intros rs Hn Hf; [lia|]. cbn [walk_loop].
  destruct (has_entry (rooted (rev rs))) eqn:Eh.
  { rewrite entry_judged by done. unfold nearest_entry. assert (searched stops dev (ancestors rs) =
      rooted (rev rs) :: climb stops dev (tl (ancestors rs))) as -> by by destruct rs.
    cbn [List.find]. by rewrite Eh. }
  assert (Hskip : nearest_entry (searched stops dev (ancestors rs)) = nearest_entry (climb stops dev (tl (ancestors rs)))).
  { unfold nearest_entry. destruct rs; cbn [ancestors searched List.find tl]; by rewrite Eh. }
  rewrite Hskip. unfold has_entry in Eh. destruct (fs_lstat fs _); [done| |done].
  destruct rs as [|w rs]; [done|].
  pose proof (proj2 (proj1 (Forall_cons _ _ _) Hn)) as Hrs. rewrite Dir_rev, Dir_differs by done.
  cbn [tl ancestors length] in *.
  assert (climb stops dev (ancestors rs) =
          if climbs stops dev (rooted (rev rs)) then searched stops dev (ancestors rs) else []) as -> by by destruct rs.
  unfold climbs. destruct (in_list (rooted (rev rs)) stops); [done|]. cbn [negb andb].
  destruct dev as [a|]; [destruct (deviceID _) as [b|]; [destruct (b =? a)%Z; [|done]|]|]; apply IH; done || lia.
Qed.

End Host.

(** ** What a decided root guarantees *)

(** [filepath.EvalSymlinks] of an absolute path is absolute and clean, and the working
    directory is absolute. *)
Definition evalsymlinks_clean (g : GitHost) : Prop :=
  forall p r, IsAbs p = true -> fs_evalsymlinks (gh_fs g) p = Some r -> IsAbs r = true /\ Clean r = r.
Definition getwd_abs (g : GitHost) : Prop := forall wd, gh_wd g = Some wd -> IsAbs wd = true.

Lemma IsAbs_Abs g p a : getwd_abs g -> Abs g p = Some a -> IsAbs a = true.
Proof.
  intros Hwd. unfold Abs. destruct (IsAbs p) eqn:E; [intros [= <-]; by rewrite IsAbs_Clean|].
  destruct (gh_wd g) as [wd|] eqn:Ew; [|done]. intros [= <-]. apply Hwd in Ew. unfold JoinPath.
  destruct wd as [|c wd]; [done|]. cbn [List.filter]. cbn in Ew. apply Ascii.eqb_eq in Ew as ->.
  change (String slash wd <>s? "") with true. cbv iota. rewrite IsAbs_Clean.
  by destruct (p <>s? "").
Qed.

Lemma climb_in h stops dev parents d : d ∈ climb h stops dev parents -> climbs h stops dev d = true.
Proof.
  induction parents as [|p parents IH]; cbn [climb]; [by intros ?%elem_of_nil|].
  destruct (climbs h stops dev p) eqn:E; [|by intros ?%elem_of_nil].
  intros [->|H]%elem_of_cons; [done|by apply IH].
Qed.

Lemma climb_prefix h stops dev parents : exists rest, parents = climb h stops dev parents ++ rest.
Proof.
  induction parents as [|p parents [rest IH]]; cbn [climb]; [by exists []|].
  destruct (climbs h stops dev p); [|by exists (p :: parents)]. exists rest. cbn. by f_equal.
Qed.

Lemma searched_cons h stops dev w rs :
  searched h stops dev (ancestors (w :: rs)) =
  rooted (rev (w :: rs)) :: (if climbs h stops dev (rooted (rev rs)) then searched h stops dev (ancestors rs) else []).
Proof. by destruct rs. Qed.

Lemma searched_prefix h stops dev rs : exists rest, ancestors rs = searched h stops dev (ancestors rs) ++ rest.
Proof.
  destruct rs as [|w rs]; [by exists []|]. change (ancestors (w :: rs)) with (rooted (rev (w :: rs)) :: ancestors rs).
  destruct (climb_prefix h stops dev (ancestors rs)) as [rest H]. exists rest. cbn. by rewrite <- H.
Qed.

(** Nothing that is searched is at or above a ceiling the search began below. *)
Lemma searched_below h stops dev bs rs d :
  rooted bs ∈ stops -> bs <> [] -> Forall name_ok bs -> Forall name_ok rs ->
  below (Some (rooted bs)) (rooted (rev rs)) = true ->
  d ∈ searched h stops dev (ancestors rs) -> below (Some (rooted bs)) d = true.
Proof.
  intros Hs Hne Hb. induction rs as [|w rs IH]; intros Hn Hbelow Hin.
  { by apply list_elem_of_singleton in Hin as ->. }
  rewrite searched_cons in Hin. apply elem_of_cons in Hin as [->|Hin]; [done|].
  destruct (climbs h stops dev (rooted (rev rs))) eqn:Ec; [|by apply elem_of_nil in Hin].
  assert (Hrs : Forall name_ok rs) by by apply Forall_cons in Hn as []. apply IH; [done| |done].
  apply below_rooted; [done|done|by apply Forall_name_rev|].
  apply below_rooted in Hbelow as (rest & Hr & H); [|done|done|by apply Forall_name_rev].
  cbn [rev] in H. destruct rest as [|x rest _] using rev_ind; [done|]. rewrite app_assoc in H.
  apply app_inj_tail in H as [H _]. exists rest. split; [|done]. intros ->. rewrite app_nil_r in H.
  unfold climbs in Ec. rewrite H in Ec. apply andb_true_iff in Ec as [Ec _]. apply negb_true_iff in Ec.
  apply not_true_iff_false in Ec. apply Ec. by apply in_list_true.
Qed.

Lemma searched_device h stops rs d a b :
  d ∈ searched h stops (deviceID h (rooted (rev rs))) (ancestors rs) ->
  deviceID h (rooted (rev rs)) = Some a -> deviceID h d = Some b -> b = a.
Proof.
  intros Hin Ha Hb. destruct rs as [|w rs]; cbn [ancestors searched] in Hin;
    (apply elem_of_cons in Hin as [->|Hin]; [rewrite Ha in Hb; by injection Hb|]).
  - by apply elem_of_nil in Hin.
  - apply climb_in in Hin. unfold climbs in Hin. rewrite Ha, Hb in Hin. apply andb_true_iff in Hin as [_ Hin].
    by apply Z.eqb_eq in Hin.
Qed.

Lemma find_nearest {A} (f : A -> bool) l d :
  List.find f l = Some d -> exists pre post, l = pre ++ d :: post /\ f d = true /\ Forall (fun x => f x = false) pre.
Proof.
  induction l as [|x l IH]; [done|]. cbn. destruct (f x) eqn:E.
  - intros [= <-]. by exists [], l.
  - intros (pre & post & -> & Hd & Hp)%IH. exists (x :: pre), post. split_and!; [done|done|by constructor].
Qed.

(** A walk that is asked ends, with the answer of the nearest entry. *)
Lemma walk_answers h cwd ceilings abs real :
  evalsymlinks_clean (rh_git h) -> getwd_abs (rh_git h) ->
  Abs (rh_git h) cwd = Some abs -> fs_evalsymlinks (gh_fs (rh_git h)) abs = Some real ->
  exists rs, real = rooted (rev rs) /\ Forall name_ok rs /\
    walk_loop h (ceilingStops h real ceilings) (deviceID h real) (walk_fuel real) real =
    Some (nearest_entry h (searched h (ceilingStops h real ceilings) (deviceID h real) (ancestors rs))).
Proof.
  intros He Hwd Ha Hr. destruct (He _ _ (IsAbs_Abs _ _ _ Hwd Ha) Hr) as [Habs Hc].
  destruct (Clean_abs_rooted _ Habs) as (es & Hes & Hn). rewrite Hc in Hes.
  exists (rev es). split_and!; [by rewrite rev_involutive|by apply Forall_name_rev|].
  unfold walk_fuel. rewrite Hes, elements_rooted by done.
  pose proof (walk_loop_nearest h (ceilingStops h (rooted es) ceilings) (deviceID h (rooted es)) (S (length es)) (rev es))
    as Hw. rewrite rev_involutive, length_rev in Hw. apply Hw; [by apply Forall_name_rev|lia].
Qed.

(** C30: the root the walk decides on is the nearest directory at or above the real
    directory of the call that has anything named [.git]; its [.git] is a git
    directory, both belong to this user, it is on the same device and strictly below
    every ceiling the call is below, and no variable of git redirects the search: no
    repository planted nearer, higher or by someone else decides which Overlay loads. *)
Theorem repo_root_trusted h cwd ceilings root :
  evalsymlinks_clean (rh_git h) -> getwd_abs (rh_git h) ->
  walkRepoRoot h cwd ceilings = RepoAt root ->
  exists abs rs nearer further,
    let real := rooted (rev rs) in
    Abs (rh_git h) cwd = Some abs /\ fs_evalsymlinks (gh_fs (rh_git h)) abs = Some real /\ Forall name_ok rs /\
    ancestors rs = nearer ++ root :: further /\
    Forall (fun d => fs_lstat (gh_fs (rh_git h)) (git_at d) = LNotExist) nearer /\
    trusted h root = true /\
    (forall a b, deviceID h real = Some a -> deviceID h root = Some b -> b = a) /\
    (forall c s, c ∈ ceilings -> IsAbs c = true ->
       s = default (Clean c) (fs_evalsymlinks (gh_fs (rh_git h)) (Clean c)) -> s <> sep ->
       below (Some s) real = true -> below (Some s) root = true) /\
    (forall key, key ∈ discovery_variables -> getenv h key = "").
Proof.
  intros He Hwd. unfold walkRepoRoot. destruct (existsb _ _) eqn:Eenv; [done|].
  destruct (Abs _ cwd) as [abs|] eqn:Ea; [|done]. destruct (fs_evalsymlinks _ abs) as [real|] eqn:Er; [|done].
  destruct (hasGitComponent real); [done|].
  destruct (walk_answers h cwd ceilings abs real He Hwd Ea Er) as (rs & -> & Hn & ->).
  cbn [default from_option id]. unfold nearest_entry.
  destruct (List.find _ _) as [d|] eqn:Ef; [|done]. destruct (trusted h d) eqn:Et; [|done]. intros [= ->].
  apply find_nearest in Ef as (nearer & post & Hs & _ & Hnone).
  destruct (searched_prefix h (ceilingStops h (rooted (rev rs)) ceilings) (deviceID h (rooted (rev rs))) rs) as [rest Hp].
  assert (Hin : root ∈ searched h (ceilingStops h (rooted (rev rs)) ceilings) (deviceID h (rooted (rev rs))) (ancestors rs)).
  { rewrite Hs. apply elem_of_app. right. by left. }
  exists abs, rs, nearer, (post ++ rest). cbn zeta. split_and!; [done|done|done| | |done| | |].
  - rewrite Hp, Hs. by rewrite <- app_assoc.
  - eapply Forall_impl; [done|]. intros x. unfold has_entry. by destruct (fs_lstat _ _).
  - intros a b. by apply searched_device with (stops := ceilingStops h (rooted (rev rs)) ceilings).
  - intros c s Hc Habs Hsd Hsep Hb. assert (Hclean : IsAbs s = true /\ Clean s = s).
    { subst s. assert (HC : IsAbs (Clean c) = true) by by rewrite IsAbs_Clean.
      destruct (fs_evalsymlinks _ (Clean c)) as [r|] eqn:E; [by apply (He _ _ HC)|]. cbn. split; [done|apply Clean_Clean]. }
    destruct Hclean as [Hsa Hsc]. destruct (Clean_abs_rooted _ Hsa) as (bs & Hbs & Hbn). rewrite Hsc in Hbs.
    rewrite Hbs. refine (searched_below _ _ _ bs rs root _ _ Hbn Hn _ Hin); rewrite <- ?Hbs; [|by intros ->|done].
    unfold ceilingStops. apply list_elem_of_In, in_flat_map. exists c. split; [by apply list_elem_of_In|].
    destruct (c =s? "") eqn:Ec; [by apply String.eqb_eq in Ec as ->|]. rewrite <- Hsd. unfold below in Hb. rewrite Hb.
    by left.
  - intros key Hk. destruct (getenv h key =s? "") eqn:E; breflect; [done|].
    apply not_true_iff_false in Eenv. destruct Eenv. apply existsb_exists. exists key.
    split; [by apply list_elem_of_In|]. by apply negb_true_iff, String.eqb_neq.
Qed.

(** The two copies of the temp roots agree, as the comment on the one says. *)
Lemma configTempRoots_engine h : configTempRoots h = systemTempRoots (rh_git h).
Proof.
  unfold configTempRoots, systemTempRoots. generalize [TempDir (rh_git h); "/tmp"; "/var/tmp"] as l. intros l.
  generalize (@nil string) as roots. induction l as [|c l IH]; intros roots; [done|]. cbn [foldl].
  assert (config_temp_root h roots c = add_temp_root (rh_git h) roots c) as ->; [|apply IH].
  unfold config_temp_root, add_temp_root, is_dir_at. destruct (_ || _ || _); [done|].
  by destruct (gh_stat _ _) as [info|].
Qed.

(** The Overlay is the operator's choice, or [guardrail.toml] in the root that was found. *)
Lemma overlay_path_source h cwd path :
  (FindOverlayPath h cwd).1 = Some path ->
  path = getenv h "GUARDRAIL_CONFIG" \/
  exists root, FindRepoRoot h cwd = Some root /\ path = JoinPath [root; "guardrail.toml"] /\
    (walkRepoRoot h cwd (configTempRoots h) = RepoAt root \/
     walkRepoRoot h cwd (configTempRoots h) = Undecided /\ gitRepoRoot h cwd (configTempRoots h) = Some root).
Proof.
  unfold FindOverlayPath. destruct (getenv h "GUARDRAIL_CONFIG" <>s? "").
  { destruct (gh_stat _ _); [|done]. intros [= <-]. by left. }
  destruct (FindRepoRoot h cwd) as [root|] eqn:E; [|done]. destruct (gh_stat _ _); [|done]. intros [= <-].
  right. exists root. split_and!; [done|done|]. unfold FindRepoRoot, findRepoRootWithCeilings in E.
  destruct (cwd =s? ""); [done|]. destruct (walkRepoRoot _ _ _); [by right|done|]. injection E as ->. by left.
Qed.

(** ** A concrete host *)

(** [/work/app] is a repository of user 7; [/] holds one of user 0. *)
Definition demo_repo_dirs : list string :=
  ["/"; "/.git"; "/.git/objects"; "/.git/refs"; "/work"; "/work/app"; "/work/app/.git"; "/work/app/.git/objects";
   "/work/app/.git/refs"; "/work/app/src"; "/work/lone"].
Definition demo_repo_files : list string := ["/.git/HEAD"; "/work/app/.git/HEAD"].

Definition demo_repo_host : RepoHost :=
  {| rh_git :=
       {| gh_fs := {| fs_lstat := fun p => if in_list p (demo_repo_dirs ++ demo_repo_files) then LExists else LNotExist;
                      fs_evalsymlinks := fun p =>
                        if in_list p (demo_repo_dirs ++ demo_repo_files) then Some (Clean p) else None |};
          gh_stat := fun p =>
            if in_list p demo_repo_dirs then Some {| fi_dir := true; fi_regular := false; fi_size := 0 |}
            else if in_list p demo_repo_files then Some {| fi_dir := false; fi_regular := true; fi_size := 21 |}
            else None;
          gh_open := fun _ => None; gh_env := fun _ => None; gh_wd := Some "/work/app/src" |};
     rh_is_dir := fun p => in_list p demo_repo_dirs;
     rh_uid := fun p => Some (if HasPrefix p "/work" then 7 else 0)%Z;
     rh_euid := 7; rh_dev := fun _ => Some 1%Z; rh_toplevel := fun _ _ => None |}.

Lemma demo_repo_clean : evalsymlinks_clean (rh_git demo_repo_host).
Proof.
  intros p r Ha. cbn [rh_git demo_repo_host gh_fs fs_evalsymlinks]. destruct (in_list _ _); [|done].
  intros [= <-]. by rewrite IsAbs_Clean, Clean_Clean.
Qed.

Lemma repo_root_trusted_witness :
  walkRepoRoot demo_repo_host "." ["/work"] = RepoAt "/work/app" /\
  exists abs rs nearer further,
    let real := rooted (rev rs) in
    Abs (rh_git demo_repo_host) "." = Some abs /\
    fs_evalsymlinks (gh_fs (rh_git demo_repo_host)) abs = Some real /\ Forall name_ok rs /\
    ancestors rs = nearer ++ "/work/app" :: further /\
    Forall (fun d => fs_lstat (gh_fs (rh_git demo_repo_host)) (git_at d) = LNotExist) nearer /\
    trusted demo_repo_host "/work/app" = true /\
    (forall a b, deviceID demo_repo_host real = Some a -> deviceID demo_repo_host "/work/app" = Some b -> b = a) /\
    (forall c s, c ∈ ["/work"] -> IsAbs c = true ->
       s = default (Clean c) (fs_evalsymlinks (gh_fs (rh_git demo_repo_host)) (Clean c)) -> s <> sep ->
       below (Some s) real = true -> below (Some s) "/work/app" = true) /\
    (forall key, key ∈ discovery_variables -> getenv demo_repo_host key = "").
Proof.
  split; [vm_compute; reflexivity|]. apply (repo_root_trusted demo_repo_host "." ["/work"] "/work/app").
  - exact demo_repo_clean.
  - intros wd [= <-]. reflexivity.
  - vm_compute. reflexivity.
Defined.

(** Where nothing of this user's encloses the call, a repository of someone else's above
    it is left to git, and is not seen at all from behind a ceiling. *)
Example foreign_repository :
  walkRepoRoot demo_repo_host "/work/lone" [] = Undecided /\
  walkRepoRoot demo_repo_host "/work/lone" ["/work"] = NotARepo.
Proof. by vm_compute. Qed.
