(* ===== verification/GitRules.v ===== *)
(** * The git rules ([internal/engine/rules_git.go], [checkGit] of
    [internal/engine/rules_bash.go])

    How the engine reads a git command line: git's long options under every
    unambiguous abbreviation and negation, clusters of short options, the
    refspecs of a push and the operation, scope and subject of a [git config],
    and the verdicts the rules give on what they read. *)

From Stdlib Require Import ZArith Lia Bool.
From S2P Require Import Prelude GoStrings Regex GoPath Policy Argv Engine Simple GitRepo.

Open Scope string_scope.
Open Scope list_scope.

(** ** Option tables *)

Inductive gitPushValueMode := gitPushNoValue | gitPushRequiredValue | gitPushOptionalValue.

Record gitPushLongOption := {
  o_name : string;
  o_valueMode : gitPushValueMode;
  o_negatable : bool;
}.

Definition flag (name : string) : gitPushLongOption :=
  {| o_name := name; o_valueMode := gitPushNoValue; o_negatable := false |}.
Definition valued (name : string) (mode : gitPushValueMode) : gitPushLongOption :=
  {| o_name := name; o_valueMode := mode; o_negatable := false |}.
Definition negatable (o : gitPushLongOption) : gitPushLongOption :=
  {| o_name := o_name o; o_valueMode := o_valueMode o; o_negatable := true |}.

Definition gitUpdateRefLongOptions : list gitPushLongOption :=
  [flag "no-deref"; flag "stdin"; flag "create-reflog"; flag "batch-updates"].

Definition gitSwitchLongOptions : list gitPushLongOption :=
  [valued "create" gitPushRequiredValue; valued "force-create" gitPushRequiredValue;
   flag "detach"; flag "guess"; flag "no-guess"; flag "discard-changes";
   flag "force"; flag "merge"; valued "conflict" gitPushRequiredValue;
   flag "quiet"; flag "progress"; flag "no-progress";
   valued "recurse-submodules" gitPushOptionalValue; flag "no-recurse-submodules";
   valued "orphan" gitPushRequiredValue; flag "ignore-other-worktrees";
   valued "track" gitPushOptionalValue; flag "no-track"].

Definition gitRmLongOptions : list gitPushLongOption :=
  [flag "force"; flag "dry-run"; flag "cached"; flag "ignore-unmatch"; flag "quiet"; flag "sparse";
   valued "pathspec-from-file" gitPushRequiredValue; flag "pathspec-file-nul"].

Definition gitPushLongOptions : list gitPushLongOption :=
  List.map negatable
    [flag "verbose"; flag "quiet"; valued "repo" gitPushRequiredValue; flag "all"; flag "branches";
     flag "mirror"; flag "delete"; flag "tags"; flag "dry-run"; flag "porcelain"; flag "force";
     valued "force-with-lease" gitPushOptionalValue; flag "force-if-includes";
     valued "recurse-submodules" gitPushRequiredValue; flag "thin";
     valued "receive-pack" gitPushRequiredValue; valued "exec" gitPushRequiredValue;
     flag "set-upstream"; flag "progress"; flag "prune"; flag "verify"; flag "follow-tags";
     valued "signed" gitPushOptionalValue; flag "atomic"; valued "push-option" gitPushRequiredValue]
  ++ [flag "ipv4"; flag "ipv6"].

(** ** Resolving a long option *)

(** The second loop of both resolvers: [found] is the option met so far, and a
    second one that qualifies makes the name ambiguous. *)
Fixpoint unique_match (ok : gitPushLongOption -> bool) (found : option gitPushLongOption)
    (options : list gitPushLongOption) : option gitPushLongOption :=
  match options with
  | [] => found
  | o :: rest =>
      if ok o then match found with Some _ => None | None => unique_match ok (Some o) rest end
      else unique_match ok found rest
  end.

Definition resolveGitLongOption (name : string) (options : list gitPushLongOption)
  : option gitPushLongOption :=
  match List.find (fun o => o_name o =s? name) options with
  | Some o => Some o
  | None => unique_match (fun o => HasPrefix (o_name o) name) None options
  end.

(** The option and whether it was negated; [None] where the source's third
    result is [false]. *)
Definition resolveGitPushLongOption (name : string) : option (gitPushLongOption * bool) :=
  let negated := HasPrefix name "no-" in
  let name := if negated then TrimPrefix name "no-" else name in
  match List.find (fun o => (o_name o =s? name) && (negb negated || o_negatable o))
          gitPushLongOptions with
  | Some o => Some (o, negated)
  | None =>
      match unique_match (fun o => (negb negated || o_negatable o) && HasPrefix (o_name o) name)
              None gitPushLongOptions with
      | Some o => Some (o, negated)
      | None => None
      end
  end.

(** ** [gitOptionPresent] *)

(** One cluster of short options: a flag looked for is in it, or the last
    letter takes the next word as its value, or neither. *)
Inductive cluster := ClusterHit | ClusterTakesNext | ClusterDone.

Fixpoint short_cluster (cs shortFlags shortValues : string) : cluster :=
  match cs with
  | EmptyString => ClusterDone
  | String c t =>
      if ContainsByte shortFlags c then ClusterHit
      else if ContainsByte shortValues c then
        if t =s? "" then ClusterTakesNext else ClusterDone
      else short_cluster t shortFlags shortValues
  end.

Fixpoint option_present (shortFlags longFlag : string) (longOptions : list gitPushLongOption)
    (shortValues : string) (words : list string) : bool :=
  match words with
  | [] => false
  | arg :: rest =>
      let continue := option_present shortFlags longFlag longOptions shortValues in
      let skip_one := match rest with [] => false | _ :: rest' => continue rest' end in
      if arg =s? "--" then false
      else if HasPrefix arg "--" then
        let '(name, _, attached) := Cut (TrimPrefix arg "--") "=" in
        match resolveGitLongOption name longOptions with
        | None => continue rest
        | Some o =>
            match o_valueMode o with
            | gitPushNoValue =>
                if attached then continue rest
                else if o_name o =s? longFlag then true else continue rest
            | gitPushRequiredValue =>
                if o_name o =s? longFlag then true
                else if attached then continue rest else skip_one
            | gitPushOptionalValue => if o_name o =s? longFlag then true else continue rest
            end
        end
      else if is_cluster arg then
        match short_cluster (sdrop 1 arg) shortFlags shortValues with
        | ClusterHit => true
        | ClusterTakesNext => skip_one
        | ClusterDone => continue rest
        end
      else continue rest
  end.

Definition gitOptionPresent (argv : list string) (shortFlags longFlag : string)
    (longOptions : list gitPushLongOption) (shortValues : string) : bool :=
  option_present shortFlags longFlag longOptions shortValues (git_args argv).

(** ** [git push] *)

Record gitPushArgs := {
  p_force : bool;
  p_forceWithLease : bool;
  p_delete : bool;
  p_tags : bool;
  p_refspecs : list string;
}.

Definition no_push_args : gitPushArgs :=
  {| p_force := false; p_forceWithLease := false; p_delete := false; p_tags := false;
     p_refspecs := [] |}.
Definition set_force (b : bool) (a : gitPushArgs) : gitPushArgs :=
  {| p_force := b; p_forceWithLease := p_forceWithLease a; p_delete := p_delete a;
     p_tags := p_tags a; p_refspecs := p_refspecs a |}.
Definition set_lease (b : bool) (a : gitPushArgs) : gitPushArgs :=
  {| p_force := p_force a; p_forceWithLease := b; p_delete := p_delete a;
     p_tags := p_tags a; p_refspecs := p_refspecs a |}.
Definition set_delete (b : bool) (a : gitPushArgs) : gitPushArgs :=
  {| p_force := p_force a; p_forceWithLease := p_forceWithLease a; p_delete := b;
     p_tags := p_tags a; p_refspecs := p_refspecs a |}.
Definition set_tags (b : bool) (a : gitPushArgs) : gitPushArgs :=
  {| p_force := p_force a; p_forceWithLease := p_forceWithLease a; p_delete := p_delete a;
     p_tags := b; p_refspecs := p_refspecs a |}.
Definition set_refspecs (l : list string) (a : gitPushArgs) : gitPushArgs :=
  {| p_force := p_force a; p_forceWithLease := p_forceWithLease a; p_delete := p_delete a;
     p_tags := p_tags a; p_refspecs := l |}.

(** A cluster of short push options; the flag is [consumeNext]. *)
Fixpoint push_cluster (cs : string) (args : gitPushArgs) : gitPushArgs * bool :=
  match cs with
  | EmptyString => (args, false)
  | String c t =>
      if Ascii.eqb c "f" then push_cluster t (set_force true args)
      else if Ascii.eqb c "d" then push_cluster t (set_delete true args)
      else if Ascii.eqb c "o" then (args, t =s? "")
      else push_cluster t args
  end.

(** A long push option; the flag says that the next word is its value. *)
Definition push_long (a : string) (args : gitPushArgs) : gitPushArgs * bool :=
  let '(base, _, has_eq) := Cut a "=" in
  match resolveGitPushLongOption (TrimPrefix base "--") with
  | None => (args, false)
  | Some (o, negated) =>
      let no_value := match o_valueMode o with gitPushNoValue => true | _ => false end in
      let required := match o_valueMode o with gitPushRequiredValue => true | _ => false end in
      if (negated && has_eq) || (negb negated && has_eq && no_value) then (args, false)
      else
        let args :=
          if o_name o =s? "force" then set_force (negb negated) args
          else if o_name o =s? "force-with-lease" then set_lease (negb negated) args
          else if o_name o =s? "delete" then set_delete (negb negated) args
          else if o_name o =s? "tags" then set_tags (negb negated) args
          else args in
        (args, negb negated && negb has_eq && required)
  end.

(** One word in option position: what it does to the result, and whether it
    takes the next word. *)
Definition push_option (a : string) (args : gitPushArgs) : gitPushArgs * bool :=
  if HasPrefix a "--" then push_long a args else push_cluster (sdrop 1 a) args.

(** The loop of [parseGitPushArgs]: the result so far and the operands. *)
Fixpoint push_loop (words : list string) (args : gitPushArgs) : gitPushArgs * list string :=
  match words with
  | [] => (args, [])
  | a :: rest =>
      if a =s? "--" then (args, rest)
      else if HasPrefix a "--" || is_cluster a then
        let '(args, takes_next) := push_option a args in
        if takes_next then
          match rest with
          | [] => (args, [])
          | _ :: rest' => push_loop rest' args
          end
        else push_loop rest args
      else
        let '(args, operands) := push_loop rest args in (args, a :: operands)
  end.

Definition parseGitPushArgs (argv : list string) : gitPushArgs :=
  if gitSubcommand argv <>s? "push" then no_push_args
  else
    let '(args, operands) := push_loop (git_args argv) no_push_args in
    set_refspecs (tail operands) args.

(** An optional [v] or [V], a dotted number, and an optional suffix that starts
    with [-], [+] or [.] and an alphanumeric. *)
Definition versionShapedRefPattern : re :=
  let digit := Chr is_digit in
  let alnum := fun c => is_digit c || is_letter c in
  Cat (Opt (Chr (fun c => Ascii.eqb c "v" || Ascii.eqb c "V")))
    (Cat (Plus digit)
      (Cat (Star (Cat (byte ".") (Plus digit)))
        (Opt (Cat (Chr (fun c => Ascii.eqb c "-" || Ascii.eqb c "+" || Ascii.eqb c "."))
               (Cat (Chr alnum)
                 (Star (Chr (fun c => alnum c || Ascii.eqb c "." || Ascii.eqb c "-")))))))).

Definition versionShapedRef (dst : string) : bool :=
  (dst <>s? "") && re_match versionShapedRefPattern dst.

(** What the loop over the refspecs collects. *)
Record refspec_scan := {
  r_force : string;
  r_delete : string;
  r_tag : string;
  r_protected : bool;
}.

(** The destination a refspec names, without a leading [+]. *)
Definition refspec_dst (a : string) : string :=
  TrimPrefix (match AfterLast a ":" with Some d => d | None => a end) "+".

Definition keep_first (seen a : string) (hit : bool) : string :=
  if hit && (seen =s? "") then a else seen.

Definition names_tag (dst : string) : bool :=
  if HasPrefix dst "refs/tags/" then true
  else if HasPrefix dst "refs/" then false
  else versionShapedRef dst.

Definition scan_refspec (r : refspec_scan) (a : string) : refspec_scan :=
  let dst := refspec_dst a in
  {| r_force := keep_first (r_force r) a (HasPrefix a "+");
     r_delete := keep_first (r_delete r) a (HasPrefix a ":");
     r_tag := keep_first (r_tag r) a (names_tag dst);
     r_protected := r_protected r || in_list (TrimPrefix dst "refs/heads/") ["main"; "master"] |}.

Definition scan_refspecs (l : list string) : refspec_scan :=
  foldl scan_refspec {| r_force := ""; r_delete := ""; r_tag := ""; r_protected := false |} l.

Definition push_verdict (args : gitPushArgs) : option Verdict :=
  let r := scan_refspecs (p_refspecs args) in
  if r_force r <>s? "" then
    deny "P2.git-push-force" ("a leading + in a refspec is a force push: " +:+ r_force r)
  else if p_delete args || (r_delete r <>s? "") then
    ask "P2.git-push-delete"
      (if r_delete r <>s? ""
       then "an empty source in a refspec deletes the remote ref: " +:+ r_delete r
       else "git push --delete deletes remote refs")
  else if r_protected r then ask "P2.git-push-protected" "push to a protected branch"
  else if p_tags args then
    ask "P2.git-push-protected" "pushing tags can overwrite released versions"
  else if r_tag r <>s? "" then
    ask "P2.git-push-protected" ("publishes a release pointer: " +:+ r_tag r)
  else None.

(** ** [git config] *)

Record parsedGitConfig := {
  g_operation : string;
  g_scope : string;
  g_subjects : list string;
  g_localRepo : bool;
  g_uncertain : bool;
}.

(** The closure's state: the operation ([""] while unset), the scope and
    whether something could not be classified. *)
Record cfg_state := { c_operation : string; c_scope : string; c_uncertain : bool }.

Definition cfg_doubt (b : bool) (st : cfg_state) : cfg_state :=
  {| c_operation := c_operation st; c_scope := c_scope st; c_uncertain := c_uncertain st || b |}.

Definition setOperation (next : string) (st : cfg_state) : cfg_state :=
  let st := cfg_doubt ((c_operation st <>s? "") && (c_operation st <>s? next)) st in
  {| c_operation := next; c_scope := c_scope st; c_uncertain := c_uncertain st |}.

Definition setScope (next : string) (st : cfg_state) : cfg_state :=
  let st := cfg_doubt ((c_scope st <>s? "local") && (c_scope st <>s? next)) st in
  {| c_operation := c_operation st; c_scope := next; c_uncertain := c_uncertain st |}.

(** The value of [--file], [--blob] or [--type]. *)
Definition cfg_value (name value : string) (st : cfg_state) : cfg_state :=
  let st := cfg_doubt (value =s? "") st in
  if in_list name ["file"; "blob"] then setScope name st else st.

Definition cfg_operations : list string :=
  ["add"; "replace-all"; "unset"; "unset-all"; "rename-section"; "remove-section"; "edit";
   "get"; "get-all"; "get-regexp"; "get-urlmatch"; "get-color"; "get-colorbool"; "list"].

Definition cfg_plain_flags : list string :=
  ["fixed-value"; "show-origin"; "show-scope"; "name-only"; "includes"; "no-includes"; "null";
   "bool"; "int"; "bool-or-int"; "bool-or-str"; "path"; "expiry-date"].

(** A cluster of short options; the flag says that [-f] still needs the next
    word as its value. *)
Fixpoint cfg_cluster (cs : string) (st : cfg_state) : cfg_state * bool :=
  match cs with
  | EmptyString => (st, false)
  | String c t =>
      if Ascii.eqb c "e" then cfg_cluster t (setOperation "edit" st)
      else if Ascii.eqb c "l" then cfg_cluster t (setOperation "list" st)
      else if Ascii.eqb c "z" || Ascii.eqb c "n" || Ascii.eqb c "t" then cfg_cluster t st
      else if Ascii.eqb c "f" then
        if t =s? "" then (st, true) else (setScope "file" st, false)
      else cfg_cluster t (cfg_doubt true st)
  end.

(** The loop over the words after [config]: the state and the operands.  The
    first operand, or [--], ends the options. *)
Fixpoint cfg_loop (words : list string) (st : cfg_state) : cfg_state * list string :=
  match words with
  | [] => (st, [])
  | arg :: rest =>
      if arg =s? "--" then (st, rest)
      else if negb (HasPrefix arg "-") || (arg =s? "-") then (st, words)
      else if HasPrefix arg "--" then
        let '(name, attached, hasAttached) := Cut (TrimPrefix arg "--") "=" in
        if in_list name ["local"; "global"; "system"; "worktree"] then
          cfg_loop rest (setScope name (cfg_doubt hasAttached st))
        else if in_list name ["file"; "blob"; "type"] then
          if hasAttached then cfg_loop rest (cfg_value name attached st)
          else match rest with
               | [] => (cfg_doubt true st, [])
               | value :: rest' => cfg_loop rest' (cfg_value name value st)
               end
        else if in_list name cfg_operations then
          cfg_loop rest (setOperation name (cfg_doubt hasAttached st))
        else if in_list name cfg_plain_flags then cfg_loop rest (cfg_doubt hasAttached st)
        else cfg_loop rest (cfg_doubt true st)
      else
        let '(st, needs_value) := cfg_cluster (sdrop 1 arg) st in
        if needs_value then
          match rest with
          | [] => (cfg_doubt true st, [])
          | value :: rest' => cfg_loop rest' (setScope "file" (cfg_doubt (value =s? "") st))
          end
        else cfg_loop rest st
  end.

Definition cfg_arity_ok (operation : string) (n : nat) : bool :=
  if operation =s? "positional" then (n <=? 3)%nat
  else if operation =s? "add" then (n =? 2)%nat
  else if operation =s? "replace-all" then ((n =? 2) || (n =? 3))%nat
  else if in_list operation ["unset"; "unset-all"] then ((n =? 1) || (n =? 2))%nat
  else if operation =s? "rename-section" then (n =? 2)%nat
  else if operation =s? "remove-section" then (n =? 1)%nat
  else if in_list operation ["edit"; "list"] then (n =? 0)%nat
  else if in_list operation ["get"; "get-all"; "get-regexp"; "get-color"; "get-colorbool"]
  then ((n =? 1) || (n =? 2))%nat
  else if operation =s? "get-urlmatch" then (n =? 2)%nat
  else false.

Definition first_lower (operands : list string) : list string :=
  match operands with [] => [] | s :: _ => [ToLower s] end.

(** The part of [parseGitConfig] after the loop. *)
Definition cfg_finish (localRepo : bool) (st : cfg_state) (operands : list string)
  : parsedGitConfig :=
  let operation := if c_operation st =s? "" then "positional" else c_operation st in
  let positional_write := (operation =s? "positional") && (2 <=? length operands)%nat in
  let parsed op subjects doubt :=
    {| g_operation := op; g_scope := c_scope st; g_subjects := subjects;
       g_localRepo := localRepo; g_uncertain := c_uncertain st || doubt |} in
  let op := if positional_write then "write" else operation in
  let subjects := if positional_write then first_lower operands else [] in
  if negb (cfg_arity_ok operation (length operands)) then parsed op subjects true
  else
    let rewrite_one := in_list operation ["add"; "replace-all"; "unset"; "unset-all"] in
    let section := in_list operation ["rename-section"; "remove-section"] in
    let op := if rewrite_one then "write" else op in
    let subjects := if rewrite_one then first_lower operands
                    else if section then List.map ToLower operands else subjects in
    parsed op subjects
      ((c_scope st =s? "blob") &&
       negb (in_list op ["read"; "list"; "get"; "get-all"; "get-regexp"; "get-urlmatch"])).

Section Config.

Context (h : GitHost).

Definition parseGitConfig (s : Simple) (tc : ToolCall) : parsedGitConfig :=
  let localRepo := gitConfigTargetsToolCallRepo h s tc in
  if gitSubcommand (s_Argv s) <>s? "config" then
    {| g_operation := "read"; g_scope := "local"; g_subjects := []; g_localRepo := localRepo;
       g_uncertain := true |}
  else
    let '(st, operands) :=
      cfg_loop (git_args (s_Argv s))
        {| c_operation := ""; c_scope := "local"; c_uncertain := false |} in
    cfg_finish localRepo st operands.

Definition section_operation (operation : string) : bool :=
  in_list operation ["rename-section"; "remove-section"].

Definition dangerousGitConfigSubject (subject operation : string) : bool :=
  if section_operation operation
  then in_list subject ["core"; "credential"; "include"; "includeif"; "alias"]
  else
    in_list subject ["core.hookspath"; "core.fsmonitor"; "core.sshcommand"; "core.pager";
                     "core.editor"; "include.path"] ||
    HasPrefix subject "credential." || HasPrefix subject "includeif." || HasPrefix subject "alias.".

Definition approvedGitConfigSubject (subject operation : string) : bool :=
  if section_operation operation then in_list subject ["user"; "advice"; "color"]
  else
    in_list subject ["init.defaultbranch"; "commit.gpgsign"] ||
    HasPrefix subject "user." || HasPrefix subject "advice." || HasPrefix subject "color.".

Definition config_reads : list string :=
  ["read"; "positional"; "list"; "get"; "get-all"; "get-regexp"; "get-urlmatch"; "get-color";
   "get-colorbool"].

Definition checkGitConfig (parsed : parsedGitConfig) : option Verdict :=
  let operation := g_operation parsed in
  if g_uncertain parsed then
    ask "P2.git-config-write" "git config arguments could not be classified safely"
  else if in_list operation config_reads then None
  else
    match List.find (fun s => dangerousGitConfigSubject s operation) (g_subjects parsed) with
    | Some subject =>
        deny "P2.git-config-write" ("git config writes a protected key or section: " +:+ subject)
    | None =>
        if in_list (g_scope parsed) ["global"; "system"; "file"] then
          deny "P2.git-config-write" "git config writes outside repository-local configuration"
        else if g_scope parsed =s? "worktree" then
          ask "P2.git-config-write" "git config writes worktree-specific configuration"
        else if negb (g_localRepo parsed) then
          ask "P2.git-config-write"
            "git config targets a repository other than the ToolCall repository"
        else if operation =s? "edit" then
          ask "P2.git-config-write"
            "git config opens repository configuration for unrestricted editing"
        else
          match List.find (fun s => negb (approvedGitConfigSubject s operation))
                  (g_subjects parsed) with
          | Some subject =>
              ask "P2.git-config-write"
                ("git config writes an unclassified key or section: " +:+ subject)
          | None => None
          end
    end.

(** ** The rules *)

Definition is_git (s : Simple) : bool :=
  (head (s_Argv s) =s? "git") && (2 <=? length (s_Argv s))%nat.

Definition unknown_global (unknown : string) : option Verdict :=
  if unknown =s? "" then None
  else ask "P2.git-unknown-global"
    ("unrecognized git global option " +:+ unknown +:+
     " before the subcommand; cannot verify what this runs").

(** What the [switch] of [checkGitSafety] returns from inside a case; [None]
    falls through to the check of the global options. *)
Definition git_case (s : Simple) (tc : ToolCall) (unknown : string) : option (option Verdict) :=
  let argv := s_Argv s in
  let sub := gitSubcommand argv in
  let hit (b : bool) (v : option Verdict) := if b then Some v else None in
  if sub =s? "reset" then
    hit (hasAnyFlag argv "" ["--hard"; "--keep"])
      (deny "P2.git-reset-hard"
         "git reset --hard/--keep discards the working tree and index irrecoverably")
  else if sub =s? "config" then
    let verdict := checkGitConfig (parseGitConfig s tc) in
    match verdict with
    | Some v =>
        if bool_decide (v_Decision v = Deny) then Some verdict
        else hit (unknown =s? "") verdict
    | None => hit (unknown =s? "") verdict
    end
  else if in_list sub ["checkout"; "restore"] then
    hit (existsb (fun a => a =s? ".") (nonFlagArgs argv))
      (ask "P2.git-checkout-restore" ("git " +:+ sub +:+ " . silently reverts uncommitted changes"))
  else if sub =s? "branch" then
    hit (hasAnyFlag argv "D" [] ||
         (hasAnyFlag argv "" ["--delete"] && hasAnyFlag argv "" ["--force"]))
      (ask "P2.git-branch-delete" "git branch -D force-deletes an unmerged branch")
  else if sub =s? "commit" then
    hit (hasAnyFlag argv "" ["--amend"])
      (ask "P2.git-history-rewrite" "git commit --amend rewrites the last commit")
  else if in_list sub ["filter-branch"; "filter-repo"] then
    Some (ask "P2.git-history-rewrite" ("git " +:+ sub +:+ " rewrites history"))
  else if sub =s? "reflog" then
    hit (gitSubcommandArg argv =s? "expire")
      (ask "P2.git-history-rewrite" "git reflog expire removes the safety net for history rewrites")
  else if sub =s? "gc" then
    hit (hasAnyFlag argv "" ["--prune=now"])
      (ask "P2.git-history-rewrite" "git gc --prune=now permanently drops unreachable objects")
  else if sub =s? "remote" then
    hit (in_list (gitSubcommandArg argv) ["add"; "set-url"])
      (ask "P2.git-remote-add" "adding/changing a remote adds a reachable exfil destination")
  else if sub =s? "stash" then
    hit (in_list (gitSubcommandArg argv) ["clear"; "drop"])
      (ask "P2.git-stash-clear" "discards stashed work with no reflog for the stash contents")
  else if sub =s? "update-ref" then
    hit (gitOptionPresent argv "d" "" gitUpdateRefLongOptions "m")
      (ask "P2.git-ref-delete" "git update-ref -d deletes a ref")
  else if sub =s? "worktree" then
    hit (gitSubcommandArg argv =s? "remove")
      (ask "P2.git-worktree-remove" "git worktree remove discards a working tree")
  else if sub =s? "switch" then
    hit (gitOptionPresent argv "" "discard-changes" gitSwitchLongOptions "cC")
      (ask "P2.git-discard" "git switch --discard-changes throws away uncommitted work")
  else if sub =s? "rm" then
    hit (gitOptionPresent argv "rf" "force" gitRmLongOptions "")
      (ask "P2.git-rm" "git rm -r/-f removes tracked files")
  else if sub =s? "push" then
    let args := parseGitPushArgs argv in
    if p_force args || p_forceWithLease args then Some None
    else match push_verdict args with Some v => Some (Some v) | None => None end
  else None.

Definition checkGitSafety (s : Simple) (tc : ToolCall) : option Verdict :=
  if negb (is_git s) then None
  else
    let unknown := gitSubcommandUnknownFlag (s_Argv s) in
    match git_case s tc unknown with
    | Some v => v
    | None => unknown_global unknown
    end.

End Config.

(** A cluster of [git clean]'s short options. *)
Fixpoint clean_cluster (cs : string) : cluster :=
  match cs with
  | EmptyString => ClusterDone
  | String c t =>
      if Ascii.eqb c "n" then ClusterHit
      else if Ascii.eqb c "e" then if t =s? "" then ClusterTakesNext else ClusterDone
      else clean_cluster t
  end.

Fixpoint clean_dry_run (words : list string) : bool :=
  match words with
  | [] => false
  | arg :: rest =>
      let skip_one := match rest with [] => false | _ :: rest' => clean_dry_run rest' end in
      if arg =s? "--" then false
      else if arg =s? "--dry-run" then true
      else if arg =s? "--exclude" then skip_one
      else if HasPrefix arg "--" || negb (HasPrefix arg "-") then clean_dry_run rest
      else
        match clean_cluster (sdrop 1 arg) with
        | ClusterHit => true
        | ClusterTakesNext => skip_one
        | ClusterDone => clean_dry_run rest
        end
  end.

Definition gitCleanDryRun (argv : list string) : bool := clean_dry_run (git_args argv).

Definition checkGit (s : Simple) : option Verdict :=
  if negb (is_git s) then None
  else
    let argv := s_Argv s in
    let sub := gitSubcommand argv in
    if sub =s? "push" then
      let args := parseGitPushArgs argv in
      if p_force args || p_forceWithLease args
      then deny "P1.git-push-force" "git push --force overwrites remote history"
      else None
    else if sub =s? "clean" then
      if gitCleanDryRun argv then None
      else if hasAnyFlag argv "fxd" ["--force"] then
        deny "P1.git-clean" "git clean -f/-x/-d deletes untracked files irrecoverably"
      else None
    else None.

(** ** Lemmas: resolving an abbreviation *)

Lemma unique_match_found ok x l :
  unique_match ok (Some x) l = match List.filter ok l with [] => Some x | _ => None end.
Proof. induction l as [|o l IH]; [done|]. simpl. by destruct (ok o). Qed.

(** The loop finds the one option that qualifies, when there is exactly one. *)
Lemma unique_match_spec ok l :
  unique_match ok None l = match List.filter ok l with [o] => Some o | _ => None end.
Proof.
  induction l as [|o l IH]; [done|]. simpl. destruct (ok o); [|done].
  rewrite unique_match_found. by destruct (List.filter ok l).
Qed.

Lemma HasPrefix_stake s m :
  HasPrefix s m = true -> m = stake (String.length m) s /\ (String.length m <= String.length s)%nat.
Proof.
  rewrite HasPrefix_true. intros [t ->]. rewrite length_append. split; [|lia].
  induction m as [|c m IH]; [done|]. simpl. by rewrite <- IH.
Qed.

(** The abbreviations of [s]. *)
Definition prefixes (s : string) : list string :=
  List.map (fun n => stake n s) (seq 0 (S (String.length s))).

Lemma HasPrefix_prefixes s m : HasPrefix s m = true -> m ∈ prefixes s.
Proof.
  intros H. destruct (HasPrefix_stake _ _ H) as [Hm Hl]. apply list_elem_of_In, in_map_iff.
  exists (String.length m). split; [done|]. apply in_seq. lia.
Qed.

(** The name an option word resolves to is a prefix of that option's name. *)
Lemma resolve_push_prefix n o negated :
  resolveGitPushLongOption n = Some (o, negated) ->
  negated = HasPrefix n "no-" /\
  HasPrefix (o_name o) (if negated then TrimPrefix n "no-" else n) = true.
Proof.
  unfold resolveGitPushLongOption.
  destruct (List.find _ gitPushLongOptions) as [o'|] eqn:E.
  - intros H. apply (inj Some), (inj2 pair) in H as [-> <-].
    apply find_some in E as [_ E]. breflect. split; [done|].
    rewrite <- H. apply HasPrefix_true. exists "". by rewrite append_nil_r.
  - rewrite unique_match_spec.
    destruct (List.filter _ gitPushLongOptions) as [|o' [|]] eqn:F; [done| |done].
    intros H. apply (inj Some), (inj2 pair) in H as [-> <-]. split; [done|].
    assert (In o (o :: [])) as Hin by (by left). rewrite <- F in Hin.
    apply filter_In in Hin as [_ Hin]. by breflect.
Qed.

Definition is_force_name (s : string) : bool := (s =s? "force") || (s =s? "force-with-lease").

(** Only words that start with [no-force] negate a force option. *)
Lemma resolve_negated_force n o :
  resolveGitPushLongOption n = Some (o, true) -> is_force_name (o_name o) = true ->
  HasPrefix n "no-force" = true.
Proof.
  intros H Hf. destruct (resolve_push_prefix _ _ _ H) as [Hneg Hp].
  symmetry in Hneg. apply HasPrefix_true in Hneg as [m ->]. rewrite TrimPrefix_app in Hp.
  assert (Hm : m ∈ prefixes "force-with-lease").
  { apply orb_true_iff in Hf as [Hf|Hf]; breflect; rewrite Hf in Hp;
      apply HasPrefix_prefixes; [|done].
    apply HasPrefix_true in Hp as [t Ht]. apply HasPrefix_true.
    exists (t +:+ "-with-lease"). by rewrite <- append_assoc, <- Ht. }
  assert (Hall : forallb (fun m =>
      match resolveGitPushLongOption ("no-" +:+ m) with
      | Some (o, true) => negb (is_force_name (o_name o)) || HasPrefix ("no-" +:+ m) "no-force"
      | _ => true
      end) (prefixes "force-with-lease") = true) by (by vm_compute).
  rewrite forallb_forall in Hall. apply list_elem_of_In in Hm. specialize (Hall _ Hm).
  cbv beta in Hall. by rewrite H, Hf in Hall.
Qed.

(** ** Lemmas: the push loop *)

(** The word takes the one after it as its value. *)
Definition takes_next (a : string) : bool := snd (push_option a no_push_args).

Definition is_operand (a : string) : bool := negb (HasPrefix a "--" || is_cluster a).

(** A list of words after which the next one is again read as an option or an
    operand: no option is left waiting for its value, and there was no [--]. *)
Inductive option_position : list string -> Prop :=
| op_nil : option_position []
| op_word a pre : a <> "--" -> is_operand a || negb (takes_next a) = true ->
    option_position pre -> option_position (a :: pre)
| op_value a v pre : is_operand a = false -> takes_next a = true ->
    option_position pre -> option_position (a :: v :: pre).

Lemma push_cluster_takes cs args args' : snd (push_cluster cs args) = snd (push_cluster cs args').
Proof.
  revert args args'. induction cs as [|c cs IH]; intros args args'; [done|]. simpl.
  destruct (Ascii.eqb c "f"); [apply IH|]. destruct (Ascii.eqb c "d"); [apply IH|].
  destruct (Ascii.eqb c "o"); [done|apply IH].
Qed.

Lemma push_long_takes a args args' : snd (push_long a args) = snd (push_long a args').
Proof.
  unfold push_long. destruct (Cut a "=") as [[base v] has].
  destruct (resolveGitPushLongOption _) as [[o negated]|]; [|done].
  by destruct ((negated && has) || _).
Qed.

Lemma push_option_takes a args : snd (push_option a args) = takes_next a.
Proof.
  unfold takes_next, push_option.
  destruct (HasPrefix a "--"); [apply push_long_takes|apply push_cluster_takes].
Qed.

Lemma push_loop_word a rest args :
  a <> "--" -> is_operand a || negb (takes_next a) = true ->
  push_loop (a :: rest) args =
  let '(args', operands) := push_loop rest (if is_operand a then args else fst (push_option a args)) in
  (args', if is_operand a then a :: operands else operands).
Proof.
  intros Hd H. cbn [push_loop]. destruct (a =s? "--") eqn:E; breflect; [done|].
  unfold is_operand in *. destruct (HasPrefix a "--" || is_cluster a) eqn:Eo; [|done].
  cbn [negb orb] in *. apply negb_true_iff in H. rewrite <- (push_option_takes a args) in H.
  destruct (push_option a args) as [args1 t]. simpl in *. rewrite H.
  by destruct (push_loop rest args1).
Qed.

Lemma push_loop_value a v rest args :
  is_operand a = false -> takes_next a = true ->
  push_loop (a :: v :: rest) args = push_loop rest (fst (push_option a args)).
Proof.
  intros Ho H. cbn [push_loop].
  destruct (a =s? "--") eqn:E; breflect; [subst; by vm_compute in H|].
  unfold is_operand in Ho. apply negb_false_iff in Ho. rewrite Ho.
  rewrite <- (push_option_takes a args) in H.
  destruct (push_option a args) as [args1 t]. simpl in *. by rewrite H.
Qed.

(** The operands among words in option position, values of options left out. *)
Definition operands_of (pre : list string) : list string := snd (push_loop pre no_push_args).

Lemma push_loop_operands words args args' :
  snd (push_loop words args) = snd (push_loop words args').
Proof.
  revert args args'. induction words as [|a rest IH IH2] using list_ind_two; intros args args'; [done|].
  cbn [push_loop]. destruct (a =s? "--"); [done|].
  destruct (HasPrefix a "--" || is_cluster a).
  - pose proof (push_option_takes a args) as H1. pose proof (push_option_takes a args') as H2.
    destruct (push_option a args) as [a1 t1], (push_option a args') as [a2 t2]. simpl in *.
    subst. destruct (takes_next a); [|apply IH].
    destruct rest as [|v rest]; [done|]. by eapply IH2.
  - pose proof (IH args args') as Hr.
    destruct (push_loop rest args), (push_loop rest args'). simpl in *. by rewrite Hr.
Qed.

(** The words before a position in which options are still read leave a state,
    and the rest is read from there. *)
Lemma push_loop_app pre rest args :
  option_position pre ->
  exists args', push_loop (pre ++ rest) args =
    let '(a, ops) := push_loop rest args' in (a, operands_of pre ++ ops).
Proof.
  intros H. revert args. unfold operands_of.
  induction H as [|a pre Hd Hw Hp IH|a v pre Ho Ht Hp IH]; intros args.
  - exists args. simpl. by destruct (push_loop rest args).
  - change ((a :: pre) ++ rest) with (a :: (pre ++ rest)).
    rewrite (push_loop_word a (pre ++ rest)), (push_loop_word a pre) by done.
    destruct (IH (if is_operand a then args else fst (push_option a args))) as [args' ->].
    exists args'. destruct (push_loop rest args') as [x ops]. clear IH.
    rewrite (push_loop_operands pre no_push_args
      (if is_operand a then no_push_args else fst (push_option a no_push_args))).
    destruct (push_loop pre _) as [y ops']. simpl. by destruct (is_operand a).
  - change ((a :: v :: pre) ++ rest) with (a :: v :: (pre ++ rest)).
    rewrite !push_loop_value by done. destruct (IH (fst (push_option a args))) as [args' ->].
    exists args'. by rewrite (push_loop_operands pre no_push_args (fst (push_option a no_push_args))).
Qed.

(** ** Lemmas: a force flag that was read stays *)

(** [args'] has every force flag [args] has. *)
Definition keeps_force (args args' : gitPushArgs) : Prop :=
  (p_force args = true -> p_force args' = true) /\
  (p_forceWithLease args = true -> p_forceWithLease args' = true).

Lemma keeps_force_refl args : keeps_force args args.
Proof. done. Qed.

Lemma keeps_force_trans a b c : keeps_force a b -> keeps_force b c -> keeps_force a c.
Proof. intros [? ?] [? ?]. split; auto. Qed.

#[local] Hint Resolve keeps_force_refl : guard.

Lemma push_cluster_keeps cs args : keeps_force args (fst (push_cluster cs args)).
Proof.
  revert args. induction cs as [|c cs IH]; intros args; [done|]. simpl.
  destruct (Ascii.eqb c "f"); [eapply keeps_force_trans; [|apply IH]; by split|].
  destruct (Ascii.eqb c "d"); [eapply keeps_force_trans; [|apply IH]; by split|].
  destruct (Ascii.eqb c "o"); [done|apply IH].
Qed.

Lemma push_cluster_forces p q args :
  ContainsByte p "o" = false -> p_force (fst (push_cluster (p +:+ String "f" q) args)) = true.
Proof.
  revert args. induction p as [|c p IH]; intros args H.
  - by apply (proj1 (push_cluster_keeps q (set_force true args))).
  - simpl in H. apply orb_false_iff in H as [Hc Hp]. simpl. rewrite Hc.
    destruct (Ascii.eqb c "f"); [by apply IH|]. destruct (Ascii.eqb c "d"); by apply IH.
Qed.

(** The name a long option word is resolved by is a prefix of the word. *)
Lemma option_name_prefix a base v has m :
  HasPrefix a "--" = true -> Cut a "=" = (base, v, has) ->
  HasPrefix (TrimPrefix base "--") m = true -> HasPrefix a ("--" +:+ m) = true.
Proof.
  intros Ha Hc Hm. apply HasPrefix_true in Ha as [t ->].
  change ("--" +:+ t) with (String "-" (String "-" t)) in *. simpl in Hc.
  destruct (Cut t "=") as [[b0 v0] f0] eqn:Et. simplify_eq.
  change (String "-" (String "-" b0)) with ("--" +:+ b0) in Hm. rewrite TrimPrefix_app in Hm.
  apply HasPrefix_true in Hm as [x ->].
  assert (exists y, t = m +:+ y) as [y ->].
  { destruct has; [apply Cut_found in Et as [-> _]|apply Cut_missing in Et as (<- & _)].
    - rewrite append_assoc. by eexists.
    - by eexists. }
  change (String "-" (String "-" (m +:+ y))) with ("--" +:+ (m +:+ y)).
  rewrite <- append_assoc. apply HasPrefix_app.
Qed.

Lemma push_long_keeps a args :
  HasPrefix a "--" = true -> HasPrefix a "--no-force" = false ->
  keeps_force args (fst (push_long a args)).
Proof.
  intros Ha Hno. unfold push_long. destruct (Cut a "=") as [[base v] has] eqn:Ec.
  destruct (resolveGitPushLongOption (TrimPrefix base "--")) as [[o negated]|] eqn:Er; [|done].
  destruct ((negated && has) || _); [done|].
  assert (Hn : is_force_name (o_name o) = true -> negated = false).
  { intros Hf. destruct negated; [|done]. exfalso.
    pose proof (resolve_negated_force _ _ Er Hf) as Hp.
    pose proof (option_name_prefix _ _ _ _ _ Ha Ec Hp) as Hp'.
    change ("--" +:+ "no-force") with "--no-force" in Hp'. by rewrite Hp' in Hno. }
  unfold is_force_name in Hn. cbn [fst].
  destruct (o_name o =s? "force"); [rewrite Hn by done; by split|].
  destruct (o_name o =s? "force-with-lease"); [rewrite Hn by done; by split|].
  destruct (o_name o =s? "delete"); [done|]. by destruct (o_name o =s? "tags").
Qed.

Lemma push_option_keeps a args :
  HasPrefix a "--no-force" = false -> keeps_force args (fst (push_option a args)).
Proof.
  intros H. unfold push_option. destruct (HasPrefix a "--") eqn:E;
    [by apply push_long_keeps|apply push_cluster_keeps].
Qed.

Definition no_negation (words : list string) : bool :=
  forallb (fun a => negb (HasPrefix a "--no-force")) words.

Lemma push_loop_keeps words args :
  no_negation words = true -> keeps_force args (fst (push_loop words args)).
Proof.
  revert args. induction words as [|a rest IH IH2] using list_ind_two; intros args Hn; [done|].
  cbn in Hn. apply andb_true_iff in Hn as [Ha Hn]. apply negb_true_iff in Ha.
  cbn [push_loop]. destruct (a =s? "--"); [done|].
  destruct (HasPrefix a "--" || is_cluster a).
  - pose proof (push_option_keeps a args Ha) as Hk.
    destruct (push_option a args) as [args1 t]. cbn [fst] in Hk.
    destruct t; [|eapply keeps_force_trans; [exact Hk|by apply IH]].
    destruct rest as [|v rest]; [done|]. cbn in Hn. apply andb_true_iff in Hn as [_ Hn].
    eapply keeps_force_trans; [exact Hk|by eapply IH2].
  - pose proof (IH args Hn) as Hr. by destruct (push_loop rest args).
Qed.

(** ** What a force push looks like *)

(** The spellings git reads as a force: [--force], any unambiguous
    abbreviation of [--force-with-lease] with or without a value, and a cluster
    of short options in which [f] is not the value of [-o]. *)
Definition force_spelling (w : string) : Prop :=
  w = "--force" \/
  (exists n, HasPrefix n "force-w" = true /\ HasPrefix "force-with-lease" n = true /\
     (w = "--" +:+ n \/ exists v, w = "--" +:+ n +:+ "=" +:+ v)) \/
  (exists p q, w = String "-" (p +:+ String "f" q) /\ ContainsByte p "o" = false /\
     HasPrefix w "--" = false).

Definition forced (args : gitPushArgs) : bool := p_force args || p_forceWithLease args.

Lemma lease_abbreviations n :
  HasPrefix n "force-w" = true -> HasPrefix "force-with-lease" n = true ->
  exists o, resolveGitPushLongOption n = Some (o, false) /\ o_name o = "force-with-lease" /\
            o_valueMode o = gitPushOptionalValue /\ ContainsByte n "=" = false.
Proof.
  intros Hw Hn. apply HasPrefix_prefixes in Hn. apply list_elem_of_In in Hn.
  assert (Hall : forallb (fun n => negb (HasPrefix n "force-w") ||
      match resolveGitPushLongOption n with
      | Some (o, false) => (o_name o =s? "force-with-lease") && negb (ContainsByte n "=") &&
          match o_valueMode o with gitPushOptionalValue => true | _ => false end
      | _ => false
      end) (prefixes "force-with-lease") = true) by (by vm_compute).
  rewrite forallb_forall in Hall. specialize (Hall _ Hn). cbv beta in Hall.
  rewrite Hw in Hall. cbn [negb orb] in Hall.
  destruct (resolveGitPushLongOption n) as [[o []]|]; [done| |done]. breflect.
  exists o. by destruct (o_valueMode o).
Qed.

Lemma push_long_lease n has v args :
  HasPrefix n "force-w" = true -> HasPrefix "force-with-lease" n = true ->
  Cut ("--" +:+ v) "=" = ("--" +:+ n, has.1, has.2) ->
  p_forceWithLease (fst (push_long ("--" +:+ v) args)) = true.
Proof.
  intros Hw Hn Hc. destruct (lease_abbreviations _ Hw Hn) as (o & Hr & Ho & Hm & _).
  unfold push_long. rewrite Hc, TrimPrefix_app, Hr, Hm, Ho. cbn [andb negb].
  by rewrite andb_false_r.
Qed.

Lemma force_spelling_option w args :
  force_spelling w ->
  is_operand w = false /\ w <> "--" /\ forced (fst (push_option w args)) = true.
Proof.
  unfold forced, push_option, is_operand. intros [->|[(n & Hw & Hn & H)|(p & q & -> & Hp & Hd)]].
  - by repeat split.
  - destruct (lease_abbreviations _ Hw Hn) as (o & _ & _ & _ & He).
    assert (Hc : ContainsByte ("--" +:+ n) "=" = false) by done.
    destruct H as [->|[v ->]].
    + rewrite HasPrefix_app. split; [done|]. split; [by destruct n|].
      rewrite (push_long_lease n ("", false)); [by rewrite orb_true_r|done|done|].
      by rewrite Cut_none.
    + rewrite HasPrefix_app. split; [done|]. split; [by destruct n|].
      rewrite (push_long_lease n (v, true)); [by rewrite orb_true_r|done|done|].
      change ("=" +:+ v) with (String "=" v). rewrite <- append_assoc. by rewrite Cut_app_sep.
  - rewrite Hd. split; [by destruct p|]. split; [intros E; by rewrite E in Hd|].
    change (sdrop 1 (String "-" (p +:+ String "f" q))) with (p +:+ String "f" q).
    by rewrite push_cluster_forces.
Qed.

(** C22: A push that is forced by an option is denied wherever the option stands: [--force] in
    full, [--force-with-lease] or an abbreviation of it longer than [--force-], with or without
    a value, and a cluster of short options with an [f] that is not the value of [-o], after any
    words that leave the next one in option position, as long as no later word takes it back
    with [--no-force...]. (A refspec with [+] is the subject of the rule on refspecs; [--mirror]
    has no rule: [unflagged_spellings].) *)
Theorem forced_push_denied s pre w post :
  is_git s = true -> gitSubcommand (s_Argv s) = "push" ->
  git_args (s_Argv s) = pre ++ w :: post ->
  option_position pre -> force_spelling w -> no_negation post = true ->
  exists v, checkGit s = Some v /\ v_Decision v = Deny /\ v_RuleID v = "P1.git-push-force".
Proof.
  intros Hg Hs Ha Hp Hf Hno. unfold checkGit, parseGitPushArgs. rewrite Hg, Hs, Ha. cbn [negb].
  destruct (push_loop_app pre (w :: post) no_push_args Hp) as [args1 ->].
  destruct (force_spelling_option w args1 Hf) as (Ho & Hd & Hforce).
  assert (Hfin : forced (fst (push_loop (w :: post) args1)) = true).
  { cbn [push_loop]. destruct (w =s? "--") eqn:E; breflect; [done|].
    unfold is_operand in Ho. apply negb_false_iff in Ho. rewrite Ho.
    destruct (push_option w args1) as [args2 t]. cbn [fst] in Hforce.
    assert (Hk : forall l, no_negation l = true -> forced (fst (push_loop l args2)) = true).
    { intros l Hl. destruct (push_loop_keeps l args2 Hl) as [H1 H2]. unfold forced in *.
      apply orb_true_iff in Hforce as [H|H]; [by rewrite H1|by rewrite H2, orb_true_r]. }
    destruct t; [|by apply Hk]. destruct post as [|v post]; [done|].
    cbn in Hno. apply andb_true_iff in Hno as [_ Hno]. by apply Hk. }
  destruct (push_loop (w :: post) args1) as [args3 ops]. cbn [fst] in Hfin.
  unfold forced in Hfin. simpl. rewrite Hfin.
  by eexists.
Qed.

(** ** Lemmas: the refspecs *)

Lemma parse_refspecs argv pre w post :
  gitSubcommand argv = "push" -> git_args argv = pre ++ w :: post ->
  option_position pre -> operands_of pre <> [] -> is_operand w = true ->
  w ∈ p_refspecs (parseGitPushArgs argv).
Proof.
  intros Hs Ha Hp Hne Hw. unfold parseGitPushArgs. rewrite Hs, Ha. simpl.
  destruct (push_loop_app pre (w :: post) no_push_args Hp) as [args1 ->].
  rewrite push_loop_word; [|by intros ->|by rewrite Hw]. rewrite Hw.
  destruct (push_loop post args1) as [args2 ops].
  destruct (operands_of pre) as [|remote ops']; [done|]. simpl.
  apply elem_of_app. right. left.
Qed.

Lemma keep_first_empty seen a hit :
  (hit = true -> a <> "") -> keep_first seen a hit = "" <-> seen = "" /\ hit = false.
Proof.
  intros Ha. unfold keep_first. destruct hit; simpl; [|tauto].
  destruct (seen =s? "") eqn:E; breflect; [|tauto]. split; [intros ->; by destruct Ha|by intros [_ ?]].
Qed.

(** What the loop over the refspecs finds is there, and what is there is found. *)
Lemma scan_refspecs_spec l a :
  a ∈ l ->
  (HasPrefix a "+" = true -> r_force (scan_refspecs l) <> "") /\
  (HasPrefix a ":" = true -> r_delete (scan_refspecs l) <> "") /\
  (names_tag (refspec_dst a) = true -> r_tag (scan_refspecs l) <> "") /\
  (in_list (TrimPrefix (refspec_dst a) "refs/heads/") ["main"; "master"] = true ->
   r_protected (scan_refspecs l) = true).
Proof.
  unfold scan_refspecs. generalize {| r_force := ""; r_delete := ""; r_tag := ""; r_protected := false |}.
  induction l as [|b l IH]; intros r Hin; [by apply elem_of_nil in Hin|].
  assert (Hkeep : forall l r,
    (r_force r <> "" -> r_force (foldl scan_refspec r l) <> "") /\
    (r_delete r <> "" -> r_delete (foldl scan_refspec r l) <> "") /\
    (r_tag r <> "" -> r_tag (foldl scan_refspec r l) <> "") /\
    (r_protected r = true -> r_protected (foldl scan_refspec r l) = true)).
  { clear. induction l as [|b l IH]; intros r; [done|]. simpl.
    destruct (IH (scan_refspec r b)) as (H1 & H2 & H3 & H4). simpl in H1, H2, H3, H4.
    assert (Hk : forall s hit, s <> "" -> keep_first s b hit <> "").
    { intros s hit Hs. unfold keep_first. apply String.eqb_neq in Hs as Hs'. rewrite Hs'.
      by rewrite andb_false_r. }
    repeat split; intros H; [apply H1|apply H2|apply H3|apply H4]; auto. by rewrite H. }
  apply elem_of_cons in Hin as [->|Hin]; [|by apply IH].
  simpl. destruct (Hkeep l (scan_refspec r b)) as (H1 & H2 & H3 & H4). simpl in H1, H2, H3, H4.
  repeat split; intros H; [apply H1|apply H2|apply H3|apply H4; by rewrite H, orb_true_r];
    rewrite keep_first_empty; try (intros [_ ?]; congruence); intros _ ->; by vm_compute in H.
Qed.

(** A refspec that deletes a remote ref, or updates a protected branch or a
    release pointer. *)
Definition risky_refspec (w : string) : bool :=
  HasPrefix w ":" || names_tag (refspec_dst w) ||
  in_list (TrimPrefix (refspec_dst w) "refs/heads/") ["main"; "master"].

Lemma push_verdict_force args a :
  a ∈ p_refspecs args -> HasPrefix a "+" = true ->
  exists v, push_verdict args = Some v /\ v_Decision v = Deny.
Proof.
  intros Hin Ha. destruct (scan_refspecs_spec _ _ Hin) as (H & _). specialize (H Ha).
  unfold push_verdict. apply String.eqb_neq in H. rewrite H. simpl. by eexists.
Qed.

Lemma push_verdict_risky args a :
  a ∈ p_refspecs args -> risky_refspec a = true -> push_verdict args <> None.
Proof.
  intros Hin Ha. destruct (scan_refspecs_spec _ _ Hin) as (_ & Hdel & Htag & Hprot).
  unfold push_verdict. destruct (r_force _ <>s? ""); [done|].
  destruct (p_delete args || _) eqn:Ed; [done|]. destruct (r_protected _) eqn:Ep; [done|].
  destruct (p_tags args); [done|]. destruct (r_tag _ <>s? "") eqn:Et; [done|].
  apply orb_false_iff in Ed as [_ Ed]. breflect.
  unfold risky_refspec in Ha. apply orb_true_iff in Ha as [Ha|Ha]; [|specialize (Hprot Ha); congruence].
  apply orb_true_iff in Ha as [Ha|Ha]; [by destruct Hdel|by destruct Htag].
Qed.

(** ** Lemmas: the state of the [git config] loop *)

Definition cfg_scopes : list string := ["local"; "global"; "system"; "worktree"; "file"; "blob"].

Definition cfg_ok (st : cfg_state) : Prop :=
  c_operation st ∈ "" :: cfg_operations /\ c_scope st ∈ cfg_scopes.

Lemma cfg_ok_doubt b st : cfg_ok st -> cfg_ok (cfg_doubt b st).
Proof. done. Qed.

Lemma cfg_ok_operation o st : in_list o cfg_operations = true -> cfg_ok st -> cfg_ok (setOperation o st).
Proof. intros H [_ Hs]. breflect. split; [by right|done]. Qed.

Lemma cfg_ok_scope o st : in_list o cfg_scopes = true -> cfg_ok st -> cfg_ok (setScope o st).
Proof. intros H [Ho _]. by breflect. Qed.

Lemma cfg_ok_value name v st : cfg_ok st -> cfg_ok (cfg_value name v st).
Proof.
  intros H. unfold cfg_value. destruct (in_list name ["file"; "blob"]) eqn:E; [|done].
  apply cfg_ok_scope; [|done]. breflect. apply in_list_true. set_solver.
Qed.

#[local] Hint Resolve cfg_ok_doubt cfg_ok_operation cfg_ok_scope cfg_ok_value : guard.

Lemma cfg_cluster_ok cs st : cfg_ok st -> cfg_ok (fst (cfg_cluster cs st)).
Proof.
  revert st. induction cs as [|c cs IH]; intros st H; [done|]. simpl.
  destruct (Ascii.eqb c "e"); [apply IH; by auto with guard|].
  destruct (Ascii.eqb c "l"); [apply IH; by auto with guard|].
  destruct (Ascii.eqb c "z" || _ || _); [by apply IH|].
  destruct (Ascii.eqb c "f"); [|apply IH; by auto with guard].
  destruct (cs =s? ""); [done|]. simpl. by auto with guard.
Qed.

Lemma in_list_weaken s l l' : (forall x, x ∈ l -> x ∈ l') -> in_list s l = true -> in_list s l' = true.
Proof. rewrite !in_list_true. auto. Qed.

Lemma cfg_loop_ok words st : cfg_ok st -> cfg_ok (fst (cfg_loop words st)).
Proof.
  revert st. induction words as [|arg rest IH IH2] using list_ind_two; intros st Hok; [done|].
  cbn [cfg_loop]. destruct (arg =s? "--"); [done|].
  destruct (negb (HasPrefix arg "-") || (arg =s? "-")); [done|].
  destruct (HasPrefix arg "--").
  - destruct (Cut (TrimPrefix arg "--") "=") as [[name attached] has].
    destruct (in_list name ["local"; "global"; "system"; "worktree"]) eqn:E1.
    { apply IH, cfg_ok_scope; [|by auto with guard].
      eapply in_list_weaken; [|exact E1]. unfold cfg_scopes. set_solver. }
    destruct (in_list name ["file"; "blob"; "type"]).
    { destruct has; [apply IH; by auto with guard|].
      destruct rest as [|v r]; [simpl; by auto with guard|].
      eapply IH2; [done|by auto with guard]. }
    destruct (in_list name cfg_operations) eqn:E3; [apply IH; by auto with guard|].
    destruct (in_list name cfg_plain_flags); apply IH; by auto with guard.
  - pose proof (cfg_cluster_ok (sdrop 1 arg) st Hok) as Hc.
    destruct (cfg_cluster (sdrop 1 arg) st) as [st1 needs]. cbn [fst] in Hc.
    destruct needs; [|by apply IH]. destruct rest as [|v r]; [simpl; by auto with guard|].
    eapply IH2; [done|by auto with guard].
Qed.

Section GitProperties.

Context (h : GitHost).

(** A refspec cannot slip past by where it stands: any operand after the
    remote, with options and their values before and after it, is denied when
    it forces ([+src:dst]) and at least asked about when it deletes a remote
    ref, updates [main] or [master], or publishes a tag or a version-shaped
    ref. *)
Theorem push_refspec_flagged s tc pre w post :
  is_git s = true -> gitSubcommand (s_Argv s) = "push" ->
  git_args (s_Argv s) = pre ++ w :: post ->
  option_position pre -> operands_of pre <> [] -> is_operand w = true ->
  (HasPrefix w "+" = true ->
   exists v, (checkGit s = Some v \/ checkGitSafety h s tc = Some v) /\ v_Decision v = Deny) /\
  (risky_refspec w = true -> checkGit s <> None \/ checkGitSafety h s tc <> None).
Proof.
  intros Hg Hs Ha Hp Hne Hw.
  pose proof (parse_refspecs _ _ _ _ Hs Ha Hp Hne Hw) as Hin.
  assert (Hsafe : p_force (parseGitPushArgs (s_Argv s)) ||
                  p_forceWithLease (parseGitPushArgs (s_Argv s)) = false ->
                  forall v, push_verdict (parseGitPushArgs (s_Argv s)) = Some v ->
                  checkGitSafety h s tc = Some v).
  { intros Hf v Hv. unfold checkGitSafety, git_case. rewrite Hg, Hs. simpl.
    by rewrite Hf, Hv. }
  unfold checkGit. rewrite Hg, Hs. simpl.
  destruct (p_force _ || p_forceWithLease _) eqn:Ef.
  { split; intros _; [|by left]. eexists. split; [by left|done]. }
  split; intros H.
  - destruct (push_verdict_force _ _ Hin H) as (v & Hv & Hd). exists v. split; [|done].
    right. by apply Hsafe.
  - right. pose proof (push_verdict_risky _ _ Hin H) as Hn.
    destruct (push_verdict _) as [v|] eqn:Ev; [|done]. by rewrite (Hsafe eq_refl v).
Qed.

(** An unrecognised global option fails closed: with one before the
    subcommand, no git command passes both rules without a verdict. *)
Theorem unknown_global_flagged s tc :
  is_git s = true -> gitSubcommandUnknownFlag (s_Argv s) <> "" ->
  checkGit s <> None \/ checkGitSafety h s tc <> None.
Proof.
  intros Hg Hu.
  assert (Hunk : unknown_global (gitSubcommandUnknownFlag (s_Argv s)) <> None).
  { unfold unknown_global. apply String.eqb_neq in Hu. by rewrite Hu. }
  unfold checkGit, checkGitSafety. rewrite Hg. cbn [negb].
  destruct (git_case h s tc _) as [[v|]|] eqn:E; [by right| |by right].
  unfold git_case in E. apply String.eqb_neq in Hu. rewrite Hu in E.
  left. destruct (gitSubcommand (s_Argv s) =s? "push") eqn:Epush; [breflect|].
  - rewrite Epush in E. simpl in E. destruct (p_force _ || p_forceWithLease _); [done|].
    by destruct (push_verdict _).
  - exfalso. revert E. repeat case_match; try done.
    all: by intros.
Qed.

(** ** [git config] *)

(** The repository a [git config] works on is scratch space strictly inside a
    temp root, with every link resolved, or shares its common directory with
    the repository of the tool call. *)
Definition repository_confined (s : Simple) (tc : ToolCall) : Prop :=
  (exists dir target root physical,
     resolveExistingPath h dir "" = Some target /\ root ∈ systemTempRoots h /\
     resolveExistingPath h root "" = Some physical /\ strictly_inside physical target /\
     let globals := normalizeGitIdentityArgs (git_global_args (s_Argv s)) in
     (gitCommonDirectory h globals (s_Cwd s) (s_gitEnvironment s) false = Some dir \/
      gitConfigUninitializedDirectory h globals (s_Cwd s) (s_gitEnvironment s)
        (s_gitInitExpected s) = Some dir)) \/
  (exists target trusted,
     gitCommonDirectory h (normalizeGitIdentityArgs (git_global_args (s_Argv s))) (s_Cwd s)
       (s_gitEnvironment s) false = Some target /\
     gitCommonDirectory h ["-C"; tc_RepoRoot tc] (s_Cwd s) ∅ true = Some trusted /\
     sameGitConfigPath h target trusted = true).

Lemma targets_repo_confined s tc :
  evalsymlinks_abs h -> gitConfigTargetsToolCallRepo h s tc = true -> repository_confined s tc.
Proof.
  intros He. unfold gitConfigTargetsToolCallRepo, repository_confined.
  destruct (gitSubcommandIndex _); [|done]. destruct (s_cwdUnknown s || _ || _); [done|].
  destruct (gitCommonDirectory h _ _ _ false) as [target|] eqn:Ec.
  - destruct (gitConfigPathUnderSystemTempRoot h target) eqn:Et.
    + intros _. left.
      destruct (under_temp_root_sound _ _ He Et) as (t & r & p & H1 & H2 & H3 & H4).
      exists target, t, r, p. repeat split; try done. by left.
    + destruct (tc_RepoRoot tc =s? ""); [done|].
      destruct (gitCommonDirectory h ["-C"; tc_RepoRoot tc] _ _ _) as [trusted|] eqn:Er; [|done].
      intros Hs. right. by exists target, trusted.
  - destruct (gitConfigUninitializedDirectory h _ _ _ _) as [dir|] eqn:Eu; [|done].
    intros Et. left. destruct (under_temp_root_sound _ _ He Et) as (t & r & p & H1 & H2 & H3 & H4).
    exists dir, t, r, p. repeat split; try done. by right.
Qed.

(** A [git config] that gets no verdict was judged by [checkGitConfig] and got
    none there. *)
Lemma config_silent s tc :
  is_git s = true -> gitSubcommand (s_Argv s) = "config" -> checkGitSafety h s tc = None ->
  checkGitConfig (parseGitConfig h s tc) = None.
Proof.
  intros Hg Hs. unfold checkGitSafety, git_case. rewrite Hg, Hs. simpl.
  destruct (checkGitConfig (parseGitConfig h s tc)) as [v|]; [|done].
  unfold unknown_global. destruct (bool_decide _); [done|].
  by destruct (gitSubcommandUnknownFlag (s_Argv s) =s? "").
Qed.

Lemma find_none_all {A} (f : A -> bool) l : List.find f l = None -> Forall (fun x => f x = false) l.
Proof.
  intros H. apply Forall_forall. intros x Hx. apply list_elem_of_In in Hx.
  by eapply find_none.
Qed.

(** The operation, scope and subjects of a command line that was classified. *)
Lemma cfg_finish_shape localRepo st operands :
  cfg_ok st -> g_uncertain (cfg_finish localRepo st operands) = false ->
  let p := cfg_finish localRepo st operands in
  g_scope p ∈ cfg_scopes /\ g_localRepo p = localRepo /\
  (g_operation p ∈ config_reads \/ g_operation p = "edit" \/
   (g_operation p ∈ ["write"; "rename-section"; "remove-section"] /\ g_subjects p <> [] /\
    g_scope p <> "blob")).
Proof.
  intros [Hop Hsc]. destruct st as [op sc un]. cbn [c_operation c_scope] in Hop, Hsc.
  apply list_elem_of_In in Hop.
  repeat (destruct Hop as [<-|Hop]); [..|destruct Hop].
  all: destruct operands as [|o1 [|o2 [|o3 [|o4 operands]]]]; cbn -[String.eqb ToLower];
    intros Hu; apply orb_false_iff in Hu as [_ Hu];
    try discriminate Hu;
    (split; [exact Hsc|split; [reflexivity|]]);
    try (left; apply in_list_true; reflexivity);
    right; try (left; reflexivity); right;
    (split; [apply in_list_true; reflexivity|split; [discriminate|]]);
    intros E; cbn in E; subst sc; discriminate Hu.
Qed.

Lemma local_scope sc :
  sc ∈ cfg_scopes -> sc ∉ ["global"; "system"; "file"] -> sc <> "worktree" -> sc <> "blob" ->
  sc = "local".
Proof.
  intros Hsc Hout Hw Hb. apply list_elem_of_In in Hsc. unfold cfg_scopes in Hsc.
  repeat (destruct Hsc as [<-|Hsc]); try done;
    exfalso; apply Hout, in_list_true; reflexivity.
Qed.

(** A [git config] that passes without a verdict reads, or writes only
    approved keys or sections of the local configuration, and of a repository
    that is the tool call's own or scratch space strictly inside a system temp
    root; one that could not be classified never passes. *)
Theorem git_config_confined s tc :
  evalsymlinks_abs h -> is_git s = true -> gitSubcommand (s_Argv s) = "config" ->
  checkGitSafety h s tc = None ->
  let p := parseGitConfig h s tc in
  g_uncertain p = false /\
  (g_operation p ∈ config_reads \/
   (g_operation p ∈ ["write"; "rename-section"; "remove-section"] /\ g_scope p = "local" /\
    g_subjects p <> [] /\
    Forall (fun k => approvedGitConfigSubject k (g_operation p) = true /\
                     dangerousGitConfigSubject k (g_operation p) = false) (g_subjects p) /\
    repository_confined s tc)).
Proof.
  intros He Hg Hs Hnone p. pose proof (config_silent _ _ Hg Hs Hnone) as H. fold p in H.
  assert (Hshape : g_uncertain p = false ->
    g_scope p ∈ cfg_scopes /\ g_localRepo p = gitConfigTargetsToolCallRepo h s tc /\
    (g_operation p ∈ config_reads \/ g_operation p = "edit" \/
     (g_operation p ∈ ["write"; "rename-section"; "remove-section"] /\ g_subjects p <> [] /\
      g_scope p <> "blob"))).
  { unfold p, parseGitConfig. rewrite Hs. cbn [negb String.eqb].
    pose proof (cfg_loop_ok (git_args (s_Argv s))
      {| c_operation := ""; c_scope := "local"; c_uncertain := false |}) as Hok.
    destruct (cfg_loop _ _) as [st operands]. apply cfg_finish_shape. apply Hok.
    split; by left. }
  unfold checkGitConfig in H. destruct (g_uncertain p); [done|]. split; [done|].
  destruct (Hshape eq_refl) as (Hsc & Hrepo & Hop).
  destruct (in_list (g_operation p) config_reads) eqn:Er; breflect; [by left|right].
  destruct Hop as [?|[Hedit|(Hop & Hsub & Hblob)]]; [done| |].
  { exfalso. rewrite Hedit in H. destruct (List.find _ _); [done|].
    destruct (in_list _ _); [done|]. destruct (g_scope p =s? "worktree"); [done|].
    by destruct (g_localRepo p). }
  split; [done|].
  destruct (List.find _ (g_subjects p)) eqn:Ed in H; [done|].
  destruct (in_list (g_scope p) ["global"; "system"; "file"]) eqn:Es; [done|].
  destruct (g_scope p =s? "worktree") eqn:Ew; [done|].
  destruct (g_localRepo p) eqn:El; [|done]. simpl in H.
  destruct (g_operation p =s? "edit"); [done|].
  destruct (List.find _ (g_subjects p)) eqn:Ea in H; [done|].
  apply find_none_all in Ed, Ea. breflect.
  split; [|split; [done|split]].
  - by apply local_scope.
  - apply Forall_and. split; [|done]. eapply Forall_impl; [exact Ea|].
    intros k Hk. cbv beta in Hk. by apply negb_false_iff in Hk.
  - by apply targets_repo_confined.
Qed.

(** The ways to say which file is written, and what is done to a key. *)
Definition scope_words (f : string) : list (list string) :=
  [[]; ["--local"]; ["--global"]; ["--system"]; ["--worktree"]; ["--file"; f]; ["-f"; f]].

Definition write_words : list (list string * string) :=
  [([], "positional"); (["--add"], "add"); (["--replace-all"], "replace-all");
   (["--unset"], "unset"); (["--unset-all"], "unset-all")].

(** Options of the two kinds, then the operands: how the loop reads them. *)
Lemma cfg_loop_write f scope flags operation key rest :
  f <> "" -> scope ∈ scope_words f -> (flags, operation) ∈ write_words ->
  HasPrefix key "-" = false ->
  exists st, cfg_loop (scope ++ flags ++ key :: rest)
               {| c_operation := ""; c_scope := "local"; c_uncertain := false |} =
             (st, key :: rest) /\
    (if c_operation st =s? "" then "positional" else c_operation st) = operation /\
    c_uncertain st = false /\ c_scope st <> "blob".
Proof.
  intros Hf Hs Hw Hk. apply String.eqb_neq in Hf.
  assert (Hkey : forall st, cfg_loop (key :: rest) st = (st, key :: rest)).
  { intros st. cbn [cfg_loop]. rewrite Hk. cbn [negb orb].
    destruct (key =s? "--") eqn:E; breflect; [by subst|done]. }
  generalize dependent (key :: rest). intros operands Hkey.
  apply list_elem_of_In in Hs, Hw. unfold scope_words, write_words in *.
  repeat (destruct Hs as [<-|Hs]); [..|destruct Hs];
    repeat (destruct Hw as [Hw|Hw]); try (by destruct Hw); injection Hw as <- <-;
    cbn [app]; eexists; (split; [|repeat split]);
    [cbn; apply Hkey|..]; cbn; rewrite ?Hf; done.
Qed.

(** Writing or unsetting a configuration key that makes git run a program
    or read another file is denied for every way to name the scope and the
    operation and every spelling of the key's letter case, whatever the global
    options and the repository are. *)
Theorem dangerous_config_denied s tc f scope flags operation key rest :
  is_git s = true -> gitSubcommand (s_Argv s) = "config" ->
  git_args (s_Argv s) = scope ++ flags ++ key :: rest ->
  f <> "" -> scope ∈ scope_words f -> (flags, operation) ∈ write_words ->
  cfg_arity_ok operation (S (length rest)) = true ->
  (operation = "positional" -> rest <> []) ->
  HasPrefix key "-" = false -> dangerousGitConfigSubject (ToLower key) "write" = true ->
  exists v, checkGitSafety h s tc = Some v /\ v_Decision v = Deny.
Proof.
  intros Hg Hs Ha Hf Hsc Hw Har Hpos Hk Hd.
  destruct (cfg_loop_write _ _ _ _ _ rest Hf Hsc Hw Hk) as (st & Hl & Hop & Hu & Hb).
  assert (Hp : parseGitConfig h s tc =
    {| g_operation := "write"; g_scope := c_scope st; g_subjects := [ToLower key];
       g_localRepo := gitConfigTargetsToolCallRepo h s tc; g_uncertain := false |}).
  { unfold parseGitConfig. rewrite Hs, Ha, Hl. cbn [negb String.eqb]. unfold cfg_finish.
    rewrite Hop, Hu. apply String.eqb_neq in Hb. rewrite Hb. cbn [length]. rewrite Har.
    apply list_elem_of_In in Hw. unfold write_words in Hw.
    destruct Hw as [Hw|[Hw|[Hw|[Hw|[Hw|[]]]]]]; injection Hw as _ <-; [|done..].
    destruct rest; [by destruct Hpos|done]. }
  unfold checkGitSafety, git_case. rewrite Hg, Hs, Hp. simpl. unfold checkGitConfig. simpl.
  rewrite Hd. simpl. by eexists.
Qed.

End GitProperties.

(** ** Witnesses *)

Definition demo_git (argv : list string) : Simple := plain_simple argv "/tmp/work".

Lemma forced_push_denied_witness :
  exists v, checkGit (demo_git ["git"; "push"; "-o"; "ci.skip"; "origin"; "--force-wit=main"; "main"]) = Some v /\
            v_Decision v = Deny /\ v_RuleID v = "P1.git-push-force".
Proof.
  apply (forced_push_denied _ ["-o"; "ci.skip"; "origin"] "--force-wit=main" ["main"]);
    [reflexivity..| | |reflexivity].
  - apply op_value; [reflexivity|reflexivity|]. apply op_word; [discriminate|reflexivity|constructor].
  - right. left. exists "force-wit". split; [reflexivity|]. split; [reflexivity|].
    right. exists "main". reflexivity.
Defined.

Lemma push_refspec_flagged_witness :
  checkGit (demo_git ["git"; "push"; "origin"; "HEAD:refs/heads/main"]) <> None \/
  checkGitSafety (demo_git_host false) (demo_git ["git"; "push"; "origin"; "HEAD:refs/heads/main"])
    (demo_call CapabilityCommand "") <> None.
Proof.
  apply (push_refspec_flagged (demo_git_host false)
           (demo_git ["git"; "push"; "origin"; "HEAD:refs/heads/main"]) (demo_call CapabilityCommand "")
           ["origin"] "HEAD:refs/heads/main" []); try reflexivity; [|discriminate].
  apply op_word; [discriminate|reflexivity|constructor].
Defined.

Lemma unknown_global_flagged_witness :
  checkGit (demo_git ["git"; "--frobnicate"; "status"]) <> None \/
  checkGitSafety (demo_git_host false) (demo_git ["git"; "--frobnicate"; "status"])
    (demo_call CapabilityCommand "") <> None.
Proof. apply (unknown_global_flagged (demo_git_host false)); [reflexivity|vm_compute; discriminate]. Defined.

Lemma git_config_confined_witness :
  evalsymlinks_abs (demo_git_host false) /\
  repository_confined (demo_git_host false)
    (demo_git ["git"; "config"; "user.name"; "x"]) (demo_call CapabilityCommand "").
Proof.
  assert (He : evalsymlinks_abs (demo_git_host false)).
  { intros p r Hp H. unfold demo_git_host in H. cbn [gh_fs fs_evalsymlinks] in H.
    destruct (in_list p (demo_dirs false)); [by injection H as <-|done]. }
  split; [exact He|].
  destruct (git_config_confined (demo_git_host false)
    (demo_git ["git"; "config"; "user.name"; "x"]) (demo_call CapabilityCommand "") He eq_refl eq_refl eq_refl)
    as [_ [H|(_ & _ & _ & _ & H)]]; [|exact H].
  exfalso. apply in_list_true in H. vm_compute in H. discriminate.
Defined.

Lemma dangerous_config_denied_witness :
  exists v, checkGitSafety (demo_git_host false)
              (demo_git ["git"; "-C"; "/tmp/work"; "config"; "--global"; "Core.HooksPath"; "/x"])
              (demo_call CapabilityCommand "") = Some v /\ v_Decision v = Deny.
Proof.
  apply (dangerous_config_denied (demo_git_host false) _ (demo_call CapabilityCommand "") "x" ["--global"] []
           "positional" "Core.HooksPath" ["/x"]); try reflexivity; try discriminate.
  - apply list_elem_of_In. right. right. left. reflexivity.
  - apply list_elem_of_In. left. reflexivity.
Defined.

(** ** Spellings the exact-match rules miss

    [reset], [commit] and [branch] look for their flags with [hasAnyFlag], which
    compares whole words, so an abbreviation git accepts is not recognised, and
    neither is the short form of [--delete --force]; [--mirror], which forces
    and deletes remote refs, has no rule. *)
Theorem unflagged_spellings h tc :
  Forall (fun argv => checkGit (demo_git argv) = None /\ checkGitSafety h (demo_git argv) tc = None)
    [["git"; "reset"; "--har"]; ["git"; "commit"; "--amen"]; ["git"; "branch"; "-d"; "-f"; "x"];
     ["git"; "push"; "--mirror"; "origin"]].
Proof. by repeat constructor. Qed.
