(* ===== verification/Wrappers.v ===== *)
(** * Commands that run other commands ([internal/engine/tokenize.go])

    [env], [timeout], [nohup], [xargs] and the like run the command in their
    operands, a shell's [-c] and [cmd /c] run a string, and container runners
    run what follows the image.  The engine strips the wrappers and judges what
    is left, so this file is about which words are judged: the option parsers
    of the wrappers, the loop of [stripAndUnwrap] that peels them, and the
    extraction of inner commands.  An option a parser does not know is an error,
    which the caller turns into an unresolved command. *)

From Stdlib Require Import ZArith Lia Bool.
From S2P Require Import Prelude GoStrings GoPath Policy Argv.

Open Scope string_scope.
Open Scope list_scope.

(** [unknownOpt], [needsValue] and the other refusals. *)
Inductive wrap_error :=
| UnknownOpt (wrapper tok : string)
| NeedsValue (wrapper tok : string)
| Missing (what : string).

Notation parsed := (result wrap_error).

(** ** Wrappers with a table of options *)

(** What is left to do after a cluster of short options: nothing, skip the next
    word (the value of the option named), or fail. *)
Inductive cluster_end :=
| CEnd
| CNext (flag : string)
| CFail (e : wrap_error).

Definition short_flag (c : ascii) : string := String "-" (String c "").

Fixpoint known_cluster (name a cs : string) (known valued optional : list string) : cluster_end :=
  match cs with
  | EmptyString => CEnd
  | String c t =>
      let flag := short_flag c in
      if in_list flag known then known_cluster name a t known valued optional
      else if in_list flag valued then if t =s? "" then CNext flag else CEnd
      else if in_list flag optional then CEnd
      else CFail (UnknownOpt name a)
  end.

Fixpoint consumeKnownFlags (name : string) (argv known valued optional : list string)
  : parsed (list string) :=
  match argv with
  | [] => Ok []
  | a :: rest =>
      let again l := consumeKnownFlags name l known valued optional in
      if a =s? "--" then Ok rest
      else if negb (HasPrefix a "-") || (a =s? "-") then Ok argv
      else if HasPrefix a "--" then
        let '(base, _, attached) := Cut a "=" in
        if in_list base known && negb attached then again rest
        else if in_list base valued then
          if attached then again rest
          else match rest with
               | [] => Err (NeedsValue name a)
               | _ :: rest' => again rest'
               end
        else if in_list base optional then again rest
        else Err (UnknownOpt name a)
      else
        match known_cluster name a (sdrop 1 a) known valued optional with
        | CEnd => again rest
        | CNext flag =>
            match rest with
            | [] => Err (NeedsValue name flag)
            | _ :: rest' => again rest'
            end
        | CFail e => Err e
        end
  end.

Definition consumeSetsid (argv : list string) : parsed (list string) :=
  consumeKnownFlags "setsid" argv ["-f"; "--fork"; "-w"; "--wait"; "-c"; "--ctty"] [] [].

Definition consumeStdbuf (argv : list string) : parsed (list string) :=
  consumeKnownFlags "stdbuf" argv [] ["-i"; "--input"; "-o"; "--output"; "-e"; "--error"] [].

Definition consumeIonice (argv : list string) : parsed (list string) :=
  consumeKnownFlags "ionice" argv ["-t"; "--ignore"] ["-c"; "--class"; "-n"; "--classdata"] [].

Definition consumeWatch (argv : list string) : parsed (list string) :=
  consumeKnownFlags "watch" argv ["-d"; "-t"; "--no-title"; "-b"; "-e"] ["-n"; "--interval"]
    ["--differences"].

Definition consumeChroot (argv : list string) : parsed (list string) :=
  let! rest := consumeKnownFlags "chroot" argv [] ["--userspec"; "--groups"] [] in
  match rest with
  | [] => Err (Missing "chroot: missing new-root argument; failing closed")
  | [_] => Err (Missing "chroot: missing command argument; failing closed")
  | _ :: rest' => Ok rest'
  end.

(** ** Wrappers with a loop of their own *)

Fixpoint consumeEnv (argv : list string) : parsed (list string) :=
  match argv with
  | [] => Ok []
  | a :: rest =>
      if a =s? "--" then Ok rest
      else if in_list a ["-i"; "--ignore-environment"; "-v"; "--debug"; "-0"; "--null"]
      then consumeEnv rest
      else if in_list a ["-u"; "--unset"] then
        match rest with
        | [] => Err (NeedsValue "env" a)
        | _ :: rest' => consumeEnv rest'
        end
      else if HasPrefix a "-" then Err (UnknownOpt "env" a)
      else if ContainsByte a "=" then consumeEnv rest
      else Ok argv
  end.

Fixpoint timeout_loop (gotDuration : bool) (argv : list string) : parsed (list string) :=
  match argv with
  | [] => Ok []
  | a :: rest =>
      if negb (HasPrefix a "-") then
        if negb gotDuration then timeout_loop true rest else Ok argv
      else if in_list a ["-k"; "-s"] then
        match rest with
        | [] => Err (NeedsValue "timeout" a)
        | _ :: rest' => timeout_loop gotDuration rest'
        end
      else if in_list a ["-v"; "--preserve-status"; "--foreground"] then timeout_loop gotDuration rest
      else Err (UnknownOpt "timeout" a)
  end.

Definition consumeTimeout (argv : list string) : parsed (list string) := timeout_loop false argv.

Definition allDigits (s : string) : bool := all_bytes is_digit s && (s <>s? "").

Fixpoint consumeNice (argv : list string) : parsed (list string) :=
  match argv with
  | [] => Ok []
  | a :: rest =>
      if a =s? "-n" then
        match rest with
        | [] => Err (NeedsValue "nice" a)
        | _ :: rest' => consumeNice rest'
        end
      else if (1 <? String.length a)%nat && HasPrefix a "-" && allDigits (sdrop 1 a)
      then consumeNice rest
      else if HasPrefix a "-" then Err (UnknownOpt "nice" a)
      else Ok argv
  end.

Definition consumeNoFlags (wrapper : string) (argv : list string) : parsed (list string) :=
  match argv with
  | a :: _ => if HasPrefix a "-" then Err (UnknownOpt wrapper a) else Ok argv
  | [] => Ok argv
  end.

Fixpoint consumeXargs (argv : list string) : parsed (list string) :=
  match argv with
  | [] => Ok []
  | a :: rest =>
      if in_list a ["-0"; "-r"; "-t"; "-p"] then consumeXargs rest
      else if in_list a ["-n"; "-I"; "-P"; "-E"; "-d"] then
        match rest with
        | [] => Err (NeedsValue "xargs" a)
        | _ :: rest' => consumeXargs rest'
        end
      else if HasPrefix a "-" then Err (UnknownOpt "xargs" a)
      else Ok argv
  end.

Fixpoint consumeNamespace (argv : list string) : parsed (list string) :=
  match argv with
  | [] => Err (Missing "namespace wrapper: missing command")
  | a :: rest =>
      if a =s? "--" then Ok rest
      else if in_list a ["-m"; "--mount"] then consumeNamespace rest
      else if in_list a ["-t"; "--target"] then
        match rest with
        | [] => Err (NeedsValue "namespace wrapper" a)
        | _ :: rest' => consumeNamespace rest'
        end
      else consumeNoFlags "namespace wrapper" argv
  end.

Fixpoint consumeExec (argv : list string) : parsed (list string) :=
  match argv with
  | [] => Ok []
  | a :: rest =>
      if a =s? "-a" then
        match rest with
        | [] => Err (NeedsValue "exec" a)
        | _ :: rest' => consumeExec rest'
        end
      else if HasPrefix a "-" then Err (UnknownOpt "exec" a)
      else Ok argv
  end.

(** The letters of one option word of [command]: [None] for an unknown one,
    otherwise whether [-v] or [-V] is among them. *)
Fixpoint command_letters (cs : string) : option bool :=
  match cs with
  | EmptyString => Some false
  | String c t =>
      if Ascii.eqb c "p" then command_letters t
      else if Ascii.eqb c "v" || Ascii.eqb c "V" then
        match command_letters t with Some _ => Some true | None => None end
      else None
  end.

(** [None]: nothing runs. *)
Fixpoint command_loop (locate : bool) (argv : list string) : parsed (option (list string)) :=
  match argv with
  | [] => Ok None
  | a :: rest =>
      if a =s? "--" then
        match rest with
        | [] => Ok None
        | _ => if locate then Ok None else Ok (Some rest)
        end
      else if HasPrefix a "-" then
        if a =s? "-" then Err (UnknownOpt "command" a)
        else
          match command_letters (TrimPrefix a "-") with
          | None => Err (UnknownOpt "command" a)
          | Some seen => command_loop (locate || seen) rest
          end
      else if locate then Ok None
      else Ok (Some argv)
  end.

Definition consumeCommand (argv : list string) : parsed (option (list string)) :=
  command_loop false argv.

Definition consumeBuiltin (argv : list string) : parsed (list string) :=
  match argv with
  | [] => Ok []
  | a :: rest =>
      if a =s? "--" then Ok rest
      else if HasPrefix a "-" then Err (UnknownOpt "builtin" a)
      else Ok argv
  end.

(** ** Environment assignments before the command *)

Fixpoint is_prefix_of (l m : list string) : bool :=
  match l, m with
  | [], _ => true
  | x :: l', y :: m' => (x =s? y) && is_prefix_of l' m'
  | _ :: _, [] => false
  end.

(** The first offset at which [derived] occurs in [source]; [None] is [-1]. *)
Fixpoint argvSubsliceOffset (source derived : list string) : option nat :=
  if is_prefix_of derived source then Some 0%nat
  else match source with
       | [] => None
       | _ :: rest =>
           match argvSubsliceOffset rest derived with Some i => Some (S i) | None => None end
       end.

Definition gitRepositoryEnvironmentVariable (name : string) : bool :=
  in_list name ["GIT_DIR"; "GIT_COMMON_DIR"; "GIT_WORK_TREE"; "GIT_CEILING_DIRECTORIES";
                "GIT_DISCOVERY_ACROSS_FILESYSTEM"].

(** What the loop changes of the simple command, besides its words. *)
Record unwrap_state := {
  u_gitEnvironment : gmap string string;
  u_gitEnvironmentUnknown : bool;
  u_Unresolved : bool;
  u_goBin : string;
  u_fsUncertain : bool;
  u_chrooted : bool;
}.

Definition add_git_env (name value : string) (unresolved : bool) (st : unwrap_state) : unwrap_state :=
  {| u_gitEnvironment := if unresolved then u_gitEnvironment st
                         else <[name := value]> (u_gitEnvironment st);
     u_gitEnvironmentUnknown := u_gitEnvironmentUnknown st || unresolved;
     u_Unresolved := u_Unresolved st || unresolved;
     u_goBin := u_goBin st; u_fsUncertain := u_fsUncertain st; u_chrooted := u_chrooted st |}.

Definition set_goBin (b : string) (st : unwrap_state) : unwrap_state :=
  {| u_gitEnvironment := u_gitEnvironment st; u_gitEnvironmentUnknown := u_gitEnvironmentUnknown st;
     u_Unresolved := u_Unresolved st; u_goBin := b; u_fsUncertain := u_fsUncertain st;
     u_chrooted := u_chrooted st |}.

Definition set_fsUncertain (st : unwrap_state) : unwrap_state :=
  {| u_gitEnvironment := u_gitEnvironment st; u_gitEnvironmentUnknown := u_gitEnvironmentUnknown st;
     u_Unresolved := u_Unresolved st; u_goBin := u_goBin st; u_fsUncertain := true;
     u_chrooted := u_chrooted st |}.

Definition set_chrooted (st : unwrap_state) : unwrap_state :=
  {| u_gitEnvironment := u_gitEnvironment st; u_gitEnvironmentUnknown := u_gitEnvironmentUnknown st;
     u_Unresolved := u_Unresolved st; u_goBin := u_goBin st; u_fsUncertain := u_fsUncertain st;
     u_chrooted := true |}.

Section Unwrap.

(** [Simple.wordUnresolved]: whether the word at an index of the original
    command is not known literally. *)
Context (wordUnresolved : nat -> bool).

(** The loop of [applyEnvGitEnvironment]; [index] is the position of the first
    word in the original command. *)
Fixpoint env_assignments (index : nat) (words : list string) (st : unwrap_state) : unwrap_state :=
  match words with
  | [] => st
  | arg :: rest =>
      if arg =s? "--" then st
      else if arg =s? "-u" then
        match rest with [] => st | _ :: rest' => env_assignments (S (S index)) rest' st end
      else if HasPrefix arg "-" then env_assignments (S index) rest st
      else
        let '(name, value, assignment) := Cut arg "=" in
        if negb assignment then st
        else if negb (gitRepositoryEnvironmentVariable name) then env_assignments (S index) rest st
        else env_assignments (S index) rest (add_git_env name value (wordUnresolved index) st)
  end.

Definition applyEnvGitEnvironment (source argv : list string) (st : unwrap_state) : unwrap_state :=
  match argvSubsliceOffset source argv with
  | None => st
  | Some offset => env_assignments (offset + 1) (tail argv) st
  end.

(** [GOBIN=dir] among the words [env] consumed; the last one wins. *)
Definition env_gobin (consumed : list string) (st : unwrap_state) : unwrap_state :=
  foldl (fun st a => match CutPrefix a "GOBIN=" with Some v => set_goBin v st | None => st end)
    st consumed.

(** ** The loop of [stripAndUnwrap] *)

(** What the loop ends with: the words of the command that runs (none, when
    nothing does), or the command line [watch] runs through a shell. *)
Inductive unwrapped :=
| Runs (argv : list string)
| Watches (argv : list string).

(** One turn: go on with the rest, stop, or fail. *)
Inductive turn :=
| Continue (rest : list string) (st : unwrap_state)
| Stop (u : unwrapped) (st : unwrap_state)
| Fail (e : wrap_error).

Definition go (r : parsed (list string)) (st : unwrap_state) : turn :=
  match r with Ok rest => Continue rest st | Err e => Fail e end.

Definition strip_one (source argv : list string) (st : unwrap_state) : turn :=
  let args := tail argv in
  let h := head argv in
  if h =s? "env" then
    let st := applyEnvGitEnvironment source argv st in
    match consumeEnv args with
    | Err e => Fail e
    | Ok rest =>
        let st := env_gobin (firstn (length args - length rest) args) st in
        match rest with
        | [] => Stop (Runs argv) st
        | _ => Continue rest st
        end
    end
  else if h =s? "timeout" then go (consumeTimeout args) st
  else if h =s? "nice" then go (consumeNice args) st
  else if h =s? "setsid" then go (consumeSetsid args) st
  else if h =s? "stdbuf" then go (consumeStdbuf args) st
  else if h =s? "ionice" then go (consumeIonice args) st
  else if h =s? "watch" then
    match consumeWatch args with Ok rest => Stop (Watches rest) st | Err e => Fail e end
  else if h =s? "chroot" then
    match consumeChroot args with Ok rest => Continue rest (set_chrooted st) | Err e => Fail e end
  else if h =s? "nohup" then go (consumeNoFlags "nohup" args) st
  else if h =s? "xargs" then go (consumeXargs args) (set_fsUncertain st)
  else if (h =s? "unshare") || (h =s? "nsenter") then go (consumeNamespace args) (set_fsUncertain st)
  else if h =s? "exec" then go (consumeExec args) st
  else if h =s? "command" then
    match consumeCommand args with
    | Err e => Fail e
    | Ok None => Stop (Runs []) st
    | Ok (Some rest) => Continue rest st
    end
  else if h =s? "builtin" then go (consumeBuiltin args) st
  else if (h =s? "time") || (h =s? "eval") then Continue args st
  else Stop (Runs argv) st.

(** The outer [None] is a loop that has not ended within the fuel. *)
Fixpoint strip_loop (fuel : nat) (source argv : list string) (st : unwrap_state)
  : option (parsed (unwrapped * unwrap_state)) :=
  match fuel with
  | O => None
  | S fuel' =>
      match argv with
      | [] => Some (Ok (Runs [], st))
      | _ =>
          match strip_one source argv st with
          | Continue rest st' => strip_loop fuel' source rest st'
          | Stop u st' => Some (Ok (u, st'))
          | Fail e => Some (Err e)
          end
      end
  end.

(** Every turn that goes on drops at least the wrapper's name. *)
Definition strip (argv : list string) (st : unwrap_state) : parsed (unwrapped * unwrap_state) :=
  match strip_loop (S (length argv)) argv argv st with
  | Some r => r
  | None => Err (Missing "")
  end.

End Unwrap.

(** ** A shell's [-c] *)

Record shellOptionSpec := {
  sh_shortFlags : string;
  sh_shortValues : string;
  sh_shortStops : string;
  sh_longFlags : list string;
  sh_longValues : list string;
  sh_longCommand : list string;
  sh_longStops : list string;
  sh_longBeforeShort : bool;
}.

Definition short_spec (flags values stops : string) : shellOptionSpec :=
  {| sh_shortFlags := flags; sh_shortValues := values; sh_shortStops := stops; sh_longFlags := [];
     sh_longValues := []; sh_longCommand := []; sh_longStops := []; sh_longBeforeShort := false |}.

Definition shShellOptions : shellOptionSpec := short_spec "abCefhiklmnprstuvxX" "o" "".
Definition dashShellOptions : shellOptionSpec := short_spec "aCefIimnqsuvxVEb" "o" "".
Definition zshShellOptions : shellOptionSpec := short_spec "dfilnrsuvx" "o" "b".
Definition kshShellOptions : shellOptionSpec := short_spec "abCefhiklmnprstuvxX" "o" "".
Definition ashShellOptions : shellOptionSpec := short_spec "aCefhIiklmnprstuvx" "o" "".
Definition cShellOptions : shellOptionSpec := short_spec "bdefFilmnqstvVxX" "" "".

Definition bashShellOptions : shellOptionSpec :=
  {| sh_shortFlags := "abCefhiklmnprstuvxBEHPT"; sh_shortValues := "oO"; sh_shortStops := "";
     sh_longFlags := ["--debug"; "--debugger"; "--login"; "--noediting"; "--noprofile"; "--norc";
                      "--posix"; "--pretty-print"; "--restricted"; "--verbose"];
     sh_longValues := ["--init-file"; "--rcfile"]; sh_longCommand := [];
     sh_longStops := ["--dump-po-strings"; "--dump-strings"; "--help"; "--version"];
     sh_longBeforeShort := true |}.

Definition fishShellOptions : shellOptionSpec :=
  {| sh_shortFlags := "iINlnPv"; sh_shortValues := "CdDfp"; sh_shortStops := "";
     sh_longFlags := ["--interactive"; "--login"; "--no-config"; "--no-execute"; "--private"];
     sh_longValues := ["--debug"; "--debug-output"; "--features"; "--init-command"; "--profile"];
     sh_longCommand := ["--command"]; sh_longStops := []; sh_longBeforeShort := false |}.

Definition shellOptions (shell : string) : option shellOptionSpec :=
  if shell =s? "bash" then Some bashShellOptions
  else if shell =s? "sh" then Some shShellOptions
  else if shell =s? "dash" then Some dashShellOptions
  else if shell =s? "zsh" then Some zshShellOptions
  else if (shell =s? "ksh") || (shell =s? "mksh") then Some kshShellOptions
  else if shell =s? "ash" then Some ashShellOptions
  else if shell =s? "fish" then Some fishShellOptions
  else if (shell =s? "csh") || (shell =s? "tcsh") then Some cShellOptions
  else None.

(** The letters of one option word: it stops the search, fails, or ends having
    seen a [c] or not, and having taken a value in the word, in the next word
    or not at all. *)
Inductive value_at := NoValue | InWord | InNext (flag : ascii).
Inductive shell_letters := LStop | LFail | LEnd (command : bool) (value : value_at).

Definition add_command (b : bool) (l : shell_letters) : shell_letters :=
  match l with LEnd c v => LEnd (b || c) v | _ => l end.

Fixpoint shell_cluster (spec : shellOptionSpec) (dash : bool) (cs : string) : shell_letters :=
  match cs with
  | EmptyString => LEnd false NoValue
  | String c t =>
      if Ascii.eqb c "c" && dash then add_command true (shell_cluster spec dash t)
      else if ContainsByte (sh_shortStops spec) c then LStop
      else if ContainsByte (sh_shortFlags spec) c then shell_cluster spec dash t
      else if ContainsByte (sh_shortValues spec) c then
        LEnd false (if t =s? "" then InNext c else InWord)
      else LFail
  end.

(** The loop of [shellDashC] over the words after the shell's name; [None] is
    the result without a command. *)
Fixpoint dash_c_loop (shell : string) (spec : shellOptionSpec) (shortSeen : bool)
    (words : list string) : parsed (option string) :=
  match words with
  | [] => Ok None
  | option :: rest =>
      if in_list option [""; "--"; "-"; "+"] then Ok None
      else if HasPrefix option "--" then
        if sh_longBeforeShort spec && shortSeen then Err (UnknownOpt shell option)
        else
          let '(base, value, attached) := Cut option "=" in
          if in_list base (sh_longCommand spec) then
            if attached then Ok (Some value)
            else match rest with
                 | [] => Err (NeedsValue shell option)
                 | source :: _ => Ok (Some source)
                 end
          else if in_list base (sh_longValues spec) then
            if attached then dash_c_loop shell spec shortSeen rest
            else match rest with
                 | [] => Err (NeedsValue shell option)
                 | _ :: rest' => dash_c_loop shell spec shortSeen rest'
                 end
          else if in_list base (sh_longFlags spec) && negb attached
          then dash_c_loop shell spec shortSeen rest
          else if in_list base (sh_longStops spec) && negb attached then Ok None
          else Err (UnknownOpt shell option)
      else
        match option with
        | EmptyString => Ok None
        | String sign letters =>
            if negb (Ascii.eqb sign "-") && negb (Ascii.eqb sign "+") then Ok None
            else
              match shell_cluster spec (Ascii.eqb sign "-") letters with
              | LStop => Ok None
              | LFail => Err (UnknownOpt shell option)
              | LEnd command value =>
                  let after :=
                    match value with
                    | NoValue | InWord => Ok rest
                    | InNext flag =>
                        match rest with
                        | [] => Err (NeedsValue shell (short_flag flag))
                        | _ :: rest' => Ok rest'
                        end
                    end in
                  match after with
                  | Err e => Err e
                  | Ok after =>
                      if command then
                        match after with
                        | [] => Err (NeedsValue shell "-c")
                        | source :: _ => Ok (Some source)
                        end
                      else
                        match value with
                        | InNext _ =>
                            match rest with
                            | [] => Ok None
                            | _ :: rest' => dash_c_loop shell spec true rest'
                            end
                        | _ => dash_c_loop shell spec true rest
                        end
                  end
              end
        end
  end.

Definition shellDashC (argv : list string) : parsed (option string) :=
  match shellOptions (head argv) with
  | None => Ok None
  | Some spec => dash_c_loop (head argv) spec false (tail argv)
  end.

(** ** [cmd /c] *)

Fixpoint after_slash_c (words : list string) : option string :=
  match words with
  | [] => None
  | w :: rest =>
      if in_list (ToLower w) ["/c"; "/k"] then
        match rest with [] => None | _ => Some (Join rest " ") end
      else after_slash_c rest
  end.

Definition cmdSlashC (argv : list string) : option string :=
  if head argv <>s? "cmd" then None else after_slash_c (tail argv).

(** ** Container runners ([internal/engine/rules_bash.go]) *)

Record dockerOptionSpec := { d_flags : list string; d_values : list string }.

Definition dockerGlobalOptionSpecs (command : string) : option dockerOptionSpec :=
  if command =s? "docker" then Some
    {| d_flags := ["-D"; "--debug"; "--help"; "--tls"; "--tlsverify"; "-v"; "--version"];
       d_values := ["--config"; "-c"; "--context"; "-H"; "--host"; "-l"; "--log-level";
                    "--tlscacert"; "--tlscert"; "--tlskey"] |}
  else if command =s? "podman" then Some
    {| d_flags := ["--help"; "--remote"; "--syslog"; "--transient-store"; "-v"; "--version"];
       d_values := ["--cgroup-manager"; "-c"; "--connection"; "--conmon"; "--events-backend";
                    "--hooks-dir"; "--identity"; "--log-level"; "--module"; "--network-cmd-path";
                    "--out"; "--root"; "--runroot"; "--runtime"; "--runtime-flag"; "--ssh";
                    "--storage-driver"; "--storage-opt"; "--tmpdir"; "--url"] |}
  else if command =s? "nerdctl" then Some
    {| d_flags := ["--bridge-nftables"; "--debug"; "--debug-full"; "--experimental"; "--help";
                   "--insecure-registry"; "-v"; "--version"];
       d_values := ["-a"; "--address"; "--cgroup-manager"; "--cni-netconfpath"; "--data-root";
                    "--host-gateway-ip"; "--hosts-dir"; "--log-level"; "-n"; "--namespace";
                    "--snapshotter"] |}
  else None.

Definition dockerComposeOptionSpec : dockerOptionSpec :=
  {| d_flags := ["--all-resources"; "--compatibility"; "--dry-run"; "--help"; "--no-ansi";
                 "--skip-hostname-check"; "--tls"; "--tlsverify"; "--verbose"; "-v"; "--version"];
     d_values := ["--ansi"; "--env-file"; "-f"; "--file"; "-H"; "--host"; "--log-level";
                  "--parallel"; "--profile"; "--progress"; "--project-directory"; "-p";
                  "--project-name"; "--tlscacert"; "--tlscert"; "--tlskey"] |}.

Definition dockerGroupOptionSpec : dockerOptionSpec := {| d_flags := ["--help"]; d_values := [] |}.

Definition dockerRunOptionSpec : dockerOptionSpec :=
  {| d_flags := ["-d"; "--detach"; "--disable-content-trust"; "--help"; "--init"; "-i";
                 "--interactive"; "--oom-kill-disable"; "-P"; "--privileged"; "--publish-all";
                 "--read-only"; "--rm"; "--sig-proxy"; "-t"; "--tty"; "--use-api-socket"];
     d_values := ["--add-host"; "--annotation"; "-a"; "--attach"; "--blkio-weight";
                  "--blkio-weight-device"; "--cap-add"; "--cap-drop"; "--cgroup-parent";
                  "--cgroupns"; "--cidfile"; "-c"; "--cpu-period"; "--cpu-quota";
                  "--cpu-rt-period"; "--cpu-rt-runtime"; "--cpu-shares"; "--cpus";
                  "--cpuset-cpus"; "--cpuset-mems"; "--device"; "--device-cgroup-rule";
                  "--device-read-bps"; "--device-read-iops"; "--detach-keys";
                  "--device-write-bps"; "--device-write-iops"; "--dns"; "--dns-option";
                  "--dns-search"; "--domainname"; "--entrypoint"; "-e"; "--env"; "--env-file";
                  "--expose"; "--gpus"; "--group-add"; "--health-cmd"; "--health-interval";
                  "--health-retries"; "--health-start-interval"; "--health-start-period";
                  "--health-timeout"; "-h"; "--hostname"; "--ip"; "--ip6"; "--ipc";
                  "--isolation"; "--kernel-memory"; "-l"; "--label"; "--label-file"; "--link";
                  "--link-local-ip"; "--log-driver"; "--log-opt"; "--mac-address"; "-m";
                  "--memory"; "--memory-reservation"; "--memory-swap"; "--memory-swappiness";
                  "--mount"; "--name"; "--network"; "--network-alias"; "--oom-score-adj"; "--pid";
                  "--pids-limit"; "--platform"; "-p"; "--publish"; "--pull"; "--restart";
                  "--runtime"; "--security-opt"; "--shm-size"; "--stop-signal"; "--stop-timeout";
                  "--storage-opt"; "--sysctl"; "--tmpfs"; "--ulimit"; "-u"; "--user"; "--uts";
                  "-v"; "--volume"; "--volume-driver"; "--volumes-from"; "-w"; "--workdir"] |}.

Definition dockerExecOptionSpec : dockerOptionSpec :=
  {| d_flags := ["-d"; "--detach"; "--help"; "-i"; "--interactive"; "--privileged"; "-t"; "--tty"];
     d_values := ["--detach-keys"; "-e"; "--env"; "--env-file"; "--preserve-fd"; "--preserve-fds";
                  "-u"; "--user"; "-w"; "--workdir"] |}.

Definition dockerSubcommandGroups (s : string) : bool :=
  in_list s ["builder"; "container"; "image"; "network"; "system"; "volume"].

(** [strconv.ParseBool] succeeds. *)
Definition parses_bool (s : string) : bool :=
  in_list s ["1"; "t"; "T"; "TRUE"; "true"; "True"; "0"; "f"; "F"; "FALSE"; "false"; "False"].

(** A cluster of short options: done (with the value an option took inside the
    word), the next word is the value of [option], or unknown. *)
Inductive docker_cluster_end :=
| DEnd (value : option (string * string))
| DNext (option : string)
| DFail.

Fixpoint docker_cluster (spec : dockerOptionSpec) (cs : string) : docker_cluster_end :=
  match cs with
  | EmptyString => DEnd None
  | String c t =>
      let option := short_flag c in
      if in_list option (d_values spec) then
        if t =s? "" then DNext option else DEnd (Some (option, t))
      else if in_list option (d_flags spec) then
        match t with
        | String "=" v => if parses_bool v then DEnd None else DFail
        | _ => docker_cluster spec t
        end
      else DFail
  end.

(** The words from the first that is not an option, and the values of the
    options before it. *)
Fixpoint parseDockerOptions (scope : string) (spec : dockerOptionSpec) (words : list string)
    (values : gmap string string) : parsed (list string * gmap string string) :=
  match words with
  | [] => Ok ([], values)
  | arg :: rest =>
      if arg =s? "--" then Ok (rest, values)
      else if (arg =s? "-") || negb (HasPrefix arg "-") then Ok (words, values)
      else if HasPrefix arg "--" then
        let '(base, value, attached) := Cut arg "=" in
        if in_list base (d_values spec) then
          if attached then parseDockerOptions scope spec rest (<[base := value]> values)
          else match rest with
               | [] => Err (NeedsValue scope arg)
               | v :: rest' => parseDockerOptions scope spec rest' (<[base := v]> values)
               end
        else if in_list base (d_flags spec) then
          if attached && negb (parses_bool value) then Err (UnknownOpt scope arg)
          else parseDockerOptions scope spec rest values
        else Err (UnknownOpt scope arg)
      else
        match docker_cluster spec (sdrop 1 arg) with
        | DEnd None => parseDockerOptions scope spec rest values
        | DEnd (Some (o, v)) => parseDockerOptions scope spec rest (<[o := v]> values)
        | DNext o =>
            match rest with
            | [] => Err (NeedsValue scope o)
            | v :: rest' => parseDockerOptions scope spec rest' (<[o := v]> values)
            end
        | DFail => Err (UnknownOpt scope arg)
        end
  end.

Definition skipDockerOptions (scope : string) (words : list string) (spec : dockerOptionSpec)
  : parsed (list string) :=
  let! r := parseDockerOptions scope spec words ∅ in Ok (fst r).

(** The words from the subcommand on; the empty list is the index [-1]. *)
Definition dockerSubcommandIndex (argv : list string) : parsed (list string) :=
  match dockerGlobalOptionSpecs (head argv) with
  | None => Ok []
  | Some spec => skipDockerOptions (head argv +:+ " global") (tail argv) spec
  end.

Definition parseDockerSubcommandChain (argv : list string) : parsed (list string) :=
  if (length argv <? 2)%nat then Ok []
  else if head argv =s? "docker-compose" then
    let! rest := skipDockerOptions "docker-compose" (tail argv) dockerComposeOptionSpec in
    Ok (firstn 1 rest)
  else
    let! from := dockerSubcommandIndex argv in
    match from with
    | [] => Ok []
    | sub :: args =>
        let scope := head argv +:+ " " +:+ sub in
        if (sub =s? "run") || (sub =s? "exec") then
          let! _ := skipDockerOptions scope args
                      (if sub =s? "exec" then dockerExecOptionSpec else dockerRunOptionSpec) in
          Ok [sub]
        else if (sub <>s? "compose") && negb (dockerSubcommandGroups sub) then Ok [sub]
        else
          let! rest := skipDockerOptions scope args
                         (if sub =s? "compose" then dockerComposeOptionSpec
                          else dockerGroupOptionSpec) in
          Ok (sub :: firstn 1 rest)
    end.

Definition chainHasPrefix (chain want : list string) : bool := is_prefix_of want chain.

Definition commandHasSubstitution (cmd : string) : bool := Contains cmd "$(" || Contains cmd "`".

Definition checkDocker (argv : list string) (rawCmd : string) : option Verdict :=
  let command := head argv in
  if negb (in_list command ["docker"; "docker-compose"; "podman"; "nerdctl"]) then None
  else
    match parseDockerSubcommandChain argv with
    | Err _ =>
        ask "P3.unresolved" "docker option parsing could not establish the command boundary"
    | Ok chain =>
        let chain := if command =s? "docker-compose" then "compose" :: chain else chain in
        let group_prune :=
          match chain with
          | g :: sub :: _ => dockerSubcommandGroups g && (sub =s? "prune")
          | _ => false
          end in
        if chainHasPrefix chain ["compose"; "down"] then
          deny "P1.docker-down" "docker compose down tears down a whole stack"
        else if group_prune || chainHasPrefix chain ["prune"] then
          deny "P1.docker-prune" "docker prune removes resources with unverifiable scope"
        else if (chainHasPrefix chain ["rm"] || chainHasPrefix chain ["kill"] ||
                 chainHasPrefix chain ["volume"; "rm"] || chainHasPrefix chain ["network"; "rm"]) &&
                commandHasSubstitution rawCmd then
          deny "P1.docker-substituted" "docker rm/kill with a command-substituted target list"
        else None
    end.

(** The command a runner runs; [None] is the source's [nil]. *)
Definition runnerInner (argv : list string) : parsed (option (list string)) :=
  let h := head argv in
  if in_list h ["npx"; "uvx"; "bunx"; "make"; "just"] then
    match tail argv with [] => Ok None | inner => Ok (Some inner) end
  else if in_list h ["docker"; "podman"; "nerdctl"] then
    let! from := dockerSubcommandIndex argv in
    match from with
    | [] => Ok None
    | sub :: args =>
        if (sub =s? "run") || (sub =s? "exec") then
          let! r := parseDockerOptions (h +:+ " " +:+ sub)
                      (if sub =s? "exec" then dockerExecOptionSpec else dockerRunOptionSpec)
                      args ∅ in
          let '(rest, values) := r in
          match values !! "--entrypoint" with
          | Some entrypoint =>
              if entrypoint =s? "" then
                Err (Missing (h +:+ " run: empty --entrypoint; failing closed"))
              else
                match rest with
                | [] => Err (Missing (h +:+ " " +:+ sub +:+
                                      ": missing image or container; failing closed"))
                | _ :: inner => Ok (Some (entrypoint :: inner))
                end
          | None =>
              match rest with
              | [] => Err (Missing (h +:+ " " +:+ sub +:+
                                    ": missing image or container; failing closed"))
              | _ :: inner => match inner with [] => Ok None | _ => Ok (Some inner) end
              end
          end
        else Ok None
    end
  else if in_list h ["devbox"; "mise"; "nix"] then
    match tail (tail argv) with [] => Ok None | inner => Ok (Some inner) end
  else if h =s? "busybox" then
    match tail argv with
    | [] => Ok None
    | applet :: _ =>
        if HasPrefix applet "-"
        then Err (Missing ("busybox: cannot determine applet from " +:+ applet +:+ "; failing closed"))
        else Ok (Some (tail argv))
    end
  else Ok None.

(** ** Lemmas: the parsers return a suffix of their words *)

(** What a parser returns is at the end of what it was given. *)
Definition suffix_result (r : parsed (list string)) (argv : list string) : Prop :=
  match r with Ok rest => rest `suffix_of` argv | Err _ => True end.

Lemma suffix_result_cons r a argv : suffix_result r argv -> suffix_result r (a :: argv).
Proof. destruct r; [|done]. apply suffix_cons_r. Qed.

Lemma suffix_result_self argv : suffix_result (Ok argv) argv.
Proof. by exists []. Qed.

Lemma suffix_result_tail a argv : suffix_result (Ok argv) (a :: argv).
Proof. by exists [a]. Qed.

#[local] Hint Resolve suffix_result_cons suffix_result_self suffix_result_tail : guard.

(** Close every branch of a parser's loop: an end, or one turn more. *)
Ltac suffix_loop :=
  repeat match goal with
  | |- suffix_result (if ?b then _ else _) _ => destruct b
  | |- suffix_result (match ?x with _ => _ end) _ => destruct x
  end; eauto with guard; try done.

Lemma consumeEnv_suffix argv : suffix_result (consumeEnv argv) argv.
Proof.
  induction argv as [|a rest IH IH2] using list_ind_two; [by apply suffix_result_self || done|]. cbn [consumeEnv].
  destruct (a =s? "--"); [auto with guard|]. destruct (in_list a _); [auto with guard|].
  destruct (in_list a _); [destruct rest as [|v rest']; [done|eauto 6 with guard]|].
  suffix_loop.
Qed.

Lemma timeout_suffix got argv : suffix_result (timeout_loop got argv) argv.
Proof.
  revert got. induction argv as [|a rest IH IH2] using list_ind_two; intros got; [by apply suffix_result_self|].
  cbn [timeout_loop]. destruct (negb (HasPrefix a "-")); [suffix_loop|].
  destruct (in_list a _); [destruct rest as [|v rest']; [done|eauto 6 with guard]|]. suffix_loop.
Qed.

Lemma consumeNice_suffix argv : suffix_result (consumeNice argv) argv.
Proof.
  induction argv as [|a rest IH IH2] using list_ind_two; [by apply suffix_result_self || done|]. cbn [consumeNice].
  destruct (a =s? "-n"); [destruct rest as [|v rest']; [done|eauto 6 with guard]|]. suffix_loop.
Qed.

Lemma consumeXargs_suffix argv : suffix_result (consumeXargs argv) argv.
Proof.
  induction argv as [|a rest IH IH2] using list_ind_two; [by apply suffix_result_self || done|]. cbn [consumeXargs].
  destruct (in_list a _); [auto with guard|].
  destruct (in_list a _); [destruct rest as [|v rest']; [done|eauto 6 with guard]|]. suffix_loop.
Qed.

Lemma consumeNoFlags_suffix name argv : suffix_result (consumeNoFlags name argv) argv.
Proof. destruct argv as [|a rest]; [by apply suffix_result_self|]. cbn [consumeNoFlags]. suffix_loop. Qed.

Lemma consumeNamespace_suffix argv : suffix_result (consumeNamespace argv) argv.
Proof.
  induction argv as [|a rest IH IH2] using list_ind_two; [by apply suffix_result_self || done|]. cbn [consumeNamespace].
  destruct (a =s? "--"); [auto with guard|]. destruct (in_list a _); [auto with guard|].
  destruct (in_list a _); [destruct rest as [|v rest']; [done|eauto 6 with guard]|].
  apply consumeNoFlags_suffix.
Qed.

Lemma consumeExec_suffix argv : suffix_result (consumeExec argv) argv.
Proof.
  induction argv as [|a rest IH IH2] using list_ind_two; [by apply suffix_result_self || done|]. cbn [consumeExec].
  destruct (a =s? "-a"); [destruct rest as [|v rest']; [done|eauto 6 with guard]|]. suffix_loop.
Qed.

Lemma consumeBuiltin_suffix argv : suffix_result (consumeBuiltin argv) argv.
Proof. destruct argv as [|a rest]; [by apply suffix_result_self|]. cbn [consumeBuiltin]. suffix_loop. Qed.

Lemma consumeKnownFlags_suffix name argv known valued optional :
  suffix_result (consumeKnownFlags name argv known valued optional) argv.
Proof.
  induction argv as [|a rest IH IH2] using list_ind_two; [by apply suffix_result_self || done|]. cbn [consumeKnownFlags].
  assert (Hnext : forall e, suffix_result
    match rest with [] => Err e | _ :: rest' => consumeKnownFlags name rest' known valued optional end
    (a :: rest)) by (intros e; destruct rest as [|v rest']; [done|eauto 6 with guard]).
  destruct (a =s? "--"); [auto with guard|].
  destruct (negb (HasPrefix a "-") || (a =s? "-")); [auto with guard|].
  destruct (HasPrefix a "--").
  - destruct (Cut a "=") as [[base v] attached].
    destruct (in_list base known && negb attached); [auto with guard|].
    destruct (in_list base valued); [destruct attached; [auto with guard|apply Hnext]|].
    destruct (in_list base optional); [auto with guard|done].
  - destruct (known_cluster name a (sdrop 1 a) known valued optional); [auto with guard|apply Hnext|done].
Qed.

Lemma consumeChroot_suffix argv : suffix_result (consumeChroot argv) argv.
Proof.
  unfold consumeChroot.
  pose proof (consumeKnownFlags_suffix "chroot" argv [] ["--userspec"; "--groups"] []) as H.
  destruct (consumeKnownFlags _ _ _ _ _) as [[|r [|c rest]]|e]; [done..| |done].
  simpl in *. destruct H as [k ->]. exists (k ++ [r]). by rewrite <- app_assoc.
Qed.

Lemma consumeCommand_suffix locate argv :
  match command_loop locate argv with Ok (Some rest) => rest `suffix_of` argv | _ => True end.
Proof.
  revert locate. induction argv as [|a rest IH]; intros locate; [done|]. cbn [command_loop].
  destruct (a =s? "--"); [destruct rest; [done|]; destruct locate; [done|by eexists [a]]|].
  destruct (HasPrefix a "-"); [|by destruct locate; [|exists []]].
  destruct (a =s? "-"); [done|]. destruct (command_letters _) as [seen|]; [|done].
  specialize (IH (locate || seen)). destruct (command_loop _ rest) as [[l|]|]; [|done..].
  by apply suffix_cons_r.
Qed.

(** ** The peeling loop ends, and returns words of the command *)

Definition wrappers : list string :=
  ["env"; "timeout"; "nice"; "setsid"; "stdbuf"; "ionice"; "watch"; "chroot"; "nohup"; "xargs";
   "unshare"; "nsenter"; "exec"; "command"; "builtin"; "time"; "eval"].

Lemma go_continue r st rest st' argv :
  suffix_result r argv -> go r st = Continue rest st' -> rest `suffix_of` argv.
Proof. intros H E. destruct r; simpl in E; [|done]. by injection E as <- _. Qed.

Lemma go_not_stop r st u st' : go r st <> Stop u st'.
Proof. by destruct r. Qed.

(** A turn that goes on drops the wrapper's name and keeps a suffix. *)
Lemma strip_one_continue unresolved source argv st rest st' :
  strip_one unresolved source argv st = Continue rest st' -> rest `suffix_of` tail argv.
Proof.
  unfold strip_one. intros H.
  destruct (head argv =s? "env").
  { pose proof (consumeEnv_suffix (tail argv)) as Hs.
    destruct (consumeEnv (tail argv)) as [[|r rs]|e]; [done| |done]. by injection H as <- _. }
  destruct (head argv =s? "timeout"); [eapply go_continue; [apply timeout_suffix|exact H]|].
  destruct (head argv =s? "nice"); [eapply go_continue; [apply consumeNice_suffix|exact H]|].
  destruct (head argv =s? "setsid"); [eapply go_continue; [apply consumeKnownFlags_suffix|exact H]|].
  destruct (head argv =s? "stdbuf"); [eapply go_continue; [apply consumeKnownFlags_suffix|exact H]|].
  destruct (head argv =s? "ionice"); [eapply go_continue; [apply consumeKnownFlags_suffix|exact H]|].
  destruct (head argv =s? "watch"); [by destruct (consumeWatch (tail argv))|].
  destruct (head argv =s? "chroot").
  { pose proof (consumeChroot_suffix (tail argv)) as Hs.
    destruct (consumeChroot (tail argv)); [|done]. by injection H as <- _. }
  destruct (head argv =s? "nohup"); [eapply go_continue; [apply consumeNoFlags_suffix|exact H]|].
  destruct (head argv =s? "xargs"); [eapply go_continue; [apply consumeXargs_suffix|exact H]|].
  destruct ((head argv =s? "unshare") || _);
    [eapply go_continue; [apply consumeNamespace_suffix|exact H]|].
  destruct (head argv =s? "exec"); [eapply go_continue; [apply consumeExec_suffix|exact H]|].
  destruct (head argv =s? "command").
  { pose proof (consumeCommand_suffix false (tail argv)) as Hs. unfold consumeCommand in H.
    destruct (command_loop false (tail argv)) as [[r|]|]; [|done..]. by injection H as <- _. }
  destruct (head argv =s? "builtin"); [eapply go_continue; [apply consumeBuiltin_suffix|exact H]|].
  destruct ((head argv =s? "time") || _); [injection H as <- _; by exists []|done].
Qed.

(** What is judged when the loop stops. *)
Definition judged (argv : list string) (u : unwrapped) : Prop :=
  match u with
  | Runs rest =>
      rest = [] \/
      (rest = argv /\ (head argv ∉ wrappers \/
                       (head argv = "env" /\ consumeEnv (tail argv) = Ok [])))
  | Watches rest => rest `suffix_of` argv
  end.

Lemma strip_one_stop unresolved source argv st u st' :
  strip_one unresolved source argv st = Stop u st' -> judged argv u.
Proof.
  unfold strip_one. intros H.
  destruct (head argv =s? "env") eqn:E1.
  { destruct (consumeEnv (tail argv)) as [[|r rs]|e] eqn:Ec; [|done..].
    injection H as <- _. right. breflect. auto. }
  destruct (head argv =s? "timeout") eqn:E2; [by apply go_not_stop in H|].
  destruct (head argv =s? "nice") eqn:E3; [by apply go_not_stop in H|].
  destruct (head argv =s? "setsid") eqn:E4; [by apply go_not_stop in H|].
  destruct (head argv =s? "stdbuf") eqn:E5; [by apply go_not_stop in H|].
  destruct (head argv =s? "ionice") eqn:E6; [by apply go_not_stop in H|].
  destruct (head argv =s? "watch") eqn:E7.
  { pose proof (consumeKnownFlags_suffix "watch" (tail argv) ["-d"; "-t"; "--no-title"; "-b"; "-e"]
      ["-n"; "--interval"] ["--differences"]) as Hs.
    unfold consumeWatch in H. destruct (consumeKnownFlags _ _ _ _ _); [|done].
    injection H as <- _. destruct argv; [done|]. by apply suffix_cons_r. }
  destruct (head argv =s? "chroot") eqn:E8; [by destruct (consumeChroot (tail argv))|].
  destruct (head argv =s? "nohup") eqn:E9; [by apply go_not_stop in H|].
  destruct (head argv =s? "xargs") eqn:E10; [by apply go_not_stop in H|].
  destruct ((head argv =s? "unshare") || _) eqn:E11; [by apply go_not_stop in H|].
  destruct (head argv =s? "exec") eqn:E12; [by apply go_not_stop in H|].
  destruct (head argv =s? "command") eqn:E13.
  { destruct (consumeCommand (tail argv)) as [[r|]|]; [done| |done].
    injection H as <- _. by left. }
  destruct (head argv =s? "builtin") eqn:E14; [by apply go_not_stop in H|].
  destruct ((head argv =s? "time") || _) eqn:E15; [done|].
  injection H as <- _. right. split; [done|]. left. apply in_list_false.
  apply orb_false_iff in E11 as [E11 E11'], E15 as [E15 E15'].
  unfold in_list, wrappers. cbn [existsb].
  by rewrite E1, E2, E3, E4, E5, E6, E7, E8, E9, E10, E11, E11', E12, E13, E14, E15, E15'.
Qed.

(** With a word more of fuel than there are words, the loop ends; what it
    returns is a suffix of the words. *)
Lemma strip_loop_sound unresolved fuel source argv st :
  (length argv < fuel)%nat ->
  exists r, strip_loop unresolved fuel source argv st = Some r /\
    match r with
    | Ok (u, _) => exists inner, inner `suffix_of` argv /\ judged inner u
    | Err _ => True
    end.
Proof.
  revert argv st. induction fuel as [|fuel IH]; intros argv st Hf; [lia|].
  cbn [strip_loop]. destruct argv as [|a argv].
  { eexists. split; [done|]. exists []. split; [done|]. by left. }
  destruct (strip_one unresolved source (a :: argv) st) as [rest st'|u st'|e] eqn:E.
  - apply strip_one_continue in E. simpl in E.
    destruct (IH rest st') as (r & Hr & Hs).
    { destruct E as [k ->]. simpl in Hf. rewrite length_app in Hf. lia. }
    exists r. split; [done|]. destruct r as [[u st'']|]; [|done].
    destruct Hs as (inner & Hi & Hj). exists inner. split; [|done].
    etrans; [exact Hi|]. by apply suffix_cons_r.
  - eexists. split; [done|]. exists (a :: argv). split; [done|]. by eapply strip_one_stop.
  - by eexists.
Qed.

(** ** A grammar of wrapped commands *)

(** The first word of a command: not an option and not an assignment. *)
Definition plain (w : string) : Prop := HasPrefix w "-" = false /\ ContainsByte w "=" = false.

Definition starts_plain (cmd : list string) : Prop :=
  match cmd with w :: _ => plain w | [] => False end.

(** One option of a wrapper with its value, as a group of words: a flag, an
    option and its value, or an option with the value attached. *)
Definition option_group (flags valued attached : list string) (u : list string) : Prop :=
  (exists a, u = [a] /\ a ∈ flags) \/
  (exists a v, u = [a; v] /\ a ∈ valued) \/
  (exists a v, u = [a +:+ "=" +:+ v] /\ a ∈ attached).

Definition env_group (u : list string) : Prop :=
  option_group ["-i"; "--ignore-environment"; "-v"; "--debug"; "-0"; "--null"] ["-u"; "--unset"] [] u \/
  (exists a, u = [a] /\ HasPrefix a "-" = false /\ ContainsByte a "=" = true).

Definition nice_group (u : list string) : Prop :=
  option_group [] ["-n"] [] u \/
  (exists ds, u = [String "-" ds] /\ allDigits ds = true).

(** The words one wrapper puts in front of a command. *)
Inductive layer : list string -> Prop :=
| layer_env n us : plain n -> head [n] = "env" -> Forall env_group us -> layer (n :: concat us)
| layer_timeout n us d : plain n -> head [n] = "timeout" ->
    Forall (option_group ["-v"; "--preserve-status"; "--foreground"] ["-k"; "-s"] []) us ->
    HasPrefix d "-" = false -> layer (n :: concat us ++ [d])
| layer_nice n us : plain n -> head [n] = "nice" -> Forall nice_group us -> layer (n :: concat us)
| layer_setsid n us : plain n -> head [n] = "setsid" ->
    Forall (option_group ["-f"; "--fork"; "-w"; "--wait"; "-c"; "--ctty"] [] []) us ->
    layer (n :: concat us)
| layer_stdbuf n us : plain n -> head [n] = "stdbuf" ->
    Forall (option_group [] ["-i"; "--input"; "-o"; "--output"; "-e"; "--error"]
              ["--input"; "--output"; "--error"]) us -> layer (n :: concat us)
| layer_ionice n us : plain n -> head [n] = "ionice" ->
    Forall (option_group ["-t"; "--ignore"] ["-c"; "--class"; "-n"; "--classdata"]
              ["--class"; "--classdata"]) us -> layer (n :: concat us)
| layer_chroot n us root : plain n -> head [n] = "chroot" ->
    Forall (option_group [] ["--userspec"; "--groups"] ["--userspec"; "--groups"]) us ->
    HasPrefix root "-" = false -> layer (n :: concat us ++ [root])
| layer_nohup n : plain n -> head [n] = "nohup" -> layer [n]
| layer_xargs n us : plain n -> head [n] = "xargs" ->
    Forall (option_group ["-0"; "-r"; "-t"; "-p"] ["-n"; "-I"; "-P"; "-E"; "-d"] []) us ->
    layer (n :: concat us)
| layer_namespace n us : plain n -> head [n] = "unshare" \/ head [n] = "nsenter" ->
    Forall (option_group ["-m"; "--mount"] ["-t"; "--target"] []) us -> layer (n :: concat us)
| layer_exec n us : plain n -> head [n] = "exec" -> Forall (option_group [] ["-a"] []) us ->
    layer (n :: concat us)
| layer_command n us : plain n -> head [n] = "command" -> Forall (option_group ["-p"] [] []) us ->
    layer (n :: concat us)
| layer_builtin n : plain n -> head [n] = "builtin" -> layer [n]
| layer_time n : plain n -> head [n] = "time" \/ head [n] = "eval" -> layer [n].

(** [wrapped cmd argv]: [argv] runs [cmd] through any number of wrappers. *)
Inductive wrapped (cmd : list string) : list string -> Prop :=
| wrapped_here : wrapped cmd cmd
| wrapped_layer l argv : layer l -> wrapped cmd argv -> wrapped cmd (l ++ argv).

(** ** Lemmas: each parser skips its groups and stops at the command *)

Lemma skip_groups {A} (f : list string -> A) (group : list string -> Prop) us cmd :
  (forall u tl, group u -> f (u ++ tl) = f tl) -> Forall group us -> f (concat us ++ cmd) = f cmd.
Proof.
  intros Hf Hus. induction Hus as [|u us Hu Hus IH]; [done|].
  simpl. rewrite <- app_assoc. by rewrite Hf.
Qed.

(** Walk through the words of a group that is drawn from lists of literals. *)
Ltac literal_group H :=
  repeat match type of H with
  | _ \/ _ => destruct H as [H|H]
  | exists _, _ => let x := fresh "x" in destruct H as [x H]
  end;
  destruct H as [-> H]; apply list_elem_of_In in H; cbn [In] in H;
  repeat match type of H with
  | _ \/ _ => destruct H as [<-|H]
  | False => destruct H
  end; reflexivity.

Lemma env_skips u tl : env_group u -> consumeEnv (u ++ tl) = consumeEnv tl.
Proof.
  intros [H|(a & -> & Hd & He)]; [unfold option_group in H; literal_group H|].
  cbn [app consumeEnv].
  destruct (a =s? "--") eqn:E1; [breflect; by subst|].
  destruct (in_list a ["-i"; _; _; _; _; _]) eqn:E2.
  { exfalso. breflect. apply list_elem_of_In in E2. cbn in E2.
    repeat (destruct E2 as [<-|E2]; [done|]). done. }
  destruct (in_list a ["-u"; _]) eqn:E3.
  { exfalso. breflect. apply list_elem_of_In in E3. cbn in E3.
    repeat (destruct E3 as [<-|E3]; [done|]). done. }
  by rewrite Hd, He.
Qed.

Lemma nice_skips u tl : nice_group u -> consumeNice (u ++ tl) = consumeNice tl.
Proof.
  intros [H|(ds & -> & Hd)]; [unfold option_group in H; literal_group H|].
  cbn [app consumeNice].
  destruct (String "-" ds =s? "-n") eqn:E1; [breflect; injection E1 as ->; done|].
  assert ((1 <? String.length (String "-" ds))%nat = true) as ->.
  { unfold allDigits in Hd. apply andb_true_iff in Hd as [_ Hd]. by destruct ds. }
  change (HasPrefix (String "-" ds) "-") with true. change (sdrop 1 (String "-" ds)) with ds.
  by rewrite Hd.
Qed.

Lemma setsid_skips u tl :
  option_group ["-f"; "--fork"; "-w"; "--wait"; "-c"; "--ctty"] [] [] u ->
  consumeSetsid (u ++ tl) = consumeSetsid tl.
Proof. unfold option_group, consumeSetsid. intros H. literal_group H. Qed.

Lemma stdbuf_skips u tl :
  option_group [] ["-i"; "--input"; "-o"; "--output"; "-e"; "--error"]
    ["--input"; "--output"; "--error"] u -> consumeStdbuf (u ++ tl) = consumeStdbuf tl.
Proof. unfold option_group, consumeStdbuf. intros H. literal_group H. Qed.

Lemma ionice_skips u tl :
  option_group ["-t"; "--ignore"] ["-c"; "--class"; "-n"; "--classdata"]
    ["--class"; "--classdata"] u -> consumeIonice (u ++ tl) = consumeIonice tl.
Proof. unfold option_group, consumeIonice. intros H. literal_group H. Qed.

Lemma chroot_skips u tl :
  option_group [] ["--userspec"; "--groups"] ["--userspec"; "--groups"] u ->
  consumeKnownFlags "chroot" (u ++ tl) [] ["--userspec"; "--groups"] [] =
  consumeKnownFlags "chroot" tl [] ["--userspec"; "--groups"] [].
Proof. unfold option_group. intros H. literal_group H. Qed.

Lemma timeout_skips u tl :
  option_group ["-v"; "--preserve-status"; "--foreground"] ["-k"; "-s"] [] u ->
  timeout_loop false (u ++ tl) = timeout_loop false tl.
Proof. unfold option_group. intros H. literal_group H. Qed.

Lemma xargs_skips u tl :
  option_group ["-0"; "-r"; "-t"; "-p"] ["-n"; "-I"; "-P"; "-E"; "-d"] [] u ->
  consumeXargs (u ++ tl) = consumeXargs tl.
Proof. unfold option_group. intros H. literal_group H. Qed.

Lemma namespace_skips u tl :
  option_group ["-m"; "--mount"] ["-t"; "--target"] [] u ->
  consumeNamespace (u ++ tl) = consumeNamespace tl.
Proof. unfold option_group. intros H. literal_group H. Qed.

Lemma exec_skips u tl : option_group [] ["-a"] [] u -> consumeExec (u ++ tl) = consumeExec tl.
Proof. unfold option_group. intros H. literal_group H. Qed.

Lemma command_skips u tl :
  option_group ["-p"] [] [] u -> consumeCommand (u ++ tl) = consumeCommand tl.
Proof. unfold option_group, consumeCommand. intros H. literal_group H. Qed.

(** A word that is not an option differs from every option. *)
Lemma plain_not_option w l :
  HasPrefix w "-" = false -> forallb (fun a => HasPrefix a "-") l = true -> in_list w l = false.
Proof.
  intros Hw Hl. apply in_list_false. intros Hin. rewrite forallb_forall in Hl.
  apply list_elem_of_In in Hin. by rewrite Hl in Hw.
Qed.

Lemma plain_not_word w a : HasPrefix w "-" = false -> HasPrefix a "-" = true -> (w =s? a) = false.
Proof. intros Hw Ha. apply String.eqb_neq. intros ->. congruence. Qed.

Lemma known_stops name w rest known valued optional :
  HasPrefix w "-" = false ->
  consumeKnownFlags name (w :: rest) known valued optional = Ok (w :: rest).
Proof. intros H. cbn [consumeKnownFlags]. by rewrite (plain_not_word w "--"), H. Qed.

Lemma head_first n l : head (n :: l) = head [n].
Proof. done. Qed.

(** The options of env, and of the namespace tools, end where the command starts. *)
Lemma env_peeled us w rest :
  Forall env_group us -> HasPrefix w "-" = false -> ContainsByte w "=" = false ->
  consumeEnv (concat us ++ w :: rest) = Ok (w :: rest).
Proof.
  intros Hus Hw Heq. rewrite (skip_groups consumeEnv env_group) by (apply env_skips || done).
  cbn [consumeEnv]. by rewrite (plain_not_word w "--"), !plain_not_option, Hw, Heq by done.
Qed.

Lemma namespace_peeled us w rest :
  Forall (option_group ["-m"; "--mount"] ["-t"; "--target"] []) us -> HasPrefix w "-" = false ->
  consumeNamespace (concat us ++ w :: rest) = Ok (w :: rest).
Proof.
  intros Hus Hw. rewrite (skip_groups consumeNamespace _ us _ namespace_skips) by done.
  cbn [consumeNamespace consumeNoFlags].
  by rewrite (plain_not_word w "--"), !plain_not_option, Hw by done.
Qed.

(** One wrapper, with its options, is peeled in one turn. *)
Lemma layer_peeled unresolved source l cmd st :
  layer l -> starts_plain cmd ->
  exists st', strip_one unresolved source (l ++ cmd) st = Continue cmd st'.
Proof.
  intros Hl Hc. destruct cmd as [|w rest]; [done|]. destruct Hc as [Hw Heq].
  destruct Hl as [n us Hn Hh Hus|n us d Hn Hh Hus Hd|n us Hn Hh Hus|n us Hn Hh Hus|n us Hn Hh Hus
    |n us Hn Hh Hus|n us root Hn Hh Hus Hr|n Hn Hh|n us Hn Hh Hus|n us Hn Hh Hus|n us Hn Hh Hus
    |n us Hn Hh Hus|n Hn Hh|n Hn Hh]; cbn [app]; unfold strip_one;
    rewrite head_first; try (destruct Hh as [Hh|Hh]); rewrite Hh; cbn [tail String.eqb Ascii.eqb Bool.eqb orb].
  - rewrite env_peeled by done. by eexists.
  - unfold consumeTimeout. rewrite <- app_assoc.
    rewrite (skip_groups (timeout_loop false) _ us _ timeout_skips) by done.
    cbn [app timeout_loop]. rewrite Hd, Hw. by eexists.
  - rewrite (skip_groups consumeNice nice_group) by (apply nice_skips || done).
    cbn [consumeNice]. rewrite (plain_not_word w "-n"), Hw, andb_false_r by done. by eexists.
  - rewrite (skip_groups consumeSetsid _ us _ setsid_skips) by done.
    unfold consumeSetsid. rewrite known_stops by done. by eexists.
  - rewrite (skip_groups consumeStdbuf _ us _ stdbuf_skips) by done.
    unfold consumeStdbuf. rewrite known_stops by done. by eexists.
  - rewrite (skip_groups consumeIonice _ us _ ionice_skips) by done.
    unfold consumeIonice. rewrite known_stops by done. by eexists.
  - unfold consumeChroot. rewrite <- app_assoc.
    rewrite (skip_groups (fun l => consumeKnownFlags "chroot" l [] ["--userspec"; "--groups"] [])
               _ us _ chroot_skips) by done.
    cbn [app]. rewrite known_stops by done. by eexists.
  - cbn [consumeNoFlags]. rewrite Hw. by eexists.
  - rewrite (skip_groups consumeXargs _ us _ xargs_skips) by done.
    cbn [consumeXargs]. rewrite !plain_not_option, Hw by done. by eexists.
  - rewrite namespace_peeled by done. by eexists.
  - rewrite namespace_peeled by done. by eexists.
  - rewrite (skip_groups consumeExec _ us _ exec_skips) by done.
    cbn [consumeExec]. rewrite (plain_not_word w "-a"), Hw by done. by eexists.
  - rewrite (skip_groups consumeCommand _ us _ command_skips) by done.
    unfold consumeCommand. cbn [command_loop]. rewrite (plain_not_word w "--"), Hw by done.
    by eexists.
  - cbn [consumeBuiltin]. rewrite (plain_not_word w "--"), Hw by done. by eexists.
  - by eexists.
  - by eexists.
Qed.

Lemma layer_nonempty l : layer l -> exists n rest, l = n :: rest /\ plain n.
Proof. by destruct 1; eexists _, _. Qed.

Lemma wrapped_plain cmd argv : starts_plain cmd -> wrapped cmd argv -> starts_plain argv.
Proof.
  intros Hc H. induction H as [|l argv Hl H IH]; [done|].
  destruct (layer_nonempty _ Hl) as (n & rest & -> & Hn). done.
Qed.

(** A command that is no wrapper stops the loop. *)
Lemma strip_one_command unresolved source argv st :
  head argv ∉ wrappers -> strip_one unresolved source argv st = Stop (Runs argv) st.
Proof.
  intros Hw. apply in_list_false in Hw. unfold in_list, wrappers in Hw. cbn [existsb] in Hw.
  repeat apply orb_false_iff in Hw as [? Hw]. unfold strip_one.
  repeat match goal with E : (head _ =s? _) = false |- _ => rewrite E; clear E end. done.
Qed.

Lemma wrapped_peeled unresolved source cmd argv fuel st :
  starts_plain cmd -> head cmd ∉ wrappers -> wrapped cmd argv -> (length argv < fuel)%nat ->
  exists st', strip_loop unresolved fuel source argv st = Some (Ok (Runs cmd, st')).
Proof.
  intros Hc Hw H. revert fuel st. induction H as [|l argv Hl H IH]; intros fuel st Hf.
  - destruct fuel as [|fuel]; [lia|]. destruct cmd as [|w rest]; [done|]. cbn [strip_loop].
    rewrite strip_one_command by done. by eexists.
  - destruct fuel as [|fuel]; [lia|]. cbn [strip_loop].
    pose proof (wrapped_plain _ _ Hc H) as Hp.
    destruct (layer_peeled unresolved source l argv st Hl Hp) as [st' Hs].
    destruct (layer_nonempty _ Hl) as (n & rest & -> & _). cbn [app] in Hs |- *. rewrite Hs.
    apply IH. simpl in Hf. rewrite length_app in Hf. lia.
Qed.

(** Peeling wrappers always ends, and what is judged are words of the
    command as written: a suffix of its argument vector whose own head is no
    wrapper, except a bare [env], which runs nothing.  An option a wrapper's
    parser does not know is an error, never a guess at what runs. *)
Theorem strip_sound unresolved argv st :
  strip_loop unresolved (S (length argv)) argv argv st <> None /\
  forall u st', strip unresolved argv st = Ok (u, st') ->
    exists inner, inner `suffix_of` argv /\ judged inner u.
Proof.
  destruct (strip_loop_sound unresolved (S (length argv)) argv argv st) as (r & Hr & Hs); [lia|].
  unfold strip. rewrite Hr. split; [done|]. intros u st' ->. exact Hs.
Qed.

(** [argv] runs [cmd]: it is [cmd], or [cmd] behind wrappers with their options; and
    [cmd] itself is no wrapper. *)
Definition runs_words (argv cmd : list string) : Prop :=
  cmd <> [] /\ head cmd ∉ wrappers /\ (argv = cmd \/ starts_plain cmd /\ wrapped cmd argv).

Lemma strip_runs unresolved argv cmd st :
  runs_words argv cmd -> argv <> [] /\ exists st', strip unresolved argv st = Ok (Runs cmd, st').
Proof.
  intros (Hne & Hw & [->|[Hp Hwr]]).
  - split; [done|]. exists st. unfold strip. destruct cmd as [|a rest]; [done|]. cbn [strip_loop]. by rewrite strip_one_command.
  - split; [pose proof (wrapped_plain _ _ Hp Hwr) as H; by destruct argv|]. unfold strip.
    destruct (wrapped_peeled unresolved argv cmd argv (S (length argv)) st Hp Hw Hwr) as [st' ->]; [lia|]. by exists st'.
Qed.

(** C23: Wrappers hide nothing: however many of [env], [timeout], [nice], [setsid], [stdbuf],
    [ionice], [chroot], [nohup], [xargs], [unshare], [nsenter], [exec], [command], [builtin],
    [time] and [eval] stand in front of a command, with any of the options that the relation
    [layer] lists for each, and whatever path or letter case they are written with, the command
    that is judged is exactly the one they run - one that is no wrapper itself. ([watch], which
    runs a source, is not among the layers.) *)
Theorem wrappers_transparent unresolved cmd argv st :
  starts_plain cmd -> head cmd ∉ wrappers -> wrapped cmd argv ->
  exists st', strip unresolved argv st = Ok (Runs cmd, st').
Proof.
  intros Hc Hw H. unfold strip.
  destruct (wrapped_peeled unresolved argv cmd argv (S (length argv)) st Hc Hw H) as [st' ->]; [lia|].
  by exists st'.
Qed.

(** ** Lemmas: a cluster of shell flags *)

Definition flag_letters (spec : shellOptionSpec) (cs : string) : bool :=
  all_bytes (fun c => ContainsByte (sh_shortFlags spec) c && negb (Ascii.eqb c "c") &&
                      negb (ContainsByte (sh_shortStops spec) c)) cs.

Lemma shell_cluster_flags spec cs tail :
  flag_letters spec cs = true ->
  shell_cluster spec true (cs +:+ tail) = shell_cluster spec true tail.
Proof.
  induction cs as [|c cs IH]; intros H; [done|]. simpl in H |- *.
  apply andb_true_iff in H as [Hc H]. apply andb_true_iff in Hc as [Hc Hs].
  apply andb_true_iff in Hc as [Hf Hn]. apply negb_true_iff in Hn, Hs.
  rewrite Hn, Hs, Hf. by apply IH.
Qed.

Lemma shellOptions_no_dash shell spec :
  shellOptions shell = Some spec -> ContainsByte (sh_shortFlags spec) "-" = false.
Proof.
  unfold shellOptions. intros H. repeat case_match; by simplify_eq.
Qed.

(** A word of flags is neither a long option nor one of the words that end the
    options. *)
Lemma flag_word_short spec cs t :
  ContainsByte (sh_shortFlags spec) "-" = false -> flag_letters spec cs = true -> cs <> "" ->
  HasPrefix (String "-" (cs +:+ t)) "--" = false /\
  in_list (String "-" (cs +:+ t)) [""; "--"; "-"; "+"] = false.
Proof.
  intros Hdash Hl Hne. destruct cs as [|c cs]; [done|]. unfold flag_letters in Hl. cbn [all_bytes] in Hl.
  breflect. assert (Hc : c <> "-"%char) by congruence.
  split.
  - destruct (HasPrefix _ "--") eqn:E; [exfalso|done]. apply HasPrefix_true in E as [x E].
    by injection E as ->.
  - apply in_list_false. intros Hin. apply list_elem_of_In in Hin.
    destruct Hin as [Hin|[Hin|[Hin|[Hin|[]]]]]; try discriminate Hin.
    injection Hin as E. by symmetry in E.
Qed.

(** An option word of flags, [-eux]. *)
Definition flag_word (spec : shellOptionSpec) (w : string) : Prop :=
  exists cs, w = String "-" cs /\ cs <> "" /\ flag_letters spec cs = true.

(** An option word with a [c] among flags, [-c], [-lc], [-ce]. *)
Definition command_word (spec : shellOptionSpec) (w : string) : Prop :=
  exists cs ds, w = String "-" (cs +:+ String "c" ds) /\
    flag_letters spec cs = true /\ flag_letters spec ds = true.

(** A command string given to a shell is found: for every shell in the
    table, after any number of words of the shell's own flags, a word with a
    [c] among its flags makes the next word the command that is re-tokenized
    and judged. *)
Theorem dash_c_found argv spec flags w source rest :
  shellOptions (head argv) = Some spec ->
  tail argv = flags ++ w :: source :: rest ->
  Forall (flag_word spec) flags -> command_word spec w ->
  shellDashC argv = Ok (Some source).
Proof.
  intros Hs Ht Hf Hw. pose proof (shellOptions_no_dash _ _ Hs) as Hdash.
  unfold shellDashC. rewrite Hs, Ht. clear Hs Ht.
  generalize false as seen. induction Hf as [|f flags Hff Hf IH]; intros seen.
  - destruct Hw as (cs & ds & -> & Hcs & Hds). cbn [app dash_c_loop].
    assert (Hhead : HasPrefix (String "-" (cs +:+ String "c" ds)) "--" = false /\
                    in_list (String "-" (cs +:+ String "c" ds)) [""; "--"; "-"; "+"] = false).
    { destruct cs as [|c cs]; [done|]. by apply (flag_word_short spec). }
    destruct Hhead as [-> ->]. cbn [Ascii.eqb Bool.eqb negb andb].
    rewrite shell_cluster_flags by done.
    replace ds with (ds +:+ "") by apply append_nil_r. simpl.
    rewrite shell_cluster_flags by done. done.
  - destruct Hff as (cs & -> & Hne & Hcs). cbn [app dash_c_loop].
    destruct (flag_word_short spec cs "" Hdash Hcs Hne) as [H1 H2]. rewrite append_nil_r in H1, H2.
    rewrite H1, H2. cbn [Ascii.eqb Bool.eqb negb andb].
    replace cs with (cs +:+ "") by apply append_nil_r.
    rewrite shell_cluster_flags by done. simpl. apply IH.
Qed.

(** ** Witnesses *)

Definition demo_unwrap : unwrap_state :=
  {| u_gitEnvironment := ∅; u_gitEnvironmentUnknown := false; u_Unresolved := false; u_goBin := "";
     u_fsUncertain := false; u_chrooted := false |}.

Lemma strip_sound_witness :
  exists inner, inner `suffix_of` ["nohup"; "rm"; "-rf"; "x"] /\
                judged inner (Runs ["rm"; "-rf"; "x"]).
Proof.
  destruct (strip_sound (fun _ => false) ["nohup"; "rm"; "-rf"; "x"] demo_unwrap) as [_ H].
  apply (H _ demo_unwrap). reflexivity.
Defined.

Lemma wrappers_transparent_witness :
  exists st', strip (fun _ => false)
    ["/usr/bin/env"; "-i"; "X=1"; "timeout"; "-k"; "5"; "10"; "rm"; "-rf"; "x"] demo_unwrap =
    Ok (Runs ["rm"; "-rf"; "x"], st').
Proof.
  apply (wrappers_transparent _ ["rm"; "-rf"; "x"]); [split; reflexivity|by apply in_list_false|].
  apply (wrapped_layer _ ["/usr/bin/env"; "-i"; "X=1"]).
  { apply (layer_env "/usr/bin/env" [["-i"]; ["X=1"]]); [split; reflexivity|reflexivity|].
    constructor; [|constructor; [|constructor]].
    - left. left. exists "-i". split; [reflexivity|left].
    - right. exists "X=1". split; [reflexivity|split; reflexivity]. }
  apply (wrapped_layer _ ["timeout"; "-k"; "5"; "10"]).
  { apply (layer_timeout "timeout" [["-k"; "5"]] "10"); [split; reflexivity|reflexivity| |reflexivity].
    constructor; [|constructor]. right. left. exists "-k", "5". split; [reflexivity|left]. }
  apply wrapped_here.
Defined.

Lemma dash_c_found_witness :
  shellDashC ["/bin/bash"; "-eu"; "-lc"; "rm -rf x"; "name"] = Ok (Some "rm -rf x").
Proof.
  apply (dash_c_found ["/bin/bash"; "-eu"; "-lc"; "rm -rf x"; "name"] bashShellOptions ["-eu"] "-lc"
           "rm -rf x" ["name"]); [reflexivity|reflexivity| |].
  - constructor; [|constructor]. exists "eu". split; [reflexivity|split; [discriminate|reflexivity]].
  - exists "l", "". split; [reflexivity|split; reflexivity].
Defined.
