(* ===== verification/NetRules.v ===== *)
(** * Network egress ([internal/engine/rules_net.go], the parameter binding of
    [internal/engine/rules_powershell.go])

    Where a network tool connects to: the option tables of curl, wget, ssh and
    sftp, the options that redirect a connection (proxies, [--connect-to],
    [--resolve], ProxyJump, [-o HostName]), the hosts named by the operands of
    the other tools, and the rule that denies every host that is neither local
    nor allowlisted.  [url.Parse], [net.ParseIP] and the glob matcher are
    parameters, as are [literalText], which asks the shell parser whether a word
    is literal, and the texts [fmt] makes of an error. *)

From Stdlib Require Import ZArith Lia Bool.
From S2P Require Import Prelude GoStrings GoPath Policy Merge Argv Engine GitRepo Wrappers.

Open Scope string_scope.
Open Scope list_scope.

(** ** Text helpers *)

(** [strings.Trim(s, "[]")] *)
Definition is_bracket (c : ascii) : bool := Ascii.eqb c "[" || Ascii.eqb c "]".

Fixpoint trim_brackets_left (s : string) : string :=
  match s with
  | String c t => if is_bracket c then trim_brackets_left t else s
  | EmptyString => EmptyString
  end.

Definition trim_brackets (s : string) : string :=
  TrimRightByte is_bracket (trim_brackets_left s).

(** [strings.Fields]: the words between runs of white space. *)
Fixpoint fields_loop (fuel : nat) (word s : string) : list string :=
  let flush rest := if word =s? "" then rest else srev word :: rest in
  match fuel with
  | O => flush []
  | S fuel' =>
      match drop_space space_encodings s with
      | Some t => flush (fields_loop fuel' "" t)
      | None =>
          match s with
          | EmptyString => flush []
          | String c t => fields_loop fuel' (String c word) t
          end
      end
  end.

Definition Fields (s : string) : list string := fields_loop (S (String.length s)) "" s.

(** [net.SplitHostPort], its host only; [None] is its error. *)
Definition SplitHostPort (hostport : string) : option string :=
  match cut_last hostport ":" with
  | None => None
  | Some (before, _) =>
      if HasPrefix hostport "[" then
        let '(host, after, found) := Cut (sdrop 1 hostport) "]" in
        if negb found then None
        else
          (* the bracket must be followed by the last colon, and nothing else *)
          if (String.length before =? String.length host + 2)%nat then
            if ContainsByte (sdrop 1 hostport) "[" || ContainsByte after "]" then None
            else Some host
          else None
      else if ContainsByte before ":" then None
      else if ContainsByte hostport "[" || ContainsByte hostport "]" then None
      else Some before
  end.

(** ** Option tables *)

Record networkOptionSpec := {
  n_shortFlags : string;
  n_shortValues : string;
  n_longFlags : list string;
  n_longValues : list string;
  n_longTargetValues : list string;
  n_stopAtFirstOperand : bool;
}.

Definition curlOptions : networkOptionSpec :=
  {| n_shortFlags := "#046aBfFGghIiJklLMnNOPpqRsSVZ"; n_shortValues := "AbcCdDeEFHKmoPQrTtuUwXxYyz";
     n_longFlags :=
       ["--anyauth"; "--basic"; "--compressed"; "--create-dirs"; "--digest"; "--disable"; "--fail";
        "--fail-early"; "--fail-with-body"; "--get"; "--globoff"; "--head"; "--http0.9";
        "--http1.0"; "--http1.1"; "--http2"; "--http2-prior-knowledge"; "--include"; "--insecure";
        "--ipv4"; "--ipv6"; "--location"; "--location-trusted"; "--cert-status"; "--netrc";
        "--netrc-optional"; "--no-buffer"; "--no-keepalive"; "--no-progress-meter"; "--ntlm";
        "--parallel"; "--path-as-is"; "--progress-bar"; "--proxytunnel"; "--remote-header-name";
        "--remote-name"; "--remote-name-all"; "--retry-all-errors"; "--retry-connrefused";
        "--show-error"; "--silent"; "--ssl"; "--ssl-reqd"; "--tcp-fastopen"; "--tcp-nodelay";
        "--tlsv1"; "--trace-time"; "--use-ascii"; "--verbose"; "--version"];
     n_longValues :=
       ["--abstract-unix-socket"; "--alt-svc"; "--aws-sigv4"; "--cacert"; "--capath"; "--cert";
        "--cert-type"; "--ciphers"; "--config"; "--connect-timeout"; "--connect-to"; "--cookie";
        "--cookie-jar"; "--create-file-mode"; "--crlfile"; "--data"; "--data-ascii";
        "--data-binary"; "--data-raw"; "--data-urlencode"; "--delegation"; "--dns-interface";
        "--dns-ipv4-addr"; "--dns-ipv6-addr"; "--dns-servers"; "--dump-header"; "--egd-file";
        "--engine"; "--expect100-timeout"; "--form"; "--form-string"; "--ftp-account";
        "--ftp-alternative-to-user"; "--ftp-method"; "--ftp-port"; "--happy-eyeballs-timeout-ms";
        "--header"; "--hostpubmd5"; "--interface"; "--key"; "--key-type"; "--krb"; "--libcurl";
        "--limit-rate"; "--local-port"; "--max-filesize"; "--max-redirs"; "--max-time";
        "--netrc-file"; "--oauth2-bearer"; "--output"; "--output-dir"; "--pass"; "--pinnedpubkey";
        "--preproxy"; "--proto"; "--proto-default"; "--proto-redir"; "--proxy"; "--proxy-cacert";
        "--proxy-capath"; "--proxy-cert"; "--proxy-cert-type"; "--proxy-ciphers"; "--proxy-crlfile";
        "--proxy-header"; "--proxy-key"; "--proxy-key-type"; "--proxy-pass"; "--proxy-service-name";
        "--proxy-ssl-allow-beast"; "--proxy-tls13-ciphers"; "--proxy-tlsauthtype";
        "--proxy-tlspassword"; "--proxy-tlsuser"; "--proxy-user"; "--pubkey"; "--quote"; "--range";
        "--referer"; "--request"; "--request-target"; "--resolve"; "--retry"; "--retry-delay";
        "--retry-max-time"; "--service-name"; "--socks4"; "--socks4a"; "--socks5";
        "--socks5-hostname"; "--speed-limit"; "--speed-time"; "--stderr"; "--telnet-option";
        "--tftp-blksize"; "--time-cond"; "--tls-max"; "--tls13-ciphers"; "--trace"; "--trace-ascii";
        "--unix-socket"; "--upload-file"; "--user"; "--user-agent"; "--write-out"];
     n_longTargetValues := ["--url"]; n_stopAtFirstOperand := false |}.

Definition wgetOptions : networkOptionSpec :=
  {| n_shortFlags := "bcEFHhLNnpqrSv"; n_shortValues := "aABCDeIiloOPQtTUwX";
     n_longFlags :=
       ["--adjust-extension"; "--auth-no-challenge"; "--background"; "--backup-converted";
        "--continue"; "--convert-links"; "--content-disposition"; "--debug"; "--delete-after";
        "--directories"; "--force-directories"; "--force-html"; "--help"; "--html-extension";
        "--http-keep-alive"; "--ignore-case"; "--ignore-length"; "--inet4-only"; "--inet6-only";
        "--mirror"; "--no-cache"; "--no-check-certificate"; "--no-clobber"; "--no-config";
        "--no-directories"; "--no-glob"; "--no-host-directories"; "--no-http-keep-alive";
        "--no-iri"; "--no-netrc"; "--no-parent"; "--no-proxy"; "--no-remove-listing";
        "--no-use-server-timestamps"; "--page-requisites"; "--passive-ftp"; "--quiet";
        "--random-wait"; "--recursive"; "--relative"; "--server-response"; "--show-progress";
        "--spider"; "--timestamping"; "--trust-server-names"; "--verbose"; "--version"];
     n_longValues :=
       ["--accept"; "--accept-regex"; "--base"; "--bind-address"; "--ca-certificate";
        "--ca-directory"; "--certificate"; "--certificate-type"; "--config"; "--connect-timeout";
        "--cut-dirs"; "--directory-prefix"; "--dns-timeout"; "--domains"; "--exclude-directories";
        "--exclude-domains"; "--ftp-user"; "--header"; "--http-password"; "--http-user";
        "--input-file"; "--level"; "--limit-rate"; "--load-cookies"; "--local-encoding";
        "--max-redirect"; "--no"; "--output-document"; "--output-file"; "--password"; "--post-data";
        "--post-file"; "--private-key"; "--private-key-type"; "--progress";
        "--protocol-directories"; "--proxy-password"; "--proxy-user"; "--quota"; "--read-timeout";
        "--referer"; "--reject"; "--reject-regex"; "--remote-encoding"; "--restrict-file-names";
        "--save-cookies"; "--secure-protocol"; "--timeout"; "--tries"; "--user"; "--user-agent";
        "--wait"; "--waitretry"];
     n_longTargetValues := []; n_stopAtFirstOperand := false |}.

Definition sshOptions : networkOptionSpec :=
  {| n_shortFlags := "46AaCfGgKkMNnqstTVvXxYy"; n_shortValues := "BbcDEeFIiJLlmOoPpQRSWw";
     n_longFlags :=
       [];
     n_longValues :=
       [];
     n_longTargetValues := []; n_stopAtFirstOperand := true |}.

Definition sftpOptions : networkOptionSpec :=
  {| n_shortFlags := "46AaCfNpqrv"; n_shortValues := "BbcDFiJloPRS";
     n_longFlags :=
       [];
     n_longValues :=
       [];
     n_longTargetValues := []; n_stopAtFirstOperand := true |}.

Definition inertSSHSettings : list string :=
  ["addressfamily"; "batchmode"; "bindaddress"; "bindinterface"; "certificatefile"; "checkhostip";
   "ciphers"; "compression"; "connectionattempts"; "connecttimeout"; "controlmaster"; "controlpath";
   "controlpersist"; "enableescapecommandline"; "escapechar"; "exitonforwardfailure";
   "fingerprinthash"; "forwardagent"; "forwardx11"; "forwardx11timeout"; "forwardx11trusted";
   "gatewayports"; "globalknownhostsfile"; "gssapiauthentication"; "gssapidelegatecredentials";
   "hashknownhosts"; "hostkeyalgorithms"; "hostkeyalias"; "identitiesonly"; "identityagent";
   "identityfile"; "ipqos"; "kbdinteractiveauthentication"; "kbdinteractivedevices"; "loglevel";
   "logverbose"; "macs"; "nohostauthenticationforlocalhost"; "numberofpasswordprompts";
   "passwordauthentication"; "pkcs11provider"; "port"; "preferredauthentications"; "proxyusefdpass";
   "pubkeyacceptedalgorithms"; "pubkeyauthentication"; "rekeylimit"; "requesttty";
   "requiredrsasize"; "sendenv"; "serveralivecountmax"; "serveraliveinterval"; "sessiontype";
   "setenv"; "stdinnull"; "streamlocalbindmask"; "streamlocalbindunlink"; "stricthostkeychecking";
   "syslogfacility"; "tcpkeepalive"; "tunnel"; "tunneldevice"; "updatehostkeys"; "user";
   "userknownhostsfile"; "verifyhostkeydns"; "visualhostkey"; "xauthlocation"].

Definition netTools (command : string) : bool :=
  in_list command ["curl"; "wget"; "nc"; "ncat"; "socat"; "scp"; "rsync"; "ftp"; "telnet"; "ssh";
                   "sftp"; "invoke-webrequest"; "iwr"; "invoke-restmethod"; "irm"].

Definition fetchTools (command : string) : bool :=
  in_list command ["curl"; "wget"; "invoke-webrequest"; "iwr"; "invoke-restmethod"; "irm"].

(** ** What the arguments say *)

Record parsedNetworkArgs := {
  a_operands : list string;
  a_connectionHosts : list string;
  a_hostOverrides : list string;
  a_remoteCommands : list string;
  a_localCommands : list string;
  a_permitLocalCommand : bool;
}.

Definition no_network_args : parsedNetworkArgs :=
  {| a_operands := []; a_connectionHosts := []; a_hostOverrides := []; a_remoteCommands := [];
     a_localCommands := []; a_permitLocalCommand := false |}.

Definition add_operands (l : list string) (p : parsedNetworkArgs) : parsedNetworkArgs :=
  {| a_operands := a_operands p ++ l; a_connectionHosts := a_connectionHosts p;
     a_hostOverrides := a_hostOverrides p; a_remoteCommands := a_remoteCommands p;
     a_localCommands := a_localCommands p; a_permitLocalCommand := a_permitLocalCommand p |}.
Definition add_connections (l : list string) (p : parsedNetworkArgs) : parsedNetworkArgs :=
  {| a_operands := a_operands p; a_connectionHosts := a_connectionHosts p ++ l;
     a_hostOverrides := a_hostOverrides p; a_remoteCommands := a_remoteCommands p;
     a_localCommands := a_localCommands p; a_permitLocalCommand := a_permitLocalCommand p |}.
Definition add_override (hst : string) (p : parsedNetworkArgs) : parsedNetworkArgs :=
  {| a_operands := a_operands p; a_connectionHosts := a_connectionHosts p;
     a_hostOverrides := a_hostOverrides p ++ [hst]; a_remoteCommands := a_remoteCommands p;
     a_localCommands := a_localCommands p; a_permitLocalCommand := a_permitLocalCommand p |}.
Definition add_remote (c : string) (p : parsedNetworkArgs) : parsedNetworkArgs :=
  {| a_operands := a_operands p; a_connectionHosts := a_connectionHosts p;
     a_hostOverrides := a_hostOverrides p; a_remoteCommands := a_remoteCommands p ++ [c];
     a_localCommands := a_localCommands p; a_permitLocalCommand := a_permitLocalCommand p |}.
Definition add_local (c : string) (p : parsedNetworkArgs) : parsedNetworkArgs :=
  {| a_operands := a_operands p; a_connectionHosts := a_connectionHosts p;
     a_hostOverrides := a_hostOverrides p; a_remoteCommands := a_remoteCommands p;
     a_localCommands := a_localCommands p ++ [c]; a_permitLocalCommand := a_permitLocalCommand p |}.
Definition permit_local (p : parsedNetworkArgs) : parsedNetworkArgs :=
  {| a_operands := a_operands p; a_connectionHosts := a_connectionHosts p;
     a_hostOverrides := a_hostOverrides p; a_remoteCommands := a_remoteCommands p;
     a_localCommands := a_localCommands p; a_permitLocalCommand := true |}.

Inductive net_error :=
| OptionError (e : wrap_error)
| OpaqueTarget (what : string)
| MalformedTarget (what value : string)
| MissingHost (what : string).

Notation net := (result net_error).

(** [colonFields]: the fields between colons outside brackets, [count] at most,
    each without its brackets; [None] when there are not exactly [count]. *)
Fixpoint colon_scan (s field : string) (brackets room : nat) : list string :=
  match s with
  | EmptyString => [trim_brackets (srev field)]
  | String c t =>
      if Ascii.eqb c "[" then colon_scan t (String c field) (S brackets) room
      else if Ascii.eqb c "]" then colon_scan t (String c field) (Nat.pred brackets) room
      else if Ascii.eqb c ":" then
        match brackets, room with
        | O, S room' => trim_brackets (srev field) :: colon_scan t "" O room'
        | _, _ => colon_scan t (String c field) brackets room
        end
      else colon_scan t (String c field) brackets room
  end.

Definition colonFields (value : string) (count : nat) : option (list string) :=
  let fields := colon_scan value "" 0 (count - 1) in
  if (length fields =? count)%nat then Some fields else None.

Definition field (l : list string) (i : nat) : string := nth i l "".

(** ** PowerShell parameter binding *)

Record psParams := { ps_switches : list string; ps_values : list string; ps_paths : list string }.

Definition webRequestParams : psParams :=
  {| ps_switches :=
       ["usebasicparsing"; "usedefaultcredentials"; "disablekeepalive"; "passthru"; "resume";
        "skipcertificatecheck"; "skiphttperrorcheck"; "nonproxy"; "allowunencryptedauthentication";
        "preserveauthorizationonredirect"; "skipheadervalidation"; "allowinsecureredirect";
        "nopagination"];
     ps_values :=
       ["uri"; "outfile"; "infile"; "method"; "headers"; "body"; "contenttype"; "proxy";
        "proxycredential"; "credential"; "useragent"; "timeoutsec"; "maximumredirection";
        "maximumretrycount"; "retryintervalsec"; "sessionvariable"; "websession";
        "transferencoding"; "certificate"; "certificatethumbprint"; "form"; "authentication";
        "token"; "statuscodevariable"; "responseheadersvariable"; "operationtimeoutseconds"];
     ps_paths := [] |}.

Definition psParameter (arg : string) : string * string * bool :=
  let trimmed := TrimPrefix (TrimPrefix arg "-") "-" in
  if (trimmed =s? arg) || (trimmed =s? "") then ("", "", false)
  else
    let '(hd, rest, found) := Cut trimmed ":" in
    if found then (ToLower hd, rest, true) else (ToLower trimmed, "", false).

Definition psBooleanArgument (value : string) : bool := in_list (ToLower value) ["$true"; "$false"].

Definition psMatches (name : string) (full : list string) : list string :=
  List.filter (fun c => HasPrefix c name) full.

Record psBinding := {
  b_present : list string;
  b_operands : list string;
  b_values : gmap string string;
}.

Definition bind_operand (o : string) (b : psBinding) : psBinding :=
  {| b_present := b_present b; b_operands := b_operands b ++ [o]; b_values := b_values b |}.
Definition bind_present (l : list string) (b : psBinding) : psBinding :=
  {| b_present := b_present b ++ l; b_operands := b_operands b; b_values := b_values b |}.
Definition bind_value (spec : psParams) (name v : string) (b : psBinding) : psBinding :=
  let b := {| b_present := b_present b; b_operands := b_operands b;
              b_values := <[name := v]> (b_values b) |} in
  if in_list name (ps_paths spec) then bind_operand v b else b.

Fixpoint bind_loop (spec : psParams) (words : list string) (b : psBinding) : psBinding :=
  match words with
  | [] => b
  | arg :: rest =>
      let '(name, inline, hasInline) := psParameter arg in
      if name =s? "" then bind_loop spec rest (bind_operand arg b)
      else
        let switches := psMatches name (ps_switches spec) in
        let values := psMatches name (ps_values spec) in
        let b := bind_present (switches ++ values) b in
        match values, switches with
        | [only], [] =>
            if hasInline then bind_loop spec rest (bind_value spec only inline b)
            else match rest with
                 | [] => b
                 | v :: rest' => bind_loop spec rest' (bind_value spec only v b)
                 end
        | _, _ =>
            let known_switch := negb (length switches =? 0)%nat && (length values =? 0)%nat in
            bind_loop spec rest
              (if hasInline && negb (known_switch && psBooleanArgument inline)
               then bind_operand inline b else b)
        end
  end.

Definition bindPS (argv : list string) (spec : psParams) : psBinding :=
  bind_loop spec (tail argv) {| b_present := []; b_operands := []; b_values := ∅ |}.

(** ** Hosts *)

Section Net.

Context (url_Parse : string -> option URL).
(** [net.ParseIP(s).String()] *)
Context (ParseIP : string -> option string).
Context (glob : string -> string -> bool).
Context (literal : string -> bool).
Context (error_text : net_error -> string).

Definition url_host (candidate : string) : option string :=
  match url_Parse candidate with
  | Some u => if Hostname u =s? "" then None else Some (Hostname u)
  | None => None
  end.

Definition hostFromURLCandidate (candidate : string) : net string :=
  match ParseIP (trim_brackets candidate) with
  | Some ip => Ok (ToLower ip)
  | None =>
      match url_host candidate with
      | Some hst => Ok (ToLower (TrimSuffix hst "."))
      | None =>
          if Contains candidate "://" then Err (MalformedTarget "malformed target" candidate)
          else
            match url_host ("//" +:+ candidate) with
            | Some hst => Ok (ToLower (TrimSuffix hst "."))
            | None => Err (MalformedTarget "no resolvable host" candidate)
            end
      end
  end.

(** The hosts of several candidates, in order; the first failure is the error. *)
Fixpoint hosts_of (candidates : list string) : net (list string) :=
  match candidates with
  | [] => Ok []
  | c :: rest =>
      match hostFromURLCandidate c with
      | Err e => Err e
      | Ok hst => let! hs := hosts_of rest in Ok (hst :: hs)
      end
  end.

Definition connect_to (candidates : list string) (p : parsedNetworkArgs) : net parsedNetworkArgs :=
  let! hs := hosts_of candidates in Ok (add_connections hs p).

Definition sshForwardHost (value : string) : net string :=
  match colonFields value 4 with
  | Some fs => hostFromURLCandidate (field fs 2)
  | None =>
      match colonFields value 3 with
      | Some fs => hostFromURLCandidate (field fs 1)
      | None =>
          if ContainsByte value "/" then Ok ""
          else Err (MalformedTarget "SSH forwarding target" value)
      end
  end.

Definition addProxyJumpTargets (p : parsedNetworkArgs) (value : string) : net parsedNetworkArgs :=
  if EqualFold value "none" then Ok p else connect_to (Split value ",") p.

Definition addSSHSettingTarget (p : parsedNetworkArgs) (value : string) : net parsedNetworkArgs :=
  let '(k0, s0, found) := Cut value "=" in
  let split :=
    if found then Some (k0, s0)
    else match Fields value with
         | k :: s :: ss => Some (k, Join (s :: ss) " ")
         | _ => None
         end in
  match split with
  | None => Err (MalformedTarget "malformed SSH setting" value)
  | Some (k, s) =>
      let key := ToLower (TrimSpace k) in
      let setting := TrimSpace s in
      if key =s? "hostname" then
        let! hst := hostFromURLCandidate setting in Ok (add_override hst p)
      else if key =s? "proxyjump" then addProxyJumpTargets p setting
      else if key =s? "remotecommand" then
        if setting =s? "" then Err (OpaqueTarget key) else Ok (add_remote setting p)
      else if key =s? "localcommand" then
        if setting =s? "" then Err (OpaqueTarget key)
        else if negb (EqualFold setting "none") then Ok (add_local setting p) else Ok p
      else if key =s? "permitlocalcommand" then
        if EqualFold setting "yes" then Ok (permit_local p)
        else if EqualFold setting "no" then Ok p
        else Err (OpaqueTarget key)
      else if in_list key ["proxycommand"; "canonicaldomains"; "canonicalizehostname"; "include";
                           "localforward"; "remoteforward"; "dynamicforward"; "permitremoteopen"]
      then Err (OpaqueTarget key)
      else if in_list key inertSSHSettings then Ok p
      else Err (OpaqueTarget key)
  end.

Definition add_curl_target (p : parsedNetworkArgs) (option value : string) : net parsedNetworkArgs :=
  if in_list option ["--config"; "-K"; "--alt-svc"] then Err (OpaqueTarget option)
  else if in_list option ["--proxy"; "--preproxy"; "--socks4"; "--socks4a"; "--socks5";
                          "--socks5-hostname"; "-x"] then connect_to [value] p
  else if option =s? "--connect-to" then
    match colonFields value 4 with
    | None => Err (MalformedTarget option value)
    | Some fs => if field fs 2 <>s? "" then connect_to [field fs 2] p else Ok p
    end
  else if option =s? "--resolve" then
    match colonFields value 3 with
    | None => Err (MalformedTarget option value)
    | Some fs =>
        if field fs 2 =s? "" then Err (MalformedTarget option value)
        else connect_to (Split (field fs 2) ",") p
    end
  else if option =s? "--dns-servers" then connect_to (Split value ",") p
  else Ok p.

Definition add_ssh_target (p : parsedNetworkArgs) (tool option value : string)
  : net parsedNetworkArgs :=
  if option =s? "-F" then Err (OpaqueTarget option)
  else if option =s? "-S" then if tool =s? "sftp" then Err (OpaqueTarget option) else Ok p
  else if option =s? "-J" then addProxyJumpTargets p value
  else if option =s? "-o" then addSSHSettingTarget p value
  else if option =s? "-W" then connect_to [value] p
  else if (option =s? "-L") || (option =s? "-R") then
    if tool <>s? "ssh" then Ok p
    else
      let! hst := sshForwardHost value in
      if hst <>s? "" then Ok (add_connections [hst] p) else Ok p
  else if option =s? "-D" then Err (OpaqueTarget option)
  else Ok p.

Definition addNetworkOptionTarget (p : parsedNetworkArgs) (tool option value : string)
  : net parsedNetworkArgs :=
  if tool =s? "curl" then add_curl_target p option value
  else if tool =s? "wget" then
    if in_list option ["--config"; "--execute"; "-e"] then Err (OpaqueTarget option) else Ok p
  else if (tool <>s? "ssh") && (tool <>s? "sftp") then Ok p
  else add_ssh_target p tool option value.

(** A cluster of short options: flags only, an option with its value in the
    word or in the next one, or an unknown option. *)
Inductive net_cluster := NFlags | NValue (option value : string) | NNext (option : string) | NUnknown (option : string).

Fixpoint short_options (spec : networkOptionSpec) (cs : string) : net_cluster :=
  match cs with
  | EmptyString => NFlags
  | String c t =>
      if ContainsByte (n_shortFlags spec) c then short_options spec t
      else if ContainsByte (n_shortValues spec) c then
        if t =s? "" then NNext (short_flag c) else NValue (short_flag c) t
      else NUnknown (short_flag c)
  end.

Definition takes_value (spec : networkOptionSpec) (name : string) : bool :=
  in_list name (n_longValues spec) || in_list name (n_longTargetValues spec).

(** A long option whose value, if it takes one, is at hand. *)
Definition long_option (tool : string) (spec : networkOptionSpec) (arg name value : string)
    (attached : bool) (p : parsedNetworkArgs) : net parsedNetworkArgs :=
  if in_list name (n_longFlags spec) && negb attached then Ok p
  else if takes_value spec name then
    let! p := addNetworkOptionTarget p tool name value in
    Ok (if in_list name (n_longTargetValues spec) then add_operands [value] p else p)
  else Err (OptionError (UnknownOpt tool arg)).

Fixpoint net_loop (tool : string) (spec : networkOptionSpec) (words : list string)
    (p : parsedNetworkArgs) : net parsedNetworkArgs :=
  match words with
  | [] => Ok p
  | arg :: rest =>
      if arg =s? "--" then Ok (add_operands rest p)
      else if (arg =s? "-") || negb (HasPrefix arg "-") then
        if n_stopAtFirstOperand spec then Ok (add_operands (arg :: rest) p)
        else net_loop tool spec rest (add_operands [arg] p)
      else if HasPrefix arg "--" then
        let '(name, value, attached) := Cut arg "=" in
        if negb attached && takes_value spec name then
          match rest with
          | [] => Err (OptionError (NeedsValue tool arg))
          | v :: rest' =>
              match long_option tool spec arg name v attached p with
              | Err e => Err e
              | Ok p => net_loop tool spec rest' p
              end
          end
        else
          match long_option tool spec arg name value attached p with
          | Err e => Err e
          | Ok p => net_loop tool spec rest p
          end
      else
        match short_options spec (sdrop 1 arg) with
        | NFlags => net_loop tool spec rest p
        | NUnknown o => Err (OptionError (UnknownOpt tool o))
        | NValue o v =>
            match addNetworkOptionTarget p tool o v with
            | Err e => Err e
            | Ok p => net_loop tool spec rest p
            end
        | NNext o =>
            match rest with
            | [] => Err (OptionError (NeedsValue tool o))
            | v :: rest' =>
                match addNetworkOptionTarget p tool o v with
                | Err e => Err e
                | Ok p => net_loop tool spec rest' p
                end
            end
        end
  end.

Definition parseNetworkArgs (argv : list string) (tool : string) (spec : networkOptionSpec)
  : net parsedNetworkArgs :=
  net_loop tool spec (tail argv) no_network_args.

Definition sshCommandSources (argv : list string) : net (list string) :=
  if head argv <>s? "ssh" then Ok []
  else
    let! p := parseNetworkArgs argv "ssh" sshOptions in
    Ok (a_remoteCommands p ++ (if a_permitLocalCommand p then a_localCommands p else []) ++
        match a_operands p with
        | _ :: w :: ws => [Join (w :: ws) " "]
        | _ => []
        end).

(** ** The hosts of a command *)

Definition psWebRequestHosts (argv : list string) : net (list string) :=
  let binding := bindPS argv webRequestParams in
  let targets := b_operands binding ++
                 match b_values binding !! "uri" with Some u => [u] | None => [] end in
  match targets with
  | [] => Err (MissingHost "missing host")
  | _ => hosts_of targets
  end.

Definition stripPort (hostport : string) : string :=
  match SplitHostPort hostport with
  | Some host => trim_brackets host
  | None =>
      match cut_last hostport ":" with
      | Some (before, _) => if ContainsByte before ":" then trim_brackets hostport else before
      | None => trim_brackets hostport
      end
  end.

(** The text before the first [::]. *)
Fixpoint before_double (s : string) : option string :=
  match s with
  | EmptyString => None
  | String c t =>
      if HasPrefix s "::" then Some ""
      else match before_double t with Some b => Some (String c b) | None => None end
  end.

Definition copy_host_ok (hst : string) : bool :=
  (1 <? String.length hst)%nat && negb (ContainsByte hst "/").

(** The host a copy operand names, if it names one. *)
Definition copy_host (a : string) : option string :=
  let '(_, after_at, has_at) := Cut a "@" in
  if has_at then
    let '(hst, _, has_colon) := Cut after_at ":" in
    if has_colon then Some hst else None
  else
    let single :=
      let '(hst, _, has_colon) := Cut a ":" in
      if has_colon && copy_host_ok hst then Some hst else None in
    match before_double a with
    | Some hst => if copy_host_ok hst then Some hst else single
    | None => single
    end.

Fixpoint first_copy_host (operands : list string) : option string :=
  match operands with
  | [] => None
  | a :: rest => match copy_host a with Some hst => Some hst | None => first_copy_host rest end
  end.

Definition first_operand_host (argv : list string) : net (list string) :=
  match nonFlagArgs argv with
  | a :: _ => Ok [stripPort a]
  | [] => Err (MissingHost "missing or unrecognized host")
  end.

(** The hosts; [None] when the command has no network target. *)
Definition extractHosts (argv : list string) (tool : string) : net (option (list string)) :=
  if in_list tool ["invoke-webrequest"; "invoke-restmethod"; "iwr"; "irm"] then
    let! hs := psWebRequestHosts argv in Ok (Some hs)
  else if in_list tool ["curl"; "wget"] then
    let! p := parseNetworkArgs argv tool (if tool =s? "wget" then wgetOptions else curlOptions) in
    let! hs := hosts_of (a_operands p) in
    match a_connectionHosts p ++ hs with
    | [] => Err (MissingHost "missing host")
    | hosts => Ok (Some hosts)
    end
  else if in_list tool ["scp"; "rsync"] then
    match first_copy_host (nonFlagArgs argv) with
    | Some hst => Ok (Some [hst])
    | None => Ok None
    end
  else if in_list tool ["ssh"; "sftp"] then
    let! p := parseNetworkArgs argv tool (if tool =s? "sftp" then sftpOptions else sshOptions) in
    match a_operands p with
    | [] => Err (MissingHost "missing host")
    | target :: _ =>
        match a_hostOverrides p with
        | [] => let! hst := hostFromURLCandidate target in Ok (Some (a_connectionHosts p ++ [hst]))
        | overrides => Ok (Some (a_connectionHosts p ++ overrides))
        end
    end
  else if in_list tool ["nc"; "ncat"; "telnet"; "ftp"] then
    let! hs := first_operand_host argv in Ok (Some hs)
  else Err (MissingHost "missing or unrecognized host").

(** ** The rule *)

Definition isLocalHost (hst : string) : bool :=
  in_list hst ["localhost"; "127.0.0.1"; "::1"; "0.0.0.0"].

Definition hostAllowed (hst : string) (allowlist : list string) : bool :=
  existsb (fun a => (hst =s? a) || glob a hst) allowlist.

(** The loop over the hosts skips this one. *)
Definition host_passes (pol : Policy) (hst : string) : bool :=
  negb (literal hst) || isLocalHost hst || hostAllowed hst (s_EgressAllowlist (p_Slots pol)).

Definition checkEgress (argv : list string) (pol : Policy) : option Verdict :=
  let command := head argv in
  if negb (netTools command) then None
  else
    match extractHosts argv command with
    | Err e =>
        deny "P6.egress" ("network target could not be resolved safely: " +:+ error_text e)
    | Ok None => None
    | Ok (Some hosts) =>
        match List.find (fun hst => negb (host_passes pol hst)) hosts with
        | None => None
        | Some hst =>
            deny "P6.egress"
              ("network access to a non-allowlisted host: " +:+ hst +:+
               (if fetchTools command && ValidateWebHost hst
                then "; grant: " +:+ WebHostGrantCommand [hst] else ""))
        end
    end.

(** ** Lemmas: what was read stays *)

(** [p'] has every operand, connection and override of [p]. *)
Definition extends (p p' : parsedNetworkArgs) : Prop :=
  a_operands p ⊆ a_operands p' /\ a_connectionHosts p ⊆ a_connectionHosts p' /\
  a_hostOverrides p ⊆ a_hostOverrides p'.

Lemma extends_refl p : extends p p.
Proof. done. Qed.

Lemma extends_trans p q r : extends p q -> extends q r -> extends p r.
Proof. intros (? & ? & ?) (? & ? & ?). repeat split; by etrans. Qed.

Lemma subseteq_app_l (l m : list string) : l ⊆ l ++ m.
Proof. intros x Hx. apply elem_of_app. by left. Qed.

Lemma extends_operands l p : extends p (add_operands l p).
Proof. repeat split; [apply subseteq_app_l|done..]. Qed.

Lemma extends_connections l p : extends p (add_connections l p).
Proof. repeat split; [done|apply subseteq_app_l|done]. Qed.

Lemma extends_override l p : extends p (add_override l p).
Proof. repeat split; [done|done|apply subseteq_app_l]. Qed.

#[local] Hint Resolve extends_refl extends_operands extends_connections extends_override : guard.

(** Running a step that succeeds extends what was read. *)
Definition step_extends (p : parsedNetworkArgs) (r : net parsedNetworkArgs) : Prop :=
  match r with Ok p' => extends p p' | Err _ => True end.

Lemma connect_to_extends l p : step_extends p (connect_to l p).
Proof. unfold connect_to. destruct (hosts_of l); simpl; auto with guard. Qed.

Lemma proxy_jump_extends p v : step_extends p (addProxyJumpTargets p v).
Proof. unfold addProxyJumpTargets. destruct (EqualFold v "none"); [done|apply connect_to_extends]. Qed.

#[local] Hint Resolve connect_to_extends proxy_jump_extends : guard.

Lemma ssh_setting_extends p v : step_extends p (addSSHSettingTarget p v).
Proof.
  unfold addSSHSettingTarget. destruct (Cut v "=") as [[k0 s0] found].
  destruct (if found then _ else _) as [[k s]|]; [|done].
  destruct (ToLower (TrimSpace k) =s? "hostname").
  { destruct (hostFromURLCandidate (TrimSpace s)); simpl; auto with guard. }
  destruct (ToLower (TrimSpace k) =s? "proxyjump"); [apply proxy_jump_extends|].
  destruct (ToLower (TrimSpace k) =s? "remotecommand"); [by destruct (TrimSpace s =s? "")|].
  destruct (ToLower (TrimSpace k) =s? "localcommand").
  { destruct (TrimSpace s =s? ""); [done|]. by destruct (negb (EqualFold (TrimSpace s) "none")). }
  destruct (ToLower (TrimSpace k) =s? "permitlocalcommand").
  { destruct (EqualFold (TrimSpace s) "yes"); [done|]. by destruct (EqualFold (TrimSpace s) "no"). }
  destruct (in_list _ _); [done|]. by destruct (in_list _ _).
Qed.

Lemma option_target_extends p tool o v : step_extends p (addNetworkOptionTarget p tool o v).
Proof.
  unfold addNetworkOptionTarget. destruct (tool =s? "curl").
  - unfold add_curl_target. destruct (in_list o _); [done|].
    destruct (in_list o _); [apply connect_to_extends|].
    destruct (o =s? "--connect-to").
    { destruct (colonFields v 4) as [fs|]; [|done].
      destruct (field fs 2 <>s? ""); [apply connect_to_extends|done]. }
    destruct (o =s? "--resolve").
    { destruct (colonFields v 3) as [fs|]; [|done].
      destruct (field fs 2 =s? ""); [done|apply connect_to_extends]. }
    destruct (o =s? "--dns-servers"); [apply connect_to_extends|done].
  - destruct (tool =s? "wget"); [by destruct (in_list o _)|].
    destruct ((tool <>s? "ssh") && _); [done|]. unfold add_ssh_target.
    destruct (o =s? "-F"); [done|]. destruct (o =s? "-S"); [by destruct (tool =s? "sftp")|].
    destruct (o =s? "-J"); [apply proxy_jump_extends|].
    destruct (o =s? "-o"); [apply ssh_setting_extends|].
    destruct (o =s? "-W"); [apply connect_to_extends|].
    destruct ((o =s? "-L") || _).
    { destruct (tool <>s? "ssh"); [done|]. destruct (sshForwardHost v) as [hst|]; [|done].
      simpl. destruct (hst <>s? ""); simpl; auto with guard. }
    by destruct (o =s? "-D").
Qed.

Lemma long_option_extends tool spec arg name v attached p :
  step_extends p (long_option tool spec arg name v attached p).
Proof.
  unfold long_option. destruct (in_list name (n_longFlags spec) && _); [done|].
  destruct (takes_value spec name); [|done].
  pose proof (option_target_extends p tool name v) as H.
  destruct (addNetworkOptionTarget p tool name v) as [q|]; [|done]. simpl in *.
  destruct (in_list name (n_longTargetValues spec)); [|done].
  eapply extends_trans; [exact H|]. auto with guard.
Qed.

Lemma step_trans p q r : extends p q -> step_extends q r -> step_extends p r.
Proof. destruct r; [|done]. intros. by eapply extends_trans. Qed.

(** ** Positions in which options are still read *)

(** The word takes the next one as its value. *)
Definition takes_next_word (spec : networkOptionSpec) (a : string) : bool :=
  if HasPrefix a "--" then
    let '(name, _, attached) := Cut a "=" in negb attached && takes_value spec name
  else match short_options spec (sdrop 1 a) with NNext _ => true | _ => false end.

Definition net_operand (a : string) : bool := (a =s? "-") || negb (HasPrefix a "-").

Inductive net_position (spec : networkOptionSpec) : list string -> Prop :=
| np_nil : net_position spec []
| np_operand a pre : n_stopAtFirstOperand spec = false -> net_operand a = true ->
    net_position spec pre -> net_position spec (a :: pre)
| np_option a pre : a <> "--" -> net_operand a = false -> takes_next_word spec a = false ->
    net_position spec pre -> net_position spec (a :: pre)
| np_value a v pre : a <> "--" -> net_operand a = false -> takes_next_word spec a = true ->
    net_position spec pre -> net_position spec (a :: v :: pre).

(** One option word, with the word after it: the result, or an error. *)
Definition option_step (tool : string) (spec : networkOptionSpec) (a v : string)
    (p : parsedNetworkArgs) : net parsedNetworkArgs :=
  if HasPrefix a "--" then
    let '(name, value, attached) := Cut a "=" in
    long_option tool spec a name (if takes_next_word spec a then v else value) attached p
  else
    match short_options spec (sdrop 1 a) with
    | NFlags => Ok p
    | NUnknown o => Err (OptionError (UnknownOpt tool o))
    | NValue o value => addNetworkOptionTarget p tool o value
    | NNext o => addNetworkOptionTarget p tool o v
    end.

Lemma option_step_extends tool spec a v p : step_extends p (option_step tool spec a v p).
Proof.
  unfold option_step. destruct (HasPrefix a "--").
  - destruct (Cut a "=") as [[name value] attached]. apply long_option_extends.
  - destruct (short_options spec (sdrop 1 a)); [done|apply option_target_extends..|done].
Qed.

Lemma net_loop_option tool spec a rest p :
  a <> "--" -> net_operand a = false -> takes_next_word spec a = false ->
  net_loop tool spec (a :: rest) p =
  match option_step tool spec a "" p with Ok p' => net_loop tool spec rest p' | Err e => Err e end.
Proof.
  intros Hd Ho Ht. apply String.eqb_neq in Hd. cbn [net_loop]. unfold net_operand in Ho.
  rewrite Hd, Ho. unfold option_step. rewrite Ht. unfold takes_next_word in Ht.
  destruct (HasPrefix a "--").
  - destruct (Cut a "=") as [[name value] attached]. by rewrite Ht.
  - by destruct (short_options spec (sdrop 1 a)).
Qed.

Lemma net_loop_value tool spec a v rest p :
  a <> "--" -> net_operand a = false -> takes_next_word spec a = true ->
  net_loop tool spec (a :: v :: rest) p =
  match option_step tool spec a v p with Ok p' => net_loop tool spec rest p' | Err e => Err e end.
Proof.
  intros Hd Ho Ht. apply String.eqb_neq in Hd. cbn [net_loop]. unfold net_operand in Ho.
  rewrite Hd, Ho. unfold option_step. rewrite Ht. unfold takes_next_word in Ht.
  destruct (HasPrefix a "--").
  - destruct (Cut a "=") as [[name value] attached]. by rewrite Ht.
  - by destruct (short_options spec (sdrop 1 a)).
Qed.

(** A word after which nothing is left to read, or which takes the rest. *)
Lemma net_loop_extends tool spec words p : step_extends p (net_loop tool spec words p).
Proof.
  revert p. induction words as [|a rest IH IH2] using list_ind_two; intros p; [done|].
  destruct (decide (a = "--")) as [->|Hd]; [apply extends_operands|].
  destruct (net_operand a) eqn:Eo.
  { apply String.eqb_neq in Hd. cbn [net_loop]. rewrite Hd. unfold net_operand in Eo. rewrite Eo.
    destruct (n_stopAtFirstOperand spec); [apply extends_operands|].
    eapply step_trans; [apply extends_operands|apply IH]. }
  destruct (takes_next_word spec a) eqn:Et.
  - destruct rest as [|v rest].
    + apply String.eqb_neq in Hd. cbn [net_loop]. rewrite Hd. unfold net_operand in Eo. rewrite Eo.
      unfold takes_next_word in Et. destruct (HasPrefix a "--").
      * destruct (Cut a "=") as [[name value] attached]. by rewrite Et.
      * by destruct (short_options spec (sdrop 1 a)).
    + rewrite net_loop_value by done. pose proof (option_step_extends tool spec a v p) as H.
      destruct (option_step tool spec a v p) as [q|]; [|done].
      eapply step_trans; [exact H|]. by eapply IH2.
  - rewrite net_loop_option by done. pose proof (option_step_extends tool spec a "" p) as H.
    destruct (option_step tool spec a "" p) as [q|]; [|done].
    eapply step_trans; [exact H|apply IH].
Qed.

(** The words before a position are read into a state, or are refused. *)
Lemma net_loop_app tool spec pre rest p :
  net_position spec pre ->
  (exists e, net_loop tool spec (pre ++ rest) p = Err e) \/
  (exists p', net_loop tool spec (pre ++ rest) p = net_loop tool spec rest p' /\ extends p p').
Proof.
  intros H. revert p. induction H as [|a pre Hs Ho H IH|a pre Hd Ho Ht H IH|a v pre Hd Ho Ht H IH];
    intros p; cbn [app].
  - right. by exists p.
  - assert (E : net_loop tool spec (a :: pre ++ rest) p =
                net_loop tool spec (pre ++ rest) (add_operands [a] p)).
    { cbn [net_loop]. unfold net_operand in Ho. destruct (a =s? "--") eqn:E; [breflect; by subst|].
      by rewrite Ho, Hs. }
    rewrite E. destruct (IH (add_operands [a] p)) as [Herr|(p' & Hp & Hx)]; [by left|right].
    exists p'. split; [done|]. eapply extends_trans; [apply extends_operands|exact Hx].
  - rewrite net_loop_option by done. pose proof (option_step_extends tool spec a "" p) as Hs.
    destruct (option_step tool spec a "" p) as [q|e]; [|left; by exists e].
    destruct (IH q) as [Herr|(p' & Hp & Hx)]; [by left|right].
    exists p'. split; [done|]. by eapply extends_trans.
  - rewrite net_loop_value by done. pose proof (option_step_extends tool spec a v p) as Hs.
    destruct (option_step tool spec a v p) as [q|e]; [|left; by exists e].
    destruct (IH q) as [Herr|(p' & Hp & Hx)]; [by left|right].
    exists p'. split; [done|]. by eapply extends_trans.
Qed.

(** ** The hosts that are checked *)

Lemma hosts_of_all l hs c :
  hosts_of l = Ok hs -> c ∈ l -> exists hst, hostFromURLCandidate c = Ok hst /\ hst ∈ hs.
Proof.
  revert hs. induction l as [|a l IH]; intros hs H Hc; [by apply elem_of_nil in Hc|]. simpl in H.
  destruct (hostFromURLCandidate a) as [hst|] eqn:Ea; [|done].
  destruct (hosts_of l) as [hs'|]; [|done]. injection H as <-.
  apply elem_of_cons in Hc as [->|Hc]; [exists hst; split; [done|left]|].
  destruct (IH _ eq_refl Hc) as (x & ? & ?). exists x. split; [done|by right].
Qed.

Definition passing (pol : Policy) (candidate : string) : Prop :=
  exists hst, hostFromURLCandidate candidate = Ok hst /\ host_passes pol hst = true.

Lemma egress_silent argv pol :
  netTools (head argv) = true -> checkEgress argv pol = None ->
  exists r, extractHosts argv (head argv) = Ok r /\
    match r with Some hosts => Forall (fun x => host_passes pol x = true) hosts | None => True end.
Proof.
  intros Ht H. unfold checkEgress in H. rewrite Ht in H. cbn [negb] in H.
  destruct (extractHosts argv (head argv)) as [[hosts|]|]; [|by exists None|done].
  destruct (List.find _ hosts) eqn:E; [done|]. exists (Some hosts). split; [done|].
  apply Forall_forall. intros x Hx. apply list_elem_of_In in Hx.
  pose proof (find_none _ _ E _ Hx) as Hp. cbv beta in Hp. by apply negb_false_iff in Hp.
Qed.

Definition fetch_spec (tool : string) : networkOptionSpec :=
  if tool =s? "wget" then wgetOptions else curlOptions.

(** A silent curl or wget was parsed, and every host it connects to passes. *)
Lemma fetch_silent argv pol :
  head argv ∈ ["curl"; "wget"] -> checkEgress argv pol = None ->
  exists p, parseNetworkArgs argv (head argv) (fetch_spec (head argv)) = Ok p /\
    Forall (fun x => host_passes pol x = true) (a_connectionHosts p) /\
    Forall (passing pol) (a_operands p).
Proof.
  intros Hh H. destruct (egress_silent _ _ ltac:(apply list_elem_of_In in Hh;
    destruct Hh as [<-|[<-|[]]]; reflexivity) H) as (r & Hr & Hall).
  unfold extractHosts in Hr.
  assert (in_list (head argv) ["invoke-webrequest"; "invoke-restmethod"; "iwr"; "irm"] = false) as E1
    by (apply list_elem_of_In in Hh; destruct Hh as [<-|[<-|[]]]; reflexivity).
  apply in_list_true in Hh as E2. rewrite E1, E2 in Hr. fold (fetch_spec (head argv)) in Hr.
  destruct (parseNetworkArgs argv (head argv) (fetch_spec (head argv))) as [p|]; [|done].
  simpl in Hr. destruct (hosts_of (a_operands p)) as [hs|] eqn:Eh; [|done]. simpl in Hr.
  assert (Hboth : Forall (fun x => host_passes pol x = true) (a_connectionHosts p ++ hs)).
  { destruct (a_connectionHosts p ++ hs) as [|x l]; [done|]. by injection Hr as <-. }
  apply Forall_app in Hboth as [Hc Hs]. exists p. split; [done|]. split; [done|].
  apply Forall_forall. intros c Hin. destruct (hosts_of_all _ _ _ Eh Hin) as (hst & He & Hi).
  exists hst. split; [done|]. rewrite Forall_forall in Hs. by apply Hs.
Qed.

(** The state read up to a position, in a parse that succeeded. *)
Lemma parse_at argv tool spec pre rest p :
  tail argv = pre ++ rest -> net_position spec pre ->
  parseNetworkArgs argv tool spec = Ok p ->
  exists p0, net_loop tool spec rest p0 = Ok p.
Proof.
  intros Ht Hp H. unfold parseNetworkArgs in H. rewrite Ht in H.
  destruct (net_loop_app tool spec pre rest no_network_args Hp) as [[e He]|(p0 & He & _)];
    [by rewrite He in H|]. exists p0. by rewrite He in H.
Qed.

Lemma operand_read tool spec w post p0 p :
  net_operand w = true -> net_loop tool spec (w :: post) p0 = Ok p -> w ∈ a_operands p.
Proof.
  intros Ho H. cbn [net_loop] in H. destruct (w =s? "--") eqn:E; [breflect; by subst|].
  unfold net_operand in Ho. rewrite Ho in H. destruct (n_stopAtFirstOperand spec).
  - injection H as <-. simpl. apply elem_of_app. right. left.
  - pose proof (net_loop_extends tool spec post (add_operands [w] p0)) as Hx. rewrite H in Hx.
    apply Hx. simpl. apply elem_of_app. right. left.
Qed.

Lemma value_read tool spec o v post p0 p :
  o <> "--" -> net_operand o = false -> takes_next_word spec o = true ->
  net_loop tool spec (o :: v :: post) p0 = Ok p ->
  exists q, option_step tool spec o v p0 = Ok q /\ extends q p.
Proof.
  intros Hd Ho Ht H. rewrite net_loop_value in H by done.
  destruct (option_step tool spec o v p0) as [q|]; [|done]. exists q. split; [done|].
  pose proof (net_loop_extends tool spec post q) as Hx. by rewrite H in Hx.
Qed.

Lemma connect_to_hosts l p q c :
  connect_to l p = Ok q -> c ∈ l -> exists hst, hostFromURLCandidate c = Ok hst /\ hst ∈ a_connectionHosts q.
Proof.
  unfold connect_to. destruct (hosts_of l) as [hs|] eqn:E; [|done]. intros H Hc. simpl in H.
  injection H as <-. destruct (hosts_of_all _ _ _ E Hc) as (hst & He & Hi). exists hst.
  split; [done|]. simpl. apply elem_of_app. by right.
Qed.

Definition proxy_options : list string :=
  ["--proxy"; "--preproxy"; "--socks4"; "--socks4a"; "--socks5"; "--socks5-hostname"; "-x"].

(** A curl or wget that passes without a verdict connects only where it
    may: every operand, wherever it stands among options and their values,
    names a host that is local, allowlisted or left to the rule on unresolved
    words, and so does the value of every proxy option of curl.  An option the
    tables do not know, or a target that cannot be read, is denied. *)
Theorem fetch_destinations_checked argv pol pre post :
  head argv ∈ ["curl"; "wget"] -> checkEgress argv pol = None ->
  net_position (fetch_spec (head argv)) pre ->
  (forall w, tail argv = pre ++ w :: post -> net_operand w = true -> passing pol w) /\
  (forall o v, tail argv = pre ++ o :: v :: post -> head argv = "curl" -> o ∈ proxy_options ->
     passing pol v).
Proof.
  intros Hh H Hp. destruct (fetch_silent _ _ Hh H) as (p & Hparse & Hc & Ho).
  rewrite Forall_forall in Hc, Ho. split.
  - intros w Ht Hw. destruct (parse_at _ _ _ _ _ _ Ht Hp Hparse) as [p0 Hl].
    apply Ho. by eapply operand_read.
  - intros o v Ht Hcurl Hin. destruct (parse_at _ _ _ _ _ _ Ht Hp Hparse) as [p0 Hl].
    rewrite Hcurl in Hl. change (fetch_spec "curl") with curlOptions in Hl.
    assert (Hopt : o <> "--" /\ net_operand o = false /\ takes_next_word curlOptions o = true /\
                   option_step "curl" curlOptions o v p0 = connect_to [v] p0).
    { unfold proxy_options in Hin. apply list_elem_of_In in Hin.
      destruct Hin as [<-|[<-|[<-|[<-|[<-|[<-|[<-|[]]]]]]]];
        (split; [discriminate|split; [reflexivity|split; [reflexivity|]]]);
        unfold option_step, long_option, addNetworkOptionTarget, add_curl_target, connect_to;
        simpl; by destruct (hostFromURLCandidate v). }
    destruct Hopt as (Hd & Hno & Htk & Hst).
    destruct (value_read _ _ _ _ _ _ _ Hd Hno Htk Hl) as (q & Hq & Hx). rewrite Hst in Hq.
    destruct (connect_to_hosts _ _ _ v Hq) as (hst & He & Hi); [left|]. exists hst.
    split; [done|]. apply Hc. by apply Hx.
Qed.

Definition ssh_spec (tool : string) : networkOptionSpec :=
  if tool =s? "sftp" then sftpOptions else sshOptions.

Lemma ssh_silent argv pol :
  head argv ∈ ["ssh"; "sftp"] -> checkEgress argv pol = None ->
  exists p target more, parseNetworkArgs argv (head argv) (ssh_spec (head argv)) = Ok p /\
    a_operands p = target :: more /\
    Forall (fun x => host_passes pol x = true) (a_connectionHosts p ++ a_hostOverrides p) /\
    (a_hostOverrides p = [] -> passing pol target).
Proof.
  intros Hh H. destruct (egress_silent _ _ ltac:(apply list_elem_of_In in Hh;
    destruct Hh as [<-|[<-|[]]]; reflexivity) H) as (r & Hr & Hall).
  unfold extractHosts in Hr.
  assert (in_list (head argv) ["invoke-webrequest"; "invoke-restmethod"; "iwr"; "irm"] = false /\
          in_list (head argv) ["curl"; "wget"] = false /\
          in_list (head argv) ["scp"; "rsync"] = false) as (E1 & E2 & E3)
    by (apply list_elem_of_In in Hh; destruct Hh as [<-|[<-|[]]]; done).
  apply in_list_true in Hh as E4. rewrite E1, E2, E3, E4 in Hr. fold (ssh_spec (head argv)) in Hr.
  destruct (parseNetworkArgs argv (head argv) (ssh_spec (head argv))) as [p|]; [|done].
  simpl in Hr. destruct (a_operands p) as [|target more] eqn:Eo; [done|].
  exists p, target, more. split; [done|]. split; [done|].
  destruct (a_hostOverrides p) as [|o os] eqn:Ev.
  - destruct (hostFromURLCandidate target) as [hst|] eqn:Et; [|done]. simpl in Hr.
    injection Hr as <-. apply Forall_app in Hall as [Hc Hs]. split.
    + by rewrite app_nil_r.
    + intros _. exists hst. split; [done|]. by apply Forall_cons in Hs as [].
  - injection Hr as <-. split; [done|]. done.
Qed.

(** No option of these tools adds an operand. *)
Definition same_operands (p : parsedNetworkArgs) (r : net parsedNetworkArgs) : Prop :=
  match r with Ok q => a_operands q = a_operands p | Err _ => True end.

Lemma connect_to_operands l p : same_operands p (connect_to l p).
Proof. unfold connect_to. by destruct (hosts_of l). Qed.

Lemma proxy_jump_operands p v : same_operands p (addProxyJumpTargets p v).
Proof. unfold addProxyJumpTargets. destruct (EqualFold v "none"); [done|apply connect_to_operands]. Qed.

Lemma ssh_setting_operands p v : same_operands p (addSSHSettingTarget p v).
Proof.
  unfold addSSHSettingTarget. destruct (Cut v "=") as [[k0 s0] found].
  destruct (if found then _ else _) as [[k s]|]; [|done].
  destruct (ToLower (TrimSpace k) =s? "hostname"); [by destruct (hostFromURLCandidate (TrimSpace s))|].
  destruct (ToLower (TrimSpace k) =s? "proxyjump"); [apply proxy_jump_operands|].
  destruct (ToLower (TrimSpace k) =s? "remotecommand"); [by destruct (TrimSpace s =s? "")|].
  destruct (ToLower (TrimSpace k) =s? "localcommand").
  { destruct (TrimSpace s =s? ""); [done|]. by destruct (negb (EqualFold (TrimSpace s) "none")). }
  destruct (ToLower (TrimSpace k) =s? "permitlocalcommand").
  { destruct (EqualFold (TrimSpace s) "yes"); [done|]. by destruct (EqualFold (TrimSpace s) "no"). }
  destruct (in_list _ _); [done|]. by destruct (in_list _ _).
Qed.

Lemma ssh_target_operands p tool o v :
  tool ∈ ["ssh"; "sftp"] -> same_operands p (addNetworkOptionTarget p tool o v).
Proof.
  intros Ht. assert (addNetworkOptionTarget p tool o v = add_ssh_target p tool o v) as ->.
  { apply list_elem_of_In in Ht. by destruct Ht as [<-|[<-|[]]]. }
  unfold add_ssh_target. destruct (o =s? "-F"); [done|].
  destruct (o =s? "-S"); [by destruct (tool =s? "sftp")|].
  destruct (o =s? "-J"); [apply proxy_jump_operands|].
  destruct (o =s? "-o"); [apply ssh_setting_operands|].
  destruct (o =s? "-W"); [apply connect_to_operands|].
  destruct ((o =s? "-L") || _).
  { destruct (tool <>s? "ssh"); [done|]. destruct (sshForwardHost v) as [hst|]; [|done].
    simpl. by destruct (hst <>s? ""). }
  by destruct (o =s? "-D").
Qed.

Lemma ssh_option_operands tool a v p :
  tool ∈ ["ssh"; "sftp"] -> same_operands p (option_step tool (ssh_spec tool) a v p).
Proof.
  intros Ht. unfold option_step.
  assert (Hl : n_longFlags (ssh_spec tool) = [] /\ n_longValues (ssh_spec tool) = [] /\
               n_longTargetValues (ssh_spec tool) = []).
  { apply list_elem_of_In in Ht. by destruct Ht as [<-|[<-|[]]]. }
  destruct Hl as (Hf & Hv & Ht'). destruct (HasPrefix a "--").
  - destruct (Cut a "=") as [[name value] attached]. unfold long_option, takes_value.
    by rewrite Hf, Hv, Ht'.
  - destruct (short_options _ _); [done|by apply ssh_target_operands..|done].
Qed.

(** The first operand of these tools is the target, the rest the command. *)
Lemma ssh_operands tool pre w post p0 p :
  tool ∈ ["ssh"; "sftp"] -> net_position (ssh_spec tool) pre -> net_operand w = true ->
  a_operands p0 = [] -> net_loop tool (ssh_spec tool) (pre ++ w :: post) p0 = Ok p ->
  a_operands p = w :: post.
Proof.
  intros Ht Hp Hw. assert (Hstop : n_stopAtFirstOperand (ssh_spec tool) = true).
  { apply list_elem_of_In in Ht. by destruct Ht as [<-|[<-|[]]]. }
  revert p0. induction Hp as [|a pre Hs Ho Hp IH|a pre Hd Ho Hn Hp IH|a v pre Hd Ho Hn Hp IH];
    intros p0 H0 H; cbn [app] in H.
  - cbn [net_loop] in H. destruct (w =s? "--") eqn:E; [breflect; by subst|].
    unfold net_operand in Hw. rewrite Hw, Hstop in H. injection H as <-. simpl. by rewrite H0.
  - congruence.
  - rewrite net_loop_option in H by done. pose proof (ssh_option_operands tool a "" p0 Ht) as Hs.
    destruct (option_step _ _ a "" p0) as [q|]; [|done]. eapply IH; [|exact H]. simpl in Hs. congruence.
  - rewrite net_loop_value in H by done. pose proof (ssh_option_operands tool a v p0 Ht) as Hs.
    destruct (option_step _ _ a v p0) as [q|]; [|done]. eapply IH; [|exact H]. simpl in Hs. congruence.
Qed.

(** An ssh or sftp that passes without a verdict was fully read, and every
    place it connects to passes: the host of its target, or the [HostName]
    settings that replace it, and every jump host of [-J].  Settings that could
    redirect the connection and are not modelled are denied. *)
Theorem ssh_destinations_checked argv pol pre post :
  head argv ∈ ["ssh"; "sftp"] -> checkEgress argv pol = None ->
  net_position (ssh_spec (head argv)) pre ->
  exists p, parseNetworkArgs argv (head argv) (ssh_spec (head argv)) = Ok p /\
    Forall (fun x => host_passes pol x = true) (a_connectionHosts p ++ a_hostOverrides p) /\
    (forall w, tail argv = pre ++ w :: post -> net_operand w = true ->
       a_operands p = w :: post /\ (a_hostOverrides p = [] -> passing pol w)) /\
    (forall v c, tail argv = pre ++ "-J" :: v :: post -> EqualFold v "none" = false ->
       c ∈ Split v "," -> passing pol c).
Proof.
  intros Hh H Hp. destruct (ssh_silent _ _ Hh H) as (p & target & more & Hparse & Ho & Hc & Ht).
  exists p. split; [done|]. split; [done|]. split.
  - intros w Htl Hw. unfold parseNetworkArgs in Hparse. rewrite Htl in Hparse.
    pose proof (ssh_operands _ _ _ _ no_network_args p Hh Hp Hw eq_refl Hparse) as Hops.
    split; [done|]. intros Hov. rewrite Ho in Hops. injection Hops as -> _. by apply Ht.
  - intros v c Htl Hnone Hin. destruct (parse_at _ _ _ _ _ _ Htl Hp Hparse) as [p0 Hl].
    assert (Hopt : takes_next_word (ssh_spec (head argv)) "-J" = true /\
                   option_step (head argv) (ssh_spec (head argv)) "-J" v p0 = connect_to (Split v ",") p0).
    { apply list_elem_of_In in Hh. replace (connect_to (Split v ",") p0) with (addProxyJumpTargets p0 v)
        by (unfold addProxyJumpTargets; by rewrite Hnone).
      destruct Hh as [<-|[<-|[]]]; by split. }
    destruct Hopt as [Htk Hst].
    destruct (value_read (head argv) (ssh_spec (head argv)) "-J" v post p0 p) as (q & Hq & Hx);
      [done|reflexivity|done|done|]. rewrite Hst in Hq.
    destruct (connect_to_hosts _ _ _ c Hq Hin) as (hst & He & Hi). exists hst. split; [done|].
    rewrite Forall_forall in Hc. apply Hc, elem_of_app. left. by apply Hx.
Qed.

End Net.

(** ** Witnesses *)

(** A reader of URLs of the form [scheme://host] or [//host], and no addresses. *)
Definition demo_url (raw : string) : option URL :=
  match CutPrefix raw "https://" with
  | Some hst => Some {| url_Scheme := "https"; url_User := None; url_Host := hst; url_Fragment := "" |}
  | None =>
      match CutPrefix raw "//" with
      | Some hst => Some {| url_Scheme := ""; url_User := None; url_Host := hst; url_Fragment := "" |}
      | None => None
      end
  end.

Definition demo_egress (argv : list string) : option Verdict :=
  checkEgress demo_url (fun _ => None) (fun _ _ => false) (fun _ => true) (fun _ => "") argv demo_base.

Lemma fetch_destinations_checked_witness :
  passing demo_url (fun _ => None) (fun _ _ => false) (fun _ => true) demo_base "https://localhost".
Proof.
  apply (proj1 (fetch_destinations_checked demo_url (fun _ => None) (fun _ _ => false) (fun _ => true)
    (fun _ => "") ["curl"; "-sS"; "-o"; "out"; "https://localhost"] demo_base ["-sS"; "-o"; "out"] []
    ltac:(apply in_list_true; reflexivity) ltac:(vm_compute; reflexivity)
    ltac:(apply np_option; [discriminate|reflexivity|reflexivity|];
          apply np_value; [discriminate|reflexivity|reflexivity|]; apply np_nil))
    "https://localhost" eq_refl eq_refl).
Defined.

Lemma ssh_destinations_checked_witness :
  passing demo_url (fun _ => None) (fun _ _ => false) (fun _ => true) demo_base "localhost".
Proof.
  destruct (ssh_destinations_checked demo_url (fun _ => None) (fun _ _ => false) (fun _ => true)
    (fun _ => "") ["ssh"; "-p"; "22"; "localhost"; "ls"] demo_base ["-p"; "22"] ["ls"]
    ltac:(apply in_list_true; reflexivity) ltac:(vm_compute; reflexivity)
    ltac:(apply np_value; [discriminate|reflexivity|reflexivity|]; apply np_nil))
    as (p & Hparse & _ & Hw & _).
  destruct (Hw "localhost" eq_refl eq_refl) as [_ H]. apply H.
  vm_compute in Hparse. injection Hparse as <-. reflexivity.
Defined.

(** ** Destinations that are not looked at

    A copy between two remote hosts names two, and only the first is checked;
    [nc] takes its first word that is not an option for the host, so the value
    of an option before it stands in for it; and [wget -i] reads its
    destinations from a file. *)
Theorem unchecked_destinations :
  demo_egress ["scp"; "localhost:a"; "evil.example:b"] = None /\
  demo_egress ["nc"; "-s"; "127.0.0.1"; "evil.example"; "80"] = None /\
  demo_egress ["wget"; "-i"; "urls.txt"; "https://localhost"] = None.
Proof. by vm_compute. Qed.
