(* ===== verification/Json.v ===== *)
(** * JSON documents as the Go code holds them

    The plane settings files and the ownership manifest are JSON.  In memory they
    are Go values of type [any]; [internal/genconfig] tells the dynamic types
    apart ([[]any] from [[]string], [map[string]any] from [map[string]string] and
    from its own [orderedPermissionRules]), so a slice and a map carry their type
    here.  A Go map is the list of its bindings in the order of the keys, which
    is the order in which [encoding/json] writes it and [sort.Strings] visits it.

    [marshal] is [json.Marshal]; a number is the text [json.Marshal] writes for
    it.  Strings are valid UTF-8, as [json.Unmarshal] makes them.  The main
    result, [marshal_inj], is that documents read from a file have the same text
    only when they are equal, so that the comparisons of [jsonKey] texts in the
    code are comparisons of values. *)

From Stdlib Require Import ZArith Lia Bool Sorted.
From S2P Require Import Prelude GoStrings.

(** ** Maps with string keys *)

Definition str_lt (s t : string) : Prop := String.compare s t = Lt.

Section Fields.
Context {A : Type}.
Implicit Types (m : list (string * A)) (k : string) (v : A).

Fixpoint fget k m : option A :=
  match m with
  | [] => None
  | (k', v) :: rest => if k =s? k' then Some v else fget k rest
  end.

(** [m[k] = v] *)
Fixpoint fset k v m : list (string * A) :=
  match m with
  | [] => [(k, v)]
  | (k', v') :: rest =>
      match String.compare k k' with
      | Lt => (k, v) :: m
      | Eq => (k, v) :: rest
      | Gt => (k', v') :: fset k v rest
      end
  end.

(** [delete(m, k)] *)
Definition fdel k m : list (string * A) := List.filter (fun kv => k <>s? kv.1) m.

(** The keys ascend. *)
Definition fsorted m : Prop := StronglySorted str_lt m.*1.

End Fields.

Lemma ascii_compare_trans a b c o :
  Ascii.compare a b = o -> Ascii.compare b c = o -> Ascii.compare a c = o.
Proof.
  unfold Ascii.compare. destruct o; rewrite ?N.compare_eq_iff, ?N.compare_lt_iff, ?N.compare_gt_iff;
    intros; lia.
Qed.

Lemma ascii_compare_eq a b : Ascii.compare a b = Eq <-> a = b.
Proof.
  unfold Ascii.compare. rewrite N.compare_eq_iff. split; [|by intros ->].
  intros H. by rewrite <- (ascii_N_embedding a), H, ascii_N_embedding.
Qed.

Lemma str_compare_eq s t : String.compare s t = Eq <-> s = t.
Proof.
  revert t. induction s as [|a s IH]; intros [|b t]; simpl; try done.
  destruct (Ascii.compare a b) eqn:E.
  - apply ascii_compare_eq in E as ->. rewrite IH. split; congruence.
  - split; [done|]. intros [= -> ->]. assert (Ascii.compare b b = Eq) by by apply ascii_compare_eq. congruence.
  - split; [done|]. intros [= -> ->]. assert (Ascii.compare b b = Eq) by by apply ascii_compare_eq. congruence.
Qed.

Lemma str_lt_irrefl s : ~ str_lt s s.
Proof. unfold str_lt. assert (String.compare s s = Eq) as -> by by apply str_compare_eq. done. Qed.

Lemma str_lt_trans s t u : str_lt s t -> str_lt t u -> str_lt s u.
Proof.
  unfold str_lt. revert t u. induction s as [|a s IH]; intros [|b t] [|c u]; simpl; try done.
  destruct (Ascii.compare a b) eqn:E1; try done.
  - apply ascii_compare_eq in E1 as ->. destruct (Ascii.compare b c) eqn:E2; try done. eauto.
  - intros _. destruct (Ascii.compare b c) eqn:E2; try done.
    + apply ascii_compare_eq in E2 as <-. by rewrite E1.
    + intros _. by rewrite (ascii_compare_trans a b c Lt).
Qed.

Lemma str_compare_gt s t : String.compare s t = Gt -> str_lt t s.
Proof. unfold str_lt. rewrite String.compare_antisym. by destruct (String.compare t s). Qed.

Section FieldLemmas.
Context {A : Type}.
Implicit Types (m : list (string * A)) (k : string) (v : A).

Lemma fget_In k v m : fget k m = Some v -> (k, v) ∈ m.
Proof.
  induction m as [|[k' v'] m IH]; simpl; [done|]. destruct (k =s? k') eqn:E; breflect.
  - intros [= ->]. subst. by left.
  - intros H. right. auto.
Qed.

Lemma fget_None k m : fget k m = None <-> k ∉ m.*1.
Proof.
  induction m as [|[k' v'] m IH]; simpl; [split; [set_solver|done]|].
  destruct (k =s? k') eqn:E; breflect; [split; [done|set_solver]|]. rewrite IH. set_solver.
Qed.

Lemma fget_fset_eq k v m : fget k (fset k v m) = Some v.
Proof.
  induction m as [|[k' v'] m IH]; simpl; [by rewrite String.eqb_refl|].
  destruct (String.compare k k') eqn:E; simpl; rewrite ?String.eqb_refl; try done.
  destruct (k =s? k') eqn:E2; [|done]. breflect. subst.
  assert (String.compare k' k' = Eq) by by apply str_compare_eq. congruence.
Qed.

Lemma fget_fset_ne k k' v m : k <> k' -> fget k (fset k' v m) = fget k m.
Proof.
  intros Hn. induction m as [|[k2 v2] m IH]; simpl.
  - by apply String.eqb_neq in Hn as ->.
  - apply String.eqb_neq in Hn. destruct (String.compare k' k2) eqn:E; simpl; rewrite ?Hn; try done.
    + apply str_compare_eq in E as <-. by rewrite Hn.
    + by rewrite IH.
Qed.

Lemma fget_fset k k' v m : fget k (fset k' v m) = if k =s? k' then Some v else fget k m.
Proof.
  destruct (k =s? k') eqn:E; breflect; [subst; apply fget_fset_eq|by apply fget_fset_ne].
Qed.

Lemma fget_fdel k k' m : fget k (fdel k' m) = if k =s? k' then None else fget k m.
Proof.
  unfold fdel. induction m as [|[k2 v2] m IH]; simpl; [by destruct (_ =s? _)|].
  destruct (k' =s? k2) eqn:E; simpl; breflect.
  - subst. rewrite IH. by destruct (k =s? k2).
  - rewrite IH. destruct (k =s? k2) eqn:E2; [|done]. breflect. subst.
    by apply String.eqb_neq in E; rewrite String.eqb_sym in E; rewrite E.
Qed.

Lemma fset_keys k v m k' : k' ∈ (fset k v m).*1 <-> k' = k \/ k' ∈ m.*1.
Proof.
  induction m as [|[k2 v2] m IH]; simpl; [set_solver|].
  destruct (String.compare k k2) eqn:E; simpl; rewrite ?elem_of_cons; [|done|set_solver].
  apply str_compare_eq in E as ->. tauto.
Qed.

Lemma fsorted_fset k v m : fsorted m -> fsorted (fset k v m).
Proof.
  unfold fsorted. induction m as [|[k2 v2] m IH]; simpl; intros H.
  { repeat constructor. }
  inversion H as [|? ? Hs Hf]; subst. destruct (String.compare k k2) eqn:E; simpl.
  - apply str_compare_eq in E as ->. done.
  - constructor; [done|]. constructor; [done|].
    eapply Forall_impl; [exact Hf|]. intros x Hx. simpl. by eapply str_lt_trans.
  - constructor; [auto|]. apply Forall_forall. intros x Hx. apply fset_keys in Hx as [->|Hx].
    + by apply str_compare_gt.
    + by eapply Forall_forall in Hf.
Qed.

Lemma fsorted_fdel k m : fsorted m -> fsorted (fdel k m).
Proof.
  unfold fsorted, fdel. induction m as [|[k2 v2] m IH]; simpl; intros H; [done|].
  inversion H as [|? ? Hs Hf]; subst. destruct (k =s? k2); simpl; [auto|].
  constructor; [auto|]. apply Forall_forall. intros x Hx.
  apply list_elem_of_fmap in Hx as ([? ?] & -> & Hx). apply list_elem_of_In, filter_In in Hx as [Hx _].
  eapply Forall_forall in Hf; [exact Hf|]. apply list_elem_of_fmap. eexists. split; [|by apply list_elem_of_In].
  done.
Qed.

Lemma fsorted_NoDup m : fsorted m -> NoDup m.*1.
Proof.
  unfold fsorted. induction m.*1 as [|k ks IH]; intros H; [constructor|].
  inversion H; subst. constructor; [|auto]. intros Hin.
  eapply Forall_forall in Hin; [|done]. by eapply str_lt_irrefl.
Qed.

Lemma fsorted_cons k v m : fsorted ((k, v) :: m) -> fsorted m /\ k ∉ m.*1.
Proof.
  intros H. split; [by inversion H|]. apply fsorted_NoDup in H. by apply NoDup_cons in H as [? _].
Qed.

Lemma fget_elem k v m : fsorted m -> (k, v) ∈ m -> fget k m = Some v.
Proof.
  induction m as [|[k' v'] m IH]; intros Hs Hin; [by apply elem_of_nil in Hin|].
  apply fsorted_cons in Hs as [Hs Hk]. simpl. apply elem_of_cons in Hin as [[= -> ->]|Hin].
  - by rewrite String.eqb_refl.
  - destruct (k =s? k') eqn:E; breflect; [|auto]. subst. exfalso. apply Hk.
    apply list_elem_of_fmap. by exists (k', v).
Qed.

(** Two maps with the same entries are the same. *)
Lemma fext m1 m2 : fsorted m1 -> fsorted m2 -> (forall k, fget k m1 = fget k m2) -> m1 = m2.
Proof.
  revert m2. induction m1 as [|[k1 v1] m1 IH]; intros [|[k2 v2] m2] H1 H2 He; try done.
  - specialize (He k2). simpl in He. by rewrite String.eqb_refl in He.
  - specialize (He k1). simpl in He. by rewrite String.eqb_refl in He.
  - assert (k1 = k2) as <-.
    { destruct (String.compare k1 k2) eqn:E.
      - by apply str_compare_eq.
      - exfalso. assert (Hk : fget k1 ((k2, v2) :: m2) = None).
        { apply fget_None. simpl. inversion H2 as [|? ? ? Hf]; subst. intros [->|Hin]%elem_of_cons.
          - by eapply str_lt_irrefl.
          - eapply Forall_forall in Hf; [|done]. by eapply str_lt_irrefl, str_lt_trans. }
        rewrite <- He in Hk. simpl in Hk. by rewrite String.eqb_refl in Hk.
      - exfalso. apply str_compare_gt in E. assert (Hk : fget k2 ((k1, v1) :: m1) = None).
        { apply fget_None. simpl. inversion H1 as [|? ? ? Hf]; subst. intros [->|Hin]%elem_of_cons.
          - by eapply str_lt_irrefl.
          - eapply Forall_forall in Hf; [|done]. by eapply str_lt_irrefl, str_lt_trans. }
        rewrite He in Hk. simpl in Hk. by rewrite String.eqb_refl in Hk. }
    assert (v1 = v2) as <-.
    { specialize (He k1). simpl in He. rewrite String.eqb_refl in He. congruence. }
    f_equal. apply fsorted_cons in H1 as [H1 N1], H2 as [H2 N2]. apply IH; [done..|].
    intros k. specialize (He k). simpl in He. destruct (k =s? k1) eqn:E; [|done]. breflect. subst.
    by rewrite !(proj2 (fget_None _ _)).
Qed.

End FieldLemmas.

(** ** Values *)

Inductive SliceType := AnySlice | StringSlice.
Inductive MapType := AnyMap | StringMap | PermissionRules.

Inductive json :=
| Null
| Bool (b : bool)
| Num (text : string)
| Str (s : string)
| Arr (t : SliceType) (l : list json)
| Obj (t : MapType) (m : list (string * json)).

Notation object := (list (string * json)).

Section JsonInd.
Context (P : json -> Prop).
Context (HNull : P Null) (HBool : forall b, P (Bool b)) (HNum : forall t, P (Num t))
  (HStr : forall s, P (Str s)) (HArr : forall t l, Forall P l -> P (Arr t l))
  (HObj : forall t m, Forall (fun kv => P kv.2) m -> P (Obj t m)).

Fixpoint json_rect' (v : json) : P v :=
  match v with
  | Null => HNull
  | Bool b => HBool b
  | Num t => HNum t
  | Str s => HStr s
  | Arr t l =>
      HArr t l ((fix go l : Forall P l :=
        match l with [] => List.Forall_nil _ | v :: l => List.Forall_cons _ v l (json_rect' v) (go l) end) l)
  | Obj t m =>
      HObj t m ((fix go m : Forall (fun kv => P kv.2) m :=
        match m with
        | [] => List.Forall_nil _
        | (k, v) :: m => List.Forall_cons (fun kv => P kv.2) (k, v) m (json_rect' v) (go m)
        end) m)
  end.
End JsonInd.

#[export] Instance SliceType_eq_dec : EqDecision SliceType.
Proof. solve_decision. Defined.
#[export] Instance MapType_eq_dec : EqDecision MapType.
Proof. solve_decision. Defined.

(** [toAnySlice] and [toStringAnyMap]: the elements, whatever the type. *)
Definition toAnySlice (v : json) : option (list json) :=
  match v with Arr _ l => Some l | _ => None end.

Definition toStringAnyMap (v : json) : option object :=
  match v with Obj _ m => Some m | _ => None end.

(** What [m[k]] converts to; an absent key is [nil]. *)
Definition get_slice (k : string) (m : object) : option (list json) :=
  match fget k m with Some v => toAnySlice v | None => None end.
Definition get_map (k : string) (m : object) : option object :=
  match fget k m with Some v => toStringAnyMap v | None => None end.

(** [value.(string)], the empty string when it is not one. *)
Definition as_string (v : option json) : string :=
  match v with Some (Str s) => s | _ => "" end.

(** The value a map holds after the map [toStringAnyMap] handed out was changed
    to [m']: for a [map[string]string] that map was a copy. *)
Definition write_back (t : MapType) (m m' : object) : json :=
  match t with StringMap => Obj t m | _ => Obj t m' end.

(** [f] applied to the map under [k], if there is one. *)
Definition update_map (k : string) (f : object -> object) (m : object) : object :=
  match fget k m with
  | Some (Obj t sub) => fset k (write_back t sub (f sub)) m
  | _ => m
  end.

(** ** json.Marshal *)

Definition quote : ascii := "034"%char.

Definition hex_digit (n : N) : ascii :=
  ascii_of_N (if (n <? 10)%N then 48 + n else 87 + n)%N.

Definition escape_byte (c : ascii) : string :=
  if (Ascii.eqb c quote || Ascii.eqb c "\")%bool then String "\" (String c "")
  else if Ascii.eqb c "008" then "\b"
  else if Ascii.eqb c "012" then "\f"
  else if Ascii.eqb c "010" then "\n"
  else if Ascii.eqb c "013" then "\r"
  else if Ascii.eqb c "009" then "\t"
  else if ((N_of_ascii c <? 32)%N || Ascii.eqb c "<" || Ascii.eqb c ">" || Ascii.eqb c "&")%bool then
    "\u00" +:+ String (hex_digit (N_of_ascii c / 16)) (String (hex_digit (N_of_ascii c mod 16)) "")
  else String c "".

(** U+2028 and U+2029 are escaped too. *)
Fixpoint escape (s : string) : string :=
  match s with
  | EmptyString => ""
  | String a t =>
      match t with
      | String b (String c r) =>
          if (Ascii.eqb a "226" && Ascii.eqb b "128" && Ascii.eqb c "168")%bool then "\u2028" +:+ escape r
          else if (Ascii.eqb a "226" && Ascii.eqb b "128" && Ascii.eqb c "169")%bool
          then "\u2029" +:+ escape r
          else escape_byte a +:+ escape t
      | _ => escape_byte a +:+ escape t
      end
  end.

Definition marshal_string (s : string) : string :=
  String quote (escape s +:+ String quote "").

(** [permissionVerdictRank] *)
Definition permissionVerdictRank (v : option json) : nat :=
  match v with
  | Some (Str s) =>
      if s =s? "allow" then 1 else if s =s? "ask" then 2 else if s =s? "deny" then 3 else 0
  | _ => 0
  end.

(** [sort.Slice] of [orderedPermissionRules.MarshalJSON]: by rank, and the keys
    are in order already. *)
Fixpoint insert_rank (r : nat) (text : string) (l : list (nat * string)) : list (nat * string) :=
  match l with
  | [] => [(r, text)]
  | (r', text') :: rest =>
      if (r <=? r')%nat then (r, text) :: l else (r', text') :: insert_rank r text rest
  end.

Definition sort_rank (l : list (nat * string)) : list (nat * string) :=
  fold_right (fun rt acc => insert_rank rt.1 rt.2 acc) [] l.

Definition marshal_field (marshal : json -> string) (k : string) (v : json) : string :=
  marshal_string k +:+ ":" +:+ marshal v.

Fixpoint marshal (v : json) : string :=
  match v with
  | Null => "null"
  | Bool true => "true"
  | Bool false => "false"
  | Num t => t
  | Str s => marshal_string s
  | Arr _ l => "[" +:+ Join (map marshal l) "," +:+ "]"
  | Obj t m =>
      let texts := map (fun kv : string * json =>
        let '(k, v) := kv in (permissionVerdictRank (Some v), marshal_field marshal k v)) m in
      "{" +:+ Join (match t with PermissionRules => sort_rank texts | _ => texts end).*2 "," +:+ "}"
  end.

Definition jsonKey (v : json) : string := marshal v.

(** What [json.Unmarshal] makes of the text of a value: the same value in
    [map[string]any] and [[]any]. *)
Fixpoint parsed (v : json) : json :=
  match v with
  | Arr _ l => Arr AnySlice (map parsed l)
  | Obj _ m => Obj AnyMap (map (fun kv : string * json => let '(k, v) := kv in (k, parsed v)) m)
  | _ => v
  end.

Definition parsed_object (m : object) : object :=
  map (fun kv : string * json => let '(k, v) := kv in (k, parsed v)) m.

(** ** Documents read from a file *)

Definition number_byte (c : ascii) : bool :=
  is_digit c || Ascii.eqb c "-" || Ascii.eqb c "+" || Ascii.eqb c "." || Ascii.eqb c "e" || Ascii.eqb c "E".

(** Maps of one key each, numbers that are numbers, and only the types
    [json.Unmarshal] makes. *)
Fixpoint document (v : json) : Prop :=
  match v with
  | Num t => t <> "" /\ all_bytes number_byte t = true
  | Arr t l => t = AnySlice /\ (fix go l := match l with [] => True | v :: l => document v /\ go l end) l
  | Obj t m =>
      t = AnyMap /\ fsorted m /\
      (fix go (m : object) := match m with [] => True | (_, v) :: m => document v /\ go m end) m
  | _ => True
  end.

Lemma document_arr t l : document (Arr t l) <-> t = AnySlice /\ Forall document l.
Proof.
  simpl. apply and_iff_compat_l. induction l as [|v l IH]; [split; [constructor|done]|].
  rewrite IH, Forall_cons. done.
Qed.

Lemma document_obj t m :
  document (Obj t m) <-> t = AnyMap /\ fsorted m /\ Forall (fun kv => document kv.2) m.
Proof.
  simpl. apply and_iff_compat_l, and_iff_compat_l.
  induction m as [|[k v] m IH]; [split; [constructor|done]|]. rewrite IH, Forall_cons. done.
Qed.

(** ** The text of a string determines it *)

Definition hex_value (c : ascii) : N :=
  let n := N_of_ascii c in if (n <? 58)%N then n - 48 else n - 87.

Definition cons_decoded (pre : string) (r : option (string * string)) : option (string * string) :=
  match r with Some (s, rest) => Some (pre +:+ s, rest) | None => None end.

(** Reads an escaped text up to its closing quote. *)
Fixpoint unescape (text : string) : option (string * string) :=
  match text with
  | EmptyString => None
  | String c rest =>
      if Ascii.eqb c quote then Some ("", rest)
      else if Ascii.eqb c "\" then
        match rest with
        | String "u" (String h1 (String h2 (String h3 (String h4 r)))) =>
            cons_decoded
              (if Ascii.eqb h1 "2" then String "226" (String "128" (String (if Ascii.eqb h4 "8" then "168" else "169") ""))
               else String (ascii_of_N (16 * hex_value h3 + hex_value h4)) "")
              (unescape r)
        | String e r =>
            let c := if Ascii.eqb e "b" then "008" else if Ascii.eqb e "f" then "012"
                     else if Ascii.eqb e "n" then "010" else if Ascii.eqb e "r" then "013"
                     else if Ascii.eqb e "t" then "009" else e in
            cons_decoded (String c "") (unescape r)
        | EmptyString => None
        end%char
      else cons_decoded (String c "") (unescape rest)
  end.

Lemma unescape_byte c x : unescape (escape_byte c +:+ x) = cons_decoded (String c "") (unescape x).
Proof. destruct c as [[] [] [] [] [] [] [] []]; reflexivity. Qed.

Lemma unescape_escape s x : unescape (escape s +:+ String quote x) = Some (s, x).
Proof.
  assert (H : forall n s, (String.length s <= n)%nat ->
    unescape (escape s +:+ String quote x) = Some (s, x)); [|by apply (H (String.length s))].
  clear s. induction n as [|n IH]; intros s Hn.
  { destruct s; [reflexivity|simpl in Hn; lia]. }
  destruct s as [|a t]; [reflexivity|]. cbn [escape]. simpl in Hn.
  assert (Hplain : unescape ((escape_byte a +:+ escape t) +:+ String quote x) = Some (String a t, x)).
  { rewrite append_assoc, unescape_byte, IH by lia. done. }
  destruct t as [|b [|c r]]; [done..|].
  case_match eqn:E1.
  { apply andb_true_iff in E1 as [[Ea Eb]%andb_true_iff Ec].
    apply Ascii.eqb_eq in Ea, Eb, Ec. subst.
    change (unescape (("\u2028" +:+ escape r) +:+ String quote x))
      with (cons_decoded (String "226" (String "128" (String "168" "")))
              (unescape (escape r +:+ String quote x))).
    rewrite IH by (simpl in Hn; lia). done. }
  case_match eqn:E2; [|done].
  apply andb_true_iff in E2 as [[Ea Eb]%andb_true_iff Ec].
  apply Ascii.eqb_eq in Ea, Eb, Ec. subst.
  change (unescape (("\u2029" +:+ escape r) +:+ String quote x))
    with (cons_decoded (String "226" (String "128" (String "169" "")))
            (unescape (escape r +:+ String quote x))).
  rewrite IH by (simpl in Hn; lia). done.
Qed.

Lemma marshal_string_prefix s t x y :
  marshal_string s +:+ x = marshal_string t +:+ y -> s = t /\ x = y.
Proof.
  unfold marshal_string. cbn [String.append]. intros [= H]. rewrite !append_assoc in H. cbn [String.append] in H.
  apply (f_equal unescape) in H. rewrite !unescape_escape in H. by simplify_eq.
Qed.

(** ** The text of a document determines it *)

(** What can follow a number does not continue it. *)
Definition delimited (x : string) : Prop :=
  match x with EmptyString => True | String c _ => number_byte c = false end.

Lemma number_prefix s t x y :
  all_bytes number_byte s = true -> all_bytes number_byte t = true -> delimited x -> delimited y ->
  s +:+ x = t +:+ y -> s = t /\ x = y.
Proof.
  intros Hs Ht Hx Hy. revert t Ht. induction s as [|a s IH]; intros [|b t] Ht H; simpl in *.
  - done.
  - exfalso. apply andb_true_iff in Ht as [Hb _]. subst x. simpl in Hx. congruence.
  - exfalso. apply andb_true_iff in Hs as [Ha _]. subst y. simpl in Hy. congruence.
  - apply andb_true_iff in Hs as [_ Hs], Ht as [_ Ht]. injection H as -> H.
    destruct (IH Hs t Ht H) as [-> ->]. done.
Qed.

(** [f]'s texts are prefix-free on the values [ok] holds of. *)
Definition prefix_free {A} (ok : A -> Prop) (f : A -> string) (a : A) : Prop :=
  forall b x y, ok b -> delimited x -> delimited y -> f a +:+ x = f b +:+ y -> a = b /\ x = y.

(** The text starts with none of [cs]. *)
Definition starts_other (cs : list ascii) (x : string) : Prop :=
  match x with EmptyString => False | String c _ => c ∉ cs end.

Lemma Join_cons_app a l x :
  Join (a :: l) "," +:+ x = a +:+ (match l with [] => x | _ => String "," (Join l "," +:+ x) end).
Proof. destruct l; simpl; [done|]. by rewrite append_assoc. Qed.

Lemma Join_prefix {A} (ok : A -> Prop) (f : A -> string) close l1 l2 x y :
  Forall (prefix_free ok f) l1 -> Forall ok l2 ->
  (forall a z, ok a \/ a ∈ l1 -> starts_other [close] (f a +:+ z)) ->
  number_byte close = false -> close <> ","%char ->
  Join (map f l1) "," +:+ String close x = Join (map f l2) "," +:+ String close y ->
  l1 = l2 /\ x = y.
Proof.
  intros Hf Hok Hst Hc Hcomma. revert l2 Hok.
  induction l1 as [|a l1 IH]; intros [|b l2] Hok H; cbn [map] in H.
  - by injection H.
  - exfalso. rewrite Join_cons_app in H. apply Forall_cons in Hok as [Hb _].
    match type of H with _ = f b +:+ ?z => specialize (Hst b z (or_introl Hb)) end.
    rewrite <- H in Hst. simpl in Hst. set_solver.
  - exfalso. rewrite Join_cons_app in H.
    assert (Ha : a ∈ a :: l1) by set_solver. match type of H with f a +:+ ?z = _ => specialize (Hst a z (or_intror Ha)) end.
    rewrite H in Hst. simpl in Hst. set_solver.
  - apply Forall_cons in Hf as [Ha Hf], Hok as [Hb Hok]. rewrite !Join_cons_app in H.
    apply Ha in H as [-> H]; [|done|by destruct l1; [|done]|by destruct l2; [|done]].
    destruct l1 as [|a1 l1], l2 as [|b2 l2]; simpl in H.
    + injection H as ->. done.
    + congruence.
    + congruence.
    + injection H as H. destruct (IH Hf) with (l2 := b2 :: l2) as [-> ->]; [|done|done|done].
      intros a z [Hz|Hz]; apply Hst; [by left|right; set_solver].
Qed.

Lemma marshal_starts v z : document v -> starts_other ["]"; ","; ":"; "}"]%char (marshal v +:+ z).
Proof.
  destruct v as [|[]|t|s|t l|t m]; intros Hd; try (simpl; set_solver).
  destruct Hd as [Hne Hb]. destruct t as [|c t]; [done|]. simpl in Hb |- *.
  apply andb_true_iff in Hb as [Hb _]. intros Hin. set_unfold.
  by destruct Hin as [->|[->|[->|[->|[]]]]].
Qed.

Lemma number_starts t z c x :
  document (Num t) -> t +:+ z = String c x -> number_byte c = true.
Proof.
  intros [Hne Hb]. destruct t as [|a t]; [done|]. simpl in *. intros [= -> _].
  by apply andb_true_iff in Hb as [? _].
Qed.

Lemma marshal_object m :
  marshal (Obj AnyMap m) =
  String "{" (Join (map (fun kv : string * json => marshal_field marshal kv.1 kv.2) m) "," +:+ "}").
Proof.
  assert (He : forall g : json -> nat, (map (fun kv : string * json =>
     let '(k, v) := kv in (g v, marshal_field marshal k v)) m).*2 =
    map (fun kv : string * json => marshal_field marshal kv.1 kv.2) m).
  { intros g. induction m as [|[k v] m IH]; [done|]. cbn [map fmap list_fmap]. f_equal. exact IH. }
  cbn [marshal]. rewrite (He (fun v => permissionVerdictRank (Some v))). done.
Qed.

Lemma marshal_field_app k v x :
  marshal_field marshal k v +:+ x = marshal_string k +:+ String ":" (marshal v +:+ x).
Proof. unfold marshal_field. by rewrite (append_assoc (marshal_string k)). Qed.

Lemma marshal_prefix v : document v -> prefix_free document marshal v.
Proof.
  induction v as [|b|t|s|t l IH|t m IH] using json_rect'; intros Hd w x y Hw Hx Hy H.
  1,2,3: destruct w as [|[]|t'|s'|t' l'|t' m'];
    try (destruct b); try (simpl in H; discriminate H); try (injection H as ->; done);
    try (simpl in H; symmetry in H; apply number_starts in H; [done|done]);
    try (apply number_starts in H; [done|done]).
  - destruct (number_prefix t t' x y) as [-> ->]; try done; [apply Hd|apply Hw].
  - destruct w as [|[]|t'|s'|t' l'|t' m']; try (simpl in H; discriminate H).
    + symmetry in H. apply number_starts in H; done.
    + apply marshal_string_prefix in H as [-> ->]. done.
  - destruct w as [|[]|t'|s'|t' l'|t' m']; try (simpl in H; discriminate H).
    { symmetry in H. apply number_starts in H; done. }
    apply document_arr in Hd as [-> Hd], Hw as [-> Hw]. simpl in H. rewrite !append_assoc in H.
    injection H as H. apply (Join_prefix document) in H as [-> ->]; try done.
    + rewrite Forall_forall in IH, Hd |- *. auto.
    + intros a z Ha. assert (Hda : document a).
      { destruct Ha; [done|]. rewrite Forall_forall in Hd. auto. }
      apply (marshal_starts _ z) in Hda. unfold starts_other in *. destruct (marshal a +:+ z); [done|].
      set_solver.
  - destruct w as [|[]|t'|s'|t' l'|t' m']; try (simpl in H; discriminate H).
    { symmetry in H. apply number_starts in H; done. }
    apply document_obj in Hd as (-> & _ & Hd), Hw as (-> & _ & Hw). rewrite !marshal_object in H. cbn [String.append] in H. rewrite !append_assoc in H.
    injection H as H.
    apply (Join_prefix (fun kv => document kv.2)) in H as [-> ->]; try done.
    2: { intros [k v] z _. simpl. set_solver. }
    rewrite Forall_forall in IH, Hd |- *. intros [k1 v1] Hin [k2 v2] x1 y1 Hok Hx1 Hy1 He. cbn [fst snd] in *.
    rewrite !marshal_field_app in He.
    apply marshal_string_prefix in He as [-> He]. injection He as He.
    destruct (IH _ Hin (Hd _ Hin) v2 x1 y1) as [Hv2 ->]; try done. cbn [snd] in Hv2. by subst.
Qed.

Lemma marshal_inj v w : document v -> document w -> (marshal v = marshal w <-> v = w).
Proof.
  intros Hv Hw. split; [|by intros ->]. intros H.
  destruct (marshal_prefix v Hv w "" "") as [? _]; try done. by rewrite !append_nil_r.
Qed.

(** ** Values of a fragment built in Go *)

(** The maps have one binding per key. *)
Fixpoint well_keyed (v : json) : Prop :=
  match v with
  | Arr _ l => (fix go l := match l with [] => True | v :: l => well_keyed v /\ go l end) l
  | Obj _ m =>
      fsorted m /\
      (fix go (m : object) := match m with [] => True | (_, v) :: m => well_keyed v /\ go m end) m
  | _ => True
  end.

Lemma well_keyed_arr t l : well_keyed (Arr t l) <-> Forall well_keyed l.
Proof. simpl. induction l as [|v l IH]; [split; [constructor|done]|]. rewrite IH, Forall_cons. done. Qed.

Lemma well_keyed_obj t m :
  well_keyed (Obj t m) <-> fsorted m /\ Forall (fun kv => well_keyed kv.2) m.
Proof.
  simpl. apply and_iff_compat_l.
  induction m as [|[k v] m IH]; [split; [constructor|done]|]. rewrite IH, Forall_cons. done.
Qed.

(** As [document], but for slices of any type. *)
Fixpoint fragment (v : json) : Prop :=
  match v with
  | Num t => t <> "" /\ all_bytes number_byte t = true
  | Arr _ l => (fix go l := match l with [] => True | v :: l => fragment v /\ go l end) l
  | Obj t m =>
      t = AnyMap /\ fsorted m /\
      (fix go (m : object) := match m with [] => True | (_, v) :: m => fragment v /\ go m end) m
  | _ => True
  end.

Lemma fragment_arr t l : fragment (Arr t l) <-> Forall fragment l.
Proof. simpl. induction l as [|v l IH]; [split; [constructor|done]|]. rewrite IH, Forall_cons. done. Qed.

Lemma fragment_obj t m :
  fragment (Obj t m) <-> t = AnyMap /\ fsorted m /\ Forall (fun kv => fragment kv.2) m.
Proof.
  simpl. apply and_iff_compat_l, and_iff_compat_l.
  induction m as [|[k v] m IH]; [split; [constructor|done]|]. rewrite IH, Forall_cons. done.
Qed.

Lemma document_fragment v : document v -> fragment v.
Proof.
  induction v as [| | | |t l IH|t m IH] using json_rect'; try done.
  - rewrite document_arr, fragment_arr. intros [_ H]. rewrite Forall_forall in *. auto.
  - rewrite document_obj, fragment_obj. intros (? & ? & H). rewrite Forall_forall in *. auto.
Qed.

Lemma fragment_well_keyed v : fragment v -> well_keyed v.
Proof.
  induction v as [| | | |t l IH|t m IH] using json_rect'; try done.
  - rewrite fragment_arr, well_keyed_arr. rewrite !Forall_forall in *. auto.
  - rewrite fragment_obj, well_keyed_obj. rewrite !Forall_forall in *. naive_solver.
Qed.

Lemma fget_Forall (P : string * json -> Prop) m k v : Forall P m -> fget k m = Some v -> P (k, v).
Proof. intros H Hg. apply fget_In in Hg. by eapply Forall_forall in H. Qed.

Lemma Forall_fset (P : string * json -> Prop) m k v : Forall P m -> P (k, v) -> Forall P (fset k v m).
Proof.
  intros H Hp. induction H as [|[k' v'] m Hv H IH]; simpl; [by repeat constructor|].
  case_match; repeat constructor; try done.
Qed.

Lemma Forall_fdel (P : string * json -> Prop) m k : Forall P m -> Forall P (fdel k m).
Proof.
  rewrite !Forall_forall. intros H x Hx. apply list_elem_of_In, filter_In in Hx as [Hx _].
  by apply H, list_elem_of_In.
Qed.

Lemma parsed_object_keys m : (parsed_object m).*1 = m.*1.
Proof. induction m as [|[k v] m IH]; [done|]. cbn. f_equal. exact IH. Qed.

Lemma fget_parsed k m : fget k (parsed_object m) = parsed <$> fget k m.
Proof. induction m as [|[k' v] m IH]; [done|]. cbn. destruct (k =s? k'); [done|exact IH]. Qed.

Lemma fsorted_parsed m : fsorted (parsed_object m) <-> fsorted m.
Proof. unfold fsorted. by rewrite parsed_object_keys. Qed.

Lemma parsed_fset k v m : parsed_object (fset k v m) = fset k (parsed v) (parsed_object m).
Proof.
  induction m as [|[k' v'] m IH]; [done|]. cbn [fset parsed_object map].
  destruct (String.compare k k'); cbn; [done|done|]. f_equal. exact IH.
Qed.

Lemma parsed_document v : fragment v -> document (parsed v).
Proof.
  induction v as [| | | |t l IH|t m IH] using json_rect'; try done.
  - rewrite fragment_arr. cbn [parsed]. rewrite document_arr. intros H. split; [done|].
    rewrite Forall_map. rewrite Forall_forall in *. auto.
  - rewrite fragment_obj. intros (-> & Hs & H). cbn [parsed]. rewrite document_obj. split; [done|].
    split; [by apply fsorted_parsed|]. rewrite Forall_map. rewrite Forall_forall in *.
    intros [k v] Hin. simpl. by apply (IH (k, v)), (H (k, v)).
Qed.

Lemma document_parsed v : document v -> parsed v = v.
Proof.
  induction v as [| | | |t l IH|t m IH] using json_rect'; try done.
  - rewrite document_arr. intros [-> H]. cbn [parsed]. f_equal.
    induction IH as [|v l Hv _ IH]; [done|]. apply Forall_cons in H as [Hd H]. simpl. by rewrite Hv, IH.
  - rewrite document_obj. intros (-> & _ & H). cbn [parsed]. f_equal.
    induction IH as [|[k v] m Hv _ IH]; [done|]. apply Forall_cons in H as [Hd H]. simpl in *.
    by rewrite Hv, IH.
Qed.

Lemma marshal_parsed v : fragment v -> marshal (parsed v) = marshal v.
Proof.
  induction v as [| | | |t l IH|t m IH] using json_rect'; try done.
  - rewrite fragment_arr. intros H. cbn [parsed marshal]. do 3 f_equal. rewrite map_map.
    apply map_ext_in. intros v Hv. rewrite Forall_forall in IH, H. apply list_elem_of_In in Hv. auto.
  - rewrite fragment_obj. intros (-> & _ & H). cbn [parsed]. rewrite !marshal_object. f_equal. f_equal. f_equal.
    rewrite map_map. apply map_ext_in. intros [k v] Hv. 
    rewrite Forall_forall in IH, H. apply list_elem_of_In in Hv. unfold marshal_field. cbn [fst snd].
    specialize (IH (k, v) Hv (H (k, v) Hv)). cbn [snd] in IH. by rewrite IH.
Qed.

(** Deciding both. *)
Fixpoint ascending (m : list (string * json)) : bool :=
  match m with
  | (k1, _) :: (((k2, _) :: _) as rest) =>
      match String.compare k1 k2 with Lt => ascending rest | _ => false end
  | _ => true
  end.

Fixpoint well_formed (any_slices : bool) (v : json) : bool :=
  match v with
  | Num t => (t <>s? "") && all_bytes number_byte t
  | Arr t l => (any_slices || bool_decide (t = AnySlice)) && forallb (well_formed any_slices) l
  | Obj t m =>
      bool_decide (t = AnyMap) && ascending m &&
      forallb (fun kv : string * json => let '(_, v) := kv in well_formed any_slices v) m
  | _ => true
  end.

Lemma ascending_sorted m : ascending m = true -> fsorted m.
Proof.
  unfold fsorted. induction m as [|[k1 v1] m IH]; intros H; [constructor|].
  destruct m as [|[k2 v2] m]; [repeat constructor|]. cbn [ascending] in H.
  destruct (String.compare k1 k2) eqn:E; try done. specialize (IH H). constructor; [done|].
  constructor; [exact E|]. inversion IH as [|? ? _ Hf]; subst. eapply Forall_impl; [exact Hf|].
  intros k Hk. by eapply str_lt_trans.
Qed.

Lemma well_formed_sound any v :
  well_formed any v = true -> fragment v /\ (any = false -> document v).
Proof.
  induction v as [| | | |t l IH|t m IH] using json_rect'; intros H; try (by split); cbn [well_formed] in H.
  - breflect. by split.
  - apply andb_true_iff in H as [Ht H]. rewrite fragment_arr, document_arr. rewrite forallb_forall in H.
    assert (Hl : Forall (fun v => fragment v /\ (any = false -> document v)) l).
    { rewrite Forall_forall in *. intros v Hv. by apply IH, H, list_elem_of_In. }
    split; [eapply Forall_impl; [exact Hl|]; by intros v [? _]|]. intros ->. split.
    + by apply bool_decide_eq_true in Ht.
    + eapply Forall_impl; [exact Hl|]. intros v [_ Hv]. auto.
  - apply andb_true_iff in H as [[Ht Ha]%andb_true_iff H]. apply bool_decide_eq_true in Ht.
    apply ascending_sorted in Ha. rewrite fragment_obj, document_obj. rewrite forallb_forall in H.
    assert (Hm : Forall (fun kv => fragment kv.2 /\ (any = false -> document kv.2)) m).
    { rewrite Forall_forall in *. intros [k v] Hv. apply (IH (k, v) Hv). by apply list_elem_of_In, H in Hv. }
    split.
    + split_and!; [done|done|]. eapply Forall_impl; [exact Hm|]. by intros v [? _].
    + intros ->. split_and!; [done|done|]. eapply Forall_impl; [exact Hm|]. intros v [_ Hv]. auto.
Qed.

(** What the merges need of a class of values: it is given by the parts, with maps
    of type [map[string]any] and slices that may be of type [[]any]. *)
Class Structural (Q : json -> Prop) : Prop := {
  structural_list l : Forall Q l -> Q (Arr AnySlice l);
  structural_elements t l : Q (Arr t l) -> Forall Q l;
  structural_object t m : Q (Obj t m) <-> t = AnyMap /\ fsorted m /\ Forall (fun kv => Q kv.2) m;
}.

#[export] Instance document_structural : Structural document.
Proof.
  split; [intros l H; by apply document_arr|intros t l H; by apply document_arr in H as [_ H]|].
  apply document_obj.
Qed.

#[export] Instance fragment_structural : Structural fragment.
Proof.
  split; [intros l H; by apply fragment_arr|intros t l H; by apply fragment_arr in H|].
  apply fragment_obj.
Qed.

(** ** Walking a document *)

(** [containerAt]: the object at a path of keys. *)
Fixpoint containerAt (doc : object) (path : list string) : option object :=
  match path with
  | [] => Some doc
  | segment :: rest =>
      match get_map segment doc with
      | Some next => containerAt next rest
      | None => None
      end
  end.

(** The value at a path of keys. *)
Definition at_path (doc : object) (path : list string) (key : string) : option json :=
  match containerAt doc path with Some m => fget key m | None => None end.

Lemma fset_same k (v : json) m : fsorted m -> fget k m = Some v -> fset k v m = m.
Proof.
  intros Hs Hg. apply fext; [by apply fsorted_fset|done|]. intros k'. rewrite fget_fset.
  destruct (k' =s? k) eqn:E; breflect; by subst.
Qed.

Lemma fset_fset k (v w : json) m : fsorted m -> fset k v (fset k w m) = fset k v m.
Proof.
  intros Hs. apply fext; [by repeat apply fsorted_fset|by apply fsorted_fset|].
  intros k'. rewrite !fget_fset. by destruct (k' =s? k).
Qed.

Lemma document_get t m k v : document (Obj t m) -> fget k m = Some v -> document v.
Proof.
  rewrite document_obj. intros (_ & _ & H) Hg. by apply (fget_Forall (fun kv => document kv.2) m k v).
Qed.
