(* ===== verification/GenMerge.v ===== *)
(** * Merging guardrail's entries into a plane's settings

    [internal/genconfig/merge.go]: the recursive merge of a generated fragment
    into the settings document the operator owns ([deepMerge], [mergeHooks],
    [retireDroppedEvents], [unionAppend]), the merge of OpenCode's permission
    rules, the retirement of what earlier releases wrote, and the counts doctor
    reports.

    A Go map that is changed in place is the map that replaces it.  The loops
    over a map touch the key they are at only, so the order of the keys, which
    Go leaves open, is the order of the model. *)

From Stdlib Require Import ZArith Lia Bool.
From S2P Require Import Prelude GoStrings Regex GoPath Argv Json.

(** ** Whose a hook group is *)

Definition is_owned_id (m : object) : bool := HasPrefix (as_string (fget "id" m)) "guardrail-".

Definition ownedByGuardrail (group : json) : bool :=
  match group with Obj AnyMap m => is_owned_id m | _ => false end.

Definition not_space (c : ascii) : bool :=
  negb (Ascii.eqb c "009" || Ascii.eqb c "010" || Ascii.eqb c "012" || Ascii.eqb c "013" ||
        Ascii.eqb c " ")%char.

(** [regexp.MustCompile(`guardrail\S* hook (?:claude|antigravity)`)], searched. *)
Definition guardrailHookCommand : re :=
  Cat (Star (Chr (fun _ => true)))
    (Cat (lit "guardrail") (Cat (Star (Chr not_space)) (Cat (lit " hook ")
      (Cat (Alt (lit "claude") (lit "antigravity")) (Star (Chr (fun _ => true))))))).

Definition unmarkedGuardrailGroup (group : json) : bool :=
  match group with
  | Obj AnyMap m => if is_owned_id m then false else re_match guardrailHookCommand (marshal group)
  | _ => false
  end.

Definition codexOwnedGroup (group : json) : bool :=
  match group with
  | Obj AnyMap m => HasPrefix (as_string (fget "id" m)) "guardrail-codex-"
  | _ => false
  end.

(** A group of the operator's: neither marked nor a legacy entry. *)
Definition foreign (g : json) : bool := negb (ownedByGuardrail g || unmarkedGuardrailGroup g).

(** ** Slices *)

Fixpoint append_unseen (seen : list string) (src : list json) : list json :=
  match src with
  | [] => []
  | v :: rest =>
      if in_list (jsonKey v) seen then append_unseen seen rest
      else v :: append_unseen (jsonKey v :: seen) rest
  end.

Definition unionAppend (dst src : list json) : list json :=
  dst ++ append_unseen (map jsonKey dst) src.

(** ** Hooks *)

(** The loop over the incoming groups: what they add. *)
Fixpoint incoming_groups (seen : list string) (sGroups : list json) : list json :=
  match sGroups with
  | [] => []
  | g :: rest =>
      if ownedByGuardrail g then g :: incoming_groups seen rest
      else if in_list (jsonKey g) seen then incoming_groups seen rest
      else g :: incoming_groups (jsonKey g :: seen) rest
  end.

Definition merge_groups (dGroups sGroups : list json) : list json :=
  let kept := List.filter foreign dGroups in
  kept ++ incoming_groups (map jsonKey kept) sGroups.

Definition merge_event (dst : object) (ev : string * json) : object :=
  let '(event, sv) := ev in
  match toAnySlice sv with
  | None => fset event sv dst
  | Some sGroups =>
      fset event (Arr AnySlice (merge_groups (default [] (get_slice event dst)) sGroups)) dst
  end.

Definition retire_event (dst : object) (event : string) : object :=
  match get_slice event dst with
  | None => dst
  | Some groups =>
      let kept := List.filter foreign groups in
      if (length kept =? length groups)%nat then dst
      else match kept with [] => fdel event dst | _ => fset event (Arr AnySlice kept) dst end
  end.

Definition retireDroppedEvents (dst src : object) : object :=
  fold_left retire_event
    (List.filter (fun event => match fget event src with Some _ => false | None => true end) dst.*1) dst.

Definition mergeHooks (dst src : object) : object :=
  retireDroppedEvents (fold_left merge_event src dst) src.

(** ** The recursive merge *)

Definition is_hooks_key (k : string) : bool := (k =s? "hooks") || (k =s? "guardrail").

(** What [dst[k]] becomes when it holds [dv] and the fragment [sv]. *)
Fixpoint merge_value (k : string) (dv sv : json) {struct sv} : json :=
  match sv with
  | Obj _ sm =>
      match dv with
      | Obj t dm =>
          if is_hooks_key k then write_back t dm (mergeHooks dm sm)
          else write_back t dm
            ((fix go (src dst : object) {struct src} : object :=
               match src with
               | [] => dst
               | (k', sv') :: rest =>
                   go rest (fset k' (match fget k' dst with
                                     | None => sv'
                                     | Some dv' => merge_value k' dv' sv'
                                     end) dst)
               end) sm dm)
      | _ => sv
      end
  | Arr _ sa =>
      match dv with
      | Arr _ da => Arr AnySlice (unionAppend da sa)
      | _ => sv
      end
  | _ => sv
  end.

Fixpoint deepMerge (dst src : object) : object :=
  match src with
  | [] => dst
  | (k, sv) :: rest =>
      deepMerge (fset k (match fget k dst with
                         | None => sv
                         | Some dv => merge_value k dv sv
                         end) dst) rest
  end.

(** ** OpenCode's permission rules *)

Definition is_rule_category (category : string) : bool :=
  (category =s? "bash") || (category =s? "read") || (category =s? "edit").

(** The rules of a category before the generated ones are added; [None] when the
    operator's own setting stands. *)
Definition category_rules (inheritedFallback : string) (existingCategory : option json) : option object :=
  match existingCategory with
  | Some (Obj _ rules) =>
      if inheritedFallback <>s? "" then
        let existingFallback := fget "*" rules in
        let existingRank := permissionVerdictRank existingFallback in
        let inheritedRank := permissionVerdictRank (Some (Str inheritedFallback)) in
        if match existingFallback with None => true | Some _ => false end ||
           ((0 <? existingRank) && (existingRank <? inheritedRank))%nat
        then Some (fset "*" (Str inheritedFallback) rules)
        else Some rules
      else Some rules
  | Some (Str action) =>
      if action =s? "deny" then None
      else
        let actionRank := permissionVerdictRank (Some (Str action)) in
        let fallback :=
          if ((actionRank =? 0) ||
              (permissionVerdictRank (Some (Str inheritedFallback)) <? actionRank))%nat
          then action else inheritedFallback in
        Some (if fallback <>s? "" then [("*", Str fallback)] else [])
  | Some _ => None
  | None => Some (if inheritedFallback <>s? "" then [("*", Str inheritedFallback)] else [])
  end.

Definition add_rule (rules : object) (rule : string * json) : object :=
  let '(pattern, generatedVerdict) := rule in
  let existingVerdict := fget pattern rules in
  let existingRank := permissionVerdictRank existingVerdict in
  let generatedRank := permissionVerdictRank (Some generatedVerdict) in
  if match existingVerdict with None => true | Some _ => false end ||
     ((0 <? existingRank) && (existingRank <? generatedRank))%nat
  then fset pattern generatedVerdict rules
  else rules.

Definition merge_category (inheritedFallback : string) (permission : object) (entry : string * json)
    : object :=
  let '(category, value) := entry in
  if negb (is_rule_category category) then deepMerge permission [(category, value)]
  else
    match toStringAnyMap value with
    | None => deepMerge permission [(category, value)]
    | Some generatedRules =>
        match category_rules inheritedFallback (fget category permission) with
        | None => permission
        | Some rules => fset category (Obj AnyMap (fold_left add_rule generatedRules rules)) permission
        end
    end.

Definition order_category (permission : object) (category : string) : object :=
  match get_map category permission with
  | Some rules => fset category (Obj PermissionRules rules) permission
  | None => permission
  end.

(** The permission object the merge starts from and the fallback its [*] rule
    gives; [None] when the operator's own setting stands. *)
Definition permission_base (existingPermission : option json) : option (object * string) :=
  let recognized action := if (0 <? permissionVerdictRank (Some (Str action)))%nat then action else "" in
  match existingPermission with
  | Some (Obj _ permission) =>
      Some (permission, match fget "*" permission with Some (Str action) => recognized action | _ => "" end)
  | Some (Str action) =>
      if action =s? "deny" then None else Some ([("*", Str action)], recognized action)
  | Some _ => None
  | None => Some ([], "")
  end.

Definition mergeOpencodePermission (existing generated : object) : object :=
  match permission_base (fget "permission" existing) with
  | None => existing
  | Some (permission, inheritedFallback) =>
      let permission := fold_left (merge_category inheritedFallback) generated permission in
      let permission := fold_left order_category ["bash"; "read"; "edit"] permission in
      fset "permission" (Obj AnyMap permission) existing
  end.

(** ** What earlier releases wrote *)

Definition retiredBashFloorPatterns : list string :=
  ["rm -rf *"; "rm -fr *"; "rm -r -f *"; "rm -f -r *"; "find * -delete"].

Definition retiredBashFloorRule (value : json) (wrapped : bool) : bool :=
  match value with
  | Str rule =>
      existsb (fun pattern => rule =s? (if wrapped then "Bash(" +:+ pattern +:+ ")" else pattern))
        retiredBashFloorPatterns
  | _ => false
  end.

Definition drop_retired_tier (permissions : object) (tier : string) : object :=
  match get_slice tier permissions with
  | None => permissions
  | Some entries =>
      fset tier (Arr AnySlice (List.filter (fun e => negb (retiredBashFloorRule e true)) entries)) permissions
  end.

Definition removeRetiredBashFloorRules (existing : object) (plane : string) : object :=
  let existing :=
    if plane =s? "claude"
    then update_map "permissions" (fun permissions => fold_left drop_retired_tier ["deny"; "ask"] permissions)
           existing
    else existing in
  if plane =s? "opencode" then
    update_map "permission"
      (update_map "bash" (fun bash => fold_left (fun bash pattern => fdel pattern bash)
                                        retiredBashFloorPatterns bash)) existing
  else existing.

Definition is_plugin_entry (entry : json) : bool :=
  match entry with
  | Str entryPath =>
      (entryPath <>s? "") && EqualFold (Base (ReplaceByte entryPath "\" slash)) "guardrail.js"
  | _ => false
  end.

Definition absorbGuardrailPluginEntries (existing : object) : object :=
  match get_slice "plugin" existing with
  | None => existing
  | Some plugins =>
      match List.filter (fun e => negb (is_plugin_entry e)) plugins with
      | [] => fdel "plugin" existing
      | kept => fset "plugin" (Arr AnySlice kept) existing
      end
  end.

(** ** The merge of one fragment *)

(** [mergeInto] between reading the file and recording ownership. *)
Definition merge_document (plane : string) (existing frag : object) : object :=
  let existing := removeRetiredBashFloorRules existing plane in
  let existing :=
    if (plane =s? "") || (plane =s? "opencode") then absorbGuardrailPluginEntries existing else existing in
  match get_map "permission" frag with
  | Some permission => deepMerge (mergeOpencodePermission existing permission) (fdel "permission" frag)
  | None => deepMerge existing frag
  end.

(** ** Counts *)

Definition any_slice (v : json) : option (list json) :=
  match v with Arr AnySlice l => Some l | _ => None end.
Definition any_map (v : option json) : option object :=
  match v with Some (Obj AnyMap m) => Some m | _ => None end.

Definition count {A} (p : A -> bool) (l : list A) : nat := length (List.filter p l).

Definition sum_over {A} (f : A -> nat) (l : list A) : nat := fold_right (fun a n => (f a + n)%nat) 0%nat l.

Definition CountUnmarkedGuardrailGroups (doc : object) : nat :=
  match any_map (fget "hooks" doc) with
  | None => 0
  | Some hooks =>
      sum_over (fun ev => match any_slice ev.2 with
                          | Some groups => count unmarkedGuardrailGroup groups
                          | None => 0
                          end%nat) hooks
  end.

Definition CountUnmarkedGuardrailDuplicates (doc : object) : nat :=
  match any_map (fget "hooks" doc) with
  | None => 0
  | Some hooks =>
      sum_over (fun ev => match any_slice ev.2 with
                          | Some groups =>
                              if existsb ownedByGuardrail groups then count unmarkedGuardrailGroup groups else 0
                          | None => 0
                          end%nat) hooks
  end.

Definition check_group_slice (v : json) : nat :=
  match toAnySlice v with Some groups => count unmarkedGuardrailGroup groups | None => 0 end.

Definition CountUnmarkedAntigravityGroups (doc : object) : nat :=
  (match any_map (fget "guardrail" doc) with
   | Some guardrail => sum_over (fun ev => check_group_slice ev.2) guardrail
   | None => 0
   end +
   match any_map (fget "hooks" doc) with
   | Some hooks => sum_over (fun ev => check_group_slice ev.2) hooks
   | None => 0
   end)%nat.

(** ** Lemmas: what a merge leaves under a key *)

Lemma merge_value_obj k t dm t' sm :
  merge_value k (Obj t dm) (Obj t' sm) =
  write_back t dm (if is_hooks_key k then mergeHooks dm sm else deepMerge dm sm).
Proof.
  cbn [merge_value]. destruct (is_hooks_key k); [done|]. f_equal.
  revert dm. induction sm as [|[k' sv] sm IH]; intros dm; [done|]. cbn [deepMerge]. apply IH.
Qed.

Lemma deepMerge_get dst src k :
  NoDup src.*1 ->
  fget k (deepMerge dst src) =
  match fget k src with
  | None => fget k dst
  | Some sv => Some (match fget k dst with None => sv | Some dv => merge_value k dv sv end)
  end.
Proof.
  revert dst. induction src as [|[k' sv] src IH]; intros dst Hnd; [done|].
  apply NoDup_cons in Hnd as [Hk Hnd]. cbn [deepMerge fget]. rewrite IH by done. rewrite !fget_fset.
  destruct (k =s? k') eqn:E; [|done]. breflect. subst k'.
  by rewrite (proj2 (fget_None k src)).
Qed.

Lemma deepMerge_sorted dst src : fsorted dst -> fsorted (deepMerge dst src).
Proof.
  revert dst. induction src as [|[k sv] src IH]; intros dst Hs; [done|]. cbn [deepMerge].
  by apply IH, fsorted_fset.
Qed.

(** What [mergeHooks] leaves under an event. *)
Definition event_after (dv sv : option json) : option json :=
  match sv with
  | Some sv =>
      Some (match toAnySlice sv with
            | None => sv
            | Some sGroups =>
                Arr AnySlice (merge_groups
                  (default [] (match dv with Some v => toAnySlice v | None => None end)) sGroups)
            end)
  | None =>
      match dv with
      | Some dv =>
          match toAnySlice dv with
          | None => Some dv
          | Some groups =>
              let kept := List.filter foreign groups in
              if (length kept =? length groups)%nat then Some dv
              else match kept with [] => None | _ => Some (Arr AnySlice kept) end
          end
      | None => None
      end
  end.

Lemma merge_event_get dst e sv k :
  fget k (merge_event dst (e, sv)) = if k =s? e then event_after (fget e dst) (Some sv) else fget k dst.
Proof.
  unfold merge_event, event_after, get_slice. destruct (toAnySlice sv); by rewrite fget_fset.
Qed.

Lemma merge_events_get dst src k :
  NoDup src.*1 ->
  fget k (fold_left merge_event src dst) =
  match fget k src with None => fget k dst | Some sv => event_after (fget k dst) (Some sv) end.
Proof.
  revert dst. induction src as [|[k' sv] src IH]; intros dst Hnd; [done|].
  apply NoDup_cons in Hnd as [Hk Hnd]. cbn [fold_left fget].
  rewrite IH, merge_event_get by done. destruct (k =s? k') eqn:E; [|done]. breflect. subst k'.
  by rewrite (proj2 (fget_None k src)).
Qed.

Lemma retire_event_get dst event k :
  fget k (retire_event dst event) = if k =s? event then event_after (fget event dst) None else fget k dst.
Proof.
  unfold retire_event, get_slice. destruct (fget event dst) as [v|] eqn:Ev.
  2: { simpl. destruct (k =s? event) eqn:E; [|done]. breflect. by subst. }
  unfold event_after. destruct (toAnySlice v) as [groups|].
  2: { destruct (k =s? event) eqn:E; [|done]. breflect. by subst. }
  destruct (length (List.filter foreign groups) =? length groups)%nat.
  { destruct (k =s? event) eqn:E; [|done]. breflect. by subst. }
  destruct (List.filter foreign groups); [apply fget_fdel|apply fget_fset].
Qed.

Lemma retire_events_get evs dst k :
  NoDup evs ->
  fget k (fold_left retire_event evs dst) =
  if in_list k evs then event_after (fget k dst) None else fget k dst.
Proof.
  revert dst. induction evs as [|e evs IH]; intros dst Hnd; [done|].
  apply NoDup_cons in Hnd as [He Hnd]. cbn [fold_left]. rewrite IH, retire_event_get by done.
  unfold in_list. cbn [existsb]. fold (in_list k evs).
  destruct (k =s? e) eqn:E; breflect; [|done]. subst.
  assert (in_list e evs = false) as -> by by apply in_list_false. done.
Qed.

Lemma NoDup_List_filter {A} (p : A -> bool) l : NoDup l -> NoDup (List.filter p l).
Proof.
  induction l as [|a l IH]; intros H; simpl; [constructor|]. apply NoDup_cons in H as [Ha H].
  destruct (p a); [|auto]. constructor; [|auto].
  intros Hin. apply list_elem_of_In, filter_In in Hin as [Hin _]. by apply list_elem_of_In in Hin.
Qed.

Lemma elem_of_List_filter {A} (p : A -> bool) l (a : A) : a ∈ List.filter p l <-> a ∈ l /\ p a = true.
Proof. by rewrite list_elem_of_In, filter_In, <- list_elem_of_In. Qed.

Lemma retireDroppedEvents_get dst src k :
  NoDup dst.*1 ->
  fget k (retireDroppedEvents dst src) =
  match fget k src with Some _ => fget k dst | None => event_after (fget k dst) None end.
Proof.
  intros Hnd. unfold retireDroppedEvents. rewrite retire_events_get by by apply NoDup_List_filter.
  destruct (in_list k _) eqn:E; breflect; rewrite elem_of_List_filter in E.
  - destruct E as [_ E]. by destruct (fget k src).
  - destruct (fget k src) eqn:Es; [done|]. destruct (fget k dst) as [v|] eqn:Ed; [|done].
    exfalso. apply E. split; [|done]. destruct (decide (k ∈ dst.*1)) as [|Hn]; [done|].
    apply fget_None in Hn. congruence.
Qed.

Lemma fold_merge_event_sorted src dst : fsorted dst -> fsorted (fold_left merge_event src dst).
Proof.
  revert dst. induction src as [|[k sv] src IH]; intros dst Hs; [done|]. cbn [fold_left]. apply IH.
  unfold merge_event. case_match; by apply fsorted_fset.
Qed.

Lemma retire_sorted evs dst : fsorted dst -> fsorted (fold_left retire_event evs dst).
Proof.
  revert dst. induction evs as [|e evs IH]; intros dst Hs; [done|]. cbn [fold_left]. apply IH.
  unfold retire_event. repeat case_match; auto using fsorted_fset, fsorted_fdel.
Qed.

Lemma mergeHooks_sorted dst src : fsorted dst -> fsorted (mergeHooks dst src).
Proof. intros H. by apply retire_sorted, fold_merge_event_sorted. Qed.

Lemma mergeHooks_get dst src k :
  fsorted dst -> NoDup src.*1 ->
  fget k (mergeHooks dst src) = event_after (fget k dst) (fget k src).
Proof.
  intros Hd Hs. unfold mergeHooks.
  rewrite retireDroppedEvents_get by by apply fsorted_NoDup, fold_merge_event_sorted.
  rewrite merge_events_get by done. by destruct (fget k src).
Qed.

(** ** Lemmas: a merge on what the file holds afterwards

    The fragments are built in Go with typed slices; what a later run reads back
    is [parsed].  A merge of a fragment leaves what a merge of its parsed form
    does. *)

Lemma map_parsed_documents l : Forall document l -> map parsed l = l.
Proof. induction 1 as [|v l Hv _ IH]; [done|]. simpl. by rewrite document_parsed, IH. Qed.

Lemma List_filter_Forall {A} (P : A -> Prop) (p : A -> bool) l : Forall P l -> Forall P (List.filter p l).
Proof. rewrite !Forall_forall. intros H x Hx%elem_of_List_filter. naive_solver. Qed.

Lemma parsed_owned g : fragment g -> ownedByGuardrail (parsed g) = ownedByGuardrail g.
Proof.
  destruct g as [| | | | |t m]; try done. rewrite fragment_obj. intros (-> & _ & _).
  unfold ownedByGuardrail, is_owned_id. cbn [parsed]. fold (parsed_object m). rewrite fget_parsed.
  by destruct (fget "id" m) as [[]|].
Qed.

Lemma parsed_incoming seen sg :
  Forall fragment sg -> map parsed (incoming_groups seen sg) = incoming_groups seen (map parsed sg).
Proof.
  intros H. revert seen. induction H as [|g sg Hg _ IH]; intros seen; [done|]. cbn [incoming_groups map].
  unfold jsonKey. rewrite parsed_owned, marshal_parsed by done.
  destruct (ownedByGuardrail g); [by rewrite <- IH|].
  destruct (in_list _ seen); [done|]. by rewrite <- IH.
Qed.

Lemma parsed_unseen seen l :
  Forall fragment l -> map parsed (append_unseen seen l) = append_unseen seen (map parsed l).
Proof.
  intros H. revert seen. induction H as [|g l Hg _ IH]; intros seen; [done|]. cbn [append_unseen map].
  unfold jsonKey. rewrite marshal_parsed by done. destruct (in_list _ seen); [done|]. by rewrite <- IH.
Qed.

Lemma parsed_merge_groups dg sg :
  Forall document dg -> Forall fragment sg ->
  map parsed (merge_groups dg sg) = merge_groups dg (map parsed sg).
Proof.
  intros Hd Hs. unfold merge_groups. rewrite map_app, parsed_incoming by done.
  by rewrite map_parsed_documents by by apply List_filter_Forall.
Qed.

Definition kept_document (v : option json) : Prop :=
  match v with Some v => document v | None => True end.

Lemma parsed_event dv sv :
  kept_document dv -> match sv with Some s => fragment s | None => True end ->
  parsed <$> event_after dv sv = event_after dv (parsed <$> sv).
Proof.
  intros Hd Hs. destruct sv as [sv|]; cbn [fmap option_fmap option_map].
  - unfold event_after. cbn [fmap option_fmap option_map]. f_equal.
    destruct sv as [| | | |t sg|t m]; try done. cbn [toAnySlice parsed]. f_equal.
    apply fragment_arr in Hs. apply parsed_merge_groups; [|done].
    destruct dv as [[| | | |t' dg|]|]; cbn; try by constructor. by apply document_arr in Hd as [_ Hd].
  - destruct dv as [dv|]; [|done]. unfold event_after. simpl in Hd.
    destruct (toAnySlice dv) as [dg|] eqn:Ea.
    2: { cbn [fmap option_fmap option_map]. by rewrite document_parsed. }
    destruct dv as [| | | |t dg'|t m]; try discriminate Ea. injection Ea as ->.
    pose proof Hd as Hd2. apply document_arr in Hd2 as [-> Hd2].
    destruct (_ =? _)%nat; [simpl; f_equal; by apply (document_parsed (Arr AnySlice dg))|].
    pose proof (List_filter_Forall document foreign dg Hd2) as Hf.
    destruct (List.filter foreign dg) as [|g kept]; [done|]. simpl. f_equal.
    by apply (document_parsed (Arr AnySlice (g :: kept))), document_arr.
Qed.

Lemma fget_kept_document m k : Forall (fun kv => document kv.2) m -> kept_document (fget k m).
Proof. intros H. destruct (fget k m) eqn:E; [|done]. by apply (fget_Forall (fun kv => document kv.2) m k _ H). Qed.

Lemma fget_fragment m k :
  Forall (fun kv => fragment kv.2) m -> match fget k m with Some s => fragment s | None => True end.
Proof. intros H. destruct (fget k m) eqn:E; [|done]. by apply (fget_Forall (fun kv => fragment kv.2) m k _ H). Qed.

Lemma parsed_mergeHooks dm sm :
  document (Obj AnyMap dm) -> fragment (Obj AnyMap sm) ->
  parsed_object (mergeHooks dm sm) = mergeHooks dm (parsed_object sm).
Proof.
  rewrite document_obj, fragment_obj. intros (_ & Hsd & Hd) (_ & Hss & Hs).
  apply fext; [by apply fsorted_parsed, mergeHooks_sorted|by apply mergeHooks_sorted|].
  intros k. rewrite fget_parsed, !mergeHooks_get, fget_parsed
    by (done || apply fsorted_NoDup; by rewrite ?fsorted_parsed).
  apply parsed_event; [by apply fget_kept_document|by apply fget_fragment].
Qed.

Lemma parsed_deepMerge_fields dm sm :
  document (Obj AnyMap dm) -> fragment (Obj AnyMap sm) ->
  Forall (fun kv => forall k dv, document dv ->
    parsed (merge_value k dv kv.2) = merge_value k dv (parsed kv.2)) sm ->
  parsed_object (deepMerge dm sm) = deepMerge dm (parsed_object sm).
Proof.
  intros Hd Hs Hf. pose proof Hd as (_ & Hsd & Hdd)%document_obj. pose proof Hs as (_ & Hss & Hss2)%fragment_obj.
  apply fext; [by apply fsorted_parsed, deepMerge_sorted|by apply deepMerge_sorted|].
  intros k. rewrite fget_parsed, !deepMerge_get, fget_parsed
    by (apply fsorted_NoDup; by rewrite ?fsorted_parsed).
  pose proof (fget_kept_document dm k Hdd) as Hdk.
  destruct (fget k sm) as [sv|] eqn:Es; simpl.
  - f_equal. destruct (fget k dm) as [dv|]; [|done].
    by apply (fget_Forall _ sm k sv Hf).
  - destruct (fget k dm) as [dv|]; [|done]. simpl. by rewrite document_parsed.
Qed.

Lemma parsed_merge_value sv : forall k dv,
  document dv -> fragment sv -> parsed (merge_value k dv sv) = merge_value k dv (parsed sv).
Proof.
  induction sv as [|b|t|s|t l IH|t sm IH] using json_rect'; intros k dv Hd Hs; try done.
  - apply fragment_arr in Hs. destruct dv as [| | | |t' da|]; try done. apply document_arr in Hd as [-> Hd].
    cbn [merge_value parsed]. unfold unionAppend. by rewrite map_app, parsed_unseen, map_parsed_documents.
  - destruct dv as [| | | | |t' dm]; try done. pose proof Hs as (-> & Hss & Hsf)%fragment_obj.
    pose proof Hd as (-> & _ & _)%document_obj. cbn [parsed]. fold (parsed_object sm).
    rewrite !merge_value_obj. unfold write_back. cbn [parsed]. f_equal. change (map _ ?m) with (parsed_object m).
    destruct (is_hooks_key k); [by apply parsed_mergeHooks|]. apply parsed_deepMerge_fields; try done.
    rewrite Forall_forall in *. eauto.
Qed.

Lemma parsed_deepMerge dm sm :
  document (Obj AnyMap dm) -> fragment (Obj AnyMap sm) ->
  parsed_object (deepMerge dm sm) = deepMerge dm (parsed_object sm).
Proof.
  intros Hd Hs. apply parsed_deepMerge_fields; [done..|]. apply fragment_obj in Hs as (_ & _ & Hs).
  rewrite Forall_forall in *. intros kv Hkv k dv Hdv. apply parsed_merge_value; auto.
Qed.

(** ** Lemmas: documents stay documents, and fragments fragments *)

Lemma Forall_incoming (P : json -> Prop) seen sg : Forall P sg -> Forall P (incoming_groups seen sg).
Proof.
  intros H. revert seen. induction H as [|g sg Hg _ IH]; intros seen; [constructor|]. cbn [incoming_groups].
  repeat case_match; auto.
Qed.

Lemma Forall_unseen (P : json -> Prop) seen l : Forall P l -> Forall P (append_unseen seen l).
Proof.
  intros H. revert seen. induction H as [|g l Hg _ IH]; intros seen; [constructor|]. cbn [append_unseen].
  repeat case_match; auto.
Qed.

Lemma document_list v l : document v -> toAnySlice v = Some l -> v = Arr AnySlice l /\ Forall document l.
Proof. destruct v; try done. intros [-> H]%document_arr [= ->]. done. Qed.

Section Structure.
Context {Q : json -> Prop} `{!Structural Q}.

Definition kept (v : option json) : Prop := match v with Some v => Q v | None => True end.

Lemma structural_slice v l : Q v -> toAnySlice v = Some l -> Forall Q l.
Proof. destruct v; try done. intros H [= ->]. by apply structural_elements in H. Qed.

Lemma kept_get t m k : Q (Obj t m) -> kept (fget k m).
Proof.
  rewrite structural_object. intros (_ & _ & H). destruct (fget k m) eqn:E; [|done].
  by apply (fget_Forall (fun kv => Q kv.2) m k _ H).
Qed.

Lemma structural_event dv sv : kept dv -> kept sv -> kept (event_after dv sv).
Proof.
  intros Hd Hs. destruct sv as [sv|]; simpl in Hs |- *.
  - destruct (toAnySlice sv) as [sg|] eqn:E; [|done]. apply structural_slice in E; [|done].
    apply structural_list, Forall_app. split; [|by apply Forall_incoming].
    apply List_filter_Forall. destruct dv as [dv|]; [|constructor].
    destruct (toAnySlice dv) as [dg|] eqn:E2; [by apply (structural_slice dv dg)|constructor].
  - destruct dv as [dv|]; [|done]. destruct (toAnySlice dv) as [groups|] eqn:E; [|done].
    destruct (_ =? _)%nat; [done|]. apply structural_slice in E; [|done].
    pose proof (List_filter_Forall Q foreign groups E).
    destruct (List.filter foreign groups); [done|]. by apply structural_list.
Qed.

(** A map is given by what it holds under each key. *)
Lemma structural_by_get m : fsorted m -> (forall k, kept (fget k m)) -> Q (Obj AnyMap m).
Proof.
  intros Hs H. apply structural_object. split; [done|]. split; [done|]. apply Forall_forall. intros [k v] Hin.
  specialize (H k). by rewrite (fget_elem k v m) in H.
Qed.

Lemma structural_mergeHooks dm sm :
  Q (Obj AnyMap dm) -> Q (Obj AnyMap sm) -> Q (Obj AnyMap (mergeHooks dm sm)).
Proof.
  intros Hd Hs. pose proof Hd as (_ & Hsd & _)%structural_object.
  pose proof Hs as (_ & Hss & _)%structural_object.
  apply structural_by_get; [by apply mergeHooks_sorted|]. intros k.
  rewrite mergeHooks_get by (done || by apply fsorted_NoDup).
  apply structural_event; [exact (kept_get _ dm k Hd)|exact (kept_get _ sm k Hs)].
Qed.

Lemma structural_deepMerge_fields dm sm :
  Q (Obj AnyMap dm) -> Q (Obj AnyMap sm) ->
  Forall (fun kv => forall k dv, Q dv -> Q (merge_value k dv kv.2)) sm -> Q (Obj AnyMap (deepMerge dm sm)).
Proof.
  intros Hd Hs Hf. pose proof Hd as (_ & Hsd & _)%structural_object.
  pose proof Hs as (_ & Hss & _)%structural_object.
  apply structural_by_get; [by apply deepMerge_sorted|]. intros k.
  rewrite deepMerge_get by by apply fsorted_NoDup.
  pose proof (kept_get _ dm k Hd) as Hdk. pose proof (kept_get _ sm k Hs) as Hsk.
  destruct (fget k sm) as [sv|] eqn:Es; [|done]. simpl in *. destruct (fget k dm); [|done].
  by apply (fget_Forall _ sm k sv Hf).
Qed.

Lemma structural_merge_value sv : forall k dv, Q dv -> Q sv -> Q (merge_value k dv sv).
Proof using All.
  induction sv as [|b|t|s|t l IH|t sm IH] using json_rect'; intros k dv Hd Hs; try done.
  - destruct dv as [| | | |t' da|]; try done. apply structural_elements in Hd, Hs.
    cbn [merge_value]. apply structural_list, Forall_app. split; [done|by apply Forall_unseen].
  - destruct dv as [| | | | |t' dm]; try done. pose proof Hs as (-> & _ & Hsf)%structural_object.
    pose proof Hd as (-> & _ & _)%structural_object. rewrite merge_value_obj. unfold write_back.
    destruct (is_hooks_key k); [by apply structural_mergeHooks|]. apply structural_deepMerge_fields; try done.
    rewrite Forall_forall in *. eauto.
Qed.

Lemma structural_deepMerge dm sm :
  Q (Obj AnyMap dm) -> Q (Obj AnyMap sm) -> Q (Obj AnyMap (deepMerge dm sm)).
Proof using All.
  intros Hd Hs. apply structural_deepMerge_fields; [done..|]. apply structural_object in Hs as (_ & _ & Hs).
  rewrite Forall_forall in *. intros kv Hkv k dv Hdv. apply structural_merge_value; auto.
Qed.
End Structure.

(** ** What the generators emit *)

(** A hook group of ours: it carries the marker, and is recognised without it. *)
Definition marked (g : json) : bool :=
  match g with
  | Obj AnyMap m => is_owned_id m && unmarkedGuardrailGroup (Obj AnyMap (fdel "id" m))
  | _ => false
  end.

Definition generated_event (ev : string * json) : bool :=
  (ev.1 <>s? "") &&
  match ev.2 with
  | Arr _ groups => forallb marked groups
  | Obj _ _ => false
  | _ => true
  end.

(** A fragment the merge is meant for: named keys, hook events of marked groups,
    other lists without groups of ours. *)
Fixpoint generated (k : string) (v : json) : bool :=
  match v with
  | Obj _ m =>
      if is_hooks_key k then forallb generated_event m
      else (fix go (m : object) :=
              match m with
              | [] => true
              | (k', v') :: rest => (k' <>s? "") && generated k' v' && go rest
              end) m
  | Arr _ l => forallb (fun e => negb (ownedByGuardrail e)) l
  | _ => true
  end.

Definition generated_fragment (frag : object) : bool := generated "" (Obj AnyMap frag).

Lemma generated_obj k t m :
  is_hooks_key k = false ->
  (generated k (Obj t m) = true <-> Forall (fun kv => kv.1 <> "" /\ generated kv.1 kv.2 = true) m).
Proof.
  intros Hk. cbn [generated]. rewrite Hk. induction m as [|[k' v] m IH]; [split; [constructor|done]|].
  rewrite Forall_cons, <- IH, !andb_true_iff, negb_true_iff, String.eqb_neq. done.
Qed.

Lemma marked_owned g : marked g = true -> ownedByGuardrail g = true.
Proof. destruct g as [| | | | |[] m]; try done. intros [? _]%andb_true_iff. done. Qed.

Lemma owned_not_foreign g : ownedByGuardrail g = true -> foreign g = false.
Proof. unfold foreign. by intros ->. Qed.

(** ** Merging again changes nothing *)

Lemma incoming_owned seen sg : Forall (fun g => ownedByGuardrail g = true) sg -> incoming_groups seen sg = sg.
Proof. induction 1 as [|g sg Hg _ IH]; [done|]. simpl. by rewrite Hg, IH. Qed.

Lemma filter_filter_same {A} (p : A -> bool) l : List.filter p (List.filter p l) = List.filter p l.
Proof. rewrite filter_filter_and. apply List.filter_ext. intros a. by destruct (p a). Qed.

Lemma filter_none {A} (p : A -> bool) l : Forall (fun a => p a = false) l -> List.filter p l = [].
Proof. induction 1 as [|a l Ha _ IH]; [done|]. simpl. by rewrite Ha. Qed.

Lemma filter_all {A} (p : A -> bool) l : Forall (fun a => p a = true) l -> List.filter p l = l.
Proof. induction 1 as [|a l Ha _ IH]; [done|]. simpl. by rewrite Ha, IH. Qed.

Lemma merge_groups_owned dg sg :
  Forall (fun g => ownedByGuardrail g = true) sg -> merge_groups dg sg = List.filter foreign dg ++ sg.
Proof. intros H. unfold merge_groups. by rewrite incoming_owned. Qed.

Lemma merge_groups_idem dg sg :
  Forall (fun g => ownedByGuardrail g = true) sg -> merge_groups (merge_groups dg sg) sg = merge_groups dg sg.
Proof.
  intros H. rewrite !merge_groups_owned by done. rewrite List.filter_app, filter_filter_same.
  rewrite (filter_none foreign sg), app_nil_r; [done|].
  eapply Forall_impl; [exact H|]. intros g Hg. by apply owned_not_foreign.
Qed.

Lemma unseen_again seen l :
  Forall (fun v => in_list (jsonKey v) seen = true) l -> append_unseen seen l = [].
Proof. induction 1 as [|v l Hv _ IH]; [done|]. simpl. by rewrite Hv. Qed.

Lemma unseen_covers seen l v : v ∈ l -> jsonKey v ∈ seen ++ map jsonKey (append_unseen seen l).
Proof.
  revert seen. induction l as [|w l IH]; intros seen Hin; [by apply elem_of_nil in Hin|].
  cbn [append_unseen]. destruct (in_list (jsonKey w) seen) eqn:E; breflect.
  - apply elem_of_cons in Hin as [->|Hin]; [set_solver|auto].
  - cbn [map]. apply elem_of_cons in Hin as [->|Hin]; [set_solver|].
    specialize (IH (jsonKey w :: seen) Hin). set_solver.
Qed.

Lemma unionAppend_idem da sa : unionAppend (unionAppend da sa) sa = unionAppend da sa.
Proof.
  unfold unionAppend at 1. rewrite unseen_again, app_nil_r; [done|].
  apply Forall_forall. intros v Hv. apply in_list_true. unfold unionAppend. rewrite map_app.
  by apply unseen_covers.
Qed.

Lemma unionAppend_self sa : unionAppend sa sa = sa.
Proof.
  unfold unionAppend. rewrite unseen_again, app_nil_r; [done|]. apply Forall_forall. intros v Hv.
  apply in_list_true, list_elem_of_fmap. by exists v.
Qed.

(** Twice is once, and a fragment is its own merge. *)
Definition merges_once (k : string) (sv : json) : Prop :=
  merge_value k sv sv = sv /\
  forall dv, document dv -> merge_value k (merge_value k dv sv) sv = merge_value k dv sv.

Lemma event_owned_groups sv sg :
  generated_event sv = true -> toAnySlice sv.2 = Some sg -> Forall (fun g => ownedByGuardrail g = true) sg.
Proof.
  destruct sv as [e v]. unfold generated_event. cbn [fst snd]. intros H Hv. destruct v; try done. injection Hv as ->.
  apply andb_true_iff in H as [_ H]. rewrite forallb_forall in H. apply Forall_forall. intros g Hg.
  by apply marked_owned, H, list_elem_of_In.
Qed.

Lemma event_after_idem dv sv e :
  match sv with Some s => generated_event (e, s) = true | None => True end ->
  event_after (event_after dv sv) sv = event_after dv sv.
Proof.
  intros Hg. destruct sv as [sv|].
  - cbn [event_after]. f_equal. destruct (toAnySlice sv) as [sg|] eqn:E; [|done].
    cbn [toAnySlice default]. f_equal. apply merge_groups_idem. by apply (event_owned_groups (e, sv)).
  - destruct dv as [dv|]; [|done]. cbn [event_after]. destruct (toAnySlice dv) as [groups|] eqn:E; [|by rewrite E].
    destruct (length (List.filter foreign groups) =? length groups)%nat eqn:El; [by rewrite E, El|].
    destruct (List.filter foreign groups) as [|g kept] eqn:Ef; [done|]. cbn [toAnySlice].
    rewrite <- Ef, filter_filter_same, Nat.eqb_refl. done.
Qed.

Lemma event_after_self sv e :
  document sv -> generated_event (e, sv) = true -> event_after (Some sv) (Some sv) = Some sv.
Proof.
  intros Hd Hg. cbn [event_after]. f_equal. destruct (toAnySlice sv) as [sg|] eqn:E; [|done].
  pose proof (event_owned_groups (e, sv) sg Hg E) as Ho. apply document_list in E as [-> _]; [|done].
  cbn [default]. f_equal. rewrite merge_groups_owned, filter_none; [done| |done].
  eapply Forall_impl; [exact Ho|]. intros g Hgo. by apply owned_not_foreign.
Qed.

Section HooksAgain.
Context (dm sm : object).
Hypothesis (Hd : document (Obj AnyMap dm)) (Hs : document (Obj AnyMap sm)).
Hypothesis (Hg : forallb generated_event sm = true).

Lemma generated_events k :
  match fget k sm with Some s => generated_event (k, s) = true | None => True end.
Proof using Hg.
  destruct (fget k sm) as [s|] eqn:E; [|done]. rewrite forallb_forall in Hg. apply Hg, list_elem_of_In.
  by apply fget_In.
Qed.

Lemma mergeHooks_idem : mergeHooks (mergeHooks dm sm) sm = mergeHooks dm sm.
Proof using Hd Hs Hg.
  apply document_obj in Hd as (_ & Hsd & _), Hs as (_ & Hss & _).
  apply fext; [by repeat apply mergeHooks_sorted|by apply mergeHooks_sorted|]. intros k.
  rewrite !mergeHooks_get by first [done | by apply fsorted_NoDup | by apply mergeHooks_sorted].
  apply (event_after_idem _ _ k), generated_events.
Qed.

Lemma mergeHooks_self : mergeHooks sm sm = sm.
Proof using Hs Hg.
  apply document_obj in Hs as (_ & Hss & Hsd).
  apply fext; [by apply mergeHooks_sorted|done|]. intros k.
  rewrite mergeHooks_get by (done || by apply fsorted_NoDup). pose proof (generated_events k) as Hk.
  pose proof (fget_kept_document sm k Hsd) as Hdk. destruct (fget k sm) as [sv|]; [|done].
  by apply (event_after_self _ k).
Qed.
End HooksAgain.

Lemma deepMerge_once sm :
  document (Obj AnyMap sm) -> Forall (fun kv => merges_once kv.1 kv.2) sm ->
  deepMerge sm sm = sm /\
  forall dm, document (Obj AnyMap dm) -> deepMerge (deepMerge dm sm) sm = deepMerge dm sm.
Proof.
  intros Hs Hf. apply document_obj in Hs as (_ & Hss & _).
  assert (Hone : forall k sv, fget k sm = Some sv -> merges_once k sv).
  { intros k sv H. by apply (fget_Forall _ sm k sv Hf). }
  split.
  - apply fext; [by apply deepMerge_sorted|done|]. intros k. rewrite deepMerge_get by by apply fsorted_NoDup.
    destruct (fget k sm) as [sv|] eqn:E; [|done]. f_equal. by apply Hone.
  - intros dm Hd. apply document_obj in Hd as (_ & Hsd & Hd).
    apply fext; [by repeat apply deepMerge_sorted|by apply deepMerge_sorted|].
    intros k. rewrite !deepMerge_get by by apply fsorted_NoDup.
    pose proof (fget_kept_document dm k Hd) as Hdk.
    destruct (fget k sm) as [sv|] eqn:E; [|done]. f_equal. destruct (fget k dm) as [dv|]; by apply Hone.
Qed.

Lemma merge_value_not_obj k dv t sm :
  toStringAnyMap dv = None -> merge_value k dv (Obj t sm) = Obj t sm.
Proof. by destruct dv. Qed.

Lemma document_map v m : document v -> toStringAnyMap v = Some m -> v = Obj AnyMap m.
Proof. destruct v; try done. intros (-> & _)%document_obj [= ->]. done. Qed.

Lemma generated_merges_once sv : forall k,
  document sv -> generated k sv = true -> merges_once k sv.
Proof.
  induction sv as [|b|t|s|t l IH|t sm IH] using json_rect'; intros k Hs Hg; try done.
  - apply document_arr in Hs as [-> _]. split; [cbn; by rewrite unionAppend_self|].
    intros [| | | |t' da|] Hd; cbn [merge_value]; by rewrite ?unionAppend_idem, ?unionAppend_self.
  - pose proof Hs as (-> & Hss & Hsd)%document_obj.
    assert (Hm : let f dm := if is_hooks_key k then mergeHooks dm sm else deepMerge dm sm in
      f sm = sm /\ forall dm, document (Obj AnyMap dm) -> f (f dm) = f dm).
    { cbn zeta. destruct (is_hooks_key k) eqn:Ek.
      - cbn [generated] in Hg. rewrite Ek in Hg. split; [by apply mergeHooks_self|].
        intros dm Hd. by apply mergeHooks_idem.
      - apply generated_obj in Hg; [|done]. apply deepMerge_once; [done|].
        rewrite Forall_forall in *. intros kv Hkv. apply IH; [done|by apply Hsd|by apply Hg]. }
    destruct Hm as [Hself Hidem]. split; [rewrite merge_value_obj; simpl; by rewrite Hself|].
    intros dv Hd. destruct (toStringAnyMap dv) as [dm|] eqn:E.
    + apply document_map in E as ->; [|done]. rewrite !merge_value_obj. cbn [write_back].
      rewrite merge_value_obj. cbn [write_back]. by rewrite Hidem.
    + rewrite (merge_value_not_obj k dv) by done. rewrite merge_value_obj. simpl. by rewrite Hself.
Qed.

Lemma deepMerge_idem dm frag :
  document (Obj AnyMap dm) -> document (Obj AnyMap frag) -> generated_fragment frag = true ->
  deepMerge (deepMerge dm frag) frag = deepMerge dm frag.
Proof.
  intros Hd Hf Hg. unfold generated_fragment in Hg. rewrite generated_obj in Hg by done.
  apply deepMerge_once; [done| |done]. apply document_obj in Hf as (_ & _ & Hf).
  rewrite Forall_forall in *. intros kv Hkv. apply generated_merges_once; [by apply Hf|by apply Hg].
Qed.

(** ** Lemmas: the steps before the merge *)

Lemma update_map_get k f m k' :
  k' <> k -> fget k' (update_map k f m) = fget k' m.
Proof. intros Hn. unfold update_map. repeat case_match; try done. by apply fget_fset_ne. Qed.

Lemma update_map_same k f m :
  fsorted m -> (forall t sub, fget k m = Some (Obj t sub) -> write_back t sub (f sub) = Obj t sub) ->
  update_map k f m = m.
Proof.
  intros Hs H. unfold update_map. destruct (fget k m) as [[| | | | |t sub]|] eqn:E; try done.
  rewrite (H t sub eq_refl). by apply fset_same.
Qed.

Lemma retired_get plane m k :
  k <> "permissions" -> k <> "permission" -> fget k (removeRetiredBashFloorRules m plane) = fget k m.
Proof.
  intros H1 H2. unfold removeRetiredBashFloorRules. repeat case_match; by rewrite ?update_map_get by done.
Qed.

Lemma absorb_get m k : k <> "plugin" -> fget k (absorbGuardrailPluginEntries m) = fget k m.
Proof.
  intros H. unfold absorbGuardrailPluginEntries. repeat case_match; try done.
  - rewrite fget_fdel. by apply String.eqb_neq in H as ->.
  - by apply fget_fset_ne.
Qed.

Lemma opencode_get m g k : k <> "permission" -> fget k (mergeOpencodePermission m g) = fget k m.
Proof.
  intros H. unfold mergeOpencodePermission. repeat case_match; try done. by apply fget_fset_ne.
Qed.

Lemma NoDup_fdel k (m : object) : NoDup m.*1 -> NoDup (fdel k m).*1.
Proof.
  unfold fdel. induction m as [|[k' v] m IH]; intros H; [done|]. apply NoDup_cons in H as [Hk H]. simpl.
  destruct (k =s? k'); simpl; [auto|]. constructor; [|auto]. intros Hin. apply Hk.
  apply list_elem_of_fmap in Hin as (kv & -> & Hin). apply elem_of_List_filter in Hin as [Hin _].
  apply list_elem_of_fmap. by exists kv.
Qed.

(** Outside the keys those steps work on, a merge is the recursive merge. *)
Lemma merge_document_get plane doc frag k :
  NoDup frag.*1 -> k ∉ ["permissions"; "permission"; "plugin"] ->
  fget k (merge_document plane doc frag) =
  match fget k frag with
  | None => fget k doc
  | Some sv => Some (match fget k doc with None => sv | Some dv => merge_value k dv sv end)
  end.
Proof.
  intros Hnd Hk. unfold merge_document.
  assert (k <> "permissions" /\ k <> "permission" /\ k <> "plugin") as (H1 & H2 & H3) by set_solver.
  assert (Hpre : forall m, fget k (if (plane =s? "") || (plane =s? "opencode")
    then absorbGuardrailPluginEntries m else m) = fget k m).
  { intros m. case_match; [by apply absorb_get|done]. }
  destruct (get_map "permission" frag).
  - rewrite deepMerge_get, opencode_get, Hpre, retired_get by (done || by apply NoDup_fdel).
    rewrite fget_fdel. by apply String.eqb_neq in H2 as ->.
  - rewrite deepMerge_get by done. by rewrite Hpre, retired_get.
Qed.

(** ** What the operator has *)

(** The fragment holds a value at the path, or stands in its way. *)
Fixpoint names (frag : object) (path : list string) (key : string) : bool :=
  match path with
  | [] => match fget key frag with Some _ => true | None => false end
  | k :: rest =>
      match fget k frag with
      | None => false
      | Some (Obj _ m) => names m rest key
      | Some _ => true
      end
  end.

(** Where the steps before the merge work: the deny and ask tiers of Claude's
    permissions, OpenCode's permission rules, and its plugins. *)
Definition reworked (path : list string) (key : string) : bool :=
  match path ++ [key] with
  | k :: rest =>
      (k =s? "permission") || (k =s? "plugin") ||
      ((k =s? "permissions") && match rest with t :: _ => (t =s? "deny") || (t =s? "ask") | [] => true end)
  | [] => true
  end.

Lemma names_absent frag path key : names frag path key = false -> at_path frag path key = None.
Proof.
  unfold at_path. revert frag. induction path as [|k path IH]; intros frag H; simpl in H |- *.
  - by destruct (fget key frag).
  - unfold get_map. destruct (fget k frag) as [[| | | | |t m]|]; try done. simpl. by apply IH.
Qed.

Lemma at_path_cons m k path key :
  at_path m (k :: path) key =
  match fget k m with Some (Obj _ sub) => at_path sub path key | _ => None end.
Proof. unfold at_path. simpl. unfold get_map. by destruct (fget k m) as [[]|]. Qed.

Lemma deepMerge_unnamed path key : forall d f,
  document (Obj AnyMap d) -> fragment (Obj AnyMap f) ->
  Forall (fun k => is_hooks_key k = false) path -> names f path key = false ->
  at_path (deepMerge d f) path key = at_path d path key.
Proof.
  induction path as [|k path IH]; intros d f Hd Hf Hp Hn.
  - unfold at_path. cbn [containerAt]. apply fragment_obj in Hf as (_ & Hs & _).
    rewrite deepMerge_get by by apply fsorted_NoDup. simpl in Hn. by destruct (fget key f).
  - apply Forall_cons in Hp as [Hk Hp]. rewrite !at_path_cons. pose proof Hf as (_ & Hs & Hfs)%fragment_obj.
    pose proof Hd as (_ & _ & Hds)%document_obj.
    rewrite deepMerge_get by by apply fsorted_NoDup. cbn [names] in Hn.
    pose proof (fget_fragment f k Hfs) as Hfk. pose proof (fget_kept_document d k Hds) as Hdk.
    destruct (fget k f) as [[| | | | |t m]|]; try done.
    apply names_absent in Hn as Hnone. destruct (fget k d) as [dv|]; [|done].
    destruct (toStringAnyMap dv) as [dm|] eqn:E.
    + apply document_map in E as ->; [|done]. rewrite merge_value_obj, Hk. cbn [write_back].
      apply fragment_obj in Hfk as Ht. destruct Ht as [-> _]. by apply IH.
    + rewrite merge_value_not_obj by done. rewrite Hnone. by destruct dv.
Qed.

Lemma drop_tiers_get m k :
  k <> "deny" -> k <> "ask" -> fget k (fold_left drop_retired_tier ["deny"; "ask"] m) = fget k m.
Proof.
  intros H1 H2. cbn [fold_left]. unfold drop_retired_tier. repeat case_match; by rewrite ?fget_fset_ne by done.
Qed.

Lemma at_path_same m m' path key :
  (forall k, k = List.hd key path -> fget k m' = fget k m) -> at_path m' path key = at_path m path key.
Proof. intros H. destruct path as [|k path]; [by apply H|]. rewrite !at_path_cons. by rewrite H. Qed.

Lemma retired_unreworked plane doc path key :
  document (Obj AnyMap doc) -> reworked path key = false ->
  at_path (removeRetiredBashFloorRules doc plane) path key = at_path doc path key.
Proof.
  intros Hd Hr. unfold reworked in Hr.
  assert (Hhd : exists k rest, path ++ [key] = k :: rest /\ k = List.hd key path).
  { destruct path as [|k path]; by eexists _, _. }
  destruct Hhd as (k & rest & Hpk & Hk). rewrite Hpk in Hr. breflect.
  destruct (decide (k = "permissions")) as [->|Hnp].
  2: { apply at_path_same. intros k' ->. rewrite <- Hk. by apply retired_get. }
  rewrite String.eqb_refl in H0. simpl in H0. destruct path as [|k1 path]; [by simplify_eq/=|].
  simpl in Hk. subst k1. simpl in Hpk. injection Hpk as Hrest. unfold removeRetiredBashFloorRules.
  assert (Hplane : forall m, at_path (if plane =s? "opencode" then update_map "permission"
      (update_map "bash" (fun bash => fold_left (fun bash pattern => fdel pattern bash)
                                        retiredBashFloorPatterns bash)) m else m) ("permissions" :: path) key =
      at_path m ("permissions" :: path) key).
  { intros m. destruct (plane =s? "opencode"); [|done]. apply at_path_same. intros k' ->. by apply update_map_get. }
  rewrite Hplane. destruct (plane =s? "claude"); [|done]. rewrite !at_path_cons. unfold update_map.
  destruct (fget "permissions" doc) as [[| | | | |t sub]|] eqn:Ep; rewrite ?Ep; try done.
  apply (document_get AnyMap) in Ep as Hsub; [|done]. apply document_obj in Hsub as (-> & _).
  rewrite fget_fset_eq. cbn [write_back]. apply at_path_same. intros k' Hk'.
  destruct rest as [|t rest]; [by destruct path|]. breflect.
  assert (k' = t) as ->. { subst k'. destruct path; simpl in Hrest |- *; congruence. }
  by apply drop_tiers_get.
Qed.

(** The operator's groups of one event. *)
Definition foreign_groups (section event : string) (doc : object) : list json :=
  match get_map section doc with
  | Some hooks => List.filter foreign (default [] (get_slice event hooks))
  | None => []
  end.

Definition slice_of (v : option json) : list json :=
  default [] (match v with Some v => toAnySlice v | None => None end).

Lemma event_after_foreign dv sv e :
  match sv with Some s => generated_event (e, s) = true | None => True end ->
  (sv = None \/ is_Some (sv ≫= toAnySlice)) ->
  List.filter foreign (slice_of (event_after dv sv)) = List.filter foreign (slice_of dv).
Proof.
  intros Hg Hs. destruct sv as [sv|].
  - destruct Hs as [?|[sg Hs]]; [done|]. simpl in Hs. cbn [event_after]. rewrite Hs.
    change (slice_of (Some (Arr AnySlice ?l))) with l.
    pose proof (event_owned_groups (e, sv) sg Hg Hs) as Ho.
    rewrite merge_groups_owned, List.filter_app, filter_filter_same by done.
    rewrite (filter_none foreign sg), app_nil_r; [done|].
    eapply Forall_impl; [exact Ho|]. intros g Hgo. by apply owned_not_foreign.
  - destruct dv as [dv|]; [|done]. cbn [event_after]. unfold slice_of at 2.
    destruct (toAnySlice dv) as [groups|] eqn:E; [|unfold slice_of; by rewrite E].
    change (default [] (Some groups)) with groups.
    destruct (_ =? _)%nat; [unfold slice_of; by rewrite E|].
    destruct (List.filter foreign groups) as [|g kept] eqn:Ef; [done|].
    change (slice_of (Some (Arr AnySlice ?l))) with l. by rewrite <- Ef, filter_filter_same.
Qed.

Lemma mergeHooks_foreign hm sm event :
  document (Obj AnyMap hm) -> fsorted sm -> forallb generated_event sm = true ->
  (fget event sm = None \/ is_Some (get_slice event sm)) ->
  List.filter foreign (default [] (get_slice event (mergeHooks hm sm))) =
  List.filter foreign (default [] (get_slice event hm)).
Proof.
  intros Hd Hs Hg He. apply document_obj in Hd as (_ & Hsd & _).
  change (default [] (get_slice event ?m)) with (slice_of (fget event m)).
  rewrite mergeHooks_get by (done || by apply fsorted_NoDup).
  apply (event_after_foreign _ _ event); [by apply generated_events|].
  unfold get_slice in He. by destruct (fget event sm).
Qed.

(** An event the fragment does not make something else than a list of. *)
Definition keeps_event (section event : string) (frag : object) : Prop :=
  match fget section frag with
  | None => True
  | Some (Obj _ sm) => fget event sm = None \/ is_Some (get_slice event sm)
  | Some _ => False
  end.

Lemma merge_foreign_groups plane doc frag section event :
  document (Obj AnyMap doc) -> fragment (Obj AnyMap frag) -> generated_fragment frag = true ->
  is_hooks_key section = true -> keeps_event section event frag ->
  foreign_groups section event (merge_document plane doc frag) = foreign_groups section event doc.
Proof.
  intros Hd Hf Hg Hsec Hk. pose proof Hf as (_ & Hs & Hfs)%fragment_obj.
  pose proof Hd as (_ & _ & Hds)%document_obj.
  assert (Hns : section ∉ ["permissions"; "permission"; "plugin"]).
  { unfold is_hooks_key in Hsec. intros Hin. set_unfold. by destruct Hin as [->|[->|[->|[]]]]. }
  unfold foreign_groups, get_map. rewrite merge_document_get by (done || by apply fsorted_NoDup).
  unfold keeps_event in Hk. unfold generated_fragment in Hg. rewrite generated_obj in Hg by done.
  pose proof (fget_fragment frag section Hfs) as Hfk. pose proof (fget_kept_document doc section Hds) as Hdk.
  destruct (fget section frag) as [[| | | | |t sm]|] eqn:Ef; try done.
  apply (fget_Forall _ frag section _ Hg) in Ef as [_ Hgs]. cbn [snd fst generated] in Hgs. rewrite Hsec in Hgs.
  apply fragment_obj in Hfk as (-> & Hss & _).
  assert (Hnew : List.filter foreign (default [] (get_slice event sm)) = []).
  { destruct Hk as [Hk|[sg Hk]]; [by unfold get_slice; rewrite Hk|]. rewrite Hk. simpl. unfold get_slice in Hk.
    destruct (fget event sm) as [sv|] eqn:Ev; [|done]. apply filter_none. apply fget_In in Ev.
    rewrite forallb_forall in Hgs. apply list_elem_of_In, Hgs in Ev.
    eapply Forall_impl; [exact (event_owned_groups (event, sv) sg Ev Hk)|].
    intros g Hgo. by apply owned_not_foreign. }
  destruct (fget section doc) as [dv|]; [|exact Hnew]. destruct (toStringAnyMap dv) as [hm|] eqn:E.
  - apply document_map in E as ->; [|done]. rewrite merge_value_obj, Hsec. by apply mergeHooks_foreign.
  - by rewrite merge_value_not_obj.
Qed.

Lemma absorb_unreworked doc path key :
  reworked path key = false -> at_path (absorbGuardrailPluginEntries doc) path key = at_path doc path key.
Proof.
  intros Hr. apply at_path_same. intros k ->. apply absorb_get. intros He. unfold reworked in Hr.
  destruct path as [|k path]; simpl in *; subst; done.
Qed.

(** Documents through the steps before the merge. *)
Lemma document_fset m k v : document (Obj AnyMap m) -> document v -> document (Obj AnyMap (fset k v m)).
Proof.
  rewrite !document_obj. intros (_ & Hs & Hd) Hv. split; [done|]. split; [by apply fsorted_fset|].
  by apply Forall_fset.
Qed.

Lemma document_fdel m k : document (Obj AnyMap m) -> document (Obj AnyMap (fdel k m)).
Proof.
  rewrite !document_obj. intros (_ & Hs & Hd). split; [done|]. split; [by apply fsorted_fdel|].
  by apply Forall_fdel.
Qed.

Lemma document_update_map k f m :
  document (Obj AnyMap m) -> (forall sub, document (Obj AnyMap sub) -> document (Obj AnyMap (f sub))) ->
  document (Obj AnyMap (update_map k f m)).
Proof.
  intros Hd Hf. unfold update_map. destruct (fget k m) as [[| | | | |t sub]|] eqn:E; try done.
  apply (document_get AnyMap) in E as Hsub; [|done]. pose proof Hsub as (-> & _)%document_obj.
  cbn [write_back]. by apply document_fset; [|apply Hf].
Qed.

Lemma document_filter m k l p :
  document (Obj AnyMap m) -> get_slice k m = Some l ->
  document (Arr AnySlice (List.filter p l)).
Proof.
  unfold get_slice. intros Hd Hg. destruct (fget k m) as [v|] eqn:E; [|done].
  apply (document_get AnyMap) in E; [|done]. apply document_list in Hg as [_ Hg]; [|done].
  apply document_arr. split; [done|]. by apply List_filter_Forall.
Qed.

Lemma document_retired plane m :
  document (Obj AnyMap m) -> document (Obj AnyMap (removeRetiredBashFloorRules m plane)).
Proof.
  intros Hd. unfold removeRetiredBashFloorRules.
  assert (H1 : document (Obj AnyMap (if plane =s? "claude" then update_map "permissions"
      (fun permissions => fold_left drop_retired_tier ["deny"; "ask"] permissions) m else m))).
  { destruct (plane =s? "claude"); [|done]. apply document_update_map; [done|]. intros sub Hs. cbn [fold_left].
    assert (Hdrop : forall tier s, document (Obj AnyMap s) -> document (Obj AnyMap (drop_retired_tier s tier))).
    { intros tier s Hds. unfold drop_retired_tier. destruct (get_slice tier s) eqn:E; [|done].
      apply document_fset; [done|]. by eapply document_filter. }
    auto. }
  destruct (plane =s? "opencode"); [|done]. apply document_update_map; [done|]. intros perm Hp.
  apply document_update_map; [done|]. intros bash Hb.
  generalize retiredBashFloorPatterns. intros l. revert bash Hb.
  induction l as [|p l IH]; intros bash Hb; [done|]. simpl. apply IH. by apply document_fdel.
Qed.

Lemma document_absorb m :
  document (Obj AnyMap m) -> document (Obj AnyMap (absorbGuardrailPluginEntries m)).
Proof.
  intros Hd. unfold absorbGuardrailPluginEntries. destruct (get_slice "plugin" m) as [l|] eqn:E; [|done].
  pose proof (document_filter m "plugin" l (fun e => negb (is_plugin_entry e)) Hd E).
  destruct (List.filter _ l); [by apply document_fdel|by apply document_fset].
Qed.

(** ** Lemmas: permission rules *)

(** [v'] is [v], or a verdict stricter than the known one [v] is. *)
Definition tightened (v v' : json) : Prop :=
  v' = v \/
  (0 < permissionVerdictRank (Some v) < permissionVerdictRank (Some v'))%nat.

Lemma tightened_refl v : tightened v v.
Proof. by left. Qed.

Lemma tightened_trans v1 v2 v3 : tightened v1 v2 -> tightened v2 v3 -> tightened v1 v3.
Proof. unfold tightened. intros [->|H1] [->|H2]; auto; right; lia. Qed.

Lemma tightened_rank v v' :
  tightened v v' -> (permissionVerdictRank (Some v) <= permissionVerdictRank (Some v'))%nat.
Proof. intros [->|?]; lia. Qed.

(** Every rule of [rules] is in [rules'], as strict or stricter. *)
Definition rules_tightened (rules rules' : object) : Prop :=
  forall p v, fget p rules = Some v -> exists v', fget p rules' = Some v' /\ tightened v v'.

Lemma rules_tightened_refl rules : rules_tightened rules rules.
Proof. intros p v H. exists v. split; [done|apply tightened_refl]. Qed.

Lemma rules_tightened_trans r1 r2 r3 :
  rules_tightened r1 r2 -> rules_tightened r2 r3 -> rules_tightened r1 r3.
Proof.
  intros H1 H2 p v Hv. destruct (H1 p v Hv) as (v2 & Hv2 & T1), (H2 p v2 Hv2) as (v3 & Hv3 & T2).
  exists v3. split; [done|]. by eapply tightened_trans.
Qed.

Lemma rules_tightened_fset rules p v :
  match fget p rules with
  | None => True
  | Some o => (0 < permissionVerdictRank (Some o) < permissionVerdictRank (Some v))%nat
  end -> rules_tightened rules (fset p v rules).
Proof.
  intros H p' w Hw. rewrite fget_fset. destruct (p' =s? p) eqn:E; breflect.
  - subst. rewrite Hw in H. exists v. split; [done|by right].
  - exists w. split; [done|apply tightened_refl].
Qed.

Lemma raise_rule (o : option json) r :
  (match o with None => true | Some _ => false end ||
   ((0 <? permissionVerdictRank o) && (permissionVerdictRank o <? r)))%nat = true ->
  match o with None => True | Some o => (0 < permissionVerdictRank (Some o) < r)%nat end.
Proof. destruct o; [|done]. cbn [orb]. intros H. breflect. lia. Qed.

Lemma add_rule_tightens rules rule : rules_tightened rules (add_rule rules rule).
Proof.
  destruct rule as [p v]. unfold add_rule. destruct (_ || _) eqn:E; [|apply rules_tightened_refl].
  apply rules_tightened_fset. by apply raise_rule in E.
Qed.

Lemma add_rules_tighten gen rules : rules_tightened rules (fold_left add_rule gen rules).
Proof.
  revert rules. induction gen as [|g gen IH]; intros rules; [apply rules_tightened_refl|].
  simpl. eapply rules_tightened_trans; [apply add_rule_tightens|apply IH].
Qed.

(** What the operator set for a category, kept or made stricter: rules by
    pattern, an action as the fallback rule. *)
Definition category_tightened (old new : option json) : Prop :=
  match old with
  | Some (Obj _ rules) => exists t rules', new = Some (Obj t rules') /\ rules_tightened rules rules'
  | Some (Str action) =>
      new = old \/
      action <> "deny" /\
      exists t rules' v, new = Some (Obj t rules') /\ fget "*" rules' = Some v /\
        (permissionVerdictRank (Some (Str action)) <= permissionVerdictRank (Some v))%nat
  | Some _ => new = old
  | None => True
  end.

Lemma category_rules_spec fallback old rules :
  category_rules fallback old = Some rules ->
  match old with
  | Some (Obj _ existing) => rules_tightened existing rules
  | Some (Str action) =>
      action <> "deny" /\ (action = "" \/ exists v, fget "*" rules = Some v /\
        (permissionVerdictRank (Some (Str action)) <= permissionVerdictRank (Some v))%nat)
  | Some _ => False
  | None => True
  end.
Proof.
  unfold category_rules. destruct old as [[| | |action| |t existing]|]; try done.
  - destruct (action =s? "deny") eqn:Ed; [done|]. breflect. intros [= <-]. split; [done|].
    match goal with |- context [if ?b then action else fallback] =>
      set (f := if b then action else fallback) end.
    assert (Hf : f = action \/ (permissionVerdictRank (Some (Str action)) <= permissionVerdictRank (Some (Str f)))%nat).
    { unfold f. destruct (_ || _) eqn:E; [by left|]. right. breflect. done. }
    destruct (decide (action = "")) as [->|Hne]; [by left|]. right.
    destruct (f =s? "") eqn:Ef; breflect; simpl.
    + destruct Hf as [Hf|Hf]; [congruence|]. rewrite Ef in Hf. simpl in Hf.
      unfold f in Ef. destruct (_ || _) eqn:E; [congruence|]. breflect. lia.
    + exists (Str f). split; [done|]. destruct Hf as [->|Hf]; [done|exact Hf].
  - intros H. destruct (fallback <>s? ""); [|simplify_eq; apply rules_tightened_refl].
    destruct (_ || _) eqn:E; simplify_eq; [|apply rules_tightened_refl].
    apply rules_tightened_fset. by apply raise_rule in E.
Qed.

(** What a generated category leaves of the operator's. *)
Definition category_after (fallback : string) (old gen : option json) : option json :=
  match gen with
  | Some (Obj _ rules) =>
      match category_rules fallback old with
      | Some base => Some (Obj AnyMap (fold_left add_rule rules base))
      | None => old
      end
  | _ => old
  end.

Lemma category_after_tightened fallback old gen :
  (match old with Some (Str a) => a <> "" | _ => True end) ->
  category_tightened old (category_after fallback old gen).
Proof.
  intros Hne. unfold category_after.
  assert (Hsame : category_tightened old old).
  { destruct old as [[]|]; try done; [by left|]. eexists _, _. split; [done|apply rules_tightened_refl]. }
  destruct gen as [[| | | | |t rules]|]; try done.
  destruct (category_rules fallback old) as [base|] eqn:E; [|done].
  apply category_rules_spec in E. pose proof (add_rules_tighten rules base) as Ht.
  destruct old as [[| | |action| |t' existing]|]; try done.
  - destruct E as [Hd [->|(v & Hv & Hr)]]; [done|]. right. split; [done|].
    destruct (Ht _ _ Hv) as (v' & Hv' & T). eexists _, _, v'. split; [done|]. split; [done|].
    apply tightened_rank in T. lia.
  - eexists _, _. split; [done|]. by eapply rules_tightened_trans.
Qed.

(** The generated permission names rule categories by maps of rules. *)
Definition generated_permission (generated : object) : Prop :=
  fsorted generated /\ Forall (fun kv => is_rule_category kv.1 = true /\ is_Some (toStringAnyMap kv.2)) generated.

Lemma merge_category_get fallback perm c v k :
  is_rule_category c = true -> is_Some (toStringAnyMap v) ->
  fget k (merge_category fallback perm (c, v)) =
  if k =s? c then category_after fallback (fget c perm) (Some v) else fget k perm.
Proof.
  intros Hc [rules Hv]. unfold merge_category. rewrite Hc, Hv. simpl.
  destruct v as [| | | | |t m]; try done. injection Hv as ->. unfold category_after.
  destruct (category_rules fallback (fget c perm)); [by rewrite fget_fset|].
  destruct (k =s? c) eqn:E; breflect; by subst.
Qed.

Lemma merge_categories_get fallback gen perm k :
  NoDup gen.*1 -> Forall (fun kv => is_rule_category kv.1 = true /\ is_Some (toStringAnyMap kv.2)) gen ->
  fget k (fold_left (merge_category fallback) gen perm) = category_after fallback (fget k perm) (fget k gen).
Proof.
  revert perm. induction gen as [|[c v] gen IH]; intros perm Hnd Hf; [done|].
  apply NoDup_cons in Hnd as [Hc Hnd]. apply Forall_cons in Hf as [[Hr Hm] Hf]. cbn [fold_left fget].
  rewrite IH, merge_category_get by done. destruct (k =s? c) eqn:E; [|done]. breflect. subst.
  by rewrite (proj2 (fget_None c gen)).
Qed.

Lemma order_category_get perm c k :
  fget k (order_category perm c) =
  if k =s? c then match fget k perm with Some (Obj _ m) => Some (Obj PermissionRules m) | v => v end
  else fget k perm.
Proof.
  unfold order_category, get_map. destruct (k =s? c) eqn:E; breflect.
  - subst. destruct (fget c perm) as [[]|] eqn:Ev; simpl; rewrite ?fget_fset_eq; try done.
  - destruct (fget c perm) as [[]|]; simpl; rewrite ?fget_fset_ne by done; done.
Qed.

Lemma category_tightened_order old new perm cs k :
  fget k perm = new -> category_tightened old new ->
  category_tightened old (fget k (fold_left order_category cs perm)).
Proof.
  revert perm new. induction cs as [|c cs IH]; intros perm new Hk Ht; [by subst|]. simpl.
  eapply IH; [done|]. rewrite order_category_get. destruct (k =s? c); [|by rewrite Hk]. rewrite Hk.
  destruct new as [[| | | | |t m]|]; try done. destruct old as [[]|]; simpl in *; try done.
  - destruct Ht as [?|(Hd & t' & rules' & v & [= -> ->] & H)]; [done|]. right. split; [done|]. by eexists _, _, v.
  - destruct Ht as (t' & rules' & [= -> ->] & H). by eexists _, _.
Qed.

(** A category the operator has not set starts from the action for all. *)
Lemma fallback_category fallback generated action c rules :
  generated_permission generated -> fallback <> "" -> is_rule_category c = true ->
  get_map c generated = Some rules ->
  fget c (fold_left (merge_category fallback) generated [("*", Str action)]) =
    Some (Obj AnyMap (fold_left add_rule rules [("*", Str fallback)])).
Proof.
  intros [Hs Hf] Hne Hc Hg. rewrite merge_categories_get by (done || by apply fsorted_NoDup).
  unfold get_map in Hg. destruct (fget c generated) as [[| | | | |t m]|]; try done. injection Hg as ->.
  simpl. apply String.eqb_neq in Hne. destruct (c =s? "*") eqn:Ec.
  - apply String.eqb_eq in Ec. by subst c.
  - unfold category_rules. by rewrite Hne.
Qed.

Lemma order_categories_obj perm c t rules cs :
  fget c perm = Some (Obj t rules) ->
  exists t', fget c (fold_left order_category cs perm) = Some (Obj t' rules).
Proof.
  revert perm t. induction cs as [|c' cs IH]; intros perm t H; [by eexists|]. simpl.
  destruct (c =s? c') eqn:E; eapply IH; rewrite order_category_get, E, H; done.
Qed.

(** ** Properties *)

(** A merge keeps what is the operator's: a value at a path the fragment
    does not name is the value it was, for every plane, outside the places where
    entries of earlier releases are retired; and under the hooks, the groups that
    are not guardrail's stay, in their order. *)
Theorem merge_keeps_operator plane doc frag :
  document (Obj AnyMap doc) -> fragment (Obj AnyMap frag) -> generated_fragment frag = true ->
  get_map "permission" frag = None ->
  (forall path key, reworked path key = false -> Forall (fun k => is_hooks_key k = false) path ->
     names frag path key = false ->
     at_path (merge_document plane doc frag) path key = at_path doc path key) /\
  (forall section event, is_hooks_key section = true -> keeps_event section event frag ->
     foreign_groups section event (merge_document plane doc frag) = foreign_groups section event doc).
Proof.
  intros Hd Hf Hg Hperm. split; [|intros; by apply merge_foreign_groups].
  intros path key Hr Hh Hn. unfold merge_document. rewrite Hperm.
  rewrite deepMerge_unnamed; [|destruct (_ || _); auto using document_absorb, document_retired|done..].
  destruct (_ || _); rewrite ?absorb_unreworked by done; by apply retired_unreworked.
Qed.

(** Merging OpenCode's permission rules only ever tightens what the operator
    set: a deny of all permissions is left as it is; every rule of every category
    stays with the verdict it had or a stricter one; and an action set for a
    category or for all permissions becomes a fallback rule at least as strict. *)
Theorem permissions_only_tighten existing generated :
  generated_permission generated ->
  let after := mergeOpencodePermission existing generated in
  (fget "permission" existing = Some (Str "deny") -> after = existing) /\
  (forall t perm, fget "permission" existing = Some (Obj t perm) ->
     exists perm', fget "permission" after = Some (Obj AnyMap perm') /\
       forall c, fget c perm <> Some (Str "") -> category_tightened (fget c perm) (fget c perm')) /\
  (forall action, fget "permission" existing = Some (Str action) -> action <> "deny" ->
     exists perm', fget "permission" after = Some (Obj AnyMap perm') /\
       forall c rules, is_rule_category c = true -> get_map c generated = Some rules ->
         permissionVerdictRank (Some (Str action)) <> 0%nat ->
         exists t rules' v, fget c perm' = Some (Obj t rules') /\ fget "*" rules' = Some v /\
           (permissionVerdictRank (Some (Str action)) <= permissionVerdictRank (Some v))%nat).
Proof.
  intros [Hs Hf] after. unfold after, mergeOpencodePermission. split_and!.
  - by intros ->.
  - intros t perm ->. cbn [permission_base]. cbn zeta. rewrite fget_fset_eq. eexists. split; [done|]. intros c Hc.
    eapply category_tightened_order; [rewrite merge_categories_get by (done || by apply fsorted_NoDup); done|].
    apply category_after_tightened. by destruct (fget c perm) as [[]|]; try congruence.
  - intros action -> Hd. cbn [permission_base]. apply String.eqb_neq in Hd as Hd'. rewrite Hd'. cbn zeta.
    rewrite fget_fset_eq.
    eexists. split; [done|]. intros c rules Hc Hg Hrank.
    replace (if (0 <? permissionVerdictRank (Some (Str action)))%nat then action else "") with action
      by by destruct (permissionVerdictRank (Some (Str action))).
    assert (Hne : action <> "") by by intros ->.
    pose proof (fallback_category action generated action c rules (conj Hs Hf) Hne Hc Hg) as Hcat.
    apply (order_categories_obj _ _ _ _ ["bash"; "read"; "edit"]) in Hcat as [t Hcat].
    destruct (add_rules_tighten rules [("*", Str action)] "*" (Str action)) as (v' & ? & ?%tightened_rank);
      [done|]. by eexists t, _, v'.
Qed.

(** An operator allows shell commands and denies one; the floor asks for another. *)
Lemma permissions_only_tighten_witness :
  let generated := [("bash", Obj AnyMap [("*", Str "ask"); ("git push *", Str "deny")])] in
  let existing := [("permission", Obj AnyMap [("bash", Str "allow"); ("webfetch", Str "ask")])] in
  exists perm', fget "permission" (mergeOpencodePermission existing generated) = Some (Obj AnyMap perm') /\
    category_tightened (Some (Str "allow")) (fget "bash" perm').
Proof.
  intros generated existing.
  assert (Hg : generated_permission generated).
  { split; [vm_compute; repeat constructor|]. constructor; [|constructor]. split; [reflexivity|by eexists]. }
  destruct (permissions_only_tighten existing generated Hg) as (_ & H & _).
  destruct (H AnyMap _ eq_refl) as (perm' & Hp & Hc). exists perm'. split; [exact Hp|].
  apply (Hc "bash"). discriminate.
Defined.
