(* ===== verification/Manifest.v ===== *)
(** * The ownership manifest

    [internal/genconfig/manifest.go], [manifest_drift.go], and the file half of
    [merge.go]: the record of what a merge wrote into a settings file, its
    accumulation over merges, the removal that undoes it, the fallback without
    a record, and the drift report.

    The world is the settings files by path and the manifest of each plane, as
    [LoadManifest] reads it; a file is what its text parses to.  An operation
    that indexes an empty path panics in Go; it yields [None] here. *)

From Stdlib Require Import ZArith Lia Bool.
From S2P Require Import Prelude GoStrings Regex GoPath Argv Policy Json GenMerge.

Record ManifestEntry := {
  me_Kind : string;
  me_Path : list string;
  me_Key : string;
  me_Value : json;
  me_Prior : json;          (* nil is [Null] *)
  me_HadPrior : bool;
}.

Record Manifest := {
  mf_Version : Z;
  mf_Plane : string;
  mf_Target : string;
  mf_WrittenAt : string;
  mf_Entries : list ManifestEntry;
}.

Definition manifestVersion : Z := 1.

Definition joinPath (path : list string) : string := Join path ".".

Definition entryIdentity (e : ManifestEntry) : string :=
  if me_Key e =s? "" then joinPath (me_Path e) +:+ String "000" ("[]" +:+ jsonKey (me_Value e))
  else joinPath (me_Path e) +:+ String "000" (me_Key e).

(** The last entry of [entries] with the identity [id], counting from [i]. *)
Fixpoint identity_index (id : string) (i : nat) (entries : list ManifestEntry) : option nat :=
  match entries with
  | [] => None
  | e :: rest =>
      match identity_index id (S i) rest with
      | Some j => Some j
      | None => if entryIdentity e =s? id then Some i else None
      end
  end.

Definition with_prior (e recorded : ManifestEntry) : ManifestEntry :=
  {| me_Kind := me_Kind e; me_Path := me_Path e; me_Key := me_Key e; me_Value := me_Value e;
     me_Prior := me_Prior recorded; me_HadPrior := me_HadPrior recorded |}.

Definition fold_entry (out : list ManifestEntry) (e : ManifestEntry) : list ManifestEntry :=
  match identity_index (entryIdentity e) 0 out with
  | Some i => match out !! i with Some r => <[i := with_prior e r]> out | None => out end
  | None => out ++ [e]
  end.

Definition mergeOwnership (recorded fresh : list ManifestEntry) : list ManifestEntry :=
  fold_left fold_entry fresh recorded.

Definition manifestKind (path : list string) : string :=
  match path with
  | [] => "other"
  | k :: _ =>
      if (k =s? "permissions") || (k =s? "permission") then "permission"
      else if (k =s? "hooks") || (k =s? "guardrail") then "hook"
      else if k =s? "plugin" then "plugin"
      else "other"
  end.

Definition element_entry (here : list string) (v : json) : ManifestEntry :=
  {| me_Kind := manifestKind here; me_Path := here; me_Key := ""; me_Value := v;
     me_Prior := Null; me_HadPrior := false |}.

Definition value_entry (path : list string) (key : string) (old : option json) (new : json) : ManifestEntry :=
  {| me_Kind := manifestKind path; me_Path := path; me_Key := key; me_Value := new;
     me_Prior := default Null old; me_HadPrior := match old with Some _ => true | None => false end |}.

(** The entries of one key: [old] is what the document held under it. *)
Definition changed_entry (path : list string) (key : string) (old : option json) (new : json)
    : list ManifestEntry :=
  match old with
  | Some o => if jsonKey o =s? jsonKey new then [] else [value_entry path key old new]
  | None => [value_entry path key old new]
  end.

(** The elements the old list did not hold. *)
Definition added_elements (old : option json) (newList : list json) : list json :=
  let seen := map jsonKey (default [] (match old with Some o => toAnySlice o | None => None end)) in
  List.filter (fun v => negb (in_list (jsonKey v) seen)) newList.

Fixpoint value_entries (path : list string) (key : string) (old : option json) (new : json)
    {struct new} : list ManifestEntry :=
  let here := path ++ [key] in
  match new with
  | Obj _ newMap =>
      let descend oldMap :=
        (fix go (m : object) : list ManifestEntry :=
           match m with
           | [] => []
           | (k, v) :: rest => value_entries here k (fget k oldMap) v ++ go rest
           end) newMap in
      match old with
      | None => descend []
      | Some (Obj _ oldMap) => descend oldMap
      | Some _ => changed_entry path key old new
      end
  | Arr _ newList =>
      match old with
      | None | Some (Arr _ _) => map (element_entry here) (added_elements old newList)
      | Some _ => changed_entry path key old new
      end
  | _ => changed_entry path key old new
  end.

Definition ownershipEntries (before after : object) (path : list string) : list ManifestEntry :=
  flat_map (fun kv => value_entries path kv.1 (fget kv.1 before) kv.2) after.

(** ** Removal *)

Record RemovalReport := {
  rr_Removed : Z;
  rr_Restored : Z;
  rr_Edited : list string;
  rr_Fallback : bool;
}.

Definition no_removal : RemovalReport :=
  {| rr_Removed := 0; rr_Restored := 0; rr_Edited := []; rr_Fallback := false |}.

Definition removed_more (n : nat) (r : RemovalReport) : RemovalReport :=
  {| rr_Removed := rr_Removed r + Z.of_nat n; rr_Restored := rr_Restored r; rr_Edited := rr_Edited r;
     rr_Fallback := rr_Fallback r |}.
Definition restored_one (r : RemovalReport) : RemovalReport :=
  {| rr_Removed := rr_Removed r; rr_Restored := rr_Restored r + 1; rr_Edited := rr_Edited r;
     rr_Fallback := rr_Fallback r |}.
Definition edited_one (name : string) (r : RemovalReport) : RemovalReport :=
  {| rr_Removed := rr_Removed r; rr_Restored := rr_Restored r; rr_Edited := rr_Edited r ++ [name];
     rr_Fallback := rr_Fallback r |}.
Definition by_fallback (r : RemovalReport) : RemovalReport :=
  {| rr_Removed := rr_Removed r; rr_Restored := rr_Restored r; rr_Edited := rr_Edited r;
     rr_Fallback := true |}.

Definition matchesRecorded (recorded v : json) : bool :=
  if jsonKey v =s? jsonKey recorded then true
  else
    match recorded, v with
    | Obj AnyMap rm, Obj AnyMap vm =>
        if negb (ownedByGuardrail recorded) then false
        else match fget "id" vm with
             | Some _ => false
             | None => jsonKey v =s? jsonKey (Obj AnyMap (fdel "id" rm))
             end
    | _, _ => false
    end.

(** [entry.Path[:len(entry.Path)-1]] and the last key; a panic when it is empty. *)
Definition split_last (path : list string) : option (list string * string) :=
  match last path with Some k => Some (removelast path, k) | None => None end.

(** The document after the container at [path] was changed in place. *)
Fixpoint update_at (path : list string) (f : object -> object) (doc : object) : object :=
  match path with
  | [] => f doc
  | k :: rest => update_map k (update_at rest f) doc
  end.

(** One turn of the loop of [applyManifestRemoval]. *)
Definition remove_entry (entry : ManifestEntry) (st : object * RemovalReport)
    : option (object * RemovalReport) :=
  let '(doc, report) := st in
  if me_Key entry =s? "" then
    match split_last (me_Path entry) with
    | None => None
    | Some (path, key) =>
        match containerAt doc path with
        | None => Some st
        | Some parent =>
            match fget key parent with
            | Some (Arr AnySlice list) =>
                let kept := List.filter (fun v => negb (matchesRecorded (me_Value entry) v)) list in
                Some (update_at path (fset key (Arr AnySlice kept)) doc,
                      removed_more (count (matchesRecorded (me_Value entry)) list) report)
            | _ => Some st
            end
        end
    end
  else
    match containerAt doc (me_Path entry) with
    | None => Some st
    | Some container =>
        match fget (me_Key entry) container with
        | None => Some st
        | Some current =>
            if jsonKey current <>s? jsonKey (me_Value entry) then
              Some (doc, edited_one (joinPath (me_Path entry ++ [me_Key entry])) report)
            else if me_HadPrior entry then
              Some (update_at (me_Path entry) (fset (me_Key entry) (me_Prior entry)) doc, restored_one report)
            else
              Some (update_at (me_Path entry) (fdel (me_Key entry)) doc, removed_more 1 report)
        end
    end.

(** [pruneEmpty], on one value: [None] when its key is deleted. *)
Fixpoint prune_value (v : json) : option json :=
  match v with
  | Obj AnyMap m =>
      match (fix go (m : object) : object :=
               match m with
               | [] => []
               | (k, v) :: rest =>
                   match prune_value v with Some v' => (k, v') :: go rest | None => go rest end
               end) m with
      | [] => None
      | m' => Some (Obj AnyMap m')
      end
  | Arr AnySlice [] => None
  | _ => Some v
  end.

Fixpoint pruneEmpty (doc : object) : object :=
  match doc with
  | [] => []
  | (k, v) :: rest =>
      match prune_value v with Some v' => (k, v') :: pruneEmpty rest | None => pruneEmpty rest end
  end.

(** The entries from the last to the first. *)
Fixpoint remove_entries (entries : list ManifestEntry) (st : object * RemovalReport)
    : option (object * RemovalReport) :=
  match entries with
  | [] => Some st
  | e :: rest =>
      match remove_entries rest st with Some st' => remove_entry e st' | None => None end
  end.

Definition applyManifestRemoval (doc : object) (m : Manifest) : option (object * RemovalReport) :=
  match remove_entries (mf_Entries m) (doc, no_removal) with
  | Some (doc, report) => Some (pruneEmpty doc, report)
  | None => None
  end.

(** ** What a document holds in an entry's slot *)

Definition currentValue (doc : object) (entry : ManifestEntry) : option (option json) :=
  if me_Key entry =s? "" then
    match split_last (me_Path entry) with
    | None => None
    | Some (path, key) =>
        Some match containerAt doc path with
             | None => None
             | Some parent =>
                 match get_slice key parent with
                 | None => None
                 | Some list => if existsb (matchesRecorded (me_Value entry)) list then Some (me_Value entry) else None
                 end
             end
    end
  else
    Some match containerAt doc (me_Path entry) with
         | None => None
         | Some container => fget (me_Key entry) container
         end.

(** ** Recording *)

(** What [saveManifest] and [LoadManifest] make of an entry. *)
Definition stored_entry (e : ManifestEntry) : ManifestEntry :=
  {| me_Kind := me_Kind e; me_Path := me_Path e; me_Key := me_Key e; me_Value := parsed (me_Value e);
     me_Prior := parsed (me_Prior e); me_HadPrior := me_HadPrior e |}.

Definition stored (m : Manifest) : Manifest :=
  {| mf_Version := mf_Version m; mf_Plane := mf_Plane m; mf_Target := mf_Target m;
     mf_WrittenAt := mf_WrittenAt m; mf_Entries := map stored_entry (mf_Entries m) |}.

Definition sameTarget (recorded path : string) : bool :=
  if recorded =s? "" then false else Clean recorded =s? Clean path.

Definition is_present (v : option json) : bool := match v with Some _ => true | None => false end.

(** The loops that keep the recorded entries still live. *)
Fixpoint live_entries (keep : ManifestEntry -> option bool) (entries : list ManifestEntry)
    : option (list ManifestEntry) :=
  match entries with
  | [] => Some []
  | e :: rest =>
      match keep e with
      | None => None
      | Some b =>
          match live_entries keep rest with
          | Some live => Some (if b then e :: live else live)
          | None => None
          end
      end
  end.

Definition reconcile_live (after : object) (e : ManifestEntry) : option bool :=
  match currentValue after e with Some v => Some (is_present v) | None => None end.

Definition merge_live (before after : object) (e : ManifestEntry) : option bool :=
  match currentValue before e, currentValue after e with
  | Some was, Some now => Some (negb (is_present was && negb (is_present now)))
  | _, _ => None
  end.

(** The entries of a fragment the document holds exactly. *)
Fixpoint adopt (after : object) (fresh entries : list ManifestEntry) : option (list ManifestEntry) :=
  match entries with
  | [] => Some fresh
  | e :: rest =>
      match currentValue after e with
      | None => None
      | Some (Some current) =>
          adopt after (if jsonKey current =s? jsonKey (me_Value e) then mergeOwnership fresh [e] else fresh) rest
      | Some None => adopt after fresh rest
      end
  end.

Section Recording.
(** [fallbackFragment]: the floor an earlier release wrote for the plane. *)
Context (fallbackFragment : string -> option object).

(** The manifest [recordOwnership] saves; [None] is a panic, [Some None] none. *)
Definition recordOwnership (recorded : option Manifest) (plane target now : string)
    (before after : object) (reconcile : bool) : option (option Manifest) :=
  if plane =s? "" then Some None
  else
    let fresh := ownershipEntries before after [] in
    let merged :=
      match recorded with
      | Some existing =>
          if sameTarget (mf_Target existing) target then
            match live_entries (if reconcile then reconcile_live after else merge_live before after)
                    (mf_Entries existing) with
            | Some live => Some (mergeOwnership live fresh)
            | None => None
            end
          else Some fresh
      | None => Some fresh
      end in
    let adopted :=
      match merged, fallbackFragment plane with
      | Some fresh, Some fragment =>
          if reconcile then adopt after fresh (ownershipEntries [] fragment []) else Some fresh
      | _, _ => merged
      end in
    match adopted with
    | Some entries =>
        Some (Some {| mf_Version := manifestVersion; mf_Plane := plane; mf_Target := target;
                      mf_WrittenAt := now; mf_Entries := entries |})
    | None => None
    end.

(** ** The fallback without a manifest *)

Definition codex_kept (plane : string) (group : json) : bool :=
  negb (ownedByGuardrail group) || ((plane =s? "codex") && negb (codexOwnedGroup group)).

(** One event of the hooks map. *)
Definition remove_hook_event (plane : string) (st : object * nat) (event : string) : object * nat :=
  let '(hooks, removed) := st in
  match fget event hooks with
  | Some (Arr AnySlice groups) =>
      let kept := List.filter (codex_kept plane) groups in
      (match kept with [] => fdel event hooks | _ => fset event (Arr AnySlice kept) hooks end,
       removed + (length groups - length kept))%nat
  | _ => st
  end.

Definition removeGuardrailHookGroups (existing : object) (plane : string) : object * nat :=
  match any_map (fget "hooks" existing) with
  | Some hooks =>
      let '(hooks', removed) := fold_left (remove_hook_event plane) hooks.*1 (hooks, 0%nat) in
      (match hooks' with [] => fdel "hooks" existing | _ => fset "hooks" (Obj AnyMap hooks') existing end,
       removed)
  | None => (fdel "hooks" existing, 0%nat)
  end.

(** One entry of the generated fragment. *)
Definition remove_generated (st : object * nat) (entry : ManifestEntry) : option (object * nat) :=
  let '(existing, removed) := st in
  if me_Kind entry <>s? "permission" then Some st
  else if me_Key entry =s? "" then
    match split_last (me_Path entry) with
    | None => None
    | Some (path, key) =>
        match containerAt existing path with
        | None => Some st
        | Some parent =>
            match get_slice key parent with
            | None => Some st
            | Some list =>
                let want := jsonKey (me_Value entry) in
                let kept := List.filter (fun v => jsonKey v <>s? want) list in
                Some (update_at path (fset key (Arr AnySlice kept)) existing,
                      removed + count (fun v => jsonKey v =s? want) list)%nat
            end
        end
    end
  else
    match containerAt existing (me_Path entry) with
    | None => Some st
    | Some container =>
        match fget (me_Key entry) container with
        | Some current =>
            if jsonKey current =s? jsonKey (me_Value entry)
            then Some (update_at (me_Path entry) (fdel (me_Key entry)) existing, (removed + 1)%nat)
            else Some st
        | None => Some st
        end
    end.

Fixpoint remove_all_generated (st : object * nat) (entries : list ManifestEntry) : option (object * nat) :=
  match entries with
  | [] => Some st
  | e :: rest => match remove_generated st e with Some st' => remove_all_generated st' rest | None => None end
  end.

Definition removeGeneratedMatches (existing : object) (plane : string) : option (object * nat) :=
  match fallbackFragment plane with
  | None => Some (existing, 0%nat)
  | Some fragment => remove_all_generated (existing, 0%nat) (ownershipEntries [] fragment [])
  end.

Definition slice_length (k : string) (m : object) : Z :=
  Z.of_nat (length (default [] (get_slice k m))).

Definition removeByInBandMarkers (existing : object) (plane : string) : option (object * RemovalReport) :=
  let '(existing, removed) :=
    if (plane =s? "claude") || (plane =s? "codex") then
      let '(existing, n) := removeGuardrailHookGroups existing plane in (existing, Z.of_nat n)
    else if plane =s? "opencode" then
      let after := absorbGuardrailPluginEntries existing in
      (after, slice_length "plugin" existing - slice_length "plugin" after)%Z
    else if plane =s? "antigravity" then
      match fget "guardrail" existing with
      | Some _ => (fdel "guardrail" existing, 1%Z)
      | None => (existing, 0%Z)
      end
    else (existing, 0%Z) in
  match removeGeneratedMatches existing plane with
  | None => None
  | Some (existing, n) =>
      Some (pruneEmpty existing,
            {| rr_Removed := removed + Z.of_nat n; rr_Restored := 0; rr_Edited := []; rr_Fallback := false |})
  end.

(** ** Files *)

(** What a settings file's bytes parse to; the flag is a byte order mark. *)
Inductive Settings :=
| Unreadable                          (* os.ReadFile failed *)
| Blank (bom : bool)                  (* nothing but white space *)
| NotObject (bom : bool)              (* json.Unmarshal failed, or null *)
| Document (bom : bool) (m : object).

Inductive ConfigError := UnsupportedPlane | CannotRead | RefuseToOverwrite | CannotWrite.

Record World := {
  w_files : gmap string Settings;
  w_manifests : gmap string Manifest;
}.

(** What the system calls answer: the atomic write of the settings file, the
    write of the manifest, and its removal. *)
Record IO := { io_settings : bool; io_manifest : bool; io_clear : bool; io_now : string }.

(** [ReadJSONObject], with the caller's treatment of a missing file. *)
Definition ReadJSONObject (f : option Settings) : result ConfigError object :=
  match f with
  | None => Ok []
  | Some Unreadable => Err RefuseToOverwrite
  | Some (Blank _) => Ok []
  | Some (NotObject _) => Err RefuseToOverwrite
  | Some (Document _ m) => Ok m
  end.

Definition LoadManifest (w : World) (plane : string) : option Manifest :=
  match w_manifests w !! plane with
  | Some m => if (mf_Version m =? manifestVersion)%Z then Some m else None
  | None => None
  end.

Definition supported (plane : string) : bool :=
  in_list plane ["claude"; "opencode"; "antigravity"; "codex"].

Definition write_file (path : string) (doc : object) (w : World) : World :=
  {| w_files := <[path := Document false (parsed_object doc)]> (w_files w); w_manifests := w_manifests w |}.
Definition write_manifest (plane : string) (m : Manifest) (w : World) : World :=
  {| w_files := w_files w; w_manifests := <[plane := stored m]> (w_manifests w) |}.
Definition drop_manifest (plane : string) (w : World) : World :=
  {| w_files := w_files w; w_manifests := delete plane (w_manifests w) |}.

Definition mergeInto (io : IO) (w : World) (path plane : string) (frag : object) (reconcile : bool)
    : option (result ConfigError unit * World) :=
  match ReadJSONObject (w_files w !! path) with
  | Err e => Some (Err e, w)
  | Ok existing =>
      let before := parsed_object existing in
      let after := merge_document plane existing frag in
      match recordOwnership (LoadManifest w plane) plane path (io_now io) before after reconcile with
      | None => None
      | Some saved =>
          let w := match saved with
                   | Some m => if io_manifest io then write_manifest plane m w else w
                   | None => w
                   end in
          if io_settings io then Some (Ok tt, write_file path after w) else Some (Err CannotWrite, w)
      end
  end.

Definition mergePlaneInto (io : IO) (w : World) (path plane : string) (frag : object) (reconcile : bool)
    : option (result ConfigError unit * World) :=
  if supported plane then mergeInto io w path plane frag reconcile else Some (Err UnsupportedPlane, w).

Definition MergeInto io w path frag := mergeInto io w path "" frag false.
Definition MergePlaneInto io w path plane frag := mergePlaneInto io w path plane frag false.
Definition ReconcilePlaneInto io w path plane frag := mergePlaneInto io w path plane frag true.

Definition RemovePlaneFromReporting (io : IO) (w : World) (path plane : string)
    : option (result ConfigError RemovalReport * World) :=
  if negb (supported plane) then Some (Err UnsupportedPlane, w)
  else
    match w_files w !! path with
    | None => Some (Ok no_removal, w)
    | Some Unreadable => Some (Err CannotRead, w)
    | Some (Document false existing) =>
        let removal :=
          match LoadManifest w plane with
          | Some manifest =>
              if sameTarget (mf_Target manifest) path then
                match applyManifestRemoval existing manifest with
                | Some (doc, report) => Some (doc, report, if io_clear io then drop_manifest plane w else w)
                | None => None
                end
              else match removeByInBandMarkers existing plane with
                   | Some (doc, report) => Some (doc, by_fallback report, w)
                   | None => None
                   end
          | None =>
              match removeByInBandMarkers existing plane with
              | Some (doc, report) => Some (doc, by_fallback report, w)
              | None => None
              end
          end in
        match removal with
        | None => None
        | Some (doc, report, w) =>
            if io_settings io then Some (Ok report, write_file path doc w) else Some (Err CannotWrite, w)
        end
    | Some _ => Some (Err RefuseToOverwrite, w)     (* json.Unmarshal does not take a byte order mark *)
    end.

(** ** Drift *)

Record DriftReport := {
  dr_Missing : list string;
  dr_Stale : list string;
  dr_Edited : list string;
  dr_NoManifest : bool;
}.

Definition clean_drift (d : DriftReport) : bool :=
  negb (dr_NoManifest d) && (length (dr_Missing d) =? 0)%nat && (length (dr_Stale d) =? 0)%nat &&
  (length (dr_Edited d) =? 0)%nat.

Definition entry_name (e : ManifestEntry) : string :=
  if me_Key e <>s? "" then joinPath (me_Path e) +:+ "." +:+ me_Key e else joinPath (me_Path e).

(** The loop over the recorded entries: the missing ones and the edited ones. *)
Fixpoint drift_recorded (doc : object) (entries : list ManifestEntry)
    : option (list string * list string) :=
  match entries with
  | [] => Some ([], [])
  | e :: rest =>
      match currentValue doc e, drift_recorded doc rest with
      | Some None, Some (missing, edited) => Some (entry_name e :: missing, edited)
      | Some (Some current), Some (missing, edited) =>
          Some (missing, if jsonKey current <>s? jsonKey (me_Value e) then entry_name e :: edited else edited)
      | _, _ => None
      end
  end.

(** The loop over what this binary would generate. *)
Fixpoint drift_stale (doc : object) (claimed : list string) (entries : list ManifestEntry)
    : option (list string) :=
  match entries with
  | [] => Some []
  | e :: rest =>
      match drift_stale doc claimed rest with
      | None => None
      | Some stale =>
          if in_list (entryIdentity e) claimed then Some stale
          else match currentValue doc e with
               | None => None
               | Some (Some current) =>
                   Some (if jsonKey current =s? jsonKey (me_Value e) then entry_name e :: stale else stale)
               | Some None => Some stale
               end
      end
  end.

Definition DriftFor (w : World) (plane path : string) : option (result ConfigError DriftReport) :=
  let clean := {| dr_Missing := []; dr_Stale := []; dr_Edited := []; dr_NoManifest := false |} in
  match w_files w !! path with
  | None => Some (Ok clean)
  | Some Unreadable => Some (Err CannotRead)
  | Some (Document false doc) =>
      match LoadManifest w plane with
      | Some manifest =>
          if negb (sameTarget (mf_Target manifest) path) then
            Some (Ok {| dr_Missing := []; dr_Stale := []; dr_Edited := []; dr_NoManifest := true |})
          else
            match drift_recorded doc (mf_Entries manifest),
                  (match fallbackFragment plane with
                   | Some fragment =>
                       drift_stale doc (map entryIdentity (mf_Entries manifest)) (ownershipEntries [] fragment [])
                   | None => Some []
                   end) with
            | Some (missing, edited), Some stale =>
                Some (Ok {| dr_Missing := sort_strings missing; dr_Stale := sort_strings stale;
                            dr_Edited := sort_strings edited; dr_NoManifest := false |})
            | _, _ => None
            end
      | None => Some (Ok {| dr_Missing := []; dr_Stale := []; dr_Edited := []; dr_NoManifest := true |})
      end
  | Some _ => Some (Err RefuseToOverwrite)
  end.

End Recording.

(** ** Lemmas: the slots of entries *)

(** The same slot seen from the document that holds this one under [k]; the kind
    is for reporting. *)
Definition shift (k : string) (e : ManifestEntry) : ManifestEntry :=
  {| me_Kind := ""; me_Path := k :: me_Path e; me_Key := me_Key e; me_Value := me_Value e;
     me_Prior := me_Prior e; me_HadPrior := me_HadPrior e |}.

Definition erase (e : ManifestEntry) : ManifestEntry :=
  {| me_Kind := ""; me_Path := me_Path e; me_Key := me_Key e; me_Value := me_Value e;
     me_Prior := me_Prior e; me_HadPrior := me_HadPrior e |}.

Lemma value_entries_obj path key old t nm om :
  match old with None => om = [] | Some o => toStringAnyMap o = Some om end ->
  value_entries path key old (Obj t nm) = ownershipEntries om nm (path ++ [key]).
Proof.
  intros Ho. unfold ownershipEntries.
  assert (H : forall om m, (fix go (m : object) : list ManifestEntry := match m with
    | [] => [] | (k, v) :: rest => value_entries (path ++ [key]) k (fget k om) v ++ go rest end) m =
    flat_map (fun kv => value_entries (path ++ [key]) kv.1 (fget kv.1 om) kv.2) m).
  { intros om' m. induction m as [|[k v] m IH]; [done|]. cbn [flat_map fst snd]. by rewrite <- IH. }
  destruct old as [[| | | | |t' om']|]; try discriminate Ho; [injection Ho as ->|subst om]; apply H.
Qed.

Lemma changed_entry_shift path k key old new :
  map erase (changed_entry (k :: path) key old new) = map (shift k) (changed_entry path key old new).
Proof. unfold changed_entry. by repeat case_match. Qed.

Lemma value_entries_shift k new : forall path key old,
  map erase (value_entries (k :: path) key old new) = map (shift k) (value_entries path key old new).
Proof.
  induction new as [|b|t|s|t l IH|t m IH] using json_rect'; intros path key old;
    try apply changed_entry_shift.
  - cbn [value_entries]. destruct old as [[]|]; try apply changed_entry_shift; by rewrite !map_map.
  - assert (H : forall om, map erase (ownershipEntries om m ((k :: path) ++ [key])) =
      map (shift k) (ownershipEntries om m (path ++ [key]))).
    { intros om. unfold ownershipEntries. induction IH as [|[k' v] m Hv _ IH]; [done|].
      cbn [flat_map fst snd]. rewrite !map_app, IH. f_equal. apply (Hv (path ++ [key])). }
    destruct old as [[| | | | |t' om]|]; try apply changed_entry_shift;
      [rewrite !(value_entries_obj _ _ (Some (Obj t' om)) _ _ om) by done
      |rewrite !(value_entries_obj _ _ None _ _ []) by done]; apply H.
Qed.

Lemma ownershipEntries_shift k before after path :
  map erase (ownershipEntries before after (k :: path)) = map (shift k) (ownershipEntries before after path).
Proof.
  unfold ownershipEntries. induction after as [|[k' v] after IH]; [done|].
  cbn [flat_map]. by rewrite !map_app, value_entries_shift, IH.
Qed.

Lemma remove_entries_erase es st : remove_entries (map erase es) st = remove_entries es st.
Proof. induction es as [|e es IH]; [done|]. cbn [map remove_entries]. by rewrite IH. Qed.

Lemma remove_entries_app es1 es2 st :
  remove_entries (es1 ++ es2) st =
  match remove_entries es2 st with Some st' => remove_entries es1 st' | None => None end.
Proof.
  induction es1 as [|e es1 IH]; simpl; [by case_match|]. rewrite IH. by destruct (remove_entries es2 st).
Qed.

(** Entries left because they were edited are only ever added to the report. *)
Lemma remove_entry_edited e doc r doc' r' :
  remove_entry e (doc, r) = Some (doc', r') -> exists l, rr_Edited r' = rr_Edited r ++ l.
Proof.
  unfold remove_entry. intros H. repeat case_match; simplify_eq; simpl; eauto; exists []; by rewrite app_nil_r.
Qed.

Lemma remove_entries_edited es doc r doc' r' :
  remove_entries es (doc, r) = Some (doc', r') -> exists l, rr_Edited r' = rr_Edited r ++ l.
Proof.
  revert doc' r'. induction es as [|e es IH]; intros doc' r' H; simpl in H.
  { simplify_eq. exists []. by rewrite app_nil_r. }
  destruct (remove_entries es (doc, r)) as [[d1 r1]|]; [|done].
  destruct (IH d1 r1 eq_refl) as [l1 H1]. apply remove_entry_edited in H as [l2 H2].
  exists (l1 ++ l2). by rewrite H2, H1, app_assoc.
Qed.

Lemma remove_entries_fallback es doc r doc' r' :
  remove_entries es (doc, r) = Some (doc', r') -> rr_Fallback r' = rr_Fallback r.
Proof.
  revert doc' r'. induction es as [|e es IH]; intros doc' r' H; simpl in H; [by simplify_eq|].
  destruct (remove_entries es (doc, r)) as [[d1 r1]|]; [|done]. rewrite <- (IH d1 r1 eq_refl).
  unfold remove_entry in H. repeat case_match; simplify_eq; done.
Qed.

Lemma split_last_cons k path :
  split_last (k :: path) =
  match split_last path with Some (p, l) => Some (k :: p, l) | None => Some ([], k) end.
Proof.
  unfold split_last. rewrite last_cons. destruct path as [|k' path]; [done|]. rewrite last_cons.
  by destruct (last path).
Qed.

Section Shift.
Context (k : string) (doc m : object) (r : RemovalReport).
Hypothesis (Hs : fsorted doc) (Hk : fget k doc = Some (Obj AnyMap m)).

Lemma containerAt_cons path : containerAt doc (k :: path) = containerAt m path.
Proof using Hk. cbn [containerAt]. unfold get_map. by rewrite Hk. Qed.

Lemma update_at_cons path f : update_at (k :: path) f doc = fset k (Obj AnyMap (update_at path f m)) doc.
Proof using Hk. cbn [update_at]. unfold update_map. by rewrite Hk. Qed.

Lemma remove_shift e m' r' :
  remove_entry e (m, r) = Some (m', r') -> rr_Edited r' = rr_Edited r ->
  remove_entry (shift k e) (doc, r) = Some (fset k (Obj AnyMap m') doc, r').
Proof using Hs Hk.
  assert (Hid : fset k (Obj AnyMap m) doc = doc) by by apply fset_same.
  unfold remove_entry. cbn [me_Key me_Path me_Value me_HadPrior me_Prior shift].
  destruct (me_Key e =s? "").
  - rewrite split_last_cons. destruct (split_last (me_Path e)) as [[p l]|]; [|done].
    rewrite containerAt_cons. intros H _. repeat case_match; simplify_eq; rewrite ?update_at_cons, ?Hid; done.
  - rewrite containerAt_cons. intros H He. repeat case_match; simplify_eq; rewrite ?update_at_cons, ?Hid; try done.
    exfalso. simpl in He. apply (f_equal length) in He. rewrite length_app in He. simpl in He. lia.
Qed.
End Shift.

Lemma removes_shift k doc m r es m' r' :
  fsorted doc -> fget k doc = Some (Obj AnyMap m) ->
  remove_entries es (m, r) = Some (m', r') -> rr_Edited r' = rr_Edited r ->
  remove_entries (map (shift k) es) (doc, r) = Some (fset k (Obj AnyMap m') doc, r').
Proof.
  intros Hs Hk. revert m' r'. induction es as [|e es IH]; intros m' r' H He; simpl in H |- *.
  { simplify_eq. by rewrite fset_same. }
  destruct (remove_entries es (m, r)) as [[m1 r1]|] eqn:Er; [|done].
  destruct (remove_entries_edited _ _ _ _ _ Er) as [l1 H1], (remove_entry_edited _ _ _ _ _ H) as [l2 H2].
  assert (l1 = [] /\ l2 = []) as [-> ->].
  { rewrite H2, H1 in He. apply (f_equal length) in He. rewrite !length_app in He.
    destruct l1, l2; simpl in He; [done|lia..]. }
  rewrite app_nil_r in H1, H2. rewrite (IH m1 r1) by done.
  assert (Hs1 : fsorted (fset k (Obj AnyMap m1) doc)) by by apply fsorted_fset.
  rewrite (remove_shift k _ m1 r1 Hs1 (fget_fset_eq _ _ _) e m' r') by done.
  f_equal. f_equal. apply fext; [by repeat apply fsorted_fset|by apply fsorted_fset|].
  intros k'. rewrite !fget_fset. by destruct (k' =s? k).
Qed.

(** ** Lemmas: what a removal restores *)

Definition both_containers (o n : json) : bool :=
  match o, n with Obj _ _, Obj _ _ | Arr _ _, Arr _ _ => true | _, _ => false end.

Definition scalar (v : json) : bool := match v with Obj _ _ | Arr _ _ => false | _ => true end.

Definition unrecorded (old : option json) (nl : list json) : list json :=
  List.filter (fun v => forallb (fun e => negb (matchesRecorded e v)) (added_elements old nl)) nl.

(** [new] is what a merge made of [old], in a way a removal can undo: what it
    added to a list is no other element, and it changed no entry under the empty
    key, which a manifest cannot name. *)
Inductive extends : option json -> json -> Prop :=
| ext_same v : extends (Some v) v
| ext_changed o n : both_containers o n = false -> extends (Some o) n
| ext_new v : scalar v = true -> extends None v
| ext_list old ol nl :
    old = Some (Arr AnySlice ol) \/ old = None /\ ol = [] ->
    unrecorded old nl = ol -> extends old (Arr AnySlice nl)
| ext_object old om nm :
    old = Some (Obj AnyMap om) \/ old = None /\ om = [] -> fsorted om ->
    (forall k v, fget k nm = Some v -> extends (fget k om) v) ->
    (forall v, fget "" nm = Some v -> fget "" om = Some v) ->
    (forall k, fget k nm = None -> fget k om = None) ->
    extends old (Obj AnyMap nm).

Definition prune_option (v : option json) : option json :=
  match v with Some v => prune_value v | None => None end.

Lemma prune_value_obj m :
  prune_value (Obj AnyMap m) = match pruneEmpty m with [] => None | m' => Some (Obj AnyMap m') end.
Proof.
  cbn [prune_value]. assert (H : (fix go (m : object) : object := match m with
    | [] => [] | (k, v) :: rest =>
        match prune_value v with Some v' => (k, v') :: go rest | None => go rest end end) m = pruneEmpty m).
  { induction m as [|[k v] m IH]; [done|]. cbn [pruneEmpty]. by rewrite IH. }
  by rewrite H.
Qed.

Lemma pruneEmpty_keys m k : k ∈ (pruneEmpty m).*1 -> k ∈ m.*1.
Proof.
  induction m as [|[k' v] m IH]; [done|]. cbn [pruneEmpty fmap list_fmap fst].
  destruct (prune_value v); cbn; rewrite ?elem_of_cons; naive_solver.
Qed.

Lemma pruneEmpty_sorted m : fsorted m -> fsorted (pruneEmpty m).
Proof.
  unfold fsorted. induction m as [|[k v] m IH]; intros H; [done|]. cbn [pruneEmpty].
  inversion H as [|? ? Hs Hf]; subst. destruct (prune_value v); [|auto].
  constructor; [auto|]. rewrite Forall_forall in *. intros x Hx%pruneEmpty_keys. auto.
Qed.

Lemma pruneEmpty_get m k : fsorted m -> fget k (pruneEmpty m) = prune_option (fget k m).
Proof.
  induction m as [|[k' v] m IH]; intros H; [done|]. apply fsorted_cons in H as [H Hk].
  cbn [pruneEmpty fget]. destruct (k =s? k') eqn:E.
  - breflect. subst. destruct (prune_value v) eqn:Ev; simpl.
    + by rewrite String.eqb_refl.
    + rewrite IH by done. by rewrite (proj2 (fget_None k' m)) by done.
  - destruct (prune_value v); simpl; rewrite ?E; auto.
Qed.

(** A document without empty containers. *)
Definition settled (m : object) : Prop := pruneEmpty m = m.

Lemma settled_get m k v : fsorted m -> settled m -> fget k m = Some v -> prune_value v = Some v.
Proof. intros Hs Hm Hk. pose proof (pruneEmpty_get m k Hs) as H. rewrite Hm, Hk in H. by symmetry. Qed.

Lemma added_elements_self l : added_elements (Some (Arr AnySlice l)) l = [].
Proof.
  unfold added_elements. simpl. assert (H : forall l', (forall v, v ∈ l' -> v ∈ l) ->
    List.filter (fun v => negb (in_list (jsonKey v) (map jsonKey l))) l' = []); [|by apply H].
  induction l' as [|v l' IH]; intros Hl; [done|]. simpl.
  assert (in_list (jsonKey v) (map jsonKey l) = true) as ->.
  { apply in_list_true, list_elem_of_fmap. exists v. split; [done|]. apply Hl. by left. }
  apply IH. intros w Hw. apply Hl. by right.
Qed.

Lemma added_elements_same l :
  added_elements (Some (Arr AnySlice l)) l = [] /\ unrecorded (Some (Arr AnySlice l)) l = l.
Proof.
  split; [apply added_elements_self|]. unfold unrecorded. rewrite added_elements_self. simpl.
  induction l as [|v l IH]; [done|]. simpl. by rewrite IH.
Qed.

Lemma entries_self m path :
  fsorted m -> Forall (fun kv => value_entries path kv.1 (Some kv.2) kv.2 = []) m -> ownershipEntries m m path = [].
Proof.
  intros Hs Hm. unfold ownershipEntries. apply flat_map_nil. intros [k v] Hin.
  cbn [fst snd]. rewrite (fget_elem k v m) by (done || by apply list_elem_of_In).
  rewrite Forall_forall in Hm. by apply (Hm (k, v)), list_elem_of_In.
Qed.

Lemma value_entries_self v : forall path key, document v -> value_entries path key (Some v) v = [].
Proof.
  induction v as [|b|t|s|t l IH|t m IH] using json_rect'; intros path key Hd;
    try (cbn [value_entries]; unfold changed_entry; by rewrite String.eqb_refl).
  - apply document_arr in Hd as [-> _]. cbn [value_entries]. by rewrite added_elements_self.
  - rewrite (value_entries_obj _ _ (Some (Obj t m)) _ _ m) by done.
    apply document_obj in Hd as (_ & Hs & Hd). apply entries_self; [done|].
    rewrite Forall_forall in *. intros kv Hkv. by apply IH, Hd.
Qed.

Lemma ownershipEntries_self m path : document (Obj AnyMap m) -> ownershipEntries m m path = [].
Proof.
  intros (_ & Hs & Hd)%document_obj. apply entries_self; [done|]. eapply Forall_impl; [exact Hd|].
  intros kv. by apply value_entries_self.
Qed.

Lemma remove_value_entry key old new doc r :
  key <> "" -> fget key doc = Some new ->
  exists r', rr_Edited r' = rr_Edited r /\
    remove_entry (value_entry [] key old new) (doc, r) =
      Some (match old with Some o => fset key o doc | None => fdel key doc end, r').
Proof.
  intros Hk Hg. unfold remove_entry, value_entry. cbn [me_Key me_Path me_Value me_HadPrior me_Prior].
  apply String.eqb_neq in Hk. rewrite Hk. cbn [containerAt]. rewrite Hg, String.eqb_refl. simpl.
  destruct old; eexists; (split; [|reflexivity]); done.
Qed.

Lemma remove_elements key es nl doc r :
  fsorted doc -> fget key doc = Some (Arr AnySlice nl) ->
  exists r', rr_Edited r' = rr_Edited r /\
    remove_entries (map (element_entry [key]) es) (doc, r) =
      Some (fset key (Arr AnySlice (List.filter (fun v => forallb (fun e => negb (matchesRecorded e v)) es) nl)) doc, r').
Proof.
  intros Hs Hg. induction es as [|e es (r1 & He1 & IH)].
  { exists r. split; [done|]. simpl. f_equal. f_equal. rewrite fset_same; [done..|].
    rewrite Hg. clear. do 2 f_equal. induction nl as [|v nl IHn]; [done|]. simpl. by rewrite <- IHn. }
  cbn [map remove_entries]. rewrite IH. unfold remove_entry, element_entry.
  cbn [me_Key me_Path me_Value me_HadPrior me_Prior String.eqb]. cbn [split_last last removelast containerAt].
  rewrite fget_fset_eq. eexists. split; [|cbn [update_at]; rewrite fset_fset, filter_filter_and by done; reflexivity].
  done.
Qed.

(** The entries of [key] can be undone wherever it holds [new]: what is left
    prunes to [old], and nothing else changed. *)
Definition removable (key : string) (old : option json) (new : json) : Prop :=
  forall doc r, fsorted doc -> fget key doc = Some new ->
  exists doc' r', remove_entries (value_entries [] key old new) (doc, r) = Some (doc', r') /\
    rr_Edited r' = rr_Edited r /\ fsorted doc' /\
    (forall k, k <> key -> fget k doc' = fget k doc) /\ prune_option (fget key doc') = old.

Lemma fields_removed om nm :
  fsorted nm -> (forall k v, fget k nm = Some v -> removable k (fget k om) v) ->
  forall doc r, fsorted doc -> (forall k v, fget k nm = Some v -> fget k doc = Some v) ->
  exists doc' r', remove_entries (ownershipEntries om nm []) (doc, r) = Some (doc', r') /\
    rr_Edited r' = rr_Edited r /\ fsorted doc' /\
    (forall k, fget k nm = None -> fget k doc' = fget k doc) /\
    (forall k v, fget k nm = Some v -> prune_option (fget k doc') = fget k om).
Proof.
  induction nm as [|[k v] nm IH]; intros Hs Hr doc r Hd Hsub.
  { exists doc, r. by split_and!. }
  apply fsorted_cons in Hs as [Hs Hk]. apply fget_None in Hk.
  assert (Hne : forall k' v', fget k' nm = Some v' -> (k' =s? k) = false).
  { intros k' v' Hg. apply String.eqb_neq. intros ->. congruence. }
  destruct (IH Hs) with (doc := doc) (r := r) as (d1 & r1 & H1 & He1 & Hs1 & Hout1 & Hin1); [|done| |].
  { intros k' v' Hg. apply Hr. simpl. by rewrite (Hne k' v'). }
  { intros k' v' Hg. apply Hsub. simpl. by rewrite (Hne k' v'). }
  destruct (Hr k v) with (doc := d1) (r := r1) as (d2 & r2 & H2 & He2 & Hs2 & Hout2 & Hin2); try done.
  { simpl. by rewrite String.eqb_refl. }
  { rewrite Hout1 by done. apply Hsub. simpl. by rewrite String.eqb_refl. }
  exists d2, r2. change (ownershipEntries om ((k, v) :: nm) [])
    with (value_entries [] k (fget k om) v ++ ownershipEntries om nm []).
  rewrite remove_entries_app, H1. split_and!; [done|congruence|done| |].
  - intros k'. simpl. destruct (k' =s? k) eqn:E; [done|]. breflect. intros Hg. rewrite Hout2 by done. auto.
  - intros k' v'. simpl. destruct (k' =s? k) eqn:E; breflect; [by subst|]. intros Hg.
    rewrite Hout2 by done. eauto.
Qed.

Lemma removable_changed key old new :
  key <> "" -> value_entries [] key old new = [value_entry [] key old new] -> prune_option old = old ->
  removable key old new.
Proof.
  intros Hk He Hold doc r Hs Hg. rewrite He. cbn [remove_entries].
  destruct (remove_value_entry key old new doc r Hk Hg) as (r' & Hr & ->).
  eexists _, r'. split; [done|]. split; [done|].
  destruct old as [o|].
  - split; [by apply fsorted_fset|]. split; [intros; by rewrite fget_fset_ne|]. by rewrite fget_fset_eq.
  - split; [by apply fsorted_fdel|]. rewrite fget_fdel, String.eqb_refl. split; [|done].
    intros k Hn. rewrite fget_fdel. by apply String.eqb_neq in Hn as ->.
Qed.

Lemma removable_same key v : document v -> prune_value v = Some v -> removable key (Some v) v.
Proof.
  intros Hd Hp doc r Hs Hg. rewrite value_entries_self by done. exists doc, r. by rewrite Hg.
Qed.

(** What the operator had, as the lemmas need it: a document without empty
    containers. *)
Definition kept_value (old : option json) : Prop :=
  match old with Some o => document o /\ prune_value o = Some o | None => True end.

Lemma kept_value_get om k :
  fsorted om -> settled om -> Forall (fun kv => document kv.2) om -> kept_value (fget k om).
Proof.
  intros Hs Hp Hd. destruct (fget k om) as [v|] eqn:E; [|done]. split; [|by eapply settled_get].
  by apply (fget_Forall (fun kv => document kv.2) om k v).
Qed.

Lemma extends_removable old new :
  extends old new -> document new -> kept_value old ->
  forall key, key <> "" \/ old = Some new -> removable key old new.
Proof.
  induction 1 as [v|o n Hb|v Hv|old ol nl Ho Hu|old om nm Ho Hsom Hf IH Hempty Hsub];
    intros Hdn Hk key Hkey.
  - by apply removable_same; [|apply Hk].
  - destruct Hk as [Hdo Hp].
    destruct (jsonKey o =s? jsonKey n) eqn:E; breflect.
    { apply marshal_inj in E as ->; [|done..]. by apply removable_same. }
    destruct Hkey as [Hkey|[= ->]]; [|done]. apply removable_changed; [done| |done].
    apply String.eqb_neq in E.
    destruct n; destruct o; try discriminate Hb; cbn [value_entries]; unfold changed_entry; by rewrite E.
  - destruct Hkey as [Hkey|?]; [|done]. apply removable_changed; [done| |done]. by destruct v.
  - intros doc r Hs Hg.
    assert (Hve : value_entries [] key old (Arr AnySlice nl) = map (element_entry [key]) (added_elements old nl)).
    { by destruct Ho as [->|[-> _]]. }
    rewrite Hve. destruct (remove_elements key (added_elements old nl) nl doc r Hs Hg) as (r' & He & ->).
    fold (unrecorded old nl). rewrite Hu. eexists _, r'. split; [done|]. split; [done|].
    split; [by apply fsorted_fset|]. split; [intros; by rewrite fget_fset_ne|]. rewrite fget_fset_eq.
    destruct Ho as [->|[-> ->]]; [|done]. by apply Hk.
  - intros doc r Hs Hg. apply document_obj in Hdn as (_ & Hsn & Hdn).
    assert (Hom : settled om /\ Forall (fun kv => document kv.2) om /\
              match om with [] => old = None | _ => old = Some (Obj AnyMap om) end).
    { destruct Ho as [->|[-> ->]]; [|by split_and!].
      destruct Hk as [Hd Hp]. apply document_obj in Hd as (_ & _ & Hd). rewrite prune_value_obj in Hp.
      unfold settled. destruct (pruneEmpty om) as [|kv m'] eqn:E; [done|]. injection Hp as <-. by split_and!. }
    destruct Hom as (Hset & Hdom & Hold).
    destruct (fields_removed om nm Hsn) with (doc := nm) (r := r)
      as (m' & r' & H & He & Hsm & Hout & Hin); [| done | done |].
    { intros k v Hgv. apply (IH k v Hgv); [by apply (fget_Forall (fun kv => document kv.2) nm k v)| |].
      - by apply kept_value_get.
      - destruct (decide (k = "")) as [->|]; [right; auto|by left]. }
    assert (Hpm : pruneEmpty m' = om).
    { apply fext; [by apply pruneEmpty_sorted|done|]. intros k. rewrite pruneEmpty_get by done.
      destruct (fget k nm) as [v|] eqn:E; [eauto|]. rewrite Hout, E, Hsub by done. done. }
    exists (fset key (Obj AnyMap m') doc), r'.
    rewrite (value_entries_obj _ _ old _ _ om) by by destruct Ho as [->|[-> ->]].
    rewrite <- remove_entries_erase. cbn [app]. rewrite ownershipEntries_shift.
    rewrite (removes_shift key doc nm r _ m' r') by done.
    split; [done|]. split; [done|]. split; [by apply fsorted_fset|].
    split; [intros; by rewrite fget_fset_ne|]. rewrite fget_fset_eq. cbn [prune_option].
    rewrite prune_value_obj, Hpm. by destruct om.
Qed.

(** Undoing a merge restores the document it found. *)
Lemma diff_undone before after :
  document (Obj AnyMap before) -> settled before -> document (Obj AnyMap after) ->
  extends (Some (Obj AnyMap before)) (Obj AnyMap after) ->
  exists doc r, remove_entries (ownershipEntries before after []) (after, no_removal) = Some (doc, r) /\
    pruneEmpty doc = before /\ rr_Edited r = [].
Proof.
  intros Hdb Hset Hda Hext. apply document_obj in Hdb as (_ & Hsb & Hdb), Hda as (_ & Hsa & Hda).
  assert (Hfields : forall k v, fget k after = Some v -> removable k (fget k before) v).
  { intros k v Hg. apply (fget_Forall (fun kv => document kv.2) after k v Hda) in Hg as Hdv. cbn in Hdv.
    inversion Hext as [? Heq| | | |old om nm Ho _ Hf He _ Heq]; subst.
    - rewrite Hg. apply removable_same; [done|]. by eapply settled_get.
    - done.
    - destruct Ho as [[= <-]|[? _]]; [|done]. apply extends_removable; auto using kept_value_get.
      destruct (decide (k = "")) as [->|]; [right; auto|by left]. }
  destruct (fields_removed before after Hsa Hfields after no_removal) as (m' & r' & H & He & Hsm & Hout & Hin);
    [done|done|].
  exists m', r'. split; [done|]. split; [|done].
  apply fext; [by apply pruneEmpty_sorted|done|]. intros k. rewrite pruneEmpty_get by done.
  destruct (fget k after) as [v|] eqn:E; [eauto|]. rewrite Hout, E by done.
  inversion Hext as [? Heq| | | |old om nm Ho _ _ _ Hsub Heq]; subst; [done|done|].
  destruct Ho as [[= <-]|[? _]]; [|done]. by rewrite Hsub.
Qed.
