(* ===== verification/GenConfig.v ===== *)
(** * What is generated for a plane's settings

    [internal/genconfig]: the hook command of a plane ([hookcommand.go],
    [antigravity.go]), the fragments merged into its settings ([ClaudeConfig] of
    [claude.go], [AntigravityConfig], [OpencodeConfig]), doctor's check of a
    registered command ([UnquotedShellHazard]), and the pruning of the permission
    floor earlier releases wrote ([legacy_floor.go]).

    The specification of a command is a reader of shell words, [shell_words]:
    blanks between words, single quotes and double quotes; it answers nothing
    when a word holds a byte a POSIX shell gives a meaning to.  Paths have no
    8.3 short names here, as on a POSIX host. *)

From Stdlib Require Import ZArith Lia Bool.
From S2P Require Import Prelude GoStrings Regex GoPath Argv Policy PlaneContract Json GenMerge Manifest.

(** ** hookcommand.go *)

Definition dquote : string := String quote "".

Definition safe_byte (c : ascii) : bool :=
  is_letter c || is_digit c || ContainsByte "._/+-" c.

Definition shellSafeWord (word : string) : bool :=
  (word <>s? "") && negb (HasPrefix word "-") && all_bytes safe_byte word.

(** On a POSIX host. *)
Definition windowsShapedPath (p : string) : bool :=
  match p with
  | String a (String ":" _) => is_letter a || HasPrefix p "\\"
  | _ => HasPrefix p "\\"
  end.

(** [strings.ReplaceAll(s, string(c), by)] *)
Fixpoint ReplaceAllByte (s : string) (c : ascii) (by_ : string) : string :=
  match s with
  | EmptyString => ""
  | String b t => (if Ascii.eqb b c then by_ else String b "") +:+ ReplaceAllByte t c by_
  end.

Definition quotePosixWord (word : string) : string :=
  "'" +:+ ReplaceAllByte word "'" ("'" +:+ dquote +:+ "'" +:+ dquote +:+ "'") +:+ "'".

Definition command_word (binary : string) : string :=
  if windowsShapedPath binary then dquote +:+ ReplaceByte binary "\" slash +:+ dquote
  else if negb (shellSafeWord binary) then quotePosixWord binary
  else binary.

Definition HookCommand (binary : string) (args : list string) : string :=
  match args with
  | [] => command_word binary
  | _ => command_word binary +:+ " " +:+ Join args " "
  end.

Definition is_blank (c : ascii) : bool :=
  (Ascii.eqb c " " || Ascii.eqb c "009" || Ascii.eqb c "010" || Ascii.eqb c "011" ||
   Ascii.eqb c "012" || Ascii.eqb c "013")%char.

(** [strings.TrimSpace] and [strings.Fields], for ASCII. *)
Fixpoint TrimLeftSpace (s : string) : string :=
  match s with String c t => if is_blank c then TrimLeftSpace t else s | EmptyString => "" end.

Definition TrimSpace (s : string) : string := TrimRightByte is_blank (TrimLeftSpace s).

Fixpoint fields_from (s : string) (word : string) : list string :=
  let flush rest := if word =s? "" then rest else word :: rest in
  match s with
  | EmptyString => flush []
  | String c t => if is_blank c then flush (fields_from t "") else fields_from t (word +:+ String c "")
  end.

Definition Fields (s : string) : list string := fields_from s "".

Definition leadingWord (command : string) : string :=
  match TrimSpace command with
  | EmptyString => ""
  | String c rest as command =>
      if Ascii.eqb c quote || Ascii.eqb c "'" then
        match Cut rest c with
        | (word, _, true) => String c (word +:+ String c "")
        | (_, _, false) => command
        end
      else (Cut command " ").1.1
  end.

Definition looksLikePathWithSpace (command : string) : bool :=
  match Cut command " " with
  | (_, rest, true) => ContainsAny (Cut rest " ").1.1 "/\"
  | _ => false
  end.

(** The loop over the fields: the index of the first [hook]. *)
Fixpoint hook_index (i : nat) (fields : list string) : option nat :=
  match fields with
  | [] => None
  | f :: rest => if f =s? "hook" then Some i else hook_index (S i) rest
  end.

Definition unquotedPathWithSpace (command : string) : bool :=
  match hook_index 0 (Fields command) with
  | Some i => (1 <? i)%nat
  | None => looksLikePathWithSpace command
  end.

Definition backslash_hazard : string :=
  "the binary path is unquoted and contains a backslash, which a POSIX shell reads as an escape character; the hook silently fails to spawn".
Definition space_hazard : string :=
  "the binary path is unquoted and contains a space, so the shell splits it into a command and an argument".

Definition UnquotedShellHazard (command : string) : string :=
  let executable := leadingWord command in
  if executable =s? "" then ""
  else if HasPrefix executable dquote || HasPrefix executable "'" then ""
  else if ContainsByte executable "\" then backslash_hazard
  else if ContainsByte command " " && unquotedPathWithSpace command then space_hazard
  else "".

(** ** antigravity.go *)

Definition bareWindowsWord (p : string) : bool :=
  let rest := match p with String a (String ":" r) => if is_letter a then r else p | _ => p end in
  (rest <>s? "") && shellSafeWord ("x" +:+ ReplaceByte rest "~" "x").

(** [resolveShortPath] of a POSIX host finds no short name. *)
Definition antigravityBareWord (binary : string) : option string :=
  if negb (windowsShapedPath binary) then None
  else
    let slashed := ReplaceByte binary "\" slash in
    if bareWindowsWord slashed then Some slashed else None.

Definition antigravityHookCommand (binary : string) (args : list string) : string :=
  match antigravityBareWord binary with
  | Some word => word +:+ " " +:+ Join args " "
  | None => HookCommand binary args
  end.

Definition AntigravityHookSpawnable (binary : string) : bool :=
  if negb (windowsShapedPath binary) then true
  else match antigravityBareWord binary with Some _ => true | None => false end.

(** ** The fragments *)

Definition hook_group (id : string) (matcher : option string) (cmd : string) (timeout : option string) : json :=
  let handler :=
    [("command", Str cmd)] ++
    match timeout with Some t => [("timeout", Num t)] | None => [] end ++ [("type", Str "command")] in
  Obj AnyMap
    ([("hooks", Arr AnySlice [Obj AnyMap handler]); ("id", Str id)] ++
     match matcher with Some m => [("matcher", Str m)] | None => [] end).

Definition hook_event (g : json) : json := Arr AnySlice [g].

Definition claudeHooks (binary : string) : object :=
  let cmd := HookCommand binary ["hook"; "claude"] in
  [("PostToolUse", hook_event (hook_group "guardrail-claude-post" (Some ClaudePostHookMatcher) cmd None));
   ("PreToolUse", hook_event (hook_group "guardrail-claude-pre" (Some ClaudePreHookMatcher) cmd (Some "10")));
   ("SessionStart", hook_event (hook_group "guardrail-claude-session-start" (Some "startup|clear|compact") cmd None));
   ("Stop", hook_event (hook_group "guardrail-claude-stop" None cmd (Some "600")));
   ("SubagentStop", hook_event (hook_group "guardrail-claude-subagent-stop" None cmd (Some "600")))].

Definition claudeFloorAllow : list string := ["Bash(guardrail fetch:*)"].

Definition ClaudeConfig (binary : string) : object :=
  [("hooks", Obj AnyMap (claudeHooks binary));
   ("permissions", Obj AnyMap [("allow", Arr StringSlice (map Str claudeFloorAllow))])].

Definition AntigravityConfig (binary : string) : object :=
  let preCmd := antigravityHookCommand binary ["hook"; "antigravity"; "pre"] in
  let postCmd := antigravityHookCommand binary ["hook"; "antigravity"; "post"] in
  [("guardrail", Obj AnyMap
     [("PostToolUse",
        hook_event (hook_group "guardrail-antigravity-post" (Some AntigravityPostHookMatcher) postCmd (Some "120")));
      ("PreToolUse",
        hook_event (hook_group "guardrail-antigravity-pre" (Some AntigravityPreHookMatcher) preCmd (Some "15")));
      ("enabled", Bool true)])].

Definition OpencodeConfig (pluginPath : string) : object :=
  [("plugin", Arr StringSlice [Str pluginPath])].

(** ** The floor of earlier releases *)

Definition is_known (known : list string) (entry : json) : bool :=
  match entry with Str s => in_list s known | _ => false end.

Definition prune_tier (legacy : string -> list string) (st : object * nat) (tier : string) : object * nat :=
  let '(permissions, removed) := st in
  match get_slice tier permissions with
  | None => st
  | Some entries =>
      let kept := List.filter (fun e => negb (is_known (legacy tier) e)) entries in
      (if (length kept =? length entries)%nat then permissions
       else match kept with
            | [] => fdel tier permissions
            | _ => fset tier (Arr AnySlice kept) permissions
            end,
       removed + count (is_known (legacy tier)) entries)%nat
  end.

(** The document after an in-place change of the map under [k]: deleted with its
    key when entries were removed and none is left. *)
Definition settle_map (k : string) (t : MapType) (sub sub' : object) (removed : nat) (doc : object) : object :=
  match sub' with
  | [] => if (0 <? removed)%nat then fdel k doc else fset k (write_back t sub sub') doc
  | _ => fset k (write_back t sub sub') doc
  end.

Definition pruneClaudeFloor (doc : object) (legacy : string -> list string) : object * nat :=
  match fget "permissions" doc with
  | Some (Obj t permissions) =>
      let '(permissions', removed) := fold_left (prune_tier legacy) ["deny"; "ask"] (permissions, 0%nat) in
      (settle_map "permissions" t permissions permissions' removed doc, removed)
  | _ => (doc, 0%nat)
  end.

(** Go's [==] on the values a rule can have. *)
Definition same_scalar (v w : json) : bool :=
  match v, w with
  | Null, Null => true
  | Bool a, Bool b => Bool.eqb a b
  | Num s, Num t | Str s, Str t => s =s? t
  | _, _ => false
  end.

Definition prune_rule (st : object * nat) (rule : string * json) : object * nat :=
  let '(current, removed) := st in
  let '(pattern, want) := rule in
  if pattern =s? "*" then st
  else match fget pattern current with
       | Some have => if same_scalar have want then (fdel pattern current, S removed) else st
       | None => st
       end.

(** A category after its rules were changed in place: deleted when none is left. *)
Definition settle_category (c : string) (t : MapType) (cur cur' : object) (permission : object) : object :=
  match cur' with [] => fdel c permission | _ => fset c (write_back t cur cur') permission end.

Definition prune_category (st : object * nat) (category : string * object) : object * nat :=
  let '(permission, removed) := st in
  let '(c, rules) := category in
  match fget c permission with
  | Some (Obj t current) =>
      let '(current', removed) := fold_left prune_rule rules (current, removed) in
      (settle_category c t current current' permission, removed)
  | _ => st
  end.

Definition drop_retired_pattern (st : object * nat) (pattern : string) : object * nat :=
  let '(current, removed) := st in
  match fget pattern current with
  | Some _ => (fdel pattern current, S removed)
  | None => st
  end.

Definition pruneOpencodeFloor (doc : object) (legacy : list (string * object)) : object * nat :=
  match fget "permission" doc with
  | Some (Obj t permission) =>
      let '(permission', removed) := fold_left prune_category legacy (permission, 0%nat) in
      let '(permission', removed) :=
        match fget "bash" permission' with
        | Some (Obj tb current) =>
            let '(current', removed) := fold_left drop_retired_pattern retiredBashFloorPatterns (current, removed) in
            (settle_category "bash" tb current current' permission', removed)
        | _ => (permission', removed)
        end in
      (settle_map "permission" t permission permission' removed doc, removed)
  | _ => (doc, 0%nat)
  end.

(** ** A reader of shell words *)

Inductive mode := Blanks | Bare | Single | Double.

(** Bytes a POSIX shell takes as they are, in a word. *)
Definition bare_byte (c : ascii) : bool := safe_byte c || Ascii.eqb c ":" || Ascii.eqb c "~".

Definition special_in_double (c : ascii) : bool :=
  Ascii.eqb c "$" || Ascii.eqb c "`" || Ascii.eqb c "\".

Fixpoint shell_read (m : mode) (word s : string) : option (list string) :=
  match s with
  | EmptyString =>
      match m with Blanks => Some [] | Bare => Some [word] | _ => None end
  | String c t =>
      match m with
      | Blanks =>
          if Ascii.eqb c " " then shell_read Blanks "" t
          else if Ascii.eqb c "'" then shell_read Single "" t
          else if Ascii.eqb c quote then shell_read Double "" t
          else if safe_byte c then shell_read Bare (String c "") t
          else None
      | Bare =>
          if Ascii.eqb c " " then
            match shell_read Blanks "" t with Some ws => Some (word :: ws) | None => None end
          else if Ascii.eqb c "'" then shell_read Single word t
          else if Ascii.eqb c quote then shell_read Double word t
          else if bare_byte c then shell_read Bare (word +:+ String c "") t
          else None
      | Single =>
          if Ascii.eqb c "'" then shell_read Bare word t
          else shell_read Single (word +:+ String c "") t
      | Double =>
          if Ascii.eqb c quote then shell_read Bare word t
          else if special_in_double c then None
          else shell_read Double (word +:+ String c "") t
      end
  end.

Definition shell_words (s : string) : option (list string) := shell_read Blanks "" s.

(** ** Lemmas *)

Lemma safe_byte_plain c :
  safe_byte c = true ->
  Ascii.eqb c " " = false /\ Ascii.eqb c "'" = false /\ Ascii.eqb c quote = false /\
  Ascii.eqb c "\" = false /\ is_blank c = false /\ bare_byte c = true.
Proof.
  intros H. split_and!; try (by unfold bare_byte; rewrite H).
  all: apply not_true_iff_false; intros E; try (apply Ascii.eqb_eq in E; by subst c).
  unfold is_blank in E. repeat (apply orb_true_iff in E as [E|E]); apply Ascii.eqb_eq in E; by subst c.
Qed.

Lemma read_bare s w t :
  all_bytes safe_byte s = true -> shell_read Bare w (s +:+ t) = shell_read Bare (w +:+ s) t.
Proof.
  revert w. induction s as [|c s IH]; intros w Hs; [by rewrite append_nil_r|].
  apply andb_true_iff in Hs as [Hc Hs]. destruct (safe_byte_plain c Hc) as (H1 & H2 & H3 & _ & _ & H6).
  cbn [String.append shell_read]. rewrite H1, H2, H3, H6, IH by done. by rewrite append_assoc.
Qed.

Lemma read_word s t :
  s <> "" -> all_bytes safe_byte s = true -> shell_read Blanks "" (s +:+ t) = shell_read Bare s t.
Proof.
  destruct s as [|c s]; [done|]. intros _ Hs. apply andb_true_iff in Hs as [Hc Hs].
  destruct (safe_byte_plain c Hc) as (H1 & H2 & H3 & _ & _ & _).
  cbn [String.append shell_read]. by rewrite H1, H2, H3, Hc, read_bare.
Qed.

Lemma read_single s w t :
  shell_read Single w
    (ReplaceAllByte s "'" ("'" +:+ dquote +:+ "'" +:+ dquote +:+ "'") +:+ String "'" t) =
  shell_read Bare (w +:+ s) t.
Proof.
  revert w. induction s as [|c s IH]; intros w; [by rewrite append_nil_r|].
  cbn [ReplaceAllByte]. destruct (Ascii.eqb c "'") eqn:E.
  - apply Ascii.eqb_eq in E. subst c. rewrite append_assoc.
    change (shell_read Single w (("'" +:+ dquote +:+ "'" +:+ dquote +:+ "'") +:+ ?x))
      with (shell_read Single (w +:+ "'") x).
    rewrite IH. by rewrite append_assoc.
  - cbn [String.append shell_read]. rewrite E, IH. by rewrite append_assoc.
Qed.

Lemma read_double s w t :
  all_bytes (fun c => negb (Ascii.eqb c quote || special_in_double c)) s = true ->
  shell_read Double w (s +:+ String quote t) = shell_read Bare (w +:+ s) t.
Proof.
  revert w. induction s as [|c s IH]; intros w Hs; [by rewrite append_nil_r|].
  apply andb_true_iff in Hs as [Hc Hs]. apply negb_true_iff, orb_false_iff in Hc as [H1 H2].
  cbn [String.append shell_read]. rewrite H1, H2, IH by done. by rewrite append_assoc.
Qed.

(** An argument of a generated command. *)
Definition plain_arg (a : string) : Prop := a <> "" /\ all_bytes safe_byte a = true.

Lemma read_args args w :
  args <> [] -> Forall plain_arg args -> shell_read Bare w (" " +:+ Join args " ") = Some (w :: args).
Proof.
  intros Hne Ha. revert w. induction Ha as [|a args [Hn Hs] Ha IH]; [done|]. intros w.
  cbn [String.append]. change (shell_read Bare w (String " " ?x)) with
    (match shell_read Blanks "" x with Some ws => Some (w :: ws) | None => None end).
  destruct args as [|b args].
  - cbn [Join]. rewrite <- (append_nil_r a) at 1. by rewrite read_word.
  - change (Join (a :: b :: args) " ") with (a +:+ (" " +:+ Join (b :: args) " ")).
    by rewrite read_word, IH.
Qed.

(** A Windows path that double quotes protect in a POSIX shell. *)
Definition quotable (p : string) : bool :=
  all_bytes (fun c => negb (Ascii.eqb c quote || Ascii.eqb c "$" || Ascii.eqb c "`")) p.

Lemma slashed_quotable p :
  quotable p = true ->
  all_bytes (fun c => negb (Ascii.eqb c quote || special_in_double c)) (ReplaceByte p "\" slash) = true.
Proof.
  induction p as [|c p IH]; [done|]. cbn [all_bytes ReplaceByte quotable]. intros [Hc Hp]%andb_true_iff.
  apply andb_true_iff. split; [|by apply IH]. destruct (Ascii.eqb c "\") eqn:E; [done|].
  unfold special_in_double. rewrite E. apply negb_true_iff in Hc. rewrite orb_false_r, orb_assoc. by rewrite Hc.
Qed.

Lemma read_command_word binary t :
  (windowsShapedPath binary = true -> quotable binary = true) ->
  shell_read Blanks "" (command_word binary +:+ t) =
  shell_read Bare (if windowsShapedPath binary then ReplaceByte binary "\" slash else binary) t.
Proof.
  intros Hq. unfold command_word. destruct (windowsShapedPath binary).
  - rewrite !append_assoc. change (shell_read Blanks "" (dquote +:+ ?x)) with (shell_read Double "" x).
    change (dquote +:+ t) with (String quote t). by rewrite read_double by by apply slashed_quotable, Hq.
  - destruct (shellSafeWord binary) eqn:E; cbn [negb].
    + unfold shellSafeWord in E. breflect. by apply read_word.
    + unfold quotePosixWord. rewrite !append_assoc.
      change (shell_read Blanks "" ("'" +:+ ?x)) with (shell_read Single "" x).
      change ("'" +:+ t) with (String "'" t). by rewrite read_single.
Qed.

Lemma trim_right_id p s c t :
  last_byte (String c t) = Some s -> p s = false -> TrimRightByte p (String c t) = String c t.
Proof.
  revert c. induction t as [|d t IH]; intros c Hl Hp; simpl in Hl |- *; [simplify_eq; by rewrite Hp|].
  change (match t with EmptyString => Some d | String _ _ => last_byte t end) with (last_byte (String d t)) in Hl.
  specialize (IH d Hl Hp). simpl in IH. by rewrite IH.
Qed.

Lemma last_byte_app s c t : last_byte (s +:+ String c t) = last_byte (String c t).
Proof.
  induction s as [|d s IH]; [done|]. destruct s as [|e s]; [done|]. exact IH.
Qed.

Lemma last_byte_cons d t c : last_byte t = Some c -> last_byte (String d t) = Some c.
Proof. by destruct t. Qed.

Lemma plain_last a : plain_arg a -> exists c, last_byte a = Some c /\ is_blank c = false.
Proof.
  intros [Hn Hs]. induction a as [|c a IH]; [done|]. apply andb_true_iff in Hs as [Hc Hs].
  destruct a as [|d a]; [exists c; split; [done|by apply safe_byte_plain]|]. 
  destruct IH as (x & Hx & Hb); [done|done|]. by exists x.
Qed.

Lemma Join_last args :
  args <> [] -> Forall plain_arg args -> exists c, last_byte (Join args " ") = Some c /\ is_blank c = false.
Proof.
  intros Hne Ha. induction Ha as [|a args Hp Ha IH]; [done|]. destruct args as [|b args]; [by apply plain_last|].
  destruct IH as (c & Hc & Hb); [done|]. exists c. split; [|done].
  change (Join (a :: b :: args) " ") with (a +:+ String " " (Join (b :: args) " ")).
  rewrite last_byte_app. by apply last_byte_cons.
Qed.

Lemma fields_word s w t :
  all_bytes safe_byte s = true -> fields_from (s +:+ t) w = fields_from t (w +:+ s).
Proof.
  revert w. induction s as [|c s IH]; intros w Hs; [by rewrite append_nil_r|].
  apply andb_true_iff in Hs as [Hc Hs]. destruct (safe_byte_plain c Hc) as (_ & _ & _ & _ & Hb & _).
  cbn [String.append fields_from]. rewrite Hb, IH by done. by rewrite append_assoc.
Qed.

Lemma fields_args args w :
  w <> "" -> Forall plain_arg args ->
  fields_from (match args with [] => "" | _ => " " +:+ Join args " " end) w = w :: args.
Proof.
  intros Hw Ha. revert w Hw. induction Ha as [|a args [Hn Hs] Ha IH]; intros w Hw.
  - cbn [fields_from]. by apply String.eqb_neq in Hw as ->.
  - cbn [String.append]. change (fields_from (String " " ?x) w)
      with (if w =s? "" then fields_from x "" else w :: fields_from x "").
    apply String.eqb_neq in Hw as ->. f_equal. specialize (IH a Hn).
    destruct args as [|b args]; [cbn [Join]|].
    + rewrite <- (append_nil_r a) at 1. by rewrite fields_word.
    + change (Join (a :: b :: args) " ") with (a +:+ (" " +:+ Join (b :: args) " ")).
      by rewrite fields_word.
Qed.

Lemma leading_quote c t :
  is_blank c = false -> Ascii.eqb c quote || Ascii.eqb c "'" = true ->
  exists u, leadingWord (String c t) = String c u.
Proof.
  intros Hb Hq. unfold leadingWord, TrimSpace. cbn [TrimLeftSpace]. rewrite Hb.
  assert (Ht : exists u, TrimRightByte is_blank (String c t) = String c u).
  { simpl. rewrite Hb. destruct (TrimRightByte is_blank t); by eexists. }
  destruct Ht as [u ->]. rewrite Hq. destruct (Cut u c) as [[word rest] []]; by eexists.
Qed.

Lemma safe_no_space w : all_bytes safe_byte w = true -> ContainsByte w " " = false.
Proof. intros H. apply (all_bytes_not_contains safe_byte); done. Qed.

Lemma leading_safe w t :
  plain_arg w -> (exists c, last_byte t = Some c /\ is_blank c = false) -> leadingWord (w +:+ String " " t) = w.
Proof.
  intros [Hn Hs] (l & Hl & Hb). unfold leadingWord, TrimSpace. destruct w as [|c w]; [done|].
  apply andb_true_iff in Hs as Hs'. destruct Hs' as [Hc _].
  destruct (safe_byte_plain c Hc) as (_ & Hq1 & Hq2 & _ & Hbc & _).
  cbn [String.append TrimLeftSpace]. rewrite Hbc.
  rewrite (trim_right_id is_blank l); [| |done].
  2: { change (String c (w +:+ String " " t)) with (String c w +:+ String " " t). rewrite last_byte_app.
       by apply last_byte_cons. }
  rewrite Hq1, Hq2. cbn [orb]. change (String c (w +:+ String " " t)) with (String c w +:+ String " " t).
  by rewrite (Cut_app_sep (String c w) " " t (safe_no_space _ Hs)).
Qed.

(** ** Properties *)

(** C25: The hook command a plane registers is read back by a POSIX shell as the binary and the
    arguments it was built from, for arguments of plain characters: whatever the path holds,
    when it is not shaped like a Windows path; and a Windows path, with slashes for its
    backslashes, when it holds no [$], no backquote and no double quote. Doctor's hazard check
    accepts the command. *)
Theorem hook_command_faithful binary args :
  Forall plain_arg args ->
  (windowsShapedPath binary = true -> quotable binary = true) ->
  shell_words (HookCommand binary ("hook" :: args)) =
    Some ((if windowsShapedPath binary then ReplaceByte binary "\" slash else binary) :: "hook" :: args) /\
  UnquotedShellHazard (HookCommand binary ("hook" :: args)) = "".
Proof.
  intros Ha Hq. assert (Hargs : Forall plain_arg ("hook" :: args)) by by constructor.
  unfold HookCommand, shell_words. split; [by rewrite read_command_word, read_args|].
  unfold UnquotedShellHazard. case_match; [done|].
  assert (Hquoted : forall c t, is_blank c = false -> Ascii.eqb c quote || Ascii.eqb c "'" = true ->
    HasPrefix (leadingWord (String c t)) dquote || HasPrefix (leadingWord (String c t)) "'" = true).
  { intros c t Hb Hc. destruct (leading_quote c t Hb Hc) as [u ->].
    apply orb_true_iff in Hc as [Hc|Hc]; apply Ascii.eqb_eq in Hc; by subst c. }
  unfold command_word in *. destruct (windowsShapedPath binary).
  { cbn [String.append dquote]. by rewrite (Hquoted quote). }
  destruct (shellSafeWord binary) eqn:Es; cbn [negb] in *.
  2: { unfold quotePosixWord. cbn [String.append]. by rewrite (Hquoted "'"%char). }
  unfold shellSafeWord in Es. apply andb_true_iff in Es as [[Hne%negb_true_iff _]%andb_true_iff Hs].
  assert (Hw : plain_arg binary) by (split; [by apply String.eqb_neq|done]).
  change (" " +:+ Join ("hook" :: args) " ") with (String " " (Join ("hook" :: args) " ")) in *.
  rewrite leading_safe by (done || by apply Join_last). case_match; [done|].
  rewrite (all_bytes_not_contains safe_byte binary "\") by done.
  unfold unquotedPathWithSpace, Fields. rewrite fields_word by done. cbn [String.append].
  pose proof (fields_args ("hook" :: args) binary (proj1 Hw) Hargs) as Hf.
  cbn [String.append] in Hf. rewrite Hf. cbn [hook_index]. destruct (binary =s? "hook"); by rewrite andb_false_r.
Qed.

(** A path with a space and a quote. *)
Lemma hook_command_faithful_witness :
  shell_words (HookCommand "/home/o'neil/my tools/guardrail" ["hook"; "claude"]) =
    Some ["/home/o'neil/my tools/guardrail"; "hook"; "claude"] /\
  UnquotedShellHazard (HookCommand "/home/o'neil/my tools/guardrail" ["hook"; "claude"]) = "".
Proof.
  apply (hook_command_faithful "/home/o'neil/my tools/guardrail" ["claude"]); [|discriminate].
  constructor; [|constructor]. split; [discriminate|reflexivity].
Defined.
