(* ===== verification/Lifecycle.v ===== *)
(** * Enabling and disabling a plane

    The composition of [GenMerge], [Manifest] and [GenConfig]: what the operator
    is promised over the life of a plane's integration.  Enabling merges the
    generated fragment and records what it changed; enabling again changes
    nothing; disabling undoes the record, and leaves the document the operator
    had. *)

From Stdlib Require Import ZArith Lia Bool.
From S2P Require Import Prelude GoStrings Regex GoPath Argv Policy Json GenMerge Manifest GenConfig.

(** ** A document with nothing of guardrail's in it *)

(** No list holds a marked group or a legacy one. *)
Fixpoint guardrail_free (v : json) : bool :=
  match v with
  | Arr _ l => forallb foreign l
  | Obj _ m =>
      (fix go (m : object) :=
         match m with [] => true | (_, v) :: rest => guardrail_free v && go rest end) m
  | _ => true
  end.

Lemma guardrail_free_obj t m :
  guardrail_free (Obj t m) = true <-> Forall (fun kv => guardrail_free kv.2 = true) m.
Proof.
  cbn [guardrail_free]. induction m as [|[k v] m IH]; [split; [constructor|done]|].
  rewrite Forall_cons, <- IH, andb_true_iff. done.
Qed.

Lemma guardrail_free_get t m k v : guardrail_free (Obj t m) = true -> fget k m = Some v -> guardrail_free v = true.
Proof. rewrite guardrail_free_obj. intros H Hg. by apply (fget_Forall _ m k v H). Qed.

(** ** Lemmas: a merge extends such a document *)

Lemma matchesRecorded_refl v : matchesRecorded v v = true.
Proof. unfold matchesRecorded. by rewrite String.eqb_refl. Qed.

Lemma unrecorded_new nl : unrecorded None nl = [].
Proof.
  unfold unrecorded. apply filter_none. apply Forall_forall. intros v Hv. apply not_true_iff_false.
  rewrite forallb_forall. intros H. specialize (H v). rewrite matchesRecorded_refl in H. simpl in H.
  apply diff_false_true, H. apply list_elem_of_In. unfold added_elements. apply elem_of_List_filter.
  by split.
Qed.

Lemma added_elements_in ol nl e :
  e ∈ added_elements (Some (Arr AnySlice ol)) nl <-> e ∈ nl /\ jsonKey e ∉ map jsonKey ol.
Proof.
  unfold added_elements. rewrite elem_of_List_filter, negb_true_iff, in_list_false. done.
Qed.

Lemma unrecorded_app ol inc :
  (forall v e, v ∈ ol -> e ∈ inc -> jsonKey e ∉ map jsonKey ol -> matchesRecorded e v = false) ->
  (forall e, e ∈ inc -> jsonKey e ∉ map jsonKey ol) ->
  unrecorded (Some (Arr AnySlice ol)) (ol ++ inc) = ol.
Proof.
  intros Hm Hn. unfold unrecorded. rewrite List.filter_app. set (es := added_elements _ _).
  assert (Hes : forall e, e ∈ es <-> e ∈ inc).
  { intros e. unfold es. rewrite added_elements_in, elem_of_app. split.
    - intros [[Hin|Hin] Hk]; [|done]. exfalso. apply Hk, list_elem_of_fmap. by exists e.
    - intros Hin. split; [by right|by apply Hn]. }
  rewrite filter_all, filter_none, app_nil_r; [done| |].
  - apply Forall_forall. intros v Hv. apply not_true_iff_false. rewrite forallb_forall. intros H.
    specialize (H v). rewrite matchesRecorded_refl in H. simpl in H.
    apply diff_false_true, H, list_elem_of_In. by apply Hes.
  - apply Forall_forall. intros v Hv. apply forallb_forall. intros e He%list_elem_of_In.
    apply negb_true_iff, Hm; [done|by apply Hes|]. by apply Hn, Hes.
Qed.

Lemma jsonKey_in v l : Forall document l -> document v -> jsonKey v ∈ map jsonKey l -> v ∈ l.
Proof.
  intros Hl Hv Hin. apply list_elem_of_fmap in Hin as (w & Hw & Hin). rewrite Forall_forall in Hl.
  unfold jsonKey in Hw. apply marshal_inj in Hw; [by subst|done|auto].
Qed.

Lemma extends_new sv : forall k, document sv -> generated k sv = true -> extends None sv.
Proof.
  induction sv as [|b|t|s|t l IH|t sm IH] using json_rect'; intros k Hs Hg; try by constructor.
  - apply document_arr in Hs as [-> _]. apply (ext_list None []); [by right|apply unrecorded_new].
  - apply document_obj in Hs as (-> & Hss & Hsd).
    assert (Hev : forall k' v, fget k' sm = Some v -> k' <> "" /\ extends None v).
    { intros k' v Hv. destruct (is_hooks_key k) eqn:Ek.
      - cbn [generated] in Hg. rewrite Ek in Hg. rewrite forallb_forall in Hg.
        apply fget_In in Hv as Hin. apply list_elem_of_In, Hg in Hin. unfold generated_event in Hin. simpl in Hin.
        apply andb_true_iff in Hin as [Hne Hin]. split; [by apply negb_true_iff, String.eqb_neq in Hne|].
        pose proof (fget_Forall (fun kv => document kv.2) sm k' v Hsd Hv) as Hdv. simpl in Hdv.
        destruct v as [| | | |tv l|]; try done; try by constructor.
        apply document_arr in Hdv as [-> _]. apply (ext_list None []); [by right|apply unrecorded_new].
      - rewrite generated_obj in Hg by done. destruct (fget_Forall _ sm k' v Hg Hv) as [Hne Hgv]. split; [done|].
        apply (fget_Forall _ sm k' v IH Hv k'); [|done]. by apply (fget_Forall (fun kv => document kv.2) sm k' v). }
    apply (ext_object None []); [by right|constructor| | |done].
    + intros k' v Hv. by apply (Hev k' v).
    + intros v Hv. by destruct (Hev "" v Hv).
Qed.

Lemma extends_union da sa :
  Forall document da -> Forall document sa -> forallb (fun e => negb (ownedByGuardrail e)) sa = true ->
  extends (Some (Arr AnySlice da)) (Arr AnySlice (unionAppend da sa)).
Proof.
  intros Hd Hs Hg. apply (ext_list _ da); [by left|]. unfold unionAppend.
  assert (Hun : forall seen l e, e ∈ append_unseen seen l -> e ∈ l /\ jsonKey e ∉ seen).
  { intros seen l. revert seen. induction l as [|v l IH]; intros seen e He; [by apply elem_of_nil in He|].
    cbn [append_unseen] in He. destruct (in_list (jsonKey v) seen) eqn:E.
    - apply IH in He. set_solver.
    - apply in_list_false in E. apply elem_of_cons in He as [->|He]; [set_solver|].
      apply IH in He. set_solver. }
  apply unrecorded_app.
  - intros v e Hv He Hk. apply Hun in He as [He _]. unfold matchesRecorded.
    destruct (jsonKey v =s? jsonKey e) eqn:E.
    { exfalso. apply String.eqb_eq in E. apply Hk. rewrite <- E. apply list_elem_of_fmap. by exists v. }
    rewrite forallb_forall in Hg. apply list_elem_of_In, Hg, negb_true_iff in He.
    rewrite He. by destruct e as [| | | | |[] rm], v as [| | | | |[] vm].
  - intros e He. by apply Hun in He as [_ He].
Qed.

Lemma extends_groups dg sg :
  Forall document dg -> Forall document sg -> forallb foreign dg = true -> forallb marked sg = true ->
  extends (Some (Arr AnySlice dg)) (Arr AnySlice (merge_groups dg sg)).
Proof.
  intros Hd Hs Hf Hg. apply (ext_list _ dg); [by left|].
  rewrite forallb_forall in Hf, Hg. rewrite Forall_forall in Hs.
  rewrite merge_groups_owned, filter_all.
  2: { apply Forall_forall. intros v Hv. by apply Hf, list_elem_of_In. }
  2: { apply Forall_forall. intros g Hin. by apply marked_owned, Hg, list_elem_of_In. }
  assert (Hno : forall e, e ∈ sg -> jsonKey e ∉ map jsonKey dg).
  { intros e He Hin. apply jsonKey_in in Hin; [|done|by apply Hs]. apply list_elem_of_In, Hf in Hin.
    apply list_elem_of_In, Hg, marked_owned, owned_not_foreign in He. congruence. }
  apply unrecorded_app; [|done]. intros v e Hv He Hk. unfold matchesRecorded.
  destruct (jsonKey v =s? jsonKey e) eqn:E.
  { exfalso. apply String.eqb_eq in E. apply Hk. rewrite <- E. apply list_elem_of_fmap. by exists v. }
  apply Hs in He as Hde. apply list_elem_of_In, Hg in He. destruct e as [| | | | |[] rm]; try done.
  destruct v as [| | | | |[] vm]; try done. case_match; [done|]. destruct (fget "id" vm); [done|].
  apply String.eqb_neq. intros Hkey. apply andb_true_iff in He as [_ Hu].
  rewrite Forall_forall in Hd. apply marshal_inj in Hkey; [|by apply Hd|by apply document_fdel].
  apply list_elem_of_In, Hf in Hv. rewrite Hkey in Hv. unfold foreign in Hv. rewrite Hu, orb_true_r in Hv. done.
Qed.

(** An event of such a document that the fragment does not emit stays as it is. *)
Lemma event_after_free dv :
  match dv with Some d => guardrail_free d = true | None => True end -> event_after dv None = dv.
Proof.
  destruct dv as [dv|]; [|done]. intros Hf. cbn [event_after].
  destruct (toAnySlice dv) as [groups|] eqn:E; [|done]. destruct dv as [| | | |t l|]; try done. injection E as ->.
  cbn [guardrail_free] in Hf. rewrite forallb_forall in Hf. rewrite filter_all, Nat.eqb_refl; [done|].
  apply Forall_forall. intros g Hg. by apply Hf, list_elem_of_In.
Qed.

Lemma event_extends e dv sv v :
  kept_document dv -> match dv with Some d => guardrail_free d = true | None => True end ->
  document sv -> generated_event (e, sv) = true ->
  event_after dv (Some sv) = Some v -> extends dv v.
Proof.
  intros Hd Hf Hs Hg Hv. cbn [event_after] in Hv. unfold generated_event in Hg. cbn [fst snd] in Hg.
  apply andb_true_iff in Hg as [_ Hg].
  destruct (toAnySlice sv) as [sg|] eqn:E; injection Hv as <-.
  - destruct sv as [| | | |t l|]; try done. injection E as ->. apply document_arr in Hs as [_ Hs].
    destruct dv as [dv|].
    + destruct (toAnySlice dv) as [dg|] eqn:Ed.
      * apply document_list in Ed as [-> Hdg]; [|done]. by apply extends_groups.
      * apply ext_changed. by destruct dv.
    + apply (ext_list None []); [by right|apply unrecorded_new].
  - destruct sv; try done; (destruct dv; [apply ext_changed; by destruct j|by constructor]).
Qed.

Lemma mergeHooks_extends dm sm :
  document (Obj AnyMap dm) -> document (Obj AnyMap sm) ->
  guardrail_free (Obj AnyMap dm) = true -> forallb generated_event sm = true ->
  extends (Some (Obj AnyMap dm)) (Obj AnyMap (mergeHooks dm sm)).
Proof.
  intros Hd Hs Hf Hg. pose proof Hd as (_ & Hsd & Hdd)%document_obj. pose proof Hs as (_ & Hss & Hsdoc)%document_obj.
  assert (Hfk : forall k, match fget k dm with Some d => guardrail_free d = true | None => True end).
  { intros k. destruct (fget k dm) eqn:E; [|done]. by apply (guardrail_free_get AnyMap dm k). }
  assert (Hget : forall k, fget k (mergeHooks dm sm) = event_after (fget k dm) (fget k sm)).
  { intros k. apply mergeHooks_get; [done|by apply fsorted_NoDup]. }
  apply (ext_object _ dm); [by left|done| | |].
  - intros k v. rewrite Hget. pose proof (generated_events sm Hg k) as Hgk.
    pose proof (fget_kept_document sm k Hsdoc) as Hsk. destruct (fget k sm) as [sv|].
    + apply (event_extends k); [by apply fget_kept_document|apply Hfk|done|done].
    + rewrite event_after_free by apply Hfk. intros ->. constructor.
  - intros v. rewrite Hget. pose proof (generated_events sm Hg "") as Hgk. destruct (fget "" sm); [done|].
    by rewrite event_after_free by apply Hfk.
  - intros k. rewrite Hget. destruct (fget k sm); [done|]. by rewrite event_after_free by apply Hfk.
Qed.

Lemma deepMerge_extends dm sm :
  document (Obj AnyMap dm) -> document (Obj AnyMap sm) ->
  Forall (fun kv => kv.1 <> "" /\ generated kv.1 kv.2 = true) sm ->
  (forall k dv sv, fget k dm = Some dv -> fget k sm = Some sv -> extends (Some dv) (merge_value k dv sv)) ->
  extends (Some (Obj AnyMap dm)) (Obj AnyMap (deepMerge dm sm)).
Proof.
  intros Hd Hs Hg He. pose proof Hd as (_ & Hsd & _)%document_obj. pose proof Hs as (_ & Hss & Hsdoc)%document_obj.
  assert (Hget : forall k, fget k (deepMerge dm sm) = match fget k sm with None => fget k dm | Some sv =>
    Some (match fget k dm with None => sv | Some dv => merge_value k dv sv end) end).
  { intros k. by apply deepMerge_get, fsorted_NoDup. }
  apply (ext_object _ dm); [by left|done| | |].
  - intros k v. rewrite Hget. destruct (fget k sm) as [sv|] eqn:Es; [|intros ->; constructor].
    intros [= <-]. destruct (fget k dm) as [dv|] eqn:Ed; [by apply He|].
    destruct (fget_Forall _ sm k sv Hg Es) as [_ Hgs].
    apply (extends_new sv k); [|done]. by apply (fget_Forall (fun kv => document kv.2) sm k sv).
  - intros v. rewrite Hget. destruct (fget "" sm) as [sv|] eqn:Es; [|done].
    by destruct (fget_Forall _ sm "" sv Hg Es).
  - intros k. rewrite Hget. by destruct (fget k sm).
Qed.

Lemma merge_value_extends sv : forall k dv,
  document dv -> document sv -> guardrail_free dv = true -> generated k sv = true ->
  extends (Some dv) (merge_value k dv sv).
Proof.
  induction sv as [|b|t|s|t l IH|t sm IH] using json_rect'; intros k dv Hd Hs Hf Hg;
    try (apply ext_changed; by destruct dv).
  - apply document_arr in Hs as [-> Hs]. cbn [merge_value].
    destruct (toAnySlice dv) as [da|] eqn:E; [|destruct dv; try done; by apply ext_changed].
    apply document_list in E as [-> Hda]; [|done]. by apply extends_union.
  - pose proof Hs as (-> & Hss & Hsdoc)%document_obj. destruct (toStringAnyMap dv) as [dm|] eqn:E.
    + apply document_map in E as ->; [|done]. rewrite merge_value_obj. cbn [write_back].
      destruct (is_hooks_key k) eqn:Ek.
      { cbn [generated] in Hg. rewrite Ek in Hg. by apply mergeHooks_extends. }
      rewrite generated_obj in Hg by done. apply deepMerge_extends; [done..|]. intros k' dv' sv' Hdv Hsv.
      apply (fget_Forall _ sm k' sv' IH Hsv k').
      * exact (document_get _ _ _ _ Hd Hdv).
      * by apply (fget_Forall (fun kv => document kv.2) sm k' sv').
      * exact (guardrail_free_get _ _ _ _ Hf Hdv).
      * by apply (fget_Forall _ sm k' sv' Hg Hsv).
    + rewrite merge_value_not_obj by done. apply ext_changed. by destruct dv.
Qed.

Lemma merge_extends doc frag :
  document (Obj AnyMap doc) -> document (Obj AnyMap frag) ->
  guardrail_free (Obj AnyMap doc) = true -> generated_fragment frag = true ->
  extends (Some (Obj AnyMap doc)) (Obj AnyMap (deepMerge doc frag)).
Proof.
  intros Hd Hf Hfree Hg. unfold generated_fragment in Hg.
  pose proof (merge_value_extends (Obj AnyMap frag) "" (Obj AnyMap doc) Hd Hf Hfree Hg) as H.
  by rewrite merge_value_obj in H.
Qed.

(** ** Lemmas: what is stored *)

Lemma parsed_fdel k m : parsed_object (fdel k m) = fdel k (parsed_object m).
Proof.
  unfold fdel. induction m as [|[k' v] m IH]; [done|]. simpl. destruct (k =s? k'); simpl; [exact IH|].
  f_equal. exact IH.
Qed.

Lemma parsed_owned_id m : is_owned_id (parsed_object m) = is_owned_id m.
Proof. unfold is_owned_id. rewrite fget_parsed. by destruct (fget "id" m) as [[]|]. Qed.

Lemma parsed_unmarked g : fragment g -> unmarkedGuardrailGroup (parsed g) = unmarkedGuardrailGroup g.
Proof.
  destruct g as [| | | | |t m]; try done. intros Hg. pose proof Hg as (-> & _)%fragment_obj.
  unfold unmarkedGuardrailGroup at 2. rewrite <- (marshal_parsed (Obj AnyMap m)) by done.
  rewrite <- parsed_owned_id. done.
Qed.

Lemma parsed_marked g : fragment g -> marked (parsed g) = marked g.
Proof.
  destruct g as [| | | | |t m]; try done. intros Hg. pose proof Hg as (-> & Hs & Hf)%fragment_obj.
  assert (Hd : fragment (Obj AnyMap (fdel "id" m))).
  { apply fragment_obj. split; [done|]. split; [by apply fsorted_fdel|]. by apply Forall_fdel. }
  cbn [marked]. rewrite <- (parsed_unmarked _ Hd). cbn [parsed].
  change (map _ ?l) with (parsed_object l). cbn [marked].
  by rewrite parsed_owned_id, parsed_fdel.
Qed.

Lemma forallb_map_ext {A B} (f : A -> B) (p : B -> bool) (q : A -> bool) l :
  (forall a, a ∈ l -> p (f a) = q a) -> forallb p (map f l) = forallb q l.
Proof.
  induction l as [|a l IH]; intros H; [done|]. simpl. rewrite (H a), IH; [done| |by left].
  intros b Hb. apply H. by right.
Qed.

Lemma parsed_generated v : forall k, fragment v -> generated k (parsed v) = generated k v.
Proof.
  induction v as [| | | |t l IH|t m IH] using json_rect'; intros k Hf; try done.
  - apply fragment_arr in Hf. cbn [parsed generated]. apply forallb_map_ext. intros g Hg.
    rewrite Forall_forall in Hf. by rewrite parsed_owned by by apply Hf.
  - apply fragment_obj in Hf as (-> & _ & Hf). cbn [parsed generated]. destruct (is_hooks_key k).
    + apply forallb_map_ext. intros [e v] Hin. unfold generated_event. cbn [fst snd]. f_equal.
      rewrite Forall_forall in Hf. specialize (Hf _ Hin). cbn [snd] in Hf.
      destruct v as [| | | |t l|]; try done. apply fragment_arr in Hf. cbn [parsed].
      apply forallb_map_ext. intros g Hg. rewrite Forall_forall in Hf. by apply parsed_marked, Hf.
    + induction IH as [|[k' v] m Hv _ IH]; [done|]. apply Forall_cons in Hf as [Hfv Hf]. simpl.
      cbn [snd] in Hv, Hfv. rewrite Hv by done. by rewrite <- IH.
Qed.

Lemma stored_changed path key old new :
  kept_document old -> fragment new ->
  changed_entry path key old (parsed new) = map stored_entry (changed_entry path key old new).
Proof.
  intros Hd Hn. unfold changed_entry, jsonKey. destruct old as [o|].
  - rewrite marshal_parsed by done. destruct (_ =s? _); [done|]. simpl. unfold stored_entry, value_entry. simpl.
    simpl in Hd. by rewrite (document_parsed o Hd).
  - done.
Qed.

Lemma stored_value_entries new : forall path key old,
  kept_document old -> fragment new ->
  value_entries path key old (parsed new) = map stored_entry (value_entries path key old new).
Proof.
  induction new as [|b|t|s|t l IH|t m IH] using json_rect'; intros path key old Hd Hn;
    try (match goal with |- value_entries _ _ _ (parsed ?v) = _ => by apply (stored_changed path key old v) end).
  - assert (Hel : map (element_entry (path ++ [key])) (added_elements old (map parsed l)) =
      map stored_entry (map (element_entry (path ++ [key])) (added_elements old l))).
    { rewrite map_map. unfold added_elements. apply fragment_arr in Hn.
      induction Hn as [|v l Hv Hl IHl]; [done|]. apply Forall_cons in IH as [_ IH]. simpl.
      unfold jsonKey at 1 4. rewrite marshal_parsed by done. destruct (in_list _ _); simpl; by rewrite <- IHl. }
    destruct old as [[| | | |t' l'|t' m']|]; try exact Hel; by apply (stored_changed path key _ (Arr t l)).
  - pose proof Hn as (-> & _ & Hf)%fragment_obj.
    assert (Hob : forall om, (forall k, kept_document (fget k om)) ->
      ownershipEntries om (parsed_object m) (path ++ [key]) =
      map stored_entry (ownershipEntries om m (path ++ [key]))).
    { intros om Hom. unfold ownershipEntries. clear Hn. induction IH as [|[k v] m Hv _ IHm]; [done|].
      apply Forall_cons in Hf as [Hfv Hf]. cbn [parsed_object map flat_map fst snd] in *.
      rewrite map_app. f_equal; [by apply Hv|by apply IHm]. }
    destruct old as [[| | | | |t' om]|]; try by apply (stored_changed path key (Some _) (Obj AnyMap m)).
    + cbn [parsed]. rewrite !(value_entries_obj _ _ (Some (Obj t' om)) _ _ om) by done. apply Hob.
      intros k. simpl in Hd. by apply (kept_get t' om k).
    + cbn [parsed]. rewrite !(value_entries_obj _ _ None _ _ []) by done. by apply Hob.
Qed.

Lemma stored_entries before after :
  document (Obj AnyMap before) -> fragment (Obj AnyMap after) ->
  map stored_entry (ownershipEntries before after []) = ownershipEntries before (parsed_object after) [].
Proof.
  intros Hb Ha. apply fragment_obj in Ha as (_ & _ & Ha).
  unfold ownershipEntries. induction Ha as [|[k v] after Hv _ IH]; [done|].
  change (parsed_object ((k, v) :: after)) with ((k, parsed v) :: parsed_object after).
  cbn [flat_map fst snd] in *. rewrite map_app, IH. f_equal. symmetry. apply stored_value_entries; [|done]. exact (kept_get AnyMap before k Hb).
Qed.

(** ** Lemmas: one merge *)

(** The steps before the merge find nothing to retire. *)
Definition prepared (plane : string) (doc : object) : Prop :=
  removeRetiredBashFloorRules doc plane = doc /\
  (plane = "opencode" -> absorbGuardrailPluginEntries doc = doc).

(** A document of the operator's: read from a file, without empty containers,
    and with nothing of guardrail's, now or from an earlier release. *)
Record operator_document (plane : string) (doc : object) : Prop := {
  od_document : document (Obj AnyMap doc);
  od_settled : settled doc;
  od_free : guardrail_free (Obj AnyMap doc) = true;
  od_prepared : prepared plane doc;
}.

(** A fragment as the generators build it. *)
Record generated_for (frag : object) : Prop := {
  gf_fragment : fragment (Obj AnyMap frag);
  gf_generated : generated_fragment frag = true;
  gf_no_permission : fget "permission" frag = None;
}.

Lemma merge_document_plain plane doc frag :
  plane <> "" -> prepared plane doc -> fget "permission" frag = None ->
  merge_document plane doc frag = deepMerge doc frag.
Proof.
  intros Hp [Hr Ha] Hf. unfold merge_document, get_map. rewrite Hr, Hf.
  apply String.eqb_neq in Hp. rewrite Hp. cbn [orb]. destruct (plane =s? "opencode") eqn:E; [|done].
  apply String.eqb_eq in E. by rewrite Ha.
Qed.

Section OneMerge.
Context (plane : string) (doc frag : object).
Hypothesis (Hdoc : document (Obj AnyMap doc)) (Hfrag : generated_for frag).

Lemma parsed_fragment : document (Obj AnyMap (parsed_object frag)).
Proof using Hfrag. exact (parsed_document (Obj AnyMap frag) (gf_fragment _ Hfrag)). Qed.

Lemma parsed_merge : parsed_object (deepMerge doc frag) = deepMerge doc (parsed_object frag).
Proof using Hdoc Hfrag. by apply parsed_deepMerge; [|apply Hfrag]. Qed.

Lemma merged_document : document (Obj AnyMap (deepMerge doc (parsed_object frag))).
Proof using Hdoc Hfrag. apply structural_deepMerge; [done|apply parsed_fragment]. Qed.

Lemma merged_fragment : fragment (Obj AnyMap (deepMerge doc frag)).
Proof using Hdoc Hfrag.
  apply structural_deepMerge; [by apply document_fragment|apply Hfrag].
Qed.

Lemma parsed_fragment_generated : generated_fragment (parsed_object frag) = true.
Proof using Hfrag.
  rewrite <- (gf_generated _ Hfrag). exact (parsed_generated (Obj AnyMap frag) "" (gf_fragment _ Hfrag)).
Qed.

Lemma merged_again : deepMerge (deepMerge doc (parsed_object frag)) (parsed_object frag) =
  deepMerge doc (parsed_object frag).
Proof using Hdoc Hfrag. apply deepMerge_idem; [done|apply parsed_fragment|apply parsed_fragment_generated]. Qed.

End OneMerge.

Lemma parsed_object_document doc : document (Obj AnyMap doc) -> parsed_object doc = doc.
Proof. intros H. apply document_parsed in H. by injection H. Qed.

Lemma sameTarget_refl path : path <> "" -> sameTarget path path = true.
Proof. intros H. unfold sameTarget. apply String.eqb_neq in H as ->. apply String.eqb_refl. Qed.

Lemma supported_named plane : supported plane = true -> plane <> "".
Proof. by intros H ->. Qed.

(** ** Lemmas: merging again *)

Definition live_rule (e : json) : bool := negb (retiredBashFloorRule e true).

(** A tier without retired rules. *)
Definition tier_clean (v : option json) : Prop :=
  match v with Some (Arr _ l) => List.filter live_rule l = l | _ => True end.

Definition tiers_clean (m : object) : Prop := tier_clean (fget "deny" m) /\ tier_clean (fget "ask" m).

Lemma drop_retired_get m tier k :
  fget k (drop_retired_tier m tier) =
  if k =s? tier then
    match get_slice tier m with Some l => Some (Arr AnySlice (List.filter live_rule l)) | None => fget tier m end
  else fget k m.
Proof.
  unfold drop_retired_tier. destruct (String.eqb_spec k tier) as [->|Hk]; destruct (get_slice tier m); try done.
  - by rewrite fget_fset_eq.
  - by apply fget_fset_ne.
Qed.

Lemma tier_filtered m tier : tier_clean (fget tier (drop_retired_tier m tier)).
Proof.
  rewrite drop_retired_get, String.eqb_refl. unfold get_slice.
  destruct (fget tier m) as [[| | | |t l|]|]; try done. cbn. apply filter_filter_same.
Qed.

Lemma drop_tiers_clean m : tiers_clean (fold_left drop_retired_tier ["deny"; "ask"] m).
Proof.
  cbn [fold_left]. split; [|apply tier_filtered]. rewrite drop_retired_get. cbn [String.eqb Ascii.eqb Bool.eqb].
  apply tier_filtered.
Qed.

Lemma drop_clean_same m tier :
  document (Obj AnyMap m) -> tier_clean (fget tier m) -> drop_retired_tier m tier = m.
Proof.
  intros Hd Hc. unfold drop_retired_tier, get_slice. destruct (fget tier m) as [v|] eqn:E; [|done].
  destruct v as [| | | |t l|]; try done. cbn [toAnySlice mbind option_bind].
  pose proof (document_get AnyMap m tier _ Hd E) as [-> _]%document_arr. cbn [tier_clean] in Hc.
  change (fun e => negb (retiredBashFloorRule e true)) with live_rule. rewrite Hc.
  apply fset_same; [|done]. by apply document_obj in Hd as (_ & ? & _).
Qed.

Lemma drop_tiers_same m :
  document (Obj AnyMap m) -> tiers_clean m -> fold_left drop_retired_tier ["deny"; "ask"] m = m.
Proof.
  intros Hd [Hdeny Hask]. cbn [fold_left]. by rewrite (drop_clean_same m "deny"), (drop_clean_same m "ask").
Qed.

(** A fragment that leaves the deny and ask tiers to the operator. *)
Definition tiers_untouched (frag : object) : Prop :=
  forall v, fget "permissions" frag = Some v ->
    exists m, v = Obj AnyMap m /\ fget "deny" m = None /\ fget "ask" m = None /\ NoDup m.*1.

Definition drop_tiers (permissions : object) : object := fold_left drop_retired_tier ["deny"; "ask"] permissions.

Lemma retired_tiers_clean doc sub t :
  document (Obj AnyMap doc) -> fget "permissions" (update_map "permissions" drop_tiers doc) = Some (Obj t sub) ->
  tiers_clean sub.
Proof.
  intros Hd. unfold update_map. destruct (fget "permissions" doc) as [v|] eqn:E; [|congruence].
  destruct v as [| | | | |t' s]; try congruence. pose proof (document_get AnyMap doc _ _ Hd E) as (-> & _)%document_obj.
  rewrite fget_fset_eq. cbn [write_back]. intros [= _ <-]. apply drop_tiers_clean.
Qed.

Lemma tiers_clean_merged dm m :
  NoDup m.*1 -> fget "deny" m = None -> fget "ask" m = None -> tiers_clean dm -> tiers_clean (deepMerge dm m).
Proof. intros Hn H1 H2. unfold tiers_clean. by rewrite !deepMerge_get, H1, H2 by done. Qed.

(** What a merge leaves is clean: the next one has nothing to retire. *)
Lemma merged_tiers_clean base frag sub t :
  document (Obj AnyMap base) -> NoDup frag.*1 -> tiers_untouched frag ->
  (forall t s, fget "permissions" base = Some (Obj t s) -> tiers_clean s) ->
  fget "permissions" (deepMerge base frag) = Some (Obj t sub) -> tiers_clean sub.
Proof.
  intros Hd Hn Hu Hb. rewrite deepMerge_get by done.
  destruct (fget "permissions" frag) as [v|] eqn:E; [|by apply Hb].
  destruct (Hu v E) as (m & -> & H1 & H2 & Hnm).
  assert (Hm : tiers_clean m) by (unfold tiers_clean; by rewrite H1, H2).
  destruct (fget "permissions" base) as [dv|] eqn:Eb; [|by intros [= _ <-]].
  destruct (toStringAnyMap dv) as [dm|] eqn:Ed; [|rewrite merge_value_not_obj by done; by intros [= _ <-]].
  apply document_map in Ed as ->; [|by apply (document_get AnyMap base "permissions")].
  rewrite merge_value_obj. cbn [write_back]. intros [= _ <-]. apply tiers_clean_merged; [done..|].
  by apply (Hb AnyMap).
Qed.

Lemma retired_again plane doc frag :
  plane <> "opencode" -> document (Obj AnyMap doc) -> document (Obj AnyMap frag) -> tiers_untouched frag ->
  let base := removeRetiredBashFloorRules doc plane in
  removeRetiredBashFloorRules (deepMerge base frag) plane = deepMerge base frag.
Proof.
  intros Hp Hd Hf Hu. cbn zeta. pose proof (document_retired plane doc Hd) as Hb. revert Hb.
  unfold removeRetiredBashFloorRules. apply String.eqb_neq in Hp as ->.
  destruct (plane =s? "claude"); [|done]. fold drop_tiers. change (fun permissions => drop_tiers permissions) with drop_tiers.
  intros Hb. assert (Hmd : document (Obj AnyMap (deepMerge (update_map "permissions" drop_tiers doc) frag)))
    by (apply structural_deepMerge; done).
  apply update_map_same; [by apply document_obj in Hmd as (_ & ? & _)|].
  intros t sub E. pose proof (document_get AnyMap _ _ _ Hmd E) as Hsub. pose proof Hsub as (-> & _)%document_obj.
  cbn [write_back]. f_equal. apply drop_tiers_same; [done|].
  refine (merged_tiers_clean _ frag sub AnyMap Hb _ Hu _ E).
  - apply document_obj in Hf as (_ & Hs & _). by apply fsorted_NoDup.
  - intros t s. by apply retired_tiers_clean.
Qed.

(** ** Lemmas: what a manifest says of the file it was recorded for *)

(** The document holds the entry as it was recorded. *)
Definition recorded_live (doc : object) (e : ManifestEntry) : Prop :=
  exists v, currentValue doc e = Some (Some v) /\ jsonKey v = jsonKey (me_Value e).

Lemma containerAt_snoc doc path key c m :
  containerAt doc path = Some c -> get_map key c = Some m -> containerAt doc (path ++ [key]) = Some m.
Proof.
  revert doc. induction path as [|k path IH]; intros doc Hc Hm; cbn [containerAt app] in *.
  - injection Hc as <-. by rewrite Hm.
  - destruct (get_map k doc); [|done]. by apply IH.
Qed.

Lemma split_last_snoc path key : split_last (path ++ [key]) = Some (path, key).
Proof. unfold split_last. by rewrite last_snoc, removelast_last. Qed.

Lemma value_entry_live doc path c key old new :
  key <> "" -> containerAt doc path = Some c -> fget key c = Some new ->
  recorded_live doc (value_entry path key old new).
Proof.
  intros Hk Hc Hg. exists new. unfold currentValue, value_entry. cbn [me_Key me_Path me_Value].
  apply String.eqb_neq in Hk as ->. by rewrite Hc, Hg.
Qed.

Lemma elements_live doc path c key t l old :
  containerAt doc path = Some c -> fget key c = Some (Arr t l) ->
  Forall (recorded_live doc) (map (element_entry (path ++ [key])) (added_elements old l)).
Proof.
  intros Hc Hg. apply Forall_map, Forall_forall. intros v Hv. exists v.
  unfold currentValue, element_entry. cbn [me_Key me_Path me_Value String.eqb].
  rewrite split_last_snoc, Hc. unfold get_slice. rewrite Hg. cbn [toAnySlice mbind option_bind]. split; [|done].
  rewrite (proj2 (existsb_exists (matchesRecorded v) l)); [done|]. exists v. split.
  - unfold added_elements in Hv. apply elem_of_List_filter in Hv as [Hv _]. by apply list_elem_of_In.
  - unfold matchesRecorded. by rewrite String.eqb_refl.
Qed.

Lemma fields_live doc path m om :
  fsorted m -> containerAt doc path = Some m ->
  (forall k v, fget k m = Some v -> Forall (recorded_live doc) (value_entries path k (fget k om) v)) ->
  Forall (recorded_live doc) (ownershipEntries om m path).
Proof.
  intros Hs Hc Hf. unfold ownershipEntries. apply Forall_flat_map, Forall_forall. intros [k v] Hin.
  apply Hf. by apply fget_elem.
Qed.

Lemma extends_live old new :
  extends old new -> document new ->
  forall doc path c key, key <> "" \/ old = Some new -> containerAt doc path = Some c -> fget key c = Some new ->
  Forall (recorded_live doc) (value_entries path key old new).
Proof.
  induction 1 as [v|o n Hb|v Hv|old ol nl Ho Hu|old om nm Ho Hsom Hf IH Hempty Hsub];
    intros Hd doc path c key Hkey Hc Hg.
  - rewrite value_entries_self by done. constructor.
  - assert (He : value_entries path key (Some o) n = changed_entry path key (Some o) n)
      by (destruct n; destruct o; done).
    rewrite He. unfold changed_entry. destruct (jsonKey o =s? jsonKey n) eqn:E; [constructor|].
    destruct Hkey as [Hkey|[= ->]]; [|by rewrite String.eqb_refl in E].
    constructor; [|constructor]. exact (value_entry_live doc path c key (Some o) n Hkey Hc Hg).
  - destruct Hkey as [Hkey|?]; [|done].
    assert (value_entries path key None v = [value_entry path key None v]) as -> by by destruct v.
    constructor; [|constructor]. exact (value_entry_live doc path c key None v Hkey Hc Hg).
  - assert (value_entries path key old (Arr AnySlice nl) = map (element_entry (path ++ [key])) (added_elements old nl))
      as -> by (destruct Ho as [->|[-> _]]; done).
    exact (elements_live doc path c key AnySlice nl old Hc Hg).
  - rewrite (value_entries_obj _ _ old _ _ om) by by destruct Ho as [->|[-> ->]].
    pose proof Hd as (_ & Hsn & _)%document_obj.
    assert (Hcm : containerAt doc (path ++ [key]) = Some nm).
    { apply (containerAt_snoc doc path key c); [done|]. unfold get_map. by rewrite Hg. }
    apply fields_live; [done|done|]. intros k v Hkv.
    apply (IH k v Hkv) with (c := nm); [by apply (document_get AnyMap nm k)| |done|done].
    destruct (decide (k = "")) as [->|]; [right; auto|by left].
Qed.

(** Every entry a merge records is in the file it wrote. *)
Lemma merge_recorded_live before after :
  document (Obj AnyMap after) -> extends (Some (Obj AnyMap before)) (Obj AnyMap after) ->
  Forall (recorded_live after) (ownershipEntries before after []).
Proof.
  intros Hd Hext. pose proof Hd as (_ & Hs & _)%document_obj.
  inversion Hext as [? Heq| | | |old om nm Ho _ Hf He _ Heq]; subst.
  - rewrite ownershipEntries_self by done. constructor.
  - done.
  - destruct Ho as [[= <-]|[? _]]; [|done]. apply fields_live; [done|done|]. intros k v Hkv.
    apply (extends_live _ _ (Hf k v Hkv)) with (c := after); [by apply (document_get AnyMap after k)| |done|done].
    destruct (decide (k = "")) as [->|]; [right; auto|by left].
Qed.

Lemma drift_recorded_live doc entries :
  Forall (recorded_live doc) entries -> drift_recorded doc entries = Some ([], []).
Proof.
  induction 1 as [|e entries (v & Hv & Hk) _ IH]; [done|]. cbn [drift_recorded].
  by rewrite Hv, IH, Hk, String.eqb_refl.
Qed.

(** An entry whose slot can be looked up. *)
Definition addressed (e : ManifestEntry) : Prop := me_Key e <> "" \/ me_Path e <> [].

Lemma addressed_current doc e : addressed e -> exists v, currentValue doc e = Some v.
Proof.
  intros H. unfold currentValue. destruct (String.eqb_spec (me_Key e) "") as [Hk|]; [|eauto].
  destruct H as [|H]; [done|]. unfold split_last. destruct (last (me_Path e)) eqn:E; [eauto|].
  by apply last_None in E.
Qed.

Lemma value_entries_addressed new : forall path key old,
  key <> "" \/ path <> [] -> Forall addressed (value_entries path key old new).
Proof.
  assert (Hch : forall path key old v, key <> "" \/ path <> [] -> Forall addressed (changed_entry path key old v)).
  { intros path key old v H. unfold changed_entry. destruct old as [o|]; [case_match; [constructor|]|];
      (constructor; [|constructor]); exact H. }
  assert (Hel : forall path key l, Forall addressed (map (element_entry (path ++ [key])) l)).
  { intros path key l. apply Forall_map, Forall_forall. intros v _. right. cbn. by destruct path. }
  induction new as [|b|t|s|t l IH|t m IH] using json_rect'; intros path key old H; try by apply Hch.
  - destruct old as [[]|]; cbn [value_entries]; first [by apply Hch | apply Hel].
  - assert (Hob : forall om, Forall addressed (ownershipEntries om m (path ++ [key]))).
    { intros om. unfold ownershipEntries. apply Forall_flat_map. eapply Forall_impl; [exact IH|].
      intros kv Hkv. apply Hkv. right. by destruct path. }
    destruct old as [o|]; [destruct (toStringAnyMap o) as [om|] eqn:E|].
    + rewrite (value_entries_obj _ _ (Some o) _ _ om) by done. apply Hob.
    + destruct o; try done; by apply Hch.
    + rewrite (value_entries_obj _ _ None _ _ []) by done. apply Hob.
Qed.

Lemma drift_stale_total doc claimed entries :
  Forall addressed entries -> exists stale, drift_stale doc claimed entries = Some stale.
Proof.
  induction 1 as [|e entries He _ [stale IH]]; [by exists []|]. cbn [drift_stale]. rewrite IH.
  destruct (in_list _ _); [eauto|]. destruct (addressed_current doc e He) as [[v|] ->]; eauto.
Qed.

(** ** Lemmas: enabling a plane *)

(** The world after a plane was enabled in the operator's own settings. *)
Definition enabled (io : IO) (w : World) (path plane : string) (doc frag : object) : World :=
  let after := deepMerge doc frag in
  {| w_files := <[path := Document false (deepMerge doc (parsed_object frag))]> (w_files w);
     w_manifests := <[plane := stored {| mf_Version := manifestVersion; mf_Plane := plane; mf_Target := path;
                                         mf_WrittenAt := io_now io; mf_Entries := ownershipEntries doc after [] |}]>
                      (w_manifests w) |}.

Lemma enable_result fallback io w path plane bom doc frag :
  supported plane = true -> w_files w !! path = Some (Document bom doc) -> LoadManifest w plane = None ->
  document (Obj AnyMap doc) -> prepared plane doc -> generated_for frag ->
  io_settings io = true -> io_manifest io = true ->
  MergePlaneInto fallback io w path plane frag = Some (Ok tt, enabled io w path plane doc frag).
Proof.
  intros Hsup Hfile Hman Hdoc Hprep Hfrag Hio1 Hio2. pose proof (supported_named plane Hsup) as Hplane.
  unfold MergePlaneInto, mergePlaneInto, mergeInto. rewrite Hsup, Hfile. cbn [ReadJSONObject].
  rewrite Hman, (parsed_object_document doc), (merge_document_plain plane doc frag) by (done || apply Hfrag).
  unfold recordOwnership. rewrite (proj2 (String.eqb_neq plane "") Hplane).
  replace (match fallback plane with
    | Some fragment => Some (ownershipEntries doc (deepMerge doc frag) [])
    | None => Some (ownershipEntries doc (deepMerge doc frag) []) end)
    with (Some (ownershipEntries doc (deepMerge doc frag) [])) by by destruct (fallback plane).
  rewrite Hio1, Hio2. unfold enabled, write_file, write_manifest. cbn [w_files w_manifests].
  by rewrite parsed_merge.
Qed.

(** ** Properties *)

(** C24: Disabling a plane gives the operator the settings back. Take a document without empty
    containers ([empty_containers_lost] is what happens to those) that holds nothing of
    guardrail's, on a supported plane for which no manifest is stored, and file writes that
    succeed: enabling the plane with a generated fragment and disabling it again leaves exactly
    that document, in the file and nowhere else, with no entry left as edited, no fallback, and
    no record. *)
Theorem enable_disable_restores fallback io w path plane bom doc frag :
  supported plane = true -> path <> "" -> w_files w !! path = Some (Document bom doc) ->
  LoadManifest w plane = None -> operator_document plane doc -> generated_for frag ->
  io_settings io = true -> io_manifest io = true -> io_clear io = true ->
  exists w1 w2 report,
    MergePlaneInto fallback io w path plane frag = Some (Ok tt, w1) /\
    RemovePlaneFromReporting fallback io w1 path plane = Some (Ok report, w2) /\
    w_files w2 = <[path := Document false doc]> (w_files w) /\
    w_manifests w2 !! plane = None /\ rr_Edited report = [] /\ rr_Fallback report = false.
Proof.
  intros Hsup Hpath Hfile Hman [Hdoc Hset Hfree Hprep] Hfrag Hio1 Hio2 Hio3.
  destruct (diff_undone doc (deepMerge doc (parsed_object frag))) as (d & r & Hrem & Hprune & Hedit);
    [done|done|by apply merged_document|by apply merge_extends; [|apply parsed_fragment| |apply parsed_fragment_generated]|].
  rewrite (enable_result fallback io w path plane bom doc frag) by done.
  eexists _, _, r. split; [done|]. unfold RemovePlaneFromReporting, LoadManifest, enabled. rewrite Hsup.
  cbn [negb w_files w_manifests].
  rewrite lookup_insert_eq, lookup_insert_eq. cbn [stored mf_Version mf_Target manifestVersion]. rewrite Z.eqb_refl.
  rewrite sameTarget_refl by done. unfold applyManifestRemoval. cbn [stored mf_Entries].
  rewrite stored_entries by (done || by apply merged_fragment). rewrite parsed_merge, Hrem, Hio1, Hio3 by done.
  split; [done|]. cbn [write_file w_files w_manifests drop_manifest]. rewrite Hprune, parsed_object_document by done.
  split; [by rewrite insert_insert_eq|]. split; [by rewrite lookup_delete_eq|]. split; [done|].
  by rewrite (remove_entries_fallback _ _ _ _ _ Hrem).
Qed.

(** A settings file of an operator's, and Claude's fragment for it. *)
Definition demo_settings : object :=
  [("hooks", Obj AnyMap
     [("PreToolUse", Arr AnySlice
        [Obj AnyMap [("hooks", Arr AnySlice [Obj AnyMap [("command", Str "graft check"); ("type", Str "command")]]);
                     ("matcher", Str "Bash")]])]);
   ("model", Str "opus");
   ("permissions", Obj AnyMap [("allow", Arr AnySlice [Str "Bash(ls)"]); ("deny", Arr AnySlice [Str "Read(.env)"])])].

Definition demo_world : World :=
  {| w_files := {[ "/h/settings.json" := Document true demo_settings ]}; w_manifests := ∅ |}.
Definition demo_io : IO := {| io_settings := true; io_manifest := true; io_clear := true; io_now := "now" |}.

Lemma demo_operator_document : operator_document "claude" demo_settings.
Proof.
  split; [by apply (well_formed_sound false)|vm_compute; reflexivity|vm_compute; reflexivity|].
  split; [vm_compute; reflexivity|done].
Qed.

Lemma demo_generated : generated_for (ClaudeConfig "/usr/local/bin/guardrail").
Proof. split; [by apply (well_formed_sound true)|vm_compute; reflexivity|vm_compute; reflexivity]. Qed.

Lemma enable_disable_restores_witness :
  exists w1 w2 report,
    MergePlaneInto (fun _ => None) demo_io demo_world "/h/settings.json" "claude"
      (ClaudeConfig "/usr/local/bin/guardrail") = Some (Ok tt, w1) /\
    RemovePlaneFromReporting (fun _ => None) demo_io w1 "/h/settings.json" "claude" = Some (Ok report, w2) /\
    w_files w2 = <["/h/settings.json" := Document false demo_settings]> (w_files demo_world) /\
    w_manifests w2 !! "claude" = None /\ rr_Edited report = [] /\ rr_Fallback report = false.
Proof.
  apply (enable_disable_restores (fun _ => None) demo_io demo_world "/h/settings.json" "claude" true demo_settings);
    [reflexivity|discriminate|reflexivity|reflexivity|apply demo_operator_document|apply demo_generated
    |reflexivity|reflexivity|reflexivity].
Defined.

(** Merging a fragment a second time changes nothing: the settings file the
    first merge left is the one the second writes, and the second records nothing
    as its own. *)
Theorem merge_idempotent plane doc frag :
  plane <> "" -> plane <> "opencode" -> document (Obj AnyMap doc) -> generated_for frag ->
  tiers_untouched (parsed_object frag) ->
  let once := parsed_object (merge_document plane doc frag) in
  let twice := merge_document plane once frag in
  parsed_object twice = once /\ ownershipEntries once twice [] = [].
Proof.
  intros Hp Ho Hd Hf Hu. cbn zeta.
  pose proof (document_retired plane doc Hd) as Hb. pose proof (parsed_fragment frag Hf) as Hpf.
  assert (Hplain : forall m, merge_document plane m frag = deepMerge (removeRetiredBashFloorRules m plane) frag).
  { intros m. unfold merge_document, get_map. rewrite (gf_no_permission _ Hf).
    apply String.eqb_neq in Hp as ->, Ho as ->. done. }
  rewrite !Hplain, (parsed_merge _ frag Hb Hf).
  rewrite (retired_again plane doc (parsed_object frag)) by done.
  set (once := deepMerge (removeRetiredBashFloorRules doc plane) (parsed_object frag)).
  pose proof (merged_document _ frag Hb Hf : document (Obj AnyMap once)) as Hm.
  pose proof (merged_again _ frag Hb Hf : deepMerge once (parsed_object frag) = once) as Hagain.
  pose proof (parsed_merge once frag Hm Hf) as Htwice. rewrite Hagain in Htwice. split; [done|].
  apply (map_eq_nil stored_entry). rewrite stored_entries by (done || by apply merged_fragment).
  rewrite Htwice. by apply ownershipEntries_self.
Qed.

Lemma merge_idempotent_witness :
  let once := parsed_object (merge_document "claude" demo_settings (ClaudeConfig "/usr/local/bin/guardrail")) in
  let twice := merge_document "claude" once (ClaudeConfig "/usr/local/bin/guardrail") in
  parsed_object twice = once /\ ownershipEntries once twice [] = [].
Proof.
  apply (merge_idempotent "claude" demo_settings (ClaudeConfig "/usr/local/bin/guardrail"));
    [discriminate|discriminate|apply demo_operator_document|apply demo_generated|].
  vm_compute. intros v [= <-]. eexists. split; [reflexivity|].
  split; [reflexivity|]. split; [reflexivity|]. by apply NoDup_singleton.
Defined.

(** A manifest says the truth about the file it was written with: the drift
    check right after a plane was enabled finds every recorded entry in the
    settings, unedited. What it may still call stale is legacy floor the operator's
    file already held. *)
Theorem enable_leaves_no_drift fallback io w path plane bom doc frag :
  supported plane = true -> path <> "" -> w_files w !! path = Some (Document bom doc) ->
  LoadManifest w plane = None -> operator_document plane doc -> generated_for frag ->
  io_settings io = true -> io_manifest io = true ->
  (forall legacy, fallback plane = Some legacy -> fget "" legacy = None /\ fsorted legacy) ->
  exists w1 report,
    MergePlaneInto fallback io w path plane frag = Some (Ok tt, w1) /\
    DriftFor fallback w1 plane path = Some (Ok report) /\
    dr_NoManifest report = false /\ dr_Missing report = [] /\ dr_Edited report = [] /\
    (fallback plane = None -> clean_drift report = true).
Proof.
  intros Hsup Hpath Hfile Hman [Hdoc Hset Hfree Hprep] Hfrag Hio1 Hio2 Hlegacy.
  exists (enabled io w path plane doc frag). rewrite (enable_result fallback io w path plane bom doc frag) by done.
  unfold DriftFor, LoadManifest, enabled. cbn [w_files w_manifests]. rewrite !lookup_insert_eq.
  cbn [stored mf_Version mf_Target mf_Entries manifestVersion]. rewrite Z.eqb_refl, sameTarget_refl by done.
  cbn [negb stored mf_Entries]. rewrite stored_entries, parsed_merge by (done || by apply merged_fragment).
  rewrite drift_recorded_live by (apply merge_recorded_live; [by apply merged_document|];
    by apply merge_extends; [|apply parsed_fragment| |apply parsed_fragment_generated]).
  destruct (fallback plane) as [legacy|]; [|by eexists].
  destruct (Hlegacy legacy eq_refl) as [Hempty Hs].
  match goal with |- context [drift_stale ?d ?c ?es] =>
    destruct (drift_stale_total d c es) as [stale ->] end; [|by eexists].
  unfold ownershipEntries. apply Forall_flat_map, Forall_forall. intros [k v] Hin.
  apply value_entries_addressed. left. cbn. intros ->. by rewrite (fget_elem "" v legacy) in Hempty.
Qed.

Lemma enable_leaves_no_drift_witness :
  exists w1 report,
    MergePlaneInto (fun _ => None) demo_io demo_world "/h/settings.json" "claude"
      (ClaudeConfig "/usr/local/bin/guardrail") = Some (Ok tt, w1) /\
    DriftFor (fun _ => None) w1 "claude" "/h/settings.json" = Some (Ok report) /\
    dr_NoManifest report = false /\ dr_Missing report = [] /\ dr_Edited report = [] /\
    (@None object = None -> clean_drift report = true).
Proof.
  apply (enable_leaves_no_drift (fun _ => None) demo_io demo_world "/h/settings.json" "claude" true demo_settings);
    [reflexivity|discriminate|reflexivity|reflexivity|apply demo_operator_document|apply demo_generated
    |reflexivity|reflexivity|discriminate].
Defined.

(** The operator's settings after a merge: the model stays, and so does the
    operator's own hook group. *)
Lemma merge_keeps_operator_witness :
  let after := merge_document "claude" demo_settings (ClaudeConfig "/usr/local/bin/guardrail") in
  at_path after [] "model" = Some (Str "opus") /\
  foreign_groups "hooks" "PreToolUse" after = foreign_groups "hooks" "PreToolUse" demo_settings.
Proof.
  pose proof (merge_keeps_operator "claude" demo_settings (ClaudeConfig "/usr/local/bin/guardrail")) as H.
  destruct H as [Hpath Hgroups];
    [apply demo_operator_document|apply demo_generated|reflexivity|reflexivity|]. split.
  - rewrite Hpath; [reflexivity|reflexivity|constructor|reflexivity].
  - apply Hgroups; [reflexivity|right; vm_compute; by eexists].
Defined.

(** Emptied containers are deleted whoever made them: an operator's own empty list
    is gone after the plane was enabled and disabled. *)
Lemma empty_containers_lost :
  let doc := [("enabledPlugins", Obj AnyMap []); ("model", Str "opus")] in
  let w := {| w_files := {[ "/h/settings.json" := Document false doc ]}; w_manifests := ∅ |} in
  exists w1 w2 report,
    MergePlaneInto (fun _ => None) demo_io w "/h/settings.json" "claude"
      (ClaudeConfig "/usr/local/bin/guardrail") = Some (Ok tt, w1) /\
    RemovePlaneFromReporting (fun _ => None) demo_io w1 "/h/settings.json" "claude" = Some (Ok report, w2) /\
    w_files w2 !! "/h/settings.json" = Some (Document false [("model", Str "opus")]).
Proof. eexists _, _, _. split; [vm_compute; reflexivity|]. split; vm_compute; reflexivity. Qed.

(** A byte order mark the merge reads past makes the removal refuse. *)
Lemma bom_not_removed :
  let w := {| w_files := {[ "/h/settings.json" := Document true demo_settings ]}; w_manifests := ∅ |} in
  RemovePlaneFromReporting (fun _ => None) demo_io w "/h/settings.json" "claude" = Some (Err RefuseToOverwrite, w) /\
  exists w1, MergePlaneInto (fun _ => None) demo_io w "/h/settings.json" "claude"
      (ClaudeConfig "/usr/local/bin/guardrail") = Some (Ok tt, w1).
Proof. split; [vm_compute; reflexivity|]. eexists. vm_compute. reflexivity. Qed.
