(* ===== verification/Operands.v ===== *)
(** * The operands of a command ([internal/engine/operands.go])

    Which words of an argument vector are paths: grep and sed with their pattern,
    awk, jq and yq with their program, tar and dd with their own option grammars,
    and every other command by a generic reading in which the value of an unknown
    option is an uncertain operand. The property is that no reading loses a word:
    what is not an option is an operand, whatever stands before it. *)

From Stdlib Require Import ZArith Ascii String List Lia.
From stdpp Require Import base list strings.
From S2P Require Import Prelude GoStrings GoPath Policy Argv Wrappers.
Open Scope go_scope.

(** ** Operands *)

Inductive operandRole := operandNonPath | operandPath | operandUncertain.

Record parsedOperand := {
  o_value : string;
  o_role : operandRole;
  o_writeTarget : bool;
  o_sourceArg : Z;
}.

Record operandParseResult := {
  op_operands : list parsedOperand;
  op_uncertaintyReason : string;
}.

Definition operand (value : string) (role : operandRole) : parsedOperand :=
  {| o_value := value; o_role := role; o_writeTarget := false; o_sourceArg := 0 |}.

Definition set_role (role : operandRole) (o : parsedOperand) : parsedOperand :=
  {| o_value := o_value o; o_role := role; o_writeTarget := o_writeTarget o; o_sourceArg := o_sourceArg o |}.
Definition set_writeTarget (o : parsedOperand) : parsedOperand :=
  {| o_value := o_value o; o_role := o_role o; o_writeTarget := true; o_sourceArg := o_sourceArg o |}.
Definition set_sourceArg (i : Z) (o : parsedOperand) : parsedOperand :=
  {| o_value := o_value o; o_role := o_role o; o_writeTarget := o_writeTarget o; o_sourceArg := i |}.

Definition is_nonpath (r : operandRole) : bool := match r with operandNonPath => true | _ => false end.
Definition is_uncertain (r : operandRole) : bool := match r with operandUncertain => true | _ => false end.

(** The variables of a parser's loop. [sc_program] is [explicitProgram],
    [filterFromFile] or [expressionSet]. *)
Record scan := {
  sc_out : list parsedOperand;
  sc_positional : list nat;
  sc_options : bool;
  sc_program : bool;
  sc_inPlace : bool;
  sc_nullInput : bool;
  sc_literalTailAt : option nat;
  sc_runTests : bool;
  sc_reason : string;
}.

Definition scan_start : scan :=
  {| sc_out := []; sc_positional := []; sc_options := true; sc_program := false; sc_inPlace := false;
     sc_nullInput := false; sc_literalTailAt := None; sc_runTests := false; sc_reason := "" |}.

Definition set_out (out : list parsedOperand) (positional : list nat) (st : scan) : scan :=
  {| sc_out := out; sc_positional := positional; sc_options := sc_options st; sc_program := sc_program st;
     sc_inPlace := sc_inPlace st; sc_nullInput := sc_nullInput st; sc_literalTailAt := sc_literalTailAt st;
     sc_runTests := sc_runTests st; sc_reason := sc_reason st |}.
Definition emit (value : string) (role : operandRole) (st : scan) : scan :=
  set_out (sc_out st ++ [operand value role]) (sc_positional st) st.
(** [positional = append(positional, len(out))] before the operand is appended. *)
Definition emit_positional (value : string) (role : operandRole) (st : scan) : scan :=
  set_out (sc_out st ++ [operand value role]) (sc_positional st ++ [length (sc_out st)]) st.
Definition emit_nonempty (value : string) (role : operandRole) (st : scan) : scan :=
  if value =s? "" then st else emit value role st.

Definition set_flags (options program inPlace nullInput : bool) (tail_at : option nat) (runTests : bool)
    (reason : string) (st : scan) : scan :=
  {| sc_out := sc_out st; sc_positional := sc_positional st; sc_options := options; sc_program := program;
     sc_inPlace := inPlace; sc_nullInput := nullInput; sc_literalTailAt := tail_at; sc_runTests := runTests;
     sc_reason := reason |}.
Definition end_options (st : scan) : scan :=
  set_flags false (sc_program st) (sc_inPlace st) (sc_nullInput st) (sc_literalTailAt st) (sc_runTests st) (sc_reason st) st.
Definition with_program (b : bool) (st : scan) : scan :=
  set_flags (sc_options st) (sc_program st || b) (sc_inPlace st) (sc_nullInput st) (sc_literalTailAt st)
    (sc_runTests st) (sc_reason st) st.
Definition with_inPlace (b : bool) (st : scan) : scan :=
  set_flags (sc_options st) (sc_program st) (sc_inPlace st || b) (sc_nullInput st) (sc_literalTailAt st)
    (sc_runTests st) (sc_reason st) st.
Definition with_nullInput (st : scan) : scan :=
  set_flags (sc_options st) (sc_program st) (sc_inPlace st) true (sc_literalTailAt st) (sc_runTests st) (sc_reason st) st.
Definition with_literalTail (st : scan) : scan :=
  set_flags (sc_options st) (sc_program st) (sc_inPlace st) (sc_nullInput st)
    (match sc_literalTailAt st with None => Some (length (sc_positional st)) | t => t end)
    (sc_runTests st) (sc_reason st) st.
Definition with_runTests (st : scan) : scan :=
  set_flags (sc_options st) (sc_program st) (sc_inPlace st) (sc_nullInput st) (sc_literalTailAt st) true (sc_reason st) st.
Definition with_reason (reason : string) (st : scan) : scan :=
  set_flags (sc_options st) (sc_program st) (sc_inPlace st) (sc_nullInput st) (sc_literalTailAt st) (sc_runTests st)
    reason st.

(** [for i := 1; i < len(argv); i++]: one turn sees the index, the word and the
    words after it, and says how many of them it consumed ([i++]). *)
Fixpoint scan_args (turn : nat -> string -> list string -> scan -> scan * nat) (i skip : nat)
    (args : list string) (st : scan) : scan :=
  match args with
  | [] => st
  | arg :: rest =>
      match skip with
      | S skip => scan_args turn (S i) skip rest st
      | O => let '(st, skip) := turn i arg rest st in scan_args turn (S i) skip rest st
      end
  end.

(** The loop over the letters of a short-option cluster. *)
Inductive letter := Next (st : scan) | Stop (st : scan) (consumed : nat).

Fixpoint scan_short (turn : ascii -> string -> list string -> scan -> letter) (short : string)
    (rest : list string) (st : scan) : scan * nat :=
  match short with
  | "" => (st, 0%nat)
  | String c value =>
      match turn c value rest st with
      | Next st => scan_short turn value rest st
      | Stop st consumed => (st, consumed)
      end
  end.

(** ** Option values *)

Inductive operandOptionKind := optionFlag | optionNonPath | optionPath | optionProgram | optionOptionalNonPath.

Definition roleForOption (kind : operandOptionKind) : operandRole :=
  match kind with optionPath => operandPath | _ => operandNonPath end.

(** [name, value, attached := strings.Cut(s, "=")]. *)
Definition cut_option (s : string) : string * option string :=
  let '(name, value, attached) := Cut s "=" in (name, if attached then Some value else None).

Fixpoint append_values (rest : list string) (attached : option string) (roles : list operandRole)
    (st : scan) (consumed : nat) : scan * nat :=
  match roles with
  | [] => (st, consumed)
  | role :: roles =>
      match attached, rest with
      | Some value, _ => append_values rest None roles (emit_nonempty value role st) consumed
      | None, value :: rest => append_values rest None roles (emit_nonempty value role st) (S consumed)
      | None, [] => append_values [] None roles st consumed
      end
  end.

Definition appendOptionValues (rest : list string) (attached : option string) (roles : list operandRole)
    (st : scan) : scan * nat :=
  append_values rest attached roles st 0.

Definition operand_shaped (arg : string) : bool := negb (HasPrefix arg "-") || (arg =s? "-").

Definition appendUnknownOptionValue (rest : list string) (attached : option string) (st : scan) : scan * nat :=
  match attached, rest with
  | Some value, _ => (emit value operandUncertain st, 0%nat)
  | None, next :: _ => if operand_shaped next then (emit next operandUncertain st, 1%nat) else (st, 0%nat)
  | None, [] => (st, 0%nat)
  end.

(** [value := short[j+1:]], or the next argument when there is none. *)
Definition short_value (role : operandRole) (value : string) (rest : list string) (st : scan) : letter :=
  match value, rest with
  | "", next :: _ => Stop (emit_nonempty next role st) 1
  | _, _ => Stop (emit_nonempty value role st) 0
  end.

Definition some_nonempty (value : string) : option string := if value =s? "" then None else Some value.

Definition short_unknown (value : string) (rest : list string) (st : scan) : letter :=
  let '(st, consumed) := appendUnknownOptionValue rest (some_nonempty value) st in Stop st consumed.

Definition long_arg (st : scan) (arg : string) : bool := sc_options st && HasPrefix arg "--".
Definition short_arg (st : scan) (arg : string) : bool := sc_options st && HasPrefix arg "-" && (arg <>s? "-").

(** ** dd *)

Definition dd_operand (arg : string) : parsedOperand :=
  let '(name, value, assignment) := Cut arg "=" in
  if negb assignment then operand arg operandUncertain
  else if name =s? "if" then operand value operandPath
  else if in_list name ["of"; "iflag"; "oflag"; "ibs"; "obs"; "bs"; "cbs"; "skip"; "iseek"; "seek"; "oseek"; "count";
                        "status"; "conv"]
       then operand value operandNonPath
  else operand value operandUncertain.

Definition parseDDOperands (argv : list string) : list parsedOperand := map dd_operand (tail argv).

(** ** tar *)

Definition tar_long (name : string) : option operandOptionKind :=
  if name =s? "exclude" then Some optionNonPath
  else if in_list name ["exclude-from"; "files-from"; "file"; "directory"; "listed-incremental"; "add-file";
      "exclude-ignore"; "exclude-ignore-recursive"; "exclude-tag"; "exclude-tag-all"; "exclude-tag-under";
      "group-map"; "owner-map"; "volno-file"; "index-file"] then Some optionPath
  else if in_list name ["gzip"; "gunzip"; "ungzip"; "bzip2"; "xz"; "auto-compress"; "verbose"; "create"; "catenate";
      "concatenate"; "delete"; "diff"; "compare"; "append"; "test-label"; "list"; "update"; "extract";
      "get"; "incremental"; "sparse"; "exclude-backups"; "exclude-caches"; "exclude-caches-all";
      "exclude-caches-under"; "exclude-vcs"; "exclude-vcs-ignores"; "no-null"; "no-recursion"; "no-unquote";
      "no-verbatim-files-from"; "null"; "recursion"; "unquote"; "verbatim-files-from"] then Some optionFlag
  else if in_list name ["blocking-factor"; "format"; "tape-length"; "info-script"; "new-volume-script";
      "use-compress-program"; "starting-file"; "newer"; "after-date"; "label"; "suffix"] then Some optionNonPath
  else None.

Definition tar_short (c : ascii) : option operandOptionKind :=
  if ContainsByte "XTfCg" c then Some optionPath
  else if ContainsByte "bHLFIKNV" c then Some optionNonPath
  else if ContainsByte "AcdrtuxzjJavGnSBiMZhPOmpsUWlwo" c then Some optionFlag
  else None.

Definition isTarOptionCluster (value : string) : bool :=
  (value <>s? "") && all_bytes (ContainsByte "AcdrtuxzjJavGnSBiMZhPOmpsUWlwoXTFICKNLVbgH") value.

Definition tar_letter (c : ascii) (value : string) (rest : list string) (st : scan) : letter :=
  match tar_short c with
  | None => short_unknown value rest st
  | Some optionFlag => Next st
  | Some kind => short_value (roleForOption kind) value rest st
  end.

Definition tar_turn (i : nat) (arg : string) (rest : list string) (st : scan) : scan * nat :=
  if sc_options st && (arg =s? "--") then (end_options st, 0%nat)
  else if long_arg st arg then
    let '(name, attached) := cut_option (TrimPrefix arg "--") in
    match tar_long name with
    | None => appendUnknownOptionValue rest attached st
    | Some optionFlag => (st, 0%nat)
    | Some kind => appendOptionValues rest attached [roleForOption kind] st
    end
  else if short_arg st arg ||
          (sc_options st && (i =? 1)%nat && negb (HasPrefix arg "-") && isTarOptionCluster arg)
       then scan_short tar_letter (TrimPrefix arg "-") rest st
  else (emit arg operandPath st, 0%nat).

Definition parseTarOperands (argv : list string) : list parsedOperand :=
  sc_out (scan_args tar_turn 1 0 (tail argv) scan_start).

(** ** awk *)

Definition awk_long (name : string) : option (operandOptionKind * bool) :=
  if in_list name ["file"; "exec"; "include"; "load"] then Some (optionPath, (name =s? "file") || (name =s? "exec"))
  else if name =s? "source" then Some (optionProgram, true)
  else if in_list name ["field-separator"; "assign"] then Some (optionNonPath, false)
  else if in_list name ["dump-variables"; "debug"; "lint"; "pretty-print"; "profile"] then Some (optionOptionalNonPath, false)
  else if in_list name ["characters-as-bytes"; "traditional"; "copyright"; "gen-pot"; "help"; "trace"; "bignum";
      "use-lc-numeric"; "non-decimal-data"; "optimize"; "posix"; "re-interval"; "no-optimize";
      "sandbox"; "lint-old"; "version"] then Some (optionFlag, false)
  else None.

Definition awk_short (c : ascii) : option (operandOptionKind * bool) :=
  if ContainsByte "fEil" c then Some (optionPath, Ascii.eqb c "f" || Ascii.eqb c "E")
  else if Ascii.eqb c "e" then Some (optionProgram, true)
  else if ContainsByte "Fv" c then Some (optionNonPath, false)
  else if ContainsByte "dDLop" c then Some (optionOptionalNonPath, false)
  else if ContainsByte "bcCghIMNOPrsStV" c then Some (optionFlag, false)
  else None.

Definition isAWKAssignment (value : string) : bool :=
  let '(name, _, ok) := Cut value "=" in
  let word c := Ascii.eqb c "_" || is_letter c in
  ok && match name with
        | "" => false
        | String c tl => word c && all_bytes (fun c => word c || is_digit c) tl
        end.

Definition awk_letter (c : ascii) (value : string) (rest : list string) (st : scan) : letter :=
  match awk_short c with
  | None => short_unknown value rest st
  | Some (kind, program) =>
      let st := with_program program st in
      match kind with
      | optionFlag => Next st
      | optionOptionalNonPath => Stop (emit_nonempty value operandNonPath st) 0
      | _ => short_value (roleForOption kind) value rest st
      end
  end.

Definition awk_turn (i : nat) (arg : string) (rest : list string) (st : scan) : scan * nat :=
  if sc_options st && (arg =s? "--") then (end_options st, 0%nat)
  else if long_arg st arg then
    let '(name, attached) := cut_option (TrimPrefix arg "--") in
    match awk_long name with
    | None => appendUnknownOptionValue rest attached st
    | Some (kind, program) =>
        let st := with_program program st in
        match kind, attached with
        | optionFlag, _ | optionOptionalNonPath, None => (st, 0%nat)
        | _, _ => appendOptionValues rest attached [roleForOption kind] st
        end
    end
  else if short_arg st arg then scan_short awk_letter (TrimPrefix arg "-") rest st
  else if isAWKAssignment arg then (emit arg operandNonPath st, 0%nat)
  else (emit_positional arg operandPath st, 0%nat).

(** The first positional operand is the program or the pattern, unless an option
    gave one. *)
Definition first_positional (role : operandRole) (st : scan) : list parsedOperand :=
  match sc_positional st with
  | p :: _ => if sc_program st then sc_out st else alter (set_role role) p (sc_out st)
  | [] => sc_out st
  end.

Definition parseAWKOperands (argv : list string) : list parsedOperand :=
  first_positional operandNonPath (scan_args awk_turn 1 0 (tail argv) scan_start).

(** ** yq *)

Definition yq_unknown : string := "yq operand roles are ambiguous because an option is unknown".

Definition yq_values : list string :=
  ["output-format"; "input-format"; "indent"; "xml-attribute-prefix"; "xml-content-name";
   "xml-proc-inst-prefix"; "xml-directive-name"; "csv-separator"; "lua-prefix"; "lua-suffix";
   "properties-separator"].

Definition yq_flags : list string :=
  ["verbose"; "debug-node-info"; "tojson"; "xml-strict-mode"; "xml-keep-namespace"; "xml-raw-token";
   "xml-skip-proc-inst"; "xml-skip-directives"; "csv-auto-parse"; "tsv-auto-parse"; "lua-unquoted";
   "lua-globals"; "properties-array-brackets"; "string-interpolation"; "null-input"; "no-doc";
   "version"; "inplace"; "unwrapScalar"; "nul-output"; "prettyPrint"; "exit-status"; "colors";
   "no-colors"; "header-preprocess"; "yaml-fix-merge-anchor-to-spec"].

Definition yq_letter (c : ascii) (value : string) (rest : list string) (st : scan) : letter :=
  if ContainsByte "fsopI" c then short_value operandNonPath value rest st
  else if ContainsByte "vjnNVir0PeCM" c then Next st
  else short_unknown value rest (with_reason yq_unknown st).

Definition yq_long (name : string) (attached : option string) (rest : list string) (st : scan) : scan * nat :=
  if in_list name ["front-matter"; "split-exp"] then appendOptionValues rest attached [operandNonPath] st
  else if name =s? "expression" then appendOptionValues rest attached [operandNonPath] (with_program true st)
  else if name =s? "from-file" then appendOptionValues rest attached [operandPath] (with_program true st)
  else if name =s? "split-exp-file" then appendOptionValues rest attached [operandPath] st
  else if in_list name yq_values then appendOptionValues rest attached [operandNonPath] st
  else if in_list name yq_flags then (st, 0%nat)
  else appendUnknownOptionValue rest attached (with_reason yq_unknown st).

Definition yq_turn (i : nat) (arg : string) (rest : list string) (st : scan) : scan * nat :=
  if (i =? 1)%nat && in_list arg ["e"; "eval"; "ea"; "eval-all"] then (st, 0%nat)
  else if sc_options st && (arg =s? "--") then (end_options st, 0%nat)
  else if long_arg st arg then
    let '(name, attached) := cut_option (TrimPrefix arg "--") in yq_long name attached rest st
  else if short_arg st arg then scan_short yq_letter (TrimPrefix arg "-") rest st
  else (emit_positional arg operandPath st, 0%nat).

Definition parseYQOperands (argv : list string) : operandParseResult :=
  let st := scan_args yq_turn 1 0 (tail argv) scan_start in
  {| op_operands := first_positional operandUncertain st; op_uncertaintyReason := sc_reason st |}.

(** ** jq *)

Definition jq_unknown : string := "jq operand roles are ambiguous because an option is unknown".
Definition jq_interposed : string :=
  "jq operand roles are ambiguous because a filter-file value is interposed by an option".

Definition jq_flags : list string :=
  ["raw-input"; "slurp"; "compact-output"; "raw-output"; "raw-output0"; "join-output";
   "ascii-output"; "sort-keys"; "color-output"; "monochrome-output"; "tab"; "unbuffered";
   "stream"; "stream-errors"; "seq"; "exit-status"; "version"; "build-configuration"; "help"].

Definition optionInterposesValue (rest : list string) : bool :=
  match rest with next :: _ => HasPrefix next "-" && (next <>s? "-") | [] => false end.

Definition jq_long (name : string) (attached : option string) (rest : list string) (st : scan) : scan * nat :=
  if name =s? "from-file" then
    let st := with_program true st in
    match attached with
    | None => if optionInterposesValue rest then (with_reason jq_interposed st, 0%nat)
              else appendOptionValues rest None [operandPath] st
    | Some _ => appendOptionValues rest attached [operandPath] st
    end
  else if in_list name ["arg"; "argjson"] then
    appendOptionValues rest attached [operandNonPath; operandNonPath] st
  else if in_list name ["rawfile"; "slurpfile"] then
    appendOptionValues rest attached [operandNonPath; operandPath] st
  else if name =s? "indent" then appendOptionValues rest attached [operandNonPath] st
  else if name =s? "null-input" then (with_nullInput st, 0%nat)
  else if in_list name ["args"; "jsonargs"] then (with_literalTail st, 0%nat)
  else if name =s? "run-tests" then
    match attached with
    | Some _ => appendUnknownOptionValue rest attached (with_reason jq_unknown st)
    | None => (with_runTests st, 0%nat)
    end
  else if in_list name jq_flags then (st, 0%nat)
  else appendUnknownOptionValue rest attached (with_reason jq_unknown st).

Definition jq_letter (c : ascii) (value : string) (rest : list string) (st : scan) : letter :=
  if Ascii.eqb c "f" then
    let st := with_program true st in
    if (value =s? "") && optionInterposesValue rest then Stop (with_reason jq_interposed st) 0
    else short_value operandPath value rest st
  else if Ascii.eqb c "L" then short_value operandPath value rest st
  else if Ascii.eqb c "n" then Next (with_nullInput st)
  else if ContainsByte "RscrjaSCMeVh" c then Next st
  else short_unknown value rest (with_reason jq_unknown st).

Definition jq_turn (i : nat) (arg : string) (rest : list string) (st : scan) : scan * nat :=
  if sc_runTests st then
    if in_list arg ["--skip"; "--take"] then (st, match rest with [] => 0%nat | _ => 1%nat end)
    else (emit arg operandPath st, 0%nat)
  else if sc_options st && (arg =s? "--") then (end_options st, 0%nat)
  else if long_arg st arg then
    let '(name, attached) := cut_option (TrimPrefix arg "--") in jq_long name attached rest st
  else if short_arg st arg then scan_short jq_letter (TrimPrefix arg "-") rest st
  else (emit_positional arg operandPath st, 0%nat).

(** Positional operands that are data of the program rather than files. *)
Fixpoint literal_data (nullInput : bool) (tail_at : option nat) (position : nat) (indices : list nat)
    (out : list parsedOperand) : list parsedOperand :=
  match indices with
  | [] => out
  | index :: rest =>
      let literal := nullInput || match tail_at with Some t => (t <=? position)%nat | None => false end in
      literal_data nullInput tail_at (S position) rest
        (if literal then alter (set_role operandNonPath) index out else out)
  end.

Definition parseJQOperands (argv : list string) : operandParseResult :=
  let st := scan_args jq_turn 1 0 (tail argv) scan_start in
  let out := first_positional operandNonPath st in
  let start := if sc_program st then 0%nat else match sc_positional st with [] => 0%nat | _ => 1%nat end in
  {| op_operands := literal_data (sc_nullInput st) (sc_literalTailAt st) start (drop start (sc_positional st)) out;
     op_uncertaintyReason := sc_reason st |}.

(** ** grep and sed *)

Record operandOption := {
  oo_short : option ascii;
  oo_long : string;
  oo_kind : operandOptionKind;
  oo_suppliesProgram : bool;
}.

Record patternCommandOptions := {
  pc_options : list operandOption;
  pc_shortFlags : string;
  pc_inPlaceOption : string;
}.

Definition opt (short : ascii) (long : string) (kind : operandOptionKind) : operandOption :=
  {| oo_short := Some short; oo_long := long; oo_kind := kind; oo_suppliesProgram := false |}.
Definition lopt (long : string) (kind : operandOptionKind) : operandOption :=
  {| oo_short := None; oo_long := long; oo_kind := kind; oo_suppliesProgram := false |}.
Definition file_opt : operandOption :=
  {| oo_short := Some "f"%char; oo_long := "file"; oo_kind := optionPath; oo_suppliesProgram := true |}.

Definition grepOperandOptions : patternCommandOptions :=
  {| pc_shortFlags := "EFGPiwxzsvVbnHhoqaIrRLlcTZU"; pc_inPlaceOption := "";
     pc_options :=
       [opt "e" "regexp" optionProgram; file_opt;
        opt "A" "after-context" optionNonPath; opt "B" "before-context" optionNonPath;
        opt "C" "context" optionNonPath; opt "m" "max-count" optionNonPath;
        opt "d" "directories" optionNonPath; opt "D" "devices" optionNonPath] ++
       map (fun l => lopt l optionNonPath) ["label"; "binary-files"; "include"; "exclude"] ++
       [lopt "exclude-from" optionPath; lopt "exclude-dir" optionNonPath; lopt "group-separator" optionNonPath;
        lopt "color" optionOptionalNonPath; lopt "colour" optionOptionalNonPath] ++
       map (fun l => lopt l optionFlag)
         ["extended-regexp"; "fixed-strings"; "basic-regexp"; "perl-regexp"; "ignore-case"; "no-ignore-case";
          "word-regexp"; "line-regexp"; "null-data"; "no-messages"; "invert-match"; "version"; "help";
          "byte-offset"; "line-number"; "line-buffered"; "with-filename"; "no-filename"; "only-matching";
          "quiet"; "silent"; "text"; "recursive"; "dereference-recursive"; "files-without-match";
          "files-with-matches"; "count"; "initial-tab"; "null"; "no-group-separator"; "binary"] |}.

Definition sedOperandOptions : patternCommandOptions :=
  {| pc_inPlaceOption := "in-place"; pc_shortFlags := "nErsuz";
     pc_options :=
       [opt "e" "expression" optionProgram; file_opt;
        opt "i" "in-place" optionOptionalNonPath; opt "l" "line-length" optionNonPath] ++
       map (fun l => lopt l optionFlag)
         ["quiet"; "silent"; "debug"; "follow-symlinks"; "posix"; "regexp-extended"; "separate"; "sandbox";
          "unbuffered"; "null-data"; "help"; "version"] |}.

Definition operandShortOption (name : ascii) (spec : patternCommandOptions) : option operandOption :=
  match find (fun o => match oo_short o with Some c => Ascii.eqb c name | None => false end) (pc_options spec) with
  | Some o => Some o
  | None =>
      if ContainsByte (pc_shortFlags spec) name
      then Some {| oo_short := Some name; oo_long := ""; oo_kind := optionFlag; oo_suppliesProgram := false |}
      else None
  end.

Definition resolveOperandLongOption (name : string) (options : list operandOption) : option operandOption :=
  match find (fun o => oo_long o =s? name) options with
  | Some o => Some o
  | None =>
      match List.filter (fun o => (oo_long o <>s? "") && HasPrefix (oo_long o) name) options with
      | [o] => Some o
      | _ => None
      end
  end.

(** What seeing an option means for the pattern and for in-place editing. *)
Definition note_option (spec : patternCommandOptions) (o : operandOption) (st : scan) : scan :=
  with_program (match oo_kind o with optionProgram => true | _ => oo_suppliesProgram o end)
    (with_inPlace (oo_long o =s? pc_inPlaceOption spec) st).

Definition pattern_long (spec : patternCommandOptions) (name : string) (attached : option string)
    (rest : list string) (st : scan) : scan * nat :=
  match resolveOperandLongOption name (pc_options spec) with
  | None => appendUnknownOptionValue rest attached st
  | Some o =>
      let st := note_option spec o st in
      match oo_kind o, attached with
      | optionFlag, _ | optionOptionalNonPath, None => (st, 0%nat)
      | kind, Some value => (emit value (roleForOption kind) st, 0%nat)
      | kind, None => match rest with
                      | [] => (st, 0%nat)
                      | value :: _ => (emit value (roleForOption kind) st, 1%nat)
                      end
      end
  end.

Definition pattern_letter (spec : patternCommandOptions) (c : ascii) (value : string) (rest : list string)
    (st : scan) : letter :=
  match operandShortOption c spec with
  | None => short_unknown value rest st
  | Some o =>
      let st := note_option spec o st in
      match oo_kind o with
      | optionFlag => Next st
      | optionOptionalNonPath => Stop (emit_nonempty value operandNonPath st) 0
      | kind => short_value (roleForOption kind) value rest st
      end
  end.

Definition pattern_turn (spec : patternCommandOptions) (i : nat) (arg : string) (rest : list string) (st : scan)
    : scan * nat :=
  if sc_options st && (arg =s? "--") then (end_options st, 0%nat)
  else if long_arg st arg then
    let '(name, attached) := cut_option (TrimPrefix arg "--") in pattern_long spec name attached rest st
  else if short_arg st arg then
    if allDigits (TrimPrefix arg "-") then (st, 0%nat)
    else scan_short (pattern_letter spec) (TrimPrefix arg "-") rest st
  else (emit_positional arg operandPath st, 0%nat).

(** [out[index].writeTarget = true] for the positional operands that are paths. *)
Definition mark_written (indices : list nat) (out : list parsedOperand) : list parsedOperand :=
  fold_left (fun out index =>
    alter (fun o => if is_nonpath (o_role o) then o else set_writeTarget o) index out) indices out.

Definition parsePatternCommandOperands (argv : list string) (spec : patternCommandOptions)
    : list parsedOperand * bool :=
  let st := scan_args (pattern_turn spec) 1 0 (tail argv) scan_start in
  let out := first_positional operandNonPath st in
  (if sc_inPlace st then mark_written (sc_positional st) out else out, sc_inPlace st).

(** ** Every other command *)

Definition isWindowsDrivePath (candidate : string) : bool :=
  match candidate with String c (String ":" _) => is_letter c | _ => false end.

Definition looksLikePathOperand (value : string) : bool :=
  HasPrefix value "~" || ContainsAny value "/\" || isWindowsDrivePath value.

Definition generic_turn (scanBare : bool) (i : nat) (arg : string) (rest : list string) (st : scan) : scan * nat :=
  if sc_options st && (arg =s? "--") then (end_options st, 0%nat)
  else if long_arg st arg then
    let '(_, attached) := cut_option arg in appendUnknownOptionValue rest attached st
  else if short_arg st arg then
    appendUnknownOptionValue rest (if (2 <? String.length arg)%nat then Some (sdrop 2 arg) else None) st
  else (emit arg (if scanBare || looksLikePathOperand arg then operandPath else operandNonPath) st, 0%nat).

Definition parseGenericOperands (argv : list string) (scanBare : bool) : list parsedOperand :=
  sc_out (scan_args (generic_turn scanBare) 1 0 (tail argv) scan_start).

Definition pathOperandCommands (command : string) : bool :=
  in_list command
    ["cat"; "head"; "tail"; "grep"; "egrep"; "fgrep"; "sed"; "awk"; "less"; "more"; "bat"; "xxd";
     "od"; "strings"; "wc"; "diff"; "cmp"; "file"; "nl"; "tac"; "rev"; "cut"; "sort"; "uniq";
     "tee"; "base32"; "base64"; "md5sum"; "sha1sum"; "sha256sum"; "cp"; "mv"; "install"; "rsync";
     "scp"; "tar"; "zip"; "gzip"; "openssl"; "gpg"; "dd"; "jq"; "yq"; "unlink"; "rmdir"].

Definition certain (operands : list parsedOperand) : operandParseResult :=
  {| op_operands := operands; op_uncertaintyReason := "" |}.

Definition parseOperandRoles (argv : list string) : operandParseResult :=
  match argv with
  | [] => certain []
  | _ =>
      let command := head argv in
      if in_list command ["grep"; "egrep"; "fgrep"] then certain (parsePatternCommandOperands argv grepOperandOptions).1
      else if command =s? "sed" then certain (parsePatternCommandOperands argv sedOperandOptions).1
      else if command =s? "jq" then parseJQOperands argv
      else if command =s? "yq" then parseYQOperands argv
      else if command =s? "awk" then certain (parseAWKOperands argv)
      else if command =s? "tar" then certain (parseTarOperands argv)
      else if command =s? "dd" then certain (parseDDOperands argv)
      else certain (parseGenericOperands argv (pathOperandCommands command))
  end.

(** ** Where an operand was written *)

Definition names_value (value arg : string) : bool :=
  (arg =s? value) || HasSuffix arg ("=" +:+ value) || ((0 <? String.length value)%nat && HasSuffix arg value).

Fixpoint source_from (value : string) (index : Z) (words : list string) : Z :=
  match words with
  | [] => -1
  | arg :: rest => if names_value value arg then index else source_from value (index + 1) rest
  end.

Definition operandSourceArg (argv : list string) (value : string) (start : nat) : Z :=
  let first := source_from value (Z.of_nat start) (drop start argv) in
  if (0 <=? first)%Z then first else source_from value 1 (drop 1 argv).

Fixpoint with_sources (argv : list string) (start : nat) (operands : list parsedOperand) : list parsedOperand :=
  match operands with
  | [] => []
  | o :: rest =>
      let source := operandSourceArg argv (o_value o) start in
      set_sourceArg source o ::
        with_sources argv (if (Z.of_nat start <=? source)%Z then S (Z.to_nat source) else start) rest
  end.

Definition parseOperandRolesWithSources (argv : list string) : operandParseResult :=
  let parsed := parseOperandRoles argv in
  {| op_operands := with_sources argv 1 (op_operands parsed); op_uncertaintyReason := op_uncertaintyReason parsed |}.

(** ** Lemmas: no word is lost *)

(** A word that is no option. *)
Definition plain_word (w : string) : Prop := w <> "" /\ operand_shaped w = true.

Definition values (operands : list parsedOperand) : list string := map o_value operands.

(** [st'] holds the operands of [st] and every plain word of [ws]. *)
Definition adds (st : scan) (ws : list string) (st' : scan) : Prop :=
  values (sc_out st) ⊆ values (sc_out st') /\
  forall w, w ∈ ws -> plain_word w -> w ∈ values (sc_out st').

Lemma adds_same st st' : sc_out st' = sc_out st -> adds st [] st'.
Proof. unfold adds. intros ->. split; [done|]. intros w Hw. by apply elem_of_nil in Hw. Qed.

Lemma adds_trans st ws st' ws' st'' : adds st ws st' -> adds st' ws' st'' -> adds st (ws ++ ws') st''.
Proof.
  intros [H1 K1] [H2 K2]. split; [set_solver|]. intros w [Hw|Hw]%elem_of_app Hp; [apply H2|]; auto.
Qed.

Lemma adds_nil_l st st' ws st'' : adds st [] st' -> adds st' ws st'' -> adds st ws st''.
Proof. exact (adds_trans st [] st' ws st''). Qed.

Lemma values_emit out v r : values (out ++ [operand v r]) = values out ++ [v].
Proof. unfold values. by rewrite map_app. Qed.

Lemma adds_emit v r st : adds st [v] (emit v r st).
Proof.
  unfold adds, emit, set_out. cbn [sc_out]. rewrite values_emit. split; [set_solver|].
  intros w Hw%list_elem_of_singleton _. set_solver.
Qed.

Lemma adds_positional v r st : adds st [v] (emit_positional v r st).
Proof. exact (adds_emit v r st). Qed.

Lemma adds_nonempty v r st : adds st [v] (emit_nonempty v r st).
Proof.
  unfold emit_nonempty. destruct (String.eqb_spec v "") as [->|]; [|apply adds_emit].
  split; [done|]. intros w ->%list_elem_of_singleton [? _]. done.
Qed.

Lemma adds_drop st v st' : adds st [v] st' -> adds st [] st'.
Proof. intros [H _]. split; [done|]. intros w Hw. by apply elem_of_nil in Hw. Qed.

(** A step that consumed words of [rest]. *)
Definition adds_consumed (st : scan) (rest : list string) (r : scan * nat) : Prop :=
  adds st (take r.2 rest) r.1.

Lemma append_values_adds rest attached roles st0 st consumed ws :
  take consumed ws ++ rest = ws -> (consumed <= length ws)%nat -> adds st0 (take consumed ws) st ->
  adds_consumed st0 ws (append_values rest attached roles st consumed).
Proof.
  revert rest attached st consumed. induction roles as [|role roles IH]; intros rest attached st consumed Hw Hl Ha;
    [exact Ha|]. cbn [append_values]. destruct attached as [value|].
  - apply IH; [done|done|]. rewrite <- (app_nil_r (take consumed ws)). eapply adds_trans; [exact Ha|].
    exact (adds_drop _ _ _ (adds_nonempty value role st)).
  - destruct rest as [|value rest]; [by apply IH|].
    assert (Hv : ws !! consumed = Some value).
    { rewrite <- Hw. rewrite lookup_app_r; rewrite length_take; [|lia].
      by replace (consumed - consumed `min` length ws)%nat with 0%nat by lia. }
    apply lookup_lt_Some in Hv as Hlt. pose proof (take_S_r ws consumed value Hv) as Ht.
    apply IH; [|lia|].
    + rewrite Ht, <- app_assoc. done.
    + rewrite Ht. eapply adds_trans; [exact Ha|]. apply adds_nonempty.
Qed.

Lemma appendOptionValues_adds rest attached roles st :
  adds_consumed st rest (appendOptionValues rest attached roles st).
Proof. apply append_values_adds; [done|lia|]. by apply adds_same. Qed.

Lemma appendUnknown_adds rest attached st : adds_consumed st rest (appendUnknownOptionValue rest attached st).
Proof.
  unfold appendUnknownOptionValue, adds_consumed. destruct attached as [value|].
  - exact (adds_drop _ _ _ (adds_emit value operandUncertain st)).
  - destruct rest as [|next rest]; [by apply adds_same|].
    destruct (operand_shaped next); [apply adds_emit|by apply adds_same].
Qed.

(** What one letter of a cluster may do. *)
Definition letter_adds (turn : ascii -> string -> list string -> scan -> letter) : Prop :=
  forall c value rest st,
    match turn c value rest st with
    | Next st' => adds st [] st'
    | Stop st' consumed => adds_consumed st rest (st', consumed)
    end.

Lemma scan_short_adds turn short rest st :
  letter_adds turn -> adds_consumed st rest (scan_short turn short rest st).
Proof.
  intros Ht. revert st. induction short as [|c short IH]; intros st; [by apply adds_same|].
  cbn [scan_short]. specialize (Ht c short rest st). destruct (turn c short rest st) as [st'|st' k]; [|done].
  exact (adds_nil_l _ _ _ _ Ht (IH st')).
Qed.

Lemma short_value_adds role value rest st :
  match short_value role value rest st with
  | Next st' => adds st [] st'
  | Stop st' consumed => adds_consumed st rest (st', consumed)
  end.
Proof.
  unfold short_value. destruct value; destruct rest as [|next rest];
    first [apply adds_nonempty | exact (adds_drop _ _ _ (adds_nonempty _ role st))].
Qed.

Lemma short_unknown_adds value rest st :
  match short_unknown value rest st with
  | Next st' => adds st [] st'
  | Stop st' consumed => adds_consumed st rest (st', consumed)
  end.
Proof.
  unfold short_unknown. pose proof (appendUnknown_adds rest (some_nonempty value) st) as H.
  destruct (appendUnknownOptionValue _ _ _). exact H.
Qed.

Lemma adds_weaken st ws st' : adds st ws st' -> adds st [] st'.
Proof. intros [H _]. split; [done|]. intros w Hw. by apply elem_of_nil in Hw. Qed.

Lemma adds_option arg st st' : operand_shaped arg = false -> adds st [] st' -> adds st [arg] st'.
Proof. intros Ho [H _]. split; [done|]. intros w ->%list_elem_of_singleton [_ Hp]. congruence. Qed.

Lemma dashed_option arg : HasPrefix arg "-" = true -> arg <> "-" -> operand_shaped arg = false.
Proof. intros H Hn. unfold operand_shaped. apply String.eqb_neq in Hn. by rewrite H, Hn. Qed.

Lemma long_arg_option st arg : long_arg st arg = true -> operand_shaped arg = false.
Proof.
  intros [_ H]%andb_true_iff. apply HasPrefix_true in H as [t ->]. by destruct t.
Qed.

Lemma short_arg_option st arg : short_arg st arg = true -> operand_shaped arg = false.
Proof. intros [[_ H]%andb_true_iff Hn]%andb_true_iff. breflect. by apply dashed_option. Qed.

(** One turn of a parser's loop keeps the words it consumes and, unless it is
    exempt, the word it is at. [inv] is what the loop maintains while the words
    satisfy [ok]. *)
Definition turn_adds (inv : scan -> Prop) (ok : string -> Prop) (exempt : nat -> string -> bool)
    (turn : nat -> string -> list string -> scan -> scan * nat) : Prop :=
  forall i arg rest st, inv st -> ok arg ->
    inv (turn i arg rest st).1 /\ adds_consumed st rest (turn i arg rest st) /\
    (exempt i arg = false -> adds st [arg] (turn i arg rest st).1).

Section Scanning.
Context (inv : scan -> Prop) (ok : string -> Prop) (exempt : nat -> string -> bool).
Context (turn : nat -> string -> list string -> scan -> scan * nat).
Hypothesis (Hturn : turn_adds inv ok exempt turn).

Lemma scan_args_grows args : forall i skip st,
  inv st -> Forall ok args -> adds st [] (scan_args turn i skip args st).
Proof using Hturn.
  induction args as [|arg rest IH]; intros i skip st Hi Ho; [by apply adds_same|].
  apply Forall_cons in Ho as [Ha Ho]. cbn [scan_args]. destruct skip as [|skip]; [|by apply IH].
  destruct (Hturn i arg rest st Hi Ha) as (Hi' & Hc & _). destruct (turn i arg rest st) as [st' k].
  eapply adds_nil_l; [exact (adds_weaken _ _ _ Hc)|]. by apply IH.
Qed.

Lemma scan_args_keeps args : forall i skip st j w,
  inv st -> Forall ok args -> args !! j = Some w -> (skip <= j)%nat -> plain_word w -> exempt (i + j) w = false ->
  w ∈ values (sc_out (scan_args turn i skip args st)).
Proof using Hturn.
  induction args as [|arg rest IH]; intros i skip st j w Hi Ho Hj Hs Hp He; [done|].
  apply Forall_cons in Ho as [Ha Ho]. cbn [scan_args]. destruct skip as [|skip].
  - destruct (Hturn i arg rest st Hi Ha) as (Hi' & Hc & Hw). destruct (turn i arg rest st) as [st' k].
    cbn [fst] in *. pose proof (scan_args_grows rest (S i) k st' Hi' Ho) as [Hgrow _].
    destruct j as [|j].
    + injection Hj as <-. rewrite Nat.add_0_r in He. apply Hgrow, (Hw He); [by left|done].
    + cbn in Hj. destruct (decide (j < k)%nat) as [Hlt|Hge].
      * apply Hgrow, Hc; [|done]. apply list_elem_of_lookup. exists j. by rewrite lookup_take_lt.
      * apply (IH (S i) k st' j w); [done|done|done|lia|done|]. by replace (S i + j)%nat with (i + S j)%nat by lia.
  - destruct j as [|j]; [lia|]. cbn in Hj. apply (IH (S i) skip st j w); [done|done|done|lia|done|].
    by replace (S i + j)%nat with (i + S j)%nat by lia.
Qed.
End Scanning.

(** The option branches of a turn. *)
Lemma turn_option arg st rest r :
  operand_shaped arg = false -> adds_consumed st rest r ->
  adds_consumed st rest r /\ (forall b : bool, b = false -> adds st [arg] r.1).
Proof. intros Ho H. split; [done|]. intros _ _. apply adds_option; [done|]. exact (adds_weaken _ _ _ H). Qed.

Lemma turn_word arg st rest v st' :
  adds st [v] st' -> v = arg ->
  adds_consumed st rest (st', 0%nat) /\ (forall b : bool, b = false -> adds st [arg] st').
Proof. intros H ->. split; [exact (adds_weaken _ _ _ H)|done]. Qed.

Lemma turn_terminator st rest :
  adds_consumed st rest (end_options st, 0%nat) /\ (forall b : bool, b = false -> adds st ["--"] (end_options st)).
Proof. apply (turn_option "--" st rest (end_options st, 0%nat)); [done|]. by apply adds_same. Qed.

(** A step after the flags of the scan changed. *)
Lemma consumed_after st st' rest r : sc_out st' = sc_out st -> adds_consumed st' rest r -> adds_consumed st rest r.
Proof. intros Hs H. exact (adds_nil_l _ _ _ _ (adds_same _ _ Hs) H). Qed.

Lemma flag_consumed st st' rest : sc_out st' = sc_out st -> adds_consumed st rest (st', 0%nat).
Proof. intros H. by apply adds_same. Qed.

Create HintDb operands.
#[export] Hint Resolve appendOptionValues_adds appendUnknown_adds flag_consumed adds_same : operands.
#[export] Hint Extern 3 (adds_consumed ?st _ (appendOptionValues _ _ _ ?st')) =>
  apply (consumed_after st st'); [reflexivity|apply appendOptionValues_adds] : operands.
#[export] Hint Extern 3 (adds_consumed ?st _ (appendUnknownOptionValue _ _ ?st')) =>
  apply (consumed_after st st'); [reflexivity|apply appendUnknown_adds] : operands.

(** Settles one letter of a cluster. *)
Ltac letter_step :=
  match goal with
  | |- match short_unknown ?v ?r ?st' with Next _ => adds ?st _ _ | Stop _ _ => _ end =>
      let H := fresh in pose proof (short_unknown_adds v r st') as H; destruct (short_unknown v r st');
      [exact (adds_nil_l st st' _ _ (adds_same st st' eq_refl) H)|exact (consumed_after st st' _ _ eq_refl H)]
  | |- match short_value ?ro ?v ?r ?st' with Next _ => adds ?st _ _ | Stop _ _ => _ end =>
      let H := fresh in pose proof (short_value_adds ro v r st') as H; destruct (short_value ro v r st');
      [exact (adds_nil_l st st' _ _ (adds_same st st' eq_refl) H)|exact (consumed_after st st' _ _ eq_refl H)]
  | |- adds _ [] _ => by apply adds_same
  | |- adds_consumed ?st _ (emit_nonempty ?v ?r ?st', 0%nat) =>
      exact (adds_nil_l st st' _ _ (adds_same st st' eq_refl) (adds_drop _ _ _ (adds_nonempty v r st')))
  | |- adds_consumed _ _ (_, 0%nat) => by apply flag_consumed
  end.

Lemma tar_letter_adds : letter_adds tar_letter.
Proof. intros c value rest st. unfold tar_letter. destruct (tar_short c) as [[]|]; letter_step. Qed.

Lemma awk_letter_adds : letter_adds awk_letter.
Proof. intros c value rest st. unfold awk_letter. destruct (awk_short c) as [[[] program]|]; letter_step. Qed.

Lemma yq_letter_adds : letter_adds yq_letter.
Proof. intros c value rest st. unfold yq_letter. destruct (ContainsByte "fsopI" c); [letter_step|].
  destruct (ContainsByte _ c); letter_step. Qed.

Lemma jq_letter_adds : letter_adds jq_letter.
Proof.
  intros c value rest st. unfold jq_letter. destruct (Ascii.eqb c "f").
  - destruct ((value =s? "") && optionInterposesValue rest); letter_step.
  - destruct (Ascii.eqb c "L"); [letter_step|]. destruct (Ascii.eqb c "n"); [letter_step|].
    destruct (ContainsByte _ c); letter_step.
Qed.

Lemma pattern_letter_adds spec : letter_adds (pattern_letter spec).
Proof.
  intros c value rest st. unfold pattern_letter. destruct (operandShortOption c spec) as [o|]; [|letter_step].
  destruct (oo_kind o); letter_step.
Qed.

(** ** Lemmas: the turns *)

Definition never (i : nat) (arg : string) : bool := false.
Definition anything (st : scan) : Prop := True.
Definition any_word (w : string) : Prop := True.

(** Settles a turn by its branches. *)
Lemma turn_parts (inv : scan -> Prop) (exempt : nat -> string -> bool) i arg st rest r :
  inv r.1 -> adds_consumed st rest r /\ (forall b : bool, b = false -> adds st [arg] r.1) ->
  inv r.1 /\ adds_consumed st rest r /\ (exempt i arg = false -> adds st [arg] r.1).
Proof. intros Hi [H1 H2]. split_and!; [done|done|by apply H2]. Qed.

Lemma generic_turn_adds scanBare : turn_adds anything any_word never (generic_turn scanBare).
Proof.
  intros i arg rest st _ _. apply turn_parts; [done|]. unfold generic_turn.
  destruct (sc_options st && (arg =s? "--")) eqn:E1.
  { apply andb_true_iff in E1 as [_ ->%String.eqb_eq]. apply turn_terminator. }
  destruct (long_arg st arg) eqn:E2.
  { destruct (cut_option arg). apply turn_option; [by eapply long_arg_option|auto with operands]. }
  destruct (short_arg st arg) eqn:E3.
  { apply turn_option; [by eapply short_arg_option|auto with operands]. }
  apply (turn_word arg st rest arg); [apply adds_emit|done].
Qed.

Lemma pattern_long_adds spec name attached rest st :
  adds_consumed st rest (pattern_long spec name attached rest st).
Proof.
  unfold pattern_long. destruct (resolveOperandLongOption name (pc_options spec)) as [o|]; [|auto with operands].
  assert (Hemit : forall st' v r, sc_out st' = sc_out st -> adds st [v] (emit v r st')).
  { intros st' v r Hs. exact (adds_nil_l _ _ _ _ (adds_same _ _ Hs) (adds_emit v r st')). }
  destruct (oo_kind o); destruct attached as [value|]; try (by apply flag_consumed);
    try (exact (adds_weaken _ _ _ (Hemit _ _ _ eq_refl)));
    (destruct rest as [|value rest]; [by apply flag_consumed|exact (Hemit _ _ _ eq_refl)]).
Qed.

Lemma pattern_turn_adds spec : turn_adds anything any_word never (pattern_turn spec).
Proof.
  intros i arg rest st _ _. apply turn_parts; [done|]. unfold pattern_turn.
  destruct (sc_options st && (arg =s? "--")) eqn:E1.
  { apply andb_true_iff in E1 as [_ ->%String.eqb_eq]. apply turn_terminator. }
  destruct (long_arg st arg) eqn:E2.
  { destruct (cut_option _). apply turn_option; [by eapply long_arg_option|apply pattern_long_adds]. }
  destruct (short_arg st arg) eqn:E3.
  { apply turn_option; [by eapply short_arg_option|]. destruct (allDigits _); [by apply flag_consumed|].
    apply scan_short_adds, pattern_letter_adds. }
  apply (turn_word arg st rest arg); [apply adds_positional|done].
Qed.

Lemma awk_turn_adds : turn_adds anything any_word never awk_turn.
Proof.
  intros i arg rest st _ _. apply turn_parts; [done|]. unfold awk_turn.
  destruct (sc_options st && (arg =s? "--")) eqn:E1.
  { apply andb_true_iff in E1 as [_ ->%String.eqb_eq]. apply turn_terminator. }
  destruct (long_arg st arg) eqn:E2.
  { destruct (cut_option _) as [name attached]. apply turn_option; [by eapply long_arg_option|].
    destruct (awk_long name) as [[kind program]|]; [|auto with operands].
    destruct kind; destruct attached; auto with operands. }
  destruct (short_arg st arg) eqn:E3.
  { apply turn_option; [by eapply short_arg_option|]. apply scan_short_adds, awk_letter_adds. }
  destruct (isAWKAssignment arg); (apply (turn_word arg st rest arg); [|done]); [apply adds_emit|apply adds_positional].
Qed.

(** The first word of tar may be a cluster without a dash. *)
Definition tar_exempt (i : nat) (arg : string) : bool := (i =? 1)%nat && isTarOptionCluster arg.

Lemma unless_exempt (b : bool) arg st rest r :
  adds_consumed st rest r /\ (forall b : bool, b = false -> adds st [arg] r.1) ->
  adds_consumed st rest r /\ (b = false -> adds st [arg] r.1).
Proof. intros [H1 H2]. split; [done|]. by apply H2. Qed.

Lemma tar_turn_adds : turn_adds anything any_word tar_exempt tar_turn.
Proof.
  intros i arg rest st _ _. split; [done|]. unfold tar_turn.
  destruct (sc_options st && (arg =s? "--")) eqn:E1.
  { apply unless_exempt. apply andb_true_iff in E1 as [_ ->%String.eqb_eq]. apply turn_terminator. }
  destruct (long_arg st arg) eqn:E2.
  { destruct (cut_option _) as [name attached]. apply unless_exempt, turn_option; [by eapply long_arg_option|].
    destruct (tar_long name) as [[]|]; auto with operands. }
  destruct (short_arg st arg) eqn:E3; cbn [orb].
  { apply unless_exempt, turn_option; [by eapply short_arg_option|]. apply scan_short_adds, tar_letter_adds. }
  destruct (_ && isTarOptionCluster arg) eqn:E4.
  - split; [apply scan_short_adds, tar_letter_adds|]. unfold tar_exempt. intros He.
    apply andb_true_iff in E4 as [[[_ E4]%andb_true_iff _]%andb_true_iff E5]. by rewrite E4, E5 in He.
  - apply unless_exempt, (turn_word arg st rest arg); [apply adds_emit|done].
Qed.

Definition yq_exempt (i : nat) (arg : string) : bool := (i =? 1)%nat && in_list arg ["e"; "eval"; "ea"; "eval-all"].

Lemma yq_long_adds name attached rest st : adds_consumed st rest (yq_long name attached rest st).
Proof. unfold yq_long. repeat (match goal with |- context [if ?b then _ else _] => destruct b end); auto with operands. Qed.

Lemma yq_turn_adds : turn_adds anything any_word yq_exempt yq_turn.
Proof.
  intros i arg rest st _ _. split; [done|]. unfold yq_turn. fold (yq_exempt i arg).
  destruct (yq_exempt i arg) eqn:E0; [split; [by apply flag_consumed|done]|].
  apply unless_exempt. destruct (sc_options st && (arg =s? "--")) eqn:E1.
  { apply andb_true_iff in E1 as [_ ->%String.eqb_eq]. apply turn_terminator. }
  destruct (long_arg st arg) eqn:E2.
  { destruct (cut_option _). apply turn_option; [by eapply long_arg_option|apply yq_long_adds]. }
  destruct (short_arg st arg) eqn:E3.
  { apply turn_option; [by eapply short_arg_option|]. apply scan_short_adds, yq_letter_adds. }
  apply (turn_word arg st rest arg); [apply adds_positional|done].
Qed.

(** jq, while no word asks it to run tests. *)
Definition not_testing (st : scan) : Prop := sc_runTests st = false.
Definition no_tests (w : string) : Prop := w <> "--run-tests".

Lemma append_values_tests rest attached roles : forall st consumed,
  sc_runTests (append_values rest attached roles st consumed).1 = sc_runTests st.
Proof.
  revert rest attached. induction roles as [|role roles IH]; intros rest attached st consumed; [done|].
  cbn [append_values]. assert (He : forall v, sc_runTests (emit_nonempty v role st) = sc_runTests st)
    by (intros v; unfold emit_nonempty; by destruct (v =s? "")).
  destruct attached as [v|]; [|destruct rest as [|v rest]]; rewrite IH, ?He; done.
Qed.

Lemma appendUnknown_tests rest attached st :
  sc_runTests (appendUnknownOptionValue rest attached st).1 = sc_runTests st.
Proof.
  unfold appendUnknownOptionValue. destruct attached; [done|]. destruct rest as [|n rest]; [done|].
  by destruct (operand_shaped n).
Qed.

Lemma jq_letter_tests c value rest st :
  match jq_letter c value rest st with Next st' | Stop st' _ => sc_runTests st' = sc_runTests st end.
Proof.
  assert (Hv : forall role st', match short_value role value rest st' with
    Next s | Stop s _ => sc_runTests s = sc_runTests st' end).
  { intros role st'. unfold short_value, emit_nonempty. destruct value, rest as [|n rest]; try done.
    by destruct (n =s? ""). }
  assert (Hu : forall st', match short_unknown value rest st' with
    Next s | Stop s _ => sc_runTests s = sc_runTests st' end).
  { intros st'. unfold short_unknown. pose proof (appendUnknown_tests rest (some_nonempty value) st') as H.
    by destruct (appendUnknownOptionValue _ _ _). }
  unfold jq_letter. destruct (Ascii.eqb c "f"); [destruct (_ && _); [done|exact (Hv _ (with_program true st))]|].
  destruct (Ascii.eqb c "L"); [apply Hv|]. destruct (Ascii.eqb c "n"); [done|].
  destruct (ContainsByte _ c); [done|]. exact (Hu (with_reason jq_unknown st)).
Qed.

Lemma jq_short_tests short rest st : sc_runTests (scan_short jq_letter short rest st).1 = sc_runTests st.
Proof.
  revert st. induction short as [|c short IH]; intros st; [done|]. cbn [scan_short].
  pose proof (jq_letter_tests c short rest st) as H. destruct (jq_letter c short rest st) as [st'|st' k]; [|done].
  by rewrite IH.
Qed.

Lemma jq_long_tests name attached rest st :
  name <> "run-tests" \/ attached <> None -> sc_runTests (jq_long name attached rest st).1 = sc_runTests st.
Proof.
  intros Hn. assert (Ha : forall roles st', sc_runTests (appendOptionValues rest attached roles st').1 = sc_runTests st')
    by (intros; apply append_values_tests).
  unfold jq_long. destruct (name =s? "from-file").
  { destruct attached; [exact (Ha _ (with_program true st))|]. destruct (optionInterposesValue rest); [done|].
    exact (Ha _ (with_program true st)). }
  destruct (in_list name ["arg"; "argjson"]); [apply Ha|]. destruct (in_list name ["rawfile"; "slurpfile"]); [apply Ha|].
  destruct (name =s? "indent"); [apply Ha|]. destruct (name =s? "null-input"); [done|].
  destruct (in_list name ["args"; "jsonargs"]); [done|]. destruct (String.eqb_spec name "run-tests") as [->|].
  { destruct attached; [exact (appendUnknown_tests rest _ (with_reason jq_unknown st))|]. by destruct Hn. }
  destruct (in_list name jq_flags); [done|]. exact (appendUnknown_tests rest _ (with_reason jq_unknown st)).
Qed.

Lemma jq_long_adds name attached rest st : adds_consumed st rest (jq_long name attached rest st).
Proof.
  unfold jq_long. destruct (name =s? "from-file").
  { destruct attached; [auto with operands|]. destruct (optionInterposesValue rest); auto with operands. }
  repeat (match goal with |- context [if ?b then _ else _] => destruct b end); auto with operands.
Qed.

Lemma cut_option_name arg name attached : cut_option arg = (name, attached) -> attached = None -> arg = name.
Proof.
  unfold cut_option. destruct (Cut arg "=") as [[n v] found] eqn:E. intros [= -> <-] H. destruct found; [done|].
  by apply Cut_missing in E as [<- _].
Qed.

Lemma jq_turn_adds : turn_adds not_testing no_tests never jq_turn.
Proof.
  intros i arg rest st Hi Ho. unfold jq_turn. rewrite Hi.
  destruct (sc_options st && (arg =s? "--")) eqn:E1.
  { apply turn_parts; [exact Hi|]. apply andb_true_iff in E1 as [_ ->%String.eqb_eq]. apply turn_terminator. }
  destruct (long_arg st arg) eqn:E2.
  { destruct (cut_option _) as [name attached] eqn:Ec. apply turn_parts.
    - unfold not_testing. rewrite jq_long_tests; [done|]. destruct attached as [v|]; [by right|left].
      apply cut_option_name in Ec; [|done]. intros ->. apply Ho.
      apply andb_true_iff in E2 as [_ [t ->]%HasPrefix_true]. rewrite TrimPrefix_app in Ec. by subst.
    - apply turn_option; [by eapply long_arg_option|apply jq_long_adds]. }
  destruct (short_arg st arg) eqn:E3.
  { apply turn_parts; [unfold not_testing; by rewrite jq_short_tests|].
    apply turn_option; [by eapply short_arg_option|]. apply scan_short_adds, jq_letter_adds. }
  apply turn_parts; [exact Hi|]. apply (turn_word arg st rest arg); [apply adds_positional|done].
Qed.

(** ** Lemmas: the whole readings *)

Lemma values_alter f i l : (forall o, o_value (f o) = o_value o) -> values (alter f i l) = values l.
Proof.
  intros Hf. revert i. induction l as [|o l IH]; intros [|i]; try done.
  - cbn. by rewrite Hf.
  - cbn. f_equal. apply IH.
Qed.

Lemma values_first_positional role st : values (first_positional role st) = values (sc_out st).
Proof.
  unfold first_positional. destruct (sc_positional st); [done|]. destruct (sc_program st); [done|].
  by apply values_alter.
Qed.

Lemma values_literal_data n t p idx out : values (literal_data n t p idx out) = values out.
Proof.
  revert p out. induction idx as [|i idx IH]; intros p out; [done|]. cbn [literal_data]. rewrite IH.
  destruct (n || _); [by apply values_alter|done].
Qed.

Lemma values_mark_written idx out : values (mark_written idx out) = values out.
Proof.
  unfold mark_written. revert out. induction idx as [|i idx IH]; intros out; [done|]. cbn [fold_left]. rewrite IH.
  apply values_alter. intros o. by destruct (is_nonpath (o_role o)).
Qed.

Lemma values_pattern argv spec :
  values (parsePatternCommandOperands argv spec).1 =
  values (sc_out (scan_args (pattern_turn spec) 1 0 (tail argv) scan_start)).
Proof.
  unfold parsePatternCommandOperands. cbn [fst]. destruct (sc_inPlace _);
    by rewrite ?values_mark_written, values_first_positional.
Qed.

Lemma scan_words inv ok exempt turn argv i w :
  turn_adds inv ok exempt turn -> inv scan_start -> Forall ok (tail argv) -> tail argv !! i = Some w ->
  plain_word w -> exempt (S i) w = false -> w ∈ values (sc_out (scan_args turn 1 0 (tail argv) scan_start)).
Proof.
  intros Ht Hi Ho Hw Hp He. apply (scan_args_keeps inv ok exempt turn Ht (tail argv) 1 0 scan_start i w); try done. lia.
Qed.

Lemma Forall_any_word l : Forall any_word l.
Proof. by apply Forall_forall. Qed.

Lemma scan_args_inv (inv : scan -> Prop) turn args :
  (forall i arg rest st, inv st -> inv (turn i arg rest st).1) ->
  forall i skip st, inv st -> inv (scan_args turn i skip args st).
Proof.
  intros Ht. induction args as [|arg rest IH]; intros i skip st Hi; [done|]. cbn [scan_args].
  destruct skip as [|skip]; [|by apply IH]. specialize (Ht i arg rest st Hi).
  destruct (turn i arg rest st) as [st' k]. by apply IH.
Qed.

(** In a generic reading a word is no path only when it does not look like one
    and the command is not known to read its words as paths. *)
Lemma generic_roles scanBare argv :
  Forall (fun o => is_nonpath (o_role o) = true -> scanBare || looksLikePathOperand (o_value o) = false)
    (parseGenericOperands argv scanBare).
Proof.
  set (P := fun o => is_nonpath (o_role o) = true -> scanBare || looksLikePathOperand (o_value o) = false).
  apply (scan_args_inv (fun st => Forall P (sc_out st))); [|constructor]. intros i arg rest st Hi.
  assert (Hunknown : forall attached, Forall P (sc_out (appendUnknownOptionValue rest attached st).1)).
  { intros attached. unfold appendUnknownOptionValue. destruct attached as [v|]; [|destruct rest as [|n rest]; [done|]];
      [|destruct (operand_shaped n); [|done]]; (apply Forall_app; split; [done|]); by repeat constructor. }
  unfold generic_turn. destruct (_ && _); [done|]. destruct (long_arg st arg); [by destruct (cut_option arg)|].
  destruct (short_arg st arg); [done|]. apply Forall_app. split; [done|]. constructor; [|constructor].
  unfold P. cbn [o_role o_value operand]. by destruct (scanBare || looksLikePathOperand arg).
Qed.

(** The commands read generically. *)
Definition generic_command (command : string) : bool :=
  negb (in_list command ["grep"; "egrep"; "fgrep"; "sed"; "jq"; "yq"; "awk"; "tar"; "dd"]).

Lemma generic_command_parse argv :
  argv <> [] -> generic_command (head argv) = true ->
  parseOperandRoles argv = certain (parseGenericOperands argv (pathOperandCommands (head argv))).
Proof.
  intros Hne Hg. unfold parseOperandRoles. destruct argv as [|a args] eqn:Ea; [done|]. rewrite <- Ea in *. clear Ea Hne.
  apply negb_true_iff, in_list_false in Hg. revert Hg. generalize (head argv). intros c Hg.
  assert (Hn : forall x, x ∈ ["grep"; "egrep"; "fgrep"; "sed"; "jq"; "yq"; "awk"; "tar"; "dd"] -> (c =s? x) = false).
  { intros x Hx. apply String.eqb_neq. by intros ->. }
  rewrite (proj2 (in_list_false c ["grep"; "egrep"; "fgrep"])) by set_solver.
  by rewrite !Hn by set_solver.
Qed.

(** An operand of a generic command that names a path. *)
Lemma generic_path_operand argv i w :
  tail argv !! i = Some w -> plain_word w -> generic_command (head argv) = true ->
  pathOperandCommands (head argv) || looksLikePathOperand w = true ->
  exists o, o ∈ op_operands (parseOperandRoles argv) /\ o_value o = w /\ is_nonpath (o_role o) = false.
Proof.
  intros Hw Hp Hg Hl. assert (Hne : argv <> []) by by intros ->.
  rewrite (generic_command_parse argv Hne Hg). cbn [op_operands certain].
  assert (Hin : w ∈ values (parseGenericOperands argv (pathOperandCommands (head argv)))).
  { by apply (scan_words anything any_word never _ _ i); [apply generic_turn_adds| |apply Forall_any_word| | |]. }
  apply list_elem_of_fmap in Hin as (o & -> & Hin). exists o. split; [done|]. split; [done|].
  pose proof (generic_roles (pathOperandCommands (head argv)) argv) as Hr. rewrite Forall_forall in Hr.
  specialize (Hr o Hin). destruct (is_nonpath (o_role o)); [|done]. specialize (Hr eq_refl). congruence.
Qed.

(** ** Properties *)

(** No reading of a command loses an operand: a word that is no option is the
    value of an operand, whatever options stand before it and whatever value they
    take. Apart from dd, whose operands are assignments, the exceptions are a
    leading cluster of tar without a dash, the subcommand of yq, and jq running its
    tests. *)
Theorem operand_words_kept argv i w :
  tail argv !! i = Some w -> plain_word w -> head argv <> "dd" ->
  (head argv = "tar" -> tar_exempt (S i) w = false) -> (head argv = "yq" -> yq_exempt (S i) w = false) ->
  (head argv = "jq" -> "--run-tests" ∉ argv) ->
  w ∈ values (op_operands (parseOperandRoles argv)).
Proof.
  intros Hw Hp Hdd Htar Hyq Hjq. unfold parseOperandRoles. destruct argv as [|a args] eqn:Ea; [done|].
  rewrite <- Ea in *. clear Ea. revert Hdd Htar Hyq Hjq. generalize (head argv). intros command Hdd Htar Hyq Hjq.
  assert (Hpattern : forall spec, w ∈ values (parsePatternCommandOperands argv spec).1).
  { intros spec. rewrite values_pattern.
    by apply (scan_words anything any_word never _ _ i); [apply pattern_turn_adds| |apply Forall_any_word| | |]. }
  destruct (in_list command _); [apply Hpattern|]. destruct (command =s? "sed"); [apply Hpattern|].
  destruct (String.eqb_spec command "jq") as [->|].
  { cbn [parseJQOperands op_operands]. rewrite values_literal_data, values_first_positional.
    apply (scan_words not_testing no_tests never _ _ i); [apply jq_turn_adds|done| |done|done|done].
    apply Forall_forall. intros v Hv ->. apply Hjq; [done|]. destruct argv; [done|]. by right. }
  destruct (String.eqb_spec command "yq") as [->|].
  { cbn [parseYQOperands op_operands]. rewrite values_first_positional.
    by apply (scan_words anything any_word yq_exempt _ _ i); [apply yq_turn_adds| |apply Forall_any_word| | |auto]. }
  destruct (command =s? "awk").
  { cbn [certain op_operands]. unfold parseAWKOperands. rewrite values_first_positional.
    by apply (scan_words anything any_word never _ _ i); [apply awk_turn_adds| |apply Forall_any_word| | |]. }
  destruct (String.eqb_spec command "tar") as [->|].
  { by apply (scan_words anything any_word tar_exempt _ _ i); [apply tar_turn_adds| |apply Forall_any_word| | |auto]. }
  destruct (String.eqb_spec command "dd"); [done|].
  by apply (scan_words anything any_word never _ _ i); [apply generic_turn_adds| |apply Forall_any_word| | |].
Qed.

(** A file after an unknown option and its value. *)
Lemma operand_words_kept_witness :
  let argv := ["/usr/bin/tar"; "--future"; "x"; "-C"; "/tmp"; "-cf"; "-"; ".ssh"] in
  ".ssh" ∈ values (op_operands (parseOperandRoles argv)).
Proof.
  apply (operand_words_kept _ 6); try reflexivity; try (vm_compute; discriminate).
  split; [discriminate|reflexivity].
Defined.

Definition reading (argv : list string) : list (string * operandRole) :=
  map (fun o => (o_value o, o_role o)) (op_operands (parseOperandRoles argv)).

(** Readings the repository's tests state. *)
Lemma tested_readings :
  reading ["base64"; "--future"; "id_rsa"; "/repo/input"] =
    [("id_rsa", operandUncertain); ("/repo/input", operandPath)] /\
  reading ["grep"; "/repo/build.log"; "--reg=*.pem"] = [("/repo/build.log", operandPath); ("*.pem", operandNonPath)] /\
  reading ["grep"; "--after-c"; "2"; "id_rsa"; "/repo/log"] =
    [("2", operandNonPath); ("id_rsa", operandNonPath); ("/repo/log", operandPath)] /\
  reading ["grep"; "-Q"; "id_rsa"; "*.pem"; "/repo/log"] =
    [("id_rsa", operandUncertain); ("*.pem", operandNonPath); ("/repo/log", operandPath)] /\
  reading ["sed"; "/repo/a.txt"; "--exp=s/.env/.cfg/"] = [("/repo/a.txt", operandPath); ("s/.env/.cfg/", operandNonPath)] /\
  reading ["yq"; "-f"; "process"; "id_rsa"] = [("process", operandNonPath); ("id_rsa", operandUncertain)] /\
  reading ["awk"; "/repo/log"; "--source"; "/id_rsa/"] = [("/repo/log", operandPath); ("/id_rsa/", operandNonPath)] /\
  reading ["awk"; "key=/home/u/.ssh/id_rsa"; "/id_rsa/"; "/repo/log"] =
    [("key=/home/u/.ssh/id_rsa", operandNonPath); ("/id_rsa/", operandNonPath); ("/repo/log", operandPath)].
Proof. split_and!; reflexivity. Qed.
