(* ===== verification/FindActions.v ===== *)
(** * The actions of find ([internal/engine/find_actions.go])

    [find] reads, writes, deletes and runs commands from one expression. This file
    models how that expression is read: the leading options, the roots, the tests
    with their operands, the actions with their destinations and callbacks, and the
    check of the expression's structure, for which it gives the grammar and proves
    that the check accepts exactly its sentences. *)

From Stdlib Require Import ZArith Ascii String List Lia.
From stdpp Require Import base list strings gmap.
From S2P Require Import Prelude GoStrings GoPath Policy Argv Engine Simple GitRepo Wrappers Operands.
Open Scope go_scope.

(** ** The structure of an expression *)

Record findExpressionFrame := { fr_hasOperand : bool; fr_needsOperand : bool }.

(** The innermost frame is first. *)
Record findExpressionValidator := {
  fv_frames : list findExpressionFrame;
  fv_sawToken : bool;
  fv_invalid : bool;
}.

Definition open_frame : findExpressionFrame := {| fr_hasOperand := false; fr_needsOperand := true |}.
Definition full_frame : findExpressionFrame := {| fr_hasOperand := true; fr_needsOperand := false |}.
Definition wanting (f : findExpressionFrame) : findExpressionFrame :=
  {| fr_hasOperand := fr_hasOperand f; fr_needsOperand := true |}.

Definition newFindExpressionValidator : findExpressionValidator :=
  {| fv_frames := [open_frame]; fv_sawToken := false; fv_invalid := false |}.

Definition with_frames (frames : list findExpressionFrame) (v : findExpressionValidator) : findExpressionValidator :=
  {| fv_frames := frames; fv_sawToken := true; fv_invalid := fv_invalid v |}.
Definition invalidated (v : findExpressionValidator) : findExpressionValidator :=
  {| fv_frames := fv_frames v; fv_sawToken := true; fv_invalid := true |}.

(** What a word means for the structure. *)
Inductive event := EOperand | ENot | EOpen | EClose | EBinary.

Definition operator_event (value : string) : event :=
  if in_list value ["!"; "-not"] then ENot
  else if in_list value ["("; "\("] then EOpen
  else if in_list value [")"; "\)"] then EClose
  else EBinary.

Definition incomplete (f : findExpressionFrame) : bool := negb (fr_hasOperand f) || fr_needsOperand f.

(** [operator] and [operand]; there is always a frame. *)
Definition validate (v : findExpressionValidator) (e : event) : findExpressionValidator :=
  match fv_frames v, e with
  | [], _ => v
  | _ :: frames, EOperand => with_frames (full_frame :: frames) v
  | frame :: frames, ENot => with_frames (wanting frame :: frames) v
  | frames, EOpen => with_frames (open_frame :: frames) v
  | [_], EClose => invalidated v
  | frame :: _ :: frames, EClose =>
      if incomplete frame then invalidated v else with_frames (full_frame :: frames) v
  | frame :: frames, EBinary =>
      if incomplete frame then invalidated v else with_frames (wanting frame :: frames) v
  end.

Definition valid (v : findExpressionValidator) : bool :=
  if fv_invalid v then false
  else match fv_frames v with
       | [frame] => negb (fv_sawToken v) || negb (incomplete frame)
       | _ => false
       end.

Definition isFindOperator (value : string) : bool :=
  in_list value ["!"; "("; ")"; "\("; "\)"; ","; "-a"; "-and"; "-o"; "-or"; "-not"].

Definition isFindExpressionToken (value : string) : bool := HasPrefix value "-" || isFindOperator value.

(** ** Tests *)

Inductive findPredicateOperandRole := findPredicateInert | findPredicateReadPath.

Record findPredicateDescriptor := { fp_arity : nat; fp_operandRole : findPredicateOperandRole }.

Definition find_flags : string :=
  " -true -false -empty -readable -writable -executable -nouser -nogroup -xdev -mount -depth -daystart -ignore_readdir_race -noignore_readdir_race -follow ".
Definition find_tests : string :=
  " -amin -anewer -atime -cmin -cnewer -context -ctime -fstype -gid -group -ilname -iname -inum -ipath -iregex -links -lname -maxdepth -mindepth -mmin -mtime -name -newer -path -perm -regex -regextype -samefile -size -type -uid -used -user -wholename -xattrname -xtype ".

(** [-newerXY]: the letters after the prefix. *)
Definition newer_letters (value : string) : option (ascii * ascii) :=
  match CutPrefix value "-newer" with
  | Some (String x (String y "")) => if ContainsByte "aBcm" x && ContainsByte "aBcmt" y then Some (x, y) else None
  | _ => None
  end.

Definition describeFindPredicate (value : string) : option findPredicateDescriptor :=
  if Contains find_flags (" " +:+ value +:+ " ") then Some {| fp_arity := 0; fp_operandRole := findPredicateInert |}
  else if Contains find_tests (" " +:+ value +:+ " ") then
    Some {| fp_arity := 1;
            fp_operandRole := if in_list value ["-newer"; "-anewer"; "-cnewer"; "-samefile"]
                              then findPredicateReadPath else findPredicateInert |}
  else match newer_letters value with
       | Some (_, y) =>
           Some {| fp_arity := 1;
                   fp_operandRole := if Ascii.eqb y "t" then findPredicateInert else findPredicateReadPath |}
       | None => None
       end.

(** ** What an expression holds *)

Inductive findActionKind := findReadAction | findWriteAction | findCallbackAction | findDeleteAction | findUnsupportedAction.
Inductive findCallbackTerminator := findCallbackSemicolon | findCallbackBatch.

Record findRoot := { fd_value : string; fd_sourceArg : nat }.
Record findCallback := {
  cb_argv : list string;
  cb_sourceArg : nat;
  cb_execDir : bool;
  cb_terminator : findCallbackTerminator;
}.
Record findAction := { fa_kind : findActionKind; fa_index : nat; fa_end : nat; fa_callback : nat }.

Record findActionParseResult := {
  f_roots : list findRoot;
  f_outputs : list string;
  f_readPaths : list string;
  f_callbacks : list findCallback;
  f_actions : list findAction;
  f_expressionStart : nat;
  f_uncertaintyReason : string;
  f_traversalUncertain : bool;
  f_hasLeadingOptions : bool;
  f_exactScopedDeletionManaged : bool;
  f_exactScopedDeletion : bool;
  f_exactDeletionExecutableArg : nat;
  f_scopedDeletionRoot : string;
}.

Definition find_nothing : findActionParseResult :=
  {| f_roots := []; f_outputs := []; f_readPaths := []; f_callbacks := []; f_actions := []; f_expressionStart := 0;
     f_uncertaintyReason := ""; f_traversalUncertain := false; f_hasLeadingOptions := false;
     f_exactScopedDeletionManaged := false; f_exactScopedDeletion := false; f_exactDeletionExecutableArg := 0;
     f_scopedDeletionRoot := "" |}.

(** [parsed.outputs = append(...)] and the other appends. *)
Definition add_found (roots : list findRoot) (outputs readPaths : list string) (callbacks : list findCallback)
    (actions : list findAction) (p : findActionParseResult) : findActionParseResult :=
  {| f_roots := f_roots p ++ roots; f_outputs := f_outputs p ++ outputs; f_readPaths := f_readPaths p ++ readPaths;
     f_callbacks := f_callbacks p ++ callbacks; f_actions := f_actions p ++ actions;
     f_expressionStart := f_expressionStart p; f_uncertaintyReason := f_uncertaintyReason p;
     f_traversalUncertain := f_traversalUncertain p; f_hasLeadingOptions := f_hasLeadingOptions p;
     f_exactScopedDeletionManaged := f_exactScopedDeletionManaged p;
     f_exactScopedDeletion := f_exactScopedDeletion p;
     f_exactDeletionExecutableArg := f_exactDeletionExecutableArg p; f_scopedDeletionRoot := f_scopedDeletionRoot p |}.
Definition set_find (start : nat) (reason : string) (traversal leading managed exact : bool) (arg : nat)
    (root : string) (p : findActionParseResult) : findActionParseResult :=
  {| f_roots := f_roots p; f_outputs := f_outputs p; f_readPaths := f_readPaths p; f_callbacks := f_callbacks p;
     f_actions := f_actions p; f_expressionStart := start; f_uncertaintyReason := reason;
     f_traversalUncertain := traversal; f_hasLeadingOptions := leading; f_exactScopedDeletionManaged := managed;
     f_exactScopedDeletion := exact; f_exactDeletionExecutableArg := arg; f_scopedDeletionRoot := root |}.

Definition noteUncertainty (reason : string) (p : findActionParseResult) : findActionParseResult :=
  if f_uncertaintyReason p =s? "" then
    set_find (f_expressionStart p) reason (f_traversalUncertain p) (f_hasLeadingOptions p)
      (f_exactScopedDeletionManaged p) (f_exactScopedDeletion p) (f_exactDeletionExecutableArg p)
      (f_scopedDeletionRoot p) p
  else p.
Definition note_traversal (p : findActionParseResult) : findActionParseResult :=
  set_find (f_expressionStart p) (f_uncertaintyReason p) true (f_hasLeadingOptions p) (f_exactScopedDeletionManaged p)
    (f_exactScopedDeletion p) (f_exactDeletionExecutableArg p) (f_scopedDeletionRoot p) p.
Definition note_leading (p : findActionParseResult) : findActionParseResult :=
  set_find (f_expressionStart p) (f_uncertaintyReason p) (f_traversalUncertain p) true (f_exactScopedDeletionManaged p)
    (f_exactScopedDeletion p) (f_exactDeletionExecutableArg p) (f_scopedDeletionRoot p) p.
Definition note_managed (p : findActionParseResult) : findActionParseResult :=
  set_find (f_expressionStart p) (f_uncertaintyReason p) (f_traversalUncertain p) (f_hasLeadingOptions p) true
    (f_exactScopedDeletion p) (f_exactDeletionExecutableArg p) (f_scopedDeletionRoot p) p.
Definition start_at (i : nat) (p : findActionParseResult) : findActionParseResult :=
  set_find i (f_uncertaintyReason p) (f_traversalUncertain p) (f_hasLeadingOptions p) (f_exactScopedDeletionManaged p)
    (f_exactScopedDeletion p) (f_exactDeletionExecutableArg p) (f_scopedDeletionRoot p) p.
Definition scoped (exact : bool) (arg : nat) (root : string) (p : findActionParseResult) : findActionParseResult :=
  set_find (f_expressionStart p) (f_uncertaintyReason p) (f_traversalUncertain p) (f_hasLeadingOptions p)
    (f_exactScopedDeletionManaged p) exact arg root p.

(** ** Reading the words *)

Definition is_optimization (arg : string) : bool :=
  match CutPrefix arg "-O" with
  | Some (String c "") => byte_in "0" "3" c
  | _ => false
  end.

(** The leading options: what they note, and where the roots begin. *)
Fixpoint find_leading (i : nat) (args : list string) (p : findActionParseResult)
    : findActionParseResult * nat * list string :=
  match args with
  | [] => (p, i, [])
  | arg :: rest =>
      if arg =s? "-P" then find_leading (S i) rest (note_leading p)
      else if (arg =s? "-H") || (arg =s? "-L") then find_leading (S i) rest (note_traversal (note_leading p))
      else if arg =s? "-D" then
        match rest with
        | [] => (noteUncertainty "find leading option is missing its value" (note_leading p), S i, [])
        | _ :: rest => find_leading (S (S i)) rest (note_leading p)
        end
      else if is_optimization arg then find_leading (S i) rest (note_leading p)
      else (p, i, args)
  end.

Fixpoint find_roots (i : nat) (args : list string) (p : findActionParseResult)
    : findActionParseResult * nat * list string :=
  match args with
  | [] => (p, i, [])
  | arg :: rest =>
      if isFindExpressionToken arg then (p, i, args)
      else find_roots (S i) rest (add_found [{| fd_value := arg; fd_sourceArg := i |}] [] [] [] [] p)
  end.

(** [parseFindCallback]: the words of the callback and how it ends. *)
Fixpoint callback_words (args : list string) : option (list string * findCallbackTerminator) :=
  match args with
  | [] => None
  | arg :: rest =>
      if in_list arg [";"; "\;"] then Some ([], findCallbackSemicolon)
      else if arg =s? "+" then Some ([], findCallbackBatch)
      else match callback_words rest with
           | Some (words, t) => Some (arg :: words, t)
           | None => None
           end
  end.

Definition parseFindCallback (i : nat) (rest : list string) : option findCallback :=
  match callback_words rest with
  | Some ([], _) | None => None
  | Some (words, t) => Some {| cb_argv := words; cb_sourceArg := S i; cb_execDir := false; cb_terminator := t |}
  end.

Definition with_execDir (b : bool) (c : findCallback) : findCallback :=
  {| cb_argv := cb_argv c; cb_sourceArg := cb_sourceArg c; cb_execDir := b; cb_terminator := cb_terminator c |}.

Definition is_placeholder (arg : string) : bool := arg =s? "{}".

Definition last_is_placeholder (argv : list string) : bool :=
  match last argv with Some arg => is_placeholder arg | None => false end.

Definition validFindBatchCallback (argv : list string) : bool :=
  (length (List.filter is_placeholder argv) =? 1)%nat && last_is_placeholder argv.

Definition action (kind : findActionKind) (i consumed callback : nat) : findAction :=
  {| fa_kind := kind; fa_index := i; fa_end := i + consumed + 1; fa_callback := callback |}.

Definition find_state : Type := findActionParseResult * findExpressionValidator.

(** An action that takes [count] words, or the reason it is not one. *)
Definition find_arguments (count : nat) (missing : string) (rest : list string)
    (found : findActionParseResult -> findActionParseResult) (p : findActionParseResult)
    : findActionParseResult * nat :=
  if (length rest <? count)%nat then (noteUncertainty missing p, 0%nat) else (found p, count).

Definition asks_first (arg : string) : bool := (arg =s? "-ok") || (arg =s? "-okdir").

Definition note_callback (arg : string) (callback : findCallback) (p : findActionParseResult) : findActionParseResult :=
  let p := match cb_terminator callback with
           | findCallbackBatch =>
               if validFindBatchCallback (cb_argv callback) then p
               else noteUncertainty "find batch callback requires exactly one final placeholder" p
           | findCallbackSemicolon => p
           end in
  if asks_first arg then noteUncertainty "find callback requires unsupported execution semantics" p else p.

Definition is_rm (argv : list string) : bool := match argv with command :: _ => command =s? "rm" | [] => false end.

Definition find_callback (i : nat) (arg : string) (rest : list string) (p : findActionParseResult)
    : findActionParseResult * nat :=
  match parseFindCallback i rest with
  | None => (noteUncertainty "find callback is empty or unterminated" p, 0%nat)
  | Some callback =>
      let callback := with_execDir ((arg =s? "-execdir") || (arg =s? "-okdir")) callback in
      let p := note_callback arg callback p in
      let consumed := S (length (cb_argv callback)) in
      let kind := if asks_first arg then findUnsupportedAction else findCallbackAction in
      let p := add_found [] [] [] [callback] [action kind i consumed (length (f_callbacks p))] p in
      (if is_rm (cb_argv callback) then note_managed p else p, consumed)
  end.

(** One turn of the loop over the expression: the words it consumed after [arg]. *)
Definition find_turn (i : nat) (arg : string) (rest : list string) (st : find_state) : find_state * nat :=
  let '(p, v) := st in
  if isFindOperator arg then ((p, validate v (operator_event arg)), 0%nat)
  else
    let v := validate v EOperand in
    let '(p, consumed) :=
      match describeFindPredicate arg with
      | Some predicate =>
          let p := if arg =s? "-follow" then note_traversal p else p in
          if (length rest <? fp_arity predicate)%nat
          then (noteUncertainty "find predicate is missing its value" p, 0%nat)
          else (match fp_operandRole predicate, rest with
                | findPredicateReadPath, value :: _ => add_found [] [] [value] [] [] p
                | _, _ => p
                end, fp_arity predicate)
      | None =>
          if in_list arg ["-print"; "-print0"; "-ls"; "-prune"; "-quit"] then
            (add_found [] [] [] [] [action findReadAction i 0 0] p, 0%nat)
          else if arg =s? "-printf" then
            find_arguments 1 "find -printf is missing its format" rest
              (add_found [] [] [] [] [action findReadAction i 1 0]) p
          else if in_list arg ["-fprint"; "-fprint0"; "-fls"] then
            find_arguments 1 "find file-output action is missing its destination" rest
              (add_found [] (take 1 rest) [] [] [action findWriteAction i 1 0]) p
          else if arg =s? "-fprintf" then
            find_arguments 2 "find -fprintf is missing its destination or format" rest
              (add_found [] (take 1 rest) [] [] [action findWriteAction i 2 0]) p
          else if arg =s? "-delete" then
            (add_found [] [] [] [] [action findDeleteAction i 0 0] (note_managed p), 0%nat)
          else if in_list arg ["-exec"; "-execdir"; "-ok"; "-okdir"] then find_callback i arg rest p
          else (noteUncertainty "find expression contains unknown grammar" p, 0%nat)
      end in
    ((p, v), consumed).

Fixpoint find_expression (i skip : nat) (args : list string) (st : find_state) : find_state :=
  match args with
  | [] => st
  | arg :: rest =>
      match skip with
      | S skip => find_expression (S i) skip rest st
      | O => let '(st, skip) := find_turn i arg rest st in find_expression (S i) skip rest st
      end
  end.

(** ** Deletions with an exact scope *)

Definition trimmed_away (s cutset : string) : bool := all_bytes (ContainsByte cutset) s.

Definition knownFindRmOption (arg : string) : bool :=
  match arg with
  | String _ (String c t) =>
      (negb (Ascii.eqb c "-") && trimmed_away (String c t) "dfirvIR") ||
      in_list arg ["--directory"; "--force"; "--interactive"; "--one-file-system"; "--no-preserve-root";
                   "--preserve-root"; "--preserve-root=all"; "--recursive"; "--verbose";
                   "--interactive=always"; "--interactive=never"; "--interactive=once"]
  | _ => false
  end.

Fixpoint Count (s : string) (c : ascii) : nat :=
  match s with "" => 0 | String b t => (if Ascii.eqb b c then 1 else 0) + Count t c end.

Definition type_list (value : string) : bool :=
  trimmed_away value "bcdflpsD," && (String.length value =? 2 * Count value "," + 1)%nat.

Fixpoint knownFindTests (argv : list string) : bool :=
  match argv with
  | [] => true
  | arg :: rest =>
      match describeFindPredicate arg with
      | None => false
      | Some predicate =>
          if (fp_arity predicate =? 0)%nat && (arg <>s? "-follow") then knownFindTests rest
          else match rest with
               | value :: rest =>
                   if negb (fp_arity predicate =? 1)%nat then false
                   else if in_list arg ["-type"; "-xtype"] && negb (type_list value) then false
                   else if in_list arg ["-maxdepth"; "-mindepth"] && negb (allDigits value) then false
                   else knownFindTests rest
               | [] => false
               end
      end
  end.

Definition exact_removal (argv : list string) (callback : findCallback) : bool :=
  let words := cb_argv callback in
  is_rm words && (2 <=? length words)%nat &&
  match argv !! cb_sourceArg callback with Some word => word =s? "rm" | None => false end &&
  forallb (fun arg => knownFindRmOption arg || is_placeholder arg) (tail words) && last_is_placeholder words.

Definition classifyExactScopedDeletion (argv : list string) (p : findActionParseResult) : findActionParseResult :=
  if negb (f_exactScopedDeletionManaged p) || (f_uncertaintyReason p <>s? "") || f_traversalUncertain p ||
     f_hasLeadingOptions p then p
  else
    match f_roots p, f_actions p with
    | [root], [a] =>
        if negb (fa_end a =? length argv)%nat ||
           negb (knownFindTests (take (fa_index a - f_expressionStart p) (drop (f_expressionStart p) argv))) then p
        else
          match fa_kind a with
          | findDeleteAction => scoped true (f_exactDeletionExecutableArg p) (fd_value root) p
          | findCallbackAction =>
              match f_callbacks p !! fa_callback a with
              | Some callback =>
                  if exact_removal argv callback then scoped true (cb_sourceArg callback) (fd_value root) p else p
              | None => p
              end
          | _ => p
          end
    | _, _ => p
    end.

Definition parseFindActions (argv : list string) : findActionParseResult :=
  if head argv <>s? "find" then find_nothing
  else
    let '(p, i, args) := find_leading 1 (tail argv) find_nothing in
    let '(p, i, args) := find_roots i args p in
    let '(p, v) := find_expression i 0 args (start_at i p, newFindExpressionValidator) in
    let p := if valid v then p else noteUncertainty "find expression structure is invalid" p in
    classifyExactScopedDeletion argv p.

(** ** Callbacks as commands *)

Section Callbacks.
Context (literalText : string -> bool).

Definition applySourceProvenance (outer : Simple) (p : findActionParseResult) : findActionParseResult :=
  let arg := f_exactDeletionExecutableArg p in
  if negb (f_exactScopedDeletion p) || (arg =? 0)%nat then p
  else if bool_decide (arg ∈ s_resolvedArgs outer) || wordUnresolved literalText outer arg
       then scoped false arg (f_scopedDeletionRoot p) p
  else p.

(** Where the placeholder stands for, if it can be said. *)
Definition placeholder_root (outer : Simple) (tc : ToolCall) (p : findActionParseResult) : option string :=
  match f_roots p with
  | [root] =>
      if s_cwdUnknown outer || f_traversalUncertain p || wordUnresolved literalText outer (fd_sourceArg root) then None
      else Some (resolvePath (fd_value root) (simpleCwd outer tc))
  | _ => None
  end.

Fixpoint callback_argv (outer : Simple) (tc : ToolCall) (argv : list string) (p : findActionParseResult)
    : list string * findActionParseResult :=
  match argv with
  | [] => ([], p)
  | arg :: rest =>
      let '(arg, p) :=
        if is_placeholder arg then
          match placeholder_root outer tc p with
          | Some root => (root, p)
          | None => (arg, noteUncertainty "find callback placeholder cannot be rooted soundly" p)
          end
        else (arg, if Contains arg "{}" then noteUncertainty "find callback contains a transforming placeholder" p
                   else p) in
      let '(rest, p) := callback_argv outer tc rest p in
      (arg :: rest, p)
  end.

Fixpoint adapt_callbacks (outer : Simple) (tc : ToolCall) (callbacks : list findCallback) (p : findActionParseResult)
    : findActionParseResult * list Simple :=
  match callbacks with
  | [] => (p, [])
  | callback :: rest =>
      let '(argv, p) := callback_argv outer tc (cb_argv callback) p in
      let s := as_callback (cb_execDir callback) (commandDerivedFromAt outer argv (Some (cb_sourceArg callback))) in
      let '(p, rest) := adapt_callbacks outer tc rest p in
      (p, s :: rest)
  end.

Definition adaptFindCallbacks (p : findActionParseResult) (outer : Simple) (tc : ToolCall)
    : findActionParseResult * list Simple :=
  adapt_callbacks outer tc (f_callbacks p) p.

(** ** The analysis of a command ([analyzeBash] of [rules_bash.go]) *)

Record findEvaluation := { fe_parsed : findActionParseResult; fe_callbacks : list Simple }.

(** [finds] holds, for each command of [simples], its reading as [find]. *)
Record bashAnalysis := {
  ba_simples : list (Simple * option findEvaluation);
  ba_orderedSimples : list Simple;
  ba_err : bool;
}.

Definition find_evaluation (tc : ToolCall) (s : Simple) : option findEvaluation :=
  if head (s_Argv s) <>s? "find" then None
  else
    let parsed := applySourceProvenance s (parseFindActions (s_Argv s)) in
    let '(parsed, callbacks) := adaptFindCallbacks parsed s tc in
    Some {| fe_parsed := parsed; fe_callbacks := callbacks |}.

(** From the commands the normalization returned; [None] is its error. *)
Definition analyze_simples (tc : ToolCall) (normalized : option (list Simple)) : bashAnalysis :=
  match normalized with
  | None => {| ba_simples := []; ba_orderedSimples := []; ba_err := true |}
  | Some simples =>
      {| ba_simples := map (fun s => (s, find_evaluation tc s)) simples;
         ba_orderedSimples := flat_map (fun s => s :: match find_evaluation tc s with
                                                     | Some fe => fe_callbacks fe
                                                     | None => []
                                                     end) simples;
         ba_err := false |}
  end.
End Callbacks.

(** ** The grammar of expressions *)

Inductive find_unit : list event -> Prop :=
| unit_operand : find_unit [EOperand]
| unit_not u : find_unit u -> find_unit (ENot :: u)
| unit_paren e : find_expr e -> find_unit (EOpen :: e ++ [EClose])
with find_expr : list event -> Prop :=
| expr_unit u : find_unit u -> find_expr u
| expr_next e u : find_expr e -> find_unit u -> find_expr (e ++ u)
| expr_binary e u : find_expr e -> find_unit u -> find_expr (e ++ EBinary :: u).

Scheme find_unit_ind' := Induction for find_unit Sort Prop
with find_expr_ind' := Induction for find_expr Sort Prop.
Combined Scheme find_grammar_ind from find_unit_ind', find_expr_ind'.

Definition run (v : findExpressionValidator) (es : list event) : findExpressionValidator := fold_left validate es v.

Lemma run_app v es es' : run v (es ++ es') = run (run v es) es'.
Proof. apply fold_left_app. Qed.

Lemma validate_step v f fs e :
  fv_frames v = f :: fs ->
  validate v e =
  match e with
  | EOperand => with_frames (full_frame :: fs) v
  | ENot => with_frames (wanting f :: fs) v
  | EOpen => with_frames (open_frame :: f :: fs) v
  | EClose => match fs with
              | [] => invalidated v
              | _ :: fs => if incomplete f then invalidated v else with_frames (full_frame :: fs) v
              end
  | EBinary => if incomplete f then invalidated v else with_frames (wanting f :: fs) v
  end.
Proof. intros Hv. unfold validate. rewrite Hv. by destruct e, fs. Qed.

(** Reading a unit or an expression completes the frame it is read in. *)
Lemma grammar_run :
  (forall es, find_unit es -> forall f fs v, fv_frames v = f :: fs ->
     run v es = with_frames (full_frame :: fs) v) /\
  (forall es, find_expr es -> forall f fs v, fv_frames v = f :: fs ->
     run v es = with_frames (full_frame :: fs) v).
Proof.
  assert (Hcons : forall v e es, run v (e :: es) = run (validate v e) es) by done.
  apply find_grammar_ind.
  - intros f fs v Hv. rewrite Hcons. by rewrite (validate_step v f fs).
  - intros u _ IH f fs v Hv. rewrite Hcons, (validate_step v f fs) by done. by rewrite (IH (wanting f) fs).
  - intros e _ IH f fs v Hv. rewrite Hcons, (validate_step v f fs) by done.
    rewrite run_app, (IH open_frame (f :: fs)) by done. reflexivity.
  - intros u _ IH. exact IH.
  - intros e u _ IHe _ IHu f fs v Hv. rewrite run_app, (IHe f fs v Hv), (IHu full_frame fs) by done. done.
  - intros e u _ IHe _ IHu f fs v Hv. rewrite run_app, (IHe f fs v Hv), Hcons.
    rewrite (validate_step _ full_frame fs) by done. cbn [incomplete full_frame fr_hasOperand fr_needsOperand negb orb].
    by rewrite (IHu (wanting full_frame) fs).
Qed.

(** The words read so far, frame by frame, innermost first: an expression, or
    what a unit completes to one. *)
Definition frame_reads (f : findExpressionFrame) (seg : list event) : Prop :=
  (forall u, find_unit u -> find_expr (seg ++ u)) /\ (incomplete f = false -> find_expr seg).

Inductive frames_read : list findExpressionFrame -> list event -> Prop :=
| read_outer f seg : frame_reads f seg -> frames_read [f] seg
| read_inner f seg fs outer :
    frame_reads f seg -> frames_read fs outer -> frames_read (f :: fs) (outer ++ EOpen :: seg).

Lemma frame_reads_expr f seg : find_expr seg -> frame_reads f seg.
Proof. intros H. split; [|done]. intros u Hu. by apply expr_next. Qed.

Lemma frame_reads_wanting f seg : (forall u, find_unit u -> find_expr (seg ++ u)) -> frame_reads (wanting f) seg.
Proof.
  intros H. split; [done|]. unfold incomplete, wanting. cbn. by rewrite orb_true_r.
Qed.

(** The innermost frame of the words read so far. *)
Lemma frames_read_top f fs es :
  frames_read (f :: fs) es ->
  exists outer seg, es = outer ++ seg /\ frame_reads f seg /\
    forall f' seg', frame_reads f' seg' -> frames_read (f' :: fs) (outer ++ seg').
Proof.
  inversion 1 as [? seg Hf|? seg ? outer Hf Ho]; subst.
  - exists [], es. split; [done|]. split; [done|]. intros. by apply read_outer.
  - exists (outer ++ [EOpen]), seg. rewrite <- app_assoc. split; [done|]. split; [done|].
    intros f' seg' H'. rewrite <- app_assoc. by apply read_inner.
Qed.

(** A closing parenthesis makes the innermost frame a unit of the next one. *)
Lemma close_reads f f' fs es :
  incomplete f = false -> frames_read (f :: f' :: fs) es -> frames_read (full_frame :: fs) (es ++ [EClose]).
Proof.
  intros Hi Hr. inversion Hr as [|? seg ? outer Hf Ho]; subst.
  destruct (frames_read_top f' fs outer Ho) as (outer2 & seg2 & -> & [Hunit _] & Hback).
  rewrite <- !app_assoc. apply Hback, frame_reads_expr, Hunit. by apply unit_paren, Hf.
Qed.

Lemma validate_reads v e es :
  fv_invalid (validate v e) = false -> fv_invalid v = false ->
  frames_read (fv_frames v) es -> frames_read (fv_frames (validate v e)) (es ++ [e]).
Proof.
  intros Hn Hv Hr. destruct (fv_frames v) as [|f fs] eqn:Ef; [inversion Hr|].
  rewrite (validate_step v f fs e Ef) in *.
  destruct (frames_read_top f fs es Hr) as (outer & seg & Hes & [Hunit Hexpr] & Hback). destruct e.
  - rewrite Hes, <- app_assoc. apply Hback, frame_reads_expr, Hunit, unit_operand.
  - rewrite Hes, <- app_assoc. apply Hback, frame_reads_wanting. intros u Hu. rewrite <- app_assoc.
    by apply Hunit, unit_not.
  - apply read_inner; [|done]. split; [|done]. intros u Hu. by apply expr_unit.
  - destruct fs as [|f' fs]; [done|]. destruct (incomplete f) eqn:Ei; [done|]. by apply (close_reads f f').
  - destruct (incomplete f) eqn:Ei; [done|]. rewrite Hes, <- app_assoc. apply Hback, frame_reads_wanting.
    intros u Hu. rewrite <- app_assoc. by apply expr_binary; [apply Hexpr|].
Qed.

Lemma validate_sticky v e : fv_invalid v = true -> fv_invalid (validate v e) = true.
Proof. intros H. unfold validate. by repeat case_match. Qed.

Lemma validate_saw v e : fv_frames v <> [] -> fv_sawToken (validate v e) = true.
Proof. intros H. unfold validate. by repeat case_match. Qed.

Lemma run_reads es :
  let v := run newFindExpressionValidator es in
  fv_invalid v = false -> frames_read (fv_frames v) es /\ (es <> [] -> fv_sawToken v = true).
Proof.
  cbn zeta. induction es as [|e es IH] using rev_ind.
  - intros _. split; [|done]. apply read_outer. split; [|done]. intros u Hu. by apply expr_unit.
  - rewrite run_app. cbn [run fold_left]. intros Hn.
    assert (Hv : fv_invalid (run newFindExpressionValidator es) = false).
    { destruct (fv_invalid (run newFindExpressionValidator es)) eqn:E; [|done].
      by rewrite (validate_sticky _ e E) in Hn. }
    destruct (IH Hv) as [Hr _]. split; [by apply validate_reads|]. intros _. apply validate_saw.
    intros E. rewrite E in Hr. inversion Hr.
Qed.

(** ** Lemmas: where the actions stand *)

(** An action is recorded at the words it was read from. *)
Definition action_at (argv : list string) (callbacks : list findCallback) (a : findAction) : Prop :=
  match fa_kind a with
  | findDeleteAction => exists rest, drop (fa_index a) argv = "-delete" :: rest /\ fa_end a = S (fa_index a)
  | findCallbackAction =>
      exists cb word t rest, callbacks !! fa_callback a = Some cb /\
        drop (fa_index a) argv = word :: cb_argv cb ++ t :: rest /\
        word ∈ ["-exec"; "-execdir"] /\ t ∈ [";"; "\;"; "+"] /\ cb_sourceArg cb = S (fa_index a) /\
        fa_end a = (fa_index a + length (cb_argv cb) + 2)%nat
  | _ => True
  end.

Definition actions_at (argv : list string) (p : findActionParseResult) : Prop :=
  Forall (action_at argv (f_callbacks p)) (f_actions p).

(** What a turn may change without touching roots, callbacks and actions. *)
Definition same_found (p p' : findActionParseResult) : Prop :=
  f_callbacks p' = f_callbacks p /\ f_actions p' = f_actions p.

Lemma same_found_at argv p p' : same_found p p' -> actions_at argv p -> actions_at argv p'.
Proof. unfold actions_at. by intros [-> ->]. Qed.

Lemma note_found reason p : same_found p (noteUncertainty reason p).
Proof. unfold noteUncertainty. by destruct (_ =s? _). Qed.

Lemma action_at_grows argv callbacks more a : action_at argv callbacks a -> action_at argv (callbacks ++ more) a.
Proof.
  unfold action_at. destruct (fa_kind a); try done. intros (cb & word & t & rest & Hcb & H).
  exists cb, word, t, rest. split; [|done]. by apply lookup_app_l_Some.
Qed.

Lemma actions_at_more argv p roots outputs reads callbacks actions :
  actions_at argv p -> Forall (action_at argv (f_callbacks p ++ callbacks)) actions ->
  actions_at argv (add_found roots outputs reads callbacks actions p).
Proof.
  intros H Ha. apply Forall_app. split; [|exact Ha].
  eapply Forall_impl; [exact H|]. intros a. by apply action_at_grows.
Qed.

Lemma callback_words_spec args words t :
  callback_words args = Some (words, t) -> exists w rest, args = words ++ w :: rest /\ w ∈ [";"; "\;"; "+"].
Proof.
  revert words. induction args as [|arg args IH]; intros words; cbn [callback_words]; [done|].
  destruct (in_list arg [";"; "\;"]) eqn:E1.
  { intros [= <- <-]. exists arg, args. split; [done|]. apply in_list_true in E1. set_solver. }
  destruct (arg =s? "+") eqn:E2.
  { intros [= <- <-]. apply String.eqb_eq in E2 as ->. exists "+", args. split; [done|]. set_solver. }
  destruct (callback_words args) as [[ws t']|]; [|done]. intros [= <- ->].
  destruct (IH ws eq_refl) as (w & rest & -> & Hw). by exists w, rest.
Qed.

Lemma note_callback_found arg cb p : same_found p (note_callback arg cb p).
Proof.
  unfold note_callback. assert (Ht : forall q r, same_found p q -> same_found p (noteUncertainty r q)).
  { intros q r [H1 H2]. destruct (note_found r q) as [H3 H4]. split; congruence. }
  destruct (asks_first arg); destruct (cb_terminator cb); try destruct (validFindBatchCallback _);
    repeat apply Ht; done.
Qed.

Lemma find_callback_at argv i arg rest p :
  drop i argv = arg :: rest -> arg ∈ ["-exec"; "-execdir"; "-ok"; "-okdir"] -> actions_at argv p ->
  actions_at argv (find_callback i arg rest p).1.
Proof.
  intros Hi Harg Hp. unfold find_callback, parseFindCallback.
  destruct (callback_words rest) as [[[|w ws] t]|] eqn:Ew; try exact (same_found_at _ _ _ (note_found _ _) Hp).
  apply callback_words_spec in Ew as (stop & more & -> & Hstop).
  set (cb := with_execDir _ _). set (p2 := note_callback arg cb p).
  assert (H2 : actions_at argv p2) by exact (same_found_at _ _ _ (note_callback_found arg cb p) Hp).
  assert (Hadd : actions_at argv (add_found [] [] [] [cb]
    [action (if asks_first arg then findUnsupportedAction else findCallbackAction) i (S (length (cb_argv cb)))
       (length (f_callbacks p2))] p2)).
  { apply actions_at_more; [done|]. constructor; [|constructor]. unfold action_at.
    destruct (asks_first arg) eqn:Ec; cbn [fa_kind action]; [done|].
    exists cb, arg, stop, more. cbn [fa_callback fa_index fa_end action].
    split; [by rewrite lookup_app_r, Nat.sub_diag by done|]. rewrite Hi. split; [done|].
    split; [|split; [done|split; [done|cbn; lia]]]. apply orb_false_iff in Ec as [E1 E2]. breflect. set_solver. }
  cbn [fst]. by destruct (is_rm (cb_argv cb)).
Qed.

Lemma find_turn_at argv i arg rest st :
  drop i argv = arg :: rest -> actions_at argv st.1 -> actions_at argv (find_turn i arg rest st).1.1.
Proof.
  intros Hi Hp. destruct st as [p v]. cbn [fst] in Hp. unfold find_turn. destruct (isFindOperator arg); [done|].
  assert (Hread : forall k roots outs reads n, actions_at argv p ->
    k = findReadAction \/ k = findWriteAction -> actions_at argv (add_found roots outs reads [] [action k i n 0] p)).
  { intros k roots outs reads n H Hk. apply actions_at_more; [done|]. constructor; [|constructor].
    unfold action_at. by destruct Hk as [-> | ->]. }
  assert (Hargs : forall n msg f, actions_at argv (f p) -> actions_at argv (find_arguments n msg rest f p).1).
  { intros n msg f Hf. unfold find_arguments. destruct (_ <? _)%nat; [|done].
    exact (same_found_at _ _ _ (note_found _ _) Hp). }
  destruct (describeFindPredicate arg) as [predicate|].
  { assert (Hf : same_found p (if arg =s? "-follow" then note_traversal p else p)) by by destruct (arg =s? "-follow").
    destruct (_ <? _)%nat; [exact (same_found_at _ _ _ (note_found _ _) (same_found_at _ _ _ Hf Hp))|].
    destruct (fp_operandRole predicate); [by apply (same_found_at argv p)|]. destruct rest; [by apply (same_found_at argv p)|].
    apply actions_at_more; [by apply (same_found_at argv p)|constructor]. }
  destruct (in_list arg ["-print"; "-print0"; "-ls"; "-prune"; "-quit"]); [apply Hread; auto|].
  assert (Hout : forall n msg k outs, k = findReadAction \/ k = findWriteAction ->
    actions_at argv (let '(q, _) := find_arguments n msg rest (add_found [] outs [] [] [action k i n 0]) p in q)).
  { intros n msg k outs Hk. pose proof (Hargs n msg _ (Hread k [] outs [] n Hp Hk)) as H. by destruct (find_arguments _ _ _ _ _). }
  destruct (arg =s? "-printf").
  { pose proof (Hout 1%nat "find -printf is missing its format" findReadAction [] (or_introl eq_refl)).
    by destruct (find_arguments _ _ _ _ _). }
  destruct (in_list arg ["-fprint"; "-fprint0"; "-fls"]).
  { pose proof (Hout 1%nat "find file-output action is missing its destination" findWriteAction (take 1 rest) (or_intror eq_refl)).
    by destruct (find_arguments _ _ _ _ _). }
  destruct (arg =s? "-fprintf").
  { pose proof (Hout 2%nat "find -fprintf is missing its destination or format" findWriteAction (take 1 rest) (or_intror eq_refl)).
    by destruct (find_arguments _ _ _ _ _). }
  destruct (String.eqb_spec arg "-delete") as [->|].
  { apply (actions_at_more argv (note_managed p)); [done|]. constructor; [|constructor].
    exists rest. split; [done|]. cbn. lia. }
  destruct (in_list arg ["-exec"; "-execdir"; "-ok"; "-okdir"]) eqn:Ee.
  { pose proof (find_callback_at argv i arg rest p Hi (proj1 (in_list_true _ _) Ee) Hp) as H.
    by destruct (find_callback i arg rest p). }
  exact (same_found_at _ _ _ (note_found _ _) Hp).
Qed.

Lemma find_expression_at argv args : forall i skip st,
  drop i argv = args -> actions_at argv st.1 -> actions_at argv (find_expression i skip args st).1.
Proof.
  induction args as [|arg rest IH]; intros i skip st Hi Hp; [done|]. cbn [find_expression].
  assert (Hnext : drop (S i) argv = rest) by (rewrite <- Nat.add_1_r, <- drop_drop, Hi; done).
  destruct skip as [|skip]; [|by apply IH].
  pose proof (find_turn_at argv i arg rest st Hi Hp) as H. destruct (find_turn i arg rest st) as [st' k]. by apply IH.
Qed.

(** ** Lemmas: the frame of an expression *)

(** What reading the expression leaves alone. *)
Definition same_frame (p p' : findActionParseResult) : Prop :=
  f_roots p' = f_roots p /\ f_expressionStart p' = f_expressionStart p /\
  f_hasLeadingOptions p' = f_hasLeadingOptions p /\ f_exactScopedDeletion p' = f_exactScopedDeletion p.

Lemma same_frame_trans p1 p2 p3 : same_frame p1 p2 -> same_frame p2 p3 -> same_frame p1 p3.
Proof. unfold same_frame. intuition congruence. Qed.

Lemma note_frame reason p : same_frame p (noteUncertainty reason p).
Proof. unfold noteUncertainty. by destruct (_ =s? _). Qed.

Lemma add_frame outs reads cbs acts p : same_frame p (add_found [] outs reads cbs acts p).
Proof. unfold same_frame. cbn. by rewrite app_nil_r. Qed.

Lemma note_callback_frame arg cb p : same_frame p (note_callback arg cb p).
Proof.
  unfold note_callback. assert (Ht : forall q r, same_frame p q -> same_frame p (noteUncertainty r q)).
  { intros q r H. exact (same_frame_trans _ _ _ H (note_frame r q)). }
  destruct (asks_first arg); destruct (cb_terminator cb); try destruct (validFindBatchCallback _);
    repeat apply Ht; done.
Qed.

Lemma find_callback_frame i arg rest p : same_frame p (find_callback i arg rest p).1.
Proof.
  unfold find_callback. destruct (parseFindCallback i rest) as [cb|]; [|apply note_frame]. cbn [fst].
  assert (Hadd : forall cbs acts, same_frame p (add_found [] [] [] cbs acts
    (note_callback arg (with_execDir ((arg =s? "-execdir") || (arg =s? "-okdir")) cb) p))).
  { intros cbs acts. exact (same_frame_trans _ _ _ (note_callback_frame arg _ p) (add_frame _ _ _ _ _)). }
  destruct (is_rm _); [|apply Hadd]. exact (Hadd _ _).
Qed.

Lemma find_turn_frame i arg rest st : same_frame st.1 (find_turn i arg rest st).1.1.
Proof.
  destruct st as [p v]. unfold find_turn. destruct (isFindOperator arg); [done|].
  assert (Hargs : forall n msg f, same_frame p (f p) -> same_frame p (find_arguments n msg rest f p).1).
  { intros n msg f Hf. unfold find_arguments. destruct (_ <? _)%nat; [apply note_frame|done]. }
  assert (Hout : forall r : findActionParseResult * nat, same_frame p r.1 ->
    same_frame p (let '(q, k) := r in (q, validate v EOperand, k)).1.1) by (intros [q k]; done).
  apply Hout. destruct (describeFindPredicate arg) as [predicate|].
  { assert (Hf : same_frame p (if arg =s? "-follow" then note_traversal p else p)) by by destruct (arg =s? "-follow").
    destruct (_ <? _)%nat; [exact (same_frame_trans _ _ _ Hf (note_frame _ _))|].
    destruct (fp_operandRole predicate); [done|]. destruct rest; [done|].
    exact (same_frame_trans _ _ _ Hf (add_frame _ _ _ _ _)). }
  destruct (in_list arg _); [apply add_frame|]. destruct (arg =s? "-printf"); [apply Hargs, add_frame|].
  destruct (in_list arg _); [apply Hargs, add_frame|]. destruct (arg =s? "-fprintf"); [apply Hargs, add_frame|].
  destruct (arg =s? "-delete"); [exact (same_frame_trans p (note_managed p) _ ltac:(done) (add_frame _ _ _ _ _))|].
  destruct (in_list arg _); [apply find_callback_frame|apply note_frame].
Qed.

Lemma find_expression_frame args : forall i skip st, same_frame st.1 (find_expression i skip args st).1.
Proof.
  induction args as [|arg rest IH]; intros i skip st; [done|]. cbn [find_expression].
  destruct skip as [|skip]; [|apply IH]. pose proof (find_turn_frame i arg rest st) as H.
  destruct (find_turn i arg rest st) as [st' k]. exact (same_frame_trans _ _ _ H (IH _ _ _)).
Qed.

Lemma find_leading_sticky args : forall i p p' i' rest,
  find_leading i args p = (p', i', rest) -> f_hasLeadingOptions p = true -> f_hasLeadingOptions p' = true.
Proof.
  induction args as [args IH] using (induction_ltof1 _ (@length string)). unfold ltof in IH.
  intros i p p' i' rest. destruct args as [|arg args]; cbn [find_leading]; [by intros [= <- _ _]|].
  destruct (arg =s? "-P"); [intros H _; eapply IH; [|exact H|done]; cbn; lia|].
  destruct ((arg =s? "-H") || (arg =s? "-L")); [intros H _; eapply IH; [|exact H|done]; cbn; lia|].
  destruct (arg =s? "-D").
  { destruct args as [|v args]; [|intros H _; eapply IH; [|exact H|done]; cbn; lia].
    intros [= <- _ _] _. rewrite (proj1 (proj2 (proj2 (note_frame _ _)))). done. }
  destruct (is_optimization arg); [intros H _; eapply IH; [|exact H|done]; cbn; lia|]. by intros [= <- _ _].
Qed.

Lemma find_leading_found args : forall i p p' i' rest,
  find_leading i args p = (p', i', rest) -> same_found p p' /\ f_exactScopedDeletion p' = f_exactScopedDeletion p.
Proof.
  induction args as [args IH] using (induction_ltof1 _ (@length string)). unfold ltof in IH.
  intros i p p' i' rest. destruct args as [|arg args]; cbn [find_leading]; [by intros [= <- _ _]|].
  destruct (arg =s? "-P"); [intros H; eapply (IH args) in H; [exact H|cbn; lia]|].
  destruct ((arg =s? "-H") || (arg =s? "-L")); [intros H; eapply (IH args) in H; [exact H|cbn; lia]|].
  destruct (arg =s? "-D").
  { destruct args as [|v args]; [|intros H; eapply (IH args) in H; [exact H|cbn; lia]].
    intros [= <- _ _]. destruct (note_found "find leading option is missing its value" (note_leading p)) as [H1 H2].
    by rewrite (proj2 (proj2 (proj2 (note_frame _ _)))). }
  destruct (is_optimization arg); [intros H; eapply (IH args) in H; [exact H|cbn; lia]|]. by intros [= <- _ _].
Qed.

(** Without leading options the roots come first. *)
Lemma find_leading_none args i p p' i' rest :
  find_leading i args p = (p', i', rest) -> f_hasLeadingOptions p' = false -> p' = p /\ i' = i /\ rest = args.
Proof.
  destruct args as [|arg args]; cbn [find_leading]; [by intros [= <- <- <-]|]. intros H Hn.
  assert (Hno : forall args i q, find_leading i args q = (p', i', rest) -> f_hasLeadingOptions q = true -> False).
  { intros args' j q Hq Ht. rewrite (find_leading_sticky _ _ _ _ _ _ Hq Ht) in Hn. done. }
  destruct (arg =s? "-P"); [exfalso; by apply (Hno _ _ _ H)|].
  destruct ((arg =s? "-H") || (arg =s? "-L")); [exfalso; by apply (Hno _ _ _ H)|]. destruct (arg =s? "-D").
  { destruct args as [|v args]; [|exfalso; by apply (Hno _ _ _ H)]. injection H as <- _ _.
    by rewrite (proj1 (proj2 (proj2 (note_frame _ _)))) in Hn. }
  destruct (is_optimization arg); [exfalso; by apply (Hno _ _ _ H)|]. by injection H as <- <- <-.
Qed.

Lemma find_roots_spec args : forall i p p' i' rest,
  find_roots i args p = (p', i', rest) ->
  exists rs, f_roots p' = f_roots p ++ rs /\ args = map fd_value rs ++ rest /\ i' = (i + length rs)%nat /\
    Forall (fun r => isFindExpressionToken (fd_value r) = false) rs /\
    f_callbacks p' = f_callbacks p /\ f_actions p' = f_actions p /\
    f_hasLeadingOptions p' = f_hasLeadingOptions p /\ f_exactScopedDeletion p' = f_exactScopedDeletion p.
Proof.
  induction args as [|arg args IH]; intros i p p' i' rest; cbn [find_roots].
  - intros [= <- <- <-]. exists []. by rewrite app_nil_r, Nat.add_0_r.
  - destruct (isFindExpressionToken arg) eqn:Et.
    { intros [= <- <- <-]. exists []. by rewrite app_nil_r, Nat.add_0_r. }
    intros H. destruct (IH _ _ _ _ _ H) as (rs & Hr & -> & -> & Hf & Hc & Ha & Hl & He). cbn in *.
    exists ({| fd_value := arg; fd_sourceArg := i |} :: rs). rewrite Hr, <- app_assoc. cbn.
    rewrite Hc, Ha, !app_nil_r. split_and!; [done|done|lia|by constructor|done..].
Qed.

(** ** Properties *)

(** The check of a find expression's structure accepts exactly the sentences
    of find's grammar: no words at all, or units joined by an operator or by
    standing next to each other, where a unit is a test or action, a negated unit,
    or an expression in parentheses. *)
Theorem find_structure_exact es :
  valid (run newFindExpressionValidator es) = true <-> es = [] \/ find_expr es.
Proof.
  split.
  - unfold valid. destruct (fv_invalid _) eqn:E; [done|]. destruct (run_reads es E) as [Hr Hs].
    destruct (fv_frames _) as [|f [|]] eqn:Ef; [done| |done]. intros H. destruct es as [|e es]; [by left|right].
    rewrite Hs in H by done. cbn [negb orb] in H. apply negb_true_iff in H.
    inversion Hr as [? ? [_ Hf]|? ? ? ? ? Ho]; subst; [by apply Hf|inversion Ho].
  - intros [->|H]; [done|]. rewrite (proj2 grammar_run es H open_frame []) by done. done.
Qed.

(** The words of a removal run for each file: [rm], its options and the
    placeholder, which is last. *)
Definition removal_words (words : list string) : Prop :=
  exists args, words = "rm" :: args /\ args <> [] /\ last ("rm" :: args) = Some "{}" /\
    Forall (fun arg => knownFindRmOption arg = true \/ arg = "{}") args.

Lemma exact_removal_words argv cb : exact_removal argv cb = true -> removal_words (cb_argv cb).
Proof.
  unfold exact_removal, removal_words. generalize (cb_argv cb). intros words.
  intros [[[[Hrm Hlen]%andb_true_iff _]%andb_true_iff Hall]%andb_true_iff Hlast]%andb_true_iff.
  destruct words as [|w args]; [done|]. apply String.eqb_eq in Hrm as ->. apply Nat.leb_le in Hlen.
  exists args. split; [done|]. split; [by intros ->; cbn in Hlen; lia|].
  unfold last_is_placeholder in Hlast. destruct (last ("rm" :: args)) as [l|]; [|done].
  apply String.eqb_eq in Hlast as ->. split; [done|].
  apply Forall_forall. intros arg Harg. cbn [tail] in Hall. rewrite forallb_forall in Hall.
  specialize (Hall arg (proj1 (list_elem_of_In _ _) Harg)). apply orb_true_iff in Hall as [?|?%String.eqb_eq]; auto.
Qed.

Lemma classify_spec argv p :
  f_exactScopedDeletion p = false -> f_exactScopedDeletion (classifyExactScopedDeletion argv p) = true ->
  f_hasLeadingOptions p = false /\
  exists root a, f_roots p = [root] /\ f_actions p = [a] /\ fa_end a = length argv /\
    knownFindTests (take (fa_index a - f_expressionStart p) (drop (f_expressionStart p) argv)) = true /\
    f_scopedDeletionRoot (classifyExactScopedDeletion argv p) = fd_value root /\
    (fa_kind a = findDeleteAction \/
     fa_kind a = findCallbackAction /\
     exists cb, f_callbacks p !! fa_callback a = Some cb /\ removal_words (cb_argv cb)).
Proof.
  intros Hf. unfold classifyExactScopedDeletion. destruct (_ || f_hasLeadingOptions p) eqn:El; [congruence|].
  apply orb_false_iff in El as [_ El]. destruct (f_roots p) as [|root [|]]; try congruence.
  destruct (f_actions p) as [|a [|]]; try congruence. destruct (_ || _) eqn:Eg; [congruence|].
  apply orb_false_iff in Eg as [E1 E2]. apply negb_false_iff in E1, E2. apply Nat.eqb_eq in E1.
  destruct (fa_kind a) eqn:Ek; try congruence.
  - destruct (f_callbacks p !! fa_callback a) as [cb|] eqn:Ecb; [|congruence].
    destruct (exact_removal argv cb) eqn:Er; [|congruence]. intros _. split; [done|]. exists root, a.
    split_and!; [done..|]. right. split; [done|]. exists cb. split; [done|]. by eapply exact_removal_words.
  - intros _. split; [done|]. exists root, a. split_and!; [done..|]. by left.
Qed.

(** A word the expression is made of is no root and no command name. *)
Lemma action_words_inside argv name root more w rest i :
  argv = name :: root :: more -> head argv = "find" -> isFindExpressionToken root = false ->
  drop i argv = w :: rest -> w ∈ ["-delete"; "-exec"; "-execdir"] -> (2 <= i)%nat.
Proof.
  intros -> Hh Hr Hd Hw. destruct i as [|[|i]]; [..|lia]; cbn [drop] in Hd; injection Hd as -> _.
  - rewrite !elem_of_cons in Hw. exfalso. destruct Hw as [->|[->|[->|Hn]]]; [discriminate Hh..|by apply elem_of_nil in Hn].
  - rewrite !elem_of_cons in Hw. exfalso. destruct Hw as [->|[->|[->|Hn]]]; [discriminate Hr..|by apply elem_of_nil in Hn].
Qed.

(** A deletion by find is exempted as scoped only when the command has exactly
    that shape: one root, tests that delete nothing, and as the last and only
    action [-delete] or a callback that removes the files found and nothing else. *)
Theorem find_exemption_shape argv :
  f_exactScopedDeletion (parseFindActions argv) = true ->
  exists name root tests tail_words,
    argv = name :: root :: tests ++ tail_words /\ head argv = "find" /\
    f_scopedDeletionRoot (parseFindActions argv) = root /\
    isFindExpressionToken root = false /\ knownFindTests tests = true /\
    (tail_words = ["-delete"] \/
     exists exec words stop, tail_words = exec :: words ++ [stop] /\
       exec ∈ ["-exec"; "-execdir"] /\ stop ∈ [";"; "\;"; "+"] /\ removal_words words).
Proof.
  unfold parseFindActions. destruct (String.eqb_spec (head argv) "find") as [Hh|]; [|done].
  assert (Hne : argv <> []) by by intros ->. destruct argv as [|name args] eqn:Eargv; [done|]. rewrite <- Eargv in *.
  replace (tail argv) with args by by rewrite Eargv. cbn [negb].
  destruct (find_leading 1 args find_nothing) as [[p1 i1] args1] eqn:Elead.
  destruct (find_roots i1 args1 p1) as [[p2 i2] args2] eqn:Eroots.
  destruct (find_expression i2 0 args2 (start_at i2 p2, newFindExpressionValidator)) as [p3 v] eqn:Eexpr.
  set (p4 := if valid v then p3 else noteUncertainty "find expression structure is invalid" p3). intros Hex.
  pose proof (find_expression_frame args2 i2 0 (start_at i2 p2, newFindExpressionValidator)) as Hfr.
  rewrite Eexpr in Hfr. cbn [fst] in Hfr.
  assert (H34 : same_frame p3 p4) by (unfold p4; destruct (valid v); [done|apply note_frame]).
  assert (F34 : same_found p3 p4) by (unfold p4; destruct (valid v); [done|apply note_found]).
  destruct (find_roots_spec args1 i1 p1 p2 i2 args2 Eroots) as (rs & Hr & Ha1 & Hi2 & Hrs & Hc & Ha & Hl & He).
  destruct (same_frame_trans _ _ _ Hfr H34) as (Rr & Rs & Rl & Re). cbn in Rr, Rs, Rl, Re.
  destruct (find_leading_found args 1 find_nothing p1 i1 args1 Elead) as [Hf1 He1].
  destruct (classify_spec argv p4) as (Hlead & root & a & Hroots & Hact & Hend & Htests & -> & Hkind);
    [by rewrite Re, He, He1|exact Hex|].
  destruct (find_leading_none args 1 find_nothing p1 i1 args1 Elead) as (-> & -> & ->); [congruence|].
  rewrite Rr, Hr in Hroots. cbn in Hroots. subst rs. cbn in Ha1, Hi2. subst i2.
  apply Forall_cons in Hrs as [Hroot _]. rewrite Rs in Htests.
  assert (Hargv : argv = name :: fd_value root :: args2) by (rewrite Eargv; congruence).
  assert (Hat : actions_at argv p4).
  { apply (same_found_at argv p3 p4 F34).
    change p3 with (p3, v).1. rewrite <- Eexpr. apply find_expression_at; [by rewrite Hargv|].
    unfold actions_at. cbn. by rewrite Ha. }
  unfold actions_at in Hat. rewrite Hact in Hat. apply Forall_cons in Hat as [Hat _].
  exists name, (fd_value root), (take (fa_index a - 2) args2), (drop (fa_index a) argv).
  assert (Hsplit : (2 <= fa_index a)%nat -> argv = name :: fd_value root :: take (fa_index a - 2) args2 ++ drop (fa_index a) argv).
  { intros Hge. rewrite Hargv at 1. do 2 f_equal. rewrite Hargv.
    replace (fa_index a) with (S (S (fa_index a - 2))) at 2 by lia. cbn [drop]. by rewrite take_drop. }
  rewrite Hargv in Htests at 1. cbn [drop] in Htests. unfold action_at in Hat.
  destruct Hkind as [Hk|(Hk & cb & Hcb & Hwords)]; rewrite Hk in Hat.
  - destruct Hat as (rest & Hd & He').
    assert (Hge : (2 <= fa_index a)%nat) by (eapply action_words_inside; [exact Hargv|done|done|exact Hd|set_solver]).
    assert (rest = []) as ->.
    { assert (Hlen : length (drop (fa_index a) argv) = 1%nat) by (rewrite length_drop; lia).
      rewrite Hd in Hlen. by destruct rest. }
    split_and!; [by apply Hsplit|done..|]. by left.
  - destruct Hat as (cb' & word & stop & rest & Hcb' & Hd & Hword & Hstop & _ & He').
    rewrite Hcb in Hcb'. injection Hcb' as <-.
    assert (Hge : (2 <= fa_index a)%nat) by (eapply action_words_inside; [exact Hargv|done|done|exact Hd|set_solver]).
    assert (rest = []) as ->.
    { assert (Hlen : length (drop (fa_index a) argv) = (length (cb_argv cb) + 2)%nat) by (rewrite length_drop; lia).
      rewrite Hd in Hlen. cbn in Hlen. rewrite length_app in Hlen. cbn in Hlen. destruct rest; [done|cbn in Hlen; lia]. }
    split_and!; [by apply Hsplit|done..|]. right. by exists word, (cb_argv cb), stop.
Qed.

Lemma find_exemption_shape_witness :
  let argv := ["/usr/bin/find"; "/tmp/scratch"; "-type"; "f"; "-exec"; "rm"; "-f"; "{}"; ";"] in
  exists name root tests tail_words,
    argv = name :: root :: tests ++ tail_words /\ head argv = "find" /\
    f_scopedDeletionRoot (parseFindActions argv) = root /\
    isFindExpressionToken root = false /\ knownFindTests tests = true /\
    (tail_words = ["-delete"] \/
     exists exec words stop, tail_words = exec :: words ++ [stop] /\
       exec ∈ ["-exec"; "-execdir"] /\ stop ∈ [";"; "\;"; "+"] /\ removal_words words).
Proof. apply find_exemption_shape. vm_compute. reflexivity. Defined.

(** An option of [rm] is recognised without its dash: the file [drf] of the working
    directory is removed as well, under the exemption. *)
Lemma undashed_rm_option :
  knownFindRmOption "drf" = true /\
  f_exactScopedDeletion (parseFindActions ["find"; "/tmp/scratch"; "-exec"; "rm"; "drf"; "{}"; ";"]) = true.
Proof. split; vm_compute; reflexivity. Qed.
