(* ===== verification/Containment.v ===== *)
(** * Where a path may be written ([internal/engine/rules_bash.go]
    [pathRelationBetween], [authorizedPath]; [internal/engine/rules_path.go]
    [claudeMemoryRoot], [strictWriteRoots], [checkSymlinkEscape],
    [checkOutOfRepoWrite]; [internal/engine/host_path.go];
    [internal/engine/worktree.go])

    A path is compared with a root twice, as it is written and as it resolves, by
    the identity of the files on the way up and by its text. The theorems say what
    an authorization means: some authorized root contains the path both ways, so a
    symbolic link inside the repository does not carry a write out of it. *)

From Stdlib Require Import ZArith Ascii String List Lia.
From stdpp Require Import base list strings gmap.
From S2P Require Import Prelude GoStrings GoPath Policy Argv Engine Simple GitRepo.
Open Scope go_scope.

(** ** The host *)

(** What the rules ask besides [GitHost]: the identity of two files that exist,
    whether a file is a symbolic link, and the user's home. *)
Record PathHost := {
  ph_git : GitHost;
  ph_sameFile : string -> string -> bool;       (* os.SameFile of their os.Stat *)
  ph_symlink : string -> bool;                  (* os.Lstat: ModeSymlink *)
  ph_home : option string;                      (* os.UserHomeDir *)
}.

Section Containment.
Context (h : PathHost).

Definition same_file (a b : string) : bool :=
  match gh_stat (ph_git h) a, gh_stat (ph_git h) b with
  | Some _, Some _ => ph_sameFile h a b
  | _, _ => false
  end.

Definition lexists (p : string) : lstat_result := fs_lstat (gh_fs (ph_git h)) p.

Definition is_symlink (p : string) : bool :=
  match lexists p with LExists => ph_symlink h p | _ => false end.

(** ** Relations between paths *)

Record pathRelation := {
  pr_relative : string;
  pr_equal : bool;
  pr_within : bool;
  pr_sameSpelling : bool;
}.

Definition unrelated : pathRelation :=
  {| pr_relative := ""; pr_equal := false; pr_within := false; pr_sameSpelling := false |}.
Definition same_path (spelling : bool) : pathRelation :=
  {| pr_relative := "."; pr_equal := true; pr_within := false; pr_sameSpelling := spelling |}.
Definition below_path (relative : string) (spelling : bool) : pathRelation :=
  {| pr_relative := relative; pr_equal := false; pr_within := true; pr_sameSpelling := spelling |}.

(** The components that differ in case are no symbolic links. *)
Fixpoint case_components (current : string) (target root : list string) : bool :=
  match target, root with
  | component :: target, r :: root =>
      let current := JoinPath [current; component] in
      if component =s? r then case_components current target root
      else match lexists current with
           | LExists => if ph_symlink h current then false else case_components current target root
           | _ => false
           end
  | [], [] => true
  | _, _ => false
  end.

Definition caseOnlySpelling (candidate root : string) : bool :=
  EqualFold candidate root && case_components sep (elements candidate) (elements root).

(** The walk from the target up to a directory that is the root's file. *)
Fixpoint relation_loop (root : string) (fuel : nat) (current : string) (suffix : list string) : option pathRelation :=
  match fuel with
  | O => None
  | S fuel =>
      if same_file current root then
        let spelling := (current =s? root) || caseOnlySpelling current root in
        Some (match suffix with [] => same_path spelling | _ => below_path (JoinPath suffix) spelling end)
      else
        let parent := Dir current in
        if parent =s? current then None else relation_loop root fuel parent (Base current :: suffix)
  end.

Definition samePlatformPath (left right : string) : bool := Clean left =s? Clean right.

Definition lexical_relation (target root : string) : pathRelation :=
  if samePlatformPath target root then same_path true
  else match Rel root target with
       | Some relative =>
           if (relative <>s? ".") && (relative <>s? "..") && negb (HasPrefix relative "../")
           then below_path relative true else unrelated
       | None => unrelated
       end.

Definition pathRelationBetween (target root : string) : pathRelation :=
  let target := Clean target in
  let root := Clean root in
  match gh_stat (ph_git h) root with
  | Some _ =>
      match relation_loop root (walk_fuel target) target [] with
      | Some r => r
      | None => lexical_relation target root
      end
  | None => lexical_relation target root
  end.

Definition inside (r : pathRelation) : bool := pr_equal r || pr_within r.

(** ** POSIX spellings ([host_path.go]) on a POSIX host *)

Definition posixTempToHost (p : string) : option string := None.

Definition hostPathForPosix (p : string) : option string :=
  if negb (posixIsAbs p) || IsAbs p then Some p
  else match posixTempToHost p with
       | Some host => Some host
       | None => match posixDriveToWin32 p with Some host => Some (Clean host) | None => None end
       end.

Definition unmappablePosixAbsolute (p : string) : bool :=
  match hostPathForPosix p with Some _ => false | None => true end.

(** ** Candidates *)

Record pathCandidate := {
  pc_path : string;
  pc_cwd : string;
  pc_cwdUnknown : bool;
  pc_repoRoot : string;
  pc_posix : bool;
}.

Definition is_home (p : string) : bool := (p =s? "~") || HasPrefix p "~/".

Definition floating (c : pathCandidate) (p : string) : bool := pc_cwdUnknown c && negb (IsAbs p).

Definition hostPathForCandidate (c : pathCandidate) (repoRoot : string) : option string :=
  if pc_posix c && negb (unmappablePosixAbsolute repoRoot) then hostPathForPosix (pc_path c) else Some (pc_path c).

(** ** Authorized roots *)

Record authorizedRoot := { ar_lexical : string; ar_physical : string; ar_strict : bool }.

(** [addRoot]: the root with its physical form, if it may be one. *)
Definition add_root (c : pathCandidate) (root : string) (rejectSymlink strict : bool) : list authorizedRoot :=
  if (root =s? "") || floating c root then []
  else
    match Abs (ph_git h) (resolvePath root (pc_cwd c)) with
    | None => []
    | Some root =>
        if Clean root =s? sep then []
        else
          match resolveExistingPath (ph_git h) root "" with
          | None => []
          | Some physical =>
              if pr_equal (pathRelationBetween physical sep) then []
              else if rejectSymlink && negb (pr_sameSpelling (pathRelationBetween physical root)) then []
              else [{| ar_lexical := root; ar_physical := physical; ar_strict := strict |}]
          end
    end.

Definition authorized_roots (c : pathCandidate) (repoRoot : string) (safeRoots strictRoots : list string)
    (allowTemp : bool) : list authorizedRoot :=
  add_root c repoRoot false false ++ flat_map (fun r => add_root c r true false) safeRoots ++
  (if allowTemp then add_root c (TempDir (ph_git h)) false false else []) ++
  flat_map (fun r => add_root c r false true) strictRoots.

(** A strict root itself is not authorized: the first one the target is. *)
Fixpoint strict_hit (target physical : string) (roots : list authorizedRoot) : option bool :=
  match roots with
  | [] => None
  | root :: rest =>
      if negb (ar_strict root) then strict_hit target physical rest
      else
        let lexical := pathRelationBetween target (ar_lexical root) in
        if pr_equal lexical || pr_equal (pathRelationBetween physical (ar_physical root))
        then Some (pr_sameSpelling lexical)
        else strict_hit target physical rest
  end.

Definition contains (r : pathRelation) : bool := pr_sameSpelling r && inside r.

(** [withinRoot] over the roots of one kind: whether one holds the target, and
    whether one held it as written. *)
Fixpoint within_roots (strict : bool) (target physical : string) (lexical : bool) (roots : list authorizedRoot)
    : bool * bool :=
  match roots with
  | [] => (false, lexical)
  | root :: rest =>
      if negb (eqb (ar_strict root) strict) then within_roots strict target physical lexical rest
      else if contains (pathRelationBetween target (ar_lexical root)) then
        if contains (pathRelationBetween physical (ar_physical root)) then (true, true)
        else within_roots strict target physical true rest
      else within_roots strict target physical lexical rest
  end.

(** The target of a candidate as written and as it resolves. *)
Definition candidate_target (c : pathCandidate) (repoRoot : string) : option (string * string) :=
  if is_home (pc_path c) || floating c (pc_path c) then None
  else
    match hostPathForCandidate c repoRoot with
    | None => None
    | Some path =>
        match Abs (ph_git h) (resolvePath path (pc_cwd c)) with
        | None => None
        | Some target =>
            match resolveExistingPath (ph_git h) target "" with
            | Some physical => Some (target, physical)
            | None => None
            end
        end
    end.

(** [(authorized, lexical)]. *)
Definition authorizedPath (c : pathCandidate) (repoRoot : string) (safeRoots strictRoots : list string)
    (allowTemp : bool) : bool * bool :=
  match candidate_target c repoRoot with
  | None => (false, false)
  | Some (target, physical) =>
      let roots := authorized_roots c repoRoot safeRoots strictRoots allowTemp in
      match strict_hit target physical roots with
      | Some lexical => (false, lexical)
      | None =>
          let '(ok, lexical) := within_roots false target physical false roots in
          if ok then (true, true) else within_roots true target physical lexical roots
      end
  end.

(** ** Claude's memory directory *)

Definition hasRawDotDot (candidate : string) : bool := in_list ".." (elements candidate).

Fixpoint Dir_times (n : nat) (p : string) : string := match n with O => p | S n => Dir_times n (Dir p) end.

(** The prefixes agree component by component and none is a symbolic link. *)
Fixpoint memory_prefix (components expected : list string) (candidate want : string) : option string :=
  match components, expected with
  | c :: components, e :: expected =>
      let candidate := JoinPath [candidate; c] in
      let want := JoinPath [want; e] in
      if negb (pr_equal (pathRelationBetween candidate want)) then None
      else match lexists candidate with
           | LExists => if ph_symlink h candidate then None else memory_prefix components expected candidate want
           | LNotExist => memory_prefix components expected candidate want
           | LError => None
           end
  | _, _ => Some want
  end.

Definition claudeMemoryRoot (c : pathCandidate) : string :=
  if is_home (pc_path c) || hasRawDotDot (pc_path c) || floating c (pc_path c) then ""
  else
    match ph_home h with
    | None => ""
    | Some home =>
        if negb (IsAbs home) then ""
        else
          let home := Clean home in
          if home =s? sep then ""
          else
            match Abs (ph_git h) (resolvePath (pc_path c) (pc_cwd c)) with
            | None => ""
            | Some target =>
                let rel := pathRelationBetween target home in
                if pr_equal rel || negb (pr_within rel) then ""
                else
                  let components := Split (pr_relative rel) slash in
                  match components with
                  | _ :: _ :: project :: _ :: _ =>
                      if project =s? "" then ""
                      else
                        match memory_prefix (take 4 components) [".claude"; "projects"; project; "memory"]
                                (Dir_times (length components) target) home with
                        | None => ""
                        | Some memoryRoot =>
                            match resolveExistingPath (ph_git h) home "", resolveExistingPath (ph_git h) memoryRoot "" with
                            | Some physicalHome, Some physicalMemory =>
                                if pr_equal (pathRelationBetween physicalHome sep) ||
                                   negb (pr_within (pathRelationBetween physicalMemory physicalHome))
                                then "" else memoryRoot
                            | _, _ => ""
                            end
                        end
                  | _ => ""
                  end
            end
    end.

Definition strictWriteRoots (tc : ToolCall) (c : pathCandidate) : list string :=
  systemTempRoots (ph_git h) ++
  (if tc_Plane tc =s? "claude" then
     let memoryRoot := claudeMemoryRoot c in if memoryRoot =s? "" then [] else [memoryRoot]
   else []) ++
  tc_PermittedRoots tc.

(** ** Worktrees of the same repository *)

Definition sameRepository (target repoRoot : string) : bool :=
  if (target =s? "") || (repoRoot =s? "") then false
  else
    match gitCommonDirectory (ph_git h) [] (Dir target) ∅ true with
    | None => false
    | Some targetCommon =>
        match gitCommonDirectory (ph_git h) [] repoRoot ∅ true with
        | None => false
        | Some rootCommon => (targetCommon =s? rootCommon) || same_file targetCommon rootCommon
        end
    end.

End Containment.

(** ** Lemmas: what a relation says *)

Section Relations.
Context (h : PathHost).

(** [p] stands at or below [root]: an ancestor of it, or it itself, is the root by
    name or by identity. *)
Definition under (p root : string) : Prop :=
  exists es es', Clean p = rooted es /\ es' `prefix_of` es /\
    (same_file h (rooted es') (Clean root) = true \/ rooted es' = Clean root).

Lemma relation_loop_spec root fuel : forall es suffix r,
  Forall name_ok es -> relation_loop h root fuel (rooted es) suffix = Some r ->
  exists es', es' `prefix_of` es /\ same_file h (rooted es') root = true.
Proof.
  induction fuel as [|fuel IH]; intros es suffix r Hok; [done|]. cbn [relation_loop].
  destruct (same_file h (rooted es) root) eqn:E; [intros _; by exists es|].
  destruct (Dir (rooted es) =s? rooted es) eqn:Ed; [done|].
  destruct es as [|e es] using rev_ind; [done|]. rewrite Dir_rooted by done. intros H.
  apply Forall_app in Hok as [Hok _]. destruct (IH es _ r Hok H) as (es' & Hp & Hs).
  exists es'. split; [|done]. etrans; [exact Hp|]. by apply prefix_app_r.
Qed.

(** The walk is never cut short: fuel for the number of elements is enough. *)
Lemma relation_loop_fuel root es : forall fuel suffix,
  Forall name_ok es -> (length es < fuel)%nat ->
  relation_loop h root fuel (rooted es) suffix = relation_loop h root (S (length es)) (rooted es) suffix.
Proof.
  induction es as [|e es IH] using rev_ind; intros fuel suffix Hok Hl; (destruct fuel as [|fuel]; [lia|]).
  - cbn [relation_loop length]. by destruct (same_file _ _ _).
  - rewrite length_app in *. replace (length es + length [e])%nat with (S (length es)) in * by (cbn; lia).
    change (relation_loop h root (S fuel) (rooted (es ++ [e])) suffix =
      relation_loop h root (S (S (length es))) (rooted (es ++ [e])) suffix).
    remember (S (length es)) as m eqn:Em. cbn [relation_loop]. destruct (same_file h _ _); [done|].
    rewrite Dir_rooted by done. destruct (_ =s? _); [done|]. apply Forall_app in Hok as [Hok _]. subst m.
    apply IH; [done|lia].
Qed.

Lemma lexical_under target root :
  IsAbs target = true -> IsAbs root = true -> inside (lexical_relation target root) = true -> under target root.
Proof.
  intros Ht Hr. destruct (Clean_abs_rooted target Ht) as (es & He & Hok), (Clean_abs_rooted root Hr) as (rs & Hrs & Hrok).
  unfold lexical_relation, samePlatformPath. destruct (Clean target =s? Clean root) eqn:E.
  { intros _. apply String.eqb_eq in E. exists es, es. split; [done|]. split; [done|]. right. congruence. }
  destruct (Rel root target) as [rel|] eqn:Erel; [|done].
  destruct (_ && negb (HasPrefix rel "../")) eqn:Eg; [|done]. intros _.
  assert (Hp : elements (Clean root) `prefix_of` elements (Clean target)).
  { apply (Rel_inside root target rel); [done|done|]. unfold pathEscapesRoot.
    apply andb_true_iff in Eg as [[_ E2]%andb_true_iff E3]. by rewrite (proj1 (negb_true_iff _) E2), (proj1 (negb_true_iff _) E3). }
  rewrite Hrs, He, !elements_rooted in Hp by done. exists es, rs. rewrite Hrs. by auto.
Qed.

Lemma relation_under target root :
  IsAbs target = true -> IsAbs root = true -> inside (pathRelationBetween h target root) = true -> under target root.
Proof.
  intros Ht Hr. destruct (Clean_abs_rooted target Ht) as (es & He & Hok).
  assert (Hlex : inside (lexical_relation (Clean target) (Clean root)) = true -> under target root).
  { intros H. apply lexical_under in H as (xs & xs' & H1 & H2); rewrite ?IsAbs_Clean; try done.
    rewrite Clean_Clean in H1. rewrite Clean_Clean in H2. by exists xs, xs'. }
  unfold pathRelationBetween. destruct (gh_stat (ph_git h) (Clean root)); [|exact Hlex].
  destruct (relation_loop h (Clean root) _ (Clean target) []) as [r|] eqn:E; [|exact Hlex].
  intros _. rewrite He in E. destruct (relation_loop_spec _ _ _ _ _ Hok E) as (es' & Hp & Hs).
  exists es, es'. by auto.
Qed.

Lemma contains_under target root :
  IsAbs target = true -> IsAbs root = true -> contains (pathRelationBetween h target root) = true -> under target root.
Proof. intros Ht Hr [_ H]%andb_true_iff. by apply relation_under. Qed.

Lemma IsAbs_JoinPath wd p : IsAbs wd = true -> IsAbs (JoinPath [wd; p]) = true.
Proof.
  intros Hwd. unfold JoinPath. destruct wd as [|c wd]; [done|]. cbn [List.filter String.eqb negb].
  rewrite IsAbs_Clean. by destruct (p <>s? "").
Qed.

Lemma Abs_abs g p q : Abs g p = Some q -> (forall wd, gh_wd g = Some wd -> IsAbs wd = true) -> IsAbs q = true.
Proof.
  unfold Abs. destruct (IsAbs p) eqn:E; [intros [= <-] _; by rewrite IsAbs_Clean|].
  destruct (gh_wd g) as [wd|]; [|done]. intros [= <-] Hwd. apply IsAbs_JoinPath. by apply Hwd.
Qed.

End Relations.

(** ** Lemmas: what an authorization says *)

(** The host resolves absolute paths to absolute paths, and its working directory
    is one. *)
Definition host_ok (h : PathHost) : Prop :=
  evalsymlinks_abs (ph_git h) /\ forall wd, gh_wd (ph_git h) = Some wd -> IsAbs wd = true.

Section Authorization.
Context (h : PathHost).
Hypothesis (Hok : host_ok h).

(** The root a name stands for, as written and as it resolves. *)
Definition root_forms (cwd name lexical physical : string) : Prop :=
  name <> "" /\ Abs (ph_git h) (resolvePath name cwd) = Some lexical /\
  resolveExistingPath (ph_git h) lexical "" = Some physical /\ IsAbs lexical = true /\ IsAbs physical = true /\
  Clean lexical <> "/" /\ pr_equal (pathRelationBetween h physical sep) = false.

Lemma add_root_spec c name rejectSymlink strict root :
  root ∈ add_root h c name rejectSymlink strict ->
  ar_strict root = strict /\ root_forms (pc_cwd c) name (ar_lexical root) (ar_physical root).
Proof using Hok.
  unfold add_root. destruct ((name =s? "") || floating c name) eqn:E1; [by intros ?%elem_of_nil|].
  apply orb_false_iff in E1 as [En _].
  destruct (Abs (ph_git h) (resolvePath name (pc_cwd c))) as [lex|] eqn:Ea; [|by intros ?%elem_of_nil].
  destruct (Clean lex =s? sep) eqn:Es; [by intros ?%elem_of_nil|].
  destruct (resolveExistingPath (ph_git h) lex "") as [phys|] eqn:Er; [|by intros ?%elem_of_nil].
  destruct (pr_equal (pathRelationBetween h phys sep)) eqn:Ep; [by intros ?%elem_of_nil|].
  destruct (rejectSymlink && _); [by intros ?%elem_of_nil|]. intros ->%list_elem_of_singleton. cbn.
  pose proof (Abs_abs (ph_git h) _ _ Ea (proj2 Hok)) as Habs.
  destruct (resolveExistingPath_abs (ph_git h) lex phys (proj1 Hok) Habs Er) as [Hphys _].
  split; [done|]. unfold root_forms. breflect. by split_and!.
Qed.

Lemma strict_hit_none target physical roots root :
  strict_hit h target physical roots = None -> root ∈ roots -> ar_strict root = true ->
  pr_equal (pathRelationBetween h target (ar_lexical root)) = false /\
  pr_equal (pathRelationBetween h physical (ar_physical root)) = false.
Proof.
  induction roots as [|r roots IH]; intros H Hin Hs; [by apply elem_of_nil in Hin|]. cbn [strict_hit] in H.
  apply elem_of_cons in Hin as [->|Hin].
  - rewrite Hs in H. cbn [negb] in H. destruct (_ || _) eqn:E; [done|]. by apply orb_false_iff in E.
  - destruct (negb (ar_strict r)); [by apply IH|]. destruct (_ || _); [done|]. by apply IH.
Qed.

Lemma within_roots_spec strict target physical roots : forall lexical l,
  within_roots h strict target physical lexical roots = (true, l) ->
  exists root, root ∈ roots /\ ar_strict root = strict /\
    contains (pathRelationBetween h target (ar_lexical root)) = true /\
    contains (pathRelationBetween h physical (ar_physical root)) = true.
Proof.
  induction roots as [|r roots IH]; intros lexical l; [done|]. cbn [within_roots]. intros H.
  assert (Hrec : forall lexical', within_roots h strict target physical lexical' roots = (true, l) ->
    exists root, root ∈ r :: roots /\ ar_strict root = strict /\
      contains (pathRelationBetween h target (ar_lexical root)) = true /\
      contains (pathRelationBetween h physical (ar_physical root)) = true).
  { intros lexical' H'. destruct (IH _ _ H') as (root & Hin & Hr). exists root. split; [by right|done]. }
  destruct (negb (eqb (ar_strict r) strict)) eqn:Es; [by eapply Hrec|].
  destruct (contains (pathRelationBetween h target _)) eqn:E1; [|by eapply Hrec].
  destruct (contains (pathRelationBetween h physical _)) eqn:E2; [|by eapply Hrec].
  exists r. split; [by left|]. apply negb_false_iff, eqb_prop in Es. auto.
Qed.

(** The roots a call may name. *)
Definition named_root (repoRoot : string) (safeRoots strictRoots : list string) (allowTemp : bool)
    (name : string) (strict : bool) : Prop :=
  if strict then name ∈ strictRoots
  else name = repoRoot \/ name ∈ safeRoots \/ allowTemp = true /\ name = TempDir (ph_git h).

Lemma authorized_roots_spec c repoRoot safeRoots strictRoots allowTemp root :
  root ∈ authorized_roots h c repoRoot safeRoots strictRoots allowTemp ->
  exists name, named_root repoRoot safeRoots strictRoots allowTemp name (ar_strict root) /\
    root_forms (pc_cwd c) name (ar_lexical root) (ar_physical root).
Proof using Hok.
  unfold authorized_roots. rewrite !elem_of_app. intros [H|[H|[H|H]]].
  - apply add_root_spec in H as [-> H]. exists repoRoot. split; [by left|done].
  - apply list_elem_of_In, in_flat_map in H as (name & Hn & H%list_elem_of_In).
    apply add_root_spec in H as [-> H]. exists name. split; [|done]. right. left. by apply list_elem_of_In.
  - destruct allowTemp; [|by apply elem_of_nil in H]. apply add_root_spec in H as [-> H].
    exists (TempDir (ph_git h)). split; [|done]. right. by right.
  - apply list_elem_of_In, in_flat_map in H as (name & Hn & H%list_elem_of_In).
    apply add_root_spec in H as [-> H]. exists name. split; [|done]. by apply list_elem_of_In.
Qed.

Lemma candidate_target_abs c repoRoot target physical :
  candidate_target h c repoRoot = Some (target, physical) ->
  IsAbs target = true /\ IsAbs physical = true /\ resolveExistingPath (ph_git h) target "" = Some physical.
Proof using Hok.
  unfold candidate_target. destruct (_ || _); [done|]. destruct (hostPathForCandidate c repoRoot) as [p|]; [|done].
  destruct (Abs (ph_git h) _) as [t|] eqn:Ea; [|done].
  destruct (resolveExistingPath (ph_git h) t "") as [ph|] eqn:Er; [|done]. intros [= <- <-].
  pose proof (Abs_abs (ph_git h) _ _ Ea (proj2 Hok)) as Habs.
  destruct (resolveExistingPath_abs (ph_git h) t ph (proj1 Hok) Habs Er) as [Hphys _]. auto.
Qed.

(** The candidate is confined to the root with this name: as written and as it
    resolves it stands under it, strictly for a strict root. *)
Definition confined_to (target physical cwd name : string) (strict : bool) : Prop :=
  exists lexical real, root_forms cwd name lexical real /\ under h target lexical /\ under h physical real /\
    (strict = true -> pr_equal (pathRelationBetween h target lexical) = false /\
                      pr_equal (pathRelationBetween h physical real) = false).

Lemma authorizedPath_spec c repoRoot safeRoots strictRoots allowTemp l :
  authorizedPath h c repoRoot safeRoots strictRoots allowTemp = (true, l) ->
  exists target physical name strict,
    candidate_target h c repoRoot = Some (target, physical) /\
    named_root repoRoot safeRoots strictRoots allowTemp name strict /\
    confined_to target physical (pc_cwd c) name strict.
Proof using Hok.
  unfold authorizedPath. destruct (candidate_target h c repoRoot) as [[target physical]|] eqn:Et; [|done].
  destruct (candidate_target_abs _ _ _ _ Et) as (Hta & Hpa & _).
  set (roots := authorized_roots h c repoRoot safeRoots strictRoots allowTemp).
  destruct (strict_hit h target physical roots) eqn:Es; [done|].
  destruct (within_roots h false target physical false roots) as [ok lex] eqn:Ew. intros H.
  assert (Hw : exists root, root ∈ roots /\
    contains (pathRelationBetween h target (ar_lexical root)) = true /\
    contains (pathRelationBetween h physical (ar_physical root)) = true).
  { destruct ok; [apply within_roots_spec in Ew as (root & ? & ? & ? & ?)|
      apply within_roots_spec in H as (root & ? & ? & ? & ?)]; by exists root. }
  destruct Hw as (root & Hin & H1 & H2).
  destruct (authorized_roots_spec _ _ _ _ _ _ Hin) as (name & Hname & Hforms).
  exists target, physical, name, (ar_strict root). split; [done|]. split; [done|].
  exists (ar_lexical root), (ar_physical root). split; [done|].
  destruct Hforms as (_ & _ & _ & Hla & Hra & _). split; [by apply contains_under|].
  split; [by apply contains_under|]. intros Hs. by apply (strict_hit_none _ _ roots).
Qed.
End Authorization.
