(* ===== verification/WriteTargets.v ===== *)
(** * What a command writes ([internal/engine/rules_path.go] from
    [destinationCommandSpec] to [writeTargets] and [visiblePathCandidates] on;
    [internal/engine/rules_powershell_write.go])

    The paths a command would create, replace or delete, read from its arguments:
    the destinations of cp, mv, install, ln, rsync and tee with the options that
    name one, the targets of the Windows copy, move, rename, content and delete
    commands, wildcards that match the installed binary, and the mentions of
    protected paths in the text handed to an interpreter. *)

From Stdlib Require Import ZArith Ascii String List Lia.
From stdpp Require Import base list strings gmap.
From S2P Require Import Prelude GoStrings Regex GoPath Policy Argv Engine Simple GitRepo NetRules Operands Containment.
Open Scope go_scope.

(** ** Destination commands *)

Record destinationCommandSpec := {
  ds_targetDirectory : bool;
  ds_allOperands : bool;
  ds_allOperandsShort : string;
  ds_allOperandsLong : string;
  ds_shortFlags : string;
  ds_shortValues : string;
  ds_shortWritePaths : string;
  ds_longFlags : string;
  ds_longValues : string;
  ds_longOptionalValues : string;
  ds_longWritePaths : string;
}.

Definition cpSpec : destinationCommandSpec :=
  {| ds_targetDirectory := true; ds_allOperands := false; ds_allOperandsShort := ""; ds_allOperandsLong := "";
     ds_shortFlags := "abdfHilLnPpRrsTuvxZ"; ds_shortValues := "S"; ds_shortWritePaths := "";
     ds_longFlags := "archive attributes-only backup copy-contents debug force interactive link dereference keep-directory-symlink no-clobber no-dereference parents preserve recursive reflink remove-destination strip-trailing-slashes symbolic-link no-target-directory update verbose one-file-system context help version";
     ds_longValues := "no-preserve sparse suffix";
     ds_longOptionalValues := "backup preserve reflink update context"; ds_longWritePaths := "" |}.

Definition mvSpec : destinationCommandSpec :=
  {| ds_targetDirectory := true; ds_allOperands := false; ds_allOperandsShort := ""; ds_allOperandsLong := "";
     ds_shortFlags := "bfinTuvZ"; ds_shortValues := "S"; ds_shortWritePaths := "";
     ds_longFlags := "backup debug exchange force interactive no-clobber no-copy strip-trailing-slashes no-target-directory update verbose context help version";
     ds_longValues := "suffix"; ds_longOptionalValues := "backup update context"; ds_longWritePaths := "" |}.

Definition installSpec : destinationCommandSpec :=
  {| ds_targetDirectory := true; ds_allOperands := false; ds_allOperandsShort := "d"; ds_allOperandsLong := "directory";
     ds_shortFlags := "bcCdDpsTvZ"; ds_shortValues := "gmoS"; ds_shortWritePaths := "";
     ds_longFlags := "backup compare directory debug preserve-timestamps strip no-target-directory verbose preserve-context context help version";
     ds_longValues := "group mode owner strip-program suffix"; ds_longOptionalValues := "backup context";
     ds_longWritePaths := "" |}.

Definition lnSpec : destinationCommandSpec :=
  {| ds_targetDirectory := true; ds_allOperands := false; ds_allOperandsShort := ""; ds_allOperandsLong := "";
     ds_shortFlags := "bdFfiLnPrsTv"; ds_shortValues := "S"; ds_shortWritePaths := "";
     ds_longFlags := "backup directory force interactive logical no-dereference physical relative symbolic no-target-directory verbose help version";
     ds_longValues := "suffix"; ds_longOptionalValues := "backup"; ds_longWritePaths := "" |}.

Definition rsyncSpec : destinationCommandSpec :=
  {| ds_targetDirectory := false; ds_allOperands := false; ds_allOperandsShort := ""; ds_allOperandsLong := "";
     ds_shortFlags := "vqcarRbudlLkKHpEogDtUNOJsnWxzCF0s8hPimynIAX46VS"; ds_shortValues := "BefT@M";
     ds_shortWritePaths := "T";
     ds_longFlags := "verbose quiet no-motd checksum archive recursive relative no-implied-dirs backup update inplace append append-verify dirs old-dirs old-d mkpath links copy-links copy-unsafe-links safe-links munge-links copy-dirlinks keep-dirlinks hard-links perms executability acls xattrs owner group devices copy-devices write-devices specials times atimes open-noatime crtimes omit-dir-times omit-link-times super fake-super sparse preallocate dry-run whole-file existing ignore-existing remove-source-files del delete delete-before delete-during delete-delay delete-after delete-excluded ignore-missing-args delete-missing-args ignore-errors force partial delay-updates prune-empty-dirs numeric-ids ignore-times size-only fuzzy compress cvs-exclude from0 old-args secluded-args trust-sender blocking-io stats 8-bit-output human-readable progress itemize-changes list-only fsync ipv4 ipv6 version help";
     ds_longValues := "info debug stderr backup-dir suffix chmod checksum-choice cc block-size rsh rsync-path max-delete max-size min-size max-alloc partial-dir usermap groupmap chown timeout contimeout modify-window temp-dir compare-dest copy-dest link-dest compress-choice zc compress-level zl skip-compress filter exclude exclude-from include include-from files-from copy-as address port sockopts outbuf remote-option out-format log-file log-file-format password-file early-input bwlimit stop-after stop-at write-batch only-write-batch read-batch protocol iconv checksum-seed";
     ds_longOptionalValues := "";
     ds_longWritePaths := "backup-dir partial-dir temp-dir log-file write-batch only-write-batch" |}.

Definition teeSpec : destinationCommandSpec :=
  {| ds_targetDirectory := false; ds_allOperands := true; ds_allOperandsShort := ""; ds_allOperandsLong := "";
     ds_shortFlags := "aip"; ds_shortValues := ""; ds_shortWritePaths := "";
     ds_longFlags := "append ignore-interrupts help version"; ds_longValues := "";
     ds_longOptionalValues := "output-error"; ds_longWritePaths := "" |}.

Definition mutatingDestinationCommands (command : string) : option destinationCommandSpec :=
  if command =s? "cp" then Some cpSpec
  else if command =s? "mv" then Some mvSpec
  else if command =s? "install" then Some installSpec
  else if command =s? "ln" then Some lnSpec
  else if command =s? "rsync" then Some rsyncSpec
  else if command =s? "tee" then Some teeSpec
  else None.

Definition mutatingAllArgs (command : string) : bool :=
  in_list command ["rm"; "truncate"; "chmod"; "chown"; "mkdir"; "touch"; "shred"; "unlink"; "rmdir"].

Inductive destinationOptionKind :=
| destinationFlag | destinationValue | destinationOptionalValue | destinationWritePath | destinationTargetDirectory.

(** [strings.Fields] over a table of words separated by single spaces. *)
Definition table_words (s : string) : list string := if s =s? "" then [] else Split s " ".

Definition set_kinds (kind : destinationOptionKind) (names : list string) (m : gmap string destinationOptionKind)
    : gmap string destinationOptionKind := foldl (fun m name => <[name := kind]> m) m names.

Definition destination_options (spec : destinationCommandSpec) : gmap string destinationOptionKind :=
  set_kinds destinationTargetDirectory (if ds_targetDirectory spec then ["target-directory"] else [])
  (set_kinds destinationWritePath (table_words (ds_longWritePaths spec))
  (set_kinds destinationOptionalValue (table_words (ds_longOptionalValues spec))
  (set_kinds destinationValue (table_words (ds_longValues spec))
  (set_kinds destinationFlag (table_words (ds_longFlags spec)) ∅)))).

(** The option named, or the only one the name abbreviates. *)
Definition resolveDestinationLongOption (name : string) (spec : destinationCommandSpec)
    : option (string * destinationOptionKind) :=
  let options := destination_options spec in
  match options !! name with
  | Some kind => Some (name, kind)
  | None => match List.filter (fun o => HasPrefix o.1 name) (map_to_list options) with
            | [o] => Some o
            | _ => None
            end
  end.

Record destinationArgs := {
  da_operands : list string;
  da_optionWritePaths : list string;
  da_targetDirectory : string;
  da_targetDirectorySet : bool;
  da_ambiguous : bool;
  da_allOperands : bool;
}.

Definition no_args : destinationArgs :=
  {| da_operands := []; da_optionWritePaths := []; da_targetDirectory := ""; da_targetDirectorySet := false;
     da_ambiguous := false; da_allOperands := false |}.

Definition add_operand (a : string) (p : destinationArgs) : destinationArgs :=
  {| da_operands := da_operands p ++ [a]; da_optionWritePaths := da_optionWritePaths p;
     da_targetDirectory := da_targetDirectory p; da_targetDirectorySet := da_targetDirectorySet p;
     da_ambiguous := da_ambiguous p; da_allOperands := da_allOperands p |}.
Definition add_writePath (a : string) (p : destinationArgs) : destinationArgs :=
  {| da_operands := da_operands p; da_optionWritePaths := da_optionWritePaths p ++ [a];
     da_targetDirectory := da_targetDirectory p; da_targetDirectorySet := da_targetDirectorySet p;
     da_ambiguous := da_ambiguous p; da_allOperands := da_allOperands p |}.
Definition set_target (dir : option string) (p : destinationArgs) : destinationArgs :=
  {| da_operands := da_operands p; da_optionWritePaths := da_optionWritePaths p;
     da_targetDirectory := match dir with Some d => d | None => da_targetDirectory p end;
     da_targetDirectorySet := true;
     da_ambiguous := match dir with Some _ => da_ambiguous p | None => true end; da_allOperands := da_allOperands p |}.
Definition mark_ambiguous (p : destinationArgs) : destinationArgs :=
  {| da_operands := da_operands p; da_optionWritePaths := da_optionWritePaths p;
     da_targetDirectory := da_targetDirectory p; da_targetDirectorySet := da_targetDirectorySet p;
     da_ambiguous := true; da_allOperands := da_allOperands p |}.
Definition mark_all (p : destinationArgs) : destinationArgs :=
  {| da_operands := da_operands p; da_optionWritePaths := da_optionWritePaths p;
     da_targetDirectory := da_targetDirectory p; da_targetDirectorySet := da_targetDirectorySet p;
     da_ambiguous := da_ambiguous p; da_allOperands := true |}.

(** A word [--name] or [--name=value]; the flag says that it took the next word. *)
Definition destination_long (spec : destinationCommandSpec) (a : string) (rest : list string) (p : destinationArgs)
    : destinationArgs * bool :=
  let '(name, value, attached) := Cut (TrimPrefix a "--") "=" in
  match resolveDestinationLongOption name spec with
  | None => (mark_ambiguous p, false)
  | Some (resolved, kind) =>
      let p := if resolved =s? ds_allOperandsLong spec then mark_all p else p in
      match kind with
      | destinationTargetDirectory =>
          if attached then (set_target (Some value) p, false)
          else match rest with next :: _ => (set_target (Some next) p, true) | [] => (set_target None p, false) end
      | destinationWritePath =>
          if attached then (add_writePath value p, false)
          else match rest with next :: _ => (add_writePath next p, true) | [] => (mark_ambiguous p, false) end
      | destinationValue =>
          if attached then (p, false)
          else match rest with _ :: _ => (p, true) | [] => (mark_ambiguous p, false) end
      | destinationFlag => (if attached then mark_ambiguous p else p, false)
      | destinationOptionalValue => (p, false)
      end
  end.

(** The letters of a word [-abc]. *)
Fixpoint destination_short (spec : destinationCommandSpec) (short : string) (rest : list string) (p : destinationArgs)
    : destinationArgs * bool :=
  match short with
  | EmptyString => (p, false)
  | String option after =>
      let p := if ContainsByte (ds_allOperandsShort spec) option then mark_all p else p in
      if ds_targetDirectory spec && Ascii.eqb option "t" then
        if after <>s? "" then (set_target (Some after) p, false)
        else match rest with next :: _ => (set_target (Some next) p, true) | [] => (set_target None p, false) end
      else if ContainsByte (ds_shortValues spec) option then
        let '(value, taken, p) :=
          if after <>s? "" then (after, false, p)
          else match rest with next :: _ => (next, true, p) | [] => ("", false, mark_ambiguous p) end in
        (if ContainsByte (ds_shortWritePaths spec) option && (value <>s? "") then add_writePath value p else p, taken)
      else destination_short spec after rest
             (if ContainsByte (ds_shortFlags spec) option then p else mark_ambiguous p)
  end.

Definition destination_option (spec : destinationCommandSpec) (a : string) (rest : list string) (p : destinationArgs)
    : destinationArgs * bool :=
  if HasPrefix a "--" then destination_long spec a rest p else destination_short spec (TrimPrefix a "-") rest p.

Fixpoint destination_loop (spec : destinationCommandSpec) (options skip : bool) (args : list string)
    (p : destinationArgs) : destinationArgs :=
  match args with
  | [] => p
  | a :: rest =>
      if skip then destination_loop spec options false rest p
      else if options && (a =s? "--") then destination_loop spec false false rest p
      else if options && is_cluster a then
        let '(p, taken) := destination_option spec a rest p in destination_loop spec options taken rest p
      else destination_loop spec options false rest (add_operand a p)
  end.

Definition parseDestinationArgs (argv : list string) (spec : destinationCommandSpec) : destinationArgs :=
  destination_loop spec true false (tail argv) no_args.

Definition last_operand (operands : list string) : list string :=
  match last operands with Some o => [o] | None => [] end.

Definition destinationTargets (argv : list string) (spec : destinationCommandSpec) : list string :=
  let parsed := parseDestinationArgs argv spec in
  da_optionWritePaths parsed ++
  (if da_targetDirectorySet parsed then
     let dir := da_targetDirectory parsed in
     if dir =s? "" then da_operands parsed
     else [dir] ++ map (fun source => JoinPath [dir; Base source]) (da_operands parsed) ++
          (if da_ambiguous parsed then da_operands parsed else [])
   else if ds_allOperands spec || da_allOperands parsed || da_ambiguous parsed then da_operands parsed
   else last_operand (da_operands parsed)).

Definition moveSourceTargets (argv : list string) : list string :=
  let parsed := parseDestinationArgs argv mvSpec in
  if da_targetDirectorySet parsed || da_ambiguous parsed then da_operands parsed
  else removelast (da_operands parsed).

Definition writeTargets (s : Simple) : list string :=
  match s_Argv s with
  | [] => []
  | _ :: args =>
      let command := head (s_Argv s) in
      if command =s? "dd" then map (fun a => TrimPrefix a "of=") (List.filter (fun a => HasPrefix a "of=") args)
      else if command =s? "sed" then
        let '(operands, inPlace) := parsePatternCommandOperands (s_Argv s) sedOperandOptions in
        if inPlace then map o_value (List.filter o_writeTarget operands) else []
      else match mutatingDestinationCommands command with
           | Some spec => destinationTargets (s_Argv s) spec
           | None => if mutatingAllArgs command then nonFlagArgs (s_Argv s) else []
           end
  end.

(** ** Windows commands ([rules_powershell_write.go]) *)

Definition psCopyParams : psParams :=
  {| ps_switches := ["force"; "recurse"; "passthru"; "whatif"; "confirm"; "container"; "usetransaction"];
     ps_values := ["path"; "literalpath"; "destination"; "filter"; "include"; "exclude"; "credential"; "fromsession";
                   "tosession"; "stream"];
     ps_paths := ["path"; "literalpath"] |}.

Definition psContentParams : psParams :=
  {| ps_switches := ["force"; "passthru"; "whatif"; "confirm"; "append"; "noclobber"; "nonewline"; "usetransaction";
                     "asbytestream"];
     ps_values := ["path"; "literalpath"; "filepath"; "value"; "encoding"; "filter"; "include"; "exclude"; "credential";
                   "stream"; "width"; "itemtype"; "name"];
     ps_paths := ["path"; "literalpath"; "filepath"] |}.

Definition psRenameParams : psParams :=
  {| ps_switches := ["force"; "passthru"; "whatif"; "confirm"; "usetransaction"];
     ps_values := ["path"; "literalpath"; "newname"; "credential"];
     ps_paths := ["path"; "literalpath"] |}.

Definition psRemoveParams : psParams :=
  {| ps_switches := ["force"; "recurse"; "whatif"; "confirm"; "usetransaction"];
     ps_values := ["path"; "literalpath"; "filter"; "include"; "exclude"; "credential"; "stream"];
     ps_paths := ["path"; "literalpath"] |}.

Definition removeItemParams : psParams :=
  {| ps_switches := ["recurse"; "force"; "whatif"; "confirm"; "usetransaction"];
     ps_values := ["path"; "literalpath"; "filter"; "include"; "exclude"; "credential"; "stream"];
     ps_paths := ["path"; "literalpath"] |}.

(** The commands that copy or move, with whether they remove their source. *)
Definition psCopyMove (command : string) : option bool :=
  if in_list command ["copy-item"; "copy"; "cpi"; "xcopy"] then Some false
  else if in_list command ["move-item"; "move"; "mi"] then Some true
  else None.

Definition psRemovers (command : string) : bool := in_list command ["remove-item"; "ri"; "del"; "erase"].

Definition psContentWriters (command : string) : bool :=
  in_list command ["set-content"; "add-content"; "out-file"; "tee-object"; "new-item"; "clear-content"; "ni"].

Definition psRenamers (command : string) : bool := in_list command ["rename-item"; "rni"; "ren"; "rename"].

Definition removeItemAliases (command : string) : bool :=
  in_list command ["remove-item"; "ri"; "rd"; "del"; "erase"; "rmdir"].

(** A slash, a letter or question mark, a name, and perhaps a colon and a value on the same line. *)
Definition slashSwitch : re :=
  Cat (byte "/") (Cat (Chr (fun c => is_letter c || Ascii.eqb c "?"))
    (Cat (Star (Chr (fun c => is_letter c || is_digit c || Ascii.eqb c "_" || Ascii.eqb c "-")))
      (Opt (Cat (byte ":") (Star (Chr (fun c => negb (Ascii.eqb c "010")))))))).

Definition stripSlashSwitches (argv : list string) : list string :=
  match argv with
  | [] => []
  | command :: args => command :: List.filter (fun a => negb (re_match slashSwitch a)) args
  end.

Definition slashed (p : string) : string := ReplaceByte p "\" slash.

Definition winBase (p : string) : string := Base (slashed p).

Definition winJoin (dir name : string) : string :=
  TrimRightByte (Ascii.eqb slash) (slashed dir) +:+ "/" +:+ name.

Definition hasWildcard (p : string) : bool := ContainsAny p "*?".

(** The installed binary under each of its names in a directory. *)
Definition binary_in (dir : string) : list string := [winJoin dir "guardrail.exe"; winJoin dir "guardrail"].

Definition robocopy_targets (operands : list string) : list string :=
  match operands with
  | _ :: destination :: files =>
      [destination] ++ map (winJoin destination) files ++
      (if (length files =? 0)%nat || existsb hasWildcard files then binary_in destination else [])
  | _ => []
  end.

Definition copy_targets (removes : bool) (destination : string) (sources : list string) : list string :=
  [destination] ++ flat_map (fun source =>
    (if hasWildcard source then binary_in destination else [winJoin destination (winBase source)]) ++
    (if removes then [source] else [])) sources.

(** The value of a parameter, empty when it is missing. *)
Definition ps_value (b : psBinding) (name : string) : string := default "" (b_values b !! name).

(** [None] for a command that is none of these. *)
Definition powershellWriteTargets (argv : list string) : option (list string) :=
  match argv with
  | [] => None
  | _ =>
      let command := head argv in
      if command =s? "robocopy" then Some (robocopy_targets (tail (stripSlashSwitches argv)))
      else match psCopyMove command with
      | Some removes =>
          let binding := bindPS (stripSlashSwitches argv) psCopyParams in
          let operands := b_operands binding in
          let destination := ps_value binding "destination" in
          Some (if destination <>s? "" then copy_targets removes destination operands
                else match last operands with
                     | Some destination =>
                         if (2 <=? length operands)%nat then copy_targets removes destination (removelast operands)
                         else []
                     | None => []
                     end)
      | None =>
          if psRenamers command then
            let binding := bindPS argv psRenameParams in
            let operands := b_operands binding in
            let newName := ps_value binding "newname" in
            let '(newName, operands) :=
              if (newName =s? "") && (2 <=? length operands)%nat
              then (default "" (last operands), removelast operands) else (newName, operands) in
            Some (match operands with
                  | [] => []
                  | o :: _ => o :: (if newName <>s? "" then [winJoin (Dir (slashed o)) newName] else [])
                  end)
          else if psRemovers command then Some (b_operands (bindPS (stripSlashSwitches argv) psRemoveParams))
          else if psContentWriters command then
            let binding := bindPS argv psContentParams in
            Some (match b_operands binding with
                  | [] => []
                  | o :: _ => o :: (let name := ps_value binding "name" in
                                    if name <>s? "" then [winJoin o name] else [])
                  end)
          else None
      end
  end.

Definition trim_dots (s : string) : string := TrimRightByte (fun c => Ascii.eqb c "." || Ascii.eqb c " ") s.

Definition windowsTargetSpellings (target : string) : list string :=
  let sl := slashed target in
  [target] ++ (if sl <>s? target then [sl] else []) ++
  (if win32ResolvedPath target then
     let trimmed := trim_dots sl in if (trimmed <>s? sl) && (trimmed <>s? "") then [trimmed] else []
   else []).

Definition installedBinaryNames : list string := ["guardrail.exe"; "guardrail"].

Definition installedBinaryGlobs : list string :=
  ["**/.local/bin/guardrail"; "**/bin/guardrail"; "**/.local/bin/guardrail.exe"; "**/bin/guardrail.exe"].

Definition psCmdletShaped (argv : list string) (spec : psParams) : bool :=
  existsb (fun arg =>
    let '(name, _, _) := psParameter arg in
    (3 <=? String.length name)%nat &&
    (negb (length (psMatches name (ps_switches spec)) =? 0)%nat ||
     negb (length (psMatches name (ps_values spec)) =? 0)%nat)) (tail argv).

Fixpoint posix_operands (options : bool) (args : list string) : list string :=
  match args with
  | [] => []
  | arg :: rest =>
      if options && (arg =s? "--") then posix_operands false rest
      else if options && HasPrefix arg "-" && (arg <>s? "-") then posix_operands options rest
      else arg :: posix_operands options rest
  end.

Definition posixOperands (argv : list string) : list string := posix_operands true (tail argv).

(** [strings.Trim] of both quotes. *)
Definition is_quote (c : ascii) : bool := Ascii.eqb c "'" || Ascii.eqb c "034".

Fixpoint trim_quotes_left (s : string) : string :=
  match s with
  | String c t => if is_quote c then trim_quotes_left t else s
  | EmptyString => EmptyString
  end.

Definition trim_quotes (s : string) : string := TrimRightByte is_quote (trim_quotes_left s).

Definition isInstallDirectory (target cwd : string) : bool :=
  let sl := slashed (trim_quotes target) in
  let sl := if negb (HasPrefix sl "~") && negb (IsAbs sl) && negb (isWindowsDrivePath sl) && (cwd <>s? "")
            then slashed cwd +:+ "/" +:+ sl else sl in
  let cleaned := ToLower (Clean sl) in
  (cleaned =s? "~/.local/bin") || HasSuffix cleaned "/.local/bin".

(** ** Runes and [path.Match] *)

Definition cont (c : ascii) : bool := byte_in (byte_of 128) (byte_of 191) c.

(** The number of bytes of the first rune; one for an encoding that is not valid. *)
Definition rune_width (s : string) : nat :=
  match s with
  | String a (String b t) =>
      if byte_in (byte_of 194) (byte_of 223) a && cont b then 2
      else match t with
           | String c t =>
               if (byte_in (byte_of 224) (byte_of 224) a && byte_in (byte_of 160) (byte_of 191) b ||
                   (byte_in (byte_of 225) (byte_of 236) a || byte_in (byte_of 238) (byte_of 239) a) && cont b ||
                   byte_in (byte_of 237) (byte_of 237) a && byte_in (byte_of 128) (byte_of 159) b) && cont c then 3
               else match t with
                    | String d _ =>
                        if (byte_in (byte_of 240) (byte_of 240) a && byte_in (byte_of 144) (byte_of 191) b ||
                            byte_in (byte_of 241) (byte_of 243) a && cont b ||
                            byte_in (byte_of 244) (byte_of 244) a && byte_in (byte_of 128) (byte_of 143) b) &&
                           cont c && cont d then 4 else 1
                    | EmptyString => 1
                    end
           | EmptyString => 1
           end
  | _ => 1
  end%nat.

Fixpoint runes_fuel (fuel : nat) (s : string) : list string :=
  match fuel, s with
  | O, _ | _, EmptyString => []
  | S fuel, _ => let w := rune_width s in stake w s :: runes_fuel fuel (sdrop w s)
  end.

(** The runes of a string, each as the bytes that encode it. *)
Definition runes (s : string) : list string := runes_fuel (String.length s) s.

Definition rune_bytes (r : string) : list Z := map (fun c => Z.of_nat (nat_of_ascii c)) (list_ascii_of_string r).

(** The code point; U+FFFD for a byte that is no encoding. *)
Definition rune_value (r : string) : Z :=
  match rune_bytes r with
  | [a] => if (a <? 128)%Z then a else 65533
  | [a; b] => (Z.land a 31 * 64 + Z.land b 63)%Z
  | [a; b; c] => (Z.land a 15 * 4096 + Z.land b 63 * 64 + Z.land c 63)%Z
  | [a; b; c; d] => (Z.land a 7 * 262144 + Z.land b 63 * 4096 + Z.land c 63 * 64 + Z.land d 63)%Z
  | _ => 65533%Z
  end.

(** [string(r)]: an invalid byte becomes the encoding of U+FFFD. *)
Definition rune_text (r : string) : string :=
  match r with
  | String a EmptyString =>
      if (nat_of_ascii a <? 128)%nat then r
      else String (byte_of 239) (String (byte_of 191) (String (byte_of 189) ""))
  | _ => r
  end.

(** [strings.FieldsFunc]: the runs of runes that do not separate. *)
Fixpoint fields_func (sep : string -> bool) (word : string) (rs : list string) : list string :=
  let flush rest := if word =s? "" then rest else word :: rest in
  match rs with
  | [] => flush []
  | r :: rs => if sep r then flush (fields_func sep "" rs) else fields_func sep (word +:+ r) rs
  end.

Definition FieldsFunc (s : string) (sep : string -> bool) : list string := fields_func sep "" (runes s).

(** The items of a pattern of [path.Match]. *)
Inductive glob_item :=
| GStar
| GAny
| GClass (negated : bool) (ranges : list (Z * Z))
| GRune (r : string).

(** [getEsc]: a rune of a class, which never ends the pattern. *)
Definition get_esc (rs : list string) : option (Z * list string) :=
  let rs := match rs with
            | r :: rest => if (r =s? "-") || (r =s? "]") then [] else if r =s? "\" then rest else rs
            | [] => []
            end in
  match rs with
  | r :: _ :: _ =>
      if (rune_value r =? 65533)%Z && (String.length r =? 1)%nat then None else Some (rune_value r, tail rs)
  | _ => None
  end.

(** The ranges of a class up to its bracket; one at least. *)
Fixpoint class_ranges (fuel : nat) (first : bool) (rs : list string) : option (list (Z * Z) * list string) :=
  match fuel with
  | O => None
  | S fuel =>
      match rs with
      | r :: rest =>
          if negb first && (r =s? "]") then Some ([], rest)
          else
            match get_esc rs with
            | None => None
            | Some (lo, rs) =>
                let hi := match rs with
                          | dash :: after => if dash =s? "-" then get_esc after else Some (lo, rs)
                          | [] => Some (lo, rs)
                          end in
                match hi with
                | None => None
                | Some (hi, rs) =>
                    match class_ranges fuel false rs with
                    | None => None
                    | Some (ranges, rest) => Some ((lo, hi) :: ranges, rest)
                    end
                end
            end
      | [] => None
      end
  end.

Fixpoint glob_items (fuel : nat) (rs : list string) : option (list glob_item) :=
  match fuel with
  | O => Some []
  | S fuel =>
      match rs with
      | [] => Some []
      | r :: rest =>
          if r =s? "*" then option_map (cons GStar) (glob_items fuel rest)
          else if r =s? "?" then option_map (cons GAny) (glob_items fuel rest)
          else if r =s? "[" then
            let '(negated, rest) := match rest with
                                    | c :: after => if c =s? "^" then (true, after) else (false, rest)
                                    | [] => (false, rest)
                                    end in
            match class_ranges fuel true rest with
            | None => None
            | Some (ranges, rest) => option_map (cons (GClass negated ranges)) (glob_items fuel rest)
            end
          else if r =s? "\" then
            match rest with
            | [] => None
            | e :: rest => option_map (cons (GRune e)) (glob_items fuel rest)
            end
          else option_map (cons (GRune r)) (glob_items fuel rest)
      end
  end.

(** One item against one rune. *)
Definition item_matches (item : glob_item) (r : string) : bool :=
  match item with
  | GStar => false
  | GAny => r <>s? "/"
  | GClass negated ranges =>
      let v := rune_value r in negb (eqb (existsb (fun lh => (lh.1 <=? v)%Z && (v <=? lh.2)%Z) ranges) negated)
  | GRune c => c =s? r
  end.

(** A star takes any runes but slashes. *)
Fixpoint glob_match (items : list glob_item) : list string -> bool :=
  match items with
  | [] => fun name => match name with [] => true | _ => false end
  | GStar :: items =>
      let after := glob_match items in
      fix star (name : list string) : bool :=
        after name || match name with r :: name => (r <>s? "/") && star name | [] => false end
  | item :: items => fun name => match name with
                                 | r :: name => item_matches item r && glob_match items name
                                 | [] => false
                                 end
  end.

(** [path.Match], whether it matched without an error. *)
Definition pathMatch (pattern name : string) : bool :=
  match glob_items (String.length pattern) (runes pattern) with
  | None => false
  | Some items => glob_match items (runes name)
  end.

(** The installed binary's path when a wildcard target would match it. *)
Definition binaryWildcardExpansions (target : string) : list string :=
  let sl := slashed target in
  let base := ToLower (Base sl) in
  if negb (hasWildcard base) then []
  else
    let dir := Dir sl in
    let installDir := HasSuffix (ToLower ("/" +:+ dir)) "/.local/bin" in
    if negb installDir && negb (Contains base "guard") then []
    else map (winJoin dir) (List.filter (pathMatch base) installedBinaryNames).

(** ** Paths named in opaque text *)

(** A quoted literal from behind its opening quote: its text and what follows it. *)
Fixpoint quoted_literal (quote : ascii) (source literal : string) : option (string * string) :=
  match source with
  | EmptyString => None
  | String c rest =>
      if Ascii.eqb c quote then Some (srev literal, rest)
      else
        match rest with
        | String d rest' =>
            if Ascii.eqb c "\" && (Ascii.eqb d quote || Ascii.eqb d "\")
            then quoted_literal quote rest' (String d literal)
            else quoted_literal quote rest (String c literal)
        | EmptyString => None
        end
  end.

Definition opens_quote (c : ascii) : bool := is_quote c || Ascii.eqb c "`".

(** The quoted literals of a text, and the text with each replaced by a blank. *)
Fixpoint split_quoted (fuel : nat) (arg unquoted : string) : list string * string :=
  match fuel, arg with
  | O, _ | _, EmptyString => ([], srev unquoted)
  | S fuel, String c rest =>
      if negb (opens_quote c) then split_quoted fuel rest (String c unquoted)
      else
        match quoted_literal c rest "" with
        | None => ([], srev unquoted +:+ arg)
        | Some (literal, next) =>
            let '(literals, text) := split_quoted fuel next (String " " unquoted) in (literal :: literals, text)
        end
  end.

Section OpaqueText.
(** [unicode.IsLetter] or [IsDigit] of a rune beyond ASCII. *)
Context (word_rune : Z -> bool).

Definition path_rune (r : string) : bool :=
  match r with
  | String c EmptyString =>
      if (nat_of_ascii c <? 128)%nat then is_letter c || is_digit c || ContainsByte "/\._-$~:%@+" c
      else word_rune 65533
  | _ => word_rune (rune_value r)
  end.

Definition visiblePathCandidates (arg : string) : list string :=
  let '(literals, text) := split_quoted (String.length arg) arg "" in
  literals ++ FieldsFunc text (fun r => negb (path_rune r)).

Definition namesInstalledBinary (candidate : string) : bool :=
  let normalized := ToLower (slashed candidate) in
  if negb (ContainsByte normalized slash) then false
  else
    let normalized := trim_dots (Clean normalized) in
    existsb (fun name => HasSuffix normalized ("/bin/" +:+ name)) installedBinaryNames.

(** Down to [depth] further quoting levels. *)
Fixpoint mentionsInstalledBinaryAt (depth : nat) (text : string) : bool :=
  existsb (fun candidate =>
    namesInstalledBinary candidate ||
    match depth with
    | O => false
    | S depth =>
        (candidate <>s? text) && negb (all_bytes (fun c => negb (opens_quote c)) candidate) &&
        mentionsInstalledBinaryAt depth candidate
    end) (visiblePathCandidates text).

Definition mentionsInstalledBinary (text : string) : bool := mentionsInstalledBinaryAt 3 text.

(** [url.Parse], whose path is decoded; [None] is an error of it or of the decoding. *)
Context (parse_path : string -> option (string * string * option string)).

Definition matchesNormalizedOperatorConfigPath (candidate : string) : bool :=
  let cleaned := ToLower (Clean (slashed candidate)) in
  Contains cleaned "/.config/guardrail/" || Contains cleaned "/guardrail/waivers.toml" ||
  Contains cleaned "/guardrail/night.toml" ||
  HasSuffix cleaned "/guardrail/approval-tickets" || Contains cleaned "/guardrail/approval-tickets/" ||
  HasSuffix cleaned "/guardrail/actions" || Contains cleaned "/guardrail/actions/".

Definition matchesOperatorConfigPath (candidate : string) : bool :=
  let normalized := slashed candidate in
  match parse_path normalized with
  | None => matchesNormalizedOperatorConfigPath normalized
  | Some (scheme, host, path) =>
      if (scheme <>s? "") && negb (isWindowsDrivePath normalized) then
        if negb (EqualFold scheme "file") then false
        else if (host <>s? "") && negb (EqualFold host "localhost") then false
        else matchesNormalizedOperatorConfigPath (default normalized path)
      else matchesNormalizedOperatorConfigPath normalized
  end.

Definition containsOperatorConfigPath (arg : string) : bool :=
  existsb matchesOperatorConfigPath (visiblePathCandidates arg).
End OpaqueText.

Definition isVersionSuffix (suffix : string) : bool :=
  let suffix := TrimPrefix suffix "-" in
  (suffix <>s? "") && all_bytes (fun c => is_digit c || Ascii.eqb c ".") suffix &&
  negb (all_bytes (fun c => negb (is_digit c)) suffix).

Definition isOpaqueExecutor (executable : string) : bool :=
  existsb (fun base => (executable =s? base) ||
      match CutPrefix executable base with Some suffix => isVersionSuffix suffix | None => false end)
    ["python"; "node"; "deno"; "bun"; "perl"; "ruby"; "php"; "lua"; "awk"; "powershell"; "pwsh"].

(** ** Lemmas: the last word of a destination command *)

(** An option looks at the next word only. *)
Lemma destination_short_next spec short x r1 r2 : forall p,
  destination_short spec short (x :: r1) p = destination_short spec short (x :: r2) p.
Proof.
  induction short as [|c short IH]; intros p; [done|]. cbn [destination_short].
  destruct (_ && _); [done|]. destruct (ContainsByte _ c); [done|]. apply IH.
Qed.

Lemma destination_option_next spec a x r1 r2 p :
  destination_option spec a (x :: r1) p = destination_option spec a (x :: r2) p.
Proof.
  unfold destination_option. destruct (HasPrefix a "--"); [done|]. apply destination_short_next.
Qed.

(** A word behind a word that is no option is an operand. *)
Lemma destination_loop_last spec w args : is_cluster w = false -> forall options skip p,
  (skip = true -> args <> []) -> (forall a, last args = Some a -> is_cluster a = false) ->
  destination_loop spec options skip (args ++ [w]) p = add_operand w (destination_loop spec options skip args p).
Proof.
  intros Hw. induction args as [|a args IH]; intros options skip p Hs Hl.
  { destruct skip; [by destruct Hs|]. cbn [app destination_loop]. rewrite Hw, andb_false_r.
    assert (Hd : (w =s? "--") = false) by (destruct (String.eqb_spec w "--") as [->|]; [done|done]).
    by rewrite Hd, andb_false_r. }
  assert (Hrest : forall b, last args = Some b -> is_cluster b = false).
  { intros b Hb. apply Hl. by destruct args. }
  cbn [app destination_loop]. destruct skip; [by apply IH|].
  destruct (options && (a =s? "--")); [by apply IH|].
  destruct (options && is_cluster a) eqn:Ec; [|by apply IH].
  apply andb_true_iff in Ec as [_ Ec]. destruct args as [|x args]; [by rewrite (Hl a eq_refl) in Ec|].
  cbn [app]. rewrite (destination_option_next spec a x (args ++ [w]) args).
  destruct (destination_option spec a (x :: args) p) as [p' taken]. by apply IH.
Qed.

(** The file an operand of the command is written to: one of that name in the
    directory an option names, or the operand itself. *)
Definition destination_of (argv : list string) (spec : destinationCommandSpec) (w : string) : string :=
  let parsed := parseDestinationArgs argv spec in
  if da_targetDirectorySet parsed && (da_targetDirectory parsed <>s? "")
  then JoinPath [da_targetDirectory parsed; Base w] else w.

Lemma destination_written argv spec w :
  last (da_operands (parseDestinationArgs argv spec)) = Some w ->
  destination_of argv spec w ∈ destinationTargets argv spec.
Proof.
  intros Hl. assert (Hin : w ∈ da_operands (parseDestinationArgs argv spec)).
  { apply last_Some in Hl as [l ->]. apply elem_of_app. right. by left. }
  unfold destination_of, destinationTargets. apply elem_of_app. right. destruct (da_targetDirectorySet _).
  - cbn [andb]. destruct (String.eqb_spec (da_targetDirectory (parseDestinationArgs argv spec)) ""); [done|].
    right. apply elem_of_app. left. apply list_elem_of_fmap. by exists w.
  - cbn [andb]. destruct (_ || _); [done|]. unfold last_operand. rewrite Hl. by left.
Qed.

(** The word stands last and is not the value of an option. *)
Definition last_operand_of (argv : list string) (w : string) : Prop :=
  exists c pre, argv = c :: pre ++ [w] /\ is_cluster w = false /\
    forall a, last pre = Some a -> is_cluster a = false.

(** The last word of cp, mv, install, ln, rsync or tee is written. *)
Lemma last_word_written s w spec :
  last_operand_of (s_Argv s) w -> mutatingDestinationCommands (head (s_Argv s)) = Some spec ->
  destination_of (s_Argv s) spec w ∈ writeTargets s.
Proof.
  intros (c & pre & Ha & Hw & Hp) Hspec. unfold writeTargets.
  destruct (s_Argv s) as [|c' args] eqn:Es; [done|]. rewrite <- Es in *.
  assert (Hcmd : forall x, mutatingDestinationCommands x = None -> (head (s_Argv s) =s? x) = false).
  { intros x Hx. apply String.eqb_neq. intros E. rewrite E, Hx in Hspec. discriminate. }
  rewrite (Hcmd "dd" eq_refl), (Hcmd "sed" eq_refl), Hspec. apply destination_written.
  unfold parseDestinationArgs. rewrite Ha. cbn [tail].
  rewrite destination_loop_last by done. cbn [add_operand da_operands]. by rewrite last_snoc.
Qed.

(** Every word that is no option of rm, mkdir and the like is written. *)
Lemma all_words_written s w :
  mutatingAllArgs (head (s_Argv s)) = true -> w ∈ tail (s_Argv s) -> HasPrefix w "-" = false -> w ∈ writeTargets s.
Proof.
  intros Hc Hin Hw. unfold writeTargets. destruct (s_Argv s) as [|c args] eqn:Es; [by apply elem_of_nil in Hin|].
  rewrite <- Es in *. clear Es.
  assert (Hcmd : forall x, mutatingAllArgs x = false -> (head (s_Argv s) =s? x) = false).
  { intros x Hx. apply String.eqb_neq. intros E. rewrite E, Hx in Hc. discriminate. }
  unfold mutatingDestinationCommands. rewrite !Hcmd, Hc by done.
  apply list_elem_of_In, filter_In. split; [by apply list_elem_of_In|]. by rewrite Hw.
Qed.

(** ** Lemmas: directories, dd and tee *)

(** A word that stands for itself. *)
Definition plain_operand (w : string) : Prop := is_cluster w = false /\ w <> "--".

Definition add_operands (ws : list string) (p : destinationArgs) : destinationArgs := foldl (fun p w => add_operand w p) p ws.

Lemma destination_loop_plain spec ws rest : Forall plain_operand ws -> forall p,
  destination_loop spec true false (ws ++ rest) p = destination_loop spec true false rest (add_operands ws p).
Proof.
  induction 1 as [|w ws [Hc Hd] Hp IH]; intros p; [done|]. cbn [app destination_loop].
  apply String.eqb_neq in Hd. rewrite Hd, Hc. apply IH.
Qed.

Lemma operands_added ws : forall p,
  da_operands (add_operands ws p) = da_operands p ++ ws /\
  da_targetDirectory (add_operands ws p) = da_targetDirectory p /\
  da_targetDirectorySet (add_operands ws p) = da_targetDirectorySet p.
Proof.
  induction ws as [|w ws IH]; intros p; [by rewrite app_nil_r|].
  destruct (IH (add_operand w p)) as (E1 & E2 & E3). unfold add_operands in *. cbn [foldl].
  rewrite E1, E2, E3. cbn. by rewrite <- app_assoc.
Qed.

(** The ways to name the directory that a copy goes to. *)
Inductive directory_words (dir : string) : list string -> Prop :=
| dir_short : directory_words dir ["-t"; dir]
| dir_short_attached : directory_words dir ["-t" +:+ dir]
| dir_long : directory_words dir ["--target-directory"; dir]
| dir_long_attached : directory_words dir ["--target-directory=" +:+ dir].

Lemma directory_option spec : ds_targetDirectory spec = true ->
  resolveDestinationLongOption "target-directory" spec = Some ("target-directory", destinationTargetDirectory).
Proof.
  intros H. unfold resolveDestinationLongOption, destination_options. rewrite H.
  unfold set_kinds at 1. cbn [foldl]. by rewrite lookup_insert_eq.
Qed.

Lemma directory_read spec dir ws rest p :
  ds_targetDirectory spec = true -> dir <> "" -> directory_words dir ws ->
  exists q, destination_loop spec true false (ws ++ rest) p = destination_loop spec true false rest q /\
    da_operands q = da_operands p /\ da_targetDirectory q = dir /\ da_targetDirectorySet q = true.
Proof.
  intros Ht Hd Hw. apply String.eqb_neq in Hd.
  destruct Hw; cbn [app destination_loop andb].
  - unfold destination_option. cbn [destination_short]. cbn. rewrite Ht. cbn. eexists. split; [done|].
    by destruct (ContainsByte _ _).
  - change (("-t" +:+ dir =s? "--")) with false. change (is_cluster ("-t" +:+ dir)) with true.
    unfold destination_option. change (HasPrefix ("-t" +:+ dir) "--") with false. change (TrimPrefix ("-t" +:+ dir) "-") with ("t" +:+ dir).
    cbn [String.append destination_short]. cbn. rewrite Ht, Hd. cbn. eexists. split; [done|].
    by destruct (ContainsByte _ _).
  - change ("--target-directory" =s? "--") with false. change (is_cluster "--target-directory") with true.
    change (destination_option spec "--target-directory" (dir :: rest) p) with (destination_long spec "--target-directory" (dir :: rest) p).
    unfold destination_long. change (Cut (TrimPrefix "--target-directory" "--") "=") with ("target-directory", "", false). cbv beta iota zeta.
    rewrite directory_option by done. eexists. split; [done|]. by destruct ("target-directory" =s? _).
  - change (("--target-directory=" +:+ dir =s? "--")) with false. change (is_cluster ("--target-directory=" +:+ dir)) with true.
    unfold destination_option, destination_long. change (HasPrefix ("--target-directory=" +:+ dir) "--") with true.
    change (TrimPrefix ("--target-directory=" +:+ dir) "--") with ("target-directory" +:+ String "=" dir).
    rewrite Cut_app_sep by done. rewrite directory_option by done.
    eexists. split; [done|]. by destruct ("target-directory" =s? _).
Qed.

(** A copy into a directory that an option names writes there a file for every operand. *)
Definition copied_into (argv : list string) (dir w : string) : Prop :=
  exists c pre option post, argv = c :: pre ++ option ++ post /\ dir <> "" /\ directory_words dir option /\
    Forall plain_operand (pre ++ post) /\ w ∈ pre ++ post.

Lemma copy_written s spec dir w :
  copied_into (s_Argv s) dir w -> mutatingDestinationCommands (head (s_Argv s)) = Some spec ->
  ds_targetDirectory spec = true -> JoinPath [dir; Base w] ∈ writeTargets s.
Proof.
  intros (c & pre & option & post & Ha & Hd & Ho & Hp & Hw) Hspec Ht. unfold writeTargets.
  destruct (s_Argv s) as [|c' args] eqn:Es; [done|]. rewrite <- Es in *.
  assert (Hcmd : forall x, mutatingDestinationCommands x = None -> (head (s_Argv s) =s? x) = false).
  { intros x Hx. apply String.eqb_neq. intros E. rewrite E, Hx in Hspec. discriminate. }
  rewrite (Hcmd "dd" eq_refl), (Hcmd "sed" eq_refl), Hspec. unfold destinationTargets, parseDestinationArgs.
  rewrite Ha. cbn [tail]. apply Forall_app in Hp as [Hpre Hpost]. rewrite destination_loop_plain by done.
  destruct (directory_read spec dir option post (add_operands pre no_args) Ht Hd Ho) as (q & -> & Eo & Edir & Eset).
  pose proof (destination_loop_plain spec post [] Hpost q) as El. rewrite app_nil_r in El. rewrite El. cbn [destination_loop].
  destruct (operands_added post q) as (-> & -> & ->). rewrite Eset, Edir, Eo.
  destruct (operands_added pre no_args) as (-> & _ & _). apply String.eqb_neq in Hd. rewrite Hd.
  apply elem_of_app. right. apply elem_of_app. right. apply elem_of_app. left.
  apply list_elem_of_fmap. by exists w.
Qed.

(** dd. *)
Lemma dd_written s w : head (s_Argv s) = "dd" -> ("of=" +:+ w) ∈ tail (s_Argv s) -> w ∈ writeTargets s.
Proof.
  intros Hc Hw. unfold writeTargets. destruct (s_Argv s) as [|c args]; [by apply elem_of_nil in Hw|]. rewrite Hc. cbn [String.eqb].
  apply list_elem_of_fmap. exists ("of=" +:+ w). rewrite TrimPrefix_app. split; [done|].
  apply list_elem_of_In, filter_In. split; [by apply list_elem_of_In|]. done.
Qed.

(** tee: no option takes the next word. *)
Lemma tee_options a rest p : exists q,
  destination_option teeSpec a rest p = (q, false) /\ da_operands q = da_operands p /\
  da_targetDirectorySet q = da_targetDirectorySet p.
Proof.
  unfold destination_option. destruct (HasPrefix a "--").
  - unfold destination_long. destruct (Cut _ _) as [[name value] attached].
    destruct (resolveDestinationLongOption name teeSpec) as [[r kind]|] eqn:E; [|by eexists].
    assert (Hk : kind = destinationFlag \/ kind = destinationOptionalValue).
    { assert (Hall : forall o, o ∈ map_to_list (destination_options teeSpec) -> o.2 = destinationFlag \/ o.2 = destinationOptionalValue).
      { intros o Ho%list_elem_of_In.
        assert (Hb : forallb (fun o => match o.2 with destinationFlag | destinationOptionalValue => true | _ => false end)
                       (map_to_list (destination_options teeSpec)) = true) by (vm_compute; reflexivity).
        rewrite forallb_forall in Hb. specialize (Hb o Ho). destruct o.2; auto; discriminate. }
      apply (Hall (r, kind)). unfold resolveDestinationLongOption in E. clear Hall. revert E.
      generalize (destination_options teeSpec). intros options E. destruct (options !! name) as [k|] eqn:Ek.
      - injection E as <- <-. by apply elem_of_map_to_list.
      - destruct (List.filter _ _) as [|o [|]] eqn:Ef; [discriminate E| |discriminate E]. injection E as ->.
        apply list_elem_of_In. eapply proj1, (filter_In (fun o => HasPrefix o.1 name)). rewrite Ef. by left. }
    destruct (r =s? _), Hk as [-> | ->], attached; eexists; split_and!; reflexivity.
  - generalize (TrimPrefix a "-"). intros short. revert p. induction short as [|c short IH]; intros p; [by eexists|].
    cbn [destination_short]. cbn [teeSpec ds_targetDirectory ds_shortValues ds_allOperandsShort ContainsByte andb].
    match goal with |- context [destination_short _ short rest ?p'] => destruct (IH p') as (q & -> & E1 & E2) end.
    exists q. rewrite E1, E2. by destruct (ContainsByte _ c).
Qed.

(** So every word that is no option is a file to write. *)
Lemma tee_loop w args : plain_operand w -> forall options p,
  (w ∈ args \/ w ∈ da_operands p) ->
  let q := destination_loop teeSpec options false args p in
  w ∈ da_operands q /\ da_targetDirectorySet q = da_targetDirectorySet p.
Proof.
  intros [Hc Hd]. induction args as [|a args IH]; intros options p Hw.
  { destruct Hw as [Hw|Hw]; [by apply elem_of_nil in Hw|done]. }
  cbn [destination_loop]. rewrite elem_of_cons in Hw.
  destruct (options && (a =s? "--")) eqn:Ed.
  { apply andb_true_iff in Ed as [_ Ed]. apply String.eqb_eq in Ed as ->. apply IH.
    destruct Hw as [[Hw|Hw]|Hw]; [done|by left|by right]. }
  destruct (options && is_cluster a) eqn:Ec.
  - destruct (tee_options a args p) as (q & -> & Eo & Es). rewrite <- Es. apply IH. rewrite Eo.
    destruct Hw as [[->|Hw]|Hw]; [|by left|by right]. by rewrite Hc, andb_false_r in Ec.
  - apply (IH options (add_operand a p)). cbn. rewrite elem_of_app, elem_of_cons. tauto.
Qed.

Lemma tee_written s w :
  head (s_Argv s) = "tee" -> w ∈ tail (s_Argv s) -> plain_operand w -> w ∈ writeTargets s.
Proof.
  intros Hc Hin Hw. assert (Ht : destinationTargets (s_Argv s) teeSpec = writeTargets s).
  { unfold writeTargets. destruct (s_Argv s) as [|c args]; [by apply elem_of_nil in Hin|]. by rewrite Hc. }
  rewrite <- Ht. unfold destinationTargets, parseDestinationArgs.
  destruct (tee_loop w _ Hw true no_args (or_introl Hin)) as [Ho ->]. apply elem_of_app. by right.
Qed.
