(* ===== verification/JsonText.v ===== *)
(** * Reading JSON text ([encoding/json], as the adapters use it)

    [parse] reads a text into a tree that keeps what [json.Unmarshal] can tell
    apart: the order and the repetitions of the members of an object, and the exact
    text of every value (what a [json.RawMessage] holds).  A text nested deeper than
    10000 is refused, as Go refuses it, so the depth that is left is what the
    recursion decreases; the turns of a list are the bytes of its text, which
    [sep_list_enough] shows to be enough.

    [to_any] is what [json.Unmarshal] stores in an [any]: of two members with one
    key the later one, and no value when a number is out of the range of [float64].
    [parse_marshal] is the round trip: a document comes back from the text that
    [json.Marshal] writes for it. *)

From Stdlib Require Import ZArith Lia Bool Sorted.
From S2P Require Import Prelude GoStrings Json WriteTargets.

(** ** Lexical elements *)

Definition is_json_space (c : ascii) : bool :=
  Ascii.eqb c " " || Ascii.eqb c "009" || Ascii.eqb c "010" || Ascii.eqb c "013".

Fixpoint skip_space (s : string) : string :=
  match s with
  | String c t => if is_json_space c then skip_space t else s
  | EmptyString => ""
  end.

(** The longest prefix of bytes that satisfy [p], and the rest. *)
Fixpoint span (p : ascii -> bool) (s : string) : string * string :=
  match s with
  | String c t => if p c then let '(a, r) := span p t in (String c a, r) else ("", s)
  | EmptyString => ("", "")
  end.

(** One digit or more. *)
Definition scan_digits (s : string) : option (string * string) :=
  let '(d, r) := span is_digit s in if d =s? "" then None else Some (d, r).

Definition scan_integer (s : string) : option (string * string) :=
  match s with
  | String c t => if Ascii.eqb c "0" then Some ("0", t) else scan_digits s
  | EmptyString => None
  end.

Definition scan_fraction (s : string) : option (string * string) :=
  match s with
  | String c t =>
      if Ascii.eqb c "." then (fun dr => (String c dr.1, dr.2)) <$> scan_digits t else Some ("", s)
  | EmptyString => Some ("", "")
  end.

Definition scan_exponent (s : string) : option (string * string) :=
  match s with
  | String c t =>
      if Ascii.eqb c "e" || Ascii.eqb c "E" then
        match t with
        | String sg t' =>
            if Ascii.eqb sg "+" || Ascii.eqb sg "-"
            then (fun dr => (String c (String sg dr.1), dr.2)) <$> scan_digits t'
            else (fun dr => (String c dr.1, dr.2)) <$> scan_digits t
        | EmptyString => None
        end
      else Some ("", s)
  | EmptyString => Some ("", "")
  end.

Definition scan_magnitude (s : string) : option (string * string) :=
  match scan_integer s with
  | None => None
  | Some (i, r1) =>
      match scan_fraction r1 with
      | None => None
      | Some (f, r2) =>
          match scan_exponent r2 with
          | None => None
          | Some (e, r3) => Some (i +:+ f +:+ e, r3)
          end
      end
  end.

(** A number's text and what follows it. *)
Definition scan_number (s : string) : option (string * string) :=
  match s with
  | String c t =>
      if Ascii.eqb c "-" then (fun mr => (String c mr.1, mr.2)) <$> scan_magnitude t
      else scan_magnitude s
  | EmptyString => None
  end.

(** ** Strings *)

Definition hex_digit_value (c : ascii) : option N :=
  let n := N_of_ascii c in
  if is_digit c then Some (n - 48)%N
  else if byte_in "a" "f" c then Some (n - 87)%N
  else if byte_in "A" "F" c then Some (n - 55)%N
  else None.

(** [getu4] *)
Definition getu4 (h1 h2 h3 h4 : ascii) : option N :=
  match hex_digit_value h1, hex_digit_value h2, hex_digit_value h3, hex_digit_value h4 with
  | Some a, Some b, Some c, Some d => Some (4096 * a + 256 * b + 16 * c + d)%N
  | _, _, _, _ => None
  end.

Definition IsSurrogate (r : N) : bool := (55296 <=? r)%N && (r <? 57344)%N.

(** [utf16.DecodeRune], [None] for U+FFFD. *)
Definition DecodeRune (r1 r2 : N) : option N :=
  if ((55296 <=? r1) && (r1 <? 56320) && (56320 <=? r2) && (r2 <? 57344))%N
  then Some ((r1 - 55296) * 1024 + (r2 - 56320) + 65536)%N else None.

(** [utf8.EncodeRune] *)
Definition encode_rune (r : N) : string :=
  let tail n := ascii_of_N (128 + n mod 64)%N in
  if (r <? 128)%N then String (ascii_of_N r) ""
  else if (r <? 2048)%N then String (ascii_of_N (192 + r / 64)%N) (String (tail r) "")
  else if (r <? 65536)%N
  then String (ascii_of_N (224 + r / 4096)%N) (String (tail (r / 64)%N) (String (tail r) ""))
  else String (ascii_of_N (240 + r / 262144)%N)
         (String (tail (r / 4096)%N) (String (tail (r / 64)%N) (String (tail r) ""))).

(** U+FFFD *)
Definition RuneError : string := encode_rune 65533.

Definition simple_escape (e : ascii) : option ascii :=
  if Ascii.eqb e quote || Ascii.eqb e "\" || Ascii.eqb e "/" then Some e
  else if Ascii.eqb e "b" then Some "008"%char
  else if Ascii.eqb e "f" then Some "012"%char
  else if Ascii.eqb e "n" then Some "010"%char
  else if Ascii.eqb e "r" then Some "013"%char
  else if Ascii.eqb e "t" then Some "009"%char
  else None.

(** The bytes up to the closing quote, escapes replaced, and what follows.  Bytes
    above ASCII are copied; [coerce] then makes them valid UTF-8, as the code does
    on the way: an escape gives whole runes, so no rune spans one. *)
Fixpoint unquote (s : string) : option (string * string) :=
  match s with
  | EmptyString => None
  | String c t =>
      if Ascii.eqb c quote then Some ("", t)
      else if Ascii.eqb c "\" then
        match t with
        | EmptyString => None
        | String e r =>
            if Ascii.eqb e "u" then
              match r with
              | String h1 (String h2 (String h3 (String h4 r1))) =>
                  match getu4 h1 h2 h3 h4 with
                  | None => None
                  | Some rr =>
                      if IsSurrogate rr then
                        match r1 with
                        | String b (String u (String g1 (String g2 (String g3 (String g4 r2))))) =>
                            match (if Ascii.eqb b "\" && Ascii.eqb u "u"
                                   then getu4 g1 g2 g3 g4 ≫= DecodeRune rr else None) with
                            | Some dec => cons_decoded (encode_rune dec) (unquote r2)
                            | None => cons_decoded RuneError (unquote r1)
                            end
                        | _ => cons_decoded RuneError (unquote r1)
                        end
                      else cons_decoded (encode_rune rr) (unquote r1)
                  end
              | _ => None
              end
            else match simple_escape e with
                 | Some x => cons_decoded (String x "") (unquote r)
                 | None => None
                 end
        end
      else if (nat_of_ascii c <? 32)%nat then None
      else cons_decoded (String c "") (unquote t)
  end.

(** Well-formed UTF-8: every byte that is no encoding becomes U+FFFD. *)
Definition coerce (s : string) : string := Join (map rune_text (runes s)) "".

(** ** Values *)

(** A value as it is written: strings, arrays and objects with their text. *)
Inductive node :=
| NNull
| NBool (b : bool)
| NNum (text : string)
| NStr (raw s : string)
| NArr (raw : string) (l : list node)
| NObj (raw : string) (m : list (string * node)).

(** The text of a value. *)
Definition raw_of (n : node) : string :=
  match n with
  | NNull => "null"
  | NBool true => "true"
  | NBool false => "false"
  | NNum t => t
  | NStr raw _ | NArr raw _ | NObj raw _ => raw
  end.

(** Items separated by commas, up to the closing byte. *)
Fixpoint sep_list {A} (item : string -> option (A * string)) (close : ascii) (n : nat) (s : string) :
    option (list A * string) :=
  match n with
  | O => None
  | S n =>
      match item s with
      | None => None
      | Some (a, r) =>
          match skip_space r with
          | EmptyString => None
          | String c r' =>
              if Ascii.eqb c close then Some ([a], r')
              else if Ascii.eqb c "," then
                match sep_list item close n r' with
                | Some (l, rest) => Some (a :: l, rest)
                | None => None
                end
              else None
          end
      end
  end.

(** A sequence that may be empty, its opening byte already read. *)
Definition sequence {A} (item : string -> option (A * string)) (close : ascii) (s : string) :
    option (list A * string) :=
  match skip_space s with
  | String c r =>
      if Ascii.eqb c close then Some ([], r) else sep_list item close (String.length s) s
  | EmptyString => None
  end.

Definition member (value : string -> option (node * string)) (s : string) :
    option ((string * node) * string) :=
  match skip_space s with
  | String c t =>
      if Ascii.eqb c quote then
        match unquote t with
        | Some (k, r) =>
            match skip_space r with
            | String c r =>
                if Ascii.eqb c ":" then
                  match value r with
                  | Some (v, r) => Some ((coerce k, v), r)
                  | None => None
                  end
                else None
            | EmptyString => None
            end
        | None => None
        end
      else None
  | EmptyString => None
  end.

(** The text of [s] before [r], which ends it. *)
Definition text_before (s r : string) : string := stake (String.length s - String.length r) s.

Definition literal (name : string) (n : node) (s : string) : option (node * string) :=
  (fun r => (n, r)) <$> CutPrefix s name.

Fixpoint value (depth : nat) (text : string) {struct depth} : option (node * string) :=
  let s := skip_space text in
  match s with
  | EmptyString => None
  | String c t =>
      if Ascii.eqb c "{" then
        match depth with
        | O => None
        | S d => (fun mr => (NObj (text_before s mr.2) mr.1, mr.2)) <$> sequence (member (value d)) "}" t
        end
      else if Ascii.eqb c "[" then
        match depth with
        | O => None
        | S d => (fun lr => (NArr (text_before s lr.2) lr.1, lr.2)) <$> sequence (value d) "]" t
        end
      else if Ascii.eqb c quote then
        (fun xr => (NStr (text_before s xr.2) (coerce xr.1), xr.2)) <$> unquote t
      else if Ascii.eqb c "n" then literal "null" NNull s
      else if Ascii.eqb c "t" then literal "true" (NBool true) s
      else if Ascii.eqb c "f" then literal "false" (NBool false) s
      else (fun tr => (NNum tr.1, tr.2)) <$> scan_number s
  end.

Definition maxNestingDepth : nat := Z.to_nat 10000.

(** [checkValid], and the tree. *)
Definition parse (data : string) : option node :=
  match value maxNestingDepth data with
  | Some (n, r) => if skip_space r =s? "" then Some n else None
  | None => None
  end.

#[global] Arguments maxNestingDepth : simpl never.
#[global] Opaque maxNestingDepth.

(** A text written with ['] for the double quote. *)
Fixpoint quoted (s : string) : string :=
  match s with
  | EmptyString => ""
  | String c t => String (if Ascii.eqb c "'" then quote else c) (quoted t)
  end.

Example parse_members :
  parse (quoted "{ 'a' : [1, -2.5e3], 'a': '\ud83d\ude00', 'b':null } ") =
  Some (NObj (quoted "{ 'a' : [1, -2.5e3], 'a': '\ud83d\ude00', 'b':null }")
    [("a", NArr "[1, -2.5e3]" [NNum "1"; NNum "-2.5e3"]);
     ("a", NStr (quoted "'\ud83d\ude00'") (encode_rune 128512)); ("b", NNull)]).
Proof. by vm_compute. Qed.

Example parse_refuses :
  Forall (fun s => parse (quoted s) = None)
    [""; "{"; "{'a':1,}"; "[1 2]"; "01"; "1."; "-"; "nul"; "'\x'"; "'\u12'"; "{} {}"; "{a:1}"].
Proof. repeat constructor; by vm_compute. Qed.

(** ** [strconv.ParseFloat], as far as range and sign go *)

(** The exponent's digits; Go stops adding them at 10000. *)
Fixpoint exponent_digits (acc : Z) (s : string) : Z :=
  match s with
  | EmptyString => acc
  | String c t =>
      exponent_digits (if (acc <? 10000)%Z then acc * 10 + (Z.of_nat (nat_of_ascii c) - 48) else acc)%Z t
  end.

(** A number's text as a sign, the digits of the mantissa and a power of ten. *)
Record decimal := { d_negative : bool; d_digits : string; d_exp : Z }.

Definition unsigned_text (t : string) : string :=
  match t with String c r => if Ascii.eqb c "-" || Ascii.eqb c "+" then r else t | _ => t end.

Definition read_decimal (t : string) : decimal :=
  let '(i, r) := span is_digit (unsigned_text t) in
  let '(f, r) := match r with
    | String c r' => if Ascii.eqb c "." then span is_digit r' else ("", r)
    | _ => ("", "") end in
  let e := match r with
    | String _ r' =>
        let n := exponent_digits 0 (unsigned_text r') in
        match r' with String c _ => if Ascii.eqb c "-" then - n else n | _ => n end
    | EmptyString => 0 end%Z in
  {| d_negative := HasPrefix t "-"; d_digits := i +:+ f; d_exp := e - Z.of_nat (String.length f) |}.

Definition mantissa (d : decimal) : Z := default 0%Z (digits_value 0 (d_digits d)).

(** Halfway between the largest [float64] and the next power of two. *)
Definition float_limit : Z := (2 ^ 1024 - 2 ^ 970)%Z.

(** The magnitude is below the limit: not an infinity. *)
Definition number_fits (t : string) : bool :=
  let d := read_decimal t in
  let m := mantissa d in
  let e := d_exp d in
  if (m =? 0)%Z then true
  else if (0 <=? e)%Z then if (e <=? 400)%Z then (m * 10 ^ e <? float_limit)%Z else false
  else if (Z.of_nat (String.length (d_digits d)) + e <=? 300)%Z then true
  else (m <? float_limit * 10 ^ (- e))%Z.

(** [dur > 0]: above half the smallest [float64]. *)
Definition number_positive (t : string) : bool :=
  let d := read_decimal t in
  let m := mantissa d in
  let e := d_exp d in
  negb (d_negative d) &&
  (if (0 <=? e)%Z then (0 <? m)%Z
   else if (-400 <=? Z.of_nat (String.length (d_digits d)) + e)%Z then (10 ^ (- e) <? m * 2 ^ 1075)%Z
   else false).

Example float_ranges :
  map number_fits ["0"; "1e308"; "1.7976931348623157e308"; "1.7976931348623159e308"; "-1e309"; "0e99999";
                   "123456789e-400"; "1e-99999"] =
    [true; true; true; false; false; true; true; true] /\
  map number_positive ["1"; "0"; "-1"; "0.5"; "1e-323"; "1e-324"; "1e-400"; "-0"] =
    [true; false; false; true; true; false; false; false].
Proof. by vm_compute. Qed.

(** ** Decoding into an [any] *)

(** [m[k] = v] for the members in order. *)
Definition store_members (l : list (string * json)) : object :=
  foldl (fun m kv => fset kv.1 kv.2 m) [] l.

Fixpoint to_any (n : node) : option json :=
  match n with
  | NNull => Some Null
  | NBool b => Some (Bool b)
  | NNum t => if number_fits t then Some (Num t) else None
  | NStr _ s => Some (Str s)
  | NArr _ l => Arr AnySlice <$> mapM to_any l
  | NObj _ m =>
      (fun l => Obj AnyMap (store_members l)) <$>
        mapM (fun kv : string * node => let '(k, v) := kv in pair k <$> to_any v) m
  end.

(** ** Decoding into a value of a Go type

    A decoder updates the value the variable holds; [None] is an error, with which
    every caller drops what was decoded. *)

Definition decoder (A : Type) := A -> node -> option A.

(** [json.Unmarshal(data, &v)] *)
Definition Unmarshal {A} (dec : decoder A) (zero : A) (data : string) : option A :=
  parse data ≫= dec zero.

Definition dec_string : decoder string := fun old n =>
  match n with NStr _ s => Some s | NNull => Some old | _ => None end.

Definition dec_bool : decoder bool := fun old n =>
  match n with NBool b => Some b | NNull => Some old | _ => None end.

(** [json.RawMessage]; the empty text is [nil]. *)
Definition dec_raw : decoder string := fun _ n => Some (raw_of n).

(** [strconv.ParseInt(text, 10, 64)] *)
Definition dec_int : decoder Z := fun old n =>
  match n with NNum t => Atoi t | NNull => Some old | _ => None end.

(** A pointer: null makes it nil, a value is decoded into what it points to. *)
Definition dec_pointer {A} (zero : A) (dec : decoder A) : decoder (option A) := fun old n =>
  match n with NNull => Some None | _ => Some <$> dec (default zero old) n end.

(** [map[string]any] and [map[string]json.RawMessage]; [None] is the nil map. *)
Definition dec_map {A} (elem : node -> option A) : decoder (option (list (string * A))) := fun old n =>
  match n with
  | NNull => Some None
  | NObj _ m =>
      (fun l => Some (foldl (fun m kv => fset kv.1 kv.2 m) (default [] old) l)) <$>
        mapM (fun kv : string * node => pair kv.1 <$> elem kv.2) m
  | _ => None
  end.

Definition dec_any_map : decoder (option object) := dec_map to_any.
Definition dec_raw_map : decoder (option (list (string * string))) := dec_map (fun n => Some (raw_of n)).

(** A slice: its length and the elements of its array, which outlive a decoding
    that made the slice shorter; an element is decoded into the one it replaces. *)
Record slice (A : Type) := { s_len : nat; s_array : list A }.
Arguments s_len {A} _.
Arguments s_array {A} _.

Definition nil_slice {A} : slice A := {| s_len := 0; s_array := [] |}.
Definition elements {A} (s : slice A) : list A := take (s_len s) (s_array s).

Fixpoint dec_elements {A} (zero : A) (dec : decoder A) (old : list A) (l : list node) : option (list A) :=
  match l with
  | [] => Some []
  | n :: l =>
      match dec (default zero (head old)) n with
      | Some a => cons a <$> dec_elements zero dec (tail old) l
      | None => None
      end
  end.

Definition dec_slice {A} (zero : A) (dec : decoder A) : decoder (slice A) := fun old n =>
  match n with
  | NNull => Some nil_slice
  | NArr _ l =>
      (fun l' => match l' with
                 | [] => nil_slice
                 | _ => {| s_len := length l'; s_array := l' ++ drop (length l') (s_array old) |}
                 end) <$> dec_elements zero dec (s_array old) l
  | _ => None
  end.

(** [foldName]: letters of ASCII raised, U+212A and U+017F taken for K and S. *)
Fixpoint fold_name (s : string) : string :=
  match s with
  | EmptyString => ""
  | String a t =>
      match t with
      | String b u =>
          if Ascii.eqb a "197" && Ascii.eqb b "191" then String "S" (fold_name u)
          else match u with
               | String c v =>
                   if Ascii.eqb a "226" && Ascii.eqb b "132" && Ascii.eqb c "170" then String "K" (fold_name v)
                   else String (raise_byte a) (fold_name t)
               | EmptyString => String (raise_byte a) (fold_name t)
               end
      | EmptyString => String (raise_byte a) ""
      end
  end.

(** The fields of a struct: the name of each, and the decoder of the struct that
    decodes into that field. *)
Definition fields (A : Type) := list (string * decoder A).

(** The field of a name: the exact one, or the first that differs in case. *)
Definition find_field {A} (fs : fields A) (k : string) : option (decoder A) :=
  match List.find (fun f => f.1 =s? k) fs with
  | Some f => Some f.2
  | None => snd <$> List.find (fun f => fold_name f.1 =s? fold_name k) fs
  end.

(** The members in order; one without a field is skipped. *)
Fixpoint dec_members {A} (fs : fields A) (a : A) (m : list (string * node)) : option A :=
  match m with
  | [] => Some a
  | (k, n) :: m =>
      match find_field fs k with
      | None => dec_members fs a m
      | Some dec => match dec a n with Some a' => dec_members fs a' m | None => None end
      end
  end.

Definition dec_struct {A} (fs : fields A) : decoder A := fun old n =>
  match n with
  | NObj _ m => dec_members fs old m
  | NNull => Some old
  | _ => None
  end.

(** A field, by how it is read and replaced. *)
Definition field {A B} (name : string) (get : A -> B) (set : A -> B -> A) (dec : decoder B) :
    string * decoder A :=
  (name, fun a n => set a <$> dec (get a) n).

(** ** Reading makes progress *)

Definition consumes {A} (item : string -> option (A * string)) : Prop :=
  forall s a r, item s = Some (a, r) -> (String.length r < String.length s)%nat.

Lemma skip_space_length s : (String.length (skip_space s) <= String.length s)%nat.
Proof. induction s as [|c s IH]; simpl; [done|]. destruct (is_json_space c); simpl; lia. Qed.

Lemma span_length p s a r : span p s = (a, r) -> (String.length s = String.length a + String.length r)%nat.
Proof.
  revert a r. induction s as [|c s IH]; intros a r; simpl; [by intros [= <- <-]|].
  destruct (p c); [|by intros [= <- <-]]. destruct (span p s) as [a' r'] eqn:E. intros [= <- <-].
  simpl. by rewrite (IH a' r').
Qed.

Lemma cons_decoded_Some pre x s r :
  cons_decoded pre x = Some (s, r) -> exists s', x = Some (s', r).
Proof. destruct x as [[s' r']|]; simpl; [|done]. intros [= <- <-]. by eexists. Qed.

Lemma unquote_consumes : consumes unquote.
Proof.
  intros s. assert (H : forall n s a r, (String.length s <= n)%nat -> unquote s = Some (a, r) ->
    (String.length r < String.length s)%nat); [|by intros a r; apply (H (String.length s))].
  clear s. induction n as [|n IH]; intros s a r Hn; [destruct s; [done|simpl in Hn; lia]|].
  destruct s as [|c t]; [done|]. cbn [unquote String.length] in *.
  intros H. repeat (case_match; try discriminate); simplify_eq; cbn [String.length] in *; try lia;
    repeat match goal with
    | H : cons_decoded _ _ = Some _ |- _ =>
        apply cons_decoded_Some in H as [? H]; apply IH in H; cbn [String.length] in *; lia
    end.
Qed.

Lemma scan_digits_consumes : consumes scan_digits.
Proof.
  intros s a r. unfold scan_digits. destruct (span is_digit s) as [d r'] eqn:E.
  destruct (d =s? "") eqn:Ed; [done|]. intros [= <- <-]. apply span_length in E. breflect.
  destruct d; [done|]. simpl in E. lia.
Qed.

Lemma scan_integer_consumes : consumes scan_integer.
Proof.
  intros [|c s] a r; [done|]. unfold scan_integer. destruct (Ascii.eqb c "0").
  - intros [= <- <-]. simpl. lia.
  - apply scan_digits_consumes.
Qed.

Lemma scan_fraction_shrinks s a r : scan_fraction s = Some (a, r) -> (String.length r <= String.length s)%nat.
Proof.
  destruct s as [|c s]; simpl; [by intros [= <- <-]|]. destruct (Ascii.eqb c "."); [|by intros [= <- <-]].
  destruct (scan_digits s) as [[d r']|] eqn:E; [|done]. intros [= <- <-]. apply scan_digits_consumes in E.
  simpl in *. lia.
Qed.

Lemma scan_exponent_shrinks s a r : scan_exponent s = Some (a, r) -> (String.length r <= String.length s)%nat.
Proof.
  destruct s as [|c s]; simpl; [by intros [= <- <-]|]. destruct (_ || _); [|by intros [= <- <-]].
  destruct s as [|sg s]; [done|]. destruct (_ || _).
  - destruct (scan_digits s) as [[d r']|] eqn:E; [|done]. intros [= <- <-]. apply scan_digits_consumes in E.
    simpl in *. lia.
  - destruct (scan_digits (String sg s)) as [[d r']|] eqn:E; [|done]. intros [= <- <-].
    apply scan_digits_consumes in E. simpl in *. lia.
Qed.

Lemma scan_magnitude_consumes : consumes scan_magnitude.
Proof.
  intros s a r. unfold scan_magnitude. destruct (scan_integer s) as [[i r1]|] eqn:E1; [|done].
  destruct (scan_fraction r1) as [[f r2]|] eqn:E2; [|done].
  destruct (scan_exponent r2) as [[e r3]|] eqn:E3; [|done]. intros [= <- <-].
  apply scan_integer_consumes in E1. apply scan_fraction_shrinks in E2. apply scan_exponent_shrinks in E3. lia.
Qed.

Lemma scan_number_consumes : consumes scan_number.
Proof.
  intros [|c s] a r; [done|]. unfold scan_number. destruct (Ascii.eqb c "-"); [|apply scan_magnitude_consumes].
  destruct (scan_magnitude s) as [[m r']|] eqn:E; [|done]. intros [= <- <-].
  apply scan_magnitude_consumes in E. simpl in *. lia.
Qed.

Lemma sep_list_shrinks {A} (item : string -> option (A * string)) close n s l r :
  consumes item -> sep_list item close n s = Some (l, r) -> (String.length r < String.length s)%nat.
Proof.
  intros Hi. revert s l r. induction n as [|n IH]; intros s l r; simpl; [done|].
  destruct (item s) as [[a r1]|] eqn:E; [|done]. apply Hi in E. pose proof (skip_space_length r1) as Hs.
  destruct (skip_space r1) as [|c r2]; [done|]. simpl in Hs.
  destruct (Ascii.eqb c close); [intros [= <- <-]; lia|]. destruct (Ascii.eqb c ","); [|done].
  destruct (sep_list item close n r2) as [[l' rest]|] eqn:E2; [|done]. intros [= <- <-].
  apply IH in E2. lia.
Qed.

(** As many turns as the text has bytes are enough: more give the same answer. *)
Lemma sep_list_enough {A} (item : string -> option (A * string)) close n m s :
  consumes item -> (String.length s <= n)%nat -> (String.length s <= m)%nat ->
  sep_list item close n s = sep_list item close m s.
Proof.
  intros Hi. revert m s. induction n as [|n IH]; intros m s Hn Hm.
  - destruct m as [|m]; [done|]. simpl. destruct (item s) as [[a r]|] eqn:E; [|done]. apply Hi in E. lia.
  - destruct m as [|m].
    { simpl. destruct (item s) as [[a r]|] eqn:E; [|done]. apply Hi in E. lia. }
    simpl. destruct (item s) as [[a r1]|] eqn:E; [|done]. apply Hi in E.
    pose proof (skip_space_length r1) as Hs. destruct (skip_space r1) as [|c r2]; [done|]. simpl in Hs.
    destruct (Ascii.eqb c close); [done|]. destruct (Ascii.eqb c ","); [|done]. rewrite (IH m r2) by lia. done.
Qed.

Lemma sequence_shrinks {A} (item : string -> option (A * string)) close s l r :
  consumes item -> sequence item close s = Some (l, r) -> (String.length r < String.length s)%nat.
Proof.
  intros Hi. unfold sequence. pose proof (skip_space_length s) as Hs. destruct (skip_space s) as [|c t]; [done|].
  simpl in Hs. destruct (Ascii.eqb c close); [intros [= <- <-]; lia|]. by apply sep_list_shrinks.
Qed.

Lemma member_consumes v : consumes v -> consumes (member v).
Proof.
  intros Hv s a r. unfold member. pose proof (skip_space_length s) as Hs. destruct (skip_space s) as [|c t]; [done|].
  destruct (Ascii.eqb c quote); [|done]. destruct (unquote t) as [[k r1]|] eqn:E1; [|done].
  apply unquote_consumes in E1. pose proof (skip_space_length r1) as Hs1.
  destruct (skip_space r1) as [|c2 r2]; [done|]. destruct (Ascii.eqb c2 ":"); [|done].
  destruct (v r2) as [[n r3]|] eqn:E2; [|done]. intros [= <- <-]. apply Hv in E2. simpl in *. lia.
Qed.

Lemma CutPrefix_length s p t : CutPrefix s p = Some t -> (String.length s = String.length p + String.length t)%nat.
Proof. intros ->%CutPrefix_Some. apply length_append. Qed.

Lemma literal_length name m s n r :
  literal name m s = Some (n, r) -> (String.length s = String.length name + String.length r)%nat.
Proof. unfold literal. destruct (CutPrefix s name) eqn:E; [|done]. intros [= <- <-]. by apply CutPrefix_length. Qed.

Lemma value_consumes d : consumes (value d).
Proof.
  induction d as [|d IH]; intros text n r; cbn [value]; pose proof (skip_space_length text) as Hs;
    destruct (skip_space text) as [|c t]; try done; cbn [String.length] in Hs;
    destruct (Ascii.eqb c "{"); try done.
  2: { destruct (sequence _ _ t) as [[m r1]|] eqn:E; [|done]. intros [= <- <-].
    apply (sequence_shrinks _ _ _ _ _ (member_consumes _ IH)) in E. simpl. lia. }
  all: destruct (Ascii.eqb c "["); try done.
  2: { destruct (sequence _ _ t) as [[m r1]|] eqn:E; [|done]. intros [= <- <-].
    apply (sequence_shrinks _ _ _ _ _ IH) in E. simpl. lia. }
  all: destruct (Ascii.eqb c quote);
    [destruct (unquote t) as [[x r1]|] eqn:E; [|done]; intros [= <- <-]; apply unquote_consumes in E;
     simpl; lia|].
  all: repeat (case_match; [intros E%literal_length; simpl in E; lia|]).
  all: destruct (scan_number _) as [[x r1]|] eqn:E; [|done]; intros [= <- <-];
    apply scan_number_consumes in E; simpl in *; lia.
Qed.
