(* ===== verification/OverlayFile.v ===== *)
(** * Loading the Overlay ([internal/policy/config.go])

    [LoadOverlay] turns the repository's [guardrail.toml] into an [Overlay]: the size
    limit, the decoder's answer, unknown keys, the posture and the settings of the Odoo
    recipe, whose commands run on the operator's machine.  The TOML decoder is a
    library: it is a parameter, from the text to the decoded fields and the keys that
    were not decoded. *)

From Stdlib Require Import ZArith Lia Bool.
From stdpp Require Import pretty.
From S2P Require Import Prelude GoStrings GoPath Policy Merge Argv Engine Hook Simple GitRepo RepoRoot WriteTargets.

Definition maxOverlayBytes : Z := 1048576.
Definition maxUnknownKeyWarnings : nat := 5.

(** One entry of [rules]. *)
Record rule_file := {
  rf_ID : string;
  rf_Tool : string;
  rf_Pattern : string;
  rf_Decision : string;
  rf_Reason : string;
  rf_Waive : list string;
}.

(** What the decoder fills. *)
Record overlay_file := {
  f_EngineMinVersion : string;
  f_AuditLog : string;
  f_UnknownToolPosture : string;
  f_Waive : list string;
  f_SafeRoots : list string;
  f_SecretDirs : list string;
  f_SecretGlobs : list string;
  f_SecretAskGlobs : list string;
  f_SecretAllow : list string;
  f_EgressAllowlist : list string;
  f_WebHosts : list string;
  f_Odoo : option OdooRecipeConfig;
  f_Rules : list rule_file;
}.

(** ** The Odoo recipe *)

Definition looksLikeWindowsDrivePath (value : string) : bool :=
  match value with String d (String ":" _) => is_letter d | _ => false end.

(** A rune of a module or database name. *)
Definition literal_rune (r : string) : bool :=
  match r with
  | String c EmptyString => is_letter c || is_digit c || Ascii.eqb c "_" || Ascii.eqb c "-" || Ascii.eqb c "."
  | _ => false
  end.

(** The error of one of the two names. *)
Definition name_error (name value : string) : option string :=
  if value =s? "" then Some ("recipes.odoo." +:+ name +:+ " is required; unresolved recipe values fail closed")
  else if HasPrefix value "-" then Some ("recipes.odoo." +:+ name +:+ " must not begin with an option prefix")
  else if negb (forallb literal_rune (runes value))
  then Some ("recipes.odoo." +:+ name +:+ " must be a literal command argument")
  else None.

(** A path that is not below the repository's root, in either reading of a backslash. *)
Definition leaves_repository (p : string) : bool :=
  let clean := Clean p in
  let forwardSlashClean := Clean (ReplaceByte p "\" slash) in
  IsAbs p || looksLikeWindowsDrivePath p || HasPrefix p "/" || HasPrefix p "\" ||
  in_list clean ["."; ".."] || HasPrefix clean "../" ||
  (forwardSlashClean =s? "..") || HasPrefix forwardSlashClean "../".

(** [None] is a valid configuration. *)
Definition validateOdooRecipeConfig (config : OdooRecipeConfig) : option string :=
  match name_error "module" (odoo_Module config) with
  | Some e => Some e
  | None =>
      match name_error "test_database" (odoo_TestDatabase config) with
      | Some e => Some e
      | None =>
          if odoo_RelaxNG config =s? ""
          then Some "recipes.odoo.relax_ng is required; unresolved recipe values fail closed"
          else if leaves_repository (odoo_RelaxNG config)
          then Some "recipes.odoo.relax_ng must be a repository-relative file path"
          else if ContainsAny (odoo_RelaxNG config) "$%*?{}"
          then Some "recipes.odoo.relax_ng must be a literal repository-relative path"
          else None
      end
  end.

(** ** Unknown keys *)

Section Load.

(** [toml.Decode]: the fields and [metadata.Undecoded()]; and [Key.String]. *)
Context (Decode : string -> option (overlay_file * list (list string))).
Context (key_String : list string -> string).

(** The prefixes of a key, from its first part on. *)
Definition key_prefixes (key : list string) : list string :=
  map (fun i => key_String (take i key)) (seq 1 (length key)).

(** The loop over the undecoded keys: [None] is the error of a recipe setting. *)
Fixpoint unknown_keys (reported : list string) (keys : list (list string)) : option (list string) :=
  match keys with
  | [] => Some []
  | key :: keys =>
      if bool_decide (List.hd_error key = Some "recipes") then None
      else if existsb (fun p => in_list p reported) (key_prefixes key) then unknown_keys reported keys
      else (fun l => key_String key :: l) <$> unknown_keys (reported ++ [key_String key]) keys
  end.

Definition more_warning (pth : string) (n : nat) : string :=
  "guardrail: overlay " +:+ pth +:+ " has " +:+ pretty (Z.of_nat n) +:+ " more unknown keys (ignored)".
Definition key_warning (pth key : string) : string :=
  "guardrail: overlay " +:+ pth +:+ " has unknown key " +:+ key +:+
  " (ignored; check the spelling against guardrail.toml.example)".

Definition key_warnings (pth : string) (unknownKeys : list string) : list string :=
  map (key_warning pth) (take maxUnknownKeyWarnings unknownKeys) ++
  (if (maxUnknownKeyWarnings <? length unknownKeys)%nat
   then [more_warning pth (length unknownKeys - maxUnknownKeyWarnings)] else []).

Definition overlay_rule (r : rule_file) : Rule :=
  {| r_ID := rf_ID r; r_Tool := rf_Tool r; r_Pattern := rf_Pattern r;
     r_Decision := decision_of_string (rf_Decision r); r_Reason := rf_Reason r |}.

Definition overlay_of (pth : string) (f : overlay_file) (posture : string) (warnings : list string) : Overlay :=
  {| ov_EngineMinVersion := f_EngineMinVersion f; ov_AuditLog := f_AuditLog f;
     ov_UnknownToolPosture := posture;
     ov_SafeRoots := f_SafeRoots f; ov_SecretDirs := f_SecretDirs f; ov_SecretGlobs := f_SecretGlobs f;
     ov_SecretAskGlobs := f_SecretAskGlobs f; ov_SecretAllow := f_SecretAllow f;
     ov_EgressAllowlist := f_EgressAllowlist f; ov_WebHosts := f_WebHosts f;
     ov_Recipes := f_Odoo f; ov_Rules := map overlay_rule (f_Rules f);
     ov_Waive := f_Waive f ++ flat_map rf_Waive (f_Rules f);
     ov_Path := pth; ov_Warnings := warnings |}.

Inductive OverlayError :=
| OverTheLimit | CannotRead | CannotParse
| UnsupportedRecipe
| BadPosture (e : string)
| BadRecipe (e : string).

(** From the text of the file on. *)
Definition parse_overlay (pth raw : string) : result OverlayError Overlay :=
  match Decode raw with
  | None => Err CannotParse
  | Some (f, undecoded) =>
      match unknown_keys [] undecoded with
      | None => Err UnsupportedRecipe
      | Some unknown =>
          let posture := if f_UnknownToolPosture f =s? "" then Ok ""
                         else ParseUnknownToolPosture (f_UnknownToolPosture f) in
          match posture with
          | Err e => Err (BadPosture e)
          | Ok posture =>
              match f_Odoo f ≫= validateOdooRecipeConfig with
              | Some e => Err (BadRecipe e)
              | None => Ok (overlay_of pth f posture (key_warnings pth unknown))
              end
          end
      end
  end.

(** [contents]: what reading the whole file gives; [None] is an error of opening or
    reading it. *)
Definition LoadOverlay (g : GitHost) (contents : string -> option string) (pth : string) :
    result OverlayError Overlay :=
  let stat_over := match gh_stat g pth with Some info => (maxOverlayBytes <? fi_size info)%Z | None => false end in
  if stat_over then Err OverTheLimit
  else match contents pth with
  | None => Err CannotRead
  | Some data =>
      let raw := stake (Z.to_nat (maxOverlayBytes + 1)) data in
      if (maxOverlayBytes <? Z.of_nat (String.length raw))%Z then Err OverTheLimit
      else parse_overlay pth raw
  end.

(** The overlay of one hook call, as [cmdHook] reads it. *)
Definition overlay_read (h : RepoHost) (contents : string -> option string) (cwd : string) : OverlayRead :=
  match (FindOverlayPath h cwd).1 with
  | None => NoOverlay
  | Some pth => match LoadOverlay (rh_git h) contents pth with Ok ov => OverlayLoaded ov | Err _ => OverlayFails end
  end.

End Load.

(** ** Facts *)

Lemma Split_slash a t : Split (a +:+ String slash t) slash = Split a slash ++ Split t slash.
Proof.
  rewrite <- (Join_Split a slash) at 1. change (String slash "") with sep. apply Split_Join_app.
  - apply Split_not_nil.
  - apply Forall_forall. intros w. apply Split_no_sep.
Qed.

(** A relative scan that keeps no [..] goes the same way on top of any stack. *)
Lemma dotdot_kept stack c : ".." ∈ stack -> ".." ∈ clean_step false stack c.
Proof.
  intros H. unfold clean_step. destruct (_ || _); [done|]. destruct (c =s? ".."); [|by right].
  destruct stack as [|t stack]; [by left|]. destruct (t =s? "..") eqn:E; [by left|].
  apply elem_of_cons in H as [<-|H]; [done|done].
Qed.

Lemma dotdot_scanned comps stack : ".." ∈ stack -> ".." ∈ foldl (clean_step false) stack comps.
Proof. revert stack. induction comps as [|c comps IH]; intros stack H; [done|]. by apply IH, dotdot_kept. Qed.

Lemma scan_on_top comps stack base :
  ".." ∉ foldl (clean_step false) stack comps ->
  foldl (clean_step true) (stack ++ base) comps = foldl (clean_step false) stack comps ++ base.
Proof.
  revert stack. induction comps as [|c comps IH]; intros stack H; [done|]. cbn [foldl] in *.
  assert (Hc : ".." ∉ clean_step false stack c) by (intros Hc; by apply H, dotdot_scanned).
  rewrite <- IH by done. f_equal. unfold clean_step in *. destruct (_ || _); [done|].
  destruct (c =s? ".."); [|done]. destruct stack as [|t stack]; [by destruct Hc; left|].
  cbn [app]. destruct (t =s? ".."); [by destruct Hc; left|done].
Qed.

(** A relative path that does not begin by going up. *)
Definition goes_up (p : string) : bool := (Clean p =s? "..") || HasPrefix (Clean p) "../".

Lemma clean_stack_no_dotdot p : IsAbs p = false -> goes_up p = false -> ".." ∉ clean_stack p.
Proof.
  intros Ha. unfold goes_up, Clean. rewrite Ha. destruct (clean_stack_ok p) as (names & ups & -> & Hn & _).
  assert (Hnames : ".." ∉ names) by (intros H; rewrite Forall_forall in Hn; by apply Hn in H as [_ ?]).
  destruct ups as [|ups]; [by rewrite app_nil_r|]. rewrite rev_app_distr.
  assert (rev (replicate (S ups) "..") = replicate (S ups) "..") as -> by (rewrite rev_alt; apply reverse_replicate).
  cbn [replicate app]. by destruct (replicate ups ".." ++ rev names).
Qed.

(** Joined to a root, such a path stays below it. *)
Lemma join_inside root p :
  IsAbs root = true -> p <> "" -> IsAbs p = false -> goes_up p = false ->
  elements (Clean (JoinPath [root; p])) = elements (Clean root) ++ rev (clean_stack p).
Proof.
  intros Hr Hne Ha Hup. unfold JoinPath. cbn [List.filter].
  assert ((root <>s? "") = true) as -> by (apply negb_true_iff, String.eqb_neq; by intros ->).
  assert ((p <>s? "") = true) as -> by by apply negb_true_iff, String.eqb_neq.
  cbn [Join]. rewrite Clean_Clean, !elements_Clean, Hr.
  change (sep +:+ p) with (String slash p). assert (IsAbs (root +:+ String slash p) = true) as Hj by by apply IsAbs_app.
  rewrite Hj. unfold clean_stack at 1. rewrite Hj, Split_slash, foldl_app.
  assert (foldl (clean_step true) [] (Split root slash) = clean_stack root) as -> by by unfold clean_stack; rewrite Hr.
  pose proof (clean_stack_no_dotdot p Ha Hup) as Hd. unfold clean_stack in Hd. rewrite Ha in Hd.
  pose proof (scan_on_top _ [] (clean_stack root) Hd) as Hs. cbn [app] in Hs. rewrite Hs, rev_app_distr.
  f_equal. f_equal. unfold clean_stack. by rewrite Ha.
Qed.

Lemma ReplaceByte_abs p : IsAbs p = false -> HasPrefix p "\" = false -> IsAbs (ReplaceByte p "\" slash) = false.
Proof.
  destruct p as [|c p]; [done|]. unfold IsAbs. cbn [ReplaceByte]. intros Hs Hb.
  destruct (Ascii.eqb c "\") eqn:E; [|done]. apply Ascii.eqb_eq in E as ->. by destruct p.
Qed.

(** A path in the directory [root] or below it. *)
Definition inside (root target : string) : Prop :=
  exists rest, elements (Clean target) = elements (Clean root) ++ rest.

(** One word of a command line, whatever reads it: no option, no path, nothing to expand. *)
Definition plain_word (w : string) : Prop :=
  w <> "" /\ HasPrefix w "-" = false /\ Forall (fun r => literal_rune r = true) (runes w).

Lemma name_error_plain name value : name_error name value = None -> plain_word value.
Proof.
  unfold name_error, plain_word. destruct (value =s? "") eqn:E1; [done|]. destruct (HasPrefix value "-"); [done|].
  destruct (forallb literal_rune (runes value)) eqn:E2; [|done]. intros _. breflect. split_and!; [done|done|].
  apply Forall_forall. intros r Hr. rewrite forallb_forall in E2. by apply E2, list_elem_of_In.
Qed.

(** The schema of a configuration that is accepted. *)
Lemma odoo_relaxng_inside config :
  validateOdooRecipeConfig config = None -> forall root, IsAbs root = true ->
  strictly_inside root (JoinPath [root; odoo_RelaxNG config]) /\
  inside root (JoinPath [root; ReplaceByte (odoo_RelaxNG config) "\" slash]).
Proof.
  unfold validateOdooRecipeConfig. destruct (name_error "module" _); [done|]. destruct (name_error "test_database" _); [done|].
  destruct (odoo_RelaxNG config =s? "") eqn:E3; [done|]. destruct (leaves_repository _) eqn:E4; [done|].
  intros _ root Hr. breflect.
  unfold leaves_repository in E4. rewrite !orb_false_iff in E4.
  destruct E4 as [[[[[[[Ha _] _] Hb] Hc] Hp] Hf] Hfp].
  unfold in_list in Hc. cbn [existsb] in Hc. rewrite !orb_false_iff in Hc. destruct Hc as [Hdot [Hdd _]].
  split.
  - exists (rev (clean_stack (odoo_RelaxNG config))). split.
    + intros Hn. apply String.eqb_neq in Hdot. apply Hdot. unfold Clean. by rewrite Ha, Hn.
    + apply join_inside; try done. unfold goes_up. rewrite Hp. by rewrite Hdd.
  - eexists. apply join_inside; [done| |by apply ReplaceByte_abs|by unfold goes_up; rewrite Hf, Hfp].
    by destruct (odoo_RelaxNG config).
Qed.

(** An Odoo configuration that is accepted names modules and databases that are plain
    words, and a schema inside the repository it is joined to, whether a backslash is a
    letter of a name or separates names. *)
Theorem odoo_config_confined config :
  validateOdooRecipeConfig config = None ->
  plain_word (odoo_Module config) /\ plain_word (odoo_TestDatabase config) /\
  forall root, IsAbs root = true ->
    strictly_inside root (JoinPath [root; odoo_RelaxNG config]) /\
    inside root (JoinPath [root; ReplaceByte (odoo_RelaxNG config) "\" slash]).
Proof.
  intros H. split_and!; [| |by apply odoo_relaxng_inside]; revert H; unfold validateOdooRecipeConfig;
    destruct (name_error "module" _) eqn:E1; [done| |done|]; destruct (name_error "test_database" _) eqn:E2;
    [done| |done|]; intros _; by eapply name_error_plain.
Qed.

Lemma key_warnings_bounded pth unknown : (length (key_warnings pth unknown) <= S maxUnknownKeyWarnings)%nat.
Proof.
  unfold key_warnings. generalize maxUnknownKeyWarnings as n. intros n.
  rewrite length_app, length_map, length_take. destruct (n <? length unknown)%nat; cbn [length]; lia.
Qed.

(** What loads was checked: the posture is one of the two, a recipe is valid, and the
    repository cannot fill the list of warnings, whatever keys it makes up. *)
Lemma loaded_overlay_checked Decode key_String g contents pth ov :
  LoadOverlay Decode key_String g contents pth = Ok ov ->
  ov_UnknownToolPosture ov ∈ [""; UnknownAudit; UnknownDeny] /\
  (forall config, ov_Recipes ov = Some config -> validateOdooRecipeConfig config = None) /\
  (length (ov_Warnings ov) <= S maxUnknownKeyWarnings)%nat.
Proof.
  unfold LoadOverlay. destruct (match gh_stat g pth with Some _ => _ | None => _ end); [done|].
  destruct (contents pth) as [data|]; [|done]. destruct (_ <? _)%Z; [done|]. unfold parse_overlay.
  destruct (Decode _) as [[f undecoded]|]; [|done]. destruct (unknown_keys _ _ _) as [unknown|]; [|done].
  destruct (if f_UnknownToolPosture f =s? "" then _ else _) as [posture|e] eqn:Ep; [|done].
  destruct (f_Odoo f ≫= validateOdooRecipeConfig) eqn:Er; [done|]. intros [= <-].
  split_and!; [|cbn [overlay_of ov_Recipes]|apply key_warnings_bounded].
  - cbn [overlay_of ov_UnknownToolPosture]. destruct (f_UnknownToolPosture f =s? ""); [injection Ep as <-; by left|]. unfold ParseUnknownToolPosture in Ep.
    destruct (in_list _ _) eqn:E; [|done]. injection Ep as <-. right. by apply in_list_true.
  - intros config Hc. by rewrite Hc in Er.
Qed.

(** A schema below the repository, named with backslashes. *)
Definition demo_odoo : OdooRecipeConfig :=
  {| odoo_Module := "sale_stock"; odoo_TestDatabase := "test-17.0"; odoo_RelaxNG := "tools\import.rng" |}.

Lemma odoo_config_confined_witness :
  plain_word "sale_stock" /\ plain_word "test-17.0" /\
  forall root, IsAbs root = true ->
    strictly_inside root (JoinPath [root; "tools\import.rng"]) /\
    inside root (JoinPath [root; ReplaceByte "tools\import.rng" "\" slash]).
Proof. apply (odoo_config_confined demo_odoo). vm_compute. reflexivity. Defined.

(** A path that comes back to the root by way of backslashes is the root itself. *)
Example schema_may_be_the_root :
  validateOdooRecipeConfig {| odoo_Module := "m"; odoo_TestDatabase := "d"; odoo_RelaxNG := "a\.." |} = None /\
  JoinPath ["/repo"; ReplaceByte "a\.." "\" slash] = "/repo".
Proof. by vm_compute. Qed.

Example schemas_that_leave :
  forallb (fun p => leaves_repository p)
    ["/etc/x.rng"; "\\host\x.rng"; "c:x.rng"; ".."; "a/../../x.rng"; "a\..\..\x.rng"; "."] = true.
Proof. by vm_compute. Qed.
