(* ===== verification/Recipe.v ===== *)
(** * Recipes ([internal/recipe/recipe.go], [session_skip.go])

    P8 runs a project's own formatters, linters and tests: on a file after it was
    edited, and on the repository when a session completes, where a tier whose files
    have not changed since it last passed is skipped.  Commands change the world they
    run in, so the world is a state that is threaded through them; what programs do,
    what git prints and the digests are parameters. *)

From Stdlib Require Import ZArith Lia Bool.
From S2P Require Import Prelude GoStrings GoPath Policy Argv Engine Simple GitRepo WriteTargets OverlayFile.

Record Recipe := {
  rc_Name : string;
  rc_Extensions : list string;
  rc_PerEdit : list (list string);
  rc_PerExtensionEdit : list (string * list (list string));   (* the map, keys distinct *)
  rc_Session : list (list string);
  rc_RootMarkers : list string;
  rc_SessionInputs : list string;
}.

Definition file_arg : string := "{file}".

Definition Registry : list Recipe :=
  [ {| rc_Name := "go"; rc_Extensions := [".go"];
       rc_PerEdit := [["gofmt"; "-w"; file_arg]]; rc_PerExtensionEdit := [];
       rc_Session := [["go"; "build"; "./..."]; ["go"; "test"; "./..."]; ["golangci-lint"; "run"];
                      ["govulncheck"; "./..."]];
       rc_RootMarkers := ["go.mod"; "go.work"]; rc_SessionInputs := ["go.sum"; "go.work.sum"] |};
    {| rc_Name := "python"; rc_Extensions := [".py"];
       rc_PerEdit := [["ruff"; "format"; file_arg]; ["ruff"; "check"; "--fix"; file_arg]]; rc_PerExtensionEdit := [];
       rc_Session := [["ruff"; "check"; "."]; ["mypy"; "."]; ["pytest"]];
       rc_RootMarkers := ["pyproject.toml"; "setup.py"; "setup.cfg"; "requirements.txt"]; rc_SessionInputs := [] |};
    {| rc_Name := "js-ts"; rc_Extensions := [".js"; ".jsx"; ".ts"; ".tsx"];
       rc_PerEdit := [["prettier"; "--write"; file_arg]; ["eslint"; "--fix"; file_arg]]; rc_PerExtensionEdit := [];
       rc_Session := [["tsc"; "--noEmit"]; ["eslint"; "."]; ["npm"; "test"; "--if-present"]];
       rc_RootMarkers := ["package.json"; "tsconfig.json"; "jsconfig.json"]; rc_SessionInputs := [] |};
    {| rc_Name := "rust"; rc_Extensions := [".rs"];
       rc_PerEdit := [["rustfmt"; file_arg]]; rc_PerExtensionEdit := [];
       rc_Session := [["cargo"; "fmt"; "--all"; "--"; "--check"];
                      ["cargo"; "clippy"; "--all-targets"; "--"; "-D"; "warnings"]; ["cargo"; "test"]];
       rc_RootMarkers := ["Cargo.toml"]; rc_SessionInputs := [] |};
    {| rc_Name := "elixir"; rc_Extensions := [".ex"; ".exs"];
       rc_PerEdit := [["mix"; "format"; file_arg]; ["mix"; "credo"; file_arg; "--format"; "json"]];
       rc_PerExtensionEdit := [];
       rc_Session := [["mix"; "compile"; "--warnings-as-errors"]; ["mix"; "test"]];
       rc_RootMarkers := ["mix.exs"]; rc_SessionInputs := [] |} ].

Definition NamesWithPerEdit : list string :=
  map rc_Name (List.filter (fun r => negb (bool_decide (rc_PerEdit r = []))) Registry).
Definition NamesWithSession : list string :=
  map rc_Name (List.filter (fun r => negb (bool_decide (rc_Session r = []))) Registry).

(** [filepath.Ext]: from the last dot of the last element on; on the reversed text. *)
Fixpoint reversed_ext (r acc : string) : string :=
  match r with
  | EmptyString => ""
  | String c r =>
      if Ascii.eqb c slash then ""
      else if Ascii.eqb c "." then String c acc else reversed_ext r (String c acc)
  end.
Definition Ext (path : string) : string := reversed_ext (srev path) "".

Definition recipeMatchesExtension (r : Recipe) (extension : string) : bool := in_list extension (rc_Extensions r).

Definition ForFile (path : string) : option Recipe :=
  List.find (fun r => recipeMatchesExtension r (Ext path)) Registry.

Definition isWriteTool (tool : string) : bool := in_list (ToLower tool) ["write"; "edit"; "multiedit"].

Definition odooRecipe (config : OdooRecipeConfig) (root : string) : Recipe :=
  let relaxNG := if root <>s? "" then JoinPath [root; ReplaceByte (odoo_RelaxNG config) "\" slash]
                 else odoo_RelaxNG config in
  {| rc_Name := "odoo"; rc_Extensions := [".py"; ".js"; ".xml"]; rc_PerEdit := [];
     rc_PerExtensionEdit :=
       [(".py", [["pylint"; "--load-plugins=pylint_odoo"; "-d"; "all"; "-e"; "odoolint"; file_arg]]);
        (".js", [["eslint"; "--fix"; file_arg]]);
        (".xml", [["xmllint"; "--noout"; file_arg]; ["xmllint"; "--noout"; "--relaxng"; relaxNG; file_arg]])];
     rc_Session :=
       [["pylint"; "--load-plugins=pylint_odoo"; "-d"; "all"; "-e"; "odoolint"; odoo_Module config];
        ["oca-checks-odoo-module"; odoo_Module config];
        ["odoo"; "-d"; odoo_TestDatabase config; "--stop-after-init"; "--test-enable"; "-i"; odoo_Module config]];
     rc_RootMarkers := []; rc_SessionInputs := [] |}.

(** The commands of a template for a file. *)
Definition with_file (file : string) (template : list string) : list string :=
  map (fun a => if a =s? file_arg then file else a) template.

Definition recipe_commands (r : Recipe) (file : string) : list (list string) :=
  rc_PerEdit r ++ default [] (snd <$> List.find (fun kv => kv.1 =s? Ext file) (rc_PerExtensionEdit r)).

(** The configured recipes of one policy. *)
Definition odoo_of (pol : option Policy) (root : string) : list Recipe :=
  match pol ≫= p_Recipes with Some config => [odooRecipe config root] | None => [] end.

Definition configured (pol : option Policy) (root : string) : list Recipe := Registry ++ odoo_of pol root.

(** The recipes of an edited file. *)
Definition applicable (pol : option Policy) (root path : string) : list Recipe :=
  from_option (fun r => [r]) [] (ForFile path) ++
  List.filter (fun r => recipeMatchesExtension r (Ext path)) (odoo_of pol root).

(** ** Running commands *)

(** How a command ends: well, with a nonzero exit and its output, or it was not started. *)
Inductive run_result := RunOk | RunExited (out : string) | SpawnFailed.

(** What reading a file gives. *)
Inductive read_result := Contents (s : string) | Missing | ReadFails.

(** ** Facts on paths and separators *)

Lemma Split_app s c t : Split (s +:+ String c t) c = Split s c ++ Split t c.
Proof.
  induction s as [|b s IH]; cbn [String.append Split]; [by rewrite Ascii.eqb_refl|].
  destruct (Ascii.eqb b c); [by rewrite IH|]. rewrite IH. pose proof (Split_not_nil s c).
  by destruct (Split s c).
Qed.

(** The last element of a joined path can be read off it. *)
Lemma record_name_injective base d1 d2 :
  IsAbs base = true -> name_ok d1 -> name_ok d2 ->
  JoinPath [base; "guardrail"; "session-checks"; d1] = JoinPath [base; "guardrail"; "session-checks"; d2] -> d1 = d2.
Proof.
  intros Habs H1 H2 E.
  assert (Hpath : forall d, name_ok d -> exists st, elements (JoinPath [base; "guardrail"; "session-checks"; d]) = st ++ [d]).
  { intros d [(Hne & Hdot & Hslash) Hup]. unfold JoinPath.
    assert (Hb : (base <>s? "") = true) by (by destruct base). assert (Hd : (d <>s? "") = true) by (by destruct d).
    cbn [List.filter]. rewrite Hb, Hd. cbn [negb String.eqb]. cbn iota.
    set (dir := base +:+ "/guardrail/session-checks").
    assert (Ej : Join [base; "guardrail"; "session-checks"; d] sep = dir +:+ String slash d) by (subst dir; by rewrite append_assoc).
    rewrite Ej, elements_Clean. assert (Habs' : IsAbs (dir +:+ String slash d) = true) by (by apply IsAbs_app, IsAbs_app).
    rewrite Habs'. unfold clean_stack. rewrite Split_app, (Split_noslash d Hslash). rewrite foldl_app. cbn [foldl].
    unfold clean_step at 1. rewrite (proj2 (String.eqb_neq d "") Hne), (proj2 (String.eqb_neq d ".") Hdot), (proj2 (String.eqb_neq d "..") Hup).
    cbn [orb rev]. by eexists. }
  destruct (Hpath d1 H1) as [s1 E1], (Hpath d2 H2) as [s2 E2]. rewrite E, E2 in E1. by apply app_inj_tail in E1 as [_ ->].
Qed.

(** Split at the last separator. *)
Lemma app_sep_last c a1 b1 a2 b2 :
  ContainsByte b1 c = false -> ContainsByte b2 c = false -> a1 +:+ String c b1 = a2 +:+ String c b2 -> a1 = a2 /\ b1 = b2.
Proof.
  intros H1 H2 E. apply (f_equal (fun t => Split t c)) in E. 
  rewrite !Split_app, (Split_one b1 c H1), (Split_one b2 c H2) in E.
  apply app_inj_tail in E as [E ->]. split; [|done]. by rewrite <- (Join_Split a1 c), <- (Join_Split a2 c), E.
Qed.

Section World.

Context {W : Type}.
Context (findExecutable : W -> string -> bool).
Context (runCommand : string -> list string -> W -> run_result * W).
(** [os.Stat], [os.ReadFile]; [git -C root] with the rest of the command. *)
Context (stat : W -> string -> option FileInfo) (readFile : W -> string -> read_result).
Context (gitOutput : W -> string -> list string -> option string).
(** SHA-256 in hexadecimal, and of its first 16 bytes. *)
Context (sha256 digest16 : string -> string).
(** The directory of the records, unless the home directory is unknown; and whether a
    record can be written. *)
Context (state_base : option string) (can_write : W -> string -> bool).

Definition recipe_denial (reason : string) : Verdict := verdict Deny "P8.recipe-lint" reason.

Fixpoint runCommands (commands : list (list string)) (dir file target : string) (w : W) : option Verdict * W :=
  match commands with
  | [] => (None, w)
  | template :: commands =>
      let argv := with_file file template in
      if negb (findExecutable w (default "" (List.hd_error argv))) then runCommands commands dir file target w
      else
        let '(res, w) := runCommand dir argv w in
        match res with
        | RunExited out =>
            let reason := TrimSpace out in
            (Some (recipe_denial (if reason =s? ""
                                  then default "" (List.hd_error argv) +:+ " failed on " +:+ target else reason)), w)
        | RunOk | SpawnFailed => runCommands commands dir file target w
        end
  end.

Definition runRecipe (r : Recipe) (file : string) (w : W) : option Verdict * W :=
  runCommands (recipe_commands r file) "" file ("file " +:+ file) w.

(** One function after the other, until one answers. *)
Fixpoint first_verdict {A} (f : A -> W -> option Verdict * W) (l : list A) (w : W) : option Verdict * W :=
  match l with
  | [] => (None, w)
  | a :: l => match f a w with (Some v, w) => (Some v, w) | (None, w) => first_verdict f l w end
  end.

Definition Check (tc : ToolCall) (pol : option Policy) (w : W) : option Verdict * W :=
  if (tc_Event tc <>s? "post") || negb (isWriteTool (tc_Tool tc)) then (None, w)
  else first_verdict (fun p => first_verdict (fun r => runRecipe r p) (applicable pol (tc_RepoRoot tc) p))
         (tc_Paths tc) w.

Definition hasRootMarker (w : W) (root : string) (markers : list string) : bool :=
  (root <>s? "") &&
  existsb (fun m => match stat w (JoinPath [root; m]) with Some info => negb (fi_dir info) | None => false end) markers.

(** ** The fingerprint of a tier *)

Definition sessionInput (r : Recipe) (path : string) : bool :=
  let base := Base path in
  recipeMatchesExtension r (Ext base) || in_list base (rc_RootMarkers r ++ rc_SessionInputs r).

Definition nul : ascii := "000".
Definition tab : ascii := "009".

(** The lines of [git ls-tree -z]. *)
Definition tree_lines (r : Recipe) (tree : string) : list string :=
  flat_map (fun entry =>
    let '(meta, path, ok) := Cut entry tab in
    if ok && sessionInput r path then ["tree " +:+ path +:+ " " +:+ meta] else []) (Split tree nul).

(** The lines of [git status -z]; [None] when a file cannot be read. *)
Fixpoint status_lines (r : Recipe) (w : W) (root : string) (entries : list string) : option (list string) :=
  match entries with
  | [] => Some []
  | entry :: entries =>
      if (String.length entry <? 4)%nat then status_lines r w root entries
      else
        let path := sdrop 3 entry in
        let moved := HasPrefix entry "R" || HasPrefix entry "C" in
        let rest := match entries with
          | source :: entries' => if moved then status_lines r w root entries' else status_lines r w root entries
          | [] => Some []
          end in
        if negb (sessionInput r path) then rest
        else match readFile w (JoinPath [root; path]) with
        | Contents s => (fun l => ("work " +:+ path +:+ " " +:+ sha256 s) :: l) <$> rest
        | Missing => (fun l => ("work " +:+ path +:+ " deleted") :: l) <$> rest
        | ReadFails => None
        end
  end.

Definition unit_separator : string := String "031" "".
Definition newline_text : string := String "010" "".

Definition gitSessionFingerprint (w : W) (root : string) (r : Recipe) : option string :=
  if root =s? "" then None
  else match gitOutput w root ["ls-tree"; "-r"; "-z"; "HEAD"],
             gitOutput w root ["status"; "--porcelain=v1"; "-z"; "--untracked-files=all"] with
  | Some tree, Some status =>
      match status_lines r w root (Split status nul) with
      | Some work =>
          let lines := sort_strings (tree_lines r tree ++ work) ++
                       map (fun c => "cmd " +:+ Join c unit_separator) (rc_Session r) in
          Some (sha256 (Join lines newline_text))
      | None => None
      end
  | _, _ => None
  end.

Definition sessionPassPath (root : string) (r : Recipe) : option string :=
  (fun base => JoinPath [base; "guardrail"; "session-checks"; digest16 (Clean root +:+ String nul (rc_Name r))])
    <$> state_base.

(** The records: the last fingerprint that passed, by path. *)
Definition Passes := gmap string string.

Definition sessionPassed (passes : Passes) (root : string) (r : Recipe) (fingerprint : string) : bool :=
  match sessionPassPath root r with
  | Some path => bool_decide (passes !! path = Some fingerprint)
  | None => false
  end.

Definition recordSessionPass (w : W) (passes : Passes) (root : string) (r : Recipe) (fingerprint : string) : Passes :=
  match sessionPassPath root r with
  | Some path => if can_write w path then <[path := fingerprint]> passes else passes
  | None => passes
  end.

(** What became of one tier. *)
Inductive tier := NotApplicable | Skipped | Ran | Failed (v : Verdict).

Definition run_tier (root : string) (r : Recipe) (s : W * Passes) : tier * (W * Passes) :=
  let '(w, passes) := s in
  if bool_decide (rc_Session r = []) ||
     (negb (bool_decide (rc_RootMarkers r = [])) && negb (hasRootMarker w root (rc_RootMarkers r)))
  then (NotApplicable, s)
  else
    let fingerprint := gitSessionFingerprint w root r in
    if match fingerprint with Some fp => sessionPassed passes root r fp | None => false end then (Skipped, s)
    else match runCommands (rc_Session r) root "" (rc_Name r +:+ " session checks") w with
    | (Some v, w') => (Failed v, (w', passes))
    | (None, w') =>
        (Ran, (w', match fingerprint with Some fp => recordSessionPass w' passes root r fp | None => passes end))
    end.

(** The loop: the verdict of a tier that fails, or the names of those that were skipped
    and whether one ran. *)
Fixpoint run_tiers (root : string) (rs : list Recipe) (skipped : list string) (ran : bool) (s : W * Passes) :
    (Verdict + list string * bool) * (W * Passes) :=
  match rs with
  | [] => (inr (skipped, ran), s)
  | r :: rs =>
      match run_tier root r s with
      | (NotApplicable, s) => run_tiers root rs skipped ran s
      | (Skipped, s) => run_tiers root rs (skipped ++ [rc_Name r]) ran s
      | (Ran, s) => run_tiers root rs skipped true s
      | (Failed v, s) => (inl v, s)
      end
  end.

Definition CheckSession (root : string) (pol : option Policy) (s : W * Passes) : option Verdict * (W * Passes) :=
  match run_tiers root (configured pol root) [] false s with
  | (inl v, s) => (Some v, s)
  | (inr (skipped, ran), s) =>
      (if negb (bool_decide (skipped = [])) && negb ran
       then Some (verdict Allow "P8.recipe-lint"
                    ("session checks skipped: no " +:+ Join skipped ", " +:+ " changes since they last passed"))
       else None, s)
  end.

(** ** What a completed session has passed *)

Definition session_title (r : Recipe) : string := rc_Name r +:+ " session checks".

(** The commands ran one after the other, and none failed: each is not installed, or it
    was started and did not exit with an error (one that cannot be started does not
    count). *)
Inductive ran_through (dir : string) : list (list string) -> W -> W -> Prop :=
| ran_end w : ran_through dir [] w w
| ran_missing argv commands w w' :
    findExecutable w (default "" (List.hd_error argv)) = false ->
    ran_through dir commands w w' -> ran_through dir (argv :: commands) w w'
| ran_passed argv commands w res w1 w' :
    findExecutable w (default "" (List.hd_error argv)) = true -> runCommand dir argv w = (res, w1) ->
    (forall out, res <> RunExited out) ->
    ran_through dir commands w1 w' -> ran_through dir (argv :: commands) w w'.

(** The commands of the tier ran through from [w] on. *)
Definition passed_from (root : string) (r : Recipe) (w : W) : Prop :=
  exists w', ran_through root (map (with_file "") (rc_Session r)) w w'.

Lemma runCommands_through commands dir target w w' :
  runCommands commands dir "" target w = (None, w') -> ran_through dir (map (with_file "") commands) w w'.
Proof.
  revert w. induction commands as [|c commands IH]; intros w; [intros [= <-]; constructor|]. cbn [runCommands map].
  destruct (findExecutable w _) eqn:E; cbn [negb]; [|by intros H; apply ran_missing, IH].
  destruct (runCommand _ _ w) as [[|out|] w1] eqn:Er; intros H; [|done|]; (eapply ran_passed; [done|done| |by apply IH]); done.
Qed.

(** What a tier's inputs are: a line for every committed file and for every file changed
    since, in order. *)
Definition session_inputs (w : W) (root : string) (r : Recipe) : option (list string) :=
  match gitOutput w root ["ls-tree"; "-r"; "-z"; "HEAD"],
        gitOutput w root ["status"; "--porcelain=v1"; "-z"; "--untracked-files=all"] with
  | Some tree, Some status =>
      (fun work => sort_strings (tree_lines r tree ++ work)) <$> status_lines r w root (Split status nul)
  | _, _ => None
  end.

Lemma runCommands_denies commands dir file target w v w' :
  runCommands commands dir file target w = (Some v, w') -> v_Decision v = Deny.
Proof.
  revert w. induction commands as [|c commands IH]; intros w; [done|]. cbn [runCommands].
  destruct (negb _); [apply IH|]. destruct (runCommand _ _ w) as [[|out|] w1]; [apply IH| |apply IH].
  by intros [= <- _].
Qed.

Lemma run_tiers_denies root rs skipped ran s v s' :
  run_tiers root rs skipped ran s = (inl v, s') -> v_Decision v = Deny.
Proof.
  revert skipped ran s. induction rs as [|r rs IH]; intros skipped ran [w p]; [done|]. cbn [run_tiers].
  destruct (run_tier root r (w, p)) as [t s1] eqn:E. destruct t as [| | |v1]; [apply IH..|].
  intros [= <- _]. revert E. unfold run_tier. destruct (_ || _); [done|].
  destruct (match gitSessionFingerprint w root r with Some _ => _ | None => _ end); [done|].
  destruct (runCommands _ _ _ _ w) as [[v2|] w1] eqn:Er; [|done]. intros [= <- _]. by eapply runCommands_denies.
Qed.

(** *** What a fingerprint and a record say

    SHA-256 is taken to be without collisions, and the directory of the records to be
    absolute. The lines of a fingerprint are joined by newlines and the words of a command
    by unit separators: recipes and file names hold neither. *)

Definition line_byte (c : ascii) : bool := negb (Ascii.eqb c "010").
Definition word_byte (c : ascii) : bool := line_byte c && negb (Ascii.eqb c "031").

Definition plain_recipe (r : Recipe) : Prop :=
  ContainsByte (rc_Name r) nul = false /\
  Forall (fun c => c <> [] /\ Forall (fun a => all_bytes word_byte a = true) c) (rc_Session r).

Hypothesis sha256_injective : forall a b, sha256 a = sha256 b -> a = b.
Hypothesis sha256_line : forall a, all_bytes line_byte (sha256 a) = true.
Hypothesis digest16_injective : forall a b, digest16 a = digest16 b -> a = b.
Hypothesis digest16_name : forall a, name_ok (digest16 a).
Hypothesis base_absolute : forall base, state_base = Some base -> IsAbs base = true.
Hypothesis git_lines : forall w root args out, gitOutput w root args = Some out -> all_bytes line_byte out = true.

Definition command_line (c : list string) : string := "cmd " +:+ Join c unit_separator.

Lemma fingerprint_of w root r fp :
  gitSessionFingerprint w root r = Some fp ->
  exists inputs, session_inputs w root r = Some inputs /\
    fp = sha256 (Join (inputs ++ map command_line (rc_Session r)) newline_text).
Proof.
  unfold gitSessionFingerprint, session_inputs. destruct (root =s? ""); [done|].
  destruct (gitOutput _ _ _) as [tree|]; [|done]. destruct (gitOutput _ _ _) as [status|]; [|done].
  destruct (status_lines _ _ _ _) as [work|]; [|done]. intros [= <-]. by eexists.
Qed.

(** A line of an input: of one line, and unlike the line of a command. *)
Definition input_line (l : string) : Prop :=
  all_bytes line_byte l = true /\ (exists t, l = "tree " +:+ t \/ l = "work " +:+ t).

Lemma tree_input r tree : all_bytes line_byte tree = true -> Forall input_line (tree_lines r tree).
Proof.
  intros H. apply Forall_forall. intros l Hl%list_elem_of_In. apply in_flat_map in Hl as (e & He%list_elem_of_In & Hl).
  apply (all_bytes_Split _ _ _ _ H) in He. destruct (Cut e tab) as [[meta path] ok] eqn:Ec.
  destruct (ok && sessionInput r path) eqn:E; [|done]. apply andb_true_iff in E as [-> _]. destruct Hl as [<-|[]].
  apply Cut_found in Ec as [-> _]. rewrite all_bytes_app in He. cbn [all_bytes] in He.
  apply andb_true_iff in He as [Hm He]. apply andb_true_iff in He as [_ Hp].
  split; [by rewrite !all_bytes_app, Hm, Hp|]. eexists. by left.
Qed.

Lemma all_bytes_sdrop f n s : all_bytes f s = true -> all_bytes f (sdrop n s) = true.
Proof. revert s. induction n as [|n IH]; intros [|c s]; try done. cbn. intros [_ H]%andb_true_iff. by apply IH. Qed.

Lemma status_input r w root entries : forall lines,
  Forall (fun e => all_bytes line_byte e = true) entries -> status_lines r w root entries = Some lines -> Forall input_line lines.
Proof.
  induction entries as [entries IH] using (well_founded_induction (Wf_nat.well_founded_ltof _ (@length string))).
  intros lines Hall H. destruct entries as [|entry entries]; [by injection H as <-|]. cbn [status_lines] in H.
  apply Forall_cons in Hall as [He Hall].
  assert (Hrec : forall l lines, l `suffix_of` entries -> status_lines r w root l = Some lines -> Forall input_line lines).
  { intros l ls [k Hk] Hl. eapply IH; [|by rewrite Hk, Forall_app in Hall; apply Hall|exact Hl].
    unfold Wf_nat.ltof. rewrite Hk. cbn [length]. rewrite length_app. lia. }
  destruct (_ <? _)%nat; [by eapply Hrec|].
  set (rest := match entries with [] => Some [] | _ :: _ => _ end) in H.
  assert (Hrest : forall ls, rest = Some ls -> Forall input_line ls).
  { intros ls Hls. subst rest. destruct entries as [|source entries']; [by injection Hls as <-|].
    destruct (_ || _); [eapply (Hrec entries'); [by exists [source]|done]|by eapply Hrec]. }
  clearbody rest. destruct (negb _); [by apply Hrest|]. apply (all_bytes_sdrop _ 3) in He.
  destruct (readFile w _) as [text| |]; [| |done]; (destruct rest as [ls|]; [|done]); apply (inj Some) in H; subst lines;
    (apply Forall_cons; split; [|by apply Hrest]); (split; [|eexists; by right]);
    rewrite !all_bytes_app, He; [by rewrite sha256_line|done].
Qed.

Lemma inputs_lines w root r inputs : session_inputs w root r = Some inputs -> Forall input_line inputs.
Proof.
  unfold session_inputs. destruct (gitOutput _ _ _) as [tree|] eqn:Et; [|done].
  destruct (gitOutput _ _ ["status"; _; _; _]) as [status|] eqn:Es; [|done].
  destruct (status_lines _ _ _ _) as [work|] eqn:Ew; [|done]. intros [= <-].
  apply Forall_forall. intros l Hl. rewrite elem_of_sort, elem_of_app in Hl.
  apply git_lines in Et, Es. destruct Hl as [Hl|Hl].
  - pose proof (tree_input r tree Et) as H. rewrite Forall_forall in H. by apply H.
  - assert (H : Forall input_line work).
    { eapply status_input; [|exact Ew]. apply Forall_forall. intros e He. by eapply all_bytes_Split. }
    rewrite Forall_forall in H. by apply H.
Qed.

(** The commands' lines tell the commands apart. *)
Lemma command_lines_line r : plain_recipe r -> Forall (fun l => all_bytes line_byte l = true) (map command_line (rc_Session r)).
Proof.
  intros [_ H]. rewrite Forall_map. eapply Forall_impl; [exact H|]. intros c [_ Hc]. cbn beta. unfold command_line.
  rewrite all_bytes_app. apply andb_true_iff. split; [done|]. apply all_bytes_Join; [done|].
  eapply Forall_impl; [exact Hc|]. intros a. apply all_bytes_impl. intros b. unfold word_byte. by intros [? _]%andb_true_iff.
Qed.

Lemma command_lines_injective c1 c2 :
  Forall (fun c => c <> [] /\ Forall (fun a => all_bytes word_byte a = true) c) c1 ->
  Forall (fun c => c <> [] /\ Forall (fun a => all_bytes word_byte a = true) c) c2 ->
  map command_line c1 = map command_line c2 -> c1 = c2.
Proof.
  assert (Hsplit : forall c, c <> [] /\ Forall (fun a => all_bytes word_byte a = true) c -> Split (Join c unit_separator) "031" = c).
  { intros c [Hne Hc]. apply Split_Join_sep; [done|]. eapply Forall_impl; [exact Hc|]. intros a Ha.
    by apply (all_bytes_not_contains word_byte). }
  intros H1. revert c2. induction H1 as [|c c1 Hc H1 IH]; intros [|d c2] H2 E; try done. cbn [map] in E. injection E as E1 E2.
  apply Forall_cons in H2 as [Hd H2]. f_equal; [|by apply IH]. rewrite <- (Hsplit c Hc), <- (Hsplit d Hd). by rewrite E1.
Qed.

(** Inputs end where commands begin. *)
Lemma inputs_end l1 l2 c1 c2 :
  Forall input_line l1 -> Forall input_line l2 -> l1 ++ map command_line c1 = l2 ++ map command_line c2 ->
  l1 = l2 /\ map command_line c1 = map command_line c2.
Proof.
  assert (Hne : forall l c, input_line l -> l <> command_line c) by (intros l c [_ [t [-> | ->]]]; done).
  intros H1. revert l2. induction H1 as [|l l1 Hl H1 IH]; intros [|m l2] H2 E; [done| | |].
  - apply Forall_cons in H2 as [Hm _]. destruct c1 as [|c c1]; [done|]. injection E as E _. by destruct (Hne _ c Hm).
  - destruct c2 as [|c c2]; [done|]. injection E as E _. by destruct (Hne _ c Hl).
  - apply Forall_cons in H2 as [_ H2]. injection E as -> E. destruct (IH _ H2 E) as [-> ?]. done.
Qed.

(** Equal fingerprints: the same commands over the same inputs. *)
Lemma fingerprint_exact w1 root1 r1 w2 root2 r2 fp :
  plain_recipe r1 -> plain_recipe r2 -> rc_Session r1 <> [] -> rc_Session r2 <> [] ->
  gitSessionFingerprint w1 root1 r1 = Some fp -> gitSessionFingerprint w2 root2 r2 = Some fp ->
  rc_Session r1 = rc_Session r2 /\ session_inputs w1 root1 r1 = session_inputs w2 root2 r2.
Proof.
  intros P1 P2 N1 N2 (l1 & E1 & F1)%fingerprint_of (l2 & E2 & F2)%fingerprint_of. rewrite E1, E2.
  apply inputs_lines in E1, E2. rewrite F1 in F2. apply sha256_injective in F2.
  assert (Hsplit : forall l r, Forall input_line l -> plain_recipe r -> rc_Session r <> [] ->
    Split (Join (l ++ map command_line (rc_Session r)) newline_text) "010" = l ++ map command_line (rc_Session r)).
  { intros l r Hl Hr Hn. apply Split_Join_sep; [by destruct l, (rc_Session r)|]. apply Forall_app. split.
    - eapply Forall_impl; [exact Hl|]. intros x [Hx _]. by apply (all_bytes_not_contains line_byte).
    - eapply Forall_impl; [by apply command_lines_line|]. intros x Hx. by apply (all_bytes_not_contains line_byte). }
  apply (f_equal (fun t => Split t "010")) in F2. rewrite !Hsplit in F2 by done.
  apply inputs_end in F2 as [-> F2]; [|done..]. split; [|done].
  apply command_lines_injective; [apply P1|apply P2|done].
Qed.

(** Equal records: the same repository and the same name. *)
Lemma pass_path_exact root1 r1 root2 r2 path :
  plain_recipe r1 -> plain_recipe r2 ->
  sessionPassPath root1 r1 = Some path -> sessionPassPath root2 r2 = Some path ->
  Clean root1 = Clean root2 /\ rc_Name r1 = rc_Name r2.
Proof.
  intros [P1 _] [P2 _]. unfold sessionPassPath. destruct state_base as [base|] eqn:Eb; [|done].
  pose proof (base_absolute base eq_refl) as Habs. intros [= E1] [= E2]. rewrite <- E2 in E1. clear E2.
  apply record_name_injective in E1; [|done|apply digest16_name..]. apply digest16_injective in E1.
  apply app_sep_last in E1; [|done..]. done.
Qed.

(** What has happened: checks of tiers, each with the world it began in, and between
    them anything that changes the world but leaves the records alone. *)
Inductive history : list (string * Recipe * W) -> W -> Passes -> Prop :=
| history_start w : history [] w ∅
| history_world l w w' p : history l w p -> history l w' p
| history_tier l root r w p t w' p' :
    plain_recipe r -> history l w p -> run_tier root r (w, p) = (t, (w', p')) -> history (l ++ [(root, r, w)]) w' p'.

(** A check in [l] of the tier of this name in this repository, over these inputs with
    these commands, whose commands ran through. *)
Definition earned (l : list (string * Recipe * W)) (root : string) (r : Recipe) (w : W) : Prop :=
  exists root' r' w', (root', r', w') ∈ l /\ Clean root' = Clean root /\ rc_Name r' = rc_Name r /\
    rc_Session r' = rc_Session r /\ session_inputs w' root' r' = session_inputs w root r /\
    passed_from root' r' w'.

(** A check in [l] that left the record. *)
Definition left_record (l : list (string * Recipe * W)) (path fp : string) : Prop :=
  exists root r w, (root, r, w) ∈ l /\ plain_recipe r /\ rc_Session r <> [] /\ sessionPassPath root r = Some path /\
    gitSessionFingerprint w root r = Some fp /\ passed_from root r w.

(** Nothing but a tier that passed writes a record. *)
Lemma run_tier_records root r w p t w' p' path fp :
  run_tier root r (w, p) = (t, (w', p')) -> p' !! path = Some fp ->
  p !! path = Some fp \/
  rc_Session r <> [] /\ sessionPassPath root r = Some path /\ gitSessionFingerprint w root r = Some fp /\ passed_from root r w.
Proof.
  unfold run_tier. destruct (_ || _) eqn:E1; [intros [= <- <- <-]; by left|].
  destruct (match gitSessionFingerprint w root r with Some _ => _ | None => _ end); [intros [= <- <- <-]; by left|].
  destruct (runCommands _ _ _ _ w) as [[v|] w1] eqn:E; [intros [= <- <- <-]; by left|].
  intros [= <- <- <-]. destruct (gitSessionFingerprint w root r) as [fp'|]; [|by left].
  unfold recordSessionPass. destruct (sessionPassPath root r) as [path'|]; [|by left].
  destruct (can_write w1 path'); [|by left]. intros Hl. apply lookup_insert_Some in Hl as [[-> ->]|[_ Hl]]; [|by left].
  right. apply orb_false_iff in E1 as [E1 _]. apply bool_decide_eq_false in E1. apply runCommands_through in E.
  split_and!; [done|done|done|by exists w1].
Qed.

Lemma records_earned l w p path fp : history l w p -> p !! path = Some fp -> left_record l path fp.
Proof.
  assert (Happ : forall l l', left_record l path fp -> left_record (l ++ l') path fp).
  { intros l1 l2 (root & r & w1 & Hin & H). exists root, r, w1. split; [|done]. apply elem_of_app. by left. }
  intros H. induction H as [w|l w w' p _ IH|l root r w p t w' p' Hr _ IH Ht]; intros Hl.
  - by apply (lookup_empty_Some (M:=gmap string)) in Hl.
  - by apply IH.
  - eapply run_tier_records in Hl as [Hl|(Hn & Hp & Hf & Hc)]; [| |done]; [by apply Happ, IH|].
    exists root, r, w. split_and!; [apply elem_of_app; right; by left|done..].
Qed.

(** The tier is in order: it has nothing to run or does not apply; its commands ran
    through from this world on; or it was skipped, and a check before it with the same
    commands over the same inputs ran through. *)
Definition tier_in_order (l : list (string * Recipe * W)) (root : string) (r : Recipe) (w : W) : Prop :=
  rc_Session r = [] \/
  (rc_RootMarkers r <> [] /\ hasRootMarker w root (rc_RootMarkers r) = false) \/
  passed_from root r w \/ earned l root r w.

Lemma run_tier_in_order l root r w p t w' p' :
  plain_recipe r -> history l w p -> run_tier root r (w, p) = (t, (w', p')) ->
  (exists v, t = Failed v /\ v_Decision v = Deny) \/ tier_in_order l root r w.
Proof.
  intros Hplain H. unfold run_tier, tier_in_order. destruct (_ || _) eqn:E1.
  { intros _. right. apply orb_true_iff in E1 as [E1%bool_decide_eq_true|[E1 E2]%andb_true_iff]; [by left|].
    right. left. apply negb_true_iff in E1, E2. by apply bool_decide_eq_false in E1. }
  apply orb_false_iff in E1 as [E1 _]. apply bool_decide_eq_false in E1.
  destruct (gitSessionFingerprint w root r) as [fp|] eqn:Ef.
  - destruct (sessionPassed p root r fp) eqn:Es.
    { intros _. right. do 3 right. unfold sessionPassed in Es.
      destruct (sessionPassPath root r) as [path|] eqn:Ep; [|done]. apply bool_decide_eq_true in Es.
      destruct (records_earned _ _ _ _ _ H Es) as (root' & r' & w1 & Hin & Hr' & Hn & Hp & Hf & Hc).
      destruct (fingerprint_exact _ _ _ _ _ _ _ Hr' Hplain Hn E1 Hf Ef) as [Hs Hi].
      destruct (pass_path_exact _ _ _ _ _ Hr' Hplain Hp Ep) as [Hroot Hname]. by exists root', r', w1. }
    destruct (runCommands _ _ _ _ w) as [[v|] w1] eqn:E; intros [= <- <- <-];
      [left; eexists; split; [done|by eapply runCommands_denies]|].
    right. do 2 right. left. exists w1. by eapply runCommands_through.
  - destruct (runCommands _ _ _ _ w) as [[v|] w1] eqn:E; intros [= <- <- <-];
      [left; eexists; split; [done|by eapply runCommands_denies]|].
    right. do 2 right. left. exists w1. by eapply runCommands_through.
Qed.

Lemma tier_in_order_app l l' root r w : tier_in_order l root r w -> tier_in_order (l ++ l') root r w.
Proof.
  intros [H|[H|[H|(root' & r' & w' & Hin & H)]]]; [by left|right; by left|right; right; by left|].
  do 3 right. exists root', r', w'. split; [apply elem_of_app; by left|done].
Qed.

Lemma run_tiers_in_order l root rs skipped ran w p res w' p' :
  Forall plain_recipe rs -> history l w p -> run_tiers root rs skipped ran (w, p) = (inr res, (w', p')) ->
  exists l', history (l ++ l') w' p' /\
    forall r, r ∈ rs -> exists w1, (root, r, w1) ∈ l' /\ tier_in_order (l ++ l') root r w1.
Proof.
  intros Hrs. revert l skipped ran w p. induction Hrs as [|r rs Hr0 Hrs IH]; intros l skipped ran w p H.
  { intros [= <- <- <-]. exists []. rewrite app_nil_r. split; [done|]. by intros r ?%elem_of_nil. }
  cbn [run_tiers]. destruct (run_tier root r (w, p)) as [t [w1 p1]] eqn:Et.
  assert (Hh := history_tier _ _ _ _ _ _ _ _ Hr0 H Et). apply (run_tier_in_order l) in Et as Ho; [|done..].
  assert (Hgo : forall skipped ran, run_tiers root rs skipped ran (w1, p1) = (inr res, (w', p')) ->
            tier_in_order l root r w ->
            exists l', history (l ++ l') w' p' /\
              forall r', r' ∈ r :: rs -> exists w1, (root, r', w1) ∈ l' /\ tier_in_order (l ++ l') root r' w1).
  { intros sk rn Hr Ho'. destruct (IH _ sk rn _ _ Hh Hr) as (l' & Hh' & Hall). rewrite <- app_assoc in Hh', Hall.
    exists ([(root, r, w)] ++ l'). split; [done|]. intros r' [->|Hin]%elem_of_cons.
    - exists w. split; [by left|]. by apply tier_in_order_app.
    - destruct (Hall _ Hin) as (w2 & Hin2 & Ho2). exists w2. split; [by right|done]. }
  destruct t as [| | |v]; [intros Hr; apply (Hgo _ _ Hr)..|done]; by destruct Ho as [(? & ? & _)|?].
Qed.


End World.

(** ** A concrete repository

    [a.go] as committed, and after [git mv a.go a.txt]: the build needs it. *)

Definition demo_stat (w : bool) (p : string) : option FileInfo :=
  if p =s? "/repo/go.mod" then Some {| fi_dir := false; fi_regular := true; fi_size := 20 |} else None.

Definition demo_run (dir : string) (argv : list string) (w : bool) : run_result * bool :=
  (if w then RunExited "undefined: start" else RunOk, w).

Definition demo_git_output (w : bool) (root : string) (args : list string) : option string :=
  Some (if List.hd "" args =s? "ls-tree" then "100644 blob 1f2e" +:+ String tab "a.go" +:+ String nul ""
        else if w then "R  a.txt" +:+ String nul "a.go" +:+ String nul "" else "").

(** Digests without collisions: two letters for each byte, and one at the end. *)
Definition high_letter (c : ascii) : ascii := Ascii.ascii_of_nat (97 + Ascii.nat_of_ascii c / 16).
Definition low_letter (c : ascii) : ascii := Ascii.ascii_of_nat (97 + Ascii.nat_of_ascii c mod 16).

Fixpoint demo_hex (s : string) : string :=
  match s with
  | EmptyString => "h"
  | String c s => String (high_letter c) (String (low_letter c) (demo_hex s))
  end.

Lemma letters_injective c d : high_letter c = high_letter d -> low_letter c = low_letter d -> c = d.
Proof.
  assert (H : forall c, Ascii.ascii_of_nat ((Ascii.nat_of_ascii (high_letter c) - 97) * 16 + (Ascii.nat_of_ascii (low_letter c) - 97)) = c)
    by (intros [[] [] [] [] [] [] [] []]; vm_compute; reflexivity).
  intros E1 E2. by rewrite <- (H c), <- (H d), E1, E2.
Qed.

Lemma letters_plain c : is_letter (high_letter c) && is_letter (low_letter c) = true.
Proof. destruct c as [[] [] [] [] [] [] [] []]; vm_compute; reflexivity. Qed.

Lemma demo_hex_letters s : all_bytes is_letter (demo_hex s) = true.
Proof.
  induction s as [|c s IH]; [done|]. cbn [demo_hex all_bytes]. pose proof (letters_plain c) as [-> ->]%andb_true_iff. exact IH.
Qed.

Lemma demo_hex_injective a b : demo_hex a = demo_hex b -> a = b.
Proof.
  assert (Hnil : forall c s, demo_hex (String c s) <> demo_hex "") by (intros c s; cbn; by intros [=]).
  revert b. induction a as [|c a IH]; intros [|d b] E; [done|by destruct (Hnil d b)|by destruct (Hnil c a)|].
  cbn [demo_hex] in E. injection E as E1 E2 E. f_equal; [by apply letters_injective|by apply IH].
Qed.

Lemma demo_hex_line s : all_bytes line_byte (demo_hex s) = true.
Proof.
  apply (all_bytes_impl is_letter); [|apply demo_hex_letters]. intros c. by destruct c as [[] [] [] [] [] [] [] []].
Qed.

Lemma demo_hex_name s : name_ok (demo_hex s).
Proof.
  pose proof (demo_hex_letters s) as H.
  split; [|intros E; by rewrite E in H]. split_and!; [intros E; by destruct s|intros E; by rewrite E in H|].
  by apply (all_bytes_not_contains is_letter).
Qed.

Lemma demo_git_lines w root args out : demo_git_output w root args = Some out -> all_bytes line_byte out = true.
Proof. unfold demo_git_output. intros [= <-]. by destruct (_ =s? _), w. Qed.

#[local] Notation demo_check w p :=
  (CheckSession (fun _ exe => exe =s? "go") demo_run demo_stat (fun _ _ => Missing) demo_git_output
     demo_hex demo_hex (Some "/state") (fun _ _ => true) "/repo" None (w, p)).
#[local] Notation demo_history :=
  (history (fun _ exe => exe =s? "go") demo_run demo_stat (fun _ _ => Missing) demo_git_output demo_hex demo_hex (Some "/state") (fun _ _ => true)).

Definition demo_passes : Passes := (demo_check false ∅).2.2.

Lemma registry_plain : Forall plain_recipe (configured None "/repo").
Proof. repeat (apply Forall_cons; split); try apply Forall_nil_2; (split; [reflexivity|]); repeat constructor; done. Qed.


(** A renamed input is not in the fingerprint: the entry of a rename is looked at under
    its new name only, so once the tier has passed, renaming a source away leaves the
    fingerprint as it was, and the check that would fail is skipped. *)
Example renamed_input_unseen :
  (exists v, (demo_check true demo_passes).1 = Some v /\ v_Decision v = Allow) /\
  (exists v, (demo_check true ∅).1 = Some v /\ v_Decision v = Deny).
Proof. split; eexists; vm_compute; done. Qed.

(** The schema an Odoo configuration that was accepted hands to xmllint is in the
    repository. *)
Lemma odoo_schema_inside config root :
  validateOdooRecipeConfig config = None -> IsAbs root = true ->
  exists schema, inside root schema /\
    ["xmllint"; "--noout"; "--relaxng"; schema; file_arg] ∈
      flat_map snd (rc_PerExtensionEdit (odooRecipe config root)).
Proof.
  intros Hv Hr. destruct (odoo_relaxng_inside config Hv root Hr) as [_ Hin]. eexists. split; [exact Hin|].
  unfold odooRecipe. assert ((root <>s? "") = true) as -> by (apply negb_true_iff, String.eqb_neq; by intros ->).
  cbn. do 3 right. by left.
Qed.

(** A file whose name begins with a dash is an option of the tools that are run on it. *)
Example file_taken_for_an_option :
  map (with_file "--config=evil.py") (recipe_commands (List.nth 1 Registry (List.hd (odooRecipe demo_odoo "") Registry)) "--config=evil.py") =
  [["ruff"; "format"; "--config=evil.py"]; ["ruff"; "check"; "--fix"; "--config=evil.py"]].
Proof. done. Qed.
