(* ===== verification/Durable.v ===== *)
(** * Operations that may fail and processes that may die

    What the sources do to files goes through system calls.  A call may be refused, may
    take effect and still report an error (the rename succeeded, the sync of the
    directory did not), or the process may die before or after it.  A program is a
    function of the faults its calls will meet and of the state; its rules are those of
    a Hoare logic whose postcondition covers all three endings, so that what is proved
    of a transaction holds wherever it is cut off. *)

From Stdlib Require Import ZArith Lia Bool.
From S2P Require Import Prelude.

(** What befalls one call. *)
Inductive fault := Fine | Refused | LateError | Crash | LateCrash.

(** How a program ends: with a result, with an error, or not at all. *)
Inductive ending (A : Type) := Done (a : A) | Errs | Dies.
Arguments Done {A} _.
Arguments Errs {A}.
Arguments Dies {A}.

Section Program.

Context {S : Type}.

(** The faults to come and the state, to the ending, the faults left and the state; when
    the list of faults is used up all calls go well. *)
Definition prog (A : Type) : Type := list fault -> S -> ending A * list fault * S.

Definition pret {A} (a : A) : prog A := fun fs s => (Done a, fs, s).
Definition perr {A} : prog A := fun fs s => (Errs, fs, s).
Definition pbind {A B} (m : prog A) (k : A -> prog B) : prog B :=
  fun fs s => match m fs s with
              | (Done a, fs, s) => k a fs s
              | (Errs, fs, s) => (Errs, fs, s)
              | (Dies, fs, s) => (Dies, fs, s)
              end.

(** An error that the caller looks at or ignores; there is no coming back from death. *)
Definition attempt {A} (m : prog A) : prog (option A) :=
  fun fs s => match m fs s with
              | (Done a, fs, s) => (Done (Some a), fs, s)
              | (Errs, fs, s) => (Done None, fs, s)
              | (Dies, fs, s) => (Dies, fs, s)
              end.

(** One call: [None] is an error of its own, without effect. *)
Definition call {A} (f : S -> option (A * S)) : prog A :=
  fun fs s =>
    let after e e' := match f s with Some (a, s') => (e a, s') | None => (e', s) end in
    let '(r, s') :=
      match List.hd Fine fs with
      | Fine => after Done Errs
      | Refused => (Errs, s)
      | LateError => after (fun _ => Errs) Errs
      | Crash => (Dies, s)
      | LateCrash => after (fun _ => Dies) Dies
      end in
    (r, List.tl fs, s').

(** A call that looks, and one that may only fail. *)
Definition look {A} (f : S -> option A) : prog A := call (fun s => (fun a => (a, s)) <$> f s).
Definition check : prog unit := look (fun _ => Some tt).
Definition change (f : S -> S) : prog unit := call (fun s => Some (tt, f s)).

(** The temporary file is written and synced, renamed, and the directory is synced. *)
Definition writeSynced (effect : S -> S) : prog unit := pbind check (fun _ => pbind (change effect) (fun _ => check)).

Definition of_option {A} (o : option A) : prog A := match o with Some a => pret a | None => perr end.

(** ** Rules *)

Definition triple {A} (P : S -> Prop) (m : prog A) (Q : ending A -> S -> Prop) : Prop :=
  forall fs s e fs' s', P s -> m fs s = (e, fs', s') -> Q e s'.

Lemma triple_ret {A} (a : A) (P : S -> Prop) (Q : ending A -> S -> Prop) :
  (forall s, P s -> Q (Done a) s) -> triple P (pret a) Q.
Proof. intros H fs s e fs' s' HP [= <- <- <-]. by apply H. Qed.

Lemma triple_err {A} (P : S -> Prop) (Q : ending A -> S -> Prop) :
  (forall s, P s -> Q Errs s) -> triple P perr Q.
Proof. intros H fs s e fs' s' HP [= <- <- <-]. by apply H. Qed.

Lemma triple_bind {A B} (P : S -> Prop) (m : prog A) (k : A -> prog B) (R : ending A -> S -> Prop) (Q : ending B -> S -> Prop) :
  triple P m R -> (forall a, triple (R (Done a)) (k a) Q) ->
  (forall s, R Errs s -> Q Errs s) -> (forall s, R Dies s -> Q Dies s) ->
  triple P (pbind m k) Q.
Proof.
  intros Hm Hk He Hd fs s e fs' s' HP. unfold pbind. destruct (m fs s) as [[r fs1] s1] eqn:E.
  apply Hm in E; [|done]. destruct r as [a| |]; [by apply Hk|intros [= <- <- <-]; by apply He|intros [= <- <- <-]; by apply Hd].
Qed.

Lemma triple_attempt {A} (P : S -> Prop) (m : prog A) (Q : ending (option A) -> S -> Prop) :
  triple P m (fun e s => match e with
                         | Done a => Q (Done (Some a)) s | Errs => Q (Done None) s | Dies => Q Dies s
                         end) ->
  triple P (attempt m) Q.
Proof.
  intros Hm fs s e fs' s' HP. unfold attempt. destruct (m fs s) as [[r fs1] s1] eqn:E.
  apply Hm in E; [|done]. destruct r; by intros [= <- <- <-].
Qed.

Lemma triple_conseq {A} (P P' : S -> Prop) (m : prog A) (Q Q' : ending A -> S -> Prop) :
  triple P' m Q' -> (forall s, P s -> P' s) -> (forall e s, Q' e s -> Q e s) -> triple P m Q.
Proof. intros H HP HQ fs s e fs' s' Hs E. eapply HQ, H; [by apply HP|done]. Qed.

(** A call that is met by a fault leaves the state before it or the state after it. *)
Lemma triple_call {A} (P : S -> Prop) (f : S -> option (A * S)) (Q : ending A -> S -> Prop) :
  (forall s, P s -> Q Errs s /\ Q Dies s) ->
  (forall s a s', P s -> f s = Some (a, s') -> Q (Done a) s' /\ Q Errs s' /\ Q Dies s') ->
  triple P (call f) Q.
Proof.
  intros H1 H2 fs s e fs' s' HP. unfold call. destruct (H1 s HP) as [He Hd].
  destruct (f s) as [[a s1]|] eqn:E.
  - destruct (H2 s a s1 HP E) as (Ha & He1 & Hd1). destruct (List.hd Fine fs); by intros [= <- <- <-].
  - destruct (List.hd Fine fs); by intros [= <- <- <-].
Qed.

(** One that looks leaves the state as it is. *)
Lemma triple_look {A} (P : S -> Prop) (f : S -> option A) (Q : ending A -> S -> Prop) :
  (forall s, P s -> Q Errs s /\ Q Dies s) ->
  (forall s a, P s -> f s = Some a -> Q (Done a) s) ->
  triple P (look f) Q.
Proof.
  intros H1 H2. apply triple_call; [done|]. intros s a s' HP Hf.
  destruct (f s) as [a'|] eqn:E; simplify_eq/=. destruct (H1 s' HP). split_and!; [by apply H2|done|done].
Qed.

Lemma triple_check (P : S -> Prop) (Q : ending unit -> S -> Prop) :
  (forall s e, P s -> Q e s) -> triple P check Q.
Proof. intros H. apply triple_look; [by split; apply H|by intros; apply H]. Qed.

(** Programs that only look and check. *)
Definition idle {A} (m : prog A) : Prop := forall P, triple P m (fun _ => P).

Lemma idle_check : idle check.
Proof. intros P. by apply triple_check. Qed.

Lemma idle_then {A B} (m : prog A) (k : prog B) : idle m -> idle k -> idle (pbind m (fun _ => k)).
Proof. intros Hm Hk P. eapply triple_bind; [apply Hm|intros a; apply Hk|done..]. Qed.

Lemma idle_keeps {A B} (m : prog B) (P : S -> Prop) (k : prog A) Q :
  idle m -> (forall s, P s -> Q Errs s /\ Q Dies s) -> triple P k Q -> triple P (pbind m (fun _ => k)) Q.
Proof. intros Hm H Hk. eapply triple_bind; [apply Hm|by intros a|by intros s Hs; apply H..]. Qed.

Lemma look_keeps {A B} (P : S -> Prop) (f : S -> option B) (k : B -> prog A) Q :
  (forall s, P s -> Q Errs s /\ Q Dies s) ->
  (forall b, triple (fun s => P s /\ f s = Some b) (k b) Q) -> triple P (pbind (look f) k) Q.
Proof.
  intros H Hk. eapply (triple_bind _ _ _ (fun e s => P s /\ match e with Done b => f s = Some b | _ => True end)).
  - apply triple_look; intros; tauto.
  - intros b. apply Hk.
  - intros s [Hs _]. by apply H.
  - intros s [Hs _]. by apply H.
Qed.

(** A synced write: before it the state is in [P], after it in [R]. *)
Lemma write_alone (P R : S -> Prop) effect :
  (forall s, P s -> R (effect s)) ->
  triple P (writeSynced effect) (fun e s => match e with Done _ => R s | _ => P s \/ R s end).
Proof.
  intros Hw. unfold writeSynced. apply idle_keeps; [apply idle_check|tauto|].
  eapply (triple_bind _ _ _ (fun e s => match e with Done _ => R s | _ => P s \/ R s end)); [| |tauto..].
  - apply triple_call; [tauto|]. intros s a s' HP [= <- <-]. naive_solver.
  - intros []. apply triple_check. intros s [] HR; tauto.
Qed.

Lemma write_keeps {A} (P R : S -> Prop) effect (k : prog A) Q :
  (forall s, P s -> R (effect s)) ->
  (forall s, P s \/ R s -> Q Errs s /\ Q Dies s) ->
  triple R k Q -> triple P (pbind (writeSynced effect) (fun _ => k)) Q.
Proof.
  intros Hw Hf Hk. eapply triple_bind; [by apply (write_alone P R)|by intros []|by intros s Hs; apply Hf..].
Qed.

Lemma of_option_keeps {A B} (o : option A) (P : S -> Prop) (k : A -> prog B) Q :
  (forall s, P s -> Q Errs s) -> (forall a, o = Some a -> triple P (k a) Q) -> triple P (pbind (of_option o) k) Q.
Proof.
  intros He Hk. destruct o as [a|]; cbn.
  - intros l s e l' s' HP. by apply (Hk a).
  - intros l s e l' s' HP [= <- <- <-]. by apply He.
Qed.

End Program.

Arguments prog S A : clear implicits.

#[export] Hint Resolve idle_check : core.

Declare Scope prog_scope.
Delimit Scope prog_scope with prog.
Notation "'do' x <- m ; k" := (pbind m (fun x => k))
  (at level 200, x pattern, m at level 100, k at level 200, right associativity) : prog_scope.
Notation "m ;; k" := (pbind m (fun _ => k)) (at level 100, k at level 200, right associativity) : prog_scope.
