(* ===== verification/Allowance.v ===== *)
(** * Changing the operator's files ([cmd/guardrail/allowance_transaction.go], [egress.go],
      [web_research.go], [grant_transaction.go])

    Granting a web host for a repository changes two files: the repository's Overlay and
    the operator's configuration.  A journal with both contents is made durable first,
    and whoever takes the operator lock next finishes what it finds.  The files are a map
    from paths to contents and permission bits, journals a directory of their own, each
    the value its JSON decodes to; the TOML codec, the digests and the random key are
    parameters. *)

From Stdlib Require Import ZArith Lia Bool.
From S2P Require Import Prelude GoStrings GoPath Policy Merge Session JsonText Durable.

Open Scope prog_scope.

Record allowanceJournal := {
  aj_OverlayPath : string;
  aj_OverlayAfter : string;
  aj_OverlayMode : Z;
  aj_OperatorPath : string;
  aj_OperatorAfter : string;
  aj_MAC : string;
}.

Notation Files := (gmap string (string * Z)).

(** The files, the [.json] files of the journal directory by name ([None] does not
    decode), and [auth.key]. *)
Record World := {
  w_files : Files;
  w_journals : gmap string (option allowanceJournal);
  w_key : option string;
}.

Definition with_files (w : World) (f : Files) : World :=
  {| w_files := f; w_journals := w_journals w; w_key := w_key w |}.
Definition with_journals (w : World) (js : gmap string (option allowanceJournal)) : World :=
  {| w_files := w_files w; w_journals := js; w_key := w_key w |}.
Definition with_key (w : World) (key : string) : World :=
  {| w_files := w_files w; w_journals := w_journals w; w_key := Some key |}.

(** Values of the TOML codec, as far as the sources make or inspect them. *)
Inductive toml :=
| TString (s : string)
| TArray (l : list toml)
| TTable (kvs : list (string * toml))
| TGrant (g : RepoGrant)
| TOther (literal : string).

(** Maps: [m[k]] and [m[k] = v]. *)
Fixpoint tput (kvs : list (string * toml)) (k : string) (v : toml) : list (string * toml) :=
  match kvs with
  | [] => [(k, v)]
  | (k', v') :: kvs => if k' =s? k then (k, v) :: kvs else (k', v') :: tput kvs k v
  end.
Definition tget (kvs : list (string * toml)) (k : string) : option toml :=
  snd <$> List.find (fun kv => kv.1 =s? k) kvs.

Definition updateHost (hosts : list string) (host : string) (grant : bool) : list string :=
  if grant then if in_list host hosts then hosts else hosts ++ [host]
  else List.filter (fun existing => existing <>s? host) hosts.

Section Transactions.

Context (decode_operator : string -> OperatorRead) (Decode : string -> option (list (string * toml)))
  (Encode : list (string * toml) -> option string).
(** [OperatorConfigPath], the names of journals, HMAC-SHA256 under a key of a journal's
    JSON without its MAC, and the bytes of [crypto/rand]. *)
Context (operatorPath : string) (sha256 : string -> string) (hmac : string -> allowanceJournal -> string)
  (fresh_key : string).
Context (fs : FS).

(** ** Files *)

Definition writeSyncedPrivateFile (path content : string) (mode : Z) : prog World unit :=
  writeSynced (fun w => with_files w (<[path := (content, mode)]> (w_files w))).

(** The directory is made, made private and validated. *)
Definition ensureAllowanceDir : prog World unit := check ;; check ;; check.
(** The same of the configuration's directory. *)
Definition ensureOperatorDir : prog World unit := check ;; check.

Definition allowanceKey : prog World string :=
  do key <- look (fun w => Some (w_key w));
  match key with
  | Some _ => check ;; look w_key
  | None => writeSynced (fun w => with_key w fresh_key) ;; pret fresh_key
  end.

(** [<sha256 of the repository>.json] *)
Definition mustAllowanceJournalPath (repo : string) : string := sha256 (Clean repo) +:+ ".json".

Definition unsigned (j : allowanceJournal) : allowanceJournal :=
  {| aj_OverlayPath := aj_OverlayPath j; aj_OverlayAfter := aj_OverlayAfter j; aj_OverlayMode := aj_OverlayMode j;
     aj_OperatorPath := aj_OperatorPath j; aj_OperatorAfter := aj_OperatorAfter j; aj_MAC := "" |}.
Definition signed (key : string) (j : allowanceJournal) : allowanceJournal :=
  {| aj_OverlayPath := aj_OverlayPath j; aj_OverlayAfter := aj_OverlayAfter j; aj_OverlayMode := aj_OverlayMode j;
     aj_OperatorPath := aj_OperatorPath j; aj_OperatorAfter := aj_OperatorAfter j; aj_MAC := hmac key (unsigned j) |}.

(** What is read back of a journal that was written: [json.Marshal] makes paths UTF-8; the
    contents and the code are bytes, which it writes in base64. *)
Definition through_json (j : allowanceJournal) : allowanceJournal :=
  {| aj_OverlayPath := coerce (aj_OverlayPath j); aj_OverlayAfter := aj_OverlayAfter j; aj_OverlayMode := aj_OverlayMode j;
     aj_OperatorPath := coerce (aj_OperatorPath j); aj_OperatorAfter := aj_OperatorAfter j; aj_MAC := aj_MAC j |}.

Definition writeAllowanceJournal (name : string) (j : allowanceJournal) : prog World unit :=
  do key <- allowanceKey;
  writeSynced (fun w => with_journals w (<[name := Some (through_json (signed key j))]> (w_journals w))).

Definition recoverAllowanceJournal (name : string) : prog World unit :=
  ensureAllowanceDir ;;
  check ;;                                     (* the journal is private, where there is one *)
  do slot <- look (fun w => Some (w_journals w !! name));
  match slot with
  | None => pret tt
  | Some None => perr
  | Some (Some j) =>
      do key <- allowanceKey;
      if aj_MAC j <>s? hmac key (unsigned j) then perr
      else if negb (IsAbs (aj_OverlayPath j)) || (aj_OperatorPath j <>s? operatorPath) then perr
      else
        writeSyncedPrivateFile (aj_OverlayPath j) (aj_OverlayAfter j) (aj_OverlayMode j) ;;
        ensureOperatorDir ;;
        writeSyncedPrivateFile (aj_OperatorPath j) (aj_OperatorAfter j) 384 ;;
        change (fun w => with_journals w (delete name (w_journals w))) ;;
        check
  end.

Fixpoint recover_each (names : list string) : prog World unit :=
  match names with
  | [] => pret tt
  | name :: names => recoverAllowanceJournal name ;; recover_each names
  end.

(** [os.ReadDir] lists in the order of names. *)
Definition recoverAllowanceJournals : prog World unit :=
  do names <- look (fun w => Some (sort_strings (map_to_list (w_journals w)).*1));
  recover_each names.

(** ** The two documents *)

Definition operator_raw (op : OperatorConfig) : list (string * toml) :=
  let raw := [("web_hosts", TTable [("global", TArray (map TString (oc_GlobalWebHosts op)))])] in
  let raw := if oc_Approval op <>s? "" then tput raw "approval" (TString (oc_Approval op)) else raw in
  let raw := if oc_WebResearchEnforcement op <>s? ""
             then tput raw "web_research" (TTable [("enforcement", TString (oc_WebResearchEnforcement op))]) else raw in
  foldl (fun raw kg => tput raw kg.1 (TGrant kg.2)) raw (oc_Repos op).

Definition operatorConfigContent (op : OperatorConfig) : option string := Encode (operator_raw op).

Definition string_entries (l : list toml) : list string :=
  flat_map (fun v => match v with TString s => [s] | _ => [] end) l.

(** The new content and its permission bits; the file may be missing. *)
Definition overlayWebHostContent (file : option (string * Z)) (host : string) (grant : bool) : option (string * Z) :=
  let mode := match file with Some (_, mode) => mode | None => 420%Z end in
  match (match file with Some (content, _) => Decode content | None => Some [] end) with
  | None => None
  | Some raw =>
      let slots := match tget raw "slots" with Some (TTable slots) => slots | _ => [] end in
      let hosts := match tget slots "web_hosts" with Some (TArray l) => string_entries l | _ => [] end in
      let slots := tput slots "web_hosts" (TArray (map TString (updateHost hosts host grant))) in
      (fun content => (content, mode)) <$> Encode (tput raw "slots" (TTable slots))
  end.

(** [LoadOperatorConfig] of the file. *)
Definition operator_of (files : Files) : option OperatorConfig :=
  match LoadOperatorConfig (match files !! operatorPath with
                            | None => OperatorMissing
                            | Some (content, _) => decode_operator content
                            end) with
  | (op, None) => Some op
  | (_, Some _) => None
  end.

(** ** The operations *)

(** The directory, the lock, and what a crash left. *)
Definition locked {A} (body : prog World A) : prog World A :=
  check ;; ensureAllowanceDir ;; check ;; recoverAllowanceJournals ;; body.

(** The new configuration replaces the old one. *)
Definition rewrite_operator {A} (mutate : OperatorConfig -> A * option OperatorConfig) : prog World A :=
  locked (
    do op <- look (fun w => operator_of (w_files w));
    match mutate op with
    | (a, None) => pret a
    | (a, Some op) =>
        do raw <- of_option (operatorConfigContent op);
        ensureOperatorDir ;;
        writeSyncedPrivateFile operatorPath raw 384 ;;
        pret a
    end).

Definition global_hosts (host : string) (grant : bool) (op : OperatorConfig) : unit * option OperatorConfig :=
  (tt, Some {| oc_GlobalWebHosts := updateHost (oc_GlobalWebHosts op) host grant;
               oc_WebResearchEnforcement := oc_WebResearchEnforcement op; oc_Approval := oc_Approval op;
               oc_Repos := oc_Repos op |}).
Definition applyGlobalWebHost (host : string) (grant : bool) : prog World unit := rewrite_operator (global_hosts host grant).

Definition enforcement (mode : string) (op : OperatorConfig) : unit * option OperatorConfig :=
  (tt, Some {| oc_GlobalWebHosts := oc_GlobalWebHosts op; oc_WebResearchEnforcement := mode;
               oc_Approval := oc_Approval op; oc_Repos := oc_Repos op |}).
Definition setWebResearchEnforcement (mode : string) : prog World unit :=
  if negb (in_list mode ["on"; "off"]) then perr else rewrite_operator (enforcement mode).

(** [consumeCommandGrant] over the file. *)
Definition consumed (repo ruleID command : string) (now : Time) (op : OperatorConfig) : bool * option OperatorConfig :=
  let '(spent, op) := consumeCommandGrant fs op repo ruleID command now in (spent, Some op).
Definition spend_grant (repo ruleID command : string) (now : Time) : prog World bool :=
  rewrite_operator (consumed repo ruleID command now).

Definition repo_hosts (op : OperatorConfig) (repo host : string) (grant : bool) : OperatorConfig :=
  let repoGrant := default empty_grant (repo_lookup (oc_Repos op) repo) in
  let repoGrant := {| rg_Waive := rg_Waive repoGrant; rg_SecretAllow := rg_SecretAllow repoGrant;
                      rg_AuditLog := rg_AuditLog repoGrant; rg_EgressAllowlist := rg_EgressAllowlist repoGrant;
                      rg_WebHosts := updateHost (rg_WebHosts repoGrant) host grant; rg_Commands := rg_Commands repoGrant |} in
  set_repos op (repos_insert (oc_Repos op) repo repoGrant).

Definition journal_of (repo : string) (overlay : string * Z) (operator : string) : allowanceJournal :=
  {| aj_OverlayPath := JoinPath [repo; "guardrail.toml"]; aj_OverlayAfter := overlay.1; aj_OverlayMode := overlay.2;
     aj_OperatorPath := operatorPath; aj_OperatorAfter := operator; aj_MAC := "" |}.

Definition applyRepoWebHost (repo host : string) (grant : bool) : prog World unit :=
  locked (
    do op <- look (fun w => operator_of (w_files w));
    do overlay <- look (fun w => overlayWebHostContent (w_files w !! JoinPath [repo; "guardrail.toml"]) host grant);
    do operator <- of_option (operatorConfigContent (repo_hosts op repo host grant));
    ensureOperatorDir ;;
    writeAllowanceJournal (mustAllowanceJournalPath repo) (journal_of repo overlay operator) ;;
    recoverAllowanceJournal (mustAllowanceJournalPath repo)).

(** [applyWebHostBatch]: the hosts one by one; on an error those applied are taken back,
    the last one first, and their own errors are ignored. *)
Section Batch.

Context {S : Type} (apply : string -> bool -> prog S unit).

Fixpoint roll_back (applied : list string) (grant : bool) : prog S unit :=
  match applied with
  | [] => pret tt
  | host :: applied => attempt (apply host (negb grant)) ;; roll_back applied grant
  end.

(** [applied]: the hosts that were applied, the last one first. *)
Fixpoint apply_hosts (applied hosts : list string) (grant : bool) : prog S unit :=
  match hosts with
  | [] => pret tt
  | host :: hosts =>
      do res <- attempt (apply host grant);
      match res with
      | Some _ => apply_hosts (host :: applied) hosts grant
      | None => roll_back applied grant ;; perr
      end
  end.

Definition applyWebHostBatch (hosts : list string) (grant : bool) : prog S unit := apply_hosts [] hosts grant.

End Batch.

(** ** What the files amount to *)

(** What recovery makes of a journal. *)
Definition install (j : allowanceJournal) (files : Files) : Files :=
  <[aj_OperatorPath j := (aj_OperatorAfter j, 384%Z)]>
    (<[aj_OverlayPath j := (aj_OverlayAfter j, aj_OverlayMode j)]> files).

Lemma install_overlay j files :
  install j (<[aj_OverlayPath j := (aj_OverlayAfter j, aj_OverlayMode j)]> files) = install j files.
Proof. unfold install. by rewrite insert_insert_eq. Qed.

Lemma install_install j files : install j (install j files) = install j files.
Proof.
  unfold install. destruct (decide (aj_OverlayPath j = aj_OperatorPath j)) as [->|H].
  - by rewrite !insert_insert_eq.
  - rewrite (insert_insert_ne _ (aj_OverlayPath j)), !insert_insert_eq by done. done.
Qed.

(** A journal recovery accepts. *)
Definition authentic (key : string) (j : allowanceJournal) : Prop :=
  aj_MAC j = hmac key (unsigned j) /\ IsAbs (aj_OverlayPath j) = true /\ aj_OperatorPath j = operatorPath.

Definition unfinished (name : string) (j : allowanceJournal) (w : World) : Prop :=
  w_journals w = {[name := Some j]} /\ exists key, w_key w = Some key /\ authentic key j.

(** Nothing is left to finish, or one authentic journal is. *)
Definition sound (w : World) : Prop := w_journals w = ∅ \/ exists name j, unfinished name j w.

(** The files as whoever takes the lock next will find them. *)
Definition effective (w : World) : Files :=
  match map_to_list (w_journals w) with
  | [(_, Some j)] => install j (w_files w)
  | _ => w_files w
  end.

Definition settled (f : Files) (w : World) : Prop := w_journals w = ∅ /\ w_files w = f.
Definition amounts_to (f : Files) (w : World) : Prop := sound w /\ effective w = f.
Definition to_install (name : string) (j : allowanceJournal) (f : Files) (w : World) : Prop :=
  unfinished name j w /\ install j (w_files w) = f.

Lemma effective_empty w : w_journals w = ∅ -> effective w = w_files w.
Proof. intros H. unfold effective. by rewrite H, map_to_list_empty. Qed.

Lemma effective_pending name j w : w_journals w = {[name := Some j]} -> effective w = install j (w_files w).
Proof. intros H. unfold effective. by rewrite H, map_to_list_singleton. Qed.

Lemma settled_amounts f w : settled f w -> amounts_to f w.
Proof. intros [H <-]. split; [by left|by apply effective_empty]. Qed.

Lemma to_install_amounts name j f w : to_install name j f w -> amounts_to f w.
Proof. intros [[H1 H2] <-]. split; [right; by exists name, j|by eapply effective_pending]. Qed.

Lemma amounts_cases f w : amounts_to f w -> settled f w \/ exists name j, to_install name j f w.
Proof.
  intros [[H|(name & j & H)] <-]; [left; split; [done|by rewrite effective_empty]|].
  right. exists name, j. split; [done|]. symmetry. destruct H as [H _]. by eapply effective_pending.
Qed.

(** ** Single programs *)

Lemma idle_ensure_allowance : idle ensureAllowanceDir.
Proof. unfold ensureAllowanceDir. repeat apply idle_then; apply idle_check. Qed.

Lemma idle_ensure_operator : idle ensureOperatorDir.
Proof. apply idle_then; apply idle_check. Qed.



#[local] Hint Resolve idle_ensure_allowance idle_ensure_operator : core.

Lemma key_found key (P : World -> Prop) {A} (k : string -> prog World A) Q :
  (forall s, P s -> w_key s = Some key) ->
  (forall s, P s -> Q Errs s /\ Q Dies s) -> triple P (k key) Q -> triple P (do x <- allowanceKey; k x) Q.
Proof.
  intros Hkey Hf Hk. eapply (triple_bind _ _ _ (fun e s => P s /\ match e with Done x => x = key | _ => True end)).
  - unfold allowanceKey. apply look_keeps; [intros; tauto|]. intros o.
    intros l s e l' s' [HP Ho]. injection Ho as Ho. rewrite (Hkey _ HP) in Ho. subst o. revert l s e l' s' HP.
    change (triple P (check ;; look w_key) (fun e s => P s /\ match e with Done x => x = key | _ => True end)).
    apply idle_keeps; [done|tauto|]. apply triple_look; [tauto|]. intros s x HP Hx. rewrite (Hkey _ HP) in Hx. by injection Hx.
  - intros x l s e l' s' [HP ->]. by apply Hk.
  - intros s [HP _]. by apply Hf.
  - intros s [HP _]. by apply Hf.
Qed.

(** The last steps of a recovery. *)
Lemma recover_installs name j key f :
  authentic key j ->
  triple (fun w => to_install name j f w /\ w_key w = Some key)
    (do key <- allowanceKey;
     if aj_MAC j <>s? hmac key (unsigned j) then perr
     else if negb (IsAbs (aj_OverlayPath j)) || (aj_OperatorPath j <>s? operatorPath) then perr
     else
       writeSyncedPrivateFile (aj_OverlayPath j) (aj_OverlayAfter j) (aj_OverlayMode j) ;;
       ensureOperatorDir ;;
       writeSyncedPrivateFile (aj_OperatorPath j) (aj_OperatorAfter j) 384 ;;
       change (fun w => with_journals w (delete name (w_journals w))) ;;
       check)
    (fun e w => amounts_to f w /\ (forall a, e = Done a -> settled f w)).
Proof.
  intros (Hmac & Habs & Hop).
  assert (Hq : forall w, to_install name j f w -> forall e : ending unit, e <> Done tt ->
            amounts_to f w /\ (forall a, e = Done a -> settled f w)).
  { intros w Hw e He. split; [by eapply to_install_amounts|]. by intros [] ->. }
  apply (key_found key); [tauto|intros w [Hw _]; by split; apply Hq|].
  rewrite Hmac, Hop. rewrite !String.eqb_refl, Habs. cbn [negb orb]. rewrite <- Hop.
  apply (write_keeps _ (fun w => to_install name j f w /\
           exists f0, w_files w = <[aj_OverlayPath j := (aj_OverlayAfter j, aj_OverlayMode j)]> f0)).
  { intros w [[Hp Hi] _]. split; [split; [exact Hp|]|by eexists]. cbn [w_files with_files]. by rewrite install_overlay. }
  { intros w [[Hw _]|[Hw _]]; by split; apply Hq. }
  apply idle_keeps; [done|intros w [Hw _]; by split; apply Hq|].
  apply (write_keeps _ (fun w => to_install name j f w /\ w_files w = f)).
  { intros w [[Hp Hi] (f0 & Hf)]. cbn [w_files with_files]. rewrite Hf, install_overlay in Hi. rewrite Hf. fold (install j f0).
    rewrite Hi. split; [split; [exact Hp|]|done]. cbn [w_files with_files]. by rewrite <- Hi at 1; rewrite install_install. }
  { intros w [[Hw _]|[Hw _]]; by split; apply Hq. }
  eapply (triple_bind _ _ _ (fun e w => match e with Done _ => settled f w | _ => amounts_to f w end)).
  - apply triple_call; [intros w [Hw _]; by split; eapply to_install_amounts|].
    intros w a w' [[[Hj _] _] Hf] [= <- <-].
    assert (Hs : settled f (with_journals w (delete name (w_journals w)))).
    { split; [|exact Hf]. cbn. rewrite Hj. apply delete_singleton_eq. }
    split; [exact Hs|]. split; by apply settled_amounts.
  - intros []. apply triple_check. intros w e Hs. split; [by apply settled_amounts|done].
  - intros w Hw. by split.
  - intros w Hw. by split.
Qed.

(** One journal of a directory that has at most that one. *)
Lemma recover_journal name f :
  triple (fun w => amounts_to f w /\ (w_journals w = ∅ \/ exists slot, w_journals w = {[name := slot]}))
    (recoverAllowanceJournal name)
    (fun e w => amounts_to f w /\ (forall a, e = Done a -> settled f w)).
Proof.
  unfold recoverAllowanceJournal.
  assert (Hq : forall w, amounts_to f w -> forall e : ending unit, e <> Done tt ->
            amounts_to f w /\ (forall a, e = Done a -> settled f w)).
  { intros w Hw e He. split; [done|]. by intros [] ->. }
  do 2 (apply idle_keeps; [done|intros w [Hw _]; by split; apply Hq|]).
  apply look_keeps; [intros w [Hw _]; by split; apply Hq|]. intros slot l w e l' w' [[Ha Hjs] Hslot]. injection Hslot as Hslot.
  destruct (amounts_cases _ _ Ha) as [Hs|(n & j & Ht)].
  - destruct Hs as [H0 Hf]. rewrite H0, lookup_empty in Hslot. subst slot. intros [= <- _ <-].
    split; [by apply settled_amounts|]. done.
  - assert (Hn : n = name).
    { destruct Ht as [[Hj _] _]. rewrite Hj in Hjs. destruct Hjs as [Hjs|(s0 & Hjs)]; [by apply map_non_empty_singleton in Hjs|].
      apply (f_equal (fun m : gmap string (option allowanceJournal) => m !! n)) in Hjs.
      rewrite lookup_singleton_eq in Hjs. symmetry in Hjs. by apply lookup_singleton_Some in Hjs as [-> _]. }
    subst n. assert (slot = Some (Some j)) as -> by (destruct Ht as [[Hj _] _]; by rewrite <- Hslot, Hj, lookup_singleton_eq).
    destruct Ht as [[Hj (key & Hk & Hau)] Hi].
    apply (recover_installs name j key f Hau l w e l' w'). split; [|done]. split; [|done]. split; [done|by exists key].
Qed.

Lemma recover_all f :
  triple (amounts_to f) recoverAllowanceJournals (fun e w => amounts_to f w /\ (forall a, e = Done a -> settled f w)).
Proof.
  unfold recoverAllowanceJournals. apply look_keeps; [intros w Hw; by split|].
  intros names l w e l' w' [Ha Hn]. injection Hn as Hn. destruct (amounts_cases _ _ Ha) as [[H0 Hf]|(name & j & Ht)].
  - rewrite H0, map_to_list_empty in Hn. subst names. intros [= <- _ <-]. split; [done|]. by intros _ _.
  - assert (Hj : w_journals w = {[name := Some j]}) by by destruct Ht as [[? _] _].
    rewrite Hj, map_to_list_singleton in Hn. subst names. cbn. revert Ha Hj. intros Ha Hj.
    cut (triple (fun w => amounts_to f w /\ (w_journals w = ∅ \/ exists slot, w_journals w = {[name := slot]}))
           (recoverAllowanceJournal name ;; pret tt)
           (fun e w => amounts_to f w /\ (forall a, e = Done a -> settled f w))).
    { intros Hc Hr. eapply Hc; [|exact Hr]. split; [done|]. right. by eexists. }
    eapply triple_bind; [apply recover_journal| |by intros s [? ?]; split|by intros s [? ?]; split].
    intros []. apply triple_ret. intros s [Hs1 Hs2]. split; [done|]. intros _ _. by eapply Hs2.
Qed.

(** ** The operations are atomic *)

(** Each operation as a function of the files. *)
Definition rewritten {A} (mutate : OperatorConfig -> A * option OperatorConfig) (files : Files) : option (A * Files) :=
  match operator_of files with
  | None => None
  | Some op =>
      match mutate op with
      | (a, None) => Some (a, files)
      | (a, Some op) => (fun raw => (a, <[operatorPath := (raw, 384%Z)]> files)) <$> operatorConfigContent op
      end
  end.

Definition host_granted (repo host : string) (grant : bool) (files : Files) : option (unit * Files) :=
  match operator_of files, overlayWebHostContent (files !! JoinPath [repo; "guardrail.toml"]) host grant with
  | Some op, Some overlay =>
      (fun operator => (tt, install (journal_of repo overlay operator) files)) <$>
        operatorConfigContent (repo_hosts op repo host grant)
  | _, _ => None
  end.

(** However it ends, the files are those before it or those after it; when it returns
    they are those after it, and nothing is left to finish. *)
Definition atomically {A} (m : prog World A) (spec : Files -> option (A * Files)) : Prop :=
  forall f, triple (amounts_to f) m (fun e w =>
    match e with
    | Done a => exists f', spec f = Some (a, f') /\ settled f' w
    | _ => amounts_to f w \/ exists a f', spec f = Some (a, f') /\ amounts_to f' w
    end).

Lemma locked_atomic {A} (body : prog World A) spec :
  (forall f, triple (settled f) body (fun e w =>
     match e with
     | Done a => exists f', spec f = Some (a, f') /\ settled f' w
     | _ => amounts_to f w \/ exists a f', spec f = Some (a, f') /\ amounts_to f' w
     end)) -> atomically (locked body) spec.
Proof.
  intros Hb f. unfold locked. do 3 (apply idle_keeps; [done|by split; left|]).
  eapply triple_bind; [apply recover_all| |by intros s [Hs _]; left|by intros s [Hs _]; left].
  intros a. eapply triple_conseq; [apply (Hb f)| |done]. intros s [_ Hs]. by eapply Hs.
Qed.

Lemma rewrite_operator_atomic {A} (mutate : OperatorConfig -> A * option OperatorConfig) :
  atomically (rewrite_operator mutate) (rewritten mutate).
Proof.
  apply locked_atomic. intros f. apply look_keeps; [intros s Hs; split; left; by apply settled_amounts|]. intros op.
  assert (Hq : forall s, settled f s /\ operator_of (w_files s) = Some op -> amounts_to f s) by (intros s [Hs _]; by apply settled_amounts).
  assert (Hsp : forall s, settled f s /\ operator_of (w_files s) = Some op -> operator_of f = Some op) by (by intros s [[_ <-] ?]).
  destruct (mutate op) as [a [op'|]] eqn:Em.
  2: { apply triple_ret. intros s Hs. exists f. split; [|tauto]. unfold rewritten. by rewrite (Hsp s Hs), Em. }
  apply of_option_keeps; [intros s Hs; left; by apply Hq|]. intros raw Hr.
  apply idle_keeps; [done|intros s Hs; split; left; by apply Hq|].
  set (f' := <[operatorPath := (raw, 384%Z)]> f).
  assert (Hspec : operator_of f = Some op -> rewritten mutate f = Some (a, f')).
  { intros Ho. unfold rewritten. by rewrite Ho, Em, Hr. }
  apply (write_keeps _ (fun s => operator_of f = Some op /\ settled f' s)).
  - intros s Hs. split; [by apply (Hsp s)|]. destruct Hs as [[H1 H2] _]. split; [done|]. cbn. by rewrite H2.
  - intros s [Hs|[Ho Hs]]; [split; left; by apply Hq|]. split; right; exists a, f'; (split; [by apply Hspec|by apply settled_amounts]).
  - apply triple_ret. intros s [Ho Hs]. exists f'. by split; [apply Hspec|].
Qed.

Lemma allowanceKey_keeps f :
  triple (settled f) allowanceKey (fun e w => settled f w /\ (forall key, e = Done key -> w_key w = Some key)).
Proof.
  unfold allowanceKey. apply look_keeps; [by split|]. intros o. destruct o as [key|].
  - apply idle_keeps; [done|by intros s [Hs _]|]. apply triple_look; [by intros s [Hs _]|].
    intros s x [Hs _] Hx. split; [done|]. by intros k [= <-].
  - apply (write_keeps _ (fun w => settled f w /\ w_key w = Some fresh_key)).
    + by intros s [[H1 H2] _].
    + intros s [[Hs _]|[Hs _]]; by split.
    + apply triple_ret. intros s [Hs Hk]. split; [done|]. by intros k [= <-].
Qed.

Lemma install_signed key j files : install (signed key j) files = install j files.
Proof. done. Qed.

Lemma IsAbs_overlay repo : IsAbs repo = true -> IsAbs (JoinPath [repo; "guardrail.toml"]) = true.
Proof.
  intros H. unfold JoinPath. cbn [List.filter]. assert ((repo <>s? "") = true) as -> by by destruct repo.
  cbn [Join negb String.eqb]. rewrite IsAbs_Clean. by destruct repo as [|c repo].
Qed.

(** A repository whose Overlay a journal can name: its path is absolute, and it and the
    configuration's are UTF-8. *)
Definition well_named (repo : string) : Prop :=
  IsAbs repo = true /\ coerce (JoinPath [repo; "guardrail.toml"]) = JoinPath [repo; "guardrail.toml"] /\
  coerce operatorPath = operatorPath.

Lemma through_json_same repo overlay operator key :
  well_named repo -> through_json (signed key (journal_of repo overlay operator)) = signed key (journal_of repo overlay operator).
Proof. intros (_ & H1 & H2). unfold through_json. cbn [signed journal_of aj_OverlayPath aj_OperatorPath]. by rewrite H1, H2. Qed.

Lemma applyRepoWebHost_atomic repo host grant :
  well_named repo -> atomically (applyRepoWebHost repo host grant) (host_granted repo host grant).
Proof.
  intros Hname. pose proof (proj1 Hname) as Habs. apply locked_atomic. intros f. apply look_keeps; [intros s Hs; split; left; by apply settled_amounts|]. intros op.
  apply look_keeps; [intros s [Hs _]; split; left; by apply settled_amounts|]. intros overlay.
  apply of_option_keeps; [intros s [[Hs _] _]; left; by apply settled_amounts|]. intros operator Hop.
  apply idle_keeps; [done|intros s [[Hs _] _]; split; left; by apply settled_amounts|].
  set (j := journal_of repo overlay operator). set (name := mustAllowanceJournalPath repo).
  set (granted := host_granted repo host grant f = Some (tt, install j f)).
  apply (triple_conseq _ (fun s => settled f s /\ granted) _ _ (fun e w =>
     match e with
     | Done a => exists f', host_granted repo host grant f = Some (a, f') /\ settled f' w
     | _ => amounts_to f w \/ exists a f', host_granted repo host grant f = Some (a, f') /\ amounts_to f' w
     end)); [| |done].
  2: { intros s [[Hs Ho] Hov]. split; [done|]. unfold granted, host_granted. destruct Hs as [_ <-]. by rewrite Ho, Hov, Hop. }
  intros l s e l' s' [Hs Hg]. revert l s e l' s' Hs.
  change (triple (settled f) (writeAllowanceJournal name j ;; recoverAllowanceJournal name) (fun e w =>
     match e with
     | Done a => exists f', host_granted repo host grant f = Some (a, f') /\ settled f' w
     | _ => amounts_to f w \/ exists a f', host_granted repo host grant f = Some (a, f') /\ amounts_to f' w
     end)).
  assert (Hq : forall s, amounts_to f s \/ amounts_to (install j f) s -> amounts_to f s \/
            exists a f', host_granted repo host grant f = Some (a, f') /\ amounts_to f' s).
  { intros s [Hs|Hs]; [by left|right]. by exists tt, (install j f). }
  eapply (triple_bind _ _ _ (fun e w => match e with
    | Done _ => exists key, to_install name (signed key j) (install j f) w
    | _ => amounts_to f w \/ amounts_to (install j f) w end)); [| |by apply Hq..].
  - eapply triple_bind; [apply allowanceKey_keeps| |by intros s [Hs _]; left; apply settled_amounts..]. intros key.
    assert (Hw : forall s, settled f s /\ w_key s = Some key ->
              to_install name (signed key j) (install j f) (with_journals s (<[name := Some (through_json (signed key j))]> (w_journals s)))).
    { unfold j. rewrite through_json_same by done. fold j. intros s [[H1 H2] Hk]. split; [|by rewrite install_signed; cbn; rewrite H2]. split; [cbn; by rewrite H1|].
      exists key. split; [done|]. split_and!; [done|by apply IsAbs_overlay|done]. }
    apply (triple_conseq _ (fun s => settled f s /\ w_key s = Some key) _ _ (fun e w => match e with
      | Done _ => to_install name (signed key j) (install j f) w
      | _ => (settled f w /\ w_key w = Some key) \/ to_install name (signed key j) (install j f) w end)).
    + by apply write_alone.
    + by intros s [Hs Hk]; split; [|apply Hk].
    + intros [[]| |] s; [by exists key|intros [[H0 _]|H0]..];
        [left; by apply settled_amounts|right; by eapply to_install_amounts|left; by apply settled_amounts|right; by eapply to_install_amounts].
  - intros a. eapply triple_conseq; [apply (recover_journal name (install j f))| |].
    + intros s (key & Ht). split; [by eapply to_install_amounts|]. destruct Ht as [[Hj _] _]. right. by eexists.
    + intros e s [Ha Hd]. destruct e as [[]| |]; [|by apply Hq; right..].
      exists (install j f). split; [done|]. by eapply Hd.
Qed.

(** ** Any number of operations, any of them cut off *)

Inductive operation :=
| RepoHost (repo host : string) (grant : bool)
| GlobalHost (host : string) (grant : bool)
| Enforcement (mode : string)
| Spend (repo ruleID command : string) (now : Time).

(** Brokered actions carry absolute roots ([executeWebHostApproval]). *)
Definition well_addressed (o : operation) : Prop :=
  match o with RepoHost repo _ _ => well_named repo | _ => True end.

Definition run_operation (o : operation) : prog World unit :=
  match o with
  | RepoHost repo host grant => applyRepoWebHost repo host grant
  | GlobalHost host grant => applyGlobalWebHost host grant
  | Enforcement mode => setWebResearchEnforcement mode
  | Spend repo ruleID command now => do _ <- spend_grant repo ruleID command now; pret tt
  end.

(** What the operation makes of the files; [None] when it is bound to fail. *)
Definition operation_spec (o : operation) (files : Files) : option Files :=
  match o with
  | RepoHost repo host grant => snd <$> host_granted repo host grant files
  | GlobalHost host grant => snd <$> rewritten (global_hosts host grant) files
  | Enforcement mode => if in_list mode ["on"; "off"] then snd <$> rewritten (enforcement mode) files else None
  | Spend repo ruleID command now => snd <$> rewritten (consumed repo ruleID command now) files
  end.

(** Operations one after the other, each with the faults it meets, and whether it returned. *)
Fixpoint run_operations (os : list (operation * list fault)) (w : World) : list (operation * bool) * World :=
  match os with
  | [] => ([], w)
  | (o, faults) :: os =>
      let '(e, _, w) := run_operation o faults w in
      let '(log, w) := run_operations os w in
      ((o, match e with Done _ => true | _ => false end) :: log, w)
  end.

(** The operations in their order, each entirely or, unless it returned, not at all. *)
Inductive serial : list (operation * bool) -> Files -> Files -> Prop :=
| serial_nil f : serial [] f f
| serial_whole o b log f f' f'' : operation_spec o f = Some f' -> serial log f' f'' -> serial ((o, b) :: log) f f''
| serial_nothing o log f f' : serial log f f' -> serial ((o, false) :: log) f f'.

Lemma atomically_files {A} (m : prog World A) spec f faults w e faults' w' :
  atomically m spec -> amounts_to f w -> m faults w = (e, faults', w') ->
  (e <> Dies /\ e <> Errs \/ amounts_to f w' \/ exists f', snd <$> spec f = Some f' /\ amounts_to f' w') /\
  (forall a, e = Done a -> exists f', snd <$> spec f = Some f' /\ settled f' w').
Proof.
  intros Hm Ha He. apply (Hm f) in He; [|done]. destruct e as [a| |].
  - destruct He as (f' & Hs & Hw). split; [by left|]. intros _ _. exists f'. by rewrite Hs.
  - split; [|done]. right. destruct He as [H|(a & f' & Hs & Hw)]; [by left|right]. exists f'. by rewrite Hs.
  - split; [|done]. right. destruct He as [H|(a & f' & Hs & Hw)]; [by left|right]. exists f'. by rewrite Hs.
Qed.

(** An operation whose result is dropped. *)
Lemma atomically_unit {A} (m : prog World A) spec :
  atomically m spec -> atomically (do _ <- m; pret tt) (fun f => (fun af => (tt, af.2)) <$> spec f).
Proof.
  intros Hm f. eapply triple_bind; [apply Hm| | |].
  - intros a. apply triple_ret. intros s (f' & Hs & Hw). exists f'. by rewrite Hs.
  - intros s [H|(a & f' & Hs & Hw)]; [by left|right]. exists tt, f'. by rewrite Hs.
  - intros s [H|(a & f' & Hs & Hw)]; [by left|right]. exists tt, f'. by rewrite Hs.
Qed.

Lemma operation_atomic o : well_addressed o -> atomically (run_operation o) (fun f => (fun f' => (tt, f')) <$> operation_spec o f).
Proof.
  assert (Hx : forall (m : prog World unit) spec spec',
            (forall f, (fun f' => (tt, f')) <$> spec f = spec' f) -> atomically m spec' ->
            atomically m (fun f => (fun f' => (tt, f')) <$> spec f)).
  { intros m spec spec' Hs Hm f. eapply triple_conseq; [apply Hm|done|]. intros e w. by rewrite <- Hs. }
  destruct o as [repo host grant|host grant|mode|repo ruleID command now]; cbn [well_addressed run_operation]; intros H.
  - eapply Hx; [|by apply applyRepoWebHost_atomic]. intros f. cbn. by destruct (host_granted _ _ _ f) as [[[] ?]|].
  - eapply Hx; [|apply rewrite_operator_atomic]. intros f. cbn. by destruct (rewritten _ f) as [[[] ?]|].
  - unfold setWebResearchEnforcement. cbn [operation_spec]. destruct (in_list mode _); cbn [negb].
    + eapply Hx; [|apply rewrite_operator_atomic]. intros f. cbn. by destruct (rewritten _ f) as [[[] ?]|].
    + intros f. apply triple_err. intros s Hs. by left.
  - eapply Hx; [|apply atomically_unit, rewrite_operator_atomic]. intros f. cbn. by destruct (rewritten _ f) as [[? ?]|].
Qed.

(** Recovery that meets no fault finishes. *)
Lemma recovery_finishes f w :
  amounts_to f w -> exists w', recoverAllowanceJournals [] w = (Done tt, [], w') /\ settled f w'.
Proof.
  intros Ha. cut (exists w', recoverAllowanceJournals [] w = (Done tt, [], w')).
  { intros (w' & E). exists w'. split; [done|]. by eapply (recover_all f). }
  destruct (amounts_cases _ _ Ha) as [[H0 _]|(name & j & [[Hj (key & Hk & Hmac & Habs & Hop)] _])].
  - exists w. unfold recoverAllowanceJournals, pbind, look, call. cbn. by rewrite H0, map_to_list_empty.
  - eexists. unfold recoverAllowanceJournals, pbind, look, call. cbn. rewrite Hj, map_to_list_singleton. cbn.
    unfold recoverAllowanceJournal, allowanceKey, ensureAllowanceDir, ensureOperatorDir, writeSyncedPrivateFile, writeSynced, change,
      check, look, call, pbind. cbn.
    rewrite Hj, lookup_singleton_eq. cbn. rewrite Hk. cbn. rewrite Hk. cbn.
    rewrite Hmac, Habs, Hop, !String.eqb_refl. cbn. reflexivity.
Qed.

Lemma second_unit (o : option Files) : snd <$> ((fun f => (tt, f)) <$> o) = o.
Proof. by destruct o. Qed.

Lemma operations_serial os w log w' f :
  amounts_to f w -> Forall (fun x => well_addressed x.1) os -> run_operations os w = (log, w') ->
  exists f', serial log f f' /\ amounts_to f' w'.
Proof.
  revert w log f. induction os as [|[o faults] os IH]; intros w log f Ha Hok; cbn [run_operations].
  { intros [= <- <-]. exists f. by split; [constructor|]. }
  apply Forall_cons in Hok as [Ho Hok]. destruct (run_operation o faults w) as [[e fs1] w1] eqn:E.
  destruct (run_operations os w1) as [log1 w2] eqn:E2. intros [= <- <-].
  apply (atomically_files _ _ _ _ _ _ _ _ (operation_atomic o Ho) Ha) in E as [H1 H2].
  setoid_rewrite second_unit in H1. setoid_rewrite second_unit in H2.
  destruct e as [a| |].
  - destruct (H2 a eq_refl) as (f1 & Hs & Hw). apply settled_amounts in Hw.
    destruct (IH _ _ _ Hw Hok E2) as (f' & Hser & Hf). exists f'. split; [|done]. by eapply serial_whole.
  - destruct H1 as [[_ ?]|[Hw|(f1 & Hs & Hw)]]; [done| |].
    + destruct (IH _ _ _ Hw Hok E2) as (f' & Hser & Hf). exists f'. by split; [apply serial_nothing|].
    + destruct (IH _ _ _ Hw Hok E2) as (f' & Hser & Hf). exists f'. split; [|done]. by eapply serial_whole.
  - destruct H1 as [[? _]|[Hw|(f1 & Hs & Hw)]]; [done| |].
    + destruct (IH _ _ _ Hw Hok E2) as (f' & Hser & Hf). exists f'. by split; [apply serial_nothing|].
    + destruct (IH _ _ _ Hw Hok E2) as (f' & Hser & Hf). exists f'. split; [|done]. by eapply serial_whole.
Qed.

(** C34: whatever calls fail and wherever processes die, one recovery that meets no fault
    finishes, leaves no journal, and leaves the files of a sequential run in which each
    operation was done entirely or, unless it returned, not at all: the Overlay and the
    operator's configuration never stay apart. Repositories have absolute paths, and those and
    the configuration's are UTF-8: a journal is JSON and cannot name another
    ([unreadable_journal_stays]). *)
Theorem allowances_converge os w log w' :
  sound w -> Forall (fun x => well_addressed x.1) os -> run_operations os w = (log, w') ->
  exists f w'', recoverAllowanceJournals [] w' = (Done tt, [], w'') /\ settled f w'' /\ serial log (effective w) f.
Proof.
  intros Hs Hok Hr. destruct (operations_serial os w log w' (effective w)) as (f & Hser & Ha); [by split|done|done|].
  destruct (recovery_finishes f w' Ha) as (w'' & E & Hw). by exists f, w''.
Qed.

End Transactions.

(** Taking back what was just done undoes it only where it changed something. *)
Lemma updateHost_undone hosts host :
  in_list host hosts = false -> updateHost (updateHost hosts host true) host false = hosts.
Proof.
  intros H. unfold updateHost. rewrite H. cbn. rewrite List.filter_app. cbn [List.filter].
  rewrite String.eqb_refl. cbn [negb]. rewrite app_nil_r.
  apply in_list_false in H. induction hosts as [|h hosts IH]; [done|]. cbn [List.filter].
  assert ((h <>s? host) = true) as -> by (apply negb_true_iff, String.eqb_neq; intros ->; apply H; by left).
  f_equal. apply IH. intros Hin. apply H. by right.
Qed.

(** ** A concrete codec

    A configuration is its global hosts, an Overlay its granted hosts, with commas. *)

Definition demo_hosts (l : list toml) : string := Join (string_entries l) ",".
Definition demo_codec (raw : list (string * toml)) : option string :=
  match tget raw "web_hosts", tget raw "slots" with
  | Some (TTable [(_, TArray l)]), _ => Some (demo_hosts l)
  | _, Some (TTable [(_, TArray l)]) => Some (demo_hosts l)
  | _, _ => None
  end.
Definition demo_list (content : string) : list string := if content =s? "" then [] else Split content ",".
Definition demo_decode_operator (content : string) : OperatorRead :=
  OperatorDecoded {| of_Approval := None; of_Enforcement := ""; of_GlobalHosts := demo_list content; of_Tables := [] |}.
Definition demo_decode_overlay (content : string) : option (list (string * toml)) :=
  Some [("slots", TTable [("web_hosts", TArray (map TString (demo_list content)))])].

Definition demo_operator_path : string := "/home/u/.config/guardrail/waivers.toml".
Definition demo_world : World :=
  {| w_files := {[demo_operator_path := ("a.example.com", 384%Z); "/repo/guardrail.toml" := ("", 420%Z)]};
     w_journals := ∅; w_key := None |}.
Definition demo_fs : FS := {| fs_lstat := fun _ => LNotExist; fs_evalsymlinks := fun p => Some p |}.
Definition demo_hmac (key : string) (j : allowanceJournal) : string := key +:+ aj_OverlayAfter j +:+ aj_OperatorAfter j.

#[local] Notation demo_global :=
  (applyGlobalWebHost demo_decode_operator demo_codec demo_operator_path demo_hmac "k").
#[local] Notation demo_run := (run_operations demo_decode_operator demo_decode_overlay demo_codec demo_operator_path
  (fun s => s) demo_hmac "k" demo_fs).

(** A repository grant dies between its two files; a global grant comes after it. *)
Definition demo_interrupted : list (operation * list fault) :=
  [(RepoHost "/repo" "b.example.com" true, replicate 24 Fine ++ [Crash]); (GlobalHost "c.example.com" true, [])].

Lemma allowances_converge_witness :
  (exists f w'', recoverAllowanceJournals demo_operator_path demo_hmac "k" [] (demo_run demo_interrupted demo_world).2 =
      (Done tt, [], w'') /\ settled f w'' /\
      serial demo_decode_operator demo_decode_overlay demo_codec demo_operator_path demo_fs
        (demo_run demo_interrupted demo_world).1 (effective demo_world) f) /\
  (demo_run demo_interrupted demo_world).1 =
    [(RepoHost "/repo" "b.example.com" true, false); (GlobalHost "c.example.com" true, true)] /\
  w_files (demo_run demo_interrupted demo_world).2 !! "/repo/guardrail.toml" = Some ("b.example.com", 420%Z).
Proof.
  split; [|split; vm_compute; reflexivity].
  apply (allowances_converge demo_decode_operator demo_decode_overlay demo_codec demo_operator_path (fun s => s) demo_hmac "k"
           demo_fs demo_interrupted demo_world).
  - by left.
  - repeat constructor.
  - apply surjective_pairing.
Defined.

(** A repository whose path is not UTF-8: the journal is written with another path than the
    one its code was computed over, so no recovery accepts it, and while it is there no
    change of the operator's files is made, of whatever repository. *)
Definition demo_hmac_of_paths (key : string) (j : allowanceJournal) : string :=
  key +:+ aj_OverlayPath j +:+ aj_OperatorPath j +:+ aj_OverlayAfter j +:+ aj_OperatorAfter j.

Example unreadable_journal_stays :
  let '(log, w) := run_operations demo_decode_operator demo_decode_overlay demo_codec demo_operator_path
    (fun s => s) demo_hmac_of_paths "k" demo_fs
    [(RepoHost (String "/" (String (ascii_of_nat 255) "")) "b.example.com" true, []); (GlobalHost "c.example.com" true, [])]
    demo_world in
  log.*2 = [false; false] /\ size (w_journals w) = 1%nat /\ w_files w !! demo_operator_path = Some ("a.example.com", 384%Z).
Proof. vm_compute. done. Qed.

(** ** Batches that fail *)

(** The global hosts after a batch that met these faults. *)
Definition demo_batch (hosts : list string) (grant : bool) (faults : list fault) (w : World) : bool * option string :=
  let '(e, _, w) := applyWebHostBatch demo_global hosts grant faults w in
  (match e with Done _ => true | _ => false end, fst <$> w_files w !! demo_operator_path).

(** The first application makes twelve calls. *)
Definition demo_faults : list fault := replicate 12 Fine.

(** A host that was granted before the batch is revoked by its rollback; one that was not
    granted is granted by the rollback of a revocation; and the host whose last sync
    failed stays granted although the batch was refused and the other host taken back. *)
Example failed_batches :
  demo_batch ["a.example.com"; "b.example.com"] true (demo_faults ++ [Refused]) demo_world = (false, Some "") /\
  demo_batch ["x.example.com"; "a.example.com"] false (demo_faults ++ [Refused]) demo_world =
    (false, Some "a.example.com,x.example.com") /\
  demo_batch ["x.example.com"; "y.example.com"] true (demo_faults ++ replicate 11 Fine ++ [Refused]) demo_world =
    (false, Some "a.example.com,y.example.com").
Proof. by vm_compute. Qed.
