(* ===== verification/PathRules.v ===== *)
(** * The path rules ([internal/engine/rules_path.go], [movedAwayBinary],
    [deletedInstallDirectory] and [powershellWriteCandidates] of
    [rules_powershell_write.go], [goInstallsGuardrailInto] of [rules_go.go])

    From the paths of a file tool, or the operands, redirects and write targets of
    a shell command, to a verdict: secret paths, symbolic links that leave the
    repository, protected git files, the supervisor's own configuration, build and
    lock files, and writes outside the repository. The theorems say which
    words of a command cannot escape the rules. *)

From Stdlib Require Import ZArith Ascii String List Lia.
From stdpp Require Import base list strings gmap.
From S2P Require Import Prelude GoStrings GoPath Policy Argv Engine Simple GitRepo NetRules Operands FindActions Containment WriteTargets.
Open Scope go_scope.

(** ** Tools that touch files *)

Definition isFileTool (tc : ToolCall) : bool :=
  match tc_Capability tc with
  | CapabilityReadDiscovery | CapabilityMutation => true
  | CapabilityNone => in_list (ToLower (tc_Tool tc)) ["read"; "edit"; "write"; "multiedit"]
  | _ => false
  end.

Definition isWriteToolCall (tc : ToolCall) : bool :=
  match tc_Capability tc with
  | CapabilityMutation => true
  | CapabilityNone => in_list (ToLower (tc_Tool tc)) ["edit"; "write"; "multiedit"]
  | _ => false
  end.

(** A path a command names, and one a file tool names. *)
Definition shell_path (s : Simple) (tc : ToolCall) (path : string) : pathCandidate :=
  {| pc_path := path; pc_cwd := s_Cwd s; pc_cwdUnknown := s_cwdUnknown s; pc_repoRoot := tc_RepoRoot tc;
     pc_posix := true |}.

Definition tool_path (tc : ToolCall) (path : string) : pathCandidate :=
  {| pc_path := path; pc_cwd := tc_CWD tc; pc_cwdUnknown := false; pc_repoRoot := tc_RepoRoot tc; pc_posix := false |}.

Definition with_path (c : pathCandidate) (path : string) : pathCandidate :=
  {| pc_path := path; pc_cwd := pc_cwd c; pc_cwdUnknown := pc_cwdUnknown c; pc_repoRoot := pc_repoRoot c;
     pc_posix := pc_posix c |}.

(** ** Candidates of find ([find_actions.go]) *)

Definition findRootCandidates (p : findActionParseResult) (outer : Simple) (tc : ToolCall) : list pathCandidate :=
  map (shell_path outer tc) (List.filter looksLikePathOperand (map fd_value (f_roots p))).

Definition findOutputCandidates (p : findActionParseResult) (outer : Simple) (tc : ToolCall) : list pathCandidate :=
  map (shell_path outer tc) (f_outputs p).

Definition findReadPathCandidates (p : findActionParseResult) (outer : Simple) (tc : ToolCall) : list pathCandidate :=
  map (shell_path outer tc) (f_readPaths p).

Section PathRules.
Context (h : PathHost).
(** [doublestar.Match]; [unicode.IsLetter] or [IsDigit] beyond ASCII; [url.Parse]
    with its decoded path. *)
Context (glob : string -> string -> bool).
Context (word_rune : Z -> bool).
Context (parse_path : string -> option (string * string * option string)).

(** ** Matching *)

Definition match_form (p : string) : string := ToLower (Clean (TrimPrefix (ReplaceByte p "\" slash) "./")).

Definition matchesAnyGlob (p : string) (globs : list string) : bool :=
  existsb (fun g => glob (ToLower g) (match_form p)) globs.

(** [relWithin] *)
Definition rel_within (root absPath : string) : option string :=
  match Rel (ToLower (Clean root)) (ToLower (Clean absPath)) with
  | Some rel => if (rel =s? "..") || HasPrefix rel "../" then None else Some rel
  | None => None
  end.

Definition repoRelative (p cwd repoRoot : string) : option string :=
  let repoRoot := if repoRoot =s? "" then cwd else repoRoot in
  if repoRoot =s? "" then None
  else if negb (IsAbs p) && (cwd =s? "") then None
  else
    let absPath := if IsAbs p then p else JoinPath [cwd; p] in
    let rel := match rel_within repoRoot absPath with
               | Some rel => Some rel
               | None => let relation := pathRelationBetween h absPath repoRoot in
                         if pr_within relation then Some (ToLower (pr_relative relation)) else None
               end in
    match rel with
    | Some rel => if (rel =s? ".") || (rel =s? "..") || HasPrefix rel "../" then None else Some rel
    | None => None
    end.

Definition resolvePathCandidate (c : pathCandidate) : option string :=
  if floating c (pc_path c) then None else resolveExistingPath (ph_git h) (pc_path c) (pc_cwd c).

Definition matches_in_repo (p : string) (c : pathCandidate) (rootOnly : list string) : bool :=
  match repoRelative p (pc_cwd c) (pc_repoRoot c) with
  | Some rel => matchesAnyGlob rel rootOnly
  | None => false
  end.

Definition matchesScoped (c : pathCandidate) (anywhere rootOnly : list string) : bool :=
  let raw := TrimPrefix (pc_path c) "./" in
  let resolved := resolvePathCandidate c in
  matchesAnyGlob raw anywhere ||
  match resolved with Some r => matchesAnyGlob r anywhere | None => false end ||
  (match rootOnly with
   | [] => false
   | _ => matches_in_repo (pc_path c) c rootOnly ||
          match resolved with Some r => matches_in_repo r c rootOnly | None => false end
   end).

(** ** Secret paths *)

(** The candidate without its leading tilde. *)
Definition untilde (p : string) : string := TrimPrefix (TrimPrefix p "~/") "~".

(** On a POSIX host [expandWindowsUserProfile] is the identity. *)
Definition pathCandidateForms (c : pathCandidate) : list string :=
  let raw := untilde (pc_path c) in
  raw :: match resolvePathCandidate (with_path c raw) with
         | Some resolved => if resolved <>s? raw then [resolved] else []
         | None => []
         end.

Definition textShapedOperand (operand : string) : bool :=
  negb (all_bytes (fun c => negb (Ascii.eqb c "010" || is_quote c || ContainsByte "{}[]" c)) operand).

Definition text_separator (r : string) : bool :=
  match r with
  | String c EmptyString =>
      Ascii.eqb c "010" || is_quote c || ContainsByte "{}[], " c || Ascii.eqb c "009"
  | _ => false
  end.

Definition secretTextFragment (operand : string) (pol : Policy) : string :=
  let slots := p_Slots pol in
  match List.find (fun piece => matchesAnyGlob piece (s_SecretDirs slots) || matchesAnyGlob piece (s_SecretGlobs slots) ||
                                matchesAnyGlob piece (s_SecretAskGlobs slots)) (FieldsFunc operand text_separator) with
  | Some piece => piece
  | None =>
      let r := runes operand in
      if (80 <? length r)%nat
      then fold_right String.append "" (map rune_text (take 80 r)) +:+
           String (byte_of 226) (String (byte_of 128) (String (byte_of 166) ""))
      else operand
  end.

Definition secretPathVerdict (decision : Decision) (ruleID secret : string) : Verdict :=
  verdict decision ruleID ("access to a credential/secret path: " +:+ secret).

(** [take] of [classifySecretPathOperand]. *)
Definition take_secret (pol : Policy) (honorWaivers : bool) (v : Verdict) (worst : option Verdict) : option Verdict :=
  if honorWaivers && waived (p_Waived pol) (v_RuleID v) then worst else keep_worst worst (Some v).

Definition ask_tier (c : pathCandidate) (form : string) : Verdict :=
  if (pc_repoRoot c <>s? "") && negb (HasPrefix (pc_path c) "~") &&
     match repoRelative form (pc_cwd c) (pc_repoRoot c) with Some _ => true | None => false end
  then secretPathVerdict Ask "P4.secret-path-ambiguous" form
  else secretPathVerdict Deny "P4.secret-path" form.

Fixpoint classify_forms (c : pathCandidate) (pol : Policy) (honorWaivers : bool) (forms : list string)
    (worst : option Verdict) : option Verdict :=
  let slots := p_Slots pol in
  match forms with
  | [] => worst
  | form :: rest =>
      if matchesAnyGlob form (s_SecretDirs slots) then Some (secretPathVerdict Deny "P4.secret-path" form)
      else if matchesAnyGlob form (s_SecretAllow slots) then classify_forms c pol honorWaivers rest worst
      else
        let worst := if matchesAnyGlob form (s_SecretGlobs slots)
                     then take_secret pol honorWaivers (secretPathVerdict Deny "P4.secret-path" form) worst else worst in
        let worst := if matchesAnyGlob form (s_SecretAskGlobs slots)
                     then take_secret pol honorWaivers (ask_tier c form) worst else worst in
        classify_forms c pol honorWaivers rest worst
  end.

Definition classifySecretPathOperand (c : pathCandidate) (pol : Policy) (honorWaivers : bool) : option Verdict :=
  classify_forms c pol honorWaivers (pathCandidateForms c) None.

Definition classifySecretPath (c : pathCandidate) (pol : Policy) (honorWaivers : bool) : option Verdict :=
  match classifySecretPathOperand c pol honorWaivers with
  | None => None
  | Some v =>
      if negb (bool_decide (v_Decision v = Deny)) || negb (textShapedOperand (pc_path c)) then Some v
      else if honorWaivers && waived (p_Waived pol) "P4.secret-in-text" then None
      else deny "P4.secret-in-text"
             ("command text mentions a secret-tier path: " +:+ secretTextFragment (pc_path c) pol)
  end.

(** The classified path alone, which other rules name in their reasons. *)
Definition classifiedSecretPath (c : pathCandidate) (pol : Policy) : option string :=
  match classifySecretPath c pol false with
  | None => None
  | Some v => Some (TrimPrefix (TrimPrefix (v_Reason v) "access to a credential/secret path: ")
                               "command text mentions a secret-tier path: ")
  end.

Definition checkSymlinkEscape (c : pathCandidate) (tc : ToolCall) : option Verdict :=
  let cand := untilde (pc_path c) in
  if (tc_RepoRoot tc =s? "") || floating c cand then None
  else
    let abs := if IsAbs cand then cand else JoinPath [pc_cwd c; cand] in
    if negb (inside (pathRelationBetween h abs (tc_RepoRoot tc))) then None
    else
      match resolveExistingPath (ph_git h) abs "", resolveExistingPath (ph_git h) (tc_RepoRoot tc) "" with
      | Some resolved, Some root =>
          if negb (inside (pathRelationBetween h resolved root))
          then deny "P4.symlink-escape" ("a path inside the repo resolves outside it via symlink: " +:+ cand)
          else None
      | _, _ => None
      end.

(** ** The paths a call reads and writes *)

Definition mentioned_paths (o : parsedOperand) : list string :=
  if is_nonpath (o_role o) then []
  else List.filter looksLikePathOperand (visiblePathCandidates word_rune (o_value o)).

(** [appendSimple] of [parsePrivatePathsAnalysis] *)
Definition simple_paths (s : Simple) : list string :=
  let parsed := parseOperandRoles (s_Argv s) in
  map o_value (List.filter (fun o => negb (is_nonpath (o_role o)) &&
      negb ((op_uncertaintyReason parsed <>s? "") && is_uncertain (o_role o))) (op_operands parsed)) ++
  (if isOpaqueExecutor (head (s_Argv s)) then flat_map mentioned_paths (op_operands parsed) else []) ++
  s_Redirects s ++ s_ReadRedirects s ++ writeTargets s.

Definition private_simple (tc : ToolCall) (s : Simple) : list pathCandidate := map (shell_path s tc) (simple_paths s).

(** One command of an analysis with its reading as find. *)
Definition private_entry (tc : ToolCall) (entry : Simple * option findEvaluation) : list pathCandidate :=
  let '(s, find) := entry in
  match find with
  | None => private_simple tc s
  | Some fe =>
      findRootCandidates (fe_parsed fe) s tc ++ findOutputCandidates (fe_parsed fe) s tc ++
      findReadPathCandidates (fe_parsed fe) s tc ++ map (shell_path s tc) (s_Redirects s ++ s_ReadRedirects s) ++
      flat_map (private_simple tc) (fe_callbacks fe)
  end.

(** The commands whose operands are read: a find's callbacks stand for it. *)
Definition read_simples (entry : Simple * option findEvaluation) : list Simple :=
  match entry.2 with None => [entry.1] | Some fe => fe_callbacks fe end.

Definition first_reason (simples : list Simple) : string :=
  match List.find (fun s => op_uncertaintyReason (parseOperandRoles (s_Argv s)) <>s? "") simples with
  | Some s => op_uncertaintyReason (parseOperandRoles (s_Argv s))
  | None => ""
  end.

(** The entries of an analysis that did not fail. *)
Definition analyzed (bash : option bashAnalysis) : list (Simple * option findEvaluation) :=
  match bash with Some b => if ba_err b then [] else ba_simples b | None => [] end.

Definition ordered (bash : option bashAnalysis) : list Simple :=
  match bash with Some b => if ba_err b then [] else ba_orderedSimples b | None => [] end.

Definition parsePrivatePathsAnalysis (tc : ToolCall) (bash : option bashAnalysis) : list pathCandidate * string :=
  ((if isFileTool tc then map (tool_path tc) (tc_Paths tc) else []) ++ flat_map (private_entry tc) (analyzed bash),
   first_reason (flat_map read_simples (analyzed bash))).

Definition write_simple (tc : ToolCall) (s : Simple) : list pathCandidate :=
  map (shell_path s tc) (s_Redirects s ++ writeTargets s).

Definition write_entry (tc : ToolCall) (entry : Simple * option findEvaluation) : list pathCandidate :=
  let '(s, find) := entry in
  write_simple tc s ++
  match find with
  | None => []
  | Some fe => findOutputCandidates (fe_parsed fe) s tc ++ flat_map (write_simple tc) (fe_callbacks fe)
  end.

Definition writeCandidatesAnalysis (tc : ToolCall) (bash : option bashAnalysis) : list pathCandidate :=
  (if isWriteToolCall tc then map (tool_path tc) (tc_Paths tc) else []) ++ flat_map (write_entry tc) (analyzed bash).

(** ** Protected files *)

(** The first candidate the globs name. *)
Definition first_match (anywhere rootOnly : list string) (candidates : list pathCandidate) : option pathCandidate :=
  List.find (fun c => matchesScoped c anywhere rootOnly) candidates.

Definition gitProtectedGlobs : list string := ["**/.git/config"; "**/.git/hooks/**"].

Definition checkGitProtectedPathCandidates (candidates : list pathCandidate) : option Verdict :=
  match first_match gitProtectedGlobs [] candidates with
  | Some c => deny "P2.git-protected-path" ("write to a protected git-internal path: " +:+ pc_path c)
  | None => None
  end.

Definition selfConfigGlobs : list string :=
  ["**/.codex"; "**/.codex/**";
   "**/.claude";
   "**/.claude/settings.json"; "**/.claude/settings.local.json";
   "**/.claude/hooks/**"; "**/.claude/plugins/**"; "**/.claude/agents/**";
   "**/.claude/commands/**"; "**/.claude/skills/**"; "**/.claude/CLAUDE.md";
   "**/.envrc";
   "**/.bashrc"; "**/.zshrc"; "**/.profile"; "**/.bash_profile";
   "**/guardrail.toml";
   "**/.guardrail/**";
   "**/.config/guardrail/**"; "**/guardrail/waivers.toml"; "**/guardrail/night.toml";
   "**/guardrail/sessions"; "**/guardrail/sessions/**";
   "**/guardrail/approval-tickets"; "**/guardrail/approval-tickets/**";
   "**/guardrail/actions"; "**/guardrail/actions/**";
   "**/opencode.json";
   "**/.agents/hooks.json";
   "**/.gemini/config/hooks.json";
   "**/.local/bin/guardrail"; "**/bin/guardrail";
   "**/.local/bin/guardrail.exe"; "**/bin/guardrail.exe";
   "**/.local/bin/guardrail.previous"; "**/bin/guardrail.previous";
   "**/.local/bin/guardrail.previous.exe"; "**/bin/guardrail.previous.exe";
   "**/guardrail/previous.json"].

Definition selfConfigRootOnly : list string := ["CLAUDE.md"; "AGENTS.md"; ".mcp.json"].

Definition powershellWriteCandidates (tc : ToolCall) (bash : option bashAnalysis) : list pathCandidate :=
  flat_map (fun s => match powershellWriteTargets (s_Argv s) with
                     | Some targets => map (shell_path s tc) (flat_map windowsTargetSpellings targets)
                     | None => []
                     end) (ordered bash).

Definition expand_binary (c : pathCandidate) : list pathCandidate :=
  map (with_path c) (binaryWildcardExpansions (pc_path c)).

Definition moved_spelling (tc : ToolCall) (s : Simple) : list string :=
  if head (s_Argv s) =s? "mv" then
    List.filter (fun spelling => matchesScoped (shell_path s tc spelling) installedBinaryGlobs [])
      (flat_map (fun source => windowsTargetSpellings source ++ binaryWildcardExpansions source)
         (moveSourceTargets (s_Argv s)))
  else [].

Definition movedAwayBinary (tc : ToolCall) (bash : option bashAnalysis) : string :=
  match flat_map (moved_spelling tc) (ordered bash) with spelling :: _ => spelling | [] => "" end.

Definition deleted_targets (s : Simple) : list string :=
  let command := head (s_Argv s) in
  if (command =s? "rm") || (command =s? "rmdir") && negb (psCmdletShaped (s_Argv s) removeItemParams)
  then posixOperands (s_Argv s)
  else if removeItemAliases command then b_operands (bindPS (s_Argv s) removeItemParams)
  else [].

Definition deletedInstallDirectory (bash : option bashAnalysis) : string :=
  match flat_map (fun s => List.filter (fun t => isInstallDirectory t (s_Cwd s)) (deleted_targets s)) (ordered bash) with
  | target :: _ => target
  | [] => ""
  end.

(** [goSubcommand] on the words behind [go]. *)
Fixpoint go_subcommand (rest : list string) : option (string * list string) :=
  match rest with
  | [] => None
  | arg :: rest' =>
      if (arg =s? "-C") || (arg =s? "--C") then
        match rest' with _ :: rest'' => go_subcommand rest'' | [] => None end
      else if HasPrefix arg "-C=" || HasPrefix arg "--C=" then go_subcommand rest'
      else Some (arg, rest')
  end.

Definition goSubcommand (argv : list string) : option (string * list string) := go_subcommand (tail argv).

Definition installs_guardrail (arg : string) : bool :=
  if HasPrefix arg "-" then false
  else let '(pkg, _, _) := Cut (slashed arg) "@" in in_list (Base pkg) ["guardrail"; "..."].

Definition goInstallsGuardrailInto (bash : option bashAnalysis) : string :=
  match List.find (fun s =>
    (head (s_Argv s) =s? "go") && (s_goBin s <>s? "") && isInstallDirectory (s_goBin s) (s_Cwd s) &&
    match goSubcommand (s_Argv s) with
    | Some (subcommand, rest) => (subcommand =s? "install") && existsb installs_guardrail rest
    | None => false
    end) (ordered bash) with
  | Some s => s_goBin s
  | None => ""
  end.

Definition InstalledBinaryMentionReason : string :=
  "opaque input names the installed guardrail binary; Guardrail cannot tell a read or a run from a write or a delete. Replace it with `guardrail update`, run it as `guardrail <command>`, or ask the operator to do it from their own terminal".

Definition self_config (reason : string) : Verdict := verdict Deny "P5.self-config" reason.

Definition opaque_argument (s : Simple) (arg : string) : option Verdict :=
  if containsOperatorConfigPath word_rune parse_path arg then
    Some (self_config ("opaque command names the Operator config: " +:+ head (s_Argv s)))
  else if mentionsInstalledBinary word_rune arg then
    Some (self_config (InstalledBinaryMentionReason +:+ " (" +:+ head (s_Argv s) +:+ ")"))
  else None.

(** The first verdict of a list. *)
Fixpoint first_verdict (vs : list (option Verdict)) : option Verdict :=
  match vs with
  | [] => None
  | Some v :: _ => Some v
  | None :: vs => first_verdict vs
  end.

Definition opaque_mentions (bash : option bashAnalysis) : option Verdict :=
  first_verdict (flat_map (fun s => if isOpaqueExecutor (head (s_Argv s))
                                    then map (opaque_argument s) (tail (s_Argv s)) else []) (ordered bash)).

Definition unparsed (bash : option bashAnalysis) : bool := match bash with Some b => ba_err b | None => false end.

Definition checkSelfConfigCandidatesAnalysis (tc : ToolCall) (candidates : list pathCandidate)
    (bash : option bashAnalysis) : option Verdict :=
  let candidates := candidates ++ powershellWriteCandidates tc bash in
  let candidates := candidates ++ flat_map expand_binary candidates in
  match first_match selfConfigGlobs selfConfigRootOnly candidates with
  | Some c => Some (self_config ("write to the agent's own guardrail/shell config: " +:+ pc_path c))
  | None =>
      let moved := movedAwayBinary tc bash in
      if moved <>s? "" then
        Some (self_config ("moves the installed guardrail binary away: " +:+ moved +:+
                           "; replace it with `guardrail update`"))
      else
        let dir := deletedInstallDirectory bash in
        if dir <>s? "" then
          Some (self_config ("deletes the guardrail install directory: " +:+ dir +:+
                             "; the binary's directory is the operator's"))
        else
          let dir := goInstallsGuardrailInto bash in
          if dir <>s? "" then
            Some (self_config ("go install writes a guardrail binary over the installed one in " +:+ dir +:+
                               "; replace it with `guardrail update`"))
          else
            match opaque_mentions bash with
            | Some v => Some v
            | None =>
                if unparsed bash && mentionsInstalledBinary word_rune (tc_Command tc)
                then Some (self_config (InstalledBinaryMentionReason +:+ " (unparsed command)"))
                else None
            end
  end.

(** The dash of the reason is an em dash. *)
Definition em_dash : string := String (byte_of 226) (String (byte_of 128) (String (byte_of 148) "")).

Definition ciInfraLockGlobs : list string := ["**/.github/workflows/**"; "**/.circleci/**"; "**/.buildkite/**"].

Definition ciInfraRootOnly : list string :=
  [".gitlab-ci.yml"; "Jenkinsfile"; ".pre-commit-config.yaml"; "azure-pipelines.yml";
   "Dockerfile"; "docker-compose*.yml"; "*.tf"; "Makefile"; "justfile"; "Taskfile.yml";
   "setup.py"; "conftest.py"; "noxfile.py";
   "package-lock.json"; "yarn.lock"; "pnpm-lock.yaml"; "Cargo.lock";
   "poetry.lock"; "uv.lock"; "go.sum"; "Gemfile.lock"; "mix.lock"; "composer.lock"].

Definition checkCIInfraLockfileCandidates (candidates : list pathCandidate) : option Verdict :=
  match first_match ciInfraLockGlobs ciInfraRootOnly candidates with
  | Some c => ask "P5.ci-infra-lockfile"
                ("edit of a CI/infra/lockfile " +:+ em_dash +:+ " this code runs later with more privilege: " +:+ pc_path c)
  | None => None
  end.

(** A write of this path passes: it is authorized, or in a worktree of the repository. *)
Definition write_passes (tc : ToolCall) (p : string) : bool :=
  let c := tool_path tc p in
  let '(authorized, lexical) := authorizedPath h c (tc_RepoRoot tc) [] (strictWriteRoots h tc c) false in
  authorized ||
  negb lexical && IsAbs p &&
  match Abs (ph_git h) (resolvePath p (tc_CWD tc)) with
  | Some target => sameRepository h target (tc_RepoRoot tc)
  | None => false
  end.

Definition checkOutOfRepoWrite (tc : ToolCall) : option Verdict :=
  if (tc_RepoRoot tc =s? "") || negb (isWriteToolCall tc) then None
  else match List.find (fun p => negb (write_passes tc p)) (tc_Paths tc) with
       | Some p => ask "P5.out-of-repo" ("write target is outside the repo/worktree root: " +:+ p)
       | None => None
       end.

(** ** All path rules *)

Definition unless_waived (pol : Policy) (v : option Verdict) : option Verdict :=
  match v with
  | Some w => if waived (p_Waived pol) (v_RuleID w) then None else Some w
  | None => None
  end.

(** The verdicts in the order they are taken. *)
Definition path_hits (tc : ToolCall) (pol : Policy) (bash : option bashAnalysis) : list (option Verdict) :=
  let '(candidates, uncertaintyReason) := parsePrivatePathsAnalysis tc bash in
  let writes := writeCandidatesAnalysis tc bash in
  flat_map (fun c => [classifySecretPath c pol true; unless_waived pol (checkSymlinkEscape c tc)]) candidates ++
  [unless_waived pol (if uncertaintyReason <>s? "" then ask "P4.path-parse-uncertain" uncertaintyReason else None);
   unless_waived pol (checkGitProtectedPathCandidates writes);
   unless_waived pol (checkSelfConfigCandidatesAnalysis tc writes bash);
   unless_waived pol (checkCIInfraLockfileCandidates writes);
   unless_waived pol (checkOutOfRepoWrite tc)].

Definition checkPathsAnalysis (tc : ToolCall) (pol : Policy) (bash : option bashAnalysis) : option Verdict :=
  worst_of (path_hits tc pol bash).

End PathRules.

(** ** What a call touches *)

(** A command that runs: one of the analysis, or a callback of a find in it. *)
Definition runs (bash : option bashAnalysis) (s : Simple) : Prop :=
  exists entry, entry ∈ analyzed bash /\ s ∈ read_simples entry.

(** A word that names a path to the command: any word that is no option for the
    commands that read files, and one that looks like a path for all others. *)
Definition path_word (s : Simple) (w : string) : Prop :=
  (exists i, tail (s_Argv s) !! i = Some w) /\ plain_word w /\ generic_command (head (s_Argv s)) = true /\
  pathOperandCommands (head (s_Argv s)) || looksLikePathOperand w = true.

Inductive accesses (tc : ToolCall) (bash : option bashAnalysis) : pathCandidate -> Prop :=
| access_tool p : isFileTool tc = true -> p ∈ tc_Paths tc -> accesses tc bash (tool_path tc p)
| access_word s w : runs bash s -> path_word s w -> accesses tc bash (shell_path s tc w)
| access_redirect s w : runs bash s -> w ∈ s_Redirects s ++ s_ReadRedirects s -> accesses tc bash (shell_path s tc w)
| access_write s w : runs bash s -> w ∈ writeTargets s -> accesses tc bash (shell_path s tc w)
| access_find s fe w : (s, Some fe) ∈ analyzed bash ->
    w ∈ f_outputs (fe_parsed fe) ++ f_readPaths (fe_parsed fe) ++ s_Redirects s ++ s_ReadRedirects s ->
    accesses tc bash (shell_path s tc w).

(** What is written: the redirects of a command, the last word of a command that
    copies or moves, the files it puts into a directory an option names, the output
    of dd, the files of tee, every word of a command that creates or deletes, the
    outputs of a find, the paths of a file tool. *)
Inductive writes (tc : ToolCall) (bash : option bashAnalysis) : pathCandidate -> Prop :=
| write_tool p : isWriteToolCall tc = true -> p ∈ tc_Paths tc -> writes tc bash (tool_path tc p)
| write_redirect s w : runs bash s -> w ∈ s_Redirects s -> writes tc bash (shell_path s tc w)
| write_destination s w spec : runs bash s -> last_operand_of (s_Argv s) w ->
    mutatingDestinationCommands (head (s_Argv s)) = Some spec ->
    writes tc bash (shell_path s tc (destination_of (s_Argv s) spec w))
| write_all s w : runs bash s -> mutatingAllArgs (head (s_Argv s)) = true ->
    w ∈ tail (s_Argv s) -> HasPrefix w "-" = false -> writes tc bash (shell_path s tc w)
| write_into s spec dir w : runs bash s -> mutatingDestinationCommands (head (s_Argv s)) = Some spec ->
    ds_targetDirectory spec = true -> copied_into (s_Argv s) dir w -> writes tc bash (shell_path s tc (JoinPath [dir; Base w]))
| write_dd s w : runs bash s -> head (s_Argv s) = "dd" -> ("of=" +:+ w) ∈ tail (s_Argv s) -> writes tc bash (shell_path s tc w)
| write_tee s w : runs bash s -> head (s_Argv s) = "tee" -> w ∈ tail (s_Argv s) -> plain_operand w ->
    writes tc bash (shell_path s tc w)
| write_find s fe w : (s, Some fe) ∈ analyzed bash -> w ∈ f_outputs (fe_parsed fe) ++ s_Redirects s ->
    writes tc bash (shell_path s tc w).

(** ** Lemmas: candidates *)

Lemma elem_of_flat_map {A B} (f : A -> list B) l b a : a ∈ l -> b ∈ f a -> b ∈ flat_map f l.
Proof. intros Ha Hb. apply list_elem_of_In, in_flat_map. exists a. by rewrite <- !list_elem_of_In. Qed.

Lemma elem_of_shell_path s tc w l : w ∈ l -> shell_path s tc w ∈ map (shell_path s tc) l.
Proof. intros H. apply list_elem_of_fmap. by exists w. Qed.

Section Candidates.
Context (word_rune : Z -> bool).

(** A command that runs has its paths among the candidates. *)
Lemma runs_private tc bash s w :
  runs bash s -> w ∈ simple_paths word_rune s ->
  shell_path s tc w ∈ (parsePrivatePathsAnalysis word_rune tc bash).1.
Proof.
  intros (entry & He & Hs) Hw. cbn [parsePrivatePathsAnalysis fst]. apply elem_of_app. right.
  apply (elem_of_flat_map _ _ _ entry He). destruct entry as [s' [fe|]]; cbn [read_simples snd fst] in Hs; cbn [private_entry].
  - rewrite !elem_of_app. do 4 right. apply (elem_of_flat_map _ _ _ s Hs). by apply elem_of_shell_path.
  - apply list_elem_of_singleton in Hs as ->. by apply elem_of_shell_path.
Qed.

(** A word that names a path is among them: the commands read generically leave no
    role open. *)
Lemma path_word_private s w : path_word s w -> w ∈ simple_paths word_rune s.
Proof.
  intros ((i & Hi) & Hp & Hg & Hl). unfold simple_paths. apply elem_of_app. left.
  destruct (generic_path_operand (s_Argv s) i w Hi Hp Hg Hl) as (o & Ho & <- & Hr).
  apply list_elem_of_fmap. exists o. split; [done|]. apply list_elem_of_In, filter_In. split; [by apply list_elem_of_In|].
  assert (Hne : s_Argv s <> []) by (intros E; by rewrite E in Hi).
  rewrite (generic_command_parse _ Hne Hg). cbn [certain op_uncertaintyReason]. by rewrite Hr.
Qed.

Lemma accesses_candidate tc bash c :
  accesses tc bash c -> c ∈ (parsePrivatePathsAnalysis word_rune tc bash).1.
Proof.
  intros H. destruct H as [p Ht Hp|s w Hr Hw|s w Hr Hw|s w Hr Hw|s fe w He Hw].
  - cbn [parsePrivatePathsAnalysis fst]. rewrite Ht. apply elem_of_app. left. apply list_elem_of_fmap. by exists p.
  - apply runs_private; [done|]. by apply path_word_private.
  - apply runs_private; [done|]. unfold simple_paths. set_solver.
  - apply runs_private; [done|]. unfold simple_paths. set_solver.
  - cbn [parsePrivatePathsAnalysis fst]. apply elem_of_app. right. apply (elem_of_flat_map _ _ _ _ He).
    cbn [private_entry]. unfold findOutputCandidates, findReadPathCandidates.
    rewrite !elem_of_app in Hw. rewrite !elem_of_app. destruct Hw as [Hw|[Hw|Hw]].
    + right. left. by apply elem_of_shell_path.
    + do 2 right. left. by apply elem_of_shell_path.
    + do 3 right. left. apply elem_of_shell_path. by apply elem_of_app.
Qed.
End Candidates.

Lemma runs_write tc bash s w :
  runs bash s -> w ∈ s_Redirects s ++ writeTargets s -> shell_path s tc w ∈ writeCandidatesAnalysis tc bash.
Proof.
  intros (entry & He & Hs) Hw. apply elem_of_app. right. apply (elem_of_flat_map _ _ _ entry He).
  destruct entry as [s' [fe|]]; cbn [read_simples snd fst] in Hs; cbn [write_entry]; apply elem_of_app.
  - right. apply elem_of_app. right. apply (elem_of_flat_map _ _ _ s Hs). by apply elem_of_shell_path.
  - left. apply list_elem_of_singleton in Hs as ->. by apply elem_of_shell_path.
Qed.

Lemma writes_candidate tc bash c : writes tc bash c -> c ∈ writeCandidatesAnalysis tc bash.
Proof.
  intros H. destruct H as [p Ht Hp|s w Hr Hw|s w spec Hr Hw Hspec|s w Hr Hc Hw Hd|s spec dir w Hr Hspec Ht Hw|s w Hr Hc Hw
    |s w Hr Hc Hw Hp|s fe w He Hw].
  - unfold writeCandidatesAnalysis. rewrite Ht. apply elem_of_app. left. apply list_elem_of_fmap. by exists p.
  - apply runs_write; [done|]. set_solver.
  - apply runs_write; [done|]. apply elem_of_app. right. by apply last_word_written.
  - apply runs_write; [done|]. apply elem_of_app. right. by apply all_words_written.
  - apply runs_write; [done|]. apply elem_of_app. right. by apply (copy_written s spec).
  - apply runs_write; [done|]. apply elem_of_app. right. by apply dd_written.
  - apply runs_write; [done|]. apply elem_of_app. right. by apply tee_written.
  - apply elem_of_app. right. apply (elem_of_flat_map _ _ _ _ He). cbn [write_entry].
    unfold findOutputCandidates, write_simple. rewrite !elem_of_app in Hw. rewrite !elem_of_app.
    destruct Hw as [Hw|Hw]; [right; left; by apply elem_of_shell_path|].
    left. apply elem_of_shell_path. apply elem_of_app. by left.
Qed.

(** ** Lemmas: verdicts *)

Lemma Severity_le d : (Severity d <= 2)%Z.
Proof. destruct d; cbn; lia. Qed.

(** The first deny stays. *)
Lemma keep_worst_deny v hits : v_Decision v = Deny -> foldl keep_worst (Some v) hits = Some v.
Proof.
  intros Hv. induction hits as [|[w|] hits IH]; [done| |done]. cbn. rewrite Hv. cbn [Severity].
  pose proof (Severity_le (v_Decision w)). destruct (2 <? _)%Z eqn:E; [breflect; lia|done].
Qed.

Section Verdicts.
Context (h : PathHost) (glob : string -> string -> bool) (word_rune : Z -> bool).
Context (parse_path : string -> option (string * string * option string)).

#[local] Notation path_hits' := (path_hits h glob word_rune parse_path).
#[local] Notation check := (checkPathsAnalysis h glob word_rune parse_path).

(** The path rules ask or deny. *)
Definition objects (v : option Verdict) : Prop := forall w, v = Some w -> v_Decision w = Ask \/ v_Decision w = Deny.

Lemma objects_unless pol v : objects v -> objects (unless_waived pol v).
Proof. intros H w. destruct v as [u|]; [|done]. cbn. destruct (waived _ _); [done|]. intros [= <-]. by apply H. Qed.

Lemma objects_take pol honor v worst :
  v_Decision v = Ask \/ v_Decision v = Deny -> objects worst -> objects (take_secret pol honor v worst).
Proof.
  intros Hv Hw. unfold take_secret. destruct (_ && _); [done|]. destruct worst as [u|]; cbn.
  - destruct (_ <? _)%Z; [by intros ? [= <-]|done].
  - by intros ? [= <-].
Qed.

Lemma objects_classify c pol honor : objects (classifySecretPath h glob c pol honor).
Proof.
  assert (Hforms : forall forms worst, objects worst -> objects (classify_forms h glob c pol honor forms worst)).
  { induction forms as [|form forms IH]; intros worst Hw; [done|]. cbn [classify_forms].
    destruct (matchesAnyGlob _ form (s_SecretDirs _)); [intros ? [= <-]; by right|].
    destruct (matchesAnyGlob _ form (s_SecretAllow _)); [by apply IH|]. apply IH.
    assert (Ht : v_Decision (ask_tier h c form) = Ask \/ v_Decision (ask_tier h c form) = Deny).
    { unfold ask_tier. destruct (_ && _); [by left|by right]. }
    destruct (matchesAnyGlob _ form (s_SecretAskGlobs _)), (matchesAnyGlob _ form (s_SecretGlobs _));
      repeat (apply objects_take; [first [exact Ht|by right]|]); done. }
  unfold classifySecretPath, classifySecretPathOperand.
  pose proof (Hforms (pathCandidateForms h c) None) as Hc.
  destruct (classify_forms _ _ _ _ _ _ _) as [v|]; [|done]. intros w.
  destruct (_ || _); [intros [= <-]; by apply Hc|]. destruct (_ && _); [done|]. intros [= <-]. by right.
Qed.

Lemma objects_self tc cs bash : objects (checkSelfConfigCandidatesAnalysis h glob word_rune parse_path tc cs bash).
Proof.
  assert (Hfirst : forall vs, Forall objects vs -> objects (first_verdict vs)).
  { induction 1 as [|[v|] vs Hv _ IH]; [done|exact Hv|exact IH]. }
  assert (Hopaque : objects (opaque_mentions word_rune parse_path bash)).
  { apply Hfirst, List.Forall_forall. intros v (s & _ & Hv)%in_flat_map. destruct (isOpaqueExecutor _); [|done].
    apply in_map_iff in Hv as (arg & <- & _). unfold opaque_argument.
    destruct (containsOperatorConfigPath _ _ _); [intros ? [= <-]; by right|].
    destruct (mentionsInstalledBinary _ _); [intros ? [= <-]; by right|done]. }
  intros w. unfold checkSelfConfigCandidatesAnalysis. destruct (first_match _ _ _ _ _); [intros [= <-]; by right|].
  repeat (destruct (_ <>s? ""); [intros [= <-]; by right|]).
  destruct (opaque_mentions _ _ _) as [v|]; [by apply Hopaque|]. destruct (_ && _); [intros [= <-]; by right|done].
Qed.

Lemma path_hits_object tc pol bash : Forall objects (path_hits' tc pol bash).
Proof.
  unfold path_hits. destruct (parsePrivatePathsAnalysis word_rune tc bash) as [cs reason].
  apply Forall_app. split.
  - apply List.Forall_forall. intros v (c & _ & Hv)%in_flat_map.
    destruct Hv as [<-|[<-|[]]]; [apply objects_classify|]. apply objects_unless. unfold checkSymlinkEscape.
    destruct (_ || _); [done|]. destruct (negb _); [done|]. do 2 (destruct (resolveExistingPath _ _ _); [|done]).
    destruct (negb _); [intros ? [= <-]; by right|done].
  - repeat (apply Forall_cons; split; [apply objects_unless|]); [| | |.. |done].
    + destruct (_ <>s? _); [intros ? [= <-]; by left|done].
    + unfold checkGitProtectedPathCandidates. destruct (first_match _ _ _ _ _); [intros ? [= <-]; by right|done].
    + apply objects_self.
    + unfold checkCIInfraLockfileCandidates. destruct (first_match _ _ _ _ _); [intros ? [= <-]; by left|done].
    + unfold checkOutOfRepoWrite. destruct (_ || _); [done|].
      destruct (List.find _ _); [intros ? [= <-]; by left|done].
Qed.

(** The rules' verdict is as strict as each of theirs. *)
Lemma check_bound tc pol bash v :
  Some v ∈ path_hits' tc pol bash ->
  exists w, check tc pol bash = Some w /\ (v_Decision v = Ask -> v_Decision w = Ask \/ v_Decision w = Deny) /\
    (v_Decision v = Deny -> v_Decision w = Deny).
Proof.
  intros Hin. unfold checkPathsAnalysis. pose proof (worst_of_spec (path_hits' tc pol bash)) as Hw.
  destruct (worst_of _) as [w|]; [|rewrite Forall_forall in Hw; by apply Hw in Hin].
  destruct Hw as [Hwin Hle]. exists w. split; [done|].
  pose proof (path_hits_object tc pol bash) as Ho. rewrite Forall_forall in Ho. specialize (Ho _ Hwin w eq_refl).
  specialize (Hle v Hin). split; intros Hv; [done|]. rewrite Hv in Hle. destruct Ho as [Ho|]; [|done].
  rewrite Ho in Hle. cbn in Hle. lia.
Qed.

(** ** Lemmas: which paths are denied *)

Lemma secret_denied c pol form :
  form ∈ pathCandidateForms h c -> matchesAnyGlob glob form (s_SecretDirs (p_Slots pol)) = true ->
  (textShapedOperand (pc_path c) = true -> waived (p_Waived pol) "P4.secret-in-text" = false) ->
  exists v, classifySecretPath h glob c pol true = Some v /\ v_Decision v = Deny.
Proof.
  intros Hin Hm Ht.
  assert (Hforms : forall forms worst, form ∈ forms ->
    exists v, classify_forms h glob c pol true forms worst = Some v /\ v_Decision v = Deny).
  { induction forms as [|f forms IH]; intros worst; [by intros ?%elem_of_nil|]. intros Hf. cbn [classify_forms].
    destruct (matchesAnyGlob glob f (s_SecretDirs (p_Slots pol))) eqn:E; [by eexists|].
    apply elem_of_cons in Hf as [->|Hf]; [congruence|].
    destruct (matchesAnyGlob glob f (s_SecretAllow (p_Slots pol))); by apply IH. }
  destruct (Hforms (pathCandidateForms h c) None Hin) as (v & Hv & Hd).
  unfold classifySecretPath, classifySecretPathOperand. rewrite Hv, Hd. cbn [bool_decide negb orb].
  destruct (textShapedOperand (pc_path c)); [|by exists v]. rewrite Ht by done. by eexists.
Qed.

Lemma accessed_hits tc pol bash c v :
  accesses tc bash c -> v ∈ [classifySecretPath h glob c pol true; unless_waived pol (checkSymlinkEscape h c tc)] ->
  v ∈ path_hits' tc pol bash.
Proof.
  intros Ha%(accesses_candidate word_rune) Hv. unfold path_hits.
  destruct (parsePrivatePathsAnalysis word_rune tc bash) as [cs reason]. apply elem_of_app. left.
  by apply (elem_of_flat_map _ _ _ c Ha).
Qed.

Lemma first_match_some anywhere rootOnly cs c :
  c ∈ cs -> matchesScoped h glob c anywhere rootOnly = true -> is_Some (first_match h glob anywhere rootOnly cs).
Proof.
  intros Hin Hm. unfold first_match. destruct (List.find _ cs) eqn:E; [done|].
  apply list_elem_of_In in Hin. by rewrite (List.find_none _ _ E c Hin) in Hm.
Qed.
End Verdicts.

(** ** Properties *)

Section Enforcement.
Context (h : PathHost) (glob : string -> string -> bool) (word_rune : Z -> bool).
Context (parse_path : string -> option (string * string * option string)).
Context (url_Parse : string -> option URL) (analyzeBash : ToolCall -> outcome bashAnalysis).
Context (checkBashAnalysis : ToolCall -> Policy -> bashAnalysis -> outcome (option Verdict)).

(** The engine with these path rules. *)
Definition evaluate_paths : ToolCall -> Policy -> Verdict :=
  Evaluate url_Parse glob analyzeBash checkBashAnalysis
    (fun tc pol bash => Returns (checkPathsAnalysis h glob word_rune parse_path tc pol bash)).

(** The call reaches the rules, and this is the analysis of its command. *)
Definition judged_on (tc : ToolCall) (pol : Policy) (bash : option bashAnalysis) : Prop :=
  judged_by_rules (tc_Capability tc) /\ inputs_present tc /\
  p_WebResearchOff pol && tc_NativeWebResearch tc = false /\
  match bash with
  | Some a => IsBash tc = true /\ analyzeBash tc = Returns a /\ exists bv, checkBashAnalysis tc pol a = Returns bv
  | None => IsBash tc = false
  end.

(** What a judged call is answered, and the path rules' verdict in it. *)
Lemma judged_evaluate tc pol bash :
  judged_on tc pol bash -> exists bv,
    evaluate_paths tc pol =
      match worst_of [checkPathsAnalysis h glob word_rune parse_path tc pol bash; bv; matchOverlayRules glob tc pol] with
      | None => verdict Allow "" ""
      | Some w => w
      end.
Proof.
  intros (Hj & Hi & Hw & Hb). unfold evaluate_paths, Evaluate. rewrite evaluate_body_rules by done.
  unfold evaluate_rules. destruct bash as [a|].
  - destruct Hb as (Hb & Ha & bv & Hbv). exists bv. rewrite Hb, Ha. cbn [obind]. rewrite Hbv. cbn [obind].
    by destruct (worst_of _).
  - exists None. rewrite Hb. cbn [obind]. by destruct (worst_of _).
Qed.

Lemma path_deny_enforced tc pol bash v :
  judged_on tc pol bash -> Some v ∈ path_hits h glob word_rune parse_path tc pol bash -> v_Decision v = Deny ->
  v_Decision (evaluate_paths tc pol) = Deny.
Proof.
  intros Hj Hin Hv. destruct (judged_evaluate tc pol bash Hj) as (bv & ->).
  destruct (check_bound h glob word_rune parse_path tc pol bash v Hin) as (w & -> & _ & Hw).
  unfold worst_of. change (foldl keep_worst None _) with (foldl keep_worst (Some w) [bv; matchOverlayRules glob tc pol]).
  rewrite keep_worst_deny; auto.
Qed.

Lemma path_ask_enforced tc pol bash v :
  judged_on tc pol bash -> Some v ∈ path_hits h glob word_rune parse_path tc pol bash -> v_Decision v = Ask ->
  (1 <= Severity (v_Decision (evaluate_paths tc pol)))%Z.
Proof.
  intros Hj Hin Hv. destruct (judged_evaluate tc pol bash Hj) as (bv & ->).
  destruct (check_bound h glob word_rune parse_path tc pol bash v Hin) as (w & -> & Hw & _). specialize (Hw Hv).
  pose proof (worst_of_spec [Some w; bv; matchOverlayRules glob tc pol]) as Hs. destruct (worst_of _) as [u|].
  - destruct Hs as [_ Hs]. specialize (Hs w ltac:(by left)). destruct Hw as [Hw|Hw]; rewrite Hw in Hs; cbn in Hs; lia.
  - rewrite Forall_forall in Hs. by specialize (Hs (Some w) ltac:(by left)).
Qed.


(** C8: the supervisor's own files and git's hooks cannot be written in these ways: by a
    redirect; as the last operand of [cp], [mv], [install], [ln], [rsync] or [tee], when it
    does not stand behind an option, whatever options come before; as a file that [cp -t],
    [mv -t] and the like put into a directory; as any operand of [tee], the [of=] of [dd],
    any word but an option of [rm], [truncate], [chmod], [chown], [mkdir], [touch], [shred],
    [unlink] or [rmdir]; as an output or a redirect of a [find] or by one of these commands
    that a [find] runs; or by a file tool. The call is denied when the path, as written or
    through a symbolic link, is such a file, unless the rule is waived. ([sed -i] and the
    PowerShell commands are read by the code and not claimed here.) *)
Theorem protected_write_denied tc pol bash c :
  judged_on tc pol bash -> writes tc bash c ->
  (matchesScoped h glob c gitProtectedGlobs [] = true /\ waived (p_Waived pol) "P2.git-protected-path" = false \/
   matchesScoped h glob c selfConfigGlobs selfConfigRootOnly = true /\ waived (p_Waived pol) "P5.self-config" = false) ->
  v_Decision (evaluate_paths tc pol) = Deny.
Proof.
  intros Hj Hw%writes_candidate Hm.
  assert (Hhit : exists v, Some v ∈ path_hits h glob word_rune parse_path tc pol bash /\ v_Decision v = Deny).
  { unfold path_hits. destruct (parsePrivatePathsAnalysis word_rune tc bash) as [cs reason]. destruct Hm as [[Hm Hwv]|[Hm Hwv]].
    - destruct (first_match_some h glob _ _ _ c Hw Hm) as [c' Hc'].
      exists (verdict Deny "P2.git-protected-path" ("write to a protected git-internal path: " +:+ pc_path c')).
      split; [|done]. unfold checkGitProtectedPathCandidates. rewrite Hc'. cbn [unless_waived deny v_RuleID verdict].
      rewrite Hwv. apply elem_of_app. right. right. by left.
    - set (all := writeCandidatesAnalysis tc bash ++ powershellWriteCandidates tc bash).
      assert (Hin : c ∈ all ++ flat_map expand_binary all) by (apply elem_of_app; left; apply elem_of_app; by left).
      destruct (first_match_some h glob _ _ _ c Hin Hm) as [c' Hc'].
      exists (self_config ("write to the agent's own guardrail/shell config: " +:+ pc_path c')).
      split; [|done]. unfold checkSelfConfigCandidatesAnalysis. fold all. rewrite Hc'.
      cbn [unless_waived self_config v_RuleID verdict]. rewrite Hwv. apply elem_of_app. right. do 2 right. by left. }
  destruct Hhit as (v & Hin & Hv). by apply (path_deny_enforced tc pol bash v).
Qed.

(** C12: A file tool's writes stay in the repository. When a write of a call with a known
    repository is allowed and P5.out-of-repo is not waived, each of its paths, as written and
    with its symbolic links resolved, is under the repository's root, or strictly under a temp
    root, the session's memory directory or a root the plane permits; or it is an absolute path
    in a worktree of the same repository. *)
Theorem file_writes_confined tc pol bash p :
  host_ok h -> judged_on tc pol bash -> isWriteToolCall tc = true -> tc_RepoRoot tc <> "" ->
  waived (p_Waived pol) "P5.out-of-repo" = false -> v_Decision (evaluate_paths tc pol) = Allow -> p ∈ tc_Paths tc ->
  (exists target physical name strict,
     candidate_target h (tool_path tc p) (tc_RepoRoot tc) = Some (target, physical) /\
     named_root h (tc_RepoRoot tc) [] (strictWriteRoots h tc (tool_path tc p)) false name strict /\
     confined_to h target physical (tc_CWD tc) name strict) \/
  (IsAbs p = true /\ exists target, Abs (ph_git h) (resolvePath p (tc_CWD tc)) = Some target /\
     sameRepository h target (tc_RepoRoot tc) = true).
Proof.
  intros Hok Hj Hwr Hroot Hwv Hallow Hp.
  assert (Hcheck : checkOutOfRepoWrite h tc = None).
  { destruct (checkOutOfRepoWrite h tc) as [v|] eqn:E; [exfalso|done].
    assert (Hv : v_Decision v = Ask /\ v_RuleID v = "P5.out-of-repo").
    { unfold checkOutOfRepoWrite in E. destruct (_ || _); [done|]. destruct (List.find _ _); [|done]. by injection E as <-. }
    destruct Hv as [Hv Hid].
    assert (Hin : Some v ∈ path_hits h glob word_rune parse_path tc pol bash).
    { unfold path_hits. destruct (parsePrivatePathsAnalysis word_rune tc bash). rewrite E. cbn [unless_waived].
      rewrite Hid, Hwv. apply elem_of_app. right. do 4 right. by left. }
    pose proof (path_ask_enforced tc pol bash v Hj Hin Hv) as Hle. rewrite Hallow in Hle. cbn in Hle. lia. }
  unfold checkOutOfRepoWrite in Hcheck. rewrite Hwr, (proj2 (String.eqb_neq _ _) Hroot) in Hcheck. cbn in Hcheck.
  destruct (List.find _ _) eqn:Ef; [done|]. apply list_elem_of_In in Hp.
  pose proof (List.find_none _ _ Ef p Hp) as Hpass. apply negb_false_iff in Hpass. unfold write_passes in Hpass.
  destruct (authorizedPath _ _ _ _ _ _) as [[|] lexical] eqn:Ea.
  - left. by apply (authorizedPath_spec h Hok) in Ea.
  - right. cbn [orb] in Hpass. apply andb_true_iff in Hpass as [[_ Habs]%andb_true_iff Hs]. split; [done|].
    destruct (Abs _ _) as [target|]; [|done]. by exists target.
Qed.

End Enforcement.

(** A host with a repository at [/w/repo] in which [keys] leads to the operator's
    secret directory, and the globs its rules use. *)
Definition demo_entries : list (string * string) :=
  [("/", "/"); ("/tmp", "/tmp"); ("/w", "/w"); ("/w/repo", "/w/repo"); ("/w/repo/src", "/w/repo/src");
   ("/w/repo/src/a.go", "/w/repo/src/a.go"); ("/w/repo/keys", "/home/op/.ssh"); ("/home", "/home"); ("/home/op", "/home/op");
   ("/home/op/.ssh", "/home/op/.ssh")].

Definition demo_entry (p : string) : option string := option_map snd (List.find (fun e => e.1 =s? Clean p) demo_entries).

Definition demo_path_host : PathHost :=
  {| ph_git :=
       {| gh_fs := {| fs_lstat := fun p => match demo_entry p with Some _ => LExists | None => LNotExist end;
                      fs_evalsymlinks := demo_entry |};
          gh_stat := fun p => option_map (fun _ => {| fi_dir := true; fi_regular := false; fi_size := 4096 |}) (demo_entry p);
          gh_open := fun _ => None; gh_env := fun _ => None; gh_wd := Some "/w/repo" |};
     ph_sameFile := String.eqb;
     ph_symlink := fun p => p =s? "/w/repo/keys";
     ph_home := Some "/home/op" |}.

(** Patterns that name a file or a directory at any depth. *)
Definition demo_path_glob (pattern s : string) : bool :=
  match CutPrefix pattern "**/" with
  | Some rest => if HasSuffix rest "/**" then Contains ("/" +:+ s) ("/" +:+ TrimSuffix rest "**")
                 else HasSuffix ("/" +:+ s) ("/" +:+ rest)
  | None => pattern =s? s
  end.

Definition demo_policy : Policy :=
  {| p_WebResearchOff := false;
     p_Slots := {| s_SafeRoots := []; s_SecretDirs := ["**/.ssh/**"]; s_SecretGlobs := []; s_SecretAskGlobs := [];
                   s_SecretAllow := ["**/*"]; s_EgressAllowlist := []; s_WebHosts := []; s_AuditLog := "" |};
     p_Recipes := None; p_Rules := []; p_Waived := <["P4.secret-path" := true]> ∅;
     p_UnknownToolPosture := "" |}.

Definition demo_normalized (argv : list string) (tc : ToolCall) : bashAnalysis :=
  analyze_simples (fun _ => true) tc (Some [plain_simple argv "/w/repo"]).

Definition demo_commands (tc : ToolCall) (pol : Policy) (a : bashAnalysis) : outcome (option Verdict) := Returns None.

Definition demo_evaluate (argv : list string) : ToolCall -> Policy -> Verdict :=
  evaluate_paths demo_path_host demo_path_glob (fun _ => false) (fun _ => None) (fun _ => None)
    (fun tc => Returns (demo_normalized argv tc)) demo_commands.

Definition demo_shell : ToolCall := demo_call CapabilityCommand "a command".

Definition demo_edit (path : string) : ToolCall :=
  {| tc_Plane := "claude"; tc_Event := "pre"; tc_Tool := "Edit"; tc_NativeTool := "Edit";
     tc_ContractTool := "Edit"; tc_Capability := CapabilityMutation; tc_NativeWebResearch := false;
     tc_URL := ""; tc_InputShape := ""; tc_Command := ""; tc_Shell := ""; tc_Paths := [path];
     tc_Arguments := ""; tc_SessionID := "s1"; tc_CallID := "call-1"; tc_HostApproved := false;
     tc_CWD := "/w/repo"; tc_RepoRoot := "/w/repo"; tc_Raw := ""; tc_PermittedRoots := [];
     tc_DegradedAllows := [] |}.

Lemma demo_shell_judged argv :
  judged_on (fun tc => Returns (demo_normalized argv tc)) demo_commands demo_shell demo_policy
    (Some (demo_normalized argv demo_shell)).
Proof.
  split; [by right; left|]. split; [by split|]. split; [done|]. split; [done|]. split; [done|]. by exists None.
Defined.

Lemma demo_edit_judged argv path :
  path <> "" -> judged_on (fun tc => Returns (demo_normalized argv tc)) demo_commands (demo_edit path) demo_policy None.
Proof.
  intros Hp. split; [by do 3 right|]. split; [|done]. split; [|done]. intros _. split; [done|].
  intros [E|E%elem_of_nil]%elem_of_cons; [by apply Hp|done].
Defined.


(** Moving a file over a git hook, with an option and another spelling of the path. *)
Lemma protected_write_denied_witness :
  v_Decision (demo_evaluate ["mv"; "-f"; "x"; "./.git/hooks/pre-commit"] demo_shell demo_policy) = Deny.
Proof.
  set (s := plain_simple ["mv"; "-f"; "x"; "./.git/hooks/pre-commit"] "/w/repo").
  apply (protected_write_denied _ _ _ _ _ _ _ demo_shell demo_policy
    (Some (demo_normalized ["mv"; "-f"; "x"; "./.git/hooks/pre-commit"] demo_shell))
    (shell_path s demo_shell "./.git/hooks/pre-commit")).
  - apply demo_shell_judged.
  - apply (write_destination demo_shell _ s "./.git/hooks/pre-commit" mvSpec).
    + eexists. split; [by left|]. by left.
    + exists "mv", ["-f"; "x"]. split; [done|]. split; [done|]. by intros a [= <-].
    + done.
  - left. by vm_compute.
Defined.

Lemma demo_path_host_ok : host_ok demo_path_host.
Proof.
  split; [|by intros wd [= <-]]. intros p q Hp. cbn. unfold demo_entry.
  destruct (List.find _ _) as [e|] eqn:E; [|done]. intros [= <-]. apply List.find_some in E as [E _].
  repeat (destruct E as [<-|E]; [done|]). done.
Defined.

(** Editing a file of the repository. *)
Lemma file_writes_confined_witness :
  let tc := demo_edit "src/new.go" in
  v_Decision (demo_evaluate [] tc demo_policy) = Allow /\
  ((exists target physical name strict,
     candidate_target demo_path_host (tool_path tc "src/new.go") "/w/repo" = Some (target, physical) /\
     named_root demo_path_host "/w/repo" [] (strictWriteRoots demo_path_host tc (tool_path tc "src/new.go")) false name strict /\
     confined_to demo_path_host target physical "/w/repo" name strict) \/
   (IsAbs "src/new.go" = true /\ exists target, Abs (ph_git demo_path_host) (resolvePath "src/new.go" "/w/repo") = Some target /\
     sameRepository demo_path_host target "/w/repo" = true)).
Proof.
  intros tc. assert (Hallow : v_Decision (demo_evaluate [] tc demo_policy) = Allow) by reflexivity.
  split; [exact Hallow|].
  apply (file_writes_confined demo_path_host demo_path_glob (fun _ => false) (fun _ => None) (fun _ => None)
    (fun tc => Returns (demo_normalized [] tc)) demo_commands tc demo_policy None "src/new.go").
  - exact demo_path_host_ok.
  - by apply demo_edit_judged.
  - reflexivity.
  - discriminate.
  - reflexivity.
  - exact Hallow.
  - by left.
Defined.


(** The link itself is denied, and so are the spellings a shell user would try. *)
Lemma denied_spellings :
  map (fun argv => v_Decision (demo_evaluate argv demo_shell demo_policy))
    [["cat"; "keys/id_rsa"]; ["cat"; "KEYS/../keys/id_rsa"]; ["grep"; "-r"; "x"; "~/.SSH/id_rsa"];
     ["cp"; "-t"; ".git/hooks"; "pre-commit"]; ["tee"; "-a"; ".claude/settings.json"]; ["rm"; "-f"; "~/.local/bin/guard*"];
     ["dd"; "if=x"; "of=.git/config"]; ["python3"; "-c"; "open('/h/.config/guardrail/waivers.toml','w')"];
     ["Copy-Item"; "x"; "-Destination"; "C:\u\.local\bin\guardrail.exe."]; ["mv"; "~/.local/bin/guardrail"; "/tmp/x"]] =
  [Deny; Deny; Deny; Deny; Deny; Deny; Deny; Deny; Deny; Deny].
Proof. vm_compute. reflexivity. Qed.
