(* ===== verification/CommandRules.v ===== *)
(** * Commands judged by their name and their words
    ([internal/engine/rules_power.go], [rules_rg.go], [rules_update.go],
    [rules_install_spellings.go], [checkDownloadPipeShell] and [checkPackageInstall]
    of [rules_net.go], [checkSelfControlInvocation] and [checkDiskDestroyers] of
    [rules_bash.go], the rules on evaluated source of [rules_powershell.go], the disk
    rules of [rules_cmd.go])

    Ending the machine's uptime, stepping the enforcement binary back, changing the
    session's own supervision, running fetched code, destroying disks. *)

From Stdlib Require Import ZArith Ascii String List Lia.
From stdpp Require Import base list strings gmap.
From S2P Require Import Prelude GoStrings Regex GoPath Policy Argv Engine Simple GitRepo Wrappers NetRules Operands Containment WriteTargets.
Open Scope go_scope.

(** ** rules_power.go *)

Definition powerOffCommands (command : string) : bool := in_list command ["reboot"; "poweroff"; "halt"].
Definition powerOffVerbs (verb : string) : bool := in_list verb ["reboot"; "poweroff"; "halt"].

Definition ends_uptime (what : string) : option Verdict :=
  ask "P1.power" (what +:+ " ends the machine's uptime; unsaved work is lost and the session cannot continue").

(** The words behind the modes that act on nothing. *)
Fixpoint shutdown_flags (cancelOrWarn : bool) (args : list string) : option Verdict :=
  match args with
  | [] => if cancelOrWarn then None else ends_uptime "shutdown"
  | a :: rest =>
      let flag := ToLower a in
      if in_list flag ["-c"; "-k"] then shutdown_flags cancelOrWarn rest
      else if HasPrefix flag "-" || HasPrefix flag "/" then ends_uptime "shutdown"
      else if cancelOrWarn then shutdown_flags cancelOrWarn rest
      else ends_uptime "shutdown"
  end.

Definition checkShutdownFlags (args : list string) : option Verdict :=
  if existsb (fun a => in_list (ToLower a) ["--help"; "/?"; "/a"]) args then None
  else shutdown_flags (existsb (fun a => in_list (ToLower a) ["-c"; "-k"]) args) args.

Definition first_operand (args : list string) : option string := List.find (fun a => negb (HasPrefix a "-")) args.

Definition checkPowerControl (s : Simple) : option Verdict :=
  let command := head (s_Argv s) in
  let args := tail (s_Argv s) in
  if powerOffCommands command then ends_uptime command
  else if command =s? "shutdown" then checkShutdownFlags args
  else if command =s? "systemctl" then
    match first_operand args with
    | Some a => if powerOffVerbs a then ends_uptime ("systemctl " +:+ a) else None
    | None => None
    end
  else if in_list command ["init"; "telinit"] then
    match args with
    | a :: _ => if in_list a ["0"; "6"] then ends_uptime (command +:+ " " +:+ a) else None
    | [] => None
    end
  else if in_list command ["stop-computer"; "restart-computer"] then
    if existsb (fun a => EqualFold a "-whatif") args then None else ends_uptime command
  else None.

(** ** rules_rg.go *)

Fixpoint rg_preprocessor (args : list string) : option Verdict :=
  match args with
  | [] => None
  | arg :: rest =>
      if arg =s? "--" then None
      else if (arg =s? "--pre") || HasPrefix arg "--pre=" then
        ask "P1.rg-preprocessor"
          "rg --pre runs a program on every file it searches, out of Guardrail's sight; search without --pre, or run the program directly so its own rules apply"
      else rg_preprocessor rest
  end.

Definition checkRgPreprocessor (s : Simple) : option Verdict :=
  if head (s_Argv s) <>s? "rg" then None else rg_preprocessor (tail (s_Argv s)).

(** ** Disks *)

Definition psDiskDestroyers (command : string) : bool :=
  in_list command ["format-volume"; "clear-disk"; "remove-partition"; "initialize-disk"; "clear-partition"].

Definition checkDiskDestroyers (s : Simple) : option Verdict :=
  let command := head (s_Argv s) in
  if command =s? "dd" then
    match List.find (fun a => HasPrefix a "of=/dev/") (tail (s_Argv s)) with
    | Some a => deny "P1.dd" ("dd writing to a raw device: " +:+ a)
    | None => None
    end
  else if (command =s? "mkfs") || HasPrefix command "mkfs." || in_list command ["mke2fs"; "wipefs"]
  then deny "P1.mkfs" ("filesystem-destroying command: " +:+ command)
  else if psDiskDestroyers command then deny "P1.mkfs" ("filesystem-destroying command: " +:+ command)
  else if in_list command ["shred"; "srm"] then deny "P1.shred" ("irreversible secure-delete command: " +:+ command)
  else None.

(** A switch [/x] or [/x:value] of the known ones. *)
Definition cmdSwitch (arg : string) (known : list string) : option string :=
  match arg with
  | String c ((String _ _) as rest) =>
      if negb (Ascii.eqb c "/") then None
      else
        let '(name, _, _) := Cut (ToLower rest) ":" in
        if in_list name known then Some name else None
  | _ => None
  end.

Definition cmdFormatSwitches : list string :=
  ["fs"; "v"; "q"; "c"; "x"; "a"; "p"; "y"; "r"; "d"; "t"; "n"; "i"; "l"].

Definition drive_letter (arg : string) : bool :=
  match arg with String c (String ":" EmptyString) => isASCIILetterByte c | _ => false end.

Definition cmdShapedFormat (argv : list string) : bool :=
  existsb (fun arg => match cmdSwitch arg cmdFormatSwitches with Some _ => true | None => drive_letter arg end) (tail argv).

Definition cmdDiskDestroyers (command : string) : bool := command =s? "diskpart".

Definition checkCmdDiskDestroyer (s : Simple) : option Verdict :=
  let command := head (s_Argv s) in
  if cmdDiskDestroyers command || (command =s? "format") && cmdShapedFormat (s_Argv s)
  then deny "P1.mkfs" ("filesystem-destroying command: " +:+ command) else None.

(** ** PowerShell source evaluated at run time *)

Definition psDynamicEval (command : string) : bool := in_list command ["invoke-expression"; "iex"].

Fixpoint trim_dashes (s : string) : string :=
  match s with String c t => if Ascii.eqb c "-" then trim_dashes t else s | EmptyString => EmptyString end.

Definition abbreviates (name full : string) : bool := (2 <=? String.length name)%nat && HasPrefix full name.

Fixpoint ps_encoded (args : list string) : bool :=
  match args with
  | [] => false
  | arg :: rest =>
      if negb (HasPrefix arg "-") then ps_encoded rest
      else
        let '(name, _, _) := Cut (ToLower (trim_dashes arg)) ":" in
        if in_list name ["e"; "ec"] || abbreviates name "encodedcommand" then true
        else if in_list name ["c"; "f"] || abbreviates name "command" || abbreviates name "file" then false
        else ps_encoded rest
  end.

Definition psEncodedCommand (argv : list string) : bool := ps_encoded (tail argv).

Definition executionPolicyParams : psParams :=
  {| ps_switches := ["force"; "whatif"; "confirm"]; ps_values := ["executionpolicy"; "scope"]; ps_paths := [] |}.

Definition psWideningPolicies (policy : string) : bool := in_list policy ["bypass"; "unrestricted"].

Definition checkPSExecutionPolicy (s : Simple) : option Verdict :=
  let binding := bindPS (s_Argv s) executionPolicyParams in
  let candidates := b_operands binding ++
    match b_values binding !! "executionpolicy" with Some named => [named] | None => [] end in
  match List.find (fun c => psWideningPolicies (ToLower c)) candidates with
  | Some c => ask "P1.execution-policy"
                ("Set-ExecutionPolicy " +:+ c +:+ " turns off script-signing enforcement for this host")
  | None => None
  end.

(** ** Downloads piped into an interpreter *)

Definition interpreters (command : string) : bool :=
  in_list command ["sh"; "bash"; "zsh"; "dash"; "python"; "python3"; "perl"; "ruby"; "node";
                   "invoke-expression"; "iex"; "powershell"; "pwsh"].

Definition laterPipelineStage (earlier later : Simple) : bool :=
  existsb (fun left => existsb (fun right => (left.1 =? right.1)%nat && (left.2 <? right.2)%nat) (s_pipelines later))
    (s_pipelines earlier).

Fixpoint checkDownloadPipeShell (simples : list Simple) : option Verdict :=
  match simples with
  | [] => None
  | fetch :: rest =>
      if fetchTools (head (s_Argv fetch)) &&
         existsb (fun i => interpreters (head (s_Argv i)) && laterPipelineStage fetch i) rest
      then deny "P6.download-pipe-shell" "downloaded content reaches an interpreter later in the same pipeline"
      else checkDownloadPipeShell rest
  end.

(** ** Installs *)

(** [^(python[0-9.]*|py)$] *)
Definition pythonLauncherName (name : string) : bool :=
  (name =s? "py") ||
  match CutPrefix name "python" with
  | Some version => all_bytes (fun c => is_digit c || Ascii.eqb c ".") version
  | None => false
  end.

Definition pipModuleArgv (argv : list string) : list string :=
  match argv with
  | _ :: flag :: module :: rest =>
      if pythonLauncherName (head argv) && (flag =s? "-m") && in_list module ["pip"; "pip3"]
      then "pip" :: rest else argv
  | _ => argv
  end.

Definition installAsk (reason : string) : option Verdict := ask "P6.package-install" reason.

Definition hasBareFlag (argv : list string) (flag : string) : bool :=
  existsb (fun arg => let '(name, _, _) := Cut arg "=" in name =s? flag) argv.

Definition launcherFlagsAreInert (flag : string) : bool :=
  in_list flag ["-y"; "--yes"; "-q"; "--quiet"; "--silent"].

Definition windowsDriveSpec (spec : string) : bool :=
  match spec with
  | String c (String ":" (String d _)) => is_letter c && (Ascii.eqb d "\" || Ascii.eqb d "/")
  | _ => false
  end.

Definition isLocalPackageSpec (spec : string) : bool :=
  in_list spec ["."; ".."] ||
  existsb (HasPrefix spec) ["./"; "../"; ".\"; "..\"; "/"; "~/"; "file:"] || windowsDriveSpec spec.

Definition launcherVerdict (argv : list string) (name : string) (operands : list string) : option Verdict :=
  if existsb (fun a => in_list a ["--no-install"; "--no"]) (tail argv) then None
  else
    let remote := installAsk (name +:+ " downloads and runs a package from a registry unless it is already local; use --no-install or a local path") in
    match operands with
    | [] => if hasAnyFlag argv "p" ["--package"; "--from"; "--with"] then remote else None
    | spec :: _ =>
        if isLocalPackageSpec spec then
          if existsb (fun a => HasPrefix a "-" && negb (launcherFlagsAreInert a)) (tail argv) then remote else None
        else remote
    end.

Definition privileges : string := " installs Python dependencies — runs install scripts with your privileges".

Definition checkInstallSpellings (argv : list string) : option Verdict :=
  let command := head argv in
  let operands := nonFlagArgs argv in
  let verb := nth 0 operands "" in
  let next := nth 1 operands "" in
  if command =s? "pipx" then
    if in_list verb ["install"; "inject"; "upgrade"; "upgrade-all"; "reinstall"; "reinstall-all"; "install-all"]
    then installAsk "new Python tool — runs install scripts with your privileges"
    else if verb =s? "run" then installAsk "pipx run downloads and executes remote code" else None
  else if command =s? "uv" then
    if in_list verb ["sync"; "add"] then installAsk ("uv " +:+ verb +:+ privileges)
    else if verb =s? "pip" then
      if in_list next ["install"; "sync"] then installAsk ("uv pip " +:+ next +:+ privileges) else None
    else if verb =s? "tool" then
      if in_list next ["install"; "upgrade"; "run"]
      then installAsk ("uv tool " +:+ next +:+ " installs or runs a remote Python tool") else None
    else None
  else if command =s? "poetry" then
    if in_list verb ["install"; "add"; "update"; "sync"] then installAsk ("poetry " +:+ verb +:+ privileges) else None
  else if command =s? "yarn" then
    match operands with
    | [] => if hasAnyFlag argv "vh" ["--version"; "--help"] then None
            else installAsk "bare yarn installs the JS dependencies — runs postinstall scripts with your privileges"
    | _ => if verb =s? "dlx" then launcherVerdict argv "yarn dlx" (tail operands) else None
    end
  else if command =s? "pnpm" then
    if verb =s? "dlx" then launcherVerdict argv "pnpm dlx" (tail operands) else None
  else if command =s? "npm" then
    if in_list verb ["exec"; "x"] then launcherVerdict argv ("npm " +:+ verb) (tail operands) else None
  else if command =s? "bun" then
    if verb =s? "x" then launcherVerdict argv "bun x" (tail operands) else None
  else if in_list command ["npx"; "bunx"; "uvx"] then launcherVerdict argv command operands
  else if command =s? "graft" then
    if verb =s? "init" then installAsk "graft init writes agent instruction files, MCP config and hooks into the repo"
    else if verb =s? "uninstall" then installAsk "graft uninstall removes agent configuration and hooks from the repo"
    else if verb =s? "upgrade" then installAsk "graft upgrade installs a new graft release from a registry"
    else if (verb =s? "build") && hasBareFlag argv "--deep"
    then installAsk "graft build --deep sends code to an LLM provider using an API key"
    else None
  else None.

Definition checkPackageInstall (s : Simple) : option Verdict :=
  let argv := pipModuleArgv (s_Argv s) in
  let command := head argv in
  let joined := Join argv " " in
  if in_list command ["pip"; "pip3"] && Contains joined "install" then
    if hasAnyFlag argv "" ["--index-url"; "--extra-index-url"] || Contains joined "git+http"
    then deny "P6.registry-redirect" "pip install bypassing the normal index/lockfile review path"
    else installAsk "new Python dependency — runs install scripts with your privileges"
  else if (command =s? "npm") && hasAnyFlag argv "" ["--registry"]
  then deny "P6.registry-redirect" "npm install with a redirected registry"
  else if in_list command ["npm"; "yarn"; "pnpm"; "bun"] &&
          existsb (fun a => in_list a ["install"; "i"; "ci"; "add"]) (nonFlagArgs argv)
  then installAsk "new JS dependency — runs postinstall scripts with your privileges"
  else
    let installs := match argv with _ :: verb :: _ => verb =s? "install" | _ => false end in
    if (command =s? "gem") && installs then installAsk "new Ruby gem install"
    else if (command =s? "cargo") && installs then installAsk "new Rust crate install"
    else if in_list command ["apt"; "apt-get"; "brew"] && installs then installAsk "new system package install"
    else checkInstallSpellings argv.

(** ** The session's own supervision *)

Definition NightMentionReason : string :=
  "interpreter input mentions guardrail night control; Guardrail cannot tell a mention from an invocation".
Definition SelfControlMentionReason : string :=
  "interpreter input mentions a guardrail lifecycle command; Guardrail cannot tell a mention from an invocation".

Definition selfControlSubcommands : list string :=
  ["night"; "setup"; "plane"; "operator"; "recover"; "web-research"; "egress"; "hook"; "approvals"].

Definition harmlessApprovalsQuery (argv : list string) : bool :=
  match argv with
  | _ :: verb :: what :: _ => EqualFold verb "approvals" && (EqualFold what "list" || EqualFold what "revoke")
  | _ => false
  end.

Definition isTerminalWrapper (executable : string) : bool :=
  in_list executable ["script"; "expect"; "unbuffer"; "winpty"; "tmux"; "screen"; "socat"; "dtach"; "abduco"; "empty";
                      "faketty"; "mintty"; "wt"; "conhost"].

Definition readOnlyStatusQuery (argv : list string) : bool :=
  match argv with
  | [_; verb; status] => existsb (EqualFold verb) ["night"; "plane"; "web-research"] && EqualFold status "status"
  | _ => false
  end.

(** The parts of a release tag [v1.2.3] or [v1.2.3-suffix]. *)
Definition tag_number (s : string) : bool := (s <>s? "") && all_bytes is_digit s.

Fixpoint span_digits (s : string) : string * string :=
  match s with
  | String c t => if is_digit c then let '(d, r) := span_digits t in (String c d, r) else ("", s)
  | EmptyString => ("", "")
  end.

Definition tag_suffix (s : string) : bool :=
  match s with
  | EmptyString => true
  | String c t => Ascii.eqb c "-" && (t <>s? "") &&
                  all_bytes (fun c => is_letter c || is_digit c || Ascii.eqb c "." || Ascii.eqb c "-") t
  end.

Definition releaseTag (s : string) : option (list Z * string) :=
  match CutPrefix s "v" with
  | None => None
  | Some s =>
      let '(major, s) := span_digits s in
      match CutPrefix s "." with
      | None => None
      | Some s =>
          let '(minor, s) := span_digits s in
          match CutPrefix s "." with
          | None => None
          | Some s =>
              let '(patch, suffix) := span_digits s in
              if tag_number major && tag_number minor && tag_number patch && tag_suffix suffix
              then Some (map (fun d => default max_int (Atoi d)) [major; minor; patch], suffix) else None
          end
      end
  end.

Fixpoint older_numbers (a b : list Z) : option bool :=
  match a, b with
  | x :: a, y :: b => if (x =? y)%Z then older_numbers a b else Some (x <? y)%Z
  | _, _ => None
  end.

(** [None] when one of them is no release tag. *)
Definition releaseOlder (a b : string) : option bool :=
  match releaseTag a, releaseTag b with
  | Some (na, sa), Some (nb, sb) =>
      match older_numbers na nb with
      | Some older => Some older
      | None =>
          Some (if sa =s? sb then false else if sb =s? "" then true else if sa =s? "" then false
                else match String.compare sa sb with Lt => true | _ => false end)
      end
  | _, _ => None
  end.

Section SelfControl.
(** [unicode.IsLetter] or [IsDigit] beyond ASCII; [literalText]; the version that
    runs ([RunningVersion]). *)
Context (word_rune : Z -> bool).
Context (literalText : string -> bool).
Context (RunningVersion : string).

Definition name_rune (r : string) : bool :=
  match r with
  | String c EmptyString =>
      if (nat_of_ascii c <? 128)%nat then is_letter c || is_digit c || ContainsByte "._-/\" c else word_rune 65533
  | _ => word_rune (rune_value r)
  end.

(** The names in a text: its visible paths and their parts. *)
Definition mentioned_names (value : string) : list string :=
  flat_map (fun c => c :: FieldsFunc c (fun r => negb (name_rune r))) (visiblePathCandidates word_rune value).

Definition mentionsExecutable (value executable : string) : bool :=
  existsb (fun token => head [token] =s? executable) (mentioned_names value).

Definition mentionsCommand (value executable subcommand : string) : bool :=
  mentionsExecutable value executable && existsb (fun token => EqualFold token subcommand) (mentioned_names value).

Definition opaque_or_terminal (s : Simple) : bool :=
  match s_Argv s with [] => false | _ => isOpaqueExecutor (head (s_Argv s)) || isTerminalWrapper (head (s_Argv s)) end.

(** The subcommand that the second word spells, unless the query is harmless. *)
Definition self_subcommand (s : Simple) : string :=
  match s_Argv s with
  | executable :: verb :: _ =>
      if (head (s_Argv s) =s? "guardrail") ||
         (wordUnresolved literalText s 0 && mentionsExecutable executable "guardrail")
      then if readOnlyStatusQuery (s_Argv s) || harmlessApprovalsQuery (s_Argv s) then ""
           else default "" (List.find (EqualFold verb) selfControlSubcommands)
      else ""
  | _ => ""
  end.

Definition checkSelfControlInvocation (s : Simple) (command : string) : option Verdict :=
  let subcommand := self_subcommand s in
  let opaque := if opaque_or_terminal s
                then default "" (List.find (mentionsCommand command "guardrail") selfControlSubcommands) else "" in
  if subcommand =s? "night" then deny "P5.self-config" "the guarded plane cannot change its own night-mode posture"
  else if subcommand <>s? "" then
    deny "P5.self-config" ("the guarded plane cannot change its own guardrail posture (" +:+ subcommand +:+ ")")
  else if opaque <>s? "" then
    deny "P5.self-config" (if opaque =s? "night" then NightMentionReason else SelfControlMentionReason)
  else None.

(** The rule on the words of [guardrail] itself, [None] when it does not fire. *)
Definition direct_update (s : Simple) : option Verdict :=
  match s_Argv s with
  | _ :: verb :: rest =>
      if head (s_Argv s) <>s? "guardrail" then None
      else if ToLower verb =s? "rollback" then
        deny "P5.self-config" "rolling the guardrail binary back is the operator's: they run `guardrail rollback` in their own terminal"
      else if ToLower verb =s? "update" then
        match rest with
        | version :: _ =>
            if wordUnresolved literalText s 2 then None
            else match releaseOlder version RunningVersion with
                 | Some true =>
                     deny "P5.self-config" ("`guardrail update " +:+ version +:+
                       "` would downgrade the enforcement binary below " +:+ RunningVersion +:+
                       "; a downgrade is the operator's, run from their own terminal. Updating to a newer release stays allowed")
                 | _ => None
                 end
        | [] => None
        end
      else None
  | _ => None
  end.

Definition checkGuardrailUpdate (s : Simple) (command : string) : option Verdict :=
  match direct_update s with
  | Some v => Some v
  | None =>
      if opaque_or_terminal s then
        match List.find (mentionsCommand command "guardrail") ["update"; "rollback"] with
        | Some subcommand =>
            deny "P5.self-config" ("interpreter input or a terminal wrapper runs `guardrail " +:+ subcommand +:+
              "`, whose target Guardrail cannot judge from here; run `guardrail update <newer release>` directly, or ask the operator")
        | None => None
        end
      else None
  end.
End SelfControl.

(** The value of [systemctl -H] is taken for the verb. *)
Lemma systemctl_flag_value_taken :
  map (fun argv => option_map v_Decision (checkPowerControl (plain_simple argv "/w/repo")))
    [["systemctl"; "reboot"]; ["systemctl"; "-H"; "host"; "reboot"]; ["systemctl"; "--host=h"; "reboot"]] =
  [Some Ask; None; Some Ask].
Proof. vm_compute. reflexivity. Qed.
