(* ===== verification/ToolchainRules.v ===== *)
(** * The GitHub client and the Go toolchain ([internal/engine/rules_gh.go],
    [rules_gh_porcelain.go], [rules_go.go])

    Both act with authority or code that is not in the working tree: [gh] under the
    operator's token, [go] by fetching modules and running programs. The rules read
    the method and endpoint of [gh api], the group and verb of its other commands,
    and the subcommand, package and flags of [go]. *)

From Stdlib Require Import ZArith Ascii String List Lia.
From stdpp Require Import base list strings gmap.
From S2P Require Import Prelude GoStrings GoPath Policy Argv Engine Simple GitRepo Wrappers WriteTargets PathRules.
Open Scope go_scope.

(** ** rules_gh.go *)

Definition ghAPIBodyFlags (arg : string) : bool := in_list arg ["-f"; "-F"; "--field"; "--raw-field"; "--input"].

Definition attached_body (arg : string) : bool := existsb (HasPrefix arg) ["--field="; "--raw-field="; "--input="].

(** The method named last, and whether a body is sent. *)
Fixpoint gh_method (args : list string) (method : string) (body : bool) : string * bool :=
  match args with
  | [] => (method, body)
  | arg :: rest =>
      if in_list arg ["-X"; "--method"] then
        match rest with
        | value :: rest' => gh_method rest' (ToUpper value) body
        | [] => (method, body)
        end
      else match CutPrefix arg "--method=" with
           | Some value => gh_method rest (ToUpper value) body
           | None => gh_method rest method (body || ghAPIBodyFlags arg || attached_body arg)
           end
  end.

Definition ghAPIMethod (argv : list string) : string :=
  let '(method, body) := gh_method (drop 2 argv) "" false in
  if method <>s? "" then method else if body then "POST" else "GET".

Definition ghProtectionPaths : list string :=
  ["rulesets"; "branches/"; "actions/permissions"; "actions/secrets"; "actions/variables"; "environments";
   "immutable-releases"; "vulnerability-alerts"; "automated-security-fixes"; "private-vulnerability-reporting";
   "code-scanning/default-setup"; "collaborators"; "hooks"; "keys"].

Definition gh_value_flag (arg : string) : bool :=
  in_list arg ["-X"; "--method"; "-H"; "--header"; "--hostname"; "--jq"; "--template"; "-t"; "--cache"; "--input";
               "-f"; "-F"; "--field"; "--raw-field"].

Fixpoint gh_endpoint (args : list string) : string :=
  match args with
  | [] => ""
  | arg :: rest =>
      if HasPrefix arg "-" then
        match rest with
        | _ :: rest' => if gh_value_flag arg then gh_endpoint rest' else gh_endpoint rest
        | [] => ""
        end
      else arg
  end.

Definition ghAPIEndpoint (argv : list string) : string := gh_endpoint (drop 2 argv).

(** The scheme and host are dropped when a path follows. *)
Definition strip_scheme (prefix path : string) : string :=
  match CutPrefix path prefix with
  | Some rest => let '(_, after, found) := Cut rest slash in if found then "/" +:+ after else rest
  | None => path
  end.

Fixpoint before_query (s : string) : string :=
  match s with
  | String c t => if ContainsByte "?#" c then "" else String c (before_query t)
  | EmptyString => ""
  end.

Definition ghNormalizedAPIPath (endpoint : string) : string :=
  let path := ToLower (TrimSpace endpoint) in
  before_query (TrimPrefix (strip_scheme "http://" (strip_scheme "https://" path)) "/").

Definition protection_tail (rest : list string) : bool :=
  let tl := Join rest "/" in
  existsb (fun family => (tl =s? TrimSuffix family "/") || HasPrefix tl family) ghProtectionPaths.

Definition ghPathRewritesProtection (path : string) : bool :=
  match Split path slash with
  | "repos" :: _ :: _ :: _ :: _ => protection_tail (drop 3 (Split path slash))
  | "orgs" :: _ :: _ :: _ => protection_tail (drop 2 (Split path slash))
  | ["repos"; _; _] => true
  | _ => false
  end.

Definition ghGraphqlMutates (argv : list string) : bool :=
  existsb (fun arg => Contains (ToLower arg) "mutation") (drop 2 argv).

Definition checkGhAPIProtection (s : Simple) : option Verdict :=
  let argv := s_Argv s in
  match argv with
  | _ :: sub :: _ :: _ =>
      if (head argv <>s? "gh") || (sub <>s? "api") then None
      else
        let method := ghAPIMethod argv in
        if in_list method ["GET"; "HEAD"] then None
        else
          let endpoint := ghAPIEndpoint argv in
          if EqualFold endpoint "graphql" then
            if ghGraphqlMutates argv
            then ask "P2.gh-protection" "a GitHub GraphQL mutation can rewrite repository protections under the operator's token"
            else None
          else if negb (ghPathRewritesProtection (ghNormalizedAPIPath endpoint)) then None
          else ask "P2.gh-protection" (method +:+ " " +:+ endpoint +:+ " rewrites repository protection under the operator's token")
  | _ => None
  end.

(** ** rules_gh_porcelain.go *)

Record ghPorcelainVerdict := { gp_deny : bool; gp_ruleID : string; gp_reason : string }.

Definition gp (ruleID reason : string) : ghPorcelainVerdict := {| gp_deny := false; gp_ruleID := ruleID; gp_reason := reason |}.

Definition ghPorcelainRules : list (string * ghPorcelainVerdict) :=
  [("repo delete", {| gp_deny := true; gp_ruleID := "P2.gh-repo-delete";
      gp_reason := "deletes the repository under the operator's token; this is not reversible by changing a setting back" |});
   ("secret set", gp "P2.gh-protection" "writes an Actions secret under the operator's token");
   ("secret delete", gp "P2.gh-protection" "removes an Actions secret under the operator's token");
   ("variable set", gp "P2.gh-protection" "writes an Actions variable under the operator's token");
   ("variable delete", gp "P2.gh-protection" "removes an Actions variable under the operator's token");
   ("repo edit", gp "P2.gh-protection" "rewrites repository settings (visibility, merge and security flags) under the operator's token");
   ("ruleset delete", gp "P2.gh-protection" "removes a repository ruleset under the operator's token");
   ("ruleset edit", gp "P2.gh-protection" "rewrites a repository ruleset under the operator's token");
   ("ruleset create", gp "P2.gh-protection" "creates a repository ruleset under the operator's token");
   ("repo archive", gp "P2.gh-repo-admin" "archives the repository under the operator's token");
   ("repo unarchive", gp "P2.gh-repo-admin" "unarchives the repository under the operator's token");
   ("repo rename", gp "P2.gh-repo-admin" "renames the repository under the operator's token");
   ("repo transfer", gp "P2.gh-repo-admin" "transfers the repository to another owner under the operator's token");
   ("auth switch", gp "P2.gh-auth-scope" "changes which account later gh calls run as");
   ("auth logout", gp "P2.gh-auth-logout" "removes the stored credential later gh calls depend on");
   ("ssh-key add", gp "P2.gh-account-key" "adds an SSH key granting durable access to the account");
   ("ssh-key delete", gp "P2.gh-account-key" "removes an SSH key the operator's own access may depend on");
   ("gpg-key add", gp "P2.gh-account-key" "adds a GPG key that signs commits as the operator");
   ("gpg-key delete", gp "P2.gh-account-key" "removes a GPG key the operator's signature verification depends on");
   ("release create", gp "P6.publish" "publishes a release under the operator's token");
   ("release delete", gp "P6.publish" "deletes a published release consumers may already have fetched");
   ("release edit", gp "P6.publish" "rewrites a published release under the operator's token");
   ("release upload", gp "P6.publish" "adds assets to a published release under the operator's token");
   ("pr merge", gp "P2.gh-pr-merge" "merges into the target branch under the operator's token");
   ("workflow run", gp "P2.gh-workflow-dispatch" "dispatches a workflow that runs with the repository's secrets");
   ("workflow enable", gp "P2.gh-workflow-dispatch" "changes whether a workflow runs under the operator's token");
   ("workflow disable", gp "P2.gh-workflow-dispatch" "changes whether a workflow runs under the operator's token")].

Definition ghScopeFlags (arg : string) : bool := in_list arg ["-s"; "--scopes"; "--scope"].

(** The first two words that are no flags. *)
Definition ghGroupVerb (argv : list string) : string * string :=
  let words := nonFlagArgs argv in (nth 0 words "", nth 1 words "").

Fixpoint gh_flag (flag : string) (args : list string) : bool :=
  match args with
  | [] => false
  | arg :: rest =>
      if arg =s? "--" then false
      else if (arg =s? flag) || HasPrefix arg (flag +:+ "=") then true else gh_flag flag rest
  end.

Definition ghHasFlag (argv : list string) (flag : string) : bool := gh_flag flag (tail argv).

Definition ghHasScopeFlag (argv : list string) : bool :=
  existsb (fun arg => ghScopeFlags arg || (let '(name, _, found) := Cut arg "=" in found && ghScopeFlags name)) argv.

Definition checkGhPorcelain (s : Simple) : option Verdict :=
  let argv := s_Argv s in
  if head argv <>s? "gh" then None
  else
    let '(group, verb) := ghGroupVerb argv in
    if group =s? "" then None
    else if (group =s? "auth") && in_list verb ["refresh"; "login"] && ghHasScopeFlag argv
    then ask "P2.gh-auth-scope" "widens the scopes of the token every later gh call runs under"
    else if (group =s? "auth") && (verb =s? "login") && ghHasFlag argv "--with-token"
    then ask "P2.gh-auth-scope" "logs in with a supplied token, changing which account later gh calls run as"
    else match List.find (fun r => r.1 =s? (group +:+ " " +:+ verb)) ghPorcelainRules with
         | None => None
         | Some (_, rule) =>
             if gp_deny rule then deny (gp_ruleID rule) (gp_reason rule) else ask (gp_ruleID rule) (gp_reason rule)
         end.

(** ** rules_go.go *)

Definition goRedirectEnvironment (name : string) : bool :=
  in_list name ["GOPROXY"; "GOFLAGS"; "GONOSUMDB"; "GONOSUMCHECK"; "GOSUMDB"; "GOINSECURE"; "GOPRIVATE"].

Definition goRedirectEnvironmentVariable (name : string) : bool := goRedirectEnvironment name.

Fixpoint go_generate (rest : list string) : option Verdict :=
  let asks := ask "P1.go-generate"
    "go generate runs the command in every //go:generate directive, which this hook never sees; run go generate -n to list them first" in
  match rest with
  | [] => asks
  | arg :: rest => if in_list arg ["-n"; "--n"] then None else if arg =s? "--" then asks else go_generate rest
  end.

Definition checkGoGenerate (rest : list string) : option Verdict := go_generate rest.

Definition goBuiltinTools (name : string) : bool :=
  in_list name ["addr2line"; "asm"; "buildid"; "cgo"; "compile"; "covdata"; "cover"; "dist"; "distpack"; "doc"; "fix";
                "link"; "nm"; "objdump"; "pack"; "pprof"; "preprofile"; "test2json"; "trace"; "vet"].

Fixpoint checkGoTool (rest : list string) : option Verdict :=
  match rest with
  | [] => None
  | arg :: rest' =>
      if in_list arg ["-n"; "--n"] then None
      else if in_list arg ["-modfile"; "--modfile"] then
        match rest' with _ :: rest'' => checkGoTool rest'' | [] => None end
      else if HasPrefix arg "-" then checkGoTool rest'
      else if goBuiltinTools (TrimSuffix (ToLower arg) ".exe") then None
      else ask "P6.package-install" ("go tool " +:+ arg +:+
             " runs a tool declared in go.mod: third-party module code fetched, built and executed in one step")
  end.

Definition goRemotePackagePath (target : string) : bool :=
  if (target =s? "") || existsb (HasPrefix target) ["."; "/"; "\"] then false
  else if ContainsByte target "@" then true
  else let '(first, _, _) := Cut target slash in ContainsByte first ".".

(** The first word that is no flag, when it names a module to fetch. *)
Definition goRemotePackage (rest : list string) : option string :=
  match List.find (fun a => negb (HasPrefix a "-")) rest with
  | Some arg => if goRemotePackagePath arg then Some arg else None
  | None => None
  end.

Definition checkGoInstall (rest : list string) : option Verdict :=
  match List.find (fun a => negb (HasPrefix a "-") && goRemotePackagePath a) rest with
  | Some arg => ask "P6.package-install" ("go install " +:+ arg +:+ " fetches, builds and installs a module")
  | None => ask "P1.out-of-repo-write"
      "go install writes an executable into GOBIN, on PATH and outside the repository; use go build -o <path in the repo> to build in place"
  end.

Fixpoint go_env_write (write : bool) (rest : list string) : option string :=
  match rest with
  | [] => None
  | arg :: rest =>
      if in_list arg ["-w"; "--w"] then go_env_write true rest
      else
        let '(name, _, found) := Cut arg "=" in
        if write && found && goRedirectEnvironment (ToUpper name) then Some arg else go_env_write write rest
  end.

Definition goEnvWriteAssignment (rest : list string) : option string := go_env_write false rest.

Definition flag_name (arg : string) : string := let '(name, _, _) := Cut arg "=" in name.

Definition checkGoMod (rest : list string) : option Verdict :=
  match rest with
  | [] => None
  | verb :: args =>
      if verb =s? "download" then ask "P6.package-install" "go mod download fetches modules from the network"
      else if verb =s? "edit" then
        if existsb (fun arg => in_list (flag_name arg) ["-replace"; "--replace"]) args
        then deny "P6.registry-redirect" "go mod edit -replace points a module at an arbitrary path"
        else ask "P5.ci-infra-lockfile" "go mod edit writes go.mod"
      else None
  end.

Definition runs_program (arg : string) : bool :=
  in_list (flag_name arg) ["-toolexec"; "--toolexec"; "-vettool"; "--vettool"].

Definition go_case (subcommand : string) (rest : list string) : option Verdict :=
  if subcommand =s? "env" then
    match goEnvWriteAssignment rest with
    | Some assignment => deny "P6.registry-redirect"
        ("go env -w " +:+ assignment +:+ " repoints or weakens the Go module fetcher")
    | None => None
    end
  else if subcommand =s? "run" then
    match goRemotePackage rest with
    | Some target => ask "P6.package-install" ("go run " +:+ target +:+ " fetches and executes a module in one step")
    | None => None
    end
  else if subcommand =s? "mod" then checkGoMod rest
  else if subcommand =s? "generate" then checkGoGenerate rest
  else if subcommand =s? "tool" then checkGoTool rest
  else if subcommand =s? "install" then checkGoInstall rest
  else if subcommand =s? "get" then
    ask "P6.package-install" "go get changes go.mod requirements and downloads modules from the network"
  else None.

(** The name in the reason is one of the environment; the source takes the first its
    map yields. *)
Definition checkGoToolchain (s : Simple) : option Verdict :=
  let command := head (s_Argv s) in
  if negb (in_list command ["go"; "gofmt"]) then None
  else match map_to_list (s_goEnvironment s) with
  | (name, _) :: _ => deny "P6.registry-redirect" ("inline " +:+ name +:+ " repoints or weakens the Go module fetcher")
  | [] =>
      if command =s? "gofmt" then None
      else match goSubcommand (s_Argv s) with
      | None => None
      | Some (subcommand, rest) =>
          match List.find runs_program rest with
          | Some arg => ask "P1.toolexec"
              ("go " +:+ subcommand +:+ " " +:+ flag_name arg +:+ " runs an arbitrary program for every compile step")
          | None => go_case subcommand rest
          end
      end
  end.

(** ** Spellings the readers of flags miss *)

(** [gh api -XDELETE] sends the method attached to the flag; the reader knows only
    the separate and the long spelling and takes the call for a read. *)
Lemma attached_method_unread :
  map (fun argv => option_map v_Decision (checkGhAPIProtection (plain_simple argv "/w/repo")))
    [["gh"; "api"; "-X"; "DELETE"; "repos/o/r/rulesets/1"]; ["gh"; "api"; "-XDELETE"; "repos/o/r/rulesets/1"];
     ["gh"; "api"; "-f"; "name=x"; "repos/o/r/rulesets"]; ["gh"; "api"; "-fname=x"; "repos/o/r/rulesets"]] =
  [Some Ask; None; Some Ask; None].
Proof. vm_compute. reflexivity. Qed.

(** A flag between the group and the verb has its value taken for the verb. *)
Lemma group_flag_value_taken :
  map (fun argv => option_map v_Decision (checkGhPorcelain (plain_simple argv "/w/repo")))
    [["gh"; "pr"; "merge"; "1"]; ["gh"; "pr"; "-R"; "o/r"; "merge"; "1"];
     ["gh"; "repo"; "delete"; "o/r"]; ["gh"; "secret"; "-R"; "o/r"; "set"; "X"]] =
  [Some Ask; None; Some Deny; None].
Proof. vm_compute. reflexivity. Qed.

(** The value of a flag of [go run] is taken for its package, and [-w=true] is not
    read as [-w]. *)
Lemma go_flag_values_unread :
  map (fun argv => option_map v_Decision (checkGoToolchain (plain_simple argv "/w/repo")))
    [["go"; "run"; "example.com/x@latest"]; ["go"; "run"; "-mod"; "mod"; "example.com/x@latest"];
     ["go"; "env"; "-w"; "GOPROXY=x"]; ["go"; "env"; "-w=true"; "GOPROXY=x"]] =
  [Some Ask; None; Some Deny; None].
Proof. vm_compute. reflexivity. Qed.
