(* ===== verification/CredentialRules.v ===== *)
(** * Credentialed commands and printed credentials
    ([internal/engine/rules_credentialed.go], [rules_credential_print.go])

    Commands that publish, deploy or change a cluster or a cloud account with
    authority the session never reads, and commands whose output is a credential:
    what they print enters the session unless the command's output is contained. *)

From Stdlib Require Import ZArith Ascii String List Lia.
From stdpp Require Import base list strings gmap.
From S2P Require Import Prelude GoStrings GoPath Policy Argv Engine Simple GitRepo Wrappers CommandRules.
Open Scope go_scope.

(** ** rules_credentialed.go *)

Definition before_equals (arg : string) : string := let '(name, _, _) := Cut arg "=" in name.

Definition credentialedDryRun (argv : list string) : bool :=
  existsb (fun arg => in_list (before_equals arg) ["--dry-run"; "-dry-run"; "--dryrun"]) argv.

Definition localKubeContexts : list string := ["kind-"; "minikube"; "docker-desktop"; "k3d-"; "rancher-desktop"].

Definition KubeContextNameIsLocal (value : string) : bool :=
  existsb (fun prefix => (value =s? TrimSuffix prefix "-") || HasPrefix value prefix) localKubeContexts.

Fixpoint kubeContextIsLocal (argv : list string) : bool :=
  match argv with
  | [] => false
  | arg :: rest =>
      let '(name, inline, found) := Cut arg "=" in
      if name <>s? "--context" then kubeContextIsLocal rest
      else KubeContextNameIsLocal (match rest with next :: _ => if found then inline else next | [] => inline end)
  end.

(** The tables of mutating verbs. *)
Definition verb_table (rows : list (string * list string)) (command verb : string) : bool :=
  existsb (fun row => (row.1 =s? command) && in_list verb row.2) rows.

Definition publishVerbs : string -> string -> bool :=
  verb_table [("npm", ["publish"]); ("pnpm", ["publish"]); ("yarn", ["publish"]); ("cargo", ["publish"]);
              ("twine", ["upload"]); ("gem", ["push"])].
Definition registryPushVerbs : string -> string -> bool :=
  verb_table [("docker", ["push"]); ("podman", ["push"]); ("oras", ["push"])].
Definition clusterMutateVerbs : string -> string -> bool :=
  verb_table [("kubectl", ["delete"; "apply"; "scale"; "patch"; "replace"; "drain"; "rollout"; "create"; "edit";
                           "cordon"; "uncordon"; "taint"]);
              ("helm", ["install"; "upgrade"; "uninstall"; "rollback"; "delete"])].
Definition deployVerbs : string -> string -> bool :=
  verb_table [("wrangler", ["deploy"; "publish"]); ("firebase", ["deploy"]); ("netlify", ["deploy"]);
              ("supabase", ["db"])].
Definition cloudCLIs (command : string) : bool := in_list command ["aws"; "gcloud"; "az"; "doctl"; "flyctl"; "fly"].
Definition cloudReadVerbs (verb : string) : bool :=
  in_list verb ["ls"; "list"; "show"; "describe"; "get"; "status"; "version"; "help"; "config"; "whoami"].
Definition infraMutateVerbs : string -> string -> bool :=
  verb_table [("terraform", ["apply"; "destroy"; "import"; "taint"; "untaint"]);
              ("pulumi", ["up"; "destroy"; "refresh"; "import"])].
Definition credentialedWrappers (command : string) : bool := command =s? "npx".
Definition credentialedRunners : string -> string -> bool :=
  verb_table [("pnpm", ["dlx"; "exec"]); ("yarn", ["dlx"]); ("npm", ["exec"])].
Definition credentialedForwarders : string -> string -> bool := verb_table [("yarn", ["npm"])].

Definition credentialedValueFlags (flag : string) : bool :=
  in_list flag ["--context"; "--namespace"; "-n"; "--kubeconfig"; "--cluster"; "--user"; "--profile"; "--region";
                "-f"; "--filename"; "-o"; "--output"; "--project"; "--resource-group"; "-g"; "--subscription"].

(** Behind the wrappers that fetch or forward. *)
Fixpoint credentialedTarget (argv : list string) : list string :=
  match argv with
  | [] | [_] => argv
  | _ :: ((second :: after) as rest) =>
      if credentialedWrappers (head argv) then credentialedTarget rest
      else if (0 <? length after)%nat && credentialedRunners (head argv) second then credentialedTarget after
      else if credentialedForwarders (head argv) second then credentialedTarget rest
      else argv
  end.

(** The words that are neither flags nor their values. *)
Fixpoint credential_operands (skip : bool) (args : list string) : list string :=
  match args with
  | [] => []
  | arg :: rest =>
      if skip then credential_operands false rest
      else if HasPrefix arg "-" then
        let '(name, _, inline) := Cut arg "=" in credential_operands (negb inline && credentialedValueFlags name) rest
      else arg :: credential_operands false rest
  end.

Definition credentialOperands (argv : list string) : list string := credential_operands false (tail argv).

Definition credentialedVerb (argv : list string) : string := nth 0 (credentialOperands argv) "".

Definition cloudReadOperation (argv : list string) : bool :=
  existsb (fun operand => let '(base, _, _) := Cut operand ":" in
      cloudReadVerbs base || existsb (HasPrefix operand) ["describe-"; "list-"; "get-"; "search-"; "check-"])
    (nonFlagArgs argv).

(** ** rules_credential_print.go *)

Fixpoint operandsStartWith (operands want : list string) : bool :=
  match want, operands with
  | [], _ => true
  | word :: want, operand :: operands => EqualFold operand word && operandsStartWith operands want
  | _ :: _, [] => false
  end.

Definition hasFlag (argv : list string) (names : list string) : bool :=
  existsb (fun arg => existsb (EqualFold (before_equals arg)) names) (tail argv).

Definition isASCIILetters (value : string) : bool := all_bytes isASCIILetterByte value && (value <>s? "").

Definition shortFlagSet (argv : list string) (letters : string) : bool :=
  existsb (fun arg => match arg with
                      | String d (String c t) =>
                          Ascii.eqb d "-" && negb (Ascii.eqb c "-") && ContainsAny (String c t) letters &&
                          isASCIILetters (String c t)
                      | _ => false
                      end) (tail argv).

Definition names_any (key : string) (markers : list string) : bool := existsb (Contains key) markers.

Definition awsSecretConfigKey (key : string) : bool :=
  names_any (ToLower key) ["secret"; "token"; "access_key"; "password"].

Definition npmAuthConfigKey (key : string) : bool := names_any (ToLower key) ["_auth"; "token"; "password"].

(** The third operand satisfies [p]. *)
Definition third (p : string -> bool) (operands : list string) : option string :=
  match operands with _ :: _ :: key :: _ => if p key then Some key else None | _ => None end.

Definition gh_printer (argv operands : list string) : string :=
  if operandsStartWith operands ["auth"; "token"] then "gh auth token"
  else if operandsStartWith operands ["auth"; "status"] && hasFlag argv ["-t"; "--show-token"]
  then "gh auth status --show-token"
  else if operandsStartWith operands ["auth"; "git-credential"; "get"] then "gh auth git-credential get"
  else "".

Definition git_printer (argv : list string) : string :=
  match gitSubcommandIndex argv with
  | None => ""
  | Some index =>
      match drop index argv with
      | sub :: operand :: _ =>
          let sub := ToLower sub in
          let operand := ToLower operand in
          if (sub =s? "credential") && (operand =s? "fill") then "git credential fill"
          else if HasPrefix sub "credential-" && (operand =s? "get") then "git " +:+ sub +:+ " get"
          else ""
      | _ => ""
      end
  end.

Definition security_printer (argv operands : list string) : string :=
  let verb := nth 0 operands "" in
  if negb (length operands =? 0)%nat &&
     (EqualFold verb "find-generic-password" || EqualFold verb "find-internet-password") && shortFlagSet argv "wg"
  then "security " +:+ verb +:+ " -w"
  else if operandsStartWith operands ["dump-keychain"] && shortFlagSet argv "d" then "security dump-keychain -d"
  else "".

Definition aws_printer (argv operands : list string) : string :=
  let starts := operandsStartWith operands in
  let second := nth 1 operands "" in
  match (if starts ["configure"; "get"] then third awsSecretConfigKey operands else None) with
  | Some key => "aws configure get " +:+ key
  | None =>
      if starts ["configure"; "export-credentials"] then "aws configure export-credentials"
      else if existsb (fun verb => starts ["sts"; verb]) ["get-session-token"; "get-federation-token"; "assume-role";
                "assume-role-with-web-identity"; "assume-role-with-saml"] then "aws sts " +:+ second
      else if starts ["ecr"; "get-login-password"] || starts ["ecr-public"; "get-login-password"] ||
              starts ["ecr"; "get-authorization-token"] || starts ["codeartifact"; "get-authorization-token"]
      then "aws " +:+ nth 0 operands "" +:+ " " +:+ second
      else if starts ["secretsmanager"; "get-secret-value"] then "aws secretsmanager get-secret-value"
      else if (starts ["ssm"; "get-parameter"] || starts ["ssm"; "get-parameters"]) && hasFlag argv ["--with-decryption"]
      then "aws ssm " +:+ second +:+ " --with-decryption"
      else ""
  end.

Definition gcloud_printer (operands : list string) : string :=
  let starts := operandsStartWith operands in
  if starts ["auth"; "print-access-token"] || starts ["auth"; "print-identity-token"]
  then "gcloud auth " +:+ nth 1 operands ""
  else if starts ["auth"; "application-default"; "print-access-token"]
  then "gcloud auth application-default print-access-token"
  else if starts ["config"; "config-helper"] then "gcloud config config-helper"
  else if starts ["secrets"; "versions"; "access"] then "gcloud secrets versions access"
  else "".

Definition vault_printer (operands : list string) : string :=
  let starts := operandsStartWith operands in
  if starts ["kv"; "get"] then "vault kv get"
  else if starts ["read"] then "vault read"
  else if starts ["print"; "token"] then "vault print token"
  else if starts ["token"; "create"] then "vault token create"
  else "".

(** The case of the command; an empty answer goes on to the helpers. *)
Definition command_printer (command : string) (argv operands : list string) : string :=
  let starts := operandsStartWith operands in
  if command =s? "gh" then gh_printer argv operands
  else if command =s? "glab" then
    if starts ["auth"; "status"] && hasFlag argv ["-t"; "--show-token"] then "glab auth status --show-token" else ""
  else if command =s? "git" then git_printer argv
  else if command =s? "security" then security_printer argv operands
  else if command =s? "secret-tool" then
    if starts ["lookup"] || starts ["search"] then "secret-tool " +:+ nth 0 operands "" else ""
  else if command =s? "az" then
    if starts ["account"; "get-access-token"] then "az account get-access-token"
    else if starts ["acr"; "login"] && hasFlag argv ["--expose-token"] then "az acr login --expose-token" else ""
  else if command =s? "aws" then aws_printer argv operands
  else if command =s? "gcloud" then gcloud_printer operands
  else if command =s? "kubectl" then
    if starts ["config"; "view"] && hasFlag argv ["--raw"] then "kubectl config view --raw"
    else if starts ["create"; "token"] then "kubectl create token" else ""
  else if in_list command ["npm"; "pnpm"; "yarn"] then
    match (if starts ["config"; "get"] then third npmAuthConfigKey operands else None) with
    | Some key => command +:+ " config get " +:+ key
    | None => ""
    end
  else if command =s? "op" then
    if starts ["read"] then "op read"
    else if starts ["item"; "get"] && hasFlag argv ["--reveal"] then "op item get --reveal" else ""
  else if command =s? "vault" then vault_printer operands
  else if command =s? "heroku" then if starts ["auth:token"] then "heroku auth:token" else ""
  else if in_list command ["fly"; "flyctl"] then if starts ["auth"; "token"] then command +:+ " auth token" else ""
  else if in_list command ["pass"; "gopass"] then if starts ["show"] then command +:+ " show" else ""
  else if command =s? "get-secret" then
    if hasFlag argv ["-asplaintext"] then "Get-Secret -AsPlainText" else ""
  else if command =s? "convertfrom-securestring" then
    if hasFlag argv ["-asplaintext"] then "ConvertFrom-SecureString -AsPlainText" else ""
  else "".

(** The helpers of docker and git, under whatever name. *)
Definition helper_printer (command : string) (operands : list string) : string :=
  let op := ToLower (nth 0 operands "") in
  if HasPrefix command "docker-credential-" && in_list op ["get"; "list"] then command +:+ " " +:+ op
  else if HasPrefix command "git-credential-" && operandsStartWith operands ["get"] then command +:+ " get"
  else "".

Definition credentialPrinter (argv : list string) : string :=
  let command := head argv in
  let operands := credentialOperands argv in
  let what := command_printer command argv operands in
  if what <>s? "" then what else helper_printer command operands.

Definition secretVariableName (name : string) : bool :=
  names_any (ToUpper name) ["TOKEN"; "SECRET"; "PASSWORD"; "PASSWD"; "API_KEY"; "PRIVATE_KEY"; "CREDENTIAL"].

(** [strings.Trim] of both slashes. *)
Definition is_slash (c : ascii) : bool := Ascii.eqb c "\" || Ascii.eqb c "/".

Fixpoint trim_slashes_left (s : string) : string :=
  match s with String c t => if is_slash c then trim_slashes_left t else s | EmptyString => EmptyString end.

Definition trim_slashes (s : string) : string := TrimRightByte is_slash (trim_slashes_left s).

(** An argument that names the [env:] drive, all of it or a secret in it. *)
Definition dumps_environment (arg : string) : bool :=
  let value := let '(name, inline, found) := Cut arg ":" in if found && HasPrefix name "-" then inline else arg in
  if negb (HasPrefix (ToLower value) "env:") then false
  else
    let name := trim_slashes (sdrop 4 value) in
    (name =s? "") || ContainsAny name "*?[" || secretVariableName name.

Definition environmentDump (argv : list string) : string :=
  let command := head argv in
  if command =s? "env" then match consumeEnv (tail argv) with Ok [] => "env" | _ => "" end
  else if command =s? "printenv" then
    match nonFlagArgs argv with
    | [] => "printenv"
    | names => match List.find secretVariableName names with Some name => "printenv " +:+ name | None => "" end
    end
  else if command =s? "set" then if (length argv =? 1)%nat then "set" else ""
  else if in_list command ["get-childitem"; "gci"; "dir"; "ls"; "get-item"; "gi"; "get-content"; "gc"; "cat"; "type";
                           "get-itemproperty"; "gp"] then
    match List.find dumps_environment (tail argv) with
    | Some arg => nth 0 argv "" +:+ " " +:+ arg
    | None => ""
    end
  else "".

(** [\$\{?(?i:env:)?([A-Za-z_][A-Za-z0-9_]* )] behind its dollar sign: the name, what
    matched and what follows. *)
Definition name_start (c : ascii) : bool := is_letter c || Ascii.eqb c "_".

Fixpoint span_name (s : string) : string * string :=
  match s with
  | String c t => if name_start c || is_digit c then let '(n, r) := span_name t in (String c n, r) else ("", s)
  | EmptyString => ("", "")
  end.

Definition identifier (s : string) : option (string * string) :=
  match s with
  | String c _ => if name_start c then Some (span_name s) else None
  | EmptyString => None
  end.

Definition scoped_name (s : string) : option (string * string * string) :=
  let plain := match identifier s with Some (n, r) => Some (n, n, r) | None => None end in
  if ToLower (stake 4 s) =s? "env:" then
    match identifier (sdrop 4 s) with
    | Some (n, r) => Some (n, stake 4 s +:+ n, r)
    | None => plain
    end
  else plain.

Definition reference_at (s : string) : option (string * string * string) :=
  match s with
  | String "{" t => match scoped_name t with Some (n, m, r) => Some (n, "${" +:+ m, r) | None => None end
  | _ => match scoped_name s with Some (n, m, r) => Some (n, "$" +:+ m, r) | None => None end
  end.

(** [FindAllStringSubmatch]: the names and texts of the references of a word. *)
Fixpoint references (fuel : nat) (s : string) : list (string * string) :=
  match fuel with
  | O => []
  | S fuel =>
      match s with
      | EmptyString => []
      | String c t =>
          if Ascii.eqb c "$" then
            match reference_at t with
            | Some (name, text, rest) => (name, text) :: references fuel rest
            | None => references fuel t
            end
          else references fuel t
      end
  end.

Definition variableReference (s : string) : list (string * string) := references (String.length s) s.

Definition echoCommands (command : string) : bool :=
  in_list command ["echo"; "printf"; "print"; "write-output"; "write"; "write-host"; "write-information"].

(** The word at an index is text the analysis knows. *)
Definition known_word (s : Simple) (index : nat) : bool :=
  bool_decide (index ∈ s_literalArgs s) || bool_decide (index ∈ s_resolvedArgs s).

Fixpoint echoed_secret (s : Simple) (index : nat) (args : list string) : string :=
  match args with
  | [] => ""
  | arg :: rest =>
      match (if known_word s index then None
             else List.find (fun r => secretVariableName r.1) (variableReference arg)) with
      | Some (_, text) => nth 0 (s_Argv s) "" +:+ " " +:+ text
      | None => echoed_secret s (S index) rest
      end
  end.

Definition secretVariableEcho (s : Simple) : string :=
  match s_Argv s with
  | [] => ""
  | command :: args =>
      if known_word s 0 then ""
      else
        let named := match variableReference command with
                     | (name, _) :: _ => HasPrefix command "$" && secretVariableName name
                     | [] => false
                     end in
        if named then command
        else if echoCommands (head (s_Argv s)) then echoed_secret s 1 args else ""
  end.

Inductive exposureKind := exposureNone | exposureCredential | exposureEnvironment | exposureVariable.

Definition credentialExposure (s : Simple) : string * exposureKind :=
  match credentialedTarget (s_Argv s) with
  | [] => ("", exposureNone)
  | argv =>
      let what := credentialPrinter argv in
      if what <>s? "" then (what, exposureCredential)
      else let what := environmentDump argv in
      if what <>s? "" then (what, exposureEnvironment)
      else let what := secretVariableEcho s in
      if what <>s? "" then (what, exposureVariable) else ("", exposureNone)
  end.

(** [stdout_fate.go] *)
Definition discardTarget (target : string) : bool := (target =s? "/dev/null") || EqualFold target "nul".

Definition writesOutputFile (s : Simple) : bool := existsb (fun target => negb (discardTarget target)) (s_Redirects s).

Definition credentialPrintRule : string := "P4.credential-print".

Definition contained (s : Simple) : bool := match s_stdoutFate s with stdoutContained => true | _ => false end.

Definition checkCredentialPrint (s : Simple) : option Verdict :=
  let '(what, kind) := credentialExposure s in
  let quote := String "034" "" in
  match kind with
  | exposureNone => None
  | _ =>
      if contained s && negb (writesOutputFile s) then None
      else ask credentialPrintRule
        (match kind with
         | exposureEnvironment =>
             what +:+ " prints environment variables, secrets included, into the session, and everything a command prints is sent to the model provider. Read the one non-secret variable you need (printenv HOME), or hand a secret to the program that needs it without printing it: NAME=" +:+ quote +:+ "$NAME" +:+ quote +:+ " program."
         | exposureVariable =>
             what +:+ " prints a secret-looking variable into the session, and everything a command prints is sent to the model provider. Pass it to the program that needs it as an argument or environment value instead (program --token " +:+ quote +:+ "$NAME" +:+ quote +:+ "), or pipe it into a --password-stdin login."
         | _ =>
             what +:+ " prints a credential, and everything a command prints enters the session and is sent to the model provider. Hand the value straight to the command that needs it instead: NAME=$(" +:+ what +:+ ") program, program --token " +:+ quote +:+ "$(" +:+ what +:+ ")" +:+ quote +:+ ", or " +:+ what +:+ " | program --password-stdin. Not through echo, printf, cat, tee, a variable of its own, a file, or a pipe into anything but a credential consumer."
         end)
  end.

(** ** checkCredentialedCLI *)

Definition checkCredentialedCLI (s : Simple) : option Verdict :=
  match credentialedTarget (s_Argv s) with
  | [] => None
  | argv =>
      let command := head argv in
      let verb := credentialedVerb argv in
      let named := command +:+ " " +:+ verb in
      if credentialedDryRun argv then None
      else if publishVerbs command verb
      then ask "P6.publish" (named +:+ " publishes a package that consumers can pull and that cannot reliably be unpublished")
      else if registryPushVerbs command verb then ask "P6.publish" (named +:+ " publishes an image consumers pull by tag")
      else if (command =s? "docker") && (verb =s? "buildx") && hasBareFlag argv "--push"
      then ask "P6.publish" "docker buildx build --push publishes an image consumers pull by tag"
      else if clusterMutateVerbs command verb then
        if kubeContextIsLocal argv then None
        else ask "P6.cluster-mutate" (named +:+ " changes cluster state, and the context is not a local cluster")
      else if infraMutateVerbs command verb
      then ask "P6.cloud-mutate" (named +:+ " changes provisioned infrastructure and is metered")
      else if deployVerbs command verb then ask "P6.deploy" (named +:+ " puts a change in front of the public")
      else if command =s? "vercel" then
        if hasBareFlag argv "--prod" then ask "P6.deploy" "vercel --prod deploys to production" else None
      else if cloudCLIs command then
        if credentialPrinter argv <>s? "" then None
        else if (verb =s? "") || cloudReadVerbs verb || cloudReadOperation argv then None
        else ask "P6.cloud-mutate" (named +:+ " is not a known read operation on a metered cloud account")
      else None
  end.

(** ** Spellings the readers of flags miss *)

(** A dry run that is switched off counts as one; the value of a flag the table does
    not have is taken for the verb; and an operand that merely looks like a read
    makes a cloud command one. *)
Lemma credentialed_spellings_missed :
  map (fun argv => option_map v_Decision (checkCredentialedCLI (plain_simple argv "/w/repo")))
    [["kubectl"; "delete"; "pod"; "x"]; ["kubectl"; "delete"; "pod"; "x"; "--dry-run=none"];
     ["npm"; "publish"]; ["npm"; "publish"; "--dry-run=false"];
     ["helm"; "delete"; "x"]; ["helm"; "--kube-context"; "prod"; "delete"; "x"];
     ["aws"; "ec2"; "terminate-instances"; "--instance-ids"; "i-1"];
     ["aws"; "ec2"; "terminate-instances"; "--profile"; "get-x"; "--instance-ids"; "i-1"]] =
  [Some Ask; None; Some Ask; None; Some Ask; None; Some Ask; None].
Proof. vm_compute. reflexivity. Qed.
