(* ===== verification/DeleteRules.v ===== *)
(** * Deleting, writing and redirecting ([internal/engine/rules_bash.go]
    [checkRmRf], [isWorkingTreeDeletion], [checkDestinationWrites],
    [checkAskTier], [checkFindActions], [rsyncDeletionMode]; [checkCmdDelete] of
    [rules_cmd.go]; [checkPSRemoveItem] of [rules_powershell.go])

    Three shells spell a recursive delete; the rules of cmd and PowerShell rewrite
    theirs into the words of [rm] and hand them to one rule, which asks where the
    target stands. The theorems say that what it lets pass is confined to the
    repository and its authorized roots and is not the working tree. *)

From Stdlib Require Import ZArith Ascii String List Lia.
From stdpp Require Import base list strings gmap.
From S2P Require Import Prelude GoStrings GoPath Policy Argv Engine Simple GitRepo Wrappers NetRules Operands FindActions Containment WriteTargets PathRules CommandRules.
Open Scope go_scope.

(** A path of a command before its call's repository is known to the candidate. *)
Definition word_path (s : Simple) (tc : ToolCall) (path : string) (posix : bool) : pathCandidate :=
  {| pc_path := path; pc_cwd := simpleCwd s tc; pc_cwdUnknown := s_cwdUnknown s; pc_repoRoot := ""; pc_posix := posix |}.

Section DeleteRules.
Context (h : PathHost).
Context (literalText : string -> bool).

(** ** rm *)

(** [checkMatch]: the target is the reference or contains it, as written or as it
    resolves. *)
Definition deletes_reference (target : string) (physical : option string) (reference : string) : bool :=
  if reference =s? "" then false
  else
    match Abs (ph_git h) reference with
    | None => false
    | Some refAbs =>
        pr_equal (pathRelationBetween h target refAbs) || pr_within (pathRelationBetween h refAbs target) ||
        match physical, resolveExistingPath (ph_git h) refAbs "" with
        | Some physical, Some physRef =>
            pr_equal (pathRelationBetween h physical physRef) || pr_within (pathRelationBetween h physRef physical)
        | _, _ => false
        end
    end.

Definition isWorkingTreeDeletion (c : pathCandidate) (repoRoot sessionCWD : string) : bool :=
  if floating c (pc_path c) then false
  else
    match hostPathForCandidate c repoRoot with
    | None => false
    | Some path =>
        if (pc_cwd c =s? "") && negb (IsAbs path) then false
        else
          match Abs (ph_git h) (resolvePath path (pc_cwd c)) with
          | None => false
          | Some target =>
              let physical := resolveExistingPath (ph_git h) target "" in
              deletes_reference target physical sessionCWD || deletes_reference target physical repoRoot
          end
    end.

Definition rm_denied (what raw : string) : option Verdict :=
  deny "P1.rm-rf" ("recursive/forced rm of " +:+ what +:+ ": " +:+ raw).

(** The word an operand stands for; [None] leaves it to the rule on unresolved words. *)
Definition rm_target (s : Simple) (index : nat) (word : string) : option string :=
  if wordUnresolved literalText s index then s_globTailResolved s !! index else Some word.

(** One operand of rm. *)
Definition rm_operand (s : Simple) (tc : ToolCall) (pol : Policy) (raw : string) : option Verdict :=
  let c := word_path s tc raw true in
  if floating c raw then None
  else if negb (s_Unresolved s) && negb (s_findCallback s) && isWorkingTreeDeletion c (tc_RepoRoot tc) (tc_CWD tc)
  then rm_denied "working directory or repository root" raw
  else if fst (authorizedPath h c (tc_RepoRoot tc) (s_SafeRoots (p_Slots pol)) (strictWriteRoots h tc c) false) then None
  else rm_denied "a path outside the repo and configured safe roots" raw.

Fixpoint rm_operands (s : Simple) (tc : ToolCall) (pol : Policy) (index : nat) (args : list string) : option Verdict :=
  match args with
  | [] => None
  | arg :: rest =>
      let verdict := if HasPrefix arg "-" then None
                     else match rm_target s index arg with
                          | None => None
                          | Some raw => rm_operand s tc pol raw
                          end in
      match verdict with
      | Some v => Some v
      | None => rm_operands s tc pol (S index) rest
      end
  end.

Definition checkRmRf (s : Simple) (tc : ToolCall) (pol : Policy) : option Verdict :=
  if head (s_Argv s) <>s? "rm" then None
  else if negb (hasAnyFlag (s_Argv s) "rfR" ["--recursive"; "--force"]) then None
  else rm_operands s tc pol 1 (tail (s_Argv s)).

(** ** cmd and PowerShell *)

Definition cmdDeleteAliases (command : string) : bool := in_list command ["del"; "erase"; "rd"; "rmdir"].
Definition cmdDeleteSwitches : list string := ["s"; "q"; "f"; "a"; "p"].

Definition is_delete_switch (arg : string) : bool := match cmdSwitch arg cmdDeleteSwitches with Some _ => true | None => false end.

Definition switched (names : list string) (args : list string) : bool :=
  existsb (fun arg => match cmdSwitch arg cmdDeleteSwitches with Some name => in_list name names | None => false end) args.

Definition rm_flags (recursive force : bool) : string :=
  "-" +:+ (if recursive then "r" else "") +:+ (if force then "f" else "").

(** The command handed to the rule of rm. *)
Definition as_rm (s : Simple) (recursive force : bool) (operands : list string) : Simple :=
  commandDerivedFromAt s (["rm"; rm_flags recursive force] ++ operands) None.

Definition checkCmdDelete (s : Simple) (tc : ToolCall) (pol : Policy) : option Verdict :=
  if negb (cmdDeleteAliases (head (s_Argv s))) then None
  else
    let args := tail (s_Argv s) in
    let recursive := switched ["s"] args in
    let force := switched ["q"; "f"] args in
    let operands := List.filter (fun arg => negb (is_delete_switch arg)) args in
    if negb recursive && negb force then None
    else match operands with
         | [] => None
         | _ => checkRmRf (as_rm s recursive force operands) tc pol
         end.

Definition ps_has (b : psBinding) (name : string) : bool := in_list name (b_present b).

(** The operands of a filtered removal. *)
Fixpoint ps_filtered (s : Simple) (tc : ToolCall) (pol : Policy) (operands : list string) : option Verdict :=
  match operands with
  | [] => None
  | op :: rest =>
      let c := word_path s tc op false in
      if fst (authorizedPath h c (tc_RepoRoot tc) (s_SafeRoots (p_Slots pol)) (strictWriteRoots h tc c) false)
      then ps_filtered s tc pol rest
      else rm_denied "a path outside the repo and configured safe roots" op
  end.

Definition checkPSRemoveItem (s : Simple) (tc : ToolCall) (pol : Policy) : option Verdict :=
  let binding := bindPS (s_Argv s) removeItemParams in
  if (head (s_Argv s) =s? "rmdir") && negb (psCmdletShaped (s_Argv s) removeItemParams) then None
  else if ps_has binding "whatif" then None
  else if negb (ps_has binding "recurse") && negb (ps_has binding "force") then None
  else if existsb (ps_has binding) ["filter"; "exclude"; "include"; "stream"] then
    ps_filtered s tc pol (b_operands binding)
  else checkRmRf (as_rm s (ps_has binding "recurse") (ps_has binding "force") (b_operands binding)) tc pol.

Definition checkPowerShell (s : Simple) (tc : ToolCall) (pol : Policy) : option Verdict :=
  let command := head (s_Argv s) in
  if psDynamicEval command then
    ask "P6.dynamic-eval" (command +:+ " evaluates source at runtime, so the command that runs is not the command shown")
  else if in_list command ["powershell"; "pwsh"] && psEncodedCommand (s_Argv s) then
    ask "P6.dynamic-eval" (command +:+ " -EncodedCommand runs base64-encoded code, so the command that runs is not the command shown. Write it out with -Command so it can be evaluated")
  else if command =s? "set-executionpolicy" then checkPSExecutionPolicy s
  else if removeItemAliases command then checkPSRemoveItem s tc pol
  else None.

(** ** Destinations *)

Definition rsyncRemoteTarget (target : string) : bool :=
  if HasPrefix target "rsync://" then true
  else
    let hostPath := match AfterLast target "@" with Some rest => rest | None => target end in
    if HasPrefix hostPath "[" then Contains hostPath "]:"
    else
      let '(before, _, found) := Cut hostPath ":" in
      found && (before <>s? "") && negb (ContainsByte before slash).

Definition rsync_deletion (name : string) : bool :=
  in_list name ["del"; "delete"; "delete-before"; "delete-during"; "delete-delay"; "delete-after"; "delete-excluded";
                "delete-missing-args"].

(** The letters of a word of rsync: whether they take the next word; [None] is an
    option it does not know or a value that is missing. *)
Fixpoint rsync_short (short : string) (more : bool) : option bool :=
  match short with
  | EmptyString => Some false
  | String option after =>
      if ContainsByte (ds_shortValues rsyncSpec) option then
        if after <>s? "" then Some false else if more then Some true else None
      else if ContainsByte (ds_shortFlags rsyncSpec) option then rsync_short after more
      else None
  end.

(** Whether rsync deletes; [None] is an error. *)
Fixpoint rsync_mode (skip : bool) (args : list string) : option bool :=
  match args with
  | [] => Some false
  | arg :: rest =>
      let more := match rest with [] => false | _ => true end in
      if skip then rsync_mode false rest
      else if arg =s? "--" then Some false
      else if negb (is_cluster arg) then rsync_mode false rest
      else if HasPrefix arg "--" then
        let '(name, _, attached) := Cut (TrimPrefix arg "--") "=" in
        match resolveDestinationLongOption name rsyncSpec with
        | None => None
        | Some (resolved, kind) =>
            if rsync_deletion resolved then if attached then None else Some true
            else match kind with
                 | destinationValue | destinationWritePath =>
                     if attached then rsync_mode false rest else if more then rsync_mode true rest else None
                 | destinationFlag => if attached then None else rsync_mode false rest
                 | _ => rsync_mode false rest
                 end
        end
      else
        match rsync_short (TrimPrefix arg "-") more with
        | None => None
        | Some taken => rsync_mode taken rest
        end
  end.

Definition rsyncDeletionMode (argv : list string) : option bool := rsync_mode false (tail argv).

Definition out_of_repo (reason : string) : option Verdict := ask "P1.out-of-repo-write" reason.

(** Authorized with the temp directory. *)
Definition write_authorized (tc : ToolCall) (pol : Policy) (c : pathCandidate) : bool * bool :=
  authorizedPath h c (tc_RepoRoot tc) (s_SafeRoots (p_Slots pol)) [] true.

(** A source that [mv] takes away. *)
Definition move_source (s : Simple) (tc : ToolCall) (pol : Policy) (source : string) : option Verdict :=
  let c := word_path s tc source true in
  let '(authorized, lexical) := write_authorized tc pol c in
  if authorized then None
  else
    match hostPathForCandidate c (tc_RepoRoot tc) with
    | None => out_of_repo ("moves a source outside the repo and configured safe roots: " +:+ source)
    | Some hostSource =>
        if lexical || floating c hostSource
        then out_of_repo ("moves a source that resolves outside the repo and configured safe roots: " +:+ source)
        else match lexists h (resolvePath hostSource (simpleCwd s tc)) with
             | LNotExist => None
             | _ => out_of_repo ("moves a source outside the repo and configured safe roots: " +:+ source)
             end
    end.

Definition destination_target (s : Simple) (tc : ToolCall) (pol : Policy) (target : string) : option Verdict :=
  if (head (s_Argv s) =s? "rsync") && rsyncRemoteTarget target
  then out_of_repo ("writes to a remote destination outside configured safe roots: " +:+ target)
  else if fst (write_authorized tc pol (word_path s tc target true)) then None
  else out_of_repo ("writes to a path outside the repo and configured safe roots: " +:+ target).

Definition checkDestinationWrites (s : Simple) (tc : ToolCall) (pol : Policy) : option Verdict :=
  let argv := s_Argv s in
  let command := head argv in
  let writes :=
    if match mutatingDestinationCommands command with
       | Some spec => da_ambiguous (parseDestinationArgs argv spec)
       | None => false
       end
    then ask "P3.unresolved" (command +:+ " option parsing could not establish destination scope")
    else first_verdict ((if command =s? "mv" then map (move_source s tc pol) (moveSourceTargets argv) else []) ++
                        map (destination_target s tc pol) (writeTargets s)) in
  if in_list command ["mv"; "cp"; "ln"; "tee"; "install"; "unlink"] then writes
  else if command =s? "rsync" then
    match rsyncDeletionMode argv with
    | None => ask "P3.unresolved" "rsync option parsing could not establish deletion scope"
    | Some false => None
    | Some true => writes
    end
  else None.

(** ** find *)

Definition findRootOverlapsRepository (root : pathCandidate) (repoRoot : string) : bool :=
  if (repoRoot =s? "") || floating root (pc_path root) then false
  else
    let repo_candidate := {| pc_path := repoRoot; pc_cwd := ""; pc_cwdUnknown := false; pc_repoRoot := "";
                             pc_posix := false |} in
    let top (p : string) := IsAbs p && (Dir p =s? p) in
    existsb (fun c => existsb (fun r =>
      let c := ToLower (Clean c) in
      let r := ToLower (Clean r) in
      top c || top r || withinSafe c r [] || withinSafe r c []) (pathCandidateForms h repo_candidate))
      (pathCandidateForms h root).

Definition find_delete (reason : string) : option Verdict := ask "P1.find-delete" reason.

(** A deletion that is managed: exact, in place, outside the repository and in a
    temp root. *)
Definition managed_deletion (parsed : findActionParseResult) (s : Simple) (tc : ToolCall) (findFSExemption : bool)
    : option Verdict :=
  if negb (f_exactScopedDeletion parsed) then find_delete "find action is not an exact scoped deletion"
  else if s_fsUncertain s && negb findFSExemption
  then find_delete "find deletion scope may have changed before execution"
  else
    let root := f_scopedDeletionRoot parsed in
    let c := word_path s tc root true in
    if findRootOverlapsRepository c (tc_RepoRoot tc)
    then find_delete ("find deletion starts inside the repository: " +:+ root)
    else if fst (authorizedPath h c "" [] (systemTempRoots (ph_git h)) false) then None
    else find_delete ("find deletion starts outside configured safe roots: " +:+ root).

Definition find_output (s : Simple) (tc : ToolCall) (pol : Policy) (output : string) : option Verdict :=
  if fst (write_authorized tc pol (word_path s tc output true)) then None
  else out_of_repo ("writes to a path outside the repo and configured safe roots: " +:+ output).

Definition checkFindActions (parsed : findActionParseResult) (s : Simple) (tc : ToolCall) (pol : Policy)
    (findFSExemption : bool) : option Verdict :=
  match (if f_exactScopedDeletionManaged parsed then managed_deletion parsed s tc findFSExemption else None) with
  | Some v => Some v
  | None =>
      if f_uncertaintyReason parsed <>s? "" then find_delete (f_uncertaintyReason parsed)
      else first_verdict (map (find_output s tc pol) (f_outputs parsed))
  end.

(** ** The ask tier *)

Definition privilege_escalation (command : string) : bool :=
  in_list command ["sudo"; "su"; "doas"; "pkexec"; "run0"; "systemd-run"; "flatpak-spawn"; "toolbox";
                   "distrobox-host-exec"; "parallel"].

Definition redirect_target (s : Simple) (tc : ToolCall) (pol : Policy) (r : string) : option Verdict :=
  let c := word_path s tc r true in
  if pc_cwdUnknown c && negb (posixIsAbs r) then None
  else if posixStandardDevice r then None
  else if fst (authorizedPath h c (tc_RepoRoot tc) (s_SafeRoots (p_Slots pol)) (strictWriteRoots h tc c) false) then None
  else ask "P1.redirect" ("output redirection onto a path outside the repo/safe roots: " +:+ r).

Definition or_redirects (s : Simple) (tc : ToolCall) (pol : Policy) (v : option Verdict) : option Verdict :=
  match v with
  | Some v => Some v
  | None => first_verdict (map (redirect_target s tc pol) (s_Redirects s))
  end.

Definition checkAskTierWithFindFSExemption (s : Simple) (tc : ToolCall) (pol : Policy) (findFSExemption : bool)
    : option Verdict :=
  let argv := s_Argv s in
  let command := head argv in
  if privilege_escalation command
  then deny "P1.privesc" "privilege escalation removes every other guardrail's ground truth"
  else if command =s? "find" then checkFindActions (parseFindActions argv) s tc pol findFSExemption
  else or_redirects s tc pol
    (if command =s? "chmod" then
       if hasAnyFlag argv "R" ["--recursive"] then ask "P1.chmod" "recursive chmod"
       else if existsb (fun a => in_list a ["777"; "0777"]) (nonFlagArgs argv)
       then ask "P1.chmod" "chmod 777 widens permissions dangerously" else None
     else if command =s? "chown" then
       if hasAnyFlag argv "R" ["--recursive"] then ask "P1.chown" "recursive chown" else None
     else if command =s? "truncate" then ask "P1.truncate" "truncate destroys file contents with no diff"
     else if in_list command ["rmdir"; "rd"]
     then ask "P1.rmdir" "rmdir deletes directories without exact safe path semantics"
     else if command =s? "kill" then
       if hasAnyFlag argv "9" [] then ask "P1.kill" "kill -9 can corrupt the target process's state" else None
     else if in_list command ["killall"; "pkill"]
     then ask "P1.kill" "killall/pkill can terminate unrelated work"
     else None).

Definition checkAskTier (s : Simple) (tc : ToolCall) (pol : Policy) : option Verdict :=
  checkAskTierWithFindFSExemption s tc pol false.
End DeleteRules.
