(* ===== verification/Syntax.v ===== *)
(** * The syntax tree of a shell command

    The engine reads a command line with the parser of [mvdan.cc/sh/v3/syntax],
    which is not in this repository. This file declares the tree as far as the
    engine looks into it: a type per interface, a constructor per node, and the
    fields it reads. Nodes it only descends into ([ArithmExpr], [TestExpr]) are
    trees of words. A pointer to a statement is the statement's [st_id], and a
    position is a byte offset. The parser itself is a parameter of what uses it. *)

From Stdlib Require Import ZArith Lia Bool.
From S2P Require Import Prelude GoStrings.

Inductive RedirOperator :=
| RdrOut | AppOut | RdrIn | RdrInOut | DplIn | DplOut | ClbOut | Hdoc | DashHdoc | WordHdoc | RdrAll | AppAll.

Inductive BinCmdOperator := AndStmt | OrStmt | Pipe | PipeAll.
Inductive ProcOperator := CmdIn | CmdOut.
Inductive CaseOperator := Break | Fallthrough | Resume | ResumeKorn.

(** Of the operators of [${x op word}] the engine tells the two that may leave the
    word unread, and those that assign. *)
Inductive ParExpOperator := AssignUnset | AssignUnsetOrNull | OtherExpansion.

(** Where a statement is: the pointer to its node, and the bytes it spans. *)
Record StmtAt := { at_id : nat; at_Pos : nat; at_End : nat }.

(** A statement whose position does not matter. *)
Definition unplaced (id : nat) : StmtAt := {| at_id := id; at_Pos := 0; at_End := 0 |}.

#[global] Instance RedirOperator_eq_dec : EqDecision RedirOperator. Proof. solve_decision. Defined.
#[global] Instance BinCmdOperator_eq_dec : EqDecision BinCmdOperator. Proof. solve_decision. Defined.
#[global] Instance ProcOperator_eq_dec : EqDecision ProcOperator. Proof. solve_decision. Defined.
#[global] Instance CaseOperator_eq_dec : EqDecision CaseOperator. Proof. solve_decision. Defined.

Inductive WordPart :=
| Lit (value : string)
| SglQuoted (dollar : bool) (value : string)
| DblQuoted (dollar : bool) (parts : list WordPart)
| ParamExp (parameter : Parameter_)
| CmdSubst (offset : nat) (stmts : list Stmt)
| ArithmExp (x : Expr)
| ProcSubst (offset : nat) (op : ProcOperator) (stmts : list Stmt)
| ExtGlob (pattern : string)
with Parameter_ :=
| MkParameter (excl lengthOf width : bool) (param : string) (index : option Expr) (slice : option (list Expr))
    (repl : option (list Word)) (names : bool) (exp : option Expansion)
with Expansion :=
| MkExpansion (op : ParExpOperator) (word : option Word)
with Expr :=
| ExprWord (w : Word)
| ExprNode (operands : list Expr)
with Word :=
| MkWord (first last : nat) (parts : list WordPart)
with ArrayElem :=
| MkArrayElem (index : option Expr) (value : option Word)
with Assign :=
| MkAssign (naked append : bool) (name : option string) (index : option Expr) (value : option Word)
    (array : option (list ArrayElem))
with Redirect :=
| MkRedirect (op : RedirOperator) (n : option string) (word hdoc : option Word)
with Command :=
| CallExpr (assigns : list Assign) (args : list Word)
| IfCmd (clause : IfClause)
| WhileClause (until : bool) (cond body : list Stmt)
| ForClause (select : bool) (loop : Loop) (body : list Stmt)
| CaseClause (word : Word) (items : list CaseItem)
| Block (stmts : list Stmt)
| Subshell (stmts : list Stmt)
| BinaryCmd (op : BinCmdOperator) (x y : Stmt)
| FuncDecl (name : string) (body : Stmt)
| ArithmCmd (x : Expr)
| TestClause (x : Expr)
| DeclClause (variant : string) (args : list Assign)
| LetClause (exprs : list Expr)
| TimeClause (stmt : option Stmt)
| CoprocClause (stmt : option Stmt)
with IfClause :=
| MkIf (thenPos : bool) (cond body : list Stmt) (orelse : option IfClause)
with Loop :=
| WordIter (name : string) (inPos : bool) (items : list Word)
| CStyleLoop (init cond post : option Expr)
with CaseItem :=
| MkCaseItem (op : CaseOperator) (patterns : list Word) (stmts : list Stmt)
with Stmt :=
| MkStmt (loc : StmtAt) (cmd : option Command) (negated background coprocess semicolon : bool)
    (redirs : list Redirect).

Definition st_at (s : Stmt) : StmtAt := let 'MkStmt i _ _ _ _ _ _ := s in i.
Definition st_id (s : Stmt) : nat := at_id (st_at s).
Definition st_Pos (s : Stmt) : nat := at_Pos (st_at s).
Definition st_End (s : Stmt) : nat := at_End (st_at s).
Definition st_Cmd (s : Stmt) : option Command := let 'MkStmt _ c _ _ _ _ _ := s in c.
Definition st_Negated (s : Stmt) : bool := let 'MkStmt _ _ b _ _ _ _ := s in b.
Definition st_Background (s : Stmt) : bool := let 'MkStmt _ _ _ b _ _ _ := s in b.
Definition st_Coprocess (s : Stmt) : bool := let 'MkStmt _ _ _ _ b _ _ := s in b.
Definition st_Semicolon (s : Stmt) : bool := let 'MkStmt _ _ _ _ _ b _ := s in b.
Definition st_Redirs (s : Stmt) : list Redirect := let 'MkStmt _ _ _ _ _ _ l := s in l.

Definition w_Parts (w : Word) : list WordPart := let 'MkWord _ _ ps := w in ps.
Definition w_Pos (w : Word) : nat := let 'MkWord a _ _ := w in a.
Definition w_End (w : Word) : nat := let 'MkWord _ b _ := w in b.

Definition rd_Op (r : Redirect) : RedirOperator := let 'MkRedirect op _ _ _ := r in op.
Definition rd_N (r : Redirect) : option string := let 'MkRedirect _ n _ _ := r in n.
Definition rd_Word (r : Redirect) : option Word := let 'MkRedirect _ _ w _ := r in w.
Definition rd_Hdoc (r : Redirect) : option Word := let 'MkRedirect _ _ _ w := r in w.

Definition as_Name (a : Assign) : option string := let 'MkAssign _ _ n _ _ _ := a in n.
Definition as_Append (a : Assign) : bool := let 'MkAssign _ b _ _ _ _ := a in b.
Definition as_Index (a : Assign) : option Expr := let 'MkAssign _ _ _ i _ _ := a in i.
Definition as_Value (a : Assign) : option Word := let 'MkAssign _ _ _ _ v _ := a in v.
Definition as_Array (a : Assign) : option (list ArrayElem) := let 'MkAssign _ _ _ _ _ l := a in l.

Definition ci_Op (i : CaseItem) : CaseOperator := let 'MkCaseItem op _ _ := i in op.
Definition ci_Patterns (i : CaseItem) : list Word := let 'MkCaseItem _ ps _ := i in ps.
Definition ci_Stmts (i : CaseItem) : list Stmt := let 'MkCaseItem _ _ ss := i in ss.

(** [Word.Lit]: the word's text when it is literals only, otherwise nothing. *)
Fixpoint lit_parts (ps : list WordPart) : option string :=
  match ps with
  | [] => Some ""
  | Lit value :: rest => option_map (String.append value) (lit_parts rest)
  | _ => None
  end.

Definition word_Lit (w : Word) : string := default "" (lit_parts (w_Parts w)).

(** ** Static words ([staticWord], [staticWordParts]) *)

(** [QuoteMeta] of the parser's pattern package is a parameter. *)
Section Static.
Context (QuoteMeta : string -> string).

Definition quote_if (casePattern : bool) (s : string) : string := if casePattern then QuoteMeta s else s.

Fixpoint static_part (casePattern quoted first : bool) (part : WordPart) : option string :=
  match part with
  | Lit value => if negb casePattern && negb quoted && first && HasPrefix value "~" then None else Some value
  | SglQuoted dollar value => if dollar then None else Some (quote_if casePattern value)
  | DblQuoted _ parts =>
      option_map (quote_if casePattern)
        ((fix go (first : bool) (ps : list WordPart) : option string :=
            match ps with
            | [] => Some ""
            | p :: rest =>
                match static_part false true first p, go false rest with
                | Some a, Some b => Some (a +:+ b)
                | _, _ => None
                end
            end) true parts)
  | _ => None
  end.

Fixpoint staticWordParts (casePattern quoted first : bool) (ps : list WordPart) : option string :=
  match ps with
  | [] => Some ""
  | p :: rest =>
      match static_part casePattern quoted first p, staticWordParts casePattern quoted false rest with
      | Some a, Some b => Some (a +:+ b)
      | _, _ => None
      end
  end.

Definition staticWord (w : Word) (casePattern : bool) : option string :=
  staticWordParts casePattern false true (w_Parts w).
End Static.

(** ** Literal text ([literalText]) *)

(** A single or double quoted part counts with its text when nothing expands in it. *)
Fixpoint literal_parts (ps : list WordPart) : option string :=
  match ps with
  | [] => Some ""
  | p :: rest =>
      let text := match p with
                  | Lit value => Some value
                  | SglQuoted _ value => Some value
                  | DblQuoted _ parts => lit_parts parts
                  | _ => None
                  end in
      match text, literal_parts rest with
      | Some a, Some b => Some (a +:+ b)
      | _, _ => None
      end
  end.

Section Parsed.
(** [syntax.NewParser().Parse]: the statements of a source, or an error. *)
Context (Parse : string -> option (list Stmt)).

Definition literalText (tok : string) : option string :=
  match Parse (": " +:+ tok) with
  | Some [stmt] =>
      match st_Cmd stmt with
      | Some (CallExpr _ [_; word]) => literal_parts (w_Parts word)
      | _ => None
      end
  | _ => None
  end.
End Parsed.

(** The text of a word in its source. *)
Definition word_text (src : string) (w : Word) : string := stake (w_End w - w_Pos w) (sdrop (w_Pos w) src).

Definition is_pipe (op : BinCmdOperator) : bool := match op with Pipe | PipeAll => true | _ => false end.

(** ** What a walk over the tree visits ([syntax.Walk]) *)

(** The nodes of the kinds the engine looks for, in the order the walk visits them: a
    node first, then its parts. *)
Inductive visited := VStmt (s : Stmt) | VCall (assigns : list Assign) (args : list Word) | VFunc (name : string) | VLoop.

Section Visits.
(** Whether the walk goes into a statement. *)
Context (enter : Stmt -> bool).
#[local] Notation opt f o := (match o with Some a => f a | None => [] end).

Fixpoint stmt_visits (s : Stmt) : list visited :=
  VStmt s ::
  match s with
  | MkStmt _ cmd _ _ _ _ redirs => if enter s then opt command_visits cmd ++ flat_map redirect_visits redirs else []
  end
with command_visits (c : Command) : list visited :=
  match c with
  | CallExpr assigns args => VCall assigns args :: flat_map assign_visits assigns ++ flat_map word_visits args
  | IfCmd clause => if_visits clause
  | WhileClause _ cond body => VLoop :: flat_map stmt_visits cond ++ flat_map stmt_visits body
  | ForClause _ loop body => VLoop :: loop_visits loop ++ flat_map stmt_visits body
  | CaseClause word items => word_visits word ++ flat_map item_visits items
  | Block stmts | Subshell stmts => flat_map stmt_visits stmts
  | BinaryCmd _ x y => stmt_visits x ++ stmt_visits y
  | FuncDecl name body => VFunc name :: stmt_visits body
  | ArithmCmd x | TestClause x => expr_visits x
  | DeclClause _ args => flat_map assign_visits args
  | LetClause exprs => flat_map expr_visits exprs
  | TimeClause stmt | CoprocClause stmt => opt stmt_visits stmt
  end
with if_visits (c : IfClause) : list visited :=
  match c with MkIf _ cond body orelse => flat_map stmt_visits cond ++ flat_map stmt_visits body ++ opt if_visits orelse end
with loop_visits (l : Loop) : list visited :=
  match l with
  | WordIter _ _ items => flat_map word_visits items
  | CStyleLoop init cond post => opt expr_visits init ++ opt expr_visits cond ++ opt expr_visits post
  end
with item_visits (i : CaseItem) : list visited :=
  match i with MkCaseItem _ patterns stmts => flat_map word_visits patterns ++ flat_map stmt_visits stmts end
with redirect_visits (r : Redirect) : list visited :=
  match r with MkRedirect _ _ word hdoc => opt word_visits word ++ opt word_visits hdoc end
with assign_visits (a : Assign) : list visited :=
  match a with
  | MkAssign _ _ _ index value array =>
      opt word_visits value ++ opt expr_visits index ++ opt (flat_map elem_visits) array
  end
with elem_visits (e : ArrayElem) : list visited :=
  match e with MkArrayElem index value => opt expr_visits index ++ opt word_visits value end
with word_visits (w : Word) : list visited :=
  match w with MkWord _ _ parts => flat_map part_visits parts end
with part_visits (p : WordPart) : list visited :=
  match p with
  | DblQuoted _ parts => flat_map part_visits parts
  | ParamExp p => parameter_visits p
  | CmdSubst _ stmts | ProcSubst _ _ stmts => flat_map stmt_visits stmts
  | ArithmExp x => expr_visits x
  | Lit _ | SglQuoted _ _ | ExtGlob _ => []
  end
with parameter_visits (p : Parameter_) : list visited :=
  match p with
  | MkParameter _ _ _ _ index slice repl _ exp =>
      opt expr_visits index ++ opt (flat_map expr_visits) slice ++ opt (flat_map word_visits) repl ++ opt expansion_visits exp
  end
with expansion_visits (e : Expansion) : list visited :=
  match e with MkExpansion _ word => opt word_visits word end
with expr_visits (x : Expr) : list visited :=
  match x with
  | ExprWord w => word_visits w
  | ExprNode operands => flat_map expr_visits operands
  end.
End Visits.

(** The walk over a whole file. *)
Definition file_visits (stmts : list Stmt) : list visited := flat_map (stmt_visits (fun _ => true)) stmts.

Definition visited_call (v : visited) : option (list Word) := match v with VCall _ args => Some args | _ => None end.

(** Every call of a file, its words. *)
Definition file_calls (stmts : list Stmt) : list (list Word) := omap visited_call (file_visits stmts).
