(* ===== verification/StdoutFate.v ===== *)
(** * Where a command's output goes ([internal/engine/stdout_fate.go])

    A walk over the syntax tree gives every statement it can follow a fate: its output
    reaches the session, is contained, or is exposed. The rule on printed credentials
    lets pass only what is contained. The walk keeps its answers in a map that it
    reads back at pipes; the theorems say that what it records follows rules that
    mention no map and no order. *)

From Stdlib Require Import ZArith Ascii String List Lia.
From stdpp Require Import base list strings gmap.
From S2P Require Import Prelude GoStrings GoPath Policy Argv Engine Simple Wrappers CommandRules CredentialRules Syntax.
Open Scope go_scope.

(** ** Consumers *)

Definition xargsEchoes (options : list string) : bool := existsb (fun o => in_list o ["-t"; "-p"]) options.

(** One wrapper taken off: what is left, or the answer. *)
Inductive unwrapping := Unwrapped (argv : option (list string)) | Again (rest : list string).

Definition again (r : parsed (list string)) : unwrapping :=
  match r with Ok rest => Again rest | Err _ => Unwrapped None end.

Definition unwrap_one (argv : list string) : unwrapping :=
  let command := head argv in
  let args := tail argv in
  if command =s? "env" then
    match consumeEnv args with Ok [] => Unwrapped (Some argv) | r => again r end
  else if command =s? "timeout" then again (consumeTimeout args)
  else if command =s? "nice" then again (consumeNice args)
  else if command =s? "setsid" then again (consumeSetsid args)
  else if command =s? "stdbuf" then again (consumeStdbuf args)
  else if command =s? "nohup" then again (consumeNoFlags "nohup" args)
  else if command =s? "exec" then again (consumeExec args)
  else if command =s? "builtin" then again (consumeBuiltin args)
  else if command =s? "command" then
    match consumeCommand args with
    | Ok None => Unwrapped (Some ["echo"])
    | Ok (Some rest) => Again rest
    | Err _ => Unwrapped None
    end
  else if command =s? "time" then Again args
  else if command =s? "xargs" then
    match consumeXargs args with
    | Ok rest =>
        if (length rest =? 0)%nat || xargsEchoes (take (length args - length rest) args) then Unwrapped (Some ["echo"])
        else Again rest
    | Err _ => Unwrapped None
    end
  else Unwrapped (Some argv).

(** Each turn leaves fewer words, so a turn per word is enough. *)
Fixpoint unwrap_loop (fuel : nat) (argv : list string) : option (list string) :=
  match fuel, argv with
  | _, [] => Some []
  | O, _ => Some argv
  | S fuel, _ => match unwrap_one argv with Unwrapped r => r | Again rest => unwrap_loop fuel rest end
  end.

Definition unwrapConsumer (argv : list string) : option (list string) := unwrap_loop (length argv) argv.

Definition printingCommands (command : string) : bool :=
  in_list command ["echo"; "printf"; "print"; "printenv"; "env"; "cat"; "tee"; "type"; "more"; "less"; "head"; "tail";
    "logger"; "write-output"; "write"; "write-host"; "write-error"; "write-warning"; "write-verbose"; "write-debug";
    "write-information"; "out-host"; "out-default"; "out-string"; "out-file"; "tee-object"; "set-content"; "add-content"].

Definition consumerPrints (argv : list string) : bool := (length argv =? 0)%nat || printingCommands (head argv).

Definition interpreterHeads (command : string) : bool :=
  in_list command ["bash"; "sh"; "zsh"; "dash"; "ksh"; "mksh"; "ash"; "fish"; "csh"; "tcsh"; "cmd"; "pwsh"; "powershell";
    "python"; "python3"; "py"; "node"; "deno"; "bun"; "perl"; "ruby"; "php"; "eval"; "source"; "."].

(** An argument by which the interpreter takes code. *)
Definition code_argument (command arg : string) : bool :=
  let lower := ToLower arg in
  if in_list command ["python"; "python3"; "py"] then lower =s? "-c"
  else if in_list command ["node"; "deno"; "bun"] then in_list lower ["-e"; "-p"; "--eval"; "--print"; "eval"]
  else if in_list command ["perl"; "ruby"] then HasPrefix arg "-" && negb (HasPrefix arg "--") && ContainsAny arg "eE"
  else if command =s? "php" then lower =s? "-r"
  else if in_list command ["pwsh"; "powershell"] then existsb (HasPrefix lower) ["-c"; "-e"; "/c"]
  else false.

Definition consumerRunsCode (argv : list string) : bool :=
  match shellDashC argv with
  | Ok None =>
      match cmdSlashC argv with
      | Some _ => true
      | None =>
          let command := head argv in
          in_list command ["eval"; "source"; "."] ||
          (interpreterHeads command && existsb (code_argument command) (tail argv))
      end
  | _ => true
  end.

Fixpoint xtrace_options (args : list string) : bool :=
  match args with
  | [] => false
  | arg :: rest =>
      if negb (HasPrefix arg "-") || HasPrefix arg "--" then false
      else if (arg =s? "-o") && match rest with next :: _ => next =s? "xtrace" | [] => false end then true
      else if ContainsByte arg "x" then true
      else if ContainsByte arg "c" then false
      else xtrace_options rest
  end.

Definition shellEnablesXtrace (argv : list string) : bool :=
  match shellOptions (head argv) with Some _ => xtrace_options (tail argv) | None => false end.

(** Slicing an empty vector panics: [argv[1:]] of no words. *)
Definition credentialStdinConsumer (argv : list string) : outcome bool :=
  match argv with
  | [] => Panics
  | _ :: rest =>
      Returns
        (if existsb (fun arg => in_list (before_equals arg) ["--password-stdin"; "--with-token"]) rest then true
         else match rest with
              | "secret" :: "set" :: args =>
                  (head argv =s? "gh") &&
                  negb (existsb (fun arg => in_list (before_equals arg) ["-b"; "--body"; "-f"; "--env-file"]) args)
              | _ => false
              end)
  end.

Definition passThroughFilters (command : string) : bool :=
  in_list command ["tr"; "cut"; "jq"; "base64"; "grep"; "sort"; "uniq"; "fold"; "rev"].

Definition isNullDiscard (target : string) : bool := EqualFold target "$null".

(** ** The walk *)

(** [map[*syntax.Stmt]stdoutFate] *)
Notation fates := (gmap nat stdoutFate).

(** The statement a pipe's right side starts with. *)
Fixpoint first_stage (s : Stmt) : Stmt :=
  match s with
  | MkStmt _ (Some (BinaryCmd op x _)) _ _ _ _ _ => if is_pipe op then first_stage x else s
  | _ => s
  end.

Section Walk.
Context (Parse : string -> option (list Stmt)) (src : string).

#[local] Notation raw := (word_text src).
#[local] Notation literal := (literalText Parse).

Definition redirect_fate (fate : stdoutFate) (r : Redirect) : stdoutFate :=
  match rd_Word r with
  | None => fate
  | Some word =>
      let stdout := match rd_N r with None => true | Some n => n =s? "1" end in
      let discards := match literal (raw word) with Some target => discardTarget target | None => false end ||
                      isNullDiscard (raw word) in
      match rd_Op r with
      | RdrOut | AppOut | ClbOut => if stdout && discards then stdoutContained else fate
      | RdrAll | AppAll => if discards then stdoutContained else fate
      | DplOut =>
          if negb stdout then fate
          else match literal (raw word) with
               | Some target => if target =s? "1" then fate else stdoutExposed
               | None => stdoutExposed
               end
      | _ => fate
      end
  end.

Definition redirectedFate (redirs : list Redirect) (fate : stdoutFate) : stdoutFate := foldl redirect_fate fate redirs.

(** [consumerArgv]; [None] is not known. *)
Fixpoint consumer_words (first : bool) (args : list Word) : option (list string) :=
  match args with
  | [] => Some []
  | word :: rest =>
      match literal (raw word) with
      | Some text => option_map (cons text) (consumer_words false rest)
      | None => if first then None else option_map (cons (raw word)) (consumer_words false rest)
      end
  end.

Definition consumerArgv (args : list Word) : option (list string) :=
  match consumer_words true args with Some argv => unwrapConsumer argv | None => None end.

(** The fates a call gives what is substituted into its arguments, its environment
    and its standard input. *)
Definition contained_unless (exposes : bool) : stdoutFate := if exposes then stdoutExposed else stdoutContained.

Definition consumer_fates (args : list Word) : stdoutFate * stdoutFate * stdoutFate :=
  match consumerArgv args, args with
  | Some consumer, _ :: _ =>
      (contained_unless (consumerPrints consumer || consumerRunsCode consumer),
       contained_unless (consumerPrints consumer || shellEnablesXtrace consumer),
       contained_unless (consumerPrints consumer || interpreterHeads (head consumer)))
  | _, _ => (stdoutExposed, stdoutExposed, stdoutExposed)
  end.

Definition literalWord (w : Word) : option string := staticWord (fun s => s) w false.

Definition pipedArgumentConsumer (args : list Word) (consumer : list string) : bool :=
  match args with
  | [] => false
  | word :: _ =>
      match literalWord word with
      | Some name => (head [name] =s? "xargs") && negb (consumerPrints consumer) && negb (consumerRunsCode consumer)
      | None => false
      end
  end.

(** A redirection that replaces the standard input of the stage. *)
Definition feeds_stdin (r : Redirect) : bool :=
  match rd_Op r with RdrIn | WordHdoc | Hdoc | DashHdoc => true | _ => false end.

Definition pipeFate (m : fates) (next : Stmt) : outcome stdoutFate :=
  let first := first_stage next in
  match st_Cmd first with
  | Some (CallExpr _ ((_ :: _) as args)) =>
      if existsb feeds_stdin (st_Redirs first) then Returns stdoutExposed
      else
        match consumerArgv args with
        | None => Returns stdoutExposed
        | Some consumer =>
            obind (credentialStdinConsumer consumer) (fun reads =>
              Returns (if reads then stdoutContained
                       else if pipedArgumentConsumer args consumer then stdoutContained
                       else if passThroughFilters (head consumer) then default stdoutRoot (m !! st_id first)
                       else stdoutExposed))
        end
  | _ => Returns stdoutExposed
  end.

(** The standard input that a redirection gives: [<(...)] alone, here-documents and
    here-strings take the fate of what a consumer reads. *)
Definition process_input (r : Redirect) : bool :=
  match rd_Op r, rd_Word r with
  | RdrIn, Some (MkWord _ _ [ProcSubst _ CmdIn _]) => true
  | _, _ => false
  end.

Definition redirect_role (stdinFate : stdoutFate) (r : Redirect) : stdoutFate :=
  match rd_Op r with
  | WordHdoc | Hdoc | DashHdoc => stdinFate
  | _ => if process_input r then stdinFate else stdoutExposed
  end.

(** One step of a loop whose body may panic. *)
#[local] Notation each f m l := (foldl (fun om a => obind om (f a)) (Returns m) l).
#[local] Notation maybe f m o := (match o with Some a => f a m | None => Returns m end).

Fixpoint fate_stmt (fate : stdoutFate) (s : Stmt) (m : fates) {struct s} : outcome fates :=
  match s with
  | MkStmt id cmd _ _ _ _ redirs =>
      let fate := redirectedFate redirs fate in
      let m := <[at_id id := fate]> m in
      match cmd with
      | Some (CallExpr assigns args) =>
          let '(argument, environment, stdin) := consumer_fates args in
          let environment := match args with [] => stdoutExposed | _ => environment end in
          obind (match args with
                 | [] => Returns m
                 | name :: rest => obind (subst_word stdoutExposed name m) (fun m => each (subst_word argument) m rest)
                 end) (fun m =>
          obind (each (subst_assign environment) m assigns) (fun m =>
          each (subst_redirect stdin) m redirs))
      | Some (BinaryCmd op x y) =>
          if is_pipe op then
            obind (fate_stmt fate y m) (fun m =>
            obind (pipeFate m y) (fun piped => fate_stmt piped x m))
          else obind (fate_stmt fate x m) (fate_stmt fate y)
      | Some (Block stmts) | Some (Subshell stmts) => each (fate_stmt fate) m stmts
      | Some (TimeClause stmt) => maybe (fate_stmt fate) m stmt
      | Some (IfCmd clause) => fate_if fate clause m
      | Some (WhileClause _ cond body) => obind (each (fate_stmt fate) m cond) (fun m => each (fate_stmt fate) m body)
      | Some (ForClause _ _ body) => each (fate_stmt fate) m body
      | Some (CaseClause _ items) => each (fate_item fate) m items
      | _ => Returns m
      end
  end
with fate_if (fate : stdoutFate) (c : IfClause) (m : fates) {struct c} : outcome fates :=
  match c with
  | MkIf _ cond body orelse =>
      obind (each (fate_stmt fate) m cond) (fun m =>
      obind (each (fate_stmt fate) m body) (fun m => maybe (fate_if fate) m orelse))
  end
with fate_item (fate : stdoutFate) (i : CaseItem) (m : fates) {struct i} : outcome fates :=
  match i with MkCaseItem _ _ stmts => each (fate_stmt fate) m stmts end
with subst_assign (fate : stdoutFate) (a : Assign) (m : fates) {struct a} : outcome fates :=
  match a with
  | MkAssign _ _ _ _ value array =>
      obind (maybe (subst_word fate) m value) (fun m =>
        match array with Some elems => each subst_elem m elems | None => Returns m end)
  end
with subst_elem (e : ArrayElem) (m : fates) {struct e} : outcome fates :=
  match e with MkArrayElem _ value => maybe (subst_word stdoutExposed) m value end
with subst_redirect (stdin : stdoutFate) (r : Redirect) (m : fates) {struct r} : outcome fates :=
  match r with
  | MkRedirect (Hdoc | DashHdoc) _ _ hdoc => maybe (subst_word stdin) m hdoc
  | MkRedirect _ _ word _ => maybe (subst_word (redirect_role stdin r)) m word
  end
with subst_word (fate : stdoutFate) (w : Word) (m : fates) {struct w} : outcome fates :=
  match w with MkWord _ _ parts => each (subst_part fate) m parts end
with subst_part (fate : stdoutFate) (p : WordPart) (m : fates) {struct p} : outcome fates :=
  match p with
  | CmdSubst _ stmts => each (fate_stmt fate) m stmts
  | ProcSubst _ op stmts =>
      each (fate_stmt (match op with CmdOut => stdoutExposed | CmdIn => fate end)) m stmts
  | DblQuoted _ parts => each (subst_part fate) m parts
  | ParamExp p => subst_parameter fate p m
  | ArithmExp x => subst_expr fate x m
  | Lit _ | SglQuoted _ _ | ExtGlob _ => Returns m
  end
with subst_parameter (fate : stdoutFate) (p : Parameter_) (m : fates) {struct p} : outcome fates :=
  match p with
  | MkParameter _ _ _ _ index slice repl _ exp =>
      obind (maybe (subst_expr fate) m index) (fun m =>
      obind (match slice with Some xs => each (subst_expr fate) m xs | None => Returns m end) (fun m =>
      obind (match repl with Some ws => each (subst_word fate) m ws | None => Returns m end) (fun m =>
      maybe (subst_expansion fate) m exp)))
  end
with subst_expansion (fate : stdoutFate) (e : Expansion) (m : fates) {struct e} : outcome fates :=
  match e with MkExpansion _ word => maybe (subst_word fate) m word end
with subst_expr (fate : stdoutFate) (x : Expr) (m : fates) {struct x} : outcome fates :=
  match x with
  | ExprWord w => subst_word fate w m
  | ExprNode operands => each (subst_expr fate) m operands
  end.

(** A word that is not literal counts as no text. *)
Definition call_text (args : list Word) : list string := map (fun w => default "" (literal (raw w))) args.

Fixpoint sets_xtrace (args : list string) : bool :=
  match args with
  | [] => false
  | arg :: rest =>
      (arg =s? "-o") && match rest with next :: _ => next =s? "xtrace" | [] => false end ||
      HasPrefix arg "-" && negb (HasPrefix arg "--") && ContainsByte arg "x" || sets_xtrace rest
  end.

Definition sourceEnablesXtrace (stmts : list Stmt) : bool :=
  existsb (fun args => (head (call_text args) =s? "set") && sets_xtrace (tail (call_text args))) (file_calls stmts).

Definition exposed_by_xtrace (fate : stdoutFate) : stdoutFate :=
  match fate with stdoutContained => stdoutExposed | _ => fate end.

Definition stdoutFates (stmts : list Stmt) : outcome fates :=
  obind (each (fate_stmt stdoutRoot) ∅ stmts) (fun m =>
    Returns (if sourceEnablesXtrace stmts then exposed_by_xtrace <$> m else m)).
End Walk.

(** The commands of a [bash -c] body take the fate of the command that runs it. *)
Definition inherit_fate (outer : stdoutFate) (xtrace : bool) (fate : stdoutFate) : stdoutFate :=
  let fate := match fate with stdoutRoot => outer | _ => fate end in
  if xtrace then exposed_by_xtrace fate else fate.

Definition with_fate (fate : stdoutFate) (s : Simple) : Simple :=
  {| s_Argv := s_Argv s; s_Redirects := s_Redirects s; s_ReadRedirects := s_ReadRedirects s; s_Cwd := s_Cwd s;
     s_Unresolved := s_Unresolved s; s_findCallback := s_findCallback s; s_literalArgs := s_literalArgs s;
     s_literalOut := s_literalOut s; s_literalIn := s_literalIn s; s_resolvedArgs := s_resolvedArgs s;
     s_resolvedOut := s_resolvedOut s; s_resolvedIn := s_resolvedIn s; s_gitEnvironment := s_gitEnvironment s;
     s_goEnvironment := s_goEnvironment s; s_goBin := s_goBin s;
     s_gitEnvironmentUnknown := s_gitEnvironmentUnknown s; s_gitInitExpected := s_gitInitExpected s;
     s_fsUncertain := s_fsUncertain s; s_pipelines := s_pipelines s; s_cwdUnknown := s_cwdUnknown s;
     s_cwdOnlyUnresolved := s_cwdOnlyUnresolved s; s_plainCall := s_plainCall s;
     s_globTailResolved := s_globTailResolved s; s_stdoutFate := fate; s_stateFsUncertain := s_stateFsUncertain s |}.

Definition inheritStdoutFate (inner : list Simple) (outer : stdoutFate) (xtrace : bool) : list Simple :=
  map (fun s => with_fate (inherit_fate outer xtrace (s_stdoutFate s)) s) inner.

(** ** The rules of the walk, without a map *)

Inductive node :=
| NStmt (s : Stmt) | NIf (c : IfClause) | NItem (i : CaseItem) | NAssign (a : Assign) | NElem (e : ArrayElem)
| NRedirect (r : Redirect) | NWord (w : Word) | NPart (p : WordPart) | NParameter (p : Parameter_)
| NExpansion (e : Expansion) | NExpr (x : Expr).

Section Rules.
Context (Parse : string -> option (list Stmt)) (src : string).

(** The fate a statement has where its context has the given one. *)
Definition own_fate (s : Stmt) (context : stdoutFate) : stdoutFate := redirectedFate Parse src (st_Redirs s) context.

(** What a pipe's right side does with its input, but for filters. *)
Inductive pipe_role := PipeFate (fate : stdoutFate) | PipeFilter.

Definition pipe_rule (next : Stmt) : outcome pipe_role :=
  let first := first_stage next in
  match st_Cmd first with
  | Some (CallExpr _ ((_ :: _) as args)) =>
      if existsb feeds_stdin (st_Redirs first) then Returns (PipeFate stdoutExposed)
      else
        match consumerArgv Parse src args with
        | None => Returns (PipeFate stdoutExposed)
        | Some consumer =>
            obind (credentialStdinConsumer consumer) (fun reads =>
              Returns (if reads || pipedArgumentConsumer args consumer then PipeFate stdoutContained
                       else if passThroughFilters (head consumer) then PipeFilter else PipeFate stdoutExposed))
        end
  | _ => Returns (PipeFate stdoutExposed)
  end.

(** The parts of a compound command that print where it does. *)
Definition compound_part (cmd : Command) (n : node) : Prop :=
  match cmd with
  | BinaryCmd op x y => is_pipe op = false /\ (n = NStmt x \/ n = NStmt y)
  | Block ss | Subshell ss | ForClause _ _ ss => exists t, t ∈ ss /\ n = NStmt t
  | WhileClause _ cond body => exists t, t ∈ cond ++ body /\ n = NStmt t
  | TimeClause (Some t) => n = NStmt t
  | IfCmd clause => n = NIf clause
  | CaseClause _ items => exists t, t ∈ items /\ n = NItem t
  | _ => False
  end.

(** What a word or a part of one is made of. *)
Definition component (n m : node) : Prop :=
  match n with
  | NWord (MkWord _ _ ps) | NPart (DblQuoted _ ps) => exists p, p ∈ ps /\ m = NPart p
  | NPart (ParamExp p) => m = NParameter p
  | NPart (ArithmExp x) => m = NExpr x
  | NParameter (MkParameter _ _ _ _ index slice repl _ exp) =>
      (exists x, index = Some x /\ m = NExpr x) \/ (exists xs x, slice = Some xs /\ x ∈ xs /\ m = NExpr x) \/
      (exists ws w, repl = Some ws /\ w ∈ ws /\ m = NWord w) \/ (exists e, exp = Some e /\ m = NExpansion e)
  | NExpansion (MkExpansion _ (Some w)) | NExpr (ExprWord w) => m = NWord w
  | NExpr (ExprNode xs) => exists x, x ∈ xs /\ m = NExpr x
  | NAssign (MkAssign _ _ _ _ value array) =>
      (exists w, value = Some w /\ m = NWord w) \/ (exists es e, array = Some es /\ e ∈ es /\ m = NElem e)
  | _ => False
  end.

(** [flows f n g s]: where [n] stands in a context of fate [f], its statement [s]
    stands in one of fate [g]. *)
Inductive flows : stdoutFate -> node -> stdoutFate -> Stmt -> Prop :=
| flows_here f s : flows f (NStmt s) f s
(** A substituted command name is reported back by the shell. *)
| flows_name f i a b c d assigns name rest redirs g s :
    flows stdoutExposed (NWord name) g s ->
    flows f (NStmt (MkStmt i (Some (CallExpr assigns (name :: rest))) a b c d redirs)) g s
(** An argument is contained unless its command prints it or runs it as code. *)
| flows_argument f i a b c d assigns name rest redirs w g s :
    w ∈ rest -> flows (consumer_fates Parse src (name :: rest)).1.1 (NWord w) g s ->
    flows f (NStmt (MkStmt i (Some (CallExpr assigns (name :: rest))) a b c d redirs)) g s
(** So is an environment value of a command; a plain shell variable is exposed. *)
| flows_environment f i a b c d assigns args redirs v g s :
    v ∈ assigns ->
    flows (match args with [] => stdoutExposed | _ => (consumer_fates Parse src args).1.2 end) (NAssign v) g s ->
    flows f (NStmt (MkStmt i (Some (CallExpr assigns args)) a b c d redirs)) g s
| flows_redirect f i a b c d assigns args redirs r g s :
    r ∈ redirs -> flows (consumer_fates Parse src args).2 (NRedirect r) g s ->
    flows f (NStmt (MkStmt i (Some (CallExpr assigns args)) a b c d redirs)) g s
(** The right side of a pipe prints where the pipe does; the left side into it. *)
| flows_pipe_right f i a b c d redirs op x y g s :
    is_pipe op = true -> flows (redirectedFate Parse src redirs f) (NStmt y) g s ->
    flows f (NStmt (MkStmt i (Some (BinaryCmd op x y)) a b c d redirs)) g s
| flows_pipe_left f i a b c d redirs op x y fate g s :
    is_pipe op = true -> pipe_rule y = Returns (PipeFate fate) -> flows fate (NStmt x) g s ->
    flows f (NStmt (MkStmt i (Some (BinaryCmd op x y)) a b c d redirs)) g s
(** A filter hands its input on to where its own output goes. *)
| flows_filter f i a b c d redirs op x y f1 s1 g s :
    is_pipe op = true -> pipe_rule y = Returns PipeFilter ->
    flows (redirectedFate Parse src redirs f) (NStmt y) f1 s1 -> st_id s1 = st_id (first_stage y) ->
    flows (own_fate s1 f1) (NStmt x) g s ->
    flows f (NStmt (MkStmt i (Some (BinaryCmd op x y)) a b c d redirs)) g s
(** The parts of a compound command print where it does. *)
| flows_compound f i a b c d redirs cmd n g s :
    compound_part cmd n ->
    flows (redirectedFate Parse src redirs f) n g s ->
    flows f (NStmt (MkStmt i (Some cmd) a b c d redirs)) g s
| flows_if f pos cond body orelse n g s :
    (exists t, t ∈ cond ++ body /\ n = NStmt t) \/ (exists e, orelse = Some e /\ n = NIf e) ->
    flows f n g s -> flows f (NIf (MkIf pos cond body orelse)) g s
| flows_item f op patterns stmts t g s :
    t ∈ stmts -> flows f (NStmt t) g s -> flows f (NItem (MkCaseItem op patterns stmts)) g s
(** A command substitution is captured; [>(...)] is not. *)
| flows_substitution f offset stmts t g s :
    t ∈ stmts -> flows f (NStmt t) g s -> flows f (NPart (CmdSubst offset stmts)) g s
| flows_process f offset op stmts t g s :
    t ∈ stmts -> flows (match op with CmdOut => stdoutExposed | CmdIn => f end) (NStmt t) g s ->
    flows f (NPart (ProcSubst offset op stmts)) g s
(** What a word is made of stands where the word does, an array's values in the open. *)
| flows_redirected f r w g s :
    (match rd_Op r with Hdoc | DashHdoc => rd_Hdoc r | _ => rd_Word r end) = Some w ->
    flows (redirect_role f r) (NWord w) g s -> flows f (NRedirect r) g s
| flows_element f index w g s :
    flows stdoutExposed (NWord w) g s -> flows f (NElem (MkArrayElem index (Some w))) g s
| flows_part f n m g s :
    component n m ->
    flows f m g s -> flows f n g s.

(** What a walk adds to the map follows the rules, and it forgets no statement. *)
Definition sound_at (f : stdoutFate) (n : node) (m m' : fates) : Prop :=
  (forall id g, m' !! id = Some g ->
     m !! id = Some g \/ exists f1 s1, flows f n f1 s1 /\ st_id s1 = id /\ g = own_fate s1 f1) /\
  forall id, is_Some (m !! id) -> is_Some (m' !! id).

Lemma sound_refl f n m : sound_at f n m m.
Proof. split; [by left|done]. Qed.

Lemma sound_trans f n m1 m2 m3 : sound_at f n m1 m2 -> sound_at f n m2 m3 -> sound_at f n m1 m3.
Proof.
  intros [H1 D1] [H2 D2]. split; [|auto]. intros id g [Hg|Hg]%H2; [by apply H1|by right].
Qed.

Lemma sound_up f1 n1 f n m m' :
  (forall g s, flows f1 n1 g s -> flows f n g s) -> sound_at f1 n1 m m' -> sound_at f n m m'.
Proof. intros Hup [H D]. split; [|done]. intros id g [Hg|(g1 & s1 & Hf & Hs)]%H; [by left|right]. exists g1, s1. auto. Qed.

Lemma each_sound {A} (w : A -> fates -> outcome fates) l f n : forall m m',
  (forall a m m', a ∈ l -> w a m = Returns m' -> sound_at f n m m') ->
  foldl (fun om a => obind om (w a)) (Returns m) l = Returns m' -> sound_at f n m m'.
Proof.
  assert (Hpanic : forall l, foldl (fun om a => obind om (w a)) Panics l = Panics) by (induction l0; done).
  induction l as [|a l IH]; intros m m' Hw H; cbn in H; [injection H as <-; apply sound_refl|].
  destruct (w a m) as [m1|] eqn:E; [|by rewrite Hpanic in H].
  apply (sound_trans _ _ _ m1); [apply (Hw a); [by left|done]|].
  apply IH; [|done]. intros b m2 m3 Hb. apply Hw. by right.
Qed.

Lemma maybe_sound {A} (w : A -> fates -> outcome fates) o f n m m' :
  (forall a m', o = Some a -> w a m = Returns m' -> sound_at f n m m') ->
  match o with Some a => w a m | None => Returns m end = Returns m' -> sound_at f n m m'.
Proof. destruct o as [a|]; intros Hw H; [by apply (Hw a)|injection H as <-; apply sound_refl]. Qed.

Lemma obind_returns {A B} (c : outcome A) (k : A -> outcome B) b :
  obind c k = Returns b -> exists a, c = Returns a /\ k a = Returns b.
Proof. destruct c as [a|]; [by exists a|done]. Qed.

Lemma pipeFate_rule m y :
  pipeFate Parse src m y = obind (pipe_rule y) (fun r =>
    Returns (match r with PipeFate fate => fate | PipeFilter => default stdoutRoot (m !! st_id (first_stage y)) end)).
Proof.
  unfold pipeFate, pipe_rule. destruct (st_Cmd (first_stage y)) as [[assigns [|word args]| | | | | | | | | | | | | |]|]; try done.
  destruct (existsb _ _); [done|]. destruct (consumerArgv _ _ _) as [consumer|]; [|done].
  destruct (credentialStdinConsumer consumer) as [[|]|]; [done| |done]. cbn [obind orb].
  destruct (pipedArgumentConsumer (word :: args) consumer); [done|]. by destruct (passThroughFilters (head consumer)).
Qed.

(** Every element of a list, by a function on elements: transparent, for recursion
    through the lists of the tree. *)
Definition Forall_all {A} (P : A -> Prop) (f : forall a, P a) : forall l, Forall P l :=
  fix go l := match l with [] => Forall_nil_2 P | a :: l => Forall_cons_2 P a l (f a) (go l) end.

Definition option_all {A} (P : A -> Prop) (f : forall a, P a) (o : option A) : from_option P True o :=
  match o with Some a => f a | None => I end.

(** The walk of a node. *)
Definition walk_of (n : node) (f : stdoutFate) (m : fates) : outcome fates :=
  match n with
  | NStmt s => fate_stmt Parse src f s m
  | NIf c => fate_if Parse src f c m
  | NItem i => fate_item Parse src f i m
  | NAssign a => subst_assign Parse src f a m
  | NElem e => subst_elem Parse src e m
  | NRedirect r => subst_redirect Parse src f r m
  | NWord w => subst_word Parse src f w m
  | NPart p => subst_part Parse src f p m
  | NParameter p => subst_parameter Parse src f p m
  | NExpansion e => subst_expansion Parse src f e m
  | NExpr x => subst_expr Parse src f x m
  end.

Definition walk_sound (n : node) : Prop := forall f m m', walk_of n f m = Returns m' -> sound_at f n m m'.

(** The entry of the first stage of a statement that was walked. *)
Definition first_recorded (f : stdoutFate) (s : Stmt) (m : fates) : Prop :=
  exists f1 s1, flows f (NStmt s) f1 s1 /\ st_id s1 = st_id (first_stage s) /\
    m !! st_id (first_stage s) = Some (own_fate s1 f1).

(** The walk of a statement below its own entry. *)
Definition body_sound (s : Stmt) : Prop :=
  forall f m m', fate_stmt Parse src f s m = Returns m' ->
    sound_at f (NStmt s) (<[st_id s := own_fate s f]> m) m' /\ first_recorded f s m'.

Lemma body_walk s : body_sound s -> walk_sound (NStmt s).
Proof.
  intros H f m m' Hw. specialize (H f m m' Hw). destruct H as [[Hs Hd] _]. split.
  - intros id g [Hg|Hg]%Hs; [|by right]. rewrite lookup_insert_Some in Hg. destruct Hg as [[<- <-]|[_ Hg]]; [right|by left].
    exists f, s. split; [constructor|done].
  - intros id Hid. apply Hd. rewrite lookup_insert_is_Some. destruct (decide (st_id s = id)); [by left|by right].
Qed.

(** A statement that is no pipe is its own first stage. *)
Lemma own_recorded f s m m' :
  first_stage s = s -> sound_at f (NStmt s) (<[st_id s := own_fate s f]> m) m' -> first_recorded f s m'.
Proof.
  intros Hfirst [Hs Hd]. destruct (Hd (st_id s)) as [g Hg]; [rewrite lookup_insert; by destruct (decide _)|].
  unfold first_recorded. rewrite Hfirst. destruct (Hs _ _ Hg) as [Hin|(f1 & s1 & Hf & Hid & ->)].
  - rewrite lookup_insert_Some in Hin. destruct Hin as [[_ <-]|[Hne _]]; [|done]. exists f, s. split_and!; [constructor|done|done].
  - by exists f1, s1.
Qed.

Lemma forall_stmt_sound (l : list Stmt) : Forall body_sound l -> forall t, t ∈ l -> walk_sound (NStmt t).
Proof. intros H t Ht. apply body_walk. rewrite Forall_forall in H. by apply H. Qed.

Lemma compound_sound f i a b c d redirs cmd n m m' w :
  compound_part cmd n ->
  walk_sound n -> walk_of n (redirectedFate Parse src redirs f) m = w -> w = Returns m' ->
  sound_at f (NStmt (MkStmt i (Some cmd) a b c d redirs)) m m'.
Proof.
  intros Hc Hn <- Hw. apply (sound_up (redirectedFate Parse src redirs f) n); [|by apply Hn].
  intros g s. by apply flows_compound.
Qed.

Lemma component_sound f n k m m' : component n k -> walk_sound k -> walk_of k f m = Returns m' -> sound_at f n m m'.
Proof. intros Hc Hk Hw. apply (sound_up f k); [|by apply Hk]. intros g s. by apply flows_part. Qed.

(** The walks of a loop, each of a node that stands where [n] does. *)
Lemma each_component {A} (to : A -> node) l f n m m' :
  (forall a, a ∈ l -> component n (to a)) -> Forall (fun a => walk_sound (to a)) l ->
  foldl (fun om a => obind om (walk_of (to a) f)) (Returns m) l = Returns m' -> sound_at f n m m'.
Proof.
  intros Hc Hs H. rewrite Forall_forall in Hs. revert H. apply (each_sound (fun a => walk_of (to a) f)). intros a m1 m2 Ha Hw.
  apply (component_sound f n (to a)); auto.
Qed.

(** A statement that is no pipe: what its walk does below its entry. *)
Lemma leaf_sound i cmd a b c d redirs :
  first_stage (MkStmt i cmd a b c d redirs) = MkStmt i cmd a b c d redirs ->
  (forall f m m', fate_stmt Parse src f (MkStmt i cmd a b c d redirs) m = Returns m' ->
     sound_at f (NStmt (MkStmt i cmd a b c d redirs)) (<[at_id i := redirectedFate Parse src redirs f]> m) m') ->
  body_sound (MkStmt i cmd a b c d redirs).
Proof. intros Hf H f m m' Hw. pose proof (H f m m' Hw) as Hs. split; [exact Hs|]. by apply (own_recorded f _ m). Qed.

Lemma each_compound {A} f i a b c d redirs cmd (to : A -> node) l m m' :
  (forall x, x ∈ l -> compound_part cmd (to x)) -> (forall x, x ∈ l -> walk_sound (to x)) ->
  foldl (fun om x => obind om (walk_of (to x) (redirectedFate Parse src redirs f))) (Returns m) l = Returns m' ->
  sound_at f (NStmt (MkStmt i (Some cmd) a b c d redirs)) m m'.
Proof.
  intros Hc Hs. apply (each_sound (fun x => walk_of (to x) (redirectedFate Parse src redirs f))). intros x m1 m2 Hx Hw.
  apply (compound_sound f i a b c d redirs cmd (to x) m1 m2 _ (Hc x Hx) (Hs x Hx) eq_refl Hw).
Qed.

Lemma call_sound f i a b c d assigns args redirs m m' :
  Forall (fun v => walk_sound (NAssign v)) assigns -> Forall (fun w => walk_sound (NWord w)) args ->
  Forall (fun r => walk_sound (NRedirect r)) redirs ->
  fate_stmt Parse src f (MkStmt i (Some (CallExpr assigns args)) a b c d redirs) m = Returns m' ->
  sound_at f (NStmt (MkStmt i (Some (CallExpr assigns args)) a b c d redirs)) (<[at_id i := redirectedFate Parse src redirs f]> m) m'.
Proof.
  intros Ha Hw Hr H. rewrite Forall_forall in Ha. rewrite Forall_forall in Hr. cbn [fate_stmt] in H. set (m0 := <[at_id i := _]> m) in *. clearbody m0.
  destruct (consumer_fates Parse src args) as [[argument environment] stdin] eqn:Ec.
  apply obind_returns in H as (m1 & H1 & H). apply obind_returns in H as (m2 & H2 & H).
  apply (sound_trans _ _ _ m1); [|apply (sound_trans _ _ _ m2)].
  - destruct args as [|name rest]; [injection H1 as <-; apply sound_refl|].
    apply Forall_cons in Hw as [Hname Hrest]. rewrite Forall_forall in Hrest.
    apply obind_returns in H1 as (k & Hk & H1). apply (sound_trans _ _ _ k).
    + apply (sound_up stdoutExposed (NWord name)); [|by apply Hname]. intros g s. apply flows_name.
    + revert H1. apply each_sound. intros w k1 k2 Hin Hk2. apply (sound_up argument (NWord w)); [|by apply (Hrest w Hin)].
      intros g s. replace argument with (consumer_fates Parse src (name :: rest)).1.1 by (by rewrite Ec). by apply flows_argument.
  - revert H2. apply each_sound. intros v k1 k2 Hin Hk2. eapply (sound_up _ (NAssign v)); [|by apply (Ha v Hin)].
    intros g s Hf. apply (flows_environment _ _ _ _ _ _ _ _ _ v); [done|]. by destruct args; [|rewrite Ec].
  - revert H. apply each_sound. intros r k1 k2 Hin Hk2. apply (sound_up stdin (NRedirect r)); [|by apply (Hr r Hin)].
    intros g s. replace stdin with (consumer_fates Parse src args).2 by (by rewrite Ec). by apply flows_redirect.
Qed.

Lemma binary_sound i a b c d redirs op x y :
  body_sound x -> body_sound y -> body_sound (MkStmt i (Some (BinaryCmd op x y)) a b c d redirs).
Proof.
  intros Hx Hy. set (s := MkStmt i (Some (BinaryCmd op x y)) a b c d redirs).
  destruct (is_pipe op) eqn:Eop.
  - intros f m m' H. cbn [fate_stmt s] in H. rewrite Eop in H. change (st_id s) with (at_id i).
    change (own_fate s f) with (redirectedFate Parse src redirs f). set (m0 := <[at_id i := _]> m) in *. clearbody m0.
    apply obind_returns in H as (m1 & H1 & H). apply obind_returns in H as (piped & Hp & H).
    destruct (Hy _ _ _ H1) as [_ Hfirst]. pose proof (body_walk y Hy _ _ _ H1) as Hsy.
    destruct (Hx _ _ _ H) as [_ Hfx]. pose proof (body_walk x Hx _ _ _ H) as Hsx.
    assert (Hup : forall g t, flows piped (NStmt x) g t -> flows f (NStmt s) g t).
    { intros g t Hf. rewrite pipeFate_rule in Hp. apply obind_returns in Hp as ([fate|] & Hr & [= <-]).
      - by apply (flows_pipe_left _ _ _ _ _ _ _ _ _ _ fate).
      - destruct Hfirst as (f1 & s1 & Hf1 & Hid & Hm). rewrite Hm in Hf. cbn [default] in Hf.
        by apply (flows_filter _ _ _ _ _ _ _ _ _ _ f1 s1). }
    split.
    + apply (sound_trans _ _ _ m1); [|by apply (sound_up piped (NStmt x))].
      apply (sound_up (redirectedFate Parse src redirs f) (NStmt y)); [|done]. intros g t. by apply flows_pipe_right.
    + destruct Hfx as (f1 & s1 & Hf1 & Hid & Hm).
      assert (Hs : first_stage s = first_stage x) by (unfold s; cbn; by rewrite Eop).
      exists f1, s1. rewrite Hs. auto.
  - apply leaf_sound; [cbn; by rewrite Eop|]. intros f m m' H. cbn [fate_stmt] in H. rewrite Eop in H.
    apply obind_returns in H as (m1 & H1 & H). apply (sound_trans _ _ _ m1).
    + apply (compound_sound f i a b c d redirs (BinaryCmd op x y) (NStmt x) _ _ _ (conj Eop (or_introl eq_refl)) (body_walk x Hx) eq_refl H1).
    + apply (compound_sound f i a b c d redirs (BinaryCmd op x y) (NStmt y) _ _ _ (conj Eop (or_intror eq_refl)) (body_walk y Hy) eq_refl H).
Qed.

Lemma stmt_sound (s : Stmt) : body_sound s
with if_sound (c : IfClause) : walk_sound (NIf c)
with item_sound (i : CaseItem) : walk_sound (NItem i)
with assign_sound (a : Assign) : walk_sound (NAssign a)
with elem_sound (e : ArrayElem) : walk_sound (NElem e)
with redirect_sound (r : Redirect) : walk_sound (NRedirect r)
with word_sound (w : Word) : walk_sound (NWord w)
with part_sound (p : WordPart) : walk_sound (NPart p)
with parameter_sound (p : Parameter_) : walk_sound (NParameter p)
with expansion_sound (e : Expansion) : walk_sound (NExpansion e)
with expr_sound (x : Expr) : walk_sound (NExpr x).
Proof.
  - destruct s as [i cmd a b c d redirs].
    destruct cmd as [cmd|]; [|apply leaf_sound; [done|intros f m m' H; injection H as <-; apply sound_refl]].
    destruct cmd as [assigns args|clause|u cond body|sel loop body|word items|ss|ss|op x y|fn body|x|x|v args|xs|ts|ts];
      try (apply leaf_sound; [done|]; intros f m m' H; cbn [fate_stmt] in H); try (injection H as <-; apply sound_refl).
    + pose proof (Forall_all _ assign_sound assigns) as Ha. pose proof (Forall_all _ word_sound args) as Hw.
      pose proof (Forall_all _ redirect_sound redirs) as Hr. clear -Ha Hw Hr H. by apply (call_sound f i a b c d assigns args redirs).
    + pose proof (if_sound clause) as Hc. clear -Hc H. by apply (compound_sound f i a b c d redirs (IfCmd clause) (NIf clause) _ _ _ eq_refl Hc eq_refl H).
    + pose proof (forall_stmt_sound _ (Forall_all _ stmt_sound cond)) as H1.
      pose proof (forall_stmt_sound _ (Forall_all _ stmt_sound body)) as H2. clear -H1 H2 H.
      apply obind_returns in H as (m1 & Hm1 & H). apply (sound_trans _ _ _ m1).
      * revert Hm1. apply (each_compound f i a b c d redirs _ NStmt); [|done]. intros t Ht. exists t. split; [set_solver|done].
      * revert H. apply (each_compound f i a b c d redirs _ NStmt); [|done]. intros t Ht. exists t. split; [set_solver|done].
    + pose proof (forall_stmt_sound _ (Forall_all _ stmt_sound body)) as H1. clear -H1 H.
      revert H. apply (each_compound f i a b c d redirs _ NStmt); [|done]. intros t Ht. by exists t.
    + pose proof (proj1 (Forall_forall _ _) (Forall_all _ item_sound items)) as H1. clear -H1 H.
      revert H. apply (each_compound f i a b c d redirs _ NItem); [|done]. intros t Ht. by exists t.
    + pose proof (forall_stmt_sound _ (Forall_all _ stmt_sound ss)) as H1. clear -H1 H.
      revert H. apply (each_compound f i a b c d redirs _ NStmt); [|done]. intros t Ht. by exists t.
    + pose proof (forall_stmt_sound _ (Forall_all _ stmt_sound ss)) as H1. clear -H1 H.
      revert H. apply (each_compound f i a b c d redirs _ NStmt); [|done]. intros t Ht. by exists t.
    + pose proof (stmt_sound x) as Hx. pose proof (stmt_sound y) as Hy. clear -Hx Hy. by apply binary_sound.
    + pose proof (option_all _ stmt_sound ts) as Hs. clear -Hs H. revert H. apply maybe_sound. intros t k -> Hk.
      apply (compound_sound f i a b c d redirs (TimeClause (Some t)) (NStmt t) _ k _ eq_refl (body_walk _ Hs) eq_refl Hk).
  - destruct c as [pos cond body orelse]. intros f m m' H. cbn [walk_of fate_if] in H.
    pose proof (forall_stmt_sound _ (Forall_all _ stmt_sound (cond))) as Hcond.
    pose proof (forall_stmt_sound _ (Forall_all _ stmt_sound (body))) as Hbody.
    pose proof (option_all _ if_sound orelse) as Helse. clear -Hcond Hbody Helse H.
    apply obind_returns in H as (m1 & H1 & H). apply obind_returns in H as (m2 & H2 & H).
    apply (sound_trans _ _ _ m1); [|apply (sound_trans _ _ _ m2)].
    + revert H1. apply each_sound. intros t k k' Ht Hk. apply (sound_up f (NStmt t)); [|by apply (Hcond t Ht f)].
      intros g s. apply flows_if. left. exists t. split; [set_solver|done].
    + revert H2. apply each_sound. intros t k k' Ht Hk. apply (sound_up f (NStmt t)); [|by apply (Hbody t Ht f)].
      intros g s. apply flows_if. left. exists t. split; [set_solver|done].
    + revert H. apply maybe_sound. intros e k -> Hk. apply (sound_up f (NIf e)); [|by apply (Helse f)].
      intros g s. apply flows_if. right. by exists e.
  - destruct i as [op patterns stmts]. intros f m m' H. cbn [walk_of fate_item] in H.
    pose proof (forall_stmt_sound _ (Forall_all _ stmt_sound stmts)) as Hs. clear -Hs H.
    revert H. apply each_sound. intros t k k' Ht Hk. apply (sound_up f (NStmt t)); [|by apply (Hs t Ht f)].
    intros g s. by apply flows_item.
  - destruct a as [naked appended name index value array]. intros f m m' H. cbn [walk_of subst_assign] in H.
    pose proof (option_all _ word_sound value) as Hv.
    pose proof (option_all _ (Forall_all _ elem_sound) array) as Ha. clear -Hv Ha H.
    apply obind_returns in H as (m1 & H1 & H). apply (sound_trans _ _ _ m1).
    + revert H1. apply maybe_sound. intros w k -> Hk. apply (component_sound f _ (NWord w)); [left; by exists w|done|done].
    + destruct array as [es|]; [|injection H as <-; apply sound_refl]. revert H. cbn in Ha.
      apply (each_component NElem es f); [|done]. intros e He. right. by exists es, e.
  - destruct e as [index value]. intros f m m' H. cbn [walk_of subst_elem] in H.
    pose proof (option_all _ word_sound value) as Hv. clear -Hv H.
    revert H. apply maybe_sound. intros w k -> Hk. apply (sound_up stdoutExposed (NWord w)); [|by apply (Hv stdoutExposed)].
    intros g s. apply flows_element.
  - destruct r as [op n word hdoc]. intros f m m' H. cbn [walk_of] in H.
    pose proof (option_all _ word_sound word) as Hw. pose proof (option_all _ word_sound hdoc) as Hh. clear -Hw Hh H.
    assert (Hout : forall o, o = match op with Hdoc | DashHdoc => hdoc | _ => word end -> from_option (fun w => walk_sound (NWord w)) True o ->
      match o with Some w => subst_word Parse src (redirect_role f (MkRedirect op n word hdoc)) w m | None => Returns m end = Returns m' ->
      sound_at f (NRedirect (MkRedirect op n word hdoc)) m m').
    { intros o Ho Hs. apply maybe_sound. intros w k -> Hk.
      apply (sound_up (redirect_role f (MkRedirect op n word hdoc)) (NWord w)); [|by apply (Hs _ _ _ Hk)].
      intros g s. apply flows_redirected. by rewrite Ho; destruct op. }
    destruct op; cbn [subst_redirect] in H; first [by apply (Hout hdoc)|by apply (Hout word)].
  - destruct w as [p0 p1 ps]. intros f m m' H. cbn [walk_of subst_word] in H.
    pose proof (Forall_all _ part_sound ps) as Hps. clear -Hps H.
    revert H. apply (each_component NPart ps f); [|done]. intros p Hp. by exists p.
  - destruct p as [v|dl v|dl ps|pe|off ss|x|off op ss|pat]; intros f m m' H; cbn [walk_of subst_part] in H;
      try (injection H as <-; apply sound_refl).
    + pose proof (Forall_all _ part_sound ps) as Hps. clear -Hps H.
      revert H. apply (each_component NPart ps f); [|done]. intros p Hp. by exists p.
    + pose proof (parameter_sound pe) as Hp. clear -Hp H. by apply (component_sound f _ (NParameter pe)).
    + pose proof (forall_stmt_sound _ (Forall_all _ stmt_sound ss)) as Hs. clear -Hs H.
      revert H. apply each_sound. intros t k k' Ht Hk. apply (sound_up f (NStmt t)); [|by apply (Hs t Ht f)].
      intros g s. by apply flows_substitution.
    + pose proof (expr_sound x) as Hx. clear -Hx H. by apply (component_sound f _ (NExpr x)).
    + pose proof (forall_stmt_sound _ (Forall_all _ stmt_sound ss)) as Hs. clear -Hs H.
      revert H. apply each_sound. intros t k k' Ht Hk.
      apply (sound_up (match op with CmdOut => stdoutExposed | CmdIn => f end) (NStmt t)); [|by apply (Hs t Ht _)].
      intros g s. by apply flows_process.
  - destruct p as [excl len width param index slice repl names exp]. intros f m m' H. cbn [walk_of subst_parameter] in H.
    pose proof (option_all _ expr_sound index) as Hi. pose proof (option_all _ (Forall_all _ expr_sound) slice) as Hs.
    pose proof (option_all _ (Forall_all _ word_sound) repl) as Hr. pose proof (option_all _ expansion_sound exp) as He.
    clear -Hi Hs Hr He H.
    apply obind_returns in H as (m1 & H1 & H). apply obind_returns in H as (m2 & H2 & H). apply obind_returns in H as (m3 & H3 & H).
    apply (sound_trans _ _ _ m1); [|apply (sound_trans _ _ _ m2); [|apply (sound_trans _ _ _ m3)]].
    + revert H1. apply maybe_sound. intros x k -> Hk. apply (component_sound f _ (NExpr x)); [left; by exists x|done|done].
    + destruct slice as [xs|]; [|injection H2 as <-; apply sound_refl]. revert H2.
      apply (each_component NExpr xs f); [|done]. intros x Hx. right. left. by exists xs, x.
    + destruct repl as [ws|]; [|injection H3 as <-; apply sound_refl]. revert H3.
      apply (each_component NWord ws f); [|done]. intros w Hw. do 2 right. left. by exists ws, w.
    + revert H. apply maybe_sound. intros e k -> Hk. apply (component_sound f _ (NExpansion e)); [do 3 right; by exists e|done|done].
  - destruct e as [op word]. intros f m m' H. cbn [walk_of subst_expansion] in H.
    pose proof (option_all _ word_sound word) as Hw. clear -Hw H.
    revert H. apply maybe_sound. intros w k -> Hk. by apply (component_sound f _ (NWord w)).
  - destruct x as [w|xs]; intros f m m' H; cbn [walk_of subst_expr] in H.
    + pose proof (word_sound w) as Hw. clear -Hw H. by apply (component_sound f _ (NWord w)).
    + pose proof (Forall_all _ expr_sound xs) as Hx. clear -Hx H.
      revert H. apply (each_component NExpr xs f); [|done]. intros x Hxs. by exists x.
Qed.

(** The map the walk builds says what the rules say. Whatever order the walk
    takes and whatever it reads back at pipes, the fate it records for a statement is
    the one that [flows] gives some statement with that identity from the top of the
    source, where everything prints into the session; and a source that switches
    tracing on contains nothing. *)
Theorem fates_follow_rules stmts m id g :
  stdoutFates Parse src stmts = Returns m -> m !! id = Some g ->
  (sourceEnablesXtrace Parse src stmts = true -> g <> stdoutContained) /\
  exists s f1 s1, s ∈ stmts /\ flows stdoutRoot (NStmt s) f1 s1 /\ st_id s1 = id /\
    g = (if sourceEnablesXtrace Parse src stmts then exposed_by_xtrace (own_fate s1 f1) else own_fate s1 f1).
Proof.
  intros H Hg. unfold stdoutFates in H. apply obind_returns in H as (k & Hk & [= <-]).
  assert (Hwalk : forall l m0 k, foldl (fun om a => obind om (fate_stmt Parse src stdoutRoot a)) (Returns m0) l = Returns k ->
    forall g, k !! id = Some g -> m0 !! id = Some g \/
      exists s f1 s1, s ∈ l /\ flows stdoutRoot (NStmt s) f1 s1 /\ st_id s1 = id /\ g = own_fate s1 f1).
  { assert (Hpanic : forall l, foldl (fun om a => obind om (fate_stmt Parse src stdoutRoot a)) Panics l = Panics) by (induction l; done).
    induction l as [|a l IH]; intros m0 k0 Hl g0 Hg0; cbn in Hl; [injection Hl as <-; by left|].
    destruct (fate_stmt Parse src stdoutRoot a m0) as [m1|] eqn:E; [|by rewrite Hpanic in Hl].
    destruct (IH _ _ Hl _ Hg0) as [Hm|(s & f1 & s1 & Hs & Hr)]; [|right; exists s, f1, s1; split; [by right|done]].
    destruct (proj1 (body_walk a (stmt_sound a) _ _ _ E) _ _ Hm) as [Hm0|(f1 & s1 & Hr)]; [by left|].
    right. exists a, f1, s1. split; [by left|done]. }
  assert (Hfrom : forall g, k !! id = Some g -> exists s f1 s1, s ∈ stmts /\ flows stdoutRoot (NStmt s) f1 s1 /\
      st_id s1 = id /\ g = own_fate s1 f1).
  { intros g0 Hg0. by destruct (Hwalk _ _ _ Hk _ Hg0) as [He|He]. }
  destruct (sourceEnablesXtrace Parse src stmts).
  - rewrite lookup_fmap_Some in Hg. destruct Hg as (g0 & <- & Hg0). split; [intros _; by destruct g0|].
    destruct (Hfrom _ Hg0) as (s & f1 & s1 & Hs & Hf & Hid & ->). by exists s, f1, s1.
  - split; [done|]. apply (Hfrom _ Hg).
Qed.
End Rules.

(** ** Witnesses *)

(** A parser for literal words: it reads the one word behind the colon as it is,
    unless it has a dollar sign. *)
Definition demo_word_parse (text : string) : option (list Stmt) :=
  if ContainsByte text "$" then None
  else Some [MkStmt (unplaced 0) (Some (CallExpr [] [MkWord 0 0 [Lit ":"]; MkWord 0 0 [Lit (sdrop 2 text)]])) false false false false []].

(** The words of a source, at their positions. *)
Definition at_word (first last : nat) (text : string) : Word := MkWord first last [Lit text].
Definition call_stmt (id : nat) (args : list Word) : Stmt :=
  MkStmt (unplaced id) (Some (CallExpr [] args)) false false false false [].

(** [docker login -p $(gh auth token)] and [echo $(gh auth token)]. *)
Definition token_source : string := "docker login -p $(gh auth token)".
Definition token_call (name : Word) : Stmt :=
  call_stmt 1 [name; at_word 7 12 "login"; at_word 13 15 "-p";
    MkWord 16 32 [CmdSubst 16 [call_stmt 2 [at_word 18 20 "gh"; at_word 21 25 "auth"; at_word 26 31 "token"]]]].

Lemma fates_follow_rules_witness :
  (exists m, stdoutFates demo_word_parse token_source [token_call (at_word 0 6 "docker")] = Returns m /\
     m !! 2%nat = Some stdoutContained) /\
  exists f s, flows demo_word_parse token_source stdoutRoot (NStmt (token_call (at_word 0 6 "docker"))) f s /\ st_id s = 2%nat /\
    own_fate demo_word_parse token_source s f = stdoutContained.
Proof.
  destruct (stdoutFates demo_word_parse token_source [token_call (at_word 0 6 "docker")]) as [m|] eqn:E;
    [|vm_compute in E; discriminate].
  assert (Hm : m !! 2%nat = Some stdoutContained) by (vm_compute in E; injection E as <-; reflexivity).
  split; [by exists m|].
  destruct (fates_follow_rules demo_word_parse token_source [token_call (at_word 0 6 "docker")] m 2 stdoutContained E Hm)
    as [_ (s & f & s1 & Hs & Hf & Hid & Hg)].
  apply list_elem_of_singleton in Hs as ->. exists f, s1. split; [exact Hf|]. split; [exact Hid|].
  symmetry. exact Hg.
Defined.

(** The same substitution as an argument of [echo] is exposed. *)
Lemma echo_exposes :
  match stdoutFates demo_word_parse "echo   login -p $(gh auth token)" [token_call (at_word 0 4 "echo")] with
  | Returns m => m !! 2%nat
  | Panics => None
  end = Some stdoutExposed.
Proof. vm_compute. reflexivity. Qed.

(** A pipe into a wrapper that runs nothing makes the walk slice an empty vector and
    panic. The engine turns a panic into an ask ([Engine.Evaluate]), so the same line
    without the pipe may be denied and with it is only asked about. *)
Lemma bare_wrapper_panics :
  map (fun name =>
    match stdoutFates demo_word_parse ("rm -rf / | " +:+ name)
      [MkStmt (unplaced 0) (Some (BinaryCmd Pipe (call_stmt 1 [at_word 0 2 "rm"; at_word 3 6 "-rf"; at_word 7 8 "/"])
                         (call_stmt 2 [at_word 11 (11 + String.length name) name]))) false false false false []]
    with Returns _ => true | Panics => false end)
    ["cat"; "sh"; "env"; "xargs"; "nohup"; "setsid"; "nice"; "exec"; "builtin"] =
  [true; true; true; true; false; false; false; false; false].
Proof. vm_compute. reflexivity. Qed.
