(* ===== verification/Exemptions.v ===== *)
(** * Writes before a find that deletes ([internal/engine/rules_bash.go]
    [literalWriteFindExemptions] and the functions it calls)

    A [find -delete] whose file system may have changed is asked about, unless every
    statement before it is read literally off the syntax tree, creates or appends to
    files and stays inside the directory that find deletes. The theorems say that an
    exempted find has only such statements before it. *)

From Stdlib Require Import ZArith Ascii String List Lia.
From stdpp Require Import base list strings gmap.
From S2P Require Import Prelude GoStrings GoPath Policy Argv Engine Simple GitRepo Wrappers NetRules Operands FindActions Containment Syntax.
Open Scope go_scope.

(** ** Literal statements *)

(** [literalNF14Word]: a static word in which no unquoted part is a glob. A word
    that is no pattern is never quoted by [QuoteMeta]. *)
Definition literalNF14Word (w : Word) : option string :=
  match staticWord (fun s => s) w false with
  | None => None
  | Some value =>
      if existsb (fun part => match part with Lit v => ContainsAny v "*?[" | _ => false end) (w_Parts w) then None
      else Some value
  end.

Definition no_redirs (s : Stmt) : bool := match st_Redirs s with [] => true | _ => false end.

Fixpoint literalAndChain (allowTerminatingSemicolon : bool) (stmt : Stmt) : option (list Stmt) :=
  match stmt with
  | MkStmt _ cmd negated background coprocess semicolon redirs =>
      if negated || background || coprocess || (semicolon && negb allowTerminatingSemicolon) then None
      else
        match cmd with
        | Some (BinaryCmd op x y) =>
            if negb (bool_decide (op = AndStmt)) || negb (no_redirs stmt) then None
            else
              match literalAndChain false x, literalAndChain false y with
              | Some xs, Some ys => Some (xs ++ ys)
              | _, _ => None
              end
        | _ => Some [stmt]
        end
  end.

Fixpoint literalCommandList (stmts : list Stmt) : option (list Stmt) :=
  match stmts with
  | [] => Some []
  | stmt :: rest =>
      match rest with
      | _ :: _ => if negb (st_Semicolon stmt) then None
                  else match literalAndChain true stmt, literalCommandList rest with
                       | Some chain, Some more => Some (chain ++ more)
                       | _, _ => None
                       end
      | [] => literalAndChain true stmt
      end
  end.

Fixpoint all_some {A B} (f : A -> option B) (l : list A) : option (list B) :=
  match l with
  | [] => Some []
  | a :: rest => match f a, all_some f rest with Some b, Some bs => Some (b :: bs) | _, _ => None end
  end.

Definition literalDirectCall (stmt : Stmt) : option (list string) :=
  match st_Cmd stmt with
  | None => Some []
  | Some (CallExpr [] args) => all_some literalNF14Word args
  | Some _ => None
  end.

(** [literalOperands]: the operands of a command with at most one option, once. *)
Fixpoint literal_operands (short long : string) (optionSeen terminated : bool) (args : list string) : option (list string) :=
  match args with
  | [] => Some []
  | arg :: rest =>
      if negb terminated && (arg =s? "--") then literal_operands short long optionSeen true rest
      else if negb terminated && ((arg =s? short) && (short <>s? "") || (arg =s? long) && (long <>s? "")) then
        if optionSeen then None else literal_operands short long true terminated rest
      else if negb terminated && HasPrefix arg "-" then None
      else option_map (cons arg) (literal_operands short long optionSeen terminated rest)
  end.

Definition literalOperands (argv : list string) (short long : string) : option (list string) :=
  match literal_operands short long false false (tail argv) with
  | Some [] => None
  | r => r
  end.

Definition output_target (r : Redirect) : option string :=
  match rd_N r, rd_Op r, rd_Word r with
  | None, (RdrOut | AppOut), Some w => literalNF14Word w
  | _, _, _ => None
  end.

Definition literalOutputRedirectTargets (stmt : Stmt) : option (list string) :=
  if no_redirs stmt then None else all_some output_target (st_Redirs stmt).

Definition harmless_input (r : Redirect) : bool :=
  match rd_N r, rd_Op r, rd_Word r with
  | None, RdrIn, Some w => match literalNF14Word w with Some target => posixClean target =s? posixClean "/dev/null" | None => false end
  | _, _, _ => false
  end.

Definition literalHarmlessTeeInput (redirs : list Redirect) : bool := forallb harmless_input redirs.

Definition literalNonLinkWriteTargets (stmt : Stmt) : option (list string) :=
  match literalDirectCall stmt with
  | None => None
  | Some [] => literalOutputRedirectTargets stmt
  | Some ((command :: args) as argv) =>
      if command =s? "mkdir" then if no_redirs stmt then literalOperands argv "-p" "" else None
      else if command =s? "touch" then if no_redirs stmt then literalOperands argv "" "" else None
      else if command =s? "tee" then
        if literalHarmlessTeeInput (st_Redirs stmt) then literalOperands argv "-a" "--append" else None
      else if in_list command [":"; "true"; "echo"; "printf"] then
        if (command =s? "printf") && match args with a :: _ => HasPrefix a "-v" | [] => false end then None
        else literalOutputRedirectTargets stmt
      else None
  end.

(** The targets of the redirections with one of the operators. *)
Definition targets_of (ops : list RedirOperator) (targets : list (RedirOperator * string)) : list string :=
  map snd (List.filter (fun t => bool_decide (t.1 ∈ ops)) targets).

Definition literal_redirect (r : Redirect) : option (RedirOperator * string) :=
  match rd_Word r with
  | Some w => option_map (fun target => (rd_Op r, target)) (literalNF14Word w)
  | None => None
  end.

Definition literalStatementMatchesSimple (stmt : Stmt) (simple : Simple) : bool :=
  match literalDirectCall stmt, all_some literal_redirect (st_Redirs stmt) with
  | Some argv, Some targets =>
      bool_decide (argv = s_Argv simple) && bool_decide (targets_of [RdrOut; AppOut] targets = s_Redirects simple) &&
      bool_decide (targets_of [RdrIn] targets = s_ReadRedirects simple)
  | _, _ => false
  end.

(** ** Confinement *)

Section Exemptions.
Context (h : PathHost).

#[local] Notation g := (ph_git h).

(** [canonicalExistingPath] of evaluate.go. *)
Definition canonicalExistingPath (path : string) : string :=
  if path =s? "" then path else resolvePathForCompare (gh_fs g) path.

(** A temp root's spelling that is above the path, and deeper than what was found. *)
Definition deeper_root (cleaned start spelling : string) : string :=
  let spelling := Clean spelling in
  if (spelling <>s? sep) && HasPrefix cleaned (spelling +:+ sep) && (String.length start <? String.length spelling)%nat
  then spelling else start.

Definition temp_spellings : list string := flat_map (fun root => [root; canonicalExistingPath root]) (systemTempRoots g).

Definition enclosing_temp_root (cleaned : string) : string := foldl (deeper_root cleaned) sep temp_spellings.

Fixpoint symlink_below (start : string) (components : list string) : bool :=
  match components with
  | [] => false
  | component :: rest =>
      let current := JoinPath [start; component] in
      is_symlink h current || symlink_below current rest
  end.

Definition pathHasSymlinkBelowTempRoot (candidate cwd : string) : bool :=
  if (candidate =s? "~") || HasPrefix candidate "~/" then true
  else
    match Abs g (resolvePath candidate cwd) with
    | None => true
    | Some absolute =>
        let cleaned := Clean absolute in
        let start := enclosing_temp_root cleaned in
        if cleaned =s? start then false
        else symlink_below start (elements (if HasPrefix cleaned start then sdrop (String.length start) cleaned else cleaned))
    end.

Definition literalPathConfinedTo (target root cwd : string) : bool :=
  if hasRawDotDot target || pathHasSymlinkBelowTempRoot target cwd then false
  else
    match Abs g (resolvePath target cwd), Abs g (resolvePath root cwd) with
    | Some targetAbs, Some rootAbs =>
        pathWithinOrEqual targetAbs rootAbs &&
        match resolveExistingPath g targetAbs "", resolveExistingPath g rootAbs "" with
        | Some physicalTarget, Some physicalRoot => pathWithinOrEqual physicalTarget physicalRoot
        | _, _ => false
        end
    | _, _ => false
    end.

(** ** literalWriteFindExemptions *)

(** The statement before the find, and the command the analysis has of it. *)
Definition prior_confined (root cwd : string) (prior : Stmt) (simple : Simple) : bool :=
  match literalNonLinkWriteTargets prior with
  | None => false
  | Some targets =>
      literalStatementMatchesSimple prior simple && forallb (fun target => literalPathConfinedTo target root cwd) targets
  end.

(** Whether the find at the index is exempt. *)
Definition find_exempt (tc : ToolCall) (chain : list Stmt) (simples : list (Simple * option findEvaluation)) (findIndex : nat)
    : bool :=
  match chain !! findIndex, simples !! findIndex with
  | Some stmt, Some (simple, find) =>
      match literalDirectCall stmt with
      | Some (command :: args) =>
          if (command <>s? "find") || negb (no_redirs stmt) || negb (bool_decide (command :: args = s_Argv simple)) then false
          else
            match find with
            | None => false
            | Some fe =>
                let parsed := fe_parsed fe in
                let root := f_scopedDeletionRoot parsed in
                let cwd := simpleCwd simple tc in
                if negb (f_exactScopedDeletion parsed) || hasRawDotDot root then false
                else if (cwd =s? "") || pathHasSymlinkBelowTempRoot root cwd then false
                else (0 <? findIndex)%nat &&
                     forallb (fun ps => prior_confined root cwd ps.1 ps.2)
                       (combine (take findIndex chain) (map fst simples))
            end
      | _ => false
      end
  | _, _ => false
  end.

Section Parsed.
(** The parser: the statements of a command line. *)
Context (Parse : string -> option (list Stmt)).

Definition literalWriteFindExemptions (tc : ToolCall) (analysis : bashAnalysis) (findIndex : nat) : bool :=
  match Parse (tc_Command tc) with
  | None => false
  | Some stmts =>
      match literalCommandList stmts with
      | Some chain => if (length chain <? 2)%nat then false else find_exempt tc chain (ba_simples analysis) findIndex
      | None => false
      end
  end.
End Parsed.
End Exemptions.

(** ** Lemmas *)

(** A path at or below a directory, element by element. *)
Definition stays_below (target root : string) : Prop := elements (Clean root) `prefix_of` elements (Clean target).

Lemma pathWithinOrEqual_below target root :
  IsAbs target = true -> IsAbs root = true -> pathWithinOrEqual target root = true -> stays_below target root.
Proof.
  intros Ht Hr [E%String.eqb_eq|H]%orb_true_iff; unfold stays_below; [by rewrite E|].
  destruct (Clean root =s? "/") eqn:E; breflect; [rewrite E; apply prefix_nil|].
  apply withinSafe_spec in H as (r & ->%list_elem_of_singleton & H).
  - by rewrite !Clean_Clean in H.
  - by rewrite IsAbs_Clean.
  - apply Forall_singleton. split; [by rewrite IsAbs_Clean|by rewrite Clean_Clean].
Qed.

Lemma all_some_elem {A B} (f : A -> option B) l bs a :
  all_some f l = Some bs -> a ∈ l -> exists b, f a = Some b /\ b ∈ bs.
Proof.
  revert bs. induction l as [|x l IH]; intros bs H Ha; [by apply elem_of_nil in Ha|]. cbn in H.
  destruct (f x) as [b|] eqn:E; [|done]. destruct (all_some f l) as [bs'|]; [|done]. injection H as <-.
  apply elem_of_cons in Ha as [->|Ha]; [exists b; by split; [|left]|].
  destruct (IH _ eq_refl Ha) as (b' & ? & ?). exists b'. split; [done|by right].
Qed.

Lemma literal_operands_elem short long (o t : bool) args ops arg :
  (short = "" \/ HasPrefix short "-" = true) -> (long = "" \/ HasPrefix long "-" = true) ->
  literal_operands short long o t args = Some ops -> arg ∈ args -> HasPrefix arg "-" = false -> arg ∈ ops.
Proof.
  intros Hs Hl. revert o t ops. induction args as [|a args IH]; intros o t ops H Ha Hp; [by apply elem_of_nil in Ha|].
  cbn [literal_operands] in H.
  assert (Hrest : forall o' t', literal_operands short long o' t' args = Some ops -> a <> arg -> arg ∈ ops).
  { intros o' t' H' Hne. apply (IH o' t' ops); [done| |done]. apply elem_of_cons in Ha as [->|]; [by destruct Hne|done]. }
  destruct (negb t && (a =s? "--")) eqn:E1.
  { apply (Hrest _ _ H). intros ->. breflect. by subst. }
  destruct (negb t && ((a =s? short) && (short <>s? "") || (a =s? long) && (long <>s? ""))) eqn:E2.
  { destruct o; [done|]. apply (Hrest _ _ H). intros ->. apply andb_true_iff in E2 as [_ [E2|E2]%orb_true_iff]; breflect.
    - destruct Hs as [Hs|Hs]; congruence.
    - destruct Hl as [Hl|Hl]; congruence. }
  destruct (negb t && HasPrefix a "-"); [done|].
  destruct (literal_operands short long o t args) as [ops'|] eqn:Eo; [|done]. injection H as <-.
  apply elem_of_cons in Ha as [->|Ha]; [by left|]. right. by apply (IH o t).
Qed.

Lemma literalOperands_elem argv short long ops arg :
  (short = "" \/ HasPrefix short "-" = true) -> (long = "" \/ HasPrefix long "-" = true) ->
  literalOperands argv short long = Some ops -> arg ∈ tail argv -> HasPrefix arg "-" = false -> arg ∈ ops.
Proof.
  intros Hs Hl H. unfold literalOperands in H. destruct (literal_operands _ _ _ _ _) as [l|] eqn:E; [|done].
  assert (ops = l) as -> by (by destruct l; [|injection H]). by apply (literal_operands_elem short long false false).
Qed.

(** The files a literal statement writes: the targets of its output redirections, and
    the operands of the commands that create files. *)
Inductive written (stmt : Stmt) : string -> Prop :=
| written_redirect r w target :
    r ∈ st_Redirs stmt -> rd_Op r <> RdrIn -> rd_Word r = Some w -> literalNF14Word w = Some target -> written stmt target
| written_operand command args arg :
    literalDirectCall stmt = Some (command :: args) -> command ∈ ["mkdir"; "touch"; "tee"] -> arg ∈ args ->
    HasPrefix arg "-" = false -> written stmt arg.

(** The commands such a statement may call. *)
Definition creating : list string := ["mkdir"; "touch"; "tee"; ":"; "true"; "echo"; "printf"].

Lemma literalNonLinkWriteTargets_spec stmt targets :
  literalNonLinkWriteTargets stmt = Some targets ->
  (exists argv, literalDirectCall stmt = Some argv /\ forall command, hd_error argv = Some command -> command ∈ creating) /\
  forall target, written stmt target -> target ∈ targets.
Proof.
  unfold literalNonLinkWriteTargets. destruct (literalDirectCall stmt) as [argv|] eqn:Ed; [|done].
  assert (Hredirect : forall ts, literalOutputRedirectTargets stmt = Some ts ->
    (forall command args, argv = command :: args -> command ∉ ["mkdir"; "touch"; "tee"]) ->
    forall target, written stmt target -> target ∈ ts).
  { intros ts Hts Hc target Hw. unfold literalOutputRedirectTargets in Hts. destruct (no_redirs stmt); [done|].
    destruct Hw as [r w t Hr Ho Hw Hl|command args arg Hd Hin _ _].
    - destruct (all_some_elem _ _ _ _ Hts Hr) as (b & Hb & Hin). unfold output_target in Hb. rewrite Hw in Hb.
      destruct (rd_N r); [done|]. destruct (rd_Op r); try done; congruence.
    - exfalso. rewrite Ed in Hd. injection Hd as Hd. by apply (Hc command args). }
  destruct argv as [|command args].
  { intros H. split; [by exists []|]. by apply Hredirect. }
  intros H. split.
  { exists (command :: args). split; [done|]. intros ? [= <-]. unfold creating.
    destruct (command =s? "mkdir") eqn:E1; breflect; [subst; set_solver|].
    destruct (command =s? "touch") eqn:E2; breflect; [subst; set_solver|].
    destruct (command =s? "tee") eqn:E3; breflect; [subst; set_solver|].
    destruct (in_list command _) eqn:E4; breflect; [set_solver|done]. }
  assert (Hoperands : forall short long, (short = "" \/ HasPrefix short "-" = true) -> (long = "" \/ HasPrefix long "-" = true) ->
    literalOperands (command :: args) short long = Some targets ->
    (forall r, r ∈ st_Redirs stmt -> rd_Op r = RdrIn) -> forall target, written stmt target -> target ∈ targets).
  { intros short long Hs Hl Ho Hr target [r w t Hin Hop _ _|c a arg Hd _ Ha Hp]; [by destruct Hop; apply Hr|].
    rewrite Ed in Hd. injection Hd as <- <-. by apply (literalOperands_elem (command :: args) short long). }
  assert (Hnone : no_redirs stmt = true -> forall r, r ∈ st_Redirs stmt -> rd_Op r = RdrIn).
  { intros Hn r Hr. unfold no_redirs in Hn. destruct (st_Redirs stmt); [by apply elem_of_nil in Hr|done]. }
  destruct (command =s? "mkdir") eqn:E1.
  { destruct (no_redirs stmt) eqn:En; [|done]. apply (Hoperands "-p" ""); [by right|by left|done|by apply Hnone]. }
  destruct (command =s? "touch") eqn:E2.
  { destruct (no_redirs stmt) eqn:En; [|done]. apply (Hoperands "" ""); [by left|by left|done|by apply Hnone]. }
  destruct (command =s? "tee") eqn:E3.
  { destruct (literalHarmlessTeeInput _) eqn:En; [|done]. apply (Hoperands "-a" "--append"); [by right|by right|done|].
    intros r Hr. apply list_elem_of_In in Hr. unfold literalHarmlessTeeInput in En. rewrite forallb_forall in En.
    specialize (En r Hr). unfold harmless_input in En. destruct (rd_N r); [done|]. by destruct (rd_Op r). }
  destruct (in_list command _) eqn:E4; [|done]. destruct (_ && _); [done|]. apply Hredirect; [done|].
  intros c a [= <- <-]. breflect. set_solver.
Qed.

Section Confined.
Context (h : PathHost) (Hok : host_ok h).

(** A target of a write that stays in the deleted directory, as written and as it
    resolves. *)
Definition write_confined (target root cwd : string) : Prop :=
  exists targetAbs rootAbs physicalTarget physicalRoot,
    Abs (ph_git h) (resolvePath target cwd) = Some targetAbs /\ Abs (ph_git h) (resolvePath root cwd) = Some rootAbs /\
    resolveExistingPath (ph_git h) targetAbs "" = Some physicalTarget /\
    resolveExistingPath (ph_git h) rootAbs "" = Some physicalRoot /\
    stays_below targetAbs rootAbs /\ stays_below physicalTarget physicalRoot.

Lemma literalPathConfinedTo_spec target root cwd : literalPathConfinedTo h target root cwd = true -> write_confined target root cwd.
Proof.
  unfold literalPathConfinedTo. destruct (_ || _); [done|].
  destruct (Abs _ (resolvePath target cwd)) as [ta|] eqn:Et; [|done].
  destruct (Abs _ (resolvePath root cwd)) as [ra|] eqn:Er; [|done]. intros [Hin Hphys]%andb_true_iff.
  destruct (resolveExistingPath _ ta "") as [pt|] eqn:Ept; [|done].
  destruct (resolveExistingPath _ ra "") as [pr|] eqn:Epr; [|done].
  destruct Hok as [Heval Hwd].
  pose proof (Abs_abs _ _ _ Et Hwd) as Hta. pose proof (Abs_abs _ _ _ Er Hwd) as Hra.
  exists ta, ra, pt, pr. split_and!; try done; apply pathWithinOrEqual_below; try done.
  - by apply (resolveExistingPath_abs (ph_git h) ta pt Heval Hta).
  - by apply (resolveExistingPath_abs (ph_git h) ra pr Heval Hra).
Qed.

(** What is before an exempted find. *)
Lemma find_exempt_spec tc chain simples index s fe :
  simples !! index = Some (s, Some fe) -> find_exempt h tc chain simples index = true ->
  (0 < index)%nat /\ forall prior stmt, (prior < index)%nat -> chain !! prior = Some stmt ->
    (exists argv, literalDirectCall stmt = Some argv /\ forall command, hd_error argv = Some command -> command ∈ creating) /\
    forall target, written stmt target -> write_confined target (f_scopedDeletionRoot (fe_parsed fe)) (simpleCwd s tc).
Proof.
  intros Hs H. unfold find_exempt in H. rewrite Hs in H. destruct (chain !! index) as [stmt|]; [|done].
  destruct (literalDirectCall stmt) as [[|command args]|]; [done| |done].
  destruct (_ || _ || _); [done|]. destruct (_ || _); [done|]. destruct (_ || _); [done|].
  apply andb_true_iff in H as [Hpos Hall]. apply Nat.ltb_lt in Hpos. split; [done|]. intros prior st Hlt Hst.
  destruct (lookup_lt_is_Some_2 simples prior) as [[sp fp] Hsp].
  { apply lookup_lt_Some in Hs. lia. }
  assert (Hin : In (st, sp) (combine (take index chain) (map fst simples))).
  { apply list_elem_of_In, (list_elem_of_lookup_2 _ prior).
    rewrite <- (lookup_take_lt chain index prior Hlt) in Hst.
    assert (Hm : map fst simples !! prior = Some sp).
    { change (map fst simples) with (fst <$> simples). by rewrite list_lookup_fmap, Hsp. }
    revert Hst Hm. generalize (take index chain) (map fst simples). clear. intros l k. revert l k.
    induction prior as [|n IH]; intros [|a l] [|b k]; cbn; try done; [by intros [= ->] [= ->]|apply IH]. }
  rewrite forallb_forall in Hall. specialize (Hall _ Hin). unfold prior_confined in Hall. cbn [fst snd] in Hall.
  destruct (literalNonLinkWriteTargets st) as [targets|] eqn:Et; [|done].
  apply andb_true_iff in Hall as [_ Hall]. rewrite forallb_forall in Hall.
  destruct (literalNonLinkWriteTargets_spec st targets Et) as [Hc Hw]. split; [done|].
  intros target Hwt. apply literalPathConfinedTo_spec, Hall, list_elem_of_In. by apply Hw.
Qed.
End Confined.
