(* ===== verification/BashRules.v ===== *)
(** * All rules on a command ([internal/engine/rules_bash.go]
    [checkBashAnalysis], [unresolvedPolicyPosition]; the reads of environment paths of
    [rules_powershell.go])

    The composition of the command rules: each command of the analysis and each
    callback of find is judged by every rule, and the strictest verdict that is not
    waived stands. With the path rules it makes the engine complete; the theorems are
    about [Engine.Evaluate] with both. *)

From Stdlib Require Import ZArith Ascii String List Lia.
From stdpp Require Import base list strings gmap.
From S2P Require Import Prelude GoStrings GoPath Policy Merge Argv Engine Simple GitRepo GitRules Wrappers NetRules Operands FindActions Containment WriteTargets PathRules CommandRules ToolchainRules CredentialRules DeleteRules Syntax Exemptions.
Open Scope go_scope.

Definition with_init_expected (b : bool) (s : Simple) : Simple :=
  {| s_Argv := s_Argv s; s_Redirects := s_Redirects s; s_ReadRedirects := s_ReadRedirects s; s_Cwd := s_Cwd s;
     s_Unresolved := s_Unresolved s; s_findCallback := s_findCallback s; s_literalArgs := s_literalArgs s;
     s_literalOut := s_literalOut s; s_literalIn := s_literalIn s; s_resolvedArgs := s_resolvedArgs s;
     s_resolvedOut := s_resolvedOut s; s_resolvedIn := s_resolvedIn s; s_gitEnvironment := s_gitEnvironment s;
     s_goEnvironment := s_goEnvironment s; s_goBin := s_goBin s;
     s_gitEnvironmentUnknown := s_gitEnvironmentUnknown s; s_gitInitExpected := b;
     s_fsUncertain := s_fsUncertain s; s_pipelines := s_pipelines s; s_cwdUnknown := s_cwdUnknown s;
     s_cwdOnlyUnresolved := s_cwdOnlyUnresolved s; s_plainCall := s_plainCall s;
     s_globTailResolved := s_globTailResolved s; s_stdoutFate := s_stdoutFate s;
     s_stateFsUncertain := s_stateFsUncertain s |}.

(** ** Reads below an environment variable ([rules_powershell.go]) *)

Definition env_byte (c : ascii) : bool := is_letter c || is_digit c || Ascii.eqb c "_".

Definition validEnvName (name : string) : bool :=
  match name with
  | EmptyString => false
  | String c _ => all_bytes env_byte name && negb (is_digit c)
  end.

Fixpoint span_env (s : string) : string * string :=
  match s with
  | String c t => if env_byte c then let '(n, r) := span_env t in (String c n, r) else ("", s)
  | EmptyString => ("", "")
  end.

(** What follows a leading environment reference. *)
Definition cutPSEnvPrefix (word : string) : option string :=
  let lower := ToLower word in
  if HasPrefix lower "${env:" then
    let '(before, after, found) := Cut word "}" in
    if found && validEnvName (sdrop 6 before) then Some after else None
  else if HasPrefix lower "$env:" then
    let '(name, rest) := span_env (sdrop 5 word) in
    if validEnvName name then Some rest else None
  else None.

Definition psEnvOnlyUnresolved (word : string) : bool :=
  match cutPSEnvPrefix word with
  | Some rest => negb (ContainsAny rest "$`")
  | None => false
  end.

Definition psReadOnlyCmdlets (command : string) : bool :=
  in_list command ["get-content"; "gc"; "select-string"; "sls"; "get-childitem"; "gci"; "get-item"; "gi";
                   "test-path"; "resolve-path"].

(** ** Unresolved words *)

Section Unresolved.
Context (literalText : string -> bool).

#[local] Notation word_unknown := (wordUnresolved literalText).

Definition inputRedirectUnresolved (s : Simple) (index : nat) : bool :=
  match s_ReadRedirects s !! index with
  | None => false
  | Some word =>
      if bool_decide (index ∈ s_literalIn s) || bool_decide (index ∈ s_resolvedIn s) then false
      else negb (literalText word)
  end.

Definition indices {A} (l : list A) : list nat := seq 0 (length l).

Definition unresolved_words (s : Simple) : list nat := List.filter (word_unknown s) (indices (s_Argv s)).

Definition redirectsUnresolved (s : Simple) : bool :=
  existsb (outputRedirectUnresolved literalText s) (indices (s_Redirects s)) ||
  existsb (inputRedirectUnresolved s) (indices (s_ReadRedirects s)).

Definition anyWordUnresolved (s : Simple) : bool := existsb (word_unknown s) (indices (s_Argv s)).

Definition psEnvReadIsResolved (s : Simple) : bool :=
  psReadOnlyCmdlets (head (s_Argv s)) && anyWordUnresolved s &&
  forallb (fun index => negb (index =? 0)%nat &&
    match s_Argv s !! index with Some word => psEnvOnlyUnresolved word | None => false end) (unresolved_words s).

Definition knownInertOperandGrammar (command : string) : bool :=
  pathOperandCommands command || in_list command [":"; "true"; "false"; "echo"; "printf"; "pwd"; "test"; "["].

Definition resolved_name (s : Simple) : bool := bool_decide (0 ∈ s_resolvedArgs s)%nat.

Definition printsOnlyToSession (s : Simple) : bool :=
  match s_Argv s with
  | [] => false
  | command :: args =>
      if negb (s_plainCall s) || s_cwdUnknown s || s_gitEnvironmentUnknown s ||
         negb (length (s_pipelines s) =? 0)%nat || resolved_name s || word_unknown s 0
      then false
      else if command =s? "echo" then true
      else if command =s? "printf" then
        match args with format :: _ => negb (word_unknown s 1) && negb (HasPrefix format "-") | [] => false end
      else false
  end.

Definition cwdIndependentBuiltin (s : Simple) : bool :=
  match s_Argv s with
  | [] => false
  | command :: args =>
      if negb (s_cwdOnlyUnresolved s) || s_gitEnvironmentUnknown s || negb (length (s_Redirects s) =? 0)%nat ||
         negb (length (s_ReadRedirects s) =? 0)%nat || resolved_name s
      then false
      else if in_list command [":"; "true"; "false"; "echo"; "pwd"] then true
      else if command =s? "printf" then negb (existsb (fun arg => HasPrefix arg "-") args)
      else false
  end.

(** An operand's word is one that is not resolved. *)
Definition operand_unknown (unresolved : list nat) (o : parsedOperand) : bool :=
  (0 <=? o_sourceArg o)%Z && bool_decide (Z.to_nat (o_sourceArg o) ∈ unresolved).

Definition unresolvedPolicyPosition (s : Simple) : bool :=
  if negb (s_Unresolved s) then false
  else
    let unresolved := unresolved_words s in
    if bool_decide (0%nat ∈ unresolved) then true
    else if redirectsUnresolved s then true
    else if psEnvReadIsResolved s then false
    else if printsOnlyToSession s then false
    else
      let unknown := List.filter (operand_unknown unresolved) (op_operands (parseOperandRolesWithSources (s_Argv s))) in
      let knownGrammar := knownInertOperandGrammar (head (s_Argv s)) in
      let seen := map (fun o => Z.to_nat (o_sourceArg o)) unknown in
      if existsb (fun o => negb (is_nonpath (o_role o)) || negb knownGrammar) unknown then true
      else if existsb (fun index => (0 <? index)%nat && (negb knownGrammar || negb (bool_decide (index ∈ seen)))) unresolved
      then true
      else (length unresolved =? 0)%nat && negb (cwdIndependentBuiltin s).

Definition nth_where (p : nat -> bool) (l : list string) (from : nat) : option string :=
  match List.find p (seq from (length l - from)) with Some index => l !! index | None => None end.

Definition firstUnresolvedWord (s : Simple) : string :=
  match (if word_unknown s 0 then s_Argv s !! 0%nat else None) with
  | Some word => word
  | None =>
      match nth_where (outputRedirectUnresolved literalText s) (s_Redirects s) 0 with
      | Some target => target
      | None =>
          match nth_where (inputRedirectUnresolved s) (s_ReadRedirects s) 0 with
          | Some target => target
          | None => default "" (nth_where (word_unknown s) (s_Argv s) 1)
          end
      end
  end.

Definition capReasonWord (word : string) : string :=
  let rs := runes word in
  if (length rs <=? 80)%nat then word
  else fold_right String.append "" (map rune_text (take 80 rs)) +:+ "…".

Definition unresolvedReason (s : Simple) : string :=
  if s_cwdUnknown s && negb (s_gitEnvironmentUnknown s) && negb (anyWordUnresolved s) && negb (redirectsUnresolved s)
  then "the working directory is uncertain here: an earlier `cd` may fail (for example into a directory this same command creates), and a following `;` runs either way, so this command's relative paths cannot be resolved. Join the steps with `&&` so a failed `cd` stops the chain, use `git -C <dir>` or absolute paths instead of `cd`, or split the work into separate tool calls"
  else
    let reason := "command contains an unresolved value in a policy-bearing position" in
    let word := firstUnresolvedWord s in
    if word =s? "" then reason
    else reason +:+ ": `" +:+ capReasonWord word +:+ "`. Guardrail cannot see what it expands to, so the operator is asked. To run without asking, write it out: a literal absolute path instead of a variable, and no `$(...)` result as a path, redirect target or command name. If the value truly cannot be known in advance, asking is right".
End Unresolved.

(** ** checkBashAnalysis *)

Section BashRules.
Context (h : PathHost).
Context (literalText : string -> bool) (word_rune : Z -> bool) (RunningVersion : string).
Context (url_Parse : string -> option URL) (ParseIP : string -> option string) (glob : string -> string -> bool).
Context (error_text : net_error -> string).
(** The shell parser: the statements of a command line. *)
Context (Parse : string -> option (list Stmt)).

(** Waived verdicts do not count, but for unresolved words. *)
Definition kept (pol : Policy) (v : option Verdict) : option Verdict :=
  match v with
  | Some w => if waived (p_Waived pol) (v_RuleID w) && (v_RuleID w <>s? "P3.unresolved") then None else Some w
  | None => None
  end.

(** The rules on one command, in their order. *)
Definition simple_rules (s : Simple) (tc : ToolCall) (pol : Policy) (findFSExemption : bool) : list (option Verdict) :=
  (if unresolvedPolicyPosition literalText s then ask "P3.unresolved" (unresolvedReason literalText s) else None) ::
  match s_Argv s with
  | [] => [checkAskTier h s tc pol]
  | _ =>
      [checkRmRf h literalText s tc pol;
       checkPowerControl s;
       checkPowerShell h literalText s tc pol;
       checkCmdDelete h literalText s tc pol;
       checkCmdDiskDestroyer s;
       checkDiskDestroyers s;
       checkDestinationWrites h s tc pol;
       checkSelfControlInvocation word_rune literalText s (tc_Command tc);
       checkGuardrailUpdate word_rune literalText RunningVersion s (tc_Command tc);
       checkGit s;
       checkGitSafety (ph_git h) s tc;
       checkDocker (s_Argv s) (tc_Command tc);
       checkGhAPIProtection s;
       checkGhPorcelain s;
       checkGoToolchain s;
       checkRgPreprocessor s;
       checkCredentialedCLI s;
       checkCredentialPrint s;
       if head (s_Argv s) <>s? "find" then checkAskTierWithFindFSExemption h s tc pol findFSExemption else None;
       checkEgress url_Parse ParseIP glob literalText error_text (s_Argv s) pol;
       checkPackageInstall s]
  end.

Definition evaluateSimple (s : Simple) (tc : ToolCall) (pol : Policy) (findFSExemption : bool) : option Verdict :=
  worst_of (map (kept pol) (simple_rules s tc pol findFSExemption)).

(** A callback that no rule objects to must be a command whose operands are known. *)
Definition unsupported_callback (callback : Simple) : bool :=
  match s_Argv callback with
  | command :: _ =>
      (command <>s? head (s_Argv callback)) || resolved_name callback || wordUnresolved literalText callback 0 ||
      negb (knownInertOperandGrammar command)
  | [] => false
  end.

Definition callback_hits (callback : Simple) (tc : ToolCall) (pol : Policy) : list (option Verdict) :=
  if is_rm (s_Argv callback) then []
  else
    let verdict := evaluateSimple callback tc pol false in
    [verdict;
     match verdict with
     | None => if unsupported_callback callback
               then ask "P1.find-delete" "find callback requires unsupported execution semantics" else None
     | Some _ => None
     end].

(** The command with what an earlier [git init] in its directory makes of it. *)
Definition expects_init (initialized : option string) (s : Simple) : Simple :=
  if s_cwdUnknown s then s
  else with_init_expected (match initialized with Some dir => dir =s? Clean (s_Cwd s) | None => false end) s.

Definition entry_hits (tc : ToolCall) (pol : Policy) (exempt : bool) (s : Simple) (find : option findEvaluation)
    : list (option Verdict) :=
  evaluateSimple s tc pol exempt ::
  match find with
  | None => []
  | Some fe =>
      flat_map (fun callback => callback_hits (with_init_expected (s_gitInitExpected s) callback) tc pol) (fe_callbacks fe) ++
      [checkFindActions h (fe_parsed fe) s tc pol exempt]
  end.

Fixpoint entries_hits (tc : ToolCall) (pol : Policy) (exempt : nat -> bool) (index : nat) (initialized : option string)
    (entries : list (Simple * option findEvaluation)) : list (option Verdict) :=
  match entries with
  | [] => []
  | (s, find) :: rest =>
      let s := expects_init initialized s in
      entry_hits tc pol (exempt index) s find ++
      entries_hits tc pol exempt (S index) (gitInitCurrentDirectory s) rest
  end.

Definition checkBashAnalysis (tc : ToolCall) (pol : Policy) (analysis : bashAnalysis) : option Verdict :=
  if ba_err analysis then ask "tokenize-failed" "could not parse shell command; failing closed to ask"
  else
    worst_of (map (kept pol)
      (checkDownloadPipeShell (ba_orderedSimples analysis) ::
       entries_hits tc pol (literalWriteFindExemptions h Parse tc analysis) 0 None (ba_simples analysis))).
End BashRules.

(** ** What the composition judges *)

(** The commands of an analysis with what earlier commands made of them. *)
Fixpoint prepared (initialized : option string) (entries : list (Simple * option findEvaluation))
    : list (Simple * option findEvaluation) :=
  match entries with
  | [] => []
  | (s, find) :: rest =>
      let s := expects_init initialized s in
      (s, find) :: prepared (gitInitCurrentDirectory s) rest
  end.

(** A command the rules judge, and whether a find of it is exempt. *)
Inductive evaluated (a : bashAnalysis) (exempt : nat -> bool) : Simple -> bool -> Prop :=
| evaluated_entry i s find :
    prepared None (ba_simples a) !! i = Some (s, find) -> evaluated a exempt s (exempt i)
| evaluated_callback i s fe c :
    prepared None (ba_simples a) !! i = Some (s, Some fe) -> c ∈ fe_callbacks fe -> is_rm (s_Argv c) = false ->
    evaluated a exempt (with_init_expected (s_gitInitExpected s) c) false.

Section Composition.
Context (h : PathHost).
Context (literalText : string -> bool) (word_rune : Z -> bool) (RunningVersion : string).
Context (url_Parse : string -> option URL) (ParseIP : string -> option string) (glob : string -> string -> bool).
Context (error_text : net_error -> string) (Parse : string -> option (list Stmt)).

#[local] Notation rules := (simple_rules h literalText word_rune RunningVersion url_Parse ParseIP glob error_text).
#[local] Notation simple_verdict := (evaluateSimple h literalText word_rune RunningVersion url_Parse ParseIP glob error_text).
#[local] Notation entry := (entry_hits h literalText word_rune RunningVersion url_Parse ParseIP glob error_text).
#[local] Notation entries := (entries_hits h literalText word_rune RunningVersion url_Parse ParseIP glob error_text).
#[local] Notation check := (checkBashAnalysis h literalText word_rune RunningVersion url_Parse ParseIP glob error_text Parse).

Lemma entries_hit tc pol exempt es : forall index initialized i s find v,
  prepared initialized es !! i = Some (s, find) -> v ∈ entry tc pol (exempt (index + i)%nat) s find ->
  v ∈ entries tc pol exempt index initialized es.
Proof.
  induction es as [|[s0 find0] es IH]; intros index initialized i s find v Hi Hv; [done|].
  cbn [entries_hits]. apply elem_of_app. destruct i as [|i]; cbn in Hi.
  - injection Hi as <- <-. left. by rewrite Nat.add_0_r in Hv.
  - right. apply (IH _ _ i s find); [done|]. by replace (S index + i)%nat with (index + S i)%nat by lia.
Qed.

(** A verdict that counts: not of a waived rule, or of unresolved words. *)
Definition counts (pol : Policy) (v : Verdict) : Prop :=
  waived (p_Waived pol) (v_RuleID v) = false \/ v_RuleID v = "P3.unresolved".

Lemma kept_counts pol v : counts pol v -> kept pol (Some v) = Some v.
Proof. intros [H|H]; cbn; rewrite H; [done|]. by rewrite andb_false_r. Qed.

Lemma worst_bound hits v :
  Some v ∈ hits -> exists w, worst_of hits = Some w /\ Some w ∈ hits /\ (Severity (v_Decision v) <= Severity (v_Decision w))%Z.
Proof.
  intros Hin. pose proof (worst_of_spec hits) as H. destruct (worst_of hits) as [w|].
  - destruct H as [Hw H]. exists w. auto.
  - rewrite Forall_forall in H. by apply H in Hin.
Qed.

(** One rule's verdict bounds the command's. *)
Lemma simple_bound s tc pol exempt v :
  Some v ∈ rules s tc pol exempt -> counts pol v ->
  exists w, simple_verdict s tc pol exempt = Some w /\ counts pol w /\ (Severity (v_Decision v) <= Severity (v_Decision w))%Z.
Proof.
  intros Hin Hc. destruct (worst_bound (map (kept pol) (rules s tc pol exempt)) v) as (w & Hw & Hwin & Hle).
  { apply list_elem_of_In, in_map_iff. exists (Some v). split; [by apply kept_counts|by apply list_elem_of_In]. }
  exists w. split; [done|]. split; [|done]. apply list_elem_of_In, in_map_iff in Hwin as ([u|] & Hu & _); [|done].
  cbn in Hu. destruct (_ && _) eqn:E; [done|]. injection Hu as ->. unfold counts.
  apply andb_false_iff in E as [E|E]; [by left|right]. by apply negb_false_iff, String.eqb_eq in E.
Qed.

Lemma check_counts tc pol a s exempt v :
  ba_err a = false -> evaluated a (literalWriteFindExemptions h Parse tc a) s exempt ->
  Some v ∈ rules s tc pol exempt -> counts pol v ->
  exists w, check tc pol a = Some w /\ (Severity (v_Decision v) <= Severity (v_Decision w))%Z.
Proof.
  intros Herr He Hv Hc. destruct (simple_bound s tc pol exempt v Hv Hc) as (u & Hu & Huc & Hle).
  assert (Hin : Some u ∈ entries tc pol (literalWriteFindExemptions h Parse tc a) 0 None (ba_simples a)).
  { destruct He as [i s find Hi|i s fe c Hi Hcb Hrm].
    - apply (entries_hit _ _ _ _ _ _ i s find); [done|]. unfold entry_hits. change (0 + i)%nat with i. rewrite Hu. by left.
    - apply (entries_hit _ _ _ _ _ _ i s (Some fe)); [done|]. right. apply elem_of_app. left.
      apply (elem_of_flat_map _ _ _ c Hcb). unfold callback_hits.
      replace (is_rm (s_Argv (with_init_expected (s_gitInitExpected s) c))) with false by done. rewrite Hu. by left. }
  unfold checkBashAnalysis. rewrite Herr.
  destruct (worst_bound (map (kept pol) (checkDownloadPipeShell (ba_orderedSimples a) ::
    entries tc pol (literalWriteFindExemptions h Parse tc a) 0 None (ba_simples a))) u) as (w & -> & _ & Hw).
  { right. apply list_elem_of_In, in_map_iff. exists (Some u). split; [by apply kept_counts|by apply list_elem_of_In]. }
  exists w. split; [done|lia].
Qed.
End Composition.

(** ** Recursive deletes *)

(** A command that deletes recursively or by force, in any of the three shells, and
    one of its operands. *)
Inductive deletes (literalText : string -> bool) (s : Simple) : string -> Prop :=
| deletes_rm i arg raw :
    head (s_Argv s) = "rm" -> hasAnyFlag (s_Argv s) "rfR" ["--recursive"; "--force"] = true ->
    tail (s_Argv s) !! i = Some arg -> HasPrefix arg "-" = false -> rm_target literalText s (S i) arg = Some raw ->
    deletes literalText s raw
| deletes_cmd arg :
    cmdDeleteAliases (head (s_Argv s)) = true -> switched ["s"; "q"; "f"] (tail (s_Argv s)) = true ->
    arg ∈ tail (s_Argv s) -> is_delete_switch arg = false -> HasPrefix arg "-" = false -> literalText arg = true ->
    deletes literalText s arg
| deletes_ps op :
    let binding := bindPS (s_Argv s) removeItemParams in
    removeItemAliases (head (s_Argv s)) = true ->
    (head (s_Argv s) = "rmdir" -> psCmdletShaped (s_Argv s) removeItemParams = true) ->
    ps_has binding "whatif" = false -> ps_has binding "recurse" || ps_has binding "force" = true ->
    existsb (ps_has binding) ["filter"; "exclude"; "include"; "stream"] = false ->
    op ∈ b_operands binding -> HasPrefix op "-" = false -> literalText op = true ->
    deletes literalText s op.

Section Deletes.
Context (h : PathHost) (Hok : host_ok h) (literalText : string -> bool).

(** What is deleted is not the reference and does not contain it, as written and as
    it resolves. *)
Definition spares (target physical reference : string) : Prop :=
  forall r, reference <> "" -> Abs (ph_git h) reference = Some r ->
    pr_equal (pathRelationBetween h target r) = false /\ pr_within (pathRelationBetween h r target) = false /\
    forall pr, resolveExistingPath (ph_git h) r "" = Some pr ->
      pr_equal (pathRelationBetween h physical pr) = false /\ pr_within (pathRelationBetween h pr physical) = false.

(** An operand that may be deleted: it is confined to the repository or to a root the
    operator or the plane permits, and spares the working tree when the command's
    words are known. *)
Definition delete_confined (s : Simple) (tc : ToolCall) (pol : Policy) (raw : string) : Prop :=
  let c := word_path s tc raw true in
  exists target physical name strict,
    candidate_target h c (tc_RepoRoot tc) = Some (target, physical) /\
    named_root h (tc_RepoRoot tc) (s_SafeRoots (p_Slots pol)) (strictWriteRoots h tc c) false name strict /\
    confined_to h target physical (simpleCwd s tc) name strict /\
    (s_Unresolved s = false -> s_findCallback s = false -> simpleCwd s tc <> "" ->
     spares target physical (tc_CWD tc) /\ spares target physical (tc_RepoRoot tc)).

Lemma deletes_reference_spares target physical reference :
  deletes_reference h target (Some physical) reference = false -> spares target physical reference.
Proof.
  unfold deletes_reference. intros H r Hne Hr. destruct (reference =s? "") eqn:E; [by apply String.eqb_eq in E|].
  rewrite Hr in H. apply orb_false_iff in H as [[H1 H2]%orb_false_iff H]. split; [done|]. split; [done|].
  intros pr Hpr. rewrite Hpr in H. by apply orb_false_iff in H.
Qed.

Lemma rm_operand_none s tc pol raw :
  rm_operand h s tc pol raw = None -> floating (word_path s tc raw true) raw = false -> delete_confined s tc pol raw.
Proof using Hok.
  unfold rm_operand. intros H Hf. rewrite Hf in H. cbn [andb] in H. destruct (_ && isWorkingTreeDeletion _ _ _ _) eqn:Ew; [done|].
  destruct (authorizedPath _ _ _ _ _ _) as [[|] l] eqn:Ea; [|done].
  apply (authorizedPath_spec h Hok) in Ea as (target & physical & name & strict & Ht & Hn & Hc).
  exists target, physical, name, strict. split_and!; [done..|]. intros Hu Hcb Hcwd. rewrite Hu, Hcb in Ew. cbn in Ew.
  unfold isWorkingTreeDeletion in Ew. cbn [pc_path word_path] in Ew. rewrite Hf in Ew.
  unfold candidate_target in Ht. destruct (_ || _); [done|]. destruct (hostPathForCandidate _ _) as [p|]; [|done].
  cbn [pc_cwd word_path] in *. apply String.eqb_neq in Hcwd. rewrite Hcwd in Ew. cbn [andb] in Ew.
  destruct (Abs _ (resolvePath p _)) as [t|]; [|done]. destruct (resolveExistingPath _ t "") as [ph|]; [|done].
  injection Ht as -> ->. apply orb_false_iff in Ew as [H1 H2]. split; by apply deletes_reference_spares.
Qed.

Lemma rm_operand_deny s tc pol raw v : rm_operand h s tc pol raw = Some v -> v_Decision v = Deny /\ v_RuleID v = "P1.rm-rf".
Proof. unfold rm_operand. branches; by injection 1 as <-. Qed.

(** The verdict of an operand bounds the command's: the rule only denies. *)
Lemma rm_operands_spec s tc pol args : forall index v i arg raw,
  args !! i = Some arg -> HasPrefix arg "-" = false -> rm_target literalText s (index + i) arg = Some raw ->
  rm_operand h s tc pol raw = Some v ->
  exists w, rm_operands h literalText s tc pol index args = Some w /\ v_Decision w = Deny /\ v_RuleID w = "P1.rm-rf".
Proof.
  induction args as [|a args IH]; intros index v i arg raw Hi Hp Ht Hv; [done|]. cbn [rm_operands].
  assert (Hfirst : forall w, (if HasPrefix a "-" then None
                              else match rm_target literalText s index a with
                                   | Some r => rm_operand h s tc pol r | None => None end) = Some w ->
    v_Decision w = Deny /\ v_RuleID w = "P1.rm-rf").
  { intros w Hw. destruct (HasPrefix a "-"); [done|]. destruct (rm_target literalText s index a) as [r|]; [|done].
    by apply (rm_operand_deny s tc pol r). }
  destruct (if HasPrefix a "-" then None else _) as [w|] eqn:E; [exists w; split; [done|by apply Hfirst]|].
  destruct i as [|i]; cbn in Hi.
  - injection Hi as ->. rewrite Nat.add_0_r in Ht. rewrite Hp, Ht, Hv in E. done.
  - apply (IH (S index) v i arg raw); try done. by replace (S index + i)%nat with (index + S i)%nat by lia.
Qed.

(** Words that are given to [rm] on behalf of another command. *)
Lemma as_rm_target s recursive force operands i arg :
  operands !! i = Some arg -> literalText arg = true ->
  rm_target literalText (as_rm s recursive force operands) (2 + i) arg = Some arg.
Proof.
  intros Hi Hl. unfold rm_target, wordUnresolved, as_rm. cbn [s_Argv commandDerivedFromAt s_literalArgs s_resolvedArgs].
  change ((["rm"; rm_flags recursive force] ++ operands) !! (2 + i)%nat) with (operands !! i).
  rewrite Hi, Hl. by destruct (_ || _).
Qed.

Lemma as_rm_deny s tc pol (recursive force : bool) operands arg v :
  recursive || force = true -> arg ∈ operands -> HasPrefix arg "-" = false -> literalText arg = true ->
  rm_operand h s tc pol arg = Some v ->
  exists w, checkRmRf h literalText (as_rm s recursive force operands) tc pol = Some w /\
    v_Decision w = Deny /\ v_RuleID w = "P1.rm-rf".
Proof.
  intros Hrf [i Hi]%list_elem_of_lookup Hp Hl Hv. unfold checkRmRf.
  replace (head (s_Argv (as_rm s recursive force operands)) <>s? "rm") with false by done.
  replace (hasAnyFlag _ _ _) with true by (by destruct recursive, force).
  cbn [negb]. cbn [s_Argv as_rm commandDerivedFromAt tail app rm_operands].
  replace (HasPrefix (rm_flags recursive force) "-") with true by done.
  apply (rm_operands_spec _ _ _ _ 2 v i arg arg); [done|done|by apply as_rm_target|].
  rewrite <- Hv. unfold rm_operand, word_path, simpleCwd, as_rm. cbn [commandDerivedFromAt s_cwdUnknown s_Cwd s_Unresolved s_findCallback].
  replace (s_gitEnvironmentUnknown s && _) with false by (by rewrite andb_false_r). by rewrite orb_false_r.
Qed.
End Deletes.

Section Enforced.
Context (h : PathHost) (Hok : host_ok h).
Context (literalText : string -> bool) (word_rune : Z -> bool) (RunningVersion : string).
Context (url_Parse : string -> option URL) (ParseIP : string -> option string) (glob : string -> string -> bool).
Context (error_text : net_error -> string) (Parse : string -> option (list Stmt)).
Context (parse_path : string -> option (string * string * option string)).
Context (analyzeBash : ToolCall -> outcome bashAnalysis).

#[local] Notation rules := (simple_rules h literalText word_rune RunningVersion url_Parse ParseIP glob error_text).

(** [checkBashAnalysis] as [Engine.Evaluate] runs it. *)
Definition command_rules (tc : ToolCall) (pol : Policy) (a : bashAnalysis) : outcome (option Verdict) :=
  Returns (checkBashAnalysis h literalText word_rune RunningVersion url_Parse ParseIP glob error_text Parse tc pol a).

(** The engine with the path rules and these. *)
Definition evaluate_commands : ToolCall -> Policy -> Verdict :=
  evaluate_paths h glob word_rune parse_path url_Parse analyzeBash command_rules.

Definition judged_command (tc : ToolCall) (pol : Policy) (a : bashAnalysis) : Prop :=
  judged_on analyzeBash command_rules tc pol (Some a) /\ ba_err a = false.

(** The exemption of a find of the command. *)
Definition exemption (tc : ToolCall) (a : bashAnalysis) : nat -> bool := literalWriteFindExemptions h Parse tc a.

Lemma rule_bounds tc pol a s exempt v :
  judged_command tc pol a -> evaluated a (exemption tc a) s exempt -> Some v ∈ rules s tc pol exempt -> counts pol v ->
  (Severity (v_Decision v) <= Severity (v_Decision (evaluate_commands tc pol)))%Z.
Proof.
  intros [Hj Herr] He Hv Hc.
  destruct (check_counts h literalText word_rune RunningVersion url_Parse ParseIP glob error_text Parse tc pol a s exempt v
    Herr He Hv Hc) as (w & Hw & Hle).
  destruct Hj as (Hcap & Hi & Hweb & Hb & Ha & _). unfold evaluate_commands, evaluate_paths, Evaluate.
  rewrite evaluate_body_rules by done. unfold evaluate_rules. rewrite Hb, Ha. cbn [obind]. unfold command_rules.
  rewrite Hw. cbn [obind].
  destruct (worst_bound [checkPathsAnalysis h glob word_rune parse_path tc pol (Some a); Some w; matchOverlayRules glob tc pol] w)
    as (u & -> & _ & Hu); [right; by left|]. cbn. lia.
Qed.

Lemma deletes_denied s tc pol exempt raw v :
  deletes literalText s raw -> rm_operand h s tc pol raw = Some v ->
  exists w, Some w ∈ rules s tc pol exempt /\ v_Decision w = Deny /\ v_RuleID w = "P1.rm-rf".
Proof.
  intros Hd Hv.
  assert (Hne : exists command args, s_Argv s = command :: args).
  { destruct (s_Argv s) as [|command args] eqn:E; [|by exists command, args]. by destruct Hd; rewrite E in *. }
  destruct Hne as (command & args & Hargv).
  assert (Hrule : forall w, Some w ∈ [checkRmRf h literalText s tc pol; checkPowerControl s; checkPowerShell h literalText s tc pol;
      checkCmdDelete h literalText s tc pol] -> Some w ∈ rules s tc pol exempt).
  { intros w Hw. unfold simple_rules. rewrite Hargv. right. set_solver. }
  assert (Hfound : forall r, (exists w, r = Some w /\ v_Decision w = Deny /\ v_RuleID w = "P1.rm-rf") ->
    r ∈ [checkRmRf h literalText s tc pol; checkPowerControl s; checkPowerShell h literalText s tc pol;
      checkCmdDelete h literalText s tc pol] ->
    exists w, Some w ∈ rules s tc pol exempt /\ v_Decision w = Deny /\ v_RuleID w = "P1.rm-rf").
  { intros r (w & -> & Hw) Hin. exists w. split; [by apply Hrule|done]. }
  destruct Hd as [i arg raw Hh Hf Hi Hp Ht|arg Hc Hs Hin Hsw Hp Hl|op binding Hc Hrd Hwi Hrf Hfl Hin Hp Hl].
  - apply (Hfound (checkRmRf h literalText s tc pol)); [|by left]. unfold checkRmRf.
    rewrite Hh, Hf. by apply (rm_operands_spec h literalText s tc pol _ 1 v i arg raw).
  - apply (Hfound (checkCmdDelete h literalText s tc pol)); [|by do 3 right; left]. unfold checkCmdDelete. rewrite Hc. cbn [negb].
    set (ops := List.filter _ _). assert (Hops : arg ∈ ops).
    { apply list_elem_of_In, filter_In. split; [by apply list_elem_of_In|]. by rewrite Hsw. }
    assert (Hrf : switched ["s"] (tail (s_Argv s)) || switched ["q"; "f"] (tail (s_Argv s)) = true).
    { unfold switched in *. apply existsb_exists in Hs as (x & Hx & Hn). apply orb_true_iff.
      rewrite !existsb_exists. destruct (cmdSwitch x cmdDeleteSwitches) as [name|] eqn:E; [|done].
      unfold in_list in Hn. cbn [existsb] in Hn. apply orb_true_iff in Hn as [Hn|Hn]; [left|right]; exists x; rewrite E;
        (split; [done|]); unfold in_list; cbn [existsb]; [by rewrite Hn|done]. }
    rewrite <- negb_orb, Hrf. cbn [negb]. destruct ops as [|o ops']; [by apply elem_of_nil in Hops|].
    by apply (as_rm_deny h literalText s tc pol _ _ _ arg v).
  - apply (Hfound (checkPowerShell h literalText s tc pol)); [|by do 2 right; left]. unfold checkPowerShell.
    assert (Hother : psDynamicEval (head (s_Argv s)) = false /\ in_list (head (s_Argv s)) ["powershell"; "pwsh"] = false /\
      (head (s_Argv s) =s? "set-executionpolicy") = false).
    { unfold removeItemAliases in Hc. apply in_list_true in Hc. generalize (head (s_Argv s)) Hc. clear. intros c Hc.
      repeat (apply elem_of_cons in Hc as [->|Hc]; [done|]). by apply elem_of_nil in Hc. }
    destruct Hother as (-> & -> & ->). cbn [andb]. rewrite Hc. unfold checkPSRemoveItem. fold binding.
    replace ((head (s_Argv s) =s? "rmdir") && negb (psCmdletShaped (s_Argv s) removeItemParams)) with false.
    2:{ destruct (head (s_Argv s) =s? "rmdir") eqn:E; [|done]. apply String.eqb_eq in E. by rewrite Hrd. }
    rewrite Hwi, <- negb_orb, Hrf, Hfl. cbn [negb].
    by apply (as_rm_deny h literalText s tc pol _ _ _ op v).
Qed.

Lemma prepared_lookup es : forall initialized i s find,
  prepared initialized es !! i = Some (s, find) ->
  exists s0 initialized', es !! i = Some (s0, find) /\ s = expects_init initialized' s0.
Proof.
  induction es as [|[s0 find0] es IH]; intros initialized i s find H; [done|]. cbn [prepared] in H.
  destruct i as [|i]; cbn in H; [injection H as <- <-; by exists s0, initialized|by apply IH in H].
Qed.

(** A find's own verdict bounds the engine's as well. *)
Lemma find_bounds tc pol a i s fe v :
  judged_command tc pol a -> prepared None (ba_simples a) !! i = Some (s, Some fe) ->
  checkFindActions h (fe_parsed fe) s tc pol (exemption tc a i) = Some v -> counts pol v ->
  (Severity (v_Decision v) <= Severity (v_Decision (evaluate_commands tc pol)))%Z.
Proof.
  intros [Hj Herr] Hi Hv Hc.
  destruct (worst_bound (map (kept pol) (checkDownloadPipeShell (ba_orderedSimples a) ::
    entries_hits h literalText word_rune RunningVersion url_Parse ParseIP glob error_text tc pol (exemption tc a) 0 None
      (ba_simples a))) v) as (w & Hw & _ & Hle).
  { right. apply list_elem_of_In, in_map_iff. exists (Some v). split; [by apply kept_counts|]. apply list_elem_of_In.
    apply (entries_hit _ _ _ _ _ _ _ _ _ _ _ _ _ _ i s (Some fe)); [done|]. unfold entry_hits. right.
    apply elem_of_app. right. rewrite <- Hv. by left. }
  assert (Hcheck : checkBashAnalysis h literalText word_rune RunningVersion url_Parse ParseIP glob error_text Parse tc pol a = Some w).
  { unfold checkBashAnalysis. by rewrite Herr. }
  destruct Hj as (Hcap & Hin & Hweb & Hb & Ha & _). unfold evaluate_commands, evaluate_paths, Evaluate.
  rewrite evaluate_body_rules by done. unfold evaluate_rules. rewrite Hb, Ha. cbn [obind]. unfold command_rules.
  rewrite Hcheck. cbn [obind].
  destruct (worst_bound [checkPathsAnalysis h glob word_rune parse_path tc pol (Some a); Some w; matchOverlayRules glob tc pol] w)
    as (u & -> & _ & Hu); [right; by left|]. cbn. lia.
Qed.

(** ** Properties *)

(** C11: No rule is lost. The verdict of every rule on every command of the line, and on every
    command a find runs but [rm] (whose deletions the rule on [find] judges), bounds the
    engine's answer from below, whatever the other rules, the path rules and the overlay say; a
    waiver lifts it, except for the rule on unresolved words. *)
Theorem every_rule_counts tc pol a s exempt v :
  judged_command tc pol a -> evaluated a (exemption tc a) s exempt -> Some v ∈ rules s tc pol exempt ->
  (waived (p_Waived pol) (v_RuleID v) = false \/ v_RuleID v = "P3.unresolved") ->
  (Severity (v_Decision v) <= Severity (v_Decision (evaluate_commands tc pol)))%Z.
Proof. intros Hj He Hv Hc. by apply (rule_bounds tc pol a s exempt v). Qed.


(** A find that deletes is not raced. When a line is allowed in which a find
    deletes exactly what it names while earlier commands may have changed the file
    system, and the rule is not waived, then the find is not the first statement,
    each statement before it calls, with literal words, a command that only creates
    files, and every file one of them writes is, as written and as it resolves, in
    the directory the find deletes below. *)
Theorem uncertain_find_deletion_confined tc pol a i s fe :
  judged_command tc pol a -> prepared None (ba_simples a) !! i = Some (s, Some fe) ->
  f_exactScopedDeletionManaged (fe_parsed fe) = true -> s_fsUncertain s = true ->
  waived (p_Waived pol) "P1.find-delete" = false -> v_Decision (evaluate_commands tc pol) = Allow ->
  (0 < i)%nat /\
  exists stmts chain, Parse (tc_Command tc) = Some stmts /\ literalCommandList stmts = Some chain /\
    forall prior stmt, (prior < i)%nat -> chain !! prior = Some stmt ->
      (exists argv, literalDirectCall stmt = Some argv /\ forall command, hd_error argv = Some command -> command ∈ creating) /\
      forall target, written stmt target ->
        write_confined h target (f_scopedDeletionRoot (fe_parsed fe)) (simpleCwd s tc).
Proof using Hok.
  intros Hj Hi Hman Hunc Hw Hallow.
  assert (Hex : exemption tc a i = true).
  { destruct (exemption tc a i) eqn:E; [done|exfalso].
    assert (Hv : exists reason, checkFindActions h (fe_parsed fe) s tc pol (exemption tc a i) = find_delete reason).
    { rewrite E. unfold checkFindActions, managed_deletion. rewrite Hman, Hunc. cbn [negb andb].
      destruct (negb _); by eexists. }
    destruct Hv as [reason Hv].
    pose proof (find_bounds tc pol a i s fe _ Hj Hi Hv ltac:(by left)) as Hle. rewrite Hallow in Hle. cbn in Hle. lia. }
  unfold exemption, literalWriteFindExemptions in Hex.
  destruct (Parse (tc_Command tc)) as [stmts|]; [|done]. destruct (literalCommandList stmts) as [chain|] eqn:Ec; [|done].
  destruct (length chain <? 2)%nat; [done|]. apply prepared_lookup in Hi as (s0 & initialized & Hi & ->).
  destruct (find_exempt_spec h Hok tc chain (ba_simples a) i s0 fe Hi Hex) as [Hpos Hprior]. split; [done|].
  exists stmts, chain. split_and!; [done..|]. intros prior stmt Hlt Hst. destruct (Hprior prior stmt Hlt Hst) as [Hc Ht].
  split; [done|]. intros target Hwt. apply Ht in Hwt. unfold expects_init.
  destruct (s_cwdUnknown s0); exact Hwt.
Qed.
End Enforced.

(** ** The three shells agree *)

Lemma bind_operands spec ops : forall b,
  Forall (fun op => (psParameter op).1.1 = "") ops ->
  b_operands (bind_loop spec ops b) = b_operands b ++ ops /\ b_present (bind_loop spec ops b) = b_present b.
Proof.
  induction ops as [|op ops IH]; intros b H; cbn [bind_loop]; [by rewrite app_nil_r|].
  apply Forall_cons in H as [Hop H]. destruct (psParameter op) as [[name inline] has]. cbn in Hop. subst name.
  cbn [String.eqb]. destruct (IH (bind_operand op b) H) as [-> ->]. cbn. by rewrite <- app_assoc.
Qed.

(** Deleting a tree is one thing in three shells. For any words that none of
    them reads as an option, cmd's [rd /s /q], PowerShell's [Remove-Item -Recurse
    -Force] and [rm -rf] have the same verdict in the same place. *)
Theorem delete_spellings_agree h literalText tc pol cwd ops :
  ops <> [] -> Forall (fun op => (psParameter op).1.1 = "" /\ is_delete_switch op = false) ops ->
  checkCmdDelete h literalText (plain_simple (["rd"; "/s"; "/q"] ++ ops) cwd) tc pol =
    checkRmRf h literalText (plain_simple (["rm"; "-rf"] ++ ops) cwd) tc pol /\
  checkPowerShell h literalText (plain_simple (["remove-item"; "-recurse"; "-force"] ++ ops) cwd) tc pol =
    checkRmRf h literalText (plain_simple (["rm"; "-rf"] ++ ops) cwd) tc pol.
Proof.
  intros Hne Hops. apply Forall_and in Hops as [Hps Hsw]. split.
  - unfold checkCmdDelete. cbn [s_Argv plain_simple app tail].
    assert (Hf : List.filter (fun arg => negb (is_delete_switch arg)) ("/s" :: "/q" :: ops) = ops).
    { cbn [List.filter]. change (is_delete_switch "/s") with true. change (is_delete_switch "/q") with true. cbn [negb].
      clear Hne Hps. induction Hsw as [|op ops Hop _ IH]; [done|]. cbn [List.filter]. by rewrite Hop, IH. }
    rewrite Hf. destruct ops as [|op ops]; [done|]. reflexivity.
  - change (checkPowerShell h literalText (plain_simple (["remove-item"; "-recurse"; "-force"] ++ ops) cwd) tc pol)
      with (checkPSRemoveItem h literalText (plain_simple (["remove-item"; "-recurse"; "-force"] ++ ops) cwd) tc pol).
    unfold checkPSRemoveItem, bindPS. cbn [s_Argv plain_simple app tail].
    destruct (bind_operands removeItemParams ops
      (bind_loop removeItemParams ["-recurse"; "-force"] {| b_present := []; b_operands := []; b_values := ∅ |}) Hps) as [Ho Hp].
    change (bind_loop removeItemParams ("-recurse" :: "-force" :: ops) {| b_present := []; b_operands := []; b_values := ∅ |}) with
      (bind_loop removeItemParams ops
        (bind_loop removeItemParams ["-recurse"; "-force"] {| b_present := []; b_operands := []; b_values := ∅ |})).
    unfold ps_has. rewrite Hp, Ho. reflexivity.
Qed.

(** ** Witnesses *)

Definition demo_command_rules : (string -> option (list Stmt)) -> ToolCall -> Policy -> bashAnalysis -> outcome (option Verdict) :=
  command_rules demo_path_host (fun _ => true) (fun _ => false) "" (fun _ => None) (fun _ => None) demo_path_glob
    (fun _ => "").

(** [mkdir -p /tmp/x && find /tmp/x -type f -delete], the second command after a
    change of the file system. *)
Definition lit_word (s : string) : Word := MkWord 0 0 [Lit s].
Definition lit_call (id : nat) (words : list string) : Stmt :=
  MkStmt (unplaced id) (Some (CallExpr [] (map lit_word words))) false false false false [].

Definition demo_find_argv : list string := ["find"; "/tmp/x"; "-type"; "f"; "-delete"].
Definition demo_parsed (command : string) : option (list Stmt) :=
  Some [MkStmt (unplaced 0) (Some (BinaryCmd AndStmt (lit_call 1 ["mkdir"; "-p"; "/tmp/x"]) (lit_call 2 demo_find_argv)))
          false false false false []].

Definition uncertain_simple (argv : list string) (cwd : string) : Simple :=
  {| s_Argv := argv; s_Redirects := []; s_ReadRedirects := []; s_Cwd := cwd; s_Unresolved := false;
     s_findCallback := false; s_literalArgs := ∅; s_literalOut := ∅; s_literalIn := ∅; s_resolvedArgs := ∅;
     s_resolvedOut := ∅; s_resolvedIn := ∅; s_gitEnvironment := ∅; s_goEnvironment := ∅; s_goBin := "";
     s_gitEnvironmentUnknown := false; s_gitInitExpected := false; s_fsUncertain := true; s_pipelines := [];
     s_cwdUnknown := false; s_cwdOnlyUnresolved := false; s_plainCall := false; s_globTailResolved := ∅;
     s_stdoutFate := stdoutRoot; s_stateFsUncertain := true |}.

Definition demo_find_analysis (tc : ToolCall) : bashAnalysis :=
  analyze_simples (fun _ => true) tc
    (Some [plain_simple ["mkdir"; "-p"; "/tmp/x"] "/w/repo"; uncertain_simple demo_find_argv "/w/repo"]).

Definition demo_no_parse (command : string) : option (list Stmt) := None.

Definition demo_commands_evaluate (Parse : string -> option (list Stmt)) (analysis : ToolCall -> bashAnalysis)
    : ToolCall -> Policy -> Verdict :=
  evaluate_commands demo_path_host (fun _ => true) (fun _ => false) "" (fun _ => None) (fun _ => None) demo_path_glob
    (fun _ => "") Parse (fun _ => None) (fun tc => Returns (analysis tc)).

Lemma demo_command_judged Parse analysis :
  ba_err (analysis demo_shell) = false ->
  judged_command demo_path_host (fun _ => true) (fun _ => false) "" (fun _ => None) (fun _ => None) demo_path_glob
    (fun _ => "") Parse (fun tc => Returns (analysis tc)) demo_shell demo_policy (analysis demo_shell).
Proof.
  intros Herr. split; [|done].
  split; [by right; left|]. split; [by split|]. split; [done|]. split; [done|]. split; [done|]. by eexists.
Defined.


(** A rule on a command the path rules allow. *)
Lemma every_rule_counts_witness :
  (Severity Ask <=
   Severity (v_Decision (demo_commands_evaluate demo_no_parse (demo_normalized ["chmod"; "-R"; "u+w"; "src"]) demo_shell demo_policy)))%Z.
Proof.
  apply (every_rule_counts demo_path_host (fun _ => true) (fun _ => false) "" (fun _ => None)
    (fun _ => None) demo_path_glob (fun _ => "") demo_no_parse (fun _ => None)
    (fun tc => Returns (demo_normalized ["chmod"; "-R"; "u+w"; "src"] tc)) demo_shell demo_policy
    (demo_normalized ["chmod"; "-R"; "u+w"; "src"] demo_shell) (plain_simple ["chmod"; "-R"; "u+w"; "src"] "/w/repo") false
    (verdict Ask "P1.chmod" "recursive chmod")).
  - by apply demo_command_judged.
  - exact (evaluated_entry (demo_normalized ["chmod"; "-R"; "u+w"; "src"] demo_shell)
      (exemption demo_path_host demo_no_parse demo_shell (demo_normalized ["chmod"; "-R"; "u+w"; "src"] demo_shell)) 0
      (plain_simple ["chmod"; "-R"; "u+w"; "src"] "/w/repo") None eq_refl).
  - apply list_elem_of_In. vm_compute. tauto.
  - left. reflexivity.
Defined.

(** A find that deletes in the directory created just before it. *)
Lemma uncertain_find_deletion_confined_witness :
  v_Decision (demo_commands_evaluate demo_parsed demo_find_analysis demo_shell demo_policy) = Allow /\
  v_Decision (demo_commands_evaluate demo_no_parse demo_find_analysis demo_shell demo_policy) = Ask /\
  write_confined demo_path_host "/tmp/x" "/tmp/x" "/w/repo".
Proof.
  assert (Hallow : v_Decision (demo_commands_evaluate demo_parsed demo_find_analysis demo_shell demo_policy) = Allow)
    by (vm_compute; reflexivity).
  split; [exact Hallow|]. split; [vm_compute; reflexivity|].
  destruct (uncertain_find_deletion_confined demo_path_host demo_path_host_ok (fun _ => true) (fun _ => false) "" (fun _ => None)
    (fun _ => None) demo_path_glob (fun _ => "") demo_parsed (fun _ => None)
    (fun tc => Returns (demo_find_analysis tc)) demo_shell demo_policy (demo_find_analysis demo_shell) 1
    (with_init_expected false (uncertain_simple demo_find_argv "/w/repo"))
    {| fe_parsed := parseFindActions demo_find_argv; fe_callbacks := [] |}) as (_ & stmts & chain & Hp & Hc & Hprior).
  - by apply demo_command_judged.
  - vm_compute. reflexivity.
  - reflexivity.
  - reflexivity.
  - reflexivity.
  - exact Hallow.
  - injection Hp as <-. injection Hc as <-.
    destruct (Hprior 0%nat _ ltac:(lia) eq_refl) as [_ Hw].
    assert (Hroot : f_scopedDeletionRoot (parseFindActions demo_find_argv) = "/tmp/x") by (vm_compute; reflexivity).
    specialize (Hw "/tmp/x"). cbn [fe_parsed] in Hw. rewrite Hroot in Hw. apply Hw.
    apply (written_operand _ "mkdir" ["-p"; "/tmp/x"]); [reflexivity|by left|by right; left|reflexivity].
Defined.

(** Deleting outside the repository. *)
Lemma delete_spellings_agree_witness :
  option_map v_Decision (checkRmRf demo_path_host (fun _ => true) (plain_simple ["rm"; "-rf"; "/home"] "/w/repo") demo_shell demo_policy)
    = Some Deny /\
  checkCmdDelete demo_path_host (fun _ => true) (plain_simple ["rd"; "/s"; "/q"; "/home"] "/w/repo") demo_shell demo_policy =
    checkRmRf demo_path_host (fun _ => true) (plain_simple ["rm"; "-rf"; "/home"] "/w/repo") demo_shell demo_policy.
Proof.
  split; [vm_compute; reflexivity|].
  apply (delete_spellings_agree demo_path_host (fun _ => true) demo_shell demo_policy "/w/repo" ["/home"]); [done|].
  apply Forall_singleton. done.
Defined.

(** Spellings of deletes that are denied, and of some that are not. *)
Lemma judged_deletes :
  map (fun argv => v_Decision (demo_commands_evaluate demo_no_parse (demo_normalized argv) demo_shell demo_policy))
    [["rm"; "-r"; "-f"; "."]; ["rm"; "--recursive"; "/w"]; ["rm"; "-rf"; "keys/x"]; ["rd"; "/s"; "/q"; "/home"];
     ["Remove-Item"; "-Path"; "/home"; "-Rec"]; ["rm"; "-rf"; "src/../.."];
     ["rm"; "-rf"; "src"]; ["rd"; "/s"; "/q"; "src"]; ["Remove-Item"; "src"; "-Recurse"]] =
  [Deny; Deny; Deny; Deny; Deny; Deny; Allow; Ask; Allow].
Proof. vm_compute. reflexivity. Qed.

(** Three spellings that the rule on [rm] does not read: an abbreviated long option,
    an operand behind [--] that starts with a dash, and braces, which the shell
    expands and the parser leaves in the literal text of the word. *)
Lemma rm_spellings_missed :
  map (fun argv => option_map v_Decision
         (checkRmRf demo_path_host (fun _ => true) (plain_simple argv "/w/repo") demo_shell demo_policy))
    [["rm"; "--recursive"; "/home"]; ["rm"; "--recurs"; "/home"]; ["rm"; "-rf"; "--"; "x/../../.."];
     ["rm"; "-rf"; "--"; "-x/../../.."]; ["rm"; "-rf"; "/etc"; "/usr"]; ["rm"; "-rf"; "{/etc,/usr}"]] =
  [Some Deny; None; Some Deny; None; Some Deny; None].
Proof. vm_compute. reflexivity. Qed.
