(* ===== verification/ShellState.v ===== *)
(** * What is known of a running shell ([cwdState], [cwdOutcome] of [tokenize.go])

    The tokenizer walks a command line with a state that says where the shell is
    and which variables it knows; where two branches meet it keeps what they agree
    on. This file has the state, the outcomes of a statement, how they merge, and
    name references. Its theorems read a state as a set of shells, the shells it
    [describes], and show that merging loses none of them. *)

From Stdlib Require Import ZArith Lia Bool.
From S2P Require Import Prelude GoStrings GoPath Argv Wrappers.

Open Scope string_scope.
Open Scope list_scope.

(** A [map[string]bool] that only ever holds [true] is a set of names; a [nil] map
    and an empty one are the same here. *)
Record cwdState := {
  c_cwd : string;
  c_unknown : bool;
  c_fsUncertain : bool;
  c_ifsUnknown : bool;
  c_cdpath : string;
  c_cdpathSet : bool;
  c_cdpathUnknown : bool;
  c_variables : gmap string string;
  c_namerefs : gmap string string;
  c_assignmentAttributes : gset string;
  c_attributesUnknown : bool;
  c_gitEnvironmentUnknown : bool;
  c_powerShell : bool;
}.

#[global] Instance cwdState_eq_dec : EqDecision cwdState.
Proof. solve_decision. Defined.

(** [cwdState{}] *)
Definition zero_state : cwdState :=
  {| c_cwd := ""; c_unknown := false; c_fsUncertain := false; c_ifsUnknown := false; c_cdpath := "";
     c_cdpathSet := false; c_cdpathUnknown := false; c_variables := ∅; c_namerefs := ∅;
     c_assignmentAttributes := ∅; c_attributesUnknown := false; c_gitEnvironmentUnknown := false;
     c_powerShell := false |}.

(** [state.cwd = cwd; state.unknown = unknown] *)
Definition at_cwd (cwd : string) (unknown : bool) (s : cwdState) : cwdState :=
  {| c_cwd := cwd; c_unknown := unknown; c_fsUncertain := c_fsUncertain s; c_ifsUnknown := c_ifsUnknown s;
     c_cdpath := c_cdpath s; c_cdpathSet := c_cdpathSet s; c_cdpathUnknown := c_cdpathUnknown s;
     c_variables := c_variables s; c_namerefs := c_namerefs s;
     c_assignmentAttributes := c_assignmentAttributes s; c_attributesUnknown := c_attributesUnknown s;
     c_gitEnvironmentUnknown := c_gitEnvironmentUnknown s; c_powerShell := c_powerShell s |}.

(** [state.fsUncertain = uncertain] *)
Definition with_fs (uncertain : bool) (s : cwdState) : cwdState :=
  {| c_cwd := c_cwd s; c_unknown := c_unknown s; c_fsUncertain := uncertain; c_ifsUnknown := c_ifsUnknown s;
     c_cdpath := c_cdpath s; c_cdpathSet := c_cdpathSet s; c_cdpathUnknown := c_cdpathUnknown s;
     c_variables := c_variables s; c_namerefs := c_namerefs s;
     c_assignmentAttributes := c_assignmentAttributes s; c_attributesUnknown := c_attributesUnknown s;
     c_gitEnvironmentUnknown := c_gitEnvironmentUnknown s; c_powerShell := c_powerShell s |}.

Definition fs_changed : cwdState -> cwdState := with_fs true.

Definition with_namerefs (refs : gmap string string) (s : cwdState) : cwdState :=
  {| c_cwd := c_cwd s; c_unknown := c_unknown s; c_fsUncertain := c_fsUncertain s; c_ifsUnknown := c_ifsUnknown s;
     c_cdpath := c_cdpath s; c_cdpathSet := c_cdpathSet s; c_cdpathUnknown := c_cdpathUnknown s;
     c_variables := c_variables s; c_namerefs := refs;
     c_assignmentAttributes := c_assignmentAttributes s; c_attributesUnknown := c_attributesUnknown s;
     c_gitEnvironmentUnknown := c_gitEnvironmentUnknown s; c_powerShell := c_powerShell s |}.

Definition with_attributes (names : gset string) (unknown : bool) (s : cwdState) : cwdState :=
  {| c_cwd := c_cwd s; c_unknown := c_unknown s; c_fsUncertain := c_fsUncertain s; c_ifsUnknown := c_ifsUnknown s;
     c_cdpath := c_cdpath s; c_cdpathSet := c_cdpathSet s; c_cdpathUnknown := c_cdpathUnknown s;
     c_variables := c_variables s; c_namerefs := c_namerefs s;
     c_assignmentAttributes := names; c_attributesUnknown := unknown;
     c_gitEnvironmentUnknown := c_gitEnvironmentUnknown s; c_powerShell := c_powerShell s |}.

(** The variables and what is derived from them. *)
Definition with_facts (variables : gmap string string) (ifsUnknown : bool) (cdpath : string)
    (cdpathSet cdpathUnknown gitUnknown : bool) (s : cwdState) : cwdState :=
  {| c_cwd := c_cwd s; c_unknown := c_unknown s; c_fsUncertain := c_fsUncertain s; c_ifsUnknown := ifsUnknown;
     c_cdpath := cdpath; c_cdpathSet := cdpathSet; c_cdpathUnknown := cdpathUnknown;
     c_variables := variables; c_namerefs := c_namerefs s;
     c_assignmentAttributes := c_assignmentAttributes s; c_attributesUnknown := c_attributesUnknown s;
     c_gitEnvironmentUnknown := gitUnknown; c_powerShell := c_powerShell s |}.

(** ** Name references *)

Fixpoint nameref_walk (refs : gmap string string) (fuel : nat) (seen : gset string) (name : string) : option string :=
  if decide (name ∈ seen) then None
  else match refs !! name with
       | None => Some name
       | Some target =>
           match fuel with
           | O => None
           | S fuel' => nameref_walk refs fuel' ({[name]} ∪ seen) target
           end
       end.

Definition resolveNameref (refs : gmap string string) (name : string) : option string :=
  nameref_walk refs (size refs) ∅ name.

Definition resolveNamerefNames (refs : gmap string string) (names : list string) : option (list string) :=
  mapM (resolveNameref refs) names.

(** ** Variables *)

Definition withoutAllVariables (s : cwdState) : cwdState := with_facts ∅ true "" false true true s.

Definition forget_variables (s : cwdState) : cwdState := with_namerefs ∅ (withoutAllVariables s).

Definition gitRepositoryEnvironment (variables : gmap string string) : gmap string string :=
  filter (fun kv => gitRepositoryEnvironmentVariable kv.1 = true) variables.

Definition withoutResolvedVariables (s : cwdState) (names : list string) : cwdState :=
  let cdpath := in_list "CDPATH" names in
  with_facts (foldr delete (c_variables s) names)
    (c_ifsUnknown s || in_list "IFS" names)
    (if cdpath then "" else c_cdpath s) (c_cdpathSet s && negb cdpath) (c_cdpathUnknown s || cdpath)
    (c_gitEnvironmentUnknown s || existsb gitRepositoryEnvironmentVariable names) s.

Definition withoutVariables (s : cwdState) (names : list string) : cwdState :=
  match resolveNamerefNames (c_namerefs s) names with
  | None => forget_variables s
  | Some resolved => withoutResolvedVariables s resolved
  end.

Definition canPublishExactVariable (s : cwdState) (name : string) : bool :=
  negb (c_attributesUnknown s) && negb (bool_decide (name ∈ c_assignmentAttributes s)).

Definition withVariable (s : cwdState) (name value : string) : cwdState :=
  if negb (canPublishExactVariable s name) then withoutResolvedVariables s [name]
  else
    let cdpath := name =s? "CDPATH" in
    with_facts (<[name := value]> (c_variables s)) (c_ifsUnknown s && (name <>s? "IFS"))
      (if cdpath then value else c_cdpath s) (c_cdpathSet s || cdpath) (c_cdpathUnknown s && negb cdpath)
      (c_gitEnvironmentUnknown s) s.

Definition restoreVariable (s persistent : cwdState) (name : string) : cwdState :=
  if negb (canPublishExactVariable s name) then withoutResolvedVariables s [name]
  else
    let saved := c_variables persistent !! name in
    let ifs := name =s? "IFS" in
    let cdpath := name =s? "CDPATH" in
    with_facts (match saved with Some value => <[name := value]> (c_variables s) | None => delete name (c_variables s) end)
      (if ifs then c_ifsUnknown persistent else c_ifsUnknown s)
      (if cdpath then c_cdpath persistent else c_cdpath s)
      (if cdpath then c_cdpathSet persistent else c_cdpathSet s)
      (if cdpath then c_cdpathUnknown persistent else c_cdpathUnknown s)
      (if negb ifs && negb cdpath && gitRepositoryEnvironmentVariable name
       then c_gitEnvironmentUnknown s || c_gitEnvironmentUnknown persistent || negb (bool_decide (is_Some saved))
       else c_gitEnvironmentUnknown s) s.

(** With no names and certain of them nothing changes; uncertain, nothing is kept. *)
Definition invalidateNamedVariables (s : cwdState) (names : list string) (uncontrolled : bool) : cwdState :=
  if uncontrolled then with_attributes ∅ true (forget_variables s) else withoutVariables s names.

Definition withAssignmentAttributes (s : cwdState) (names : list string) : cwdState :=
  with_attributes (list_to_set names ∪ c_assignmentAttributes s) (c_attributesUnknown s) s.

Definition invalidateExpansionFacts (s : cwdState) : cwdState := forget_variables s.

(** ** Merging *)

(** What two maps agree on. *)
Definition agreed (a b : gmap string string) : gmap string string :=
  merge (fun x y => match x, y with
                    | Some v, Some w => if v =s? w then Some v else None
                    | _, _ => None
                    end) a b.

Definition commonVariables (first : cwdState) (rest : list cwdState) : gmap string string :=
  foldl (fun common s => agreed common (c_variables s)) (c_variables first) rest.

Definition commonNamerefs (first : cwdState) (rest : list cwdState) : gmap string string :=
  foldl (fun common s => agreed common (c_namerefs s)) (c_namerefs first) rest.

Definition combinedAssignmentAttributes (states : list cwdState) : gset string :=
  ⋃ (c_assignmentAttributes <$> states).

Definition sameVariableValue (first : cwdState) (rest : list cwdState) (name : string) : bool :=
  forallb (fun s => bool_decide (c_variables s !! name = c_variables first !! name)) rest.

Definition sameGitRepositoryEnvironment (first : cwdState) (rest : list cwdState) : bool :=
  forallb (fun s => bool_decide (gitRepositoryEnvironment (c_variables first) = gitRepositoryEnvironment (c_variables s))) rest.

Definition mergeVariableFacts (first : cwdState) (rest : list cwdState) : gmap string string * bool * bool :=
  (commonVariables first rest,
   negb (sameVariableValue first rest "IFS") || existsb c_ifsUnknown (first :: rest),
   negb (sameGitRepositoryEnvironment first rest) || existsb c_gitEnvironmentUnknown (first :: rest)).

(** One turn of [mergeCwd]'s loop: the directory, [CDPATH] and what is uncertain. *)
Definition merge_turn (merged s : cwdState) : cwdState :=
  let merged := with_fs (c_fsUncertain merged || c_fsUncertain s) merged in
  let merged := with_attributes (c_assignmentAttributes merged) (c_attributesUnknown merged || c_attributesUnknown s) merged in
  let merged := if c_unknown s || c_unknown merged || (c_cwd s <>s? c_cwd merged) then at_cwd "" true merged else merged in
  if c_cdpathUnknown s || c_cdpathUnknown merged || negb (eqb (c_cdpathSet s) (c_cdpathSet merged)) ||
     (c_cdpath s <>s? c_cdpath merged)
  then with_facts (c_variables merged) (c_ifsUnknown merged) (c_cdpath merged) false true (c_gitEnvironmentUnknown merged) merged
  else merged.

Definition mergeCwd (states : list cwdState) : cwdState :=
  match states with
  | [] => at_cwd "" true zero_state
  | first :: rest =>
      let '(variables, ifsUnknown, gitUnknown) := mergeVariableFacts first rest in
      let merged := with_facts variables ifsUnknown (c_cdpath first) (c_cdpathSet first) (c_cdpathUnknown first) gitUnknown first in
      let merged := with_namerefs (commonNamerefs first rest) merged in
      let merged := with_attributes (combinedAssignmentAttributes states) (c_attributesUnknown first) merged in
      foldl merge_turn merged rest
  end.

Definition unknownCwd (states : list cwdState) : cwdState := withoutVariables (at_cwd "" true (mergeCwd states)) ["PWD"].

Definition cwdMayChange (before after : cwdState) : bool :=
  negb (eqb (c_unknown before) (c_unknown after)) || (c_cwd before <>s? c_cwd after).

Definition sameTrackedShellFacts (l r : cwdState) : bool :=
  (c_cwd l =s? c_cwd r) && eqb (c_unknown l) (c_unknown r) && eqb (c_ifsUnknown l) (c_ifsUnknown r) &&
  (c_cdpath l =s? c_cdpath r) && eqb (c_cdpathSet l) (c_cdpathSet r) && eqb (c_cdpathUnknown l) (c_cdpathUnknown r) &&
  eqb (c_attributesUnknown l) (c_attributesUnknown r) && eqb (c_gitEnvironmentUnknown l) (c_gitEnvironmentUnknown r) &&
  bool_decide (c_variables l = c_variables r) && bool_decide (c_namerefs l = c_namerefs r) &&
  bool_decide (c_assignmentAttributes l = c_assignmentAttributes r).

Definition conservativeLoopState (s : cwdState) : cwdState :=
  fs_changed (unknownCwd [invalidateNamedVariables s [] true]).

(** ** Outcomes of a statement *)

(** The states a statement may leave when it succeeds and when it fails. *)
Record cwdOutcome := {
  o_success : cwdState;
  o_failure : cwdState;
  o_canSuccess : bool;
  o_canFailure : bool;
}.

Definition no_outcome : cwdOutcome :=
  {| o_success := zero_state; o_failure := zero_state; o_canSuccess := false; o_canFailure := false |}.

Definition successOutcome (s : cwdState) : cwdOutcome :=
  {| o_success := s; o_failure := zero_state; o_canSuccess := true; o_canFailure := false |}.

Definition failureOutcome (s : cwdState) : cwdOutcome :=
  {| o_success := zero_state; o_failure := s; o_canSuccess := false; o_canFailure := true |}.

Definition bothOutcome (s : cwdState) : cwdOutcome :=
  {| o_success := s; o_failure := s; o_canSuccess := true; o_canFailure := true |}.

Definition negated (o : cwdOutcome) : cwdOutcome :=
  {| o_success := o_failure o; o_failure := o_success o; o_canSuccess := o_canFailure o; o_canFailure := o_canSuccess o |}.

Definition hasFilesystemUncertainty (o : cwdOutcome) : bool :=
  (o_canSuccess o && c_fsUncertain (o_success o)) || (o_canFailure o && c_fsUncertain (o_failure o)).

Definition merged (o : cwdOutcome) : cwdState :=
  match o_canSuccess o, o_canFailure o with
  | true, true => mergeCwd [o_success o; o_failure o]
  | true, false => o_success o
  | false, true => o_failure o
  | false, false => at_cwd "" true zero_state
  end.

(** One side of [mergeOutcomes]. *)
Definition merge_side (merged : cwdState) (reached : bool) (s : cwdState) (reaches : bool) : cwdState * bool :=
  if reaches then (if reached then mergeCwd [merged; s] else s, true) else (merged, reached).

Definition merge_outcome (m o : cwdOutcome) : cwdOutcome :=
  let '(success, canSuccess) := merge_side (o_success m) (o_canSuccess m) (o_success o) (o_canSuccess o) in
  let '(failure, canFailure) := merge_side (o_failure m) (o_canFailure m) (o_failure o) (o_canFailure o) in
  {| o_success := success; o_failure := failure; o_canSuccess := canSuccess; o_canFailure := canFailure |}.

Definition mergeOutcomes (outcomes : list cwdOutcome) : cwdOutcome := foldl merge_outcome no_outcome outcomes.

Definition conservativeLoopOutcome (s : cwdState) : cwdOutcome := bothOutcome (conservativeLoopState s).

(** ** The shells a state describes *)

(** A shell: where it is, its variables, its name references, and the variables an
    assignment may change on its way in (integer, upper case, read-only, arrays). *)
Record shell := {
  sh_cwd : string;
  sh_vars : gmap string string;
  sh_refs : gmap string string;
  sh_attrs : gset string;
}.

Definition default_ifs : string := String (ascii_of_nat 32) (String (ascii_of_nat 9) (String (ascii_of_nat 10) "")).

(** What the tokenizer takes for the separators, and what they are. *)
Definition state_ifs (s : cwdState) : string := default default_ifs (c_variables s !! "IFS").
Definition shell_ifs (sh : shell) : string := default default_ifs (sh_vars sh !! "IFS").

Record describes (s : cwdState) (sh : shell) : Prop := {
  d_cwd : c_unknown s = false -> c_cwd s = sh_cwd sh;
  d_vars : forall x v, c_variables s !! x = Some v -> sh_vars sh !! x = Some v;
  d_ifs : c_ifsUnknown s = false -> state_ifs s = shell_ifs sh;
  d_cdpath : c_cdpathUnknown s = false -> sh_vars sh !! "CDPATH" = if c_cdpathSet s then Some (c_cdpath s) else None;
  d_refs : c_attributesUnknown s = false -> c_namerefs s = sh_refs sh;
  d_attrs : c_attributesUnknown s = false -> sh_attrs sh ⊆ c_assignmentAttributes s;
}.

(** Once attributes are unknown nothing is known of any variable. *)
Definition state_ok (s : cwdState) : Prop :=
  c_attributesUnknown s = true -> c_variables s = ∅ /\ c_ifsUnknown s = true /\ c_cdpathUnknown s = true.

Create HintDb shell discriminated.

Lemma agreed_spec a b x v : agreed a b !! x = Some v <-> a !! x = Some v /\ b !! x = Some v.
Proof.
  unfold agreed. rewrite lookup_merge. destruct (a !! x) as [v1|], (b !! x) as [v2|]; cbn; try naive_solver.
  destruct (v1 =s? v2) eqn:E; breflect; [subst; naive_solver|]. naive_solver.
Qed.

Lemma agreed_fold (f : cwdState -> gmap string string) rest : forall m x v,
  foldl (fun common s => agreed common (f s)) m rest !! x = Some v <->
  m !! x = Some v /\ forall s, s ∈ rest -> f s !! x = Some v.
Proof.
  induction rest as [|s rest IH]; intros m x v; cbn [foldl].
  - split; [intros H; split; [done|]|by intros [H _]]. intros s Hs. by apply elem_of_nil in Hs.
  - rewrite IH, agreed_spec. setoid_rewrite elem_of_cons. naive_solver.
Qed.

Lemma common_variables_spec first rest x v :
  commonVariables first rest !! x = Some v <-> forall s, s ∈ first :: rest -> c_variables s !! x = Some v.
Proof. unfold commonVariables. rewrite agreed_fold. setoid_rewrite elem_of_cons. naive_solver. Qed.

Lemma common_namerefs_spec first rest x v :
  commonNamerefs first rest !! x = Some v <-> forall s, s ∈ first :: rest -> c_namerefs s !! x = Some v.
Proof. unfold commonNamerefs. rewrite agreed_fold. setoid_rewrite elem_of_cons. naive_solver. Qed.

(** What the loop of [mergeCwd] leaves as it is. *)
Lemma merge_turn_keeps m s :
  c_variables (merge_turn m s) = c_variables m /\ c_namerefs (merge_turn m s) = c_namerefs m /\
  c_ifsUnknown (merge_turn m s) = c_ifsUnknown m /\ c_assignmentAttributes (merge_turn m s) = c_assignmentAttributes m /\
  c_gitEnvironmentUnknown (merge_turn m s) = c_gitEnvironmentUnknown m /\ c_powerShell (merge_turn m s) = c_powerShell m /\
  c_fsUncertain (merge_turn m s) = c_fsUncertain m || c_fsUncertain s /\
  c_attributesUnknown (merge_turn m s) = c_attributesUnknown m || c_attributesUnknown s.
Proof.
  unfold merge_turn. cbn.
  repeat case_match; cbn; auto 10.
Qed.

Lemma merge_fold_keeps rest : forall m,
  c_variables (foldl merge_turn m rest) = c_variables m /\ c_namerefs (foldl merge_turn m rest) = c_namerefs m /\
  c_ifsUnknown (foldl merge_turn m rest) = c_ifsUnknown m /\
  c_assignmentAttributes (foldl merge_turn m rest) = c_assignmentAttributes m /\
  c_fsUncertain (foldl merge_turn m rest) = c_fsUncertain m || existsb c_fsUncertain rest /\
  c_attributesUnknown (foldl merge_turn m rest) = c_attributesUnknown m || existsb c_attributesUnknown rest.
Proof.
  induction rest as [|s rest IH]; intros m; cbn [foldl existsb]; [by rewrite !orb_false_r|].
  destruct (merge_turn_keeps m s) as (? & ? & ? & ? & ? & ? & Hf & Ha).
  destruct (IH (merge_turn m s)) as (-> & -> & -> & -> & -> & ->). rewrite Hf, Ha, <- !orb_assoc. auto 10.
Qed.

(** A directory is known after merging when every state knows the same one. *)
Lemma merge_turn_cwd m s :
  c_unknown (merge_turn m s) = false ->
  c_unknown m = false /\ c_unknown s = false /\ c_cwd s = c_cwd m /\ c_cwd (merge_turn m s) = c_cwd m.
Proof.
  unfold merge_turn. cbn. destruct (c_unknown s || c_unknown m || (c_cwd s <>s? c_cwd m)) eqn:E; cbn.
  - by case_match.
  - intros H. breflect. by case_match.
Qed.

Lemma merge_fold_cwd rest : forall m,
  c_unknown (foldl merge_turn m rest) = false ->
  c_unknown m = false /\ c_cwd (foldl merge_turn m rest) = c_cwd m /\
  forall s, s ∈ rest -> c_unknown s = false /\ c_cwd s = c_cwd m.
Proof.
  induction rest as [|s rest IH]; intros m H; cbn [foldl] in *.
  - split_and!; [done|done|]. intros s Hs. by apply elem_of_nil in Hs.
  - destruct (IH _ H) as (Hm & Hc & Hr). destruct (merge_turn_cwd _ _ Hm) as (Hm' & Hs & He & Hc').
    rewrite Hc' in *. split_and!; [done|done|]. intros t [->|Ht]%elem_of_cons; [done|by apply Hr].
Qed.

Lemma merge_turn_cdpath m s :
  c_cdpathUnknown (merge_turn m s) = false ->
  c_cdpathUnknown m = false /\ c_cdpathUnknown s = false /\ c_cdpathSet s = c_cdpathSet m /\ c_cdpath s = c_cdpath m /\
  c_cdpathSet (merge_turn m s) = c_cdpathSet m /\ c_cdpath (merge_turn m s) = c_cdpath m.
Proof.
  unfold merge_turn. cbn. set (k := if c_unknown s || _ || _ then _ else _).
  assert (Hk : c_cdpathUnknown k = c_cdpathUnknown m /\ c_cdpathSet k = c_cdpathSet m /\ c_cdpath k = c_cdpath m)
    by (unfold k; by case_match).
  destruct Hk as (Hu & Hs & Hp). rewrite Hu, Hs, Hp. clearbody k.
  destruct (c_cdpathUnknown s || c_cdpathUnknown m || negb (eqb (c_cdpathSet s) (c_cdpathSet m)) || _) eqn:E; [done|].
  intros _. breflect. repeat match goal with H : _ || _ = false |- _ => apply orb_false_iff in H as [? ?] end.
  breflect. rewrite Hs, Hp. split_and!; try done. by apply eqb_prop.
Qed.

Lemma merge_fold_cdpath rest : forall m,
  c_cdpathUnknown (foldl merge_turn m rest) = false ->
  c_cdpathUnknown m = false /\ c_cdpathSet (foldl merge_turn m rest) = c_cdpathSet m /\
  c_cdpath (foldl merge_turn m rest) = c_cdpath m /\
  forall s, s ∈ rest -> c_cdpathUnknown s = false /\ c_cdpathSet s = c_cdpathSet m /\ c_cdpath s = c_cdpath m.
Proof.
  induction rest as [|s rest IH]; intros m H; cbn [foldl] in *.
  - split_and!; try done. intros s Hs. by apply elem_of_nil in Hs.
  - destruct (IH _ H) as (Hm & Hc & Hp & Hr). destruct (merge_turn_cdpath _ _ Hm) as (Hm' & Hs & Hset & Hpath & Hset' & Hpath').
    rewrite Hset', Hpath' in *. split_and!; try done. intros t [->|Ht]%elem_of_cons; [done|by apply Hr].
Qed.

(** What a merged state has, by the states it merges. *)
Lemma merge_facts first rest :
  let m := mergeCwd (first :: rest) in
  c_variables m = commonVariables first rest /\ c_namerefs m = commonNamerefs first rest /\
  c_ifsUnknown m = negb (sameVariableValue first rest "IFS") || existsb c_ifsUnknown (first :: rest) /\
  c_assignmentAttributes m = combinedAssignmentAttributes (first :: rest) /\
  c_fsUncertain m = existsb c_fsUncertain (first :: rest) /\
  c_attributesUnknown m = existsb c_attributesUnknown (first :: rest).
Proof.
  unfold mergeCwd, mergeVariableFacts. cbn zeta.
  set (base := with_attributes _ _ _).
  destruct (merge_fold_keeps rest base) as (-> & -> & -> & -> & -> & ->). done.
Qed.

Lemma existsb_false {A} (f : A -> bool) l : existsb f l = false <-> forall a, a ∈ l -> f a = false.
Proof.
  induction l as [|b l IH]; cbn.
  - split; [intros _ a Ha; by apply elem_of_nil in Ha|done].
  - rewrite orb_false_iff, IH. setoid_rewrite elem_of_cons. naive_solver.
Qed.

Lemma merge_cwd_known states s :
  s ∈ states -> c_unknown (mergeCwd states) = false -> c_unknown s = false /\ c_cwd (mergeCwd states) = c_cwd s.
Proof.
  destruct states as [|first rest]; intros Hs H; [by apply elem_of_nil in Hs|].
  unfold mergeCwd in *. cbn zeta in *. destruct (mergeVariableFacts first rest) as [[vs ifs] git].
  destruct (merge_fold_cwd _ _ H) as (Hm & -> & Hr). cbn in *.
  apply elem_of_cons in Hs as [->|Hs]; [done|]. destruct (Hr _ Hs) as [? ->]. done.
Qed.

Lemma merge_cdpath_known states s :
  s ∈ states -> c_cdpathUnknown (mergeCwd states) = false ->
  c_cdpathUnknown s = false /\ c_cdpathSet (mergeCwd states) = c_cdpathSet s /\ c_cdpath (mergeCwd states) = c_cdpath s.
Proof.
  destruct states as [|first rest]; intros Hs H; [by apply elem_of_nil in Hs|].
  unfold mergeCwd in *. cbn zeta in *. destruct (mergeVariableFacts first rest) as [[vs ifs] git].
  destruct (merge_fold_cdpath _ _ H) as (Hm & -> & -> & Hr). cbn in *.
  apply elem_of_cons in Hs as [->|Hs]; [done|]. destruct (Hr _ Hs) as (? & -> & ->). done.
Qed.

(** The states of a list that agree on their name references. *)
Definition same_namerefs (states : list cwdState) : Prop :=
  forall a b, a ∈ states -> b ∈ states -> c_namerefs a = c_namerefs b.

Lemma merge_namerefs states s :
  same_namerefs states -> s ∈ states -> c_namerefs (mergeCwd states) = c_namerefs s.
Proof.
  intros Hsame Hs. destruct states as [|first rest]; [by apply elem_of_nil in Hs|].
  destruct (merge_facts first rest) as (_ & -> & _). apply map_eq. intros r.
  apply option_eq. intros t. rewrite common_namerefs_spec. split.
  - intros H. by apply H.
  - intros H t' Ht'. by rewrite (Hsame t' s Ht' Hs).
Qed.

(** A shell that one of the states describes is described by their merge, as long as
    the states agree on what is a name reference ([merge_forgets_nameref] is what
    happens when they do not). *)
Lemma merge_sound states s sh :
  s ∈ states -> same_namerefs states -> describes s sh -> describes (mergeCwd states) sh.
Proof.
  intros Hs Hsame [Hcwd Hvars Hifs Hcd Hrefs Hattrs].
  pose proof (merge_namerefs _ _ Hsame Hs) as Hn.
  destruct states as [|first rest]; [by apply elem_of_nil in Hs|].
  destruct (merge_facts first rest) as (Hv & _ & Hi & Ha & _ & Hu).
  assert (Hknown : c_attributesUnknown (mergeCwd (first :: rest)) = false -> c_attributesUnknown s = false)
    by (rewrite Hu, existsb_false; intros H; by apply H).
  split.
  - intros H. destruct (merge_cwd_known _ _ Hs H) as [Hk ->]. by apply Hcwd.
  - intros x v. rewrite Hv, common_variables_spec. intros H. apply Hvars. by apply H.
  - rewrite Hi, orb_false_iff, existsb_false, negb_false_iff. intros [Hval Hnone].
    rewrite <- (Hifs (Hnone _ Hs)). unfold state_ifs. f_equal. rewrite Hv.
    unfold sameVariableValue in Hval. rewrite forallb_forall in Hval.
    assert (Hall : forall t, t ∈ first :: rest -> c_variables t !! "IFS" = c_variables first !! "IFS").
    { intros t [->|Ht]%elem_of_cons; [done|]. apply list_elem_of_In in Ht. specialize (Hval _ Ht). by case_bool_decide. }
    apply option_eq. intros v. rewrite common_variables_spec. split; [intros H; by apply H|].
    intros H t Ht. by rewrite (Hall t Ht), <- (Hall s Hs).
  - intros H. destruct (merge_cdpath_known _ _ Hs H) as (Hk & -> & ->). by apply Hcd.
  - intros H. rewrite Hn. by apply Hrefs, Hknown.
  - intros H. rewrite Ha. etrans; [by apply Hattrs, Hknown|]. unfold combinedAssignmentAttributes.
    intros x Hx. apply elem_of_union_list. exists (c_assignmentAttributes s). split; [|done].
    apply list_elem_of_fmap. by exists s.
Qed.

Lemma merge_ok states : (forall s, s ∈ states -> state_ok s) -> state_ok (mergeCwd states).
Proof.
  destruct states as [|first rest]; intros H Hu; [done|].
  destruct (merge_facts first rest) as (-> & _ & -> & _ & _ & Ha). rewrite Ha in Hu.
  apply existsb_exists in Hu as (s & Hs & Hu). apply list_elem_of_In in Hs. destruct (H _ Hs Hu) as (Hv & Hi & Hc). split_and!.
  - apply map_eq. intros x. rewrite lookup_empty. apply eq_None_not_Some. intros [v Hx]. rewrite common_variables_spec in Hx.
    specialize (Hx _ Hs). by rewrite Hv, lookup_empty in Hx.
  - apply orb_true_iff. right. apply existsb_exists. exists s. split; [by apply list_elem_of_In|done].
  - apply not_false_iff_true. intros Hk. destruct (merge_cdpath_known _ _ Hs Hk). congruence.
Qed.

(** ** Name references *)

(** [leads_to refs n t]: following references from [n] ends at [t]. *)
Inductive leads_to (refs : gmap string string) : string -> string -> Prop :=
| leads_nil n : refs !! n = None -> leads_to refs n n
| leads_step n m t : refs !! n = Some m -> leads_to refs m t -> leads_to refs n t.

(** [reaches refs n m]: following one reference or more from [n] passes [m]. *)
Inductive reaches (refs : gmap string string) : string -> string -> Prop :=
| reaches_one n m : refs !! n = Some m -> reaches refs n m
| reaches_step n m t : refs !! n = Some m -> reaches refs m t -> reaches refs n t.

Lemma reaches_snoc refs n m t : reaches refs n m -> refs !! m = Some t -> reaches refs n t.
Proof. induction 1; intros Ht; [eapply reaches_step; [done|by apply reaches_one]|]. eapply reaches_step; [done|auto]. Qed.

Lemma leads_to_ends refs n t : leads_to refs n t -> ~ reaches refs n n.
Proof.
  induction 1 as [n Hn|n m t Hn Hl IH]; intros Hr.
  - inversion Hr; congruence.
  - apply IH. inversion Hr as [? ? Hx|? m' ? Hx Hr']; subst; rewrite Hn in Hx; injection Hx as <-.
    + by apply reaches_one.
    + by eapply reaches_snoc.
Qed.

Lemma nameref_walk_sound refs fuel : forall seen n t, nameref_walk refs fuel seen n = Some t -> leads_to refs n t.
Proof.
  induction fuel as [|fuel IH]; intros seen n t; cbn; case_decide; try done; destruct (refs !! n) as [m|] eqn:E; try done.
  - intros [= ->]. by apply leads_nil.
  - intros Hw. eapply leads_step; [done|]. by eapply IH.
  - intros [= ->]. by apply leads_nil.
Qed.

Lemma nameref_walk_complete refs n t :
  leads_to refs n t -> forall fuel seen,
  seen ⊆ dom refs -> (size refs <= size seen + fuel)%nat -> (forall s, s ∈ seen -> reaches refs s n) ->
  nameref_walk refs fuel seen n = Some t.
Proof.
  induction 1 as [n Hn|n m t Hn Hl IH]; intros fuel seen Hdom Hsize Hseen.
  - assert (n ∉ seen) by (intros Hin; apply (proj1 (elem_of_subseteq _ _) Hdom) in Hin; by apply elem_of_dom in Hin as [? ?]; congruence).
    destruct fuel; cbn; (case_decide; [done|]); by rewrite Hn.
  - assert (Hn' : n ∉ seen).
    { intros Hin. apply (leads_to_ends refs n t); [by eapply leads_step|]. by apply Hseen. }
    assert (Hnew : {[n]} ∪ seen ⊆ dom refs).
    { intros x [->%elem_of_singleton|Hx]%elem_of_union; [apply elem_of_dom; by exists m|by apply Hdom]. }
    pose proof (subseteq_size _ _ Hnew) as Hle. rewrite size_union, size_singleton, size_dom in Hle by set_solver.
    destruct fuel as [|fuel]; [exfalso; lia|]. cbn. case_decide; [done|]. rewrite Hn. apply IH; [done| |].
    + rewrite size_union, size_singleton by set_solver. lia.
    + intros s [->%elem_of_singleton|Hs]%elem_of_union; [by apply reaches_one|]. eapply reaches_snoc; [by apply Hseen|done].
Qed.

(** Following references takes at most one turn per reference: it answers the end of
    the chain, and nothing exactly when there is none. *)
Lemma resolveNameref_spec refs n t : resolveNameref refs n = Some t <-> leads_to refs n t.
Proof.
  split; [by apply nameref_walk_sound|]. intros Hl. by apply nameref_walk_complete; [|set_solver|lia|set_solver].
Qed.

Lemma resolve_names_spec refs names targets :
  resolveNamerefNames refs names = Some targets <-> Forall2 (leads_to refs) names targets.
Proof.
  unfold resolveNamerefNames. rewrite mapM_Some. split; intros H; (eapply Forall2_impl; [exact H|]); intros n t;
    by rewrite resolveNameref_spec.
Qed.

(** ** Changes of a shell's variables *)

Definition set_var (sh : shell) (name : string) (value : option string) : shell :=
  {| sh_cwd := sh_cwd sh; sh_vars := match value with Some v => <[name := v]> (sh_vars sh) | None => delete name (sh_vars sh) end;
     sh_refs := sh_refs sh; sh_attrs := sh_attrs sh |}.

(** Shells that differ in nothing but some variables. *)
Definition differ_in (names : list string) (a b : shell) : Prop :=
  sh_cwd a = sh_cwd b /\ sh_refs a = sh_refs b /\ sh_attrs a = sh_attrs b /\
  forall x, x ∉ names -> sh_vars a !! x = sh_vars b !! x.

Lemma set_var_differs sh name value : differ_in [name] sh (set_var sh name value).
Proof.
  split_and!; try done. intros x Hx. assert (x <> name) by set_solver.
  destruct value; cbn; [by rewrite lookup_insert_ne|by rewrite lookup_delete_ne].
Qed.

(** Where no variable is known the directory is all a state says. *)
Lemma describes_forgotten s sh :
  state_ok s -> c_attributesUnknown s = true -> (c_unknown s = false -> c_cwd s = sh_cwd sh) -> describes s sh.
Proof.
  intros Hok Hu Hc. destruct (Hok Hu) as (Hv & Hi & Hp). split; try congruence; try done. intros x v. by rewrite Hv, lookup_empty.
Qed.

Lemma lookup_foldr_delete (names : list string) (m : gmap string string) x :
  foldr delete m names !! x = if decide (x ∈ names) then None else m !! x.
Proof.
  induction names as [|n names IH]; cbn [foldr]; [by rewrite decide_False by set_solver|].
  destruct (decide (x = n)) as [->|Hn]; [rewrite lookup_delete_eq, decide_True; [done|set_solver]|].
  rewrite lookup_delete_ne by done. rewrite IH. destruct (decide (x ∈ names)); [by rewrite decide_True by set_solver|].
  by rewrite decide_False by set_solver.
Qed.

Lemma without_resolved_describes s names sh sh' :
  describes s sh -> differ_in names sh sh' -> describes (withoutResolvedVariables s names) sh'.
Proof.
  intros [Hcwd Hvars Hifs Hcd Hrefs Hattrs] (Hc & Hr & Ha & Hv). unfold withoutResolvedVariables. split; cbn.
  - by rewrite <- Hc.
  - intros x v. rewrite lookup_foldr_delete. case_decide; [done|]. rewrite <- Hv by done. apply Hvars.
  - intros [Hi Hn]%orb_false_iff. rewrite in_list_false in Hn. unfold state_ifs, shell_ifs. cbn.
    rewrite lookup_foldr_delete, decide_False by done. rewrite <- Hv by done. by apply Hifs.
  - intros [Hi Hn]%orb_false_iff. rewrite in_list_false in Hn. rewrite <- Hv by done.
    rewrite (proj2 (in_list_false _ _) Hn), andb_true_r. by apply Hcd.
  - by rewrite <- Hr.
  - by rewrite <- Ha.
Qed.

Lemma without_resolved_ok s names : state_ok s -> state_ok (withoutResolvedVariables s names).
Proof.
  intros H Hu. destruct (H Hu) as (Hv & Hi & Hc). cbn. rewrite Hi, Hc. split_and!; try done. rewrite Hv.
  apply map_eq. intros x. rewrite lookup_foldr_delete, lookup_empty. by case_decide.
Qed.

Lemma forget_ok s : state_ok (forget_variables s). Proof. intros _. done. Qed.

Lemma invalidate_all_ok s names : state_ok (invalidateNamedVariables s names true). Proof. intros _. done. Qed.

Lemma without_ok s names : state_ok s -> state_ok (withoutVariables s names).
Proof. intros H. unfold withoutVariables. case_match; [by apply without_resolved_ok|apply forget_ok]. Qed.

Lemma with_variable_ok s name value : state_ok s -> state_ok (withVariable s name value).
Proof.
  intros H. unfold withVariable. destruct (canPublishExactVariable s name) eqn:E; cbn [negb]; [|by apply without_resolved_ok].
  unfold canPublishExactVariable in E. breflect. intros Hu. cbn in Hu. congruence.
Qed.

Lemma restore_variable_ok s persistent name : state_ok s -> state_ok (restoreVariable s persistent name).
Proof.
  intros H. unfold restoreVariable. destruct (canPublishExactVariable s name) eqn:E; cbn [negb]; [|by apply without_resolved_ok].
  unfold canPublishExactVariable in E. breflect. intros Hu. cbn in Hu. congruence.
Qed.

Lemma unknown_cwd_ok states : (forall s, s ∈ states -> state_ok s) -> state_ok (unknownCwd states).
Proof. intros H. apply without_ok. intros Hu. by apply (merge_ok states H). Qed.

(** A variable that takes exactly the value it is given. *)
Lemma publish_describes s sh name value :
  describes s sh -> canPublishExactVariable s name = true -> describes (withVariable s name value) (set_var sh name (Some value)).
Proof.
  intros [Hcwd Hvars Hifs Hcd Hrefs Hattrs] Hp. unfold withVariable. rewrite Hp. cbn [negb]. split; cbn; try done.
  - intros x v. rewrite !lookup_insert_Some. intros [[-> ->]|[Hn Hx]]; [by left|right]. auto.
  - intros Hi. unfold state_ifs, shell_ifs. cbn. destruct (name =s? "IFS") eqn:E; breflect; [subst; by rewrite !lookup_insert_eq|].
    rewrite !lookup_insert_ne by done. rewrite andb_true_r in Hi. by apply Hifs.
  - intros Hi. destruct (name =s? "CDPATH") eqn:E; breflect.
    + subst. by rewrite lookup_insert_eq, orb_true_r.
    + rewrite andb_true_r in Hi. rewrite lookup_insert_ne, orb_false_r by done. by apply Hcd.
Qed.

(** An assignment the shell may change on its way in, or not make at all. *)
Lemma blocked_describes s sh name value new :
  state_ok s -> describes s sh -> canPublishExactVariable s name = false ->
  describes (withVariable s name value) (set_var sh name new).
Proof.
  intros Hok H Hp. unfold withVariable. rewrite Hp. cbn [negb].
  apply (without_resolved_describes s [name] sh); [done|apply set_var_differs].
Qed.

Lemma merge_one s : mergeCwd [s] = s.
Proof.
  destruct s. unfold mergeCwd, with_attributes, with_namerefs, with_facts, combinedAssignmentAttributes, commonNamerefs, commonVariables. cbn.
  f_equal; [by rewrite !orb_false_r|set_solver|by rewrite !orb_false_r].
Qed.

(** A variable known again, of a shell that has it. *)
Lemma publish_known s sh name value :
  name <> "IFS" -> name <> "CDPATH" -> canPublishExactVariable s name = true -> sh_vars sh !! name = Some value ->
  describes (withoutResolvedVariables s [name]) sh -> describes (withVariable s name value) sh.
Proof.
  intros Hi Hc Hp Hv Hd. unfold withVariable. rewrite Hp. cbn [negb]. unfold withoutResolvedVariables in Hd.
  rewrite (proj2 (string_eqb_false _ _) Hi), (proj2 (string_eqb_false _ _) Hc).
  rewrite (proj2 (in_list_false "IFS" [name])), (proj2 (in_list_false "CDPATH" [name])) in Hd by set_solver.
  destruct Hd as [Hcwd Hvars Hifs Hcd Hrefs Hattrs]. cbn in Hcwd, Hvars, Hifs, Hcd, Hrefs, Hattrs.
  rewrite orb_false_r in Hifs, Hcd. rewrite andb_true_r in Hcd. split; cbn; rewrite ?orb_false_r, ?andb_true_r; try done.
  - intros x v. rewrite lookup_insert_Some. intros [[<- <-]|[Hn Hx]]; [done|]. apply Hvars. by rewrite lookup_delete_ne.
  - intros Hk. rewrite <- (Hifs Hk). unfold state_ifs. cbn. by rewrite lookup_insert_ne, lookup_delete_ne.
Qed.
