(* ===== verification/ShellVars.v ===== *)
(** * Assignments, declarations and the words they determine ([tokenize.go])

    Which variables a command changes and how the tokenizer follows it: assignments
    in front of a command, the builtins that set variables by name, declarations with
    their attributes, effects of expansions, and the words it can read through the
    variables it knows. The theorems read a word the way a shell expands it. *)

From Stdlib Require Import ZArith Lia Bool.
From S2P Require Import Prelude GoStrings Argv Wrappers Syntax ShellState.

Open Scope string_scope.
Open Scope list_scope.

Definition name_start (c : ascii) : bool := Ascii.eqb c "_" || is_letter c.
Definition name_byte (c : ascii) : bool := name_start c || is_digit c.

Definition validShellVariableName (name : string) : bool :=
  match name with
  | EmptyString => false
  | String c rest => name_start c && all_bytes name_byte rest
  end.

(** ** Builtins that set variables *)

Definition assignmentDeclarationBuiltin (name : string) : bool := in_list name ["declare"; "typeset"; "local"; "readonly"].

(** The letters of one option word: [None] is an option that is not understood. *)
Fixpoint declaration_letters (plus : bool) (letters : string) (attributes : bool) : option bool :=
  match letters with
  | EmptyString => Some attributes
  | String c rest =>
      if negb (ContainsByte "aAfFgiIlnprtux" c) then None
      else if ContainsByte "aAilnru" c then (if plus then None else declaration_letters plus rest true)
      else declaration_letters plus rest attributes
  end.

Definition is_signed (arg : string) : option (bool * string) :=
  match arg with
  | String c ((String _ _) as letters) =>
      if Ascii.eqb c "-" then Some (false, letters) else if Ascii.eqb c "+" then Some (true, letters) else None
  | _ => None
  end.

Fixpoint declaration_words (args : list string) (options : bool) (names : list string) (attributes : bool)
    : list string * bool * bool :=
  match args with
  | [] => (names, attributes, false)
  | arg :: rest =>
      if options && (arg =s? "--") then declaration_words rest false names attributes
      else
        match (if options then is_signed arg else None) with
        | Some (plus, letters) =>
            match declaration_letters plus letters attributes with
            | None => (names, false, true)
            | Some attributes => declaration_words rest options names attributes
            end
        | None =>
            let '(name, _, _) := Cut arg "=" in
            if validShellVariableName name then declaration_words rest false (names ++ [name]) attributes
            else (names, false, true)
        end
  end.

(** The names, whether they get an attribute that changes assignments, and whether
    the call could not be followed. *)
Definition declarationCallEffects (argv : list string) : list string * bool * bool :=
  match argv with
  | [] => ([], false, true)
  | name :: args =>
      if assignmentDeclarationBuiltin name then declaration_words args true [] (name =s? "readonly") else ([], false, true)
  end.

Fixpoint printfVariableName (argv : list string) : option string :=
  match argv with
  | [] => None
  | arg :: rest =>
      if arg =s? "--" then None
      else if arg =s? "-v" then hd_error rest
      else if HasPrefix arg "-v" then Some (sdrop 2 arg)
      else printfVariableName rest
  end.

(** What a cluster of options comes to: an option with a value, the rest of the
    cluster its value when there is any. *)
Inductive cluster := ClusterDone | ClusterBad | ClusterValue (option : ascii) (value : string).

Fixpoint read_cluster (letters : string) : cluster :=
  match letters with
  | EmptyString => ClusterDone
  | String c rest =>
      if ContainsByte "adinNptu" c then ClusterValue c rest
      else if ContainsByte "ers" c then read_cluster rest else ClusterBad
  end.

(** The names [read] is given; [None] when its options could not be read. *)
Fixpoint read_words (argv names : list string) : option (list string) :=
  match argv with
  | [] => Some names
  | arg :: rest =>
      if arg =s? "--" then Some (names ++ rest)
      else if HasPrefix arg "-" && (arg <>s? "-") then
        match read_cluster (TrimPrefix arg "-") with
        | ClusterDone => read_words rest names
        | ClusterBad => None
        | ClusterValue c value =>
            let named v := if Ascii.eqb c "a" then names ++ [v] else names in
            if value =s? "" then
              match rest with
              | [] => None
              | next :: rest => read_words rest (named next)
              end
            else read_words rest (named value)
        end
      else read_words rest (names ++ [arg])
  end.

Definition readVariableNames (argv : list string) : list string * bool :=
  match read_words argv [] with
  | None => ([], true)
  | Some names =>
      if existsb (fun n => negb (validShellVariableName n)) names then (names, true)
      else match names with [] => (["REPLY"], false) | _ => (names, false) end
  end.

Fixpoint mapfile_cluster (letters : string) : cluster :=
  match letters with
  | EmptyString => ClusterDone
  | String c rest =>
      if ContainsByte "dnOsuCc" c then ClusterValue c rest
      else if Ascii.eqb c "t" then mapfile_cluster rest else ClusterBad
  end.

Fixpoint mapfileVariableNames (argv : list string) : list string * bool :=
  match argv with
  | [] => (["MAPFILE"], false)
  | arg :: rest =>
      if arg =s? "--" then
        match rest with
        | [] => (["MAPFILE"], false)
        | name :: _ => ([name], negb (validShellVariableName name))
        end
      else if negb (HasPrefix arg "-") || (arg =s? "-") then ([arg], negb (validShellVariableName arg))
      else
        match mapfile_cluster (TrimPrefix arg "-") with
        | ClusterDone => mapfileVariableNames rest
        | ClusterBad => ([], true)
        | ClusterValue c value =>
            if value =s? "" then
              match rest with
              | [] => ([], true)
              | _ :: rest => if Ascii.eqb c "C" then ([], true) else mapfileVariableNames rest
              end
            else if Ascii.eqb c "C" then ([], true) else mapfileVariableNames rest
        end
  end.

Fixpoint declaration_names (argv names : list string) : list string * bool :=
  match argv with
  | [] => (names, false)
  | arg :: rest =>
      if HasPrefix arg "-" then declaration_names rest names
      else
        let '(name, _, _) := Cut arg "=" in
        if validShellVariableName name then declaration_names rest (names ++ [name]) else (names, true)
  end.

Definition declarationArgumentNames (argv : list string) : list string * bool := declaration_names argv [].

Definition invalidateDeclarationCallVariables (s : cwdState) (argv : list string) : cwdState :=
  let '(names, attributes, uncontrolled) := declarationCallEffects argv in
  let s := invalidateNamedVariables s names uncontrolled in
  if uncontrolled || negb attributes then s else withAssignmentAttributes s names.

(** What is no longer known after a call of the command. *)
Definition invalidateCallVariables (s : cwdState) (argv : list string) : cwdState :=
  let named '(names, uncontrolled) := invalidateNamedVariables s names uncontrolled in
  match argv with
  | [] => s
  | name :: args =>
      if name =s? "cd" then withoutVariables s ["OLDPWD"]
      else if in_list name ["pushd"; "popd"] then withoutVariables s ["PWD"; "OLDPWD"]
      else if in_list name ["."; "source"] then invalidateNamedVariables s [] true
      else if name =s? "read" then named (readVariableNames args)
      else if in_list name ["readarray"; "mapfile"] then
        let '(names, uncontrolled) := mapfileVariableNames args in
        let s := invalidateNamedVariables s names uncontrolled in
        if uncontrolled then fs_changed (unknownCwd [s]) else s
      else if assignmentDeclarationBuiltin name then invalidateDeclarationCallVariables s argv
      else if in_list name ["export"; "unset"] then named (declarationArgumentNames args)
      else if name =s? "getopts" then
        match args with
        | _ :: target :: _ => invalidateNamedVariables s [target; "OPTARG"; "OPTIND"] (negb (validShellVariableName target))
        | _ => s
        end
      else if name =s? "let" then forget_variables s
      else if in_list name ["set"; "shopt"; "trap"] then invalidateNamedVariables s [] true
      else if name =s? "printf" then
        match printfVariableName args with
        | Some target => invalidateNamedVariables s [target] (negb (validShellVariableName target))
        | None => s
        end
      else s
  end.

(** ** Assignments *)

Section Words.
Context (QuoteMeta : string -> string).

#[local] Notation static w := (staticWord QuoteMeta w false).

(** [staticWord] of a word that may be missing. *)
Definition static_value (w : option Word) : option string := match w with Some w => static w | None => None end.

Definition call_assignment (s : cwdState) (a : Assign) : option cwdState :=
  match as_Name a with
  | None => Some s
  | Some name =>
      match resolveNameref (c_namerefs s) name with
      | None => None
      | Some target =>
          if target <>s? name then Some (withoutVariables s [target])
          else if as_Append a || bool_decide (is_Some (as_Index a)) || bool_decide (is_Some (as_Array a))
          then Some (withoutVariables s [name])
          else
            match as_Value a with
            | None => Some (withVariable s name "")
            | Some w => match static w with
                        | Some value => Some (withVariable s name value)
                        | None => Some (withoutVariables s [name])
                        end
            end
      end
  end.

(** A reference that leads nowhere forgets everything and ends the loop. *)
Fixpoint applyCallAssignments (s : cwdState) (assigns : list Assign) : cwdState :=
  match assigns with
  | [] => s
  | a :: rest =>
      match call_assignment s a with
      | None => forget_variables s
      | Some s => applyCallAssignments s rest
      end
  end.

Definition applyPersistentAssignments (s : cwdState) (assigns : list Assign) : cwdState := applyCallAssignments s assigns.

Definition assigned_names (assigns : list Assign) : list string := omap as_Name assigns.

(** The assignments of a call last as long as the call. *)
Definition restore_state (persistent : cwdState) (resolved : option (list string)) (s : cwdState) : cwdState :=
  match resolved with
  | None => forget_variables s
  | Some names =>
      let restored := foldl (fun s name => restoreVariable s persistent name) s names in
      with_namerefs (foldl (fun refs name => match c_namerefs persistent !! name with
                                             | Some target => <[name := target]> refs
                                             | None => delete name refs
                                             end) (c_namerefs s) names) restored
  end.

Definition restoreCallAssignments (out : cwdOutcome) (persistent : cwdState) (assigns : list Assign) : cwdOutcome :=
  let resolved := resolveNamerefNames (c_namerefs persistent) (assigned_names assigns) in
  {| o_success := if o_canSuccess out then restore_state persistent resolved (o_success out) else o_success out;
     o_failure := if o_canFailure out then restore_state persistent resolved (o_failure out) else o_failure out;
     o_canSuccess := o_canSuccess out; o_canFailure := o_canFailure out |}.

(** ** Declarations *)

Definition option_letters (a : Assign) : option string :=
  match as_Name a with
  | Some _ => None
  | None => match static_value (as_Value a) with
            | Some value => CutPrefix value "-"
            | None => None
            end
  end.

Definition declarationHasAssignmentAttributes (variant : string) (args : list Assign) : bool :=
  in_list variant ["nameref"; "readonly"] ||
  existsb (fun a => match option_letters a with Some letters => ContainsAny letters "aAilnru" | None => false end) args.

Definition declarationCreatesNameref (variant : string) (args : list Assign) : bool :=
  (variant =s? "nameref") ||
  existsb (fun a => match option_letters a with Some letters => Contains letters "n" | None => false end) args.

(** The references a declaration makes; [None] when a target is not a plain name. *)
Fixpoint declared_namerefs (args : list Assign) (refs : gmap string string) : option (gmap string string) :=
  match args with
  | [] => Some refs
  | a :: rest =>
      match as_Name a, as_Value a with
      | Some name, Some w =>
          match static w with
          | Some target => if validShellVariableName target then declared_namerefs rest (<[name := target]> refs) else None
          | None => None
          end
      | _, _ => declared_namerefs rest refs
      end
  end.

Definition invalidateDeclarationVariables (s : cwdState) (variant : string) (args : list Assign) : cwdState :=
  let names := assigned_names args in
  let uncontrolled := existsb (fun a => bool_decide (as_Name a = None) && bool_decide (option_letters a = None)) args in
  let s := invalidateNamedVariables s names uncontrolled in
  let s := if declarationHasAssignmentAttributes variant args then withAssignmentAttributes s names else s in
  if uncontrolled || negb (declarationCreatesNameref variant args) then s
  else match declared_namerefs args (c_namerefs s) with
       | None => forget_variables s
       | Some refs => with_namerefs refs s
       end.

Definition invalidateLoopVariables (s : cwdState) (loop : Loop) : cwdState :=
  match loop with
  | WordIter name _ _ => withoutVariables s [name]
  | CStyleLoop _ _ _ => withoutAllVariables s
  end.

Definition gitEnvironmentAssignmentUnknown (stmt : option Stmt) : bool :=
  match stmt with
  | Some (MkStmt _ (Some (CallExpr assigns _)) _ _ _ _ _) =>
      existsb (fun a =>
        match as_Name a with
        | Some name =>
            gitRepositoryEnvironmentVariable name &&
            (as_Append a || bool_decide (is_Some (as_Index a)) || bool_decide (is_Some (as_Array a)) ||
             match as_Value a with Some w => negb (bool_decide (is_Some (static w))) | None => false end)
        | None => false
        end) assigns
  | _ => false
  end.

(** ** Effects of expansions ([applyExpansionVariableEffects]) *)

(** Whether a parameter expansion itself may change a variable. *)
Definition parameter_mutates (p : Parameter_) : bool :=
  match p with
  | MkParameter excl _ _ _ index slice _ _ exp =>
      excl || bool_decide (is_Some index) || bool_decide (is_Some slice) ||
      match exp with Some (MkExpansion (AssignUnset | AssignUnsetOrNull) _) => true | _ => false end
  end.

(** The walk visits a node's parts only while nothing mutates, and what comes after
    the node in any case; an assignment sets the answer anew. *)
#[local] Notation all f l m := (fold_left (fun acc a => f a acc) l m).
#[local] Notation opt f o m := (match o with Some a => f a m | None => m end).

Fixpoint mutates_stmt (s : Stmt) (m : bool) {struct s} : bool :=
  match s with
  | MkStmt _ cmd _ _ _ _ redirs => if m then true else all mutates_redirect redirs (opt mutates_command cmd m)
  end
with mutates_command (c : Command) (m : bool) {struct c} : bool :=
  if m then true
  else
    match c with
    | CallExpr assigns args => all mutates_word args (all mutates_assign assigns m)
    | IfCmd clause => mutates_if clause m
    | WhileClause _ cond body => all mutates_stmt body (all mutates_stmt cond m)
    | ForClause _ loop body => all mutates_stmt body (mutates_loop loop m)
    | CaseClause word items => all mutates_item items (mutates_word word m)
    | Block stmts | Subshell stmts => all mutates_stmt stmts m
    | BinaryCmd _ x y => mutates_stmt y (mutates_stmt x m)
    | FuncDecl _ body => mutates_stmt body m
    | ArithmCmd x | TestClause x => mutates_expr x m
    | DeclClause _ args => all mutates_assign args m
    | LetClause exprs => all mutates_expr exprs m
    | TimeClause stmt | CoprocClause stmt => opt mutates_stmt stmt m
    end
with mutates_if (c : IfClause) (m : bool) {struct c} : bool :=
  match c with
  | MkIf _ cond body orelse =>
      if m then true else opt mutates_if orelse (all mutates_stmt body (all mutates_stmt cond m))
  end
with mutates_loop (l : Loop) (m : bool) {struct l} : bool :=
  if m then true
  else match l with
       | WordIter _ _ items => all mutates_word items m
       | CStyleLoop init cond post => opt mutates_expr post (opt mutates_expr cond (opt mutates_expr init m))
       end
with mutates_item (i : CaseItem) (m : bool) {struct i} : bool :=
  match i with
  | MkCaseItem _ patterns stmts => if m then true else all mutates_stmt stmts (all mutates_word patterns m)
  end
with mutates_redirect (r : Redirect) (m : bool) {struct r} : bool :=
  match r with MkRedirect _ _ word hdoc => if m then true else opt mutates_word hdoc (opt mutates_word word m) end
with mutates_assign (a : Assign) (m : bool) {struct a} : bool :=
  match a with
  | MkAssign _ _ _ index value array =>
      if bool_decide (is_Some index) || bool_decide (is_Some array) then true else opt mutates_word value false
  end
with mutates_word (w : Word) (m : bool) {struct w} : bool :=
  match w with MkWord _ _ parts => if m then true else all mutates_part parts m end
with mutates_part (p : WordPart) (m : bool) {struct p} : bool :=
  match p with
  | DblQuoted _ parts => if m then true else all mutates_part parts m
  | ParamExp p => mutates_parameter p m
  | ArithmExp _ => true
  | CmdSubst _ _ | ProcSubst _ _ _ | Lit _ | SglQuoted _ _ | ExtGlob _ => m
  end
with mutates_parameter (p : Parameter_) (m : bool) {struct p} : bool :=
  match p with
  | MkParameter _ _ _ _ _ _ repl _ exp =>
      if m || parameter_mutates p then true
      else opt mutates_expansion exp (match repl with Some ws => all mutates_word ws m | None => m end)
  end
with mutates_expansion (e : Expansion) (m : bool) {struct e} : bool :=
  match e with MkExpansion _ word => opt mutates_word word m end
with mutates_expr (x : Expr) (m : bool) {struct x} : bool :=
  match x with
  | ExprWord w => mutates_word w m
  | ExprNode operands => if m then true else all mutates_expr operands m
  end.

Definition applyExpansionVariableEffects (stmt : Stmt) (s : cwdState) : cwdState :=
  if mutates_stmt stmt false then invalidateNamedVariables s [] true else s.

(** ** Words that known variables determine *)

(** A parameter that is nothing but a name. *)
Definition plain_parameter (p : Parameter_) : option string :=
  match p with
  | MkParameter false false false param None None None false None => Some param
  | _ => None
  end.

Definition containsExtglobOpener (value : string) : bool := Contains value "@(" || Contains value "+(" || Contains value "!(".

Definition unquotedValueGuaranteesOneField (value ifs : string) : bool :=
  negb (ContainsAny value ifs) && negb (ContainsAny value "*?[") && negb (containsExtglobOpener value).

Fixpoint resolveLocalQuotedParts (ps : list WordPart) (variables : gmap string string) : option string :=
  match ps with
  | [] => Some ""
  | p :: rest =>
      match (match p with
             | Lit value => Some value
             | ParamExp p => match plain_parameter p with Some name => variables !! name | None => None end
             | _ => None
             end), resolveLocalQuotedParts rest variables with
      | Some a, Some b => Some (a +:+ b)
      | _, _ => None
      end
  end.

(** The text of a part, whether it is an unquoted parameter, and whether it keeps the
    word from expanding to no field. *)
Definition resolve_part (s : cwdState) (p : WordPart) : option (string * bool * bool) :=
  match p with
  | Lit value => Some (value, false, value <>s? "")
  | SglQuoted dollar value => if dollar then None else Some (value, false, true)
  | DblQuoted _ parts =>
      match resolveLocalQuotedParts parts (c_variables s) with Some v => Some (v, false, true) | None => None end
  | ParamExp p =>
      match plain_parameter p with
      | None => None
      | Some name =>
          if negb (validShellVariableName name) || c_ifsUnknown s then None
          else match c_variables s !! name with
               | Some v => if unquotedValueGuaranteesOneField v (state_ifs s) then Some (v, true, false) else None
               | None => None
               end
      end
  | _ => None
  end.

Fixpoint resolve_parts (s : cwdState) (ps : list WordPart) : option (string * bool * bool) :=
  match ps with
  | [] => Some ("", false, false)
  | p :: rest =>
      match resolve_part s p, resolve_parts s rest with
      | Some (a, u, k), Some (b, u', k') => Some (a +:+ b, u || u', k || k')
      | _, _ => None
      end
  end.

Definition resolveLocalWordOpts (w : Word) (s : cwdState) (keepLiteralGlob : bool) : option string :=
  if bool_decide (c_variables s = ∅) then None
  else
    match resolve_parts s (w_Parts w) with
    | None => None
    | Some (value, unquotedParameter, fieldAnchor) =>
        if unquotedParameter && negb fieldAnchor && (negb (length (w_Parts w) =? 1)%nat || (value =s? "")) then None
        else if keepLiteralGlob then (if unquotedParameter && containsExtglobOpener value then None else Some value)
        else if unquotedParameter && negb (unquotedValueGuaranteesOneField value "") then None
        else Some value
    end.

Definition resolveLocalWord (w : Word) (s : cwdState) : option string := resolveLocalWordOpts w s false.
Definition resolveLocalWordKeepingLiteralGlob (w : Word) (s : cwdState) : option string := resolveLocalWordOpts w s true.
End Words.

(** ** What a shell makes of literals *)

(** Where a character of an expanded word comes from. *)
Inductive origin := Quoted | Written | Expanded.

(** Quotes leave a mark of their own: an empty quoted part is still a field. *)
Inductive glyph := Glyph (c : ascii) (o : origin) | Quotes.

Definition glyphs_of (o : origin) (s : string) : list glyph := map (fun c => Glyph c o) (list_ascii_of_string s).

Definition glyph_char (g : glyph) : list (ascii * origin) := match g with Glyph c o => [(c, o)] | Quotes => [] end.
Definition glyph_field (gs : list glyph) : list (ascii * origin) := flat_map glyph_char gs.
Definition field_text (f : list (ascii * origin)) : string := string_of_list_ascii (map fst f).

(** Outside quotes a backslash quotes the next character, and takes a line break away. *)
Fixpoint literal_glyphs (s : string) : list glyph :=
  match s with
  | EmptyString => []
  | String c rest =>
      match rest with
      | String d rest' =>
          if Ascii.eqb c "\" then (if Ascii.eqb d "010" then literal_glyphs rest' else Glyph d Quoted :: literal_glyphs rest')
          else Glyph c Written :: literal_glyphs rest
      | EmptyString => [Glyph c Written]
      end
  end.

(** Inside double quotes it does so before the characters that mean something there. *)
Fixpoint quoted_literal_glyphs (s : string) : list glyph :=
  match s with
  | EmptyString => []
  | String c rest =>
      match rest with
      | String d rest' =>
          if Ascii.eqb c "\" && Ascii.eqb d "010" then quoted_literal_glyphs rest'
          else if Ascii.eqb c "\" && ContainsByte ("$`\" +:+ String "034" "") d then Glyph d Quoted :: quoted_literal_glyphs rest'
          else Glyph c Quoted :: quoted_literal_glyphs rest
      | EmptyString => [Glyph c Quoted]
      end
  end.

Definition glyphs_string (gs : list glyph) : string := field_text (glyph_field gs).

(** The value of literals in an assignment; a tilde at its start or after a colon is
    replaced by a directory, which is not described. *)
Definition tilde_in_value (first : bool) (s : string) : bool := (first && HasPrefix s "~") || Contains s ":~".

Fixpoint quoted_literals (ps : list WordPart) : option string :=
  match ps with
  | [] => Some ""
  | Lit value :: rest => option_map (fun t => glyphs_string (quoted_literal_glyphs value) +:+ t) (quoted_literals rest)
  | _ => None
  end.

Fixpoint value_literals (first : bool) (ps : list WordPart) : option string :=
  match ps with
  | [] => Some ""
  | p :: rest =>
      match (match p with
             | Lit value => if tilde_in_value first value then None else Some (glyphs_string (literal_glyphs value))
             | SglQuoted false value => Some value
             | DblQuoted _ parts => quoted_literals parts
             | _ => None
             end), value_literals false rest with
      | Some a, Some b => Some (a +:+ b)
      | _, _ => None
      end
  end.

(** Literals that nothing is taken from: no backslash outside single quotes. *)
Definition unescaped (s : string) : bool := negb (ContainsByte s "\").
Definition plain_inside (p : WordPart) : bool :=
  match p with Lit value => unescaped value | SglQuoted _ _ | DblQuoted _ _ => false | _ => true end.
Definition plain_part (p : WordPart) : bool :=
  match p with Lit value => unescaped value | DblQuoted _ ps => forallb plain_inside ps | _ => true end.

Lemma glyphs_text o s : field_text (glyph_field (glyphs_of o s)) = s.
Proof.
  induction s as [|c s IH]; [done|]. change (field_text (glyph_field (glyphs_of o (String c s))))
    with (String c (field_text (glyph_field (glyphs_of o s)))). by rewrite IH.
Qed.

Lemma unescaped_cons c s : unescaped (String c s) = true -> Ascii.eqb c "\" = false /\ unescaped s = true.
Proof. unfold unescaped. cbn. rewrite negb_orb, andb_true_iff, negb_true_iff. by destruct (Ascii.eqb c "\"). Qed.

Lemma literal_plain s : unescaped s = true -> literal_glyphs s = glyphs_of Written s.
Proof.
  induction s as [|c s IH]; intros H; [done|]. apply unescaped_cons in H as [Hc H]. cbn [literal_glyphs].
  destruct s as [|d s]; [done|]. rewrite Hc, IH by done. done.
Qed.

Lemma quoted_literal_plain s : unescaped s = true -> quoted_literal_glyphs s = glyphs_of Quoted s.
Proof.
  induction s as [|c s IH]; intros H; [done|]. apply unescaped_cons in H as [Hc H]. cbn [quoted_literal_glyphs].
  destruct s as [|d s]; [done|]. rewrite Hc, IH by done. done.
Qed.

(** ** Assignments of a shell *)

Section Assignments.
Context (QuoteMeta : string -> string).

(** What an assignment of literals to a plain name stores. *)
Definition plain_value (a : Assign) : option string :=
  if as_Append a || bool_decide (is_Some (as_Index a)) || bool_decide (is_Some (as_Array a)) then None
  else match as_Value a with None => Some "" | Some w => value_literals true (w_Parts w) end.

(** An assignment whose literals hold no backslash and no tilde after a colon. *)
Definition plain_assign (a : Assign) : bool :=
  match as_Value a with
  | Some w => forallb plain_part (w_Parts w) &&
      forallb (fun p => match p with Lit value => negb (Contains value ":~") | _ => true end) (w_Parts w)
  | None => true
  end.

Lemma quoted_literals_static ps : forall first v,
  forallb plain_inside ps = true ->
  (fix go (first : bool) (ps : list WordPart) : option string :=
     match ps with
     | [] => Some ""
     | p :: rest =>
         match static_part QuoteMeta false true first p, go false rest with
         | Some a, Some b => Some (a +:+ b)
         | _, _ => None
         end
     end) first ps = Some v -> quoted_literals ps = Some v.
Proof.
  induction ps as [|p ps IH]; intros first v Hp H; [done|]. cbn in Hp. apply andb_true_iff in Hp as [Hp Hps].
  destruct p as [value|dollar value|dollar parts|p| | | |]; cbn in Hp, H; try done.
  match type of H with match ?m with _ => _ end = _ => destruct m as [b|] eqn:E; [|done] end. injection H as <-.
  cbn [quoted_literals]. rewrite (IH _ _ Hps E). cbn. unfold glyphs_string. by rewrite quoted_literal_plain, glyphs_text.
Qed.

(** The code's static words are what such literals come to. *)
Lemma static_value_literals ps : forall first v,
  forallb plain_part ps = true ->
  forallb (fun p => match p with Lit value => negb (Contains value ":~") | _ => true end) ps = true ->
  staticWordParts QuoteMeta false false first ps = Some v -> value_literals first ps = Some v.
Proof.
  induction ps as [|p ps IH]; intros first v Hp Ht H; [done|].
  cbn [forallb] in Hp, Ht. apply andb_true_iff in Hp as [Hp Hps], Ht as [Ht Hts].
  cbn [staticWordParts] in H. destruct (static_part QuoteMeta false false first p) as [a|] eqn:E1; [|done].
  destruct (staticWordParts QuoteMeta false false false ps) as [b|] eqn:E2; [|done]. injection H as <-.
  cbn [value_literals]. rewrite (IH _ _ Hps Hts E2).
  destruct p as [value|dollar value|dollar parts|p| | | |]; cbn in Hp, E1; try done.
  - unfold tilde_in_value. apply negb_true_iff in Ht. rewrite Ht. destruct (first && HasPrefix value "~"); [done|].
    injection E1 as <-. cbn [orb]. unfold glyphs_string. by rewrite literal_plain, glyphs_text.
  - destruct dollar; [done|]. by injection E1 as <-.
  - apply fmap_Some in E1 as (q & E1 & ->). by rewrite (quoted_literals_static parts true q Hp E1).
Qed.

(** One assignment: it goes where the references of its name lead, and stores the
    literals it is given; what other words, appended or indexed values and variables with
    attributes come to is left open. *)
Inductive assigned (sh : shell) (a : Assign) : shell -> Prop :=
| assigned_nothing : as_Name a = None -> assigned sh a sh
| assigned_exactly name target value :
    as_Name a = Some name -> leads_to (sh_refs sh) name target -> target ∉ sh_attrs sh ->
    plain_value a = Some value -> assigned sh a (set_var sh target (Some value))
| assigned_somehow name target new :
    as_Name a = Some name -> leads_to (sh_refs sh) name target ->
    plain_value a = None \/ target ∈ sh_attrs sh -> assigned sh a (set_var sh target new).

Inductive all_assigned : shell -> list Assign -> shell -> Prop :=
| all_assigned_nil sh : all_assigned sh [] sh
| all_assigned_cons sh a sh1 rest sh2 : assigned sh a sh1 -> all_assigned sh1 rest sh2 -> all_assigned sh (a :: rest) sh2.

Lemma leads_self refs n t : leads_to refs n t -> refs !! n = None -> t = n.
Proof. intros H Hn. inversion H; congruence. Qed.

Lemma leads_to_functional refs n t u : leads_to refs n t -> leads_to refs n u -> t = u.
Proof. intros H1%resolveNameref_spec H2%resolveNameref_spec. congruence. Qed.

(** The end of a chain is no reference itself. *)
Lemma leads_to_end refs n t : leads_to refs n t -> refs !! t = None.
Proof. by induction 1. Qed.

Lemma without_one s target : c_namerefs s !! target = None -> withoutVariables s [target] = withoutResolvedVariables s [target].
Proof.
  intros H. unfold withoutVariables.
  assert (resolveNamerefNames (c_namerefs s) [target] = Some [target]) as ->; [|done].
  apply resolve_names_spec. by repeat constructor.
Qed.

Lemma call_assignment_ok s a s' : state_ok s -> call_assignment QuoteMeta s a = Some s' -> state_ok s'.
Proof.
  intros Hok. unfold call_assignment. repeat case_match; intros [= <-]; first [done|by apply without_ok|by apply with_variable_ok].
Qed.

Lemma call_assignments_ok assigns : forall s, state_ok s -> state_ok (applyCallAssignments QuoteMeta s assigns).
Proof.
  induction assigns as [|a assigns IH]; intros s Hok; cbn; [done|]. case_match eqn:E; [|apply forget_ok].
  apply IH. by eapply call_assignment_ok.
Qed.

Lemma call_assignment_keeps s a s' :
  call_assignment QuoteMeta s a = Some s' ->
  c_cwd s' = c_cwd s /\ c_unknown s' = c_unknown s /\ c_attributesUnknown s' = c_attributesUnknown s.
Proof.
  unfold call_assignment, withoutVariables, withVariable, forget_variables.
  repeat case_match; intros [= <-]; done.
Qed.

Lemma assigned_cwd sh a sh' : assigned sh a sh' -> sh_cwd sh' = sh_cwd sh.
Proof. by destruct 1. Qed.

Lemma call_assignment_sound s a sh sh' :
  state_ok s -> describes s sh -> plain_assign a = true -> assigned sh a sh' ->
  match call_assignment QuoteMeta s a with Some s' => describes s' sh' | None => c_attributesUnknown s = true end.
Proof.
  intros Hok H Hplain Hrun. destruct (c_attributesUnknown s) eqn:Hu.
  { destruct (call_assignment QuoteMeta s a) as [s'|] eqn:E; [|done].
    destruct (call_assignment_keeps _ _ _ E) as (Hc & Hk & Ha). apply describes_forgotten; [by eapply call_assignment_ok|congruence|].
    rewrite Hk, Hc, (assigned_cwd _ _ _ Hrun). apply H. }
  pose proof (d_refs _ _ H Hu) as Hrefs. pose proof (d_attrs _ _ H Hu) as Hattrs.
  unfold call_assignment. destruct Hrun as [Hn|name target value Hn Hl Hna Hpv|name target new Hn Hl Hopen]; rewrite Hn; [done| |].
  all: rewrite Hrefs, (proj2 (resolveNameref_spec _ _ _) Hl).
  all: pose proof (leads_to_end _ _ _ Hl) as Hend; rewrite <- Hrefs in Hend.
  all: destruct (target =s? name) eqn:Et; cbn [negb]; breflect;
    [subst target|rewrite without_one by done; apply (without_resolved_describes _ _ sh); [done|apply set_var_differs]].
  - unfold plain_value in Hpv. destruct (as_Append a || _ || _); [done|].
    assert (Hw : forall v, v = value -> describes (withVariable s name v) (set_var sh name (Some value))).
    { intros v ->. destruct (canPublishExactVariable s name) eqn:Ep; [by apply publish_describes|by apply blocked_describes]. }
    unfold plain_assign in Hplain. destruct (as_Value a) as [w|]; [|apply Hw; congruence].
    destruct (staticWord QuoteMeta w false) as [v|] eqn:Ev.
    + apply andb_true_iff in Hplain as [Hp1 Hp2]. apply static_value_literals in Ev; [|done|done]. apply Hw. congruence.
    + rewrite without_one by done. apply (without_resolved_describes _ _ sh); [done|apply set_var_differs].
  - assert (Hforget : describes (withoutVariables s [name]) (set_var sh name new)).
    { rewrite without_one by done. apply (without_resolved_describes _ _ sh); [done|apply set_var_differs]. }
    destruct (as_Append a || _ || _) eqn:Ea; [done|].
    assert (Hw : plain_value a <> None -> forall v, describes (withVariable s name v) (set_var sh name new)).
    { intros Hp v. destruct Hopen as [Hp'|Hat]; [done|]. apply blocked_describes; [done|done|].
      unfold canPublishExactVariable. rewrite bool_decide_true by set_solver. by rewrite andb_false_r. }
    unfold plain_value in Hw. rewrite Ea in Hw. unfold plain_assign in Hplain. destruct (as_Value a) as [w|]; [|by apply Hw].
    destruct (staticWord QuoteMeta w false) as [v|] eqn:Ev; [|done]. apply andb_true_iff in Hplain as [Hp1 Hp2].
    apply static_value_literals in Ev; [|done|done]. apply Hw. by rewrite Ev.
Qed.

Lemma assignments_sound assigns : forall s sh sh',
  state_ok s -> describes s sh -> forallb plain_assign assigns = true -> all_assigned sh assigns sh' -> describes (applyCallAssignments QuoteMeta s assigns) sh'.
Proof.
  induction assigns as [|a assigns IH]; intros s sh sh' Hok H Hp Hrun; inversion Hrun as [|? ? sh1 ? ? Ha Hrest]; subst; cbn; [done|].
  cbn in Hp. apply andb_true_iff in Hp as [Hpa Hp]. pose proof (call_assignment_sound s a sh sh1 Hok H Hpa Ha) as Hs.
  destruct (call_assignment QuoteMeta s a) as [s'|] eqn:E.
  - apply (IH s' sh1); [by eapply call_assignment_ok|done..].
  - apply describes_forgotten; [apply forget_ok|done|]. intros Hk. cbn in *. rewrite (d_cwd _ _ H Hk).
    assert (Hcwd : forall l x y, all_assigned x l y -> sh_cwd y = sh_cwd x).
    { induction 1 as [|x b y l z Hb _ IHl]; [done|]. by rewrite IHl, (assigned_cwd _ _ _ Hb). }
    symmetry. by eapply Hcwd.
Qed.
End Assignments.

(** ** How a shell expands a word *)

Definition value_of (sh : shell) (name : string) : string := default "" (sh_vars sh !! name).

Fixpoint quoted_glyphs (sh : shell) (ps : list WordPart) : option (list glyph) :=
  match ps with
  | [] => Some []
  | p :: rest =>
      match (match p with
             | Lit value => Some (quoted_literal_glyphs value)
             | ParamExp p => option_map (fun name => glyphs_of Quoted (value_of sh name)) (plain_parameter p)
             | _ => None
             end), quoted_glyphs sh rest with
      | Some part, Some gs => Some (part ++ gs)
      | _, _ => None
      end
  end.

(** Literals, quotes and plain parameters; other parts are not described. *)
Definition part_glyphs (sh : shell) (p : WordPart) : option (list glyph) :=
  match p with
  | Lit value => Some (literal_glyphs value)
  | SglQuoted false value => Some (Quotes :: glyphs_of Quoted value)
  | DblQuoted _ parts => option_map (cons Quotes) (quoted_glyphs sh parts)
  | ParamExp p => option_map (fun name => glyphs_of Expanded (value_of sh name)) (plain_parameter p)
  | _ => None
  end.

Fixpoint word_glyphs (sh : shell) (ps : list WordPart) : option (list glyph) :=
  match ps with
  | [] => Some []
  | p :: rest =>
      match part_glyphs sh p, word_glyphs sh rest with
      | Some a, Some b => Some (a ++ b)
      | _, _ => None
      end
  end.

(** Field splitting: separators split what comes from an expansion, runs of blank
    separators count once, and around another separator not at all. *)
Inductive cursor := Fresh | AfterBlank | Reading (f : list (ascii * origin)).

Definition is_blank (c : ascii) : bool := ContainsByte default_ifs c.
Definition separates (ifs : string) (c : ascii) (o : origin) : bool :=
  match o with Expanded => ContainsByte ifs c | _ => false end.

Fixpoint split_fields (ifs : string) (gs : list glyph) (cur : cursor) : list (list (ascii * origin)) :=
  match gs with
  | [] => match cur with Reading f => [f] | _ => [] end
  | Quotes :: gs => split_fields ifs gs (match cur with Reading f => Reading f | _ => Reading [] end)
  | Glyph c o :: gs =>
      if separates ifs c o then
        match cur with
        | Reading f => f :: split_fields ifs gs (if is_blank c then AfterBlank else Fresh)
        | AfterBlank => split_fields ifs gs (if is_blank c then AfterBlank else Fresh)
        | Fresh => if is_blank c then split_fields ifs gs Fresh else [] :: split_fields ifs gs Fresh
        end
      else split_fields ifs gs (Reading (match cur with Reading f => f | _ => [] end ++ [(c, o)]))
  end.

(** Braces make several words of one, and a tilde in front stands for a directory. *)
Definition braces_or_tilde (ps : list WordPart) : bool :=
  match ps with Lit value :: _ => HasPrefix value "~" | _ => false end ||
  existsb (fun p => match p with Lit value => ContainsByte value "{" | _ => false end) ps.

(** The fields a word expands to, before file names are generated; not described for
    braces and tildes. *)
Definition expand (sh : shell) (w : Word) : option (list (list (ascii * origin))) :=
  if braces_or_tilde (w_Parts w) then None
  else option_map (fun gs => split_fields (shell_ifs sh) gs Fresh) (word_glyphs sh (w_Parts w)).

(** A character that could make the shell generate file names. *)
Definition globs (c : ascii) (o : origin) : bool := match o with Quoted => false | _ => ContainsByte "*?[" c end.

Definition unquoted_parameter (p : WordPart) : bool := match p with ParamExp _ => true | _ => false end.

(** The parser makes no empty words and no empty literals; the literals of this one hold
    no backslash outside single quotes, no brace and no tilde in front. *)
Definition written_word (w : Word) : Prop :=
  w_Parts w <> [] /\ Lit "" ∉ w_Parts w /\ forallb plain_part (w_Parts w) = true /\ braces_or_tilde (w_Parts w) = false.

Definition never_separates (ifs : string) (g : glyph) : Prop :=
  match g with Glyph c o => separates ifs c o = false | Quotes => True end.

Lemma split_reading ifs gs : forall f,
  Forall (never_separates ifs) gs -> split_fields ifs gs (Reading f) = [f ++ glyph_field gs].
Proof.
  induction gs as [|[c o|] gs IH]; intros f H; inversion H as [|g l Hg Hl]; subst; cbn in *; [by rewrite app_nil_r| |by apply IH].
  by rewrite Hg, IH, <- app_assoc.
Qed.

(** Where nothing separates there is one field. *)
Lemma split_one ifs gs : gs <> [] -> Forall (never_separates ifs) gs -> split_fields ifs gs Fresh = [glyph_field gs].
Proof.
  intros Hne H. destruct gs as [|[c o|] gs]; [done| |]; inversion H as [|g l Hg Hl]; subst; cbn in *.
  - by rewrite Hg, split_reading.
  - by rewrite split_reading.
Qed.

Lemma field_text_app a b : field_text (a ++ b) = field_text a +:+ field_text b.
Proof. unfold field_text. rewrite map_app. generalize (map fst a). intros l. induction l; cbn; [done|]. by rewrite IHl. Qed.

Lemma glyph_field_app a b : glyph_field (a ++ b) = glyph_field a ++ glyph_field b.
Proof. apply flat_map_app. Qed.

Lemma glyphs_forall (P : glyph -> Prop) o s : (forall c, ContainsByte s c = true -> P (Glyph c o)) -> Forall P (glyphs_of o s).
Proof.
  induction s as [|c s IH]; intros H; constructor.
  - apply H. cbn. by rewrite Ascii.eqb_refl.
  - apply IH. intros d Hd. apply H. cbn. rewrite Hd. by destruct (Ascii.eqb c d).
Qed.

Lemma contains_any_false s chars c : ContainsAny s chars = false -> ContainsByte s c = true -> ContainsByte chars c = false.
Proof.
  unfold ContainsAny. rewrite negb_false_iff. induction s as [|d s IH]; intros Hall Hc; [done|]. cbn in *.
  apply andb_true_iff in Hall as [Hd Hall]. destruct (Ascii.eqb d c) eqn:E; [|by apply IH].
  apply Ascii.eqb_eq in E as ->. by apply negb_true_iff.
Qed.

Lemma quoted_expands s sh ps : forall v,
  describes s sh -> forallb plain_inside ps = true -> resolveLocalQuotedParts ps (c_variables s) = Some v ->
  exists gs, quoted_glyphs sh ps = Some gs /\ field_text (glyph_field gs) = v /\ forall ifs, Forall (never_separates ifs) gs.
Proof.
  induction ps as [|p ps IH]; intros v H Hp Hr; cbn in *; [injection Hr as <-; by exists []|]. apply andb_true_iff in Hp as [Hp Hps].
  destruct (match p with Lit value => Some value | ParamExp p => _ | _ => None end) as [a|] eqn:Ea; [|done].
  destruct (resolveLocalQuotedParts ps (c_variables s)) as [b|] eqn:Eb; [|done]. injection Hr as <-.
  destruct (IH b H Hps eq_refl) as (gs & -> & Htext & Hnone).
  assert (match p with Lit value => Some (quoted_literal_glyphs value)
          | ParamExp p => option_map (fun name => glyphs_of Quoted (value_of sh name)) (plain_parameter p)
          | _ => None end = Some (glyphs_of Quoted a)) as ->.
  { destruct p; try done; [injection Ea as <-; by rewrite quoted_literal_plain|]. destruct (plain_parameter _) as [name|]; [|done].
    cbn. unfold value_of. by rewrite (d_vars _ _ H _ _ Ea). }
  exists (glyphs_of Quoted a ++ gs). rewrite glyph_field_app, field_text_app, glyphs_text, Htext. split_and!; [done|done|].
  intros ifs. apply Forall_app. split; [by apply glyphs_forall|apply Hnone].
Qed.

(** What the tokenizer reads in a part is what the shell expands it to, with nothing
    in it that separates fields. *)
Lemma resolve_part_expands s sh p v u k :
  describes s sh -> plain_part p = true -> resolve_part s p = Some (v, u, k) ->
  exists gs, part_glyphs sh p = Some gs /\ field_text (glyph_field gs) = v /\
    Forall (never_separates (shell_ifs sh)) gs /\ u = unquoted_parameter p /\ (gs = [] -> k = false /\ v = "") /\
    (u = false -> k = false -> p = Lit "").
Proof.
  intros H Hp Hr. destruct p as [value|dollar value|dollar parts|p| | | |]; cbn in Hp, Hr; try done.
  - injection Hr as <- <- <-. exists (glyphs_of Written value). rewrite glyphs_text. cbn [part_glyphs]. rewrite literal_plain by done.
    split_and!; try done; [by apply glyphs_forall|by destruct value|].
    intros _ Hk. breflect. by subst.
  - destruct dollar; [done|]. injection Hr as <- <- <-. exists (Quotes :: glyphs_of Quoted value).
    split_and!; try done; [apply glyphs_text|]. constructor; [done|]. by apply glyphs_forall.
  - destruct (resolveLocalQuotedParts parts (c_variables s)) as [w|] eqn:E; [|done]. injection Hr as <- <- <-.
    destruct (quoted_expands s sh parts w H Hp E) as (gs & Hg & Ht & Hn). exists (Quotes :: gs). cbn. rewrite Hg.
    split_and!; try done. by constructor.
  - destruct (plain_parameter p) as [name|] eqn:Ep; [|done]. destruct (negb (validShellVariableName name) || c_ifsUnknown s) eqn:Ei; [done|].
    destruct (c_variables s !! name) as [w|] eqn:Ev; [|done]. destruct (unquotedValueGuaranteesOneField w (state_ifs s)) eqn:Eu; [|done].
    injection Hr as <- <- <-. apply orb_false_iff in Ei as [_ Ei]. exists (glyphs_of Expanded w). cbn. rewrite Ep. cbn.
    unfold value_of. rewrite (d_vars _ _ H _ _ Ev), glyphs_text. cbn. split_and!; try done; [|by destruct w].
    rewrite <- (d_ifs _ _ H Ei). unfold unquotedValueGuaranteesOneField in Eu. breflect.
    apply glyphs_forall. intros c Hc. cbn. by eapply contains_any_false.
Qed.

Lemma resolve_parts_expand s sh ps : forall v u k,
  describes s sh -> forallb plain_part ps = true -> resolve_parts s ps = Some (v, u, k) ->
  exists gs, word_glyphs sh ps = Some gs /\ field_text (glyph_field gs) = v /\
    Forall (never_separates (shell_ifs sh)) gs /\ u = existsb unquoted_parameter ps /\ (gs = [] -> k = false /\ v = "") /\
    (u = false -> k = false -> ps = [] \/ Lit "" ∈ ps).
Proof.
  induction ps as [|p ps IH]; intros v u k H Hp Hr; cbn [resolve_parts] in Hr.
  - injection Hr as <- <- <-. exists []. split_and!; try done. by left.
  - cbn [forallb] in Hp. apply andb_true_iff in Hp as [Hp Hps]. destruct (resolve_part s p) as [[[a u1] k1]|] eqn:E1; [|done].
    destruct (resolve_parts s ps) as [[[b u2] k2]|] eqn:E2; [|done]. injection Hr as <- <- <-.
    destruct (resolve_part_expands s sh p a u1 k1 H Hp E1) as (g1 & Hg1 & Ht1 & Hn1 & Hu1 & He1 & Hl1).
    destruct (IH _ _ _ H Hps eq_refl) as (g2 & Hg2 & Ht2 & Hn2 & Hu2 & He2 & Hl2).
    exists (g1 ++ g2). cbn. rewrite Hg1, Hg2, glyph_field_app, field_text_app, Ht1, Ht2. split_and!; try done.
    + by apply Forall_app.
    + by rewrite Hu1, Hu2.
    + intros [-> ->]%app_nil. destruct (He1 eq_refl) as [-> ->]. by destruct (He2 eq_refl) as [-> ->].
    + intros [Hf1 Hf2]%orb_false_iff [Hk1 Hk2]%orb_false_iff. right. rewrite (Hl1 Hf1 Hk1). by left.
Qed.

Lemma field_char f c o : (c, o) ∈ f -> ContainsByte (field_text f) c = true.
Proof.
  induction f as [|[d p] f IH]; intros H; [by apply elem_of_nil in H|].
  change (field_text ((d, p) :: f)) with (String d (field_text f)). cbn. apply elem_of_cons in H as [[= -> ->]|H].
  - by rewrite Ascii.eqb_refl.
  - rewrite IH by done. by rewrite orb_true_r.
Qed.

(** A word that a described state resolves: the shell expands it to exactly one field,
    with the text the tokenizer read, and generates no file names from it. *)
Lemma resolved_word_expands s sh w v :
  describes s sh -> written_word w -> resolveLocalWord w s = Some v ->
  exists f, expand sh w = Some [f] /\ field_text f = v /\
    (existsb unquoted_parameter (w_Parts w) = true -> forall c o, (c, o) ∈ f -> globs c o = false).
Proof.
  intros H (Hne & Hlit & Hplain & Hbr) Hr. unfold resolveLocalWord, resolveLocalWordOpts in Hr. case_bool_decide; [done|].
  destruct (resolve_parts s (w_Parts w)) as [[[value u] k]|] eqn:E; [|done].
  destruct (resolve_parts_expand s sh _ _ _ _ H Hplain E) as (gs & Hg & Ht & Hn & Hu & He & Hl).
  destruct (u && negb k && _) eqn:E1; [done|]. destruct (u && negb (unquotedValueGuaranteesOneField value "")) eqn:E2; [done|]. injection Hr as <-.
  assert (Hgs : gs <> []).
  { intros ->. destruct (He eq_refl) as [-> ->]. destruct u.
    - cbn in E1. by rewrite orb_true_r in E1.
    - destruct (Hl eq_refl eq_refl); [done|done]. }
  exists (glyph_field gs). unfold expand. rewrite Hbr, Hg. cbn. rewrite (split_one _ _ Hgs Hn). split_and!; [done|done|].
  intros Hp c o Hin. rewrite Hu, Hp in E2. cbn in E2. apply negb_false_iff in E2. unfold unquotedValueGuaranteesOneField in E2.
  breflect. destruct o; [done| |]; cbn [globs]; (eapply contains_any_false; [done|]); rewrite <- Ht; by eapply field_char.
Qed.


(** ** Witnesses *)

Definition text_word (s : string) : Word := MkWord 0 0 [Lit s].
Definition set_to (name value : string) : Assign := MkAssign false false (Some name) None (Some (text_word value)) None.
Definition parameter (name : string) : WordPart := ParamExp (MkParameter false false false name None None None false None).

(** A shell in the repository that knows one variable. *)
Definition demo_state : cwdState := withVariable (at_cwd "/w/repo" false zero_state) "x" "build".
Definition demo_shell_of (s : cwdState) : shell :=
  {| sh_cwd := c_cwd s; sh_vars := c_variables s; sh_refs := c_namerefs s; sh_attrs := c_assignmentAttributes s |}.

Lemma demo_described s : c_cdpathSet s = false -> c_variables s !! "CDPATH" = None -> describes s (demo_shell_of s).
Proof. intros Hs Hc. split; try done. intros _. cbn. by rewrite Hs. Qed.


(** A backslash in a literal: after [x=/home/op] the shell reads ["$x"/.ss\h] as the secret
    directory, and the tokenizer passes it on with its backslash; so it does with what
    an assignment stores. *)
Lemma escaped_words_misread :
  let word tail := MkWord 0 0 [DblQuoted false [parameter "x"]; Lit tail] in
  let known := withVariable demo_state "x" "/home/op" in
  option_map (map field_text) (expand (demo_shell_of known) (word "/.ss\h/id_rsa")) = Some ["/home/op/.ssh/id_rsa"] /\
  resolveLocalWord (word "/.ss\h/id_rsa") known = Some "/home/op/.ss\h/id_rsa" /\
  plain_value (set_to "y" ".ss\h") = Some ".ssh" /\
  c_variables (applyPersistentAssignments (fun s => s) known [set_to "y" ".ss\h"]) !! "y" = Some ".ss\h".
Proof. by vm_compute. Qed.

(** A name reference that only one branch makes is forgotten where the branches meet:
    after [if C; then declare -n r=x; fi; x=build; r=/etc] the tokenizer reads the quoted
    [$x] as [build], which in the branch that made the reference is [/etc]. *)
Definition demo_reference : cwdState :=
  invalidateDeclarationVariables (fun s => s) demo_state "declare"
    [MkAssign true false None None (Some (text_word "-n")) None; set_to "r" "x"].

Definition reference_lost (known : cwdState) : Prop :=
  let assigns := [set_to "x" "build"; set_to "r" "/etc"] in
  exists sh, all_assigned (demo_shell_of demo_reference) assigns sh /\
    option_map (map field_text) (expand sh (MkWord 0 0 [DblQuoted false [parameter "x"]])) = Some ["/etc"] /\
    resolveLocalWord (MkWord 0 0 [DblQuoted false [parameter "x"]]) (applyPersistentAssignments (fun s => s) known assigns) = Some "build".

Lemma reference_assigned :
  let start := demo_shell_of demo_reference in
  all_assigned start [set_to "x" "build"; set_to "r" "/etc"] (set_var (set_var start "x" (Some "build")) "x" (Some "/etc")).
Proof.
  eapply all_assigned_cons; [|eapply all_assigned_cons; [|apply all_assigned_nil]].
  - apply (assigned_exactly _ _ "x"); [reflexivity|by apply leads_nil|by apply (bool_decide_unpack _)|reflexivity].
  - apply (assigned_exactly _ _ "r"); [reflexivity| |by apply (bool_decide_unpack _)|reflexivity].
    eapply leads_step; [reflexivity|by apply leads_nil].
Qed.

Lemma merge_forgets_nameref : describes demo_reference (demo_shell_of demo_reference) /\ reference_lost (mergeCwd [demo_reference; demo_state]).
Proof.
  split; [by apply demo_described|]. eexists. split; [apply reference_assigned|]. by vm_compute.
Qed.

(** So is any reference at an arithmetic command, [let] or a reference to itself. *)
Lemma arithmetic_forgets_nameref : reference_lost (invalidateCallVariables demo_reference ["let"; "i=1"]).
Proof. eexists. split; [apply reference_assigned|]. by vm_compute. Qed.

(** What an assignment inside an arithmetic expansion changes is forgotten, but not
    when another assignment follows on the same line. *)
Definition arithmetic_then (after : list Assign) : Stmt :=
  MkStmt (unplaced 0)
    (Some (CallExpr (MkAssign false false (Some "a") None (Some (MkWord 0 0 [ArithmExp (ExprWord (text_word "x=1"))])) None :: after) []))
    false false false false [].

Lemma later_assignment_hides_effect :
  (mutates_stmt (arithmetic_then []) false, mutates_stmt (arithmetic_then [set_to "b" "1"]) false) = (true, false).
Proof. reflexivity. Qed.
