(* ===== verification/ShellCd.v ===== *)
(** * Changing the directory ([cdOutcome] of [tokenize.go])

    The tokenizer follows [cd]: it reads the arguments, searches [CDPATH] as the shell
    does, asks the host what is there and says where the shell may be afterwards. The
    theorem compares it with a shell that changes its directory. *)

From Stdlib Require Import ZArith Lia Bool.
From S2P Require Import Prelude GoStrings GoPath Argv Wrappers Syntax ShellState ShellVars.

Open Scope string_scope.
Open Scope list_scope.

(** What [os.Stat] answers: the path does not exist, it fails otherwise, or whether it
    is a directory and its permission bits. *)
Inductive stat_answer := StatMissing | StatFails | StatFound (dir : bool) (perm : N).

Record CdHost := {
  ch_stat : string -> stat_answer;
  ch_evalsymlinks : string -> option string;
}.

Inductive cdDirectoryStatus := cdDirectoryUnknown | cdDirectoryMissing | cdDirectoryAccessible.

#[global] Instance cdDirectoryStatus_eq_dec : EqDecision cdDirectoryStatus.
Proof. solve_decision. Defined.

(** The letters of an option word of [cd]: the mode, and whether [-e] was there. *)
Fixpoint cd_letters (letters : string) (mode : option ascii) (seenE : bool) : option (option ascii * bool) :=
  match letters with
  | EmptyString => Some (mode, seenE)
  | String c rest =>
      if Ascii.eqb c "L" || Ascii.eqb c "P" then
        match mode with
        | Some m => if Ascii.eqb m c then cd_letters rest mode seenE else None
        | None => cd_letters rest (Some c) seenE
        end
      else if Ascii.eqb c "e" then cd_letters rest mode true
      else None
  end.

Fixpoint cd_words (args : list string) (options : bool) (mode : option ascii) (seenE : bool) (operands : list string)
    : option (option ascii * bool * list string) :=
  match args with
  | [] => Some (mode, seenE, operands)
  | arg :: rest =>
      if options && (arg =s? "--") then cd_words rest false mode seenE operands
      else if options && HasPrefix arg "-" then
        if arg =s? "-" then None
        else match cd_letters (TrimPrefix arg "-") mode seenE with
             | None => None
             | Some (mode, seenE) => cd_words rest options mode seenE operands
             end
      else cd_words rest false mode seenE (operands ++ [arg])
  end.

(** The one operand of a [cd] that can be followed, and whether it is physical. *)
Definition parseCdArgs (args : list string) : option (string * bool) :=
  match cd_words args true None false [] with
  | Some (mode, seenE, [operand]) =>
      let physical := match mode with Some m => Ascii.eqb m "P" | None => false end in
      if (operand =s? "") || (seenE && negb physical) then None else Some (operand, physical)
  | _ => None
  end.

(** A target that names its directory: absolute, or starting at [.] or [..]. *)
Definition names_directory (target : string) : bool :=
  posixIsAbs target || IsAbs target || HasPrefix target "./" || (target =s? ".") || (target =s? "..") || HasPrefix target "../".

Definition cdUsesSearchPath (s : cwdState) (target : string) : bool :=
  if names_directory target then false else c_cdpathUnknown s || (c_cdpathSet s && (c_cdpath s <>s? "")).

Definition cdCandidate (base target : string) (physical : bool) : string :=
  let candidate :=
    if posixIsAbs target || IsAbs target then target
    else if physical then TrimSuffix base sep +:+ sep +:+ target
    else if IsAbs base then JoinPath [base; target] else posixJoin [base; target] in
  if physical then candidate else if IsAbs candidate then Clean candidate else posixClean candidate.

(** An entry of [CDPATH] as a directory. *)
Definition cdpath_entry (cwd entry : string) : string :=
  if entry =s? "" then cwd
  else if posixIsAbs entry || IsAbs entry then entry
  else if IsAbs cwd then JoinPath [cwd; entry] else posixJoin [cwd; entry].

Section Host.
Context (h : CdHost).

Definition cdDirectoryState (candidate : string) : cdDirectoryStatus :=
  match ch_stat h candidate with
  | StatMissing => cdDirectoryMissing
  | StatFails => cdDirectoryUnknown
  | StatFound false _ => cdDirectoryMissing
  | StatFound true perm =>
      if (N.land perm 73 =? 0)%N then cdDirectoryUnknown
      else match ch_stat h (TrimSuffix candidate sep +:+ sep +:+ ".") with
           | StatFound _ _ => cdDirectoryAccessible
           | _ => cdDirectoryUnknown
           end
  end.

(** The search through the entries; [unknown] says one of them could not be judged. *)
Fixpoint search_cdpath (cwd target : string) (physical : bool) (entries : list string) (unknown : bool)
    : string * cdDirectoryStatus :=
  match entries with
  | [] => if unknown then ("", cdDirectoryUnknown) else (cdCandidate cwd target physical, cdDirectoryMissing)
  | entry :: rest =>
      let candidate := cdCandidate (cdpath_entry cwd entry) target physical in
      match cdDirectoryState candidate with
      | cdDirectoryAccessible => if unknown then ("", cdDirectoryUnknown) else (candidate, cdDirectoryAccessible)
      | cdDirectoryUnknown => search_cdpath cwd target physical rest true
      | cdDirectoryMissing => search_cdpath cwd target physical rest unknown
      end
  end.

Definition resolveCdTarget (s : cwdState) (target : string) (physical : bool) : string * cdDirectoryStatus :=
  let here := cdCandidate (c_cwd s) target physical in
  if names_directory target then (here, cdDirectoryState here)
  else if c_cdpathUnknown s then ("", cdDirectoryUnknown)
  else if c_cdpathSet s && (c_cdpath s <>s? "") then search_cdpath (c_cwd s) target physical (posixSplitList (c_cdpath s)) false
  else (here, cdDirectoryState here).

(** The state of a shell that has changed its directory. *)
Definition publish_cwd (s : cwdState) : cwdState :=
  if c_unknown s then withoutVariables s ["PWD"] else withVariable s "PWD" (c_cwd s).

Definition cdOutcome (s : cwdState) (unresolved : bool) (argv : list string) : cwdOutcome :=
  if c_unknown s then bothOutcome (unknownCwd [s])
  else
    match parseCdArgs (tail argv) with
    | None => bothOutcome (unknownCwd [s])
    | Some (target, physical) =>
        if unresolved || (c_cwd s =s? "") then bothOutcome (unknownCwd [s])
        else
          let '(resolved, status) := resolveCdTarget s target physical in
          let '(success, status) := (at_cwd resolved (resolved =s? "") s, status) in
          let '(success, status) :=
            if c_fsUncertain s && cdUsesSearchPath s target then (unknownCwd [s], cdDirectoryUnknown) else (success, status) in
          let '(success, status) :=
            if physical && c_fsUncertain s then (unknownCwd [s], cdDirectoryUnknown) else (success, status) in
          let '(success, status) :=
            match status with
            | cdDirectoryAccessible =>
                if physical then
                  match ch_evalsymlinks h resolved with
                  | None => (unknownCwd [s], cdDirectoryUnknown)
                  | Some p => (at_cwd (Clean p) (c_unknown success) success, status)
                  end
                else (success, status)
            | _ => (success, status)
            end in
          let success := publish_cwd success in
          let either := {| o_success := success; o_failure := s; o_canSuccess := true; o_canFailure := true |} in
          match status with
          | cdDirectoryAccessible => if c_fsUncertain s then either else successOutcome success
          | cdDirectoryMissing => if c_fsUncertain s then either else failureOutcome s
          | cdDirectoryUnknown => either
          end
    end.
End Host.

(** ** A shell that changes its directory *)

(** What is so when the command runs: the directories that can be entered, and what
    [cd -P] makes of one. *)
Record world := { w_goes : string -> bool; w_real : string -> string }.

Fixpoint shell_search (w : world) (cwd target : string) (physical : bool) (entries : list string) : string :=
  match entries with
  | [] => cdCandidate cwd target physical
  | entry :: rest =>
      let candidate := cdCandidate (cdpath_entry cwd entry) target physical in
      if w_goes w candidate then candidate else shell_search w cwd target physical rest
  end.

(** The directory a shell tries: the first one on [CDPATH] it can enter, and its own
    when there is none. *)
Definition destination (w : world) (sh : shell) (target : string) (physical : bool) : string :=
  match sh_vars sh !! "CDPATH" with
  | Some path =>
      if names_directory target || (path =s? "") then cdCandidate (sh_cwd sh) target physical
      else shell_search w (sh_cwd sh) target physical (posixSplitList path)
  | None => cdCandidate (sh_cwd sh) target physical
  end.

Definition shell_cd (w : world) (sh : shell) (target : string) (physical : bool) : option string :=
  let d := destination w sh target physical in
  if w_goes w d then Some (if physical then w_real w d else d) else None.

(** [cd] changes the directory, [PWD] and [OLDPWD]. *)
Definition moved (sh : shell) (d : string) (sh' : shell) : Prop :=
  sh_cwd sh' = d /\ sh_refs sh' = sh_refs sh /\ sh_attrs sh' = sh_attrs sh /\
  (forall x, x ∉ ["PWD"; "OLDPWD"] -> sh_vars sh' !! x = sh_vars sh !! x) /\
  ("PWD" ∉ sh_attrs sh -> sh_vars sh' !! "PWD" = Some d).

Section Sound.
Context (h : CdHost) (w : world).

(** The host's answers hold in the world the command runs in. *)
Definition answers_hold : Prop :=
  (forall p, cdDirectoryState h p = cdDirectoryAccessible -> w_goes w p = true) /\
  (forall p, cdDirectoryState h p = cdDirectoryMissing -> w_goes w p = false) /\
  (forall p r, ch_evalsymlinks h p = Some r -> w_real w p = Clean r).

(** One of the directories on [CDPATH] can be entered, when there is a search. *)
Definition search_succeeds (sh : shell) (target : string) (physical : bool) : Prop :=
  forall path, sh_vars sh !! "CDPATH" = Some path -> path <> "" -> names_directory target = false ->
  Exists (fun e => w_goes w (cdCandidate (cdpath_entry (sh_cwd sh) e) target physical) = true) (posixSplitList path).

Lemma search_agrees cwd target physical entries : forall c status,
  answers_hold -> search_cdpath h cwd target physical entries false = (c, status) ->
  match status with
  | cdDirectoryAccessible => c = shell_search w cwd target physical entries /\ w_goes w c = true /\ cdDirectoryState h c = cdDirectoryAccessible
  | cdDirectoryMissing => ~ Exists (fun e => w_goes w (cdCandidate (cdpath_entry cwd e) target physical) = true) entries
  | cdDirectoryUnknown => c = ""
  end.
Proof.
  intros c status (Hgo & Hno & _). revert c status.
  assert (Hunknown : forall l, search_cdpath h cwd target physical l true = ("", cdDirectoryUnknown)).
  { induction l as [|e l IH]; cbn; [done|]. by destruct (cdDirectoryState h _). }
  induction entries as [|e rest IH]; intros c status H; cbn in *.
  - injection H as <- <-. intros He. by apply Exists_nil in He.
  - destruct (cdDirectoryState h (cdCandidate (cdpath_entry cwd e) target physical)) eqn:E.
    + rewrite Hunknown in H. by injection H as <- <-.
    + rewrite (Hno _ E). specialize (IH _ _ H). destruct status; [done| |done].
      rewrite Exists_cons. intros [He|He]; [|by apply IH]. rewrite (Hno _ E) in He. discriminate.
    + injection H as <- <-. rewrite (Hgo _ E). auto.
Qed.

(** Where the tokenizer says it is going is where the shell goes. *)
Lemma target_agrees s sh target physical c status :
  describes s sh -> c_unknown s = false -> answers_hold -> search_succeeds sh target physical ->
  resolveCdTarget h s target physical = (c, status) ->
  (c = "" /\ status = cdDirectoryUnknown) \/ (c = destination w sh target physical /\ status = cdDirectoryState h c).
Proof.
  intros H Hk Hw Hs. unfold resolveCdTarget, destination. rewrite (d_cwd _ _ H Hk).
  destruct (names_directory target) eqn:En; cbn [orb].
  - intros [= <- <-]. right. by case_match.
  - destruct (c_cdpathUnknown s) eqn:Eu; [intros [= <- <-]; by left|].
    rewrite (d_cdpath _ _ H Eu). destruct (c_cdpathSet s) eqn:Eset; cbn [andb]; [|intros [= <- <-]; by right].
    destruct (c_cdpath s =s? "") eqn:Ep; cbn [negb]; [intros [= <- <-]; by right|].
    intros Hf. pose proof (search_agrees _ _ _ _ _ _ Hw Hf) as Ha. destruct status.
    + by left.
    + destruct Ha. breflect. specialize (Hs (c_cdpath s)). rewrite (d_cdpath _ _ H Eu), Eset in Hs. by apply Hs.
    + right. destruct Ha as (-> & _ & ->). done.
Qed.

(** A target that is not searched for is where it says, whatever the host answers. *)
Lemma local_target s sh target physical :
  describes s sh -> c_unknown s = false -> cdUsesSearchPath s target = false ->
  resolveCdTarget h s target physical = (destination w sh target physical, cdDirectoryState h (destination w sh target physical)).
Proof.
  intros H Hk. unfold cdUsesSearchPath, resolveCdTarget, destination. rewrite (d_cwd _ _ H Hk).
  destruct (names_directory target) eqn:En; cbn [orb]; [by case_match|].
  intros [Hu Hset]%orb_false_iff. rewrite Hu, Hset, (d_cdpath _ _ H Hu).
  destruct (c_cdpathSet s); [|done]. cbn [andb] in Hset. apply negb_false_iff in Hset. by rewrite Hset.
Qed.

(** With the new directory, or none, in its place the state describes the shell that
    has moved, but for [PWD]. *)
Lemma moved_from s sh d sh' c k :
  describes s sh -> c_variables s !! "OLDPWD" = None -> moved sh d sh' -> (k = true \/ c = d) ->
  describes (withoutResolvedVariables (at_cwd c k s) ["PWD"]) sh'.
Proof.
  intros H Ho (Hc & Hr & Ha & Hv & _) Hk.
  set (mid := {| sh_cwd := d; sh_vars := match sh_vars sh' !! "OLDPWD" with Some v => <["OLDPWD" := v]> (sh_vars sh) | None => delete "OLDPWD" (sh_vars sh) end;
                 sh_refs := sh_refs sh; sh_attrs := sh_attrs sh |}).
  assert (Hmid : forall x, x <> "OLDPWD" -> sh_vars mid !! x = sh_vars sh !! x).
  { intros x Hx. cbn. destruct (sh_vars sh' !! "OLDPWD"); [by rewrite lookup_insert_ne|by rewrite lookup_delete_ne]. }
  apply (without_resolved_describes _ _ mid).
  - assert (Hifs' : shell_ifs mid = shell_ifs sh) by (unfold shell_ifs; by rewrite Hmid).
    assert (Hcdp : sh_vars mid !! "CDPATH" = sh_vars sh !! "CDPATH") by (by apply Hmid).
    destruct H as [Hcwd Hvars Hifs Hcd Hrefs Hattrs].
    split; cbn [at_cwd c_cwd c_unknown c_variables c_ifsUnknown c_cdpathUnknown c_cdpathSet c_cdpath c_attributesUnknown c_namerefs c_assignmentAttributes];
      rewrite ?Hifs', ?Hcdp; try done.
    + intros ->. by destruct Hk.
    + intros x v Hx. destruct (decide (x = "OLDPWD")) as [->|Hn]; [congruence|]. rewrite (Hmid x Hn). by apply Hvars.
  - split_and!; cbn; try done. intros x Hx. destruct (decide (x = "OLDPWD")) as [->|Hn].
    + destruct (sh_vars sh' !! "OLDPWD"); [by rewrite lookup_insert_eq|by rewrite lookup_delete_eq].
    + pose proof (Hmid x Hn) as Hx'. cbn in Hx'. rewrite Hx'. symmetry. apply Hv. set_solver.
Qed.

(** [PWD] is no name reference, and [OLDPWD] was forgotten before the command. *)
Definition ready (s : cwdState) (sh : shell) : Prop :=
  state_ok s /\ describes s sh /\ c_variables s !! "OLDPWD" = None /\ sh_refs sh !! "PWD" = None.

Lemma unknown_moved s sh d sh' : ready s sh -> moved sh d sh' -> describes (unknownCwd [s]) sh'.
Proof.
  intros (Hok & H & Ho & Hp) Hm. unfold unknownCwd. rewrite merge_one. destruct (c_attributesUnknown s) eqn:Hu.
  - apply describes_forgotten; [by apply without_ok| |]; unfold withoutVariables; by case_match.
  - rewrite without_one by (cbn; by rewrite (d_refs _ _ H Hu)). eapply moved_from; eauto.
Qed.

Lemma publish_at s sh d sh' c k :
  ready s sh -> moved sh d sh' -> (k = true \/ c = d) -> describes (publish_cwd (at_cwd c k s)) sh'.
Proof.
  intros (Hok & H & Ho & Hp) Hm Hk. unfold publish_cwd. cbn [c_unknown c_cwd at_cwd].
  assert (Hf : describes (withoutResolvedVariables (at_cwd c k s) ["PWD"]) sh') by (by eapply moved_from; eauto).
  destruct k.
  - destruct (c_attributesUnknown s) eqn:Hu.
    + apply describes_forgotten; [by apply (without_ok (at_cwd c true s))| |]; unfold withoutVariables; by case_match.
    + by rewrite without_one by (cbn; by rewrite (d_refs _ _ H Hu)).
  - destruct Hk as [Hk|Hk]; [done|]. destruct (canPublishExactVariable s "PWD") eqn:E.
    + apply publish_known; try done. destruct Hm as (_ & _ & _ & _ & Hpwd). rewrite Hk. apply Hpwd.
      unfold canPublishExactVariable in E. apply andb_true_iff in E as [Eu Ea]. apply negb_true_iff in Eu.
      intros Hin. rewrite bool_decide_true in Ea by (by apply (d_attrs _ _ H Eu)). done.
    + unfold withVariable. by rewrite (E : canPublishExactVariable (at_cwd c false s) "PWD" = false).
Qed.

Lemma publish_unknown s sh d sh' : ready s sh -> moved sh d sh' -> describes (publish_cwd (unknownCwd [s])) sh'.
Proof.
  intros Hr Hm. pose proof (unknown_moved _ _ _ _ Hr Hm) as Hu. destruct Hr as (Hok & H & Ho & Hp).
  assert (Huo : state_ok (unknownCwd [s])) by (apply unknown_cwd_ok; intros t ->%list_elem_of_singleton; done).
  assert (Hk : c_unknown (unknownCwd [s]) = true) by (unfold unknownCwd, withoutVariables; by case_match).
  unfold publish_cwd. rewrite Hk. destruct (c_attributesUnknown (unknownCwd [s])) eqn:E.
  - apply describes_forgotten; [by apply without_ok| |]; unfold withoutVariables; case_match; cbn; congruence.
  - rewrite without_one; [by apply (without_resolved_describes _ _ sh')|]. rewrite (d_refs _ _ Hu E).
    destruct Hm as (_ & -> & _). done.
Qed.

(** The call is taken literally: a word that is not known may be any. *)
Definition tries (sh : shell) (unresolved : bool) (argv : list string) (attempt : option string) : Prop :=
  forall target physical, unresolved = false -> parseCdArgs (tail argv) = Some (target, physical) ->
    attempt = shell_cd w sh target physical /\ search_succeeds sh target physical /\
    (physical = true -> cdDirectoryState h (destination w sh target physical) <> cdDirectoryUnknown).

Definition covers (out : cwdOutcome) (sh : shell) (attempt : option string) : Prop :=
  match attempt with
  | Some d => o_canSuccess out = true /\ forall sh', moved sh d sh' -> describes (o_success out) sh'
  | None => o_canFailure out = true /\ describes (o_failure out) sh
  end.

(** A shell that stays where it is. *)
Lemma unknown_stays s sh : ready s sh -> describes (unknownCwd [s]) sh.
Proof.
  intros (Hok & H & Ho & Hp). unfold unknownCwd. rewrite merge_one. destruct (c_attributesUnknown s) eqn:Hu.
  - apply describes_forgotten; [by apply without_ok| |]; unfold withoutVariables; by case_match.
  - rewrite without_one by (cbn; by rewrite (d_refs _ _ H Hu)).
    apply (without_resolved_describes _ _ sh); [|done]. by destruct H.
Qed.

Lemma unknown_covers s sh attempt : ready s sh -> covers (bothOutcome (unknownCwd [s])) sh attempt.
Proof. intros H. destruct attempt as [d|]; cbn; (split; [done|]); [intros sh' Hm; by eapply unknown_moved|by apply unknown_stays]. Qed.
(** Both ways a command may end, and where it then is. *)
Lemma either_covers s sh attempt success :
  ready s sh -> (forall d sh', attempt = Some d -> moved sh d sh' -> describes success sh') ->
  covers {| o_success := success; o_failure := s; o_canSuccess := true; o_canFailure := true |} sh attempt.
Proof. intros (Hok & H & _) Hs. destruct attempt as [d|]; cbn; (split; [done|]); [intros sh' Hm; by eapply Hs|done]. Qed.

(** C15: The tokenizer loses no shell at a [cd]. Take a shell its state describes and a [cd] the
    shell tries, with whatever arguments, where a search through [CDPATH], if there is one,
    finds a directory ([cdpath_fallback_missed] is what happens otherwise) and [cd -P] leads
    where the host can answer. Where the shell can go, the outcome says the command may succeed
    and its state describes the shell that has moved; where it cannot, the outcome says the
    command may fail and its state describes the shell that has not. The host's answers need to
    hold only when nothing may have changed the file system before. *)
Theorem cd_followed s sh unresolved argv attempt :
  ready s sh -> (c_fsUncertain s = false -> answers_hold) -> tries sh unresolved argv attempt ->
  covers (cdOutcome h s unresolved argv) sh attempt.
Proof.
  intros Hr Hw Ht. pose proof Hr as (Hok & H & Ho & Hp). unfold cdOutcome.
  destruct (c_unknown s) eqn:Hk; [by apply unknown_covers|].
  destruct (parseCdArgs (tail argv)) as [[target physical]|] eqn:Ep; [|by apply unknown_covers].
  destruct (unresolved || (c_cwd s =s? "")) eqn:Eu; [by apply unknown_covers|]. apply orb_false_iff in Eu as [Eu _].
  destruct (Ht _ _ Eu Ep) as (-> & Hs & Hphys). set (d := destination w sh target physical) in *.
  destruct (c_fsUncertain s) eqn:Ef; cbn [andb].
  - destruct (cdUsesSearchPath s target) eqn:Esearch.
    { destruct (resolveCdTarget h s target physical) as [c st]. destruct physical; apply either_covers; try done;
        intros e sh' _ Hm; by eapply publish_unknown. }
    rewrite (local_target _ sh) by done. fold d. destruct physical; cbn [andb].
    { apply either_covers; [done|]. intros e sh' _ Hm. by eapply publish_unknown. }
    destruct (cdDirectoryState h d); apply either_covers; try done; intros e sh' He Hm; eapply publish_at; eauto; right;
      unfold shell_cd in He; fold d in He; destruct (w_goes w d); congruence.
  - specialize (Hw eq_refl). destruct (resolveCdTarget h s target physical) as [c st] eqn:Er. rewrite andb_false_r.
    destruct (target_agrees s sh target physical c st H Hk Hw Hs Er) as [[Hc Hst]|[Hc Hst]];
      try fold d in Hc; rewrite Hst, Hc; clear Er Hc Hst.
    { apply either_covers; [done|]. intros e sh' _ Hm. eapply publish_at; eauto. }
    unfold shell_cd. fold d. destruct Hw as (Hgo & Hno & Hreal). destruct (cdDirectoryState h d) eqn:Es.
    + destruct physical; [by destruct (Hphys eq_refl)|]. apply either_covers; [done|]. intros e sh' He Hm.
      eapply publish_at; eauto. right. destruct (w_goes w d); congruence.
    + rewrite (Hno _ Es). done.
    + rewrite (Hgo _ Es). destruct physical; [|split; [done|]; intros sh' Hm; eapply publish_at; eauto].
      destruct (ch_evalsymlinks h d) as [p|] eqn:El.
      * split; [done|]. intros sh' Hm. rewrite (Hreal _ _ El) in Hm.
        apply (publish_at s sh (Clean p) sh' (Clean p) (d =s? "")); eauto.
      * apply either_covers; [done|]. intros e sh' _ Hm. by eapply publish_unknown.
Qed.
End Sound.

(** ** Witnesses *)

(** The world in which the host's answers hold. *)
Definition world_of (h : CdHost) : world :=
  {| w_goes := fun p => bool_decide (cdDirectoryState h p = cdDirectoryAccessible);
     w_real := fun p => match ch_evalsymlinks h p with Some r => Clean r | None => p end |}.

Lemma world_of_holds h : answers_hold h (world_of h).
Proof.
  split_and!; cbn.
  - intros p Hp. by rewrite bool_decide_true.
  - intros p Hp. by rewrite bool_decide_false by congruence.
  - by intros p r ->.
Qed.

(** [/w/repo/build] and [/tmp/x] are directories, [/w/repo/link] leads to [/etc]. *)
Definition demo_cd_host : CdHost :=
  {| ch_stat := fun p => if in_list p ["/w/repo/build"; "/w/repo/build/."; "/tmp/x"; "/tmp/x/."; "/w/repo/link"; "/w/repo/link/."]
                         then StatFound true 493 else StatMissing;
     ch_evalsymlinks := fun p => Some (if p =s? "/w/repo/link" then "/etc" else p) |}.

Lemma cd_followed_witness :
  covers (cdOutcome demo_cd_host demo_state false ["cd"; "-P"; "link"]) (demo_shell_of demo_state) (Some "/etc").
Proof.
  apply (cd_followed demo_cd_host (world_of demo_cd_host)).
  - split_and!; [|by apply demo_described|reflexivity|reflexivity]. intros H. vm_compute in H. discriminate.
  - intros _. apply world_of_holds.
  - intros target physical _ H. vm_compute in H. injection H as <- <-. split_and!; [reflexivity| |vm_compute; discriminate].
    intros path H. vm_compute in H. discriminate.
Defined.

(** A search through [CDPATH] that finds nothing is taken for a failure, where the shell
    goes on to its own directory. *)
Lemma cdpath_fallback_missed :
  let s := withVariable demo_state "CDPATH" "/nowhere" in
  o_canSuccess (cdOutcome demo_cd_host s false ["cd"; "build"]) = false /\
  shell_cd (world_of demo_cd_host) (demo_shell_of s) "build" false = Some "/w/repo/build".
Proof. vm_compute. done. Qed.
