(* ===== verification/StdinFlow.v ===== *)
(** * Which commands read a pipe ([pipelinePositions] of [tokenize.go])

    The rules on downloads need to know that a command reads what an earlier one in
    its pipe wrote, through groups, loops and functions. The tokenizer gives every
    statement that may read the input of a stage that stage's position. This file has
    the marking of a stage, from how a statement uses its standard input, and the
    positions of a whole file. *)

From Stdlib Require Import ZArith Lia Bool.
From S2P Require Import Prelude GoStrings GoPath Policy Argv Engine Simple Wrappers NetRules Operands Containment WriteTargets CommandRules Syntax.

Open Scope string_scope.
Open Scope list_scope.

(** Whether a statement surely reads all its input, and whether it may hand it on. *)
Record stdinFlow := { allConsume : bool; forwards : bool }.

#[global] Instance stdinFlow_eq_dec : EqDecision stdinFlow.
Proof. solve_decision. Defined.

Definition no_flow : stdinFlow := {| allConsume := false; forwards := false |}.
Definition consuming (b : bool) (f : stdinFlow) : stdinFlow := {| allConsume := b; forwards := forwards f |}.
Definition forwarding (b : bool) (f : stdinFlow) : stdinFlow := {| allConsume := allConsume f; forwards := b |}.

(** What a walk over part of a stage leaves: the statements it marks, in order, and the
    flow. The walk stores the position it was given at each of them. *)
Notation ingress := (list nat * stdinFlow)%type.

(** The positions of the statements: a pipe's number and the stage in it. *)
Notation positions := (gmap nat (list (nat * nat))).

(** ** Conditions, loops and single commands *)

Inductive conditionTruth := conditionUnknown | conditionTrue | conditionFalse.

#[global] Instance conditionTruth_eq_dec : EqDecision conditionTruth.
Proof. solve_decision. Defined.

Definition negated_truth (t : conditionTruth) : conditionTruth :=
  match t with conditionTrue => conditionFalse | conditionFalse => conditionTrue | conditionUnknown => conditionUnknown end.

Definition is_nil {A} (l : list A) : bool := match l with [] => true | _ => false end.

(** A condition that is [:], or [true] or [false] where no function takes their names. *)
Definition literalCondition (stmts : list Stmt) (shadowed : gset string) : conditionTruth :=
  match stmts with
  | [MkStmt _ (Some (CallExpr [] [word])) negated false false _ []] =>
      let name := word_Lit word in
      let free := negb (bool_decide (name ∈ shadowed)) in
      let truth := if name =s? ":" then conditionTrue
                   else if (name =s? "true") && free then conditionTrue
                   else if (name =s? "false") && free then conditionFalse
                   else conditionUnknown in
      if negated then negated_truth truth else truth
  | _ => conditionUnknown
  end.

Inductive loopIterations := iterationNone | iterationPossible | iterationGuaranteed.

Definition quotedParameterMayProduceZeroFields (p : Parameter_) : bool :=
  match p with
  | MkParameter _ lengthOf _ param index _ _ _ _ =>
      if lengthOf then false
      else if param =s? "@" then true
      else match index with Some (ExprWord w) => word_Lit w =s? "@" | _ => false end
  end.

Definition doubleQuotedGuaranteesField (parts : list WordPart) : bool :=
  is_nil parts ||
  existsb (fun p => match p with ParamExp p => negb (quotedParameterMayProduceZeroFields p) | _ => true end) parts.

Fixpoint guarantees_field (guaranteed : bool) (parts : list WordPart) : bool :=
  match parts with
  | [] => guaranteed
  | Lit value :: rest => if ContainsAny value "*?[" then false else guarantees_field (guaranteed || (value <>s? "")) rest
  | SglQuoted _ _ :: rest => guarantees_field true rest
  | DblQuoted _ ps :: rest => guarantees_field (guaranteed || doubleQuotedGuaranteesField ps) rest
  | _ => false
  end.

Definition wordGuaranteesField (w : Word) : bool := guarantees_field false (w_Parts w).

Section Static.
Context (QuoteMeta : string -> string).

Record forClauseAnalysis := { f_iterations : loopIterations; f_mayRepeat : bool }.

Definition analyzeForClause (loop : Loop) : forClauseAnalysis :=
  match loop with
  | WordIter _ true [] => {| f_iterations := iterationNone; f_mayRepeat := false |}
  | WordIter _ true items =>
      {| f_iterations := if existsb wordGuaranteesField items then iterationGuaranteed else iterationPossible;
         f_mayRepeat := (1 <? length items)%nat ||
           existsb (fun w => match staticWord QuoteMeta w false with Some v => ContainsAny v "*?[" | None => true end) items |}
  | _ => {| f_iterations := iterationPossible; f_mayRepeat := true |}
  end.

Definition forClauseIterations (loop : Loop) : loopIterations := f_iterations (analyzeForClause loop).
Definition forClauseMayRepeat (loop : Loop) : bool := f_mayRepeat (analyzeForClause loop).

(** What [eval] would run: a text that is known, one that is not, or no [eval]. *)
Inductive eval_source := NoEval | EvalUnknown | EvalText (source : string).

(** [command] and [builtin] in front of a command: the command, whether they hide
    functions, and whether nothing runs; an error is a wrapper that cannot be read. *)
Inductive direct := Direct (rest : list string) (bypassFunction noExecute : bool) | DirectError.

(** What a wrapper leaves: no second one may follow. *)
Definition direct_wrapped (rest : list string) : direct :=
  match rest with
  | [] => Direct [] true true
  | name :: _ => if in_list name ["command"; "builtin"] then DirectError else Direct rest true false
  end.

Definition directCommandArgv (argv : list string) : direct :=
  match argv with
  | [] => Direct [] false true
  | name :: args =>
      if name =s? "command" then
        match consumeCommand args with
        | Err _ => DirectError
        | Ok None => Direct [] true true
        | Ok (Some rest) => direct_wrapped rest
        end
      else if name =s? "builtin" then
        match consumeBuiltin args with Err _ => DirectError | Ok rest => direct_wrapped rest end
      else Direct argv false false
  end.

Fixpoint static_prefix (words : list Word) : list string * bool :=
  match words with
  | [] => ([], true)
  | w :: rest =>
      match staticWord QuoteMeta w false with
      | None => ([], false)
      | Some v => let '(vs, complete) := static_prefix rest in (v :: vs, complete)
      end
  end.

Definition possibleEvalSource (args : list Word) : eval_source :=
  let '(argv, complete) := static_prefix args in
  match directCommandArgv argv with
  | Direct (name :: rest) _ false =>
      if name <>s? "eval" then NoEval else if complete then EvalText (Join rest " ") else EvalUnknown
  | _ => NoEval
  end.

(** The constants a file may redefine, by a function or by code it evaluates. *)
Section Shadowed.
Context (Parse : string -> option (list Stmt)).

Definition shadowable (name : string) : gset string := if in_list name ["true"; "false"] then {[name]} else ∅.

Fixpoint shadowed_names (fuel : nat) (stmts : list Stmt) : gset string :=
  match fuel with
  | O => ∅
  | S fuel' =>
      ⋃ (map (fun v =>
        match v with
        | VFunc name => shadowable name
        | VCall _ args =>
            match possibleEvalSource args with
            | NoEval => ∅
            | EvalUnknown => {["true"; "false"]}
            | EvalText source => match Parse source with Some nested => shadowed_names fuel' nested | None => ∅ end
            end
        | _ => ∅
        end) (file_visits stmts))
  end.
End Shadowed.
End Static.

Definition simpleStdinFlow (args : list Word) : stdinFlow :=
  match args with
  | [] => no_flow
  | first :: rest =>
      let lit := word_Lit first in
      let after c s := default s (AfterLast s c) in
      let name := after "\"%char (after "/"%char lit) in
      if in_list name [":"; "true"; "false"; "printf"; "echo"; "pwd"; "ls"; "touch"; "mkdir"; "sleep"; "test"; "["] then no_flow
      else if name =s? "cat" then
        let fix operands (options : bool) (words : list Word) : bool * bool :=
          match words with
          | [] => (false, false)
          | w :: words =>
              let arg := word_Lit w in
              if options && (arg =s? "--") then operands false words
              else if options && HasPrefix arg "-" && (arg <>s? "-") then operands options words
              else
                let '(usesStdin, hasFile) := operands options words in
                if (arg =s? "-") || (arg =s? "") then (true, hasFile) else (usesStdin, true)
          end in
        let '(usesStdin, hasFile) := operands true rest in
        let uses := usesStdin || negb hasFile in
        {| allConsume := uses; forwards := uses |}
      else if name =s? "tee" then {| allConsume := true; forwards := true |}
      else if name =s? "read" then {| allConsume := true; forwards := false |}
      else {| allConsume := false; forwards := true |}
  end.

Definition on_descriptor (n : option string) (d : string) : bool := match n with None => true | Some v => v =s? d end.

Definition stdinReplaced (redirs : list Redirect) : bool :=
  existsb (fun r => on_descriptor (rd_N r) "0" &&
    match rd_Op r with RdrIn | RdrInOut | DplIn | Hdoc | DashHdoc | WordHdoc => true | _ => false end) redirs.

Definition stdoutReplaced (redirs : list Redirect) : bool :=
  existsb (fun r =>
    match rd_Op r with
    | RdrAll | AppAll => true
    | RdrOut | AppOut | ClbOut | DplOut => on_descriptor (rd_N r) "1"
    | _ => false
    end) redirs.

(** ** Marking a stage *)

(** A substitution in a word: where it stands, what it marks, and whether it reads all
    of the input. *)
Record expansion := { e_offset : nat; e_marks : list nat; e_consumes : bool }.

Fixpoint insert_expansion (e : expansion) (l : list expansion) : list expansion :=
  match l with
  | [] => [e]
  | d :: rest => if (e_offset e <? e_offset d)%nat then e :: l else d :: insert_expansion e rest
  end.

(** [sort.SliceStable] by offset. *)
Definition sort_expansions (l : list expansion) : list expansion := foldl (fun acc e => insert_expansion e acc) [] l.

(** They run in order until one has read all of the input. *)
Fixpoint run_expansions (l : list expansion) : list nat * bool :=
  match l with
  | [] => ([], false)
  | e :: rest =>
      if e_consumes e then (e_marks e, true)
      else let '(marks, consumed) := run_expansions rest in (e_marks e ++ marks, consumed)
  end.

Definition node_expansions (l : list expansion) : list nat * bool := run_expansions (sort_expansions l).

(** [markPipelineList]'s loop: statements run until one has read all of the input. *)
Fixpoint list_from (flow : stdinFlow) (l : list ingress) : ingress :=
  match l with
  | [] => ([], flow)
  | (marks, f) :: rest =>
      if allConsume flow then ([], flow)
      else let '(more, last) := list_from {| allConsume := allConsume f; forwards := forwards flow || forwards f |} rest in
           (marks ++ more, last)
  end.

Definition list_flow (l : list ingress) : ingress := list_from no_flow l.

Definition mergeAlternativeStdinFlows (flows : list stdinFlow) : stdinFlow :=
  match flows with
  | [] => no_flow
  | _ => {| allConsume := forallb allConsume flows; forwards := existsb forwards flows |}
  end.

(** A pipe inside a stage: input gets as far as the stages hand it on. *)
Fixpoint pipe_stages (carries : bool) (stages : list ingress) : list nat * bool :=
  match stages with
  | [] => ([], carries)
  | (marks, f) :: rest =>
      if carries then let '(more, last) := pipe_stages (forwards f) rest in (marks ++ more, last) else ([], false)
  end.

Definition pipe_flow (stages : list ingress) : ingress :=
  let '(marks, last) := pipe_stages true stages in
  (marks, {| allConsume := match stages with (_, f) :: _ => allConsume f | [] => false end; forwards := last |}).

Fixpoint staticCaseExecution {A} (testing : bool) (items : list (CaseOperator * bool * A)) : list A :=
  match items with
  | [] => []
  | (op, matches, a) :: rest =>
      if testing && negb matches then staticCaseExecution testing rest
      else a :: match op with
                | Break => []
                | Fallthrough => staticCaseExecution false rest
                | _ => staticCaseExecution true rest
                end
  end.

Definition default_pattern (patterns : list Word) : bool :=
  existsb (fun w => match w_Parts w with [Lit value] => value =s? "*" | _ => false end) patterns.

(** The flows of the items of a [case] that may run, and whether one of them must. *)
Fixpoint unknown_items (items : list (CaseOperator * list Word * ingress)) : list ingress * bool :=
  match items with
  | [] => ([], false)
  | (op, patterns, (marks, f)) :: rest =>
      let f := if bool_decide (op = Break) then f else consuming false f in
      let isDefault := default_pattern patterns in
      if isDefault && bool_decide (op = Break) then ([(marks, f)], true)
      else let '(more, exhaustive) := unknown_items rest in ((marks, f) :: more, isDefault || exhaustive)
  end.

Definition markUnknownCaseIngress (items : list (CaseOperator * list Word * ingress)) : ingress :=
  let '(flows, exhaustive) := unknown_items items in
  (flat_map fst flows, mergeAlternativeStdinFlows (map snd flows ++ if exhaustive then [] else [no_flow])).

Definition markStaticCaseIngress (items : list (CaseOperator * bool * ingress)) : ingress :=
  list_flow (staticCaseExecution true items).

Definition after_condition (condition branches : ingress) : ingress :=
  (condition.1 ++ branches.1, forwarding (forwards branches.2 || forwards condition.2) branches.2).

Definition if_flow (truth : conditionTruth) (condition thenFlow elseFlow : ingress) : ingress :=
  if allConsume condition.2 then condition
  else after_condition condition
    (match truth with
     | conditionTrue => thenFlow
     | conditionFalse => elseFlow
     | conditionUnknown => (thenFlow.1 ++ elseFlow.1, mergeAlternativeStdinFlows [thenFlow.2; elseFlow.2])
     end).

(** Whether the body of a loop may run, and whether it must. *)
Definition body_runs (until : bool) (truth : conditionTruth) : bool * bool :=
  if until then (negb (bool_decide (truth = conditionTrue)), bool_decide (truth = conditionFalse))
  else (negb (bool_decide (truth = conditionFalse)), bool_decide (truth = conditionTrue)).

Definition while_flow (until : bool) (truth : conditionTruth) (condition body : ingress) : ingress :=
  if allConsume condition.2 then condition
  else
    let '(reachable, guaranteed) := body_runs until truth in
    if reachable then
      (condition.1 ++ body.1,
       {| allConsume := guaranteed && allConsume body.2; forwards := forwards condition.2 || forwards body.2 |})
    else (condition.1, consuming false condition.2).

Definition for_flow (iterations : loopIterations) (body : ingress) : ingress :=
  match iterations with
  | iterationGuaranteed => body
  | iterationPossible => (body.1, consuming false body.2)
  | iterationNone => ([], no_flow)
  end.

(** A statement as a whole: its substitutions, itself, what it is made of. *)
Definition statement_flow (id : nat) (redirs : list Redirect) (expansions : list expansion) (inner : ingress) : ingress :=
  let '(marks, consumed) := node_expansions expansions in
  if consumed then (marks, {| allConsume := true; forwards := false |})
  else if stdinReplaced redirs then (marks ++ [id], no_flow)
  else (marks ++ id :: inner.1, if stdoutReplaced redirs then forwarding false inner.2 else inner.2).

Section Marking.
(** Matching a word against a pattern of [case] is the parser's and [regexp]'s; [None]
    is a pattern that is not accepted. *)
Context (QuoteMeta : string -> string) (pattern_matches : string -> string -> option bool) (shadowed : gset string).

Fixpoint case_patterns (selector : string) (patterns : list Word) : option bool :=
  match patterns with
  | [] => Some false
  | w :: rest =>
      match staticWord QuoteMeta w true with
      | None => None
      | Some pat =>
          match pattern_matches pat selector with
          | None => None
          | Some true => Some true
          | Some false => case_patterns selector rest
          end
      end
  end.

Definition staticCaseItemMatches (selector : string) (i : CaseItem) : option bool := case_patterns selector (ci_Patterns i).

(** Which items match, when all of it is static. *)
Definition static_matches (word : Word) (items : list CaseItem) : option (list bool) :=
  match staticWord QuoteMeta word false with
  | Some selector => mapM (staticCaseItemMatches selector) items
  | None => None
  end.

Definition case_flow (word : list expansion) (matches : option (list bool)) (items : list (CaseOperator * list Word * ingress)) : ingress :=
  let '(marks, consumed) := node_expansions word in
  if consumed then (marks, {| allConsume := true; forwards := false |})
  else
    let inner := match matches with
                 | Some ms => markStaticCaseIngress (zip_with (fun m i => (i.1.1, m, i.2)) ms items)
                 | None => markUnknownCaseIngress items
                 end in
    (marks ++ inner.1, inner.2).

#[local] Notation opt f o := (match o with Some a => f a | None => [] end).

(** A statement, and the stages it adds to a pipe it stands in. *)
Fixpoint stage_stmt (s : Stmt) {struct s} : ingress * list ingress :=
  match s with
  | MkStmt loc cmd _ _ _ _ redirs =>
      let list_ stmts := list_flow (map (fun t => (stage_stmt t).1) stmts) in
      let expansions := match cmd with
                        | Some (CallExpr assigns args) => flat_map in_assign assigns ++ flat_map in_word args
                        | _ => []
                        end ++ flat_map in_redirect redirs in
      let stages := match cmd with
                    | Some (BinaryCmd op x y) => if is_pipe op then Some ((stage_stmt x).2 ++ (stage_stmt y).2) else None
                    | _ => None
                    end in
      let inner :=
        match cmd with
        | Some (CallExpr _ args) => ([], simpleStdinFlow args)
        | Some (BinaryCmd _ x y) =>
            match stages with
            | Some stages => pipe_flow stages
            | None => list_flow [(stage_stmt x).1; (stage_stmt y).1]
            end
        | Some (Block stmts) | Some (Subshell stmts) => list_ stmts
        | Some (IfCmd clause) => stage_if clause
        | Some (WhileClause until cond body) => while_flow until (literalCondition cond shadowed) (list_ cond) (list_ body)
        | Some (ForClause _ loop body) => for_flow (forClauseIterations QuoteMeta loop) (list_ body)
        | Some (CaseClause word items) => case_flow (in_word word) (static_matches word items) (map stage_item items)
        | Some (TimeClause (Some stmt)) => (stage_stmt stmt).1
        | Some (TimeClause None) => ([], no_flow)
        | _ => ([], {| allConsume := false; forwards := true |})
        end in
      let own := statement_flow (at_id loc) redirs expansions inner in
      (own, match stages with Some stages => stages | None => [own] end)
  end
with stage_if (c : IfClause) {struct c} : ingress :=
  match c with
  | MkIf _ cond body orelse =>
      let list_ stmts := list_flow (map (fun t => (stage_stmt t).1) stmts) in
      if is_nil cond then list_ body
      else if_flow (literalCondition cond shadowed) (list_ cond) (list_ body)
             (match orelse with Some e => stage_if e | None => ([], no_flow) end)
  end
with stage_item (i : CaseItem) {struct i} : CaseOperator * list Word * ingress :=
  match i with
  | MkCaseItem op patterns stmts => (op, patterns, list_flow (map (fun t => (stage_stmt t).1) stmts))
  end
with in_redirect (r : Redirect) {struct r} : list expansion :=
  match r with MkRedirect _ _ word hdoc => opt in_word word ++ opt in_word hdoc end
with in_assign (a : Assign) {struct a} : list expansion :=
  match a with
  | MkAssign _ _ _ index value array => opt in_word value ++ opt in_expr index ++ opt (flat_map in_elem) array
  end
with in_elem (e : ArrayElem) {struct e} : list expansion :=
  match e with MkArrayElem index value => opt in_expr index ++ opt in_word value end
with in_word (w : Word) {struct w} : list expansion :=
  match w with MkWord _ _ parts => flat_map in_part parts end
with in_part (p : WordPart) {struct p} : list expansion :=
  match p with
  | CmdSubst offset stmts =>
      let '(marks, flow) := list_flow (map (fun t => (stage_stmt t).1) stmts) in
      [{| e_offset := offset; e_marks := marks; e_consumes := allConsume flow |}]
  | ProcSubst offset op stmts =>
      let '(marks, flow) := list_flow (map (fun t => (stage_stmt t).1) stmts) in
      [{| e_offset := offset; e_marks := match op with CmdIn => marks | CmdOut => [] end; e_consumes := false |}]
  | DblQuoted _ parts => flat_map in_part parts
  | ParamExp p => in_parameter p
  | ArithmExp x => in_expr x
  | Lit _ | SglQuoted _ _ | ExtGlob _ => []
  end
with in_parameter (p : Parameter_) {struct p} : list expansion :=
  match p with
  | MkParameter _ _ _ _ index slice repl _ exp =>
      opt in_expr index ++ opt (flat_map in_expr) slice ++ opt (flat_map in_word) repl ++ opt in_expansion exp
  end
with in_expansion (e : Expansion) {struct e} : list expansion :=
  match e with MkExpansion _ word => opt in_word word end
with in_expr (x : Expr) {struct x} : list expansion :=
  match x with
  | ExprWord w => in_word w
  | ExprNode operands => flat_map in_expr operands
  end.

Definition markPipelineIngress (s : Stmt) : ingress := (stage_stmt s).1.
Definition flattenPipeline (s : Stmt) : list ingress := (stage_stmt s).2.
Definition markPipelineList (stmts : list Stmt) : ingress := list_flow (map markPipelineIngress stmts).

(** ** The positions of a file *)

Definition mark_at (position : nat * nat) (ids : list nat) (ps : positions) : positions :=
  foldl (fun ps id => <[id := default [] (ps !! id) ++ [position]]> ps) ps ids.

(** The stages of one pipe: a stage that is not handed the input starts a pipe of its
    own. [next] is the last number taken. *)
Fixpoint mark_stages (stages : list ingress) (stage id next : nat) (carries : bool) (ps : positions) : positions * nat :=
  match stages with
  | [] => (ps, next)
  | (marks, f) :: rest =>
      let fresh := (0 <? stage)%nat && negb carries in
      let next := if fresh then S next else next in
      let id := if fresh then next else id in
      mark_stages rest (S stage) id next (forwards f) (mark_at (id, stage) marks ps)
  end.

Definition is_pipe_stmt (s : Stmt) : bool := match st_Cmd s with Some (BinaryCmd op _ _) => is_pipe op | _ => false end.

Definition pipe_statements (stmts : list Stmt) : list Stmt :=
  List.filter is_pipe_stmt (omap (fun v => match v with VStmt s => Some s | _ => None end) (file_visits stmts)).

Definition child_pipes (s : Stmt) : list nat :=
  match st_Cmd s with
  | Some (BinaryCmd _ x y) => map st_id (List.filter is_pipe_stmt [x; y])
  | _ => []
  end.

(** The pipes that are not part of a longer one. *)
Definition root_pipes (stmts : list Stmt) : list Stmt :=
  let pipes := pipe_statements stmts in
  let children := flat_map child_pipes pipes in
  List.filter (fun s => negb (existsb (Nat.eqb (st_id s)) children)) pipes.

(** The loop ranges over a Go map, in an order of its own. *)
Context (map_order : list Stmt -> list Stmt).

Definition pipelinePositions (stmts : list Stmt) (nextPipelineID : nat) : positions * nat :=
  foldl (fun '(ps, next) s => mark_stages (flattenPipeline s) 0 (S next) (S next) true ps)
    (∅, nextPipelineID) (map_order (root_pipes stmts)).
End Marking.

(** ** The numbers do not matter *)

(** The stages of one pipe as groups that share a number: the group, counted from
    none, the stage, and the statements marked there; with the number of groups opened. *)
Fixpoint stage_groups (stages : list ingress) (stage g : nat) (carries : bool) : list (nat * nat * list nat) * nat :=
  match stages with
  | [] => ([], g)
  | (marks, f) :: rest =>
      let g := if (0 <? stage)%nat && negb carries then S g else g in
      let '(more, last) := stage_groups rest (S stage) g (forwards f) in
      ((g, stage, marks) :: more, last)
  end.

Definition mark_groups (base : nat) (gs : list (nat * nat * list nat)) (ps : positions) : positions :=
  foldl (fun ps gs => mark_at ((base + gs.1.1)%nat, gs.1.2) gs.2 ps) ps gs.

Lemma mark_stages_groups stages : forall stage base g carries ps,
  mark_stages stages stage (base + g) (base + g) carries ps =
  (mark_groups base (stage_groups stages stage g carries).1 ps, (base + (stage_groups stages stage g carries).2)%nat).
Proof.
  induction stages as [|[marks f] rest IH]; intros stage base g carries ps; [done|]. cbn [mark_stages stage_groups].
  destruct ((0 <? stage)%nat && negb carries).
  - replace (S (base + g))%nat with (base + S g)%nat by lia. rewrite IH.
    by destruct (stage_groups rest (S stage) (S g) (forwards f)).
  - rewrite IH. by destruct (stage_groups rest (S stage) g (forwards f)).
Qed.

Lemma stage_groups_range stages : forall stage g carries k a ids,
  (k, a, ids) ∈ (stage_groups stages stage g carries).1 ->
  (g <= k <= (stage_groups stages stage g carries).2)%nat.
Proof.
  assert (Hturn : forall (b : bool) g, (g <= if b then S g else g)%nat) by (intros []; lia).
  assert (Hup : forall (l : list ingress) stage g carries, (g <= (stage_groups l stage g carries).2)%nat).
  { induction l as [|[m f] rest IH]; intros stage g carries; cbn [stage_groups]; [done|].
    specialize (Hturn ((0 <? stage)%nat && negb carries) g). set (g' := if _ : bool then S g else g) in *. clearbody g'.
    specialize (IH (S stage) g' (forwards f)). destruct (stage_groups rest (S stage) g' (forwards f)). cbn in *. lia. }
  induction stages as [|[m f] rest IH]; intros stage g carries k a ids H; cbn [stage_groups] in *; [by apply elem_of_nil in H|].
  specialize (Hturn ((0 <? stage)%nat && negb carries) g). set (g' := if _ : bool then S g else g) in *. clearbody g'.
  specialize (IH (S stage) g' (forwards f)). specialize (Hup rest (S stage) g' (forwards f)).
  destruct (stage_groups rest (S stage) g' (forwards f)) as [more last]. cbn in *.
  apply elem_of_cons in H as [[= -> -> ->]|H]; [lia|]. specialize (IH _ _ _ H). lia.
Qed.

Definition at_ (ps : positions) (id : nat) : list (nat * nat) := default [] (ps !! id).

Lemma mark_at_spec position ids : forall ps t p,
  p ∈ at_ (mark_at position ids ps) t <-> p ∈ at_ ps t \/ (p = position /\ t ∈ ids).
Proof.
  induction ids as [|i ids IH]; intros ps t p; cbn.
  - split; [by left|]. intros [H|[_ H]]; [done|by apply elem_of_nil in H].
  - unfold mark_at in IH. rewrite IH. unfold at_. destruct (decide (t = i)) as [->|Hn].
    + rewrite lookup_insert_eq. cbn. rewrite elem_of_app, list_elem_of_singleton. set_solver.
    + rewrite lookup_insert_ne by done. set_solver.
Qed.

Lemma mark_groups_spec base gs : forall ps t k a,
  (k, a) ∈ at_ (mark_groups base gs ps) t <->
  (k, a) ∈ at_ ps t \/ exists g ids, (g, a, ids) ∈ gs /\ t ∈ ids /\ k = (base + g)%nat.
Proof.
  unfold mark_groups. induction gs as [|[[g b] ids] gs IH]; intros ps t k a; cbn [foldl fst snd].
  - split; [by left|]. intros [H|(g & ids & H & _)]; [done|by apply elem_of_nil in H].
  - rewrite IH, mark_at_spec. setoid_rewrite elem_of_cons. split.
    + intros [[H|[[= -> ->] Ht]]|(g' & ids' & H & Ht & ->)]; [by left|right; exists g, ids; auto|right; exists g', ids'; auto].
    + intros [H|(g' & ids' & [[= -> -> ->]|H] & Ht & ->)]; [by left; left|left; right; auto|right; exists g', ids'; auto].
Qed.

Section Order.
Context (QuoteMeta : string -> string) (pattern_matches : string -> string -> option bool) (shadowed : gset string).

Definition pipe_groups (s : Stmt) : list (nat * nat * list nat) * nat :=
  stage_groups (flattenPipeline QuoteMeta pattern_matches shadowed s) 0 0 true.

Definition mark_roots (roots : list Stmt) (start : positions * nat) : positions * nat :=
  foldl (fun '(ps, next) s => mark_stages (flattenPipeline QuoteMeta pattern_matches shadowed s) 0 (S next) (S next) true ps) start roots.

(** Two statements are in one pipe, at the given stages. *)
Definition share (ps : positions) (t u a b : nat) : Prop := exists k, (k, a) ∈ at_ ps t /\ (k, b) ∈ at_ ps u.

Definition in_groups (gs : list (nat * nat * list nat)) (t u a b : nat) : Prop :=
  exists g i j, (g, a, i) ∈ gs /\ t ∈ i /\ (g, b, j) ∈ gs /\ u ∈ j.

(** Sharing a number is being in the same group of the same pipe. *)
Lemma mark_roots_share roots : forall ps next t u a b,
  (forall i k c, (k, c) ∈ at_ ps i -> (k <= next)%nat) ->
  share (mark_roots roots (ps, next)).1 t u a b <->
  share ps t u a b \/ exists r, r ∈ roots /\ in_groups (pipe_groups r).1 t u a b.
Proof.
  induction roots as [|r roots IH]; intros ps next t u a b Hlow; cbn [mark_roots foldl].
  - split; [by left|]. intros [H|(r & H & _)]; [done|by apply elem_of_nil in H].
  - pose proof (mark_stages_groups (flattenPipeline QuoteMeta pattern_matches shadowed r) 0 (S next) 0 true ps) as Hm.
    rewrite Nat.add_0_r in Hm. unfold mark_roots in IH. rewrite Hm. clear Hm. rewrite IH.
    + setoid_rewrite elem_of_cons. unfold share, pipe_groups. setoid_rewrite mark_groups_spec. split.
      * intros [(k & [H1|(g1 & i & H1 & Ht & ->)] & [H2|(g2 & j & H2 & Hu & He)])|(r' & Hr & H)].
        -- left. by exists k.
        -- subst. apply Hlow in H1. lia.
        -- apply Hlow in H2. lia.
        -- right. exists r. split; [by left|]. assert (g1 = g2) as -> by lia. by exists g2, i, j.
        -- right. exists r'. auto.
      * intros [(k & H1 & H2)|(r' & [->|Hr] & H)].
        -- left. exists k. auto.
        -- left. destruct H as (g & i & j & H1 & Ht & H2 & Hu). exists (S next + g)%nat. split; right; [exists g, i|exists g, j]; auto.
        -- right. exists r'. auto.
    + intros i k c. rewrite mark_groups_spec. intros [H|(g & ids & H & _ & ->)]; [apply Hlow in H; lia|].
      apply stage_groups_range in H. lia.
Qed.

Lemma positions_share order stmts next t u a b :
  share (pipelinePositions QuoteMeta pattern_matches shadowed order stmts next).1 t u a b <->
  exists r, r ∈ order (root_pipes stmts) /\ in_groups (pipe_groups r).1 t u a b.
Proof.
  unfold pipelinePositions. pose proof (mark_roots_share (order (root_pipes stmts)) ∅ next t u a b) as H.
  unfold mark_roots in H. rewrite H; clear H.
  - split; [intros [(k & H & _)|H]; [by apply elem_of_nil in H|done]|by right].
  - intros i k c H. by apply elem_of_nil in H.
Qed.

(** A command where it stands in a file. *)
Definition placed (ps : positions) (command : list string * nat) : Simple :=
  {| s_Argv := command.1; s_Redirects := []; s_ReadRedirects := []; s_Cwd := ""; s_Unresolved := false;
     s_findCallback := false; s_literalArgs := ∅; s_literalOut := ∅; s_literalIn := ∅; s_resolvedArgs := ∅;
     s_resolvedOut := ∅; s_resolvedIn := ∅; s_gitEnvironment := ∅; s_goEnvironment := ∅; s_goBin := "";
     s_gitEnvironmentUnknown := false; s_gitInitExpected := false; s_fsUncertain := false;
     s_pipelines := at_ ps command.2; s_cwdUnknown := false; s_cwdOnlyUnresolved := false; s_plainCall := false;
     s_globTailResolved := ∅; s_stdoutFate := stdoutRoot; s_stateFsUncertain := false |}.

Lemma later_stage_share ps c d :
  laterPipelineStage (placed ps c) (placed ps d) = true <-> exists a b, (a < b)%nat /\ share ps c.2 d.2 a b.
Proof.
  unfold laterPipelineStage, share. cbn [placed s_pipelines]. rewrite existsb_exists. setoid_rewrite existsb_exists.
  setoid_rewrite <- list_elem_of_In. split.
  - intros ([k a] & H1 & [k' b] & H2 & H). cbn [fst snd] in H. breflect. subst. exists a, b. split; [done|]. by exists k'.
  - intros (a & b & Hab & k & H1 & H2). exists (k, a). split; [done|]. exists (k, b). split; [done|]. cbn [fst snd].
    apply andb_true_iff. split; [apply Nat.eqb_refl|by apply Nat.ltb_lt].
Qed.

(** Go ranges over a map of pipes, so the numbers that pipes get differ from run to
    run, and with them every position. What the rule on downloads makes of the commands
    does not: for any two orders in which the pipes are numbered, and any numbers taken
    before, it gives the same verdict. *)
Theorem pipe_order_irrelevant order1 order2 stmts next1 next2 commands :
  (forall l, order1 l ≡ₚ l) -> (forall l, order2 l ≡ₚ l) ->
  checkDownloadPipeShell (map (placed (pipelinePositions QuoteMeta pattern_matches shadowed order1 stmts next1).1) commands) =
  checkDownloadPipeShell (map (placed (pipelinePositions QuoteMeta pattern_matches shadowed order2 stmts next2).1) commands).
Proof.
  intros H1 H2. set (ps1 := (pipelinePositions _ _ _ order1 _ _).1). set (ps2 := (pipelinePositions _ _ _ order2 _ _).1).
  assert (Hshare : forall t u a b, share ps1 t u a b <-> share ps2 t u a b).
  { intros t u a b. unfold ps1, ps2. rewrite !positions_share. by setoid_rewrite H1; setoid_rewrite H2. }
  assert (Hlater : forall c d, laterPipelineStage (placed ps1 c) (placed ps1 d) = laterPipelineStage (placed ps2 c) (placed ps2 d)).
  { intros c d. apply eq_true_iff_eq. rewrite !later_stage_share. by setoid_rewrite Hshare. }
  clearbody ps1 ps2. induction commands as [|c commands IH]; [done|]. cbn [map checkDownloadPipeShell].
  rewrite IH. assert (Hargv : forall ps d, s_Argv (placed ps d) = d.1) by done. rewrite !Hargv.
  assert (existsb (fun i => interpreters (head (s_Argv i)) && laterPipelineStage (placed ps1 c) i) (map (placed ps1) commands) =
          existsb (fun i => interpreters (head (s_Argv i)) && laterPipelineStage (placed ps2 c) i) (map (placed ps2) commands)) as ->; [|done].
  clear IH. induction commands as [|d commands IH]; [done|]. cbn [map existsb]. by rewrite IH, Hlater, !Hargv.
Qed.

(** Stages that hand on their input are one group. *)
Lemma stage_groups_first stages stage g carries gs :
  (stage_groups stages stage g carries).1 !! 0%nat = Some gs ->
  exists m f, stages !! 0%nat = Some (m, f) /\ gs = (if (0 <? stage)%nat && negb carries then S g else g, stage, m).
Proof.
  destruct stages as [|[m f] rest]; [done|]. cbn [stage_groups].
  destruct (stage_groups rest (S stage) _ (forwards f)). cbn. intros [= <-]. by exists m, f.
Qed.

Lemma stage_groups_step stages : forall stage g carries i gs,
  (stage_groups stages stage g carries).1 !! i = Some gs ->
  gs.1.2 = (stage + i)%nat /\ (exists f, stages !! i = Some (gs.2, f) /\
    forall hs, (stage_groups stages stage g carries).1 !! S i = Some hs -> forwards f = true -> hs.1.1 = gs.1.1).
Proof.
  induction stages as [|[m f] rest IH]; intros stage g carries i gs H; [done|]. cbn [stage_groups] in *.
  set (g' := if _ : bool then S g else g) in *. pose proof (stage_groups_first rest (S stage) g' (forwards f)) as Hfirst.
  specialize (IH (S stage) g' (forwards f)). destruct (stage_groups rest (S stage) g' (forwards f)) as [more last]. cbn in *.
  destruct i as [|i]; cbn in *.
  - injection H as <-. cbn. split; [lia|]. exists f. split; [done|]. intros hs Hs Hf.
    destruct (Hfirst _ Hs) as (m' & f' & _ & ->). by rewrite Hf.
  - destruct (IH _ _ H) as (-> & f' & Hf & Hnext). split; [lia|]. by exists f'.
Qed.

Lemma stage_groups_all stages : forall stage g carries i m f,
  stages !! i = Some (m, f) -> exists k, (stage_groups stages stage g carries).1 !! i = Some (k, (stage + i)%nat, m).
Proof.
  induction stages as [|[m' f'] rest IH]; intros stage g carries i m f H; [done|]. cbn [stage_groups].
  set (g' := if _ : bool then S g else g). specialize (IH (S stage) g' (forwards f')).
  destruct (stage_groups rest (S stage) g' (forwards f')) as [more last]. destruct i as [|i]; cbn in *.
  - injection H as <- <-. exists g'. by rewrite Nat.add_0_r.
  - destruct (IH _ _ _ H) as (k & Hk). exists k. etrans; [exact Hk|]. do 3 f_equal. lia.
Qed.

Lemma connected_group stages a b k m :
  (a <= b)%nat -> (forall i, (a <= i < b)%nat -> exists m f, stages !! i = Some (m, f) /\ forwards f = true) ->
  (stage_groups stages 0 0 true).1 !! a = Some (k, a, m) -> is_Some (stages !! b) ->
  exists m', (stage_groups stages 0 0 true).1 !! b = Some (k, b, m').
Proof.
  intros Hab Hf Ha. induction Hab as [|b Hab IH]; intros [[m' f'] Hb]; [by exists m|].
  destruct (Hf b) as (m1 & f1 & Hb1 & Hf1); [lia|]. destruct IH as (m2 & H2); [intros i Hi; apply Hf; lia|by eexists|].
  destruct (stage_groups_all stages 0 0 true (S b) m' f' Hb) as (k' & Hk').
  destruct (stage_groups_step stages 0 0 true b _ H2) as (_ & f2 & Hl & Hnext). rewrite Hl in Hb1. injection Hb1 as _ ->.
  specialize (Hnext _ Hk' Hf1). cbn in Hnext. subst k'. by exists m'.
Qed.

(** A fetch somewhere, and an interpreter behind it that is later in the same pipe. *)
Lemma download_found ps l1 c1 t l2 c2 u l3 a b :
  fetchTools (head c1) = true -> interpreters (head c2) = true -> (a < b)%nat -> share ps t u a b ->
  exists v, checkDownloadPipeShell (map (placed ps) (l1 ++ (c1, t) :: l2 ++ (c2, u) :: l3)) = Some v /\ v_Decision v = Deny.
Proof.
  intros Hc1 Hc2 Hab Hs. induction l1 as [|d l1 IH]; cbn [app map checkDownloadPipeShell].
  - change (s_Argv (placed ps (c1, t))) with c1. rewrite Hc1. cbn [andb].
    assert (existsb (fun i => interpreters (head (s_Argv i)) && laterPipelineStage (placed ps (c1, t)) i)
              (map (placed ps) (l2 ++ (c2, u) :: l3)) = true) as ->; [|by eexists].
    apply existsb_exists. exists (placed ps (c2, u)). split.
    + apply in_map, in_or_app. right. by left.
    + apply andb_true_iff. split; [done|]. apply later_stage_share. by exists a, b.
  - destruct (fetchTools _ && _); [by eexists|done].
Qed.

(** A command that fetches, marked in one stage, and an interpreter that is marked in a
    later one, with stages between them that may hand their input on. *)
Lemma marked_download_denied order stmts next r a b m1 f1 m2 f2 l1 c1 t l2 c2 u l3 :
  (forall l, order l ≡ₚ l) -> r ∈ root_pipes stmts ->
  let stages := flattenPipeline QuoteMeta pattern_matches shadowed r in
  stages !! a = Some (m1, f1) -> stages !! b = Some (m2, f2) -> (a < b)%nat ->
  (forall i, (a <= i < b)%nat -> exists m f, stages !! i = Some (m, f) /\ forwards f = true) ->
  t ∈ m1 -> u ∈ m2 -> fetchTools (head c1) = true -> interpreters (head c2) = true ->
  let ps := (pipelinePositions QuoteMeta pattern_matches shadowed order stmts next).1 in
  exists v, checkDownloadPipeShell (map (placed ps) (l1 ++ (c1, t) :: l2 ++ (c2, u) :: l3)) = Some v /\ v_Decision v = Deny.
Proof.
  intros Hord Hr stages Ha Hb Hab Hf Ht Hu Hc1 Hc2 ps. apply (download_found ps l1 c1 t l2 c2 u l3 a b); try done.
  apply positions_share. exists r. split; [by rewrite Hord|].
  destruct (stage_groups_all stages 0 0 true a m1 f1 Ha) as (k & Hk).
  destruct (connected_group stages a b k m1) as (m' & Hm'); [lia|done|done|by eexists|].
  destruct (stage_groups_all stages 0 0 true b m2 f2 Hb) as (k' & Hk'). cbn in Hk, Hk'. rewrite Hm' in Hk'. injection Hk' as <- ->.
  exists k, m1, m2. split_and!; try done; by eapply list_elem_of_lookup_2.
Qed.

(** ** How input travels, by the rules of the shell *)

(** The words of a call without substitutions or quotes. *)
Definition literal_word (w : Word) : option string :=
  match w with MkWord _ _ [Lit v] => if v =s? "" then None else Some v | _ => None end.
Definition literal_call (s : Stmt) : option (list string) :=
  match st_Cmd s with Some (CallExpr [] args) => mapM literal_word args | _ => None end.

(** The command a word names, whatever its directory. *)
Definition command_name (word : string) : string :=
  let after c s := default s (AfterLast s c) in after "\"%char (after "/"%char word).

(** Redirections that leave the input of a statement alone, and that leave its output
    alone too, with words as they are. *)
Definition literal_redirect (r : Redirect) : Prop :=
  rd_Hdoc r = None /\ match rd_Word r with Some w => is_Some (literal_word w) | None => True end.
Definition output_redirect (r : Redirect) : Prop :=
  literal_redirect r /\ in_list (match rd_Op r with RdrOut => ">" | AppOut => ">>" | ClbOut => ">|" | DplOut => ">&" | RdrAll => "&>" | AppAll => "&>>" | _ => "<" end)
                        [">"; ">>"; ">|"; ">&"; "&>"; "&>>"] = true.
Definition error_redirect (r : Redirect) : Prop :=
  literal_redirect r /\ rd_N r = Some "2" /\
  in_list (match rd_Op r with RdrOut => ">" | AppOut => ">>" | ClbOut => ">|" | DplOut => ">&" | _ => "<" end) [">"; ">>"; ">|"; ">&"] = true.

(** Commands that never read their input, or not past its first line. *)
Definition silent_commands : list string :=
  [":"; "true"; "false"; "printf"; "echo"; "pwd"; "ls"; "touch"; "mkdir"; "sleep"; "test"; "["; "read"].

(** A call that may leave some of the input to what comes after it: all but [cat] and
    [tee], which read to the end, and [read] (of which see [read_leaves_the_rest]). *)
Definition may_leave (s : Stmt) : Prop :=
  exists name args, literal_call s = Some (name :: args) /\ Forall literal_redirect (st_Redirs s) /\
    command_name name ∉ ["cat"; "tee"; "read"].

(** A condition that may hold and may not: more than one statement, or a call of no
    constant. *)
Definition undecided (cond : list Stmt) : Prop :=
  match cond with
  | [] => False
  | [s] => exists name args, literal_call s = Some (name :: args) /\ name ∉ [":"; "true"; "false"]
  | _ => True
  end.

(** The stages of a pipe. *)
Fixpoint pipe_parts (s : Stmt) : list Stmt :=
  match s with
  | MkStmt _ (Some (BinaryCmd op x y)) _ _ _ _ _ => if is_pipe op then pipe_parts x ++ pipe_parts y else [s]
  | _ => [s]
  end.

(** The statement writes, to its output, what it reads: some command of it does that may
    be the first to read. *)
Inductive hands_on : Stmt -> Prop :=
| hands_call s name args :
    literal_call s = Some (name :: args) -> Forall error_redirect (st_Redirs s) ->
    command_name name ∉ silent_commands -> (command_name name = "cat" -> args = []) -> hands_on s
| hands_list s stmts before x after :
    st_Cmd s = Some (Block stmts) \/ st_Cmd s = Some (Subshell stmts) -> Forall error_redirect (st_Redirs s) ->
    stmts = before ++ x :: after -> Forall may_leave before -> hands_on x -> hands_on s
| hands_first s op x y :
    st_Cmd s = Some (BinaryCmd op x y) -> is_pipe op = false -> Forall error_redirect (st_Redirs s) ->
    hands_on x -> hands_on s
| hands_second s op x y :
    st_Cmd s = Some (BinaryCmd op x y) -> is_pipe op = false -> Forall error_redirect (st_Redirs s) ->
    may_leave x -> hands_on y -> hands_on s.

(** The input of the first statement may be read by the second, a call in it. *)
Inductive reads_input : Stmt -> Stmt -> Prop :=
| reads_call s words :
    literal_call s = Some words -> Forall output_redirect (st_Redirs s) -> reads_input s s
| reads_list s stmts before x after t :
    st_Cmd s = Some (Block stmts) \/ st_Cmd s = Some (Subshell stmts) -> Forall output_redirect (st_Redirs s) ->
    stmts = before ++ x :: after -> Forall may_leave before -> reads_input x t -> reads_input s t
| reads_first s op x y t :
    st_Cmd s = Some (BinaryCmd op x y) -> is_pipe op = false -> Forall output_redirect (st_Redirs s) ->
    reads_input x t -> reads_input s t
| reads_second s op x y t :
    st_Cmd s = Some (BinaryCmd op x y) -> is_pipe op = false -> Forall output_redirect (st_Redirs s) ->
    may_leave x -> reads_input y t -> reads_input s t
| reads_pipe s op x y before p after t :
    st_Cmd s = Some (BinaryCmd op x y) -> is_pipe op = true -> Forall output_redirect (st_Redirs s) ->
    pipe_parts s = before ++ p :: after -> Forall hands_on before -> reads_input p t -> reads_input s t
| reads_if s clause t :
    st_Cmd s = Some (IfCmd clause) -> Forall output_redirect (st_Redirs s) -> clause_reads clause t -> reads_input s t
| reads_while_cond s until cond body before x after t :
    st_Cmd s = Some (WhileClause until cond body) -> Forall output_redirect (st_Redirs s) ->
    cond = before ++ x :: after -> Forall may_leave before -> reads_input x t -> reads_input s t
| reads_while_body s until cond body before x after t :
    st_Cmd s = Some (WhileClause until cond body) -> Forall output_redirect (st_Redirs s) ->
    undecided cond -> Forall may_leave cond ->
    body = before ++ x :: after -> Forall may_leave before -> reads_input x t -> reads_input s t
| reads_for s select name inPos item items body before x after t :
    st_Cmd s = Some (ForClause select (WordIter name inPos (item :: items)) body) -> Forall output_redirect (st_Redirs s) ->
    body = before ++ x :: after -> Forall may_leave before -> reads_input x t -> reads_input s t
with clause_reads : IfClause -> Stmt -> Prop :=
| clause_cond pos cond body orelse before x after t :
    cond = before ++ x :: after -> Forall may_leave before -> reads_input x t -> clause_reads (MkIf pos cond body orelse) t
| clause_then pos cond body orelse before x after t :
    undecided cond -> Forall may_leave cond ->
    body = before ++ x :: after -> Forall may_leave before -> reads_input x t -> clause_reads (MkIf pos cond body orelse) t
| clause_else pos cond body orelse t :
    undecided cond -> Forall may_leave cond -> clause_reads orelse t -> clause_reads (MkIf pos cond body (Some orelse)) t
| clause_last pos body orelse before x after t :
    body = before ++ x :: after -> Forall may_leave before -> reads_input x t -> clause_reads (MkIf pos [] body orelse) t.

Scheme reads_input_mut := Minimality for reads_input Sort Prop
with clause_reads_mut := Minimality for clause_reads Sort Prop.

(** ** The marks follow the input *)

#[local] Notation marking := (markPipelineIngress QuoteMeta pattern_matches shadowed).
#[local] Notation in_word := (in_word QuoteMeta pattern_matches shadowed).
#[local] Notation in_redirect := (in_redirect QuoteMeta pattern_matches shadowed).

Lemma literal_word_shape w v : literal_word w = Some v -> in_word w = [] /\ word_Lit w = v /\ v <> "".
Proof.
  destruct w as [b e [|[x| | | | | | |] [|]]]; try done. cbn. destruct (x =s? "") eqn:E; [done|]. intros [= <-]. breflect.
  unfold word_Lit. cbn. by rewrite append_nil_r.
Qed.

Lemma literal_words_quiet args words : mapM literal_word args = Some words -> flat_map in_word args = [].
Proof.
  intros H%mapM_Some_1. induction H as [|w v args words Hw _ IH]; [done|]. cbn [flat_map].
  by rewrite (proj1 (literal_word_shape w v Hw)), IH.
Qed.

Lemma literal_redirects_quiet redirs : Forall literal_redirect redirs -> flat_map in_redirect redirs = [].
Proof.
  induction 1 as [|[op n [w|] hdoc] redirs [Hh Hw] _ IH]; [done| |]; cbn in Hh; subst hdoc; cbn [flat_map].
  - change (in_redirect (MkRedirect op n (Some w) None)) with (in_word w ++ []).
    destruct Hw as [v Hw]. by rewrite (proj1 (literal_word_shape w v Hw)), IH.
  - exact IH.
Qed.

Lemma output_literal redirs : Forall output_redirect redirs -> Forall literal_redirect redirs.
Proof. intros H. eapply Forall_impl; [exact H|]. by intros r []. Qed.

Lemma output_keeps_input redirs : Forall output_redirect redirs -> stdinReplaced redirs = false.
Proof.
  induction 1 as [|[op n w h] redirs [_ Ho] _ IH]; [done|]. unfold stdinReplaced in *. cbn [existsb rd_Op] in *.
  rewrite IH. by destruct op; rewrite ?andb_false_r.
Qed.

Lemma error_output redirs : Forall error_redirect redirs -> Forall output_redirect redirs.
Proof.
  intros H. eapply Forall_impl; [exact H|]. intros [op n w h] (Hl & _ & Ho). split; [exact Hl|]. by destruct op.
Qed.

Lemma error_keeps_output redirs : Forall error_redirect redirs -> stdoutReplaced redirs = false.
Proof.
  induction 1 as [|[op n w h] redirs (_ & Hn & Ho) _ IH]; [done|]. unfold stdoutReplaced in *. cbn [existsb rd_Op rd_N] in *.
  rewrite IH. subst n. by destruct op.
Qed.

(** A statement whose redirections are plain is marked with what it is made of. *)
Lemma flow_inside id redirs inner t :
  Forall output_redirect redirs -> t ∈ inner.1 -> t ∈ (statement_flow id redirs [] inner).1.
Proof. intros H Ht. unfold statement_flow. cbn. rewrite (output_keeps_input _ H). by right. Qed.

Lemma flow_hands_on id redirs inner :
  Forall error_redirect redirs -> forwards inner.2 = true -> forwards (statement_flow id redirs [] inner).2 = true.
Proof.
  intros H Hf. unfold statement_flow. cbn. by rewrite (output_keeps_input _ (error_output _ H)), (error_keeps_output _ H).
Qed.

Lemma marking_call s words :
  literal_call s = Some words -> Forall literal_redirect (st_Redirs s) ->
  exists args, mapM literal_word args = Some words /\
    marking s = statement_flow (st_id s) (st_Redirs s) [] ([], simpleStdinFlow args).
Proof.
  destruct s as [loc cmd n b c sc redirs]. unfold literal_call. cbn [st_Cmd st_Redirs st_id st_at].
  destruct cmd as [[[|] args| | | | | | | | | | | | | |]|]; try done. intros Hw Hr. exists args. split; [done|].
  change (marking (MkStmt loc (Some (CallExpr [] args)) n b c sc redirs))
    with (statement_flow (at_id loc) redirs (flat_map in_word args ++ flat_map in_redirect redirs) ([], simpleStdinFlow args)).
  by rewrite (literal_words_quiet _ _ Hw), (literal_redirects_quiet _ Hr).
Qed.

(** What a compound statement is made of. *)
Definition inner_flow (cmd : Command) : option ingress :=
  match cmd with
  | Block stmts | Subshell stmts => Some (list_flow (map marking stmts))
  | BinaryCmd op x y => Some (if is_pipe op then pipe_flow (map marking (pipe_parts x ++ pipe_parts y))
                              else list_flow [marking x; marking y])
  | IfCmd clause => Some (stage_if QuoteMeta pattern_matches shadowed clause)
  | WhileClause until cond body =>
      Some (while_flow until (literalCondition cond shadowed) (list_flow (map marking cond)) (list_flow (map marking body)))
  | ForClause _ loop body => Some (for_flow (forClauseIterations QuoteMeta loop) (list_flow (map marking body)))
  | _ => None
  end.

Lemma flatten_parts : forall s, flattenPipeline QuoteMeta pattern_matches shadowed s = map marking (pipe_parts s).
Proof.
  fix IH 1. intros [loc cmd n b c sc redirs]. destruct cmd as [[| | | | | | |op x y| | | | | | |]|]; try reflexivity.
  cbn [pipe_parts].
  change (flattenPipeline QuoteMeta pattern_matches shadowed (MkStmt loc (Some (BinaryCmd op x y)) n b c sc redirs))
    with (match (if is_pipe op then Some (flattenPipeline QuoteMeta pattern_matches shadowed x ++ flattenPipeline QuoteMeta pattern_matches shadowed y) else None) with
          | Some stages => stages | None => [marking (MkStmt loc (Some (BinaryCmd op x y)) n b c sc redirs)] end).
  destruct (is_pipe op); [|done]. by rewrite (IH x), (IH y), map_app.
Qed.

Lemma marking_compound s cmd inner :
  st_Cmd s = Some cmd -> inner_flow cmd = Some inner -> Forall literal_redirect (st_Redirs s) ->
  marking s = statement_flow (st_id s) (st_Redirs s) [] inner.
Proof.
  destruct s as [loc cmd' n b c sc redirs]. cbn [st_Cmd st_Redirs st_id st_at]. intros [= ->] Hi Hr.
  apply literal_redirects_quiet in Hr. destruct cmd as [|clause|until cond body|select loop body| |stmts|stmts|op x y| | | | | | |]; try done;
    injection Hi as <-.
  - change (statement_flow (at_id loc) redirs (flat_map in_redirect redirs) (stage_if QuoteMeta pattern_matches shadowed clause) =
            statement_flow (at_id loc) redirs [] (stage_if QuoteMeta pattern_matches shadowed clause)). by rewrite Hr.
  - change (statement_flow (at_id loc) redirs (flat_map in_redirect redirs)
      (while_flow until (literalCondition cond shadowed) (list_flow (map marking cond)) (list_flow (map marking body))) =
      statement_flow (at_id loc) redirs []
      (while_flow until (literalCondition cond shadowed) (list_flow (map marking cond)) (list_flow (map marking body)))). by rewrite Hr.
  - change (statement_flow (at_id loc) redirs (flat_map in_redirect redirs)
      (for_flow (forClauseIterations QuoteMeta loop) (list_flow (map marking body))) =
      statement_flow (at_id loc) redirs [] (for_flow (forClauseIterations QuoteMeta loop) (list_flow (map marking body)))). by rewrite Hr.
  - change (statement_flow (at_id loc) redirs (flat_map in_redirect redirs) (list_flow (map marking stmts)) =
            statement_flow (at_id loc) redirs [] (list_flow (map marking stmts))). by rewrite Hr.
  - change (statement_flow (at_id loc) redirs (flat_map in_redirect redirs) (list_flow (map marking stmts)) =
            statement_flow (at_id loc) redirs [] (list_flow (map marking stmts))). by rewrite Hr.
  - change (statement_flow (at_id loc) redirs (flat_map in_redirect redirs)
      (match (if is_pipe op then Some (flattenPipeline QuoteMeta pattern_matches shadowed x ++ flattenPipeline QuoteMeta pattern_matches shadowed y) else None) with
       | Some stages => pipe_flow stages | None => list_flow [marking x; marking y] end) =
      statement_flow (at_id loc) redirs [] (if is_pipe op then pipe_flow (map marking (pipe_parts x ++ pipe_parts y)) else list_flow [marking x; marking y])).
    rewrite Hr. destruct (is_pipe op); [|done]. by rewrite !flatten_parts, map_app.
Qed.

(** What single commands do with their input. *)
Lemma simple_flow args name words :
  mapM literal_word args = Some (name :: words) ->
  (command_name name ∉ ["cat"; "tee"; "read"] -> allConsume (simpleStdinFlow args) = false) /\
  (command_name name ∉ silent_commands -> (command_name name = "cat" -> words = []) -> forwards (simpleStdinFlow args) = true).
Proof.
  intros H%mapM_Some_1. apply Forall2_cons_inv_r in H as (first & rest & Hw & Hrest & ->).
  apply literal_word_shape in Hw as (_ & Hl & _). cbn [simpleStdinFlow]. rewrite Hl. fold (command_name name).
  cbv zeta. change (default (default name (AfterLast name "/")) (AfterLast (default name (AfterLast name "/")) "\")) with (command_name name).
  set (n := command_name name). split.
  - intros Hn. apply in_list_false in Hn. unfold in_list in Hn at 1. cbn [existsb] in Hn.
    apply orb_false_iff in Hn as [Hc Hn]. apply orb_false_iff in Hn as [Ht Hn]. apply orb_false_iff in Hn as [Hr _].
    rewrite Hc, Ht, Hr. by destruct (in_list n _).
  - intros Hn Hcat. apply in_list_false in Hn.
    assert (Hq : in_list n [":"; "true"; "false"; "printf"; "echo"; "pwd"; "ls"; "touch"; "mkdir"; "sleep"; "test"; "["] = false).
    { apply in_list_false. apply in_list_false in Hn. intros Hin. apply Hn. unfold silent_commands. set_solver. }
    rewrite Hq. destruct (n =s? "cat") eqn:Ec.
    + apply String.eqb_eq in Ec. rewrite (Hcat Ec) in Hrest. by apply Forall2_nil_inv_r in Hrest as ->.
    + destruct (n =s? "tee"); [done|]. destruct (n =s? "read") eqn:Er; [|done]. apply String.eqb_eq in Er.
      exfalso. apply in_list_false in Hn. apply Hn. rewrite Er. unfold silent_commands. set_solver.
Qed.

Lemma leaves_flow s : may_leave s -> allConsume (marking s).2 = false.
Proof.
  intros (name & args & Hc & Hr & Hn). destruct (marking_call s _ Hc Hr) as (ws & Hw & ->).
  unfold statement_flow. cbn. destruct (stdinReplaced _); [done|]. pose proof (proj1 (simple_flow ws name args Hw) Hn) as Hf.
  destruct (stdoutReplaced _); exact Hf.
Qed.

Lemma undecided_condition cond : undecided cond -> literalCondition cond shadowed = conditionUnknown.
Proof.
  destruct cond as [|s [|]]; [done| |by destruct s as [? [[[|] [|? []]| | | | | | | | | | | | | |]|] ? [] [] ? []]].
  intros (name & args & Hc & Hn). destruct s as [loc [[[|] ws| | | | | | | | | | | | | |]|] n b c sc redirs]; try done.
  unfold literal_call in Hc. cbn [st_Cmd] in Hc. apply mapM_Some_1 in Hc. apply Forall2_cons_inv_r in Hc as (w & rest & Hw & _ & ->).
  apply literal_word_shape in Hw as (_ & Hl & _). destruct rest, b, c, redirs; try done. unfold literalCondition. cbv zeta. rewrite Hl.
  apply in_list_false in Hn. unfold in_list in Hn. cbn [existsb] in Hn.
  apply orb_false_iff in Hn as [-> Hn]. apply orb_false_iff in Hn as [-> Hn]. apply orb_false_iff in Hn as [-> _]. by destruct n.
Qed.

(** Along a list the input gets past what may leave it. *)
Lemma list_from_past before x after : forall flow,
  allConsume flow = false -> Forall (fun i : ingress => allConsume i.2 = false) before ->
  (forall t, t ∈ x.1 -> t ∈ (list_from flow (before ++ x :: after)).1) /\
  (forwards x.2 = true -> forwards (list_from flow (before ++ x :: after)).2 = true).
Proof.
  assert (Hkeep : forall l flow, forwards flow = true -> forwards (list_from flow l).2 = true).
  { induction l as [|[m f] l IH]; intros flow Hf; [done|]. cbn [list_from]. destruct (allConsume flow); [done|].
    pose proof (IH {| allConsume := allConsume f; forwards := forwards flow || forwards f |}) as H.
    destruct (list_from _ l) as [more last]. cbn in *. apply H. by rewrite Hf. }
  induction before as [|[m f] before IH]; intros flow Hflow Hb.
  - destruct x as [m f]. cbn [app list_from]. rewrite Hflow.
    pose proof (Hkeep after {| allConsume := allConsume f; forwards := forwards flow || forwards f |}) as H.
    destruct (list_from _ after) as [more last]. cbn in *. split; [intros t Ht; apply elem_of_app; by left|].
    intros Hf. apply H. by rewrite Hf, orb_true_r.
  - apply Forall_cons in Hb as [Hf Hb]. cbn [app list_from]. rewrite Hflow.
    destruct (IH {| allConsume := allConsume f; forwards := forwards flow || forwards f |} Hf Hb) as [H1 H2].
    destruct (list_from _ (before ++ x :: after)) as [more last]. cbn in *. split; [|done].
    intros t Ht. apply elem_of_app. right. by apply H1.
Qed.

Lemma list_past before x after :
  Forall may_leave before ->
  (forall t, t ∈ (marking x).1 -> t ∈ (list_flow (map marking (before ++ x :: after))).1) /\
  (forwards (marking x).2 = true -> forwards (list_flow (map marking (before ++ x :: after))).2 = true).
Proof.
  intros Hb. rewrite map_app. apply list_from_past; [done|]. rewrite Forall_map. eapply Forall_impl; [exact Hb|]. apply leaves_flow.
Qed.

(** What may leave all of its input leaves some of it. *)
Lemma list_leaves l : Forall may_leave l -> allConsume (list_flow (map marking l)).2 = false.
Proof.
  intros H. unfold list_flow. assert (Hf : allConsume no_flow = false) by done. revert Hf. generalize no_flow as flow.
  induction H as [|s l Hs _ IH]; intros flow Hf; [done|]. cbn [map list_from]. apply leaves_flow in Hs.
  destruct (marking s) as [m f]. rewrite Hf. specialize (IH {| allConsume := allConsume f; forwards := forwards flow || forwards f |} Hs).
  by destruct (list_from _ _) as [more last].
Qed.

Lemma hands_on_flow s : hands_on s -> forwards (marking s).2 = true.
Proof.
  induction 1 as [s name args Hc Hr Hn Hcat|s stmts before x after Hc Hr -> Hb _ IH|s op x y Hc Hop Hr _ IH|s op x y Hc Hop Hr Hx _ IH].
  - destruct (marking_call s _ Hc (output_literal _ (error_output _ Hr))) as (ws & Hw & ->). apply flow_hands_on; [done|].
    by apply (simple_flow ws name args Hw).
  - destruct Hc as [Hc|Hc]; rewrite (marking_compound s _ _ Hc eq_refl (output_literal _ (error_output _ Hr)));
      (apply flow_hands_on; [done|]); by apply list_past.
  - rewrite (marking_compound s _ _ Hc eq_refl (output_literal _ (error_output _ Hr))), Hop. apply flow_hands_on; [done|].
    by apply (list_past [] x [y]).
  - rewrite (marking_compound s _ _ Hc eq_refl (output_literal _ (error_output _ Hr))), Hop. apply flow_hands_on; [done|].
    apply (list_past [x] y []); [by constructor|done].
Qed.

(** In a pipe it gets past the stages that hand it on. *)
Lemma pipe_past before p after t :
  Forall hands_on before -> t ∈ (marking p).1 -> t ∈ (pipe_flow (map marking (before ++ p :: after))).1.
Proof.
  intros Hb Ht. unfold pipe_flow. rewrite map_app. cbn [map].
  enough (H : t ∈ (pipe_stages true (map marking before ++ marking p :: map marking after)).1)
    by (destruct (pipe_stages _ _); exact H).
  induction Hb as [|s before Hs _ IH]; cbn [map app pipe_stages].
  - destruct (marking p) as [m f]. destruct (pipe_stages (forwards f) _) as [more last]. cbn in *. apply elem_of_app. by left.
  - apply hands_on_flow in Hs. destruct (marking s) as [m f]. cbn in Hs. rewrite Hs.
    destruct (pipe_stages true _) as [more last]. cbn in *. apply elem_of_app. by right.
Qed.

Lemma stage_if_made pos cond body orelse :
  stage_if QuoteMeta pattern_matches shadowed (MkIf pos cond body orelse) =
  if is_nil cond then list_flow (map marking body)
  else if_flow (literalCondition cond shadowed) (list_flow (map marking cond)) (list_flow (map marking body))
         (match orelse with Some e => stage_if QuoteMeta pattern_matches shadowed e | None => ([], no_flow) end).
Proof. reflexivity. Qed.

Lemma reads_marked s t : reads_input s t -> st_id t ∈ (marking s).1.
Proof.
  revert s t. apply (reads_input_mut (fun s t => st_id t ∈ (marking s).1)
    (fun c t => st_id t ∈ (stage_if QuoteMeta pattern_matches shadowed c).1)).
  - intros s words Hc Hr. destruct (marking_call s _ Hc (output_literal _ Hr)) as (ws & _ & ->).
    unfold statement_flow. cbn. rewrite (output_keeps_input _ Hr). by left.
  - intros s stmts before x after t Hc Hr -> Hb _ IH.
    destruct Hc as [Hc|Hc]; rewrite (marking_compound s _ _ Hc eq_refl (output_literal _ Hr)); (apply flow_inside; [done|]); by apply list_past.
  - intros s op x y t Hc Hop Hr _ IH. rewrite (marking_compound s _ _ Hc eq_refl (output_literal _ Hr)), Hop.
    apply flow_inside; [done|]. by apply (list_past [] x [y]).
  - intros s op x y t Hc Hop Hr Hx _ IH. rewrite (marking_compound s _ _ Hc eq_refl (output_literal _ Hr)), Hop.
    apply flow_inside; [done|]. apply (list_past [x] y []); [by constructor|done].
  - intros s op x y before p after t Hc Hop Hr Hp Hb _ IH. rewrite (marking_compound s _ _ Hc eq_refl (output_literal _ Hr)), Hop.
    apply flow_inside; [done|].
    assert (pipe_parts s = pipe_parts x ++ pipe_parts y) as E by (destruct s; cbn in Hc; subst; cbn [pipe_parts]; by rewrite Hop).
    rewrite <- E, Hp. by apply pipe_past.
  - intros s clause t Hc Hr _ IH. rewrite (marking_compound s _ _ Hc eq_refl (output_literal _ Hr)). by apply flow_inside.
  - intros s until cond body before x after t Hc Hr -> Hb _ IH. rewrite (marking_compound s _ _ Hc eq_refl (output_literal _ Hr)).
    apply flow_inside; [done|]. apply (list_past before x after) in IH; [|done]. unfold while_flow.
    destruct (allConsume _); [done|]. destruct (body_runs _ _) as [[] g]; [|done]. apply elem_of_app. by left.
  - intros s until cond body before x after t Hc Hr Hu Hcond -> Hb _ IH. rewrite (marking_compound s _ _ Hc eq_refl (output_literal _ Hr)).
    apply flow_inside; [done|]. apply (list_past before x after) in IH; [|done]. unfold while_flow.
    rewrite (list_leaves _ Hcond), (undecided_condition _ Hu). destruct until; cbn; apply elem_of_app; by right.
  - intros s select name inPos item items body before x after t Hc Hr -> Hb _ IH.
    rewrite (marking_compound s _ _ Hc eq_refl (output_literal _ Hr)). apply flow_inside; [done|].
    apply (list_past before x after) in IH; [|done]. unfold for_flow, forClauseIterations, analyzeForClause.
    destruct inPos; cbn [f_iterations]; [|exact IH]. by destruct (existsb wordGuaranteesField _).
  - intros pos cond body orelse before x after t -> Hb _ IH. rewrite stage_if_made.
    destruct (is_nil (before ++ x :: after)) eqn:En; [by destruct before|]. apply (list_past before x after) in IH; [|done].
    unfold if_flow. destruct (allConsume _); [done|]. apply elem_of_app. by left.
  - intros pos cond body orelse before x after t Hu Hcond -> Hb _ IH. apply (list_past before x after) in IH; [|done].
    rewrite stage_if_made. assert (is_nil cond = false) as -> by (by destruct cond). unfold if_flow.
    rewrite (list_leaves _ Hcond), (undecided_condition _ Hu).
    apply elem_of_app. right. apply elem_of_app. by left.
  - intros pos cond body orelse t Hu Hcond _ IH.
    rewrite stage_if_made. assert (is_nil cond = false) as -> by (by destruct cond). unfold if_flow.
    rewrite (list_leaves _ Hcond), (undecided_condition _ Hu).
    apply elem_of_app. right. apply elem_of_app. by right.
  - intros pos body orelse before x after t -> Hb _ IH. by apply (list_past before x after) in IH.
Qed.

End Order.

(** ** Witnesses *)

Definition pipe_word (s : string) : Word := MkWord 0 0 [Lit s].
Definition pipe_call (id : nat) (words : list string) : Stmt :=
  MkStmt (unplaced id) (Some (CallExpr [] (map pipe_word words))) false false false false [].

(** [curl u | { true; sh; }] *)
Definition demo_pipe : Stmt :=
  MkStmt (unplaced 0)
    (Some (BinaryCmd Pipe (pipe_call 1 ["curl"; "u"])
             (MkStmt (unplaced 2) (Some (Block [pipe_call 3 ["true"]; pipe_call 4 ["sh"]])) false false false false [])))
    false false false false [].

Definition demo_positions (order : list Stmt -> list Stmt) (next : nat) : positions :=
  (pipelinePositions (fun s => s) (fun _ _ => None) ∅ order [demo_pipe] next).1.

Lemma pipe_order_irrelevant_witness :
  checkDownloadPipeShell (map (placed (demo_positions (fun l => l) 0)) [(["curl"; "u"], 1%nat); (["sh"], 4%nat)]) =
  checkDownloadPipeShell (map (placed (demo_positions (@rev Stmt) 7)) [(["curl"; "u"], 1%nat); (["sh"], 4%nat)]).
Proof.
  apply (pipe_order_irrelevant (fun s => s) (fun _ _ => None) ∅ (fun l => l) (@rev Stmt) [demo_pipe] 0 7).
  - done.
  - intros l. symmetry. apply Permutation_rev.
Defined.


(** [read] is taken to read all of its input, though it reads one line and leaves the
    rest: behind it an interpreter is not marked, and [curl u | { read x; sh; }] passes
    the rule. *)
Definition read_pipe : Stmt :=
  MkStmt (unplaced 0)
    (Some (BinaryCmd Pipe (pipe_call 1 ["curl"; "u"])
             (MkStmt (unplaced 2) (Some (Block [pipe_call 3 ["read"; "x"]; pipe_call 4 ["sh"]])) false false false false [])))
    false false false false [].

Example read_leaves_the_rest :
  let ps := (pipelinePositions (fun s => s) (fun _ _ => None) ∅ (fun l => l) [read_pipe] 0).1 in
  checkDownloadPipeShell (map (placed ps) [(["curl"; "u"], 1%nat); (["read"; "x"], 3%nat); (["sh"], 4%nat)]) = None /\
  simpleStdinFlow (map pipe_word ["read"; "x"]) = {| allConsume := true; forwards := false |}.
Proof. split; vm_compute; reflexivity. Qed.
