(* ===== verification/Extract.v ===== *)
(** * From the syntax tree to simple commands ([extractSimples] of [tokenize.go])

    Every statement of a source that the walk over it has reached becomes a [Simple]:
    its words and redirections, each read literally, through the variables known there,
    or as it stands. *)

From Stdlib Require Import ZArith Lia Bool.
From S2P Require Import Prelude GoStrings GoPath Policy Argv Engine Simple Wrappers Syntax StdoutFate ShellState ShellVars StdinFlow.

Open Scope string_scope.
Open Scope list_scope.

(** What a call of the tokenizer comes to: it finishes, it panics, or the fuel of the
    model is used up. *)
Inductive run (A : Type) := Finished (a : A) | Crashed | OutOfFuel.
Arguments Finished {A} _.
Arguments Crashed {A}.
Arguments OutOfFuel {A}.

Definition run_bind {A B} (r : run A) (k : A -> run B) : run B :=
  match r with Finished a => k a | Crashed => Crashed | OutOfFuel => OutOfFuel end.

(** A [Simple] while the tokenizer works on it: with the statement it comes from and
    the state of the shell there. *)
Record tokenized := { k_simple : Simple; k_origin : option Stmt; k_state : cwdState }.

(** [Simple{Cwd: cwd, Unresolved: unresolved, cwdUnknown: unknown, pipelines: ps, Argv: argv}] *)
Definition bare_simple (argv : list string) (cwd : string) (unresolved unknown : bool) (ps : list (nat * nat)) : Simple :=
  {| s_Argv := argv; s_Redirects := []; s_ReadRedirects := []; s_Cwd := cwd; s_Unresolved := unresolved;
     s_findCallback := false; s_literalArgs := ∅; s_literalOut := ∅; s_literalIn := ∅; s_resolvedArgs := ∅;
     s_resolvedOut := ∅; s_resolvedIn := ∅; s_gitEnvironment := ∅; s_goEnvironment := ∅; s_goBin := "";
     s_gitEnvironmentUnknown := false; s_gitInitExpected := false; s_fsUncertain := false; s_pipelines := ps;
     s_cwdUnknown := unknown; s_cwdOnlyUnresolved := false; s_plainCall := false; s_globTailResolved := ∅;
     s_stdoutFate := stdoutRoot; s_stateFsUncertain := false |}.

(** ** PowerShell constants *)

Definition psParameterName (name : string) : bool :=
  (name <>s? "") && all_bytes (fun c => is_letter c || is_digit c) name.

Fixpoint trim_left_byte (c : ascii) (s : string) : string :=
  match s with
  | String d rest => if Ascii.eqb d c then trim_left_byte c rest else s
  | EmptyString => s
  end.

Definition psConstantWord (raw : string) : bool :=
  let '(name, value, found) := Cut raw ":" in
  let constant word := in_list (ToLower word) ["$true"; "$false"; "$null"] in
  if found && HasPrefix name "-" then psParameterName (trim_left_byte "-" name) && constant value else constant raw.

Section Extract.
Context (Parse : string -> option (list Stmt)) (src : string).

#[local] Notation literal := (literalText Parse).
Definition is_literal (s : string) : bool := bool_decide (is_Some (literal s)).

(** ** Words *)

(** How a word was read. [stable] is a literal that reads the same again; [glob] what a
    word with a literal glob would be, of a word that is not known. *)
Inductive reading :=
| ReadLiteral (text : string) (stable : bool)
| ReadResolved (text : string)
| ReadUnknown (raw : string) (glob : option string).

(** [state] is the shell's state at the statement, when the walk has tracked it. *)
Definition read_word (state : option cwdState) (w : Word) : reading :=
  let raw := word_text src w in
  match literal raw with
  | Some text => ReadLiteral text (is_literal text)
  | None =>
      match state with
      | None => ReadUnknown raw None
      | Some s =>
          match resolveLocalWord w s with
          | Some text => ReadResolved text
          | None => if c_powerShell s && psConstantWord raw then ReadResolved raw
                    else ReadUnknown raw (resolveLocalWordKeepingLiteralGlob w s)
          end
      end
  end.

Definition reading_text (r : reading) : string :=
  match r with ReadLiteral t _ => t | ReadResolved t => t | ReadUnknown raw _ => raw end.

(** The positions, from [index] on, of the readings that satisfy a test. *)
Fixpoint positions_where {A} (p : A -> bool) (index : nat) (l : list A) : gset nat :=
  match l with
  | [] => ∅
  | a :: rest => (if p a then {[index]} else ∅) ∪ positions_where p (S index) rest
  end.

Definition unstable (r : reading) : bool := match r with ReadLiteral _ false => true | _ => false end.
Definition resolved (r : reading) : bool := match r with ReadResolved _ => true | _ => false end.
Definition unknown_reading (r : reading) : bool := match r with ReadUnknown _ _ => true | _ => false end.

Fixpoint glob_tails (index : nat) (l : list reading) : gmap nat string :=
  match l with
  | [] => ∅
  | ReadUnknown _ (Some glob) :: rest => <[index := glob]> (glob_tails (S index) rest)
  | _ :: rest => glob_tails (S index) rest
  end.

(** ** Redirections *)

(** Whether a redirection reads and writes its word; [None] when it does neither. *)
Definition redirect_access (r : Redirect) : option (bool * bool) :=
  match rd_Op r with
  | RdrOut | AppOut | ClbOut | RdrAll | AppAll => Some (false, true)
  | RdrIn => Some (true, false)
  | RdrInOut => Some (true, true)
  | DplOut => match rd_N r with Some _ => None | None => Some (false, true) end
  | _ => None
  end.

(** A redirection that counts, how its word was read, and whether it reads and writes. *)
Definition read_redirect (state : option cwdState) (r : Redirect) : option (reading * bool * bool) :=
  match rd_Word r, redirect_access r with
  | Some w, Some (read, write) =>
      let raw := word_text src w in
      match literal raw with
      | Some target =>
          if bool_decide (rd_Op r = DplOut) && ((target =s? "-") || allDigits target) then None
          else Some (ReadLiteral target (is_literal target), read, write)
      | None =>
          match (match state with Some s => resolveLocalWord w s | None => None end) with
          | Some target => Some (ReadResolved target, read, write)
          | None => if write && negb read && isNullDiscard raw then None else Some (ReadUnknown raw None, read, write)
          end
      end
  | _, _ => None
  end.

(** ** Statements *)

(** The raw text of an inline [GOBIN]; the last one wins. *)
Definition inline_gobin (assigns : list Assign) : string :=
  foldl (fun found a => match as_Name a, as_Value a with
                        | Some "GOBIN", Some w => word_text src w
                        | _, _ => found
                        end) "" assigns.

Section Statement.
(** Of every statement: its state and whether it is replaced, by identity; [None] for
    the states of a source that was not walked. *)
Context (states : option (gmap nat cwdState)) (replaced : nat -> bool) (fates : gmap nat stdoutFate) (pipelines : positions).

Definition tracked (s : Stmt) : option cwdState := match states with Some m => m !! st_id s | None => None end.
Definition untracked (s : Stmt) : bool := match states with Some m => negb (bool_decide (is_Some (m !! st_id s))) | None => false end.

Definition is_call (s : Stmt) : bool := match st_Cmd s with Some (CallExpr _ _) => true | _ => false end.

(** A compound statement another list of commands stands for. *)
Definition stands_in (s : Stmt) : bool := replaced (st_id s) && is_nil (st_Redirs s) && negb (is_call s).

Definition placeholder (s : Stmt) (state : cwdState) : tokenized :=
  {| k_simple := bare_simple [] (c_cwd state) (c_unknown state) (c_unknown state) []; k_origin := Some s; k_state := state |}.

Definition statement_simple (s : Stmt) (assigns : list Assign) (args : list Word) (call : bool) : tokenized :=
  let state := tracked s in
  let words := map (read_word state) args in
  let redirects := omap (read_redirect state) (st_Redirs s) in
  let outs := map (fun r => r.1.1) (List.filter (fun r => r.2) redirects) in
  let ins := map (fun r => r.1.1) (List.filter (fun r => r.1.2) redirects) in
  let plain := call && is_nil assigns && is_nil (st_Redirs s) in
  let unknown := match state with Some c => c_unknown c | None => false end in
  let simple :=
    {| s_Argv := map reading_text words; s_Redirects := map reading_text outs; s_ReadRedirects := map reading_text ins;
       s_Cwd := match state with Some c => c_cwd c | None => "" end;
       s_Unresolved := unknown || existsb unknown_reading words || existsb (fun r => unknown_reading r.1.1) redirects;
       s_findCallback := false;
       s_literalArgs := positions_where unstable 0 words; s_literalOut := positions_where unstable 0 outs;
       s_literalIn := positions_where unstable 0 ins;
       s_resolvedArgs := positions_where resolved 0 words; s_resolvedOut := positions_where resolved 0 outs;
       s_resolvedIn := positions_where resolved 0 ins;
       s_gitEnvironment := ∅; s_goEnvironment := ∅; s_goBin := inline_gobin assigns;
       s_gitEnvironmentUnknown := false; s_gitInitExpected := false; s_fsUncertain := false;
       s_pipelines := at_ pipelines (st_id s); s_cwdUnknown := unknown;
       s_cwdOnlyUnresolved := unknown && plain && negb (replaced (st_id s));
       s_plainCall := plain && negb (replaced (st_id s));
       s_globTailResolved := glob_tails 0 words;
       s_stdoutFate := default stdoutRoot (fates !! st_id s);
       s_stateFsUncertain := match state with Some c => c_fsUncertain c | None => false end |} in
  match state with
  | Some c => {| k_simple := simple; k_origin := Some s; k_state := c |}
  | None => {| k_simple := simple; k_origin := None; k_state := zero_state |}
  end.

(** The command of one statement the walk over the tree visits. *)
Definition extract_statement (s : Stmt) : option tokenized :=
  if untracked s then None
  else if stands_in s then Some (placeholder s (default zero_state (tracked s)))
  else
    let '(assigns, args, call) := match st_Cmd s with
                                  | Some (CallExpr assigns args) => (assigns, args, true)
                                  | _ => ([], [], false)
                                  end in
    if is_nil args && is_nil (st_Redirs s) then None else Some (statement_simple s assigns args call).

(** The walk does not go into what was not tracked or is replaced. *)
Definition enters (s : Stmt) : bool := negb (untracked s) && negb (stands_in s).

Definition extract_tokenized (stmts : list Stmt) : list tokenized :=
  omap (fun v => match v with VStmt s => extract_statement s | _ => None end) (flat_map (stmt_visits enters) stmts).
End Statement.

(** [stdoutFates] of the same tree comes first, and may panic. *)
Definition extractSimples (stmts : list Stmt) (pipelines : positions) (states : option (gmap nat cwdState))
    (replacements : gmap nat (list Simple)) : run (list tokenized) :=
  match stdoutFates Parse src stmts with
  | Panics => Crashed
  | Returns fates =>
      Finished (extract_tokenized states (fun id => bool_decide (is_Some (replacements !! id))) fates pipelines stmts)
  end.
End Extract.
