(* ===== verification/Walker.v ===== *)
(** * The walk over a command line ([cwdWalker] of [tokenize.go])

    The tokenizer runs a source abstractly: statement by statement it carries the state
    of the shell along, records it for every statement it reaches, follows functions and
    [eval] into the sources they run, and enumerates short loops. Normalizing a nested
    source is a parameter here; [Normalize] ties the knot. *)

From Stdlib Require Import ZArith Lia Bool.
From S2P Require Import Prelude GoStrings GoPath Policy Argv Engine Simple Wrappers Syntax ShellState ShellVars ShellCd StdinFlow FindActions WriteTargets Extract.

Open Scope string_scope.
Open Scope list_scope.

(** ** Shell functions *)

(** The bodies a name may have, as sources, and whether it may have none. *)
Record shellFunctionSet := { fn_bodies : list string; fn_mayBeUndefined : bool }.

#[global] Instance shellFunctionSet_eq_dec : EqDecision shellFunctionSet.
Proof. solve_decision. Defined.

Notation functions := (gmap string shellFunctionSet).

Definition appendFunctionBody (bodies : list string) (body : string) : list string :=
  if in_list body bodies then bodies else bodies ++ [body].

Definition merge_sets (current set : shellFunctionSet) : shellFunctionSet :=
  {| fn_bodies := foldl appendFunctionBody (fn_bodies current) (fn_bodies set);
     fn_mayBeUndefined := fn_mayBeUndefined current || fn_mayBeUndefined set |}.

Definition no_function : shellFunctionSet := {| fn_bodies := []; fn_mayBeUndefined := false |}.

(** A name that one of the alternatives lacks may be undefined. *)
Definition mergeFunctionAlternatives (alternatives : list functions) : functions :=
  let union := foldl (fun (merged : functions) (fs : functions) =>
    merge (fun a b => match a, b with
                      | _, Some set => Some (merge_sets (default no_function a) set)
                      | Some a, None => Some a
                      | None, None => None
                      end) merged fs) ∅ alternatives in
  map_imap (fun name set =>
    Some (if forallb (fun fs : functions => bool_decide (is_Some (fs !! name))) alternatives then set
          else {| fn_bodies := fn_bodies set; fn_mayBeUndefined := true |})) union.

Definition sameFunctionEnvironment (l r : functions) : bool := bool_decide (l = r).

(** ** The walker *)

(** What the walk writes: the state, the commands that replace it and the state of a
    call, of every statement by identity; the constants functions have taken; the
    functions themselves, and the last number a pipe has taken. *)
Record Walk := {
  wk_states : gmap nat cwdState;
  wk_replacements : gmap nat (list Simple);
  wk_recursive : gmap nat cwdState;
  wk_shadowed : gset string;
  wk_functions : functions;
  wk_nextPipelineID : nat;
}.

Definition M (A : Type) := Walk -> run (A * Walk).

Definition ret {A} (a : A) : M A := fun w => Finished (a, w).
Definition bind {A B} (m : M A) (k : A -> M B) : M B := fun w => run_bind (m w) (fun '(a, w) => k a w).
Definition crash {A} : M A := fun _ => Crashed.
Definition get {A} (f : Walk -> A) : M A := fun w => Finished (f w, w).
Definition modify (f : Walk -> Walk) : M unit := fun w => Finished (tt, f w).

#[local] Notation "'let*' x := m 'in' k" := (bind m (fun x => k)) (at level 200, x pattern, right associativity).
#[local] Notation "m ;; k" := (bind m (fun _ => k)) : go_scope.

Definition record_state (id : nat) (s : cwdState) : M unit := modify (fun w =>
  {| wk_states := <[id := s]> (wk_states w); wk_replacements := wk_replacements w; wk_recursive := wk_recursive w;
     wk_shadowed := wk_shadowed w; wk_functions := wk_functions w; wk_nextPipelineID := wk_nextPipelineID w |}).

Definition replace (id : nat) (simples : list Simple) : M unit := modify (fun w =>
  {| wk_states := wk_states w; wk_replacements := <[id := simples]> (wk_replacements w); wk_recursive := wk_recursive w;
     wk_shadowed := wk_shadowed w; wk_functions := wk_functions w; wk_nextPipelineID := wk_nextPipelineID w |}).

Definition record_call (id : nat) (s : cwdState) : M unit := modify (fun w =>
  {| wk_states := wk_states w; wk_replacements := wk_replacements w; wk_recursive := <[id := s]> (wk_recursive w);
     wk_shadowed := wk_shadowed w; wk_functions := wk_functions w; wk_nextPipelineID := wk_nextPipelineID w |}).

Definition with_functions (fs : functions) (w : Walk) : Walk :=
  {| wk_states := wk_states w; wk_replacements := wk_replacements w; wk_recursive := wk_recursive w;
     wk_shadowed := wk_shadowed w; wk_functions := fs; wk_nextPipelineID := wk_nextPipelineID w |}.

Definition shadow (names : gset string) : M unit := modify (fun w =>
  {| wk_states := wk_states w; wk_replacements := wk_replacements w; wk_recursive := wk_recursive w;
     wk_shadowed := names ∪ wk_shadowed w; wk_functions := wk_functions w; wk_nextPipelineID := wk_nextPipelineID w |}).

(** A child walker has its own functions and shares everything else. *)
Definition isolated {A} (m : M A) : M A := fun w =>
  run_bind (m w) (fun '(a, w') => Finished (a, with_functions (wk_functions w) w')).

Definition shadowed_by (fs : functions) : gset string :=
  ⋃ (map shadowable (map fst (map_to_list fs))).

Definition publishFunctions (fs : functions) (uncertain : bool) : M unit :=
  let* current := get wk_functions in
  let fs := if uncertain then mergeFunctionAlternatives [current; fs] else fs in
  modify (with_functions fs);;
  shadow (shadowed_by fs).

Definition joinFunctionEnvironment (alternative : functions) : M unit :=
  let* current := get wk_functions in
  publishFunctions (mergeFunctionAlternatives [alternative; current]) false.

Definition withFunctionEnvironmentAlternative {A} (includePrior : bool) (m : M A) : M A :=
  if includePrior then
    let* prior := get wk_functions in
    let* a := m in
    joinFunctionEnvironment prior;;
    ret a
  else m.

Definition defineFunction (name source : string) (uncertain : bool) : M unit :=
  let* fs := get wk_functions in
  let set := if uncertain then
               match fs !! name with
               | Some set => {| fn_bodies := appendFunctionBody (fn_bodies set) source; fn_mayBeUndefined := fn_mayBeUndefined set |}
               | None => {| fn_bodies := [source]; fn_mayBeUndefined := true |}
               end
             else {| fn_bodies := [source]; fn_mayBeUndefined := false |} in
  modify (with_functions (<[name := set]> fs));;
  shadow (shadowable name).

Definition redirectsWrite (redirs : list Redirect) : bool :=
  existsb (fun r => match rd_Op r with
                    | RdrOut | AppOut | ClbOut | RdrAll | AppAll | RdrInOut => true
                    | DplOut => match rd_N r with None => true | Some _ => false end
                    | _ => false
                    end) redirs.

(** What normalizing a nested source gives. *)
Record normalizeResult := { r_simples : list Simple; r_outcome : cwdOutcome; r_functions : functions }.

Section Walker.
Context (Parse : string -> option (list Stmt)) (QuoteMeta : string -> string)
  (pattern_matches : string -> string -> option bool) (SplitBraces : Word -> bool) (h : CdHost).

(** [normalizeWithState] of the sources nested in this one, by source, state, depth of
    loops, functions, functions being run, positions and the last pipe's number; [None]
    is an error of the parser. *)
Context (normalize : string -> cwdState -> nat -> functions -> gset string -> list (nat * nat) -> nat ->
                     run (option normalizeResult * nat)).

(** The source, the functions being run, and the positions of the statements. *)
Context (src : string) (active : gset string) (pipelines : positions).

#[local] Notation literal := (literalText Parse).
#[local] Notation static w := (staticWord QuoteMeta w false).

Definition slice (first last : nat) : string := stake (last - first) (sdrop first src).

Definition nested (source : string) (s : cwdState) (depth : nat) (fs : functions) (running : gset string) (id : nat)
    : M (option normalizeResult) := fun w =>
  run_bind (normalize source s depth fs running (at_ pipelines id) (wk_nextPipelineID w)) (fun '(r, next) =>
    Finished (r, {| wk_states := wk_states w; wk_replacements := wk_replacements w; wk_recursive := wk_recursive w;
                    wk_shadowed := wk_shadowed w; wk_functions := wk_functions w; wk_nextPipelineID := next |})).

(** ** Calls *)

Definition simpleForCall (redirs : list Redirect) (args : list Word) (s : cwdState) : Simple :=
  let read w := let raw := word_text src w in
                match literal raw with
                | Some text => ReadLiteral text true
                | None => match resolveLocalWord w s with Some text => ReadResolved text | None => ReadUnknown raw None end
                end in
  let words := map read args in
  {| s_Argv := map reading_text words; s_Redirects := []; s_ReadRedirects := []; s_Cwd := "";
     s_Unresolved := existsb unknown_reading words ||
       existsb (fun r => match rd_Word r with
                         | Some w => negb (bool_decide (is_Some (literal (word_text src w))))
                         | None => false
                         end) redirs;
     s_findCallback := false; s_literalArgs := ∅; s_literalOut := ∅; s_literalIn := ∅;
     s_resolvedArgs := positions_where resolved 0 words;
     s_resolvedOut := ∅; s_resolvedIn := ∅; s_gitEnvironment := ∅; s_goEnvironment := ∅; s_goBin := "";
     s_gitEnvironmentUnknown := false; s_gitInitExpected := false; s_fsUncertain := false; s_pipelines := [];
     s_cwdUnknown := false; s_cwdOnlyUnresolved := false; s_plainCall := false; s_globTailResolved := ∅;
     s_stdoutFate := stdoutRoot; s_stateFsUncertain := false |}.

Definition forgotten (s : cwdState) : cwdState := invalidateNamedVariables s [] true.

(** The command that [eval] or a function call stands for when it cannot be followed. *)
Definition unfollowed (id : nat) (argv : list string) (s : cwdState) (unknown : bool) : Simple :=
  bare_simple argv (c_cwd s) true unknown (at_ pipelines id).

Definition eval (id : nat) (depth : nat) (ud : bool) (simple : Simple) (argv : list string) (s : cwdState) : M cwdOutcome :=
  if c_unknown s || s_Unresolved simple then
    replace id [unfollowed id (s_Argv simple) s true];;
    shadow {["true"; "false"]};;
    ret (bothOutcome (unknownCwd [forgotten s]))
  else
    match tail argv with
    | [] => replace id [];; ret (successOutcome s)
    | words =>
        let* fs := get wk_functions in
        let* result := nested (Join words " ") s depth fs active id in
        match result with
        | None =>
            replace id [unfollowed id (s_Argv simple) s true];;
            ret (bothOutcome (unknownCwd [forgotten s]))
        | Some r =>
            replace id (r_simples r);;
            publishFunctions (r_functions r) ud;;
            ret (r_outcome r)
        end
    end.

(** The bodies one by one: their commands, outcomes and functions, and whether one
    could not be read. *)
Fixpoint run_bodies (id depth : nat) (running : gset string) (base : functions) (s : cwdState) (bodies : list string)
    : M (list Simple * list cwdOutcome * list functions * bool) :=
  match bodies with
  | [] => ret ([], [], [], false)
  | source :: rest =>
      let* result := nested source s depth base running id in
      let* (simples, outcomes, alternatives, failed) := run_bodies id depth running base s rest in
      match result with
      | None => ret (simples, bothOutcome (unknownCwd [s]) :: outcomes, base :: alternatives, true)
      | Some r => ret (r_simples r ++ simples, r_outcome r :: outcomes, r_functions r :: alternatives, failed)
      end
  end.

Definition functionCall (id depth : nat) (ud : bool) (simple : Simple) (name : string) (set : shellFunctionSet) (s : cwdState)
    : M cwdOutcome :=
  if bool_decide (name ∈ active) then
    replace id [unfollowed id (s_Argv simple) s true];;
    ret (bothOutcome (unknownCwd [s]))
  else
    let* base := get wk_functions in
    let* (simples, outcomes, alternatives, failed) := run_bodies id depth ({[name]} ∪ active) base s (fn_bodies set) in
    let absent := fn_mayBeUndefined set || is_nil (fn_bodies set) in
    let ambiguous := fn_mayBeUndefined set || negb (length (fn_bodies set) =? 1)%nat in
    let outcomes := outcomes ++ if absent then [bothOutcome (unknownCwd [s])] else [] in
    let alternatives := alternatives ++ if absent then [base] else [] in
    let simples := simples ++ if ambiguous || failed then [unfollowed id (s_Argv simple) s (c_unknown s)] else [] in
    replace id simples;;
    publishFunctions (mergeFunctionAlternatives alternatives) ud;;
    ret (mergeOutcomes outcomes).

(** The end of [call]: what a command that is no builtin of the walk may have done. *)
Definition after_command (stmt : Stmt) (simple : Simple) (argv : list string) (s : cwdState) : M cwdOutcome :=
  let* shadowed := get wk_shadowed in
  let shellCommand := match shellDashC argv with Ok (Some _) => true | _ => false end in
  let command := head (s_Argv simple) in
  let writes := negb (is_nil (s_Redirects simple)) || negb (is_nil (writeTargets simple)) ||
                negb (in_list command ["cd"; ":"; "true"; "false"]) in
  let s := if shellCommand || (hd "" argv =s? "watch") || writes then fs_changed s else s in
  let truth := literalCondition [stmt] shadowed in
  let truth := if st_Negated stmt then negated_truth truth else truth in
  ret (match truth with
       | conditionTrue => successOutcome s
       | conditionFalse => failureOutcome s
       | conditionUnknown => bothOutcome s
       end).

Definition call (stmt : Stmt) (depth : nat) (ud : bool) (assigns : list Assign) (args : list Word) (s : cwdState) : M cwdOutcome :=
  let id := st_id stmt in
  match args with
  | [] => ret (successOutcome (applyPersistentAssignments QuoteMeta s assigns))
  | _ =>
      let simple := simpleForCall (st_Redirs stmt) args s in
      let local := applyCallAssignments QuoteMeta s assigns in
      record_call id local;;
      let* fs := get wk_functions in
      let name := hd "" (s_Argv simple) in
      let called := if wordUnresolved (fun t => bool_decide (is_Some (literal t))) simple 0 then None else fs !! name in
      match called with
      | Some set =>
          let* out := functionCall id depth ud simple name set local in
          ret (restoreCallAssignments out s assigns)
      | None =>
          match directCommandArgv (s_Argv simple) with
          | DirectError => ret (bothOutcome (unknownCwd [forgotten s]))
          | Direct _ _ true => ret (bothOutcome s)
          | Direct [] _ false => ret (bothOutcome s)
          | Direct ((command :: _) as argv) bypass false =>
              if command =s? "eval" then
                let* out := eval id depth ud simple argv local in
                ret (restoreCallAssignments out s assigns)
              else
                let declares := assignmentDeclarationBuiltin command in
                let '(s1, local1) := if declares then (invalidateCallVariables s argv, invalidateCallVariables local argv)
                                     else (s, local) in
                if s_Unresolved simple && bypass then ret (bothOutcome (unknownCwd [s1]))
                else if s_Unresolved simple && negb (bool_decide (fs = ∅)) && negb bypass then ret (bothOutcome (unknownCwd [s1]))
                else
                  let '(s1, local1) := if declares then (s1, local1)
                                       else (invalidateCallVariables s1 argv, invalidateCallVariables local1 argv) in
                  if command =s? "cd" then ret (restoreCallAssignments (cdOutcome h local1 (s_Unresolved simple) argv) s1 assigns)
                  else if in_list command ["pushd"; "popd"] then ret (bothOutcome (unknownCwd [s1]))
                  else if in_list command ["."; "source"] then ret (bothOutcome (unknownCwd [local1]))
                  else if in_list command ["return"; "break"; "continue"] then ret (bothOutcome (unknownCwd [s1]))
                  else after_command stmt simple argv s1
          end
      end
  end.

(** ** Loops over known items *)

Definition maxStaticForItems : nat := 16.

Definition staticForItems (loop : Loop) : option (list string) :=
  match loop with
  | WordIter _ true items =>
      if is_nil items || (maxStaticForItems <? length items)%nat then None
      else mapM (fun w => if SplitBraces w then None
                          else match static w with
                               | Some value => if wordGuaranteesField w then Some value else None
                               | None => None
                               end) items
  | _ => None
  end.

Definition forClauseContainsLoop (body : list Stmt) : bool :=
  existsb (fun v => match v with VLoop => true | _ => false end) (file_visits body).

Definition staticForIterator (loop : Loop) (s : cwdState) : option string :=
  match loop with
  | WordIter name _ _ =>
      if c_attributesUnknown s || bool_decide (name ∈ c_assignmentAttributes s) || bool_decide (is_Some (c_namerefs s !! name))
      then None else Some name
  | CStyleLoop _ _ _ => None
  end.

Definition loopOutcomeChangesTrackedFacts (before : cwdState) (out : cwdOutcome) (simples : list Simple) : bool :=
  (o_canSuccess out && negb (sameTrackedShellFacts before (o_success out))) ||
  (o_canFailure out && negb (sameTrackedShellFacts before (o_failure out))) ||
  ((o_canSuccess out && negb (eqb (c_fsUncertain before) (c_fsUncertain (o_success out)))) ||
   (o_canFailure out && negb (eqb (c_fsUncertain before) (c_fsUncertain (o_failure out))))) &&
  existsb (fun simple =>
    let command := head (s_Argv simple) in
    (command =s? "cd") ||
    (command =s? "find") &&
    f_exactScopedDeletion
      (applySourceProvenance (fun t => bool_decide (is_Some (literal t))) simple (parseFindActions (s_Argv simple)))) simples.

(** What the items leave: commands, functions, and whether one changed what the next
    one would see; [None] when the body could not be read, with the commands so far. *)
Fixpoint run_items (id depth : nat) (base : functions) (name body : string) (s : cwdState) (items : list string)
    (simples : list Simple) (alternatives : list functions) (mutated : bool)
    : M (list Simple * option (list functions * bool)) :=
  match items with
  | [] => ret (simples, Some (alternatives, mutated))
  | item :: rest =>
      let candidate := withVariable s name item in
      let* result := nested body candidate depth base active id in
      match result with
      | None => ret (simples, None)
      | Some r =>
          run_items id depth base name body s rest (simples ++ r_simples r) (alternatives ++ [r_functions r])
            (mutated || loopOutcomeChangesTrackedFacts candidate (r_outcome r) (r_simples r) ||
             negb (sameFunctionEnvironment base (r_functions r)))
      end
  end.

Definition enumerateStaticFor (id depth : nat) (ud : bool) (body : list Stmt) (name : string) (items : list string) (s : cwdState)
    : M cwdOutcome :=
  let* base := get wk_functions in
  match body with
  | [] => replace id [];; ret (conservativeLoopOutcome s)
  | first :: _ =>
      let source := slice (st_Pos first) (st_End (List.last body first)) in
      let unfollowed_loop := bare_simple [] (c_cwd (conservativeLoopState s)) true true (at_ pipelines id) in
      let* (simples, result) := run_items id (S depth) base name source s items [] [base] false in
      match result with
      | None => replace id (simples ++ [unfollowed_loop]);; ret (conservativeLoopOutcome s)
      | Some (alternatives, mutated) =>
          replace id (simples ++ if (1 <? length items)%nat && mutated then [unfollowed_loop] else []);;
          publishFunctions (mergeFunctionAlternatives alternatives) ud;;
          ret (conservativeLoopOutcome s)
      end
  end.

(** ** The walk *)

Definition walk_from {A} (f : A -> cwdState -> M cwdOutcome) : list A -> cwdOutcome -> M cwdOutcome :=
  fix go l out := match l with [] => ret out | a :: l => let* out := f a (merged out) in go l out end.

Definition walk_all {A} (f : A -> cwdState -> M cwdOutcome) (l : list A) (s : cwdState) : M cwdOutcome :=
  walk_from f l (successOutcome s).

(** Expansions one after the other; once one may have changed the file system the
    others are not walked any more. *)
Definition exp_all {A} (f : A -> cwdState -> bool -> M bool) : list A -> cwdState -> bool -> M bool :=
  fix go l s uncertain := match l with [] => ret uncertain | a :: l => let* uncertain := f a s uncertain in go l s uncertain end.

Definition exp_opt {A} (f : A -> cwdState -> bool -> M bool) (o : option A) (s : cwdState) (uncertain : bool) : M bool :=
  match o with Some a => f a s uncertain | None => ret uncertain end.

Definition fs_when (uncertain : bool) (s : cwdState) : cwdState := if uncertain then fs_changed s else s.

Definition fs_after (s : cwdState) (outs : list cwdOutcome) : cwdState :=
  with_fs (c_fsUncertain s || existsb hasFilesystemUncertainty outs) s.

(** What every statement does around its command. *)
Definition statement (id : nat) (negation forked : bool) (redirs : list Redirect) (redirections : cwdState -> M bool)
    (command : cwdState -> M cwdOutcome) (s : cwdState) : M cwdOutcome :=
  record_state id s;;
  let* before := get wk_functions in
  let* u := redirections s in
  let s := fs_when (redirectsWrite redirs) (fs_when u s) in
  if forked then isolated (command (fs_changed s));; ret (bothOutcome (fs_changed s))
  else
    let* out := command s in
    let* out := if is_nil redirs then ret out
                else joinFunctionEnvironment before;; ret (mergeOutcomes [out; failureOutcome s]) in
    ret (if negation then negated out else out).

Definition pipe_paths (left right : cwdState -> M cwdOutcome) (s : cwdState) : M cwdOutcome :=
  let* lhs := isolated (left s) in
  let* rhs := isolated (right s) in
  ret (bothOutcome (fs_after s [lhs; rhs])).

Definition subshell_path (body : cwdState -> M cwdOutcome) (s : cwdState) : M cwdOutcome :=
  let* child := isolated (body s) in
  let s := fs_after s [child] in
  ret {| o_success := s; o_failure := s; o_canSuccess := o_canSuccess child; o_canFailure := o_canFailure child |}.

(** The right side of [&&] and [||], where the left side can get there. *)
Definition and_paths (left : cwdOutcome) (right : cwdState -> M cwdOutcome) : M cwdOutcome :=
  let stays := if o_canFailure left then [failureOutcome (o_failure left)] else [] in
  if o_canSuccess left then
    let* out := withFunctionEnvironmentAlternative (o_canFailure left) (right (o_success left)) in
    ret (mergeOutcomes (stays ++ [out]))
  else ret (mergeOutcomes stays).

Definition or_paths (left : cwdOutcome) (right : cwdState -> M cwdOutcome) : M cwdOutcome :=
  let stays := if o_canSuccess left then [successOutcome (o_success left)] else [] in
  if o_canFailure left then
    let* out := withFunctionEnvironmentAlternative (o_canSuccess left) (right (o_failure left)) in
    ret (mergeOutcomes (stays ++ [out]))
  else ret (mergeOutcomes stays).

(** The branches of an [if], each with whether definitions in it are uncertain. *)
Definition if_paths (condition : cwdOutcome) (truth : conditionTruth) (ud : bool)
    (thenBranch : bool -> cwdState -> M cwdOutcome) (elseBranch : option (bool -> cwdState -> M cwdOutcome)) : M cwdOutcome :=
  let uncertain := ud || bool_decide (truth = conditionUnknown) in
  let* taken := if negb (bool_decide (truth = conditionFalse)) && o_canSuccess condition
                then let* out := thenBranch uncertain (o_success condition) in ret [out] else ret [] in
  let* skipped := if negb (bool_decide (truth = conditionTrue)) && o_canFailure condition
                  then match elseBranch with
                       | None => ret [successOutcome (o_failure condition)]
                       | Some branch => let* out := branch uncertain (o_failure condition) in ret [out]
                       end
                  else ret [] in
  ret (mergeOutcomes (taken ++ skipped)).

Definition while_end (s exitState : cwdState) (truth : conditionTruth) (body : cwdOutcome) : cwdOutcome :=
  let post := merged body in
  let post := if cwdMayChange s post then unknownCwd [s; post] else post in
  bothOutcome (if bool_decide (truth = conditionUnknown) then mergeCwd [exitState; post] else post).

Definition for_end (loop : Loop) (s : cwdState) (body : cwdOutcome) : cwdOutcome :=
  let post := merged body in
  let post := match forClauseIterations QuoteMeta loop with iterationPossible => mergeCwd [s; post] | _ => post end in
  bothOutcome (if forClauseMayRepeat QuoteMeta loop && cwdMayChange s post then unknownCwd [s; post] else post).

Definition is_possible (i : loopIterations) : bool := match i with iterationPossible => true | _ => false end.

Definition while_paths (until : bool) (cond : list Stmt) (condition : cwdState -> M cwdOutcome) (body : cwdState -> M cwdOutcome)
    (s : cwdState) : M cwdOutcome :=
  let* condition := condition s in
  let* shadowed := get wk_shadowed in
  let truth := literalCondition cond shadowed in
  let '(bodyState, exitState) := if until then (o_failure condition, o_success condition)
                                 else (o_success condition, o_failure condition) in
  if (body_runs until truth).1 then
    let* out := body bodyState in
    ret (while_end s exitState truth out)
  else ret (successOutcome exitState).

(** A [for] whose items are not enumerated; [body] takes whether definitions are uncertain. *)
Definition for_paths (ud : bool) (loop : Loop) (body : bool -> cwdState -> M cwdOutcome) (s : cwdState) : M cwdOutcome :=
  match forClauseIterations QuoteMeta loop with
  | iterationNone => ret (successOutcome s)
  | iterations =>
      let s := invalidateLoopVariables s loop in
      let* out := body (ud || (is_possible iterations || forClauseMayRepeat QuoteMeta loop)) s in
      ret (for_end loop s out)
  end.

(** The items of a [case] that run, one after the other. *)
Definition static_items : list (cwdState -> M cwdOutcome) -> cwdState -> M cwdOutcome :=
  fix go walks s := match walks with
                    | [] => ret (bothOutcome s)
                    | walk :: walks => let* out := walk s in go walks (merged out)
                    end.

(** Every item may run, each from where the [case] starts. *)
Definition possible_items {A} (item : A -> cwdState -> M cwdOutcome) (s : cwdState) : list A -> list cwdState -> M cwdOutcome :=
  fix go items exits := match items with
                        | [] => ret (bothOutcome (mergeCwd exits))
                        | i :: items => let* out := item i s in go items (exits ++ [merged out])
                        end.

(** [depth] counts the loops around a statement; [ud] is [uncertainDef]. *)
Fixpoint walk_stmt (depth : nat) (ud : bool) (stmt : Stmt) (s : cwdState) {struct stmt} : M cwdOutcome :=
  match stmt with
  | MkStmt loc cmd negation background coprocess semicolon redirs =>
      let list_ (depth : nat) (ud : bool) (stmts : list Stmt) (s : cwdState) := walk_all (walk_stmt depth ud) stmts s in
      let command (s : cwdState) : M cwdOutcome :=
        match cmd with
        | None => ret (bothOutcome s)
        | Some (CallExpr assigns args) =>
            let* u := exp_all (exp_assign depth ud) assigns s false in
            let* u := exp_all (exp_word depth ud) args s u in
            call stmt depth ud assigns args (fs_when u s)
        | Some (BinaryCmd op x y) =>
            match op with
            | Pipe | PipeAll => pipe_paths (walk_stmt depth ud x) (walk_stmt depth ud y) s
            | AndStmt => let* lhs := walk_stmt depth ud x s in and_paths lhs (walk_stmt depth ud y)
            | OrStmt => let* lhs := walk_stmt depth ud x s in or_paths lhs (walk_stmt depth ud y)
            end
        | Some (Block stmts) => list_ depth ud stmts s
        | Some (Subshell stmts) => subshell_path (list_ depth ud stmts) s
        | Some (IfCmd clause) => walk_if depth ud clause s
        | Some (WhileClause until cond body) =>
            while_paths until cond (list_ (S depth) ud cond) (list_ (S depth) true body) s
        | Some (ForClause _ loop body) =>
            let* u := exp_loop depth ud loop s false in
            let s := fs_when u s in
            match (if (depth =? 0)%nat && negb (forClauseContainsLoop body) then staticForItems loop else None),
                  staticForIterator loop s with
            | Some items, Some name => enumerateStaticFor (at_id loc) depth ud body name items s
            | _, _ => for_paths ud loop (fun ud => list_ (S depth) ud body) s
            end
        | Some (CaseClause word items) =>
            let* u := exp_word depth ud word s false in
            let s := fs_when u s in
            match static_matches QuoteMeta pattern_matches word items with
            | Some matches =>
                static_items (staticCaseExecution true
                  (zip_with (fun m '(op, walk) => (op, m, walk)) matches (map (walk_item depth ud) items))) s
            | None => possible_items (fun item s => exp_patterns depth ud item s;; (walk_item depth true item).2 s) s items [s]
            end
        | Some (TimeClause None) => crash
        | Some (TimeClause (Some t)) => walk_stmt depth ud t s
        | Some (DeclClause variant args) =>
            let* u := exp_all (exp_assign depth ud) args s false in
            ret (bothOutcome (invalidateDeclarationVariables QuoteMeta (fs_when u s) variant args))
        | Some (LetClause exprs) =>
            let* u := exp_all (exp_expr depth ud) exprs s false in
            ret (bothOutcome (forget_variables (fs_when u s)))
        | Some (ArithmCmd x) =>
            let* u := exp_expr depth ud x s false in
            ret (bothOutcome (forget_variables (fs_when u s)))
        | Some (FuncDecl _ body) => isolated (walk_stmt depth ud body s);; ret (bothOutcome s)
        | Some (TestClause x) =>
            let* u := exp_expr depth ud x s false in
            ret (bothOutcome (fs_when u s))
        | Some (CoprocClause t) =>
            let* u := exp_opt (exp_stmt depth ud) t s false in
            ret (bothOutcome (fs_when u s))
        end in
      let run (s : cwdState) := statement (at_id loc) negation (background || coprocess) redirs (fun s => exp_all (exp_redirect depth ud) redirs s false)
                                  command (applyExpansionVariableEffects stmt s) in
      match cmd with
      | Some (FuncDecl name body) =>
          if background || coprocess then run s
          else
            defineFunction name (slice (st_Pos body) (st_End body)) (ud || c_unknown s);;
            ret (successOutcome s)
      | _ => run s
      end
  end
with walk_if (depth : nat) (ud : bool) (clause : IfClause) (s : cwdState) {struct clause} : M cwdOutcome :=
  match clause with
  | MkIf thenPos cond body orelse =>
      if negb thenPos then walk_all (walk_stmt depth ud) body s
      else
        let* condition := walk_all (walk_stmt depth ud) cond s in
        let* shadowed := get wk_shadowed in
        if_paths condition (literalCondition cond shadowed) ud
          (fun ud => walk_all (walk_stmt depth ud) body)
          (match orelse with Some e => Some (fun ud => walk_if depth ud e) | None => None end)
  end
with walk_item (depth : nat) (ud : bool) (item : CaseItem) {struct item} : CaseOperator * (cwdState -> M cwdOutcome) :=
  match item with MkCaseItem op _ stmts => (op, walk_all (walk_stmt depth ud) stmts) end
with exp_patterns (depth : nat) (ud : bool) (item : CaseItem) (s : cwdState) {struct item} : M bool :=
  match item with
  | MkCaseItem _ patterns _ => exp_all (fun w s _ => exp_word depth ud w s false) patterns s false
  end
with exp_stmt (depth : nat) (ud : bool) (stmt : Stmt) (s : cwdState) (u : bool) {struct stmt} : M bool :=
  match stmt with
  | MkStmt _ cmd _ _ _ _ redirs =>
      let* u := exp_opt (exp_command depth ud) cmd s u in
      exp_all (exp_any_redirect depth ud) redirs s u
  end
with exp_command (depth : nat) (ud : bool) (cmd : Command) (s : cwdState) (u : bool) {struct cmd} : M bool :=
  match cmd with
  | CallExpr assigns args => let* u := exp_all (exp_assign depth ud) assigns s u in exp_all (exp_word depth ud) args s u
  | IfCmd clause => exp_if depth ud clause s u
  | WhileClause _ cond body => let* u := exp_all (exp_stmt depth ud) cond s u in exp_all (exp_stmt depth ud) body s u
  | ForClause _ loop body => let* u := exp_loop depth ud loop s u in exp_all (exp_stmt depth ud) body s u
  | CaseClause word items => let* u := exp_word depth ud word s u in exp_all (exp_item depth ud) items s u
  | Block stmts | Subshell stmts => exp_all (exp_stmt depth ud) stmts s u
  | BinaryCmd _ x y => let* u := exp_stmt depth ud x s u in exp_stmt depth ud y s u
  | FuncDecl _ body => exp_stmt depth ud body s u
  | ArithmCmd x | TestClause x => exp_expr depth ud x s u
  | DeclClause _ args => exp_all (exp_assign depth ud) args s u
  | LetClause exprs => exp_all (exp_expr depth ud) exprs s u
  | TimeClause t | CoprocClause t => exp_opt (exp_stmt depth ud) t s u
  end
with exp_if (depth : nat) (ud : bool) (clause : IfClause) (s : cwdState) (u : bool) {struct clause} : M bool :=
  match clause with
  | MkIf _ cond body orelse =>
      let* u := exp_all (exp_stmt depth ud) cond s u in
      let* u := exp_all (exp_stmt depth ud) body s u in
      exp_opt (exp_if depth ud) orelse s u
  end
with exp_item (depth : nat) (ud : bool) (item : CaseItem) (s : cwdState) (u : bool) {struct item} : M bool :=
  match item with
  | MkCaseItem _ patterns stmts =>
      let* u := exp_all (exp_word depth ud) patterns s u in
      exp_all (exp_stmt depth ud) stmts s u
  end
with exp_loop (depth : nat) (ud : bool) (loop : Loop) (s : cwdState) (u : bool) {struct loop} : M bool :=
  match loop with
  | WordIter _ _ items => exp_all (exp_word depth ud) items s u
  | CStyleLoop init cond post =>
      let* u := exp_opt (exp_expr depth ud) init s u in
      let* u := exp_opt (exp_expr depth ud) cond s u in
      exp_opt (exp_expr depth ud) post s u
  end
with exp_redirect (depth : nat) (ud : bool) (r : Redirect) (s : cwdState) (u : bool) {struct r} : M bool :=
  match r with
  | MkRedirect _ _ word _ =>
      match word with
      | Some w => if u then ret true else exp_word depth ud w s false
      | None => ret u
      end
  end
with exp_any_redirect (depth : nat) (ud : bool) (r : Redirect) (s : cwdState) (u : bool) {struct r} : M bool :=
  match r with
  | MkRedirect _ _ word hdoc => let* u := exp_opt (exp_word depth ud) word s u in exp_opt (exp_word depth ud) hdoc s u
  end
with exp_assign (depth : nat) (ud : bool) (a : Assign) (s : cwdState) (u : bool) {struct a} : M bool :=
  match a with
  | MkAssign _ _ _ index value array =>
      let* u := exp_opt (exp_word depth ud) value s u in
      let* u := exp_opt (exp_expr depth ud) index s u in
      exp_opt (fun elems s u => exp_all (exp_elem depth ud) elems s u) array s u
  end
with exp_elem (depth : nat) (ud : bool) (e : ArrayElem) (s : cwdState) (u : bool) {struct e} : M bool :=
  match e with
  | MkArrayElem index value => let* u := exp_opt (exp_expr depth ud) index s u in exp_opt (exp_word depth ud) value s u
  end
with exp_word (depth : nat) (ud : bool) (w : Word) (s : cwdState) (u : bool) {struct w} : M bool :=
  match w with MkWord _ _ parts => exp_all (exp_part depth ud) parts s u end
with exp_part (depth : nat) (ud : bool) (p : WordPart) (s : cwdState) (u : bool) {struct p} : M bool :=
  match p with
  | CmdSubst _ stmts | ProcSubst _ _ stmts =>
      if u then ret true
      else
        let* out := isolated (walk_all (walk_stmt depth ud) stmts s) in
        ret (hasFilesystemUncertainty out)
  | DblQuoted _ parts => exp_all (exp_part depth ud) parts s u
  | ParamExp p => exp_parameter depth ud p s u
  | ArithmExp x => exp_expr depth ud x s u
  | Lit _ | SglQuoted _ _ | ExtGlob _ => ret u
  end
with exp_parameter (depth : nat) (ud : bool) (p : Parameter_) (s : cwdState) (u : bool) {struct p} : M bool :=
  match p with
  | MkParameter _ _ _ _ index slice repl _ exp =>
      let* u := exp_opt (exp_expr depth ud) index s u in
      let* u := exp_opt (fun xs s u => exp_all (exp_expr depth ud) xs s u) slice s u in
      let* u := exp_opt (fun ws s u => exp_all (exp_word depth ud) ws s u) repl s u in
      exp_opt (exp_expansion depth ud) exp s u
  end
with exp_expansion (depth : nat) (ud : bool) (e : Expansion) (s : cwdState) (u : bool) {struct e} : M bool :=
  match e with MkExpansion _ word => exp_opt (exp_word depth ud) word s u end
with exp_expr (depth : nat) (ud : bool) (x : Expr) (s : cwdState) (u : bool) {struct x} : M bool :=
  match x with
  | ExprWord w => exp_word depth ud w s u
  | ExprNode operands => exp_all (exp_expr depth ud) operands s u
  end.

Definition walk_list (depth : nat) (stmts : list Stmt) (s : cwdState) : M cwdOutcome := walk_all (walk_stmt depth false) stmts s.
End Walker.
