(* ===== verification/WalkInvariant.v ===== *)
(** * Invariants of the walk over a command line

    Two interfaces: a predicate on states that every change of the tokenizer's preserves
    ([Closed]), and a relation between what the walk has written before and after it
    ([Invariant]). A walk keeps whatever satisfies both. Two instances follow: the
    states stay well-formed, and what has been recorded is never lost. *)

From Stdlib Require Import ZArith Lia Bool.
From S2P Require Import Prelude GoStrings GoPath Policy Argv Engine Simple Wrappers Syntax StdoutFate ShellState ShellVars ShellCd StdinFlow Extract Walker.

Open Scope string_scope.
Open Scope list_scope.

(** ** States *)

(** What the tokenizer does to the state of a shell, as laws of a predicate on it. *)
Class Closed (ok : cwdState -> Prop) := {
  cl_zero : ok zero_state;
  cl_at c u s : ok s -> ok (at_cwd c u s);
  cl_fs b s : ok s -> ok (with_fs b s);
  cl_merge l : (forall s, s ∈ l -> ok s) -> ok (mergeCwd l);
  cl_refs r s : ok s -> ok (with_namerefs r s);
  cl_attributes names s : ok s -> ok (withAssignmentAttributes s names);
  cl_resolved names s : ok s -> ok (withoutResolvedVariables s names);
  cl_all s : ok s -> ok (withoutAllVariables s);
  cl_unattributed names s : ok s -> ok (with_attributes names true (forget_variables s));
  cl_variable name value s : ok s -> ok (withVariable s name value);
  cl_restore name s persistent : ok s -> ok persistent -> ok (restoreVariable s persistent name);
}.

Create HintDb closed discriminated.

Lemma sole {A} (P : A -> Prop) a : P a -> forall b, b ∈ [a] -> P b.
Proof. by intros H b ->%list_elem_of_singleton. Qed.

Lemma couple {A} (P : A -> Prop) a b : P a -> P b -> forall c, c ∈ [a; b] -> P c.
Proof. intros Ha Hb c [->|[->|H%elem_of_nil]%elem_of_cons]%elem_of_cons; done. Qed.

Section Closed.
Context (ok : cwdState -> Prop) `{!Closed ok} (QuoteMeta : string -> string) (h : CdHost).

#[local] Hint Extern 1 (ok _) =>
  first [apply cl_zero | apply cl_at | apply cl_fs | apply cl_refs | apply cl_attributes | apply cl_resolved | apply cl_all
        | apply cl_unattributed | apply cl_variable | apply cl_restore] : closed.

Lemma forget_closed s : ok s -> ok (forget_variables s).
Proof. unfold forget_variables. auto with closed. Qed.
#[local] Hint Resolve forget_closed : closed.

Lemma without_closed s names : ok s -> ok (withoutVariables s names).
Proof. unfold withoutVariables. destruct (resolveNamerefNames _ _); auto with closed. Qed.
#[local] Hint Resolve without_closed : closed.

Lemma unknown_closed l : (forall s, s ∈ l -> ok s) -> ok (unknownCwd l).
Proof. intros H. apply without_closed, cl_at, cl_merge, H. Qed.

Lemma unknown_one_closed s : ok s -> ok (unknownCwd [s]).
Proof. intros H. by apply unknown_closed, sole. Qed.
#[local] Hint Resolve unknown_one_closed : closed.

Lemma invalidate_closed s names uncontrolled : ok s -> ok (invalidateNamedVariables s names uncontrolled).
Proof. unfold invalidateNamedVariables. destruct uncontrolled; auto with closed. Qed.
#[local] Hint Resolve invalidate_closed : closed.

Lemma conservative_closed s : ok s -> ok (conservativeLoopState s).
Proof. unfold conservativeLoopState, fs_changed. auto with closed. Qed.

Lemma declaration_call_closed s argv : ok s -> ok (invalidateDeclarationCallVariables s argv).
Proof.
  intros H. unfold invalidateDeclarationCallVariables. repeat case_match; auto with closed.
Qed.
#[local] Hint Resolve declaration_call_closed : closed.

Lemma call_variables_closed s argv : ok s -> ok (invalidateCallVariables s argv).
Proof. intros H. unfold invalidateCallVariables, fs_changed. repeat case_match; subst; auto 8 with closed. Qed.

Lemma call_assignments_closed assigns : forall s, ok s -> ok (applyCallAssignments QuoteMeta s assigns).
Proof.
  induction assigns as [|a rest IH]; intros s H; cbn [applyCallAssignments]; [done|].
  destruct (call_assignment QuoteMeta s a) as [s'|] eqn:E; [|auto with closed]. apply IH.
  unfold call_assignment in E. repeat case_match; simplify_eq; auto with closed.
Qed.

Lemma restore_closed s persistent resolved : ok s -> ok persistent -> ok (restore_state persistent resolved s).
Proof.
  intros H Hp. destruct resolved as [names|]; cbn [restore_state]; [|auto with closed]. apply cl_refs.
  revert s H. induction names as [|n names IH]; intros s H; cbn [foldl]; [done|]. apply IH. auto with closed.
Qed.

Lemma declaration_closed s variant args : ok s -> ok (invalidateDeclarationVariables QuoteMeta s variant args).
Proof. intros H. unfold invalidateDeclarationVariables. repeat case_match; auto with closed. Qed.

Lemma loop_closed s loop : ok s -> ok (invalidateLoopVariables s loop).
Proof. destruct loop; cbn; auto with closed. Qed.

Lemma effects_closed stmt s : ok s -> ok (applyExpansionVariableEffects stmt s).
Proof. unfold applyExpansionVariableEffects. destruct (mutates_stmt stmt false); auto with closed. Qed.

(** ** Outcomes *)

Definition ok_out (out : cwdOutcome) : Prop := ok (o_success out) /\ ok (o_failure out).

Lemma success_closed s : ok s -> ok_out (successOutcome s). Proof. by split; [|apply cl_zero]. Qed.
Lemma failure_closed s : ok s -> ok_out (failureOutcome s). Proof. by split; [apply cl_zero|]. Qed.
Lemma both_closed s : ok s -> ok_out (bothOutcome s). Proof. done. Qed.
Lemma negated_closed out : ok_out out -> ok_out (negated out). Proof. by intros []. Qed.

Lemma merged_closed out : ok_out out -> ok (merged out).
Proof.
  intros [Hs Hf]. unfold merged. destruct (o_canSuccess out), (o_canFailure out); [by apply cl_merge, couple|done..|].
  auto with closed.
Qed.

Lemma merge_side_closed a r b s : ok a -> ok b -> ok (merge_side a r b s).1.
Proof. intros Ha Hb. unfold merge_side. destruct s, r; cbn [fst]; [by apply cl_merge, couple|done..]. Qed.

Lemma merge_outcomes_closed outs : Forall ok_out outs -> ok_out (mergeOutcomes outs).
Proof.
  intros H. unfold mergeOutcomes. assert (Hz : ok_out no_outcome) by (split; apply cl_zero). revert H Hz. generalize no_outcome.
  induction outs as [|o outs IH]; intros m H Hm; cbn [foldl]; [done|]. apply Forall_cons in H as [[Hs Hf] H]. apply IH; [done|].
  destruct Hm as [Hms Hmf]. unfold merge_outcome.
  pose proof (merge_side_closed (o_success m) (o_canSuccess m) (o_success o) (o_canSuccess o) Hms Hs) as H1.
  pose proof (merge_side_closed (o_failure m) (o_canFailure m) (o_failure o) (o_canFailure o) Hmf Hf) as H2.
  destruct (merge_side (o_success m) _ _ _), (merge_side (o_failure m) _ _ _). by split.
Qed.

Lemma restore_out_closed out persistent assigns : ok_out out -> ok persistent -> ok_out (restoreCallAssignments out persistent assigns).
Proof.
  intros [Hs Hf] Hp. unfold restoreCallAssignments. split; cbn; case_match; auto using restore_closed.
Qed.

Lemma publish_closed s : ok s -> ok (publish_cwd s).
Proof. intros H. unfold publish_cwd. destruct (c_unknown s); auto with closed. Qed.

Lemma cd_closed s unresolved argv : ok s -> ok_out (cdOutcome h s unresolved argv).
Proof.
  intros H. unfold cdOutcome. pose proof (unknown_one_closed s H) as Hu.
  destruct (c_unknown s); [by apply both_closed|].
  destruct (parseCdArgs (tail argv)) as [[target physical]|]; [|by apply both_closed].
  destruct (unresolved || _); [by apply both_closed|]. destruct (resolveCdTarget h s target physical) as [resolved status].
  assert (Hr : ok (at_cwd resolved (resolved =s? "") s)) by auto with closed.
  destruct (c_fsUncertain s), (cdUsesSearchPath s target), physical, status, (ch_evalsymlinks h resolved);
    cbn -[publish_cwd unknownCwd at_cwd Clean];
    first [apply success_closed | apply failure_closed | split; cbn -[publish_cwd unknownCwd at_cwd Clean]];
    try apply publish_closed; auto with closed.
Qed.
End Closed.

(** Every state is one: the trivial predicate. *)
#[export] Instance anything_closed : Closed (fun _ => True).
Proof. by constructor. Qed.

(** ** Walks *)

(** What every call returns satisfies [Q], and what it has written is related to what
    was there. *)
Definition holds (Inv : Walk -> Walk -> Prop) {A} (Q : A -> Prop) (m : M A) : Prop :=
  forall w a w', m w = Finished (a, w') -> Inv w w' /\ Q a.

Lemma bind_finished {A B} (m : M A) (k : A -> M B) w b w2 :
  bind m k w = Finished (b, w2) -> exists a w1, m w = Finished (a, w1) /\ k a w1 = Finished (b, w2).
Proof. unfold bind, run_bind. destruct (m w) as [[a w1]| |]; [|done..]. intros H. by exists a, w1. Qed.

Lemma isolated_finished {A} (m : M A) w a w2 :
  isolated m w = Finished (a, w2) -> exists w1, m w = Finished (a, w1) /\ w2 = with_functions (wk_functions w) w1.
Proof. unfold isolated, run_bind. destruct (m w) as [[b w1]| |]; [|done..]. intros [= -> <-]. by exists w1. Qed.

Section Order.
Context (Inv : Walk -> Walk -> Prop) `{!PreOrder Inv}.
#[local] Notation holds := (holds Inv).
#[local] Notation any := (fun _ => True).

Lemma holds_ret {A} (Q : A -> Prop) a : Q a -> holds Q (ret a).
Proof. intros H w b w' [= <- <-]. split; [reflexivity|done]. Qed.

Lemma holds_bind {A B} (P : A -> Prop) (Q : B -> Prop) m k :
  holds P m -> (forall a, P a -> holds Q (k a)) -> holds Q (bind m k).
Proof.
  intros Hm Hk w b w2 (a & w1 & [H1 Ha]%Hm & [H2 Hb]%Hk)%bind_finished; [|done]. split; [by etrans|done].
Qed.

Lemma holds_get {A} (f : Walk -> A) : holds any (get f).
Proof. intros w a w' [= _ <-]. split; [reflexivity|done]. Qed.

Lemma holds_weaken {A} (P Q : A -> Prop) m : (forall a, P a -> Q a) -> holds P m -> holds Q m.
Proof. intros HPQ Hm w a w' [H Ha]%Hm. auto. Qed.

Lemma holds_modify f : (forall w, Inv w (f w)) -> holds any (modify f).
Proof. intros H w a w' [= _ <-]. by split. Qed.
End Order.
Arguments holds_ret {Inv _ A} Q a.
Arguments holds_bind {Inv _ A B} P Q m k.
Arguments holds_get {Inv _ A} f.
Arguments holds_weaken {Inv A} P Q m.
Arguments holds_modify {Inv} f.

(** The statements the walk goes through, and what may be among them. *)
Notation every := (fun _ : Stmt => true).

(** Splits what is allowed of a node into what is of its parts. *)
Ltac parts H :=
  cbn [stmt_visits command_visits if_visits loop_visits item_visits redirect_visits assign_visits elem_visits
       word_visits part_visits parameter_visits expansion_visits expr_visits] in H;
  repeat first [rewrite Forall_cons in H | rewrite Forall_app in H]; destruct_and? H.


Section Walks.
Context (Parse : string -> option (list Stmt)) (QuoteMeta : string -> string)
  (pattern_matches : string -> string -> option bool) (SplitBraces : Word -> bool) (h : CdHost)
  (normalize : string -> cwdState -> nat -> functions -> gset string -> list (nat * nat) -> nat ->
               run (option normalizeResult * nat))
  (src : string) (active : gset string) (pipelines : positions).

#[local] Notation call := (call Parse QuoteMeta h normalize src active pipelines).
#[local] Notation enumerateStaticFor := (enumerateStaticFor Parse normalize src active pipelines).

(** What a walk through statements that are [allowed] does to what it writes. *)
Class Invariant (ok : cwdState -> Prop) (allowed : visited -> Prop) (Inv : Walk -> Walk -> Prop) := {
  inv_order :: PreOrder Inv;
  inv_record id s : ok s -> holds Inv (fun _ => True) (record_state id s);
  inv_isolated v w : Inv v w -> Inv v (with_functions (wk_functions v) w);
  inv_join v w u w' : Inv v w -> joinFunctionEnvironment (wk_functions v) w = Finished (u, w') -> Inv v w';
  inv_define name source uncertain :
    allowed (VFunc name) -> holds Inv (fun _ => True) (defineFunction name source uncertain);
  inv_call stmt depth ud assigns args s :
    st_Cmd stmt = Some (CallExpr assigns args) -> allowed (VStmt stmt) -> ok s ->
    holds Inv (ok_out ok) (call stmt depth ud assigns args s);
  inv_for stmt select loop body depth ud name items s :
    st_Cmd stmt = Some (ForClause select loop body) -> allowed (VStmt stmt) -> ok s ->
    holds Inv (ok_out ok) (enumerateStaticFor (st_id stmt) depth ud body name items s);
}.

Context (ok : cwdState -> Prop) (allowed : visited -> Prop) (Inv : Walk -> Walk -> Prop)
  `{!Closed ok} `{!Invariant ok allowed Inv}.

#[local] Notation holds := (holds Inv).
#[local] Notation good := (ok_out ok).
#[local] Notation any := (fun _ => True).

Lemma holds_crash {A} (Q : A -> Prop) : holds Q crash.
Proof. done. Qed.

Lemma holds_isolated {A} (Q : A -> Prop) m : holds Q m -> holds Q (isolated m).
Proof. intros Hm w a w2 (w1 & [H Ha]%Hm & ->)%isolated_finished. split; [by apply inv_isolated|done]. Qed.

Lemma holds_alternative {A} (Q : A -> Prop) b m : holds Q m -> holds Q (withFunctionEnvironmentAlternative b m).
Proof.
  intros Hm. unfold withFunctionEnvironmentAlternative. destruct b; [|done].
  intros w a w4 (fs & w1 & [= <- <-] & H)%bind_finished. apply bind_finished in H as (a1 & w2 & [H2 Ha]%Hm & H).
  apply bind_finished in H as (u & w3 & H3 & [= <- <-]). split; [by eapply inv_join|done].
Qed.

Lemma holds_walk_from {A} (f : A -> cwdState -> M cwdOutcome) l : forall out,
  (forall a s, a ∈ l -> ok s -> holds good (f a s)) -> good out -> holds good (walk_from f l out).
Proof.
  induction l as [|a l IH]; intros out Hf Hout; cbn [walk_from]; [by apply holds_ret|].
  apply (holds_bind good); [apply Hf; [by left|by apply merged_closed]|]. intros out' Hout'. apply IH; [|done].
  intros b s Hb. apply Hf. by right.
Qed.

Lemma holds_walk_all {A} (f : A -> cwdState -> M cwdOutcome) l s :
  (forall a s, a ∈ l -> ok s -> holds good (f a s)) -> ok s -> holds good (walk_all f l s).
Proof. intros Hf Hs. apply holds_walk_from; [done|by apply success_closed]. Qed.

Lemma holds_exp_all {A} (f : A -> cwdState -> bool -> M bool) l s : forall u,
  (forall a u, a ∈ l -> holds any (f a s u)) -> holds any (exp_all f l s u).
Proof.
  induction l as [|a l IH]; intros u Hf; cbn [exp_all]; [by apply holds_ret|].
  apply (holds_bind any); [apply Hf; by left|]. intros u' _. apply IH. intros b v Hb. apply Hf. by right.
Qed.

Lemma holds_exp_opt {A} (f : A -> cwdState -> bool -> M bool) o s u :
  (forall a, o = Some a -> holds any (f a s u)) -> holds any (exp_opt f o s u).
Proof. destruct o as [a|]; intros Hf; [by apply Hf|by apply holds_ret]. Qed.

Lemma fs_when_ok u s : ok s -> ok (fs_when u s).
Proof. intros H. unfold fs_when. destruct u; [by apply cl_fs|done]. Qed.

Lemma holds_statement id negation forked redirs redirections command s :
  ok s -> (forall s, ok s -> holds any (redirections s)) -> (forall s, ok s -> holds good (command s)) ->
  holds good (statement id negation forked redirs redirections command s).
Proof.
  intros Hs Hr Hc. unfold statement. apply (holds_bind any); [by apply inv_record|]. intros _ _.
  intros w out w' (before & w0 & [= <- <-] & H)%bind_finished.
  apply bind_finished in H as (u & w1 & [H1 _]%Hr & H); [|done]. cbv zeta in H.
  set (s1 := fs_when (redirectsWrite redirs) (fs_when u s)) in H. assert (Hs1 : ok s1) by (by do 2 apply fs_when_ok).
  destruct forked.
  - apply bind_finished in H as (o & w2 & [H2 _]%(holds_isolated good) & [= <- <-]); [|by apply Hc, cl_fs].
    split; [by etrans|by apply both_closed, cl_fs].
  - apply bind_finished in H as (o & w2 & [H2 Ho]%Hc & H); [|done].
    assert (Hw2 : Inv w w2) by (by etrans).
    apply bind_finished in H as (o' & w3 & H3 & [= <- <-]).
    assert (Hfinal : Inv w w3 /\ good o').
    { destruct (is_nil redirs); [by injection H3 as <- <-|].
      apply bind_finished in H3 as (u' & w4 & H4 & [= <- <-]). split; [by eapply inv_join|].
      apply merge_outcomes_closed; [done|]. repeat constructor; [apply Ho..|by apply cl_zero|done]. }
    destruct Hfinal. split; [done|]. destruct negation; [by apply negated_closed|done].
Qed.

Lemma holds_pipe left right s :
  ok s -> (forall s, ok s -> holds good (left s)) -> (forall s, ok s -> holds good (right s)) -> holds good (pipe_paths left right s).
Proof.
  intros Hs Hl Hr. apply (holds_bind good); [by apply holds_isolated, Hl|]. intros a _.
  apply (holds_bind good); [by apply holds_isolated, Hr|]. intros b _. apply holds_ret, both_closed, cl_fs, Hs.
Qed.

Lemma holds_subshell body s : ok s -> (forall s, ok s -> holds good (body s)) -> holds good (subshell_path body s).
Proof.
  intros Hs Hb. apply (holds_bind good); [by apply holds_isolated, Hb|]. intros a _. apply holds_ret. by split; apply cl_fs.
Qed.

(** The alternatives of a statement that go on, after those that stay. *)
Lemma holds_paths stays m : Forall good stays -> holds good m -> holds good (bind m (fun out => ret (mergeOutcomes (stays ++ [out])))).
Proof.
  intros Hst Hm. apply (holds_bind good); [done|]. intros out Hout. apply holds_ret, merge_outcomes_closed; [done|].
  apply Forall_app. by repeat constructor; try apply Hout.
Qed.

Lemma holds_and lhs right : good lhs -> (forall s, ok s -> holds good (right s)) -> holds good (and_paths lhs right).
Proof.
  intros [Hs Hf] Hr. unfold and_paths.
  assert (Hst : Forall good (if o_canFailure lhs then [failureOutcome (o_failure lhs)] else [])).
  { destruct (o_canFailure lhs); repeat constructor; [by apply cl_zero|done]. }
  destruct (o_canSuccess lhs); [by apply holds_paths; [|apply holds_alternative, Hr]|by apply holds_ret, merge_outcomes_closed].
Qed.

Lemma holds_or lhs right : good lhs -> (forall s, ok s -> holds good (right s)) -> holds good (or_paths lhs right).
Proof.
  intros [Hs Hf] Hr. unfold or_paths.
  assert (Hst : Forall good (if o_canSuccess lhs then [successOutcome (o_success lhs)] else [])).
  { destruct (o_canSuccess lhs); repeat constructor; [done|by apply cl_zero]. }
  destruct (o_canFailure lhs); [by apply holds_paths; [|apply holds_alternative, Hr]|by apply holds_ret, merge_outcomes_closed].
Qed.

Lemma holds_if condition truth ud thenBranch elseBranch :
  good condition -> (forall ud s, ok s -> holds good (thenBranch ud s)) ->
  (forall branch ud s, elseBranch = Some branch -> ok s -> holds good (branch ud s)) ->
  holds good (if_paths condition truth ud thenBranch elseBranch).
Proof.
  intros [Hs Hf] Ht He. unfold if_paths.
  assert (Hone : forall m, holds good m -> holds (Forall good) (bind m (fun out => ret [out]))).
  { intros m Hm. apply (holds_bind good); [done|]. intros out Ho. apply holds_ret. by repeat constructor; apply Ho. }
  apply (holds_bind (Forall good)).
  { destruct (_ && _); [by apply Hone, Ht|by apply holds_ret]. }
  intros taken Htaken. apply (holds_bind (Forall good)).
  { destruct (_ && _); [|by apply holds_ret]. destruct elseBranch as [branch|]; [by apply Hone, He|].
    apply holds_ret. by repeat constructor; [|apply cl_zero]. }
  intros skipped Hskipped. apply holds_ret, merge_outcomes_closed; [done|]. by apply Forall_app.
Qed.

Lemma while_end_ok s exitState truth body : ok s -> ok exitState -> good body -> good (while_end s exitState truth body).
Proof.
  intros Hs He Hb%merged_closed; [|done]. unfold while_end. apply both_closed.
  set (post := if cwdMayChange s (merged body) then _ else _).
  assert (Hpost : ok post) by (subst post; destruct (cwdMayChange _ _); [by apply unknown_closed, couple|done]).
  destruct (bool_decide _); [by apply cl_merge, couple|done].
Qed.

Lemma for_end_ok loop s body : ok s -> good body -> good (for_end QuoteMeta loop s body).
Proof.
  intros Hs Hb%merged_closed; [|done]. unfold for_end. apply both_closed.
  set (post := match forClauseIterations QuoteMeta loop with iterationPossible => _ | _ => _ end).
  assert (Hpost : ok post) by (subst post; destruct (forClauseIterations _ _); [done|by apply cl_merge, couple|done]).
  destruct (_ && _); [by apply unknown_closed, couple|done].
Qed.

Lemma holds_while until cond condition body s :
  ok s -> (forall s, ok s -> holds good (condition s)) -> (forall s, ok s -> holds good (body s)) ->
  holds good (while_paths until cond condition body s).
Proof.
  intros Hs Hc Hb. apply (holds_bind good); [by apply Hc|]. intros c [Hcs Hcf].
  apply (holds_bind any); [apply holds_get|]. intros shadowed _. cbv zeta.
  destruct until; (destruct (body_runs _ _).1; [|by apply holds_ret, success_closed]);
    (apply (holds_bind good); [by apply Hb|]); intros out Ho; by apply holds_ret, while_end_ok.
Qed.

Lemma holds_for ud loop body s :
  ok s -> (forall ud s, ok s -> holds good (body ud s)) -> holds good (for_paths QuoteMeta ud loop body s).
Proof.
  intros Hs Hb. unfold for_paths. destruct (forClauseIterations QuoteMeta loop); [by apply holds_ret, success_closed|..];
    (apply (holds_bind good); [by apply Hb, loop_closed|]); intros out Ho; by apply holds_ret, for_end_ok; [apply loop_closed|].
Qed.

Lemma holds_static_items walks : forall s,
  ok s -> (forall walk s, walk ∈ walks -> ok s -> holds good (walk s)) -> holds good (static_items walks s).
Proof.
  induction walks as [|walk walks IH]; intros s Hs Hw; cbn [static_items]; [by apply holds_ret, both_closed|].
  apply (holds_bind good); [apply Hw; [by left|done]|]. intros out Ho. apply IH; [by apply merged_closed|].
  intros walk' s' Hin. apply Hw. by right.
Qed.

Lemma holds_possible_items {A} (item : A -> cwdState -> M cwdOutcome) s items : forall exits,
  ok s -> (forall s, s ∈ exits -> ok s) -> (forall i, i ∈ items -> holds good (item i s)) ->
  holds good (possible_items item s items exits).
Proof.
  induction items as [|i items IH]; intros exits Hs He Hi; cbn [possible_items]; [by apply holds_ret, both_closed, cl_merge|].
  apply (holds_bind good); [apply Hi; by left|]. intros out Ho. apply IH; [done| |intros j Hj; apply Hi; by right].
  intros t [Ht| ->%list_elem_of_singleton]%elem_of_app; [by apply He|by apply merged_closed].
Qed.

Lemma static_execution_from {A} testing (items : list (CaseOperator * bool * A)) a :
  a ∈ staticCaseExecution testing items -> exists m op, (op, m, a) ∈ items.
Proof.
  revert testing. induction items as [|[[op m] b] items IH]; intros testing; cbn [staticCaseExecution]; [by intros H%elem_of_nil|].
  assert (Hrest : forall t, a ∈ staticCaseExecution t items -> exists m' op', (op', m', a) ∈ (op, m, b) :: items).
  { intros t (m' & op' & H)%IH. exists m', op'. by right. }
  destruct (testing && negb m); [apply Hrest|].
  destruct op; try (intros [->|H]%elem_of_cons; [eexists _, _; by left|by eapply Hrest]).
  intros ->%list_elem_of_singleton. eexists _, _. by left.
Qed.

(** ** The tree *)

#[local] Notation walk_stmt := (walk_stmt Parse QuoteMeta pattern_matches SplitBraces h normalize src active pipelines).
#[local] Notation walk_if := (walk_if Parse QuoteMeta pattern_matches SplitBraces h normalize src active pipelines).
#[local] Notation walk_item := (walk_item Parse QuoteMeta pattern_matches SplitBraces h normalize src active pipelines).
#[local] Notation exp_stmt := (exp_stmt Parse QuoteMeta pattern_matches SplitBraces h normalize src active pipelines).
#[local] Notation exp_if := (exp_if Parse QuoteMeta pattern_matches SplitBraces h normalize src active pipelines).
#[local] Notation exp_item := (exp_item Parse QuoteMeta pattern_matches SplitBraces h normalize src active pipelines).
#[local] Notation exp_patterns := (exp_patterns Parse QuoteMeta pattern_matches SplitBraces h normalize src active pipelines).
#[local] Notation exp_command := (exp_command Parse QuoteMeta pattern_matches SplitBraces h normalize src active pipelines).
#[local] Notation exp_loop := (exp_loop Parse QuoteMeta pattern_matches SplitBraces h normalize src active pipelines).
#[local] Notation exp_redirect := (exp_redirect Parse QuoteMeta pattern_matches SplitBraces h normalize src active pipelines).
#[local] Notation exp_any_redirect := (exp_any_redirect Parse QuoteMeta pattern_matches SplitBraces h normalize src active pipelines).
#[local] Notation exp_assign := (exp_assign Parse QuoteMeta pattern_matches SplitBraces h normalize src active pipelines).
#[local] Notation exp_elem := (exp_elem Parse QuoteMeta pattern_matches SplitBraces h normalize src active pipelines).
#[local] Notation exp_word := (exp_word Parse QuoteMeta pattern_matches SplitBraces h normalize src active pipelines).
#[local] Notation exp_part := (exp_part Parse QuoteMeta pattern_matches SplitBraces h normalize src active pipelines).
#[local] Notation exp_parameter := (exp_parameter Parse QuoteMeta pattern_matches SplitBraces h normalize src active pipelines).
#[local] Notation exp_expansion := (exp_expansion Parse QuoteMeta pattern_matches SplitBraces h normalize src active pipelines).
#[local] Notation exp_expr := (exp_expr Parse QuoteMeta pattern_matches SplitBraces h normalize src active pipelines).

(** A node whose parts are all allowed is walked well; its expansions alone are too. *)
Definition walks {A} (f : nat -> bool -> A -> cwdState -> M cwdOutcome) (visits : A -> list visited) (a : A) : Prop :=
  Forall allowed (visits a) -> forall depth ud s, ok s -> holds good (f depth ud a s).

Definition expands {A} (f : nat -> bool -> A -> cwdState -> bool -> M bool) (visits : A -> list visited) (a : A) : Prop :=
  Forall allowed (visits a) -> forall depth ud s u, ok s -> holds any (f depth ud a s u).

Definition stmt_good (s : Stmt) : Prop := walks walk_stmt (stmt_visits every) s /\ expands exp_stmt (stmt_visits every) s.
Definition if_good (c : IfClause) : Prop := walks walk_if (if_visits every) c /\ expands exp_if (if_visits every) c.
Definition item_good (i : CaseItem) : Prop :=
  walks (fun depth ud i => (walk_item depth ud i).2) (item_visits every) i /\ expands exp_item (item_visits every) i /\
  expands (fun depth ud i s _ => exp_patterns depth ud i s) (item_visits every) i.
Definition redirect_good (r : Redirect) : Prop :=
  expands exp_redirect (redirect_visits every) r /\ expands exp_any_redirect (redirect_visits every) r.
Definition loop_good : Loop -> Prop := expands exp_loop (loop_visits every).
Definition assign_good : Assign -> Prop := expands exp_assign (assign_visits every).
Definition elem_good : ArrayElem -> Prop := expands exp_elem (elem_visits every).
Definition word_good : Word -> Prop := expands exp_word (word_visits every).
Definition part_good : WordPart -> Prop := expands exp_part (part_visits every).
Definition parameter_good : Parameter_ -> Prop := expands exp_parameter (parameter_visits every).
Definition expansion_good : Expansion -> Prop := expands exp_expansion (expansion_visits every).
Definition expr_good : Expr -> Prop := expands exp_expr (expr_visits every).

Lemma allowed_in {A} (visits : A -> list visited) l a : Forall allowed (flat_map visits l) -> a ∈ l -> Forall allowed (visits a).
Proof.
  rewrite !Forall_forall. intros H Ha v Hv. apply H, list_elem_of_In, in_flat_map. exists a. by rewrite <- !list_elem_of_In.
Qed.

Lemma allowed_opt {A} (visits : A -> list visited) o a :
  Forall allowed (match o with Some a => visits a | None => [] end) -> o = Some a -> Forall allowed (visits a).
Proof. by intros H ->. Qed.

(** The list forms: what holds of every element holds of walking them all. *)
Lemma walk_all_good depth ud l s :
  Forall stmt_good l -> Forall allowed (flat_map (stmt_visits every) l) -> ok s -> holds good (walk_all (walk_stmt depth ud) l s).
Proof.
  intros Hl Ha Hs. apply holds_walk_all; [|done]. intros t s' Ht Hs'. rewrite Forall_forall in Hl.
  apply (Hl t Ht); [|done]. by eapply allowed_in.
Qed.

Lemma exp_all_good {A} (f : nat -> bool -> A -> cwdState -> bool -> M bool) visits depth ud l s u :
  Forall (expands f visits) l -> Forall allowed (flat_map visits l) -> ok s -> holds any (exp_all (f depth ud) l s u).
Proof.
  intros Hl Ha Hs. apply holds_exp_all. intros a v Hin. rewrite Forall_forall in Hl. apply (Hl a Hin); [|done]. by eapply allowed_in.
Qed.

Lemma exp_opt_good {A} (f : nat -> bool -> A -> cwdState -> bool -> M bool) visits depth ud o s u :
  from_option (expands f visits) True o -> Forall allowed (match o with Some a => visits a | None => [] end) -> ok s ->
  holds any (exp_opt (f depth ud) o s u).
Proof. intros Ho Ha Hs. apply holds_exp_opt. intros a ->. by apply Ho. Qed.

#[local] Hint Resolve fs_when_ok : core.

(** ** Words and their parts *)

Lemma each_expands {A} (f : nat -> bool -> A -> cwdState -> bool -> M bool) visits l :
  Forall (expands f visits) l -> expands (fun depth ud => exp_all (f depth ud)) (flat_map visits) l.
Proof. intros Hl Ha depth ud s u Hs. by apply exp_all_good with visits. Qed.


Lemma then_holds (m : M bool) (k : bool -> M bool) : holds any m -> (forall u, holds any (k u)) -> holds any (bind m k).
Proof. intros Hm Hk. apply (holds_bind any); [done|]. intros u _. apply Hk. Qed.

Lemma word_case a b ps : Forall part_good ps -> word_good (MkWord a b ps).
Proof. intros Hp Ha depth ud s u Hs. parts Ha. by apply exp_all_good with (part_visits every). Qed.

Lemma substitution_case stmts depth ud s (u : bool) :
  Forall stmt_good stmts -> Forall allowed (flat_map (stmt_visits every) stmts) -> ok s ->
  holds any (if u then ret true
             else bind (isolated (walk_all (walk_stmt depth ud) stmts s)) (fun out => ret (hasFilesystemUncertainty out))).
Proof.
  intros Hst Ha Hs. destruct u; [by apply holds_ret|].
  apply (holds_bind good); [by apply holds_isolated, walk_all_good|]. intros out _. by apply holds_ret.
Qed.

Lemma command_substitution_case offset stmts : Forall stmt_good stmts -> part_good (CmdSubst offset stmts).
Proof. intros Hst Ha depth ud s u Hs. parts Ha. by apply substitution_case. Qed.

Lemma process_substitution_case offset op stmts : Forall stmt_good stmts -> part_good (ProcSubst offset op stmts).
Proof. intros Hst Ha depth ud s u Hs. parts Ha. by apply substitution_case. Qed.

Lemma quoted_case dollar ps : Forall part_good ps -> part_good (DblQuoted dollar ps).
Proof. intros Hp Ha depth ud s u Hs. parts Ha. by apply exp_all_good with (part_visits every). Qed.

Lemma plain_part_case p : match p with Lit _ | SglQuoted _ _ | ExtGlob _ => True | _ => False end -> part_good p.
Proof. intros Hp Ha depth ud s u Hs. by destruct p; try done; apply holds_ret. Qed.

Lemma expansion_part_case p : parameter_good p -> part_good (ParamExp p).
Proof. intros H Ha depth ud s u Hs. parts Ha. by apply H. Qed.

Lemma arithmetic_part_case x : expr_good x -> part_good (ArithmExp x).
Proof. intros H Ha depth ud s u Hs. parts Ha. by apply H. Qed.

Lemma expr_word_case w : word_good w -> expr_good (ExprWord w).
Proof. intros H Ha depth ud s u Hs. parts Ha. by apply H. Qed.

Lemma parameter_case excl len width param index slice repl names exp :
  from_option expr_good True index -> from_option (Forall expr_good) True slice -> from_option (Forall word_good) True repl ->
  from_option expansion_good True exp -> parameter_good (MkParameter excl len width param index slice repl names exp).
Proof.
  intros Hi Hsl Hr He Ha depth ud s u Hs. parts Ha. cbn [Walker.exp_parameter].
  apply then_holds; [by apply exp_opt_good with (expr_visits every)|]. intros v.
  apply then_holds.
  { destruct slice as [xs|]; cbn [exp_opt]; [by apply exp_all_good with (expr_visits every)|by apply holds_ret]. }
  intros v'. apply then_holds.
  { destruct repl as [ws|]; cbn [exp_opt]; [by apply exp_all_good with (word_visits every)|by apply holds_ret]. }
  intros v''. by apply exp_opt_good with (expansion_visits every).
Qed.

Lemma expansion_case op w : from_option word_good True w -> expansion_good (MkExpansion op w).
Proof. intros Hw Ha depth ud s u Hs. parts Ha. by apply exp_opt_good with (word_visits every). Qed.

Lemma expr_node_case xs : Forall expr_good xs -> expr_good (ExprNode xs).
Proof. intros Hx Ha depth ud s u Hs. parts Ha. by apply exp_all_good with (expr_visits every). Qed.

Lemma elem_case index value : from_option expr_good True index -> from_option word_good True value -> elem_good (MkArrayElem index value).
Proof.
  intros Hi Hv Ha depth ud s u Hs. parts Ha. apply then_holds; [by apply exp_opt_good with (expr_visits every)|].
  intros v. by apply exp_opt_good with (word_visits every).
Qed.

Lemma assign_case naked append name index value array :
  from_option expr_good True index -> from_option word_good True value -> from_option (Forall elem_good) True array ->
  assign_good (MkAssign naked append name index value array).
Proof.
  intros Hi Hv Hr Ha depth ud s u Hs. parts Ha. apply then_holds; [by apply exp_opt_good with (word_visits every)|].
  intros v. apply then_holds; [by apply exp_opt_good with (expr_visits every)|]. intros v'.
  destruct array as [es|]; cbn [exp_opt]; [by apply exp_all_good with (elem_visits every)|by apply holds_ret].
Qed.

Lemma redirect_case op n w hdoc : from_option word_good True w -> from_option word_good True hdoc -> redirect_good (MkRedirect op n w hdoc).
Proof.
  intros Hw Hh. split; intros Ha depth ud s u Hs; parts Ha; cbn [Walker.exp_redirect Walker.exp_any_redirect].
  - destruct w as [w|]; [|by apply holds_ret]. destruct u; [by apply holds_ret|]. by apply Hw.
  - apply then_holds; [by apply exp_opt_good with (word_visits every)|]. intros v. by apply exp_opt_good with (word_visits every).
Qed.

Lemma words_loop_case name inPos items : Forall word_good items -> loop_good (WordIter name inPos items).
Proof. intros Hi Ha depth ud s u Hs. parts Ha. by apply exp_all_good with (word_visits every). Qed.

Lemma style_loop_case init cond post :
  from_option expr_good True init -> from_option expr_good True cond -> from_option expr_good True post ->
  loop_good (CStyleLoop init cond post).
Proof.
  intros Hi Hc Hp Ha depth ud s u Hs. parts Ha. apply then_holds; [by apply exp_opt_good with (expr_visits every)|]. intros v.
  apply then_holds; [by apply exp_opt_good with (expr_visits every)|]. intros v'. by apply exp_opt_good with (expr_visits every).
Qed.

(** ** Statements *)

Definition command_expands : Command -> Prop := expands exp_command (command_visits every).

Lemma stmts_expand l : Forall stmt_good l -> Forall (expands exp_stmt (stmt_visits every)) l.
Proof. intros H. eapply Forall_impl; [exact H|]. by intros t []. Qed.

Lemma exp_stmts_good depth ud l s u :
  Forall stmt_good l -> Forall allowed (flat_map (stmt_visits every) l) -> ok s -> holds any (exp_all (exp_stmt depth ud) l s u).
Proof. intros Hl Ha Hs. apply (exp_all_good exp_stmt (stmt_visits every)); [by apply stmts_expand|done..]. Qed.

Lemma if_case thenPos cond body orelse :
  Forall stmt_good cond -> Forall stmt_good body -> from_option if_good True orelse -> if_good (MkIf thenPos cond body orelse).
Proof.
  intros Hc Hb Ho. split.
  - intros Ha depth ud s Hs. parts Ha. cbn [Walker.walk_if]. destruct thenPos; cbn [negb]; [|by apply walk_all_good].
    apply (holds_bind good); [by apply walk_all_good|]. intros condition Hcond.
    apply (holds_bind any); [apply holds_get|]. intros shadowed _.
    apply holds_if; [done|intros ud' s' Hs'; by apply walk_all_good|].
    intros branch ud' s' Hbr Hs'. destruct orelse as [e|]; [|done]. injection Hbr as <-. by apply Ho.
  - intros Ha depth ud s u Hs. parts Ha.
    apply then_holds; [by apply exp_stmts_good|]. intros v.
    apply then_holds; [by apply exp_stmts_good|]. intros v'.
    apply exp_opt_good with (if_visits every); [|done..]. destruct orelse as [e|]; [apply Ho|done].
Qed.

Lemma item_case op patterns stmts : Forall word_good patterns -> Forall stmt_good stmts -> item_good (MkCaseItem op patterns stmts).
Proof.
  intros Hp Hst. split_and!; [intros Ha depth ud s Hs|intros Ha depth ud s u Hs..]; parts Ha.
  - by apply walk_all_good.
  - apply then_holds; [by apply exp_all_good with (word_visits every)|]. intros v.
    by apply exp_stmts_good.
  - cbn [Walker.exp_patterns]. apply holds_exp_all. intros w v Hw. rewrite Forall_forall in Hp. apply Hp; [done| |done].
    by eapply allowed_in.
Qed.

(** What a command does when it is walked as the command of a statement. *)
Lemma statement_case loc cmd negation background coprocess semicolon redirs :
  Forall redirect_good redirs ->
  match cmd with Some c => command_expands c | None => True end ->
  (forall depth ud s, ok s -> Forall allowed (stmt_visits every (MkStmt loc cmd negation background coprocess semicolon redirs)) ->
     exists command, (forall s, ok s -> holds good (command s)) /\
       walk_stmt depth ud (MkStmt loc cmd negation background coprocess semicolon redirs) s =
       let run := statement (at_id loc) negation (background || coprocess) redirs
                    (fun s => exp_all (exp_redirect depth ud) redirs s false) command
                    (applyExpansionVariableEffects (MkStmt loc cmd negation background coprocess semicolon redirs) s) in
       match cmd with
       | Some (FuncDecl name body) =>
           if background || coprocess then run
           else bind (defineFunction name (slice src (st_Pos body) (st_End body)) (ud || c_unknown s)) (fun _ => ret (successOutcome s))
       | _ => run
       end) ->
  stmt_good (MkStmt loc cmd negation background coprocess semicolon redirs).
Proof.
  intros Hr Hexp Hcmd. split.
  - intros Ha depth ud s Hs. destruct (Hcmd depth ud s Hs Ha) as (command & Hc & ->). cbv zeta.
    assert (Hrun : holds good (statement (at_id loc) negation (background || coprocess) redirs
       (fun s => exp_all (exp_redirect depth ud) redirs s false) command
       (applyExpansionVariableEffects (MkStmt loc cmd negation background coprocess semicolon redirs) s))).
    { apply holds_statement; [by apply effects_closed| |done]. intros s' Hs'. parts Ha.
      apply exp_all_good with (redirect_visits every); [|done..]. eapply Forall_impl; [exact Hr|]. by intros r []. }
    destruct cmd as [[]|]; try done. destruct (background || coprocess); [done|].
    apply (holds_bind any); [|intros _ _; by apply holds_ret, success_closed]. apply inv_define.
    parts Ha. done.
  - intros Ha depth ud s u Hs. parts Ha. cbn [Walker.exp_stmt]. apply then_holds.
    + apply exp_opt_good with (command_visits every); [|done..]. by destruct cmd.
    + intros v. apply exp_all_good with (redirect_visits every); [|done..]. eapply Forall_impl; [exact Hr|]. by intros r [].
Qed.

(** The command of a statement whose walk is known. *)
Ltac statement_of :=
  apply statement_case; [assumption | | intros depth ud s Hs Ha; refine (ex_intro _ _ (conj _ eq_refl)); intros s' Hs'; parts Ha; cbv beta].

Section Statement.
Context (loc : StmtAt) (negation background coprocess semicolon : bool) (redirs : list Redirect)
  (Hredirs : Forall redirect_good redirs).

#[local] Notation stmt_of cmd := (MkStmt loc cmd negation background coprocess semicolon redirs).

Lemma empty_case : stmt_good (stmt_of None).
Proof. statement_of; [done|]. by apply holds_ret, both_closed. Qed.

Lemma call_case assigns args : Forall assign_good assigns -> Forall word_good args -> stmt_good (stmt_of (Some (CallExpr assigns args))).
Proof.
  intros Hv Hw. statement_of.
  - intros Ha depth ud s u Hs. parts Ha. apply then_holds; [by apply exp_all_good with (assign_visits every)|].
    intros v. by apply exp_all_good with (word_visits every).
  - apply (holds_bind any); [by apply exp_all_good with (assign_visits every)|]. intros v _.
    apply (holds_bind any); [by apply exp_all_good with (word_visits every)|]. intros v' _. by apply inv_call; [| |apply fs_when_ok].
Qed.

Lemma if_command_case clause : if_good clause -> stmt_good (stmt_of (Some (IfCmd clause))).
Proof. intros [Hw He]. statement_of; [intros Ha depth ud s u Hs; parts Ha; by apply He|by apply Hw]. Qed.

Lemma while_case until cond body : Forall stmt_good cond -> Forall stmt_good body -> stmt_good (stmt_of (Some (WhileClause until cond body))).
Proof.
  intros Hc Hb. statement_of.
  - intros Ha depth ud s u Hs. parts Ha. apply then_holds; [by apply exp_stmts_good|]. intros v. by apply exp_stmts_good.
  - apply holds_while; [done|intros t Ht; by apply walk_all_good..].
Qed.

Lemma for_case select loop body : loop_good loop -> Forall stmt_good body -> stmt_good (stmt_of (Some (ForClause select loop body))).
Proof.
  intros Hl Hb. statement_of.
  - intros Ha depth ud s u Hs. parts Ha. apply then_holds; [by apply Hl|]. intros v. by apply exp_stmts_good.
  - apply (holds_bind any); [by apply Hl|]. intros v _. cbv zeta. pose proof (fs_when_ok v s' Hs') as Hv.
    assert (Hfor : holds good (for_paths QuoteMeta ud loop (fun ud => walk_all (walk_stmt (S depth) ud) body) (fs_when v s'))).
    { apply holds_for; [done|]. intros ud' t Ht. by apply walk_all_good. }
    destruct (if (depth =? 0)%nat && negb (forClauseContainsLoop body) then staticForItems QuoteMeta SplitBraces loop else None) as [items|]; [|done]. destruct (staticForIterator loop (fs_when v s')); [|done].
    by eapply (inv_for (stmt_of (Some (ForClause select loop body)))). 
Qed.

Lemma case_case word items : word_good word -> Forall item_good items -> stmt_good (stmt_of (Some (CaseClause word items))).
Proof.
  intros Hw Hi. statement_of.
  - intros Ha depth ud s u Hs. parts Ha. apply then_holds; [by apply Hw|]. intros v.
    apply exp_all_good with (item_visits every); [|done..]. eapply Forall_impl; [exact Hi|]. by intros i (? & ? & ?).
  - apply (holds_bind any); [by apply Hw|]. intros v _. cbv zeta. pose proof (fs_when_ok v s' Hs') as Hv.
    rewrite Forall_forall in Hi.
    destruct (static_matches QuoteMeta pattern_matches word items) as [ms|].
    + apply holds_static_items; [done|]. intros walk t Hin Ht. apply static_execution_from in Hin as (m & op & Hin).
      apply elem_of_lookup_zip_with in Hin as (k & m' & [op' walk'] & [= -> -> ->] & _ & Hk).
      rewrite list_lookup_fmap in Hk. destruct (items !! k) as [i|] eqn:Ei; [|done]. injection Hk as Hk. change (walk_item depth ud i = (op', walk')) in Hk.
      assert (Hin : i ∈ items) by (by eapply list_elem_of_lookup_2). destruct (Hi i Hin) as [Hwalk _].
      specialize (Hwalk ltac:(by eapply allowed_in) depth ud t Ht). cbv beta in Hwalk. by rewrite Hk in Hwalk.
    + apply holds_possible_items; [done|by apply sole|]. intros i Hin. destruct (Hi i Hin) as (Hwalk & _ & Hpat).
      assert (Hallow : Forall allowed (item_visits every i)) by (by eapply allowed_in).
      change (holds good (bind (exp_patterns depth ud i (fs_when v s')) (fun _ => (walk_item depth true i).2 (fs_when v s')))).
      apply (holds_bind any); [exact (Hpat Hallow depth ud _ false Hv)|]. intros _ _. by apply Hwalk.
Qed.

Lemma block_case stmts : Forall stmt_good stmts -> stmt_good (stmt_of (Some (Block stmts))).
Proof. intros H. statement_of; [intros Ha depth ud s u Hs; parts Ha; by apply exp_stmts_good|by apply walk_all_good]. Qed.

Lemma subshell_case stmts : Forall stmt_good stmts -> stmt_good (stmt_of (Some (Subshell stmts))).
Proof.
  intros H. statement_of; [intros Ha depth ud s u Hs; parts Ha; by apply exp_stmts_good|].
  apply holds_subshell; [done|]. intros t Ht. by apply walk_all_good.
Qed.

Lemma binary_case op x y : stmt_good x -> stmt_good y -> stmt_good (stmt_of (Some (BinaryCmd op x y))).
Proof.
  intros [Hx Ex] [Hy Ey]. statement_of.
  - intros Ha depth ud s u Hs. parts Ha. apply then_holds; [by apply Ex|]. intros v. by apply Ey.
  - assert (Hleft : holds good (walk_stmt depth ud x s')) by (by apply Hx).
    destruct op; [apply (holds_bind good); [done|]; intros lhs Hl; apply holds_and; [done|]; intros t Ht; by apply Hy
                 |apply (holds_bind good); [done|]; intros lhs Hl; apply holds_or; [done|]; intros t Ht; by apply Hy
                 |apply holds_pipe; [done|intros t Ht; by apply Hx|intros t Ht; by apply Hy]..].
Qed.

Lemma function_case name body : stmt_good body -> stmt_good (stmt_of (Some (FuncDecl name body))).
Proof.
  intros [Hb Eb]. statement_of; [intros Ha depth ud s u Hs; parts Ha; by apply Eb|].
  apply (holds_bind good); [apply holds_isolated; by apply Hb|]. intros out _. by apply holds_ret, both_closed.
Qed.

Lemma expression_case x :
  expr_good x -> stmt_good (stmt_of (Some (ArithmCmd x))) /\ stmt_good (stmt_of (Some (TestClause x))).
Proof.
  intros Hx. split; (statement_of; [intros Ha depth ud s u Hs; parts Ha; by apply Hx|]);
    (apply (holds_bind any); [by apply Hx|]); intros v _; apply holds_ret, both_closed;
    [by apply forget_closed, fs_when_ok|by apply fs_when_ok].
Qed.

Lemma declaration_case variant args : Forall assign_good args -> stmt_good (stmt_of (Some (DeclClause variant args))).
Proof.
  intros Hv. statement_of; [intros Ha depth ud s u Hs; parts Ha; by apply exp_all_good with (assign_visits every)|].
  apply (holds_bind any); [by apply exp_all_good with (assign_visits every)|]. intros v _.
  by apply holds_ret, both_closed, declaration_closed, fs_when_ok.
Qed.

Lemma let_case exprs : Forall expr_good exprs -> stmt_good (stmt_of (Some (LetClause exprs))).
Proof.
  intros Hv. statement_of; [intros Ha depth ud s u Hs; parts Ha; by apply exp_all_good with (expr_visits every)|].
  apply (holds_bind any); [by apply exp_all_good with (expr_visits every)|]. intros v _.
  by apply holds_ret, both_closed, forget_closed, fs_when_ok.
Qed.

Lemma time_case t : from_option stmt_good True t -> stmt_good (stmt_of (Some (TimeClause t))).
Proof.
  intros Ht. statement_of.
  - intros Ha depth ud s u Hs. parts Ha. apply exp_opt_good with (stmt_visits every); [|done..]. destruct t; [apply Ht|done].
  - destruct t as [t|]; [by apply Ht|done].
Qed.

Lemma coproc_case t : from_option stmt_good True t -> stmt_good (stmt_of (Some (CoprocClause t))).
Proof.
  intros Ht. assert (He : from_option (expands exp_stmt (stmt_visits every)) True t) by (destruct t; [apply Ht|done]).
  statement_of; [intros Ha depth ud s u Hs; parts Ha; by apply exp_opt_good with (stmt_visits every)|].
  apply (holds_bind any); [by apply exp_opt_good with (stmt_visits every)|]. intros v _. by apply holds_ret, both_closed, fs_when_ok.
Qed.
End Statement.

(** ** Every tree *)

Fixpoint good_stmt (s : Stmt) {struct s} : stmt_good s :=
  match s with
  | MkStmt loc cmd n b c sc redirs =>
      let Hr := Forall_all redirect_good good_redirect redirs in
      match cmd with
      | None => empty_case loc n b c sc redirs Hr
      | Some (CallExpr assigns args) =>
          call_case loc n b c sc redirs Hr assigns args (Forall_all assign_good good_assign assigns) (Forall_all word_good good_word args)
      | Some (IfCmd clause) => if_command_case loc n b c sc redirs Hr clause (good_if clause)
      | Some (WhileClause until cond body) =>
          while_case loc n b c sc redirs Hr until cond body (Forall_all stmt_good good_stmt cond) (Forall_all stmt_good good_stmt body)
      | Some (ForClause select loop body) =>
          for_case loc n b c sc redirs Hr select loop body (good_loop loop) (Forall_all stmt_good good_stmt body)
      | Some (CaseClause word items) =>
          case_case loc n b c sc redirs Hr word items (good_word word) (Forall_all item_good good_item items)
      | Some (Block stmts) => block_case loc n b c sc redirs Hr stmts (Forall_all stmt_good good_stmt stmts)
      | Some (Subshell stmts) => subshell_case loc n b c sc redirs Hr stmts (Forall_all stmt_good good_stmt stmts)
      | Some (BinaryCmd op x y) => binary_case loc n b c sc redirs Hr op x y (good_stmt x) (good_stmt y)
      | Some (FuncDecl name body) => function_case loc n b c sc redirs Hr name body (good_stmt body)
      | Some (ArithmCmd x) => proj1 (expression_case loc n b c sc redirs Hr x (good_expr x))
      | Some (TestClause x) => proj2 (expression_case loc n b c sc redirs Hr x (good_expr x))
      | Some (DeclClause variant args) =>
          declaration_case loc n b c sc redirs Hr variant args (Forall_all assign_good good_assign args)
      | Some (LetClause exprs) => let_case loc n b c sc redirs Hr exprs (Forall_all expr_good good_expr exprs)
      | Some (TimeClause t) => time_case loc n b c sc redirs Hr t (option_all stmt_good good_stmt t)
      | Some (CoprocClause t) => coproc_case loc n b c sc redirs Hr t (option_all stmt_good good_stmt t)
      end
  end
with good_if (c : IfClause) {struct c} : if_good c :=
  match c with
  | MkIf pos cond body orelse =>
      if_case pos cond body orelse (Forall_all stmt_good good_stmt cond) (Forall_all stmt_good good_stmt body)
        (option_all if_good good_if orelse)
  end
with good_item (i : CaseItem) {struct i} : item_good i :=
  match i with
  | MkCaseItem op patterns stmts =>
      item_case op patterns stmts (Forall_all word_good good_word patterns) (Forall_all stmt_good good_stmt stmts)
  end
with good_loop (l : Loop) {struct l} : loop_good l :=
  match l with
  | WordIter name inPos items => words_loop_case name inPos items (Forall_all word_good good_word items)
  | CStyleLoop init cond post =>
      style_loop_case init cond post (option_all expr_good good_expr init) (option_all expr_good good_expr cond)
        (option_all expr_good good_expr post)
  end
with good_redirect (r : Redirect) {struct r} : redirect_good r :=
  match r with
  | MkRedirect op n w hdoc => redirect_case op n w hdoc (option_all word_good good_word w) (option_all word_good good_word hdoc)
  end
with good_assign (a : Assign) {struct a} : assign_good a :=
  match a with
  | MkAssign naked append name index value array =>
      assign_case naked append name index value array (option_all expr_good good_expr index) (option_all word_good good_word value)
        (option_all (Forall elem_good) (Forall_all elem_good good_elem) array)
  end
with good_elem (e : ArrayElem) {struct e} : elem_good e :=
  match e with
  | MkArrayElem index value => elem_case index value (option_all expr_good good_expr index) (option_all word_good good_word value)
  end
with good_word (w : Word) {struct w} : word_good w :=
  match w with MkWord a b ps => word_case a b ps (Forall_all part_good good_part ps) end
with good_part (p : WordPart) {struct p} : part_good p :=
  match p with
  | CmdSubst offset stmts => command_substitution_case offset stmts (Forall_all stmt_good good_stmt stmts)
  | ProcSubst offset op stmts => process_substitution_case offset op stmts (Forall_all stmt_good good_stmt stmts)
  | DblQuoted dollar ps => quoted_case dollar ps (Forall_all part_good good_part ps)
  | ParamExp p => expansion_part_case p (good_parameter p)
  | ArithmExp x => arithmetic_part_case x (good_expr x)
  | Lit v => plain_part_case (Lit v) I
  | SglQuoted d v => plain_part_case (SglQuoted d v) I
  | ExtGlob v => plain_part_case (ExtGlob v) I
  end
with good_parameter (p : Parameter_) {struct p} : parameter_good p :=
  match p with
  | MkParameter excl len width param index slice repl names exp =>
      parameter_case excl len width param index slice repl names exp (option_all expr_good good_expr index)
        (option_all (Forall expr_good) (Forall_all expr_good good_expr) slice)
        (option_all (Forall word_good) (Forall_all word_good good_word) repl) (option_all expansion_good good_expansion exp)
  end
with good_expansion (e : Expansion) {struct e} : expansion_good e :=
  match e with MkExpansion op w => expansion_case op w (option_all word_good good_word w) end
with good_expr (x : Expr) {struct x} : expr_good x :=
  match x with
  | ExprWord w => expr_word_case w (good_word w)
  | ExprNode xs => expr_node_case xs (Forall_all expr_good good_expr xs)
  end.

(** The walk over a list of statements keeps the invariant. *)
Lemma walk_list_good depth stmts s :
  Forall allowed (flat_map (stmt_visits every) stmts) -> ok s ->
  holds good (walk_list Parse QuoteMeta pattern_matches SplitBraces h normalize src active pipelines depth stmts s).
Proof. intros Ha Hs. apply walk_all_good; [|done..]. apply Forall_all, good_stmt. Qed.
End Walks.

(** ** The states stay what they are *)

Section Kept.
Context (Parse : string -> option (list Stmt)) (QuoteMeta : string -> string)
  (pattern_matches : string -> string -> option bool) (SplitBraces : Word -> bool) (h : CdHost)
  (normalize : string -> cwdState -> nat -> functions -> gset string -> list (nat * nat) -> nat ->
               run (option normalizeResult * nat))
  (src : string) (active : gset string) (pipelines : positions)
  (ok : cwdState -> Prop) `{!Closed ok}.

Context (normalize_ok : forall source s depth fs running inherited n r n',
  ok s -> normalize source s depth fs running inherited n = Finished (Some r, n') -> ok_out ok (r_outcome r)).

(** No state recorded is forgotten, and every new one is [ok]. *)
Definition kept (v w : Walk) : Prop :=
  (forall id, is_Some (wk_states v !! id) -> is_Some (wk_states w !! id)) /\
  (forall id s, wk_states w !! id = Some s -> wk_states v !! id = Some s \/ ok s) /\
  (forall id s, wk_recursive w !! id = Some s -> wk_recursive v !! id = Some s \/ ok s).

#[export] Instance kept_order : PreOrder kept.
Proof.
  split; [intros w; unfold kept; auto|]. intros u v w (D1 & S1 & R1) (D2 & S2 & R2). split_and!; [auto|..].
  - intros id s [H|H]%S2; auto.
  - intros id s [H|H]%R2; auto.
Qed.

#[local] Notation holds := (holds kept).
#[local] Notation good := (ok_out ok).
#[local] Notation any := (fun _ => True).

(** What changes neither the states nor the calls. *)
Lemma kept_same v w : wk_states w = wk_states v -> wk_recursive w = wk_recursive v -> kept v w.
Proof. intros Hs Hr. unfold kept. rewrite Hs, Hr. auto. Qed.

Lemma holds_quiet f : (forall w, wk_states (f w) = wk_states w /\ wk_recursive (f w) = wk_recursive w) -> holds any (modify f).
Proof. intros H. apply holds_modify. intros w. by apply kept_same; apply H. Qed.

Lemma record_state_kept id s : ok s -> holds any (record_state id s).
Proof.
  intros Hs. apply holds_modify. intros w. split_and!; cbn; [|intros i t|auto].
  - intros i Hi. rewrite lookup_insert_is_Some. destruct (decide (id = i)); [by left|by right].
  - rewrite lookup_insert_Some. intros [[_ <-]|[_ H]]; [by right|by left].
Qed.

Lemma record_call_kept id s : ok s -> holds any (record_call id s).
Proof.
  intros Hs. apply holds_modify. intros w. split_and!; cbn; [auto..|]. intros i t.
  rewrite lookup_insert_Some. intros [[_ <-]|[_ H]]; [by right|by left].
Qed.

Lemma replace_kept id simples : holds any (replace id simples). Proof. by apply holds_quiet. Qed.
Lemma shadow_kept names : holds any (shadow names). Proof. by apply holds_quiet. Qed.
Lemma with_functions_kept fs : holds any (modify (with_functions fs)). Proof. by apply holds_quiet. Qed.

Lemma publish_kept fs uncertain : holds any (publishFunctions fs uncertain).
Proof.
  apply (holds_bind any); [apply holds_get|]. intros current _. apply (holds_bind any); [apply with_functions_kept|].
  intros _ _. apply shadow_kept.
Qed.

Lemma define_kept name source uncertain : holds any (defineFunction name source uncertain).
Proof.
  apply (holds_bind any); [apply holds_get|]. intros fs _. apply (holds_bind any); [apply with_functions_kept|].
  intros _ _. apply shadow_kept.
Qed.

#[local] Notation nested := (nested normalize pipelines).

Lemma nested_kept source s depth fs running id :
  ok s -> holds (fun result => forall r, result = Some r -> good (r_outcome r)) (nested source s depth fs running id).
Proof.
  intros Hs w a w' H. unfold Walker.nested, run_bind in H.
  destruct (normalize source s depth fs running (at_ pipelines id) (wk_nextPipelineID w)) as [[r n]| |] eqn:E; [|done..].
  injection H as <- <-. split; [by apply kept_same|]. intros r' ->. by eapply normalize_ok.
Qed.

Lemma replace_ret_kept id simples out : good out -> holds good (bind (replace id simples) (fun _ => ret out)).
Proof. intros Ho. apply (holds_bind any); [apply replace_kept|]. intros _ _. by apply holds_ret. Qed.

Lemma eval_kept id depth ud simple argv s :
  ok s -> holds good (eval normalize active pipelines id depth ud simple argv s).
Proof.
  intros Hs. unfold eval.
  assert (Hunknown : good (bothOutcome (unknownCwd [forgotten s]))) by (apply both_closed, (unknown_one_closed ok), (invalidate_closed ok), Hs; done).
  destruct (_ || _).
  { apply (holds_bind any); [apply replace_kept|]. intros _ _. apply (holds_bind any); [apply shadow_kept|]. intros _ _. by apply holds_ret. }
  destruct (tail argv) as [|word words]; [by apply replace_ret_kept, success_closed|].
  apply (holds_bind any); [apply holds_get|]. intros fs _.
  apply (holds_bind (fun result => forall r, result = Some r -> good (r_outcome r))); [by apply nested_kept|].
  intros [r|] Hr; [|by apply replace_ret_kept]. apply (holds_bind any); [apply replace_kept|]. intros _ _.
  apply (holds_bind any); [apply publish_kept|]. intros _ _. by apply holds_ret, Hr.
Qed.

Lemma bodies_kept id depth running base s bodies :
  ok s -> holds (fun '(_, outcomes, _, _) => Forall good outcomes) (run_bodies normalize pipelines id depth running base s bodies).
Proof.
  intros Hs. induction bodies as [|source rest IH]; cbn [run_bodies]; [by apply holds_ret|].
  apply (holds_bind (fun result => forall r, result = Some r -> good (r_outcome r))); [by apply nested_kept|]. intros result Hr.
  apply (holds_bind _ _ _ _ IH). intros [[[simples outcomes] alternatives] failed] Ho.
  destruct result as [r|]; apply holds_ret; constructor; [by apply Hr|done|by apply both_closed, (unknown_one_closed ok)|done].
Qed.

Lemma function_kept id depth ud simple name set s :
  ok s -> holds good (functionCall normalize active pipelines id depth ud simple name set s).
Proof.
  intros Hs. unfold functionCall. destruct (bool_decide _); [by apply replace_ret_kept, both_closed, (unknown_one_closed ok)|].
  apply (holds_bind any); [apply holds_get|]. intros base _.
  apply (holds_bind _ _ _ _ (bodies_kept id depth _ base s (fn_bodies set) Hs)).
  intros [[[simples outcomes] alternatives] failed] Ho. cbv zeta.
  apply (holds_bind any); [apply replace_kept|]. intros _ _. apply (holds_bind any); [apply publish_kept|]. intros _ _.
  apply holds_ret, merge_outcomes_closed; [done|]. apply Forall_app. split; [done|].
  destruct (_ || _); repeat constructor; by apply (unknown_one_closed ok).
Qed.

Lemma after_command_kept stmt simple argv s : ok s -> holds good (after_command stmt simple argv s).
Proof.
  intros Hs. unfold after_command. apply (holds_bind any); [apply holds_get|]. intros shadowed _. cbv zeta.
  set (s' := if _ : bool then fs_changed s else s). assert (Hs' : ok s') by (subst s'; destruct (_ || _); [by apply cl_fs|done]).
  clearbody s'. apply holds_ret. set (truth := if st_Negated stmt then _ else _).
  destruct truth; [by apply both_closed|by apply success_closed|by apply failure_closed].
Qed.

Lemma call_kept stmt depth ud assigns args s :
  ok s -> holds good (call Parse QuoteMeta h normalize src active pipelines stmt depth ud assigns args s).
Proof.
  intros Hs. unfold call. destruct args as [|a args]; [by apply holds_ret, success_closed, (call_assignments_closed ok)|].
  pose proof (call_assignments_closed ok QuoteMeta assigns s Hs) as Hlocal. cbv zeta.
  apply (holds_bind any); [by apply record_call_kept|]. intros _ _.
  apply (holds_bind any); [apply holds_get|]. intros fs _.
  set (simple := simpleForCall _ _ _ _ _). clearbody simple. set (local := applyCallAssignments _ _ _) in *. clearbody local.
  set (called := if _ : bool then None else _). clearbody called. destruct called as [set|].
  { apply (holds_bind good); [by apply function_kept|]. intros out Ho. by apply holds_ret, (restore_out_closed ok). }
  destruct (directCommandArgv (s_Argv simple)) as [[|command argv] bypass none|];
    [by destruct none; apply holds_ret, both_closed| |by apply holds_ret, both_closed, (unknown_one_closed ok), (invalidate_closed ok)].
  destruct none; [by apply holds_ret, both_closed|].
  destruct (command =s? "eval").
  { apply (holds_bind good); [by apply eval_kept|]. intros out Ho. by apply holds_ret, (restore_out_closed ok). }
  pose proof (fun t Ht => call_variables_closed ok t (command :: argv) Ht) as Hvars.
  set (pair := if assignmentDeclarationBuiltin command then _ else _).
  assert (Hpair : ok pair.1 /\ ok pair.2).
  { subst pair. by destruct (assignmentDeclarationBuiltin command); split; cbn [fst snd]; try apply Hvars. }
  clearbody pair. destruct pair as [s1 local1]. destruct Hpair as [H1 H2]. cbn [fst snd] in *.
  destruct (_ && bypass); [by apply holds_ret, both_closed, (unknown_one_closed ok)|].
  destruct (_ && _ && _); [by apply holds_ret, both_closed, (unknown_one_closed ok)|].
  set (pair := if assignmentDeclarationBuiltin command then _ else _).
  assert (Hpair : ok pair.1 /\ ok pair.2).
  { subst pair. by destruct (assignmentDeclarationBuiltin command); split; cbn [fst snd]; try apply Hvars. }
  clearbody pair. destruct pair as [s2 local2]. destruct Hpair as [H3 H4]. cbn [fst snd] in *.
  repeat case_match; try (by apply holds_ret, both_closed, (unknown_one_closed ok)); [|by apply after_command_kept].
  apply holds_ret, (restore_out_closed ok); [by apply (cd_closed ok)|done].
Qed.

Lemma items_kept id depth base name body s items : ok s -> forall simples alternatives mutated,
  holds any (run_items Parse normalize active pipelines id depth base name body s items simples alternatives mutated).
Proof.
  intros Hs. induction items as [|i items IH]; intros simples alternatives mutated; cbn [run_items]; [by apply holds_ret|].
  apply (holds_bind any).
  { eapply holds_weaken; [|apply nested_kept; by apply cl_variable]. done. }
  intros [r|] _; [apply IH|by apply holds_ret].
Qed.

Lemma enumerate_kept id depth ud body name items s :
  ok s -> holds good (enumerateStaticFor Parse normalize src active pipelines id depth ud body name items s).
Proof.
  intros Hs. assert (Hloop : good (conservativeLoopOutcome s)) by (by apply both_closed, (conservative_closed ok)).
  unfold enumerateStaticFor. apply (holds_bind any); [apply holds_get|]. intros base _.
  destruct body as [|first body]; [by apply replace_ret_kept|]. cbv zeta.
  apply (holds_bind any); [by apply items_kept|]. intros [simples [[alternatives mutated]|]] _; [|by apply replace_ret_kept].
  apply (holds_bind any); [apply replace_kept|]. intros _ _. apply (holds_bind any); [apply publish_kept|]. intros _ _. by apply holds_ret.
Qed.

#[export] Instance kept_invariant :
  Invariant Parse QuoteMeta h normalize src active pipelines ok (fun _ => True) kept.
Proof.
  split.
  - apply kept_order.
  - apply record_state_kept.
  - intros v w H. etrans; [exact H|]. by apply kept_same.
  - intros v w u w' H (current & w1 & [= <- <-] & Hj)%bind_finished. etrans; [exact H|]. by apply (publish_kept _ _ _ _ _ Hj).
  - intros name source uncertain _. apply define_kept.
  - intros stmt depth ud assigns args s _ _. apply call_kept.
  - intros stmt select loop body depth ud name items s _ _. apply enumerate_kept.
Qed.
End Kept.
