(* ===== verification/Normalize.v ===== *)
(** * Normalizing a command ([Normalize], [normalizeWithState], [stripAndUnwrap] of
    [tokenize.go])

    A source is parsed, its pipes are numbered, the walk runs over it, and its commands
    are taken out of the tree, unwrapped, and replaced by what [eval] and functions stand
    for. A shell's [-c] text, a remote command and what [watch] runs are sources
    themselves. The fuel counts sources nested in each other. *)

From Stdlib Require Import ZArith Lia Bool.
From S2P Require Import Prelude GoStrings GoPath Policy Argv Engine Simple Wrappers NetRules Syntax StdoutFate ToolchainRules FindActions BashRules ShellState ShellVars ShellCd StdinFlow Extract Walker.

Open Scope string_scope.
Open Scope list_scope.

(** Calls that share the counter of pipes; [None] is an error returned. *)
Definition T (A : Type) := nat -> run (option A * nat).

Definition pure {A} (a : A) : T A := fun n => Finished (Some a, n).
Definition fail {A} : T A := fun n => Finished (None, n).
Definition exhausted {A} : T A := fun _ => OutOfFuel.
Definition andThen {A B} (m : T A) (k : A -> T B) : T B := fun n =>
  run_bind (m n) (fun '(r, n) => match r with Some a => k a n | None => Finished (None, n) end).

#[local] Notation "'let*' x := m 'in' k" := (andThen m (fun x => k)) (at level 200, x pattern, right associativity).

Definition lift {E A} (r : result E A) : T A := match r with Ok a => pure a | Err _ => fail end.

(** ** Writing into a [Simple] *)

Definition with_state_fs (uncertain : bool) (s : Simple) : Simple :=
  {| s_Argv := s_Argv s; s_Redirects := s_Redirects s; s_ReadRedirects := s_ReadRedirects s; s_Cwd := s_Cwd s;
     s_Unresolved := s_Unresolved s; s_findCallback := s_findCallback s; s_literalArgs := s_literalArgs s;
     s_literalOut := s_literalOut s; s_literalIn := s_literalIn s; s_resolvedArgs := s_resolvedArgs s;
     s_resolvedOut := s_resolvedOut s; s_resolvedIn := s_resolvedIn s; s_gitEnvironment := s_gitEnvironment s;
     s_goEnvironment := s_goEnvironment s; s_goBin := s_goBin s;
     s_gitEnvironmentUnknown := s_gitEnvironmentUnknown s; s_gitInitExpected := s_gitInitExpected s;
     s_fsUncertain := s_fsUncertain s; s_pipelines := s_pipelines s; s_cwdUnknown := s_cwdUnknown s;
     s_cwdOnlyUnresolved := s_cwdOnlyUnresolved s; s_plainCall := s_plainCall s;
     s_globTailResolved := s_globTailResolved s; s_stdoutFate := s_stdoutFate s;
     s_stateFsUncertain := uncertain |}.

Definition with_unresolved (unresolved : bool) (s : Simple) : Simple :=
  {| s_Argv := s_Argv s; s_Redirects := s_Redirects s; s_ReadRedirects := s_ReadRedirects s; s_Cwd := s_Cwd s;
     s_Unresolved := unresolved; s_findCallback := s_findCallback s; s_literalArgs := s_literalArgs s;
     s_literalOut := s_literalOut s; s_literalIn := s_literalIn s; s_resolvedArgs := s_resolvedArgs s;
     s_resolvedOut := s_resolvedOut s; s_resolvedIn := s_resolvedIn s; s_gitEnvironment := s_gitEnvironment s;
     s_goEnvironment := s_goEnvironment s; s_goBin := s_goBin s;
     s_gitEnvironmentUnknown := s_gitEnvironmentUnknown s; s_gitInitExpected := s_gitInitExpected s;
     s_fsUncertain := s_fsUncertain s; s_pipelines := s_pipelines s; s_cwdUnknown := s_cwdUnknown s;
     s_cwdOnlyUnresolved := s_cwdOnlyUnresolved s; s_plainCall := s_plainCall s;
     s_globTailResolved := s_globTailResolved s; s_stdoutFate := s_stdoutFate s;
     s_stateFsUncertain := s_stateFsUncertain s |}.

Definition with_environment (git go : gmap string string) (goBin : string) (gitUnknown unresolved : bool) (s : Simple) : Simple :=
  {| s_Argv := s_Argv s; s_Redirects := s_Redirects s; s_ReadRedirects := s_ReadRedirects s; s_Cwd := s_Cwd s;
     s_Unresolved := unresolved; s_findCallback := s_findCallback s; s_literalArgs := s_literalArgs s;
     s_literalOut := s_literalOut s; s_literalIn := s_literalIn s; s_resolvedArgs := s_resolvedArgs s;
     s_resolvedOut := s_resolvedOut s; s_resolvedIn := s_resolvedIn s; s_gitEnvironment := git;
     s_goEnvironment := go; s_goBin := goBin; s_gitEnvironmentUnknown := gitUnknown;
     s_gitInitExpected := s_gitInitExpected s; s_fsUncertain := s_fsUncertain s; s_pipelines := s_pipelines s;
     s_cwdUnknown := s_cwdUnknown s; s_cwdOnlyUnresolved := s_cwdOnlyUnresolved s;
     s_plainCall := s_plainCall s; s_globTailResolved := s_globTailResolved s; s_stdoutFate := s_stdoutFate s;
     s_stateFsUncertain := s_stateFsUncertain s |}.

Definition with_git_unknown (s : Simple) : Simple :=
  {| s_Argv := s_Argv s; s_Redirects := s_Redirects s; s_ReadRedirects := s_ReadRedirects s; s_Cwd := s_Cwd s;
     s_Unresolved := true; s_findCallback := s_findCallback s; s_literalArgs := s_literalArgs s;
     s_literalOut := s_literalOut s; s_literalIn := s_literalIn s; s_resolvedArgs := s_resolvedArgs s;
     s_resolvedOut := s_resolvedOut s; s_resolvedIn := s_resolvedIn s; s_gitEnvironment := s_gitEnvironment s;
     s_goEnvironment := s_goEnvironment s; s_goBin := s_goBin s; s_gitEnvironmentUnknown := true;
     s_gitInitExpected := s_gitInitExpected s; s_fsUncertain := s_fsUncertain s; s_pipelines := s_pipelines s;
     s_cwdUnknown := s_cwdUnknown s; s_cwdOnlyUnresolved := s_cwdOnlyUnresolved s;
     s_plainCall := s_plainCall s; s_globTailResolved := s_globTailResolved s; s_stdoutFate := s_stdoutFate s;
     s_stateFsUncertain := s_stateFsUncertain s |}.

Definition with_redirects (out read : list string) (s : Simple) : Simple :=
  {| s_Argv := s_Argv s; s_Redirects := out; s_ReadRedirects := read; s_Cwd := s_Cwd s;
     s_Unresolved := s_Unresolved s; s_findCallback := s_findCallback s; s_literalArgs := s_literalArgs s;
     s_literalOut := s_literalOut s; s_literalIn := s_literalIn s; s_resolvedArgs := s_resolvedArgs s;
     s_resolvedOut := s_resolvedOut s; s_resolvedIn := s_resolvedIn s; s_gitEnvironment := s_gitEnvironment s;
     s_goEnvironment := s_goEnvironment s; s_goBin := s_goBin s;
     s_gitEnvironmentUnknown := s_gitEnvironmentUnknown s; s_gitInitExpected := s_gitInitExpected s;
     s_fsUncertain := s_fsUncertain s; s_pipelines := s_pipelines s; s_cwdUnknown := s_cwdUnknown s;
     s_cwdOnlyUnresolved := s_cwdOnlyUnresolved s; s_plainCall := s_plainCall s;
     s_globTailResolved := s_globTailResolved s; s_stdoutFate := s_stdoutFate s;
     s_stateFsUncertain := s_stateFsUncertain s |}.

Definition with_words (argv : list string) (unresolved : bool) (s : Simple) : Simple :=
  {| s_Argv := argv; s_Redirects := s_Redirects s; s_ReadRedirects := s_ReadRedirects s; s_Cwd := s_Cwd s;
     s_Unresolved := unresolved; s_findCallback := s_findCallback s; s_literalArgs := s_literalArgs s;
     s_literalOut := s_literalOut s; s_literalIn := s_literalIn s; s_resolvedArgs := s_resolvedArgs s;
     s_resolvedOut := s_resolvedOut s; s_resolvedIn := s_resolvedIn s; s_gitEnvironment := s_gitEnvironment s;
     s_goEnvironment := s_goEnvironment s; s_goBin := s_goBin s;
     s_gitEnvironmentUnknown := s_gitEnvironmentUnknown s; s_gitInitExpected := s_gitInitExpected s;
     s_fsUncertain := s_fsUncertain s; s_pipelines := s_pipelines s; s_cwdUnknown := s_cwdUnknown s;
     s_cwdOnlyUnresolved := s_cwdOnlyUnresolved s; s_plainCall := false;
     s_globTailResolved := s_globTailResolved s; s_stdoutFate := s_stdoutFate s;
     s_stateFsUncertain := s_stateFsUncertain s |}.

(** What a replacement takes over from the command it stands for. *)
Definition with_outer (unresolved cwdUnknown : bool) (s : Simple) : Simple :=
  {| s_Argv := s_Argv s; s_Redirects := s_Redirects s; s_ReadRedirects := s_ReadRedirects s; s_Cwd := s_Cwd s;
     s_Unresolved := s_Unresolved s || unresolved; s_findCallback := s_findCallback s;
     s_literalArgs := s_literalArgs s; s_literalOut := s_literalOut s; s_literalIn := s_literalIn s;
     s_resolvedArgs := s_resolvedArgs s; s_resolvedOut := s_resolvedOut s; s_resolvedIn := s_resolvedIn s;
     s_gitEnvironment := s_gitEnvironment s; s_goEnvironment := s_goEnvironment s; s_goBin := s_goBin s;
     s_gitEnvironmentUnknown := s_gitEnvironmentUnknown s; s_gitInitExpected := s_gitInitExpected s;
     s_fsUncertain := s_fsUncertain s; s_pipelines := s_pipelines s;
     s_cwdUnknown := s_cwdUnknown s || cwdUnknown; s_cwdOnlyUnresolved := s_cwdOnlyUnresolved s;
     s_plainCall := s_plainCall s; s_globTailResolved := s_globTailResolved s; s_stdoutFate := s_stdoutFate s;
     s_stateFsUncertain := false |}.

(** A command whose wrappers could not be understood. *)
Definition degraded (s : Simple) : Simple :=
  {| s_Argv := s_Argv s; s_Redirects := s_Redirects s; s_ReadRedirects := s_ReadRedirects s; s_Cwd := s_Cwd s;
     s_Unresolved := true; s_findCallback := s_findCallback s; s_literalArgs := s_literalArgs s;
     s_literalOut := s_literalOut s; s_literalIn := s_literalIn s; s_resolvedArgs := s_resolvedArgs s;
     s_resolvedOut := s_resolvedOut s; s_resolvedIn := s_resolvedIn s; s_gitEnvironment := s_gitEnvironment s;
     s_goEnvironment := s_goEnvironment s; s_goBin := s_goBin s;
     s_gitEnvironmentUnknown := s_gitEnvironmentUnknown s; s_gitInitExpected := s_gitInitExpected s;
     s_fsUncertain := s_fsUncertain s; s_pipelines := s_pipelines s; s_cwdUnknown := s_cwdUnknown s;
     s_cwdOnlyUnresolved := false; s_plainCall := false; s_globTailResolved := s_globTailResolved s;
     s_stdoutFate := s_stdoutFate s; s_stateFsUncertain := s_stateFsUncertain s |}.

Definition with_state (c : cwdState) (k : tokenized) : tokenized :=
  {| k_simple := with_state_fs (c_fsUncertain c) (k_simple k); k_origin := k_origin k; k_state := c |}.

(** [origin = nil; shellState = cwdState{}] *)
Definition forget (k : tokenized) : Simple := with_state_fs false (k_simple k).

Definition goRedirectEnvironmentValues (variables : gmap string string) : gmap string string :=
  filter (fun kv => goRedirectEnvironmentVariable kv.1 = true) variables.

(** What the state of a call says of its environment. *)
Definition with_call_state (c : cwdState) (k : tokenized) : tokenized :=
  let s := k_simple k in
  with_state c
    {| k_simple := with_environment (gitRepositoryEnvironment (c_variables c)) (goRedirectEnvironmentValues (c_variables c))
                     (default (s_goBin s) (c_variables c !! "GOBIN")) (c_gitEnvironmentUnknown c)
                     (s_Unresolved s || (c_gitEnvironmentUnknown c && (head (s_Argv s) =s? "git"))) s;
       k_origin := k_origin k; k_state := k_state k |}.

Section Normalize.
Context (Parse : string -> option (list Stmt)) (QuoteMeta : string -> string)
  (pattern_matches : string -> string -> option bool) (SplitBraces : Word -> bool) (h : CdHost)
  (map_order : list Stmt -> list Stmt) (url_Parse : string -> option URL)
  (ParseIP : string -> option string).

#[local] Notation is_lit := (is_literal Parse).

(** ** Unwrapping *)

Section Unwrapping.
(** [normalizeWithState] of a source nested in this one, with its inherited positions. *)
Context (normalize : string -> cwdState -> list (nat * nat) -> T normalizeResult).

Definition normalizeShellDashC (source : string) (state : cwdState) (inherited : list (nat * nat)) : T (list Simple) :=
  let* result := normalize source state inherited in pure (r_simples result).

(** A [Simple] that only carries the redirections of another. *)
Definition redirections_only (outer : Simple) (unresolved fsUncertain : bool) : Simple :=
  {| s_Argv := []; s_Redirects := s_Redirects outer; s_ReadRedirects := s_ReadRedirects outer; s_Cwd := s_Cwd outer;
     s_Unresolved := unresolved; s_findCallback := false; s_literalArgs := ∅;
     s_literalOut := s_literalOut outer; s_literalIn := s_literalIn outer; s_resolvedArgs := ∅;
     s_resolvedOut := s_resolvedOut outer; s_resolvedIn := s_resolvedIn outer;
     s_gitEnvironment := ∅; s_goEnvironment := ∅; s_goBin := ""; s_gitEnvironmentUnknown := false;
     s_gitInitExpected := false; s_fsUncertain := fsUncertain; s_pipelines := s_pipelines outer;
     s_cwdUnknown := s_cwdUnknown outer; s_cwdOnlyUnresolved := false; s_plainCall := false;
     s_globTailResolved := ∅; s_stdoutFate := stdoutRoot; s_stateFsUncertain := false |}.

Definition redirects (s : Simple) : bool := negb (is_nil (s_Redirects s)) || negb (is_nil (s_ReadRedirects s)).

Definition normalizeWatch (outer : Simple) (state : cwdState) (argv : list string) (unresolved : bool) : T (list Simple) :=
  match argv with
  | [] => fail
  | _ =>
      let* result := normalize (Join argv " ") (fs_changed (invalidateExpansionFacts state)) (s_pipelines outer) in
      let unknown := unresolved || s_Unresolved outer in
      let inner := if unknown then map (with_unresolved true) (r_simples result) else r_simples result in
      if redirects outer then
        pure (redirections_only outer (unresolved || redirectsUnresolved is_lit outer) false :: inner)
      else if unknown && is_nil inner then
        pure [bare_simple [] (s_Cwd outer) true (s_cwdUnknown outer) (s_pipelines outer)]
      else pure inner
  end.

(** [commandDerivedFrom]; it keeps the state of the shell. *)
Definition commandDerivedFrom (k : tokenized) (argv : list string) : tokenized :=
  {| k_simple := commandDerivedFromAt (k_simple k) argv (argvSubsliceOffset (s_Argv (k_simple k)) argv);
     k_origin := None; k_state := k_state k |}.

Definition start_unwrap (s : Simple) : unwrap_state :=
  {| u_gitEnvironment := s_gitEnvironment s; u_gitEnvironmentUnknown := s_gitEnvironmentUnknown s;
     u_Unresolved := s_Unresolved s; u_goBin := s_goBin s; u_fsUncertain := s_stateFsUncertain s; u_chrooted := false |}.

(** The command with what the loop over its wrappers has changed. [env] writes into a
    map that derived commands share; only [git] reads it, and no runner is one. *)
Definition after_unwrap (st : unwrap_state) (k : tokenized) : tokenized :=
  let s := k_simple k in
  with_state (with_fs (u_fsUncertain st) (k_state k))
    {| k_simple := with_environment (u_gitEnvironment st) (s_goEnvironment s) (u_goBin st) (u_gitEnvironmentUnknown st)
                     (u_Unresolved st) s;
       k_origin := k_origin k; k_state := k_state k |}.

(** Text a shell runs, with what it prints going where the outer command prints. *)
Definition shell_source (source : string) (state : cwdState) (outer : Simple) (xtrace : bool) : T (list Simple) :=
  let* inner := normalizeShellDashC source state (s_pipelines outer) in
  pure (inheritStdoutFate inner (s_stdoutFate outer) xtrace).

Fixpoint remote_sources (sources : list string) (state : cwdState) (outer : Simple) : T (list Simple) :=
  match sources with
  | [] => pure []
  | source :: rest =>
      let* inner := shell_source source state outer false in
      let* more := remote_sources rest state outer in
      pure (inner ++ more)
  end.

(** What the words of a command run besides it: [s] and [state] as the runner leaves them. *)
Definition shells_of (argv : list string) (s : Simple) (state : cwdState) : T (list Simple) :=
  let inner := invalidateExpansionFacts state in
  let* dashC := lift (shellDashC argv) in
  let* shell := match dashC with
                | Some source => shell_source source inner s (shellEnablesXtrace argv)
                | None => pure []
                end in
  let* slashC := match cmdSlashC argv with
                 | Some source => shell_source source inner s false
                 | None => pure []
                 end in
  let* sources := lift (sshCommandSources url_Parse ParseIP argv) in
  let* remote := remote_sources sources (fs_changed inner) s in
  pure (shell ++ slashC ++ remote).

(** A runner's command is shorter than its own words. *)
Fixpoint unwrap_fuel (fuel : nat) (k : tokenized) : T (list Simple) :=
  match fuel with
  | O => exhausted
  | S fuel' =>
      let s := k_simple k in
      match s_Argv s with
      | [] => pure (if redirects s then [forget k] else [])
      | words =>
          let* (end_, st) := lift (strip (wordUnresolved is_lit s) words (start_unwrap s)) in
          let k := after_unwrap st k in
          let s := k_simple k in
          let chrooted := u_chrooted st in
          match end_ with
          | Watches rest => normalizeWatch s (k_state k) rest chrooted
          | Runs [] =>
              if negb (redirects s) && negb chrooted then pure []
              else pure [forget {| k_simple := with_words [] (s_Unresolved s || chrooted) s; k_origin := None; k_state := k_state k |}]
          | Runs argv =>
              let command := with_redirects (s_Redirects s) (s_ReadRedirects s) (forget (commandDerivedFrom k argv)) in
              let* inner := lift (runnerInner argv) in
              let k := match inner with Some _ => with_state (fs_changed (k_state k)) k | None => k end in
              let* nested := match inner with
                             | Some words => unwrap_fuel fuel' (commandDerivedFrom k words)
                             | None => pure []
                             end in
              let* shells := shells_of argv s (k_state k) in
              let result := command :: nested ++ shells in
              pure (if chrooted then map (with_unresolved true) result else result)
          end
      end
  end.

(** One more than the words of the command. *)
Definition stripAndUnwrap (k : tokenized) : T (list Simple) := unwrap_fuel (S (length (s_Argv (k_simple k)))) k.

(** ** The commands of a source *)

Definition replacementWithOuterMetadata (outer : Simple) (replacement : list Simple) : list Simple :=
  (if redirects outer
   then [redirections_only outer (redirectsUnresolved is_lit outer) (s_fsUncertain outer)] else []) ++
  map (fun inner => with_outer (s_Unresolved outer) (s_cwdUnknown outer) inner) replacement.

(** One command the tree gave: with the state of its call, then replaced or unwrapped;
    wrappers that are not understood leave it unknown. *)
Definition finish_one (recursive : gmap nat cwdState) (replacements : gmap nat (list Simple)) (k : tokenized)
    : T (list Simple) := fun next =>
  let id := option_map st_id (k_origin k) in
  let k := match id ≫= fun id => recursive !! id with Some c => with_call_state c k | None => k end in
  let k := if gitEnvironmentAssignmentUnknown QuoteMeta (k_origin k)
           then {| k_simple := with_git_unknown (k_simple k); k_origin := k_origin k; k_state := k_state k |} else k in
  match id ≫= fun id => replacements !! id with
  | Some replacement => Finished (Some (replacementWithOuterMetadata (k_simple k) replacement), next)
  | None =>
      run_bind (stripAndUnwrap k next) (fun '(r, next) =>
        Finished (Some (match r with Some expanded => expanded | None => [degraded (forget k)] end), next))
  end.

Fixpoint finish_all (recursive : gmap nat cwdState) (replacements : gmap nat (list Simple)) (l : list tokenized)
    : T (list Simple) :=
  match l with
  | [] => pure []
  | k :: rest =>
      let* out := finish_one recursive replacements k in
      let* more := finish_all recursive replacements rest in
      pure (out ++ more)
  end.
End Unwrapping.

(** ** A whole source *)

Definition inherit (stmts : list Stmt) (shadowed : gset string) (inherited : list (nat * nat)) (ps : positions) : positions :=
  foldl (fun ps position => mark_at position (markPipelineList QuoteMeta pattern_matches shadowed stmts).1 ps) ps inherited.

Fixpoint normalizeWithState (fuel : nat) (command : string) (state : cwdState) (loopDepth : nat) (fs : functions)
    (active : gset string) (inherited : list (nat * nat)) {struct fuel} : T normalizeResult := fun next =>
  match fuel with
  | O => OutOfFuel
  | S fuel' =>
      match Parse command with
      | None => Finished (None, next)
      | Some stmts =>
          let shadowed := shadowed_names QuoteMeta Parse (S (String.length command)) stmts ∪ shadowed_by fs in
          let '(pipelines, next) := pipelinePositions QuoteMeta pattern_matches shadowed map_order stmts next in
          let pipelines := inherit stmts shadowed inherited pipelines in
          run_bind
            (walk_list Parse QuoteMeta pattern_matches SplitBraces h (normalizeWithState fuel') command active pipelines
               loopDepth stmts state
               {| wk_states := ∅; wk_replacements := ∅; wk_recursive := ∅; wk_shadowed := shadowed;
                  wk_functions := fs; wk_nextPipelineID := next |})
            (fun '(outcome, w) =>
               run_bind (extractSimples Parse command stmts pipelines (Some (wk_states w)) (wk_replacements w))
                 (fun base =>
                    let nested source state inherited := normalizeWithState fuel' source state loopDepth ∅ ∅ inherited in
                    andThen (finish_all nested (wk_recursive w) (wk_replacements w) base)
                      (fun simples => pure {| r_simples := simples; r_outcome := outcome; r_functions := wk_functions w |})
                      (wk_nextPipelineID w)))
      end
  end.

(** ** The entry points *)

Context (getenv : string -> option string).

Definition osDirectoryVariables : list string := ["USERPROFILE"; "LOCALAPPDATA"; "APPDATA"; "TEMP"; "TMP"; "TMPDIR"].

Definition initial_variables (cwd : string) : gmap string string :=
  let pwd : gmap string string := if cwd <>s? "" then {["PWD" := cwd]} else ∅ in
  let home := match getenv "HOME" with Some value => <["HOME" := value]> pwd | None => pwd end in
  foldl (fun vars name => match getenv name with
                          | Some value => if IsAbs value then <[name := value]> vars else vars
                          | None => vars
                          end) home osDirectoryVariables.

Definition initial_state (cwd : string) (powerShell : bool) : cwdState :=
  {| c_cwd := cwd; c_unknown := false; c_fsUncertain := false; c_ifsUnknown := false;
     c_cdpath := default "" (getenv "CDPATH"); c_cdpathSet := bool_decide (is_Some (getenv "CDPATH")); c_cdpathUnknown := false;
     c_variables := initial_variables cwd; c_namerefs := ∅; c_assignmentAttributes := ∅; c_attributesUnknown := false;
     c_gitEnvironmentUnknown := false; c_powerShell := powerShell |}.

Definition normalizeWithContext (fuel : nat) (command cwd : string) (powerShell : bool) : run (option (list Simple)) :=
  run_bind (normalizeWithState fuel command (initial_state cwd powerShell) 0 ∅ ∅ [] 0)
    (fun '(r, _) => Finished (option_map r_simples r)).

Definition Normalize (fuel : nat) (command cwd : string) : run (option (list Simple)) := normalizeWithContext fuel command cwd false.

Definition normalizeToolCall (fuel : nat) (tc : ToolCall) : run (option (list Simple)) :=
  normalizeWithContext fuel (tc_Command tc) (tc_CWD tc) (PowerShellCommand tc).

(** [splitSimples]: the commands of a source that is not walked. *)
Definition splitSimples (src : string) : run (option (list Simple)) :=
  match Parse src with
  | None => Finished None
  | Some stmts =>
      let '(pipelines, _) :=
        pipelinePositions QuoteMeta pattern_matches (shadowed_names QuoteMeta Parse (S (String.length src)) stmts) map_order stmts 0 in
      run_bind (extractSimples Parse src stmts pipelines None ∅) (fun base => Finished (Some (map k_simple base)))
  end.
End Normalize.
