(* ===== verification/Fuel.v ===== *)
(** * The fuel of the tokenizer

    [Normalize] runs sources nested in sources on fuel. More fuel never changes an
    answer: a run that finished, or panicked, does the same with any greater amount, so
    what a line comes to does not depend on the fuel chosen. *)

From Stdlib Require Import ZArith Lia Bool.
From S2P Require Import Prelude GoStrings GoPath Policy Argv Engine Simple Wrappers NetRules Syntax StdoutFate ShellState ShellVars ShellCd StdinFlow FindActions WriteTargets Extract Walker WalkInvariant Normalize.

Open Scope string_scope.
Open Scope list_scope.

(** ** Approximation *)

(** The flat order on runs: out of fuel is below everything. *)
Definition at_most {A} (r r' : run A) : Prop := r = OutOfFuel \/ r = r'.

#[export] Instance at_most_order {A} : PreOrder (@at_most A).
Proof. split; [by right|]. intros a b c [-> | ->]; [by left|done]. Qed.

Lemma at_most_bind {A B} (r r' : run A) (k k' : A -> run B) :
  at_most r r' -> (forall a, at_most (k a) (k' a)) -> at_most (run_bind r k) (run_bind r' k').
Proof. intros [->| ->] Hk; [by left|]. destruct r'; cbn; [apply Hk|by right|by left]. Qed.

(** Of two ways to normalize a source, one knows no more than the other. *)
Definition normalizer : Type :=
  string -> cwdState -> nat -> functions -> gset string -> list (nat * nat) -> nat -> run (option normalizeResult * nat).

Definition approximates {A} (m m' : M A) : Prop := forall w, at_most (m w) (m' w).

#[local] Infix "≼" := approximates (at level 70).

#[export] Instance approximates_order {A} : PreOrder (@approximates A).
Proof. split; [by intros m w|]. intros a b c H1 H2 w. by transitivity (b w). Qed.

Lemma approx_bind {A B} (m m' : M A) (k k' : A -> M B) : m ≼ m' -> (forall a, k a ≼ k' a) -> bind m k ≼ bind m' k'.
Proof. intros Hm Hk w. apply at_most_bind; [apply Hm|]. intros [a w']. apply Hk. Qed.

Lemma approx_isolated {A} (m m' : M A) : m ≼ m' -> isolated m ≼ isolated m'.
Proof. intros Hm w. apply at_most_bind; [apply Hm|]. by intros [a w']. Qed.

Create HintDb approx discriminated.
#[local] Hint Resolve approx_isolated : approx.

(** What two walks share is decided alike; the rest goes step by step. *)
Ltac approx :=
  repeat first
    [ reflexivity
    | progress auto with approx nocore
    | apply approx_bind; [|intros ?]
    | match goal with |- approximates (match ?x with _ => _ end) _ => destruct x end
    | progress cbv zeta ].

Lemma approx_prior {A} b (m m' : M A) : m ≼ m' -> withFunctionEnvironmentAlternative b m ≼ withFunctionEnvironmentAlternative b m'.
Proof. intros Hm. unfold withFunctionEnvironmentAlternative. approx. Qed.

Lemma approx_and left (m m' : cwdState -> M cwdOutcome) : (forall s, m s ≼ m' s) -> and_paths left m ≼ and_paths left m'.
Proof. intros Hm. unfold and_paths. cbv zeta. destruct (o_canSuccess left); [|done]. apply approx_bind; [by apply approx_prior|done]. Qed.

Lemma approx_or left (m m' : cwdState -> M cwdOutcome) : (forall s, m s ≼ m' s) -> or_paths left m ≼ or_paths left m'.
Proof. intros Hm. unfold or_paths. cbv zeta. destruct (o_canFailure left); [|done]. apply approx_bind; [by apply approx_prior|done]. Qed.

Lemma approx_pipe (l l' r r' : cwdState -> M cwdOutcome) s : (forall s, l s ≼ l' s) -> (forall s, r s ≼ r' s) -> pipe_paths l r s ≼ pipe_paths l' r' s.
Proof. intros Hl Hr. unfold pipe_paths. approx. Qed.

Lemma approx_subshell (m m' : cwdState -> M cwdOutcome) s : (forall s, m s ≼ m' s) -> subshell_path m s ≼ subshell_path m' s.
Proof. intros Hm. unfold subshell_path. approx. Qed.

Lemma approx_if c truth ud (m m' : bool -> cwdState -> M cwdOutcome) e e' :
  (forall ud s, m ud s ≼ m' ud s) -> option_relation (fun f f' => forall ud s, f ud s ≼ f' ud s) (fun _ => False) (fun _ => False) e e' ->
  if_paths c truth ud m e ≼ if_paths c truth ud m' e'.
Proof.
  intros Hm He. unfold if_paths. cbv zeta. apply approx_bind; [approx|intros taken]. apply approx_bind; [|done].
  destruct (_ && _); [|done]. destruct e as [f|], e' as [f'|]; try done. apply approx_bind; [apply He|done].
Qed.

Lemma approx_while until cond (c c' b b' : cwdState -> M cwdOutcome) s :
  (forall s, c s ≼ c' s) -> (forall s, b s ≼ b' s) -> while_paths until cond c b s ≼ while_paths until cond c' b' s.
Proof. intros Hc Hb. unfold while_paths. approx. Qed.

Lemma approx_for QuoteMeta ud loop (b b' : bool -> cwdState -> M cwdOutcome) s :
  (forall ud s, b ud s ≼ b' ud s) -> for_paths QuoteMeta ud loop b s ≼ for_paths QuoteMeta ud loop b' s.
Proof. intros Hb. unfold for_paths. approx. Qed.

Lemma approx_statement id negation forked redirs (r r' : cwdState -> M bool) (c c' : cwdState -> M cwdOutcome) s :
  (forall s, r s ≼ r' s) -> (forall s, c s ≼ c' s) -> statement id negation forked redirs r c s ≼ statement id negation forked redirs r' c' s.
Proof. intros Hr Hc. unfold statement. approx. Qed.

Lemma approx_walk_all {A} (f f' : A -> cwdState -> M cwdOutcome) l s :
  Forall (fun a => forall s, f a s ≼ f' a s) l -> walk_all f l s ≼ walk_all f' l s.
Proof.
  intros Hl. unfold walk_all. generalize (successOutcome s). induction Hl as [|a l Ha _ IH]; intros out; [done|].
  apply approx_bind; [apply Ha|apply IH].
Qed.

Lemma approx_exp_all {A} (f f' : A -> cwdState -> bool -> M bool) l s u :
  Forall (fun a => forall s u, f a s u ≼ f' a s u) l -> exp_all f l s u ≼ exp_all f' l s u.
Proof.
  intros Hl. revert u. induction Hl as [|a l Ha _ IH]; intros u; [done|]. apply approx_bind; [apply Ha|apply IH].
Qed.

Lemma approx_exp_opt {A} (f f' : A -> cwdState -> bool -> M bool) o s u :
  from_option (fun a => forall s u, f a s u ≼ f' a s u) True o -> exp_opt f o s u ≼ exp_opt f' o s u.
Proof. intros Ho. destruct o; [apply Ho|done]. Qed.

Lemma approx_static_items (l l' : list (cwdState -> M cwdOutcome)) s :
  Forall2 (fun m m' => forall s, m s ≼ m' s) l l' -> static_items l s ≼ static_items l' s.
Proof. intros Hl. revert s. induction Hl as [|m m' l l' Hm _ IH]; intros s; [done|]. apply approx_bind; [apply Hm|intros out; apply IH]. Qed.

Lemma approx_possible_items {A} (f f' : A -> cwdState -> M cwdOutcome) l s exits :
  Forall (fun a => forall s, f a s ≼ f' a s) l -> possible_items f s l exits ≼ possible_items f' s l exits.
Proof. intros Hl. revert exits. induction Hl as [|a l Ha _ IH]; intros exits; [done|]. apply approx_bind; [apply Ha|intros out; apply IH]. Qed.

(** The items of a [case] that run are the same ones. *)
Lemma static_execution_approx (l l' : list (CaseOperator * (cwdState -> M cwdOutcome))) :
  Forall2 (fun a b => a.1 = b.1 /\ forall s, a.2 s ≼ b.2 s) l l' -> forall testing ms,
  Forall2 (fun m m' => forall s, m s ≼ m' s)
    (staticCaseExecution testing (zip_with (fun m '(op, walk) => (op, m, walk)) ms l))
    (staticCaseExecution testing (zip_with (fun m '(op, walk) => (op, m, walk)) ms l')).
Proof.
  induction 1 as [|[op walk] [op' walk'] l l' [Hop Hw] _ IH]; intros testing [|m ms]; cbn [zip_with staticCaseExecution]; try constructor.
  cbn [fst] in Hop. subst op'. destruct (testing && negb m); [apply IH|]. constructor; [exact Hw|]. destruct op; [constructor|apply IH..].
Qed.

(** ** A walk under two normalizers *)

Section Walks.
Context (Parse : string -> option (list Stmt)) (QuoteMeta : string -> string)
  (pattern_matches : string -> string -> option bool) (SplitBraces : Word -> bool) (h : CdHost).
Context (n1 n2 : normalizer).
Context (less : forall source s depth fs running inherited next,
  at_most (n1 source s depth fs running inherited next) (n2 source s depth fs running inherited next)).
Context (src : string) (active : gset string) (pipelines : positions).

Lemma nested_approx source s depth fs running id : nested n1 pipelines source s depth fs running id ≼ nested n2 pipelines source s depth fs running id.
Proof. intros w. apply at_most_bind; [apply less|]. by intros [r next]. Qed.

#[local] Hint Resolve nested_approx : approx.

Lemma eval_approx id depth ud simple argv s : eval n1 active pipelines id depth ud simple argv s ≼ eval n2 active pipelines id depth ud simple argv s.
Proof. unfold eval. approx. Qed.

Lemma bodies_approx id depth running base s bodies :
  run_bodies n1 pipelines id depth running base s bodies ≼ run_bodies n2 pipelines id depth running base s bodies.
Proof. induction bodies as [|source rest IH]; cbn [run_bodies]; approx. Qed.

#[local] Hint Resolve eval_approx bodies_approx : approx.

Lemma function_approx id depth ud simple name set s :
  functionCall n1 active pipelines id depth ud simple name set s ≼ functionCall n2 active pipelines id depth ud simple name set s.
Proof. unfold functionCall. approx. Qed.

#[local] Hint Resolve function_approx : approx.

Lemma call_approx stmt depth ud assigns args s :
  call Parse QuoteMeta h n1 src active pipelines stmt depth ud assigns args s ≼ call Parse QuoteMeta h n2 src active pipelines stmt depth ud assigns args s.
Proof. unfold call. destruct args; [done|]. cbv zeta. approx. Qed.

Lemma items_approx id depth base name body s items : forall simples alternatives mutated,
  run_items Parse n1 active pipelines id depth base name body s items simples alternatives mutated ≼
  run_items Parse n2 active pipelines id depth base name body s items simples alternatives mutated.
Proof. induction items as [|i items IH]; intros simples alternatives mutated; cbn [run_items]; approx. Qed.

#[local] Hint Resolve items_approx : approx.

Lemma enumerate_approx id depth ud body name items s :
  enumerateStaticFor Parse n1 src active pipelines id depth ud body name items s ≼
  enumerateStaticFor Parse n2 src active pipelines id depth ud body name items s.
Proof. unfold enumerateStaticFor. approx. Qed.

#[local] Notation walk_stmt n := (walk_stmt Parse QuoteMeta pattern_matches SplitBraces h n src active pipelines).
#[local] Notation walk_if n := (walk_if Parse QuoteMeta pattern_matches SplitBraces h n src active pipelines).
#[local] Notation walk_item n := (walk_item Parse QuoteMeta pattern_matches SplitBraces h n src active pipelines).
#[local] Notation exp_stmt n := (exp_stmt Parse QuoteMeta pattern_matches SplitBraces h n src active pipelines).
#[local] Notation exp_if n := (exp_if Parse QuoteMeta pattern_matches SplitBraces h n src active pipelines).
#[local] Notation exp_item n := (exp_item Parse QuoteMeta pattern_matches SplitBraces h n src active pipelines).
#[local] Notation exp_patterns n := (exp_patterns Parse QuoteMeta pattern_matches SplitBraces h n src active pipelines).
#[local] Notation exp_command n := (exp_command Parse QuoteMeta pattern_matches SplitBraces h n src active pipelines).
#[local] Notation exp_loop n := (exp_loop Parse QuoteMeta pattern_matches SplitBraces h n src active pipelines).
#[local] Notation exp_redirect n := (exp_redirect Parse QuoteMeta pattern_matches SplitBraces h n src active pipelines).
#[local] Notation exp_any_redirect n := (exp_any_redirect Parse QuoteMeta pattern_matches SplitBraces h n src active pipelines).
#[local] Notation exp_assign n := (exp_assign Parse QuoteMeta pattern_matches SplitBraces h n src active pipelines).
#[local] Notation exp_elem n := (exp_elem Parse QuoteMeta pattern_matches SplitBraces h n src active pipelines).
#[local] Notation exp_word n := (exp_word Parse QuoteMeta pattern_matches SplitBraces h n src active pipelines).
#[local] Notation exp_part n := (exp_part Parse QuoteMeta pattern_matches SplitBraces h n src active pipelines).
#[local] Notation exp_parameter n := (exp_parameter Parse QuoteMeta pattern_matches SplitBraces h n src active pipelines).
#[local] Notation exp_expansion n := (exp_expansion Parse QuoteMeta pattern_matches SplitBraces h n src active pipelines).
#[local] Notation exp_expr n := (exp_expr Parse QuoteMeta pattern_matches SplitBraces h n src active pipelines).

(** Walking a node, and walking its expansions, under either normalizer. *)
Definition walks_less {A} (f : normalizer -> nat -> bool -> A -> cwdState -> M cwdOutcome) (a : A) : Prop :=
  forall depth ud s, f n1 depth ud a s ≼ f n2 depth ud a s.
Definition expands_less {A} (f : normalizer -> nat -> bool -> A -> cwdState -> bool -> M bool) (a : A) : Prop :=
  forall depth ud s u, f n1 depth ud a s u ≼ f n2 depth ud a s u.

Definition stmt_less (s : Stmt) : Prop := walks_less (fun n => walk_stmt n) s /\ expands_less (fun n => exp_stmt n) s.
Definition if_less (c : IfClause) : Prop := walks_less (fun n => walk_if n) c /\ expands_less (fun n => exp_if n) c.
Definition item_less (i : CaseItem) : Prop :=
  walks_less (fun n depth ud i => (walk_item n depth ud i).2) i /\ expands_less (fun n => exp_item n) i /\
  (forall depth ud s, exp_patterns n1 depth ud i s ≼ exp_patterns n2 depth ud i s).
Definition loop_less : Loop -> Prop := expands_less (fun n => exp_loop n).
Definition redirect_less (r : Redirect) : Prop := expands_less (fun n => exp_redirect n) r /\ expands_less (fun n => exp_any_redirect n) r.
Definition assign_less : Assign -> Prop := expands_less (fun n => exp_assign n).
Definition elem_less : ArrayElem -> Prop := expands_less (fun n => exp_elem n).
Definition word_less : Word -> Prop := expands_less (fun n => exp_word n).
Definition part_less : WordPart -> Prop := expands_less (fun n => exp_part n).
Definition parameter_less : Parameter_ -> Prop := expands_less (fun n => exp_parameter n).
Definition expansion_less : Expansion -> Prop := expands_less (fun n => exp_expansion n).
Definition expr_less : Expr -> Prop := expands_less (fun n => exp_expr n).

Lemma all_expand {A} (f : normalizer -> nat -> bool -> A -> cwdState -> bool -> M bool) l depth ud s u :
  Forall (expands_less f) l -> exp_all (f n1 depth ud) l s u ≼ exp_all (f n2 depth ud) l s u.
Proof. intros Hl. apply approx_exp_all. eapply Forall_impl; [exact Hl|]. intros a Ha s' u'. apply Ha. Qed.

Lemma opt_expand {A} (f : normalizer -> nat -> bool -> A -> cwdState -> bool -> M bool) o depth ud s u :
  from_option (expands_less f) True o -> exp_opt (f n1 depth ud) o s u ≼ exp_opt (f n2 depth ud) o s u.
Proof. intros Ho. apply approx_exp_opt. destruct o as [a|]; [intros s' u'; apply Ho|done]. Qed.

Lemma all_walk depth ud l s : Forall stmt_less l -> walk_all (walk_stmt n1 depth ud) l s ≼ walk_all (walk_stmt n2 depth ud) l s.
Proof. intros Hl. apply approx_walk_all. eapply Forall_impl; [exact Hl|]. intros a [Ha _] s'. apply Ha. Qed.

Lemma stmts_expand_less l depth ud s u : Forall stmt_less l -> exp_all (exp_stmt n1 depth ud) l s u ≼ exp_all (exp_stmt n2 depth ud) l s u.
Proof. intros Hl. apply (all_expand (fun n => exp_stmt n)). eapply Forall_impl; [exact Hl|]. by intros a []. Qed.

(** One step into a node: a list or an option of its parts, or the part itself. *)
Ltac part_step :=
  match goal with
  | H : Forall stmt_less ?l |- walk_all _ ?l _ ≼ _ => exact (all_walk _ _ l _ H)
  | H : Forall stmt_less ?l |- exp_all _ ?l _ _ ≼ _ => exact (stmts_expand_less l _ _ _ _ H)
  | H : Forall word_less ?l |- exp_all _ ?l _ _ ≼ _ => exact (all_expand (fun n => exp_word n) l _ _ _ _ H)
  | H : Forall part_less ?l |- exp_all _ ?l _ _ ≼ _ => exact (all_expand (fun n => exp_part n) l _ _ _ _ H)
  | H : Forall expr_less ?l |- exp_all _ ?l _ _ ≼ _ => exact (all_expand (fun n => exp_expr n) l _ _ _ _ H)
  | H : Forall assign_less ?l |- exp_all _ ?l _ _ ≼ _ => exact (all_expand (fun n => exp_assign n) l _ _ _ _ H)
  | H : Forall elem_less ?l |- exp_all _ ?l _ _ ≼ _ => exact (all_expand (fun n => exp_elem n) l _ _ _ _ H)
  | H : from_option word_less True ?o |- exp_opt _ ?o _ _ ≼ _ => exact (opt_expand (fun n => exp_word n) o _ _ _ _ H)
  | H : from_option expr_less True ?o |- exp_opt _ ?o _ _ ≼ _ => exact (opt_expand (fun n => exp_expr n) o _ _ _ _ H)
  | H : from_option expansion_less True ?o |- exp_opt _ ?o _ _ ≼ _ => exact (opt_expand (fun n => exp_expansion n) o _ _ _ _ H)
  | H : expands_less _ ?a |- _ ≼ _ => apply H
  | H : walks_less _ ?a |- _ ≼ _ => apply H
  end.

Ltac open_node :=
  cbn [Walker.walk_if Walker.walk_item Walker.exp_stmt Walker.exp_if Walker.exp_item Walker.exp_patterns Walker.exp_command
       Walker.exp_loop Walker.exp_redirect Walker.exp_any_redirect Walker.exp_assign Walker.exp_elem Walker.exp_word
       Walker.exp_part Walker.exp_parameter Walker.exp_expansion Walker.exp_expr].
Ltac step_parts := repeat first [done | part_step | apply approx_bind; [|intros ?]].
Ltac node := intros depth ud s u; open_node; step_parts.

Lemma word_less_case a b ps : Forall part_less ps -> word_less (MkWord a b ps).
Proof. intros H. node. Qed.

Lemma substitution_less_case (u : bool) depth ud stmts s :
  Forall stmt_less stmts ->
  (if u then ret true
   else bind (isolated (walk_all (walk_stmt n1 depth ud) stmts s)) (fun out => ret (hasFilesystemUncertainty out))) ≼
  (if u then ret true
   else bind (isolated (walk_all (walk_stmt n2 depth ud) stmts s)) (fun out => ret (hasFilesystemUncertainty out))).
Proof. intros H. destruct u; [done|]. apply approx_bind; [apply approx_isolated; part_step|done]. Qed.

Lemma part_less_case p :
  match p with
  | CmdSubst _ stmts | ProcSubst _ _ stmts => Forall stmt_less stmts
  | DblQuoted _ ps => Forall part_less ps
  | ParamExp p => parameter_less p
  | ArithmExp x => expr_less x
  | _ => True
  end -> part_less p.
Proof. intros H. destruct p; node; by apply substitution_less_case. Qed.

Lemma parameter_less_case excl len width param index slice repl names exp :
  from_option expr_less True index -> from_option (Forall expr_less) True slice -> from_option (Forall word_less) True repl ->
  from_option expansion_less True exp -> parameter_less (MkParameter excl len width param index slice repl names exp).
Proof. intros Hi Hs Hr He. node; [destruct slice|destruct repl]; cbn [exp_opt from_option] in *; step_parts. Qed.

Lemma expansion_less_case op w : from_option word_less True w -> expansion_less (MkExpansion op w).
Proof. intros H. node. Qed.

Lemma expr_word_less_case w : word_less w -> expr_less (ExprWord w).
Proof. intros H. node. Qed.

Lemma expr_node_less_case xs : Forall expr_less xs -> expr_less (ExprNode xs).
Proof. intros H. node. Qed.

Lemma elem_less_case index value : from_option expr_less True index -> from_option word_less True value -> elem_less (MkArrayElem index value).
Proof. intros Hi Hv. node. Qed.

Lemma assign_less_case naked append name index value array :
  from_option expr_less True index -> from_option word_less True value -> from_option (Forall elem_less) True array ->
  assign_less (MkAssign naked append name index value array).
Proof. intros Hi Hv Ha. node. destruct array; cbn [exp_opt from_option] in *; step_parts. Qed.

Lemma redirect_less_case op n w hdoc :
  from_option word_less True w -> from_option word_less True hdoc -> redirect_less (MkRedirect op n w hdoc).
Proof. intros Hw Hh. split; node. destruct w; [|done]. destruct u; [done|]. apply Hw. Qed.

Lemma words_less_case name inPos items : Forall word_less items -> loop_less (WordIter name inPos items).
Proof. intros H. node. Qed.

Lemma style_less_case init cond post :
  from_option expr_less True init -> from_option expr_less True cond -> from_option expr_less True post -> loop_less (CStyleLoop init cond post).
Proof. intros Hi Hc Hp. node. Qed.

Lemma if_less_case pos cond body orelse :
  Forall stmt_less cond -> Forall stmt_less body -> from_option if_less True orelse -> if_less (MkIf pos cond body orelse).
Proof.
  intros Hc Hb Ho. split.
  - intros depth ud s. open_node. destruct (negb pos); [part_step|]. apply approx_bind; [part_step|intros condition].
    apply approx_bind; [done|intros shadowed]. apply approx_if; [intros; part_step|]. destruct orelse as [e|]; [|done].
    intros ud' s'. apply Ho.
  - node. apply (opt_expand (fun n => exp_if n)). destruct orelse; [apply Ho|done].
Qed.

Lemma item_less_case op patterns stmts : Forall word_less patterns -> Forall stmt_less stmts -> item_less (MkCaseItem op patterns stmts).
Proof.
  intros Hp Hs. split_and!; [intros depth ud s; exact (all_walk depth ud stmts s Hs)|node|].
  intros depth ud s. open_node. apply approx_exp_all. eapply Forall_impl; [exact Hp|]. intros w Hw s' u'. apply Hw.
Qed.

(** A command, walked as the command of a statement, and its expansions. *)
Lemma statement_less_case loc cmd negation background coprocess semicolon redirs :
  Forall redirect_less redirs -> from_option (expands_less (fun n => exp_command n)) True cmd ->
  (forall depth ud s, exists c1 c2, (forall s, c1 s ≼ c2 s) /\
     let run n c := statement (at_id loc) negation (background || coprocess) redirs
                    (fun s => exp_all (exp_redirect n depth ud) redirs s false) c
                    (applyExpansionVariableEffects (MkStmt loc cmd negation background coprocess semicolon redirs) s) in
     let whole m := match cmd with
       | Some (FuncDecl name body) =>
           if background || coprocess then m
           else bind (defineFunction name (slice src (st_Pos body) (st_End body)) (ud || c_unknown s)) (fun _ => ret (successOutcome s))
       | _ => m
       end in
     walk_stmt n1 depth ud (MkStmt loc cmd negation background coprocess semicolon redirs) s = whole (run n1 c1) /\
     walk_stmt n2 depth ud (MkStmt loc cmd negation background coprocess semicolon redirs) s = whole (run n2 c2)) ->
  stmt_less (MkStmt loc cmd negation background coprocess semicolon redirs).
Proof.
  intros Hr Hexp Hcmd. split.
  - intros depth ud s. cbv beta. destruct (Hcmd depth ud s) as (c1 & c2 & Hc & H). cbv zeta in H. destruct H as [-> ->].
    assert (Hrun : forall s', statement (at_id loc) negation (background || coprocess) redirs
       (fun s => exp_all (exp_redirect n1 depth ud) redirs s false) c1 s' ≼
       statement (at_id loc) negation (background || coprocess) redirs
       (fun s => exp_all (exp_redirect n2 depth ud) redirs s false) c2 s').
    { intros s'. apply approx_statement; [|done]. intros t. apply (all_expand (fun n => exp_redirect n)).
      eapply Forall_impl; [exact Hr|]. by intros r []. }
    destruct cmd as [[]|]; try apply Hrun. destruct (background || coprocess); [apply Hrun|done].
  - intros depth ud s u. open_node. apply approx_bind; [by apply (opt_expand (fun n => exp_command n))|]. intros v.
    apply (all_expand (fun n => exp_any_redirect n)). eapply Forall_impl; [exact Hr|]. by intros r [].
Qed.

(** The command of a statement whose walk is known. *)
Ltac command_of :=
  apply statement_less_case; [assumption | cbn [from_option]; try (node; fail) |
    intros depth ud s; refine (ex_intro _ _ (ex_intro _ _ (conj _ (conj eq_refl eq_refl)))); intros s'; cbv beta].

Section Statement.
Context (loc : StmtAt) (negation background coprocess semicolon : bool) (redirs : list Redirect)
  (Hredirs : Forall redirect_less redirs).

#[local] Notation stmt_of cmd := (MkStmt loc cmd negation background coprocess semicolon redirs).

Lemma empty_less_case : stmt_less (stmt_of None).
Proof. command_of; [done|]. done. Qed.

Lemma call_less_case assigns args : Forall assign_less assigns -> Forall word_less args -> stmt_less (stmt_of (Some (CallExpr assigns args))).
Proof.
  intros Ha Hw. command_of. apply approx_bind; [by apply (all_expand (fun n => exp_assign n))|]. intros v.
  apply approx_bind; [by apply (all_expand (fun n => exp_word n))|]. intros v'. apply call_approx.
Qed.

Lemma if_command_less_case clause : if_less clause -> stmt_less (stmt_of (Some (IfCmd clause))).
Proof. intros [Hw He]. command_of. apply Hw. Qed.

Lemma while_less_case until cond body :
  Forall stmt_less cond -> Forall stmt_less body -> stmt_less (stmt_of (Some (WhileClause until cond body))).
Proof. intros Hc Hb. command_of. apply approx_while; intros t; by apply all_walk. Qed.

Lemma for_less_case select loop body : loop_less loop -> Forall stmt_less body -> stmt_less (stmt_of (Some (ForClause select loop body))).
Proof.
  intros Hl Hb. command_of. apply approx_bind; [apply Hl|]. intros v. cbv zeta.
  assert (Hfor : for_paths QuoteMeta ud loop (fun ud => walk_all (walk_stmt n1 (S depth) ud) body) (fs_when v s') ≼
                 for_paths QuoteMeta ud loop (fun ud => walk_all (walk_stmt n2 (S depth) ud) body) (fs_when v s')).
  { apply approx_for. intros ud' t. by apply all_walk. }
  destruct (if (depth =? 0)%nat && negb (forClauseContainsLoop body) then staticForItems QuoteMeta SplitBraces loop else None) as [items|]; [|exact Hfor].
  destruct (staticForIterator loop (fs_when v s')); [apply enumerate_approx|exact Hfor].
Qed.

Lemma case_less_case word items : word_less word -> Forall item_less items -> stmt_less (stmt_of (Some (CaseClause word items))).
Proof.
  intros Hw Hi. command_of.
  - node. apply (all_expand (fun n => exp_item n)). eapply Forall_impl; [exact Hi|]. by intros i (? & ? & ?).
  - apply approx_bind; [apply Hw|]. intros v. cbv zeta.
    destruct (static_matches QuoteMeta pattern_matches word items) as [ms|].
    + apply approx_static_items.
      apply (static_execution_approx (map (walk_item n1 depth ud) items) (map (walk_item n2 depth ud) items)).
      clear -Hi. induction Hi as [|i l Hi _ IH]; cbn [map]; constructor; [|exact IH]. destruct Hi as [Hwalk _].
      split; [by destruct i|]. intros t. exact (Hwalk depth ud t).
    + apply (approx_possible_items
        (fun item s => bind (exp_patterns n1 depth ud item s) (fun _ => (walk_item n1 depth true item).2 s))
        (fun item s => bind (exp_patterns n2 depth ud item s) (fun _ => (walk_item n2 depth true item).2 s))).
      eapply Forall_impl; [exact Hi|]. intros i (Hwalk & _ & Hp) t. apply approx_bind; [apply Hp|]. intros _. apply Hwalk.
Qed.

Lemma block_less_case stmts : Forall stmt_less stmts -> stmt_less (stmt_of (Some (Block stmts))).
Proof. intros H. command_of. by apply all_walk. Qed.

Lemma subshell_less_case stmts : Forall stmt_less stmts -> stmt_less (stmt_of (Some (Subshell stmts))).
Proof. intros H. command_of. apply approx_subshell. intros t. by apply all_walk. Qed.

Lemma binary_less_case op x y : stmt_less x -> stmt_less y -> stmt_less (stmt_of (Some (BinaryCmd op x y))).
Proof.
  intros [Hx Ex] [Hy Ey]. command_of. destruct op;
    [apply approx_bind; [apply Hx|intros lhs; apply approx_and, Hy]|apply approx_bind; [apply Hx|intros lhs; apply approx_or, Hy]
    |apply approx_pipe; [apply Hx|apply Hy]..].
Qed.

Lemma function_less_case name body : stmt_less body -> stmt_less (stmt_of (Some (FuncDecl name body))).
Proof. intros [Hb Eb]. command_of. apply approx_bind; [apply approx_isolated, Hb|done]. Qed.

Lemma expression_less_case x :
  expr_less x -> stmt_less (stmt_of (Some (ArithmCmd x))) /\ stmt_less (stmt_of (Some (TestClause x))).
Proof. intros Hx. split; command_of; (apply approx_bind; [apply Hx|done]). Qed.

Lemma declaration_less_case variant args : Forall assign_less args -> stmt_less (stmt_of (Some (DeclClause variant args))).
Proof. intros Hv. command_of. apply approx_bind; [by apply (all_expand (fun n => exp_assign n))|done]. Qed.

Lemma let_less_case exprs : Forall expr_less exprs -> stmt_less (stmt_of (Some (LetClause exprs))).
Proof. intros Hv. command_of. apply approx_bind; [by apply (all_expand (fun n => exp_expr n))|done]. Qed.

Lemma time_less_case t : from_option stmt_less True t -> stmt_less (stmt_of (Some (TimeClause t))).
Proof.
  intros Ht. command_of; [node|].
  - apply (opt_expand (fun n => exp_stmt n)). destruct t; [apply Ht|done].
  - destruct t as [t|]; [apply Ht|done].
Qed.

Lemma coproc_less_case t : from_option stmt_less True t -> stmt_less (stmt_of (Some (CoprocClause t))).
Proof.
  intros Ht. assert (He : from_option (expands_less (fun n => exp_stmt n)) True t) by (destruct t; [apply Ht|done]).
  command_of; [node; by apply (opt_expand (fun n => exp_stmt n))|].
  apply approx_bind; [by apply (opt_expand (fun n => exp_stmt n))|done].
Qed.
End Statement.

(** ** Every tree *)

Fixpoint less_stmt (s : Stmt) {struct s} : stmt_less s :=
  match s with
  | MkStmt loc cmd n b c sc redirs =>
      let Hr := Forall_all redirect_less less_redirect redirs in
      match cmd with
      | None => empty_less_case loc n b c sc redirs Hr
      | Some (CallExpr assigns args) =>
          call_less_case loc n b c sc redirs Hr assigns args (Forall_all assign_less less_assign assigns) (Forall_all word_less less_word args)
      | Some (IfCmd clause) => if_command_less_case loc n b c sc redirs Hr clause (less_if clause)
      | Some (WhileClause until cond body) =>
          while_less_case loc n b c sc redirs Hr until cond body (Forall_all stmt_less less_stmt cond) (Forall_all stmt_less less_stmt body)
      | Some (ForClause select loop body) =>
          for_less_case loc n b c sc redirs Hr select loop body (less_loop loop) (Forall_all stmt_less less_stmt body)
      | Some (CaseClause word items) =>
          case_less_case loc n b c sc redirs Hr word items (less_word word) (Forall_all item_less less_item items)
      | Some (Block stmts) => block_less_case loc n b c sc redirs Hr stmts (Forall_all stmt_less less_stmt stmts)
      | Some (Subshell stmts) => subshell_less_case loc n b c sc redirs Hr stmts (Forall_all stmt_less less_stmt stmts)
      | Some (BinaryCmd op x y) => binary_less_case loc n b c sc redirs Hr op x y (less_stmt x) (less_stmt y)
      | Some (FuncDecl name body) => function_less_case loc n b c sc redirs Hr name body (less_stmt body)
      | Some (ArithmCmd x) => proj1 (expression_less_case loc n b c sc redirs Hr x (less_expr x))
      | Some (TestClause x) => proj2 (expression_less_case loc n b c sc redirs Hr x (less_expr x))
      | Some (DeclClause variant args) =>
          declaration_less_case loc n b c sc redirs Hr variant args (Forall_all assign_less less_assign args)
      | Some (LetClause exprs) => let_less_case loc n b c sc redirs Hr exprs (Forall_all expr_less less_expr exprs)
      | Some (TimeClause t) => time_less_case loc n b c sc redirs Hr t (option_all stmt_less less_stmt t)
      | Some (CoprocClause t) => coproc_less_case loc n b c sc redirs Hr t (option_all stmt_less less_stmt t)
      end
  end
with less_if (c : IfClause) {struct c} : if_less c :=
  match c with
  | MkIf pos cond body orelse =>
      if_less_case pos cond body orelse (Forall_all stmt_less less_stmt cond) (Forall_all stmt_less less_stmt body)
        (option_all if_less less_if orelse)
  end
with less_item (i : CaseItem) {struct i} : item_less i :=
  match i with
  | MkCaseItem op patterns stmts =>
      item_less_case op patterns stmts (Forall_all word_less less_word patterns) (Forall_all stmt_less less_stmt stmts)
  end
with less_loop (l : Loop) {struct l} : loop_less l :=
  match l with
  | WordIter name inPos items => words_less_case name inPos items (Forall_all word_less less_word items)
  | CStyleLoop init cond post =>
      style_less_case init cond post (option_all expr_less less_expr init) (option_all expr_less less_expr cond)
        (option_all expr_less less_expr post)
  end
with less_redirect (r : Redirect) {struct r} : redirect_less r :=
  match r with
  | MkRedirect op n w hdoc => redirect_less_case op n w hdoc (option_all word_less less_word w) (option_all word_less less_word hdoc)
  end
with less_assign (a : Assign) {struct a} : assign_less a :=
  match a with
  | MkAssign naked append name index value array =>
      assign_less_case naked append name index value array (option_all expr_less less_expr index) (option_all word_less less_word value)
        (option_all (Forall elem_less) (Forall_all elem_less less_elem) array)
  end
with less_elem (e : ArrayElem) {struct e} : elem_less e :=
  match e with
  | MkArrayElem index value => elem_less_case index value (option_all expr_less less_expr index) (option_all word_less less_word value)
  end
with less_word (w : Word) {struct w} : word_less w :=
  match w with MkWord a b ps => word_less_case a b ps (Forall_all part_less less_part ps) end
with less_part (p : WordPart) {struct p} : part_less p :=
  match p with
  | CmdSubst offset stmts => part_less_case (CmdSubst offset stmts) (Forall_all stmt_less less_stmt stmts)
  | ProcSubst offset op stmts => part_less_case (ProcSubst offset op stmts) (Forall_all stmt_less less_stmt stmts)
  | DblQuoted dollar ps => part_less_case (DblQuoted dollar ps) (Forall_all part_less less_part ps)
  | ParamExp p => part_less_case (ParamExp p) (less_parameter p)
  | ArithmExp x => part_less_case (ArithmExp x) (less_expr x)
  | Lit v => part_less_case (Lit v) I
  | SglQuoted d v => part_less_case (SglQuoted d v) I
  | ExtGlob v => part_less_case (ExtGlob v) I
  end
with less_parameter (p : Parameter_) {struct p} : parameter_less p :=
  match p with
  | MkParameter excl len width param index slice repl names exp =>
      parameter_less_case excl len width param index slice repl names exp (option_all expr_less less_expr index)
        (option_all (Forall expr_less) (Forall_all expr_less less_expr) slice)
        (option_all (Forall word_less) (Forall_all word_less less_word) repl) (option_all expansion_less less_expansion exp)
  end
with less_expansion (e : Expansion) {struct e} : expansion_less e :=
  match e with MkExpansion op w => expansion_less_case op w (option_all word_less less_word w) end
with less_expr (x : Expr) {struct x} : expr_less x :=
  match x with
  | ExprWord w => expr_word_less_case w (less_word w)
  | ExprNode xs => expr_node_less_case xs (Forall_all expr_less less_expr xs)
  end.

Lemma walk_list_approx depth stmts s :
  walk_list Parse QuoteMeta pattern_matches SplitBraces h n1 src active pipelines depth stmts s ≼
  walk_list Parse QuoteMeta pattern_matches SplitBraces h n2 src active pipelines depth stmts s.
Proof. apply all_walk, Forall_all, less_stmt. Qed.
End Walks.

(** ** Sources in sources *)

Section Sources.
Context (Parse : string -> option (list Stmt)) (QuoteMeta : string -> string)
  (pattern_matches : string -> string -> option bool) (SplitBraces : Word -> bool) (h : CdHost)
  (map_order : list Stmt -> list Stmt) (url_Parse : string -> option URL) (ParseIP : string -> option string).

#[local] Notation normalizeWithState := (normalizeWithState Parse QuoteMeta pattern_matches SplitBraces h map_order url_Parse ParseIP).

(** Calls that share the counter of pipes, under either normalizer. *)
Definition counted {A} (m m' : T A) : Prop := forall n, at_most (m n) (m' n).

#[local] Infix "⊴" := counted (at level 70).

#[export] Instance counted_order {A} : PreOrder (@counted A).
Proof. split; [by intros m n|]. intros a b c H1 H2 n. by transitivity (b n). Qed.

Lemma counted_then {A B} (m m' : T A) (k k' : A -> T B) : m ⊴ m' -> (forall a, k a ⊴ k' a) -> andThen m k ⊴ andThen m' k'.
Proof. intros Hm Hk n. apply at_most_bind; [apply Hm|]. intros [[a|] n']; [apply Hk|done]. Qed.

#[local] Notation is_lit := (is_literal Parse).

Section Unwrapping.
Context (f f' : string -> cwdState -> list (nat * nat) -> T normalizeResult) (less : forall source s inherited, f source s inherited ⊴ f' source s inherited).

Ltac counted :=
  repeat first
    [ reflexivity
    | progress auto with nocore
    | apply counted_then; [|intros ?]
    | match goal with |- counted (match ?x with _ => _ end) _ => destruct x end
    | progress cbv zeta ].

Lemma dash_c_counted source s inherited : normalizeShellDashC f source s inherited ⊴ normalizeShellDashC f' source s inherited.
Proof. unfold normalizeShellDashC. counted. Qed.

Lemma shell_counted source s outer xtrace : shell_source f source s outer xtrace ⊴ shell_source f' source s outer xtrace.
Proof. unfold shell_source. apply counted_then; [apply dash_c_counted|done]. Qed.

Lemma remote_counted sources s outer : remote_sources f sources s outer ⊴ remote_sources f' sources s outer.
Proof. induction sources as [|source rest IH]; cbn [remote_sources]; [done|]. apply counted_then; [apply shell_counted|intros inner]. counted. Qed.

Lemma watch_counted outer s argv unresolved : normalizeWatch Parse f outer s argv unresolved ⊴ normalizeWatch Parse f' outer s argv unresolved.
Proof. unfold normalizeWatch. counted. Qed.

Lemma shells_counted argv s state : shells_of url_Parse ParseIP f argv s state ⊴ shells_of url_Parse ParseIP f' argv s state.
Proof.
  unfold shells_of. cbv zeta. apply counted_then; [done|intros dashC].
  apply counted_then; [destruct dashC; [apply shell_counted|done]|intros shell].
  apply counted_then; [destruct (cmdSlashC argv); [apply shell_counted|done]|intros slashC].
  apply counted_then; [done|intros sources]. apply counted_then; [apply remote_counted|done].
Qed.

Lemma unwrap_counted fuel : forall k, unwrap_fuel Parse url_Parse ParseIP f fuel k ⊴ unwrap_fuel Parse url_Parse ParseIP f' fuel k.
Proof.
  induction fuel as [|fuel IH]; intros k; cbn [unwrap_fuel]; [done|]. destruct (s_Argv (k_simple k)); [done|]. cbv zeta.
  apply counted_then; [done|]. intros [end_ st]. destruct end_ as [[|word words]|rest]; [done| |apply watch_counted].
  apply counted_then; [done|intros inner]. apply counted_then; [destruct inner; [apply IH|done]|intros nested].
  apply counted_then; [apply shells_counted|done].
Qed.

Lemma finish_counted recursive replacements l :
  finish_all Parse QuoteMeta url_Parse ParseIP f recursive replacements l ⊴
  finish_all Parse QuoteMeta url_Parse ParseIP f' recursive replacements l.
Proof.
  induction l as [|k l IH]; cbn [finish_all]; [done|]. apply counted_then; [|intros out; apply counted_then; [exact IH|done]].
  intros n. unfold finish_one. cbv zeta. set (k' := if gitEnvironmentAssignmentUnknown _ _ then _ else _). clearbody k'.
  destruct (_ ≫= _); [done|]. apply at_most_bind; [apply unwrap_counted|done].
Qed.
End Unwrapping.

Lemma normalize_unfold fuel command state depth fs active inherited next :
  normalizeWithState (S fuel) command state depth fs active inherited next =
  match Parse command with
  | None => Finished (None, next)
  | Some stmts =>
      let shadowed := shadowed_names QuoteMeta Parse (S (String.length command)) stmts ∪ shadowed_by fs in
      let '(positions, next) := pipelinePositions QuoteMeta pattern_matches shadowed map_order stmts next in
      run_bind
        (walk_list Parse QuoteMeta pattern_matches SplitBraces h (normalizeWithState fuel) command active
           (inherit QuoteMeta pattern_matches stmts shadowed inherited positions) depth stmts state
           {| wk_states := ∅; wk_replacements := ∅; wk_recursive := ∅; wk_shadowed := shadowed;
              wk_functions := fs; wk_nextPipelineID := next |})
        (fun '(outcome, w) =>
           run_bind (extractSimples Parse command stmts (inherit QuoteMeta pattern_matches stmts shadowed inherited positions)
                       (Some (wk_states w)) (wk_replacements w))
             (fun base =>
                andThen (finish_all Parse QuoteMeta url_Parse ParseIP
                           (fun source state inherited => normalizeWithState fuel source state depth ∅ ∅ inherited)
                           (wk_recursive w) (wk_replacements w) base)
                  (fun simples => pure {| r_simples := simples; r_outcome := outcome; r_functions := wk_functions w |})
                  (wk_nextPipelineID w)))
  end.
Proof. reflexivity. Qed.

(** One more source in depth changes nothing a run has found. *)
Lemma one_more fuel : forall command state depth fs active inherited n,
  at_most (normalizeWithState fuel command state depth fs active inherited n)
        (normalizeWithState (S fuel) command state depth fs active inherited n).
Proof.
  induction fuel as [|fuel IH]; intros command state depth fs active inherited n; [by left|].
  rewrite (normalize_unfold fuel), (normalize_unfold (S fuel)).
  destruct (Parse command) as [stmts|]; [|done]. cbv zeta. destruct (pipelinePositions _ _ _ _ _ _) as [positions next].
  apply at_most_bind; [apply walk_list_approx, IH|]. intros [out w]. apply at_most_bind; [done|]. intros base.
  apply counted_then; [|done]. apply finish_counted. intros source s more n'. apply IH.
Qed.

Lemma more_fuel fuel more command state depth fs active inherited n :
  at_most (normalizeWithState fuel command state depth fs active inherited n)
        (normalizeWithState (fuel + more) command state depth fs active inherited n).
Proof.
  induction more as [|more IH]; [by rewrite Nat.add_0_r|]. rewrite Nat.add_succ_r. etrans; [exact IH|apply one_more].
Qed.

Context (getenv : string -> option string).

#[local] Notation Normalize := (Normalize Parse QuoteMeta pattern_matches SplitBraces h map_order url_Parse ParseIP getenv).

Lemma normalize_more fuel more command cwd : at_most (Normalize fuel command cwd) (Normalize (fuel + more) command cwd).
Proof. unfold Normalize.Normalize, normalizeWithContext. apply at_most_bind; [apply more_fuel|done]. Qed.

(** What a line comes to is a fact about the line. Any two runs of [Normalize] on the
    same line that end, with whatever fuel, end alike: with the same commands, with an
    error, or in the same panic. *)
Theorem normalize_fuel_irrelevant fuel1 fuel2 command cwd :
  Normalize fuel1 command cwd <> OutOfFuel -> Normalize fuel2 command cwd <> OutOfFuel ->
  Normalize fuel1 command cwd = Normalize fuel2 command cwd.
Proof.
  intros H1 H2. destruct (Nat.le_ge_cases fuel1 fuel2) as [Hle|Hle].
  - replace fuel2 with (fuel1 + (fuel2 - fuel1))%nat in * by lia.
    by destruct (normalize_more fuel1 (fuel2 - fuel1) command cwd).
  - replace fuel1 with (fuel2 + (fuel1 - fuel2))%nat in * by lia.
    by destruct (normalize_more fuel2 (fuel1 - fuel2) command cwd).
Qed.
End Sources.
