(* ===== verification/Reach.v ===== *)
(** * The commands a walk is sure to reach

    For sources without functions, [eval] and [for] this file follows the walk of
    [tokenize.go] along lists, pipes, both sides of [&&] and [||], compound commands
    and substitutions, and shows that no command on the way is lost: the walk records a
    state for it, and [Normalize] hands it to the rules with exactly its words. *)

From Stdlib Require Import ZArith Lia Bool.
From S2P Require Import Prelude GoStrings GoPath Policy Argv Engine Simple Wrappers NetRules GitRepo Operands Containment PathRules DeleteRules Syntax StdoutFate FindActions WriteTargets BashRules ShellState ShellVars ShellCd StdinFlow Extract Walker WalkInvariant Normalize.

Open Scope string_scope.
Open Scope list_scope.

Section Reach.
Context (Parse : string -> option (list Stmt)) (QuoteMeta : string -> string)
  (pattern_matches : string -> string -> option bool) (SplitBraces : Word -> bool) (h : CdHost)
  (normalize : string -> cwdState -> nat -> functions -> gset string -> list (nat * nat) -> nat ->
               run (option normalizeResult * nat))
  (src : string) (active : gset string) (pipelines : positions).

(** ** Plain sources *)

(** The name a call starts with, when it is literal. *)
Definition literal_name (args : list Word) : option string :=
  match args with w :: _ => literalText Parse (word_text src w) | [] => None end.

(** Commands that run what they are given in the shell itself. *)
Definition runs_shell_code (name : string) : bool := in_list name ["eval"; "command"; "builtin"].

Definition plain_stmt (s : Stmt) : Prop :=
  match st_Cmd s with
  | Some (ForClause _ _ _) | Some (FuncDecl _ _) => False
  | Some (CallExpr _ ((_ :: _) as args)) => exists name, literal_name args = Some name /\ runs_shell_code name = false
  | _ => True
  end.

Definition plain (v : visited) : Prop :=
  match v with VStmt s => plain_stmt s | VFunc _ => False | _ => True end.

Definition plain_source (stmts : list Stmt) : Prop := Forall plain (file_visits stmts).

(** What a plain walk does where no function is defined: none is, nothing is replaced
    and no statement is forgotten. *)
Definition calmly (v w : Walk) : Prop :=
  wk_functions v = ∅ ->
  wk_functions w = ∅ /\ wk_replacements w = wk_replacements v /\
  forall id, is_Some (wk_states v !! id) -> is_Some (wk_states w !! id).

#[export] Instance calmly_order : PreOrder calmly.
Proof.
  split; [by intros w Hw|]. intros u v w H1 H2 Hu. destruct (H1 Hu) as (Hv & R1 & D1). destruct (H2 Hv) as (Hw & R2 & D2).
  split_and!; [done|congruence|auto].
Qed.

#[local] Notation holds := (holds calmly).
#[local] Notation any := (fun _ => True).

Lemma calmly_same v w :
  wk_functions w = wk_functions v -> wk_replacements w = wk_replacements v -> wk_states w = wk_states v -> calmly v w.
Proof. intros Hf Hr Hs. unfold calmly. rewrite Hf, Hr, Hs. auto. Qed.

Lemma merge_no_functions l : Forall (fun fs : functions => fs = ∅) l -> mergeFunctionAlternatives l = ∅.
Proof.
  intros H. unfold mergeFunctionAlternatives.
  assert (Hu : forall (m : functions), m = ∅ -> foldl (fun (merged fs : functions) =>
    merge (fun a b => match a, b with
                      | _, Some set => Some (merge_sets (default no_function a) set)
                      | Some a, None => Some a
                      | None, None => None
                      end) merged fs) m l = ∅).
  { induction H as [|fs l -> H IH]; intros m ->; cbn [foldl]; [done|]. apply IH. apply map_eq. intros i.
    by rewrite lookup_merge, !lookup_empty. }
  rewrite Hu by done. apply map_eq. intros i. by rewrite map_lookup_imap, !lookup_empty.
Qed.

Lemma join_still fs w u w' : fs = ∅ -> joinFunctionEnvironment fs w = Finished (u, w') -> calmly w w'.
Proof.
  intros -> (current & w1 & [= <- <-] & Hp)%bind_finished Hw. apply bind_finished in Hp as (c2 & w2 & [= <- <-] & Hp).
  apply bind_finished in Hp as (u1 & w3 & [= _ <-] & [= _ <-]). split_and!; [|done..]. cbn. rewrite Hw.
  by apply merge_no_functions; repeat constructor.
Qed.

Lemma join_calmly v w u w' : calmly v w -> joinFunctionEnvironment (wk_functions v) w = Finished (u, w') -> calmly v w'.
Proof. intros Hvw H Hv. refine (transitivity Hvw (join_still _ _ _ _ Hv H) Hv). Qed.

Lemma record_state_calmly id s : holds any (record_state id s).
Proof.
  apply holds_modify. intros w Hw. split_and!; [done..|]. intros i Hi. cbn.
  rewrite lookup_insert_is_Some. destruct (decide (id = i)); [by left|by right].
Qed.

(** ** Plain calls *)

#[local] Notation call := (call Parse QuoteMeta h normalize src active pipelines).
#[local] Notation simple_of stmt args s := (simpleForCall Parse src (st_Redirs stmt) args s).

Lemma simple_name stmt w ws s name :
  literal_name (w :: ws) = Some name -> exists rest, s_Argv (simple_of stmt (w :: ws) s) = name :: rest.
Proof. intros Hn. unfold literal_name in Hn. cbn [simpleForCall s_Argv map]. rewrite Hn. by eexists. Qed.

Lemma not_shell_code name rest :
  runs_shell_code name = false -> directCommandArgv (name :: rest) = Direct (name :: rest) false false /\ (name =s? "eval") = false.
Proof.
  unfold runs_shell_code, in_list. cbn [existsb]. intros H. apply orb_false_iff in H as [He H]. apply orb_false_iff in H as [Hc H].
  apply orb_false_iff in H as [Hb _]. unfold directCommandArgv. by rewrite Hc, Hb.
Qed.

(** Fewer names shadowed, no less known. *)
Lemma undecided stmts shadowed : literalCondition stmts ∅ = conditionUnknown -> literalCondition stmts shadowed = conditionUnknown.
Proof.
  destruct stmts as [|[loc [[[|] [|w [|]]| | | | | | | | | | | | | |]|] n [] [] sc []] [|]]; try done.
  unfold literalCondition. cbv zeta. destruct (word_Lit w =s? ":"); [by destruct n|].
  rewrite (bool_decide_eq_false_2 (word_Lit w ∈ ∅)) by set_solver. cbn [negb andb]. rewrite !andb_true_r.
  destruct (word_Lit w =s? "true"); [by destruct n|]. destruct (word_Lit w =s? "false"); [by destruct n|done].
Qed.

(** A plain call changes no function and replaces nothing; but for [cd] and the
    constants it may succeed and may fail. *)
Lemma plain_call stmt depth ud assigns w ws s name walk out walk' :
  literal_name (w :: ws) = Some name -> runs_shell_code name = false -> wk_functions walk = ∅ ->
  call stmt depth ud assigns (w :: ws) s walk = Finished (out, walk') ->
  calmly walk walk' /\
  ((name =s? "cd") = false -> literalCondition [stmt] ∅ = conditionUnknown -> o_canSuccess out = true /\ o_canFailure out = true).
Proof.
  intros Hn Hcode Hf H. unfold Walker.call in H. apply bind_finished in H as (u & w1 & [= _ <-] & H).
  apply bind_finished in H as (fs & w2 & [= <- <-] & H). cbn [wk_functions] in H. rewrite Hf in H.
  destruct (simple_name stmt w ws s name Hn) as [rest Hs]. set (simple := simpleForCall _ _ _ _ _) in *.
  replace (if wordUnresolved _ simple 0 then None else ∅ !! hd "" (s_Argv simple)) with (@None shellFunctionSet) in H by (by destruct (wordUnresolved _ _ _)).
  rewrite Hs in H. destruct (not_shell_code name rest Hcode) as [Hd He]. rewrite Hd, He in H.
  set (state := {| wk_states := _ |}) in H. assert (Hstate : calmly walk state) by (by apply calmly_same). clearbody state.
  match goal with Hx : context [let '(_, _) := if assignmentDeclarationBuiltin name then ?a else ?b in _] |- _ =>
    set (pair := if assignmentDeclarationBuiltin name then a else b) in Hx; clearbody pair; destruct pair as [s1 local1] end.
  assert (Hret : forall o, ret o state = Finished (out, walk') -> calmly walk walk' /\ out = o) by (by intros o [= -> <-]).
  assert (Hboth : forall t, ret (bothOutcome t) state = Finished (out, walk') -> calmly walk walk' /\
    ((name =s? "cd") = false -> literalCondition [stmt] ∅ = conditionUnknown -> o_canSuccess out = true /\ o_canFailure out = true)).
  { intros t [Hw ->]%Hret. by split. }
  rewrite andb_false_r, (bool_decide_eq_true_2 (∅ = ∅)), andb_false_r in H by done. cbn [andb] in H.
  match goal with Hx : context [let '(_, _) := if assignmentDeclarationBuiltin name then ?a else ?b in _] |- _ =>
    set (pair := if assignmentDeclarationBuiltin name then a else b) in Hx; clearbody pair; destruct pair as [s2 local2] end.
  destruct (name =s? "cd") eqn:Ecd; [apply Hret in H as [Hw ->]; by split|].
  destruct (in_list name ["pushd"; "popd"]); [by apply Hboth in H|]. destruct (in_list name ["."; "source"]); [by apply Hboth in H|].
  destruct (in_list name ["return"; "break"; "continue"]); [by apply Hboth in H|].
  unfold after_command in H. apply bind_finished in H as (shadowed & w3 & [= <- <-] & H). cbv zeta in H.
  apply Hret in H as [Hw ->]. split; [exact Hw|]. intros _ Hu. rewrite (undecided _ _ Hu). by destruct (st_Negated stmt).
Qed.

#[export] Instance plain_invariant : Invariant Parse QuoteMeta h normalize src active pipelines (fun _ => True) plain calmly.
Proof.
  split.
  - apply calmly_order.
  - intros id s _. apply record_state_calmly.
  - intros v w H Hv. destruct (H Hv) as (Hw & Hr & Hd). by split_and!.
  - intros v w u w' H Hj. by eapply join_calmly.
  - done.
  - intros stmt depth ud assigns args s Hcmd Hp _ walk out walk' H. cbn in Hp. unfold plain_stmt in Hp. rewrite Hcmd in Hp.
    split; [|done]. destruct args as [|w ws]; [by injection H as _ <-|]. destruct Hp as (name & Hn & Hcode).
    intros Hf. exact (proj1 (plain_call _ _ _ _ _ _ _ _ _ _ _ Hn Hcode Hf H) Hf).
  - intros stmt select loop body depth ud name items s Hcmd Hp. cbn in Hp. unfold plain_stmt in Hp. by rewrite Hcmd in Hp.
Qed.

#[local] Notation walk_stmt := (walk_stmt Parse QuoteMeta pattern_matches SplitBraces h normalize src active pipelines).
#[local] Notation walk_if := (walk_if Parse QuoteMeta pattern_matches SplitBraces h normalize src active pipelines).
#[local] Notation exp_word := (exp_word Parse QuoteMeta pattern_matches SplitBraces h normalize src active pipelines).
#[local] Notation exp_part := (exp_part Parse QuoteMeta pattern_matches SplitBraces h normalize src active pipelines).
#[local] Notation exp_assign := (exp_assign Parse QuoteMeta pattern_matches SplitBraces h normalize src active pipelines).
#[local] Notation exp_redirect := (exp_redirect Parse QuoteMeta pattern_matches SplitBraces h normalize src active pipelines).
#[local] Notation plainly l := (Forall plain (flat_map (stmt_visits every) l)).
#[local] Notation plain_in s := (Forall plain (stmt_visits every s)).

Lemma stmt_calmly depth ud s st : plain_in s -> holds any (walk_stmt depth ud s st).
Proof.
  intros Hp. eapply (holds_weaken (ok_out (fun _ => True))); [done|].
  by apply (good_stmt Parse QuoteMeta pattern_matches SplitBraces h normalize src active pipelines (fun _ => True) plain calmly s).
Qed.

(** ** What may follow either way *)

(** A statement that may succeed and may fail, wherever it runs. *)
Definition both_ways (s : Stmt) : Prop :=
  literalCondition [s] ∅ = conditionUnknown /\
  match st_Cmd s with
  | Some (CallExpr _ ((_ :: _) as args)) => literal_name args <> Some "cd"
  | Some (BinaryCmd (Pipe | PipeAll) _ _) | Some (DeclClause _ _) | Some (LetClause _) | Some (ArithmCmd _)
  | Some (TestClause _) | None => True
  | _ => False
  end.

Definition open_outcome (out : cwdOutcome) : Prop := o_canSuccess out = true /\ o_canFailure out = true.

Lemma open_merge out s : open_outcome out -> open_outcome (mergeOutcomes [out; failureOutcome s]).
Proof. intros [Hs Hf]. unfold mergeOutcomes, open_outcome. cbn [foldl]. unfold merge_outcome, merge_side. cbn. by rewrite Hs, Hf. Qed.

(** A statement whose command leaves both ways open does, whatever it is redirected to. *)
Lemma statement_open id negation forked redirs redirections command s w out w' :
  (forall s, holds any (redirections s)) ->
  (forall s w out w', wk_functions w = ∅ -> command s w = Finished (out, w') -> open_outcome out) ->
  wk_functions w = ∅ -> statement id negation forked redirs redirections command s w = Finished (out, w') -> open_outcome out.
Proof.
  intros Hr Hc Hw H. unfold statement in H. apply bind_finished in H as (u0 & w0 & H0 & H).
  destruct (record_state_calmly id s w u0 w0 H0) as [Hcalm _]. destruct (Hcalm Hw) as [Hw0 _].
  apply bind_finished in H as (before & w1 & [= <- <-] & H). apply bind_finished in H as (u & w2 & H2 & H).
  destruct (Hr s _ _ _ H2) as [Hcalm2 _]. destruct (Hcalm2 Hw0) as [Hw2 _]. cbv zeta in H. destruct forked.
  - apply bind_finished in H as (o & w3 & _ & [= <- _]). done.
  - apply bind_finished in H as (o & w3 & H3 & H). apply Hc in H3; [|done].
    apply bind_finished in H as (o' & w4 & H4 & [= <- _]).
    assert (Ho' : open_outcome o').
    { destruct (is_nil redirs); [by injection H4 as <- _|]. apply bind_finished in H4 as (u' & w5 & _ & [= <- _]). by apply open_merge. }
    destruct Ho'. by destruct negation.
Qed.

Lemma redirects_calmly depth ud redirs st u :
  Forall plain (flat_map (redirect_visits every) redirs) -> holds any (exp_all (exp_redirect depth ud) redirs st u).
Proof.
  intros Hp. apply (exp_all_good _ _ _ _ _ _ _ (fun _ => True) plain calmly exp_redirect (redirect_visits every)); [|done..].
  apply Forall_all. intros r. apply good_redirect; apply _.
Qed.

Lemma assigns_calmly depth ud assigns st u :
  Forall plain (flat_map (assign_visits every) assigns) -> holds any (exp_all (exp_assign depth ud) assigns st u).
Proof.
  intros Hp. apply (exp_all_good _ _ _ _ _ _ _ (fun _ => True) plain calmly exp_assign (assign_visits every)); [|done..].
  apply Forall_all. intros r. apply good_assign; apply _.
Qed.

Lemma words_calmly depth ud words st u :
  Forall plain (flat_map (word_visits every) words) -> holds any (exp_all (exp_word depth ud) words st u).
Proof.
  intros Hp. apply (exp_all_good _ _ _ _ _ _ _ (fun _ => True) plain calmly exp_word (word_visits every)); [|done..].
  apply Forall_all. intros r. apply good_word; apply _.
Qed.

Lemma list_calmly depth ud stmts st : plainly stmts -> holds any (walk_all (walk_stmt depth ud) stmts st).
Proof.
  intros Hp. eapply (holds_weaken (ok_out (fun _ => True))); [done|].
  apply (walk_all_good _ _ _ _ _ _ _ _ _ (fun _ => True) plain); [apply _|apply _| |done..]. apply Forall_all. intros s. apply good_stmt; apply _.
Qed.

Lemma both_ways_open depth ud s st w out w' :
  plain_in s -> both_ways s -> wk_functions w = ∅ -> walk_stmt depth ud s st w = Finished (out, w') -> open_outcome out.
Proof.
  intros Hp [Hu Hb] Hw H. destruct s as [loc cmd negation background coprocess semicolon redirs]. cbn [st_Cmd] in Hb.
  pose proof Hp as Hparts. parts Hparts.
  assert (Hr : forall s, holds any (exp_all (exp_redirect depth ud) redirs s false)) by (intros t; by apply redirects_calmly).
  destruct cmd as [cmd|].
  2:{ refine (statement_open _ _ _ _ _ _ _ _ _ _ Hr _ Hw H). by intros t v o v' _ [= <- _]. }
  destruct cmd as [assigns [|name args]| | | | | | |[]| | | | | | |]; try done;
    refine (statement_open _ _ _ _ _ _ _ _ _ _ Hr _ Hw H); intros t v o v' Hv Hc; cbv beta iota in Hc;
    try (apply bind_finished in Hc as (? & ? & _ & Hc); injection Hc as <- _; done).
  2,3: apply bind_finished in Hc as (? & ? & _ & Hc); apply bind_finished in Hc as (? & ? & _ & Hc); by injection Hc as <- _.
  cbn [plain] in H0. unfold plain_stmt in H0. cbn [st_Cmd] in H0. destruct H0 as (n & Hn & Hcode). rename H2 into Hargs. clear Hr H Hp. parts Hargs.
  apply bind_finished in Hc as (u1 & w1 & K1 & Hc). apply bind_finished in Hc as (u2 & w2 & K2 & Hc).
  destruct (assigns_calmly depth ud assigns t false ltac:(assumption) _ _ _ K1) as [Hv1 _]. destruct (Hv1 Hv) as [Hw1 _].
  destruct (words_calmly depth ud (name :: args) t u1 ltac:(assumption) _ _ _ K2) as [Hv2 _]. destruct (Hv2 Hw1) as [Hw2 _].
  eapply plain_call in Hc as [_ Hc]; [|done..]. apply Hc; [|done]. rewrite Hn in Hb.
  destruct (n =s? "cd") eqn:E; [|done]. breflect. by subst.
Qed.

(** ** Substitutions *)

(** A part of a word in which nothing runs. *)
Fixpoint inert_part (p : WordPart) : bool :=
  match p with
  | Lit _ | SglQuoted _ _ | ExtGlob _ => true
  | DblQuoted _ ps => forallb inert_part ps
  | ParamExp (MkParameter _ _ _ _ None None None _ None) => true
  | _ => false
  end.

Definition inert_word (w : Word) : bool := forallb inert_part (w_Parts w).

Definition inert_assign (a : Assign) : bool :=
  match a with
  | MkAssign _ _ _ None None None => true
  | MkAssign _ _ _ None (Some w) None => inert_word w
  | _ => false
  end.

(** The first substitution of a word's parts. *)
Inductive opens : list WordPart -> list Stmt -> Prop :=
| opens_command offset stmts rest : opens (CmdSubst offset stmts :: rest) stmts
| opens_process offset op stmts rest : opens (ProcSubst offset op stmts :: rest) stmts
| opens_quoted dollar ps rest stmts : opens ps stmts -> opens (DblQuoted dollar ps :: rest) stmts
| opens_later p rest stmts : inert_part p = true -> opens rest stmts -> opens (p :: rest) stmts.

Definition first_of {A} (inert : A -> bool) (opened : A -> list Stmt -> Prop) (l : list A) (stmts : list Stmt) : Prop :=
  exists before a after, l = before ++ a :: after /\ forallb inert before = true /\ opened a stmts.

Definition word_opens (w : Word) : list Stmt -> Prop := opens (w_Parts w).
Definition assign_opens (a : Assign) (stmts : list Stmt) : Prop :=
  match a with MkAssign _ _ _ _ (Some w) _ => word_opens w stmts | _ => False end.

(** The first substitution of a call: of its assignments, or of its words. *)
Definition call_opens (assigns : list Assign) (args : list Word) (stmts : list Stmt) : Prop :=
  first_of inert_assign assign_opens assigns stmts \/
  (forallb inert_assign assigns = true /\ first_of inert_word word_opens args stmts).

(** ** The next statements of a walk *)

(** The last statement of a condition leaves both ways open. *)
Definition open_condition (cond : list Stmt) : Prop := exists before s, cond = before ++ [s] /\ both_ways s.

Inductive if_runs : IfClause -> Stmt -> Prop :=
| if_else body t orelse cond : t ∈ body -> if_runs (MkIf false cond body orelse) t
| if_condition cond body orelse t : t ∈ cond -> if_runs (MkIf true cond body orelse) t
| if_then cond body orelse t : open_condition cond -> t ∈ body -> if_runs (MkIf true cond body orelse) t
| if_next cond body e t : open_condition cond -> if_runs e t -> if_runs (MkIf true cond body (Some e)) t.

(** Which statements a command's walk goes on to. *)
Inductive runs : Command -> Stmt -> Prop :=
| runs_substitution assigns args stmts t : call_opens assigns args stmts -> t ∈ stmts -> runs (CallExpr assigns args) t
| runs_block stmts t : t ∈ stmts -> runs (Block stmts) t
| runs_subshell stmts t : t ∈ stmts -> runs (Subshell stmts) t
| runs_left op x y : runs (BinaryCmd op x y) x
| runs_pipe op x y : is_pipe op = true -> runs (BinaryCmd op x y) y
| runs_right op x y : both_ways x -> runs (BinaryCmd op x y) y
| runs_if clause t : if_runs clause t -> runs (IfCmd clause) t
| runs_condition until cond body t : t ∈ cond -> runs (WhileClause until cond body) t
| runs_body until cond body t : open_condition cond -> t ∈ body -> runs (WhileClause until cond body) t
| runs_timed t : runs (TimeClause (Some t)) t.

Definition next (s t : Stmt) : Prop := exists cmd, st_Cmd s = Some cmd /\ runs cmd t.

(** The statements a walk of a source is sure to reach. *)
Definition reached (stmts : list Stmt) (t : Stmt) : Prop := exists s, s ∈ stmts /\ rtc next s t.

(** ** A walk gets there *)

(** The statement has been walked, and nothing since then has undone it. *)
Definition walked (t : Stmt) (w' : Walk) : Prop :=
  exists depth ud st w0 out w1, wk_functions w0 = ∅ /\ walk_stmt depth ud t st w0 = Finished (out, w1) /\ calmly w1 w'.

Definition leads {A} (t : Stmt) (m : M A) : Prop :=
  forall w a w', wk_functions w = ∅ -> m w = Finished (a, w') -> walked t w'.

Definition yields {A} (Q : A -> Prop) (m : M A) : Prop :=
  forall w a w', wk_functions w = ∅ -> m w = Finished (a, w') -> Q a.

Lemma walked_on t v w : walked t v -> calmly v w -> walked t w.
Proof. intros (d & ud & st & w0 & o & w1 & Hf & Hw & Hc) Hvw. exists d, ud, st, w0, o, w1. split_and!; [done..|]. by etrans. Qed.

Lemma leads_here depth ud t st : leads t (walk_stmt depth ud t st).
Proof. intros w o w' Hf Hw. exists depth, ud, st, w, o, w'. split_and!; [done..|]. reflexivity. Qed.

Lemma leads_first {A B} t (m : M A) (k : A -> M B) : leads t m -> (forall a, holds any (k a)) -> leads t (bind m k).
Proof.
  intros Hm Hk w b w2 Hf (a & w1 & H1 & H2)%bind_finished. destruct (Hk a _ _ _ H2) as [Hc _]. eapply walked_on; [by eapply Hm|done].
Qed.

Lemma leads_then {A B} t (Q : A -> Prop) (m : M A) (k : A -> M B) :
  holds any m -> yields Q m -> (forall a, Q a -> leads t (k a)) -> leads t (bind m k).
Proof.
  intros Hm HQ Hk w b w2 Hf (a & w1 & H1 & H2)%bind_finished. destruct (Hm _ _ _ H1) as [Hc _]. destruct (Hc Hf) as [Hf1 _].
  by eapply Hk; [eapply HQ; [|exact H1]|..].
Qed.

Lemma yields_any {A} (m : M A) : yields any m.
Proof. done. Qed.

Lemma leads_isolated {A} t (m : M A) : leads t m -> leads t (isolated m).
Proof.
  intros Hm w a w2 Hf (w1 & H1 & ->)%isolated_finished. eapply walked_on; [by eapply Hm|]. intros _. by rewrite Hf.
Qed.

Lemma leads_walk_from depth ud l t : t ∈ l -> plainly l -> forall out, leads t (walk_from (walk_stmt depth ud) l out).
Proof.
  induction l as [|s l IH]; intros Ht Hp out; [by apply elem_of_nil in Ht|]. cbn [flat_map] in Hp. apply Forall_app in Hp as [Hs Hl].
  cbn [walk_from]. apply elem_of_cons in Ht as [->|Ht].
  - apply leads_first; [apply leads_here|]. intros o w a w' H. split; [|done].
    assert (Hh : holds (ok_out any) (walk_from (walk_stmt depth ud) l o)); [|by apply (Hh _ _ _ H)].
    apply (holds_walk_from Parse QuoteMeta h normalize src active pipelines (fun _ => True) plain); [apply _..| |by split]. intros x st Hx _.
    apply (good_stmt Parse QuoteMeta pattern_matches SplitBraces h normalize src active pipelines (fun _ => True) plain calmly x); [|done].
    by eapply allowed_in.
  - apply (leads_then _ any); [by apply stmt_calmly|done|]. intros o _. by apply IH.
Qed.

Lemma leads_list depth ud l t st : t ∈ l -> plainly l -> leads t (walk_all (walk_stmt depth ud) l st).
Proof. intros Ht Hp. by apply leads_walk_from. Qed.

Lemma plain_app (l1 l2 : list Stmt) : plainly (l1 ++ l2) -> plainly l1 /\ plainly l2.
Proof. rewrite flat_map_app, Forall_app. done. Qed.

Lemma open_condition_yields depth ud cond st : open_condition cond -> plainly cond -> yields open_outcome (walk_all (walk_stmt depth ud) cond st).
Proof.
  intros (before & s & -> & Hs) [Hb Hp]%plain_app. cbn [flat_map] in Hp. rewrite app_nil_r in Hp. unfold walk_all. generalize (successOutcome st).
  induction before as [|b before IH]; intros out w a w' Hf H; cbn [app walk_from] in H.
  - apply bind_finished in H as (o & w1 & H & [= <- <-]). by eapply both_ways_open.
  - cbn [flat_map] in Hb. apply Forall_app in Hb as [Hb Hbs]. apply bind_finished in H as (o & w1 & H1 & H).
    destruct (stmt_calmly depth ud b _ Hb _ _ _ H1) as [Hc _]. destruct (Hc Hf) as [Hf1 _]. by eapply IH.
Qed.

Lemma open_condition_truth cond shadowed : open_condition cond -> literalCondition cond shadowed = conditionUnknown.
Proof.
  intros (before & s & -> & [Hs _]). destruct before as [|b before]; cbn [app]; [by apply undecided|].
  assert (Hlong : forall l, l <> [] -> literalCondition (b :: l) shadowed = conditionUnknown).
  { intros [|c l] Hl; [done|]. unfold literalCondition. by repeat (case_match; simplify_eq). }
  apply Hlong. by destruct before.
Qed.

(** Of a list of expansions, none before the first substitution walks anything. *)
Lemma inert_part_still p : inert_part p = true -> forall depth ud st u w, exp_part depth ud p st u w = Finished (u, w).
Proof.
  revert p. fix IH 1. intros [v|d v|d ps|[excl len wd pa [|] [|] [|] nm [|]]|o ss|x|o op ss|g] Hi depth ud st u w; try done.
  cbn [inert_part] in Hi. cbn [Walker.exp_part]. revert u Hi. induction ps as [|p ps IHps]; intros u Hi; [done|].
  cbn [forallb] in Hi. apply andb_prop in Hi as [Hp Hps]. cbn [exp_all]. unfold bind. rewrite (IH p Hp). cbn [run_bind]. by apply IHps.
Qed.

Lemma inert_all {A} (f : nat -> bool -> A -> cwdState -> bool -> M bool) (inert : A -> bool) l depth ud st :
  (forall a, inert a = true -> forall u w, f depth ud a st u w = Finished (u, w)) -> forallb inert l = true ->
  forall u w, exp_all (f depth ud) l st u w = Finished (u, w).
Proof.
  intros Hf. induction l as [|a l IH]; intros Hi u w; [done|]. cbn [forallb] in Hi. apply andb_prop in Hi as [Ha Hl].
  cbn [exp_all]. unfold bind. rewrite (Hf a Ha). cbn [run_bind]. by apply IH.
Qed.

Lemma inert_word_still x depth ud st : inert_word x = true -> forall u w, exp_word depth ud x st u w = Finished (u, w).
Proof.
  destruct x as [a b ps]. intros Hi u w. cbn [Walker.exp_word].
  apply (inert_all exp_part inert_part); [|done]. intros p Hp u' w'. by apply inert_part_still.
Qed.

Lemma inert_assign_still a depth ud st : inert_assign a = true -> forall u w, exp_assign depth ud a st u w = Finished (u, w).
Proof.
  destruct a as [naked append name [|] [x|] [|]]; try done. intros Hi u w. cbn [Walker.exp_assign exp_opt]. unfold bind.
  by rewrite (inert_word_still x depth ud st Hi).
Qed.

Lemma leads_same {A} t (m : M A) m' : (forall w, m w = m' w) -> leads t m' -> leads t m.
Proof. intros He Hl w a w' Hf H. rewrite He in H. by eapply Hl. Qed.

(** A list of expansions leads where its first substitution does. *)
Lemma leads_first_of {A} (f : nat -> bool -> A -> cwdState -> bool -> M bool) visits inert opened l stmts t depth ud st :
  (forall a, inert a = true -> forall u w, f depth ud a st u w = Finished (u, w)) ->
  (forall a, expands (fun _ => True) plain calmly f visits a) ->
  (forall a, opened a stmts -> Forall plain (visits a) -> leads t (f depth ud a st false)) ->
  first_of inert opened l stmts -> Forall plain (flat_map visits l) -> leads t (exp_all (f depth ud) l st false).
Proof.
  intros Hi He Ho (before & a & after & -> & Hb & Ha) Hp. rewrite flat_map_app, Forall_app in Hp. destruct Hp as [_ Hp].
  cbn [flat_map] in Hp. apply Forall_app in Hp as [Hpa Hafter].
  assert (Hrest : forall u, holds any (exp_all (f depth ud) after st u)).
  { intros u. apply (exp_all_good Parse QuoteMeta h normalize src active pipelines (fun _ => True) plain calmly f visits); [|done..].
    by apply Forall_all. }
  induction before as [|b before IH]; cbn [app exp_all].
  - apply leads_first; [by apply Ho|exact Hrest].
  - cbn [forallb] in Hb. apply andb_prop in Hb as [Hb Hbs]. apply (leads_same _ _ (exp_all (f depth ud) (before ++ a :: after) st false)).
    + intros w. unfold bind. by rewrite (Hi b Hb).
    + by apply IH.
Qed.

Lemma leads_substitution depth ud t stmts st :
  t ∈ stmts -> plainly stmts ->
  leads t (bind (isolated (walk_all (walk_stmt depth ud) stmts st)) (fun out => ret (hasFilesystemUncertainty out))).
Proof.
  intros Ht Hp. apply leads_first; [apply leads_isolated, leads_list; done|]. intros out w a w' [= _ <-]. split; [reflexivity|done].
Qed.

Lemma leads_parts ps stmts t depth ud st :
  opens ps stmts -> t ∈ stmts -> Forall plain (flat_map (part_visits every) ps) -> leads t (exp_all (exp_part depth ud) ps st false).
Proof.
  intros Ho Ht. induction Ho as [o ss rest|o op ss rest|d ps rest ss Ho IH|p rest ss Hi Ho IH]; intros Hp;
    cbn [flat_map] in Hp; apply Forall_app in Hp as [Hhead Hrest]; cbn [exp_all].
  1-3: apply leads_first.
  1,3: parts Hhead; by apply leads_substitution.
  1,2,4: intros u; apply (exp_all_good Parse QuoteMeta h normalize src active pipelines (fun _ => True) plain calmly exp_part (part_visits every));
    [apply Forall_all; intros p; apply good_part; apply _|done..].
  - parts Hhead. cbn [Walker.exp_part]. by apply IH.
  - apply (leads_same _ _ (exp_all (exp_part depth ud) rest st false)); [|by apply IH].
    intros w. unfold bind. by rewrite (inert_part_still p Hi).
Qed.

Lemma leads_call assigns args stmts t depth ud st (k : bool -> M cwdOutcome) :
  call_opens assigns args stmts -> t ∈ stmts ->
  Forall plain (flat_map (assign_visits every) assigns) -> Forall plain (flat_map (word_visits every) args) ->
  (forall u, holds any (k u)) ->
  leads t (bind (exp_all (exp_assign depth ud) assigns st false) (fun u => bind (exp_all (exp_word depth ud) args st u) k)).
Proof.
  intros Hopens Ht Ha Hw Hk.
  assert (Hword : forall w, word_opens w stmts -> Forall plain (word_visits every w) -> leads t (exp_word depth ud w st false)).
  { intros [a b ps] Hps Hp. parts Hp. cbn [Walker.exp_word]. by apply (leads_parts ps stmts). }
  destruct Hopens as [Hfirst|[Hi Hfirst]].
  - apply leads_first.
    + apply (leads_first_of exp_assign (assign_visits every) inert_assign assign_opens assigns stmts); [|by intros a; apply good_assign; apply _| |done..].
      * intros a Hi u w. by apply inert_assign_still.
      * intros [naked append name index [x|] array] Hop Hp; [|done]. parts Hp. cbn [Walker.exp_assign exp_opt].
        apply leads_first; [by apply Hword|]. intros u.
        assert (Hone : forall v, holds any (exp_all (exp_assign depth ud) [MkAssign naked append name index None array] st v)).
        { intros v. apply assigns_calmly. cbn [flat_map]. rewrite app_nil_r. cbn [assign_visits app]. by apply Forall_app. }
        specialize (Hone u). intros v b v' Hrun. refine (Hone v b v' _). cbn [exp_all]. unfold bind at 1. cbn [Walker.exp_assign exp_opt].
        unfold bind at 1, ret at 1. cbn [run_bind]. by rewrite Hrun.
    + intros u. apply (holds_bind any); [by apply words_calmly|]. intros v _. apply Hk.
  - apply (leads_same _ _ (bind (exp_all (exp_word depth ud) args st false) k)).
    + intros w. unfold bind at 1. rewrite (inert_all exp_assign inert_assign); [done| |done].
      intros a Hia u w'. by apply inert_assign_still.
    + apply leads_first; [|exact Hk].
      apply (leads_first_of exp_word (word_visits every) inert_word word_opens args stmts); [|by intros a; apply good_word; apply _|exact Hword|done..].
      intros a Hia u w. by apply inert_word_still.
Qed.

Lemma leads_statement t id negation forked redirs redirections command s :
  (forall s, holds any (redirections s)) -> (forall s, leads t (command s)) ->
  leads t (statement id negation forked redirs redirections command s).
Proof.
  intros Hr Hc. unfold statement. apply (leads_then _ any); [apply record_state_calmly|done|]. intros _ _.
  intros w out w' Hw H. apply bind_finished in H as (before & w1 & [= <- <-] & H).
  apply bind_finished in H as (u & w2 & H2 & H). destruct (Hr s _ _ _ H2) as [Hcalm2 _]. destruct (Hcalm2 Hw) as (Hw2 & _). cbv zeta in H.
  destruct forked.
  - refine (leads_first t _ _ (leads_isolated t _ (Hc _)) _ _ _ _ Hw2 H). intros _ v b v' [= _ <-]. split; [reflexivity|done].
  - apply bind_finished in H as (o & w3 & H3 & H). pose proof (Hc _ _ _ _ Hw2 H3) as Ht.
    apply bind_finished in H as (o' & w4 & H4 & [= _ <-]). destruct (is_nil redirs); [by injection H4 as _ <-|].
    apply bind_finished in H4 as (u' & w5 & H5 & [= _ <-]). destruct Ht as (d & ud & st & v0 & out0 & v1 & Hv0 & Hv & Hcalm).
    exists d, ud, st, v0, out0, v1. split_and!; [done..|]. etrans; [exact Hcalm|]. by eapply join_still; [|exact H5].
Qed.

(** The second part of a binary command or a condition's branch, from both ways. *)
Lemma leads_alternative t b (m : M cwdOutcome) : leads t m -> leads t (withFunctionEnvironmentAlternative b m).
Proof.
  intros Hm. destruct b; [|done]. intros w a w' Hf H. unfold withFunctionEnvironmentAlternative in H.
  apply bind_finished in H as (prior & w1 & [= <- <-] & H). apply bind_finished in H as (o & w2 & H2 & H).
  pose proof (Hm _ _ _ Hf H2) as Ht. apply bind_finished in H as (u & w3 & H3 & [= _ <-]).
  eapply walked_on; [exact Ht|]. by eapply join_still; [|exact H3].
Qed.

Lemma leads_ret t {A} (m : M A) {B} (g : A -> B) : leads t m -> leads t (bind m (fun a => ret (g a))).
Proof. intros Hm. apply leads_first; [done|]. intros a w b w' [= _ <-]. split; [reflexivity|done]. Qed.

Lemma leads_right t (lhs : cwdOutcome) right :
  open_outcome lhs -> (forall st, leads t (right st)) -> leads t (and_paths lhs right) /\ leads t (or_paths lhs right).
Proof.
  intros [Hs Hf] Hr. unfold and_paths, or_paths. rewrite Hs, Hf. by split; apply leads_ret, leads_alternative.
Qed.

Lemma leads_if_paths t condition ud thenBranch elseBranch :
  open_outcome condition -> (forall ud st, holds any (thenBranch ud st)) ->
  (forall ud st, leads t (thenBranch ud st)) \/ (exists branch, elseBranch = Some branch /\ forall ud st, leads t (branch ud st)) ->
  (forall branch, elseBranch = Some branch -> forall ud st, holds any (branch ud st)) ->
  leads t (if_paths condition conditionUnknown ud thenBranch elseBranch).
Proof.
  intros [Hs Hf] Hth Ht Heh. unfold if_paths. rewrite Hs, Hf, !(bool_decide_eq_false_2 (conditionUnknown = _)) by done. cbn [negb andb].
  assert (Hskip : forall ud st, holds any (match elseBranch with
                          | None => ret [successOutcome (o_failure condition)]
                          | Some branch => bind (branch ud st) (fun out => ret [out]) end)).
  { intros ud' st. destruct elseBranch as [branch|]; [|by intros v b v' [= _ <-]].
    apply (holds_bind any); [by apply Heh|]. by intros o _ v b v' [= _ <-]. }
  destruct Ht as [Ht|(branch & -> & Ht)].
  - apply leads_first; [by apply leads_ret|]. intros taken. apply (holds_bind any); [apply Hskip|]. by intros skipped _ v b v' [= _ <-].
  - apply (leads_then _ any); [|done|].
    + apply (holds_bind any); [done|]. by intros o _ v b v' [= _ <-].
    + intros taken _. apply leads_ret. by apply leads_ret.
Qed.

Lemma if_calmly depth ud c st : Forall plain (if_visits every c) -> holds any (walk_if depth ud c st).
Proof.
  intros Hp. eapply (holds_weaken (ok_out (fun _ => True))); [done|].
  by apply (good_if Parse QuoteMeta pattern_matches SplitBraces h normalize src active pipelines (fun _ => True) plain calmly c).
Qed.

Lemma leads_if c t : if_runs c t -> Forall plain (if_visits every c) -> forall depth ud st, leads t (walk_if depth ud c st).
Proof.
  induction 1 as [body t orelse cond Ht|cond body orelse t Ht|cond body orelse t Hopen Ht|cond body e t Hopen Hrun IH];
    intros Hp depth ud st; parts Hp; cbn [Walker.walk_if negb].
  - by apply leads_list.
  - apply leads_first; [by apply leads_list|]. intros condition. apply (holds_bind any); [apply holds_get|]. intros shadowed _.
    eapply (holds_weaken (ok_out (fun _ => True))); [done|].
    apply (holds_if Parse QuoteMeta h normalize src active pipelines (fun _ => True) plain); [apply _..|done| |].
    + intros ud' s' _. by apply (walk_all_good Parse QuoteMeta pattern_matches SplitBraces h normalize src active pipelines (fun _ => True) plain);
        [apply _..|apply Forall_all; intros x; apply good_stmt; apply _| |].
    + intros branch ud' s' Hb _. destruct orelse as [e|]; [|done]. injection Hb as <-.
      by apply (good_if Parse QuoteMeta pattern_matches SplitBraces h normalize src active pipelines (fun _ => True) plain calmly e).
  - apply (leads_then _ open_outcome); [by apply list_calmly|by apply open_condition_yields|]. intros condition Hc.
    apply (leads_then _ any); [apply holds_get|done|]. intros shadowed _. rewrite (open_condition_truth _ _ Hopen).
    apply leads_if_paths; [done|intros ud' s'; by apply list_calmly|left; intros ud' s'; by apply leads_list|].
    intros branch Hb ud' s'. destruct orelse as [e|]; [|done]. injection Hb as <-. by apply if_calmly.
  - apply (leads_then _ open_outcome); [by apply list_calmly|by apply open_condition_yields|]. intros condition Hc.
    apply (leads_then _ any); [apply holds_get|done|]. intros shadowed _. rewrite (open_condition_truth _ _ Hopen).
    apply leads_if_paths; [done|intros ud' s'; by apply list_calmly| |].
    + right. eexists. split; [done|]. intros ud' s'. by apply IH.
    + intros branch Hb ud' s'. injection Hb as <-. by apply if_calmly.
Qed.

Lemma leads_while depth ud until cond body st t :
  t ∈ cond \/ (open_condition cond /\ t ∈ body) -> plainly cond -> plainly body ->
  leads t (while_paths until cond (walk_all (walk_stmt (S depth) ud) cond) (walk_all (walk_stmt (S depth) true) body) st).
Proof.
  intros Ht Hc Hb. unfold while_paths. destruct Ht as [Ht|[Hopen Ht]].
  - apply leads_first; [by apply leads_list|]. intros condition. apply (holds_bind any); [apply holds_get|]. intros shadowed _. cbv zeta.
    destruct until; (destruct (body_runs _ _).1; [|by intros v b v' [= _ <-]]);
      (apply (holds_bind any); [by apply list_calmly|]); by intros o _ v b v' [= _ <-].
  - apply (leads_then _ open_outcome); [by apply list_calmly|by apply open_condition_yields|]. intros condition Hcond.
    apply (leads_then _ any); [apply holds_get|done|]. intros shadowed _. cbv zeta. rewrite (open_condition_truth _ _ Hopen).
    replace (body_runs until conditionUnknown).1 with true by (by destruct until).
    destruct until; apply leads_ret; by apply leads_list.
Qed.

Lemma walk_any depth ud x st : plain_in x -> holds (ok_out any) (walk_stmt depth ud x st).
Proof.
  intros Hp. by apply (good_stmt Parse QuoteMeta pattern_matches SplitBraces h normalize src active pipelines (fun _ => True) plain calmly x).
Qed.

Lemma any_good {A} (Q : A -> Prop) (m : M A) : holds Q m -> holds any m.
Proof. by apply holds_weaken. Qed.

Lemma leads_left depth ud x y st :
  plain_in x -> plain_in y ->
  leads x (bind (walk_stmt depth ud x st) (fun lhs => and_paths lhs (walk_stmt depth ud y))) /\
  leads x (bind (walk_stmt depth ud x st) (fun lhs => or_paths lhs (walk_stmt depth ud y))) /\
  leads x (pipe_paths (walk_stmt depth ud x) (walk_stmt depth ud y) st).
Proof.
  intros Hx Hy. split_and!; (apply leads_first; [first [apply leads_here|apply leads_isolated, leads_here]|]); intros lhs; apply (any_good (ok_out any)).
  - apply (holds_and Parse QuoteMeta h normalize src active pipelines (fun _ => True) plain calmly); try apply _; [by split|intros s _; by apply walk_any].
  - apply (holds_or Parse QuoteMeta h normalize src active pipelines (fun _ => True) plain calmly); try apply _; [by split|intros s _; by apply walk_any].
  - apply (holds_bind any); [|by intros rhs _ v b v' [= _ <-]]. 
    apply (any_good (ok_out any)), (holds_isolated Parse QuoteMeta h normalize src active pipelines (fun _ => True) plain calmly). by apply walk_any.
Qed.

Lemma leads_pipe_right depth ud x y st :
  plain_in x -> plain_in y -> leads y (pipe_paths (walk_stmt depth ud x) (walk_stmt depth ud y) st).
Proof.
  intros Hx Hy. apply (leads_then _ any); [|done|].
  - apply (any_good (ok_out any)), (holds_isolated Parse QuoteMeta h normalize src active pipelines (fun _ => True) plain calmly). by apply walk_any.
  - intros lhs _. apply leads_ret, leads_isolated, leads_here.
Qed.

Lemma leads_right_side depth ud x y st :
  both_ways x -> plain_in x -> plain_in y ->
  leads y (bind (walk_stmt depth ud x st) (fun lhs => and_paths lhs (walk_stmt depth ud y))) /\
  leads y (bind (walk_stmt depth ud x st) (fun lhs => or_paths lhs (walk_stmt depth ud y))).
Proof.
  intros Hb Hx Hy. split; (apply (leads_then _ open_outcome); [by apply stmt_calmly|intros w o w'; by eapply both_ways_open|]);
    intros lhs Hl; by apply leads_right; [|intros st'; apply leads_here].
Qed.

(** A walk goes on to the next statements. *)
Lemma leads_next s t : next s t -> plain_in s -> forall depth ud st, leads t (walk_stmt depth ud s st).
Proof.
  intros (cmd & Hcmd & Hrun) Hp depth ud st. destruct s as [loc c negation background coprocess semicolon redirs].
  cbn [st_Cmd] in Hcmd. subst c. pose proof Hp as Hparts. parts Hparts.
  assert (Hr : forall s, holds any (exp_all (exp_redirect depth ud) redirs s false)) by (intros x; by apply redirects_calmly).
  rename H1 into Hcommand.
  destruct Hrun as [assigns args stmts t Ho Ht|stmts t Ht|stmts t Ht|op x y|op x y Hop|op x y Hb|clause t Hif|until cond body t Ht
                   |until cond body t Ho Ht|t]; try (destruct op; try done);
    refine (leads_statement _ _ _ _ _ _ _ _ Hr _); intros st'; clear Hp Hr; parts Hcommand.
  - refine (leads_call assigns args stmts t depth ud st' _ Ho Ht _ _ _); [done..|]. intros u. cbv beta.
    eapply any_good, inv_call; [apply plain_invariant|done|exact H|done].
  - exact (leads_list depth ud stmts t st' Ht ltac:(done)).
  - refine (leads_ret t (isolated (walk_all (walk_stmt depth ud) stmts st')) _ _). by apply leads_isolated, leads_list.
  - exact (proj1 (leads_left depth ud x y st' ltac:(done) ltac:(done))).
  - exact (proj1 (proj2 (leads_left depth ud x y st' ltac:(done) ltac:(done)))).
  - exact (proj2 (proj2 (leads_left depth ud x y st' ltac:(done) ltac:(done)))).
  - exact (proj2 (proj2 (leads_left depth ud x y st' ltac:(done) ltac:(done)))).
  - exact (leads_pipe_right depth ud x y st' ltac:(done) ltac:(done)).
  - exact (leads_pipe_right depth ud x y st' ltac:(done) ltac:(done)).
  - exact (proj1 (leads_right_side depth ud x y st' Hb ltac:(done) ltac:(done))).
  - exact (proj2 (leads_right_side depth ud x y st' Hb ltac:(done) ltac:(done))).
  - exact (leads_pipe_right depth ud x y st' ltac:(done) ltac:(done)).
  - exact (leads_pipe_right depth ud x y st' ltac:(done) ltac:(done)).
  - exact (leads_if clause t Hif ltac:(done) depth ud st').
  - exact (leads_while depth ud until cond body st' t (or_introl Ht) ltac:(done) ltac:(done)).
  - exact (leads_while depth ud until cond body st' t (or_intror (conj Ho Ht)) ltac:(done) ltac:(done)).
  - exact (leads_here depth ud t st').
Qed.

(** ** What is reached is recorded, and visited *)

Lemma visits_in {A} (visits : A -> list visited) l a v : a ∈ l -> v ∈ visits a -> v ∈ flat_map visits l.
Proof. intros Ha Hv. apply list_elem_of_In, in_flat_map. exists a. by rewrite <- !list_elem_of_In. Qed.

Lemma opens_visits enter ps stmts v : opens ps stmts -> v ∈ flat_map (stmt_visits enter) stmts -> v ∈ flat_map (part_visits enter) ps.
Proof.
  intros Ho Hv. induction Ho as [o ss rest|o op ss rest|d ps rest ss Ho IH|p rest ss Hi Ho IH]; cbn [flat_map part_visits];
    apply elem_of_app; auto.
Qed.

Lemma call_opens_visits enter assigns args stmts v :
  call_opens assigns args stmts -> v ∈ flat_map (stmt_visits enter) stmts ->
  v ∈ flat_map (assign_visits enter) assigns ++ flat_map (word_visits enter) args.
Proof.
  intros [(before & a & after & -> & _ & Ha)|[_ (before & w & after & -> & _ & Hw)]] Hv; apply elem_of_app; [left|right].
  - apply (visits_in _ _ a); [set_solver|]. destruct a as [naked append name index [[b c ps]|] array]; [|done].
    cbn [assign_visits word_visits]. apply elem_of_app. left. by eapply opens_visits.
  - apply (visits_in _ _ w); [set_solver|]. destruct w as [b c ps]. by eapply opens_visits.
Qed.

Lemma if_runs_visits enter c t v : if_runs c t -> v ∈ stmt_visits enter t -> v ∈ if_visits enter c.
Proof.
  intros Hrun Hv. induction Hrun as [body t orelse cond Ht|cond body orelse t Ht|cond body orelse t _ Ht|cond body e t _ Hrun IH];
    cbn [if_visits]; rewrite !elem_of_app; [right; left; by eapply visits_in|left; by eapply visits_in|right; left; by eapply visits_in|auto].
Qed.

Lemma next_visits enter s t v : next s t -> enter s = true -> v ∈ stmt_visits enter t -> v ∈ stmt_visits enter s.
Proof.
  intros (cmd & Hcmd & Hrun) Hs Hv. destruct s as [loc c negation background coprocess semicolon redirs]. cbn [st_Cmd] in Hcmd. subst c.
  cbn [stmt_visits]. rewrite Hs. apply elem_of_cons. right. apply elem_of_app. left.
  destruct Hrun as [assigns args stmts t Ho Ht|stmts t Ht|stmts t Ht|op x y|op x y Hop|op x y Hb|clause t Hif|until cond body t Ht
                   |until cond body t Ho Ht|t]; cbn [command_visits]; rewrite ?elem_of_cons, ?elem_of_app; auto.
  - right. rewrite <- elem_of_app. apply (call_opens_visits enter assigns args stmts); [done|]. by eapply visits_in.
  - by eapply visits_in.
  - by eapply visits_in.
  - by eapply if_runs_visits.
  - right. left. by eapply visits_in.
  - right. right. by eapply visits_in.
Qed.

Lemma next_plain s t : next s t -> plain_in s -> plain_in t.
Proof. intros Hn Hp. rewrite Forall_forall in *. intros v Hv. apply Hp. by eapply next_visits. Qed.

Definition recorded (id : nat) (s : cwdState) (w : Walk) : Walk :=
  {| wk_states := <[id := s]> (wk_states w); wk_replacements := wk_replacements w; wk_recursive := wk_recursive w;
     wk_shadowed := wk_shadowed w; wk_functions := wk_functions w; wk_nextPipelineID := wk_nextPipelineID w |}.

(** A statement records its state first, so it makes no difference to have it there. *)
Lemma statement_record id negation forked redirs redirections command s w :
  statement id negation forked redirs redirections command s w =
  statement id negation forked redirs redirections command s (recorded id s w).
Proof. unfold statement, bind, record_state, modify, recorded, run_bind. cbn. by rewrite insert_insert_eq. Qed.

Lemma walk_record depth ud t st w :
  plain_stmt t -> exists s, walk_stmt depth ud t st w = walk_stmt depth ud t st (recorded (st_id t) s w).
Proof.
  intros Hp. exists (applyExpansionVariableEffects t st). destruct t as [loc [cmd|] negation background coprocess semicolon redirs].
  - destruct cmd; try done; exact (statement_record (at_id loc) negation (background || coprocess) redirs _ _ _ w).
  - exact (statement_record (at_id loc) negation (background || coprocess) redirs _ _ _ w).
Qed.

Lemma walked_recorded t w : plain_in t -> walked t w -> is_Some (wk_states w !! st_id t).
Proof.
  intros Hp (depth & ud & st & w0 & out & w1 & Hf & Hw & Hcalm).
  assert (Hpt : plain_stmt t) by (destruct t; by apply Forall_cons in Hp as [Hp _]).
  destruct (walk_record depth ud t st w0 Hpt) as [s Hs]. rewrite Hs in Hw.
  destruct (stmt_calmly depth ud t st Hp _ _ _ Hw) as [Hc _]. destruct (Hc Hf) as (Hf1 & _ & Hd).
  destruct (Hcalm Hf1) as (_ & _ & Hd'). apply Hd', Hd. cbn. rewrite lookup_insert_is_Some. by left.
Qed.

Lemma walked_next s t w : plain_in s -> next s t -> walked s w -> walked t w.
Proof.
  intros Hp Hn (depth & ud & st & w0 & out & w1 & Hf & Hw & Hcalm). eapply walked_on; [|exact Hcalm]. by eapply leads_next.
Qed.

(** Every statement on the way is recorded; the last one is visited wherever those are
    entered. *)
Lemma reached_recorded stmts t depth st w out w' :
  reached stmts t -> plainly stmts -> wk_functions w = ∅ ->
  walk_list Parse QuoteMeta pattern_matches SplitBraces h normalize src active pipelines depth stmts st w = Finished (out, w') ->
  wk_replacements w' = wk_replacements w /\ is_Some (wk_states w' !! st_id t) /\
  forall enter, (forall s, is_Some (wk_states w' !! st_id s) -> enter s = true) -> VStmt t ∈ flat_map (stmt_visits enter) stmts.
Proof.
  intros (s & Hs & Hrtc) Hp Hf H. destruct (list_calmly depth false stmts st Hp _ _ _ H) as [Hc _].
  destruct (Hc Hf) as (_ & Hr & _). split; [done|].
  assert (Hps : plain_in s) by (by eapply allowed_in).
  assert (Hws : walked s w') by (eapply leads_list; done).
  assert (Hgoal : is_Some (wk_states w' !! st_id t) /\
    forall enter, (forall s, is_Some (wk_states w' !! st_id s) -> enter s = true) -> VStmt t ∈ stmt_visits enter s).
  { clear Hs. induction Hrtc as [s|s s' t Hn Hrtc IH].
    - split; [by apply walked_recorded|]. intros enter _. destruct s. by left.
    - destruct IH as [Hrec Hvis]; [by eapply next_plain|by eapply walked_next|]. split; [done|]. intros enter Henter.
      eapply next_visits; [done| |by apply Hvis]. apply Henter. by apply walked_recorded. }
  destruct Hgoal as [Hrec Hvis]. split; [done|]. intros enter Henter. by eapply visits_in; [|apply Hvis].
Qed.
End Reach.

(** ** From the walk to the rules *)

Section Judged.
Context (Parse : string -> option (list Stmt)) (QuoteMeta : string -> string)
  (pattern_matches : string -> string -> option bool) (SplitBraces : Word -> bool) (h : CdHost)
  (map_order : list Stmt -> list Stmt) (url_Parse : string -> option URL) (ParseIP : string -> option string).

#[local] Notation finish_all := (finish_all Parse QuoteMeta url_Parse ParseIP).
#[local] Notation finish_one := (finish_one Parse QuoteMeta url_Parse ParseIP).
#[local] Notation normalizeWithState := (normalizeWithState Parse QuoteMeta pattern_matches SplitBraces h map_order url_Parse ParseIP).

Lemma andThen_finished {A B} (m : T A) (k : A -> T B) n b n2 :
  andThen m k n = Finished (Some b, n2) -> exists a n1, m n = Finished (Some a, n1) /\ k a n1 = Finished (Some b, n2).
Proof. unfold andThen, run_bind. destruct (m n) as [[[a|] n1]| |]; [|done..]. intros H. by exists a, n1. Qed.

(** What the wrappers of a command run is judged with its words. *)
Lemma unwrapped_words normalize fuel k cmd out n n' :
  runs_words (s_Argv (k_simple k)) cmd ->
  unwrap_fuel Parse url_Parse ParseIP normalize fuel k n = Finished (Some out, n') ->
  exists s, s ∈ out /\ s_Argv s = cmd.
Proof.
  intros Hr H. destruct fuel as [|fuel]; [done|]. cbn [unwrap_fuel] in H.
  destruct (strip_runs (wordUnresolved (is_literal Parse) (k_simple k)) _ _ (start_unwrap (k_simple k)) Hr) as [Hne [st' Hs]].
  destruct (s_Argv (k_simple k)) as [|a rest] eqn:Ea; [done|]. rewrite Hs in H.
  apply andThen_finished in H as ([end_ st] & n1 & [= <- <- <-] & H). cbv zeta in H.
  destruct cmd as [|c cmd]; [by destruct Hr|].
  apply andThen_finished in H as (inner & n2 & _ & H). apply andThen_finished in H as (nested & n3 & _ & H).
  apply andThen_finished in H as (shells & n4 & _ & [= <- <-]).
  destruct (u_chrooted st'); eexists; (split; [by left|]); done.
Qed.

Lemma andThen_ok {E A B} (a : A) (k : A -> T B) n : andThen (lift (@Ok E A a)) k n = k a n.
Proof. done. Qed.

Lemma andThen_pure {A B} (a : A) (k : A -> T B) n : andThen (pure a) k n = k a n.
Proof. done. Qed.

(** A command that runs no other: no runner, no text for a shell, no remote command. *)
Definition runs_itself (cmd : list string) : Prop :=
  runnerInner cmd = Ok None /\ shellDashC cmd = Ok None /\ cmdSlashC cmd = None /\ sshCommandSources url_Parse ParseIP cmd = Ok [].

Lemma unwrapped_reads normalize fuel k cmd n :
  runs_words (s_Argv (k_simple k)) cmd -> runs_itself cmd ->
  exists out, unwrap_fuel Parse url_Parse ParseIP normalize (S fuel) k n = Finished (Some out, n).
Proof.
  intros Hr (H1 & H2 & H3 & H4). cbn [unwrap_fuel].
  destruct (strip_runs (wordUnresolved (is_literal Parse) (k_simple k)) _ _ (start_unwrap (k_simple k)) Hr) as [Hne [st' Hs]].
  destruct (s_Argv (k_simple k)) as [|a rest] eqn:Ea; [done|]. rewrite Hs.
  destruct cmd as [|c cmd]; [by destruct Hr|]. rewrite andThen_ok. cbv zeta. rewrite H1, andThen_ok, andThen_pure.
  unfold shells_of. rewrite H2, H3, H4. by eexists.
Qed.

(** What comes out of a command: the words its wrappers run; or the words as they are
    and the mark of a command that could not be read, unless it runs no other. *)
Definition comes_out (argv cmd : list string) (s : Simple) : Prop :=
  s_Argv s = cmd \/ (s_Argv s = argv /\ s_Unresolved s = true /\ ~ runs_itself cmd).

Lemma finished_words normalize recursive k cmd out n n' :
  runs_words (s_Argv (k_simple k)) cmd ->
  finish_one normalize recursive ∅ k n = Finished (Some out, n') ->
  exists s, s ∈ out /\ comes_out (s_Argv (k_simple k)) cmd s.
Proof.
  intros Hr H. unfold Normalize.finish_one in H. cbv zeta in H.
  set (k1 := match option_map st_id (k_origin k) ≫= fun id => recursive !! id with Some c => with_call_state c k | None => k end) in H.
  assert (H1 : s_Argv (k_simple k1) = s_Argv (k_simple k)) by (subst k1; destruct (k_origin k) as [o|]; cbn; [by destruct (recursive !! st_id o)|done]). clearbody k1.
  set (k2 := if gitEnvironmentAssignmentUnknown QuoteMeta (k_origin k1) then _ else k1) in H.
  assert (H2 : s_Argv (k_simple k2) = s_Argv (k_simple k)) by (subst k2; clear H; by destruct (gitEnvironmentAssignmentUnknown QuoteMeta (k_origin k1))). clearbody k2.
  replace (option_map st_id (k_origin k) ≫= fun id => (∅ : gmap nat (list Simple)) !! id) with (@None (list Simple)) in H
    by (by destruct (option_map st_id (k_origin k))).
  destruct (stripAndUnwrap Parse url_Parse ParseIP normalize k2 n) as [[[expanded|] n1]| |] eqn:E; [..|done|done];
    cbn [run_bind] in H; injection H as <- _.
  - rewrite <- H2 in Hr. destruct (unwrapped_words normalize _ k2 cmd expanded n n1 Hr E) as (s & Hs & Ha).
    exists s. split; [done|by left].
  - eexists. split; [by left|]. right. split_and!; [by rewrite <- H2|done|]. intros Hself. rewrite <- H2 in Hr.
    destruct (unwrapped_reads normalize (length (s_Argv (k_simple k2))) k2 cmd n Hr Hself) as [out E'].
    unfold stripAndUnwrap in E. congruence.
Qed.

Lemma finish_all_in normalize recursive replacements l : forall n out n' k,
  k ∈ l -> finish_all normalize recursive replacements l n = Finished (Some out, n') ->
  exists m chunk m', finish_one normalize recursive replacements k m = Finished (Some chunk, m') /\ forall s, s ∈ chunk -> s ∈ out.
Proof.
  induction l as [|k0 l IH]; intros n out n' k Hk H; [by apply elem_of_nil in Hk|].
  apply andThen_finished in H as (first & n1 & H1 & H). apply andThen_finished in H as (more & n2 & H2 & [= <- <-]).
  apply elem_of_cons in Hk as [->|Hk].
  - exists n, first, n1. split; [done|]. intros s Hs. by apply elem_of_app; left.
  - destruct (IH _ _ _ _ Hk H2) as (m & chunk & m' & Hone & Hin). exists m, chunk, m'. split; [done|].
    intros s Hs. apply elem_of_app. right. by apply Hin.
Qed.

(** The words of a literal call come out of the tree as they are. *)
Lemma extracted_words command states fates pipelines t assigns args argv :
  is_Some (states !! st_id t) -> st_Cmd t = Some (CallExpr assigns args) -> args <> [] ->
  Forall2 (fun w a => literalText Parse (word_text command w) = Some a) args argv ->
  exists k, extract_statement Parse command (Some states) (fun _ => false) fates pipelines t = Some k /\ s_Argv (k_simple k) = argv.
Proof.
  intros [c Hc] Hcmd Hne Hwords. unfold extract_statement.
  assert (Hu : untracked (Some states) t = false) by (unfold untracked; rewrite Hc; by rewrite bool_decide_eq_true_2).
  rewrite Hu, Hcmd. cbn [stands_in andb]. destruct args as [|w args]; [done|]. cbn [is_nil andb].
  eexists. split; [done|]. unfold statement_simple, tracked. rewrite Hc. cbn [k_simple s_Argv].
  clear -Hwords. induction Hwords as [|w0 a ws as_ Hw Hws IH]; [done|]. cbn [map]. rewrite IH. f_equal.
  unfold read_word. by rewrite Hw.
Qed.

Lemma reached_extracted fuel command state depth active inherited next r next' stmts t assigns args argv cmd :
  normalizeWithState (S fuel) command state depth ∅ active inherited next = Finished (Some r, next') ->
  Parse command = Some stmts -> plain_source Parse command stmts -> reached Parse command stmts t ->
  st_Cmd t = Some (CallExpr assigns args) ->
  Forall2 (fun w a => literalText Parse (word_text command w) = Some a) args argv ->
  runs_words argv cmd -> exists s, s ∈ r_simples r /\ comes_out argv cmd s.
Proof.
  intros H Hparse Hplain Hreach Hcmd Hwords Hrun. assert (Hne : argv <> []) by (by destruct (strip_runs (fun _ => false) _ _ {| u_gitEnvironment := ∅; u_gitEnvironmentUnknown := false; u_Unresolved := false; u_goBin := ""; u_fsUncertain := false; u_chrooted := false |} Hrun)). cbn [Normalize.normalizeWithState] in H. rewrite Hparse in H. cbv zeta in H.
  destruct (pipelinePositions _ _ _ _ _ _) as [positions n1]. set (pipelines := inherit _ _ _ _ _ _) in H. clearbody pipelines.
  set (start := {| wk_states := ∅ |}) in H.
  match type of H with run_bind ?m _ = _ => destruct m as [[out w]| |] eqn:Ewalk; [|done..] end. cbn [run_bind] in H.
  destruct (reached_recorded _ _ _ _ _ _ _ _ _ _ _ _ _ _ _ _ Hreach Hplain (eq_refl : wk_functions start = ∅) Ewalk) as (Hrepl & Hrec & Hvis).
  change (wk_replacements start) with (∅ : gmap nat (list Simple)) in Hrepl. rewrite Hrepl in H.
  unfold extractSimples in H. destruct (stdoutFates Parse command stmts) as [fates|]; [|done]. cbn [run_bind] in H.
  apply andThen_finished in H as (simples & n2 & H & [= <- <-]). cbn [r_simples].
  assert (Hne' : args <> []) by (intros ->; by apply Forall2_nil_inv_l in Hwords).
  destruct (extracted_words command (wk_states w) fates pipelines t assigns args argv Hrec Hcmd Hne' Hwords) as (k & Hk & Hargv).
  assert (Hin : k ∈ extract_tokenized Parse command (Some (wk_states w)) (fun id => bool_decide (is_Some ((∅ : gmap nat (list Simple)) !! id))) fates pipelines stmts).
  { unfold extract_tokenized. apply list_elem_of_omap. exists (VStmt t). split.
    - apply Hvis. intros s Hs. unfold enters, untracked, stands_in. rewrite (bool_decide_eq_true_2 _ Hs), lookup_empty. done.
    - rewrite <- Hk. unfold extract_statement, stands_in, statement_simple. by rewrite lookup_empty. }
  destruct (finish_all_in _ _ _ _ _ _ _ _ Hin H) as (m & chunk & m' & Hone & Hchunk).
  rewrite <- Hargv in Hrun |- *. destruct (finished_words _ _ _ _ _ _ _ Hrun Hone) as (s & Hs & Ha). exists s. split; [by apply Hchunk|done].
Qed.
End Judged.

(** ** The engine on a whole command line *)

Section EndToEnd.
Context (Parse : string -> option (list Stmt)) (QuoteMeta : string -> string)
  (pattern_matches : string -> string -> option bool) (SplitBraces : Word -> bool) (cd : CdHost)
  (map_order : list Stmt -> list Stmt) (url_Parse : string -> option URL) (ParseIP : string -> option string)
  (getenv : string -> option string).
Context (h : PathHost) (Hok : host_ok h) (word_rune : Z -> bool) (RunningVersion : string)
  (glob : string -> string -> bool) (error_text : net_error -> string)
  (parse_path : string -> option (string * string * option string)).

#[local] Notation lit := (is_literal Parse).

(** [normalizeToolCall] with this parser and these hosts. *)
Definition tool_call_simples (fuel : nat) (tc : ToolCall) : run (option (list Simple)) :=
  normalizeToolCall Parse QuoteMeta pattern_matches SplitBraces cd map_order url_Parse ParseIP getenv fuel tc.

(** [analyzeBash]; a walk that runs out of fuel would not return. *)
Definition analyzeBash (fuel : nat) (tc : ToolCall) : outcome bashAnalysis :=
  match tool_call_simples fuel tc with
  | Finished simples => Returns (analyze_simples lit tc simples)
  | Crashed | OutOfFuel => Panics
  end.

(** The engine, from the text of a command to its answer. *)
Definition evaluate_text (fuel : nat) : ToolCall -> Policy -> Verdict :=
  evaluate_commands h lit word_rune RunningVersion url_Parse ParseIP glob error_text Parse parse_path (analyzeBash fuel).

#[local] Notation judged fuel tc pol simples :=
  (judged_command h lit word_rune RunningVersion url_Parse ParseIP glob error_text Parse (analyzeBash fuel) tc pol
     (analyze_simples lit tc (Some simples))).
#[local] Notation exempt_of tc simples := (exemption h Parse tc (analyze_simples lit tc (Some simples))).

(** A call of literal words that the walk is sure to reach. *)
Definition reached_words (command : string) (argv : list string) : Prop :=
  exists stmts t assigns args,
    Parse command = Some stmts /\ plain_source Parse command stmts /\ reached Parse command stmts t /\
    st_Cmd t = Some (CallExpr assigns args) /\
    Forall2 (fun w a => literalText Parse (word_text command w) = Some a) args argv.

Lemma prepared_words (es : list (Simple * option findEvaluation)) : forall initialized s find,
  (s, find) ∈ es -> exists i s', prepared initialized es !! i = Some (s', find) /\ s_Argv s' = s_Argv s /\ s_Unresolved s' = s_Unresolved s.
Proof.
  induction es as [|[s0 find0] es IH]; intros initialized s find H; [by apply elem_of_nil in H|]. cbn [prepared].
  apply elem_of_cons in H as [[= <- <-]|H].
  - exists 0%nat. eexists. split; [done|]. unfold expects_init. destruct initialized; by repeat case_match.
  - destruct (IH (gitInitCurrentDirectory (expects_init initialized s0)) s find H) as (i & s' & Hi & Ha). by exists (S i), s'.
Qed.

#[local] Notation out_of := (comes_out url_Parse ParseIP).

Lemma reached_simple fuel tc simples argv cmd :
  tool_call_simples fuel tc = Finished (Some simples) -> reached_words (tc_Command tc) argv ->
  runs_words argv cmd -> exists s, s ∈ simples /\ out_of argv cmd s.
Proof.
  intros H (stmts & t & assigns & args & Hparse & Hplain & Hreach & Hcmd & Hwords) Hrun.
  unfold tool_call_simples, normalizeToolCall, normalizeWithContext in H.
  match type of H with run_bind ?m _ = _ => destruct m as [[[r|] n]| |] eqn:E; [|done..] end.
  cbn [run_bind option_map] in H. injection H as <-. destruct fuel as [|fuel]; [done|].
  by destruct (reached_extracted _ _ _ _ _ _ _ _ _ _ _ _ _ _ _ _ _ _ _ _ _ _ _ E Hparse Hplain Hreach Hcmd Hwords Hrun) as (s & ? & ?);
    exists s.
Qed.

Lemma reached_evaluated fuel tc simples argv cmd :
  tool_call_simples fuel tc = Finished (Some simples) -> reached_words (tc_Command tc) argv -> runs_words argv cmd ->
  exists s exempt, evaluated (analyze_simples lit tc (Some simples)) (exempt_of tc simples) s exempt /\ out_of argv cmd s.
Proof.
  intros H Hr Hrun. destruct (reached_simple fuel tc simples argv cmd H Hr Hrun) as (s & Hs & Ha).
  destruct (prepared_words (ba_simples (analyze_simples lit tc (Some simples))) None s (find_evaluation lit tc s)) as (i & s' & Hi & Ha').
  { cbn [analyze_simples ba_simples]. apply list_elem_of_In, in_map_iff. exists s. by rewrite <- list_elem_of_In. }
  destruct Ha' as [Ha' Hu]. exists s', (exempt_of tc simples i). split; [by eapply evaluated_entry|].
  unfold comes_out in *. by rewrite Ha', Hu.
Qed.


Lemma rm_runs_itself cmd : head cmd = "rm" -> runs_itself url_Parse ParseIP cmd.
Proof.
  intros Hh. unfold runs_itself, runnerInner, shellDashC, cmdSlashC, sshCommandSources. rewrite Hh. done.
Qed.

End EndToEnd.

(** ** Witnesses *)

(** Words of a source, one space apart from each other. *)
Fixpoint laid (pos : nat) (words : list string) : list Word :=
  match words with
  | [] => []
  | w :: words => MkWord pos (pos + String.length w) [Lit w] :: laid (S (pos + String.length w)) words
  end.

Definition laid_call (id pos : nat) (words : list string) : Stmt :=
  MkStmt {| at_id := id; at_Pos := pos; at_End := pos + String.length (Join words " ") |}
    (Some (CallExpr [] (laid pos words))) false false false false [].

(** What the parser says of one literal word after a colon. *)
Definition demo_word_parse (source : string) : option (list Stmt) :=
  match CutPrefix source ": " with
  | Some w => if (w <>s? "") && all_bytes (fun c => is_letter c || is_digit c || ContainsByte "-/." c) w
              then Some [laid_call 0 0 [":"; w]] else None
  | None => None
  end.

Definition demo_line : string := "ls src && nohup rm -rf src".
Definition demo_line_tree : list Stmt :=
  [MkStmt (unplaced 0) (Some (BinaryCmd AndStmt (laid_call 1 0 ["ls"; "src"]) (laid_call 2 10 ["nohup"; "rm"; "-rf"; "src"])))
     false false false false []].

Definition demo_line_parse (source : string) : option (list Stmt) :=
  if source =s? demo_line then Some demo_line_tree else demo_word_parse source.

Definition demo_line_call : ToolCall := demo_call CapabilityCommand demo_line.

Definition demo_line_simples : run (option (list Simple)) :=
  tool_call_simples demo_line_parse (fun s => s) (fun _ _ => None) (fun _ => false) demo_cd_host (fun l => l)
    (fun _ => None) (fun _ => None) (fun _ => None) 2 demo_line_call.

Definition demo_line_evaluate : ToolCall -> Policy -> Verdict :=
  evaluate_text demo_line_parse (fun s => s) (fun _ _ => None) (fun _ => false) demo_cd_host (fun l => l)
    (fun _ => None) (fun _ => None) (fun _ => None) demo_path_host (fun _ => false) "" demo_path_glob (fun _ => "")
    (fun _ => None) 2.
Definition demo_simples : list Simple := match demo_line_simples with Finished (Some l) => l | _ => [] end.

Lemma demo_line_normalized : demo_line_simples = Finished (Some demo_simples).
Proof. vm_compute. reflexivity. Qed.

Lemma demo_line_judged :
  judged_command demo_path_host (is_literal demo_line_parse) (fun _ => false) "" (fun _ => None) (fun _ => None) demo_path_glob
    (fun _ => "") demo_line_parse
    (analyzeBash demo_line_parse (fun s => s) (fun _ _ => None) (fun _ => false) demo_cd_host (fun l => l)
       (fun _ => None) (fun _ => None) (fun _ => None) 2)
    demo_line_call demo_policy (analyze_simples (is_literal demo_line_parse) demo_line_call (Some demo_simples)).
Proof.
  split; [|done]. split; [by right; left|]. split; [by split|]. split; [done|]. split; [done|].
  split; [|by eexists]. unfold analyzeBash. pose proof demo_line_normalized as H. unfold demo_line_simples in H. by rewrite H.
Qed.

Lemma demo_line_runs : runs_words ["nohup"; "rm"; "-rf"; "src"] ["rm"; "-rf"; "src"].
Proof.
  split_and!; [done|apply in_list_false; reflexivity|right]. split; [done|].
  apply (wrapped_layer _ ["nohup"] ["rm"; "-rf"; "src"]); [by apply layer_nohup|apply wrapped_here].
Qed.

Lemma demo_line_reached : reached_words demo_line_parse demo_line ["nohup"; "rm"; "-rf"; "src"].
Proof.
  exists demo_line_tree, (laid_call 2 10 ["nohup"; "rm"; "-rf"; "src"]), [], (laid 10 ["nohup"; "rm"; "-rf"; "src"]).
  split_and!; [reflexivity| | |reflexivity|].
  - unfold plain_source, demo_line_tree, file_visits. cbn.
    repeat constructor; try done; cbn; (eexists; split; [vm_compute; reflexivity|reflexivity]).
  - eexists. split; [by left|]. apply rtc_once. eexists. split; [reflexivity|]. apply runs_right. split; [reflexivity|]. vm_compute. discriminate.
  - repeat constructor; vm_compute; reflexivity.
Qed.


