(* ===== verification/TokenFacts.v ===== *)
(** * Facts about whole sources

    The states the tokenizer carries stay well-formed however sources are nested, and
    what the walk over a source misses, shown on concrete command lines. *)

From Stdlib Require Import ZArith Lia Bool.
From S2P Require Import Prelude GoStrings GoPath Policy Argv Engine Simple Wrappers NetRules Syntax StdoutFate ShellState ShellVars ShellCd StdinFlow Extract Walker WalkInvariant Normalize Fuel Reach.

Open Scope string_scope.
Open Scope list_scope.

(** ** States *)

#[export] Instance state_ok_closed : Closed state_ok.
Proof.
  split; try done.
  - apply merge_ok.
  - intros names s. apply without_resolved_ok.
  - intros name value s. apply with_variable_ok.
  - intros name s persistent H _. by apply restore_variable_ok.
Qed.

Section States.
Context (Parse : string -> option (list Stmt)) (QuoteMeta : string -> string)
  (pattern_matches : string -> string -> option bool) (SplitBraces : Word -> bool) (h : CdHost)
  (map_order : list Stmt -> list Stmt) (url_Parse : string -> option URL) (ParseIP : string -> option string).

#[local] Notation normalizeWithState := (normalizeWithState Parse QuoteMeta pattern_matches SplitBraces h map_order url_Parse ParseIP).
#[local] Notation walk_list normalize command active pipelines :=
  (walk_list Parse QuoteMeta pattern_matches SplitBraces h normalize command active pipelines).

Lemma anything_allowed {A} (visits : A -> list visited) l : Forall (fun _ : visited => True) (flat_map visits l).
Proof. by apply Forall_forall. Qed.

(** A walk keeps the states, when what it nests does. *)
Lemma walk_kept (ok : cwdState -> Prop) `{!Closed ok} normalize command active pipelines depth stmts s w out w' :
  (forall source s depth fs running inherited n r n',
     ok s -> normalize source s depth fs running inherited n = Finished (Some r, n') -> ok_out ok (r_outcome r)) ->
  ok s -> walk_list normalize command active pipelines depth stmts s w = Finished (out, w') -> kept ok w w' /\ ok_out ok out.
Proof.
  intros Hn Hs H. pose proof (kept_invariant Parse QuoteMeta h normalize command active pipelines ok Hn) as Hinv.
  refine (walk_list_good Parse QuoteMeta pattern_matches SplitBraces h normalize command active pipelines ok (fun _ => True) (kept ok)
    depth stmts s _ Hs w out w' H). apply anything_allowed.
Qed.

Lemma normalized_closed (ok : cwdState -> Prop) `{!Closed ok} fuel : forall command state depth fs active inherited n r n',
  ok state -> normalizeWithState fuel command state depth fs active inherited n = Finished (Some r, n') -> ok_out ok (r_outcome r).
Proof.
  induction fuel as [|fuel IH]; intros command state depth fs active inherited n r n' Hs H; [done|].
  cbn [Normalize.normalizeWithState] in H. destruct (Parse command) as [stmts|]; [|done]. cbv zeta in H.
  destruct (pipelinePositions _ _ _ _ _ _) as [positions n1].
  match type of H with run_bind ?m _ = _ => destruct m as [[out w]| |] eqn:Ewalk; [|done..] end. cbn [run_bind] in H.
  match type of H with run_bind ?m _ = _ => destruct m as [base| |]; [|done..] end. cbn [run_bind] in H.
  apply andThen_finished in H as (simples & n2 & _ & [= <- _]). cbn [r_outcome].
  by apply (walk_kept ok) in Ewalk as [_ Ho].
Qed.

(** C26: The tokenizer never knows a variable it has lost track of. Every state it records
    for a statement or a call of a source, at whatever depth of functions, [eval] and
    loops, and both states a source may end in, know no variable once the
    attributes of variables are unknown. *)
Theorem states_well_formed fuel command active pipelines depth stmts s w out w' :
  walk_list (normalizeWithState fuel) command active pipelines depth stmts s w = Finished (out, w') ->
  state_ok s ->
  (forall id t, wk_states w !! id = Some t \/ wk_recursive w !! id = Some t -> state_ok t) ->
  (forall id t, wk_states w' !! id = Some t \/ wk_recursive w' !! id = Some t -> state_ok t) /\
  state_ok (o_success out) /\ state_ok (o_failure out).
Proof.
  intros H Hs Hw.
  destruct (walk_kept state_ok _ _ _ _ _ _ _ _ _ _ (normalized_closed state_ok fuel) Hs H) as [(_ & Hst & Hrec) [Ho Hf]].
  split_and!; [|done..]. intros id t [Ht|Ht].
  - destruct (Hst _ _ Ht) as [Hold|]; [by apply (Hw id); left|done].
  - destruct (Hrec _ _ Ht) as [Hold|]; [by apply (Hw id); right|done].
Qed.
End States.

(** ** What the walk misses *)

(** The parser on one line of interest, and on single words. *)
Definition parse_line (line : string) (tree : list Stmt) (source : string) : option (list Stmt) :=
  if source =s? line then Some tree else demo_word_parse source.

(** The words of the commands a line comes to, with two sources of fuel. *)
Definition commands_of (line : string) (tree : list Stmt) : run (option (list (list string))) :=
  run_bind (Normalize (parse_line line tree) (fun s => s) (fun _ _ => None) (fun _ => false) demo_cd_host (fun l => l)
              (fun _ => None) (fun _ => None) (fun _ => None) 2 line "/w/repo")
    (fun r => Finished (option_map (map s_Argv) r)).

Definition a_stmt (id : nat) (cmd : Command) : Stmt := MkStmt (unplaced id) (Some cmd) false false false false [].

(** A command behind [coproc] is not judged at all. *)
Lemma coproc_not_judged :
  commands_of "coproc rm -rf /" [a_stmt 0 (CoprocClause (Some (laid_call 1 7 ["rm"; "-rf"; "/"])))] = Finished (Some []).
Proof. vm_compute. reflexivity. Qed.

(** Once a substitution may have changed the file system, the later ones of the call
    are not walked. *)
Lemma later_substitution_not_judged :
  commands_of "echo $(ls) $(rm -rf /)"
    [a_stmt 0 (CallExpr [] [MkWord 0 4 [Lit "echo"]; MkWord 5 10 [CmdSubst 5 [laid_call 1 7 ["ls"]]];
                            MkWord 11 22 [CmdSubst 11 [laid_call 2 13 ["rm"; "-rf"; "/"]]]])] =
  Finished (Some [["echo"; "$(ls)"; "$(rm -rf /)"]; ["ls"]]).
Proof. vm_compute. reflexivity. Qed.

(** [time] with nothing to time panics. *)
Lemma bare_time_panics : commands_of "time" [a_stmt 0 (TimeClause None)] = Crashed.
Proof. vm_compute. reflexivity. Qed.

(** [:] counts as true even where it is a function that fails. *)
Lemma colon_function_trusted :
  commands_of ":() { false; }; if :; then ls; else rm -rf /; fi"
    [a_stmt 0 (FuncDecl ":" (MkStmt {| at_id := 1; at_Pos := 4; at_End := 14 |} (Some (Block [laid_call 2 6 ["false"]])) false false false true []));
     a_stmt 3 (IfCmd (MkIf true [laid_call 4 19 [":"]] [laid_call 5 27 ["ls"]]
       (Some (MkIf false [] [laid_call 6 36 ["rm"; "-rf"; "/"]] None))))] =
  Finished (Some [[":"]; ["ls"]]).
Proof. vm_compute. reflexivity. Qed.

(** The engine allows it. *)
Lemma coproc_allowed :
  let parse := parse_line "coproc rm -rf /" [a_stmt 0 (CoprocClause (Some (laid_call 1 7 ["rm"; "-rf"; "/"])))] in
  v_Decision (evaluate_text parse (fun s => s) (fun _ _ => None) (fun _ => false) demo_cd_host (fun l => l)
    (fun _ => None) (fun _ => None) (fun _ => None) PathRules.demo_path_host (fun _ => false) "" PathRules.demo_path_glob (fun _ => "")
    (fun _ => None) 2 (demo_call CapabilityCommand "coproc rm -rf /") PathRules.demo_policy) = Allow.
Proof. vm_compute. reflexivity. Qed.

(** A variable that holds an [eval] of itself. *)
Definition quote_char : string := String "034" "".
Definition eval_self : string := "eval " +:+ quote_char +:+ "$x" +:+ quote_char.
Definition eval_self_tree : list Stmt :=
  [a_stmt 0 (CallExpr [] [MkWord 0 4 [Lit "eval"]; 
     MkWord 5 9 [DblQuoted false [ParamExp (MkParameter false false false "x" None None None false None)]]])].

Definition self_state : cwdState :=
  {| c_cwd := "/w/repo"; c_unknown := false; c_fsUncertain := false; c_ifsUnknown := false; c_cdpath := ""; c_cdpathSet := false;
     c_cdpathUnknown := false; c_variables := {["x" := eval_self]}; c_namerefs := ∅; c_assignmentAttributes := ∅;
     c_attributesUnknown := false; c_gitEnvironmentUnknown := false; c_powerShell := false |}.

Definition normalize_self (fuel : nat) : nat -> run (option normalizeResult * nat) :=
  normalizeWithState (parse_line eval_self eval_self_tree) (fun s => s) (fun _ _ => None) (fun _ => false) demo_cd_host (fun l => l)
    (fun _ => None) (fun _ => None) fuel eval_self self_state 0 ∅ ∅ [].

Lemma bind_exhausted {A B} (m : M A) (k : A -> M B) w : m w = OutOfFuel -> bind m k w = OutOfFuel.
Proof. unfold bind, run_bind. by intros ->. Qed.

Lemma bind_done {A B} (m : M A) (k : A -> M B) w a w' : m w = Finished (a, w') -> bind m k w = k a w'.
Proof. unfold bind, run_bind. by intros ->. Qed.

#[local] Notation self_parse := (parse_line eval_self eval_self_tree).

Lemma self_call normalize stmt args w :
  eval_self_tree = [stmt] -> st_Cmd stmt = Some (CallExpr [] args) -> wk_functions w = ∅ ->
  (forall n, normalize eval_self self_state 0%nat ∅ ∅ [] n = OutOfFuel) ->
  call self_parse (fun s => s) demo_cd_host normalize eval_self ∅ ∅ stmt 0 false [] args self_state w = OutOfFuel.
Proof.
  intros [= <-] [= <-] Hf Hn. unfold call. cbv zeta. cbn [applyCallAssignments]. erewrite bind_done; [|reflexivity]. erewrite bind_done; [|reflexivity].
  cbn [wk_functions]. rewrite Hf, lookup_empty.
  set (simple := simpleForCall _ _ _ _ _). assert (Hs : s_Argv simple = ["eval"; eval_self]) by (vm_compute; reflexivity).
  assert (Hu : s_Unresolved simple = false) by (vm_compute; reflexivity). clearbody simple. rewrite Hs.
  replace (if wordUnresolved _ simple 0 then None else None) with (@None shellFunctionSet) by (by destruct (wordUnresolved _ _ _)).
  cbn [directCommandArgv]. apply bind_exhausted. unfold eval. rewrite Hu. cbn [c_unknown self_state orb tail].
  erewrite bind_done; [|reflexivity]. apply bind_exhausted. cbn [wk_functions]. unfold nested. cbn [Join]. by rewrite Hn.
Qed.

Lemma eval_never_ends fuel n : normalize_self fuel n = OutOfFuel.
Proof.
  revert n. induction fuel as [|fuel IH]; intros n; [done|]. unfold normalize_self in *. cbn [normalizeWithState].
  change (self_parse eval_self) with (Some eval_self_tree). cbv beta iota zeta.
  set (N := normalizeWithState _ _ _ _ _ _ _ _ fuel) in *. clearbody N.
  change (pipelinePositions _ _ _ _ _ _) with ((∅ : positions), n). cbv beta iota zeta. cbn [inherit foldl].
  match goal with |- run_bind (?m ?w) _ = _ => enough (m w = OutOfFuel) as -> by done; set (start := w) end.
  assert (Hf : wk_functions start = ∅) by done. clearbody start.
  unfold walk_list, walk_all, eval_self_tree. cbn [walk_from]. apply bind_exhausted.
  set (stmt := a_stmt 0 _).
  change (walk_stmt self_parse (fun s => s) (fun _ _ => None) (fun _ => false) demo_cd_host N eval_self ∅ ∅ 0 false stmt (merged (successOutcome self_state)) start = OutOfFuel).
  set (args := match st_Cmd stmt with Some (CallExpr _ args) => args | _ => [] end).
  change (statement 0 false false [] (fun _ => ret false)
    (fun s => bind (ret false) (fun u =>
       bind (exp_all (exp_word self_parse (fun s => s) (fun _ _ => None) (fun _ => false) demo_cd_host N eval_self ∅ ∅ 0 false) args s u)
         (fun u => call self_parse (fun s => s) demo_cd_host N eval_self ∅ ∅ stmt 0 false [] args (fs_when u s)))) self_state start = OutOfFuel).
  unfold statement. erewrite bind_done; [|reflexivity]. erewrite bind_done; [|reflexivity]. erewrite bind_done; [|reflexivity].
  apply bind_exhausted. erewrite bind_done; [|reflexivity]. erewrite bind_done; [|reflexivity].
  by apply self_call.
Qed.

(** ** Witness *)

Definition sourced_line : string := "source env && ls".
Definition sourced_tree : list Stmt :=
  [a_stmt 0 (BinaryCmd AndStmt (laid_call 1 0 ["source"; "env"]) (laid_call 2 14 ["ls"]))].

Definition sourced_walk : run (cwdOutcome * Walk) :=
  walk_list (parse_line sourced_line sourced_tree) (fun s => s) (fun _ _ => None) (fun _ => false) demo_cd_host
    (normalizeWithState (parse_line sourced_line sourced_tree) (fun s => s) (fun _ _ => None) (fun _ => false) demo_cd_host (fun l => l)
       (fun _ => None) (fun _ => None) 1)
    sourced_line ∅ ∅ 0 sourced_tree (initial_state (fun _ => None) "/w/repo" false)
    {| wk_states := ∅; wk_replacements := ∅; wk_recursive := ∅; wk_shadowed := ∅; wk_functions := ∅; wk_nextPipelineID := 0 |}.

(** After a sourced file the attributes are unknown, and the state of the command that
    follows knows no variable, though the walk began with [PWD]. *)
Lemma states_well_formed_witness :
  match sourced_walk with
  | Finished (_, w') => exists t, wk_states w' !! 2%nat = Some t /\ c_attributesUnknown t = true /\ c_variables t = ∅
  | _ => False
  end.
Proof.
  destruct sourced_walk as [[out w']| |] eqn:E; [|vm_compute in E; discriminate..].
  assert (Ht : exists t, wk_states w' !! 2%nat = Some t /\ c_attributesUnknown t = true).
  { vm_compute in E. injection E as _ <-. eexists. split; vm_compute; reflexivity. }
  destruct Ht as (t & Ht & Ha). exists t. split; [done|]. split; [done|].
  unfold sourced_walk in E.
  apply (states_well_formed (parse_line sourced_line sourced_tree) (fun s => s) (fun _ _ => None) (fun _ => false) demo_cd_host (fun l => l)
    (fun _ => None) (fun _ => None) 1 sourced_line ∅ ∅ 0%nat sourced_tree (initial_state (fun _ => None) "/w/repo" false) _ out w') in E as [Hs _].
  - by apply (Hs 2%nat t (or_introl Ht)).
  - done.
  - intros id u [Hu|Hu]; cbn in Hu; rewrite lookup_empty in Hu; discriminate.
Defined.

(** A line that runs another: [eval ls]. *)
Definition eval_line : string := "eval ls".
Definition eval_parse (source : string) : option (list Stmt) :=
  if source =s? eval_line then Some [laid_call 0 0 ["eval"; "ls"]]
  else if source =s? "ls" then Some [laid_call 0 0 ["ls"]] else demo_word_parse source.

Definition eval_normalize (fuel : nat) : run (option (list Simple)) :=
  Normalize eval_parse (fun s => s) (fun _ _ => None) (fun _ => false) demo_cd_host (fun l => l)
    (fun _ => None) (fun _ => None) (fun _ => None) fuel eval_line "/w/repo".

(** One source in depth is not enough for it; with two and with nine it comes to the
    same command. *)
Lemma normalize_fuel_irrelevant_witness :
  eval_normalize 1 = OutOfFuel /\
  (exists s, eval_normalize 2 = Finished (Some [s]) /\ s_Argv s = ["ls"]) /\ eval_normalize 2 = eval_normalize 9.
Proof.
  split; [vm_compute; reflexivity|]. split; [eexists; split; vm_compute; reflexivity|].
  apply (normalize_fuel_irrelevant eval_parse (fun s => s) (fun _ _ => None) (fun _ => false) demo_cd_host (fun l => l)
    (fun _ => None) (fun _ => None) (fun _ => None) 2 9 eval_line "/w/repo"); vm_compute; discriminate.
Defined.
