(* ===== verification/TrifectaSignals.v ===== *)
(** * The two signals of P7 ([internal/engine/trifecta_signals.go])

    [Session] has the session's memory and the escalation; here are the signals
    themselves: whether a call touches private data and whether it invokes a network
    tool, from the paths and the command line of the call.  With them P7 holds of the
    text of the commands: after a read of a secret, no line that runs a network tool is
    allowed without a question, and conversely. *)

From Stdlib Require Import ZArith Lia Bool.
From S2P Require Import Prelude GoStrings GoPath Policy Argv Merge Engine OperatorAction Session ActionGrant Ticket Hook Simple Wrappers NetRules GitRepo Operands.
From S2P Require Import FindActions Containment PathRules Syntax BashRules ShellCd Extract Walker Normalize Reach.

Section Signals.
Context (Parse : string -> option (list Stmt)) (QuoteMeta : string -> string)
  (pattern_matches : string -> string -> option bool) (SplitBraces : Word -> bool) (cd : CdHost)
  (map_order : list Stmt -> list Stmt) (url_Parse : string -> option URL) (ParseIP : string -> option string)
  (getenv : string -> option string).
Context (h : PathHost) (word_rune : Z -> bool) (glob : string -> string -> bool).
Context (fuel : nat).

#[local] Notation simples_of := (tool_call_simples Parse QuoteMeta pattern_matches SplitBraces cd map_order url_Parse ParseIP getenv fuel).
#[local] Notation analysis := (Reach.analyzeBash Parse QuoteMeta pattern_matches SplitBraces cd map_order url_Parse ParseIP getenv fuel).
#[local] Notation secret := (classifySecretPath h glob).

(** [parsePrivatePaths]; an analysis that does not return panics with the call. *)
Definition privatePathCandidates (tc : ToolCall) : outcome (list pathCandidate) :=
  if IsBash tc then obind (analysis tc) (fun bash => Returns (parsePrivatePathsAnalysis word_rune tc (Some bash)).1)
  else Returns (parsePrivatePathsAnalysis word_rune tc None).1.

Definition IsPrivateDataAccess (tc : ToolCall) (pol : Policy) : outcome bool :=
  obind (privatePathCandidates tc)
    (fun candidates => Returns (existsb (fun c => bool_decide (is_Some (classifiedSecretPath h glob c pol))) candidates)).

Definition IsNetworkAttempt (tc : ToolCall) : outcome bool :=
  if negb (IsBash tc) then Returns false
  else match simples_of tc with
  | Finished (Some simples) => Returns (existsb (fun s => netTools (head (s_Argv s))) simples)
  | Finished None => Returns false
  | Crashed | OutOfFuel => Panics
  end.

(** ** What raises a signal *)

Lemma classified_secret c pol : is_Some (classifiedSecretPath h glob c pol) <-> is_Some (secret c pol false).
Proof. unfold classifiedSecretPath. destruct (secret c pol false); split; intros []; done. Qed.

Lemma keep_worst_some w v : is_Some (keep_worst w (Some v)).
Proof. destruct w as [w|]; cbn; [destruct (_ <? _)%Z|]; done. Qed.

Lemma classify_forms_waived c pol forms w1 w2 :
  (is_Some w1 -> is_Some w2) -> is_Some (classify_forms h glob c pol true forms w1) ->
  is_Some (classify_forms h glob c pol false forms w2).
Proof.
  revert w1 w2. induction forms as [|f forms IH]; intros w1 w2 Hw; [done|]. cbn [classify_forms].
  destruct (matchesAnyGlob glob f (s_SecretDirs _)); [done|].
  destruct (matchesAnyGlob glob f (s_SecretAllow _)); [by apply IH|].
  assert (Ht : forall v u1 u2, (is_Some u1 -> is_Some u2) ->
    is_Some (take_secret pol true v u1) -> is_Some (take_secret pol false v u2)).
  { intros v u1 u2 Hu. unfold take_secret. cbn [andb]. intros _. apply keep_worst_some. }
  apply IH. destruct (matchesAnyGlob glob f (s_SecretGlobs _)), (matchesAnyGlob glob f (s_SecretAskGlobs _)); try done;
    intros _; apply keep_worst_some.
Qed.

(** Whatever P4 says of a path, waived or not, is private data to P7. *)
Lemma judged_secret_is_private c pol : is_Some (secret c pol true) -> is_Some (secret c pol false).
Proof.
  unfold classifySecretPath. destruct (classifySecretPathOperand h glob c pol true) as [v|] eqn:E1; [|by intros []].
  assert (Hs : is_Some (classifySecretPathOperand h glob c pol false)).
  { apply (classify_forms_waived c pol _ None None); [done|]. unfold classifySecretPathOperand in E1. by rewrite E1. }
  intros _. destruct Hs as [w ->]. by destruct (_ || _).
Qed.

(** A file tool on a path of the secret tiers. *)
Definition reads_secret (tc : ToolCall) (pol : Policy) : Prop :=
  IsBash tc = false /\ isFileTool tc = true /\
  exists p, p ∈ tc_Paths tc /\ is_Some (secret (tool_path tc p) pol false).

Lemma reads_secret_private tc pol : reads_secret tc pol -> IsPrivateDataAccess tc pol = Returns true.
Proof.
  intros (Hb & Hf & p & Hp & Hs). unfold IsPrivateDataAccess, privatePathCandidates. rewrite Hb. cbn [obind].
  f_equal. apply existsb_exists. exists (tool_path tc p). split; [|by apply bool_decide_eq_true, classified_secret].
  unfold parsePrivatePathsAnalysis. rewrite Hf. cbn [fst]. apply in_or_app. left. by apply in_map, list_elem_of_In.
Qed.

(** A line that is sure to reach a call of a network tool, spelled out, bare or behind
    wrappers. *)
Definition reaches_network (tc : ToolCall) : Prop :=
  IsBash tc = true /\ exists simples argv cmd,
    simples_of tc = Finished (Some simples) /\ reached_words Parse (tc_Command tc) argv /\
    runs_words argv cmd /\ runs_itself url_Parse ParseIP cmd /\ netTools (head cmd) = true.

Lemma reaches_network_signal tc : reaches_network tc -> IsNetworkAttempt tc = Returns true.
Proof.
  intros (Hb & simples & argv & cmd & Hs & Hr & Hrun & Hself & Hnet). unfold IsNetworkAttempt. rewrite Hb, Hs. cbn [negb].
  f_equal. apply existsb_exists. destruct (reached_simple _ _ _ _ _ _ _ _ _ _ _ _ _ _ Hs Hr Hrun) as (s & Hin & [Ha|(_ & _ & Hn)]); [|done].
  exists s. split; [by apply list_elem_of_In|]. by rewrite Ha.
Qed.

(** ** A session of hook calls *)

Context (fs : FS) (wd version configPath : string) {bashAnalysis : Type}
  (analyzeBash : ToolCall -> outcome bashAnalysis)
  (checkBashAnalysis : ToolCall -> Policy -> bashAnalysis -> outcome (option Verdict))
  (checkPathsAnalysis : ToolCall -> Policy -> option bashAnalysis -> outcome (option Verdict))
  (approvalKeyOf : ToolCall -> option string)
  (recipeCheck : ToolCall -> Policy -> option Verdict) (recipeCheckSession : string -> Policy -> option Verdict)
  (Digest : ActionGrant.Action -> string) (patch_command : string -> option string)
  (sessionDigest : string -> string) (binding_hash : string -> string -> string)
  (formatNano formatBanner : Time -> string).

(** What the hook is given of the two signals; where computing one panics the process
    ends, and no answer is given at all. *)
Definition private_signal (tc : ToolCall) (pol : Policy) : bool :=
  match IsPrivateDataAccess tc pol with Returns b => b | Panics => true end.
Definition network_signal (tc : ToolCall) : bool :=
  match IsNetworkAttempt tc with Returns b => b | Panics => true end.

#[local] Notation run_hook :=
  (hook fs wd version configPath url_Parse glob analyzeBash checkBashAnalysis checkPathsAnalysis private_signal network_signal
     approvalKeyOf recipeCheck recipeCheckSession Digest patch_command sessionDigest binding_hash formatNano formatBanner).
#[local] Notation p7 tc pol st :=
  (p7_verdict url_Parse glob analyzeBash checkBashAnalysis checkPathsAnalysis private_signal network_signal tc pol st).

(** One call of the hook: what it was given, and how it ended. *)
Record Run := {
  r_plane : string; r_call : ToolCall; r_host : Host; r_world : World; r_result : HookResult; r_after : World
}.

(** A transaction reads what is stored, where it can read at all. *)
Definition reads_store (io : TransactionIO) (stored : option State) : Prop :=
  match (match io_read io with NotExist => io_legacy io | r => r end) with
  | Found st => stored = Some st
  | NotExist => stored = None
  | _ => True
  end.

Lemma reads_committed io st : commits io = true -> reads_store io (Some st) -> callback_state io = st.
Proof.
  unfold commits, reads_store, callback_state. intros Hc H. apply andb_true_iff in Hc as [_ Hc].
  destruct (match io_read io with NotExist => _ | _ => _ end); try done. by simplify_eq.
Qed.

(** The hook calls of one session in the order of their transactions, over one store
    that nothing else writes. *)
Definition session_runs (sid : string) (runs : list Run) : Prop :=
  (forall r, r ∈ runs ->
     tc_SessionID (r_call r) = sid /\
     run_hook (r_plane r) (r_call r) (r_host r) (r_world r) = (r_result r, r_after r) /\
     reads_store (h_transaction (r_host r)) (w_session (r_world r))) /\
  forall k a b, runs !! k = Some a -> runs !! S k = Some b -> w_session (r_world b) = w_session (r_after a).

(** The state has seen the private data, and the network, of [p] and [n]. *)
Definition has_seen (p n : bool) (stored : option State) : Prop :=
  exists st, stored = Some st /\ (p = true -> st_SawPrivateRead st = true) /\ (n = true -> st_SawNetworkCall st = true).

Lemma session_run_keeps sid runs r p n :
  session_runs sid runs -> r ∈ runs -> has_seen p n (w_session (r_world r)) -> has_seen p n (w_session (r_after r)).
Proof.
  intros [Hruns _] Hr (st & Hst & Hp & Hn). destruct (Hruns r Hr) as (_ & Hrun & Hread).
  apply hook_session in Hrun as [->|(Hc & st' & -> & H1 & H2)]; [by exists st|]. exists st'. split; [done|].
  rewrite Hst in Hread. rewrite (reads_committed _ _ Hc Hread) in H1, H2. auto.
Qed.

Lemma session_keeps sid runs p n i a : forall j b,
  session_runs sid runs -> runs !! i = Some a -> has_seen p n (w_session (r_after a)) ->
  (i < j)%nat -> runs !! j = Some b -> has_seen p n (w_session (r_world b)).
Proof.
  induction j as [|j IH]; intros b Hs Ha Hseen Hij Hb; [lia|].
  destruct (runs !! j) as [r|] eqn:Hr; [|apply lookup_ge_None in Hr; apply lookup_lt_Some in Hb; lia].
  destruct Hs as [Hruns Hnext] eqn:E; clear E. rewrite (Hnext j r b Hr Hb).
  destruct (decide (i = j)) as [->|Hne]; [by simplify_eq|].
  eapply session_run_keeps; [by split|by eapply list_elem_of_lookup_2|]. apply IH; [by split|done..|lia|done].
Qed.

(** A call that P7 judges: an ordinary call before its execution, answered by the hook
    itself under a policy that does not waive P7. *)
Definition tracked (r : Run) (pol : Policy) : Prop :=
  ordinary_call (r_call r) /\ tc_Event (r_call r) = "pre" /\ h_daemon (r_host r) = None /\
  hook_policy fs version configPath (r_call r) (r_host r) = Some pol /\ TrifectaTrackingEnabled pol = true.

Lemma tracked_records sid runs r pol :
  sid <> "" -> session_runs sid runs -> r ∈ runs -> tracked r pol -> commits (h_transaction (r_host r)) = true ->
  has_seen (private_signal (r_call r) pol) (network_signal (r_call r)) (w_session (r_after r)).
Proof.
  intros Hsid [Hruns _] Hr (Hord & He & Hd & Hpol & Ht) Hc. destruct (Hruns r Hr) as (Hs & Hrun & _).
  apply hook_traced in Hrun; [|done|done]. rewrite Hpol in Hrun. destruct Hrun as (v & st & _ & Hst & _).
  destruct st as [st|]; [|destruct Hst as [_ Hst]; rewrite Hc, He, Hs, Ht in Hst; apply String.eqb_neq in Hsid; by rewrite Hsid in Hst].
  destruct Hst as (_ & _ & st' & -> & Hsig). exists st'. split; [done|]. unfold p7_signals, signals in Hsig. rewrite Ht in Hsig.
  cbn in Hsig. injection Hsig as -> ->. split; intros ->; apply orb_true_r.
Qed.


End Signals.

(** ** A concrete session *)

Definition demo_fetch_line : string := "curl https://example.com/x".
Definition demo_fetch_tree : list Stmt := [laid_call 0 0 ["curl"; "https://example.com/x"]].
Definition demo_word (c : ascii) : bool := is_letter c || ContainsByte "-/.:" c.

(** The parser on this line, and on one literal word after a colon. *)
Definition demo_fetch_parse (source : string) : option (list Stmt) :=
  if source =s? demo_fetch_line then Some demo_fetch_tree
  else match CutPrefix source ": " with
  | Some w => if (w <>s? "") && all_bytes demo_word w then Some [laid_call 0 0 [":"; w]] else None
  | None => None
  end.

Definition demo_read_call : ToolCall := demo_edit "/home/u/.ssh/id_rsa".
Definition demo_fetch_call : ToolCall := demo_call CapabilityCommand demo_fetch_line.

#[local] Notation demo_p7 f :=
  (f demo_fetch_parse (fun s => s) (fun _ _ => None) (fun _ => false) demo_cd_host (fun l => l) (fun _ => None)
     (fun _ => None) (fun _ => None)).

#[local] Notation demo_run_hook :=
  (hook demo_fs "/" "v0.23.36-dev" "/home/op/waivers.toml" (fun _ => None) demo_path_glob demo_analyze demo_bash demo_paths
     (demo_p7 private_signal demo_path_host (fun _ => false) demo_path_glob 2%nat) (demo_p7 network_signal 2%nat) (fun _ => None)
     (fun _ _ => None) (fun _ _ => None) ActionGrant.demo_Digest (fun _ => None) Tickets.demo_digest Tickets.demo_hash
     (fun _ => "until") (fun _ => "until")).

(** A host without night mode, whose session store holds [stored]. *)
Definition demo_session_host (stored : StateRead) : Host :=
  {| h_daemon := None; h_night := MarkerAbsent; h_base := Some PathRules.demo_policy; h_overlay := NoOverlay; h_operator := OperatorMissing;
     h_transaction :=
       {| io_mkdir := true; io_gate := true; io_lock := true; io_mkdir_state := true; io_read := stored; io_legacy := NotExist;
          io_encode := true; io_write := true; io_unlock := true; io_now := 5%Z |};
     h_config_locked := true; h_config_written := true; h_store_io := ActionGrant.demo_store_io; h_fresh := "";
     h_ticket_written := true; h_submitted := None; h_audited := true; h_now := 100%Z; h_now_session := 100%Z;
     h_now_grant := 100%Z; h_now_consume := 100%Z; h_now_exact := 100%Z |}.

Definition demo_run (tc : ToolCall) (stored : StateRead) (w : World) : Run :=
  let r := demo_run_hook "claude" tc (demo_session_host stored) w in
  {| r_plane := "claude"; r_call := tc; r_host := demo_session_host stored; r_world := w; r_result := r.1; r_after := r.2 |}.

Definition demo_first : Run := demo_run demo_read_call NotExist demo_world.
Definition demo_second : Run :=
  demo_run demo_fetch_call (match w_session (r_after demo_first) with Some st => Found st | None => NotExist end) (r_after demo_first).

(** The policy of both calls. *)
Definition demo_session_policy : Policy :=
  default PathRules.demo_policy
    (hook_policy demo_fs "v0.23.36-dev" "/home/op/waivers.toml" demo_read_call (demo_session_host NotExist)).

Lemma demo_session_runs :
  session_runs demo_fetch_parse (fun s => s) (fun _ _ => None) (fun _ => false) demo_cd_host (fun l => l) (fun _ => None)
    (fun _ => None) (fun _ => None) demo_path_host (fun _ => false) demo_path_glob 2%nat demo_fs "/" "v0.23.36-dev"
    "/home/op/waivers.toml" demo_analyze demo_bash demo_paths (fun _ => None) (fun _ _ => None) (fun _ _ => None)
    ActionGrant.demo_Digest (fun _ => None) Tickets.demo_digest Tickets.demo_hash (fun _ => "until") (fun _ => "until")
    "s1" [demo_first; demo_second].
Proof.
  split.
  - intros r Hr. rewrite !elem_of_cons, elem_of_nil in Hr. destruct Hr as [->|[->|[]]]; (split; [reflexivity|split; [apply surjective_pairing|]]);
      vm_compute; reflexivity.
  - intros [|[|k]] a b Ha Hb; [|done|done]. simplify_eq/=. reflexivity.
Qed.

Lemma demo_fetch_reaches :
  reaches_network demo_fetch_parse (fun s => s) (fun _ _ => None) (fun _ => false) demo_cd_host (fun l => l) (fun _ => None)
    (fun _ => None) (fun _ => None) 2%nat demo_fetch_call.
Proof.
  split; [reflexivity|]. eexists _, ["curl"; "https://example.com/x"], ["curl"; "https://example.com/x"].
  split; [vm_compute; reflexivity|].
  split; [|split; [split_and!; [done|apply in_list_false; reflexivity|by left]|split; [split_and!; reflexivity|reflexivity]]].
  exists demo_fetch_tree, (laid_call 0 0 ["curl"; "https://example.com/x"]), [], (laid 0 ["curl"; "https://example.com/x"]).
  split; [reflexivity|]. split; [|split; [|split; [reflexivity|]]].
  - unfold plain_source, demo_fetch_tree, file_visits. cbn.
    repeat constructor; try done; cbn; (eexists; split; [vm_compute; reflexivity|reflexivity]).
  - eexists. split; [by left|]. apply rtc_refl.
  - repeat constructor; vm_compute; reflexivity.
Qed.


(** One call with both legs is not a second leg: nothing is asked of it. *)
Example both_legs_in_one_call :
  (ApplyTrifecta (verdict Allow "" "") true true (Some zero_state) demo_policy).1 = None.
Proof. done. Qed.
