(* ===== verification/JsonCodec.v ===== *)
(** * Reading back what [json.Marshal] writes

    [encode_text] is the JSON text of any Go string, [encode_object] that of a map
    of texts.  [parse_marshal] is the round trip for documents, [parse_encoded]
    for the maps the adapters print. *)

From Stdlib Require Import ZArith Lia Bool Sorted.
From S2P Require Import Prelude GoStrings Json WriteTargets JsonText.

(** ** Runes *)

(** A valid encoding: it is read as one rune whatever follows. *)
Definition is_rune (r : string) : Prop :=
  r <> "" /\ rune_text r = r /\ forall y, rune_width (r +:+ y) = String.length r.

Lemma stake_app_length s t : stake (String.length s) (s +:+ t) = s.
Proof. induction s as [|c s IH]; [by destruct t|]. cbn. by rewrite IH. Qed.

Lemma rune_width_pos s : (1 <= rune_width s)%nat.
Proof. unfold rune_width. repeat case_match; lia. Qed.

Lemma runes_fuel_enough n s : (String.length s <= n)%nat -> runes_fuel n s = runes s.
Proof.
  unfold runes. assert (H : forall n m s, (String.length s <= n)%nat -> (String.length s <= m)%nat ->
    runes_fuel n s = runes_fuel m s); [|intros; by apply H].
  clear. induction n as [|n IH]; intros m s Hn Hm; [destruct s; [by destruct m|simpl in Hn; lia]|].
  destruct m as [|m]; [destruct s; [done|simpl in Hm; lia]|]. destruct s as [|c s]; [done|].
  cbn [runes_fuel]. set (t := String c s) in *. f_equal. pose proof (rune_width_pos t) as Hw.
  assert (Hd : (String.length (sdrop (rune_width t) t) <= String.length s)%nat).
  { destruct (rune_width t) as [|w]; [lia|]. cbn [sdrop t]. clear. revert s.
    induction w as [|w IH]; intros s; [done|]. destruct s as [|c s]; [simpl; lia|].
    cbn. specialize (IH s). lia. }
  cbn [t String.length] in Hn, Hm. apply IH; lia.
Qed.

Lemma runes_cons r s : is_rune r -> runes (r +:+ s) = r :: runes s.
Proof.
  intros (Hn & _ & Hw). unfold runes at 1. destruct r as [|c r]; [done|]. cbn [String.append String.length runes_fuel].
  change (String c (r +:+ s)) with (String c r +:+ s). rewrite Hw, stake_app_length, sdrop_app. f_equal.
  apply runes_fuel_enough. rewrite length_append. lia.
Qed.

Lemma is_rune_ascii c : (nat_of_ascii c < 128)%nat -> is_rune (String c "").
Proof.
  intros H. split_and!; [done| |].
  - unfold rune_text. by rewrite (proj2 (Nat.ltb_lt _ _) H).
  - intros y. cbn [String.append String.length]. unfold rune_width.
    assert (Hb : forall lo hi, (128 <= lo)%nat -> (lo < 256)%nat -> byte_in (byte_of lo) hi c = false).
    { intros lo hi H1 H2. unfold byte_in, byte_of. rewrite nat_ascii_embedding by lia.
      apply andb_false_iff. left. apply Nat.leb_gt. lia. }
    repeat (case_match; try done); repeat rewrite Hb in * by lia; simpl in *; try discriminate.
Qed.

Lemma is_rune_multi s r y :
  s = r +:+ y -> rune_width s = String.length r -> (2 <= String.length r)%nat -> is_rune r.
Proof.
  intros -> Hw Hl. destruct r as [|a [|b r]]; [simpl in Hl; lia..|]. split_and!; [done|done|]. intros z.
  revert Hw. cbn [String.append String.length]. destruct r as [|c [|d [|e r]]]; cbn [String.append String.length rune_width].
  - destruct (byte_in (byte_of 194) (byte_of 223) a && cont b); [done|]. repeat case_match; lia.
  - destruct (byte_in (byte_of 194) (byte_of 223) a && cont b); [done|].
    destruct (_ && cont c); [done|]. repeat case_match; lia.
  - destruct (byte_in (byte_of 194) (byte_of 223) a && cont b); [done|].
    destruct (_ && cont c); [done|]. destruct (_ && cont d); [done|]. lia.
  - destruct (byte_in (byte_of 194) (byte_of 223) a && cont b); [done|].
    destruct (_ && cont c); [done|]. destruct (_ && cont d); lia.
Qed.

Lemma Join_nil_cons r rs : Join (r :: rs) "" = r +:+ Join rs "".
Proof. destruct rs; [by rewrite append_nil_r|done]. Qed.

Lemma RuneError_rune : is_rune RuneError.
Proof.
  apply (is_rune_multi (RuneError +:+ "") _ ""); [done|by vm_compute|]. vm_compute. lia.
Qed.

(** A rune of a text is valid, or one byte that is no encoding. *)
Lemma runes_cases s r : r ∈ runes s -> is_rune r \/ (rune_text r = RuneError /\ String.length r = 1%nat).
Proof.
  unfold runes. generalize (String.length s) as n. intros n. revert s.
  induction n as [|n IH]; intros s; [destruct s; cbn; intros []%elem_of_nil|]. destruct s as [|c s]; [cbn; intros []%elem_of_nil|].
  cbn [runes_fuel]. set (t := String c s). rewrite elem_of_cons. intros [->|H]; [|by eapply IH].
  assert (Hs : forall w u, (w <= String.length u)%nat -> String.length (stake w u) = w /\ u = stake w u +:+ sdrop w u).
  { induction w as [|w IHw]; intros u Hu; [done|]. destruct u as [|d u]; [simpl in Hu; lia|].
    destruct (IHw u) as [Hl He]; [simpl in Hu; lia|]. cbn [stake sdrop String.append String.length]. split; [lia|].
    by rewrite <- He. }
  assert (Hw : (rune_width t <= String.length t)%nat).
  { subst t. unfold rune_width. repeat case_match; subst; simpl; lia. }
  pose proof (rune_width_pos t) as Hp. destruct (Hs _ _ Hw) as [Hl He].
  destruct (decide (2 <= rune_width t)%nat) as [H2|H2].
  { left. eapply is_rune_multi; [exact He|congruence|lia]. }
  replace (rune_width t) with 1%nat by lia. subst t. replace (stake 1 (String c s)) with (String c "") by (by destruct s).
  destruct (nat_of_ascii c <? 128)%nat eqn:E.
  - left. apply is_rune_ascii. by breflect.
  - right. split; [|done]. unfold rune_text. by rewrite E.
Qed.

Lemma runes_texts s : Forall is_rune (map rune_text (runes s)).
Proof.
  rewrite Forall_map. apply Forall_forall. intros r [H|[-> _]]%runes_cases; [|apply RuneError_rune].
  destruct H as (? & E & ?). by rewrite E.
Qed.

Lemma runes_Join rs : Forall is_rune rs -> runes (Join rs "") = rs.
Proof.
  induction rs as [|r rs IH]; intros H; [done|]. apply Forall_cons in H as [Hr H].
  rewrite Join_nil_cons, runes_cons by done. by rewrite IH.
Qed.

Lemma coerce_idem s : coerce (coerce s) = coerce s.
Proof.
  unfold coerce at 1. unfold coerce at 1. rewrite runes_Join by apply runes_texts. unfold coerce. f_equal.
  assert (H := runes_texts s). induction H as [|r rs (_ & E & _) _ IH]; [done|]. cbn. by rewrite E, IH.
Qed.

(** ** Strings *)

(** One rune of a string, as the encoder writes it. *)
Definition encode_piece (r : string) : string :=
  if (String.length r =? 1)%nat && (rune_text r <>s? r) then "\ufffd" else escape r.

Definition encode_body (s : string) : string := Join (map encode_piece (runes s)) "".
Definition encode_text (s : string) : string := String quote (encode_body s +:+ String quote "").

Lemma cons_decoded_cons a b r : cons_decoded a (cons_decoded b r) = cons_decoded (a +:+ b) r.
Proof. destruct r as [[s rest]|]; [|done]. cbn. by rewrite append_assoc. Qed.

Lemma cons_decoded_nil r : cons_decoded "" r = r.
Proof. by destruct r as [[s rest]|]. Qed.

Lemma unquote_byte c x : unquote (escape_byte c +:+ x) = cons_decoded (String c "") (unquote x).
Proof. destruct c as [[] [] [] [] [] [] [] []]; reflexivity. Qed.

Lemma unquote_escape s x : unquote (escape s +:+ x) = cons_decoded s (unquote x).
Proof.
  assert (H : forall n s, (String.length s <= n)%nat ->
    unquote (escape s +:+ x) = cons_decoded s (unquote x)); [|by apply (H (String.length s))].
  clear s. induction n as [|n IH]; intros s Hn.
  { destruct s; [by rewrite cons_decoded_nil|simpl in Hn; lia]. }
  destruct s as [|a t]; [by rewrite cons_decoded_nil|]. cbn [escape]. simpl in Hn.
  assert (Hplain : unquote ((escape_byte a +:+ escape t) +:+ x) = cons_decoded (String a t) (unquote x)).
  { rewrite append_assoc, unquote_byte, IH by lia. by rewrite cons_decoded_cons. }
  destruct t as [|b [|c r]]; [done..|]. simpl in Hn.
  case_match eqn:E1.
  { apply andb_true_iff in E1 as [[Ea Eb]%andb_true_iff Ec]. apply Ascii.eqb_eq in Ea, Eb, Ec. subst.
    change (unquote (("\u2028" +:+ escape r) +:+ x))
      with (cons_decoded (String "226" (String "128" (String "168" ""))) (unquote (escape r +:+ x))).
    rewrite IH by lia. by rewrite cons_decoded_cons. }
  case_match eqn:E2; [|done].
  apply andb_true_iff in E2 as [[Ea Eb]%andb_true_iff Ec]. apply Ascii.eqb_eq in Ea, Eb, Ec. subst.
  change (unquote (("\u2029" +:+ escape r) +:+ x))
    with (cons_decoded (String "226" (String "128" (String "169" ""))) (unquote (escape r +:+ x))).
  rewrite IH by lia. by rewrite cons_decoded_cons.
Qed.

Lemma unquote_quote x : unquote (String quote x) = Some ("", x).
Proof. done. Qed.

Lemma unquote_piece s r x : r ∈ runes s -> unquote (encode_piece r +:+ x) = cons_decoded (rune_text r) (unquote x).
Proof.
  intros H%runes_cases. unfold encode_piece. destruct H as [(_ & E & _)|[E Hl]].
  - rewrite E, String.eqb_refl, andb_false_r. apply unquote_escape.
  - rewrite Hl, E. assert (RuneError =s? r = false) as ->.
    { apply String.eqb_neq. intros <-. by vm_compute in Hl. } 
    reflexivity.
Qed.

Lemma unquote_body s x : unquote (encode_body s +:+ x) = cons_decoded (coerce s) (unquote x).
Proof.
  unfold encode_body, coerce. assert (H : forall r, r ∈ runes s -> r ∈ runes s) by done. revert H.
  generalize (runes s) at 1 3 4 as rs. induction rs as [|r rs IH]; intros H; [by rewrite cons_decoded_nil|].
  cbn [map]. rewrite !Join_nil_cons, append_assoc, (unquote_piece s) by (apply H; left).
  rewrite IH by (intros; apply H; by right). apply cons_decoded_cons.
Qed.

(** ** Texts and the values they are read as *)

(** [kt] is the text of a JSON string whose value is [k]. *)
Definition string_text (kt k : string) : Prop :=
  exists body k', kt = String quote (body +:+ String quote "") /\ coerce k' = k /\
    forall x, unquote (body +:+ String quote x) = Some (k', x).

(** [t] is read as [n] wherever a value may stand, at nesting depth [d] or more. *)
Definition reads (d : nat) (t : string) (n : node) : Prop :=
  forall x, delimited x -> value d (t +:+ x) = Some (n, x).

Lemma string_text_encode s : string_text (encode_text s) (coerce s).
Proof.
  exists (encode_body s), (coerce s). split_and!; [done|apply coerce_idem|].
  intros x. rewrite unquote_body, unquote_quote. cbn. by rewrite append_nil_r.
Qed.

Lemma string_text_marshal s : string_text (marshal_string s) (coerce s).
Proof.
  exists (escape s), s. split_and!; [done|done|].
  intros x. rewrite unquote_escape, unquote_quote. cbn. by rewrite append_nil_r.
Qed.

Lemma text_before_app t x : text_before (t +:+ x) x = t.
Proof.
  unfold text_before. rewrite length_append.
  replace (String.length t + String.length x - String.length x)%nat with (String.length t) by lia.
  apply stake_app_length.
Qed.

Lemma reads_string d kt k : string_text kt k -> reads d kt (NStr kt k).
Proof.
  intros (body & k' & -> & <- & Hu) x Hx.
  assert (Hv : forall y, value d (String quote y) =
    (fun xr => (NStr (text_before (String quote y) xr.2) (coerce xr.1), xr.2)) <$> unquote y) by by destruct d.
  cbn [String.append]. rewrite Hv, append_assoc. cbn [String.append]. rewrite Hu. cbn [fmap option_fmap option_map fst snd].
  pose proof (text_before_app (String quote (body +:+ String quote "")) x) as Ht.
  cbn [String.append] in Ht. rewrite append_assoc in Ht. cbn [String.append] in Ht. by rewrite Ht.
Qed.

Lemma reads_null d : reads d "null" NNull.
Proof. intros x _. by destruct d. Qed.

Lemma reads_bool d (b : bool) : reads d (if b then "true" else "false") (NBool b).
Proof. intros x _. by destruct d, b. Qed.

(** ** Numbers *)

(** Reading is not changed by what follows, when that cannot be part of a number. *)
Definition stable (f : string -> option (string * string)) : Prop :=
  forall s a r x, delimited x -> f s = Some (a, r) -> f (s +:+ x) = Some (a, r +:+ x).

Lemma delimited_not (p : ascii -> bool) c x :
  (forall c, p c = true -> number_byte c = true) -> delimited (String c x) -> p c = false.
Proof. intros Hp H. destruct (p c) eqn:E; [|done]. apply Hp in E. simpl in H. congruence. Qed.

Lemma digit_number_byte c : is_digit c = true -> number_byte c = true.
Proof. intros H. unfold number_byte. by rewrite H. Qed.

Lemma span_stable p s a r x :
  match x with String c _ => p c = false | _ => True end ->
  span p s = (a, r) -> span p (s +:+ x) = (a, r +:+ x).
Proof.
  intros Hx. revert a r. induction s as [|c s IH]; intros a r; cbn.
  - intros [= <- <-]. destruct x as [|c x]; [done|]. cbn. by rewrite Hx.
  - destruct (p c) eqn:E; [|by intros [= <- <-]]. destruct (span p s) as [a' r'] eqn:E2. intros [= <- <-].
    by rewrite (IH _ _ eq_refl).
Qed.

Lemma scan_digits_stable : stable scan_digits.
Proof.
  intros s a r x Hx. unfold scan_digits. destruct (span is_digit s) as [d r'] eqn:E.
  rewrite (span_stable _ _ _ _ x) with (2 := E).
  - destruct (d =s? ""); [done|]. by intros [= <- <-].
  - destruct x as [|c x]; [done|]. eapply delimited_not; [apply digit_number_byte|exact Hx].
Qed.

Lemma scan_integer_stable : stable scan_integer.
Proof.
  intros [|c s] a r x Hx; [done|]. intros H. cbn in *. destruct (Ascii.eqb c "0"); [by injection H as <- <-|].
  by apply (scan_digits_stable (String c s)).
Qed.

Lemma scan_fraction_stable : stable scan_fraction.
Proof.
  intros [|c s] a r x Hx; cbn.
  - intros [= <- <-]. destruct x as [|c x]; [done|]. cbn.
    rewrite (delimited_not (fun c => Ascii.eqb c ".") c x); [done| |done].
    intros d ->%Ascii.eqb_eq. done.
  - destruct (Ascii.eqb c "."); [|by intros [= <- <-]].
    destruct (scan_digits s) as [[d r']|] eqn:E; [|done]. intros [= <- <-].
    by rewrite (scan_digits_stable s d r' x).
Qed.

Lemma scan_exponent_stable : stable scan_exponent.
Proof.
  intros [|c s] a r x Hx; cbn.
  - intros [= <- <-]. destruct x as [|c x]; [done|]. cbn.
    rewrite (delimited_not (fun c => Ascii.eqb c "e" || Ascii.eqb c "E") c x); [done| |done].
    intros d [->%Ascii.eqb_eq | ->%Ascii.eqb_eq]%orb_true_iff; done.
  - destruct (_ || _); [|by intros [= <- <-]]. destruct s as [|sg s]; [done|]. cbn.
    destruct (_ || _).
    + destruct (scan_digits s) as [[d r']|] eqn:E; [|done]. intros [= <- <-].
      by rewrite (scan_digits_stable s d r' x).
    + destruct (scan_digits (String sg s)) as [[d r']|] eqn:E; [|done]. intros [= <- <-].
      change (String sg (s +:+ x)) with (String sg s +:+ x).
      by rewrite (scan_digits_stable (String sg s) d r' x).
Qed.

Lemma scan_magnitude_stable : stable scan_magnitude.
Proof.
  intros s a r x Hx. unfold scan_magnitude. destruct (scan_integer s) as [[i r1]|] eqn:E1; [|done].
  destruct (scan_fraction r1) as [[f r2]|] eqn:E2; [|done].
  destruct (scan_exponent r2) as [[e r3]|] eqn:E3; [|done]. intros [= <- <-].
  by rewrite (scan_integer_stable s i r1 x), (scan_fraction_stable r1 f r2 x), (scan_exponent_stable r2 e r3 x).
Qed.

Lemma scan_number_stable : stable scan_number.
Proof.
  intros [|c s] a r x Hx; [done|]. cbn. destruct (Ascii.eqb c "-").
  - destruct (scan_magnitude s) as [[m r']|] eqn:E; [|done]. intros [= <- <-].
    by rewrite (scan_magnitude_stable s m r' x).
  - intros H. by apply (scan_magnitude_stable (String c s)).
Qed.

(** A number begins with a digit or a minus. *)
Lemma scan_number_head c s t r :
  scan_number (String c s) = Some (t, r) -> Ascii.eqb c "-" = true \/ is_digit c = true.
Proof.
  cbn. destruct (Ascii.eqb c "-"); [by left|]. right. revert H. unfold scan_magnitude, scan_integer.
  destruct (Ascii.eqb c "0") eqn:E0; [by apply Ascii.eqb_eq in E0 as ->|].
  unfold scan_digits. cbn. by destruct (is_digit c).
Qed.

Lemma reads_number d t : scan_number t = Some (t, "") -> reads d t (NNum t).
Proof.
  intros H x Hx. apply (scan_number_stable _ _ _ x) in H as Hn; [|done]. destruct t as [|c t]; [done|].
  apply scan_number_head in H. cbn [String.append] in *.
  assert (Hv : value d (String c (t +:+ x)) =
    (fun tr => (NNum tr.1, tr.2)) <$> scan_number (String c (t +:+ x))).
  { destruct H as [H|H].
    - apply Ascii.eqb_eq in H as ->. by destruct d.
    - destruct c as [[] [] [] [] [] [] [] []]; try discriminate H; by destruct d. }
  by rewrite Hv, Hn.
Qed.

(** ** Sequences *)

Lemma sep_list_texts {A B} (item : string -> option (A * string)) close (text : B -> string) (val : B -> A) l n x :
  (forall b y, b ∈ l -> delimited y -> item (text b +:+ y) = Some (val b, y)) ->
  is_json_space close = false -> number_byte close = false -> Ascii.eqb "," close = false ->
  l <> [] -> (length l <= n)%nat ->
  sep_list item close n (Join (map text l) "," +:+ String close x) = Some (map val l, x).
Proof.
  intros Hi Hs Hc Hcomma. revert n. induction l as [|b l IH]; intros n Hl Hn; [done|].
  destruct n as [|n]; [simpl in Hn; lia|]. cbn [sep_list map]. rewrite Join_cons_app.
  destruct l as [|b' l].
  - cbn [map]. rewrite Hi; [|by left|done]. cbn [skip_space]. by rewrite Hs, Ascii.eqb_refl.
  - cbn [map]. rewrite Hi; [|by left|done]. cbn [skip_space is_json_space].
    change (is_json_space ",") with false. cbn iota. rewrite Hcomma. cbn [Ascii.eqb Bool.eqb].
    change (text b' :: map text l) with (map text (b' :: l)). rewrite IH; [done| |done|simpl in Hn |- *; lia].
    intros b0 y Hb. apply Hi. by right.
Qed.

Lemma Join_length (l : list string) : (length l <= S (String.length (Join l ",")))%nat.
Proof.
  induction l as [|w [|w' l] IH]; [simpl; lia..|].
  change (Join (w :: w' :: l) ",") with (w +:+ "," +:+ Join (w' :: l) ",").
  rewrite !length_append. simpl in *. lia.
Qed.

(** The first byte of a text. *)
Definition head_byte (t : string) : option ascii := match t with String c _ => Some c | _ => None end.

Lemma sequence_texts {A B} (item : string -> option (A * string)) close (text : B -> string) (val : B -> A) l x :
  (forall b y, b ∈ l -> delimited y -> item (text b +:+ y) = Some (val b, y)) ->
  (forall b, b ∈ l -> exists c, head_byte (text b) = Some c /\ is_json_space c = false /\ Ascii.eqb c close = false) ->
  is_json_space close = false -> number_byte close = false -> Ascii.eqb "," close = false ->
  sequence item close (Join (map text l) "," +:+ String close x) = Some (map val l, x).
Proof.
  intros Hi Hh Hs Hc Hcomma. unfold sequence. destruct l as [|b l].
  { cbn. by rewrite Hs, Ascii.eqb_refl. }
  destruct (Hh b) as (c & Hb & Hc1 & Hc2); [by left|].
  assert (Hskip : skip_space (Join (map text (b :: l)) "," +:+ String close x) =
                  Join (map text (b :: l)) "," +:+ String close x /\
                  head_byte (Join (map text (b :: l)) "," +:+ String close x) = Some c).
  { cbn [map]. rewrite Join_cons_app. destruct (text b) as [|c' t]; [done|]. injection Hb as ->.
    cbn [String.append skip_space head_byte]. by rewrite Hc1. }
  destruct Hskip as [-> Hhead]. destruct (Join _ _ +:+ _) as [|c' t] eqn:E; [done|]. injection Hhead as ->.
  rewrite Hc2, <- E. apply sep_list_texts; try done. rewrite length_append.
  pose proof (Join_length (map text (b :: l))) as H. rewrite length_map in H. simpl in *. lia.
Qed.

(** ** Arrays and objects *)

Lemma value_array d t :
  value (S d) (String "[" t) =
  (fun lr => (NArr (text_before (String "[" t) lr.2) lr.1, lr.2)) <$> sequence (value d) "]" t.
Proof. done. Qed.

Lemma value_object d t :
  value (S d) (String "{" t) =
  (fun mr => (NObj (text_before (String "{" t) mr.2) mr.1, mr.2)) <$> sequence (member (value d)) "}" t.
Proof. done. Qed.

(** What a value's text may begin with. *)
Definition value_head (t : string) : Prop :=
  exists c, head_byte t = Some c /\ is_json_space c = false /\ Ascii.eqb c "]" = false.

Lemma reads_array d (l : list (string * node)) :
  (forall tn, tn ∈ l -> reads d tn.1 tn.2 /\ value_head tn.1) ->
  let t := "[" +:+ Join (map fst l) "," +:+ "]" in reads (S d) t (NArr t (map snd l)).
Proof.
  intros Hl t x Hx. subst t. rewrite !append_assoc. cbn [String.append]. rewrite value_array.
  rewrite (sequence_texts (value d) "]" fst snd); try done.
  - cbn [fmap option_fmap option_map fst snd]. do 3 f_equal.
    pose proof (text_before_app ("[" +:+ Join (map fst l) "," +:+ "]") x) as Ht.
    rewrite !append_assoc in Ht. cbn [String.append] in Ht. exact Ht.
  - intros tn y Htn Hy. by apply Hl.
  - intros tn Htn. apply Hl in Htn as [_ H]. exact H.
Qed.

(** A member's text: the key, its value's text. *)
Definition member_text (f : string * string) : string := f.1 +:+ ":" +:+ f.2.

Record member_of (d : nat) (f : string * string) (kn : string * node) : Prop := {
  mo_key : string_text f.1 kn.1;
  mo_value : reads d f.2 kn.2;
}.

Lemma reads_object d (l : list ((string * string) * (string * node))) :
  (forall fk, fk ∈ l -> member_of d fk.1 fk.2) ->
  let t := "{" +:+ Join (map (fun fk => member_text fk.1) l) "," +:+ "}" in
  reads (S d) t (NObj t (map snd l)).
Proof.
  intros Hl t x Hx. subst t. rewrite !append_assoc. cbn [String.append]. rewrite value_object.
  rewrite (sequence_texts (member (value d)) "}" (fun fk => member_text fk.1) snd); try done.
  - cbn [fmap option_fmap option_map fst snd]. do 3 f_equal.
    pose proof (text_before_app ("{" +:+ Join (map (fun fk => member_text fk.1) l) "," +:+ "}") x) as Ht.
    rewrite !append_assoc in Ht. cbn [String.append] in Ht. exact Ht.
  - intros [[kt vt] [k n]] y Hfk Hy. destruct (Hl _ Hfk) as [Hk Hv]. cbn [fst snd] in *.
    destruct Hk as (body & k' & -> & <- & Hu).
    unfold member_text, member. cbn [fst snd]. cbn [String.append]. rewrite !append_assoc. cbn [String.append skip_space].
    change (is_json_space quote) with false. cbn iota. rewrite Ascii.eqb_refl.
    rewrite Hu. cbn [skip_space]. change (is_json_space ":") with false. cbn iota.
    change (Ascii.eqb ":" ":") with true. cbn iota. by rewrite Hv.
  - intros [[kt vt] [k n]] Hfk. destruct (Hl _ Hfk) as [Hk _]. cbn [fst snd] in Hk.
    destruct Hk as (body & k' & -> & _).
    exists quote. by split_and!.
Qed.

(** ** Whole values *)

Lemma choose_pairs {A B} (P : A -> B -> Prop) l :
  Forall (fun a => exists b, P a b) l -> exists ps, l = map fst ps /\ Forall (fun p => P p.1 p.2) ps.
Proof.
  induction 1 as [|a l [b Hb] _ (ps & -> & IH)]; [by exists []|]. exists ((a, b) :: ps). by repeat constructor.
Qed.

Lemma store_members_app k v l : store_members (l ++ [(k, v)]) = fset k v (store_members l).
Proof. unfold store_members. by rewrite foldl_app. Qed.

Lemma store_members_sorted l : fsorted (store_members l).
Proof.
  induction l as [|[k v] l IH] using rev_ind; [constructor|]. rewrite store_members_app. by apply fsorted_fset.
Qed.

(** The later of two members with one key counts. *)
Lemma fget_store_members k l : fget k (store_members l) = fget k (rev l).
Proof.
  induction l as [|[k' v] l IH] using rev_ind; [done|]. rewrite store_members_app, fget_fset, rev_app_distr.
  cbn. by rewrite IH.
Qed.

Lemma fget_rev k (m : object) : NoDup m.*1 -> fget k (rev m) = fget k m.
Proof.
  intros Hnd. destruct (fget k m) as [v|] eqn:E.
  - apply fget_In in E. clear -Hnd E. induction m as [|[k' v'] m IH]; [by apply elem_of_nil in E|].
    cbn [fmap list_fmap fst] in Hnd. apply NoDup_cons in Hnd as [Hk Hnd]. cbn [rev].
    assert (Happ : forall (l : object) kv, fget k (l ++ [kv]) =
      match fget k l with Some v => Some v | None => fget k [kv] end).
    { induction l as [|[k2 v2] l IHl]; intros kv; [done|]. cbn. by destruct (k =s? k2). }
    rewrite Happ. apply elem_of_cons in E as [[= -> ->]|E].
    + assert (fget k' (rev m) = None) as ->; [|cbn; by rewrite String.eqb_refl].
      apply fget_None. intros Hin. apply Hk. apply list_elem_of_fmap in Hin as (x & -> & Hx).
      apply list_elem_of_fmap. exists x. split; [done|]. by apply list_elem_of_In, in_rev, list_elem_of_In.
    + by rewrite IH.
  - apply fget_None. apply fget_None in E. intros Hin. apply E. apply list_elem_of_fmap in Hin as (x & -> & Hx).
    apply list_elem_of_fmap. exists x. split; [done|]. by apply list_elem_of_In, in_rev, list_elem_of_In.
Qed.

Lemma store_members_id m : fsorted m -> store_members m = m.
Proof.
  intros Hs. apply fext; [apply store_members_sorted|done|]. intros k.
  rewrite fget_store_members. by apply fget_rev, fsorted_NoDup.
Qed.

Lemma mapM_map {A B C} (f : A -> option B) (g : C -> A) (h : C -> B) l :
  Forall (fun c => f (g c) = Some (h c)) l -> mapM f (map g l) = Some (map h l).
Proof. induction 1 as [|c l Hc _ IH]; [done|]. cbn. by rewrite Hc, IH. Qed.

(** [json.Marshal], for an encoding [enc] of strings that are read as [val] of them. *)
Section Encoder.
Context (enc val : string -> string).
Context (enc_text : forall s, string_text (enc s) (val s)).

Fixpoint encode_with (v : json) : string :=
  match v with
  | Null => "null"
  | Bool b => if b then "true" else "false"
  | Num t => t
  | Str s => enc s
  | Arr _ l => "[" +:+ Join (map encode_with l) "," +:+ "]"
  | Obj _ m =>
      "{" +:+ Join (map (fun kv : string * json => let '(k, v) := kv in enc k +:+ ":" +:+ encode_with v) m) "," +:+ "}"
  end.

(** The value that comes back. *)
Fixpoint read_back (v : json) : json :=
  match v with
  | Str s => Str (val s)
  | Arr t l => Arr t (map read_back l)
  | Obj t m => Obj t (map (fun kv : string * json => let '(k, v) := kv in (k, read_back v)) m)
  | _ => v
  end.

(** Values of the types [json.Unmarshal] makes: numbers of [float64], maps whose keys
    ascend and are read as they are, no deeper than [d]. *)
Fixpoint encodable (d : nat) (v : json) {struct v} : bool :=
  match v with
  | Null | Bool _ | Str _ => true
  | Num t => bool_decide (scan_number t = Some (t, "")) && number_fits t
  | Arr t l =>
      match d with O => false | S d => bool_decide (t = AnySlice) && forallb (encodable d) l end
  | Obj t m =>
      match d with
      | O => false
      | S d =>
          bool_decide (t = AnyMap) && ascending m &&
          forallb (fun kv : string * json => let '(k, v) := kv in (val k =s? k) && encodable d v) m
      end
  end.

Lemma encode_value_head d v : encodable d v = true -> value_head (encode_with v).
Proof.
  destruct v as [|[]|t|s|t l|t m]; intros H; try (eexists; split_and!; by cbn); cbn [encode_with].
  - cbn [encodable] in H.
    apply andb_true_iff in H as [H _]. apply bool_decide_eq_true in H. destruct t as [|c t]; [done|].
    apply scan_number_head in H as [H|H]; exists c; (split; [done|]).
    + by apply Ascii.eqb_eq in H as ->.
    + by destruct c as [[] [] [] [] [] [] [] []].
  - destruct (enc_text s) as (body & k' & -> & _). by exists quote.
Qed.

Lemma fsorted_read_back (m : object) :
  fsorted m -> fsorted (map (fun kv : string * json => let '(k, v) := kv in (k, read_back v)) m).
Proof.
  unfold fsorted. intros H. assert (E : (map (fun kv : string * json => let '(k, v) := kv in (k, read_back v)) m).*1 = m.*1);
    [|by rewrite E]. clear H. induction m as [|[k v] m IH]; [done|]. cbn. f_equal. exact IH.
Qed.

Lemma encode_reads v :
  forall d, encodable d v = true -> exists n, reads d (encode_with v) n /\ to_any n = Some (read_back v).
Proof.
  induction v as [|b|t|s|t l IH|t m IH] using json_rect'; intros d Hr; cbn [encodable] in Hr.
  - exists NNull. split; [apply reads_null|done].
  - exists (NBool b). split; [apply reads_bool|done].
  - apply andb_true_iff in Hr as [H Hf]. apply bool_decide_eq_true in H. exists (NNum t).
    split; [by apply reads_number|]. cbn. by rewrite Hf.
  - exists (NStr (enc s) (val s)). split; [by apply reads_string|done].
  - destruct d as [|d]; [done|]. apply andb_true_iff in Hr as [Ht Hl]. apply bool_decide_eq_true in Ht as ->.
    rewrite forallb_forall in Hl.
    assert (Hex : Forall (fun v => exists n, (reads d (encode_with v) n /\ value_head (encode_with v)) /\
      to_any n = Some (read_back v)) l).
    { rewrite Forall_forall in *. intros v Hv. assert (Hd : encodable d v = true) by by apply Hl, list_elem_of_In.
      destruct (IH v Hv d Hd) as (n & Hn & Ha). exists n. split_and!; [done| |done].
      by eapply encode_value_head. }
    apply choose_pairs in Hex as (ps & -> & Hps). rewrite Forall_forall in Hps. eexists. split.
    + pose proof (reads_array d (map (fun p => (encode_with p.1, p.2)) ps)) as Hra. cbn zeta in Hra.
      cbn [encode_with]. rewrite !map_map in *. cbn [fst snd] in Hra. apply Hra.
      intros tn Htn. apply list_elem_of_fmap in Htn as (p & -> & Hp). by apply Hps.
    + cbn [to_any]. rewrite (mapM_map to_any _ (fun p => read_back p.1)); [cbn; by rewrite map_map|].
      apply Forall_forall. intros p Hp. by apply Hps.
  - destruct d as [|d]; [done|]. apply andb_true_iff in Hr as [[Ht Ha]%andb_true_iff Hm].
    apply bool_decide_eq_true in Ht as ->. apply ascending_sorted in Ha. rewrite forallb_forall in Hm.
    apply fsorted_read_back in Ha.
    assert (Hex : Forall (fun kv : string * json => exists n,
      member_of d (enc kv.1, encode_with kv.2) (kv.1, n) /\ to_any n = Some (read_back kv.2)) m).
    { rewrite Forall_forall in *. intros [k v] Hv. assert (Hd := Hm (k, v)).
      cbn in Hd. specialize (Hd (proj1 (list_elem_of_In _ _) Hv)). apply andb_true_iff in Hd as [Hk Hd]. breflect.
      destruct (IH (k, v) Hv d Hd) as (n & Hn & Hto). exists n. split; [|done]. split; [|done]. cbn.
      rewrite <- Hk at 2. apply enc_text. }
    apply choose_pairs in Hex as (ps & -> & Hps). rewrite Forall_forall in Hps. eexists. split.
    + pose proof (reads_object d
        (map (fun p => ((enc p.1.1, encode_with p.1.2), (p.1.1, p.2))) ps)) as Hro. cbn zeta in Hro.
      cbn [encode_with]. rewrite map_map. rewrite !map_map in Hro.
      rewrite (map_ext _ (fun p : string * json * node => member_text (enc p.1.1, encode_with p.1.2)))
        by by intros [[k v] n]. apply Hro.
      intros fk Hfk. apply list_elem_of_fmap in Hfk as (p & -> & Hp). by apply Hps.
    + cbn [to_any read_back]. rewrite (mapM_map _ _ (fun p : string * json * node => (p.1.1, read_back p.1.2))).
      * assert (E : map (fun kv : string * json => let '(k, v) := kv in (k, read_back v)) (map fst ps) =
                    map (fun p : string * json * node => (p.1.1, read_back p.1.2)) ps).
        { rewrite map_map. apply map_ext. by intros [[k v] n]. }
        rewrite E in *. cbn. by rewrite store_members_id.
      * apply Forall_forall. intros [[k v] n] Hp. destruct (Hps _ Hp) as [_ H]. cbn in *. by rewrite H.
Qed.

End Encoder.

(** What [json.Unmarshal] stores in an [any]. *)
Definition Unmarshal_any (data : string) : option json := parse data ≫= to_any.

Lemma encode_unmarshal enc val v :
  (forall s, string_text (enc s) (val s)) -> encodable val maxNestingDepth v = true ->
  Unmarshal_any (encode_with enc v) = Some (read_back val v).
Proof.
  intros He H. destruct (encode_reads enc val He v _ H) as (n & Hn & Hto). unfold Unmarshal_any, parse.
  specialize (Hn "" I). rewrite append_nil_r in Hn. by rewrite Hn.
Qed.

(** ** The round trip *)

Lemma marshal_encode v : document v -> marshal v = encode_with marshal_string v.
Proof.
  induction v as [|[]| | |t l IH|t m IH] using json_rect'; try done.
  - rewrite document_arr. intros [_ H]. cbn. do 3 f_equal. apply map_ext_in. intros v Hv.
    apply list_elem_of_In in Hv. rewrite Forall_forall in *. auto.
  - rewrite document_obj. intros (-> & _ & H). rewrite marshal_object. cbn [encode_with].
    change ("{" +:+ ?x) with (String "{" x). do 3 f_equal. apply map_ext_in. intros [k v] Hv.
    apply list_elem_of_In in Hv. rewrite Forall_forall in *. unfold marshal_field. cbn [fst snd]. 
    specialize (IH (k, v) Hv (H (k, v) Hv)). cbn [snd] in IH. by rewrite IH.
Qed.

(** Every string of the document is UTF-8. *)
Fixpoint valid_strings (v : json) : Prop :=
  match v with
  | Str s => coerce s = s
  | Arr _ l => (fix go l := match l with [] => True | v :: l => valid_strings v /\ go l end) l
  | Obj _ m => (fix go (m : object) := match m with [] => True | (_, v) :: m => valid_strings v /\ go m end) m
  | _ => True
  end.

Lemma read_back_valid v : valid_strings v -> read_back coerce v = v.
Proof.
  induction v as [| | |s|t l IH|t m IH] using json_rect'; try done.
  - cbn. by intros ->.
  - intros H. cbn. f_equal. induction IH as [|v l Hv _ IH]; [done|]. destruct H as [H1 H2]. cbn. by rewrite Hv, IH.
  - intros H. cbn. f_equal. induction IH as [|[k v] m Hv _ IH]; [done|]. destruct H as [H1 H2]. cbn.
    cbn in Hv. by rewrite Hv, IH.
Qed.

(** A document comes back from the text [json.Marshal] writes for it, whatever
    its strings hold: quotes, control characters, line separators and text that looks
    like JSON are escaped and read back as they were. *)
Theorem parse_marshal v :
  document v -> encodable coerce maxNestingDepth v = true -> valid_strings v ->
  Unmarshal_any (marshal v) = Some v.
Proof.
  intros Hd He Hs. rewrite marshal_encode by done.
  rewrite (encode_unmarshal _ coerce) by (done || apply string_text_marshal). by rewrite read_back_valid.
Qed.

Definition demo_document : json :=
  Obj AnyMap [("a", Arr AnySlice [Num "1.5e3"; Null; Str (String quote ("},{" +:+ String "010" "\<"))]);
              ("b", Obj AnyMap [])].

Lemma parse_marshal_witness : Unmarshal_any (marshal demo_document) = Some demo_document.
Proof.
  apply parse_marshal.
  - apply (proj2 (well_formed_sound false demo_document eq_refl) eq_refl).
  - by vm_compute.
  - by vm_compute.
Defined.

(** [json.Marshal] of any value: a string that is not UTF-8 is written as one that is. *)
Definition json_text (v : json) : string := encode_with encode_text v.

Lemma json_text_unmarshal v :
  encodable coerce maxNestingDepth v = true -> Unmarshal_any (json_text v) = Some (read_back coerce v).
Proof. apply encode_unmarshal, string_text_encode. Qed.
