(* ===== verification/ApprovalKey.v ===== *)
(** * The identity of an OpenCode call ([internal/engine/opencode_approval.go])

    A retry of a call the operator approved is recognised by a digest of the session, the
    directory, the tool and the canonical arguments.  The arguments are read strictly: one
    JSON value of UTF-8 text, no member twice, no lone surrogate, numbers as they are
    written.  What [Session] spends an approval on is this key. *)

From Stdlib Require Import ZArith Lia Bool.
From S2P Require Import Prelude GoStrings Policy Engine Session Simple WriteTargets Json JsonText JsonCodec.

Definition openCodeApprovalDomain : string := "agent-guardrails/opencode-approval/v1".

(** ** Surrogates *)

Definition jsonHexQuad (raw : string) : option N :=
  match raw with
  | String a (String b (String c (String d _))) =>
      match hex_digit_value a, hex_digit_value b, hex_digit_value c, hex_digit_value d with
      | Some a, Some b, Some c, Some d => Some (((a * 16 + b) * 16 + c) * 16 + d)%N
      | _, _, _, _ => None
      end
  | _ => None
  end.

Definition in_range (lo hi n : N) : bool := (lo <=? n)%N && (n <=? hi)%N.

(** The loop inside a string, after its quote; [skip] bytes were already looked at: the
    rest after the closing quote, or the end of the text; [None] is a lone surrogate, a
    broken escape or a text that ends after a backslash. *)
Fixpoint surrogate_string (skip : nat) (raw : string) : option string :=
  match raw with
  | EmptyString => Some ""
  | String c t =>
      match skip with
      | S skip => surrogate_string skip t
      | O =>
          if Ascii.eqb c quote then Some t
          else if negb (Ascii.eqb c "\") then surrogate_string 0 t
          else match t with
          | EmptyString => None
          | String e rest =>
              if negb (Ascii.eqb e "u") then surrogate_string 1 t
              else match jsonHexQuad rest with
              | None => None
              | Some codePoint =>
                  if in_range 55296 56319 codePoint then
                    match sdrop 4 rest with
                    | String "\" (String "u" low) =>
                        match jsonHexQuad low with
                        | Some low => if in_range 56320 57343 low then surrogate_string 11 t else None
                        | None => None
                        end
                    | _ => None
                    end
                  else if in_range 56320 57343 codePoint then None
                  else surrogate_string 5 t
              end
          end
      end
  end.

(** The loop outside strings; [fuel] counts them. *)
Fixpoint surrogates_fuel (fuel : nat) (raw : string) : bool :=
  match fuel with
  | O => true
  | S fuel =>
      let '(_, rest, found) := Cut raw quote in
      if found : bool
      then match surrogate_string 0 rest with Some rest => surrogates_fuel fuel rest | None => false end
      else true
  end.

Definition validJSONSurrogates (raw : string) : bool := surrogates_fuel (S (String.length raw)) raw.

(** ** Canonical arguments *)

(** [decodeStrictJSONValue]: the value as Go holds it, with [UseNumber]. *)
Fixpoint strict_value (n : node) : option json :=
  match n with
  | NNull => Some Null
  | NBool b => Some (Bool b)
  | NNum t => Some (Num t)
  | NStr _ s => Some (Str s)
  | NArr _ l => Arr AnySlice <$> mapM strict_value l
  | NObj _ m =>
      if bool_decide (NoDup m.*1)
      then (fun l => Obj AnyMap (store_members l)) <$>
             mapM (fun kv : string * node => let '(k, v) := kv in pair k <$> strict_value v) m
      else None
  end.

(** One value and nothing after it.  Its depth is bounded by the text alone. *)
Definition strict_arguments (raw : string) : option json :=
  match value (String.length raw) raw with
  | Some (n, rest) => if skip_space rest =s? "" then strict_value n else None
  | None => None
  end.

Definition canonicalOpenCodeArguments (raw : string) : option string :=
  if negb (coerce raw =s? raw) || negb (validJSONSurrogates raw) then None
  else marshal <$> strict_arguments raw.

(** ** The key *)

(** [binary.BigEndian.PutUint64] *)
Definition big_endian (n : Z) : string :=
  foldr (fun k s => String (byte_of (Z.to_nat (Z.shiftr n (8 * k) mod 256))) s) "" [7; 6; 5; 4; 3; 2; 1; 0]%Z.

Definition framed (fields : list string) : string :=
  foldr (fun f s => big_endian (Z.of_nat (String.length f)) +:+ f +:+ s) "" fields.

(** The fields that are hashed, in order. *)
Definition approval_fields (tc : ToolCall) : option (list string) :=
  if (tc_Plane tc <>s? "opencode") || (tc_Event tc <>s? "pre") || (tc_SessionID tc =s? "") || (tc_CWD tc =s? "") ||
     (tc_Tool tc =s? "") || (tc_Arguments tc =s? "")
  then None
  else (fun args => [openCodeApprovalDomain; tc_SessionID tc; tc_CWD tc; tc_Tool tc; args]) <$>
         canonicalOpenCodeArguments (tc_Arguments tc).

Definition approval_key_input (tc : ToolCall) : option string := framed <$> approval_fields tc.

Definition OpenCodeApprovalKey (sha256 : string -> string) (tc : ToolCall) : option string := sha256 <$> approval_key_input tc.

(** ** What the reader yields *)

Lemma sep_list_all {A} (item : string -> option (A * string)) (P : A -> Prop) close n s l r :
  (forall s a r, item s = Some (a, r) -> P a) -> sep_list item close n s = Some (l, r) -> Forall P l.
Proof.
  intros Hi. revert s l r. induction n as [|n IH]; intros s l r; [done|]. cbn [sep_list].
  destruct (item s) as [[a r1]|] eqn:E; [|done]. apply Hi in E. destruct (skip_space r1) as [|c r2]; [done|].
  destruct (Ascii.eqb c close); [by intros [= <- <-]; repeat constructor|]. destruct (Ascii.eqb c ","); [|done].
  destruct (sep_list item close n r2) as [[l2 r3]|] eqn:E2; [|done]. intros [= <- <-]. constructor; [done|]. by eapply IH.
Qed.

Lemma sequence_all {A} (item : string -> option (A * string)) (P : A -> Prop) close s l r :
  (forall s a r, item s = Some (a, r) -> P a) -> sequence item close s = Some (l, r) -> Forall P l.
Proof.
  intros Hi. unfold sequence. destruct (skip_space s) as [|c t]; [done|].
  destruct (Ascii.eqb c close); [by intros [= <- <-]|]. by apply sep_list_all.
Qed.

Lemma member_value (v : string -> option (node * string)) (P : node -> Prop) s k n r :
  (forall s n r, v s = Some (n, r) -> P n) -> member v s = Some ((k, n), r) -> P n.
Proof.
  intros Hv. unfold member. repeat case_match; try done. intros [= <- <- <-]. by eapply Hv.
Qed.

Lemma span_all f s d r : span f s = (d, r) -> all_bytes f d = true.
Proof.
  revert d r. induction s as [|c s IH]; intros d r; cbn; [by intros [= <- <-]|].
  destruct (f c) eqn:Ef; [|by intros [= <- <-]]. destruct (span f s) as [d' r'] eqn:E. intros [= <- <-].
  cbn. by rewrite Ef, (IH d' r').
Qed.

Lemma digits_number d : all_bytes is_digit d = true -> all_bytes number_byte d = true.
Proof. apply all_bytes_impl. intros c H. unfold number_byte. by rewrite H. Qed.

Lemma scan_digits_number s d r : scan_digits s = Some (d, r) -> d <> "" /\ all_bytes number_byte d = true.
Proof.
  unfold scan_digits. destruct (span is_digit s) as [d' r'] eqn:E. destruct (d' =s? "") eqn:Ed; [done|]. intros [= <- <-].
  split; [by apply String.eqb_neq|]. by eapply digits_number, span_all.
Qed.

Lemma scan_exponent_number s d r : scan_exponent s = Some (d, r) -> all_bytes number_byte d = true.
Proof.
  unfold scan_exponent. destruct s as [|c t]; [by intros [= <- <-]|].
  destruct (Ascii.eqb c "e" || Ascii.eqb c "E") eqn:Ec; [|by intros [= <- <-]].
  assert (Hc : number_byte c = true) by (unfold number_byte; rewrite orb_true_iff in Ec; destruct Ec as [->| ->]; by rewrite ?orb_true_r).
  destruct t as [|sg t']; [done|]. destruct (Ascii.eqb sg "+" || Ascii.eqb sg "-") eqn:Es.
  - assert (Hs : number_byte sg = true) by (unfold number_byte; rewrite orb_true_iff in Es; destruct Es as [->| ->]; by rewrite ?orb_true_r).
    destruct (scan_digits t') as [[d' r']|] eqn:E; [|done]. intros [= <- <-]. apply scan_digits_number in E as [_ E].
    cbn. by rewrite Hc, Hs.
  - destruct (scan_digits _) as [[d' r']|] eqn:E; [|done]. intros [= <- <-]. apply scan_digits_number in E as [_ E].
    cbn. by rewrite Hc.
Qed.

Lemma scan_magnitude_number s t r : scan_magnitude s = Some (t, r) -> t <> "" /\ all_bytes number_byte t = true.
Proof.
  unfold scan_magnitude. destruct (scan_integer s) as [[i r1]|] eqn:Ei; [|done].
  assert (Hi : i <> "" /\ all_bytes number_byte i = true).
  { unfold scan_integer in Ei. destruct s as [|c s]; [done|].
    destruct (Ascii.eqb c "0"); [by injection Ei as <- <-|by eapply scan_digits_number]. }
  destruct (scan_fraction r1) as [[f r2]|] eqn:Ef; [|done].
  assert (Hf : all_bytes number_byte f = true).
  { unfold scan_fraction in Ef. destruct r1 as [|c t1]; [by injection Ef as <- <-|].
    destruct (Ascii.eqb c ".") eqn:Ec; [|by injection Ef as <- <-]. destruct (scan_digits t1) as [[d r']|] eqn:E; [|done].
    cbn in Ef. injection Ef as <- <-. apply scan_digits_number in E as [_ E]. apply Ascii.eqb_eq in Ec as ->. exact E. }
  destruct (scan_exponent r2) as [[e r3]|] eqn:Ee; [|done]. apply scan_exponent_number in Ee. intros [= <- <-].
  split; [by destruct i, Hi|]. rewrite !all_bytes_app. destruct Hi as [_ ->]. by rewrite Hf, Ee.
Qed.

Lemma scan_number_document s t r : scan_number s = Some (t, r) -> document (Num t).
Proof.
  unfold scan_number. destruct s as [|c s]; [done|]. destruct (Ascii.eqb c "-") eqn:Ec.
  - destruct (scan_magnitude s) as [[m r']|] eqn:E; [|done]. intros [= <- <-]. apply scan_magnitude_number in E as [_ E].
    apply Ascii.eqb_eq in Ec as ->. by split.
  - intros E. by apply scan_magnitude_number in E.
Qed.

(** A value that was read is a document, once its members are. *)
Definition documented (n : node) : Prop := forall v, strict_value n = Some v -> document v.

Lemma literal_documented name n s n' r : documented n -> literal name n s = Some (n', r) -> documented n'.
Proof. unfold literal. destruct (CutPrefix s name); [|done]. by intros Hn [= <- <-]. Qed.

Lemma mapM_documented l vs : Forall documented l -> mapM strict_value l = Some vs -> Forall document vs.
Proof.
  intros H Hm. apply mapM_Some_1 in Hm. revert H. induction Hm as [|n v l vs Hn _ IH]; intros H; [done|].
  apply Forall_cons in H as [Hd H]. constructor; [by apply Hd|by apply IH].
Qed.

Lemma store_members_documents l : Forall (fun kv : string * json => document kv.2) l -> Forall (fun kv => document kv.2) (store_members l).
Proof.
  unfold store_members. assert (Hg : forall m, Forall (fun kv : string * json => document kv.2) m ->
    Forall (fun kv => document kv.2) l -> Forall (fun kv : string * json => document kv.2) (foldl (fun m kv => fset kv.1 kv.2 m) m l)).
  { induction l as [|[k v] l IH]; intros m Hm Hl; [done|]. apply Forall_cons in Hl as [Hv Hl]. apply IH; [|done].
    by apply Forall_fset. }
  by apply Hg.
Qed.

Lemma value_documented d text n r : value d text = Some (n, r) -> documented n.
Proof.
  revert text n r. induction d as [|d IH]; intros text n r; cbn [value]; destruct (skip_space text) as [|c t]; try done.
  - destruct (Ascii.eqb c "{"); [done|]. destruct (Ascii.eqb c "["); [done|].
    destruct (Ascii.eqb c quote); [destruct (unquote t); [|done]; by intros [= <- <-] v [= <-]|].
    destruct (Ascii.eqb c "n"); [apply literal_documented; by intros v [= <-]|].
    destruct (Ascii.eqb c "t"); [apply literal_documented; by intros v [= <-]|].
    destruct (Ascii.eqb c "f"); [apply literal_documented; by intros v [= <-]|].
    destruct (scan_number _) as [[m r']|] eqn:E; [|done]. intros [= <- <-] v [= <-]. by eapply scan_number_document.
  - destruct (Ascii.eqb c "{").
    { destruct (sequence _ _ t) as [[m r']|] eqn:E; [|done]. intros [= <- <-] v. cbn [strict_value].
      destruct (bool_decide _); [|done]. destruct (mapM _ m) as [l|] eqn:El; [|done]. intros [= <-].
      apply document_obj. split_and!; [done|apply store_members_sorted|]. apply store_members_documents.
      assert (Hm : Forall (fun kv : string * node => documented kv.2) m).
      { eapply sequence_all; [|exact E]. intros s [k n'] r2 Hmem. by eapply (member_value _ documented); [|exact Hmem]. }
      apply mapM_Some_1 in El. clear E. induction El as [|[k n'] [k' v] m l Hkv _ IHl]; [done|].
      apply Forall_cons in Hm as [Hn Hm]. cbn in Hn. constructor; [|by apply IHl]. cbn.
      destruct (strict_value n') as [v'|] eqn:Ev; [|done]. injection Hkv as _ <-. by apply Hn. }
    destruct (Ascii.eqb c "[").
    { destruct (sequence _ _ t) as [[l r']|] eqn:E; [|done]. intros [= <- <-] v. cbn [strict_value].
      destruct (mapM strict_value l) as [vs|] eqn:El; [|done]. intros [= <-]. apply document_arr. split; [done|].
      eapply mapM_documented; [|exact El]. by eapply sequence_all; [|exact E]. }
    destruct (Ascii.eqb c quote); [destruct (unquote t); [|done]; by intros [= <- <-] v [= <-]|].
    destruct (Ascii.eqb c "n"); [apply literal_documented; by intros v [= <-]|].
    destruct (Ascii.eqb c "t"); [apply literal_documented; by intros v [= <-]|].
    destruct (Ascii.eqb c "f"); [apply literal_documented; by intros v [= <-]|].
    destruct (scan_number _) as [[m r']|] eqn:E; [|done]. intros [= <- <-] v [= <-]. by eapply scan_number_document.
Qed.

Lemma strict_arguments_document raw v : strict_arguments raw = Some v -> document v.
Proof.
  unfold strict_arguments. destruct (value _ raw) as [[n r]|] eqn:E; [|done]. destruct (skip_space r =s? ""); [|done].
  by apply (value_documented _ _ _ _ E).
Qed.

(** ** The framing is unambiguous *)

Definition byte_value (c : ascii) : Z := Z.of_nat (nat_of_ascii c).

Definition frameable (f : string) : Prop := (Z.of_nat (String.length f) < 2 ^ 64)%Z.

Lemma big_endian_length n : String.length (big_endian n) = 8%nat.
Proof. done. Qed.

Lemma byte_of_inj a b : (0 <= a < 256)%Z -> (0 <= b < 256)%Z -> byte_of (Z.to_nat a) = byte_of (Z.to_nat b) -> a = b.
Proof.
  intros Ha Hb H. apply (f_equal nat_of_ascii) in H. unfold byte_of in H. rewrite !nat_ascii_embedding in H by lia. lia.
Qed.

Lemma big_endian_bits n m k : big_endian n = big_endian m -> (0 <= k < 8)%Z ->
  (Z.shiftr n (8 * k) mod 256 = Z.shiftr m (8 * k) mod 256)%Z.
Proof.
  intros H Hk. unfold big_endian in H. cbn [foldr] in H. injection H as H7 H6 H5 H4 H3 H2 H1 H0.
  pose proof (Z.mod_pos_bound (Z.shiftr n (8 * k)) 256 ltac:(lia)). pose proof (Z.mod_pos_bound (Z.shiftr m (8 * k)) 256 ltac:(lia)).
  apply byte_of_inj; [done..|].
  assert (k = 7 \/ k = 6 \/ k = 5 \/ k = 4 \/ k = 3 \/ k = 2 \/ k = 1 \/ k = 0)%Z
    as [->|[->|[->|[->|[->|[->|[->| ->]]]]]]] by lia; done.
Qed.

Lemma big_endian_inj n m : (0 <= n < 2 ^ 64)%Z -> (0 <= m < 2 ^ 64)%Z -> big_endian n = big_endian m -> n = m.
Proof.
  intros Hn Hm H. apply Z.bits_inj'. intros i Hi. destruct (decide (i < 64)%Z) as [Hlt|Hge].
  - pose proof (big_endian_bits n m (i / 8) H ltac:(split; [apply Z.div_pos; lia|apply Z.div_lt_upper_bound; lia])) as Hb.
    change 256%Z with (2 ^ 8)%Z in Hb. apply (f_equal (fun z => Z.testbit z (i mod 8))) in Hb.
    pose proof (Z.mod_pos_bound i 8 ltac:(lia)). rewrite !Z.mod_pow2_bits_low in Hb by lia.
    rewrite !Z.shiftr_spec in Hb by lia. replace (i mod 8 + 8 * (i / 8))%Z with i in Hb; [done|].
    pose proof (Z.div_mod i 8 ltac:(lia)). lia.
  - rewrite <-(Z.mod_small n (2 ^ 64)), <-(Z.mod_small m (2 ^ 64)) by done. by rewrite !Z.mod_pow2_bits_high by lia.
Qed.

Lemma app_length_inj s t u v : String.length s = String.length t -> s +:+ u = t +:+ v -> s = t /\ u = v.
Proof.
  revert t. induction s as [|c s IH]; intros [|d t] Hl; try done. cbn in *. intros [= -> H].
  injection Hl as Hl. by destruct (IH t Hl H) as [-> ->].
Qed.

Lemma framed_cons f l : framed (f :: l) = big_endian (Z.of_nat (String.length f)) +:+ f +:+ framed l.
Proof. done. Qed.

Lemma framed_inj l m : Forall frameable l -> Forall frameable m -> length l = length m -> framed l = framed m -> l = m.
Proof.
  intros Hl. revert m. induction Hl as [|f l Hf _ IH]; intros m Hm Hn; destruct Hm as [|g m Hg Hm]; try done.
  rewrite !framed_cons. intros H. apply app_length_inj in H as [Hb H]; [|done].
  apply big_endian_inj in Hb; [|unfold frameable in *; lia..]. apply app_length_inj in H as [-> H]; [|lia].
  f_equal. apply IH; [done|cbn in Hn; lia|done].
Qed.

(** ** The key is exact *)

Lemma approval_fields_inv tc l : approval_fields tc = Some l ->
  exists v, strict_arguments (tc_Arguments tc) = Some v /\
    l = [openCodeApprovalDomain; tc_SessionID tc; tc_CWD tc; tc_Tool tc; marshal v] /\
    tc_Plane tc = "opencode" /\ tc_Event tc = "pre" /\ tc_SessionID tc <> "".
Proof.
  unfold approval_fields, canonicalOpenCodeArguments.
  destruct (_ || (tc_Arguments tc =s? "")) eqn:Eg; [done|]. destruct (negb (coerce _ =s? _) || _); [done|].
  destruct (strict_arguments _) as [v|]; [|done]. cbn. intros [= <-]. exists v.
  rewrite !orb_false_iff, !negb_false_iff in Eg. destruct Eg as [[[[[Hp He] Hs] _] _] _].
  apply String.eqb_eq in Hp, He. by apply String.eqb_neq in Hs.
Qed.

(** C39: What [OpenCodeApprovalKey] hashes identifies the call: two calls that have a key
    are hashed from the same bytes exactly when they are the same session's, in the same
    directory, of the same tool, with arguments that decode to the same JSON value, number
    literals included.  No choice of the fields moves bytes from one into the next, and an
    argument text that names a member twice has no key. *)
Theorem approval_key_exact tc1 tc2 l1 l2 :
  approval_fields tc1 = Some l1 -> approval_fields tc2 = Some l2 -> Forall frameable l1 -> Forall frameable l2 ->
  (approval_key_input tc1 = approval_key_input tc2 <->
   tc_SessionID tc1 = tc_SessionID tc2 /\ tc_CWD tc1 = tc_CWD tc2 /\ tc_Tool tc1 = tc_Tool tc2 /\
   strict_arguments (tc_Arguments tc1) = strict_arguments (tc_Arguments tc2)).
Proof.
  intros H1 H2 F1 F2. unfold approval_key_input. rewrite H1, H2.
  apply approval_fields_inv in H1 as (v1 & E1 & -> & _). apply approval_fields_inv in H2 as (v2 & E2 & -> & _).
  rewrite E1, E2. cbn [fmap option_fmap option_map]. split.
  - intros H. apply Some_inj, framed_inj in H; [|done..]. injection H as -> -> -> Hm.
    apply marshal_inj in Hm as ->; [done|by eapply strict_arguments_document..].
  - by intros (-> & -> & -> & [= ->]).
Qed.

Definition demo_call (session args : string) : ToolCall :=
  {| tc_Plane := "opencode"; tc_Event := "pre"; tc_Tool := "bash"; tc_NativeTool := "bash";
     tc_ContractTool := "bash"; tc_Capability := CapabilityCommand; tc_NativeWebResearch := false; tc_URL := "";
     tc_InputShape := "command"; tc_Command := "make"; tc_Shell := ""; tc_Paths := []; tc_Arguments := quoted args;
     tc_SessionID := session; tc_CallID := ""; tc_HostApproved := false; tc_CWD := "/w/repo"; tc_RepoRoot := "/w/repo";
     tc_Raw := ""; tc_PermittedRoots := []; tc_DegradedAllows := [] |}.

(** The same arguments in another order and spelling have the same key; a member twice, a
    lone surrogate or a second value has none, and [1] is not [1.0]. *)
Example canonical_spellings :
  map (fun args => canonicalOpenCodeArguments (quoted args))
    ["{'a':1,'b':['A']}"; " { 'b' : ['\u0041'] , 'a' : 1 } "; "{'a':1.0,'b':['A']}";
     "{'a':1,'a':1}"; "{'a':'\ud800'}"; "{'a':'\ud83d\ude00'}"; "1 2"; "[1,]"] =
  [Some (quoted "{'a':1,'b':['A']}"); Some (quoted "{'a':1,'b':['A']}"); Some (quoted "{'a':1.0,'b':['A']}");
   None; None; Some (quoted "{'a':'" +:+ String (byte_of 240) (String (byte_of 159) (String (byte_of 152) (String (byte_of 128) (quoted "'}"))))); None; None].
Proof. vm_compute. reflexivity. Qed.

Lemma approval_key_exact_witness :
  let a := demo_call "s1" "{'command':'make','cwd':'x'}" in
  let b := demo_call "s1" " { 'cwd' : 'x' , 'command' : 'make' }" in
  exists l, approval_fields a = Some l /\ approval_fields b = Some l /\ Forall frameable l /\
    approval_key_input a = approval_key_input b.
Proof.
  set (l := [openCodeApprovalDomain; "s1"; "/w/repo"; "bash"; quoted "{'command':'make','cwd':'x'}"]).
  assert (Ha : approval_fields (demo_call "s1" "{'command':'make','cwd':'x'}") = Some l) by (vm_compute; reflexivity).
  assert (Hb : approval_fields (demo_call "s1" " { 'cwd' : 'x' , 'command' : 'make' }") = Some l) by (vm_compute; reflexivity).
  assert (Hl : Forall frameable l) by (repeat (constructor; [vm_compute; reflexivity|]); constructor).
  exists l. split; [exact Ha|]. split; [exact Hb|]. split; [exact Hl|].
  apply (approval_key_exact _ _ _ _ Ha Hb Hl Hl). repeat split; vm_compute; reflexivity.
Defined.

(** Another session's call has another key. *)
Example other_session :
  approval_key_input (demo_call "s1" "{}") <> approval_key_input (demo_call "s2" "{}").
Proof. by vm_compute. Qed.
