(* ===== verification/RuneText.v ===== *)
(** * Text as a sequence of runes

    A loop over the runes of a string that writes runes of its own leaves a text of
    which every rune is one of those written; splitting it into fields and joining them
    keeps that.  [Guidance] and [Fetch] are the clients. *)

From Stdlib Require Import ZArith Lia Bool.
From S2P Require Import Prelude GoStrings GitRepo WriteTargets JsonText JsonCodec.

Lemma Join_app_nil l1 l2 : Join (l1 ++ l2) "" = Join l1 "" +:+ Join l2 "".
Proof. induction l1 as [|w l1 IH]; [done|]. cbn [app]. by rewrite !Join_nil_cons, IH, append_assoc. Qed.

Section Spelled.

(** What holds of every rune. *)
Context (P : string -> Prop).

Definition rune_with (r : string) : Prop := is_rune r /\ P r.

(** A text made of such runes. *)
Definition spelled (s : string) : Prop := exists rs, s = Join rs "" /\ Forall rune_with rs.

Lemma spelled_nil : spelled "".
Proof. by exists []. Qed.

Lemma spelled_app s t : spelled s -> spelled t -> spelled (s +:+ t).
Proof.
  intros (r1 & -> & H1) (r2 & -> & H2). exists (r1 ++ r2). rewrite Join_app_nil. split; [done|]. by apply Forall_app.
Qed.

Lemma spelled_rune r : rune_with r -> spelled r.
Proof. intros H. exists [r]. split; [done|]. by constructor. Qed.

Lemma spelled_Join rs : Forall rune_with rs -> spelled (Join rs "").
Proof. by exists rs. Qed.

Lemma runes_Join_with rs : Forall rune_with rs -> runes (Join rs "") = rs.
Proof. intros H. apply runes_Join. eapply Forall_impl; [exact H|]. by intros r [? _]. Qed.

Lemma spelled_runes s : spelled s -> Forall rune_with (runes s).
Proof. intros (rs & -> & H). by rewrite runes_Join_with. Qed.

Lemma fields_func_spelled sep rs word :
  Forall rune_with rs -> spelled word -> Forall spelled (fields_func sep word rs).
Proof.
  revert word. induction rs as [|r rs IH]; intros word H Hw; cbn [fields_func].
  - destruct (word =s? ""); by repeat constructor.
  - apply Forall_cons in H as [Hr H].
    destruct (sep r); [|apply IH; [done|]; apply spelled_app; [done|by apply spelled_rune]].
    destruct (word =s? ""); [by apply IH, spelled_nil|]. constructor; [done|by apply IH, spelled_nil].
Qed.

(** [strings.Join(strings.FieldsFunc(s, sep), glue)] *)
Lemma fields_spelled sep glue s :
  spelled s -> spelled glue -> spelled (Join (FieldsFunc s sep) glue).
Proof.
  intros Hs Hg. pose proof (fields_func_spelled sep (runes s) "" (spelled_runes _ Hs) spelled_nil) as H.
  unfold FieldsFunc. induction H as [|w ws H1 H2 IH]; [apply spelled_nil|].
  destruct ws as [|w' ws]; [done|]. change (Join (w :: w' :: ws) glue) with (w +:+ glue +:+ Join (w' :: ws) glue).
  apply spelled_app; [done|]. by apply spelled_app.
Qed.

End Spelled.
