(* ===== verification/Adapter.v ===== *)
(** * Reading a plane's hook payload ([internal/adapter]: the parsers)

    Each plane hands its hook an envelope of JSON; [ParseClaude], [ParseCodex],
    [ParseOpencode] and [ParseAntigravity] turn it into the [ToolCall] that the
    engine judges.  [Err] carries the call the Go function returns beside its error;
    the text of the error is not modelled.  Decoding is [JsonText]'s, so members of
    the wrong type, repeated members and members that differ in case behave as they
    do under [json.Unmarshal].  [Unmarshal] into a struct reads a [struct] type as
    its list of [fields]. *)

From Stdlib Require Import ZArith Lia Bool Sorted Permutation.
From S2P Require Import Prelude GoStrings Regex GoPath Policy Engine GitRepo Json WriteTargets JsonText PlaneContract.

(** ** Helpers the parsers share *)

Definition zero_call : ToolCall :=
  {| tc_Plane := ""; tc_Event := ""; tc_Tool := ""; tc_NativeTool := ""; tc_ContractTool := "";
     tc_Capability := CapabilityNone; tc_NativeWebResearch := false; tc_URL := ""; tc_InputShape := "";
     tc_Command := ""; tc_Shell := ""; tc_Paths := []; tc_Arguments := ""; tc_SessionID := "";
     tc_CallID := ""; tc_HostApproved := false; tc_CWD := ""; tc_RepoRoot := ""; tc_Raw := "";
     tc_PermittedRoots := []; tc_DegradedAllows := [] |}.

(** [m[key].(string)] with its second result; [m] may be nil. *)
Definition string_at (key : string) (m : option object) : option string :=
  match fget key (default [] m) with Some (Str s) => Some s | _ => None end.

(** [s, _ := m[key].(string)] *)
Definition text_at (key : string) (m : option object) : string := default "" (string_at key m).

Definition has_member (key : string) (m : option object) : bool :=
  match fget key (default [] m) with Some _ => true | None => false end.

(** A value under several keys: the first that is a string and not empty. *)
Fixpoint first_text (keys : list string) (m : option object) : string :=
  match keys with
  | [] => ""
  | k :: keys => if text_at k m =s? "" then first_text keys m else text_at k m
  end.

(** ** mcp.go *)

Definition projectMCPPaths (mcp : MCPToolSpec) (arguments : string) : list string :=
  if bool_decide (mcp_PathArgs mcp = []) then []
  else match Unmarshal dec_any_map None arguments with
  | None => []
  | Some args =>
      let paths := flat_map (fun name =>
        match string_at name args with
        | Some v => if v <>s? "" then [mcp_PathPrefix mcp +:+ v] else []
        | None => []
        end) (mcp_PathArgs mcp) in
      if bool_decide (paths = []) && (mcp_DefaultPath mcp <>s? "") then [mcp_DefaultPath mcp] else paths
  end.

(** ** apply_patch.go *)

(** [strings.ReplaceAll(s, CR LF, LF)] *)
Fixpoint unix_lines (s : string) : string :=
  match s with
  | EmptyString => ""
  | String a t =>
      match t with
      | String b u => if Ascii.eqb a "013" && Ascii.eqb b "010" then String b (unix_lines u) else String a (unix_lines t)
      | EmptyString => s
      end
  end.

(** [rootedPath] on a POSIX host, where no path has a volume name. *)
Definition rootedPath (path : string) : bool := IsAbs path.

Definition patch_headers : list string :=
  ["*** Add File: "; "*** Update File: "; "*** Delete File: "; "*** Move to: "].

(** The paths so far and the number of headers, or an error. *)
Definition patch_state := option (list string * nat).

(** One turn of the inner loop: the line against one header. *)
Definition patch_header (cwd : string) (post : bool) (line : string) (st : patch_state) (header : string) :
    patch_state :=
  match st with
  | None => None
  | Some (paths, headers) =>
      match CutPrefix line header with
      | None => st
      | Some path =>
          if TrimSpace path =s? "" then None
          else if post && (header =s? "*** Delete File: ") then Some (paths, S headers)
          else
            let kept := if post && (header =s? "*** Move to: ") then removelast paths else paths in
            Some (kept ++ [if rootedPath path then path else JoinPath [cwd; path]], S headers)
      end
  end.

Definition patch_line (cwd : string) (post : bool) (st : patch_state) (line : string) : patch_state :=
  foldl (patch_header cwd post line) st patch_headers.

Definition newline : ascii := "010".

Definition applyPatchPaths (patch cwd : string) (post : bool) : option (list string) :=
  let lines := Split (TrimSpace (unix_lines patch)) newline in
  match lines with
  | first :: rest =>
      if (length lines <? 3)%nat || (first <>s? "*** Begin Patch") ||
         (List.last rest "" <>s? "*** End Patch")
      then None
      else match foldl (patch_line cwd post) (Some ([], O)) (removelast rest) with
      | Some (paths, S _) => Some paths
      | _ => None
      end
  | [] => None
  end.

(** ** web_research.go, codex_web.go *)

Section Parsers.

(** [url.Parse], as in [Engine]. *)
Context (url_Parse : string -> option URL).
(** [policy.FindRepoRoot]: the root, when one is found. *)
Context (FindRepoRoot : string -> option string).
(** [time.Parse(time.RFC3339, s)] succeeds. *)
Context (rfc3339 : string -> bool).
(** [os.Getenv], and [os.UserHomeDir] when it does not fail. *)
Context (Getenv : string -> string) (UserHomeDir : option string).

Definition repoRoot (cwd : string) : string := default cwd (FindRepoRoot cwd).

Definition research_query (plane native : string) : option string :=
  let key := plane +:+ "/" +:+ native in
  if in_list key ["claude/WebSearch"; "opencode/websearch"] then Some "query"
  else if key =s? "antigravity/search_web" then Some "Query"
  else None.

Definition nativeResearchCall (tc : ToolCall) : bool :=
  match research_query (tc_Plane tc) (tc_NativeTool tc) with
  | Some query =>
      match Unmarshal dec_raw_map None (tc_Arguments tc) with
      | Some input =>
          match Unmarshal dec_string "" (default "" (fget query (default [] input))) with
          | Some text => TrimSpace text <>s? ""
          | None => false
          end
      | None => false
      end
  | None =>
      in_list (tc_Plane tc +:+ "/" +:+ tc_NativeTool tc)
        ["claude/WebFetch"; "opencode/webfetch"; "antigravity/read_url_content"] &&
      validWebFetchURL url_Parse (tc_URL tc)
  end.

Definition response_lengths : list string := ["short"; "medium"; "long"].

Definition valid_length (raw : string) : bool :=
  match Unmarshal dec_string "" raw with Some l => in_list l response_lengths | None => false end.

(** [struct{ Q string }] *)
Definition query_fields : fields string := [("q", dec_string)].
Definition ref_fields : fields string := [("ref_id", dec_string)].

(** What the loop of [codexWebCapability] has counted. *)
Record web_counts := { wc_searches : nat; wc_opens : nat; wc_target : string }.

(** One member of the request; [None] is the early [return policy.CapabilityDeny]. *)
Definition web_member (c : web_counts) (kr : string * string) : option web_counts :=
  let '(key, raw) := kr in
  if key =s? "response_length" then (if valid_length raw then Some c else None)
  else if in_list key ["search_query"; "image_query"] then
    match Unmarshal (dec_slice "" (dec_struct query_fields)) nil_slice raw with
    | Some queries =>
        let qs := elements queries in
        if bool_decide (qs = []) || existsb (fun q => TrimSpace q =s? "") qs then None
        else Some {| wc_searches := wc_searches c + length qs; wc_opens := wc_opens c; wc_target := wc_target c |}
    | None => None
    end
  else if key =s? "open" then
    match Unmarshal (dec_slice "" (dec_struct ref_fields)) nil_slice raw with
    | Some requests =>
        match elements requests with
        | [ref] =>
            if validWebFetchURL url_Parse ref
            then Some {| wc_searches := wc_searches c; wc_opens := S (wc_opens c); wc_target := ref |}
            else None
        | _ => None
        end
    | None => None
    end
  else None.

Fixpoint web_members (c : web_counts) (input : list (string * string)) : option web_counts :=
  match input with
  | [] => Some c
  | kr :: input => match web_member c kr with Some c' => web_members c' input | None => None end
  end.

Definition web_verdict (c : web_counts) : Capability * string :=
  if (0 <? wc_searches c)%nat && (wc_opens c =? 0)%nat then (CapabilityWebSearch, "")
  else if (wc_opens c =? 1)%nat && (wc_searches c =? 0)%nat then (CapabilityWebFetch, wc_target c)
  else (CapabilityDeny, "").

(** [input] in the order in which the map is ranged over. *)
Definition codexWebCapability (input : list (string * string)) : Capability * string :=
  match web_members {| wc_searches := 0; wc_opens := 0; wc_target := "" |} input with
  | Some c => web_verdict c
  | None => (CapabilityDeny, "")
  end.

(** [^turn[0-9]+[A-Za-z]+[0-9]+$] *)
Definition codexResearchReference : re :=
  Cat (lit "turn") (Cat (Plus (Chr is_digit)) (Cat (Plus (Chr is_letter)) (Plus (Chr is_digit)))).

Definition researchReference (ref : string) : bool :=
  re_match codexResearchReference ref || validWebFetchURL url_Parse ref.

Definition researchFields (raw : string) (allowed : list string) : bool :=
  match Unmarshal dec_raw_map None raw with
  | Some (Some fields) => forallb (fun kv => in_list kv.1 allowed) fields
  | _ => false
  end.

(** The structs an entry is decoded into. *)
Record research_query_entry := { rq_Q : string; rq_Domains : slice string; rq_Recency : option Z }.
Definition research_query_fields : fields research_query_entry :=
  [field "q" rq_Q (fun e q => {| rq_Q := q; rq_Domains := rq_Domains e; rq_Recency := rq_Recency e |}) dec_string;
   field "domains" rq_Domains (fun e d => {| rq_Q := rq_Q e; rq_Domains := d; rq_Recency := rq_Recency e |})
     (dec_slice "" dec_string);
   field "recency" rq_Recency (fun e r => {| rq_Q := rq_Q e; rq_Domains := rq_Domains e; rq_Recency := r |})
     (dec_pointer 0%Z dec_int)].

Record research_ref := {
  rr_RefID : string;
  rr_ID : option Z;
  rr_Pattern : string;
  rr_Page : option Z;
  rr_Line : option Z;
}.
Definition research_ref_fields : fields research_ref :=
  [field "ref_id" rr_RefID (fun r v => {| rr_RefID := v; rr_ID := rr_ID r; rr_Pattern := rr_Pattern r;
     rr_Page := rr_Page r; rr_Line := rr_Line r |}) dec_string;
   field "id" rr_ID (fun r v => {| rr_RefID := rr_RefID r; rr_ID := v; rr_Pattern := rr_Pattern r;
     rr_Page := rr_Page r; rr_Line := rr_Line r |}) (dec_pointer 0%Z dec_int);
   field "pattern" rr_Pattern (fun r v => {| rr_RefID := rr_RefID r; rr_ID := rr_ID r; rr_Pattern := v;
     rr_Page := rr_Page r; rr_Line := rr_Line r |}) dec_string;
   field "pageno" rr_Page (fun r v => {| rr_RefID := rr_RefID r; rr_ID := rr_ID r; rr_Pattern := rr_Pattern r;
     rr_Page := v; rr_Line := rr_Line r |}) (dec_pointer 0%Z dec_int);
   field "lineno" rr_Line (fun r v => {| rr_RefID := rr_RefID r; rr_ID := rr_ID r; rr_Pattern := rr_Pattern r;
     rr_Page := rr_Page r; rr_Line := v |}) (dec_pointer 0%Z dec_int)].

Definition reference_field (key : string) : option string :=
  if key =s? "open" then Some "lineno" else if key =s? "click" then Some "id"
  else if key =s? "find" then Some "pattern" else if key =s? "screenshot" then Some "pageno" else None.

Definition not_negative (p : option Z) : bool := match p with Some n => (0 <=? n)%Z | None => false end.

(** One entry of the operation [key]. *)
Definition research_entry (key entry : string) : bool :=
  if in_list key ["search_query"; "image_query"] then
    researchFields entry ["q"; "domains"; "recency"] &&
    match Unmarshal (dec_struct research_query_fields) {| rq_Q := ""; rq_Domains := nil_slice; rq_Recency := None |}
            entry with
    | Some q => TrimSpace (rq_Q q) <>s? ""
    | None => false
    end
  else match reference_field key with
  | None => false
  | Some field =>
      researchFields entry ["ref_id"; field] &&
      match Unmarshal (dec_struct research_ref_fields)
              {| rr_RefID := ""; rr_ID := None; rr_Pattern := ""; rr_Page := None; rr_Line := None |} entry with
      | None => false
      | Some ref =>
          researchReference (rr_RefID ref) &&
          negb ((key =s? "click") && negb (not_negative (rr_ID ref))) &&
          negb ((key =s? "find") && (rr_Pattern ref =s? "")) &&
          negb ((key =s? "screenshot") && negb (not_negative (rr_Page ref))) &&
          match rr_Line ref with Some n => (0 <=? n)%Z | None => true end
      end
  end.

(** The operations of one member; [None] is the early [return false]. *)
Definition research_member (kr : string * string) : option nat :=
  let '(key, raw) := kr in
  if key =s? "response_length" then (if valid_length raw then Some 0%nat else None)
  else match Unmarshal (dec_slice "" dec_raw) nil_slice raw with
  | Some entries =>
      let es := elements entries in
      if bool_decide (es = []) then None
      else if forallb (research_entry key) es then Some (length es) else None
  | None => None
  end.

Fixpoint research_members (operations : nat) (input : list (string * string)) : option nat :=
  match input with
  | [] => Some operations
  | kr :: input =>
      match research_member kr with Some n => research_members (operations + n) input | None => None end
  end.

Definition codexResearchInput (input : list (string * string)) : bool :=
  match research_members 0 input with Some n => (0 <? n)%nat | None => false end.

(** A call with its last field set. *)
Definition set_research (b : bool) (tc : ToolCall) : ToolCall :=
  {| tc_Plane := tc_Plane tc; tc_Event := tc_Event tc; tc_Tool := tc_Tool tc;
     tc_NativeTool := tc_NativeTool tc; tc_ContractTool := tc_ContractTool tc;
     tc_Capability := tc_Capability tc; tc_NativeWebResearch := b; tc_URL := tc_URL tc;
     tc_InputShape := tc_InputShape tc; tc_Command := tc_Command tc; tc_Shell := tc_Shell tc;
     tc_Paths := tc_Paths tc; tc_Arguments := tc_Arguments tc; tc_SessionID := tc_SessionID tc;
     tc_CallID := tc_CallID tc; tc_HostApproved := tc_HostApproved tc; tc_CWD := tc_CWD tc;
     tc_RepoRoot := tc_RepoRoot tc; tc_Raw := tc_Raw tc; tc_PermittedRoots := tc_PermittedRoots tc;
     tc_DegradedAllows := tc_DegradedAllows tc |}.

Definition set_research_of (tc : ToolCall) : ToolCall := set_research (nativeResearchCall tc) tc.

Definition unknown_spec (tool : string) : ToolSpec := spec tool tool CapabilityUnknown.

(** [InputShape] when no capability set it. *)
Definition shape (s : string) : string := if s =s? "" then "opaque-object" else s.

(** ** claude.go *)

Record claudePayload := {
  cp_SessionID : string;
  cp_CWD : string;
  cp_HookEventName : string;
  cp_ToolName : string;
  cp_Command : string;
  cp_FilePath : string;
}.

Definition claude_input_fields : fields claudePayload :=
  [field "command" cp_Command (fun p v => {| cp_SessionID := cp_SessionID p; cp_CWD := cp_CWD p;
     cp_HookEventName := cp_HookEventName p; cp_ToolName := cp_ToolName p; cp_Command := v;
     cp_FilePath := cp_FilePath p |}) dec_string;
   field "file_path" cp_FilePath (fun p v => {| cp_SessionID := cp_SessionID p; cp_CWD := cp_CWD p;
     cp_HookEventName := cp_HookEventName p; cp_ToolName := cp_ToolName p; cp_Command := cp_Command p;
     cp_FilePath := v |}) dec_string].

Definition claude_fields : fields claudePayload :=
  [field "session_id" cp_SessionID (fun p v => {| cp_SessionID := v; cp_CWD := cp_CWD p;
     cp_HookEventName := cp_HookEventName p; cp_ToolName := cp_ToolName p; cp_Command := cp_Command p;
     cp_FilePath := cp_FilePath p |}) dec_string;
   field "cwd" cp_CWD (fun p v => {| cp_SessionID := cp_SessionID p; cp_CWD := v;
     cp_HookEventName := cp_HookEventName p; cp_ToolName := cp_ToolName p; cp_Command := cp_Command p;
     cp_FilePath := cp_FilePath p |}) dec_string;
   field "hook_event_name" cp_HookEventName (fun p v => {| cp_SessionID := cp_SessionID p; cp_CWD := cp_CWD p;
     cp_HookEventName := v; cp_ToolName := cp_ToolName p; cp_Command := cp_Command p;
     cp_FilePath := cp_FilePath p |}) dec_string;
   field "tool_name" cp_ToolName (fun p v => {| cp_SessionID := cp_SessionID p; cp_CWD := cp_CWD p;
     cp_HookEventName := cp_HookEventName p; cp_ToolName := v; cp_Command := cp_Command p;
     cp_FilePath := cp_FilePath p |}) dec_string;
   ("tool_input", dec_struct claude_input_fields)].

Definition zero_claude : claudePayload :=
  {| cp_SessionID := ""; cp_CWD := ""; cp_HookEventName := ""; cp_ToolName := ""; cp_Command := ""; cp_FilePath := "" |}.

(** [struct{ ToolInput json.RawMessage }] *)
Definition tool_input_fields : fields string := [("tool_input", dec_raw)].

Definition claudePathKeys : list string := ["file_path"; "path"; "notebook_path"].

(** [add] *)
Definition add_path (paths : list string) (v : option string) : list string :=
  match v with
  | Some p => if (p <>s? "") && negb (in_list p paths) then paths ++ [p] else paths
  | None => paths
  end.

Definition add_keys (paths : list string) (m : option object) : list string :=
  foldl (fun paths key => add_path paths (string_at key m)) paths claudePathKeys.

Definition claudeInputPaths (input : option object) : list string :=
  let top := add_keys [] input in
  match fget "edits" (default [] input) with
  | Some (Arr _ edits) =>
      foldl (fun paths entry => match entry with Obj _ m => add_keys paths (Some m) | _ => paths end) top edits
  | _ => top
  end.

Definition claude_event (name : string) : string :=
  if name =s? "PostToolUse" then "post"
  else if name =s? "SessionStart" then "session-start"
  else if in_list name ["Stop"; "SubagentStop"] then "session-completion"
  else "pre".

(** The contract's answer for the tool, and the paths of a typed MCP tool. *)
Definition claude_spec (tool arguments : string) : ToolSpec * option (list string) :=
  let mcp := if HasPrefix tool "mcp__" then MatchMCPTool tool else None in
  match mcp with
  | Some m => (spec tool (mcp_Tool m) (mcp_Capability m), Some (projectMCPPaths m arguments))
  | None => (default (unknown_spec tool) (ClaudeTool tool), None)
  end.

Definition ParseClaude (raw : string) : result ToolCall ToolCall :=
  match Unmarshal (dec_struct claude_fields) zero_claude raw,
        Unmarshal (dec_struct tool_input_fields) "" raw with
  | Some p, Some arguments =>
      let '(s, mcp_paths) := claude_spec (cp_ToolName p) arguments in
      match (if arguments =s? "" then Some None else Unmarshal dec_any_map None arguments) with
      | None => Err zero_call
      | Some input =>
          let c := ts_Capability s in
          let has c' := bool_decide (c = c') in
          Ok (set_research_of
            {| tc_Plane := "claude"; tc_Event := claude_event (cp_HookEventName p); tc_Tool := ts_Tool s;
               tc_NativeTool := cp_ToolName p; tc_ContractTool := ""; tc_Capability := c;
               tc_NativeWebResearch := false;
               tc_URL := if has CapabilityWebFetch then text_at "url" input else "";
               tc_InputShape := shape (if has CapabilityCommand then "command"
                                       else if path_capability c then "path"
                                       else if has CapabilityWebFetch then "url" else "");
               tc_Command := cp_Command p; tc_Shell := "";
               tc_Paths := if path_capability c then default (claudeInputPaths input) mcp_paths else [];
               tc_Arguments := arguments; tc_SessionID := cp_SessionID p; tc_CallID := "";
               tc_HostApproved := false; tc_CWD := cp_CWD p; tc_RepoRoot := repoRoot (cp_CWD p);
               tc_Raw := raw; tc_PermittedRoots := []; tc_DegradedAllows := [] |})
      end
  | _, _ => Err zero_call
  end.

(** ** codex.go *)

Record codexPayload := {
  xp_SessionID : string;
  xp_CWD : string;
  xp_Event : string;
  xp_Tool : string;
  xp_Input : string;
}.

Definition codex_fields : fields codexPayload :=
  [field "session_id" xp_SessionID (fun p v => {| xp_SessionID := v; xp_CWD := xp_CWD p; xp_Event := xp_Event p;
     xp_Tool := xp_Tool p; xp_Input := xp_Input p |}) dec_string;
   field "cwd" xp_CWD (fun p v => {| xp_SessionID := xp_SessionID p; xp_CWD := v; xp_Event := xp_Event p;
     xp_Tool := xp_Tool p; xp_Input := xp_Input p |}) dec_string;
   field "hook_event_name" xp_Event (fun p v => {| xp_SessionID := xp_SessionID p; xp_CWD := xp_CWD p;
     xp_Event := v; xp_Tool := xp_Tool p; xp_Input := xp_Input p |}) dec_string;
   field "tool_name" xp_Tool (fun p v => {| xp_SessionID := xp_SessionID p; xp_CWD := xp_CWD p;
     xp_Event := xp_Event p; xp_Tool := v; xp_Input := xp_Input p |}) dec_string;
   field "tool_input" xp_Input (fun p v => {| xp_SessionID := xp_SessionID p; xp_CWD := xp_CWD p;
     xp_Event := xp_Event p; xp_Tool := xp_Tool p; xp_Input := v |}) dec_raw].

Definition zero_codex : codexPayload :=
  {| xp_SessionID := ""; xp_CWD := ""; xp_Event := ""; xp_Tool := ""; xp_Input := "" |}.

Definition codex_event (name : string) : string :=
  if name =s? "PreToolUse" then "pre" else if name =s? "PostToolUse" then "post"
  else if name =s? "SessionStart" then "session-start" else "".

(** 8 MiB *)
Definition max_envelope : Z := 8388608.
Definition envelope_fits (raw : string) : bool := (Z.of_nat (String.length raw) <=? max_envelope)%Z.

(** A call of Codex. *)
Definition codex_call (p : codexPayload) (raw event tool contract : string) (c : Capability) (url shp command : string)
    (paths : list string) (research : bool) : ToolCall :=
  {| tc_Plane := "codex"; tc_Event := event; tc_Tool := tool; tc_NativeTool := xp_Tool p;
     tc_ContractTool := contract; tc_Capability := c; tc_NativeWebResearch := research; tc_URL := url;
     tc_InputShape := shp; tc_Command := command; tc_Shell := ""; tc_Paths := paths;
     tc_Arguments := xp_Input p; tc_SessionID := xp_SessionID p; tc_CallID := ""; tc_HostApproved := false;
     tc_CWD := xp_CWD p; tc_RepoRoot := repoRoot (xp_CWD p); tc_Raw := raw; tc_PermittedRoots := [];
     tc_DegradedAllows := [] |}.

(** [stringField] *)
Definition stringField (input : list (string * string)) (key : string) : option string :=
  match fget key input with
  | None => None
  | Some raw => if (raw =s? "") || (raw =s? "null") then None else Unmarshal dec_string "" raw
  end.

(** The switch on the capability. *)
Definition codex_project (p : codexPayload) (raw event tool contract : string) (c : Capability) (url : string)
    (research : bool) (input : list (string * string)) : result ToolCall ToolCall :=
  let call := codex_call p raw event tool contract in
  match c with
  | CapabilityCommand =>
      match stringField input "command" with
      | Some command => Ok (call c url "command" command [] research)
      | None => Err (call c url "command" "" [] research)
      end
  | CapabilityMutation =>
      match stringField input "command" ≫= fun patch => applyPatchPaths patch (xp_CWD p) (event =s? "post") with
      | Some paths =>
          let c := if (event =s? "post") && bool_decide (paths = []) then CapabilitySafeControl else c in
          Ok (call c url "patch" "" paths research)
      | None => Err (call c url "patch" "" [] research)
      end
  | CapabilityReadDiscovery =>
      match stringField input "path" with
      | Some path => Ok (call c url "path" "" (if path =s? "" then [] else [path]) research)
      | None => Err (call c url "path" "" [] research)
      end
  | _ => Ok (call c url "opaque-object" "" [] research)
  end.

(** From the contract on. *)
Definition codex_tool_call (p : codexPayload) (raw event : string) (input : list (string * string)) :
    result ToolCall ToolCall :=
  let known := CodexTool (xp_Tool p) in
  let refused := match known with Some s => bool_decide (ts_Capability s = CapabilityDeny) | None => true end in
  match (if refused then MatchMCPTool (xp_Tool p) else None) with
  | Some m =>
      Ok (codex_call p raw event (mcp_Tool m) ("mcp:" +:+ mcp_Family m +:+ "/" +:+ mcp_Tool m) (mcp_Capability m) ""
            (if path_capability (mcp_Capability m) then "path" else "opaque-object") ""
            (projectMCPPaths m (xp_Input p)) false)
  | None =>
      let s := default (unknown_spec (xp_Tool p)) known in
      let contract := match known with Some s => ts_NativeTool s | None => "" end in
      if ts_Tool s =s? "web.run" then
        let '(c, url) := codexWebCapability input in
        codex_project p raw event (ts_Tool s) contract c url (codexResearchInput input) input
      else codex_project p raw event (ts_Tool s) contract (ts_Capability s) "" false input
  end.

(** On a host that is not Windows, where [tc.Shell] stays empty. *)
Definition ParseCodex (raw : string) : result ToolCall ToolCall :=
  if negb (envelope_fits raw) then Err zero_call
  else match Unmarshal (dec_struct codex_fields) zero_codex raw with
  | None => Err zero_call
  | Some p =>
      let event := codex_event (xp_Event p) in
      if (event =s? "") || negb (IsAbs (xp_CWD p)) || (xp_SessionID p =s? "") then Err zero_call
      else if event =s? "session-start"
      then Ok (codex_call p raw event "" "" CapabilityNone "" "opaque-object" "" [] false)
      else if xp_Tool p =s? "" then Err zero_call
      else match Unmarshal dec_raw_map None (xp_Input p) with
      | Some (Some input) => codex_tool_call p raw event input
      | _ => Err zero_call
      end
  end.

(** ** opencode.go *)

Definition degraded_fields : fields DegradedAllowReport :=
  [field "tool" dar_Tool (fun r v => {| dar_Tool := v; dar_CallID := dar_CallID r; dar_TS := dar_TS r |}) dec_string;
   field "call_id" dar_CallID (fun r v => {| dar_Tool := dar_Tool r; dar_CallID := v; dar_TS := dar_TS r |})
     dec_string;
   field "ts" dar_TS (fun r v => {| dar_Tool := dar_Tool r; dar_CallID := dar_CallID r; dar_TS := v |}) dec_string].

Definition zero_report : DegradedAllowReport := {| dar_Tool := ""; dar_CallID := ""; dar_TS := "" |}.

Record opencodePayload := {
  op_SessionID : string;
  op_Event : string;
  op_Tool : string;
  op_CallID : string;
  op_HostApproved : bool;
  op_Command : string;
  op_Paths : slice string;
  op_CWD : string;
  op_Arguments : string;
  op_DegradedAllows : slice DegradedAllowReport;
}.

(** The payload with its fields replaced by position. *)
Definition opencode_fields : fields opencodePayload :=
  let set p sid ev tool cid ha cmd paths cwd args deg :=
    {| op_SessionID := default (op_SessionID p) sid; op_Event := default (op_Event p) ev;
       op_Tool := default (op_Tool p) tool; op_CallID := default (op_CallID p) cid;
       op_HostApproved := default (op_HostApproved p) ha; op_Command := default (op_Command p) cmd;
       op_Paths := default (op_Paths p) paths; op_CWD := default (op_CWD p) cwd;
       op_Arguments := default (op_Arguments p) args; op_DegradedAllows := default (op_DegradedAllows p) deg |} in
  [field "session_id" op_SessionID (fun p v => set p (Some v) None None None None None None None None None) dec_string;
   field "event" op_Event (fun p v => set p None (Some v) None None None None None None None None) dec_string;
   field "tool" op_Tool (fun p v => set p None None (Some v) None None None None None None None) dec_string;
   field "call_id" op_CallID (fun p v => set p None None None (Some v) None None None None None None) dec_string;
   field "host_approved" op_HostApproved (fun p v => set p None None None None (Some v) None None None None None)
     dec_bool;
   field "command" op_Command (fun p v => set p None None None None None (Some v) None None None None) dec_string;
   field "paths" op_Paths (fun p v => set p None None None None None None (Some v) None None None)
     (dec_slice "" dec_string);
   field "cwd" op_CWD (fun p v => set p None None None None None None None (Some v) None None) dec_string;
   field "arguments" op_Arguments (fun p v => set p None None None None None None None None (Some v) None) dec_raw;
   field "degraded_allows" op_DegradedAllows
     (fun p v => set p None None None None None None None None None (Some v))
     (dec_slice zero_report (dec_struct degraded_fields))].

Definition zero_opencode : opencodePayload :=
  {| op_SessionID := ""; op_Event := ""; op_Tool := ""; op_CallID := ""; op_HostApproved := false;
     op_Command := ""; op_Paths := nil_slice; op_CWD := ""; op_Arguments := ""; op_DegradedAllows := nil_slice |}.

(** One report's eligibility. *)
Definition report_eligible (r : DegradedAllowReport) : bool :=
  negb ((dar_Tool r =s? "") || (64 <? String.length (dar_Tool r))%nat || (128 <? String.length (dar_CallID r))%nat) &&
  (DegradedAllow "opencode" (dar_Tool r) || FloorFallback "opencode" (dar_Tool r)) &&
  rfc3339 (dar_TS r).

Fixpoint keep_reports (kept : list DegradedAllowReport) (reports : list DegradedAllowReport) :
    list DegradedAllowReport :=
  match reports with
  | [] => kept
  | r :: reports =>
      if (32 <=? length kept)%nat then kept
      else keep_reports (if report_eligible r then kept ++ [r] else kept) reports
  end.

Definition sanitizeDegradedAllows (reports : list DegradedAllowReport) : list DegradedAllowReport :=
  keep_reports [] reports.

(** The contract's answer, and the paths of a typed MCP tool, which replaces the
    contract's answer where that is a refusal or missing. *)
Definition typed_spec (contract : option ToolSpec) (tool arguments : string) : ToolSpec * list string :=
  let refused := match contract with Some s => bool_decide (ts_Capability s = CapabilityDeny) | None => true end in
  match (if refused then MatchMCPTool tool else None) with
  | Some m => (spec tool (mcp_Tool m) (mcp_Capability m), projectMCPPaths m arguments)
  | None => (default (unknown_spec tool) contract, [])
  end.

(** [struct{ PatchText *string }], [struct{ URL string }] *)
Definition patch_text_fields : fields (option string) := [("patchText", dec_pointer "" dec_string)].
Definition url_fields : fields string := [("url", dec_string)].

(** The paths of a patch of OpenCode. *)
Definition opencode_patch_paths (p : opencodePayload) (event : string) : option (list string) :=
  match Unmarshal (dec_struct patch_text_fields) None (op_Arguments p) with
  | Some (Some text) =>
      if text =s? "" then None else applyPatchPaths text (op_CWD p) (event =s? "post")
  | _ => None
  end.

Definition ParseOpencode (raw : string) : result ToolCall ToolCall :=
  if negb (envelope_fits raw) then Err zero_call
  else match Unmarshal (dec_struct opencode_fields) zero_opencode raw with
  | None => Err zero_call
  | Some p =>
      let event := if in_list (op_Event p) ["pre"; "post"] then op_Event p else "pre" in
      let '(s, mcp_paths) := typed_spec (OpencodeTool (op_Tool p)) (op_Tool p) (op_Arguments p) in
      let c := ts_Capability s in
      let has c' := bool_decide (c = c') in
      match (if op_Tool p =s? "apply_patch" then opencode_patch_paths p event else Some []),
            (if has CapabilityWebFetch then Unmarshal (dec_struct url_fields) "" (op_Arguments p) else Some "") with
      | Some patch_paths, Some url =>
          Ok (set_research_of
            {| tc_Plane := "opencode"; tc_Event := event; tc_Tool := ts_Tool s; tc_NativeTool := op_Tool p;
               tc_ContractTool := ""; tc_Capability := c; tc_NativeWebResearch := false; tc_URL := url;
               tc_InputShape := shape (if has CapabilityCommand then "command"
                                       else if path_capability c then "path"
                                       else if has CapabilityWebFetch then "url"
                                       else if has CapabilityWebSearch then "query" else "");
               tc_Command := op_Command p; tc_Shell := "";
               tc_Paths := elements (op_Paths p) ++ mcp_paths ++ patch_paths;
               tc_Arguments := op_Arguments p; tc_SessionID := op_SessionID p; tc_CallID := op_CallID p;
               tc_HostApproved := op_HostApproved p; tc_CWD := op_CWD p; tc_RepoRoot := repoRoot (op_CWD p);
               tc_Raw := raw; tc_PermittedRoots := [];
               tc_DegradedAllows := sanitizeDegradedAllows (elements (op_DegradedAllows p)) |})
      | _, _ => Err zero_call
      end
  end.

(** ** antigravity.go *)

Record antigravityPayload := {
  ap_ConversationID : string;
  ap_Name : string;
  ap_CommandLine : string;
  ap_Cwd : string;
  ap_AbsolutePath : string;
  ap_TargetFile : string;
  ap_WorkspacePaths : slice string;
}.

Definition antigravity_fields : fields antigravityPayload :=
  let set p id name cmd cwd abs target ws :=
    {| ap_ConversationID := default (ap_ConversationID p) id; ap_Name := default (ap_Name p) name;
       ap_CommandLine := default (ap_CommandLine p) cmd; ap_Cwd := default (ap_Cwd p) cwd;
       ap_AbsolutePath := default (ap_AbsolutePath p) abs; ap_TargetFile := default (ap_TargetFile p) target;
       ap_WorkspacePaths := default (ap_WorkspacePaths p) ws |} in
  let args :=
    [field "CommandLine" ap_CommandLine (fun p v => set p None None (Some v) None None None None) dec_string;
     field "Cwd" ap_Cwd (fun p v => set p None None None (Some v) None None None) dec_string;
     field "AbsolutePath" ap_AbsolutePath (fun p v => set p None None None None (Some v) None None) dec_string;
     field "TargetFile" ap_TargetFile (fun p v => set p None None None None None (Some v) None) dec_string] in
  [field "conversationId" ap_ConversationID (fun p v => set p (Some v) None None None None None None) dec_string;
   ("toolCall", dec_struct
     [field "name" ap_Name (fun p v => set p None (Some v) None None None None None) dec_string;
      ("args", dec_struct args)]);
   field "workspacePaths" ap_WorkspacePaths (fun p v => set p None None None None None None (Some v))
     (dec_slice "" dec_string)].

Definition zero_antigravity : antigravityPayload :=
  {| ap_ConversationID := ""; ap_Name := ""; ap_CommandLine := ""; ap_Cwd := ""; ap_AbsolutePath := "";
     ap_TargetFile := ""; ap_WorkspacePaths := nil_slice |}.

(** [struct{ ToolCall struct{ Args json.RawMessage } }] *)
Definition args_fields : fields string := [("toolCall", dec_struct [("args", dec_raw)])].

Record antigravityPathSchema := {
  ps_key : string;
  ps_allowed : list string;
  ps_aliases : list string;
}.

Definition allowedFields (fields : list string) : list string := "toolAction" :: "toolSummary" :: fields.

Definition path_schema (key : string) (allowed aliases : list string) : antigravityPathSchema :=
  {| ps_key := key; ps_allowed := allowedFields allowed; ps_aliases := aliases |}.

Definition antigravityPathSchemas : list (string * antigravityPathSchema) :=
  [("view_file", path_schema "AbsolutePath"
      ["AbsolutePath"; "TargetFile"; "StartLine"; "EndLine"; "ContentOffset"; "IsSkillFile"] ["TargetFile"]);
   ("write_to_file", path_schema "TargetFile"
      ["TargetFile"; "Overwrite"; "CodeContent"; "Description"; "IsArtifact"; "ArtifactMetadata"] []);
   ("replace_file_content", path_schema "TargetFile"
      ["TargetFile"; "Instruction"; "Description"; "AllowMultiple"; "TargetContent"; "ReplacementContent";
       "StartLine"; "EndLine"; "TargetLintErrorIds"] []);
   ("multi_replace_file_content", path_schema "TargetFile"
      ["TargetFile"; "Instruction"; "Description"; "ReplacementChunks"; "TargetLintErrorIds"; "ArtifactMetadata"] []);
   ("list_dir", path_schema "DirectoryPath" ["DirectoryPath"] []);
   ("find_by_name", path_schema "SearchDirectory"
      ["SearchDirectory"; "Pattern"; "Type"; "Excludes"; "Extensions"; "FullPath"; "MaxDepth"] []);
   ("grep_search", path_schema "SearchPath"
      ["SearchPath"; "Query"; "IsRegex"; "CaseInsensitive"; "Includes"; "MatchPerLine"] [])].

(** Every key of the object is one of [allowed]. *)
Definition documented_keys (allowed : list string) (m : object) : bool := forallb (fun kv => in_list kv.1 allowed) m.

Definition add_trimmed (paths : list string) (p : string) : list string :=
  let p := TrimSpace p in if (p <>s? "") && negb (in_list p paths) then paths ++ [p] else paths.

Definition chunk_fields : list string :=
  allowedFields ["TargetFile"; "FilePath"; "Path"; "TargetContent"; "ReplacementContent"; "StartLine"; "EndLine";
                 "Instruction"; "AllowMultiple"].

Definition add_chunk (paths : option (list string)) (chunk : json) : option (list string) :=
  match paths, chunk with
  | Some paths, Obj _ m =>
      if documented_keys chunk_fields m
      then let p := first_text ["TargetFile"; "FilePath"; "Path"] (Some m) in
           Some (if p =s? "" then paths else add_trimmed paths p)
      else None
  | _, _ => paths
  end.

Definition extractMultiReplacePaths (input : option object) : option (list string) :=
  let target := text_at "TargetFile" input in
  let paths := if target =s? "" then [] else add_trimmed [] target in
  match (match fget "ReplacementChunks" (default [] input) with
         | Some (Arr _ chunks) => foldl add_chunk (Some paths) chunks
         | _ => Some paths
         end) with
  | Some (p :: ps) => Some (p :: ps)
  | _ => None
  end.

(** The path under the schema's key, or under the aliases that agree with it. *)
Definition schema_path (schema : antigravityPathSchema) (input : option object) : option string :=
  foldl (fun path alias =>
    match path with
    | None => None
    | Some path =>
        let other := text_at alias input in
        if other =s? "" then Some path
        else if path =s? "" then Some other
        else if other <>s? path then None else Some path
    end) (Some (text_at (ps_key schema) input)) (ps_aliases schema).

Definition one_path (p : string) : option (list string) := if p =s? "" then None else Some [p].

Definition documentedAntigravityPaths (tool : string) (input : option object) : option (list string) :=
  if tool =s? "multi_replace_file_content" then extractMultiReplacePaths input
  else if tool =s? "notebook_edit"
  then one_path (first_text ["NotebookPath"; "TargetFile"; "FilePath"; "Path"] input)
  else if tool =s? "sed_file"
  then one_path (first_text ["TargetFile"; "FilePath"; "Path"; "AbsolutePath"] input)
  else if tool =s? "delete_knowledge"
  then one_path (first_text ["PathToDelete"; "TargetFile"; "FilePath"; "Path"] input)
  else match List.find (fun s => s.1 =s? tool) antigravityPathSchemas with
  | None => Some []
  | Some (_, schema) =>
      if documented_keys (ps_allowed schema) (default [] input)
      then schema_path schema input ≫= one_path
      else None
  end.

Definition isAntigravityOneShotTimer (input : option object) : bool :=
  match fget "DurationSeconds" (default [] input) with
  | Some (Num t) => number_positive t && negb (has_member "CronExpression" input) && negb (has_member "MaxIterations" input)
  | _ => false
  end.

Definition AntigravityAppDataDir : string :=
  if Getenv "ANTIGRAVITY_APP_DATA_DIR" <>s? "" then Clean (Getenv "ANTIGRAVITY_APP_DATA_DIR")
  else match UserHomeDir with
  | Some home => if home =s? "" then "" else JoinPath [home; ".gemini"; "antigravity-cli"]
  | None => ""
  end.

Definition AntigravityBrainDir (sessionID : string) : string :=
  let id := TrimSpace sessionID in
  if (id =s? "") || Contains id ".." || ContainsByte id "/" || ContainsByte id "\" then ""
  else if AntigravityAppDataDir =s? "" then "" else JoinPath [AntigravityAppDataDir; "brain"; id].

(** The capability, once the arguments of the two tools that depend on them are known. *)
Definition antigravity_capability (name : string) (c : Capability) (input : option object) : Capability :=
  if name =s? "manage_task" then
    if in_list (text_at "Action" input) ["list"; "status"; "kill"] then CapabilitySafeControl else CapabilityDeny
  else if name =s? "schedule" then
    if isAntigravityOneShotTimer input then CapabilitySafeControl else CapabilityExternal
  else c.

(** The command of a call that names none in [CommandLine]. *)
Definition antigravity_command (command : string) (input : option object) : string :=
  if command <>s? "" then command
  else if text_at "CommandLine" input <>s? "" then text_at "CommandLine" input
  else if text_at "Command" input <>s? "" then text_at "Command" input
  else if text_at "Code" input <>s? "" then text_at "Code" input
  else if text_at "NotebookPath" input <>s? "" then "jupyter execute " +:+ text_at "NotebookPath" input
  else command.

(** The URL of a web fetch: [Url], and no other spelling. *)
Definition antigravity_url (input : option object) : option string :=
  if has_member "URL" input || has_member "url" input then None else string_at "Url" input.

Definition ParseAntigravity (phase raw : string) : result ToolCall ToolCall :=
  match Unmarshal (dec_struct antigravity_fields) zero_antigravity raw,
        Unmarshal (dec_struct args_fields) "" raw with
  | Some p, Some args =>
      match Unmarshal dec_any_map None args with
      | None => Err zero_call
      | Some input =>
          let cwd := if ap_Cwd p =s? "" then default "" (head (elements (ap_WorkspacePaths p))) else ap_Cwd p in
          let '(s, mcp_paths) := typed_spec (AntigravityTool (ap_Name p)) (ap_Name p) args in
          let c := antigravity_capability (ap_Name p) (ts_Capability s) input in
          let has c' := bool_decide (c = c') in
          match (if path_capability c then documentedAntigravityPaths (ap_Name p) input else Some []),
                (if has CapabilityWebFetch then antigravity_url input else Some "") with
          | Some paths, Some url =>
              let brain := AntigravityBrainDir (ap_ConversationID p) in
              Ok (set_research_of
                {| tc_Plane := "antigravity"; tc_Event := if phase =s? "post" then "post" else "pre";
                   tc_Tool := ts_Tool s; tc_NativeTool := ap_Name p; tc_ContractTool := ""; tc_Capability := c;
                   tc_NativeWebResearch := false; tc_URL := url;
                   tc_InputShape := shape (if has CapabilityCommand then "command"
                                           else if path_capability c then "path"
                                           else if has CapabilityWebFetch then "url"
                                           else if has CapabilityWebSearch then "query" else "");
                   tc_Command := if has CapabilityCommand then antigravity_command (ap_CommandLine p) input
                                 else ap_CommandLine p;
                   tc_Shell := "";
                   tc_Paths := if path_capability c then paths ++ mcp_paths else [];
                   tc_Arguments := args; tc_SessionID := ap_ConversationID p; tc_CallID := "";
                   tc_HostApproved := false; tc_CWD := cwd; tc_RepoRoot := repoRoot cwd; tc_Raw := raw;
                   tc_PermittedRoots := if brain =s? "" then [] else [brain]; tc_DegradedAllows := [] |})
          | _, _ => Err zero_call
          end
      end
  | _, _ => Err zero_call
  end.

(** The switch of [cmdHook]: [None] is a plane it does not know. *)
Definition parse_payload (plane phase raw : string) : option (result ToolCall ToolCall) :=
  if plane =s? "codex" then Some (ParseCodex raw)
  else if plane =s? "claude" then Some (ParseClaude raw)
  else if plane =s? "opencode" then Some (ParseOpencode raw)
  else if plane =s? "antigravity" then Some (ParseAntigravity phase raw)
  else None.

End Parsers.
