(* ===== verification/AdapterFacts.v ===== *)
(** * What the parsers of the adapters guarantee

    Which paths, which capability and which URL a payload's call gets: every path a
    call names is handed to the engine, a web request is allowed to be a fetch only
    when one address is all it names, whatever the order in which the map of its
    members is visited, and a tool that no table knows is unknown. *)

From Stdlib Require Import ZArith Lia Bool Sorted Permutation.
From S2P Require Import Prelude GoStrings Regex GoPath Policy Engine GitRepo Json WriteTargets JsonText PlaneContract Adapter.

(** ** The paths of an edit *)

(** The strings a map holds under the path keys. *)
Definition names_path (m : option object) (p : string) : Prop :=
  p <> "" /\ exists key, key ∈ claudePathKeys /\ string_at key m = Some p.

Definition names_edit_path (input : option object) (p : string) : Prop :=
  exists t edits t' m, fget "edits" (default [] input) = Some (Arr t edits) /\ Obj t' m ∈ edits /\ names_path (Some m) p.

Lemma add_path_spec paths v p :
  p ∈ add_path paths v <-> p ∈ paths \/ (v = Some p /\ p <> "").
Proof.
  unfold add_path. destruct v as [q|]; [|naive_solver].
  destruct (q <>s? "") eqn:Eq; cbn [andb]; breflect.
  2: { subst. naive_solver. }
  destruct (in_list q paths) eqn:E; cbn [negb]; breflect; [naive_solver|].
  rewrite elem_of_app, list_elem_of_singleton. naive_solver.
Qed.

Lemma add_path_NoDup paths v : NoDup paths -> NoDup (add_path paths v).
Proof.
  unfold add_path. intros H. destruct v as [q|]; [|done]. destruct (_ && _) eqn:E; [|done]. breflect.
  apply NoDup_app. split_and!; [done| |apply NoDup_singleton]. intros x Hx ->%list_elem_of_singleton. done.
Qed.

Lemma add_keys_spec paths m p : p ∈ add_keys paths m <-> p ∈ paths \/ names_path m p.
Proof.
  unfold add_keys, names_path. generalize claudePathKeys as keys. intros keys. revert paths.
  induction keys as [|k keys IH]; intros paths; cbn [foldl].
  { setoid_rewrite elem_of_nil. naive_solver. }
  rewrite IH, add_path_spec. setoid_rewrite elem_of_cons. naive_solver.
Qed.

Lemma add_keys_NoDup paths m : NoDup paths -> NoDup (add_keys paths m).
Proof.
  unfold add_keys. generalize claudePathKeys as keys. intros keys. revert paths.
  induction keys as [|k keys IH]; intros paths H; [done|]. cbn. apply IH. by apply add_path_NoDup.
Qed.

(** C28: the paths of a call of Claude are exactly the non-empty strings it names under
    a path key, at the top or in an entry of its list of edits, each once: no file a
    MultiEdit names is left out of the engine's path rules. *)
Theorem claude_paths_exact input :
  NoDup (claudeInputPaths input) /\
  forall p, p ∈ claudeInputPaths input <-> names_path input p \/ names_edit_path input p.
Proof.
  unfold claudeInputPaths, names_edit_path.
  assert (Htop : NoDup (add_keys [] input)) by (apply add_keys_NoDup; constructor).
  assert (Hin : forall p, p ∈ add_keys [] input <-> names_path input p).
  { intros p. rewrite add_keys_spec. set_solver. }
  destruct (fget "edits" _) as [[| | | |t edits|]|] eqn:E; try (split; [done|]; intros p; rewrite Hin; naive_solver).
  set (f := fun (paths : list string) entry => match entry with Obj _ m => add_keys paths (Some m) | _ => paths end).
  assert (H : forall paths, NoDup paths -> NoDup (foldl f paths edits) /\
    forall p, p ∈ foldl f paths edits <-> p ∈ paths \/ exists t' m, Obj t' m ∈ edits /\ names_path (Some m) p).
  { clear E. induction edits as [|e edits IH]; intros paths Hp; cbn [foldl]; [split; [done|set_solver]|].
    destruct (IH (f paths e)) as [H1 H2].
    { destruct e; try done. by apply add_keys_NoDup. }
    split; [done|]. intros p. rewrite H2. clear -p. setoid_rewrite elem_of_cons.
    destruct e as [| | | | |t' m]; cbn [f]; rewrite ?add_keys_spec; naive_solver. }
  destruct (H _ Htop) as [H1 H2]. split; [done|]. intros p. rewrite H2, Hin. naive_solver.
Qed.

(** ** Patches *)

(** The path of a header line, as the engine gets it. *)
Definition patch_path (cwd path : string) : string := if rootedPath path then path else JoinPath [cwd; path].

(** The paths a line names: those that follow a header. *)
Definition file_headers : list string :=
  ["*** Add File: "; "*** Update File: "; "*** Delete File: "; "*** Move to: "].
Definition line_paths (line : string) : list string := omap (CutPrefix line) file_headers.

Definition blank (p : string) : bool := TrimSpace p =s? "".

(** What reading a text that names [named] makes of a state. *)
Definition named_state (cwd : string) (st : list string * nat) (named : list string) : patch_state :=
  if existsb blank named then None
  else Some (st.1 ++ map (patch_path cwd) named, (st.2 + length named)%nat).

Lemma patch_header_none cwd post line hs : foldl (patch_header cwd post line) None hs = None.
Proof. by induction hs. Qed.

Lemma patch_lines_none cwd post lines : foldl (patch_line cwd post) None lines = None.
Proof.
  induction lines as [|l lines IH]; [done|]. cbn [foldl].
  assert (patch_line cwd post None l = None) as -> by apply patch_header_none. exact IH.
Qed.

(** Reading on after [named] reads what comes next. *)
Lemma named_state_app cwd st named more :
  named_state cwd st (named ++ more) = named_state cwd st named ≫= fun st' => named_state cwd st' more.
Proof.
  unfold named_state. rewrite existsb_app. destruct (existsb blank named); [done|]. cbn.
  destruct (existsb blank more); [done|]. rewrite map_app, length_app, app_assoc. by rewrite Nat.add_assoc.
Qed.

Lemma named_state_cons cwd st p more :
  named_state cwd st (p :: more) =
  if blank p then None else named_state cwd (st.1 ++ [patch_path cwd p], S st.2) more.
Proof.
  unfold named_state. cbn. destruct (blank p); [done|]. cbn. destruct (existsb blank more); [done|].
  by rewrite <- app_assoc, Nat.add_succ_r.
Qed.

Lemma patch_line_named cwd line st :
  patch_line cwd false (Some st) line = named_state cwd st (line_paths line).
Proof.
  unfold patch_line, line_paths. change patch_headers with file_headers. generalize file_headers as hs.
  intros hs. revert st. induction hs as [|h hs IH]; intros [paths n]; cbn [foldl omap list_omap].
  { unfold named_state. cbn. by rewrite app_nil_r, Nat.add_0_r. }
  unfold patch_header at 2. destruct (CutPrefix line h) as [p|]; [|apply IH]. cbn [andb].
  rewrite named_state_cons. cbn [fst snd]. unfold blank.
  destruct (TrimSpace p =s? ""); [apply patch_header_none|]. apply IH.
Qed.

Lemma patch_lines_named cwd lines st :
  foldl (patch_line cwd false) (Some st) lines = named_state cwd st (flat_map line_paths lines).
Proof.
  revert st. induction lines as [|l lines IH]; intros st; cbn [foldl flat_map].
  { destruct st. unfold named_state. cbn. by rewrite app_nil_r, Nat.add_0_r. }
  rewrite patch_line_named, named_state_app. destruct (named_state cwd st (line_paths l)); [apply IH|].
  apply patch_lines_none.
Qed.

(** The envelope of a patch whose lines are [lines]. *)
Definition enveloped (lines body : list string) : Prop :=
  lines = "*** Begin Patch" :: body ++ ["*** End Patch"].

Lemma enveloped_iff first rest :
  (length (first :: rest) <? 3)%nat || (first <>s? "*** Begin Patch") || (List.last rest "" <>s? "*** End Patch") = false <->
  removelast rest <> [] /\ enveloped (first :: rest) (removelast rest).
Proof.
  unfold enveloped. rewrite !orb_false_iff. split.
  - intros [[H1 H2] H3]. breflect. subst first. cbn in H1. destruct rest as [|x rest] using rev_ind; [cbn in H1; lia|].
    clear IHrest. rewrite last_last in H3. rewrite removelast_last. subst x. split; [|done].
    intros ->. cbn in H1. lia.
  - intros [Hne H]. injection H as -> H. rewrite H at 2. rewrite last_last. split_and!; [|done|done].
    apply Nat.ltb_ge. rewrite H. cbn [length]. rewrite length_app. cbn. destruct (removelast rest); [done|cbn; lia].
Qed.

(** Before a patch runs, the engine gets the path of every file header between its
    first and its last line, sources and destinations of moves alike, in order and
    against the directory of the call; a patch without its envelope, without a file
    or with a blank path is refused, and no other. *)
Theorem patch_paths_exact patch cwd paths :
  applyPatchPaths patch cwd false = Some paths <->
  exists body, enveloped (Split (TrimSpace (unix_lines patch)) newline) body /\
    flat_map line_paths body <> [] /\ existsb blank (flat_map line_paths body) = false /\
    paths = map (patch_path cwd) (flat_map line_paths body).
Proof.
  unfold applyPatchPaths. destruct (Split _ _) as [|first rest].
  { split; [done|]. by intros (? & ? & _). }
  destruct (_ || _ || _) eqn:E.
  - split; [done|]. intros (body & Henv & Hne & _). exfalso. apply not_false_iff_true in E. apply E.
    unfold enveloped in Henv. injection Henv as -> ->. apply enveloped_iff. rewrite removelast_last.
    split; [by intros ->|done].
  - apply enveloped_iff in E as [_ E]. rewrite patch_lines_named. unfold named_state. cbn [fst snd app].
    split.
    + destruct (existsb blank _) eqn:Eb; [done|]. destruct (flat_map line_paths _) as [|p ps] eqn:En; [done|].
      intros [= <-]. exists (removelast rest). by rewrite En.
    + intros (body & Henv & Hne & Hb & ->). unfold enveloped in Henv. injection Henv as -> ->.
      rewrite removelast_last, Hb. by destruct (flat_map line_paths body).
Qed.

Definition demo_patch : string :=
  Join ["*** Begin Patch"; "*** Update File: src/a.go"; "*** Move to: /etc/passwd"; "+x"; "*** End Patch"]
    (String newline "").

Lemma patch_paths_exact_witness :
  applyPatchPaths demo_patch "/repo" false = Some ["/repo/src/a.go"; "/etc/passwd"].
Proof.
  apply (patch_paths_exact demo_patch "/repo"). exists ["*** Update File: src/a.go"; "*** Move to: /etc/passwd"; "+x"].
  vm_compute. split_and!; done.
Defined.

(** ** Requests of Codex's web tool *)

Section Web.
Context (url_Parse : string -> option URL).
#[local] Notation member := (web_member url_Parse).
#[local] Notation members := (web_members url_Parse).

(** What one member adds: searches, and addresses opened. *)
Definition member_adds (kr : string * string) : option (nat * list string) :=
  (fun c => (wc_searches c, if (wc_opens c =? 0)%nat then [] else [wc_target c])) <$>
    member {| wc_searches := 0; wc_opens := 0; wc_target := "" |} kr.

(** The counts after some searches and the opening of [targets]. *)
Definition counts (searches : nat) (targets : list string) : web_counts :=
  {| wc_searches := searches; wc_opens := length targets; wc_target := List.last targets "" |}.

Lemma last_snoc (l : list string) x : List.last (l ++ [x]) "" = x.
Proof. apply last_last. Qed.

Lemma member_counts n ts kr :
  member (counts n ts) kr =
  (fun a => counts (n + a.1) (ts ++ a.2)) <$> member_adds kr.
Proof.
  unfold member_adds, web_member. destruct kr as [key raw].
  destruct (key =s? "response_length").
  { destruct (valid_length raw); cbn; [|done]. by rewrite app_nil_r, Nat.add_0_r. }
  destruct (in_list key _).
  { destruct (Unmarshal _ _ raw) as [qs|]; [|done]. cbn zeta.
    destruct (_ || _); cbn; [done|]. by rewrite app_nil_r. }
  destruct (key =s? "open"); [|done]. destruct (Unmarshal _ _ raw) as [rs|]; [|done].
  destruct (elements rs) as [|r [|r2 rs']]; [done| |done]. destruct (validWebFetchURL _ r); [|done].
  cbn. unfold counts. rewrite Nat.add_0_r, length_app, last_snoc. cbn. do 2 f_equal. lia.
Qed.

Definition sum_adds (a b : nat * list string) : nat * list string := (a.1 + b.1, a.2 ++ b.2)%nat.

(** What all members add together. *)
Definition total (l : list (string * string)) : option (nat * list string) :=
  foldr sum_adds (0%nat, []) <$> mapM member_adds l.

Lemma total_cons kr l :
  total (kr :: l) =
  match member_adds kr, total l with Some a, Some t => Some (sum_adds a t) | _, _ => None end.
Proof. unfold total. cbn. destruct (member_adds kr); [|done]. cbn. by destruct (mapM member_adds l). Qed.

Lemma members_total n ts l : members (counts n ts) l = (fun a => counts (n + a.1) (ts ++ a.2)) <$> total l.
Proof.
  revert n ts. induction l as [|kr l IH]; intros n ts.
  { cbn. by rewrite Nat.add_0_r, app_nil_r. }
  cbn [web_members]. rewrite member_counts, total_cons. destruct (member_adds kr) as [a|]; [|done].
  cbn [fmap option_fmap option_map]. rewrite IH. destruct (total l) as [t|]; [|done].
  cbn. by rewrite <- app_assoc, Nat.add_assoc.
Qed.

Lemma codexWebCapability_total l :
  codexWebCapability url_Parse l =
  match total l with
  | Some (n, ts) => web_verdict (counts n ts)
  | None => (CapabilityDeny, "")
  end.
Proof.
  unfold codexWebCapability. change {| wc_searches := 0; wc_opens := 0; wc_target := "" |} with (counts 0 []).
  rewrite members_total. destruct (total l) as [[n ts]|]; done.
Qed.

Lemma total_perm l1 l2 :
  Permutation l1 l2 ->
  match total l1, total l2 with
  | Some (n1, ts1), Some (n2, ts2) => n1 = n2 /\ Permutation ts1 ts2
  | None, None => True
  | _, _ => False
  end.
Proof.
  induction 1 as [|x l1 l2 _ IH|x y l|l1 l2 l3 _ IH1 _ IH2]; [done| | |].
  - rewrite !total_cons. destruct (member_adds x) as [a|]; [|done].
    destruct (total l1) as [[n1 t1]|], (total l2) as [[n2 t2]|]; try done. destruct IH as [-> IH].
    split; [done|]. by apply Permutation_app_head.
  - rewrite !total_cons. destruct (member_adds x) as [a|], (member_adds y) as [b|], (total l) as [t|]; try done.
    split; cbn; [lia|]. rewrite !app_assoc. apply Permutation_app_tail, Permutation_app_comm.
  - destruct (total l1) as [[n1 t1]|], (total l2) as [[n2 t2]|], (total l3) as [[n3 t3]|]; try done.
    destruct IH1 as [-> IH1], IH2 as [-> IH2]. split; [done|]. by etrans.
Qed.

Lemma web_capability_perm l1 l2 :
  Permutation l1 l2 -> codexWebCapability url_Parse l1 = codexWebCapability url_Parse l2.
Proof.
  intros H%total_perm. rewrite !codexWebCapability_total.
  destruct (total l1) as [[n1 ts1]|], (total l2) as [[n2 ts2]|]; try done. destruct H as [-> Hp].
  unfold web_verdict, counts. cbn [wc_searches wc_opens wc_target].
  assert (Hl := Permutation_length Hp). rewrite Hl. destruct ts2 as [|t [|t' ts2]]; cbn [length]; try done.
  destruct ts1 as [|t1 [|t2 ts1]]; [done| |done]. by apply Permutation_singleton_inj in Hp as ->.
Qed.

(** The operations of the members together. *)
Definition operations (l : list (string * string)) : option nat :=
  foldr Nat.add 0%nat <$> mapM (research_member url_Parse) l.

Lemma operations_cons kr l :
  operations (kr :: l) =
  match research_member url_Parse kr, operations l with Some a, Some n => Some (a + n)%nat | _, _ => None end.
Proof.
  unfold operations. cbn [mapM]. destruct (research_member url_Parse kr); [|done]. cbn.
  by destruct (mapM (research_member url_Parse) l).
Qed.

Lemma research_members_operations n l : research_members url_Parse n l = (fun m => (n + m)%nat) <$> operations l.
Proof.
  revert n. induction l as [|kr l IH]; intros n; [cbn; by rewrite Nat.add_0_r|].
  cbn [research_members]. rewrite operations_cons. destruct (research_member url_Parse kr) as [a|]; [|done].
  rewrite IH. destruct (operations l); [|done]. cbn. f_equal. lia.
Qed.

Lemma operations_perm l1 l2 : Permutation l1 l2 -> operations l1 = operations l2.
Proof.
  induction 1 as [|x l1 l2 _ IH|x y l|l1 l2 l3 _ IH1 _ IH2]; [done| | |by etrans].
  - by rewrite !operations_cons, IH.
  - rewrite !operations_cons. destruct (research_member url_Parse x), (research_member url_Parse y), (operations l); try done.
    f_equal. lia.
Qed.

(** What a web request is taken for - its capability, its address, and whether it
    is research - does not depend on the order in which Go ranges over the map of its
    members. *)
Theorem web_request_order_irrelevant l1 l2 :
  Permutation l1 l2 ->
  codexWebCapability url_Parse l1 = codexWebCapability url_Parse l2 /\
  codexResearchInput url_Parse l1 = codexResearchInput url_Parse l2.
Proof.
  intros H. split; [by apply web_capability_perm|]. unfold codexResearchInput.
  by rewrite !research_members_operations, (operations_perm _ _ H).
Qed.

(** The addresses a member opens. *)
Lemma member_adds_open kr n ts :
  member_adds kr = Some (n, ts) -> Forall (fun t => validWebFetchURL url_Parse t = true) ts.
Proof.
  unfold member_adds, web_member. destruct kr as [key raw]. destruct (key =s? "response_length").
  { destruct (valid_length raw); cbn; [|done]. intros [= <- <-]. constructor. }
  destruct (in_list key _).
  { destruct (Unmarshal _ _ raw) as [qs|]; [|done]. cbn zeta. destruct (_ || _); cbn; [done|].
    intros [= <- <-]. constructor. }
  destruct (key =s? "open"); [|done]. destruct (Unmarshal _ _ raw) as [rs|]; [|done].
  destruct (elements rs) as [|r [|r2 rs']]; [done| |done]. destruct (validWebFetchURL _ r) eqn:E; [|done].
  cbn. intros [= <- <-]. by repeat constructor.
Qed.

Lemma total_open l n ts : total l = Some (n, ts) -> Forall (fun t => validWebFetchURL url_Parse t = true) ts.
Proof.
  revert n ts. induction l as [|kr l IH]; intros n ts; [intros [= <- <-]; constructor|].
  rewrite total_cons. destruct (member_adds kr) as [[n1 ts1]|] eqn:E; [|done].
  destruct (total l) as [[n2 ts2]|]; [|done]. intros [= <- <-]. apply Forall_app. split; [|by eapply IH].
  by eapply member_adds_open.
Qed.

(** A web request of Codex is a fetch only when every member of it is understood,
    nothing of it searches and one address with a valid host is all that it opens,
    and that address is the one handed to the engine. *)
Theorem web_fetch_is_one_address l url :
  codexWebCapability url_Parse l = (CapabilityWebFetch, url) ->
  total l = Some (0%nat, [url]) /\ validWebFetchURL url_Parse url = true.
Proof.
  rewrite codexWebCapability_total. destruct (total l) as [[n ts]|] eqn:E; [|done].
  unfold web_verdict, counts. cbn [wc_searches wc_opens wc_target].
  destruct (_ && (length ts =? 0)%nat); [done|]. destruct (_ && _) eqn:E2; [|done]. breflect. intros [= <-].
  destruct ts as [|t [|]]; try done. split; [by subst|]. apply total_open in E.
  by apply Forall_cons in E as [? _].
Qed.

End Web.

(** ** Where a capability comes from *)

Section Capabilities.
Context (url_Parse : string -> option URL) (FindRepoRoot : string -> option string) (rfc3339 : string -> bool).
Context (Getenv : string -> string) (UserHomeDir : option string).
#[local] Notation parse := (parse_payload url_Parse FindRepoRoot rfc3339 Getenv UserHomeDir).

(** The answer of the tables: the contract's, a typed MCP tool's where the contract
    knows no better, or unknown where neither has the tool. *)
Inductive grounded (contract : option ToolSpec) (tool : string) : Capability -> Prop :=
| grounded_contract s : contract = Some s -> grounded contract tool (ts_Capability s)
| grounded_mcp m :
    MatchMCPTool tool = Some m ->
    contract = None \/ (exists s, contract = Some s /\ ts_Capability s = CapabilityDeny) \/
      HasPrefix tool "mcp__" = true ->
    grounded contract tool (mcp_Capability m)
| grounded_unknown : contract = None -> grounded contract tool CapabilityUnknown.

(** The tools whose arguments decide. *)
Inductive by_arguments (tc : ToolCall) : Prop :=
| web_run :
    tc_Plane tc = "codex" -> tc_Tool tc = "web.run" ->
    tc_Capability tc ∈ [CapabilityWebSearch; CapabilityWebFetch; CapabilityDeny] -> by_arguments tc
| patch_without_files :
    tc_Plane tc = "codex" -> tc_Event tc = "post" -> tc_Paths tc = [] ->
    grounded (CodexTool (tc_NativeTool tc)) (tc_NativeTool tc) CapabilityMutation ->
    tc_Capability tc = CapabilitySafeControl -> by_arguments tc
| manage_task :
    tc_Plane tc = "antigravity" -> tc_NativeTool tc = "manage_task" ->
    tc_Capability tc ∈ [CapabilitySafeControl; CapabilityDeny] -> by_arguments tc
| schedule :
    tc_Plane tc = "antigravity" -> tc_NativeTool tc = "schedule" ->
    tc_Capability tc ∈ [CapabilitySafeControl; CapabilityExternal] -> by_arguments tc
| session_start :
    tc_Plane tc = "codex" -> tc_Event tc = "session-start" -> tc_Capability tc = CapabilityNone -> by_arguments tc.

Lemma claude_spec_grounded tool args :
  grounded (ClaudeTool tool) tool (ts_Capability (claude_spec tool args).1).
Proof.
  unfold claude_spec. destruct (HasPrefix tool "mcp__") eqn:E; [destruct (MatchMCPTool tool) as [m|] eqn:Em|].
  1: { cbn. apply grounded_mcp; [done|]. right. by right. }
  all: destruct (ClaudeTool tool) as [s|] eqn:Ec; [by apply grounded_contract|by apply grounded_unknown].
Qed.

Lemma typed_spec_grounded contract tool args :
  grounded contract tool (ts_Capability (typed_spec contract tool args).1).
Proof.
  unfold typed_spec. destruct contract as [s|].
  - destruct (bool_decide _) eqn:Ed; [|by apply grounded_contract]. apply bool_decide_eq_true in Ed.
    destruct (MatchMCPTool tool) as [m|] eqn:Em; [|by apply grounded_contract].
    apply grounded_mcp; [done|]. right. left. by exists s.
  - destruct (MatchMCPTool tool) as [m|] eqn:Em; [apply grounded_mcp; [done|by left]|by apply grounded_unknown].
Qed.

Lemma ParseClaude_grounded raw tc :
  ParseClaude url_Parse FindRepoRoot raw = Ok tc ->
  tc_Plane tc = "claude" /\ grounded (ClaudeTool (tc_NativeTool tc)) (tc_NativeTool tc) (tc_Capability tc).
Proof.
  unfold ParseClaude. destruct (Unmarshal _ zero_claude raw) as [p|]; [|done].
  destruct (Unmarshal _ "" raw) as [args|]; [|done].
  pose proof (claude_spec_grounded (cp_ToolName p) args) as Hg.
  destruct (claude_spec _ _) as [s paths]. destruct (if args =s? "" then _ else _); [|done].
  intros [= <-]. by split.
Qed.

Lemma ParseOpencode_grounded raw tc :
  ParseOpencode url_Parse FindRepoRoot rfc3339 raw = Ok tc ->
  tc_Plane tc = "opencode" /\ grounded (OpencodeTool (tc_NativeTool tc)) (tc_NativeTool tc) (tc_Capability tc).
Proof.
  unfold ParseOpencode. destruct (negb _); [done|]. destruct (Unmarshal _ zero_opencode raw) as [p|]; [|done].
  pose proof (typed_spec_grounded (OpencodeTool (op_Tool p)) (op_Tool p) (op_Arguments p)) as Hg.
  destruct (typed_spec _ _ _) as [s paths]. destruct (if op_Tool p =s? _ then _ else _); [|done].
  destruct (if bool_decide _ then Unmarshal _ _ _ else _); [|done]. intros [= <-]. by split.
Qed.

Lemma ParseAntigravity_grounded phase raw tc :
  ParseAntigravity url_Parse FindRepoRoot Getenv UserHomeDir phase raw = Ok tc ->
  tc_Plane tc = "antigravity" /\
  (grounded (AntigravityTool (tc_NativeTool tc)) (tc_NativeTool tc) (tc_Capability tc) \/ by_arguments tc).
Proof.
  unfold ParseAntigravity. destruct (Unmarshal _ zero_antigravity raw) as [p|]; [|done].
  destruct (Unmarshal _ "" raw) as [args|]; [|done]. destruct (Unmarshal dec_any_map None args) as [input|]; [|done].
  pose proof (typed_spec_grounded (AntigravityTool (ap_Name p)) (ap_Name p) args) as Hg.
  destruct (typed_spec _ _ _) as [s paths]. cbn zeta.
  destruct (if path_capability _ then _ else _); [|done].
  destruct (if bool_decide _ then antigravity_url _ else _); [|done]. intros [= <-]. split; [done|].
  cbn [tc_NativeTool tc_Capability set_research_of set_research]. unfold antigravity_capability.
  destruct (ap_Name p =s? "manage_task") eqn:E1.
  { right. apply String.eqb_eq in E1. apply manage_task; [done|done|]. cbn.
    destruct (_ || _); set_solver. }
  destruct (ap_Name p =s? "schedule") eqn:E2; [|by left].
  right. apply String.eqb_eq in E2. apply schedule; [done|done|]. cbn.
  case_match; set_solver.
Qed.

Lemma codex_project_capability p raw event tool contract c url research input tc :
  codex_project FindRepoRoot p raw event tool contract c url research input = Ok tc ->
  tc_Plane tc = "codex" /\ tc_NativeTool tc = xp_Tool p /\ tc_Event tc = event /\ tc_Tool tc = tool /\
  (tc_Capability tc = c \/
   (c = CapabilityMutation /\ tc_Capability tc = CapabilitySafeControl /\ event = "post" /\ tc_Paths tc = [])).
Proof.
  unfold codex_project. destruct c; try (intros [= <-]; cbn; split_and!; [done..|by left]).
  - destruct (stringField _ _); [|done]. intros [= <-]. cbn. split_and!; [done..|by left].
  - destruct (stringField _ _); [|done]. intros [= <-]. cbn. split_and!; [done..|by left].
  - destruct (stringField _ _ ≫= _) as [paths|]; [|done]. intros [= <-]. cbn. split_and!; try done.
    destruct (_ && _) eqn:E; [|by left]. apply andb_true_iff in E as [E1 E2]. breflect.
    apply bool_decide_eq_true in E2. by right.
Qed.

Lemma codexWebCapability_range l : (codexWebCapability url_Parse l).1 ∈ [CapabilityWebSearch; CapabilityWebFetch; CapabilityDeny].
Proof. unfold codexWebCapability, web_verdict. repeat case_match; set_solver. Qed.

Lemma codex_tool_grounded p raw event input tc :
  codex_tool_call url_Parse FindRepoRoot p raw event input = Ok tc ->
  tc_Plane tc = "codex" /\
  (grounded (CodexTool (tc_NativeTool tc)) (tc_NativeTool tc) (tc_Capability tc) \/ by_arguments tc).
Proof.
  unfold codex_tool_call. cbv zeta. destruct (CodexTool (xp_Tool p)) as [s|] eqn:Ec.
  - destruct (if bool_decide _ then MatchMCPTool _ else None) as [m|] eqn:Em.
    { destruct (bool_decide _) eqn:Ed; [|done]. apply bool_decide_eq_true in Ed. intros [= <-]. split; [done|].
      left. cbn. rewrite Ec. apply grounded_mcp; [done|]. right. left. by exists s. }
    cbn [default from_option id]. destruct (ts_Tool s =s? "web.run") eqn:Ew.
    + pose proof (codexWebCapability_range input) as Hr. destruct (codexWebCapability _ _) as [c url].
      intros (Hp & Hn & He & Ht & [Hc|(Hm & Hc & _)])%codex_project_capability; cbn in Hr.
      * split; [done|]. right. apply String.eqb_eq in Ew. apply web_run; [done|congruence|by rewrite Hc].
      * exfalso. subst c. set_solver.
    + intros (Hp & Hn & He & Ht & [Hc|(Hm & Hc & Hpost & Hpaths)])%codex_project_capability; split; try done.
      * left. rewrite Hn, Hc, Ec. by apply grounded_contract.
      * right. apply patch_without_files; try done; [by rewrite He|]. rewrite Hn, Ec, <- Hm. by apply grounded_contract.
  - destruct (MatchMCPTool (xp_Tool p)) as [m|] eqn:Em.
    { intros [= <-]. split; [done|]. left. cbn. rewrite Ec. apply grounded_mcp; [done|by left]. }
    cbn [default from_option id unknown_spec spec ts_Tool ts_Capability]. destruct (xp_Tool p =s? "web.run") eqn:Ew.
    { apply String.eqb_eq in Ew. rewrite Ew in Ec. by vm_compute in Ec. }
    intros (Hp & Hn & He & Ht & [Hc|(Hm & _)])%codex_project_capability; [|done]. split; [done|].
    left. rewrite Hn, Hc, Ec. by apply grounded_unknown.
Qed.

(** C27: a call's capability is the contract's for its tool, that of a typed MCP tool where
    the contract knows no better, or unknown where no table has the tool; only the named
    tools' arguments change it, and never into a command, a read or a change of files. *)
Theorem parsed_capability_grounded plane phase raw tc :
  parse plane phase raw = Some (Ok tc) ->
  tc_Plane tc = plane /\
  (grounded (plane_tool plane (tc_NativeTool tc)) (tc_NativeTool tc) (tc_Capability tc) \/ by_arguments tc).
Proof.
  unfold parse_payload, plane_tool. destruct (plane =s? "codex") eqn:E1.
  { apply String.eqb_eq in E1 as ->. unfold ParseCodex. destruct (negb (envelope_fits raw)); [done|].
    destruct (Unmarshal _ zero_codex raw) as [p|]; [|done]. cbv zeta. destruct (_ || _ || _); [done|].
    destruct (codex_event (xp_Event p) =s? "session-start") eqn:Es.
    { intros [= <-]. split; [done|]. right. apply session_start; [done| |done]. by apply String.eqb_eq. }
    destruct (xp_Tool p =s? ""); [done|]. destruct (Unmarshal dec_raw_map None _) as [[input|]|]; try done.
    intros [= H]. by apply codex_tool_grounded in H. }
  destruct (plane =s? "claude") eqn:E2.
  { apply String.eqb_eq in E2 as ->. intros [= H]. apply ParseClaude_grounded in H as [? ?]. by split; [|left]. }
  destruct (plane =s? "opencode") eqn:E3.
  { apply String.eqb_eq in E3 as ->. intros [= H]. apply ParseOpencode_grounded in H as [? ?]. by split; [|left]. }
  destruct (plane =s? "antigravity") eqn:E4; [|done]. apply String.eqb_eq in E4 as ->. intros [= H].
  by apply ParseAntigravity_grounded in H.
Qed.

End Capabilities.

(** ** Reports of degraded calls *)

Lemma keep_reports_take (rfc3339 : string -> bool) kept reports :
  (length kept <= 32)%nat ->
  keep_reports rfc3339 kept reports = take 32 (kept ++ List.filter (report_eligible rfc3339) reports).
Proof.
  revert kept. induction reports as [|r reports IH]; intros kept Hk; cbn [keep_reports List.filter].
  { by rewrite app_nil_r, take_ge. }
  destruct (32 <=? length kept)%nat eqn:E; breflect.
  { rewrite take_app_le by lia. by rewrite take_ge. }
  destruct (report_eligible rfc3339 r); [|by rewrite IH].
  rewrite IH by (rewrite length_app; cbn; lia). by rewrite <- app_assoc.
Qed.

(** Of the reports of degraded calls the audit gets the first 32 that are well formed
    and name a tool that the contract lets an adapter decide. *)
Theorem degraded_reports_bounded rfc3339 reports :
  sanitizeDegradedAllows rfc3339 reports = take 32 (List.filter (report_eligible rfc3339) reports) /\
  (length (sanitizeDegradedAllows rfc3339 reports) <= 32)%nat.
Proof.
  assert (H : sanitizeDegradedAllows rfc3339 reports = take 32 (List.filter (report_eligible rfc3339) reports)).
  { unfold sanitizeDegradedAllows. by rewrite keep_reports_take by (cbn; lia). }
  split; [done|]. rewrite H, length_take. lia.
Qed.

(** ** Paths of Antigravity *)

Definition agree_on (input : option object) (keys : list string) (p : string) : Prop :=
  forall key, key ∈ keys -> text_at key input = "" \/ text_at key input = p.

Lemma schema_path_agrees schema input p :
  schema_path schema input = Some p -> p <> "" -> agree_on input (ps_key schema :: ps_aliases schema) p.
Proof.
  unfold schema_path. set (f := fun path alias => _). intros H Hp.
  assert (Hnone : forall l, foldl f None l = None) by by induction l.
  assert (Hf : forall l q, foldl f (Some q) l = Some p -> (q = "" \/ q = p) /\ agree_on input l p).
  { clear H. induction l as [|a l IH]; intros q; cbn [foldl].
    - intros [= ->]. split; [by right|]. intros k []%elem_of_nil.
    - destruct (f (Some q) a) as [q'|] eqn:E; [|by rewrite Hnone]. intros [Hq Hl]%IH.
      unfold f in E. destruct (text_at a input =s? "") eqn:E1; breflect.
      { injection E as ->. split; [done|]. intros k [->|Hk]%elem_of_cons; [by left|by apply Hl]. }
      destruct (q =s? "") eqn:E2; breflect.
      { injection E as <-. split; [by left|]. intros k [->|Hk]%elem_of_cons; [tauto|by apply Hl]. }
      destruct (text_at a input =s? q) eqn:E3; cbn in E; [|done]. breflect. injection E as <-.
      split; [done|]. intros k [->|Hk]%elem_of_cons; [rewrite E3; tauto|by apply Hl]. }
  destruct (Hf _ _ H) as [Hq Hl]. intros k [->|Hk]%elem_of_cons; [done|by apply Hl].
Qed.

(** A file tool of Antigravity with a documented schema is projected onto one path, on
    which every argument that names one agrees, and no argument is outside the schema:
    a call that names two files, or passes one under another name, fails closed. *)
Theorem antigravity_one_path tool schema input paths :
  List.find (fun s => s.1 =s? tool) antigravityPathSchemas = Some (tool, schema) ->
  tool <> "multi_replace_file_content" ->
  documentedAntigravityPaths tool input = Some paths ->
  exists p, paths = [p] /\ p <> "" /\ agree_on input (ps_key schema :: ps_aliases schema) p /\
    forall key v, (key, v) ∈ default [] input -> key ∈ ps_allowed schema.
Proof.
  intros Hs Hm. unfold documentedAntigravityPaths.
  apply String.eqb_neq in Hm as ->. assert (Ht : in_list tool ["notebook_edit"; "sed_file"; "delete_knowledge"] = false).
  { apply find_some in Hs as [Hin _]. apply list_elem_of_In in Hin. unfold antigravityPathSchemas in Hin. set_unfold.
    repeat match goal with H : _ \/ _ |- _ => destruct H as [H|H] end; try done; by injection Hin as -> _. }
  cbn [in_list existsb] in Ht. apply orb_false_iff in Ht as [-> [-> [-> _]%orb_false_iff]%orb_false_iff]. rewrite Hs.
  destruct (documented_keys _ _) eqn:Ed; [|done]. destruct (schema_path schema input) as [p|] eqn:E; [|done].
  cbn. unfold one_path. destruct (p =s? "") eqn:Ep; [done|]. breflect. intros [= <-]. exists p. split_and!; [done|done| |].
  - by apply schema_path_agrees.
  - intros key v Hin. unfold documented_keys in Ed. rewrite forallb_forall in Ed.
    apply list_elem_of_In, Ed in Hin. by apply in_list_true in Hin.
Qed.

(** ** Concrete payloads *)

(** A reader of addresses of the form [https://host]. *)
Definition demo_web_url (raw : string) : option URL :=
  match CutPrefix raw "https://" with
  | Some hst => Some {| url_Scheme := "https"; url_User := None; url_Host := hst; url_Fragment := "" |}
  | None => None
  end.

(** The members of a request that opens one page. *)
Definition demo_open : list (string * string) :=
  [("open", quoted "[{'ref_id':'https://docs.example.com'}]"); ("response_length", quoted "'short'")].

Definition demo_search : list (string * string) :=
  [("search_query", quoted "[{'q':'go maps'}]"); ("response_length", quoted "'short'")].

Lemma web_request_order_irrelevant_witness :
  (codexWebCapability demo_web_url demo_open = codexWebCapability demo_web_url (rev demo_open) /\
   codexResearchInput demo_web_url demo_open = codexResearchInput demo_web_url (rev demo_open)) /\
  codexWebCapability demo_web_url demo_search = (CapabilityWebSearch, "").
Proof.
  split; [apply (web_request_order_irrelevant demo_web_url demo_open (rev demo_open)), Permutation_rev|].
  vm_compute. reflexivity.
Defined.

Lemma web_fetch_is_one_address_witness :
  total demo_web_url demo_open = Some (0%nat, ["https://docs.example.com"]) /\
  validWebFetchURL demo_web_url "https://docs.example.com" = true.
Proof.
  apply (web_fetch_is_one_address demo_web_url demo_open "https://docs.example.com"). vm_compute. reflexivity.
Defined.

Definition demo_view : object :=
  [("AbsolutePath", Str "/repo/a.go"); ("TargetFile", Str "/repo/a.go"); ("StartLine", Num "1")].

Definition demo_schema : antigravityPathSchema :=
  path_schema "AbsolutePath" ["AbsolutePath"; "TargetFile"; "StartLine"; "EndLine"; "ContentOffset"; "IsSkillFile"]
    ["TargetFile"].

Lemma antigravity_one_path_witness :
  exists p, ["/repo/a.go"] = [p] /\ p <> "" /\ agree_on (Some demo_view) (ps_key demo_schema :: ps_aliases demo_schema) p /\
    forall key v, (key, v) ∈ default [] (Some demo_view) -> key ∈ ps_allowed demo_schema.
Proof.
  apply (antigravity_one_path "view_file" demo_schema (Some demo_view)); [reflexivity|discriminate|].
  vm_compute. reflexivity.
Defined.
