(* ===== verification/Guidance.v ===== *)
(** * What the model is told ([internal/safetext], [internal/adapter]: sanitize.go,
      guidance.go, guidance_metadata.go, the texts of claude.go and codex.go)

    The text beside a verdict: the reason, the next step of its rule, the path of an
    approval.  Reasons, feedback and warnings pass [sanitizeForModel]: one line of at most
    512 runes and no control character.  The native action that an ask names does not: it
    is shown as it is. *)

From Stdlib Require Import ZArith Lia Bool.
From stdpp Require Import pretty.
From S2P Require Import Prelude GoStrings GoPath Policy Engine Session ActionGrant Ticket Hook Simple GitRepo RuneText.
From S2P Require Import Json WriteTargets CommandRules JsonText JsonCodec.

(** ** safetext.go *)

(** [unicode.IsControl] and [unicode.IsSpace] of a rune's encoding. *)
Definition IsControl (r : string) : bool :=
  let n := rune_value r in (n <? 32)%Z || ((127 <=? n)%Z && (n <? 160)%Z).
Definition IsSpace (r : string) : bool := in_list r space_encodings.

Definition blank_controls (r : string) : string := if IsControl r then " " else rune_text r.

Definition SingleLine (s : string) : string :=
  Join (FieldsFunc (Join (map blank_controls (runes s)) "") IsSpace) " ".

(** ** sanitize.go *)

Definition maxModelFacingRunes : nat := 512.
Definition maxModelFacingWarnings : nat := 20.
Definition ellipsis : string := "…".

(** [string] of a slice of runes. *)
Definition string_of_runes (rs : list string) : string := Join (map rune_text rs) "".

Definition sanitizeForModel (s : string) : string :=
  let out := SingleLine s in
  let r := runes out in
  if (maxModelFacingRunes <? length r)%nat then string_of_runes (take maxModelFacingRunes r) +:+ ellipsis else out.

(** [^[A-Za-z0-9._-]{1,64}$] *)
Definition waiver_byte (c : ascii) : bool :=
  is_letter c || is_digit c || Ascii.eqb c "." || Ascii.eqb c "_" || Ascii.eqb c "-".
Definition waiverIDPattern (id : string) : bool :=
  (1 <=? String.length id)%nat && (String.length id <=? 64)%nat && all_bytes waiver_byte id.

Definition sanitizeWaiverIDs (ids : list string) : list string := List.filter waiverIDPattern ids.

Definition sanitizeWarnings (warnings : list string) : list string :=
  map sanitizeForModel (take maxModelFacingWarnings warnings).

(** [EmitModelWarnings]: what it writes. *)
Definition EmitModelWarnings (warnings : list string) : string :=
  Join (map (fun w => w +:+ String "010" "") (sanitizeWarnings warnings)) "".

(** ** guidance.go *)

Definition operatorAskNextStep : string :=
  "If the operator approves, this exact command runs once and applies; do not run it again or another way. If they decline, or no prompt appears, do not retry or rephrase it: tell the operator what you need; they can run the command in their own terminal. Continue other work.".

Definition OperatorActionAskRuleID : string := "operator-action-ask".

Definition operatorAskGuidance (v : Verdict) : string :=
  "Approve this " +:+ v_Reason v +:+ "? Approve only if you asked for it. " +:+ operatorAskNextStep.

(** The text for an approval by conversation. *)
Definition conversational : string :=
  "Approval path: this is a conversational approval. There is no approval URL, no daemon and no `guardrail approvals` command you can run for it — say what you need to the operator, and retry the exact call once they approve, on its own: a retry that adds or drops a step is a new action and asks again.".

Definition askApprovalPath (v : Verdict) : string :=
  if v_RuleID v =s? OperatorActionAskRuleID then operatorAskNextStep
  else if v_ApprovalURL v <>s? ""
  then "Approval path: this is a broker approval — open " +:+ v_ApprovalURL v +:+ " and complete the passkey ceremony. Telling the operator in chat will not clear it."
  else if v_OperatorAction v <>s? ""
  then "Approval path: this is an operator action. Run the exact command once on its own: the host asks the operator to approve it. If the verdict carries an approval URL, surface it instead (passkey mode). If no prompt appears, tell the operator the command; they run it in their own terminal."
  else if NeverGrantable (v_RuleID v) then conversational
  else conversational +:+ " If the operator would rather authorize it in policy than approve it in chat, they can issue a single-use grant for this exact command from their own terminal. Ask for the command you just ran, never a broader form of it.".

Definition denyNextStep (v : Verdict) : string :=
  let rule := v_RuleID v in
  if (rule =s? "P5.self-config") && in_list (v_Reason v) [NightMentionReason; SelfControlMentionReason]
  then "Only a mention was seen, but interpreter input cannot be inspected. Put this content in the file with the Write or Edit tool instead of a shell literal, then continue."
  else if in_list rule ["P4.secret-in-text"]
  then "The secret-tier path was mentioned in the command's text, not accessed. Content like this belongs in the file, not a shell literal: write it with the Write or Edit tool, then continue."
  else if in_list rule ["call-mcp-tool-generic"]
  then "Call it by its direct name, mcp_<server>_<tool>, if offered. If not, do not retry through call_mcp_tool: work with native tools and tell the operator the server's tools must be loaded eagerly."
  else if in_list rule ["capability-deny"; "capability-invalid"]
  then "This tool is outside the Guardrail boundary on this plane (it moves data or control to another principal). Do not retry it: reach the outcome with in-session tools, or tell the operator this step needs them; then continue."
  else if in_list rule ["capability-delegation-unverified"]
  then "This capability is unavailable on this plane. Do not delegate and do not retry: perform the work yourself in this session, then continue."
  else if in_list rule ["unknown-native-tool"]
  then "This tool is unclassified on this plane. Accomplish the same outcome with a supported tool (edit, read, or explicit command), then continue."
  else if in_list rule ["capability-input-missing"; "capability-input-invalid"]
  then "The call could not be projected for evaluation. Re-issue the work with a supported form — edits with explicit file paths, an explicit command, or a full HTTP URL — then continue."
  else if in_list rule ["P4.secret-path"; "P4.secret-path-ambiguous"]
  then "This is a secret-tier path: it is denied here, and only an authorized Overlay secret_allow can allow a matching file secret (never directory secrets). Exclude this path and continue the rest of the task."
  else if in_list rule ["P5.self-config"]
  then "This is Guardrail-protected machinery: never edit it from a session. If it genuinely needs repair, tell the operator; `guardrail doctor` prints the exact repair command. Continue other work."
  else if in_list rule ["operator-action-terminal"; "operator-action-ticket"]
  then "This is an operator action this plane cannot ask for here. Tell the operator the exact command from this message; they run it in their own terminal and answer its prompt. Do not retry it or run it another way. Continue other work."
  else if in_list rule ["operator-action-satisfied"]
  then "The grant already holds: do not request it again. Use it now (guardrail fetch <url>) and continue."
  else if in_list rule ["P6.egress"]
  then "Web pages go through `guardrail fetch <url>`, not curl or wget; for an unapproved host run `guardrail egress grant` yourself (host prompt or passkey) and continue offline work. Do not skip a fetch because an earlier one was denied."
  else if in_list rule ["web-fetch-native-deny"]
  then "Run `guardrail fetch <the same URL>` as a shell command instead; if it names an unapproved host, run the `guardrail egress grant` it prints yourself (operator approves: host prompt or passkey), then retry. Do not skip a fetch because an earlier one was denied."
  else if in_list rule ["P1.rm-rf"; "P1.dd"; "P1.mkfs"; "P1.shred"; "P1.privesc"; "P1.docker-down"; "P1.docker-prune"; "P1.docker-substituted"; "P1.git-push-force"; "P1.git-clean"]
  then "Destructive operation: do not retry it. Use a scoped, reversible alternative, or ask the operator to run it manually; then continue the task."
  else if in_list rule ["P2.git-reset-hard"; "P2.git-config-write"; "P2.git-protected-path"]
  then "Protected git state: use a non-destructive alternative (for example git revert instead of reset --hard), or ask the operator if it is truly required; then continue."
  else if in_list rule ["P4.symlink-escape"]
  then "Symlink escape: operate on the real target path inside the authorized root, then continue."
  else if in_list rule ["P6.download-pipe-shell"]
  then "Download piped into a shell is denied. Download to a file, inspect it, then run it as a separate reviewed step."
  else "Do not retry this exact call. Complete the work by other means and involve the operator only if this exact step is required; then continue.".

Definition Guidance (v : Verdict) (action : string) : string :=
  match v_Decision v with
  | Ask =>
      if v_RuleID v =s? OperatorActionAskRuleID then operatorAskGuidance v
      else "Operator authorization required: " +:+ v_Reason v +:+ ". Request authorization for this exact action: " +:+ action +:+ ". If the operator approves, retry this exact tool call within 10 minutes. If the authorization expires, stop and wait for the operator to return — say what you were doing and that approval expired; do not keep retrying. Do not alter or broaden the action. " +:+ askApprovalPath v
  | Deny =>
      "Guardrail denied this action: " +:+ v_Reason v +:+ ". " +:+ denyNextStep v +:+ " If this verdict seems wrong or blocks legitimate work, report it to the operator with: the exact tool call, the rule ID (" +:+ v_RuleID v +:+ "), your guardrail version, what you were trying to do, and what you did instead. Do not work around it silently."
  | _ => v_Reason v
  end.

Definition guidanceForModel (v : Verdict) (action : string) : string :=
  match v_Decision v with
  | Ask => Guidance (with_reason v (sanitizeForModel (v_Reason v))) action
  | _ => sanitizeForModel (Guidance v action)
  end.

(** [operatorActionGuidance] *)
Definition operatorActionGuidance (v : Verdict) : string :=
  sanitizeForModel
    ("Operator approval requested for " +:+ v_OperatorAction v +:+ " (request " +:+ v_RequestID v +:+ ")." +:+
     (if v_ApprovalURL v <>s? "" then " Approval URL: " +:+ v_ApprovalURL v +:+ "." else "") +:+
     " The operator approves with their passkey and the action is applied at that moment; do not re-run this command (that files a new request). Continue other work meanwhile and use the granted capability once they confirm.").

Definition NextStep (v : Verdict) : string :=
  match v_Decision v with
  | Ask => askApprovalPath v
  | Deny => denyNextStep v
  | Complete => operatorActionGuidance v
  | _ => ""
  end.

(** [CodexAskGuidance] *)
Definition CodexAskGuidance (v : Verdict) (command : bool) : string :=
  let prefix := "Guardrail requires operator authorization: " +:+ sanitizeForModel (v_Reason v) +:+ ". Codex PreToolUse cannot request approval. " in
  if NeverGrantable (v_RuleID v) then prefix +:+ "This rule cannot be granted. Report the finding to the operator and follow the rule's diagnostic guidance before retrying; continue independent work. Chat approval cannot clear this verdict."
  else if v_RequestID v <>s? ""
  then prefix +:+ "Exact action request " +:+ v_RequestID v +:+ " is pending. Tell the operator to run `guardrail approvals grant --record " +:+ v_RequestID v +:+ "` in their terminal to review the complete action and approve or decline it. After recorded approval, retry this identical action once; changed actions need a new approval. Conversational approval is not authorization; continue independent work."
  else if command then prefix +:+ "Tell the operator this exact action: they can run it outside this session, or issue a single-use grant for this exact command from their terminal (`guardrail explain` prints it); continue independent work. Do not retry based on conversational approval."
  else prefix +:+ "No exact-action approval request was recorded. Report the complete action and this finding to the operator; they can perform it outside this session. Continue independent work. Chat approval cannot clear this verdict.".

Definition CodexPostGuidance (v : Verdict) : string :=
  "Guardrail PostToolUse feedback: the tool already ran; its effects were not prevented or undone by this hook. Policy finding: " +:+ sanitizeForModel (v_Reason v) +:+ ". No approval request was created by this post-tool check. Report the finding to the operator and inspect the resulting state. Do not automatically repeat or undo the action, or treat conversational approval as recorded authorization; continue independent work.".

(** ** guidance_metadata.go *)

Definition remediationUseFileTool : string := "use_file_tool".
Definition remediationScopedAlternative : string := "scoped_alternative".
Definition remediationOperatorApproval : string := "operator_approval".
Definition remediationContinueOtherWork : string := "continue_other_work".
Definition remediationFailClosed : string := "fail_closed".

Record guidanceMetadata := { gm_SuggestedTool : string; gm_RemediationClass : string }.

Definition meta (tool class : string) : guidanceMetadata :=
  {| gm_SuggestedTool := tool; gm_RemediationClass := class |}.

Definition guidanceMetadataFor (v : Verdict) : guidanceMetadata :=
  if in_list (v_RuleID v) ["P4.secret-in-text"]
  then meta "edit" remediationUseFileTool
  else if in_list (v_RuleID v) ["P5.self-config"]
  then meta "" remediationContinueOtherWork
  else if in_list (v_RuleID v) ["capability-deny"; "capability-invalid"]
  then meta "" remediationFailClosed
  else if in_list (v_RuleID v) ["capability-delegation-unverified"]
  then meta "" remediationContinueOtherWork
  else if in_list (v_RuleID v) ["unknown-native-tool"]
  then meta "" remediationContinueOtherWork
  else if in_list (v_RuleID v) ["capability-input-missing"; "capability-input-invalid"]
  then meta "" remediationContinueOtherWork
  else if in_list (v_RuleID v) ["P4.secret-path"; "P4.secret-path-ambiguous"]
  then meta "" remediationContinueOtherWork
  else if in_list (v_RuleID v) ["P4.symlink-escape"]
  then meta "" remediationScopedAlternative
  else if in_list (v_RuleID v) ["P6.download-pipe-shell"]
  then meta "" remediationScopedAlternative
  else if in_list (v_RuleID v) ["P1.rm-rf"; "P1.dd"; "P1.mkfs"; "P1.shred"; "P1.privesc"; "P1.docker-down"; "P1.docker-prune"; "P1.docker-substituted"; "P1.git-push-force"; "P1.git-clean"]
  then meta "" remediationScopedAlternative
  else if in_list (v_RuleID v) ["P2.git-reset-hard"; "P2.git-config-write"; "P2.git-protected-path"]
  then meta "" remediationScopedAlternative
  else if in_list (v_RuleID v) ["P6.egress"]
  then meta "" remediationOperatorApproval
  else if in_list (v_RuleID v) ["web-fetch-native-deny"]
  then meta "" remediationScopedAlternative
  else if in_list (v_RuleID v) ["operator-action-satisfied"]
  then meta "" remediationContinueOtherWork
  else meta "" remediationContinueOtherWork.

(** ** The texts of claude.go *)

Definition newlines : string := String "010" (String "010" "").

Definition posture : string :=
  "guardrail is active. Operate autonomously on routine development steps — do not stop to ask conversational permission; guardrail enforces destructive-command and secret-access boundaries deterministically. Pause only when guardrail returns an explicit block/ask, or you face genuine ambiguity outside its scope. On an ask: tell the operator in one sentence what you need and why, wait for their answer, then retry the exact call on its own. On a deny: follow the next step the message gives; do not work around it. Write shell commands guardrail can resolve, or each one asks the operator: literal absolute paths rather than variables or `$(...)` results as paths, redirect targets or command names; `&&` or `git -C <dir>` rather than `cd dir;`; separate tool calls rather than one long chain.".

Definition PostureText (waivers warnings : list string) : string :=
  let waivers := sanitizeWaiverIDs waivers in
  posture +:+
  (if bool_decide (waivers = []) then "" else newlines +:+ "Active policy waivers in this repo (these rules are OFF): " +:+ Join waivers ", ") +:+
  Join (map (fun w => newlines +:+ w) (sanitizeWarnings warnings)) "".

Definition planeDisplayName (plane : string) : string :=
  if plane =s? "claude" then "Claude" else if plane =s? "opencode" then "OpenCode"
  else if plane =s? "antigravity" then "Antigravity" else plane.

Definition plural (n : Z) : string := if (n =? 1)%Z then "" else "s".
Definition pronoun (n : Z) : string := if (n =? 1)%Z then "it" else "them".

Definition PlaneLifecycleLine (plane state : string) (unmarkedGroups : Z) : string :=
  planeDisplayName plane +:+ " plane lifecycle: " +:+ sanitizeForModel state +:+ "." +:+
  (if HasPrefix state "guardrail hook registered" || HasPrefix state "guardrail integration registered" then
     if (0 <? unmarkedGroups)%Z
     then " " +:+ pretty unmarkedGroups +:+ " unmarked legacy guardrail hook group" +:+ plural unmarkedGroups +:+ " remain (drift): run `guardrail plane enable " +:+
          plane +:+ "` on its own to absorb " +:+ pronoun unmarkedGroups +:+ "; the host asks the operator to approve."
     else ""
   else " This session is guarded by the hook that launched it, but future sessions may not be: run `guardrail plane enable " +:+ plane +:+ "` on its own; the host asks the operator to approve.").

Definition CoverageDriftLine (plane runtime : string) (uncontracted : list string) : string :=
  if bool_decide (uncontracted = []) then ""
  else sanitizeForModel
    (plane +:+ " coverage: " +:+ runtime +:+ " — " +:+ pretty (Z.of_nat (length uncontracted)) +:+ " uncontracted " +:+
     (if (length uncontracted =? 1)%nat then "tool" else "tools") +:+ " (" +:+ Join uncontracted ", " +:+
     "); run guardrail doctor --coverage " +:+ plane).

(** ** Facts *)

(** Text that is a sequence of whole runes, none a control character. *)
Definition clean_rune (r : string) : Prop := rune_with (fun r => IsControl r = false) r.
Definition clean (s : string) : Prop := Forall clean_rune (runes s).

Lemma clean_Join rs : Forall clean_rune rs -> runes (Join rs "") = rs.
Proof. apply runes_Join_with. Qed.

Lemma clean_of_runes rs : Forall clean_rune rs -> clean (Join rs "").
Proof. intros H. unfold clean. by rewrite clean_Join. Qed.

(** The text its runes make. *)
Lemma clean_join_runes s : coerce s = s -> clean s -> Join (runes s) "" = s.
Proof.
  intros Hc H. rewrite <- Hc at 2. unfold coerce. f_equal. unfold clean in H.
  induction H as [|r rs [(_ & E & _) _] _ IH]; [done|]. cbn. by rewrite E, <- IH.
Qed.

Lemma space_clean : clean_rune " ".
Proof. split; [apply is_rune_ascii; vm_compute; lia|by vm_compute]. Qed.

Lemma blank_controls_clean s r : r ∈ runes s -> clean_rune (blank_controls r).
Proof.
  intros H. unfold blank_controls. destruct (IsControl r) eqn:E; [apply space_clean|].
  apply runes_cases in H as [H|[H _]].
  - split; destruct H as (? & E2 & ?); rewrite E2; done.
  - rewrite H. split; [apply RuneError_rune|by vm_compute].
Qed.

(** One line of words: the only space is a single blank between two words. [before] is
    whether a word is to come first. *)
Fixpoint lined (before : bool) (rs : list string) : bool :=
  match rs with
  | [] => negb before
  | r :: rs => if r =s? " " then negb before && lined true rs else negb (IsSpace r) && lined false rs
  end.

Definition one_line (rs : list string) : Prop := rs = [] \/ lined true rs = true.

(** The runes of one word. *)
Definition word_runes (ws : list string) : Prop := Forall clean_rune ws /\ Forall (fun r => IsSpace r = false) ws.

Lemma not_blank r : IsSpace r = false -> (r =s? " ") = false.
Proof. intros H. apply String.eqb_neq. by intros ->. Qed.

Lemma lined_word before ws rest :
  ws <> [] -> word_runes ws -> lined before (ws ++ rest) = lined false rest.
Proof.
  intros Hne [_ H]. revert before Hne. induction H as [|r ws Hr _ IH]; intros before Hne; [done|].
  cbn [app lined]. rewrite (not_blank r Hr), Hr. cbn [negb andb]. destruct ws as [|r' ws]; [done|]. by apply IH.
Qed.

(** The fields of a clean text are such words. *)
Lemma fields_words rs : forall word ws, Forall clean_rune rs -> word = Join ws "" -> word_runes ws ->
  Forall (fun f => exists ws, f = Join ws "" /\ ws <> [] /\ word_runes ws) (fields_func IsSpace word rs).
Proof.
  assert (Hflush : forall word ws rest, word = Join ws "" -> word_runes ws ->
    Forall (fun f => exists ws, f = Join ws "" /\ ws <> [] /\ word_runes ws) rest ->
    Forall (fun f => exists ws, f = Join ws "" /\ ws <> [] /\ word_runes ws) (if word =s? "" then rest else word :: rest)).
  { intros word ws rest -> Hws Hr. destruct (Join ws "" =s? "") eqn:E; [done|]. constructor; [|done]. exists ws. split_and!; [done| |done].
    by intros ->. }
  induction rs as [|r rs IH]; intros word ws Hrs -> Hws; cbn [fields_func]; [by eapply Hflush|].
  apply Forall_cons in Hrs as [Hr Hrs]. destruct (IsSpace r) eqn:Es.
  - eapply Hflush; [done..|]. apply (IH "" []); [done..|]. by split.
  - apply (IH _ (ws ++ [r])); [done|by rewrite Join_app_nil|]. destruct Hws. split; apply Forall_app; (split; [done|by apply Forall_singleton]).
Qed.

(** Such words, a blank between them, are one clean line. *)
Lemma words_lined fs :
  Forall (fun f => exists ws, f = Join ws "" /\ ws <> [] /\ word_runes ws) fs ->
  exists rs, Join fs " " = Join rs "" /\ Forall clean_rune rs /\ (fs <> [] -> lined true rs = true) /\ (fs = [] -> rs = []).
Proof.
  induction 1 as [|f fs (ws & -> & Hne & Hws) Hfs IH]; [by exists []|]. destruct IH as (rs & Hj & Hrs & Hl & He).
  pose proof (fun before => lined_word before ws [] Hne Hws) as Hend. rewrite app_nil_r in Hend.
  destruct fs as [|f' fs]; [exists ws; by split_and!; [|apply Hws|rewrite Hend|]|].
  exists (ws ++ " " :: rs). split_and!; [| | |done].
  - change (Join (Join ws "" :: f' :: fs) " ") with (Join ws "" +:+ " " +:+ Join (f' :: fs) " ").
    by rewrite Hj, Join_app_nil, Join_nil_cons.
  - apply Forall_app. split; [apply Hws|]. constructor; [apply space_clean|done].
  - intros _. rewrite lined_word by done. cbn. by apply Hl.
Qed.

Lemma SingleLine_lined s : exists rs, SingleLine s = Join rs "" /\ Forall clean_rune rs /\ one_line rs.
Proof.
  unfold SingleLine, FieldsFunc.
  assert (Hb : Forall clean_rune (map blank_controls (runes s))).
  { rewrite Forall_map. apply Forall_forall. intros r Hr. by eapply blank_controls_clean. }
  rewrite (clean_Join _ Hb).
  destruct (words_lined (fields_func IsSpace "" (map blank_controls (runes s)))) as (rs & Hj & Hrs & Hl & He).
  { by apply (fields_words _ "" []). }
  exists rs. split_and!; [done..|]. destruct (fields_func _ _ _); [left; auto|right; by apply Hl].
Qed.

(** Cut short and marked, it still is. *)
Lemma lined_cut before n rs : lined before rs = true -> lined before (take n rs ++ [ellipsis]) = true.
Proof.
  revert before n. induction rs as [|r rs IH]; intros before [|n] H; cbn [take app]; [by vm_compute|by vm_compute| |].
  - by destruct before; vm_compute.
  - cbn [lined] in *. destruct (r =s? " "); apply andb_true_iff in H as [-> H]; by rewrite IH.
Qed.

(** Splitting a line into its words and joining them gives it back. *)
Lemma fields_lined rs : forall before word, Forall clean_rune rs -> lined before rs = true -> (before = true <-> word = "") ->
  fields_func IsSpace word rs <> [] /\ Join (fields_func IsSpace word rs) " " = word +:+ Join rs "".
Proof.
  induction rs as [|r rs IH]; intros before word Hrs Hl Hw; cbn [lined fields_func] in *.
  - assert (Hne : (word =s? "") = false) by (apply String.eqb_neq; intros E; destruct Hw as [_ Hw]; by rewrite Hw in Hl).
    rewrite Hne. split; [done|]. cbn. by rewrite append_nil_r.
  - apply Forall_cons in Hrs as [Hr Hrs]. rewrite Join_nil_cons. destruct (String.eqb_spec r " ") as [E|E].
    + subst r. destruct before; [done|]. cbn [negb andb] in Hl.
      assert (Hne : (word =s? "") = false) by (apply String.eqb_neq; intros Ew; by apply Hw in Ew).
      change (IsSpace " ") with true. cbv iota. rewrite Hne.
      destruct (IH true "" Hrs Hl) as [Hf Hj]; [done|]. split; [done|].
      destruct (fields_func IsSpace "" rs) as [|f fs]; [done|]. cbn [Join] in Hj |- *. by rewrite Hj.
    + apply andb_true_iff in Hl as [Hs Hl]. apply negb_true_iff in Hs. rewrite Hs.
      destruct Hr as [(Hne & _ & _) _].
      destruct (IH false (word +:+ r) Hrs Hl) as [Hf Hj]; [|split; [done|]; by rewrite Hj, append_assoc].
      split; [done|]. intros Ew. destruct word; [by destruct Hne|done].
Qed.

(** A clean line is left as it is. *)
Lemma SingleLine_same t : coerce t = t -> clean t -> one_line (runes t) -> SingleLine t = t.
Proof.
  intros Hc Ht Hl. unfold SingleLine, FieldsFunc.
  assert (Hb : map blank_controls (runes t) = runes t).
  { rewrite <- (map_id (runes t)) at 2. apply map_ext_in. intros r Hr%list_elem_of_In. unfold clean in Ht.
    rewrite Forall_forall in Ht. destruct (Ht r Hr) as [(_ & E & _) Hcr]. unfold blank_controls. by rewrite Hcr. }
  rewrite Hb, (clean_Join _ Ht). pose proof (clean_join_runes t Hc Ht) as Hj. destruct Hl as [He|Hl].
  - rewrite He in Hj |- *. by rewrite <- Hj.
  - destruct (fields_lined (runes t) true "" Ht Hl) as [_ ->]; [done|]. exact Hj.
Qed.


(** What an ask tells the model names the native action as it is, byte for byte, in
    a text that does not otherwise depend on it: only the reason is bounded. *)
Theorem ask_names_exact_action v :
  v_Decision v = Ask -> v_RuleID v <> OperatorActionAskRuleID ->
  exists before after, forall action, guidanceForModel v action = before +:+ action +:+ after.
Proof.
  intros Hd Hr. apply String.eqb_neq in Hr. unfold guidanceForModel. rewrite Hd.
  unfold Guidance. cbn [with_reason v_Decision v_RuleID v_Reason]. rewrite Hd, Hr.
  set (p := askApprovalPath _). set (r := sanitizeForModel _).
  match goal with
  | |- context [?x +:+ r +:+ ?y +:+ _ +:+ ?z +:+ p] => generalize x y z; intros start middle rest
  end.
  exists (start +:+ r +:+ middle), (rest +:+ p). intros action. by rewrite !append_assoc.
Qed.

Definition demo_ask : Verdict := verdict Ask "P2.git-push" "push to a remote".

Lemma ask_names_exact_action_witness :
  v_Decision demo_ask = Ask /\
  exists before after, forall action, guidanceForModel demo_ask action = before +:+ action +:+ after.
Proof. split; [done|]. by apply ask_names_exact_action. Defined.
