(* ===== verification/Fetch.v ===== *)
(** * The constrained fetch ([internal/fetch/proxy.go])

    [guardrail fetch] reads one web page on the agent's behalf: from hosts the policy
    names, following redirects only to such hosts, and only text of bounded size.  The
    network is a parameter: what the server of each request answers, and how many
    requests are answered before the deadline of the client.  Because [CheckRedirect] is
    set, [net/http] has no limit of its own on the number of redirects. *)

From Stdlib Require Import ZArith Lia Bool.
From S2P Require Import Prelude GoStrings GoPath Policy Engine Simple GitRepo WriteTargets JsonText JsonCodec RuneText.

Definition maxBody : Z := 1048576.

Definition loopback_hosts : list string := ["localhost"; "127.0.0.1"; "::1"; "0.0.0.0"].

Section Fetch.

Context (url_Parse : string -> option URL).

(** [None] is [errInvalid]. *)
Definition hostFromURL (raw : string) : option string :=
  match url_Parse raw with
  | None => None
  | Some parsed =>
      if (url_Scheme parsed =s? "") || (url_Host parsed =s? "") || bool_decide (is_Some (url_User parsed)) ||
         (url_Fragment parsed <>s? "") || negb (in_list (url_Scheme parsed) ["http"; "https"])
      then None
      else
        let host := ToLower (Hostname parsed) in
        if in_list host loopback_hosts then Some host
        else if ValidateWebHost host then Some host else None
  end.

Definition allowedHost (host : string) (pol : option Policy) : bool :=
  in_list host loopback_hosts ||
  match pol with Some pol => in_list host (s_WebHosts (p_Slots pol)) | None => false end.

Definition allowed (raw : string) (pol : option Policy) : bool :=
  match hostFromURL raw with Some host => allowedHost host pol | None => false end.

Definition unapprovedHostReason (what host : string) : string :=
  if host =s? "" then what
  else what +:+ ": " +:+ host +:+ ". Request it with `" +:+ WebHostGrantCommand [host] +:+
       "` (the operator approves it with a passkey), then retry this fetch".

(** The loop over the runes: what is written, and whether the text is inside a tag. *)
Definition html_step (st : string * bool) (r : string) : string * bool :=
  let '(out, inTag) := st in
  if r =s? "<" then (out, true)
  else if r =s? ">" then (out +:+ " ", false)
  else if inTag then (out, inTag) else (out +:+ rune_text r, inTag).

Definition normalizeHTML (s : string) : string :=
  Join (FieldsFunc (foldl html_step ("", false) (runes s)).1 (fun r => in_list r space_encodings)) " " +:+
  String "010" "".

(** What a request is answered with: a redirect to a URL, a response with its type and its
    body, which may break off, or no response. *)
Inductive reply := Redirect (url : string) | Response (contentType : string) (body : option string) | NoResponse.

Context (respond : nat -> string -> reply).

(** How [client.Do] ends. *)
Inductive fetch_end :=
| Answered (contentType : string) (body : option string)
| RedirectAsks (host : string)
| RedirectInvalid
| RequestFails.

(** [client.Do] on the [n]th request, with [CheckRedirect] before each further one, and
    the URLs requested; [budget] requests are answered before the deadline. *)
Fixpoint do_request (pol : option Policy) (n budget : nat) (url : string) : fetch_end * list string :=
  match budget with
  | O => (RequestFails, [url])
  | S budget =>
      match respond n url with
      | NoResponse => (RequestFails, [url])
      | Response contentType body => (Answered contentType body, [url])
      | Redirect next =>
          match hostFromURL next with
          | None => (RedirectInvalid, [url])
          | Some host =>
              if negb (allowedHost host pol) then (RedirectAsks host, [url])
              else let '(d, urls) := do_request pol (S n) budget next in (d, url :: urls)
          end
      end
  end.

Definition media_types : list string := ["text/plain"; "text/html"; "text/markdown"; "application/json"].

(** [Content-Type] up to its parameters. *)
Definition media_of (contentType : string) : string :=
  ToLower (TrimSpace (List.hd "" (Split contentType ";"))).

Definition denied (rule : string) : string * Verdict := ("", verdict Deny rule "").
Definition asked (what host : string) : string * Verdict :=
  ("", verdict Ask "fetch-host" (unapprovedHostReason what host)).

(** The response that came. *)
Definition read_response (contentType : string) (body : option string) : string * Verdict :=
  let media := media_of contentType in
  if negb (in_list media media_types) then denied "fetch-content-type"
  else match body with
  | None => denied "fetch-failed"
  | Some b =>
      let b := stake (Z.to_nat (maxBody + 1)) b in
      if (maxBody <? Z.of_nat (String.length b))%Z then denied "fetch-too-large"
      else (if media =s? "text/html" then normalizeHTML b else b, verdict Allow "" "")
  end.

(** The text and the verdict, and the URLs that were requested. *)
Definition Fetch (budget : nat) (raw : string) (pol : option Policy) : (string * Verdict) * list string :=
  match hostFromURL raw with
  | None => (denied "fetch-invalid", [])
  | Some host =>
      if negb (allowedHost host pol) then (asked "web fetch to an unapproved host requires operator approval" host, [])
      else
        let '(d, urls) := do_request pol 0 budget raw in
        (match d with
         | RedirectAsks host => asked "redirect destination requires operator approval" host
         | RedirectInvalid => denied "fetch-invalid"
         | RequestFails => denied "fetch-failed"
         | Answered contentType body => read_response contentType body
         end, urls)
  end.

(** ** Facts *)

(** A request was made only where the policy lets one be made. *)
Lemma do_request_allowed pol n budget url d urls :
  allowed url pol = true -> do_request pol n budget url = (d, urls) ->
  Forall (fun u => allowed u pol = true) urls.
Proof.
  revert n url d urls. induction budget as [|budget IH]; intros n url d urls Hu; cbn [do_request].
  { intros [= <- <-]. by repeat constructor. }
  destruct (respond n url) as [next|ct body|]; [|intros [= <- <-]; by repeat constructor..].
  destruct (hostFromURL next) as [host|] eqn:Eh; [|intros [= <- <-]; by repeat constructor].
  destruct (allowedHost host pol) eqn:Ea; cbn [negb]; [|intros [= <- <-]; by repeat constructor].
  destruct (do_request pol (S n) budget next) as [d' urls'] eqn:E. intros [= <- <-].
  constructor; [done|]. eapply IH; [|exact E]. unfold allowed. by rewrite Eh.
Qed.

(** The URLs are the chain of the servers' own redirects, from the [n]th request on. *)
Definition redirected (n : nat) (urls : list string) : Prop :=
  forall k u next, urls !! k = Some u -> urls !! S k = Some next -> respond (n + k) u = Redirect next.

(** What the server of the last of the URLs answered. *)
Definition last_reply (n : nat) (urls : list string) : option reply :=
  respond (n + pred (length urls)) <$> last urls.

Lemma do_request_traced pol n budget url d urls :
  do_request pol n budget url = (d, urls) ->
  urls !! 0%nat = Some url /\ redirected n urls /\
  match d with
  | Answered contentType body => last_reply n urls = Some (Response contentType body)
  | RedirectAsks host => exists next, last_reply n urls = Some (Redirect next) /\
                           hostFromURL next = Some host /\ allowedHost host pol = false
  | _ => True
  end.
Proof.
  assert (Hone : forall n u, redirected n [u]) by (by intros m u [|k]).
  revert n url d urls. induction budget as [|budget IH]; intros n url d urls; cbn [do_request]; [by intros [= <- <-]|].
  assert (Hlast : last_reply n [url] = Some (respond n url)) by (unfold last_reply; cbn; by rewrite Nat.add_0_r).
  destruct (respond n url) as [next|ct body|] eqn:Er; [|by intros [= <- <-]..].
  destruct (hostFromURL next) as [h|] eqn:Eh; [|by intros [= <- <-]].
  destruct (allowedHost h pol) eqn:Ea; cbn [negb]; [|by intros [= <- <-]; split_and!; [done..|eauto]].
  destruct (do_request pol (S n) budget next) as [d' urls'] eqn:E. intros [= <- <-].
  destruct (IH _ _ _ _ E) as (H0 & Hred & Hd). split; [done|]. split.
  - intros [|k] u x Hu Hx.
    + injection Hu as <-. change (urls' !! 0%nat = Some x) in Hx. rewrite Nat.add_0_r. congruence.
    + change (urls' !! k = Some u) in Hu. change (urls' !! S k = Some x) in Hx.
      rewrite <- Nat.add_succ_comm. by eapply Hred.
  - destruct urls' as [|u urls']; [done|].
    assert (Hl : last_reply n (url :: u :: urls') = last_reply (S n) (u :: urls')).
    { unfold last_reply. cbn [length pred last]. by rewrite <- Nat.add_succ_comm. }
    by rewrite Hl.
Qed.

(** What an allowed fetch returns: the whole text that the server of the last URL
    answered with, of a textual type, at most [maxBody] bytes of it, HTML without its
    tags. *)
Definition fetched (urls : list string) (text : string) : Prop :=
  exists contentType body, last_reply 0 urls = Some (Response contentType (Some body)) /\
    media_of contentType ∈ media_types /\ (Z.of_nat (String.length body) <= maxBody)%Z /\
    text = if media_of contentType =s? "text/html" then normalizeHTML body else body.

Lemma stake_whole n s : (String.length (stake (S n) s) <= n)%nat -> stake (S n) s = s.
Proof. revert s. induction n as [|n IH]; intros [|c s]; cbn; try done; intros H; [lia|]. f_equal. apply IH. cbn. lia. Qed.

Lemma read_response_fetched contentType body urls text v :
  last_reply 0 urls = Some (Response contentType body) -> read_response contentType body = (text, v) ->
  v_Decision v = Deny /\ text = "" \/ v_Decision v = Allow /\ fetched urls text.
Proof.
  unfold read_response. intros Hl. destruct (in_list _ media_types) eqn:Em; cbn [negb]; [|intros [= <- <-]; by left].
  destruct body as [b|]; [|intros [= <- <-]; by left].
  replace (Z.to_nat (maxBody + 1)) with (S (Z.to_nat maxBody)) by (unfold maxBody; lia).
  destruct (_ <? _)%Z eqn:El; [intros [= <- <-]; by left|]. apply Z.ltb_ge in El.
  assert (Hw : stake (S (Z.to_nat maxBody)) b = b) by (apply stake_whole; unfold maxBody in *; lia).
  rewrite Hw in El |- *. intros [= <- <-]. right. split; [done|]. exists contentType, b. split_and!; [done|by apply in_list_true|done|done].
Qed.

(** The host an ask is about, as the policy does not have it: that of the URL itself, and
    then nothing was requested, or that of the last redirect. *)
Definition asks_about (raw : string) (pol : option Policy) (urls : list string) (host : string) : Prop :=
  allowedHost host pol = false /\
  ((urls = [] /\ hostFromURL raw = Some host) \/
   exists next, last_reply 0 urls = Some (Redirect next) /\ hostFromURL next = Some host).

(** C32: No request leaves but for loopback hosts and the web hosts of the policy, however
    the servers redirect: the URLs requested are the chain of the servers' redirects from
    the given one, each of them checked. No text comes back but under an allow, and it is
    the whole body that the last server answered with, of one of four textual types and at
    most a mebibyte, as it came or, for HTML, without its tags. An ask returns nothing and
    names the host that the policy does not have. *)
Theorem fetch_confined budget raw pol text v urls :
  Fetch budget raw pol = ((text, v), urls) ->
  Forall (fun u => allowed u pol = true) urls /\ redirected 0 urls /\ (urls <> [] -> urls !! 0%nat = Some raw) /\
  (v_Decision v = Allow /\ fetched urls text \/
   v_Decision v = Deny /\ text = "" \/
   v_Decision v = Ask /\ text = "" /\ exists what host, asks_about raw pol urls host /\
     v_Reason v = unapprovedHostReason what host).
Proof.
  unfold Fetch. destruct (hostFromURL raw) as [host|] eqn:Eh; [|intros [= <- <- <-]; split_and!; [done..|right; by left]].
  destruct (allowedHost host pol) eqn:Ea; cbn [negb].
  2: { intros [= <- <- <-]. split_and!; [done..|]. right. right. split_and!; [done|done|]. eexists _, host. split; [|done].
       split; [done|]. by left. }
  destruct (do_request pol 0 budget raw) as [d us] eqn:E. intros H.
  assert (urls = us) as -> by by injection H. destruct (do_request_traced _ _ _ _ _ _ E) as (H0 & Hred & Hd).
  split; [eapply do_request_allowed; [|exact E]; unfold allowed; by rewrite Eh|]. split; [done|]. split; [done|].
  destruct d as [ct body|h| |].
  - assert (Hr : read_response ct body = (text, v)) by by injection H. apply (read_response_fetched _ _ us) in Hr as [?|[? ?]]; tauto.
  - injection H as <- <-. destruct Hd as (next & Hl & Hn & Hna). right. right. split_and!; [done|done|].
    eexists _, h. split; [|done]. split; [done|]. right. by exists next.
  - injection H as <- <-. right. by left.
  - injection H as <- <-. right. by left.
Qed.

End Fetch.

(** A tag-free rune. *)
Definition no_angle (r : string) : Prop := r <> "<" /\ r <> ">".

(** Whatever HTML came, no bracket of a tag is left of it. *)
Lemma normalizeHTML_no_tags s : Forall (rune_with no_angle) (runes (normalizeHTML s)).
Proof.
  unfold normalizeHTML. apply spelled_runes. apply spelled_app.
  2: { apply spelled_rune. split; [apply is_rune_ascii; vm_compute; lia|by vm_compute]. }
  assert (Hsp : rune_with no_angle " ") by (split; [apply is_rune_ascii; vm_compute; lia|by vm_compute]).
  apply fields_spelled; [|by apply spelled_rune].
  assert (Hloop : forall rs, (forall r, r ∈ rs -> is_rune r \/ rune_text r = RuneError) ->
            forall st, spelled no_angle st.1 -> spelled no_angle (foldl html_step st rs).1).
  { induction rs as [|r rs IH]; intros Hr [out inTag] Ho; [done|]. cbn [foldl].
    apply IH; [intros r' Hr'; apply Hr; by right|]. unfold html_step.
    destruct (r =s? "<") eqn:E1; [done|]. destruct (r =s? ">") eqn:E2; [by apply spelled_app, spelled_rune|].
    destruct inTag; [done|]. apply spelled_app; [done|]. apply spelled_rune. breflect.
    destruct (Hr r) as [Hi|He]; [by left| |].
    - destruct Hi as (H1 & H2 & H3). rewrite H2. split; [by split_and!|done].
    - rewrite He. split; [apply RuneError_rune|by vm_compute]. }
  apply Hloop; [|apply spelled_nil]. intros r Hr. apply runes_cases in Hr as [?|[? _]]; [by left|by right].
Qed.

(** ** A concrete network *)

Definition demo_fetch_url (raw : string) : option URL :=
  match CutPrefix raw "https://" with
  | Some rest =>
      let '(host, _, _) := Cut rest "/" in
      Some {| url_Scheme := "https"; url_User := None; url_Host := host; url_Fragment := "" |}
  | None => None
  end.

Definition demo_web (n : nat) (url : string) : reply :=
  if url =s? "https://docs.example.com/a" then Redirect "https://docs.example.com/b"
  else if url =s? "https://docs.example.com/b" then Response "text/html; charset=utf-8" (Some "<h1>Guard</h1><p>rail</p>")
  else if url =s? "https://docs.example.com/out" then Redirect "https://evil.example.net/"
  else NoResponse.

Definition demo_web_policy : Policy :=
  {| p_WebResearchOff := true;
     p_Slots := {| s_SafeRoots := []; s_SecretDirs := []; s_SecretGlobs := []; s_SecretAskGlobs := []; s_SecretAllow := [];
                   s_EgressAllowlist := []; s_WebHosts := ["docs.example.com"]; s_AuditLog := "" |};
     p_Recipes := None; p_Rules := []; p_Waived := ∅; p_UnknownToolPosture := "" |}.

Lemma fetch_confined_witness :
  let urls := ["https://docs.example.com/a"; "https://docs.example.com/b"] in
  let v := verdict Allow "" "" in let text := "Guard rail" +:+ String "010" "" in
  Fetch demo_fetch_url demo_web 5 "https://docs.example.com/a" (Some demo_web_policy) = ((text, v), urls) /\
  (Forall (fun u => allowed demo_fetch_url u (Some demo_web_policy) = true) urls /\ redirected demo_web 0 urls /\
   (urls <> [] -> urls !! 0%nat = Some "https://docs.example.com/a") /\
   (v_Decision v = Allow /\ fetched demo_web urls text \/
    v_Decision v = Deny /\ text = "" \/
    v_Decision v = Ask /\ text = "" /\
      exists what host, asks_about demo_fetch_url demo_web "https://docs.example.com/a" (Some demo_web_policy) urls host /\
        v_Reason v = unapprovedHostReason what host)).
Proof.
  split; [vm_compute; reflexivity|].
  apply (fetch_confined demo_fetch_url demo_web 5 "https://docs.example.com/a" (Some demo_web_policy)).
  vm_compute. reflexivity.
Defined.

(** A redirect to another host asks, and nothing leaves for it. *)
Example redirect_outside :
  Fetch demo_fetch_url demo_web 5 "https://docs.example.com/out" (Some demo_web_policy) =
    (asked "redirect destination requires operator approval" "evil.example.net", ["https://docs.example.com/out"]).
Proof. by vm_compute. Qed.

(** Two allowed hosts that redirect to each other are asked until the deadline. *)
Example redirects_until_deadline :
  (Fetch demo_fetch_url (fun _ url => Redirect url) 50 "https://docs.example.com/a" (Some demo_web_policy)).1 =
    denied "fetch-failed" /\
  length (Fetch demo_fetch_url (fun _ url => Redirect url) 50 "https://docs.example.com/a" (Some demo_web_policy)).2 = 51%nat.
Proof. by vm_compute. Qed.
