(* ===== verification/OperatorAuth.v ===== *)
(** * The operator's authenticators ([internal/operatorauth/store.go], [webauthn.go])

    Passkey mode takes an approval from a WebAuthn assertion over a challenge that binds
    the request.  The store keeps the public records on disk, where several processes
    reach them, and its ceremonies in memory.  The WebAuthn library, JSON of the
    credential file, digests and randomness are parameters; the disk may refuse and the
    process may die as in [Durable]. *)

From Stdlib Require Import ZArith Lia Bool.
From S2P Require Import Prelude GoStrings GoPath Policy Broker Session Json JsonText JsonCodec Durable.

Open Scope prog_scope.

Record Credential := {
  c_ID : string;
  c_PublicKey : string;
  c_Algorithm : Z;
  c_SignCount : Z;                              (* uint32 *)
  c_BackupEligible : bool;
  c_BackupState : bool;
  c_Transports : list string;
}.

(** ** Text of credentials *)

(** A byte of the base64url alphabet. *)
Definition base64_byte (c : ascii) : bool := is_letter c || is_digit c || Ascii.eqb c "-" || Ascii.eqb c "_".

(** The bytes of a rune of more than one are not in the alphabet either. *)
Definition isBase64URL (value : string) : bool :=
  (value <>s? "") && negb (Nat.eqb (String.length value mod 4) 1) && all_bytes base64_byte value.

(** [checked ids cs]: no ID is among [ids] or repeated. *)
Fixpoint check_credentials (ids : list string) (credentials : list Credential) : bool :=
  match credentials with
  | [] => true
  | c :: credentials =>
      isBase64URL (c_ID c) && isBase64URL (c_PublicKey c) && negb (in_list (c_ID c) ids) &&
      check_credentials (c_ID c :: ids) credentials
  end.

Definition validateCredentials (credentials : list Credential) : bool :=
  negb (bool_decide (credentials = [])) && check_credentials [] credentials.

(** ** Bindings *)

Record BindingParameter := { bp_Key : string; bp_Value : string }.

Record Binding := {
  bd_RequestID : string;
  bd_IssuedAt : string;
  bd_Action : string;
  bd_Parameters : list BindingParameter;
  bd_RepoRoot : string;
  bd_Host : string;
  bd_Scope : string;
  bd_ExpiresAt : string;
}.

Definition bindingParameters (parameters : gmap string string) : list BindingParameter :=
  map (fun key => {| bp_Key := key; bp_Value := default "" (parameters !! key) |})
    (sort_strings (map_to_list parameters).*1).

(** [json.Marshal] of the two structs. *)
Definition member (name value : string) : string := encode_text name +:+ ":" +:+ value.
Definition parameter_text (p : BindingParameter) : string :=
  "{" +:+ member "key" (encode_text (bp_Key p)) +:+ "," +:+ member "value" (encode_text (bp_Value p)) +:+ "}".
Definition binding_text (b : Binding) : string :=
  "{" +:+ member "request_id" (encode_text (bd_RequestID b)) +:+
  "," +:+ member "issued_at" (encode_text (bd_IssuedAt b)) +:+
  "," +:+ member "action" (encode_text (bd_Action b)) +:+
  "," +:+ member "parameters" ("[" +:+ Join (map parameter_text (bd_Parameters b)) "," +:+ "]") +:+
  "," +:+ member "repo_root" (encode_text (bd_RepoRoot b)) +:+
  "," +:+ member "host" (encode_text (bd_Host b)) +:+
  "," +:+ member "scope" (encode_text (bd_Scope b)) +:+
  "," +:+ member "expires_at" (encode_text (bd_ExpiresAt b)) +:+ "}".

(** What is hashed. *)
Definition digest_input (b : Binding) : string := "guardrail-approval-v1" +:+ String "000" "" +:+ binding_text b.

(** ** The text of a binding *)

Lemma append_left a x y : a +:+ x = a +:+ y -> x = y.
Proof. induction a as [|c a IH]; [done|]. intros [= H]. by apply IH. Qed.

(** Encoded strings are told apart up to what is not UTF-8, whatever follows. *)
Lemma encode_text_prefix s t x y : encode_text s +:+ x = encode_text t +:+ y -> coerce s = coerce t /\ x = y.
Proof.
  destruct (string_text_encode s) as (b1 & k1 & E1 & <- & H1), (string_text_encode t) as (b2 & k2 & E2 & <- & H2).
  rewrite E1, E2. cbn. intros [= H]. rewrite !append_assoc in H. cbn in H.
  specialize (H1 x). specialize (H2 y). rewrite H in H1. rewrite H1 in H2. by injection H2 as -> ->.
Qed.

Lemma member_prefix name s t x y :
  member name (encode_text s) +:+ x = member name (encode_text t) +:+ y -> coerce s = coerce t /\ x = y.
Proof. unfold member. rewrite !append_assoc. intros H%append_left%append_left. by apply encode_text_prefix. Qed.

(** Text that is UTF-8. *)
Definition utf8 (s : string) : Prop := coerce s = s.

Definition parameter_utf8 (p : BindingParameter) : Prop := utf8 (bp_Key p) /\ utf8 (bp_Value p).

Lemma parameter_prefix p q x y :
  parameter_utf8 p -> parameter_utf8 q -> parameter_text p +:+ x = parameter_text q +:+ y -> p = q /\ x = y.
Proof.
  intros [Hk1 Hv1] [Hk2 Hv2]. unfold parameter_text. rewrite !append_assoc. intros H%append_left.
  apply member_prefix in H as [Hk H]. apply append_left, member_prefix in H as [Hv H].
  apply append_left in H. destruct p, q; unfold utf8 in *; cbn in *. split; [congruence|done].
Qed.

Lemma parameters_prefix l1 l2 x y :
  Forall parameter_utf8 l1 -> Forall parameter_utf8 l2 ->
  Join (map parameter_text l1) "," +:+ "]" +:+ x = Join (map parameter_text l2) "," +:+ "]" +:+ y -> l1 = l2 /\ x = y.
Proof.
  intros H1 H2. apply (Join_prefix parameter_utf8 parameter_text "]" l1 l2 x y); [|done|by intros; cbn; set_solver|done|done].
  eapply Forall_impl; [exact H1|]. intros p Hp q x' y' Hq _ _. by apply parameter_prefix.
Qed.

Definition binding_utf8 (b : Binding) : Prop :=
  Forall utf8 [bd_RequestID b; bd_IssuedAt b; bd_Action b; bd_RepoRoot b; bd_Host b; bd_Scope b; bd_ExpiresAt b] /\
  Forall parameter_utf8 (bd_Parameters b).

Lemma binding_text_inj b1 b2 : binding_utf8 b1 -> binding_utf8 b2 -> binding_text b1 = binding_text b2 -> b1 = b2.
Proof.
  intros [H1 Hp1] [H2 Hp2] H. rewrite !Forall_cons in H1, H2. unfold utf8 in *.
  unfold binding_text in H. apply append_left in H.
  do 3 (apply member_prefix in H as [? H]; apply append_left in H).
  unfold member at 1 6 in H. rewrite !append_assoc in H. apply append_left, append_left, append_left in H.
  apply parameters_prefix in H as [Hp H]; [|done..]. apply append_left in H.
  do 3 (apply member_prefix in H as [? H]; apply append_left in H). apply member_prefix in H as [? _].
  destruct H1 as (E1 & E2 & E3 & E4 & E5 & E6 & E7 & _), H2 as (F1 & F2 & F3 & F4 & F5 & F6 & F7 & _).
  destruct b1, b2; cbn in *. congruence.
Qed.

(** ** The store *)

Inductive Options := CredentialCreation | CredentialAssertion.

(** The library's credential. *)
Record WebAuthnCredential := {
  wc_ID : string; wc_PublicKey : string; wc_SignCount : Z; wc_BackupEligible : bool; wc_BackupState : bool;
  wc_Transport : list string;
}.

Record ceremonyState := {
  cs_Options : Options;
  cs_Binding : option Binding;                  (* of an assertion *)
  cs_ExpiresAt : Time;
  cs_origin : string;                           (* of the verifier *)
  cs_challenge : string;                        (* of the session *)
  cs_user : list Credential;
  cs_initialEnrollment : bool;
  cs_generation : Z;
  cs_credentialDigest : string;
}.

(** The files, and the memory of one process.  [Some None] is a generation that does not
    decode. *)
Record Auth := {
  a_generation : option (option Z);
  a_credentials : option string;
  a_ceremonies : gmap string ceremonyState;
  a_grant : option Time;
}.

Definition with_generation (s : Auth) (g : Z) : Auth :=
  {| a_generation := Some (Some g); a_credentials := a_credentials s; a_ceremonies := a_ceremonies s; a_grant := a_grant s |}.
Definition with_credentials (s : Auth) (content : option string) : Auth :=
  {| a_generation := a_generation s; a_credentials := content; a_ceremonies := a_ceremonies s; a_grant := a_grant s |}.
Definition with_ceremonies (s : Auth) (m : gmap string ceremonyState) : Auth :=
  {| a_generation := a_generation s; a_credentials := a_credentials s; a_ceremonies := m; a_grant := a_grant s |}.
Definition with_grant (s : Auth) (g : option Time) : Auth :=
  {| a_generation := a_generation s; a_credentials := a_credentials s; a_ceremonies := a_ceremonies s; a_grant := g |}.

(** [url.Parse] of an origin. *)
Record Origin := {
  or_Scheme : string; or_Hostname : string; or_Port : string; or_Path : string; or_RawQuery : string;
  or_Fragment : string; or_User : bool;
}.

Section Store.

Context (Marshal : list Credential -> string) (Unmarshal : string -> option (list Credential)).
Context (sha256 : string -> string) (fingerprint_of : Credential -> string) (format_time : Time -> string).
Context (origin_Parse : string -> option Origin).
(** The library: reading and verifying the response of a registration and of a login over
    a challenge, and the record of one of its credentials, where the key decodes. *)
Context (CreateCredential : string -> string -> string -> option WebAuthnCredential).
Context (ValidateLogin : string -> list Credential -> string -> string -> option WebAuthnCredential).
Context (credentialRecord : WebAuthnCredential -> option Credential).

Definition BindingFor (request : Broker.Request) : Binding :=
  {| bd_RequestID := Broker.b_ID request; bd_IssuedAt := format_time (Broker.b_IssuedAt request);
     bd_Action := Broker.b_Action request; bd_Parameters := bindingParameters (Broker.b_Parameters request);
     bd_RepoRoot := Broker.b_RepoRoot request; bd_Host := Broker.b_Host request; bd_Scope := Broker.b_Scope request;
     bd_ExpiresAt := format_time (Broker.b_ExpiresAt request) |}.

Definition Digest (b : Binding) : string := sha256 (digest_input b).

(** *** Files *)

(** [ensurePrivateDir] and [ensureDir]: the directory is there, or made, and private. *)
Definition ensurePrivateDir : prog Auth unit := check ;; check.

Definition writeGeneration (g : Z) : prog Auth unit := writeSynced (fun s => with_generation s g).

Definition generation : prog Auth Z :=
  ensurePrivateDir ;;
  do raw <- look (fun s => Some (a_generation s));
  match raw with
  | None => writeGeneration 0 ;; pret 0%Z
  | Some g => of_option g
  end.

(** What a credential file has to say. *)
Definition decoded (content : string) : option (list Credential) :=
  match Unmarshal content with
  | Some cs => if validateCredentials cs then Some cs else None
  | None => None
  end.

Definition Credentials : prog Auth (list Credential) :=
  ensurePrivateDir ;; check ;;
  look (fun s => a_credentials s ≫= decoded).

(** [Credentials] when the set is absent is [os.ErrNotExist]. *)
Definition credentialDigest : prog Auth string :=
  ensurePrivateDir ;; check ;;
  do content <- look (fun s => match a_credentials s with
                               | None => Some None
                               | Some c => if decoded c then Some (Some c) else None
                               end);
  check ;;
  pret (sha256 (default "" content)).

Definition Replace (credentials : list Credential) : prog Auth unit :=
  if negb (validateCredentials credentials) then perr
  else check ;; ensurePrivateDir ;; check ;; writeSynced (fun s => with_credentials s (Some (Marshal credentials))).

(** The first credential with the same ID is replaced. *)
Fixpoint update_first (credentials : list Credential) (updated : Credential) : option (list Credential) :=
  match credentials with
  | [] => None
  | c :: credentials =>
      if c_ID c =s? c_ID updated then Some (updated :: credentials)
      else cons c <$> update_first credentials updated
  end.

Definition updateCredential (updated : Credential) : prog Auth unit :=
  check ;;                                     (* the enrollment lock *)
  do credentials <- Credentials;
  do credentials <- of_option (update_first credentials updated);
  Replace credentials.

(** [hasCredentials] *)
Definition hasCredentials : prog Auth bool :=
  check ;;
  do content <- look (fun s => Some (a_credentials s));
  match content with
  | None => pret false
  | Some _ => do _ <- Credentials; pret true
  end.

Definition commitInitialCredential (credential : Credential) : prog Auth unit :=
  check ;; ensurePrivateDir ;; check ;;
  do enrolled <- hasCredentials;
  if (enrolled : bool) then perr else Replace [credential].

(** The receiver is a copy: the memory of the caller's store stays. *)
Definition ClearForRecovery : prog Auth unit :=
  ensurePrivateDir ;; check ;;
  do g <- generation;
  writeGeneration ((g + 1) mod 2 ^ 64) ;;
  check ;;
  change (fun s => with_credentials s None) ;;
  check.

Definition AddCredential (credential : Credential) : prog Auth unit :=
  do credentials <- Credentials;
  Replace (credentials ++ [credential]).

(** The credentials that stay, unless it is the last one or none has the fingerprint. *)
Definition without_fingerprint (credentials : list Credential) (fingerprint : string) : option (list Credential) :=
  if (length credentials <? 2)%nat then None
  else
    let filtered := List.filter (fun c => fingerprint_of c <>s? fingerprint) credentials in
    if (length filtered <? length credentials)%nat then Some filtered else None.

Definition RemoveCredentialFingerprint (fingerprint : string) : prog Auth unit :=
  do credentials <- Credentials;
  do filtered <- of_option (without_fingerprint credentials fingerprint);
  Replace filtered.

(** *** Memory *)

Definition remember (id : string) (c : ceremonyState) : prog Auth unit :=
  fun fs s => (Done tt, fs, with_ceremonies s (<[id := c]> (a_ceremonies s))).

Definition take_ceremony (id : string) : prog Auth ceremonyState :=
  fun fs s =>
    match a_ceremonies s !! id with
    | Some c => (Done c, fs, with_ceremonies s (delete id (a_ceremonies s)))
    | None => (Errs, fs, s)
    end.

Definition issueRegistrationGrant (expiresAt : Time) : prog Auth unit :=
  fun fs s => (Done tt, fs, with_grant s (Some expiresAt)).

Definition takeRegistrationGrant (now : Time) : prog Auth unit :=
  fun fs s =>
    (match a_grant s with Some expiresAt => if Before now expiresAt then Done tt else Errs | None => Errs end,
     fs, with_grant s None).

(** *** Ceremonies *)

Definition newVerifier (origin : string) : bool :=
  match origin_Parse origin with
  | None => false
  | Some o =>
      (or_Scheme o =s? "http") && (or_Hostname o =s? "localhost") && (or_Port o <>s? "") && (or_Path o =s? "") &&
      (or_RawQuery o =s? "") && (or_Fragment o =s? "") && negb (or_User o) &&
      match digits_value 0 (or_Port o) with Some port => (0 <? port)%Z && (port <? 65536)%Z | None => false end
  end.

Definition ceremonyLifetime : Duration := (5 * Minute)%Z.

(** [id] and [challenge] are fresh. *)
Definition beginRegistration (id challenge origin : string) (initialEnrollment : bool) (now : Time) : prog Auth string :=
  do g <- generation;
  do digest <- credentialDigest;
  if negb (newVerifier origin) then perr
  else
    check ;;
    remember id {| cs_Options := CredentialCreation; cs_Binding := None; cs_ExpiresAt := (now + ceremonyLifetime)%Z;
                   cs_origin := origin; cs_challenge := challenge; cs_user := [];
                   cs_initialEnrollment := initialEnrollment; cs_generation := g; cs_credentialDigest := digest |} ;;
    pret id.

Definition BeginRegistration (id challenge origin : string) (now : Time) : prog Auth string :=
  do registered <- hasCredentials;
  if (registered : bool) then perr else beginRegistration id challenge origin true now.

Definition BeginAdditionalRegistration (id challenge origin : string) (now : Time) : prog Auth string :=
  takeRegistrationGrant now ;; beginRegistration id challenge origin false now.

Definition verifyCeremonyState (c : ceremonyState) : prog Auth unit :=
  do g <- generation;
  do digest <- credentialDigest;
  if negb (g =? cs_generation c)%Z || (digest <>s? cs_credentialDigest c) then perr else pret tt.

Definition FinishRegistration (id response : string) (now : Time) : prog Auth Credential :=
  do c <- take_ceremony id;
  match cs_Options c with
  | CredentialAssertion => perr
  | CredentialCreation =>
      if After now (cs_ExpiresAt c) then perr
      else
        verifyCeremonyState c ;;
        do credential <- of_option (CreateCredential (cs_origin c) (cs_challenge c) response);
        do record <- of_option (credentialRecord credential);
        if cs_initialEnrollment c then commitInitialCredential record ;; pret record else pret record
  end.

(** The challenge of an assertion. *)
Definition assertion_challenge (nonce : string) (request : Broker.Request) : string :=
  nonce +:+ Digest (BindingFor request).

Definition BeginAssertion (id nonce origin : string) (request : Broker.Request) (now : Time) : prog Auth string :=
  if negb (Before now (Broker.b_ExpiresAt request)) then perr
  else
    do enrolled <- attempt hasCredentials;
    if match enrolled with Some false => true | _ => false end then perr
    else
      do g <- generation;
      do digest <- credentialDigest;
      if negb (newVerifier origin) then perr
      else
        do user <- Credentials;
        check ;;
        remember id {| cs_Options := CredentialAssertion; cs_Binding := Some (BindingFor request);
                       cs_ExpiresAt := Broker.b_ExpiresAt request; cs_origin := origin;
                       cs_challenge := assertion_challenge nonce request; cs_user := user;
                       cs_initialEnrollment := false; cs_generation := g; cs_credentialDigest := digest |} ;;
        pret id.

Definition FinishAssertion (id response : string) (now : Time) : prog Auth Credential :=
  do c <- take_ceremony id;
  match cs_Options c with
  | CredentialCreation => perr
  | CredentialAssertion =>
      if After now (cs_ExpiresAt c) then perr
      else
        verifyCeremonyState c ;;
        do credential <- of_option (ValidateLogin (cs_origin c) (cs_user c) (cs_challenge c) response);
        do record <- of_option (credentialRecord credential);
        updateCredential record ;;
        if match cs_Binding c with Some b => bd_Action b =s? "authenticator-add" | None => false end
        then issueRegistrationGrant (cs_ExpiresAt c) ;; pret record
        else pret record
  end.

(** ** What the programs keep *)

(** The generation on disk, as [generation] reads it. *)
Definition disk_generation (s : Auth) : option Z :=
  match a_generation s with None => Some 0%Z | Some g => g end.
Definition disk_digest (s : Auth) : string := sha256 (default "" (a_credentials s)).

Definition same_memory (s0 s : Auth) : Prop := a_ceremonies s = a_ceremonies s0 /\ a_grant s = a_grant s0.
Definition same_view (s0 s : Auth) : Prop :=
  same_memory s0 s /\ a_credentials s = a_credentials s0 /\ disk_generation s = disk_generation s0.

Lemma idle_private : idle ensurePrivateDir.
Proof. apply idle_then; apply idle_check. Qed.
#[local] Hint Resolve idle_private : core.

Lemma generation_view s0 :
  triple (same_view s0) generation
    (fun e s => same_view s0 s /\ (forall g, e = Done g -> disk_generation s0 = Some g)).
Proof.
  unfold generation. apply idle_keeps; [done|by split|]. apply look_keeps; [by intros s Hs; split|].
  intros raw. destruct raw as [g|].
  - destruct g as [g|]; cbn.
    + apply triple_ret. intros s [Hs Hg]. split; [done|]. intros g' [= <-]. destruct Hs as (_ & _ & <-).
      injection Hg as Hg. unfold disk_generation. by rewrite Hg.
    + apply triple_err. intros s [Hs _]. by split.
  - apply (write_keeps _ (fun s => same_view s0 s /\ disk_generation s0 = Some 0%Z)).
    + intros s [Hs Hg]. injection Hg as Hg. assert (H0 : disk_generation s0 = Some 0%Z).
      { destruct Hs as (_ & _ & <-). unfold disk_generation. by rewrite Hg. }
      split; [|done]. destruct Hs as ([H1 H2] & H3 & _). split_and!; [by split|done|]. by rewrite H0.
    + intros s [[Hs _]|[Hs _]]; by split.
    + apply triple_ret. intros s [Hs H0]. split; [done|]. by intros g [= <-].
Qed.

Lemma digest_view s0 :
  triple (same_view s0) credentialDigest
    (fun e s => same_view s0 s /\ (forall d, e = Done d -> d = disk_digest s0)).
Proof.
  unfold credentialDigest. do 2 (apply idle_keeps; [done|by split|]). apply look_keeps; [by intros s Hs; split|]. intros content.
  apply idle_keeps; [done|by intros s [Hs _]; split|]. apply triple_ret. intros s [Hs Hc]. split; [done|].
  intros d [= <-]. unfold disk_digest. destruct Hs as (_ & Hcr & _). rewrite <- Hcr. f_equal.
  destruct (a_credentials s) as [c|]; [|by injection Hc as <-]. destruct (decoded c); [by injection Hc as <-|done].
Qed.

Lemma verify_view s0 c :
  triple (same_view s0) (verifyCeremonyState c)
    (fun e s => same_view s0 s /\
       (forall a, e = Done a -> disk_generation s0 = Some (cs_generation c) /\ disk_digest s0 = cs_credentialDigest c)).
Proof.
  eapply triple_bind; [apply generation_view| |by intros s [Hs _]; split..]. intros g.
  apply (triple_conseq _ (fun s => same_view s0 s /\ disk_generation s0 = Some g) _ _ (fun e s => same_view s0 s /\
       (forall a, e = Done a -> disk_generation s0 = Some (cs_generation c) /\ disk_digest s0 = cs_credentialDigest c)));
    [|by intros s [Hs Hg]; split; [|apply Hg]|done].
  intros l s e l' s' [Hs Hg]. revert l s e l' s' Hs.
  eapply triple_bind; [apply digest_view| |by intros s [Hs _]; split..]. intros d.
  destruct (negb (g =? cs_generation c)%Z || _) eqn:E.
  - apply triple_err. intros s [Hs _]. by split.
  - apply triple_ret. intros s [Hs Hd]. split; [done|]. intros _ _. apply orb_false_iff in E as [E1 E2].
    apply negb_false_iff in E1, E2. apply Z.eqb_eq in E1. apply String.eqb_eq in E2. rewrite Hg, E1.
    by rewrite <- (Hd d eq_refl), E2.
Qed.

(** The files only. *)
Definition keeps_memory {A} (m : prog Auth A) : Prop := forall s0, triple (same_memory s0) m (fun _ => same_memory s0).

Lemma keeps_bind {A B} (m : prog Auth A) (k : A -> prog Auth B) :
  keeps_memory m -> (forall a, keeps_memory (k a)) -> keeps_memory (pbind m k).
Proof. intros Hm Hk s0. eapply triple_bind; [apply Hm|intros a; apply Hk|done..]. Qed.

Lemma keeps_idle {A} (m : prog Auth A) : idle m -> keeps_memory m.
Proof. intros Hm s0. apply Hm. Qed.

Lemma keeps_look {A} (f : Auth -> option A) : keeps_memory (look f).
Proof. intros s0. apply triple_look; [by split|done]. Qed.

Lemma keeps_option {A} (o : option A) : keeps_memory (of_option o).
Proof. intros s0. destruct o; [by apply triple_ret|by apply triple_err]. Qed.

Lemma keeps_ret {A} (a : A) : keeps_memory (pret a).
Proof. intros s0. by apply triple_ret. Qed.

Lemma keeps_err {A} : keeps_memory (perr : prog Auth A).
Proof. intros s0. by apply triple_err. Qed.

Lemma keeps_write effect : (forall s, same_memory s (effect s)) -> keeps_memory (writeSynced effect).
Proof.
  intros H s0. eapply triple_conseq; [apply (write_alone (same_memory s0) (same_memory s0))|done|].
  - intros s [H1 H2]. destruct (H s) as [H3 H4]. split; congruence.
  - intros [] s; tauto.
Qed.

Lemma keeps_credentials : keeps_memory Credentials.
Proof. apply keeps_bind; [by apply keeps_idle|]. intros _. apply keeps_bind; [by apply keeps_idle|]. intros _. apply keeps_look. Qed.

Lemma keeps_replace cs : keeps_memory (Replace cs).
Proof.
  unfold Replace. destruct (negb _); [apply keeps_err|]. do 3 (apply keeps_bind; [by apply keeps_idle|]; intros _).
  by apply keeps_write.
Qed.

Lemma keeps_update c : keeps_memory (updateCredential c).
Proof.
  apply keeps_bind; [by apply keeps_idle|]. intros _. apply keeps_bind; [apply keeps_credentials|]. intros cs.
  apply keeps_bind; [apply keeps_option|]. intros cs'. apply keeps_replace.
Qed.

Lemma keeps_has : keeps_memory hasCredentials.
Proof.
  apply keeps_bind; [by apply keeps_idle|]. intros _. apply keeps_bind; [apply keeps_look|]. intros [content|]; [|apply keeps_ret].
  apply keeps_bind; [apply keeps_credentials|]. intros _. apply keeps_ret.
Qed.

Lemma keeps_commit c : keeps_memory (commitInitialCredential c).
Proof.
  do 3 (apply keeps_bind; [by apply keeps_idle|]; intros _). apply keeps_bind; [apply keeps_has|]. intros [|]; [apply keeps_err|apply keeps_replace].
Qed.

Lemma keeps_verify c : keeps_memory (verifyCeremonyState c).
Proof.
  intros s0 l s e l' s' Hs Hr. destruct (verify_view s c l s e l' s') as [[[H1 H2] _] _]; [by repeat split|done|].
  destruct Hs as [H3 H4]. split; congruence.
Qed.

(** ** The end of an assertion *)

(** What a ceremony that is finished now was checked against. *)
Definition assertion_accepted (c : ceremonyState) (response : string) (now : Time) (s : Auth) (record : Credential) : Prop :=
  cs_Options c = CredentialAssertion /\ After now (cs_ExpiresAt c) = false /\
  disk_generation s = Some (cs_generation c) /\ disk_digest s = cs_credentialDigest c /\
  exists wc, ValidateLogin (cs_origin c) (cs_user c) (cs_challenge c) response = Some wc /\ credentialRecord wc = Some record.

Lemma triple_from {A} (P : Auth -> Prop) (m : prog Auth A) Q :
  triple P m Q -> forall fs s e fs' s', m fs s = (e, fs', s') -> P s -> Q e s'.
Proof. intros H fs s e fs' s' E HP. by eapply H. Qed.

Definition of_Done {A} (e : ending A) : option A := match e with Done a => Some a | _ => None end.

Lemma FinishAssertion_accepts id response now fs s e fs' s' :
  FinishAssertion id response now fs s = (e, fs', s') ->
  a_ceremonies s' = delete id (a_ceremonies s) /\
  forall record, e = Done record -> exists c, a_ceremonies s !! id = Some c /\ assertion_accepted c response now s record.
Proof.
  unfold FinishAssertion. unfold pbind at 1, take_ceremony. destruct (a_ceremonies s !! id) as [c|] eqn:Ec.
  2: { intros [= <- <- <-]. split; [by rewrite delete_id|done]. }
  set (s1 := with_ceremonies s _). intros Hr.
  cut (a_ceremonies s' = a_ceremonies s1 /\ forall record, e = Done record -> assertion_accepted c response now s1 record).
  { intros [H1 H2]. split; [by rewrite H1|]. intros record He. exists c. split; [done|]. by apply H2. }
  revert Hr. generalize s1. clear s1 Ec s. intros s Hr. revert fs e fs' s' Hr.
  assert (Hq : forall s', same_memory s s' -> forall e : ending Credential, of_Done e = None ->
            a_ceremonies s' = a_ceremonies s /\ forall record, e = Done record -> assertion_accepted c response now s record).
  { intros s' [H _] e He. split; [done|]. by intros record ->. }
  intros fs e fs' s' Hr. revert Hr.
  destruct (cs_Options c) eqn:Eo; [intros [= <- <- <-]; by apply Hq|].
  destruct (After now (cs_ExpiresAt c)) eqn:Ea; [intros [= <- <- <-]; by apply Hq|].
  intros Hr. refine (triple_from (same_view s) _ (fun e s' => a_ceremonies s' = a_ceremonies s /\
    forall record, e = Done record -> assertion_accepted c response now s record) _ _ _ _ _ _ Hr _); [|by repeat split].
  eapply triple_bind; [apply verify_view| |by intros s1 [[Hs _] _]; apply Hq..]. intros u l s1 e1 l' s1' [Hv Hd].
  destruct (Hd u eq_refl) as [Hg Hdg]. destruct Hv as [Hm _].
  intros Hr1. refine (triple_from (same_memory s) _ (fun e s' => a_ceremonies s' = a_ceremonies s /\
    forall record, e = Done record -> assertion_accepted c response now s record) _ _ _ _ _ _ Hr1 Hm).
  apply of_option_keeps; [intros s2 H2; by apply Hq|]. intros wc Hwc.
  apply of_option_keeps; [intros s2 H2; by apply Hq|]. intros record Hrec.
  assert (Hok : assertion_accepted c response now s record) by (split_and!; [done..|by exists wc]).
  eapply triple_bind; [apply keeps_update| |by intros s2 H2; apply Hq..]. intros [].
  destruct (match cs_Binding c with Some b => _ | None => _ end).
  - intros l2 s2 e2 l2' s2' [H2 _] [= <- <- <-]. split; [done|]. by intros record' [= <-].
  - apply triple_ret. intros s2 [H2 _]. split; [done|]. by intros record' [= <-].
Qed.

Lemma FinishRegistration_takes id response now fs s e fs' s' :
  FinishRegistration id response now fs s = (e, fs', s') -> a_ceremonies s' = delete id (a_ceremonies s).
Proof.
  unfold FinishRegistration. unfold pbind at 1, take_ceremony. destruct (a_ceremonies s !! id) as [c|] eqn:Ec.
  2: { intros [= <- <- <-]. by rewrite delete_id. }
  set (s1 := with_ceremonies s _). intros Hr.
  refine (proj1 (triple_from (same_memory s1) _ (fun _ s' => same_memory s1 s') _ _ _ _ _ _ Hr _)); [|by split].
  revert s1 Hr. intros s1 _. destruct (cs_Options c); [|by apply keeps_err]. destruct (After _ _); [by apply keeps_err|].
  apply (keeps_bind (verifyCeremonyState c)); [apply keeps_verify|]. intros _.
  apply keeps_bind; [apply keeps_option|]. intros wc. apply keeps_bind; [apply keeps_option|]. intros record.
  destruct (cs_initialEnrollment c); [|apply keeps_ret]. apply keeps_bind; [apply keeps_commit|]. intros _. apply keeps_ret.
Qed.

(** A ceremony begun for a request, over these files. *)
Definition begun_for (nonce origin : string) (request : Broker.Request) (now : Time) (s : Auth) (c : ceremonyState) : Prop :=
  cs_Options c = CredentialAssertion /\ cs_ExpiresAt c = Broker.b_ExpiresAt request /\ cs_origin c = origin /\
  cs_challenge c = assertion_challenge nonce request /\ a_credentials s ≫= decoded = Some (cs_user c) /\
  disk_generation s = Some (cs_generation c) /\ disk_digest s = cs_credentialDigest c /\
  Before now (Broker.b_ExpiresAt request) = true /\ newVerifier origin = true.

(** What beginning a ceremony does to the memory. *)
Definition remembers (id : string) (s : Auth) (begun : ceremonyState -> Prop) (e : ending string) (s' : Auth) : Prop :=
  match of_Done e with
  | Some _ => exists c, a_ceremonies s' = <[id := c]> (a_ceremonies s) /\ begun c
  | None => a_ceremonies s' = a_ceremonies s
  end.

Lemma remembers_none id s begun e s' : same_memory s s' -> of_Done e = None -> remembers id s begun e s'.
Proof. intros [H _] He. unfold remembers. by rewrite He. Qed.

Lemma remember_remembers id c s0 (begun : ceremonyState -> Prop) :
  begun c -> triple (same_memory s0) (remember id c ;; pret id) (remembers id s0 begun).
Proof. intros Hc fs s e fs' s' [H _] [= <- <- <-]. unfold remembers. cbn. exists c. by rewrite H. Qed.

Lemma BeginAssertion_remembers id nonce origin request now fs s e fs' s' :
  BeginAssertion id nonce origin request now fs s = (e, fs', s') ->
  remembers id s (begun_for nonce origin request now s) e s'.
Proof.
  unfold BeginAssertion. destruct (Before now _) eqn:Eb; cbn [negb]; [|by intros [= <- <- <-]].
  intros Hr. refine (triple_from (same_view s) _ (remembers id s (begun_for nonce origin request now s)) _ _ _ _ _ _ Hr _); [|by repeat split].
  assert (Hn : forall s1 (e : ending string), same_view s s1 -> of_Done e = None ->
            remembers id s (begun_for nonce origin request now s) e s1) by (intros s1 e1 [Hm _]; by apply remembers_none).
  eapply (triple_bind _ _ _ (fun _ => same_view s)).
  { apply triple_attempt. apply (triple_conseq _ (same_view s) _ _ (fun _ => same_view s)); [|done|by intros []].
    unfold hasCredentials, Credentials. apply idle_keeps; [done|done|]. apply look_keeps; [done|]. intros [content|].
    - intros l s1 e1 l' s1' [H1 _]. revert l s1 e1 l' s1' H1. eapply (triple_bind _ _ _ (fun _ => same_view s));
        [|intros a; by apply triple_ret|done..].
      do 2 (apply idle_keeps; [done|done|]). apply triple_look; [done|done].
    - apply triple_ret. by intros s1 [H1 _]. }
  2,3: intros s1 H1; by apply Hn.
  intros enrolled. destruct (match enrolled with Some false => true | _ => false end); [apply triple_err; intros s1 H1; by apply Hn|].
  eapply triple_bind; [apply generation_view| |intros s1 [H1 _]; by apply Hn..]. intros g.
  intros l s1 e1 l1 s1' [H1 Hg]. revert l s1 e1 l1 s1' H1. specialize (Hg g eq_refl).
  eapply triple_bind; [apply digest_view| |intros s1 [H1 _]; by apply Hn..]. intros d.
  intros l s1 e1 l1 s1' [H1 Hd]. revert l s1 e1 l1 s1' H1. specialize (Hd d eq_refl).
  destruct (newVerifier origin) eqn:Ev; cbn [negb]; [|apply triple_err; intros s1 H1; by apply Hn].
  eapply (triple_bind _ _ _ (fun e s1 => same_view s s1 /\ forall u, e = Done u -> a_credentials s ≫= decoded = Some u)).
  { unfold Credentials. do 2 (apply idle_keeps; [done|by split|]). apply triple_look; [by split|].
    intros s1 u H1 Hu. split; [done|]. intros u' [= <-]. by destruct H1 as (_ & <- & _). }
  2,3: intros s1 [H1 _]; by apply Hn.
  intros user l s1 e1 l1 s1' [H1 Hu]. specialize (Hu user eq_refl). revert l s1 e1 l1 s1' H1.
  apply idle_keeps; [done|intros s1 H1; by split; apply Hn|].
  apply (triple_conseq _ (same_memory s) _ _ (remembers id s (begun_for nonce origin request now s))); [|by intros s1 [? _]|done].
  apply remember_remembers. split_and!; done.
Qed.

Lemma beginRegistration_remembers id challenge origin initial now s0 :
  triple (same_memory s0) (beginRegistration id challenge origin initial now)
    (remembers id s0 (fun c => cs_Options c = CredentialCreation)).
Proof.
  assert (Hn : forall s1 (e : ending string), same_memory s0 s1 -> of_Done e = None ->
            remembers id s0 (fun c => cs_Options c = CredentialCreation) e s1) by (intros; by apply remembers_none).
  unfold beginRegistration. intros l s e l' s' Hm. revert l s e l' s' Hm.
  assert (Hg : keeps_memory generation).
  { intros s1 l s e l' s' Hs Hr. destruct (generation_view s l s e l' s') as [[[H1 H2] _] _]; [by repeat split|done|].
    destruct Hs as [H3 H4]. split; congruence. }
  assert (Hd : keeps_memory credentialDigest).
  { intros s1 l s e l' s' Hs Hr. destruct (digest_view s l s e l' s') as [[[H1 H2] _] _]; [by repeat split|done|].
    destruct Hs as [H3 H4]. split; congruence. }
  eapply triple_bind; [apply Hg| |intros s1 H1; by apply Hn..]. intros g.
  eapply triple_bind; [apply Hd| |intros s1 H1; by apply Hn..]. intros d.
  destruct (negb _); [apply triple_err; intros s1 H1; by apply Hn|].
  apply idle_keeps; [done|intros s1 H1; by split; apply Hn|]. by apply remember_remembers.
Qed.

Lemma BeginRegistration_remembers id challenge origin now fs s e fs' s' :
  BeginRegistration id challenge origin now fs s = (e, fs', s') ->
  remembers id s (fun c => cs_Options c = CredentialCreation) e s'.
Proof.
  intros Hr. refine (triple_from (same_memory s) _ (remembers id s (fun c => cs_Options c = CredentialCreation)) _ _ _ _ _ _ Hr _); [|by split].
  eapply triple_bind; [apply keeps_has| |intros s1 H1; by apply remembers_none..]. intros [|].
  - apply triple_err. intros s1 H1. by apply remembers_none.
  - apply beginRegistration_remembers.
Qed.

Lemma BeginAdditionalRegistration_remembers id challenge origin now fs s e fs' s' :
  BeginAdditionalRegistration id challenge origin now fs s = (e, fs', s') ->
  remembers id s (fun c => cs_Options c = CredentialCreation) e s'.
Proof.
  unfold BeginAdditionalRegistration, pbind at 1, takeRegistrationGrant.
  destruct (match a_grant s with Some t => _ | None => _ end); [|by intros [= <- <- <-]..].
  intros Hr. exact (beginRegistration_remembers id challenge origin false now (with_grant s None) _ _ _ _ _ (conj eq_refl eq_refl) Hr).
Qed.

(** ** Histories of one process *)

Inductive event :=
| BeganAssertion (id nonce origin : string) (request : Broker.Request) (now : Time) (before : Auth)
| BeganRegistration (id : string)
| Asserted (id response : string) (now : Time) (before : Auth) (record : Credential)
| Registered (id : string).

Definition began_id (e : event) : option string :=
  match e with BeganAssertion id _ _ _ _ _ | BeganRegistration id => Some id | _ => None end.
Definition finished_id (e : event) : option string :=
  match e with Asserted id _ _ _ _ | Registered id => Some id | _ => None end.

Definition when_done {A} (e : ending A) (f : A -> event) : list event := match e with Done a => [f a] | _ => [] end.

(** The identifiers of ceremonies are fresh; between calls, other processes and other
    operations of this one change the files and the grant as they like. *)
Inductive history : list event -> Auth -> Prop :=
| history_new s : a_ceremonies s = ∅ -> history [] s
| history_files tr s s' : history tr s -> a_ceremonies s' = a_ceremonies s -> history tr s'
| history_begin_assertion tr s id nonce origin request now faults e faults' s' :
    history tr s -> Forall (fun ev => began_id ev <> Some id) tr ->
    BeginAssertion id nonce origin request now faults s = (e, faults', s') ->
    history (tr ++ when_done e (fun _ => BeganAssertion id nonce origin request now s)) s'
| history_begin_registration tr s id challenge origin initial now faults e faults' s' :
    history tr s -> Forall (fun ev => began_id ev <> Some id) tr ->
    (if (initial : bool) then BeginRegistration id challenge origin now
     else BeginAdditionalRegistration id challenge origin now) faults s = (e, faults', s') ->
    history (tr ++ when_done e (fun _ => BeganRegistration id)) s'
| history_finish_assertion tr s id response now faults e faults' s' :
    history tr s -> FinishAssertion id response now faults s = (e, faults', s') ->
    history (tr ++ when_done e (fun record => Asserted id response now s record)) s'
| history_finish_registration tr s id response now faults e faults' s' :
    history tr s -> FinishRegistration id response now faults s = (e, faults', s') ->
    history (tr ++ when_done e (fun _ => Registered id)) s'.

(** What the holder of an enrolled authenticator has signed: the challenge of a request,
    begun and finished while it was live, over the same files. *)
Definition earned (before : list event) (id response : string) (now : Time) (s : Auth) (record : Credential) : Prop :=
  exists nonce origin request began s0 user wc,
    BeganAssertion id nonce origin request began s0 ∈ before /\ newVerifier origin = true /\
    Before began (Broker.b_ExpiresAt request) = true /\ After now (Broker.b_ExpiresAt request) = false /\
    is_Some (disk_generation s0) /\ disk_generation s = disk_generation s0 /\ disk_digest s = disk_digest s0 /\
    a_credentials s0 ≫= decoded = Some user /\
    ValidateLogin origin user (assertion_challenge nonce request) response = Some wc /\ credentialRecord wc = Some record.

Definition waiting (tr : list event) (id : string) (c : ceremonyState) : Prop :=
  Forall (fun ev => finished_id ev <> Some id) tr /\ Exists (fun ev => began_id ev = Some id) tr /\
  (cs_Options c = CredentialAssertion -> exists nonce origin request began s0,
     BeganAssertion id nonce origin request began s0 ∈ tr /\ begun_for nonce origin request began s0 c).

Record consistent (tr : list event) (s : Auth) : Prop := {
  waiting_begun : forall id c, a_ceremonies s !! id = Some c -> waiting tr id c;
  finished_once : NoDup (omap finished_id tr);
  finished_begun : Forall (fun ev => forall id, finished_id ev = Some id -> Exists (fun b => began_id b = Some id) tr) tr;
  asserted_earned : forall tr1 tr2 id response now s0 record,
    tr = tr1 ++ Asserted id response now s0 record :: tr2 -> earned tr1 id response now s0 record;
}.

Lemma snoc_split {A} (l l1 l2 : list A) x y :
  l ++ [x] = l1 ++ y :: l2 -> (l2 = [] /\ x = y /\ l1 = l) \/ exists l2', l2 = l2' ++ [x] /\ l = l1 ++ y :: l2'.
Proof.
  intros H. destruct l2 as [|z l2' _] using rev_ind.
  - left. apply app_inj_tail in H as [-> ->]. done.
  - right. exists l2'. rewrite app_comm_cons, app_assoc in H. apply app_inj_tail in H as [-> ->]. done.
Qed.

Lemma finished_not tr id :
  Forall (fun ev => finished_id ev <> Some id) tr -> id ∉ omap finished_id tr.
Proof.
  intros H Hin. apply list_elem_of_omap in Hin as (ev & Hev & Hf). rewrite Forall_forall in H. by apply (H ev).
Qed.

Lemma waiting_later tr ev id c : waiting tr id c -> finished_id ev <> Some id -> waiting (tr ++ [ev]) id c.
Proof.
  intros (H1 & H2 & H3) Hf. split_and!.
  - apply Forall_app. by split; [|constructor].
  - apply Exists_app. by left.
  - intros Ho. destruct (H3 Ho) as (n & o & r & b & s0 & Hin & Hb). exists n, o, r, b, s0. split; [|done].
    apply elem_of_app. by left.
Qed.

Lemma begun_later tr ev id : Exists (fun b => began_id b = Some id) tr -> Exists (fun b => began_id b = Some id) (tr ++ [ev]).
Proof. intros H. apply Exists_app. by left. Qed.

Lemma waiting_present tr id c : waiting tr id c -> Exists (fun b => began_id b = Some id) tr.
Proof. by intros (_ & H & _). Qed.

(** Beginning a ceremony. *)
Lemma consistent_begin tr s ev id begun e s' :
  consistent tr s -> Forall (fun ev => began_id ev <> Some id) tr -> began_id ev = Some id ->
  remembers id s begun e s' -> (forall c, begun c -> waiting (tr ++ [ev]) id c) ->
  consistent (tr ++ when_done e (fun _ => ev)) s'.
Proof.
  intros [Hw Hn Hf He] Hfresh Hid Hr Hnew. unfold remembers in Hr. assert (finished_id ev = None) by by destruct ev.
  destruct e as [a| |]; cbn in Hr; [|rewrite app_nil_r; split; [by rewrite Hr|done..]..].
  destruct Hr as (c & Hm & Hc). cbn. split.
  - intros id' c'. rewrite Hm. destruct (decide (id' = id)) as [->|Hne].
    + rewrite lookup_insert_eq. intros [= <-]. by apply Hnew.
    + rewrite lookup_insert_ne by done. intros Hl. apply waiting_later; [by apply Hw|congruence].
  - rewrite omap_app. cbn. rewrite H, app_nil_r. done.
  - apply Forall_app. split; [|repeat constructor; congruence].
    eapply Forall_impl; [exact Hf|]. intros b Hb id' Hi. by apply begun_later, Hb.
  - intros tr1 tr2 id' response now s0 record [(_ & -> & _)|(tr2' & _ & ->)]%snoc_split; [done|by eapply He].
Qed.

(** Finishing one. *)
Lemma consistent_finish tr s evs id s' :
  consistent tr s -> a_ceremonies s' = delete id (a_ceremonies s) ->
  (evs = [] \/ exists ev, evs = [ev] /\ finished_id ev = Some id /\ is_Some (a_ceremonies s !! id) /\
     forall id' response now s0 record, ev = Asserted id' response now s0 record -> earned tr id' response now s0 record) ->
  consistent (tr ++ evs) s'.
Proof.
  intros [Hw Hn Hf He] Hm [->|(ev & -> & Hid & [c0 Hc0] & Hev)].
  { rewrite app_nil_r. split; [|done..]. intros id' c. rewrite Hm. intros [_ Hl]%lookup_delete_Some. by apply Hw. }
  destruct (Hw _ _ Hc0) as (H1 & H2 & _). split.
  - intros id' c. rewrite Hm. intros [Hne Hl]%lookup_delete_Some. apply waiting_later; [by apply Hw|congruence].
  - rewrite omap_app. cbn. rewrite Hid. apply NoDup_app. split; [done|]. split; [|apply NoDup_singleton].
    intros x Hx ->%list_elem_of_singleton. by apply (finished_not tr id).
  - apply Forall_app. split.
    + eapply Forall_impl; [exact Hf|]. intros b Hb id' Hi. by apply begun_later, Hb.
    + constructor; [|constructor]. intros id' Hi. assert (id' = id) as -> by congruence. by apply begun_later.
  - intros tr1 tr2 id' response now s0 record [(_ & -> & ->)|(tr2' & _ & ->)]%snoc_split; [by apply Hev|by eapply He].
Qed.

Lemma history_consistent tr s : history tr s -> consistent tr s.
Proof.
  induction 1 as [s Hs|tr s s' _ [Hw Hn Hf He] Hm|tr s id nonce origin request now faults e faults' s' _ IH Hfresh Hr
    |tr s id challenge origin initial now faults e faults' s' _ IH Hfresh Hr
    |tr s id response now faults e faults' s' _ IH Hr|tr s id response now faults e faults' s' _ IH Hr].
  - split; [|apply NoDup_nil_2|constructor|]; intros *; [rewrite Hs; by rewrite lookup_empty|by destruct tr1].
  - split; [by rewrite Hm|done..].
  - apply BeginAssertion_remembers in Hr. eapply consistent_begin; [done..|]. intros c Hc. split_and!.
    + apply Forall_app. split; [|by repeat constructor]. apply Forall_forall. intros ev Hev Hfin.
      destruct IH as [_ _ Hf _]. rewrite Forall_forall in Hf. specialize (Hf ev Hev id Hfin).
      apply Exists_exists in Hf as (b & Hb & Hbid). rewrite Forall_forall in Hfresh. by apply (Hfresh b).
    + apply Exists_app. right. by constructor.
    + intros _. exists nonce, origin, request, now, s. split; [|done]. apply elem_of_app. right. by left.
  - assert (remembers id s (fun c => cs_Options c = CredentialCreation) e s') as Hrem.
    { destruct initial; [by eapply BeginRegistration_remembers|by eapply BeginAdditionalRegistration_remembers]. }
    eapply consistent_begin; [done..|]. intros c Hc. split_and!.
    + apply Forall_app. split; [|by repeat constructor]. apply Forall_forall. intros ev Hev Hfin.
      destruct IH as [_ _ Hf _]. rewrite Forall_forall in Hf. specialize (Hf ev Hev id Hfin).
      apply Exists_exists in Hf as (b & Hb & Hbid). rewrite Forall_forall in Hfresh. by apply (Hfresh b).
    + apply Exists_app. right. by constructor.
    + by rewrite Hc.
  - apply FinishAssertion_accepts in Hr as [Hm Hok]. eapply consistent_finish; [done..|]. destruct e as [record| |]; [|by left..].
    right. destruct (Hok record eq_refl) as (c & Hc & Ha). eexists. split; [done|]. split; [done|]. split; [by exists c|].
    intros id' response' now' s0 record' [= <- <- <- <- <-]. destruct Ha as (Ho & Hexp & Hg & Hd & wc & Hv & Hrec).
    destruct IH as [Hw _ _ _]. destruct (Hw _ _ Hc) as (_ & _ & Hb).
    destruct (Hb Ho) as (nonce & origin & request & t0 & s1 & Hin & (_ & He1 & Ho1 & Hch & Hu & Hg1 & Hd1 & Hbe & Hnv)).
    exists nonce, origin, request, t0, s1, (cs_user c), wc. rewrite <- He1, Hg1, Hg, Hd, Hd1, <- Hch, <- Ho1.
    rewrite <- He1 in Hbe. rewrite <- Ho1 in Hnv, Hin. by split_and!.
  - assert (Hc : forall a, e = Done a -> is_Some (a_ceremonies s !! id)).
    { intros a ->. revert Hr. unfold FinishRegistration, pbind at 1, take_ceremony. by destruct (a_ceremonies s !! id). }
    apply FinishRegistration_takes in Hr as Hm. eapply consistent_finish; [done..|]. destruct e as [a| |]; [|by left..].
    right. eexists. split; [done|]. split; [done|]. split; [by eapply Hc|done].
Qed.

(** C35: every assertion a process accepts answers a challenge that binds a request, begun
    by the process before, while the request was live and against the enrolled
    authenticators, over the credential file and the generation as they are when it
    ends; and no ceremony is finished twice, whatever else happens to the files. *)
Theorem assertions_earned tr1 id response now s0 record tr2 s :
  history (tr1 ++ Asserted id response now s0 record :: tr2) s ->
  earned tr1 id response now s0 record /\ id ∉ omap finished_id (tr1 ++ tr2).
Proof.
  intros H. apply history_consistent in H as [_ Hn _ He]. split; [by eapply He|].
  rewrite omap_app in Hn |- *. cbn in Hn. apply NoDup_app in Hn as (_ & Hd & Hn).
  apply NoDup_cons in Hn as [Hni _]. intros [Hin|Hin]%elem_of_app; [|done]. apply (Hd id Hin). by left.
Qed.

(** ** A challenge binds one request *)

Lemma bindingParameters_elem m k v : {| bp_Key := k; bp_Value := v |} ∈ bindingParameters m <-> m !! k = Some v.
Proof.
  unfold bindingParameters. rewrite list_elem_of_fmap. split.
  - intros (key & [= -> ->] & Hin). apply elem_of_sort, list_elem_of_fmap in Hin as ([k' v'] & -> & Hin).
    apply elem_of_map_to_list in Hin. cbn. by rewrite Hin.
  - intros H. exists k. rewrite H. split; [done|]. apply elem_of_sort, list_elem_of_fmap. exists (k, v).
    split; [done|]. by apply elem_of_map_to_list.
Qed.

Lemma bindingParameters_inj m1 m2 : bindingParameters m1 = bindingParameters m2 -> m1 = m2.
Proof.
  intros H. apply map_eq. intros k. apply option_eq. intros v.
  by rewrite <- !bindingParameters_elem, H.
Qed.

(** Everything of a request that an approval authorizes. *)
Definition authorized (r : Broker.Request) :=
  (Broker.b_ID r, Broker.b_IssuedAt r, Broker.b_Action r, Broker.b_Parameters r, Broker.b_RepoRoot r, Broker.b_Host r,
   Broker.b_Scope r, Broker.b_ExpiresAt r).

Definition request_utf8 (r : Broker.Request) : Prop :=
  Forall utf8 [Broker.b_ID r; Broker.b_Action r; Broker.b_RepoRoot r; Broker.b_Host r; Broker.b_Scope r] /\
  forall k v, Broker.b_Parameters r !! k = Some v -> utf8 k /\ utf8 v.

Lemma BindingFor_utf8 r : (forall t, utf8 (format_time t)) -> request_utf8 r -> binding_utf8 (BindingFor r).
Proof.
  intros Ht [H Hp]. rewrite !Forall_cons in H. destruct H as (H1 & H2 & H3 & H4 & H5 & _). split.
  - cbn. repeat (apply Forall_cons; split; [by (assumption || apply Ht)|]). done.
  - apply Forall_forall. intros [k v] Hin. apply bindingParameters_elem in Hin. by apply Hp.
Qed.

(** C36: what is hashed for the challenge of an assertion determines everything the approval
    authorizes: two requests of UTF-8 text with the same input have the same identity,
    action, parameters, repository, host, scope and times. *)
Theorem binding_exact r1 r2 :
  (forall t u, format_time t = format_time u -> t = u) -> (forall t, utf8 (format_time t)) ->
  request_utf8 r1 -> request_utf8 r2 ->
  digest_input (BindingFor r1) = digest_input (BindingFor r2) -> authorized r1 = authorized r2.
Proof.
  intros Hinj Ht H1 H2 H. unfold digest_input in H. apply append_left, append_left in H.
  apply binding_text_inj in H; [|by apply BindingFor_utf8..].
  assert (E2 := f_equal bd_IssuedAt H). assert (E4 := f_equal bd_Parameters H). assert (E8 := f_equal bd_ExpiresAt H).
  apply Hinj in E2, E8. apply bindingParameters_inj in E4. cbn in E4.
  assert (E1 := f_equal bd_RequestID H). assert (E3 := f_equal bd_Action H). assert (E5 := f_equal bd_RepoRoot H).
  assert (E6 := f_equal bd_Host H). assert (E7 := f_equal bd_Scope H). cbn in *. unfold authorized. congruence.
Qed.

(** ** The credential file *)

Definition enrolled (s : Auth) : Prop := is_Some (a_credentials s ≫= decoded).

(** Managing authenticators never leaves a file that holds none: only the recovery of the
    operator does. *)
Lemma Replace_enrolled cs :
  (forall l, Unmarshal (Marshal l) = Some l) -> triple enrolled (Replace cs) (fun _ => enrolled).
Proof.
  intros Hrt. unfold Replace. destruct (validateCredentials cs) eqn:Ev; cbn [negb]; [|by apply triple_err].
  do 3 (apply idle_keeps; [done|done|]). eapply triple_conseq; [apply (write_alone enrolled enrolled)|done|intros []; tauto].
  intros s _. unfold enrolled, decoded. cbn. rewrite Hrt, Ev. by eexists.
Qed.

Lemma management_keeps_enrolled :
  (forall l, Unmarshal (Marshal l) = Some l) ->
  (forall c, triple enrolled (AddCredential c) (fun _ => enrolled)) /\
  (forall fp, triple enrolled (RemoveCredentialFingerprint fp) (fun _ => enrolled)) /\
  (forall c, triple enrolled (updateCredential c) (fun _ => enrolled)).
Proof.
  intros Hrt.
  assert (Hc : triple enrolled Credentials (fun _ => enrolled)).
  { do 2 (apply idle_keeps; [done|done|]). by apply triple_look. }
  assert (Ho : forall {A} (o : option A), triple enrolled (of_option o) (fun _ => enrolled)).
  { intros A [a|]; [by apply triple_ret|by apply triple_err]. }
  split_and!.
  - intros c. eapply triple_bind; [apply Hc|intros a; by apply Replace_enrolled|done..].
  - intros fp. eapply triple_bind; [apply Hc| |done..]. intros a.
    eapply triple_bind; [apply Ho|intros b; by apply Replace_enrolled|done..].
  - intros c. apply idle_keeps; [done|done|]. eapply triple_bind; [apply Hc| |done..]. intros a.
    eapply triple_bind; [apply Ho|intros b; by apply Replace_enrolled|done..].
Qed.

End Store.

(** ** A concrete store

    One authenticator, whose responses repeat the challenge. *)

Definition demo_credential (id : string) (count : Z) : Credential :=
  {| c_ID := id; c_PublicKey := "cGs"; c_Algorithm := -7; c_SignCount := count; c_BackupEligible := false;
     c_BackupState := false; c_Transports := [] |}.
Definition demo_marshal (l : list Credential) : string := Join (map c_ID l) ",".
Definition demo_unmarshal (s : string) : option (list Credential) := Some (map (fun id => demo_credential id 0) (Split s ",")).
Definition demo_origin (origin : string) : option Origin :=
  if origin =s? "http://localhost:4711"
  then Some {| or_Scheme := "http"; or_Hostname := "localhost"; or_Port := "4711"; or_Path := ""; or_RawQuery := "";
               or_Fragment := ""; or_User := false |} else None.
Definition demo_login (origin : string) (user : list Credential) (challenge response : string) : option WebAuthnCredential :=
  if (response =s? challenge) && negb (bool_decide (user = []))
  then Some {| wc_ID := "a2V5"; wc_PublicKey := "cGs"; wc_SignCount := 1; wc_BackupEligible := false; wc_BackupState := false;
               wc_Transport := [] |} else None.
Definition demo_record (w : WebAuthnCredential) : option Credential := Some (demo_credential (wc_ID w) (wc_SignCount w)).
(** A clock that prints as many strokes as it has ticks, of an even number when they are
    positive. *)
Definition strokes (n : nat) : string := Join (replicate n "x") "".
Definition ticks (t : Time) : nat := Z.to_nat (if (t <? 0)%Z then (-2 * t - 1) else 2 * t).
Definition demo_time (t : Time) : string := strokes (ticks t).

Lemma strokes_length n : String.length (strokes n) = n.
Proof.
  induction n as [|n IH]; [done|]. unfold strokes in *. cbn [replicate].
  by rewrite Join_nil_cons, length_append, IH.
Qed.

Lemma demo_time_inj t u : demo_time t = demo_time u -> t = u.
Proof.
  intros H. apply (f_equal String.length) in H. unfold demo_time in H. rewrite !strokes_length in H. unfold ticks in H.
  destruct (Z.ltb_spec t 0), (Z.ltb_spec u 0); lia.
Qed.

Lemma strokes_utf8 n : utf8 (strokes n).
Proof.
  unfold utf8, coerce, strokes. rewrite runes_Join; [|apply Forall_replicate, is_rune_ascii; vm_compute; lia].
  f_equal. induction n as [|n IH]; [done|]. cbn. by rewrite IH.
Qed.

Definition demo_auth_request : Broker.Request :=
  {| Broker.b_ID := "r1"; Broker.b_Plane := "operator"; Broker.b_SessionID := ""; Broker.b_RepoRoot := "/repo"; Broker.b_Host := "";
     Broker.b_Scope := Broker.RepoScope; Broker.b_Reason := ""; Broker.b_Action := "web-host-grant";
     Broker.b_Parameters := {["hosts" := "a.example.com"]}; Broker.b_IssuedAt := 0%Z; Broker.b_ExpiresAt := 9%Z;
     Broker.b_Status := "pending"; Broker.b_Transport := ""; Broker.b_CredentialFingerprint := ""; Broker.b_ApprovalURL := "" |}.

(** The same request for another repository. *)
Definition demo_other_repo (root : string) : Broker.Request :=
  {| Broker.b_ID := "r1"; Broker.b_Plane := "operator"; Broker.b_SessionID := ""; Broker.b_RepoRoot := root; Broker.b_Host := "";
     Broker.b_Scope := Broker.RepoScope; Broker.b_Reason := ""; Broker.b_Action := "web-host-grant";
     Broker.b_Parameters := {["hosts" := "a.example.com"]}; Broker.b_IssuedAt := 0%Z; Broker.b_ExpiresAt := 9%Z;
     Broker.b_Status := "completed"; Broker.b_Transport := ""; Broker.b_CredentialFingerprint := ""; Broker.b_ApprovalURL := "" |}.

Lemma demo_request_utf8 : request_utf8 demo_auth_request /\ request_utf8 (demo_other_repo "/repo").
Proof.
  split; (split; [repeat (apply List.Forall_nil || apply List.Forall_cons); by vm_compute|]); intros k v Hk; cbn in Hk;
    apply lookup_singleton_Some in Hk as [<- <-]; by vm_compute.
Qed.

Lemma binding_exact_witness :
  authorized demo_auth_request = authorized (demo_other_repo "/repo") /\
  digest_input (BindingFor demo_time demo_auth_request) <> digest_input (BindingFor demo_time (demo_other_repo "/other")).
Proof.
  split; [|intros H; apply (f_equal (fun s => s =s? digest_input (BindingFor demo_time demo_auth_request))) in H; vm_compute in H; discriminate].
  apply (binding_exact demo_time).
  - exact demo_time_inj.
  - intros t. apply strokes_utf8.
  - apply demo_request_utf8.
  - apply demo_request_utf8.
  - vm_compute. reflexivity.
Defined.

(** Text that is not UTF-8 is not told apart. *)
Example invalid_roots_collide :
  digest_input (BindingFor demo_time (demo_other_repo (String "/" (String "255" "")))) =
  digest_input (BindingFor demo_time (demo_other_repo (String "/" (String "254" "")))).
Proof. by vm_compute. Qed.

Definition demo_store : Auth :=
  {| a_generation := None; a_credentials := Some "a2V5"; a_ceremonies := ∅; a_grant := None |}.

#[local] Notation demo_begin :=
  (BeginAssertion demo_unmarshal (fun s => s) demo_time demo_origin "c1" "n" "http://localhost:4711" demo_auth_request 1%Z).
#[local] Notation demo_finish response :=
  (FinishAssertion demo_marshal demo_unmarshal (fun s => s) demo_login demo_record "c1" response 2%Z).

Definition demo_begun : Auth := (demo_begin [] demo_store).2.
Definition demo_challenge : string := assertion_challenge (fun s => s) demo_time "n" demo_auth_request.
Definition demo_events : list event :=
  [BeganAssertion "c1" "n" "http://localhost:4711" demo_auth_request 1%Z demo_store].

Lemma assertions_earned_witness :
  earned demo_unmarshal (fun s => s) demo_time demo_origin demo_login demo_record demo_events "c1" demo_challenge 2%Z demo_begun
    (demo_credential "a2V5" 1) /\ "c1" ∉ omap finished_id (demo_events ++ []).
Proof.
  apply (assertions_earned demo_marshal demo_unmarshal (fun s => s) demo_time demo_origin (fun _ _ _ => None) demo_login demo_record
    demo_events "c1" demo_challenge 2%Z demo_begun (demo_credential "a2V5" 1) [] (demo_finish demo_challenge [] demo_begun).2).
  refine (history_finish_assertion _ _ _ _ _ _ _ _ demo_events demo_begun "c1" demo_challenge 2%Z [] (Done (demo_credential "a2V5" 1)) [] _ _ _).
  - refine (history_begin_assertion _ _ _ _ _ _ _ _ [] demo_store "c1" "n" "http://localhost:4711" demo_auth_request 1%Z [] (Done "c1") [] _ _ _ _).
    + by apply history_new.
    + constructor.
    + vm_compute. reflexivity.
  - vm_compute. reflexivity.
Defined.

(** An authenticator that was removed comes back: the removal takes no lock, so the update
    of a sign count that read the file before writes it back whole. *)
Example removed_credential_returns :
  let a := demo_credential "a2V5" 0 in let b := demo_credential "YmVl" 0 in
  without_fingerprint c_ID [a; b] "YmVl" = Some [a] /\
  update_first [a; b] (demo_credential "a2V5" 1) = Some [demo_credential "a2V5" 1; b].
Proof. by vm_compute. Qed.

(** Nor does a recovery forget the ceremonies of the store it is called on: the method
    clears those of its copy. *)
Example recovery_keeps_ceremonies :
  a_ceremonies (ClearForRecovery [] demo_begun).2 = a_ceremonies demo_begun /\
  a_ceremonies demo_begun <> ∅.
Proof. split; [by vm_compute|]. intros H. apply (f_equal (fun m => m !! "c1")) in H. by vm_compute in H. Qed.
