(* ===== verification/Daemon.v ===== *)
(** * The resident daemon ([internal/daemon/server.go], [client.go], [cmd/guardrail/daemon.go])

    A hook asks a resident process first, when one answers: a line of JSON per request
    and per response.  Here are the server's loop over the lines of a connection, the
    client's reading of the answer, the evaluator the command starts it with, and what
    becomes of a hook's verdict on that way.  A line is the message it decodes to; what
    JSON makes of the texts of a call and of a verdict is written out ([call_through],
    [verdict_through]), with the compaction of raw members as a parameter.  The daemon's
    environment and files are arguments of their own: a theorem that gives it the hook's
    says so. *)

From Stdlib Require Import ZArith Lia Bool.
From S2P Require Import Prelude GoStrings GoPath Policy Merge Engine Session Ticket ActionGrant Hook JsonText.

Record Request := { rq_Action : string; rq_ToolCall : option ToolCall }.
Record Response := { rs_Status : string; rs_Verdict : option Verdict; rs_Error : string; rs_Version : string }.

Definition error_response (e : string) : Response :=
  {| rs_Status := "error"; rs_Verdict := None; rs_Error := e; rs_Version := "" |}.

(** ** The server *)

Section Server.

(** [cfg.Evaluator]: a verdict or an error. *)
Context (evaluator : ToolCall -> string + Verdict).

(** One request: the response, and whether the connection goes on and the server closes. *)
Definition serve_request (req : Request) : Response * bool * bool :=
  if rq_Action req =s? "shutdown"
  then ({| rs_Status := "shutting_down"; rs_Verdict := None; rs_Error := ""; rs_Version := "" |}, false, true)
  else if rq_Action req =s? "ping"
  then ({| rs_Status := "ok"; rs_Verdict := None; rs_Error := ""; rs_Version := "1.0.0" |}, true, false)
  else if rq_Action req =s? "evaluate"
  then match rq_ToolCall req with
       | None => (error_response "missing tool_call", false, false)
       | Some tc =>
           match evaluator tc with
           | inl e => (error_response e, false, false)
           | inr v => ({| rs_Status := "ok"; rs_Verdict := Some v; rs_Error := ""; rs_Version := "" |}, true, false)
           end
       end
  else (error_response "unknown action", false, false).

(** The lines of a connection ([None] is malformed) to the responses, and whether the
    server was closed. *)
Fixpoint serve_lines (lines : list (option Request)) : list Response * bool :=
  match lines with
  | [] => ([], false)
  | None :: _ => ([error_response "malformed daemon request"], false)
  | Some req :: lines =>
      let '(resp, continues, closes) := serve_request req in
      if continues : bool then let '(resps, closed) := serve_lines lines in (resp :: resps, closed) else ([resp], closes)
  end.

Definition handleConnection (verified : bool) (lines : list (option Request)) : list Response * bool :=
  if verified then serve_lines lines else ([error_response "client verification failed"], false).

End Server.

(** [binaryReplaced]: the hash at the start, if one was taken, and of the file now. *)
Definition binaryReplaced (initialHash now : option string) : bool :=
  match initialHash, now with Some a, Some b => b <>s? a | _, _ => false end.

(** ** The client *)

(** [client.Evaluate]: the line that came back ([None]: none came, [Some None]: it does not
    decode), to the verdict; every error leaves the hook to itself. *)
Definition client_Evaluate (line : option (option Response)) : option Verdict :=
  match line with
  | Some (Some resp) => if rs_Status resp =s? "ok" then rs_Verdict resp else None
  | _ => None
  end.

Definition client_Shutdown (line : option (option Response)) : bool :=
  match line with Some (Some resp) => rs_Status resp =s? "shutting_down" | _ => false end.

Definition client_Ping (line : option (option Response)) : option string :=
  match line with
  | Some (Some resp) => if rs_Status resp =s? "ok" then Some (rs_Version resp) else None
  | _ => None
  end.

(** ** What crosses the connection *)

(** The texts of a call as JSON carries them: as UTF-8. *)
Definition report_through (r : DegradedAllowReport) : DegradedAllowReport :=
  {| dar_Tool := coerce (dar_Tool r); dar_CallID := coerce (dar_CallID r); dar_TS := coerce (dar_TS r) |}.

Definition texts_through (tc : ToolCall) : ToolCall :=
  {| tc_Plane := coerce (tc_Plane tc); tc_Event := coerce (tc_Event tc); tc_Tool := coerce (tc_Tool tc);
     tc_NativeTool := coerce (tc_NativeTool tc); tc_ContractTool := coerce (tc_ContractTool tc);
     tc_Capability := tc_Capability tc; tc_NativeWebResearch := tc_NativeWebResearch tc; tc_URL := coerce (tc_URL tc);
     tc_InputShape := coerce (tc_InputShape tc); tc_Command := coerce (tc_Command tc); tc_Shell := coerce (tc_Shell tc);
     tc_Paths := map coerce (tc_Paths tc); tc_Arguments := tc_Arguments tc; tc_SessionID := coerce (tc_SessionID tc);
     tc_CallID := coerce (tc_CallID tc); tc_HostApproved := tc_HostApproved tc; tc_CWD := coerce (tc_CWD tc);
     tc_RepoRoot := coerce (tc_RepoRoot tc); tc_Raw := tc_Raw tc; tc_PermittedRoots := map coerce (tc_PermittedRoots tc);
     tc_DegradedAllows := map report_through (tc_DegradedAllows tc) |}.

(** The same call with other raw members. *)
Definition with_raw (tc : ToolCall) (arguments raw : string) : ToolCall :=
  {| tc_Plane := tc_Plane tc; tc_Event := tc_Event tc; tc_Tool := tc_Tool tc; tc_NativeTool := tc_NativeTool tc;
     tc_ContractTool := tc_ContractTool tc; tc_Capability := tc_Capability tc;
     tc_NativeWebResearch := tc_NativeWebResearch tc; tc_URL := tc_URL tc; tc_InputShape := tc_InputShape tc;
     tc_Command := tc_Command tc; tc_Shell := tc_Shell tc; tc_Paths := tc_Paths tc; tc_Arguments := arguments;
     tc_SessionID := tc_SessionID tc; tc_CallID := tc_CallID tc; tc_HostApproved := tc_HostApproved tc;
     tc_CWD := tc_CWD tc; tc_RepoRoot := tc_RepoRoot tc; tc_Raw := raw; tc_PermittedRoots := tc_PermittedRoots tc;
     tc_DegradedAllows := tc_DegradedAllows tc |}.

Definition verdict_through (v : Verdict) : Verdict :=
  {| v_Decision := v_Decision v; v_RuleID := coerce (v_RuleID v); v_OriginRuleID := coerce (v_OriginRuleID v);
     v_Reason := coerce (v_Reason v); v_AuditKind := coerce (v_AuditKind v); v_OperatorAction := coerce (v_OperatorAction v);
     v_RequestID := coerce (v_RequestID v); v_ApprovalURL := coerce (v_ApprovalURL v) |}.

Definition response_through (r : Response) : Response :=
  {| rs_Status := coerce (rs_Status r); rs_Verdict := verdict_through <$> rs_Verdict r; rs_Error := coerce (rs_Error r);
     rs_Version := coerce (rs_Version r) |}.

Section Wire.

(** [json.Encoder]'s compaction of a [json.RawMessage]; [None] is no JSON. *)
Context (compact : string -> option string).

(** A nil message is written as [null]. *)
Definition raw_through (raw : string) : option string := if raw =s? "" then Some "null" else compact raw.

(** The call that the server decodes, if the client can encode it. *)
Definition call_through (tc : ToolCall) : option ToolCall :=
  match raw_through (tc_Arguments tc), raw_through (tc_Raw tc) with
  | Some arguments, Some raw => Some (with_raw (texts_through tc) arguments raw)
  | _, _ => None
  end.

End Wire.

(** ** The evaluator of [guardrail daemon start] *)

Section Evaluator.

Context (fs : FS) (wd version configPath : string).
Context (url_Parse : string -> option URL) (glob : string -> string -> bool).
Context {bashAnalysis : Type}.
Context (analyzeBash : ToolCall -> outcome bashAnalysis).
Context (checkBashAnalysis : ToolCall -> Policy -> bashAnalysis -> outcome (option Verdict)).
Context (checkPathsAnalysis : ToolCall -> Policy -> option bashAnalysis -> outcome (option Verdict)).
Context (isPrivate : ToolCall -> Policy -> bool) (isNetwork : ToolCall -> bool).
Context (approvalKeyOf : ToolCall -> option string).
Context (recipeCheck : ToolCall -> Policy -> option Verdict).
Context (recipeCheckSession : string -> Policy -> option Verdict).
Context (Digest : ActionGrant.Action -> string) (patch_command : string -> option string).
Context (sessionDigest : string -> string) (binding_hash : string -> string -> string).
Context (formatNano formatBanner : Time -> string).
Context (compact : string -> option string).

#[local] Notation evaluate :=
  (Evaluate url_Parse glob analyzeBash checkBashAnalysis checkPathsAnalysis).
#[local] Notation hook' :=
  (hook fs wd version configPath url_Parse glob analyzeBash checkBashAnalysis checkPathsAnalysis
     isPrivate isNetwork approvalKeyOf recipeCheck recipeCheckSession Digest patch_command
     sessionDigest binding_hash formatNano formatBanner).

(** The policy the daemon judges under, from the files as it finds them: an Overlay that
    does not load is left out, and so is an Operator config. *)
Definition daemon_policy (tc : ToolCall) (h : Host) : string + Policy :=
  match h_base h with
  | None => inl "load base policy"
  | Some base =>
      match Merge fs configPath base (match h_overlay h with OverlayLoaded ov => Some ov | _ => None end) version
              (Some (LoadOperatorConfig (h_operator h)).1) (tc_RepoRoot tc) with
      | Ok (merged, _) => inr merged
      | Err _ => inl "merge policy"
      end
  end.

(** The verdict on one policy, with the checks of an edited file. *)
Definition checked_verdict (tc : ToolCall) (merged : Policy) : Verdict :=
  let v := evaluate tc merged in
  if bool_decide (v_Decision v = Allow) then default v (recipeCheck tc merged) else v.

Definition daemon_evaluator (h : Host) (tc : ToolCall) : string + Verdict :=
  match daemon_policy tc h with
  | inl e => inl e
  | inr merged => inr (checked_verdict tc merged)
  end.

(** What a call gets from a daemon over its files, or from none. *)
Definition ask_daemon (daemon : option Host) (tc : ToolCall) : option Verdict :=
  match daemon, call_through compact tc with
  | Some h, Some received =>
      client_Evaluate (Some (response_through <$> List.hd_error
        (handleConnection (daemon_evaluator h) true [Some {| rq_Action := "evaluate"; rq_ToolCall := Some received |}]).1))
  | _, _ => None
  end.

Definition with_daemon (h : Host) (v : option Verdict) : Host :=
  {| h_daemon := v; h_night := h_night h; h_base := h_base h; h_overlay := h_overlay h; h_operator := h_operator h;
     h_transaction := h_transaction h; h_config_locked := h_config_locked h; h_config_written := h_config_written h;
     h_store_io := h_store_io h; h_fresh := h_fresh h; h_ticket_written := h_ticket_written h;
     h_submitted := h_submitted h; h_audited := h_audited h; h_now := h_now h; h_now_session := h_now_session h;
     h_now_grant := h_now_grant h; h_now_consume := h_now_consume h; h_now_exact := h_now_exact h |}.

Lemma ask_daemon_verdict h tc received merged :
  call_through compact tc = Some received -> daemon_policy received h = inr merged ->
  ask_daemon (Some h) tc = Some (verdict_through (checked_verdict received merged)).
Proof. intros Hc H. unfold ask_daemon, handleConnection. rewrite Hc. cbn. unfold daemon_evaluator. by rewrite H. Qed.

(** The analyses and the recipes do not read the raw members of a call. *)
Definition raw_unread : Prop :=
  forall tc a r,
    analyzeBash (with_raw tc a r) = analyzeBash tc /\
    (forall pol b, checkBashAnalysis (with_raw tc a r) pol b = checkBashAnalysis tc pol b) /\
    (forall pol b, checkPathsAnalysis (with_raw tc a r) pol b = checkPathsAnalysis tc pol b) /\
    (forall pol, recipeCheck (with_raw tc a r) pol = recipeCheck tc pol).

Lemma evaluate_raw_unread tc a r pol : raw_unread -> evaluate (with_raw tc a r) pol = evaluate tc pol.
Proof.
  intros H. destruct (H tc a r) as (H1 & H2 & H3 & _).
  assert (Hr : evaluate_rules glob analyzeBash checkBashAnalysis checkPathsAnalysis (with_raw tc a r) pol =
               evaluate_rules glob analyzeBash checkBashAnalysis checkPathsAnalysis tc pol).
  { unfold evaluate_rules. change (IsBash (with_raw tc a r)) with (IsBash tc).
    change (matchOverlayRules glob (with_raw tc a r) pol) with (matchOverlayRules glob tc pol).
    rewrite H1. destruct (IsBash tc); [|cbn; by rewrite H3].
    destruct (analyzeBash tc) as [bash|]; [|done]. cbn. rewrite H2. destruct (checkBashAnalysis tc pol bash); [|done].
    cbn. by rewrite H3. }
  unfold Evaluate, evaluate_body. rewrite Hr. done.
Qed.

(** A call of UTF-8 texts is judged as it stands. *)
Lemma received_judged_alike tc received pol :
  raw_unread -> texts_through tc = tc -> call_through compact tc = Some received ->
  checked_verdict received pol = checked_verdict tc pol /\ daemon_policy received = daemon_policy tc.
Proof.
  intros Hr Ht. unfold call_through. rewrite Ht. destruct (raw_through _ (tc_Arguments tc)) as [a|]; [|done].
  destruct (raw_through _ (tc_Raw tc)) as [r|]; [|done]. intros [= <-].
  unfold checked_verdict. rewrite evaluate_raw_unread by done. destruct (Hr tc a r) as (_ & _ & _ & Hc). by rewrite Hc.
Qed.

(** A policy the hook can read is the daemon's too, when they find the same files. *)
Lemma daemon_policy_agrees h tc merged :
  hook_policy fs version configPath tc h = Some merged -> daemon_policy tc h = inr merged.
Proof.
  unfold hook_policy, daemon_policy. destruct (h_base h) as [base|]; [|done]. destruct (h_overlay h); [|done|].
  - destruct (Merge _ _ _ _ _ _ _) as [[m w]|]; [by intros [= ->]|done].
  - destruct (Merge _ _ _ _ _ _ _) as [[m w]|]; [by intros [= ->]|done].
Qed.

(** C37: where the hook can read its policy, a call that policy denies is denied whether a
    daemon over the same files and in the same environment answers, answers nonsense,
    cannot be asked, or none runs; and what a daemon's answer allows, the engine allowed
    and no recipe refused. The texts of the call are UTF-8, which is what the connection
    carries, and the analyses do not read its raw members. *)
Theorem daemon_keeps_denials plane tc h w merged daemon res w' :
  raw_unread -> texts_through tc = tc ->
  ordinary_call tc -> h_daemon h = None -> hook_policy fs version configPath tc h = Some merged ->
  (daemon = None \/ daemon = ask_daemon (Some h) tc) ->
  hook' plane tc (with_daemon h daemon) w = (res, w') ->
  (v_Decision (evaluate tc merged) = Deny -> exists v, res = Emitted v /\ v_Decision v = Deny) /\
  (daemon <> None -> forall v, res = Emitted v -> v_Decision v = Allow ->
     v_Decision (evaluate tc merged) = Allow /\
     forall r, recipeCheck tc merged = Some r -> v_Decision r = Allow).
Proof.
  intros Hraw Ht Ho Hd Hp Hdm Hr.
  assert (Hcases : daemon = None \/ daemon = Some (verdict_through (checked_verdict tc merged))).
  { destruct Hdm as [-> | ->]; [by left|]. destruct (call_through compact tc) as [received|] eqn:Hc.
    - right. destruct (received_judged_alike tc received merged Hraw Ht Hc) as [Hv Hpol]. rewrite <- Hv.
      apply (ask_daemon_verdict h tc received merged Hc). rewrite Hpol. by apply daemon_policy_agrees.
    - left. unfold ask_daemon. by rewrite Hc. }
  clear Hdm. destruct Hcases as [->|Hdm].
  - split; [|done]. intros Hdeny.
    destruct (hook_denied fs wd version configPath url_Parse glob analyzeBash checkBashAnalysis checkPathsAnalysis
      isPrivate isNetwork approvalKeyOf recipeCheck recipeCheckSession Digest patch_command sessionDigest binding_hash
      formatNano formatBanner plane tc (with_daemon h None) w merged Ho eq_refl Hp Hdeny) as (v & Hv & Hdv).
    rewrite Hr in Hv. by exists v.
  - assert (Hv := hook_takes_daemon fs wd version configPath url_Parse glob analyzeBash checkBashAnalysis
      checkPathsAnalysis isPrivate isNetwork approvalKeyOf recipeCheck recipeCheckSession Digest patch_command sessionDigest
      binding_hash formatNano formatBanner plane tc (with_daemon h daemon) w _ Ho Hdm).
    rewrite Hr in Hv. cbn in Hv. subst res. unfold checked_verdict. split.
    + intros Hdeny. eexists. split; [done|]. cbn. rewrite Hdeny. done.
    + intros _ v [= <-]. cbn. destruct (bool_decide _) eqn:E.
      * apply bool_decide_eq_true in E. intros Ha. split; [done|]. intros r Hrr. by rewrite Hrr in Ha.
      * apply bool_decide_eq_false in E. intros Ha. congruence.
Qed.

End Evaluator.

(** ** A concrete daemon *)

#[local] Notation demo_ask h := (ask_daemon demo_fs "v0.23.36-dev" "/home/op/waivers.toml" demo_url_Parse demo_glob demo_analyze
  demo_bash demo_paths (fun _ _ => None) (fun s => Some s) h).
#[local] Notation demo_run isPrivate isNetwork h w command :=
  (hook demo_fs "/" "v0.23.36-dev" "/home/op/waivers.toml" demo_url_Parse demo_glob demo_analyze
    demo_bash demo_paths isPrivate isNetwork (fun _ => None) (fun _ _ => None)
    (fun _ _ => None) ActionGrant.demo_Digest (fun _ => None) Tickets.demo_digest Tickets.demo_hash
    (fun _ => "until") (fun _ => "until") "claude" (demo_call CapabilityCommand command) h w).

Lemma daemon_keeps_denials_witness :
  exists v, (demo_run (fun _ _ => false) (fun _ => false)
    (with_daemon demo_host (demo_ask (Some demo_host) (demo_call CapabilityCommand "git push --force"))) demo_world
    "git push --force").1 = Emitted v /\ v_Decision v = Deny.
Proof.
  refine (proj1 (daemon_keeps_denials demo_fs "/" "v0.23.36-dev" "/home/op/waivers.toml" demo_url_Parse demo_glob demo_analyze
    demo_bash demo_paths (fun _ _ => false) (fun _ => false) (fun _ => None) (fun _ _ => None) (fun _ _ => None)
    ActionGrant.demo_Digest (fun _ => None) Tickets.demo_digest Tickets.demo_hash (fun _ => "until") (fun _ => "until")
    (fun s => Some s) "claude" (demo_call CapabilityCommand "git push --force") demo_host demo_world demo_policy _ _ _ _ _ _ _ _ _ _) _).
  - by intros tc a r.
  - vm_compute. reflexivity.
  - apply demo_ordinary. vm_compute. reflexivity.
  - reflexivity.
  - vm_compute. reflexivity.
  - right. reflexivity.
  - apply surjective_pairing.
  - vm_compute. reflexivity.
Defined.

(** ** What a running daemon takes away *)

(** The same host with this Overlay, and this session state in its store. *)
Definition with_reads (h : Host) (o : OverlayRead) (st : StateRead) : Host :=
  {| h_daemon := h_daemon h; h_night := MarkerAbsent; h_base := h_base h; h_overlay := o; h_operator := h_operator h;
     h_transaction := {| io_mkdir := true; io_gate := true; io_lock := true; io_mkdir_state := true; io_read := st;
                         io_legacy := NotExist; io_encode := true; io_write := true; io_unlock := true; io_now := 5%Z |};
     h_config_locked := h_config_locked h; h_config_written := h_config_written h;
     h_store_io := h_store_io h; h_fresh := h_fresh h; h_ticket_written := h_ticket_written h;
     h_submitted := h_submitted h; h_audited := h_audited h; h_now := h_now h; h_now_session := h_now_session h;
     h_now_grant := h_now_grant h; h_now_consume := h_now_consume h; h_now_exact := h_now_exact h |}.

(** A session that has read a secret. *)
Definition demo_tainted : Host :=
  with_reads demo_host (h_overlay demo_host)
    (match (ApplyTrifecta (verdict Allow "" "") true false (Some zero_state) Hook.demo_policy).2 with
     | Some st => Found st | None => NotExist end).

Definition emitted (r : HookResult) : option Decision := match r with Emitted v => Some (v_Decision v) | _ => None end.

(** A hook that fails closed on an Overlay it cannot load allows the call once a daemon
    runs, which leaves the Overlay out. *)
Example daemon_drops_overlay :
  let h := with_reads demo_host OverlayFails NotExist in
  (demo_run (fun _ _ => false) (fun _ => false) h demo_world "ls").1 = FailedClosed "cannot load overlay" /\
  emitted (demo_run (fun _ _ => false) (fun _ => false)
    (with_daemon h (demo_ask (Some h) (demo_call CapabilityCommand "ls"))) demo_world "ls").1 = Some Allow.
Proof. by vm_compute. Qed.

(** The second leg of the trifecta is asked about by a hook and allowed through a daemon,
    which has no session. *)
Example daemon_skips_trifecta :
  emitted (demo_run (fun _ _ => false) (fun _ => true) demo_tainted demo_world "curl https://example.com").1 = Some Ask /\
  emitted (demo_run (fun _ _ => false) (fun _ => true)
    (with_daemon demo_tainted (demo_ask (Some demo_tainted) (demo_call CapabilityCommand "curl https://example.com"))) demo_world
    "curl https://example.com").1 = Some Allow.
Proof. by vm_compute. Qed.
