(* ===== verification/SelfUpdate.v ===== *)
(** * Update and rollback of the binary ([cmd/guardrail/update.go], [rollback.go])

    An update downloads a release, checks its digest, runs it from beside the installed
    binary and renames it into place; what it replaces is kept with a record of its
    digest, and a rollback restores what the record is of.  The file system is a map from
    paths to contents that any call may leave behind refused, late or torn; running a
    binary and digests are parameters. *)

From Stdlib Require Import ZArith Lia Bool.
From S2P Require Import Prelude GoStrings Regex GoPath GitRepo Argv NetRules Recipe Durable.

Open Scope prog_scope.

(** [updateVersionPattern] *)
Definition version_re : re :=
  let number := Plus (Chr is_digit) in
  let suffix := Plus (Chr (fun c => is_digit c || is_letter c || Ascii.eqb c "." || Ascii.eqb c "-")) in
  Cat (lit "v") (Cat number (Cat (lit ".") (Cat number (Cat (lit ".") (Cat number (Opt (Cat (lit "-") suffix))))))).
Definition updateVersionPattern (s : string) : bool := re_match version_re s.

Record previousRecord := { pr_Path : string; pr_Version : string; pr_SHA256 : string }.

(** The files by path, and the record: [Some None] cannot be decoded. *)
Record Disk := { d_files : gmap string string; d_record : option (option previousRecord) }.

Definition put (p c : string) (d : Disk) : Disk := {| d_files := <[p := c]> (d_files d); d_record := d_record d |}.
Definition drop_file (p : string) (d : Disk) : Disk := {| d_files := delete p (d_files d); d_record := d_record d |}.
Definition with_previous (r : option previousRecord) (d : Disk) : Disk := {| d_files := d_files d; d_record := Some r |}.

(** [previousBinaryPath] *)
Definition previousBinaryPath (exe : string) : string :=
  if EqualFold (Ext exe) ".exe" then TrimSuffix exe (Ext exe) +:+ ".previous.exe" else exe +:+ ".previous".

Section Update.

(** The installed binary, the version this process was built as, the digest in
    hexadecimal, and what running a file of this content on [version] prints. *)
Context (exe version : string) (sha256 : string -> string) (reports : string -> option string).
(** What a write that was cut off leaves. *)
Context (torn : string -> string).

Definition staged_path : string := JoinPath [Dir exe; ".guardrail-update"].
Definition aside_path : string := JoinPath [Dir exe; ".guardrail-previous"].
Definition kept_path : string := previousBinaryPath exe.
Definition superseded_path : string := exe +:+ ".old".

Definition safeVersionString : string := if HasPrefix version "v" then version else "".

(** ** Files *)

Definition Remove (p : string) : prog Disk (option unit) := attempt (change (drop_file p)).

(** [os.WriteFile] truncates, writes and closes. *)
Definition WriteFile (p c : string) : prog Disk unit :=
  change (put p "") ;; change (put p (torn c)) ;; change (put p c).

Definition ReadFile (p : string) : prog Disk string := look (fun d => d_files d !! p).

Definition renameFile (from to : string) : prog Disk unit :=
  call (fun d => match d_files d !! from with Some c => Some (tt, put to c (drop_file from d)) | None => None end).

Definition copyFile (from to : string) : prog Disk unit := do raw <- ReadFile from; WriteFile to raw.

Definition fileSHA256 (p : string) : prog Disk string := do raw <- ReadFile p; pret (sha256 raw).

Definition verifyUpdatedBinary (p v : string) : prog Disk unit :=
  do raw <- ReadFile p;
  if match reports raw with Some out => TrimSpace out =s? "guardrail " +:+ v | None => false end then pret tt else perr.

Definition verifyBinaryRuns (p : string) : prog Disk unit :=
  do raw <- ReadFile p;
  if match reports raw with Some out => HasPrefix (TrimSpace out) "guardrail " | None => false end then pret tt else perr.

Definition loadPreviousRecord : prog Disk (option previousRecord) :=
  do rec <- look (fun d => Some (d_record d));
  match rec with None => pret None | Some None => perr | Some (Some rec) => pret (Some rec) end.

Definition write_record (rec : previousRecord) : prog Disk unit :=
  change (with_previous None) ;; change (with_previous (Some rec)).

(** [m], and [undo] before its error is reported. *)
Definition or_else {A} (m : prog Disk A) (undo : prog Disk (option unit)) : prog Disk A :=
  do res <- attempt m;
  match res with Some a => pret a | None => undo ;; perr end.

(** ** Keeping what is replaced *)

Definition stagePrevious : prog Disk unit :=
  Remove aside_path ;; or_else (copyFile exe aside_path) (Remove aside_path).

Definition commitPrevious (release : string) : prog Disk unit :=
  do sum <- fileSHA256 aside_path;
  Remove kept_path ;;
  renameFile aside_path kept_path ;;
  check ;;                                      (* the state directory *)
  write_record {| pr_Path := kept_path; pr_Version := release; pr_SHA256 := sum |}.

(** On a host whose running image can be replaced. *)
Definition replaceInstalledBinary : prog Disk unit := or_else (renameFile staged_path exe) (Remove staged_path).

(** ** Update *)

Fixpoint checksum_line (lines : list string) (got asset : string) : bool :=
  match lines with
  | [] => false
  | line :: lines =>
      match Fields line with
      | [sum; name] => if name =s? asset then sum =s? got else checksum_line lines got asset
      | _ => checksum_line lines got asset
      end
  end.

Definition verifyChecksum (data sums asset : string) : bool :=
  checksum_line (Split sums "010"%char) (sha256 data) asset.

(** [data] and [sums] are the downloads, [steps] whether doctor and selftest passed;
    errors are the exit code 1. *)
Definition cmdUpdate (args : list string) (asset : string) (data sums : option string) (steps : bool) : prog Disk Z :=
  match args with
  | [v] =>
      if negb (updateVersionPattern v) then pret 2%Z
      else if v =s? safeVersionString then pret 0%Z
      else
        do data <- of_option data;
        do sums <- of_option sums;
        if negb (verifyChecksum data sums asset) then perr
        else
          Remove staged_path ;;
          Remove superseded_path ;;
          WriteFile staged_path data ;;
          or_else (verifyUpdatedBinary staged_path v) (Remove staged_path) ;;
          do keep <- attempt stagePrevious;
          or_else replaceInstalledBinary (match keep with Some _ => Remove aside_path | None => pret None end) ;;
          (match keep with Some _ => attempt (commitPrevious safeVersionString) | None => pret None end) ;;
          pret (if steps : bool then 0 else 1)%Z
  | _ => pret 2%Z
  end.

(** ** Rollback *)

(** [cmdRollback] once the digest is found to be the recorded one. *)
Definition restoreKept (rec : previousRecord) (steps : bool) : prog Disk Z :=
  Remove staged_path ;;
  Remove superseded_path ;;
  or_else (copyFile kept_path staged_path) (Remove staged_path) ;;
  or_else (if pr_Version rec <>s? "" then verifyUpdatedBinary staged_path (pr_Version rec) else verifyBinaryRuns staged_path)
    (Remove staged_path) ;;
  or_else stagePrevious (Remove staged_path) ;;
  or_else replaceInstalledBinary (Remove aside_path) ;;
  attempt (commitPrevious safeVersionString) ;;
  pret (if steps : bool then 0 else 1)%Z.

Definition cmdRollback (args : list string) (steps : bool) : prog Disk Z :=
  if negb (bool_decide (args = [])) then pret 2%Z
  else
    do rec <- loadPreviousRecord;
    match rec with
    | None => pret 2%Z
    | Some rec =>
        if negb (EqualFold (Clean (pr_Path rec)) (Clean kept_path)) then perr
        else
          do sum <- fileSHA256 kept_path;
          if sum <>s? pr_SHA256 rec then perr else restoreKept rec steps
    end.

(** ** What a program touches *)

Definition same_but (ps : list string) (d0 d : Disk) : Prop :=
  d_record d = d_record d0 /\ forall q, q ∉ ps -> d_files d !! q = d_files d0 !! q.

(** Whatever befalls it, [m] leaves all but the files [ps]; a result comes with [Q]. *)
Definition touches {A} (ps : list string) (m : prog Disk A) (Q : A -> Disk -> Disk -> Prop) : Prop :=
  forall d0, triple (eq d0) m (fun e d => same_but ps d0 d /\ forall a, e = Done a -> Q a d0 d).

#[local] Instance same_but_refl ps : Reflexive (same_but ps).
Proof. by intros d. Qed.
#[local] Instance same_but_trans ps : Transitive (same_but ps).
Proof. intros d1 d2 d3 [R1 H1] [R2 H2]. split; [congruence|]. intros q Hq. by rewrite H2, H1. Qed.

Lemma same_but_more ps ps' d0 d : ps ⊆ ps' -> same_but ps d0 d -> same_but ps' d0 d.
Proof. intros Hs [R H]. split; [done|]. intros q Hq. apply H. set_solver. Qed.

Lemma touches_weaken {A} ps ps' (m : prog Disk A) (Q Q' : A -> Disk -> Disk -> Prop) :
  touches ps m Q -> ps ⊆ ps' -> (forall a d0 d, Q a d0 d -> Q' a d0 d) -> touches ps' m Q'.
Proof.
  intros Hm Hp HQ d0. eapply triple_conseq; [apply Hm|done|]. intros e d [H1 H2].
  split; [by eapply same_but_more|]. intros a Ha. by apply HQ, H2.
Qed.

Lemma touches_ret {A} ps (a : A) : touches ps (pret a) (fun b d0 d => b = a /\ d = d0).
Proof. intros d0. apply triple_ret. intros d <-. split; [done|]. by intros b [= <-]. Qed.

Lemma touches_err {A} ps (Q : A -> Disk -> Disk -> Prop) : touches ps perr Q.
Proof. intros d0. apply triple_err. by intros d <-. Qed.

Lemma touches_bind {A B} ps (m : prog Disk A) (k : A -> prog Disk B) Q Q2 :
  touches ps m Q -> (forall a, touches ps (k a) (Q2 a)) ->
  touches ps (pbind m k) (fun b d0 d => exists a d1, Q a d0 d1 /\ same_but ps d0 d1 /\ Q2 a b d1 d).
Proof.
  intros Hm Hk d0. eapply triple_bind; [apply Hm| |by intros d [H _]; split..].
  intros a fs d e fs' d' [H1 H2] E. destruct (Hk a d _ _ _ _ _ eq_refl E) as [H3 H4].
  split; [by transitivity d|]. intros b Hb. exists a, d. split_and!; [by apply H2|done|by apply H4].
Qed.

Lemma touches_then {A B} ps (m : prog Disk A) (k : prog Disk B) Q Q2 :
  touches ps m Q -> touches ps k Q2 -> touches ps (m ;; k) (fun b d0 d => exists d1, same_but ps d0 d1 /\ Q2 b d1 d).
Proof.
  intros Hm Hk. eapply touches_weaken; [apply (touches_bind ps m (fun _ => k) Q (fun _ => Q2)); [exact Hm|done]|done|].
  intros b d0 d (a & d1 & _ & H1 & H2). by exists d1.
Qed.

Lemma touches_attempt {A} ps (m : prog Disk A) Q :
  touches ps m Q -> touches ps (attempt m) (fun o d0 d => forall a, o = Some a -> Q a d0 d).
Proof.
  intros Hm d0. apply triple_attempt. eapply triple_conseq; [apply Hm|done|].
  intros [a| |] d [H1 H2]; (split; [done|]); intros o [= <-] b [= <-]. by apply H2.
Qed.

Lemma touches_or_else {A} ps (m : prog Disk A) undo Q Q' :
  touches ps m Q -> touches ps undo Q' -> touches ps (or_else m undo) Q.
Proof.
  intros Hm Hu. eapply touches_weaken; [eapply (touches_bind ps _ _ _ (fun o b d0 d => o = Some b /\ d = d0)); [by apply touches_attempt|]|done|].
  - intros [a|].
    + eapply touches_weaken; [apply touches_ret|done|]. by intros b d0 d [-> ->].
    + eapply touches_weaken; [apply (touches_bind ps undo (fun _ => perr) Q' (fun _ _ _ _ => False)); [exact Hu|intros u; apply touches_err]|done|].
      by intros b d0 d (? & ? & _ & _ & ?).
  - intros b d0 d (o & d1 & H1 & _ & -> & ->). by apply H1.
Qed.

Lemma touches_change p (f : Disk -> Disk) :
  (forall d, same_but [p] d (f d)) -> touches [p] (change f) (fun _ d0 d => d = f d0).
Proof.
  intros Hf d0. apply triple_call; [by intros d <-|]. intros d a d' <- [= <- <-]. split_and!; try done; try apply Hf.
Qed.

Lemma same_put p c d : same_but [p] d (put p c d).
Proof using Type. split; [done|]. intros q Hq. cbn. apply lookup_insert_ne. intros ->. by apply Hq, list_elem_of_singleton. Qed.
Lemma same_drop p d : same_but [p] d (drop_file p d).
Proof using Type. split; [done|]. intros q Hq. cbn. apply lookup_delete_ne. intros ->. by apply Hq, list_elem_of_singleton. Qed.
#[local] Hint Resolve same_put same_drop : core.

Lemma touches_remove p : touches [p] (Remove p) (fun _ _ _ => True).
Proof. eapply touches_weaken; [apply touches_attempt, touches_change; auto|done|done]. Qed.

Lemma touches_write p c : touches [p] (WriteFile p c) (fun _ _ d => d_files d !! p = Some c).
Proof.
  unfold WriteFile. eapply touches_weaken; [eapply touches_then; [by apply touches_change|];
    eapply touches_then; [by apply touches_change|by apply touches_change]|done|].
  intros [] d0 d (d1 & _ & d2 & _ & ->). cbn. apply lookup_insert_eq.
Qed.

Lemma touches_look {A} (f : Disk -> option A) : touches [] (look f) (fun a d0 d => d = d0 /\ f d0 = Some a).
Proof.
  intros d0. apply triple_look; [by intros d <-|]. intros d a <- Ha. split; [done|]. by intros b [= <-].
Qed.

Lemma touches_copy from to : touches [to] (copyFile from to) (fun _ d0 d => exists c, d_files d0 !! from = Some c /\ d_files d !! to = Some c).
Proof.
  unfold copyFile. eapply touches_weaken;
    [apply (touches_bind [to] (ReadFile from) _ (fun a d0 d => d = d0 /\ d_files d0 !! from = Some a)
              (fun c (_ : unit) (_ d : Disk) => d_files d !! to = Some c))|done|].
  - eapply touches_weaken; [apply touches_look|set_solver|done].
  - intros c. apply touches_write.
  - intros [] d0 d (c & d1 & [-> H] & _ & Hc). by exists c.
Qed.

Lemma touches_sha p :
  touches [] (fileSHA256 p) (fun sum d0 d => d = d0 /\ exists c, d_files d0 !! p = Some c /\ sum = sha256 c).
Proof.
  eapply touches_weaken; [apply (touches_bind [] (ReadFile p) _ (fun c d0 d => d = d0 /\ d_files d0 !! p = Some c)
    (fun raw sum d0 d => sum = sha256 raw /\ d = d0)); [apply touches_look|intros raw; apply touches_ret]|done|].
  intros sum d0 d (c & d1 & [-> H] & _ & -> & ->). split; [done|by exists c].
Qed.

Lemma touches_run p (test : string -> bool) :
  touches [] (do raw <- ReadFile p; if test raw then pret tt else perr)
    (fun _ d0 d => d = d0 /\ exists c, d_files d0 !! p = Some c /\ test c = true).
Proof.
  eapply touches_weaken; [eapply (touches_bind [] _ _ _ (fun raw (_ : unit) d0 d => d = d0 /\ test raw = true)); [apply touches_look|]|done|].
  - intros raw. destruct (test raw); [|apply touches_err]. eapply touches_weaken; [apply touches_ret|done|]. by intros _ d0 d [_ ->].
  - intros [] d0 d (c & d1 & [-> H] & _ & -> & Ht). by repeat (eexists; try split).
Qed.

(** ** What is installed *)

(** [fetched v data sums]: an update to the version downloaded these. *)
Context (original asset : string) (fetched : string -> string -> string -> Prop).
Hypothesis distinct : NoDup [exe; staged_path; aside_path; kept_path; superseded_path].
Hypothesis sha256_distinct : forall a b, sha256 a = sha256 b -> a = b.

(** The binary that was there, or what an update to a version downloaded, with its digest in
    the list downloaded with it and reporting that version. *)
Definition vetted (c : string) : Prop :=
  c = original \/
  exists v sums out, fetched v c sums /\ updateVersionPattern v = true /\ verifyChecksum c sums asset = true /\
    reports c = Some out /\ TrimSpace out = "guardrail " +:+ v.

Definition holds_vetted (p : string) (d : Disk) : Prop := exists c, d_files d !! p = Some c /\ vetted c.

(** A vetted binary is in place, and the record, where it can be read, is of one. *)
Definition installed (d : Disk) : Prop :=
  holds_vetted exe d /\
  forall rec, d_record d = Some (Some rec) -> exists c, vetted c /\ pr_SHA256 rec = sha256 c.

Lemma holds_kept p ps d d' : p ∉ ps -> same_but ps d d' -> holds_vetted p d -> holds_vetted p d'.
Proof using Type. intros Hp [_ H] (c & Hc & Hv). exists c. by rewrite H. Qed.

Lemma installed_kept ps d d' : exe ∉ ps -> same_but ps d d' -> installed d -> installed d'.
Proof using Type. intros Hp Hs [H1 H2]. split; [by eapply holds_kept|]. destruct Hs as [-> _]. done. Qed.

Lemma paths_differ :
  exe ∉ [staged_path; aside_path; kept_path; superseded_path] /\ aside_path ∉ [staged_path; kept_path; superseded_path] /\
  staged_path ∉ [aside_path; kept_path; superseded_path] /\ kept_path ∉ [staged_path; superseded_path; aside_path] /\ aside_path <> exe.
Proof.
  pose proof distinct as H. rewrite !NoDup_cons in H. destruct H as (H1 & H2 & H3 & H4 & _).
  rewrite !not_elem_of_cons in *. naive_solver.
Qed.

(** A step of a command that leaves the installed binary and the record alone. *)
Lemma triple_step {A B} ps (P : Disk -> Prop) (m : prog Disk A) (k : A -> prog Disk B) Q :
  exe ∉ ps -> touches ps m Q -> (forall d, P d -> installed d) ->
  (forall a, triple (fun d => exists d0, P d0 /\ same_but ps d0 d /\ Q a d0 d) (k a) (fun _ => installed)) ->
  triple P (pbind m k) (fun _ => installed).
Proof.
  intros Hp Hm Hi Hk fs d e fs' d' HP E. revert E. unfold pbind. destruct (m fs d) as [[r fs1] d1] eqn:E1.
  destruct (Hm d _ _ _ _ _ eq_refl E1) as [H1 H2]. destruct r as [a| |].
  - apply Hk. exists d. split_and!; [done|done|by apply H2].
  - intros [= <- <- <-]. by eapply installed_kept; [|done|apply Hi].
  - intros [= <- <- <-]. by eapply installed_kept; [|done|apply Hi].
Qed.

Lemma touches_stage :
  touches [aside_path] stagePrevious (fun _ d0 d => exists c, d_files d0 !! exe = Some c /\ d_files d !! aside_path = Some c).
Proof.
  destruct paths_differ as (_ & _ & _ & _ & Hne).
  unfold stagePrevious. eapply touches_weaken; [eapply touches_then; [apply touches_remove|];
    eapply touches_or_else; [apply touches_copy|apply touches_remove]|done|].
  intros [] d0 d (d1 & [_ Hs] & c & Hc & Hd). exists c. split; [|done]. rewrite <- Hs; [done|]. intros H%list_elem_of_singleton. congruence.
Qed.

(** Committing what was kept aside leaves a record of it. *)
Lemma commit_installed release :
  triple (fun d => installed d /\ holds_vetted aside_path d) (attempt (commitPrevious release)) (fun _ => installed).
Proof.
  destruct paths_differ as (He & Ha & _ & Hk & _).
  apply triple_attempt. apply (triple_conseq _ (fun d => installed d /\ holds_vetted aside_path d) _ _ (fun _ => installed)); [|done|by intros []].
  unfold commitPrevious. eapply (triple_step []); [set_solver|apply touches_sha|tauto|].
  intros sum. apply (triple_conseq _ (fun d => installed d /\ exists c, vetted c /\ sum = sha256 c) _ _ (fun _ => installed)); [| |done].
  2:{ intros d (d0 & [Hi (c & Hc & Hv)] & _ & -> & c' & Hc' & ->). split; [done|]. exists c'. split; [by simplify_eq|done]. }
  eapply (triple_step [kept_path]); [set_solver|apply touches_remove|tauto|]. intros u.
  eapply (triple_step [aside_path; kept_path] _ _ _ (fun _ _ _ => True)); [set_solver| | |].
  { intros d0. apply triple_call; [by intros d <-|]. intros d a d' -> H. destruct (d_files d !! aside_path) as [c|]; [|done].
    injection H as <- <-. assert (same_but [aside_path; kept_path] d (put kept_path c (drop_file aside_path d))); [|done].
    split; [done|]. intros q Hq. cbn. rewrite lookup_insert_ne, lookup_delete_ne by set_solver. done. }
  { intros d (d0 & [Hi _] & Hs & _). eapply installed_kept; [|done..]. set_solver. }
  intros [].
  apply (triple_conseq _ (fun d => installed d /\ exists c, vetted c /\ sum = sha256 c) _ _ (fun _ => installed)); [| |done].
  2:{ intros d (d1 & (d0 & [Hi Hc] & Hs0 & _) & Hs1 & _). split; [|done].
      eapply installed_kept; [|exact Hs1|]; [set_solver|]. eapply installed_kept; [|exact Hs0|done]. set_solver. }
  apply idle_keeps; [apply idle_check|by intros d [Hi _]|].
  eapply (triple_bind _ _ _ (fun _ d => installed d /\ exists c, vetted c /\ sum = sha256 c)); [| |by intros d []..].
  { apply triple_call; [tauto|]. intros d a d' [[Hh Hr] Hc] [= <- <-]. assert (installed (with_previous None d)) by by split. done. }
  intros []. apply triple_call; [by intros d [Hi _]|]. intros d a d' [[Hh Hr] Hc] [= <- <-].
  assert (installed (with_previous (Some {| pr_Path := kept_path; pr_Version := release; pr_SHA256 := sum |}) d)); [|done].
  split; [done|]. by intros rec [= <-].
Qed.

(** The swap itself; what was kept aside stays where it is. *)
Definition aside_kept (keep : bool) (d : Disk) : Prop := if keep then holds_vetted aside_path d else True.

Lemma or_else_installed {A} (P Q : Disk -> Prop) (m : prog Disk A) undo :
  (forall d, Q d -> installed d) ->
  triple P m (fun e d => match e with Done _ => Q d | _ => installed d end) -> triple installed undo (fun _ => installed) ->
  triple P (or_else m undo) (fun e d => match e with Done _ => Q d | _ => installed d end).
Proof.
  intros HQ Hm Hu. unfold or_else. eapply (triple_bind _ _ _ (fun e d => match e with Done (Some _) => Q d | _ => installed d end)); [| |done..].
  - apply triple_attempt. eapply triple_conseq; [exact Hm|done|]. by intros [].
  - intros [a|]; [by apply triple_ret|]. eapply (triple_bind _ _ _ (fun _ => installed)); [exact Hu|intros o; by apply triple_err|done..].
Qed.

Lemma installed_undo ps {A} (m : prog Disk A) Q : exe ∉ ps -> touches ps m Q -> triple installed m (fun _ => installed).
Proof. intros Hp Hm fs d e fs' d' Hi E. destruct (Hm d _ _ _ _ _ eq_refl E) as [H _]. by eapply installed_kept. Qed.

Lemma swap_installed keep undo :
  triple installed undo (fun _ => installed) ->
  triple (fun d => installed d /\ holds_vetted staged_path d /\ aside_kept keep d) (or_else replaceInstalledBinary undo)
    (fun e d => match e with Done _ => installed d /\ aside_kept keep d | _ => installed d end).
Proof.
  destruct paths_differ as (He & Ha & Hs & _ & Hne). intros Hu. apply or_else_installed; [tauto| |exact Hu].
  apply or_else_installed; [tauto| |eapply installed_undo; [|apply touches_remove]; set_solver].
  apply triple_call; [tauto|]. intros d a d' [[_ Hr] [(c & Hc & Hv) Hk]]. rewrite Hc. intros [= <- <-].
  assert (installed (put exe c (drop_file staged_path d))).
  { split; [|done]. exists c. cbn. by rewrite lookup_insert_eq. }
  split_and!; [done| |done..]. destruct keep; [|done]. destruct Hk as (c' & Hc' & Hv'). exists c'. cbn.
  rewrite lookup_insert_ne, lookup_delete_ne by set_solver. done.
Qed.

(** The end of both commands, once the binary beside the installed one is vetted. *)
Lemma finish_installed keep undo release (code : Z) :
  triple installed undo (fun _ => installed) ->
  triple (fun d => installed d /\ holds_vetted staged_path d /\ aside_kept keep d)
    (or_else replaceInstalledBinary undo ;;
     (if keep then attempt (commitPrevious release) else pret None) ;; pret code) (fun _ => installed).
Proof.
  intros Hu. eapply triple_bind; [by apply (swap_installed keep)| |by intros d..]. intros [].
  eapply (triple_bind _ _ _ (fun _ => installed)); [|intros o; by apply triple_ret|by intros d..].
  destruct keep; [apply commit_installed|]. apply triple_ret. by intros d [Hi _].
Qed.

Lemma remove_aside_installed : triple installed (Remove aside_path) (fun _ => installed).
Proof. eapply installed_undo; [|apply touches_remove]. destruct paths_differ as (He & _). set_solver. Qed.
Lemma remove_staged_installed : triple installed (Remove staged_path) (fun _ => installed).
Proof. eapply installed_undo; [|apply touches_remove]. destruct paths_differ as (He & _). set_solver. Qed.
#[local] Hint Resolve remove_aside_installed remove_staged_installed : core.

Lemma remove_keep p (P : Disk -> Prop) {B} (k : prog Disk B) :
  exe <> p -> (forall d, P d -> installed d) -> (forall d d', P d -> same_but [p] d d' -> P d') ->
  triple P k (fun _ => installed) -> triple P (Remove p ;; k) (fun _ => installed).
Proof.
  intros Hp Hi Hs Hk. eapply (triple_step [p]); [set_solver|apply touches_remove|done|]. intros u.
  eapply triple_conseq; [exact Hk| |done]. intros d (d0 & H & Hsb & _). by eapply Hs.
Qed.

Lemma update_installed args data sums steps :
  (forall v c l, args = [v] -> data = Some c -> sums = Some l -> fetched v c l) ->
  triple installed (cmdUpdate args asset data sums steps) (fun _ => installed).
Proof.
  intros Hfetched. destruct paths_differ as (He & Ha & Hs & Hk & Hne).
  unfold cmdUpdate. destruct args as [|v [|? ?]]; [by apply triple_ret| |by apply triple_ret].
  destruct (updateVersionPattern v) eqn:Ev; cbn [negb]; [|by apply triple_ret]. destruct (v =s? safeVersionString); [by apply triple_ret|].
  apply of_option_keeps; [done|]. intros bin Hbin. apply of_option_keeps; [done|]. intros list Hlist.
  specialize (Hfetched v bin list eq_refl Hbin Hlist).
  destruct (verifyChecksum bin list asset) eqn:Ec; cbn [negb]; [|by apply triple_err].
  eapply (remove_keep staged_path); [set_solver|done|intros d d' Hi Hsb; refine (installed_kept _ _ _ _ Hsb Hi); set_solver|].
  eapply (remove_keep superseded_path); [set_solver|done|intros d d' Hi Hsb; refine (installed_kept _ _ _ _ Hsb Hi); set_solver|].
  eapply (triple_step [staged_path]); [set_solver|apply touches_write|done|]. intros [].
  apply (triple_conseq _ (fun d => installed d /\ d_files d !! staged_path = Some bin) _ _ (fun _ => installed)); [| |done].
  2:{ intros d (d0 & Hi & Hsb & Hd). split; [eapply installed_kept; [|exact Hsb|exact Hi]; set_solver|done]. }
  eapply (triple_step [staged_path]);
    [set_solver|eapply touches_or_else; [eapply touches_weaken; [apply touches_run|set_solver|done]|apply touches_remove]|tauto|]. intros [].
  apply (triple_conseq _ (fun d => installed d /\ holds_vetted staged_path d) _ _ (fun _ => installed)); [| |done].
  2:{ intros d (d0 & [Hi Hb] & _ & -> & c & Hc & Ht). split; [done|]. exists c. split; [done|]. right.
      simplify_eq. destruct (reports bin) as [out|] eqn:Eo; [|done]. apply String.eqb_eq in Ht. by exists v, list, out. }
  eapply (triple_step [aside_path]); [set_solver|apply touches_attempt, touches_stage|tauto|]. intros keep.
  set (kept := match keep with Some _ => true | None => false end).
  apply (triple_conseq _ (fun d => installed d /\ holds_vetted staged_path d /\ aside_kept kept d) _ _ (fun _ => installed)); [| |done].
  2:{ intros d (d0 & [Hi Hb] & Hsb & Hk'). split_and!; [eapply installed_kept; [|exact Hsb|exact Hi]; set_solver
        |eapply holds_kept; [|exact Hsb|exact Hb]; set_solver|]. destruct keep as [[]|]; [|done].
      destruct (Hk' tt eq_refl) as (c & Hc & Hd). exists c. split; [done|]. destruct Hi as [(c0 & Hc0 & Hv) _]. by simplify_eq. }
  destruct keep as [[]|]; [by apply (finish_installed true)|]. apply (finish_installed false _ ""). by apply triple_ret.
Qed.

Lemma restore_installed rec steps :
  triple (fun d => installed d /\ holds_vetted kept_path d) (restoreKept rec steps) (fun _ => installed).
Proof.
  destruct paths_differ as (He & Ha & Hs & Hk & Hne). unfold restoreKept.
  eapply (remove_keep staged_path); [set_solver|tauto|intros d d' [Hi Hb] Hsb; split; [refine (installed_kept _ _ _ _ Hsb Hi)|refine (holds_kept _ _ _ _ _ Hsb Hb)]; set_solver|].
  eapply (remove_keep superseded_path); [set_solver|tauto|intros d d' [Hi Hb] Hsb; split; [refine (installed_kept _ _ _ _ Hsb Hi)|refine (holds_kept _ _ _ _ _ Hsb Hb)]; set_solver|].
  eapply (triple_step [staged_path]); [set_solver|eapply touches_or_else; [apply touches_copy|apply touches_remove]|tauto|]. intros [].
  apply (triple_conseq _ (fun d => installed d /\ holds_vetted staged_path d) _ _ (fun _ => installed)); [| |done].
  2:{ intros d (d0 & [Hi (c & Hc & Hv)] & Hsb & c' & Hc' & Hd). split; [eapply installed_kept; [|exact Hsb|exact Hi]; set_solver|].
      exists c'. split; [done|]. by simplify_eq. }
  eapply (triple_step [staged_path] _ _ _ (fun _ d0 d => d = d0)); [set_solver| |tauto|].
  { eapply touches_or_else; [|apply touches_remove]. destruct (pr_Version rec <>s? "");
      (eapply touches_weaken; [apply touches_run|set_solver|by intros _ d0 d [-> _]]). }
  intros []. eapply (triple_conseq _ (fun d => installed d /\ holds_vetted staged_path d) _ _ (fun _ => installed)); [| |done].
  2:{ by intros d (d0 & Hi & _ & ->). }
  eapply triple_bind; [apply (or_else_installed _ (fun d => installed d /\ holds_vetted staged_path d /\ aside_kept true d))| |by intros d..].
  - tauto.
  - intros fs d e fs' d' [Hi Hb] E. destruct (touches_stage d _ _ _ _ _ eq_refl E) as [Hsb Hd].
    assert (Hi' : installed d') by (eapply installed_kept; [|exact Hsb|exact Hi]; set_solver).
    destruct e as [[]| |]; [|done..]. split_and!; [done|eapply holds_kept; [|exact Hsb|exact Hb]; set_solver|].
    destruct (Hd tt eq_refl) as (c & Hc & Hd'). exists c. split; [done|]. destruct Hi as [(c0 & Hc0 & Hv) _]. by simplify_eq.
  - done.
  - intros []. by apply (finish_installed true).
Qed.

Lemma rollback_installed args steps : triple installed (cmdRollback args steps) (fun _ => installed).
Proof.
  destruct paths_differ as (He & Ha & Hs & Hk & Hne).
  unfold cmdRollback. case_bool_decide; cbn [negb]; [|by apply triple_ret].
  unfold loadPreviousRecord. eapply (triple_bind _ _ _ (fun e d => installed d /\ forall rec, e = Done (Some rec) -> exists c, vetted c /\ pr_SHA256 rec = sha256 c));
    [|intros [rec|]|by intros d []..].
  { apply look_keeps; [by intros d Hi|]. intros [[rec|]|]; [|apply triple_err; by intros d [Hi _]|apply triple_ret; by intros d [Hi _]].
    apply triple_ret. intros d [Hi [= Hr]]. split; [done|]. intros rec' [= <-]. by apply Hi. }
  2:{ apply triple_ret. by intros d [Hi _]. }
  destruct (negb (EqualFold _ _)); [apply triple_err; by intros d [Hi _]|].
  eapply (triple_step []); [set_solver|apply touches_sha|by intros d [Hi _]|]. intros sum.
  destruct (sum =s? pr_SHA256 rec) eqn:Es; cbn [negb];
    [|apply triple_err; intros d (d0 & [Hi _] & _ & -> & _); done]. apply String.eqb_eq in Es.
  apply (triple_conseq _ (fun d => installed d /\ holds_vetted kept_path d) _ _ (fun _ => installed)); [| |done].
  2:{ intros d (d0 & [Hi Hr] & _ & -> & c & Hc & ->). split; [done|]. destruct (Hr rec eq_refl) as (c' & Hv & Hc').
      exists c. split; [done|]. by rewrite (sha256_distinct c c') by congruence. } by apply restore_installed.
Qed.

End Update.

(** ** Histories *)

Section History.

Context (exe : string) (sha256 : string -> string) (reports : string -> option string) (torn : string -> string).
Context (original asset : string).

(** A command of the process of a version with the faults it meets, and what others do to
    files that are neither the installed binary nor the record. *)
Inductive happening :=
| Updates (version : string) (args : list string) (data sums : option string) (steps : bool) (faults : list fault)
| RollsBack (version : string) (args : list string) (steps : bool) (faults : list fault)
| Elsewhere (p : string) (content : option string).

Definition happens (d : Disk) (h : happening) : Disk :=
  match h with
  | Updates version args data sums steps faults =>
      (cmdUpdate exe version sha256 reports torn args asset data sums steps faults d).2
  | RollsBack version args steps faults => (cmdRollback exe version sha256 reports torn args steps faults d).2
  | Elsewhere p content =>
      if p =s? exe then d else match content with Some c => put p c d | None => drop_file p d end
  end.

Hypothesis distinct : NoDup [exe; staged_path exe; aside_path exe; kept_path exe; superseded_path exe].
Hypothesis sha256_distinct : forall a b, sha256 a = sha256 b -> a = b.

(** What the updates of a history download. *)
Definition downloaded (hs : list happening) (v data sums : string) : Prop :=
  exists version steps faults, Updates version [v] (Some data) (Some sums) steps faults ∈ hs.

(** C40: through any updates and rollbacks, whatever calls fail, wherever the process dies and
    however the other files are changed between them, a binary is installed, and it is the
    one that was there or one that an update to some version downloaded, with its digest in
    the list downloaded with it and reporting that version: nothing that was kept, staged
    or torn ever takes its place unvetted. The record of the kept binary is the program's
    own, digests are those of no other content, and no file changes during a command
    ([kept_binary_changes_after_check]). *)
Theorem installed_stays_vetted hs d :
  let safe := installed exe sha256 reports original asset (downloaded hs) in
  safe d -> safe (foldl happens d hs).
Proof.
  intros safe. cut (forall past d, past ⊆ hs -> safe d -> safe (foldl happens d past)); [intros H; by apply H|].
  clear d. subst safe. induction past as [|h past IH]; intros d Hsub Hi; [done|]. apply IH; [set_solver|].
  assert (Hin : h ∈ hs) by set_solver.
  destruct h as [version args data sums steps fs|version args steps fs|p content]; cbn.
  - destruct (cmdUpdate _ _ _ _ _ _ _ _ _ _ _ _) as [[e fs'] d'] eqn:E. eapply update_installed; [done..| |exact Hi|exact E].
    intros v c l -> -> ->. by exists version, steps, fs.
  - destruct (cmdRollback _ _ _ _ _ _ _ _ _) as [[e fs'] d'] eqn:E. by eapply rollback_installed.
  - destruct (p =s? exe) eqn:Ep; [done|]. apply String.eqb_neq in Ep.
    assert (exe ∉ [p]) by (rewrite list_elem_of_singleton; congruence).
    destruct content; (eapply installed_kept; [done|apply same_put || apply same_drop|done]).
Qed.

End History.

(** ** Concrete histories *)

Definition demo_exe : string := "/usr/local/bin/guardrail".
Definition demo_asset : string := "guardrail_linux_amd64".
Definition demo_reports (c : string) : option string :=
  if c =s? "first" then Some ("guardrail v1.0.0" +:+ newline_text)
  else if c =s? "second" then Some ("guardrail v2.0.0" +:+ newline_text)
  else if c =s? "forged" then Some "guardrail v1.0.0" else None.
Definition demo_torn (c : string) : string := String.substring 0 2 c.
Definition demo_disk : Disk := {| d_files := {[demo_exe := "first"]}; d_record := None |}.
Definition demo_sums : string := "0a0b  guardrail_linux_arm64" +:+ newline_text +:+ "second  guardrail_linux_amd64" +:+ newline_text.
Definition demo_update (faults : list fault) : happening := Updates "v1.0.0" ["v2.0.0"] (Some "second") (Some demo_sums) true faults.
Definition demo_kept : string := kept_path demo_exe.
Definition demo_run : Disk -> list happening -> Disk :=
  foldl (happens demo_exe (fun c => c) demo_reports demo_torn demo_asset).

(** An update that dies while staging, one whose download was forged, one whose swap is
    refused and one that goes well; the kept binary changed, and a rollback; the kept binary
    put back, a rollback that dies right after the swap, and the one the next process does. *)
Definition demo_history : list happening :=
  [demo_update [Fine; Fine; Fine; Crash];
   Updates "v1.0.0" ["v2.0.0"] (Some "forged") (Some demo_sums) true [];
   demo_update (replicate 11 Fine ++ [Refused]);
   demo_update [LateError; Refused];
   Elsewhere demo_kept (Some "forged");
   RollsBack "v2.0.0" [] true [];
   Elsewhere demo_kept (Some "first");
   RollsBack "v2.0.0" [] true (replicate 14 Fine ++ [LateCrash]);
   RollsBack "v1.0.0" [] true []].

(** An update is undone by a rollback, and that by another. *)
Example update_rolled_back :
  let installed_after hs := d_files (demo_run demo_disk hs) !! demo_exe in
  let undo version := RollsBack version [] true [] in
  installed_after [demo_update []] = Some "second" /\
  installed_after [demo_update []; undo "v2.0.0"] = Some "first" /\
  installed_after [demo_update []; undo "v2.0.0"; undo "v1.0.0"] = Some "second".
Proof. vm_compute. repeat split. Qed.

Example demo_history_goes :
  map (fun n => d_files (demo_run demo_disk (take n demo_history)) !! demo_exe) [3; 4; 6; 8; 9] =
  [Some "first"; Some "second"; Some "second"; Some "first"; Some "first"].
Proof. vm_compute. reflexivity. Qed.

Lemma installed_stays_vetted_witness :
  let distinct := NoDup [demo_exe; staged_path demo_exe; aside_path demo_exe; kept_path demo_exe; superseded_path demo_exe] in
  let fine := installed demo_exe (fun c => c) demo_reports "first" demo_asset (downloaded demo_history) in
  distinct /\ fine demo_disk /\ fine (demo_run demo_disk demo_history).
Proof.
  cbv zeta.
  assert (D : NoDup [demo_exe; staged_path demo_exe; aside_path demo_exe; kept_path demo_exe; superseded_path demo_exe])
    by (apply (bool_decide_unpack _); vm_compute; exact I).
  assert (F : installed demo_exe (fun c => c) demo_reports "first" demo_asset (downloaded demo_history) demo_disk).
  { split; [|discriminate]. exists "first". split; [vm_compute; reflexivity|by left]. }
  split; [exact D|]. split; [exact F|].
  apply (installed_stays_vetted demo_exe (fun c => c) demo_reports demo_torn "first" demo_asset D (fun a b H => H) demo_history).
  exact F.
Defined.

(** The digest is of one reading of the kept binary and what is installed of another:
    changed in between, it is installed whatever it is. *)
Example kept_binary_changes_after_check :
  let d := demo_run demo_disk [demo_update []] in
  let rec := {| pr_Path := demo_kept; pr_Version := "v1.0.0"; pr_SHA256 := "first" |} in
  d_record d = Some (Some rec) /\
  (fileSHA256 (fun c => c) demo_kept [] d).1.1 = Done (pr_SHA256 rec) /\
  d_files (restoreKept demo_exe "v2.0.0" (fun c => c) demo_reports demo_torn rec true [] (put demo_kept "forged" d)).2
    !! demo_exe = Some "forged".
Proof. repeat apply conj; vm_compute; reflexivity. Qed.
