(* ===== verification/ApprovalDaemon.v ===== *)
(** * The approval daemon ([internal/approval/daemon.go], [browser.go], [apply_local.go])

    Passkey mode runs a resident process: requests are filed over a private socket, each
    is presented on a loopback page, and an assertion accepted on that page approves it.
    Connections and pages are served concurrently.  A task is what is left of serving
    one: an answer, or an atomic action on the shared world and how to go on; a run takes
    the tasks' actions in any order, with the transactions of other processes on the
    broker's store and the credential files in between.  The composition with [Broker]
    and [OperatorAuth] is the point: what was signed is what is executed. *)

From Stdlib Require Import ZArith Lia Bool.
From S2P Require Import Prelude GoStrings GoPath Policy Merge Engine OperatorAction Session ActionGrant Broker Durable OperatorAuth.

Notation Request := Broker.Request (only parsing).
Notation Requests := (gmap string ApprovalRequest).

(** ** What is shown *)

(** [Request.Summary] of the actions that are shown by a line. *)
Definition request_summary (r : Request) : string :=
  let p k := param (Broker.b_Parameters r) k in
  if Broker.b_Action r =s? "web-research-set"
  then "native web-research enforcement: " +:+ p "enforcement" +:+ " (machine-wide; off does not enforce outbound data or destinations)"
  else if in_list (Broker.b_Action r) ["plane-enable"; "plane-disable"] && (p "planes" <>s? "")
  then "planes: " +:+ p "planes" +:+
       (if p "prune_floor" <>s? "" then "; also removes retired settings floor entries guardrail wrote earlier from: " +:+ p "prune_floor" else "")
  else if (Broker.b_Action r =s? "recover") && (p "repair" <>s? "") then "repair: " +:+ p "repair"
  else if in_list (Broker.b_Action r) ["web-host-grant"; "web-host-revoke"] && (p "hosts" <>s? "")
  then "hosts: " +:+ p "hosts" +:+ " (" +:+ p "scope" +:+ ")"
  else "".

(** What the page shows: a line, or the whole body of an exact action. *)
Inductive review := Line (text : string) | Body (r : ActionGrant.Request).

Definition ReviewSummary (read : string -> option ActionGrant.Request) (r : Request) : option review :=
  if Broker.b_Action r <>s? "exact-action-grant" then Some (Line (request_summary r))
  else match read (param (Broker.b_Parameters r) "record") with
  | None => None
  | Some waiting =>
      if (ActionGrant.rq_Status waiting <>s? "pending") ||
         (ActionGrant.rq_Digest waiting <>s? param (Broker.b_Parameters r) "digest") ||
         (ActionGrant.ac_Repo (ActionGrant.rq_Action waiting) <>s? Broker.b_RepoRoot r)
      then None else Some (Body waiting)
  end.

(** ** Messages *)

Record daemonMessage := { dm_Operation : string; dm_Request : Request; dm_ID : string }.
Record daemonReply := { dr_Request : option Request; dr_Requests : list Request; dr_Error : string }.

Definition refusal (e : string) : daemonReply := {| dr_Request := None; dr_Requests := []; dr_Error := e |}.
Definition shown (r : Request) : daemonReply := {| dr_Request := Some r; dr_Requests := []; dr_Error := "" |}.
Definition empty_reply : daemonReply := refusal "".

Definition ErrNotEnrolled : string := "no operator authenticator is enrolled".

(** Only identity, status, deadline and address leave on a status. *)
Definition requestStatus (r : Request) : Request :=
  {| Broker.b_ID := Broker.b_ID r; Broker.b_Plane := ""; Broker.b_SessionID := ""; Broker.b_RepoRoot := "";
     Broker.b_Host := ""; Broker.b_Scope := ""; Broker.b_Reason := ""; Broker.b_Action := "";
     Broker.b_Parameters := ∅; Broker.b_IssuedAt := 0%Z; Broker.b_ExpiresAt := Broker.b_ExpiresAt r;
     Broker.b_Status := Broker.b_Status r; Broker.b_Transport := ""; Broker.b_CredentialFingerprint := "";
     Broker.b_ApprovalURL := Broker.b_ApprovalURL r |}.

(** ** The terminal's side: what came back, [None] when nobody answered *)

Inductive SubmitError := DaemonUnavailable | NotEnrolled | Refusal (message : string).

Definition replyError (message : string) : SubmitError := if message =s? ErrNotEnrolled then NotEnrolled else Refusal message.

(** [zero] is [Request{}]. *)
Definition Submit (zero : Request) (reply : option daemonReply) : SubmitError + Request :=
  match reply with
  | None => inl DaemonUnavailable
  | Some r => if dr_Error r <>s? "" then inl (replyError (dr_Error r)) else inr (default zero (dr_Request r))
  end.

Definition QueryStatus (zero : Request) (reply : option daemonReply) : option Request :=
  match reply with Some r => if dr_Error r <>s? "" then None else Some (default zero (dr_Request r)) | None => None end.
Definition ListPending (reply : option daemonReply) : option (list Request) :=
  match reply with Some r => if dr_Error r <>s? "" then None else Some (dr_Requests r) | None => None end.
Definition PresentApproval (reply : option daemonReply) : bool :=
  match reply with Some r => dr_Error r =s? "" | None => false end.

(** [SubmitOnDemand]: a daemon that does not answer is started and asked again until the
    deadline, [replies] being what comes back each time; one that refuses is not. *)
Fixpoint submit_again (zero : Request) (replies : list (option daemonReply)) : SubmitError + Request :=
  match replies with
  | [] => inl DaemonUnavailable
  | reply :: replies =>
      match Submit zero reply with
      | inl DaemonUnavailable => submit_again zero replies
      | res => res
      end
  end.

Definition SubmitOnDemand (zero : Request) (persistent started : bool) (first : option daemonReply)
    (replies : list (option daemonReply)) : option (SubmitError + Request) :=
  if negb persistent then None
  else match Submit zero first with
  | inl DaemonUnavailable => if started then Some (submit_again zero replies) else None
  | res => Some res
  end.

(** A refusal is reported as the daemon said it, and never leads to another request. *)
Lemma SubmitOnDemand_refused zero started r replies :
  dr_Error r <> "" -> SubmitOnDemand zero true started (Some r) replies = Some (inl (replyError (dr_Error r))).
Proof.
  intros H. apply String.eqb_neq in H. unfold SubmitOnDemand, Submit. rewrite H. cbn. unfold replyError. by destruct (_ =s? ErrNotEnrolled).
Qed.

Definition with_url (r : Request) (url : string) : Request :=
  {| Broker.b_ID := Broker.b_ID r; Broker.b_Plane := Broker.b_Plane r; Broker.b_SessionID := Broker.b_SessionID r;
     Broker.b_RepoRoot := Broker.b_RepoRoot r; Broker.b_Host := Broker.b_Host r; Broker.b_Scope := Broker.b_Scope r;
     Broker.b_Reason := Broker.b_Reason r; Broker.b_Action := Broker.b_Action r;
     Broker.b_Parameters := Broker.b_Parameters r; Broker.b_IssuedAt := Broker.b_IssuedAt r;
     Broker.b_ExpiresAt := Broker.b_ExpiresAt r; Broker.b_Status := Broker.b_Status r;
     Broker.b_Transport := Broker.b_Transport r; Broker.b_CredentialFingerprint := Broker.b_CredentialFingerprint r;
     Broker.b_ApprovalURL := url |}.

Definition attributed (r : Request) (a : option (string * string)) : Request :=
  match a with
  | None => r
  | Some (transport, fingerprint) =>
      {| Broker.b_ID := Broker.b_ID r; Broker.b_Plane := Broker.b_Plane r; Broker.b_SessionID := Broker.b_SessionID r;
         Broker.b_RepoRoot := Broker.b_RepoRoot r; Broker.b_Host := Broker.b_Host r; Broker.b_Scope := Broker.b_Scope r;
         Broker.b_Reason := Broker.b_Reason r; Broker.b_Action := Broker.b_Action r;
         Broker.b_Parameters := Broker.b_Parameters r; Broker.b_IssuedAt := Broker.b_IssuedAt r;
         Broker.b_ExpiresAt := Broker.b_ExpiresAt r; Broker.b_Status := Broker.b_Status r;
         Broker.b_Transport := transport; Broker.b_CredentialFingerprint := fingerprint;
         Broker.b_ApprovalURL := Broker.b_ApprovalURL r |}
  end.

(** What the page's script posts, as [json.Unmarshal] fills it. *)
Record AssertionPayload := {
  ap_ID : string; ap_RawID : string; ap_Type : string;
  ap_AuthenticatorData : string; ap_ClientDataJSON : string; ap_Signature : string;
}.

Definition complete_payload (p : AssertionPayload) : bool :=
  (ap_ID p <>s? "") && (ap_RawID p <>s? "") && (ap_Type p =s? "public-key") && (ap_AuthenticatorData p <>s? "") &&
  (ap_ClientDataJSON p <>s? "") && (ap_Signature p <>s? "").

(** [hr_Body]: the first JSON value of the body, if there is one. *)
Record HttpRequest := { hr_Method : string; hr_Path : string; hr_ContentType : string; hr_Body : option string }.

(** ** The shared world *)

Record Browser := { br_requestID : string; br_origin : string; br_ceremony : string; br_open : bool }.

(** What happened, for the theorems: the ceremonies, and what an approval began and ran. *)
Inductive trace_event :=
| Ceremony (ev : event)
| Approving (r : Request)
| Executed (r : Request).

Record World := {
  dw_requests : Requests;                       (* the broker's session state *)
  dw_auth : Auth;
  dw_browsers : list Browser;                   (* every page, by number *)
  dw_presented : gmap string nat;               (* [d.browsers] *)
  dw_attribution : gmap string (string * string);
  dw_activity : Time;
  dw_closed : bool;
  dw_trace : list trace_event;
}.

Definition with_requests (w : World) (m : Requests) : World :=
  {| dw_requests := m; dw_auth := dw_auth w; dw_browsers := dw_browsers w; dw_presented := dw_presented w;
     dw_attribution := dw_attribution w; dw_activity := dw_activity w; dw_closed := dw_closed w; dw_trace := dw_trace w |}.
Definition with_auth (w : World) (a : Auth) (l : list event) : World :=
  {| dw_requests := dw_requests w; dw_auth := a; dw_browsers := dw_browsers w; dw_presented := dw_presented w;
     dw_attribution := dw_attribution w; dw_activity := dw_activity w; dw_closed := dw_closed w;
     dw_trace := dw_trace w ++ map Ceremony l |}.
Definition with_browsers (w : World) (l : list Browser) : World :=
  {| dw_requests := dw_requests w; dw_auth := dw_auth w; dw_browsers := l; dw_presented := dw_presented w;
     dw_attribution := dw_attribution w; dw_activity := dw_activity w; dw_closed := dw_closed w; dw_trace := dw_trace w |}.
Definition with_presented (w : World) (m : gmap string nat) : World :=
  {| dw_requests := dw_requests w; dw_auth := dw_auth w; dw_browsers := dw_browsers w; dw_presented := m;
     dw_attribution := dw_attribution w; dw_activity := dw_activity w; dw_closed := dw_closed w; dw_trace := dw_trace w |}.
Definition with_attribution (w : World) (m : gmap string (string * string)) : World :=
  {| dw_requests := dw_requests w; dw_auth := dw_auth w; dw_browsers := dw_browsers w; dw_presented := dw_presented w;
     dw_attribution := m; dw_activity := dw_activity w; dw_closed := dw_closed w; dw_trace := dw_trace w |}.
Definition with_activity (w : World) (now : Time) : World :=
  {| dw_requests := dw_requests w; dw_auth := dw_auth w; dw_browsers := dw_browsers w; dw_presented := dw_presented w;
     dw_attribution := dw_attribution w; dw_activity := now; dw_closed := dw_closed w; dw_trace := dw_trace w |}.
Definition with_closed (w : World) : World :=
  {| dw_requests := dw_requests w; dw_auth := dw_auth w; dw_browsers := dw_browsers w; dw_presented := dw_presented w;
     dw_attribution := dw_attribution w; dw_activity := dw_activity w; dw_closed := true; dw_trace := dw_trace w |}.
Definition with_event (w : World) (ev : trace_event) : World :=
  {| dw_requests := dw_requests w; dw_auth := dw_auth w; dw_browsers := dw_browsers w; dw_presented := dw_presented w;
     dw_attribution := dw_attribution w; dw_activity := dw_activity w; dw_closed := dw_closed w;
     dw_trace := dw_trace w ++ [ev] |}.

(** What the host answers to one action. *)
Record Env := {
  e_io : Broker.TxEnd;                          (* how the session transaction ends *)
  e_reached : bool;                             (* its callback ran *)
  e_now : Time;
  e_later : Time;                               (* a second reading of the clock *)
  e_fresh : option string;                      (* [randomID] *)
  e_read : string -> option ActionGrant.Request;
  e_port : option string;                       (* [net.Listen] *)
  e_ceremony : string;                          (* [ceremonyID] *)
  e_nonce : string;
  e_faults : list fault;
  e_ok : bool;                                  (* opening the address; encoding the options *)
  e_handled : option bool;                      (* the registered handler; [None]: there is none *)
}.

Inductive outcome_of := Reply (r : daemonReply) | Http (status : Z) | Panic | Nothing.

Inductive task :=
| Answer (a : outcome_of)
| Act {R : Type} (op : Env -> World -> R * World) (k : R -> task).

Declare Scope task_scope.
Delimit Scope task_scope with task.
Notation "'act' x <- op ; k" := (Act op (fun x => k))
  (at level 200, x pattern, op at level 100, k at level 200, right associativity) : task_scope.
Notation "op ;; k" := (Act op (fun _ => k)) (at level 100, k at level 200, right associativity) : task_scope.
Open Scope task_scope.

Section Daemon.

Context (Marshal : list Credential -> string) (Unmarshal : string -> option (list Credential)).
Context (sha256 : string -> string) (fingerprint_of : Credential -> string) (format_time : Time -> string).
Context (origin_Parse : string -> option Origin).
Context (ValidateLogin : string -> list Credential -> string -> string -> option WebAuthnCredential).
Context (credentialRecord : WebAuthnCredential -> option Credential).
Context (canonicalNightExpiry : string -> Time -> option string) (digest : string -> string).
Context (payload_Unmarshal : string -> option AssertionPayload).

#[local] Notation BeginAssertion' := (BeginAssertion Unmarshal sha256 format_time origin_Parse).
#[local] Notation FinishAssertion' := (FinishAssertion Marshal Unmarshal sha256 ValidateLogin credentialRecord).

(** ** Actions *)

(** One transaction on the broker's store. *)
Definition transaction {R} (f : Env -> Requests -> R * Requests) (e : Env) (w : World) : R * World :=
  let '(r, m) := f e (dw_requests w) in (r, with_requests w m).

Definition broker_Create (r : Request) :=
  transaction (fun e m => Broker.Create (e_read e) canonicalNightExpiry digest (e_io e) m r (e_now e) (e_later e) (e_fresh e)).
Definition broker_Request (id : string) := transaction (fun e m => Broker.Lookup (e_io e) m id (e_now e)).
Definition broker_Deny (id : string) := transaction (fun e m => Broker.Deny (e_io e) m id).
Definition broker_Pending := transaction (fun e m => Broker.Pending (e_io e) m (e_now e)).
Definition broker_hasPending := transaction (fun e m => Broker.hasPending (e_reached e) (e_io e) m (e_now e)).
Definition broker_complete (id status : string) := transaction (fun e m => Broker.complete (e_io e) m id status).

(** The first transaction of [Approve]. *)
Definition begin_Approve (id scope : string) (e : Env) (w : World) : result Broker.BrokerError Request * World :=
  match Broker.begin_approve (e_io e) (dw_requests w) id scope (e_now e) with
  | (Ok r, m) => (Ok r, with_event (with_requests w m) (Approving r))
  | (Err err, m) => (Err err, with_requests w m)
  end.

(** The attribution is taken once. *)
Definition take_attribution (id : string) (e : Env) (w : World) : option (string * string) * World :=
  (dw_attribution w !! id, with_attribution w (delete id (dw_attribution w))).

Definition SetCompletionAttribution (id transport fingerprint : string) (e : Env) (w : World) : unit * World :=
  (tt, if (id =s? "") || (transport =s? "") || (fingerprint =s? "") then w
       else with_attribution w (<[id := (transport, fingerprint)]> (dw_attribution w))).

(** The registered handler runs, if there is one. *)
Definition handler (r : Request) (e : Env) (w : World) : option bool * World :=
  (e_handled e, match e_handled e with Some _ => with_event w (Executed r) | None => w end).

Definition review_of (r : Request) (e : Env) (w : World) : option review * World := (ReviewSummary (e_read e) r, w).
Definition listen (e : Env) (w : World) : option string * World := (e_port e, w).
Definition host_ok (e : Env) (w : World) : bool * World := (e_ok e, w).
Definition touch (e : Env) (w : World) : unit * World := (tt, with_activity w (e_now e)).

(** [BeginAssertion] names one of its errors: no authenticator is enrolled. *)
Definition unenrolled (r : Request) (e : Env) (w : World) : bool :=
  Before (e_now e) (Broker.b_ExpiresAt r) &&
  match hasCredentials Unmarshal (e_faults e) (dw_auth w) with (Done false, _, _) => true | _ => false end.

(** A process that dies takes no further step; the run that goes on is one more. *)
Definition begin_ceremony (r : Request) (origin : string) (e : Env) (w : World) : (string + string) * World :=
  let '(res, _, a) := BeginAssertion' (e_ceremony e) (e_nonce e) origin r (e_now e) (e_faults e) (dw_auth w) in
  (match res with
   | Done _ => inr (e_ceremony e)
   | _ => inl (if unenrolled r e w then ErrNotEnrolled else "begin assertion")
   end,
   with_auth w a (when_done res (fun _ => BeganAssertion (e_ceremony e) (e_nonce e) origin r (e_now e) (dw_auth w)))).

(** A page begins a ceremony and is served from then on: its number. *)
Definition begin_page (id : string) (r : Request) (origin : string) (e : Env) (w : World) : (string + nat) * World :=
  match begin_ceremony r origin e w with
  | (inr cid, w') =>
      (inr (length (dw_browsers w')),
       with_browsers w' (dw_browsers w' ++ [{| br_requestID := id; br_origin := origin; br_ceremony := cid; br_open := true |}]))
  | (inl err, w') => (inl err, w')
  end.

Definition set_ceremony (b : Browser) (id : string) : Browser :=
  {| br_requestID := br_requestID b; br_origin := br_origin b; br_ceremony := id; br_open := br_open b |}.
Definition closed_page (b : Browser) : Browser :=
  {| br_requestID := br_requestID b; br_origin := br_origin b; br_ceremony := br_ceremony b; br_open := false |}.

(** [reissue]: a new ceremony, if it begins. *)
Definition reissue (n : nat) (r : Request) (origin : string) (e : Env) (w : World) : bool * World :=
  match begin_ceremony r origin e w with
  | (inr id, w') => (true, with_browsers w' (alter (fun b => set_ceremony b id) n (dw_browsers w')))
  | (inl _, w') => (false, w')
  end.

(** [finish]: the page's current ceremony; the attribution of the credential. *)
Definition finish (n : nat) (response : string) (e : Env) (w : World) : option (string * string) * World :=
  match dw_browsers w !! n with
  | None => (None, w)
  | Some b =>
      let '(res, _, a) := FinishAssertion' (br_ceremony b) response (e_now e) (e_faults e) (dw_auth w) in
      (match res with Done c => Some ("webauthn", fingerprint_of c) | _ => None end,
       with_auth w a (when_done res (fun c => Asserted (br_ceremony b) response (e_now e) (dw_auth w) c)))
  end.

Definition close_page (n : nat) (e : Env) (w : World) : unit * World :=
  (tt, with_browsers w (alter closed_page n (dw_browsers w))).

(** The page is the one of its request; one that was is closed. *)
Definition present_page (id : string) (n : nat) (e : Env) (w : World) : unit * World :=
  let w := match dw_presented w !! id with
           | Some old => with_browsers w (alter closed_page old (dw_browsers w))
           | None => w
           end in
  (tt, with_presented w (<[id := n]> (dw_presented w))).

(** On a new request there is none to close. *)
Definition register_page (id : string) (n : nat) (e : Env) (w : World) : unit * World :=
  (tt, with_presented w (<[id := n]> (dw_presented w))).

(** [Close]: no connection is accepted any more and every presented page ends. *)
Definition close_daemon (e : Env) (w : World) : unit * World :=
  (tt, if dw_closed w then w
       else with_browsers (with_closed w)
              (foldr (fun kv l => alter closed_page kv.2 l) (dw_browsers w) (map_to_list (dw_presented w)))).

(** ** The daemon *)

(** [StartBrowser], from the checks of its arguments on; the identity may be empty. *)
Definition StartBrowser (id : string) (k : string + nat * string -> task) : task :=
  if id =s? "" then k (inl "approval request malformed")
  else
    act res <- broker_Request id;
    match res with
    | Err _ => k (inl "request unavailable")
    | Ok req =>
        act summary <- review_of req;
        match summary with
        | None => k (inl "action request unavailable or changed")
        | Some _ =>
            act port <- listen;
            match port with
            | None => k (inl "listen")
            | Some port =>
                let origin := "http://localhost:" +:+ port in
                act page <- begin_page id req origin;
                match page with
                | inl err => k (inl err)
                | inr n => k (inr (n, origin))
                end
            end
        end
    end.

Definition unavailable : daemonReply := refusal "approval request unavailable".

Definition answered (reply : daemonReply) : task := touch ;; Answer (Reply reply).

(** The page cannot be shown: the request is denied and the reason told. *)
Definition abandon (id err : string) : task :=
  act denied <- broker_Deny id;
  answered (match denied with
            | Err _ => unavailable
            | Ok _ => if err =s? ErrNotEnrolled then refusal ErrNotEnrolled else unavailable
            end).

Definition submit (request : Request) : task :=
  act res <- broker_Create request;
  match res with
  | Err Broker.ErrMalformed => answered (refusal "approval request malformed")
  | Err _ => answered unavailable
  | Ok r =>
      StartBrowser (Broker.b_ID r) (fun started =>
        match started with
        | inl err => abandon (Broker.b_ID r) err
        | inr (n, url) =>
            act opened <- host_ok;
            if opened : bool
            then register_page (Broker.b_ID r) n ;; answered (shown (requestStatus (with_url r url)))
            else close_page n ;; abandon (Broker.b_ID r) "open"
        end)
  end.

Definition status (id : string) : task :=
  act res <- broker_Request id;
  match res with
  | Err _ => answered unavailable
  | Ok r => answered (shown (requestStatus r))
  end.

Definition list_pending : task :=
  act res <- broker_Pending;
  match res with
  | Err _ => answered (refusal "approval daemon unavailable")
  | Ok l => answered {| dr_Request := None; dr_Requests := l; dr_Error := "" |}
  end.

Definition present_request (id : string) : task :=
  act res <- broker_Request id;
  match res with
  | Err _ => answered unavailable
  | Ok r =>
      if Broker.b_Status r <>s? "pending" then answered unavailable
      else
        StartBrowser (Broker.b_ID r) (fun started =>
          match started with
          | inl _ => answered unavailable
          | inr (n, _) =>
              act opened <- host_ok;
              if opened : bool then present_page (Broker.b_ID r) n ;; answered empty_reply
              else close_page n ;; answered unavailable
          end)
  end.

(** [handle], from a message that decodes. *)
Definition handle (message : daemonMessage) : task :=
  touch ;;
  if dm_Operation message =s? "submit" then submit (dm_Request message)
  else if dm_Operation message =s? "status" then status (dm_ID message)
  else if dm_Operation message =s? "list" then list_pending
  else if dm_Operation message =s? "present" then present_request (dm_ID message)
  else if dm_Operation message =s? "shutdown" then close_daemon ;; answered empty_reply
  else answered unavailable.

(** [stopWhenIdle], one tick. *)
Definition daemonIdleTimeout : Duration := (10 * Minute)%Z.

Definition is_idle (e : Env) (w : World) : bool * World := ((daemonIdleTimeout <=? e_now e - dw_activity w)%Z, w).

Definition idle_tick : task :=
  act idle <- is_idle;
  if negb idle then Answer Nothing
  else
    act waiting <- broker_hasPending;
    if (waiting : bool) then Answer Nothing else close_daemon ;; Answer Nothing.

(** ** The page *)

(** [Approve] with what the daemon registered. *)
Definition approve_request (id scope : string) (k : bool -> task) : task :=
  act res <- begin_Approve id scope;
  match res with
  | Err _ => k false
  | Ok request =>
      act attribution <- take_attribution id;
      let request := attributed request attribution in
      if Broker.b_Action request =s? ""
      then act done <- broker_complete id "approved"; k (is_ok done)
      else
        act handled <- handler request;
        match handled with
        | Some true => act done <- broker_complete id "completed"; k (is_ok done)
        | _ => broker_complete id "denied" ;; k false
        end
  end.

Definition gone (n : nat) (status : Z) : task := close_page n ;; Answer (Http status).

(** Nothing to verify: another try, while a ceremony can be begun. *)
Definition try_again (n : nat) (origin : string) (req : Request) : task :=
  act again <- reissue n req origin;
  if (again : bool) then Answer (Http 404) else close_page n ;; Answer (Http 404).

Definition get_page (n : nat) (b : Browser) : task :=
  act res <- broker_Request (br_requestID b);
  match res with
  | Err _ => gone n 410
  | Ok req =>
      if Broker.b_Status req <>s? "pending" then gone n 410
      else
        act summary <- review_of req;
        match summary with
        | None => gone n 409
        | Some _ =>
            act encoded <- host_ok;
            if negb encoded then gone n 410
            else if (String.length (Broker.b_ID req) <? 12)%nat then Answer Panic    (* [req.ID[:12]] *)
            else Answer (Http 200)
        end
  end.

Definition post_assertion (n : nat) (b : Browser) (r : HttpRequest) : task :=
  act res <- broker_Request (br_requestID b);
  match res with
  | Err _ => gone n 410
  | Ok req =>
      if Broker.b_Status req <>s? "pending" then gone n 410
      else if negb (HasPrefix (hr_ContentType r) "application/json") then Answer (Http 404)
      else
        match hr_Body r with
        | None => try_again n (br_origin b) req
        | Some assertion =>
            if (assertion =s? "") || (assertion =s? "null") || negb (from_option complete_payload false (payload_Unmarshal assertion))
            then try_again n (br_origin b) req
            else
              act attribution <- finish n assertion;
              match attribution with
              | None => Answer (Http 403)
              | Some (transport, fingerprint) =>
                  SetCompletionAttribution (br_requestID b) transport fingerprint ;;
                  approve_request (br_requestID b) (Broker.b_Scope req) (fun completed =>
                    if negb completed then Answer (Http 410) else gone n 200)
              end
        end
  end.

(** [browserHandler] *)
Definition browserHandler (n : nat) (b : Browser) (r : HttpRequest) : task :=
  if (hr_Method r =s? "GET") && (hr_Path r =s? "/") then get_page n b
  else if (hr_Method r <>s? "POST") || (hr_Path r <>s? "/assertion") then Answer (Http 404)
  else post_assertion n b r.

(** ** Prompt mode *)

(** [ApplyLocal]: no store and no ceremony; what the handler is given. *)
Definition ApplyLocal (read : string -> option ActionGrant.Request) (r : Request) (transport : string) (now : Time)
    (fresh : option string) : option Request :=
  if (transport =s? "") || negb (Broker.validateRequest read r) then None
  else
    let params := if Broker.b_Action r =s? "night-on"
                  then (fun e => {["expires_at" := e]} : gmap string string) <$> canonicalNightExpiry (param (Broker.b_Parameters r) "until") now
                  else Some (Broker.b_Parameters r) in
    match params, fresh with
    | Some params, Some id =>
        let applied := Broker.restore (Broker.durable digest
          {| Broker.b_ID := id; Broker.b_Plane := Broker.b_Plane r; Broker.b_SessionID := Broker.b_SessionID r;
             Broker.b_RepoRoot := Broker.b_RepoRoot r; Broker.b_Host := Broker.b_Host r; Broker.b_Scope := Broker.b_Scope r;
             Broker.b_Reason := Broker.b_Reason r; Broker.b_Action := Broker.b_Action r; Broker.b_Parameters := params;
             Broker.b_IssuedAt := now; Broker.b_ExpiresAt := (now + Broker.requestTTL)%Z; Broker.b_Status := "executing";
             Broker.b_Transport := ""; Broker.b_CredentialFingerprint := ""; Broker.b_ApprovalURL := "" |}) in
        Some {| Broker.b_ID := id; Broker.b_Plane := Broker.b_Plane applied; Broker.b_SessionID := Broker.b_SessionID r;
                Broker.b_RepoRoot := Broker.b_RepoRoot applied; Broker.b_Host := Broker.b_Host applied;
                Broker.b_Scope := Broker.b_Scope applied; Broker.b_Reason := Broker.b_Reason applied;
                Broker.b_Action := Broker.b_Action applied; Broker.b_Parameters := Broker.b_Parameters applied;
                Broker.b_IssuedAt := Broker.b_IssuedAt applied; Broker.b_ExpiresAt := Broker.b_ExpiresAt applied;
                Broker.b_Status := Broker.b_Status applied; Broker.b_Transport := transport;
                Broker.b_CredentialFingerprint := ""; Broker.b_ApprovalURL := "" |}
    | _, _ => None
    end.

(** ** Runs *)

(** The identifiers of ceremonies are fresh. *)
Definition ceremonies (l : list trace_event) : list event :=
  omap (fun ev => match ev with Ceremony ev => Some ev | _ => None end) l.

Definition fresh_ceremony (e : Env) (w : World) : Prop :=
  Forall (fun ev => began_id ev <> Some (e_ceremony e)) (ceremonies (dw_trace w)).

Inductive move : list task * World -> list task * World -> Prop :=
| move_act ts1 ts2 R (op : Env -> World -> R * World) k e w r w' :
    fresh_ceremony e w -> op e w = (r, w') -> move (ts1 ++ Act op k :: ts2, w) (ts1 ++ k r :: ts2, w')
| move_connection message ts w : dw_closed w = false -> move (ts, w) (handle message :: ts, w)
| move_http n b r ts w :
    dw_browsers w !! n = Some b -> br_open b = true -> move (ts, w) (browserHandler n b r :: ts, w)
| move_tick ts w : dw_closed w = false -> move (ts, w) (idle_tick :: ts, w)
| move_store read ev m ts w :                   (* another process; none but this one approves *)
    Broker.step read canonicalNightExpiry digest (dw_requests w) ev m -> (forall id, ev <> Broker.Began id) ->
    move (ts, w) (ts, with_requests w m)
| move_files a ts w :                           (* the credential files *)
    a_ceremonies a = a_ceremonies (dw_auth w) -> move (ts, w) (ts, with_auth w a []).

Inductive run : list task * World -> list task * World -> Prop :=
| run_nil s : run s s
| run_step s s1 s2 : run s s1 -> move s1 s2 -> run s s2.

(** ** What every action keeps *)

Definition filed (w : World) (id : string) (r : Request) : Prop :=
  exists x, dw_requests w !! id = Some x /\ authorized (Broker.restore x) = authorized r.
Definition begun (tr : list trace_event) (cid : string) (r : Request) : Prop :=
  exists nonce origin t s, Ceremony (BeganAssertion cid nonce origin r t s) ∈ tr.
Definition accepted (tr : list trace_event) (cid : string) : Prop :=
  exists response t s c, Ceremony (Asserted cid response t s c) ∈ tr.

Definition approves (ev : trace_event) : option Request :=
  match ev with Ceremony _ => None | Approving r | Executed r => Some r end.
(** An assertion was accepted that was begun for this request. *)
Definition justified (tr : list trace_event) (r : Request) : Prop :=
  exists cid r0, begun tr cid r0 /\ accepted tr cid /\ authorized r0 = authorized r.
(** One was accepted for the request of this identity. *)
Definition cleared (w : World) (id : string) : Prop :=
  exists cid r0, begun (dw_trace w) cid r0 /\ accepted (dw_trace w) cid /\ filed w id r0.

Definition same_page (b b' : Browser) : Prop := br_requestID b' = br_requestID b /\ br_origin b' = br_origin b.

Record later (w w' : World) : Prop := {
  trace_later : exists tr, dw_trace w' = dw_trace w ++ tr;
  filed_later : forall id r, filed w id r -> filed w' id r;
  pages_later : forall n b, dw_browsers w !! n = Some b -> exists b', dw_browsers w' !! n = Some b' /\ same_page b b';
}.

Definition page_ok (w : World) (b : Browser) : Prop :=
  exists r, begun (dw_trace w) (br_ceremony b) r /\ filed w (br_requestID b) r.

Record inv (w : World) : Prop := {
  inv_history : history Marshal Unmarshal sha256 format_time origin_Parse (fun _ _ _ => None) ValidateLogin credentialRecord
                  (ceremonies (dw_trace w)) (dw_auth w);
  inv_pages : forall n b, dw_browsers w !! n = Some b -> page_ok w b;
  inv_approvals : forall t1 ev t2 r, dw_trace w = t1 ++ ev :: t2 -> approves ev = Some r -> justified t1 r;
}.

#[local] Instance later_refl : Reflexive later.
Proof. intros w. split; [exists []; by rewrite app_nil_r|done|by intros n b H; exists b]. Qed.

#[local] Instance later_trans : Transitive later.
Proof.
  intros w1 w2 w3 [[t1 H1] F1 P1] [[t2 H2] F2 P2]. split.
  - exists (t1 ++ t2). by rewrite H2, H1, <- app_assoc.
  - intros id r H. by apply F2, F1.
  - intros n b Hb. apply P1 in Hb as (b1 & Hb1 & Hs1). apply P2 in Hb1 as (b2 & Hb2 & Hs2).
    exists b2. split; [done|]. unfold same_page in *. intuition congruence.
Qed.

Lemma begun_mono tr tr' cid r : begun tr cid r -> begun (tr ++ tr') cid r.
Proof. intros (n & o & t & s & H). exists n, o, t, s. apply elem_of_app. by left. Qed.
Lemma accepted_mono tr tr' cid : accepted tr cid -> accepted (tr ++ tr') cid.
Proof. intros (n & t & s & c & H). exists n, t, s, c. apply elem_of_app. by left. Qed.
Lemma justified_mono tr tr' r : justified tr r -> justified (tr ++ tr') r.
Proof. intros (cid & r0 & Hb & Ha & E). exists cid, r0. eauto using begun_mono, accepted_mono. Qed.
#[local] Hint Resolve begun_mono accepted_mono justified_mono : core.

Lemma justified_later w w' r : later w w' -> justified (dw_trace w) r -> justified (dw_trace w') r.
Proof. intros [[tr ->] _ _]. auto. Qed.
Lemma cleared_later w w' id : later w w' -> cleared w id -> cleared w' id.
Proof. intros [[tr E] F _] (cid & r0 & Hb & Ha & Hf). exists cid, r0. rewrite E. auto. Qed.
Lemma page_ok_later w w' b : later w w' -> page_ok w b -> page_ok w' b.
Proof. intros [[tr E] F _] (r & Hb & Hf). exists r. rewrite E. auto. Qed.

(** Goodness of a task, in whatever world it goes on. *)
Fixpoint good (w : World) (t : task) : Prop :=
  match t with
  | Answer _ => True
  | @Act R op k => forall e w1 r w2, later w w1 -> inv w1 -> fresh_ceremony e w1 -> op e w1 = (r, w2) ->
      inv w2 /\ later w1 w2 /\ good w2 (k r)
  end.

Lemma good_later w w' t : later w w' -> good w t -> good w' t.
Proof. destruct t as [|R op k]; [done|]. intros Hl H e w1 r w2 Hl1. apply H. by transitivity w'. Qed.

(** What an action keeps, and what it tells. *)
Definition keeps {R} (op : Env -> World -> R * World) : Prop :=
  forall e w r w', inv w -> fresh_ceremony e w -> op e w = (r, w') -> inv w' /\ later w w'.

Lemma good_act {R} (op : Env -> World -> R * World) k w :
  keeps op -> (forall r w', later w w' -> good w' (k r)) -> good w (Act op k).
Proof.
  intros Ho Hk e w1 r w2 Hl Hi Hf E. destruct (Ho e w1 r w2 Hi Hf E) as [Hi2 Hl2].
  split_and!; [done|done|]. apply Hk. by transitivity w1.
Qed.

(** The store's records stay, but for their status. *)
Definition kept (m m' : Requests) : Prop :=
  forall id x, m !! id = Some x -> exists s, m' !! id = Some (Broker.set_status x s).

Lemma kept_refl m : kept m m.
Proof. intros id x H. exists (ar_Status x). rewrite H. by destruct x. Qed.

Lemma kept_prune m now : kept m (Broker.prune m now).
Proof.
  intros id x H. exists (ar_Status (Broker.prune_one now x)). rewrite (Broker.prune_lookup _ _ _ _ H). f_equal.
  unfold Broker.prune_one. destruct (_ && _); by destruct x.
Qed.

Lemma kept_status m id x s : m !! id = Some x -> kept m (<[id := Broker.set_status x s]> m).
Proof.
  intros Hx i y Hy. destruct (decide (i = id)) as [->|Hne].
  - rewrite lookup_insert_eq. exists s. by simplify_eq.
  - rewrite lookup_insert_ne by done. by apply kept_refl.
Qed.

#[local] Hint Resolve kept_refl kept_prune kept_status : core.

Lemma kept_step read m ev m' : Broker.step read canonicalNightExpiry digest m ev m' -> kept m m'.
Proof.
  intros H. destruct H as [io m r now later0 fresh res m' H|io m id now res m' H|ran io m now res m' H|io m now res m' H
    |io m now res m' H|io m id scope now r m' H|io m id scope now e m' H|io m id status0 res m' Hf H].
  all: unfold Broker.Lookup, Broker.Pending, Broker.hasPending, Broker.recoverInterruptedActions in H.
  - unfold Broker.Create in H. destruct (Broker.prepare _ _ _ _ _) as [r1|]; [|by simplify_eq].
    apply Broker.transact_inv in H as [[-> _]|(a & _ & H)]; [done|].
    destruct (Broker.maxRequests <=? size _)%nat; [done|]. case_bool_decide as E; [done|]. injection H as _ <-.
    intros id x Hx. destruct (kept_prune m later0 id x Hx) as [s Hs]. exists s. rewrite lookup_insert_ne; [done|].
    intros <-. apply E. by eexists.
  - apply Broker.transact_inv in H as [[-> _]|(a & _ & H)]; [done|]. cbn zeta in H. destruct (Broker.prune m now !! id); by simplify_eq.
  - injection H as _ <-. by destruct (ran && _).
  - apply Broker.transact_inv in H as [[-> _]|(a & _ & H)]; [done|]. by injection H as _ <-.
  - apply Broker.transact_inv in H as [[-> _]|(a & _ & H)]; [done|]. injection H as _ <-. intros id x Hx.
    destruct (kept_prune m now id x Hx) as [s Hs]. unfold Broker.recover_one. rewrite lookup_fmap, Hs. cbn.
    destruct (s =s? "executing"); eauto.
  - apply Broker.begin_approve_inv in H as (x & Ex & _ & _ & _ & _ & ->). eauto.
  - unfold Broker.begin_approve in H. apply Broker.transact_inv in H as [[-> _]|(a & _ & H)]; [done|].
    unfold Broker.pending in H. destruct (m !! id) as [x|] eqn:Ex; [|done]. repeat case_match; try done. simplify_eq. eauto.
  - unfold Broker.transition in H. apply Broker.transact_inv in H as [[-> _]|(a & _ & H)]; [done|].
    destruct (m !! id) as [x|] eqn:Ex; [|done]. destruct (_ && _); [done|]. injection H as _ <-. eauto.
Qed.

Lemma filed_kept w m id r : kept (dw_requests w) m -> filed w id r -> filed (with_requests w m) id r.
Proof. intros Hk (x & Hx & E). destruct (Hk id x Hx) as [s Hs]. eexists. split; [exact Hs|]. by rewrite <- E. Qed.

(** An action that touches neither the authenticators nor what happened. *)
Definition same_browser (b b' : Browser) : Prop := same_page b b' /\ br_ceremony b' = br_ceremony b.

Record quiet (w w' : World) : Prop := {
  quiet_auth : dw_auth w' = dw_auth w;
  quiet_trace : dw_trace w' = dw_trace w;
  quiet_requests : kept (dw_requests w) (dw_requests w');
  quiet_browsers : Forall2 same_browser (dw_browsers w) (dw_browsers w');
}.

#[local] Instance same_browser_trans : Transitive same_browser.
Proof. intros b1 b2 b3 [[H1 H2] H3] [[H4 H5] H6]. repeat split; congruence. Qed.

Lemma same_browser_refl l : Forall2 same_browser l l.
Proof. induction l; repeat constructor; done. Qed.

Lemma same_browser_alter n f l : (forall b, same_browser b (f b)) -> Forall2 same_browser l (alter f n l).
Proof.
  intros Hf. revert n. induction l as [|b l IH]; intros n; [by destruct n|].
  destruct n as [|n]; cbn; constructor; [apply Hf|apply same_browser_refl|by repeat split|apply IH].
Qed.

Lemma same_browser_close l (ns : list (string * nat)) :
  Forall2 same_browser l (foldr (fun kv l => alter closed_page kv.2 l) l ns).
Proof.
  induction ns as [|kv ns IH]; [apply same_browser_refl|]. cbn. etransitivity; [exact IH|]. by apply same_browser_alter.
Qed.
#[local] Hint Resolve same_browser_refl same_browser_close : core.

Lemma filed_requests w w' id r : kept (dw_requests w) (dw_requests w') -> filed w id r -> filed w' id r.
Proof. intros Hk (x & Hx & E). destruct (Hk id x Hx) as [s Hs]. eexists. split; [exact Hs|]. by rewrite <- E. Qed.

Lemma quiet_later w w' : quiet w w' -> later w w'.
Proof.
  intros [_ Ht Hr Hb]. split.
  - exists []. by rewrite Ht, app_nil_r.
  - intros id r. by apply filed_requests.
  - intros n b H. destruct (Forall2_lookup_l _ _ _ _ _ Hb H) as (b' & Hb' & Hs & _). by exists b'.
Qed.

Lemma quiet_inv w w' : quiet w w' -> inv w -> inv w'.
Proof.
  intros Hq [Hh Hp Ha]. pose proof (quiet_later _ _ Hq) as Hl. destruct Hq as [E1 E2 _ Hb]. split.
  - by rewrite E1, E2.
  - intros n b' H. destruct (Forall2_lookup_r _ _ _ _ _ Hb H) as (b & Hb' & [Hid _] & Hc).
    apply Hp, (page_ok_later w w' b Hl) in Hb' as (r & H1 & H2). exists r. by rewrite Hid, Hc.
  - rewrite E2. exact Ha.
Qed.

Lemma quiet_keeps {R} (op : Env -> World -> R * World) :
  (forall e w r w', op e w = (r, w') -> quiet w w') -> keeps op.
Proof. intros H e w r w' Hi _ E. apply H in E. split; [by eapply quiet_inv|by apply quiet_later]. Qed.

Lemma keeps_transaction {R} (f : Env -> Requests -> R * Requests) :
  (forall e m r m', f e m = (r, m') -> kept m m') -> keeps (transaction f).
Proof.
  intros H. apply quiet_keeps. intros e w r w'. unfold transaction. destruct (f e (dw_requests w)) as [r1 m] eqn:E.
  intros [= <- <-]. split; cbn; [done|done|by eapply H|done].
Qed.

Lemma keeps_create r : keeps (broker_Create r).
Proof. apply keeps_transaction. intros e m r1 m' H. eapply kept_step, Broker.step_create. exact H. Qed.
Lemma keeps_request id : keeps (broker_Request id).
Proof. apply keeps_transaction. intros e m r m' H. eapply (kept_step (e_read e)), Broker.step_lookup. exact H. Qed.
Lemma keeps_pending : keeps broker_Pending.
Proof. apply keeps_transaction. intros e m r m' H. eapply (kept_step (e_read e)), Broker.step_pending. exact H. Qed.
Lemma keeps_hasPending : keeps broker_hasPending.
Proof. apply keeps_transaction. intros e m r m' H. eapply (kept_step (e_read e)), Broker.step_has_pending. exact H. Qed.
Lemma keeps_complete id status : Broker.final status = true -> keeps (broker_complete id status).
Proof. intros Hf. apply keeps_transaction. intros e m r m' H. eapply (kept_step (e_read e)), Broker.step_transition; [exact Hf|exact H]. Qed.
Lemma keeps_deny id : keeps (broker_Deny id).
Proof. apply (keeps_complete id "denied"). done. Qed.

Lemma keeps_observe {R} (f : Env -> World -> R) : keeps (fun e w => (f e w, w)).
Proof. apply quiet_keeps. intros e w r w' [= _ <-]. by split. Qed.

Lemma keeps_take id : keeps (take_attribution id).
Proof. apply quiet_keeps. intros e w r w' [= _ <-]. by split. Qed.
Lemma keeps_set id t f : keeps (SetCompletionAttribution id t f).
Proof. apply quiet_keeps. intros e w r w' [= _ <-]. destruct (_ || _); by split. Qed.
Lemma keeps_touch : keeps touch.
Proof. apply quiet_keeps. intros e w r w' [= _ <-]. by split. Qed.
Lemma keeps_close n : keeps (close_page n).
Proof. apply quiet_keeps. intros e w r w' [= _ <-]. split; cbn; [done..|by apply same_browser_alter]. Qed.
Lemma keeps_register id n : keeps (register_page id n).
Proof. apply quiet_keeps. intros e w r w' [= _ <-]. by split. Qed.
Lemma keeps_present id n : keeps (present_page id n).
Proof.
  apply quiet_keeps. intros e w r w' [= _ <-]. destruct (dw_presented w !! id); split; cbn; try done. by apply same_browser_alter.
Qed.
Lemma keeps_close_daemon : keeps close_daemon.
Proof. apply quiet_keeps. intros e w r w' [= _ <-]. destruct (dw_closed w); split; cbn; auto. Qed.

#[local] Hint Resolve keeps_create keeps_request keeps_pending keeps_hasPending keeps_deny keeps_observe keeps_take keeps_set
  keeps_touch keeps_close keeps_register keeps_present keeps_close_daemon : keeps.
#[local] Hint Extern 2 (keeps (broker_complete _ _)) => (apply keeps_complete; reflexivity) : keeps.
#[local] Hint Extern 3 (keeps _) => (apply keeps_observe) : keeps.

(** *** Ceremonies *)

Lemma ceremonies_app l l' : ceremonies (l ++ l') = ceremonies l ++ ceremonies l'.
Proof. apply omap_app. Qed.
Lemma ceremonies_map l : ceremonies (map Ceremony l) = l.
Proof. induction l as [|ev l IH]; [done|]. cbn. by f_equal. Qed.

Lemma approvals_more (tr tr' : list trace_event) :
  (forall t1 ev t2 r, tr = t1 ++ ev :: t2 -> approves ev = Some r -> justified t1 r) ->
  (forall ev r, ev ∈ tr' -> approves ev = Some r -> justified tr r) ->
  forall t1 ev t2 r, tr ++ tr' = t1 ++ ev :: t2 -> approves ev = Some r -> justified t1 r.
Proof.
  intros H H' t1 ev t2 r E Hev. apply app_eq_inv in E as [(l & -> & E)|(l & -> & E)].
  - destruct l as [|x l]; cbn in E.
    + rewrite app_nil_r in H'. apply (H' ev r); [rewrite <- E; by left|done].
    + injection E as -> ->. by eapply H.
  - apply justified_mono, (H' ev r); [|done]. rewrite E. apply elem_of_app. right. by left.
Qed.

Lemma auth_keeps w a l :
  inv w -> history Marshal Unmarshal sha256 format_time origin_Parse (fun _ _ _ => None) ValidateLogin credentialRecord
             (ceremonies (dw_trace w) ++ l) a ->
  inv (with_auth w a l) /\ later w (with_auth w a l).
Proof.
  intros [Hh Hp Ha] H. assert (Hl : later w (with_auth w a l)).
  { split; [by eexists|done|intros n b Hb; by exists b]. }
  split; [|done]. split; cbn.
  - by rewrite ceremonies_app, ceremonies_map.
  - intros n b Hb. eapply page_ok_later; [done|by eapply Hp].
  - apply approvals_more; [done|]. intros ev r Hin Hev. apply list_elem_of_fmap in Hin as (x & -> & _). done.
Qed.

(** What a ceremony that began is for. *)
Lemma begin_keeps r origin e w res w' :
  inv w -> fresh_ceremony e w -> begin_ceremony r origin e w = (res, w') ->
  inv w' /\ later w w' /\ dw_browsers w' = dw_browsers w /\ forall cid, res = inr cid -> begun (dw_trace w') cid r.
Proof.
  intros Hi Hf. unfold begin_ceremony. destruct (BeginAssertion' _ _ _ _ _ _ _) as [[end_ fs] a] eqn:E.
  intros [= <- <-]. destruct (auth_keeps w a (when_done end_ (fun _ => BeganAssertion (e_ceremony e) (e_nonce e) origin r (e_now e) (dw_auth w))) Hi) as [H1 H2].
  { eapply history_begin_assertion; [apply Hi|exact Hf|exact E]. }
  split_and!; [done|done|done|]. intros cid Hc. destruct end_ as [id| |]; try done.
  injection Hc as <-. exists (e_nonce e), origin, (e_now e), (dw_auth w). cbn. apply elem_of_app. right. by left.
Qed.

Lemma good_act_when {R} (P : World -> Prop) (Q : R -> World -> Prop) (op : Env -> World -> R * World) k w :
  (forall w', later w w' -> P w') ->
  (forall e w r w', P w -> inv w -> fresh_ceremony e w -> op e w = (r, w') -> inv w' /\ later w w' /\ Q r w') ->
  (forall r w', later w w' -> Q r w' -> good w' (k r)) -> good w (Act op k).
Proof.
  intros HP Ho Hk e w1 r w2 Hl Hi Hf E. destruct (Ho e w1 r w2 (HP _ Hl) Hi Hf E) as (Hi2 & Hl2 & HQ).
  split_and!; [done|done|]. apply Hk; [by transitivity w1|done].
Qed.

Lemma begin_page_keeps id req origin e w res w' :
  filed w id req -> inv w -> fresh_ceremony e w -> begin_page id req origin e w = (res, w') -> inv w' /\ later w w' /\ True.
Proof.
  intros Hreq Hi Hf. unfold begin_page. destruct (begin_ceremony req origin e w) as [c w1] eqn:E.
  apply begin_keeps in E as (Hi1 & Hl1 & Hb & Hc); [|done..].
  destruct c as [err|cid]; [by intros [= <- <-]; split_and!|]. intros [= <- <-].
  assert (Hl2 : later w1 (with_browsers w1 (dw_browsers w1 ++ [{| br_requestID := id; br_origin := origin; br_ceremony := cid; br_open := true |}]))).
  { split; [exists []; by rewrite app_nil_r|done|]. intros n b Hn. exists b. split; [by apply lookup_app_l_Some|done]. }
  split_and!; [|by transitivity w1|done]. destruct Hi1 as [Hh Hp Ha]. split; [done| |done].
  intros n b. cbn. intros [Hn|[_ Hn]]%lookup_app_Some; [eapply page_ok_later; [exact Hl2|by eapply Hp]|].
  destruct (n - _)%nat; [|done]. injection Hn as <-. exists req. split; [by apply Hc|]. by apply Hl1.
Qed.

Definition has_page (n : nat) (id : string) (w : World) : Prop :=
  exists b, dw_browsers w !! n = Some b /\ br_requestID b = id.

Lemma has_page_later w w' n id : later w w' -> has_page n id w -> has_page n id w'.
Proof. intros [_ _ Hp] (b & Hb & <-). apply Hp in Hb as (b' & Hb' & [? _]). by exists b'. Qed.

Lemma reissue_keeps n id req origin e w res w' :
  filed w id req /\ has_page n id w -> inv w -> fresh_ceremony e w -> reissue n req origin e w = (res, w') ->
  inv w' /\ later w w' /\ True.
Proof.
  intros [Hreq (b0 & Hb0 & Hid)] Hi Hf. unfold reissue. destruct (begin_ceremony req origin e w) as [c w1] eqn:E.
  apply begin_keeps in E as (Hi1 & Hl1 & Hb & Hc); [|done..].
  destruct c as [err|cid]; [by intros [= <- <-]; split_and!|]. intros [= <- <-].
  set (w2 := with_browsers w1 _). assert (Hl2 : later w1 w2).
  { split; [exists []; by rewrite app_nil_r|done|]. intros i b Hn. cbn. destruct (decide (i = n)) as [->|Hne].
    - exists (set_ceremony b cid). by rewrite list_lookup_alter_eq, Hn.
    - exists b. by rewrite list_lookup_alter_ne. }
  split_and!; [|by transitivity w1|done]. destruct Hi1 as [Hh Hp Ha]. split; [done| |done].
  intros i b. cbn. destruct (decide (i = n)) as [->|Hne].
  - rewrite list_lookup_alter_eq, Hb, Hb0. intros [= <-]. exists req. cbn. rewrite Hid.
    split; [by apply Hc|]. by apply Hl2, Hl1.
  - rewrite list_lookup_alter_ne by done. intros Hn. eapply page_ok_later; [exact Hl2|by eapply Hp].
Qed.

Lemma page_finish_keeps n id response e w res w' :
  has_page n id w -> inv w -> fresh_ceremony e w -> finish n response e w = (res, w') ->
  inv w' /\ later w w' /\ (is_Some res -> cleared w' id).
Proof.
  intros (b & Hb & <-) Hi Hf. unfold finish. rewrite Hb.
  destruct (FinishAssertion' _ _ _ _ _) as [[end_ fs] a] eqn:E. intros [= <- <-].
  destruct (auth_keeps w a (when_done end_ (fun c => Asserted (br_ceremony b) response (e_now e) (dw_auth w) c)) Hi) as [H1 H2].
  { eapply history_finish_assertion; [apply Hi|exact E]. }
  split_and!; [done|done|]. intros Hs. destruct end_ as [c| |]; [|by destruct Hs..].
  destruct Hi as [_ Hp _]. destruct (Hp _ _ Hb) as (r0 & Hbeg & Hfil). exists (br_ceremony b), r0.
  split_and!; [by apply begun_mono| |by apply H2]. exists response, (e_now e), (dw_auth w), c. cbn. apply elem_of_app. right. by left.
Qed.

Lemma event_keeps w ev r :
  inv w -> approves ev = Some r -> justified (dw_trace w) r -> inv (with_event w ev) /\ later w (with_event w ev).
Proof.
  intros [Hh Hp Ha] Hev Hj. assert (Hl : later w (with_event w ev)).
  { split; [by eexists|done|intros n b Hb; by exists b]. }
  split; [|done]. split; cbn.
  - rewrite ceremonies_app. destruct ev; [done|by rewrite app_nil_r..].
  - intros n b Hb. eapply page_ok_later; [done|by eapply Hp].
  - apply approvals_more; [done|]. intros ev' r' ->%list_elem_of_singleton H. congruence.
Qed.

Lemma begin_Approve_keeps id scope e w res w' :
  cleared w id -> inv w -> fresh_ceremony e w -> begin_Approve id scope e w = (res, w') ->
  inv w' /\ later w w' /\ (forall r, res = Ok r -> justified (dw_trace w') r).
Proof.
  intros (cid & r0 & Hb & Ha & Hfil) Hi _. unfold begin_Approve.
  destruct (Broker.begin_approve _ _ _ _ _) as [[r|err] m] eqn:E.
  - intros [= <- <-]. assert (Hq : quiet w (with_requests w m)).
    { split; cbn; [done..| |done]. eapply (kept_step (e_read e)), Broker.step_begin, E. }
    apply Broker.begin_approve_inv in E as (x & Hx & _ & _ & _ & -> & _).
    assert (Hj : justified (dw_trace w) (Broker.restore (Broker.set_status x "executing"))).
    { exists cid, r0. split_and!; [done..|]. destruct Hfil as (x' & Hx' & <-). by simplify_eq. }
    destruct (event_keeps (with_requests w m) (Approving (Broker.restore (Broker.set_status x "executing"))) _
      (quiet_inv _ _ Hq Hi) eq_refl Hj) as [H1 H2].
    split_and!; [done|etransitivity; [by apply quiet_later|done]|]. intros r [= <-]. by apply justified_mono.
  - intros [= <- <-]. assert (Hq : quiet w (with_requests w m)).
    { split; cbn; [done..| |done]. eapply (kept_step (e_read e)), Broker.step_begin_fails, E. }
    split_and!; [by eapply quiet_inv|by apply quiet_later|done].
Qed.

Lemma handler_keeps r e w res w' :
  justified (dw_trace w) r -> inv w -> fresh_ceremony e w -> handler r e w = (res, w') -> inv w' /\ later w w' /\ True.
Proof.
  intros Hj Hi _ [= <- <-]. destruct (e_handled e); [|by split_and!].
  destruct (event_keeps w (Executed r) r Hi eq_refl Hj). by split_and!.
Qed.

Lemma request_files id e w res w' :
  True -> inv w -> fresh_ceremony e w -> broker_Request id e w = (res, w') ->
  inv w' /\ later w w' /\ (forall r, res = Ok r -> filed w' id r).
Proof.
  intros _ Hi Hf H. destruct (keeps_request id e w res w' Hi Hf H) as [H1 H2]. split_and!; [done..|].
  intros r ->. unfold broker_Request, transaction in H. destruct (Broker.Lookup _ _ _ _) as [r1 m] eqn:E. injection H as -> <-.
  unfold Broker.Lookup in E. apply Broker.transact_inv in E as [[_ E]|(a & [Ha|Ha] & E)]; [by destruct (E r)| |done].
  injection Ha as <-. cbn zeta in E. destruct (Broker.prune _ _ !! id) as [x|] eqn:Ex; [|done]. injection E as <- <-. by exists x.
Qed.

(** *** Tasks *)

Lemma good_request id k w :
  (forall res w', later w w' -> (forall r, res = Ok r -> filed w' id r) -> good w' (k res)) -> good w (Act (broker_Request id) k).
Proof. intros Hk. eapply (good_act_when (fun _ => True)); [done|apply request_files|done]. Qed.

Ltac plain := apply good_act; [solve [eauto with keeps]|intros ? ? ?].

Lemma answered_good reply w : good w (answered reply).
Proof. by plain. Qed.
#[local] Hint Resolve answered_good : core.

Lemma StartBrowser_good id k w : (forall res w', later w w' -> good w' (k res)) -> good w (StartBrowser id k).
Proof.
  intros Hk. unfold StartBrowser. destruct (id =s? ""); [by apply Hk|]. apply good_request. intros [req|err] w1 Hl1 Hfil; [|by apply Hk].
  specialize (Hfil req eq_refl). apply good_act; [by apply keeps_observe|]. intros summary w2 Hl2.
  destruct summary as [summary|]; [|apply Hk; by transitivity w1].
  apply good_act; [by apply keeps_observe|]. intros port w3 Hl3. assert (H13 : later w1 w3) by by transitivity w2.
  destruct port as [port|]; [|apply Hk; by transitivity w1].
  eapply (good_act_when (fun w => filed w id req)); [|intros; by eapply begin_page_keeps|].
  - intros w4 Hl4. apply Hl4, H13, Hfil.
  - intros page w4 Hl4 _. assert (later w w4) by (transitivity w1; [done|by transitivity w3]).
    destruct page as [err|n]; by apply Hk.
Qed.

Lemma abandon_good id err w : good w (abandon id err).
Proof. unfold abandon. by plain. Qed.
#[local] Hint Resolve abandon_good : core.

Lemma submit_good r w : good w (submit r).
Proof.
  unfold submit. plain. match goal with |- good _ (match ?res with Ok _ => _ | Err _ => _ end) => destruct res as [req|[]]; try done end.
  apply StartBrowser_good. intros [err|[n url]] w2 _; [done|]. plain. case_match; plain; done.
Qed.

Lemma present_good id w : good w (present_request id).
Proof.
  unfold present_request. plain. case_match; [|done]. case_match; [done|].
  apply StartBrowser_good. intros [err|[n url]] w2 _; [done|]. plain. case_match; plain; done.
Qed.

Lemma handle_good message w : good w (handle message).
Proof.
  unfold handle. plain. case_match; [apply submit_good|]. case_match; [unfold status; plain; case_match; done|].
  case_match; [unfold list_pending; plain; case_match; done|]. case_match; [apply present_good|].
  case_match; [by plain|done].
Qed.

Lemma idle_tick_good w : good w idle_tick.
Proof. unfold idle_tick. plain. case_match; [done|]. plain. case_match; [done|]. by plain. Qed.

Lemma attributed_authorized r a : authorized (attributed r a) = authorized r.
Proof. by destruct a as [[transport fingerprint]|]. Qed.

Lemma justified_attributed tr r a : justified tr r -> justified tr (attributed r a).
Proof. intros (cid & r0 & Hb & Ha & E). exists cid, r0. by rewrite attributed_authorized. Qed.

Lemma Approve_good id scope k w :
  cleared w id -> (forall ok w', good w' (k ok)) -> good w (approve_request id scope k).
Proof.
  intros Hc Hk. unfold approve_request. eapply (good_act_when (fun w => cleared w id)).
  { intros w' Hl. by eapply cleared_later. }
  { intros. by eapply begin_Approve_keeps. }
  intros [req|err] w1 _ Hj; [|done]. specialize (Hj req eq_refl). plain.
  match goal with H : later w1 ?w2 |- _ => apply (justified_later _ _ _ H), (justified_attributed _ _ r) in Hj end.
  case_match; [plain; done|]. eapply (good_act_when (fun w => justified (dw_trace w) (attributed req r))).
  { intros w3 Hl. by eapply justified_later. }
  { intros. by eapply handler_keeps. }
  intros handled w3 _ _. destruct handled as [[]|]; plain; done.
Qed.

Lemma gone_good n code w : good w (gone n code).
Proof. unfold gone. by plain. Qed.
#[local] Hint Resolve gone_good : core.

Lemma try_again_good n id origin req w : filed w id req -> has_page n id w -> good w (try_again n origin req).
Proof.
  intros Hreq Hn. unfold try_again. eapply (good_act_when (fun w => filed w id req /\ has_page n id w)).
  - intros w' Hl. split; [by apply Hl|by eapply has_page_later].
  - intros. by eapply reissue_keeps.
  - intros [] w' _ _; [done|by plain].
Qed.

Lemma post_good n b r w : has_page n (br_requestID b) w -> good w (post_assertion n b r).
Proof.
  intros Hn. unfold post_assertion. apply good_request. intros [req|err] w1 Hl1 Hfil; [|done]. specialize (Hfil req eq_refl).
  assert (Hn1 : has_page n (br_requestID b) w1) by by eapply has_page_later.
  case_match; [done|]. case_match; [done|]. destruct (hr_Body r) as [assertion|]; [|by eapply try_again_good].
  case_match; [by eapply try_again_good|]. eapply (good_act_when (has_page n (br_requestID b))).
  - intros w2 Hl. by eapply has_page_later.
  - intros. by eapply page_finish_keeps.
  - intros [[transport fingerprint]|] w2 _ Hc; [|done].
    specialize (Hc (ltac:(by eexists) : is_Some (Some (transport, fingerprint)))). plain.
    apply Approve_good; [by eapply cleared_later|]. intros [] w4; [apply gone_good|done].
Qed.

Lemma browserHandler_good n b r w : dw_browsers w !! n = Some b -> good w (browserHandler n b r).
Proof.
  intros Hb. unfold browserHandler. case_match.
  - unfold get_page. plain. case_match; [|done]. case_match; [done|]. plain. case_match; [|done]. plain.
    case_match; [done|]. by case_match.
  - case_match; [done|]. apply post_good. by exists b.
Qed.

(** *** Runs *)

Definition initial (s : list task * World) : Prop :=
  s.1 = [] /\ dw_browsers s.2 = [] /\ dw_trace s.2 = [] /\ a_ceremonies (dw_auth s.2) = ∅.

Lemma move_keeps s s' :
  move s s' -> inv s.2 /\ Forall (good s.2) s.1 -> inv s'.2 /\ Forall (good s'.2) s'.1.
Proof.
  intros Hm [Hi Hg]. assert (Hlift : forall w w' ts, later w w' -> Forall (good w) ts -> Forall (good w') ts).
  { intros w w' ts Hl H. eapply Forall_impl; [exact H|]. intros t. by apply good_later. }
  destruct Hm as [ts1 ts2 R op k e w r w' Hf E|message ts w Hc|n b req ts w Hb Ho|ts w Hc|read ev m ts w Hs Hne|a ts w Ha]; cbn in *.
  - apply Forall_app in Hg as [Hg1 Hg2]. apply Forall_cons in Hg2 as [Hg Hg2].
    destruct (Hg e w r w' (later_refl w) Hi Hf E) as (Hi' & Hl & Hk). split; [done|].
    apply Forall_app. split; [by eapply Hlift|]. constructor; [done|by eapply Hlift].
  - split; [done|]. constructor; [apply handle_good|done].
  - split; [done|]. constructor; [by apply browserHandler_good|done].
  - split; [done|]. constructor; [apply idle_tick_good|done].
  - assert (Hq : quiet w (with_requests w m)) by (split; cbn; [done..|by eapply kept_step|done]).
    split; [by eapply quiet_inv|]. eapply Hlift; [by apply quiet_later|done].
  - destruct (auth_keeps w a [] Hi) as [Hi' Hl]; [rewrite app_nil_r; eapply history_files; [apply Hi|done]|].
    split; [done|by eapply Hlift].
Qed.

Lemma run_keeps s s' : run s s' -> initial s -> inv s'.2 /\ Forall (good s'.2) s'.1.
Proof.
  induction 1 as [s|s s1 s2 _ IH Hm]; intros H0; [|eapply move_keeps; [done|by apply IH]].
  destruct s as [ts w]. destruct H0 as (-> & Hb & Ht & Ha). cbn in *. split; [|constructor]. split; cbn.
  - rewrite Ht. by apply history_new.
  - intros n b. by rewrite Hb.
  - rewrite Ht. by intros [] ev t2 r.
Qed.

(** A ceremony is begun once. *)
Lemma begun_once tr s e1 e2 id :
  history Marshal Unmarshal sha256 format_time origin_Parse (fun _ _ _ => None) ValidateLogin credentialRecord tr s ->
  e1 ∈ tr -> e2 ∈ tr -> began_id e1 = Some id -> began_id e2 = Some id -> e1 = e2.
Proof.
  assert (Hadd : forall (tr l : list event) new, (l = [] \/ l = [new]) ->
    (e1 ∈ tr -> e2 ∈ tr -> began_id e1 = Some id -> began_id e2 = Some id -> e1 = e2) ->
    (began_id new = None \/ Forall (fun ev => began_id ev <> began_id new) tr) ->
    e1 ∈ tr ++ l -> e2 ∈ tr ++ l -> began_id e1 = Some id -> began_id e2 = Some id -> e1 = e2).
  { intros l0 l new [->| ->] IH Hf; [by rewrite app_nil_r|]. rewrite Forall_forall in Hf.
    intros H1 H2 E1 E2. apply elem_of_app in H1, H2. rewrite !list_elem_of_singleton in H1, H2.
    assert (Hnew : forall e, e ∈ l0 -> began_id e = Some id -> began_id new <> Some id).
    { intros e He Ee En. destruct Hf as [Hf|Hf]; [congruence|]. apply (Hf e He). congruence. }
    destruct H1 as [H1|H1], H2 as [H2|H2]; [by apply IH|exfalso; apply (Hnew e1); congruence|exfalso; apply (Hnew e2); congruence|congruence]. }
  induction 1 as [| |? ? ? ? ? ? ? ? e ? ? ? IH Hfresh|? ? ? ? ? ? ? ? e ? ? ? IH Hfresh|? ? ? ? ? ? e ? ? ? IH|? ? ? ? ? ? e ? ? ? IH];
    [by intros ?%elem_of_nil|done|..]; (destruct e; cbn; [|rewrite app_nil_r; exact IH..]);
    (eapply Hadd; [by right|exact IH|]); [by right|by right|by left|by left].
Qed.

(** The holder of an authenticator that was enrolled when the page was made has signed,
    in time, a challenge with the digest of this request. *)
Definition signed_for (before : list trace_event) (r : Request) : Prop :=
  exists t1 t2 cid nonce origin r0 t0 s0 response now s record user wc,
    before = t1 ++ Ceremony (Asserted cid response now s record) :: t2 /\
    Ceremony (BeganAssertion cid nonce origin r0 t0 s0) ∈ t1 /\ authorized r0 = authorized r /\
    Before t0 (Broker.b_ExpiresAt r) = true /\ After now (Broker.b_ExpiresAt r) = false /\
    a_credentials s0 ≫= decoded Unmarshal = Some user /\
    ValidateLogin origin user (assertion_challenge sha256 format_time nonce r) response = Some wc /\
    credentialRecord wc = Some record.

Lemma ceremonies_elem ev l : ev ∈ ceremonies l <-> Ceremony ev ∈ l.
Proof.
  unfold ceremonies. rewrite list_elem_of_omap. split.
  - intros (x & Hx & E). destruct x; try done. by injection E as ->.
  - intros H. by exists (Ceremony ev).
Qed.

Lemma authorized_challenge nonce r0 r :
  authorized r0 = authorized r ->
  assertion_challenge sha256 format_time nonce r0 = assertion_challenge sha256 format_time nonce r /\
  Broker.b_ExpiresAt r0 = Broker.b_ExpiresAt r.
Proof. unfold authorized, assertion_challenge, BindingFor. intros [= -> -> -> -> -> -> -> ->]. done. Qed.

(** C5: however connections, pages, ticks and other processes interleave, every approval the
    daemon begins and every action it executes was signed: an assertion was accepted
    before, in a ceremony begun for a request with the same identity, action, parameters,
    repository, host, scope and times, over a challenge that holds its digest.  No message
    on the socket approves anything. *)
Theorem executed_was_signed s s' older ev newer r :
  initial s -> run s s' -> dw_trace s'.2 = older ++ ev :: newer -> approves ev = Some r -> signed_for older r.
Proof.
  intros H0 Hr Ht Hev. destruct (run_keeps s s' Hr H0) as [[Hh _ Ha] _].
  destruct (Ha older ev newer r Ht Hev) as (cid & r0 & (n0 & o0 & t0 & s0 & Hb) & (response & now & s1 & record & Hacc) & E).
  apply list_elem_of_split in Hacc as (t1 & t2 & ->). rewrite Ht in Hh.
  assert (He : earned Unmarshal sha256 format_time origin_Parse ValidateLogin credentialRecord (ceremonies t1) cid response now s1 record).
  { eapply (asserted_earned _ _ _ _ _ _ _ _ (history_consistent _ _ _ _ _ _ _ _ _ _ Hh)
      (ceremonies t1) (ceremonies (t2 ++ ev :: newer))). by rewrite <- app_assoc, ceremonies_app. }
  destruct He as (nonce & origin & req & began & s2 & user & wc & Hin & _ & Hbe & Haf & _ & _ & _ & Hu & Hv & Hrec).
  assert (Heq : BeganAssertion cid nonce origin req began s2 = BeganAssertion cid n0 o0 r0 t0 s0).
  { eapply begun_once; [exact Hh| | |done|done]; rewrite !ceremonies_app.
    - apply elem_of_app. left. apply elem_of_app. by left.
    - apply elem_of_app. left. rewrite <- ceremonies_app. by apply ceremonies_elem. }
  injection Heq as -> -> -> -> ->. destruct (authorized_challenge n0 _ _ E) as [Hc Hx]. rewrite Hc in Hv. rewrite Hx in Hbe, Haf.
  exists t1, t2, cid, n0, o0, r0, t0, s0, response, now, s1, record, user, wc. split_and!; try done. by apply ceremonies_elem.
Qed.

End Daemon.

(** ** A concrete run *)

Section Drive.

Context (Marshal : list Credential -> string) (Unmarshal : string -> option (list Credential)).
Context (sha256 : string -> string) (fingerprint_of : Credential -> string) (format_time : Time -> string).
Context (origin_Parse : string -> option Origin).
Context (ValidateLogin : string -> list Credential -> string -> string -> option WebAuthnCredential).
Context (credentialRecord : WebAuthnCredential -> option Credential).
Context (canonicalNightExpiry : string -> Time -> option string) (digest : string -> string).
Context (payload_Unmarshal : string -> option AssertionPayload).

#[local] Notation run' := (run Marshal Unmarshal sha256 fingerprint_of format_time origin_Parse ValidateLogin credentialRecord
  canonicalNightExpiry digest payload_Unmarshal).

Definition is_fresh (e : Env) (w : World) : bool :=
  forallb (fun ev => match began_id ev with Some id => id <>s? e_ceremony e | None => true end) (ceremonies (dw_trace w)).

Lemma is_fresh_fresh e w : is_fresh e w = true -> fresh_ceremony e w.
Proof.
  unfold is_fresh, fresh_ceremony. rewrite forallb_forall. intros H. apply Forall_forall. intros ev Hev E.
  apply list_elem_of_In, H in Hev. rewrite E in Hev. by rewrite String.eqb_refl in Hev.
Qed.

(** One task with the answers of the host to its actions, one after the other. *)
Fixpoint drive (es : list Env) (t : task) (w : World) : option (task * World) :=
  match es, t with
  | [], _ => Some (t, w)
  | e :: es, @Act R op k => if is_fresh e w then let '(r, w') := op e w in drive es (k r) w' else None
  | _ :: _, Answer _ => None
  end.

Lemma drive_run es t w t' w' s ts : drive es t w = Some (t', w') -> run' s (t :: ts, w) -> run' s (t' :: ts, w').
Proof.
  revert t w. induction es as [|e es IH]; intros t w; [by intros [= <- <-]|]. destruct t as [|R op k]; [done|]. cbn.
  destruct (is_fresh e w) eqn:Ef; [|done]. destruct (op e w) as [r w1] eqn:E. intros Hd Hr. eapply IH; [exact Hd|].
  eapply run_step; [exact Hr|]. by apply (move_act _ _ _ _ _ _ _ _ _ _ _ [] ts R op k e w r w1); [apply is_fresh_fresh|].
Qed.

End Drive.

Definition demo_env (ceremony : string) : Env :=
  {| e_io := Broker.Persisted; e_reached := true; e_now := 1%Z; e_later := 1%Z; e_fresh := Some "r1"; e_read := fun _ => None;
     e_port := Some "4711"; e_ceremony := ceremony; e_nonce := "n"; e_faults := []; e_ok := true; e_handled := Some true |}.

Definition demo_filing (id : string) : Request :=
  {| Broker.b_ID := id; Broker.b_Plane := "claude"; Broker.b_SessionID := "s1"; Broker.b_RepoRoot := "/w/repo"; Broker.b_Host := "";
     Broker.b_Scope := Broker.RepoScope; Broker.b_Reason := "why"; Broker.b_Action := "web-host-grant";
     Broker.b_Parameters := <["hosts" := "go.dev"]> {["scope" := "repo"]}; Broker.b_IssuedAt := 0%Z; Broker.b_ExpiresAt := 9%Z;
     Broker.b_Status := ""; Broker.b_Transport := ""; Broker.b_CredentialFingerprint := ""; Broker.b_ApprovalURL := "" |}.

Definition demo_daemon : World :=
  {| dw_requests := ∅; dw_auth := demo_store; dw_browsers := []; dw_presented := ∅; dw_attribution := ∅;
     dw_activity := 0%Z; dw_closed := false; dw_trace := [] |}.

Definition demo_payload (body : string) : option AssertionPayload :=
  Some {| ap_ID := "a2V5"; ap_RawID := "a2V5"; ap_Type := "public-key"; ap_AuthenticatorData := "d"; ap_ClientDataJSON := body; ap_Signature := "s" |}.

#[local] Notation demo_handle :=
  (handle demo_unmarshal (fun s => s) demo_time demo_origin (fun _ _ => None) (fun s => s)).
#[local] Notation demo_page :=
  (browserHandler demo_marshal demo_unmarshal (fun s => s) c_ID demo_time demo_origin demo_login demo_record demo_payload).

Definition demo_message (operation id : string) : daemonMessage :=
  {| dm_Operation := operation; dm_Request := demo_filing id; dm_ID := id |}.

Definition world_of (o : option (task * World)) : World := match o with Some (_, w) => w | None => demo_daemon end.
Definition answer_of (o : option (task * World)) : option outcome_of := match o with Some (Answer a, _) => Some a | _ => None end.

Definition demo_submitted (id : string) : option (task * World) :=
  drive (replicate 6 (demo_env "c1") ++ replicate 3 (demo_env "c2")) (demo_handle (demo_message "submit" id)) demo_daemon.

Definition demo_browser (w : World) : Browser :=
  default {| br_requestID := ""; br_origin := ""; br_ceremony := ""; br_open := false |} (dw_browsers w !! 0%nat).

Definition demo_signature (id : string) : string :=
  assertion_challenge (fun s => s) demo_time "n"
    (match Broker.Lookup Broker.Persisted (dw_requests (world_of (demo_submitted id))) id 1%Z with (Ok r, _) => r | _ => demo_filing id end).

(** What the page's script posts, and the page itself. *)
Definition demo_post (id : string) : HttpRequest :=
  {| hr_Method := "POST"; hr_Path := "/assertion"; hr_ContentType := "application/json"; hr_Body := Some (demo_signature id) |}.
Definition demo_get : HttpRequest := {| hr_Method := "GET"; hr_Path := "/"; hr_ContentType := ""; hr_Body := None |}.

Definition demo_approved : option (task * World) :=
  let w := world_of (demo_submitted "r1") in
  drive (replicate 8 (demo_env "c2")) (demo_page 0%nat (demo_browser w) (demo_post "r1")) w.

Definition executed (l : list trace_event) : list string :=
  omap (fun ev => match ev with Executed r => Some (Broker.b_Action r +:+ " " +:+ param (Broker.b_Parameters r) "hosts" +:+ " " +:+ Broker.b_Transport r) | _ => None end) l.

Example demo_completes :
  answer_of demo_approved = Some (Http 200) /\ executed (dw_trace (world_of demo_approved)) = ["web-host-grant go.dev webauthn"].
Proof. by vm_compute. Qed.

Definition demo_trace : list trace_event := dw_trace (world_of demo_approved).
Definition demo_executed : Request :=
  match demo_trace !! 3%nat with Some (Executed r) => r | _ => demo_filing "" end.

#[local] Notation demo_run :=
  (run demo_marshal demo_unmarshal (fun s => s) c_ID demo_time demo_origin demo_login demo_record (fun _ _ => None) (fun s => s) demo_payload).

Lemma executed_was_signed_witness :
  signed_for demo_unmarshal (fun s => s) demo_time demo_login demo_record (take 3 demo_trace) demo_executed /\
  Broker.b_Action demo_executed = "web-host-grant".
Proof.
  split; [|vm_compute; reflexivity].
  assert (H1 : demo_run ([], demo_daemon)
    ([Answer (match answer_of (demo_submitted "r1") with Some a => a | None => Nothing end)], world_of (demo_submitted "r1"))).
  { eapply drive_run with (es := replicate 6 (demo_env "c1") ++ replicate 3 (demo_env "c2"))
      (t := demo_handle (demo_message "submit" "r1")) (w := demo_daemon); [vm_compute; reflexivity|].
    eapply run_step; [apply run_nil|]. apply move_connection. reflexivity. }
  assert (H2 : demo_run ([], demo_daemon)
    (Answer (match answer_of demo_approved with Some a => a | None => Nothing end) ::
     [Answer (match answer_of (demo_submitted "r1") with Some a => a | None => Nothing end)], world_of demo_approved)).
  { eapply drive_run with (es := replicate 8 (demo_env "c2"))
      (t := demo_page 0%nat (demo_browser (world_of (demo_submitted "r1"))) (demo_post "r1")) (w := world_of (demo_submitted "r1"));
      [vm_compute; reflexivity|].
    eapply run_step; [exact H1|]. apply move_http; vm_compute; reflexivity. }
  refine (executed_was_signed demo_marshal demo_unmarshal (fun s => s) c_ID demo_time demo_origin demo_login demo_record
    (fun _ _ => None) (fun s => s) demo_payload _ _ (take 3 demo_trace) (Executed demo_executed) [] demo_executed _ H2 _ _).
  - repeat split.
  - vm_compute. reflexivity.
  - reflexivity.
Defined.

(** A caller chooses the identity of what it files, and the page cuts the first twelve
    bytes off it: a request with a shorter one is filed and can never be shown. *)
Example short_identity_panics :
  let w := world_of (demo_submitted "r1") in
  answer_of (drive (replicate 3 (demo_env "c2")) (demo_page 0%nat (demo_browser w) demo_get) w) = Some Panic.
Proof. by vm_compute. Qed.
