(* ===== verification/ActionAudit.v ===== *)
(** * Auditing approved actions ([cmd/guardrail/action_audit.go], [egress.go], [web_research.go])

    An approved action leaves a requested record before it changes anything and a
    completed record once it has, with a journal between them that survives a crash.
    The action's own state is abstract; the journals are a map by file name, the audit
    log a list that only grows. *)

From Stdlib Require Import ZArith Lia Bool.
From S2P Require Import Prelude GoStrings Policy Merge Broker Durable.

Open Scope prog_scope.

(** The fields of [audit.Record] that these records fill. *)
Record ActionRecord := {
  ar_Plane : string;
  ar_Decision : string;
  ar_OperatorAction : string;
  ar_RequestID : string;
  ar_Transport : string;
  ar_CredentialFingerprint : string;
}.

Record actionAuditJournal := { aa_Record : ActionRecord; aa_Mutated : bool }.

Definition actionAuditRecord (r : Broker.Request) (decision : string) : ActionRecord :=
  {| ar_Plane := Broker.b_Plane r; ar_Decision := decision; ar_OperatorAction := Broker.b_Action r;
     ar_RequestID := Broker.b_ID r; ar_Transport := Broker.b_Transport r;
     ar_CredentialFingerprint := Broker.b_CredentialFingerprint r |}.

(** The hosts of the request; [None] where one of them is no host. *)
Definition request_hosts (r : Broker.Request) : option (list string) :=
  let hosts := Split (default "" (Broker.b_Parameters r !! "hosts")) "," in
  if forallb ValidateWebHost hosts then Some hosts else None.

(** What [executeWebHostApproval] accepts: the hosts, whether they are granted, and whether
    for every repository. *)
Definition web_host_action (is_abs : string -> bool) (r : Broker.Request) : option (list string * bool * bool) :=
  if in_list (Broker.b_Action r) ["web-host-grant"; "web-host-revoke"] && is_abs (Broker.b_RepoRoot r) &&
     in_list (Broker.b_Scope r) [Broker.RepoScope; Broker.GlobalScope]
  then (fun hosts => (hosts, Broker.b_Action r =s? "web-host-grant", Broker.b_Scope r =s? Broker.GlobalScope)) <$> request_hosts r
  else None.

(** What [executeWebResearchApproval] accepts. *)
Definition web_research_action (r : Broker.Request) : option string :=
  let mode := default "" (Broker.b_Parameters r !! "enforcement") in
  if (Broker.b_Action r =s? "web-research-set") && (Broker.b_Plane r =s? "operator") &&
     (Broker.b_Scope r =s? Broker.GlobalScope) && (size (Broker.b_Parameters r) =? 1)%nat && in_list mode ["on"; "off"]
  then Some mode else None.

Lemma append_right s t x : s +:+ x = t +:+ x -> s = t.
Proof.
  intros H. assert (Hl : String.length s = String.length t).
  { apply (f_equal String.length) in H. rewrite !length_append in H. lia. }
  revert t H Hl. induction s as [|c s IH]; intros [|d t]; [done..|]. cbn. intros [= -> H] [= Hl]. f_equal. by apply IH.
Qed.

Section Audit.

Context {R : Type}.

Record AuditWorld := {
  aw_journals : gmap string (option actionAuditJournal);    (* [None] does not decode *)
  aw_log : list ActionRecord;
  aw_rest : R;
}.

Definition with_action_journals (w : AuditWorld) (js : gmap string (option actionAuditJournal)) : AuditWorld :=
  {| aw_journals := js; aw_log := aw_log w; aw_rest := aw_rest w |}.
Definition with_record (w : AuditWorld) (r : ActionRecord) : AuditWorld :=
  {| aw_journals := aw_journals w; aw_log := aw_log w ++ [r]; aw_rest := aw_rest w |}.
Definition with_rest (w : AuditWorld) (rest : R) : AuditWorld :=
  {| aw_journals := aw_journals w; aw_log := aw_log w; aw_rest := rest |}.

(** The action on its own state. *)
Definition on_rest {A} (m : prog R A) : prog AuditWorld A :=
  fun fs w => let '(e, fs, rest) := m fs (aw_rest w) in (e, fs, with_rest w rest).

Context (sha256 : string -> string).

Definition actionAuditPath (id : string) : prog AuditWorld string := check ;; pret (sha256 id +:+ ".json").

(** [audit.Write]: the line may be appended and an error still be reported. *)
Definition writeActionAudit (r : ActionRecord) : prog AuditWorld unit := change (fun w => with_record w r).

Definition writeActionAuditJournal (path : string) (j : actionAuditJournal) : prog AuditWorld unit :=
  writeSynced (fun w => with_action_journals w (<[path := Some j]> (aw_journals w))).

(** [loadActionAudit]: [None] is a file that is not there. *)
Definition loadActionAudit (path : string) : prog AuditWorld (option actionAuditJournal) :=
  do slot <- look (fun w => Some (aw_journals w !! path));
  match slot with
  | None => pret None
  | Some None => perr
  | Some (Some j) =>
      if (ar_OperatorAction (aa_Record j) =s? "") || (ar_Decision (aa_Record j) <>s? "completed") then perr else pret (Some j)
  end.

Definition finishActionAudit (path : string) (j : actionAuditJournal) : prog AuditWorld unit :=
  writeActionAudit (aa_Record j) ;;
  change (fun w => with_action_journals w (delete path (aw_journals w))).

(** The entries of the directory but [skip]; one that is gone belongs to a transaction
    that is still running. *)
Fixpoint recover_entries (skip : option string) (names : list string) : prog AuditWorld unit :=
  match names with
  | [] => pret tt
  | path :: names =>
      if bool_decide (skip = Some path) then recover_entries skip names
      else
        do j <- loadActionAudit path;
        match j with
        | Some j => if aa_Mutated j then finishActionAudit path j ;; recover_entries skip names else recover_entries skip names
        | None => recover_entries skip names
        end
  end.

Definition recoverActionAuditsExcept (skip : option string) : prog AuditWorld unit :=
  check ;;
  do names <- look (fun w => Some (sort_strings (map_to_list (aw_journals w)).*1));
  recover_entries skip names.

Definition recoverActionAudits : prog AuditWorld unit := recoverActionAuditsExcept None.

(** [true]: a recovered mutation is not applied again. *)
Definition startActionAudit (r : Broker.Request) : prog AuditWorld bool :=
  do path <- actionAuditPath (Broker.b_ID r);
  recoverActionAuditsExcept (Some path) ;;
  do j <- loadActionAudit path;
  match j with
  | Some j => if aa_Mutated j then attempt (finishActionAudit path j) ;; pret true else pret false
  | None =>
      writeActionAudit (actionAuditRecord r "requested") ;;
      writeActionAuditJournal path {| aa_Record := actionAuditRecord r "completed"; aa_Mutated := false |} ;;
      pret false
  end.

Definition completeActionAudit (r : Broker.Request) : prog AuditWorld unit :=
  do path <- actionAuditPath (Broker.b_ID r);
  do j <- loadActionAudit path;
  match j with
  | None => perr
  | Some j =>
      let j := {| aa_Record := aa_Record j; aa_Mutated := true |} in
      writeActionAuditJournal path j ;;
      finishActionAudit path j
  end.

(** An executor of approved actions, from its checks on. *)
Definition execute_audited (mutate : prog R unit) (r : Broker.Request) : prog AuditWorld unit :=
  do already <- startActionAudit r;
  if (already : bool) then pret tt
  else on_rest mutate ;; attempt (completeActionAudit r) ;; pret tt.

(** ** The log accounts for what was done *)

(** The identities of the requests whose mutation has returned: a reading of the action's
    state, which each mutation adds to. *)
Context (applied : R -> list string).
Context (mutate : Broker.Request -> prog R unit).

Hypothesis mutate_applies : forall r l,
  triple (fun rest => applied rest = l) (mutate r)
    (fun e rest => applied rest = match e with Done _ => Broker.b_ID r :: l | _ => l end).
Hypothesis sha256_distinct : forall a b, sha256 a = sha256 b -> a = b.

Definition requested (w : AuditWorld) (id : string) : Prop :=
  exists r, Broker.b_ID r = id /\ actionAuditRecord r "requested" ∈ aw_log w.

(** A journal of this request, which was asked for; the mutation it records has returned. *)
Definition journal_ok (w : AuditWorld) (path : string) (j : actionAuditJournal) : Prop :=
  exists r, aa_Record j = actionAuditRecord r "completed" /\ path = sha256 (Broker.b_ID r) +:+ ".json" /\
    requested w (Broker.b_ID r) /\ (aa_Mutated j = true -> Broker.b_ID r ∈ applied (aw_rest w)).

Record accounted (w : AuditWorld) : Prop := {
  journals_ok : forall path j, aw_journals w !! path = Some (Some j) -> journal_ok w path j;
  completed_applied : forall rec, rec ∈ aw_log w -> ar_Decision rec = "completed" -> ar_RequestID rec ∈ applied (aw_rest w);
  applied_requested : forall id, id ∈ applied (aw_rest w) -> requested w id;
}.

(** States that follow: the log has grown, and so has what was applied. *)
Lemma journal_ok_later w w' path j :
  journal_ok w path j -> (forall id, requested w id -> requested w' id) ->
  (forall id, id ∈ applied (aw_rest w) -> id ∈ applied (aw_rest w')) -> journal_ok w' path j.
Proof. intros (r & H1 & H2 & H3 & H4) Hr Ha. exists r. split_and!; [done|done|by apply Hr|]. intros H. by apply Ha, H4. Qed.

Lemma requested_record w rec id : requested w id -> requested (with_record w rec) id.
Proof. intros (r & H1 & H2). exists r. split; [done|]. apply elem_of_app. by left. Qed.

Lemma accounted_record w rec :
  accounted w -> (ar_Decision rec = "completed" -> ar_RequestID rec ∈ applied (aw_rest w)) -> accounted (with_record w rec).
Proof.
  intros [Hj Hc Ha] Hrec. split.
  - intros path j Hl. eapply journal_ok_later; [by apply Hj|apply requested_record|done].
  - intros rec' Hin. apply elem_of_app in Hin as [Hin|Hin]; [by apply Hc|]. by apply list_elem_of_singleton in Hin as ->.
  - intros id Hid. by apply requested_record, Ha.
Qed.

Lemma accounted_delete w path : accounted w -> accounted (with_action_journals w (delete path (aw_journals w))).
Proof. intros [Hj Hc Ha]. split; [|done..]. intros p j Hl. cbn in Hl.
  apply lookup_delete_Some in Hl as [_ Hl]. by apply Hj.
Qed.

Lemma accounted_insert w path j :
  accounted w -> journal_ok w path j -> accounted (with_action_journals w (<[path := Some j]> (aw_journals w))).
Proof.
  intros [Hj Hc Ha] Hok. split; [|done..]. intros p j' Hl. cbn in Hl.
  apply lookup_insert_Some in Hl as [[<- [= <-]]|[_ Hl]]; [done|by apply Hj].
Qed.

(** ** The programs keep the account *)

Lemma load_keeps path (P : AuditWorld -> Prop) {A} (k : option actionAuditJournal -> prog AuditWorld A) Q :
  (forall w, P w -> Q Errs w /\ Q Dies w) ->
  triple (fun w => P w /\ aw_journals w !! path = None) (k None) Q ->
  (forall j, triple (fun w => P w /\ aw_journals w !! path = Some (Some j)) (k (Some j)) Q) ->
  triple P (do j <- loadActionAudit path; k j) Q.
Proof.
  intros Hq Hn Hs. eapply (triple_bind _ _ _ (fun e w => P w /\
    match e with Done None => aw_journals w !! path = None | Done (Some j) => aw_journals w !! path = Some (Some j) | _ => True end)).
  - unfold loadActionAudit. apply look_keeps; [by split|]. intros [[j|]|].
    + destruct (_ || _); [apply triple_err|apply triple_ret]; intros w [HP Hl]; [done|]. split; [done|]. by injection Hl.
    + apply triple_err. by intros w [HP _].
    + apply triple_ret. intros w [HP Hl]. split; [done|]. by injection Hl.
  - intros [j|]; [apply Hs|apply Hn].
  - intros w [HP _]. by apply Hq.
  - intros w [HP _]. by apply Hq.
Qed.

(** Finishing a journal whose mutation was applied. *)
Lemma finish_keeps path j :
  triple (fun w => accounted w /\ ar_RequestID (aa_Record j) ∈ applied (aw_rest w)) (finishActionAudit path j)
    (fun _ => accounted).
Proof.
  eapply (triple_bind _ _ _ (fun _ => accounted)); [| |done..].
  - apply triple_call; [tauto|]. intros w a w' [Hw Ha] [= <- <-].
    assert (accounted (with_record w (aa_Record j))) by by apply accounted_record. tauto.
  - intros []. apply triple_call; [tauto|]. intros w a w' Hw [= <- <-].
    assert (accounted (with_action_journals w (delete path (aw_journals w)))) by by apply accounted_delete. tauto.
Qed.

Lemma journal_applied w path j :
  accounted w -> aw_journals w !! path = Some (Some j) -> aa_Mutated j = true -> ar_RequestID (aa_Record j) ∈ applied (aw_rest w).
Proof.
  intros [Hj _ _] Hl Hm. destruct (Hj _ _ Hl) as (r & Hr & _ & _ & Ha). rewrite Hr. cbn. by apply Ha.
Qed.

Lemma recovery_accounts skip : triple accounted (recoverActionAuditsExcept skip) (fun _ => accounted).
Proof.
  apply idle_keeps; [done|done|]. apply look_keeps; [done|]. intros names.
  apply (triple_conseq _ accounted _ _ (fun _ => accounted)); [|by intros w [? _]|done]. clear.
  induction names as [|path names IH]; cbn [recover_entries]; [by apply triple_ret|]. destruct (bool_decide _); [exact IH|].
  apply load_keeps; [done|eapply triple_conseq; [exact IH|by intros w [? _]|done]|]. intros j.
  destruct (aa_Mutated j) eqn:Em; [|eapply triple_conseq; [exact IH|by intros w [? _]|done]].
  eapply (triple_bind _ _ _ (fun _ => accounted)); [|intros []; exact IH|done..].
  eapply triple_conseq; [apply finish_keeps| |done]. intros w [Hw Hl]. split; [done|]. by eapply journal_applied.
Qed.

(** A start that lets the action go on has its requested record in the log. *)
Lemma start_keeps r :
  triple accounted (startActionAudit r)
    (fun e w => accounted w /\ (e = Done false -> requested w (Broker.b_ID r))).
Proof.
  unfold startActionAudit, actionAuditPath.
  eapply (triple_bind _ _ _ (fun e w => accounted w /\ forall p, e = Done p -> p = sha256 (Broker.b_ID r) +:+ ".json"));
    [|intros path|by intros w [? _]..].
  { apply idle_keeps; [done|done|]. apply triple_ret. intros w Hw. split; [done|]. by intros p [= <-]. }
  intros l w e l' w' [Hw Hp]. specialize (Hp path eq_refl). subst path. revert l w e l' w' Hw.
  set (path := sha256 (Broker.b_ID r) +:+ ".json").
  eapply triple_bind; [apply (recovery_accounts (Some path))| |by intros w ?..]. intros [].
  apply load_keeps; [done|..].
  - eapply (triple_bind _ _ _ (fun e w => accounted w /\ (e = Done tt -> requested w (Broker.b_ID r)))); [|intros []|by intros w [? _]..].
    + apply triple_call; [by intros w [? _]|]. intros w a w' [Hw _] [= <- <-].
      assert (accounted (with_record w (actionAuditRecord r "requested"))) by by apply accounted_record.
      split_and!; [done| |done|done|done|done]. intros _. exists r. split; [done|]. apply elem_of_app. right. by left.
    + apply (write_keeps _ (fun w => accounted w /\ requested w (Broker.b_ID r))).
      * intros w [Hw Hr]. specialize (Hr eq_refl). split; [|done]. apply accounted_insert; [done|].
        exists r. by split_and!.
      * intros w [[Hw _]|[Hw _]]; by split.
      * apply triple_ret. by intros w [Hw Hr].
  - intros j. destruct (aa_Mutated j) eqn:Em.
    + eapply (triple_bind _ _ _ (fun _ => accounted)); [|intros a; by apply triple_ret|done..].
      apply triple_attempt. eapply triple_conseq; [apply (finish_keeps path j)| |by intros []].
      intros w [Hw Hl]. split; [done|]. by eapply journal_applied.
    + apply triple_ret. intros w [Hw Hl]. split; [done|]. intros _.
      destruct Hw as [Hj _ _]. destruct (Hj _ _ Hl) as (r' & _ & Hpath & Hreq & _).
      unfold path in Hpath. apply append_right in Hpath. apply sha256_distinct in Hpath. by rewrite Hpath.
Qed.

Lemma complete_keeps r :
  triple (fun w => accounted w /\ Broker.b_ID r ∈ applied (aw_rest w)) (completeActionAudit r) (fun _ => accounted).
Proof.
  unfold completeActionAudit, actionAuditPath.
  set (P := fun w => accounted w /\ Broker.b_ID r ∈ applied (aw_rest w)).
  assert (HP : forall w, P w -> accounted w) by by intros w [? _].
  eapply (triple_bind _ _ _ (fun e w => P w /\ forall p, e = Done p -> p = sha256 (Broker.b_ID r) +:+ ".json"));
    [|intros path|by intros w [? _]; apply HP..].
  { apply idle_keeps; [done|by split|]. apply triple_ret. intros w Hw. split; [done|]. by intros p [= <-]. }
  intros l w e l' w' [Hw Hp]. specialize (Hp path eq_refl). subst path. revert l w e l' w' Hw.
  apply load_keeps; [by intros w [? _]|apply triple_err; by intros w [[? _] _]|]. intros j.
  set (path := sha256 (Broker.b_ID r) +:+ ".json").
  assert (Hid : forall w, accounted w -> aw_journals w !! path = Some (Some j) ->
            exists r', aa_Record j = actionAuditRecord r' "completed" /\ Broker.b_ID r' = Broker.b_ID r /\ requested w (Broker.b_ID r)).
  { intros w [Hj _ _] Hl. destruct (Hj _ _ Hl) as (r' & Hr & Hpath & Hreq & _). exists r'.
    unfold path in Hpath. apply append_right, sha256_distinct in Hpath. rewrite Hpath. by split_and!. }
  apply (write_keeps _ (fun w => accounted w /\ ar_RequestID (aa_Record j) ∈ applied (aw_rest w))).
  - intros w [[Hw Ha] Hl]. destruct (Hid w Hw Hl) as (r' & Hr & He & Hreq). split.
    + apply accounted_insert; [done|]. exists r'. rewrite He. by split_and!.
    + cbn. rewrite Hr. cbn. by rewrite He.
  - intros w [[[Hw _] _]|[Hw _]]; by split.
  - apply (finish_keeps path {| aa_Record := aa_Record j; aa_Mutated := true |}).
Qed.

Lemma mutate_keeps r :
  triple (fun w => accounted w /\ requested w (Broker.b_ID r)) (on_rest (mutate r))
    (fun e w => accounted w /\ (e = Done tt -> Broker.b_ID r ∈ applied (aw_rest w))).
Proof.
  intros l w e l' w' [[Hj Hc Ha] Hr]. unfold on_rest. destruct (mutate r l (aw_rest w)) as [[e1 l1] rest] eqn:E.
  intros [= <- <- <-]. apply (mutate_applies r (applied (aw_rest w))) in E; [|done].
  assert (Hincl : forall id, id ∈ applied (aw_rest w) -> id ∈ applied rest).
  { intros id Hid. destruct e1; rewrite E; [by right|done|done]. }
  split.
  - split.
    + intros path j Hl. eapply journal_ok_later; [by apply Hj|done|done].
    + intros rec Hin Hd. cbn. by apply Hincl, Hc.
    + intros id Hid. cbn in Hid. destruct e1; rewrite E in Hid; [|by apply Ha|by apply Ha].
      apply elem_of_cons in Hid as [->|Hid]; [done|by apply Ha].
  - intros ->. cbn. rewrite E. by left.
Qed.

Lemma execute_keeps r : triple accounted (execute_audited (mutate r) r) (fun _ => accounted).
Proof.
  eapply triple_bind; [apply start_keeps| |by intros w [? _]..]. intros [|]; [apply triple_ret; by intros w [? _]|].
  apply (triple_conseq _ (fun w => accounted w /\ requested w (Broker.b_ID r)) _ _ (fun _ => accounted)); [|by intros w [? Hr]; split; [|apply Hr]|done].
  eapply triple_bind; [apply mutate_keeps| |by intros w [? _]..]. intros [].
  eapply (triple_bind _ _ _ (fun _ => accounted)); [|intros a; by apply triple_ret|done..]. apply triple_attempt.
  eapply triple_conseq; [apply complete_keeps|by intros w [? Ha]; split; [|apply Ha]|by intros []].
Qed.

(** Any number of executions, each with the faults it meets. *)
Fixpoint run_executions (rs : list (Broker.Request * list fault)) (w : AuditWorld) : AuditWorld :=
  match rs with
  | [] => w
  | (r, faults) :: rs => run_executions rs (execute_audited (mutate r) r faults w).2
  end.

(** C38: wherever executions of approved actions fail or die, the audit log accounts for
    them: nothing was applied without a requested record of it, and no completed record
    names a request that was not applied. *)
Theorem actions_accounted rs w :
  accounted w -> let w' := run_executions rs w in
  (forall id, id ∈ applied (aw_rest w') -> requested w' id) /\
  (forall rec, rec ∈ aw_log w' -> ar_Decision rec = "completed" -> ar_RequestID rec ∈ applied (aw_rest w')).
Proof.
  intros Hw. cut (accounted (run_executions rs w)); [by intros [_ ? ?]; split|].
  revert w Hw. induction rs as [|[r faults] rs IH]; intros w Hw; [done|]. cbn [run_executions].
  destruct (execute_audited (mutate r) r faults w) as [[e l] w1] eqn:E. apply IH. by eapply (execute_keeps r).
Qed.

End Audit.

(** ** A concrete action

    It notes which requests it was run for. *)

Definition demo_mutate (r : Broker.Request) : prog (list string) unit :=
  check ;; (fun faults l => (Done tt, faults, Broker.b_ID r :: l)).

Lemma demo_mutate_applies r l :
  triple (fun rest => rest = l) (demo_mutate r) (fun e rest => rest = match e with Done _ => Broker.b_ID r :: l | _ => l end).
Proof. apply idle_keeps; [done|done|]. by intros fs s e fs' s' -> [= <- <- <-]. Qed.

Definition demo_action (id : string) : Broker.Request :=
  {| Broker.b_ID := id; Broker.b_Plane := "operator"; Broker.b_SessionID := ""; Broker.b_RepoRoot := "/repo"; Broker.b_Host := "";
     Broker.b_Scope := Broker.GlobalScope; Broker.b_Reason := ""; Broker.b_Action := "web-research-set";
     Broker.b_Parameters := {["enforcement" := "on"]}; Broker.b_IssuedAt := 0%Z; Broker.b_ExpiresAt := 9%Z;
     Broker.b_Status := "executing"; Broker.b_Transport := ""; Broker.b_CredentialFingerprint := ""; Broker.b_ApprovalURL := "" |}.

(** The first execution dies before its journal says that it was applied; the second
    succeeds; then the first is executed again. *)
Definition demo_executions : list (Broker.Request * list fault) :=
  [(demo_action "r1", replicate 12 Fine ++ [Crash]); (demo_action "r2", []); (demo_action "r1", [])].
Definition demo_audit : @AuditWorld (list string) := {| aw_journals := ∅; aw_log := []; aw_rest := [] |}.
Definition demo_audited : @AuditWorld (list string) := run_executions (fun s => s) demo_mutate demo_executions demo_audit.

Lemma actions_accounted_witness :
  ((forall id, id ∈ aw_rest demo_audited -> requested demo_audited id) /\
   (forall rec, rec ∈ aw_log demo_audited -> ar_Decision rec = "completed" -> ar_RequestID rec ∈ aw_rest demo_audited)) /\
  map (fun rec => (ar_RequestID rec, ar_Decision rec)) (aw_log demo_audited) =
    [("r1", "requested"); ("r2", "requested"); ("r2", "completed"); ("r1", "completed")].
Proof.
  split; [|vm_compute; reflexivity].
  apply (actions_accounted (fun s => s) (fun l => l) demo_mutate demo_mutate_applies (fun a b H => H) demo_executions demo_audit).
  split.
  - intros path j H. cbn in H. by apply lookup_empty_Some in H.
  - intros rec H. by apply elem_of_nil in H.
  - intros id H. by apply elem_of_nil in H.
Defined.

(** A mutation that returned is run once more when the process died before its journal
    said so: journals make actions accountable, not exactly-once. *)
Example applied_twice : aw_rest demo_audited = ["r1"; "r2"; "r1"].
Proof. by vm_compute. Qed.
